(* ===== verification/_CoqProject ===== *)
-Q . S2P
Prelude.v
AddressManager.v
TTLLock.v
TensorAllocator.v
Keys.v
L1Memory.v
L1Manager.v
L1ManagerInv.v
L1ManagerProps.v
L1Staging.v
L1ManagerOps.v
Bitmap.v
Fold.v
PyFloat.v
EvictionPolicy.v
ARC.v
Grid.v
PrefetchPolicy.v
L2Adapter.v
EvictionController.v
Handler.v
StoreController.v
Cells.v
PrefetchController.v
PrefetchMoves.v
PrefetchLoad.v
PrefetchInv.v
PrefetchBalance.v
PrefetchTiers.v
PrefetchProps.v
StorageManager.v
StorageRouting.v
StorageTiers.v
StorageProps.v
TokenHasher.v
BlendIndex.v
EventGate.v
Placements.v
UsageManager.v
KeyDirectory.v
KeyDirectoryInv.v
DirectoryBlend.v
DirectoryProps.v
DirectoryRestore.v
Coordinator.v
CacheEvents.v
CacheEventsInv.v
CacheEventsProps.v
FleetFeed.v
ServerConfig.v
FleetEviction.v
OperatorApi.v
Membership.v
Quiesce.v
Checkpoint.v
