(* ===== verification/Prelude.v ===== *)
(** * LMCache: a verification development

    LMCache keeps the key-value caches of an LLM server in tiers: L1, memory
    managed in this process, and L2, external stores reached through adapters.
    This library models the tiering core of the multi-process mode
    (src/lmcache/v1/distributed and what it uses of src/lmcache/v1 and
    src/csrc/lmcache_native), the hashing of tokens into keys, and the
    coordinator's record of what a fleet of servers holds, and proves what makes
    them correct.

    ** The program, and where its parts are modelled

    An object is named by an [ObjectKey]. A request key is expanded into rows of
    object keys, one row per object group and rank, one column per chunk.
    - Keys.v: api.py, multiprocess/custom_types.py and the coordinator's
      encoding.py - keys, their validation and encodings, the expansion.

    Objects live in memory taken from a heap.
    - AddressManager.v: [AddressManager] of memory_management.py, the first-fit
      free list; a [SortedList] is the sorted list of its elements.
    - TensorAllocator.v: [TensorMemoryObj] and the tensor allocator. Objects are
      shared, so they live in a store indexed by identity ([oid]).
    - L1Memory.v: the lazily growing and the mixed allocator,
      [L1MemoryManager], and the protocol that the L1 manager uses it through:
      a class of operations and a class of laws, with their instance.

    The L1 manager hands out reservations: a writer stages an object under a
    tag and then publishes it; readers lock published objects. Reservations
    expire.
    - TTLLock.v: csrc ttl_lock.cpp, sequentially and at the granularity of its
      atomic accesses.
    - L1Manager.v: [BaseL1Manager] of l1_manager/base.py, every operation, as
      functions in a state and exception monad with a clock and the log of
      notifications; L1ManagerInv.v: its invariant; L1ManagerProps.v: histories;
      L1Staging.v: a staged write through histories of other calls;
      L1ManagerOps.v: what each operation does, key by key.

    What tiers hold is computed with bitmaps.
    - Bitmap.v: csrc bitmap.cpp on bytes; Fold.v: bitmap_ops/fold.py and csrc
      fold.cpp; Grid.v: [Bitmap2D] and [MapState] of
      storage_controllers/utils.py.

    What leaves a tier is decided by policies that listen to it.
    - PyFloat.v: Python numbers, with IEEE binary64 floats; EvictionPolicy.v:
      the policy interface, LRU, per-salt LRU and no-op; ARC.v: the ARC policy.
    - EvictionController.v: quota_manager.py, the listeners of eviction.py, the
      policy factory and the passes of eviction_controller.py.

    L2 adapters run tasks in the background.
    - L2Adapter.v: the byte accounting of l2_adapters/base.py and the in-memory
      adapter, whose tasks start and finish in any order.

    Controllers move objects between the tiers.
    - PrefetchPolicy.v: store_policy.py and prefetch_policy.py.
    - StoreController.v: store_controller.py, L1 to L2, with adapters attached
      and detached at runtime; written against classes for the L1 manager and
      for the store side of an adapter, which the models of both discharge.
    - Handler.v: the state and exception monad of the controllers, with the
      weakest precondition [hwp] that the invariants are proved with.
    - Cells.v: the helpers of prefetch_controller.py between grids and keys.
    - PrefetchController.v: prefetch_controller.py, L2 to L1: every method, the
      loop and the calls of other threads, on a [World] of L1 managers and L2
      adapters reached through classes, with a log of what they granted.
      PrefetchMoves.v: the laws of those classes and what each walk over cells
      does to the log; PrefetchLoad.v: the staging of a load; PrefetchInv.v:
      each method on one request; PrefetchBalance.v: the invariant of the
      controller; PrefetchTiers.v: the models of the L1 manager, the in-memory
      adapter and the policies satisfy the laws; PrefetchProps.v: histories and
      the theorems.

    The storage manager is what a server calls: it routes keys to L1 managers
    and hands requests to the controllers.
    - StorageManager.v: storage_manager.py - routing, writes, reads, prefetches,
      deletion; StorageRouting.v: what the routing loops do, key by key;
      StorageTiers.v: the L1 managers it is proved against, with the class they
      instantiate; StorageProps.v: the theorems.

    Servers name chunks by hashes of their tokens.
    - TokenHasher.v: multiprocess/token_codec.py, token_hasher.py and the hash
      cache of a session (session.py). The digest is a parameter.

    The coordinator follows a fleet of servers through the batches of events
    they send, in src/lmcache/v1/mp_coordinator.
    - EventGate.v: api.py and ingest/ - batches, the broadcaster, the gate that
      admits each batch once, checkpoints and stream positions.
    - Placements.v: the specification of the views, a map from placement
      identities; UsageManager.v: views/usage_manager.py, bytes per tier, key,
      salt and server.
    - BlendIndex.v: blend_index.py, chunks by the fingerprint of their content.
    - KeyDirectory.v: views/key_directory.py, who holds a key, the tokens of a
      chunk, fragment queries, durable state; KeyDirectoryInv.v: its invariant;
      DirectoryBlend.v: its blend index against its bindings; DirectoryProps.v
      and DirectoryRestore.v: histories, queries and restarts.
    - Coordinator.v: both views behind one gate, as app.py registers them.
    - CacheEvents.v: cache_events.py, on the server's side - the subscriber that
      turns bus events into numbered batches, and its sinks, an interface with
      its laws; CacheEventsInv.v: the sinks satisfy the laws, and the invariant
      of the subscriber; CacheEventsProps.v: histories of bus events.
    - FleetFeed.v: emitter, network, gate and key directory together.
    - ServerConfig.v: views/server_config.py, the capacities servers declare.
    - FleetEviction.v: controllers/eviction_controller.py, quotas across the
      fleet, with the usage view consuming first; pins.
    - OperatorApi.v: controllers/eviction_http_api.py, persistence/metadata.py and
      store.py, and multiprocess/cache_control/key_resolver.py - what operators
      set, and the document that keeps it. JSON is a parameter.
    - Membership.v: views/instance_registry.py, http_apis/instances_api.py,
      dependencies.py and the health sweep of app.py.
    - Quiesce.v: persistence/quiesce.py, the lock between ingest and captures, as
      a transition system of threads; Checkpoint.v: persistence/checkpoint.py and
      store.py, captures saved to a file that system calls fail on and crashes
      interrupt, and loaded again. msgpack is a parameter.

    ** Conventions

    A Python call that can raise returns [py A]; code that also changes state
    returns the state in both cases. A Python dictionary is an association list
    in insertion order ([dict]) and an ordered dictionary used as a set is a
    list. Integers are [Z] and sizes of vectors [nat]; 8-bit and 64-bit
    arithmetic of the C++ code is reduced to its width where it can overflow.
    A method that runs under a lock is one step. What other threads do is a
    step of a history between two calls.

    ** What the theorems show

    - Memory: live allocations are disjoint and complement the free list; the
      batched operations equal iterated single ones; nothing is freed twice;
      the background growth of the heap terminates.
    - L1: if no write reservation names a key twice, in every reachable state each
      object owns one live allocation and no call raises; a read reservation keeps
      its object, and a write that is finished in time is read back, whatever runs
      in between; every operation has a specification on every branch.
    - Locks: counting and expiry, and an interleaving that loses a lock.
    - Keys: encodings are inverted, both expansions of a request agree, and
      lookups ask for what workers store.
    - Hits: the fold computes the longest prefix every row can serve, the
      native kernels equal the reference ones, and the prefetch plan takes
      every needed cell from its first holder.
    - Eviction: LRU evicts the least recently used keys, per-salt LRU is LRU on
      each salt, ARC never raises and keeps its lists consistent; a quota pass
      evicts from exactly the salts over budget; the policy tracks exactly what
      the adapter reported and the byte counters are right.
    - Controllers: the store controller neither loses nor doubles a read lock,
      whatever raises, and no exception ends its loop. The prefetch
      controller's records equal what L1 managers granted (and, of read locks,
      refused: it does not tell the difference) and what the lookups it took
      the result of locked in L2, in every history; a request in its load phase has exactly the buffers
      staged that it loads into; hits are the longest servable prefix, split
      into what L1 held and what was loaded.
    - Storage manager: what is written is read back, through any mixture of L1
      managers; a read gives back its locks, whatever its body does; probing
      equals asking each owner if a key is locked in one L1 only (both while no
      read lock expires during the call); deletions are counted per key.
    - Hashing: a chunk's hash names its whole prefix, up to collisions of the
      digest; a session's cache answers what hashing from scratch would; the
      rolling window hash equals the direct one.
    - Coordinator: every server's batches reach the views once and in order, and
      a restart replays to the same state if no server left; usage view and key directory refine
      one map of placements, agree with each other, and untagged keys survive
      capture and restore; fragment queries return stored chunks with the query's tokens.
    - Emitter: batches are numbered without holes and say what the bus events
      said, in their order; what is pending goes out with the first due tick; the
      token cache is bounded and never wrong. End to end, over a network that
      loses, repeats and reorders, the directory and the declared capacities are
      the server's own whenever the gate reports no gap, while it stays registered.
    - Fleet: the eviction plan takes the least recently used unpinned keys, by
      the delivered batches, of exactly the salts over budget; operators' pins and quotas survive a restart
      and refused requests change nothing; deletions spare pinned chunks; a
      server that leaves takes with it all that is known of its memory.
    - Checkpoints: under every interleaving a capture is the state after whole
      batches, no thread waits forever and no batch is lost; whatever fails or
      crashes during a save, a start finds a capture of one moment or the old
      one, and components that keep their contract are restored from it.

    Fuel is used in five places: the loop that clears the lowest set bit of a
    byte runs at most 8 times; the expansion worker's fuel is the number of
    chunks left, which its termination theorem shows to be enough; doubling
    the blend index's filter gets the size it must reach as fuel (lemma
    [grow_enough]); cutting an eviction plan into requests gets the number of
    its keys (lemma [delete_batches_ok]); and the search for a histogram's bucket
    halves a range whose length it gets.

    ** Not modelled

    Tensor contents and device copies; the finalizers of memory objects; the
    buffer allocator for binary objects; NUMA, mlock, shared memory and device
    pinning (pinning a chunk is a parameter that can fail); logging, gauges and
    tracing; configuration parsing; the adapters for external stores, and the
    attaching of adapters and status reports of the storage manager;
    serialization kernels and transports; the table of sessions and the loading
    of hash functions from vLLM; of the emitter, its trace sink; of the
    coordinator, listing and status services, validation of request bodies, the
    JSON text, discovery, background loops and the sending of requests, counters
    of served lookups and prefetch requests to servers; the
    integrations with inference engines; the older in-process mode, the command
    line, tools and examples. *)

From stdpp Require Import gmap strings list fin_maps relations sorting.
From Stdlib Require Import ZArith Lia.

#[global] Set Default Goal Selector "!".
#[global] Unset Printing Records.

(** ** Notations, hints and tactics *)

Declare Scope py_scope.
Delimit Scope py_scope with py.

(** The rewriting and resolution databases of the development: [py_dict]
    holds the equations of Python dictionaries and ordered sets, [py_arith]
    the facts on bytes and sizes. *)
Create HintDb py_dict.
Create HintDb py_arith.
Create Rewrite HintDb py_dict.
Create Rewrite HintDb py_arith.

(** [split_ifs] cases on every [decide] and boolean test of the goal. *)
Ltac split_ifs :=
  repeat (case_decide || case_bool_decide || case_match); simplify_eq.

(** [destruct_let H] destructs the innermost pair-producing calls of [H]. *)
Ltac destruct_lets :=
  repeat match goal with
  | H : context [let '(_, _) := ?e in _] |- _ => destruct e eqn:?
  | |- context [let '(_, _) := ?e in _] => destruct e eqn:?
  end.

(** ** Exceptions

    A Python call that can raise returns [py A]: a value or the exception's
    class. *)
Inductive exn : Type :=
  | ValueError | RuntimeError | KeyError | TypeError | AssertionError
  | NotImplementedError | ImportError | IndexError | ZeroDivisionError | OverflowError
  | CacheEventPublishError | OSError | MetadataFormatError | MetadataWriteError
  | TimeoutError | ArtifactNotFoundError | CheckpointFormatError.

#[export] Instance exn_eq_dec : EqDecision exn.
Proof. solve_decision. Defined.

Inductive py (A : Type) : Type :=
  | Ret (a : A)
  | Raise (e : exn).
Arguments Ret {A} _.
Arguments Raise {A} _.

Definition py_bind {A B} (c : py A) (k : A → py B) : py B :=
  match c with Ret a => k a | Raise e => Raise e end.

Notation "'let!' x := c 'in' k" := (py_bind c (λ x, k))
  (at level 10, x binder, c at level 100, k at level 200) : py_scope.

(** [[f(x) for x in l]] where [f] can raise. *)
Fixpoint py_map {A B} (f : A → py B) (l : list A) : py (list B) :=
  match l with
  | [] => Ret []
  | x :: l' => py_bind (f x) (λ y, py_bind (py_map f l') (λ ys, Ret (y :: ys)))
  end.

(** [l[i]]: a negative index counts from the end. *)
Definition py_index {A} (l : list A) (i : Z) : py A :=
  let n := Z.of_nat (length l) in
  let j := if (i <? 0)%Z then (i + n)%Z else i in
  if (j <? 0)%Z then Raise IndexError
  else match l !! Z.to_nat j with Some x => Ret x | None => Raise IndexError end.

Lemma py_map_Ret {A B} (f : A → py B) l ys :
  py_map f l = Ret ys ↔ Forall2 (λ x y, f x = Ret y) l ys.
Proof.
  revert ys. induction l as [|x l IH]; simpl; intros ys.
  - split; [intros [= <-]; constructor|]. by intros ->%Forall2_nil_inv_l.
  - split.
    + destruct (f x) as [y|] eqn:Hf; [|done]. simpl. destruct (py_map f l) as [ys'|]; [|done].
      intros [= <-]. constructor; [done|]. by apply IH.
    + intros (y & ys' & Hf & Hl & ->)%Forall2_cons_inv_l. apply IH in Hl. by rewrite Hf, Hl.
Qed.

Lemma py_map_pure {A B} (f : A → B) l : py_map (λ x, Ret (f x)) l = Ret (f <$> l).
Proof. induction l as [|x l IH]; simpl; [done|]. by rewrite IH. Qed.

(** ** Generic list lemmas *)

Section lists.
Context {A : Type}.
Implicit Types (l : list A).

(** Sum of a [Z]-valued measure over a list. *)
Definition zsum (f : A → Z) l : Z := foldr (λ x s, f x + s)%Z 0%Z l.

Lemma zsum_nil f : zsum f [] = 0%Z.
Proof. done. Qed.
Lemma zsum_cons f x l : zsum f (x :: l) = (f x + zsum f l)%Z.
Proof. done. Qed.
Lemma zsum_app f l1 l2 : zsum f (l1 ++ l2) = (zsum f l1 + zsum f l2)%Z.
Proof. induction l1 as [|x l1 IH]; simpl; lia. Qed.
Lemma zsum_perm f l1 l2 : l1 ≡ₚ l2 → zsum f l1 = zsum f l2.
Proof. induction 1; simpl; lia. Qed.
Lemma zsum_nonneg f l : (∀ x, x ∈ l → 0 ≤ f x)%Z → (0 ≤ zsum f l)%Z.
Proof.
  induction l as [|x l IH]; simpl; [lia|]. intros H.
  pose proof (H x ltac:(left)). opose proof (IH _); [|lia].
  intros y Hy. apply H. by right.
Qed.
Lemma zsum_ext f g l : (∀ x, x ∈ l → f x = g x) → zsum f l = zsum g l.
Proof.
  induction l as [|x l IH]; simpl; [done|]. intros H.
  rewrite (H x) by left. f_equal. apply IH. intros y Hy. apply H. by right.
Qed.

(** Folding a state transformer that keeps an invariant keeps it. *)
Lemma foldl_inv {S} (P : S → Prop) (f : S → A → S) l s :
  P s → (∀ s x, x ∈ l → P s → P (f s x)) → P (foldl f s l).
Proof.
  revert s. induction l as [|x l IH]; simpl; intros s Hs Hf; [done|].
  apply IH; [apply Hf; [left|done]|]. intros s' y Hy. apply Hf. by right.
Qed.

Lemma foldl_app {S} (f : S → A → S) l1 l2 s :
  foldl f s (l1 ++ l2) = foldl f (foldl f s l1) l2.
Proof. revert s. induction l1; simpl; auto. Qed.
End lists.

#[export] Hint Rewrite @zsum_nil @zsum_cons @zsum_app : py_arith.

(** ** Ordered sets: [OrderedDict[K, None]]

    The keys of an [OrderedDict] whose values are [None], oldest first. *)
Section oset.
Context {K : Type} `{EqDecision K}.
Implicit Types (k x : K) (l : list K).

Definition oset_mem k l : bool := bool_decide (k ∈ l).

(** [del d[k]] (or [d.pop(k, None)]). *)
Definition oset_del k l : list K := filter (λ x, x ≠ k) l.

(** [d.move_to_end(k)]. *)
Definition oset_move_to_end k l : list K := oset_del k l ++ [k].

(** [d[k] = None]: an existing key keeps its position. *)
Definition oset_set k l : list K := if oset_mem k l then l else l ++ [k].

Lemma elem_of_oset_del k x l : x ∈ oset_del k l ↔ x ∈ l ∧ x ≠ k.
Proof. unfold oset_del. rewrite list_elem_of_filter. tauto. Qed.
Lemma elem_of_oset_move k x l : x ∈ oset_move_to_end k l ↔ x ∈ l ∨ x = k.
Proof.
  unfold oset_move_to_end. rewrite elem_of_app, elem_of_oset_del, list_elem_of_singleton.
  destruct (decide (x = k)); naive_solver.
Qed.
Lemma elem_of_oset_set k x l : x ∈ oset_set k l ↔ x ∈ l ∨ x = k.
Proof.
  unfold oset_set, oset_mem. case_bool_decide; [naive_solver|].
  rewrite elem_of_app, list_elem_of_singleton. done.
Qed.

Lemma oset_mem_true k l : oset_mem k l = true ↔ k ∈ l.
Proof. apply bool_decide_eq_true. Qed.
Lemma oset_mem_false k l : oset_mem k l = false ↔ k ∉ l.
Proof. apply bool_decide_eq_false. Qed.

Lemma NoDup_oset_del k l : NoDup l → NoDup (oset_del k l).
Proof. apply NoDup_filter. Qed.
Lemma NoDup_oset_move k l : NoDup l → NoDup (oset_move_to_end k l).
Proof.
  intros H. apply NoDup_app. split; [by apply NoDup_oset_del|]. split.
  - intros x [_ Hx]%elem_of_oset_del ->%list_elem_of_singleton. done.
  - apply NoDup_singleton.
Qed.
Lemma NoDup_oset_set k l : NoDup l → NoDup (oset_set k l).
Proof.
  unfold oset_set, oset_mem. case_bool_decide; [done|]. intros Hl.
  apply NoDup_app. split; [done|]. split; [|apply NoDup_singleton].
  intros x Hx ->%list_elem_of_singleton. done.
Qed.

Lemma oset_del_notin k l : k ∉ l → oset_del k l = l.
Proof.
  intros Hk. unfold oset_del. induction l as [|x l IH]; [done|].
  rewrite filter_cons, decide_True, IH; set_solver.
Qed.

Lemma length_oset_del k l :
  NoDup l → k ∈ l → S (length (oset_del k l)) = length l.
Proof.
  unfold oset_del. induction l as [|x l IH]; [set_solver|].
  intros [Hx Hl]%NoDup_cons [->|Hk]%elem_of_cons; rewrite filter_cons.
  - rewrite decide_False by naive_solver. f_equal/=.
    pose proof (oset_del_notin x l Hx) as E. unfold oset_del in E. by rewrite E.
  - rewrite decide_True by set_solver. simpl. by rewrite IH.
Qed.

Lemma length_oset_del_le k l : length (oset_del k l) ≤ length l.
Proof. apply length_filter. Qed.

Lemma length_oset_move k l :
  NoDup l → k ∈ l → length (oset_move_to_end k l) = length l.
Proof.
  intros. unfold oset_move_to_end. rewrite length_app. simpl.
  rewrite <-(length_oset_del k l) by done. lia.
Qed.
End oset.

(** [set_solver] sees through the ordered-set operations. *)
Section oset_unfold.
Context {K : Type} `{EqDecision K}.

#[export] Instance set_unfold_oset_del (x k : K) l P :
  SetUnfoldElemOf x l P → SetUnfoldElemOf x (oset_del k l) (P ∧ x ≠ k).
Proof. intros [HP]. constructor. by rewrite elem_of_oset_del, HP. Qed.
#[export] Instance set_unfold_oset_set (x k : K) l P :
  SetUnfoldElemOf x l P → SetUnfoldElemOf x (oset_set k l) (P ∨ x = k).
Proof. intros [HP]. constructor. by rewrite elem_of_oset_set, HP. Qed.
#[export] Instance set_unfold_oset_move (x k : K) l P :
  SetUnfoldElemOf x l P → SetUnfoldElemOf x (oset_move_to_end k l) (P ∨ x = k).
Proof. intros [HP]. constructor. by rewrite elem_of_oset_move, HP. Qed.
End oset_unfold.

#[export] Hint Rewrite @elem_of_oset_del @elem_of_oset_move @elem_of_oset_set : py_dict.
#[export] Hint Resolve NoDup_oset_del NoDup_oset_move NoDup_oset_set : py_dict.

(** ** Python dictionaries

    A [dict] iterates in insertion order, and assigning to an existing key
    keeps its position: an association list with distinct keys. *)
Abbreviation dict K V := (list (K * V)) (only parsing).

Section dict.
Context {K V : Type} `{EqDecision K}.

Implicit Types (d : list (K * V)) (k : K) (v : V).

Fixpoint dget k d : option V :=
  match d with
  | [] => None
  | (k', v) :: d' => if decide (k' = k) then Some v else dget k d'
  end.

(** [k in d]. *)
Definition dmem k d : bool := match dget k d with Some _ => true | None => false end.

Fixpoint dset k v d : list (K * V) :=
  match d with
  | [] => [(k, v)]
  | (k', v') :: d' =>
      if decide (k' = k) then (k', v) :: d' else (k', v') :: dset k v d'
  end.

Definition ddel k d : list (K * V) := filter (λ p, p.1 ≠ k) d.

Definition dkeys d : list K := d.*1.
Definition dvalues d : list V := d.*2.

Lemma dget_dset k k' v d :
  dget k (dset k' v d) = if decide (k' = k) then Some v else dget k d.
Proof.
  induction d as [|[k'' v''] d IH]; simpl; [done|].
  split_ifs; simpl; split_ifs; try done; congruence.
Qed.
Lemma dget_dset_eq k v d : dget k (dset k v d) = Some v.
Proof. rewrite dget_dset. by rewrite decide_True. Qed.
Lemma dget_dset_ne k k' v d : k' ≠ k → dget k (dset k' v d) = dget k d.
Proof. intros. rewrite dget_dset. by rewrite decide_False. Qed.
Lemma dget_ddel k k' d :
  dget k (ddel k' d) = if decide (k' = k) then None else dget k d.
Proof.
  unfold ddel. induction d as [|[k'' v''] d IH]; [simpl; by split_ifs|].
  rewrite filter_cons. simpl dget at 2. split_ifs; simpl in *; split_ifs; try done; congruence.
Qed.
Lemma dget_ddel_eq k d : dget k (ddel k d) = None.
Proof. rewrite dget_ddel. by rewrite decide_True. Qed.
Lemma dget_ddel_ne k k' d : k' ≠ k → dget k (ddel k' d) = dget k d.
Proof. intros. rewrite dget_ddel. by rewrite decide_False. Qed.

Lemma dget_Some_elem k v d : dget k d = Some v → (k, v) ∈ d.
Proof.
  induction d as [|[k' v'] d IH]; simpl; [done|].
  split_ifs; intros; simplify_eq; [left|right]; auto.
Qed.
Lemma dget_None k d : dget k d = None ↔ k ∉ dkeys d.
Proof.
  unfold dkeys. induction d as [|[k' v'] d IH]; simpl; [set_solver|].
  split_ifs; set_solver.
Qed.
Lemma dget_is_Some k d : is_Some (dget k d) ↔ k ∈ dkeys d.
Proof.
  rewrite <-not_eq_None_Some, dget_None. destruct (decide (k ∈ dkeys d)); tauto.
Qed.
Lemma elem_dget k v d : NoDup (dkeys d) → (k, v) ∈ d → dget k d = Some v.
Proof.
  unfold dkeys. induction d as [|[k' v'] d IH]; simpl; [set_solver|].
  intros [Hk Hd]%NoDup_cons [?|Hin]%elem_of_cons; simplify_eq.
  - by rewrite decide_True.
  - rewrite decide_False; [by auto|]. intros ->. apply Hk.
    apply list_elem_of_fmap. by exists (k, v).
Qed.

Lemma dmem_true k d : dmem k d = true ↔ k ∈ dkeys d.
Proof.
  unfold dmem. rewrite <-dget_is_Some. destruct (dget k d); split; try done.
Qed.
Lemma dmem_false k d : dmem k d = false ↔ k ∉ dkeys d.
Proof. rewrite <-dmem_true. destruct (dmem k d); naive_solver. Qed.

Lemma dset_notin k v d : k ∉ dkeys d → dset k v d = d ++ [(k, v)].
Proof.
  unfold dkeys. induction d as [|[k' v'] d IH]; simpl; [done|]. intros Hk.
  rewrite decide_False by set_solver. by rewrite IH by set_solver.
Qed.
Lemma dkeys_dset k v d :
  dkeys (dset k v d) = if decide (k ∈ dkeys d) then dkeys d else dkeys d ++ [k].
Proof.
  unfold dkeys. induction d as [|[k' v'] d IH]; [done|]. simpl dset.
  destruct (decide (k' = k)) as [->|Hne]; rewrite !fmap_cons; simpl.
  - by rewrite decide_True by left.
  - rewrite IH. split_ifs; set_solver.
Qed.
Lemma elem_dkeys_dset x k v d : x ∈ dkeys (dset k v d) ↔ x ∈ dkeys d ∨ x = k.
Proof. rewrite dkeys_dset. split_ifs; set_solver. Qed.
Lemma elem_dkeys_ddel x k d : x ∈ dkeys (ddel k d) ↔ x ∈ dkeys d ∧ x ≠ k.
Proof.
  rewrite <-!dget_is_Some, dget_ddel. split_ifs; split; try naive_solver.
Qed.
Lemma NoDup_dset k v d : NoDup (dkeys d) → NoDup (dkeys (dset k v d)).
Proof.
  rewrite dkeys_dset. split_ifs; [done|]. intros. apply NoDup_app.
  split; [done|]. split; [|apply NoDup_singleton]. set_solver.
Qed.
Lemma dkeys_ddel k d : dkeys (ddel k d) = oset_del k (dkeys d).
Proof.
  unfold dkeys, ddel, oset_del. induction d as [|[k' v'] d IH]; [done|].
  rewrite filter_cons. csimpl. rewrite filter_cons. simpl.
  split_ifs; csimpl; by rewrite IH.
Qed.
Lemma NoDup_ddel k d : NoDup (dkeys d) → NoDup (dkeys (ddel k d)).
Proof. rewrite dkeys_ddel. apply NoDup_oset_del. Qed.

Lemma ddel_notin k d : k ∉ dkeys d → ddel k d = d.
Proof.
  unfold dkeys, ddel. induction d as [|[k' v'] d IH]; [done|].
  intros Hk. rewrite filter_cons. csimpl in *. rewrite decide_True by set_solver.
  by rewrite IH by set_solver.
Qed.

Lemma ddel_dset k v d : ddel k (dset k v d) = ddel k d.
Proof.
  unfold ddel. induction d as [|[k' v'] d IH]; simpl dset.
  - by rewrite filter_cons, decide_False by naive_solver.
  - destruct (decide (k' = k)); rewrite !filter_cons; simpl; split_ifs; try done. by rewrite IH.
Qed.
Lemma dset_dset k v v' d : dset k v (dset k v' d) = dset k v d.
Proof.
  induction d as [|[k' v''] d IH]; simpl; [by rewrite decide_True|].
  split_ifs; simpl; split_ifs; try done. by rewrite IH.
Qed.

(** The entry of a present key can be moved to the front. *)
Lemma dget_perm k v d :
  NoDup (dkeys d) → dget k d = Some v → d ≡ₚ (k, v) :: ddel k d.
Proof.
  unfold dkeys, ddel. induction d as [|[k' v'] d IH]; [done|].
  rewrite filter_cons, fmap_cons. simpl. intros [Hk' Hd]%NoDup_cons.
  split_ifs; intros; simplify_eq/=.
  - pose proof (ddel_notin k d Hk') as E. unfold ddel in E. by rewrite E.
  - rewrite IH at 1 by done. apply Permutation_swap.
Qed.
Lemma dset_perm k v d :
  NoDup (dkeys d) → dset k v d ≡ₚ (k, v) :: ddel k d.
Proof.
  intros Hd. rewrite (dget_perm k v (dset k v d)).
  - by rewrite ddel_dset.
  - by apply NoDup_dset.
  - apply dget_dset_eq.
Qed.
End dict.

#[export] Hint Rewrite @dget_dset_eq @dget_ddel_eq : py_dict.
#[export] Hint Rewrite @dget_dset_ne @dget_ddel_ne using done : py_dict.
#[export] Hint Resolve NoDup_dset NoDup_ddel : py_dict.

(** ** Sums, and sums over dictionaries *)

Section sums.
Open Scope Z_scope.

Lemma filter_all {A} (P : A → Prop) `{∀ x, Decision (P x)} (l : list A) : (∀ x, x ∈ l → P x) → filter P l = l.
Proof.
  induction l as [|x l IH]; intros Hl; [done|]. rewrite filter_cons, decide_True by (apply Hl; left).
  f_equal. apply IH. intros; apply Hl; by right.
Qed.

Lemma filter_none {A} (P : A → Prop) `{∀ x, Decision (P x)} (l : list A) : (∀ x, x ∈ l → ¬ P x) → filter P l = [].
Proof. intros Hl. apply elem_of_nil_inv. intros x [Hp Hx]%list_elem_of_filter. by apply (Hl x). Qed.

Lemma zsum_filter {X} (f : X → Z) (P : X → Prop) `{∀ x, Decision (P x)} l :
  zsum f (filter P l) = zsum (λ x, if decide (P x) then f x else 0%Z) l.
Proof. induction l as [|x l IH]; [done|]. rewrite filter_cons, zsum_cons, <-IH. case_decide; [by rewrite zsum_cons|lia]. Qed.

Lemma zsum_fmap {X Y} (f : Y → Z) (g : X → Y) l : zsum f (g <$> l) = zsum (λ x, f (g x)) l.
Proof. induction l as [|x l IH]; [done|]. by rewrite fmap_cons, !zsum_cons, IH. Qed.

Lemma zsum_add {X} (f g : X → Z) l : zsum (λ x, f x + g x)%Z l = (zsum f l + zsum g l)%Z.
Proof. induction l as [|x l IH]; [done|]. rewrite !zsum_cons. lia. Qed.

Lemma zsum_zero {X} (f : X → Z) l : (∀ x, x ∈ l → f x = 0%Z) → zsum f l = 0%Z.
Proof. induction l as [|x l IH]; intros Hf; [done|]. rewrite zsum_cons, IH, (Hf x); [done|left|]. intros; apply Hf; by right. Qed.

Lemma zsum_insert {X} (f : X → Z) l i x y : l !! i = Some x → zsum f (<[i := y]> l) = (zsum f l - f x + f y)%Z.
Proof.
  revert i. induction l as [|z l IH]; intros [|i] E; try done.
  - injection E as ->. cbn [insert list_insert]. rewrite !zsum_cons. lia.
  - change (<[S i := y]> (z :: l)) with (z :: <[i := y]> l). rewrite !zsum_cons, (IH i E). lia.
Qed.

Lemma zsum_dset {K V} `{EqDecision K} (f : K * V → Z) k v v' (d : dict K V) :
  dget k d = Some v → zsum f (dset k v' d) = zsum f d - f (k, v) + f (k, v').
Proof.
  induction d as [|[k0 v0] d IH]; [done|]. cbn [dget dset]. case_decide as Hk.
  - intros [= ->]. subst k0. rewrite !zsum_cons. lia.
  - intros E. rewrite !zsum_cons, (IH E). lia.
Qed.

Lemma zsum_dset_new {K V} `{EqDecision K} (f : K * V → Z) k v (d : dict K V) :
  k ∉ dkeys d → zsum f (dset k v d) = zsum f d + f (k, v).
Proof.
  induction d as [|[k0 v0] d IH]; intros Hk; [cbn; lia|]. change (dkeys ((k0, v0) :: d)) with (k0 :: dkeys d) in Hk.
  apply not_elem_of_cons in Hk as [Hne Hk]. cbn [dset]. rewrite decide_False by congruence. rewrite !zsum_cons, (IH Hk). lia.
Qed.

Lemma zsum_ddel {K V} `{EqDecision K} (f : K * V → Z) k v (d : dict K V) :
  NoDup (dkeys d) → dget k d = Some v → zsum f (ddel k d) = zsum f d - f (k, v).
Proof.
  unfold ddel. induction d as [|[k0 v0] d IH]; [done|]. change (dkeys ((k0, v0) :: d)) with (k0 :: dkeys d). intros [Hk Hnd]%NoDup_cons.
  cbn [dget]. rewrite filter_cons. cbn [fst]. case_decide as Hd.
  - intros [= ->]. subst k0. rewrite decide_False by (by intros ?). rewrite zsum_cons.
    fold (ddel k d). rewrite ddel_notin by done. lia.
  - intros E. rewrite decide_True by done. rewrite !zsum_cons, (IH Hnd E). lia.
Qed.

Lemma dkeys_dset_in {K V} `{EqDecision K} (k : K) (v v' : V) (d : dict K V) : dget k d = Some v → dkeys (dset k v' d) = dkeys d.
Proof. intros E. rewrite dkeys_dset, decide_True; [done|]. apply dget_is_Some. by eexists. Qed.

(** A total that is zero has no entry. *)
Definition nonzero (n : Z) : option Z := if n =? 0 then None else Some n.

Lemma nonzero_spec n : default 0 (nonzero n) = n ∧ (is_Some (nonzero n) ↔ n ≠ 0).
Proof.
  unfold nonzero. destruct (Z.eqb_spec n 0) as [->|Hne]; cbn; (split; [done|]); split; [by intros [? ?]|done|done|by eauto].
Qed.

Lemma foldl_ext_in {A S} (f g : S → A → S) l s : (∀ s x, x ∈ l → f s x = g s x) → foldl f s l = foldl g s l.
Proof.
  revert s. induction l as [|x l IH]; intros s Hfg; [done|]. cbn. rewrite Hfg by left.
  apply IH. intros s' y Hy. apply Hfg. by right.
Qed.

Lemma dget_app {K V} `{EqDecision K} k (d d' : dict K V) : dget k (d ++ d') = match dget k d with Some v => Some v | None => dget k d' end.
Proof. induction d as [|[k' v] d IH]; [done|]. cbn. by case_decide. Qed.

Lemma zsum_swap {X Y} (F : X → Y → Z) (l : list X) (l' : list Y) : zsum (λ x, zsum (F x) l') l = zsum (λ y, zsum (λ x, F x y) l) l'.
Proof.
  induction l as [|x l IH]; [symmetry; by apply zsum_zero|]. rewrite zsum_cons, IH, <-zsum_add. apply zsum_ext. intros y _. by rewrite zsum_cons.
Qed.

Lemma zsum_keyed {K V} `{EqDecision K} (f : K → Z) k (d : dict K V) :
  NoDup (dkeys d) → zsum (λ q, if decide (k = q.1) then f q.1 else 0) d = if decide (k ∈ dkeys d) then f k else 0.
Proof.
  induction d as [|[k' v] d IH]; intros Hn; [by rewrite decide_False by apply not_elem_of_nil|].
  unfold dkeys in Hn |- *. cbn [map fst] in Hn |- *. apply NoDup_cons in Hn as [Hni Hn]. rewrite zsum_cons. specialize (IH Hn). unfold dkeys in IH. rewrite IH.
  cbn [fst]. repeat case_decide; subst; set_solver by lia.
Qed.
End sums.
