(* ===== verification/AddressManager.v ===== *)
(** * The address-space allocator

    [AddressManager] of lmcache/v1/memory_management.py: a virtual address
    space [0, size) whose free blocks are kept in a [SortedList] by start
    address. First the code, then the invariant [wf] (blocks sorted, positive,
    inside the heap, separated by gaps - i.e. fully coalesced - and accounted
    for), then the set of free addresses [free_at] as the abstract state that
    every operation is specified against. *)

From stdpp Require Import gmap list.
From Stdlib Require Import ZArith Lia.
From S2P Require Import Prelude.

Open Scope py_scope.
Open Scope Z_scope.

(** ** The code *)

Record FreeBlock := mkBlock { fb_start : Z; fb_size : Z }.

#[export] Instance FreeBlock_eq_dec : EqDecision FreeBlock.
Proof. solve_decision. Defined.

Definition fb_end (b : FreeBlock) : Z := fb_start b + fb_size b.

Definition can_be_coalesced (self succ : FreeBlock) : bool :=
  fb_start self + fb_size self =? fb_start succ.

(** [SortedList(key=start)]: [add] inserts after the elements with a key at
    most the new one, [remove] raises [ValueError] on a missing element,
    [bisect_left] counts the elements with a smaller key. *)
Fixpoint sl_add (b : FreeBlock) (l : list FreeBlock) : list FreeBlock :=
  match l with
  | [] => [b]
  | c :: l' => if fb_start c <=? fb_start b then c :: sl_add b l' else b :: c :: l'
  end.

Fixpoint sl_remove (b : FreeBlock) (l : list FreeBlock) : py (list FreeBlock) :=
  match l with
  | [] => Raise ValueError
  | c :: l' =>
      if decide (c = b) then Ret l'
      else let! r := sl_remove b l' in Ret (c :: r)
  end.

Fixpoint bisect_left (start : Z) (l : list FreeBlock) : nat :=
  match l with
  | [] => O
  | c :: l' => if fb_start c <? start then S (bisect_left start l') else O
  end.

Record AddressManager := mkAM {
  am_size : Z;
  am_align : Z;
  am_list : list FreeBlock;
  am_total : Z  (* total_allocated_size *)
}.

Definition ALIGN_BYTES : Z := 4096.

Definition am_init (size align : Z) : AddressManager :=
  mkAM size align (sl_add (mkBlock 0 size) []) 0.

Definition compute_aligned_size (align raw_size : Z) : Z :=
  Z.land (raw_size + align - 1) (Z.lnot (align - 1)).

(** [_coalesce]: the neighbours are references into the list, modelled by
    their positions, so that [prev_block.size += ...] updates the element in
    place. *)
Definition _coalesce (curr : FreeBlock) (prev succ : option nat)
    (l : list FreeBlock) : py (bool * list FreeBlock) :=
  let prev_block := prev ≫= λ i, p ← l !! i; Some (i, p) in
  let succ_block := succ ≫= λ i, l !! i in
  let merge_prev :=
    match prev_block with Some (_, p) => can_be_coalesced p curr | None => false end in
  let merge_succ :=
    match succ_block with Some s => can_be_coalesced curr s | None => false end in
  match prev_block, succ_block with
  | Some (i, p), Some s =>
      if merge_prev && merge_succ then
        let l' := <[i := mkBlock (fb_start p) (fb_size p + (fb_size curr + fb_size s))]> l in
        let! r := sl_remove s l' in Ret (true, r)
      else if merge_prev then
        Ret (true, <[i := mkBlock (fb_start p) (fb_size p + fb_size curr)]> l)
      else if merge_succ then
        let! r := sl_remove s l in
        Ret (true, sl_add (mkBlock (fb_start s - fb_size curr) (fb_size s + fb_size curr)) r)
      else Ret (false, l)
  | Some (i, p), None =>
      if merge_prev then
        Ret (true, <[i := mkBlock (fb_start p) (fb_size p + fb_size curr)]> l)
      else Ret (false, l)
  | None, Some s =>
      if merge_succ then
        let! r := sl_remove s l in
        Ret (true, sl_add (mkBlock (fb_start s - fb_size curr) (fb_size s + fb_size curr)) r)
      else Ret (false, l)
  | None, None => Ret (false, l)
  end.

(** The [for ... else] search of [allocate]: the first block that fits. *)
Fixpoint find_fit (n : Z) (l : list FreeBlock) : option FreeBlock :=
  match l with
  | [] => None
  | b :: l' => if n <=? fb_size b then Some b else find_fit n l'
  end.

Definition am_allocate (size : Z) (am : AddressManager)
    : py ((Z * Z) * AddressManager) :=
  if size <=? 0 then Raise ValueError
  else
    let aligned_size := compute_aligned_size (am_align am) size in
    match find_fit aligned_size (am_list am) with
    | None => Raise RuntimeError
    | Some block =>
        let! l := sl_remove block (am_list am) in
        let l' :=
          if aligned_size <? fb_size block
          then sl_add (mkBlock (fb_start block + aligned_size)
                               (fb_size block - aligned_size)) l
          else l in
        Ret ((fb_start block, aligned_size),
             mkAM (am_size am) (am_align am) l' (am_total am + aligned_size))
    end.

(** The carving loop of [batched_allocate] over the free list:
    (remaining, allocate_result, blocks_to_remove, blocks_to_add). *)
Fixpoint batched_loop (aligned_size remaining : Z) (l : list FreeBlock)
    : Z * list (Z * Z) * list FreeBlock * list FreeBlock :=
  match l with
  | [] => (remaining, [], [], [])
  | block :: l' =>
      if remaining <=? 0 then (remaining, [], [], [])
      else if fb_size block <? aligned_size then batched_loop aligned_size remaining l'
      else
        let num_from_block := Z.min remaining (fb_size block / aligned_size) in
        let start := fb_start block in
        let chunk := map (λ i, (start + i * aligned_size, aligned_size)) (seqZ 0 num_from_block) in
        let used := num_from_block * aligned_size in
        let '(rem, res, to_remove, to_add) :=
          batched_loop aligned_size (remaining - num_from_block) l' in
        (rem, chunk ++ res, block :: to_remove,
         (if used <? fb_size block
          then [mkBlock (fb_start block + used) (fb_size block - used)] else []) ++ to_add)
  end.

Fixpoint remove_all (bs l : list FreeBlock) : py (list FreeBlock) :=
  match bs with
  | [] => Ret l
  | b :: bs' => let! l' := sl_remove b l in remove_all bs' l'
  end.

Definition am_batched_allocate (size batch_size : Z) (am : AddressManager)
    : py (list (Z * Z) * AddressManager) :=
  if size <=? 0 then Raise ValueError
  else if batch_size <? 0 then Raise RuntimeError
  else
    let aligned_size := compute_aligned_size (am_align am) size in
    let '(remaining, allocate_result, blocks_to_remove, blocks_to_add) :=
      batched_loop aligned_size batch_size (am_list am) in
    if 0 <? remaining then Raise RuntimeError
    else
      let! l := remove_all blocks_to_remove (am_list am) in
      let l' := foldl (λ l b, sl_add b l) l blocks_to_add in
      Ret (allocate_result,
           mkAM (am_size am) (am_align am) l' (am_total am + aligned_size * batch_size)).

Definition am_free (address size : Z) (am : AddressManager) : py AddressManager :=
  let new_free_block := mkBlock address size in
  let l := am_list am in
  let index := bisect_left address l in
  let prev := if (0 <? index)%nat then Some (index - 1)%nat else None in
  let succ := if (index <? length l)%nat then Some index else None in
  let! r := _coalesce new_free_block prev succ l in
  let '(coalesced, l') := r in
  let l'' := if coalesced : bool then l' else sl_add new_free_block l' in
  Ret (mkAM (am_size am) (am_align am) l'' (am_total am - size)).

Definition am_sbrk (size : Z) (am : AddressManager) : py AddressManager :=
  let size := compute_aligned_size (am_align am) size in
  let l := am_list am in
  let new_block := mkBlock (am_size am) size in
  let prev := if (0 <? length l)%nat then Some (length l - 1)%nat else None in
  let! r := _coalesce new_block prev None l in
  let '(coalesced, l') := r in
  let l'' := if coalesced : bool then l' else sl_add new_block l' in
  Ret (mkAM (am_size am + size) (am_align am) l'' (am_total am)).

Definition get_heap_size (am : AddressManager) : Z := am_size am.
Definition get_free_size (am : AddressManager) : Z := am_size am - am_total am.

Definition check_consistency (am : AddressManager) : bool :=
  let l := am_list am in
  if existsb (λ '(prev, succ), can_be_coalesced prev succ) (zip (removelast l) (tail l))
  then false
  else zsum fb_size l + am_total am =? am_size am.

(** ** The invariant *)

(** [chain p l hi]: positive blocks in increasing order, each starting
    strictly after the end of the previous one (the first strictly after
    [p]), ending at or before [hi]. *)
Fixpoint chain (p : Z) (l : list FreeBlock) (hi : Z) : Prop :=
  match l with
  | [] => True
  | b :: l' => p < fb_start b ∧ 0 < fb_size b ∧ fb_end b <= hi ∧ chain (fb_end b) l' hi
  end.

Fixpoint last_end (p : Z) (l : list FreeBlock) : Z :=
  match l with [] => p | b :: l' => last_end (fb_end b) l' end.

Definition in_block (b : FreeBlock) (x : Z) : Prop := fb_start b <= x < fb_end b.

(** The addresses covered by a free list: the abstract state. *)
Definition free_at (l : list FreeBlock) (x : Z) : Prop := ∃ b, b ∈ l ∧ in_block b x.

Record wf (am : AddressManager) : Prop := {
  wf_chain : chain (-1) (am_list am) (am_size am);
  wf_total : zsum fb_size (am_list am) + am_total am = am_size am;
  wf_align : ∃ k, 0 <= k ∧ am_align am = 2 ^ k
}.

(** Every address of [[a, a + n)] is free. *)
Definition run_free (l : list FreeBlock) (a n : Z) : Prop :=
  ∀ x, a <= x < a + n → free_at l x.

(** No address of [[a, a + n)] is free. *)
Definition run_used (l : list FreeBlock) (a n : Z) : Prop :=
  ∀ x, a <= x < a + n → ¬ free_at l x.

Lemma chain_app p l1 l2 hi :
  chain p (l1 ++ l2) hi ↔ chain p l1 hi ∧ chain (last_end p l1) l2 hi.
Proof. revert p. induction l1 as [|b l1 IH]; simpl; intros p; [tauto|]. rewrite IH. tauto. Qed.

Lemma last_end_app p l1 l2 : last_end p (l1 ++ l2) = last_end (last_end p l1) l2.
Proof. revert p. induction l1; simpl; auto. Qed.

Lemma chain_weaken p p' l hi hi' : p' <= p → hi <= hi' → chain p l hi → chain p' l hi'.
Proof.
  revert p p'. induction l as [|b l IH]; simpl; intros p p'; [done|].
  intros ?? (?&?&?&?). repeat split; try lia. by eapply IH; [| |done].
Qed.

Lemma last_end_ge p l hi : chain p l hi → p <= last_end p l.
Proof.
  revert p. induction l as [|b l IH]; simpl; intros p; [lia|].
  intros (?&?&?&?%IH). unfold fb_end in *. lia.
Qed.

Lemma last_end_le p l hi : p <= hi → chain p l hi → last_end p l <= hi.
Proof. revert p. induction l as [|b l IH]; simpl; intros p; [lia|]. naive_solver. Qed.

Lemma chain_elem p l hi b :
  chain p l hi → b ∈ l →
  p < fb_start b ∧ 0 < fb_size b ∧ fb_end b <= hi ∧ fb_end b <= last_end p l.
Proof.
  revert p. induction l as [|c l IH]; simpl; intros p; [set_solver|].
  intros (?&?&?&Hc) [->|Hb]%elem_of_cons.
  - pose proof (last_end_ge _ _ _ Hc). lia.
  - destruct (IH _ Hc Hb). unfold fb_end in *. lia.
Qed.

Lemma chain_pair p l hi b c :
  chain p l hi → b ∈ l → c ∈ l →
  b = c ∨ fb_end b < fb_start c ∨ fb_end c < fb_start b.
Proof.
  revert p. induction l as [|d l IH]; simpl; intros p; [set_solver|].
  intros (?&?&?&Hc) [->|Hb]%elem_of_cons [->|Hd]%elem_of_cons; eauto.
  - pose proof (chain_elem _ _ _ _ Hc Hd). lia.
  - pose proof (chain_elem _ _ _ _ Hc Hb). lia.
Qed.

Lemma free_at_nil x : free_at [] x ↔ False.
Proof. unfold free_at. set_solver. Qed.
Lemma free_at_cons b l x : free_at (b :: l) x ↔ in_block b x ∨ free_at l x.
Proof. unfold free_at. set_solver. Qed.
Lemma free_at_app l1 l2 x : free_at (l1 ++ l2) x ↔ free_at l1 x ∨ free_at l2 x.
Proof. unfold free_at. set_solver. Qed.

#[export] Hint Rewrite free_at_nil free_at_cons free_at_app : py_arith.

Lemma chain_free p l hi x : chain p l hi → free_at l x → p < x < hi ∧ x < last_end p l.
Proof.
  intros Hc (b & Hb & Hx). pose proof (chain_elem _ _ _ _ Hc Hb).
  unfold in_block in Hx. lia.
Qed.

(** A contiguous free run lies in one block, because blocks are coalesced. *)
Lemma run_in_block p l hi a n :
  chain p l hi → 0 < n → run_free l a n →
  ∃ b, b ∈ l ∧ fb_start b <= a ∧ a + n <= fb_end b.
Proof.
  intros Hc Hn Hrun. destruct (Hrun a) as (b & Hb & Ha); [lia|].
  exists b. unfold in_block in Ha. split_and!; [done|lia|].
  destruct (decide (a + n <= fb_end b)); [done|].
  destruct (Hrun (fb_end b)) as (c & Hcl & Hx); [lia|]. unfold in_block in Hx.
  pose proof (chain_elem _ _ _ _ Hc Hcl). pose proof (chain_elem _ _ _ _ Hc Hb).
  destruct (chain_pair _ _ _ _ _ Hc Hb Hcl) as [->|?]; unfold fb_end in *; lia.
Qed.

(** A chain is the canonical representation of its set of free addresses. *)
Lemma chain_canonical p hi l1 l2 :
  chain p l1 hi → chain p l2 hi → (∀ x, free_at l1 x ↔ free_at l2 x) → l1 = l2.
Proof.
  revert p l2. induction l1 as [|b l1 IH]; intros p [|c l2]; [done| | |].
  - intros _ (?&?&_) Heq. exfalso. apply (free_at_nil (fb_start c)), Heq, free_at_cons.
    left. unfold in_block, fb_end. lia.
  - intros (?&?&_) _ Heq. exfalso. apply (free_at_nil (fb_start b)), Heq, free_at_cons.
    left. unfold in_block, fb_end. lia.
  - simpl. intros (?&?&?&Hc1) (?&?&?&Hc2) Heq.
    assert (∀ x, in_block b x → in_block c x ∨ fb_end c < x ∧ free_at l2 x) as Hb.
    { intros x Hx. destruct (proj1 (free_at_cons c l2 x)) as [?|Hf].
      - apply Heq, free_at_cons. by left.
      - by left.
      - right. pose proof (chain_free _ _ _ _ Hc2 Hf). split; [lia|done]. }
    assert (∀ x, in_block c x → in_block b x ∨ fb_end b < x ∧ free_at l1 x) as Hd.
    { intros x Hx. destruct (proj1 (free_at_cons b l1 x)) as [?|Hf].
      - apply Heq, free_at_cons. by left.
      - by left.
      - right. pose proof (chain_free _ _ _ _ Hc1 Hf). split; [lia|done]. }
    assert (b = c) as ->.
    { unfold in_block, fb_end in *. destruct b as [s1 n1], c as [s2 n2]; simpl in *.
      destruct (Hb s1), (Hd s2); try lia. assert (s1 = s2) as -> by lia. f_equal.
      destruct (Z.lt_trichotomy n1 n2) as [?|[?|?]]; [|done|].
      - destruct (Hd (s2 + n1)); lia.
      - destruct (Hb (s2 + n2)); lia. }
    f_equal. apply (IH (fb_end c)); [done|done|]. intros x. specialize (Heq x).
    rewrite !free_at_cons in Heq. split; intros Hf.
    + pose proof (chain_free _ _ _ _ Hc1 Hf). unfold in_block in Heq.
      destruct (proj1 Heq) as [?|?]; [by right|lia|done].
    + pose proof (chain_free _ _ _ _ Hc2 Hf). unfold in_block in Heq.
      destruct (proj2 Heq) as [?|?]; [by right|lia|done].
Qed.

Lemma chain_zsum p l hi : p < hi → chain p l hi → 0 <= zsum fb_size l <= hi - p - 1.
Proof.
  revert p. induction l as [|b l IH]; intros p Hp; simpl; [lia|]. intros (?&?&?&Hc).
  destruct (decide (fb_end b < hi)) as [?|?].
  - pose proof (IH _ l0 Hc). unfold fb_end in *. lia.
  - destruct l as [|c l]; simpl in *; unfold fb_end in *; lia.
Qed.

(** ** The sorted list on explicit decompositions *)

Lemma sl_remove_app b l1 l2 : b ∉ l1 → sl_remove b (l1 ++ b :: l2) = Ret (l1 ++ l2).
Proof.
  induction l1 as [|c l1 IH]; intros Hb; simpl.
  - by rewrite decide_True.
  - rewrite decide_False by set_solver. by rewrite IH by set_solver.
Qed.

Lemma sl_add_app p b l1 l2 hi :
  chain p l1 hi → last_end p l1 <= fb_start b →
  match l2 with [] => True | c :: _ => fb_start b < fb_start c end →
  sl_add b (l1 ++ l2) = l1 ++ b :: l2.
Proof.
  revert p. induction l1 as [|c l1 IH]; intros p; simpl.
  - destruct l2 as [|c l2]; simpl; [done|]. intros _ _ H.
    destruct (Z.leb_spec (fb_start c) (fb_start b)); [lia|done].
  - intros (?&?&?&Hc) Hlast Hl2. pose proof (last_end_ge _ _ _ Hc).
    destruct (Z.leb_spec (fb_start c) (fb_start b)); [|unfold fb_end in *; lia].
    f_equal. by eapply IH.
Qed.

Lemma chain_notin p l1 b l2 hi : chain p (l1 ++ b :: l2) hi → b ∉ l1.
Proof.
  intros [Hc1 (?&?&?&_)]%chain_app Hb. pose proof (chain_elem _ _ _ _ Hc1 Hb).
  unfold fb_end in *. lia.
Qed.

Lemma find_fit_Some n l b :
  find_fit n l = Some b →
  ∃ l1 l2, l = l1 ++ b :: l2 ∧ n <= fb_size b ∧ (∀ c, c ∈ l1 → fb_size c < n).
Proof.
  induction l as [|c l IH]; simpl; [done|]. destruct (Z.leb_spec n (fb_size c)).
  - intros [= ->]. exists [], l. split_and!; [done|done|set_solver].
  - intros (l1 & l2 & -> & ? & Hl1)%IH. exists (c :: l1), l2. split_and!; [done|done|].
    intros d [->|?]%elem_of_cons; auto.
Qed.

Lemma find_fit_None n l : find_fit n l = None → ∀ c, c ∈ l → fb_size c < n.
Proof.
  induction l as [|c l IH]; simpl; [set_solver|]. destruct (Z.leb_spec n (fb_size c)); [done|].
  intros Hl d [->|?]%elem_of_cons; auto.
Qed.

(** What is left of block [b] once [n] bytes are carved from its front. *)
Definition block_rest (b : FreeBlock) (n : Z) : list FreeBlock :=
  if n <? fb_size b then [mkBlock (fb_start b + n) (fb_size b - n)] else [].

Lemma chain_carve p l1 b l2 hi n :
  0 < n → n <= fb_size b → chain p (l1 ++ b :: l2) hi →
  chain p (l1 ++ block_rest b n ++ l2) hi.
Proof.
  intros ?? [Hc1 (?&?&?&Hc2)]%chain_app. apply chain_app. split; [done|].
  unfold block_rest. destruct (Z.ltb_spec n (fb_size b)); simpl.
  - unfold fb_end in *; simpl. split_and!; [lia|lia|lia|].
    eapply chain_weaken; [..|done]; lia.
  - eapply chain_weaken; [..|done]; unfold fb_end; lia.
Qed.

Lemma sl_add_rest p l1 b l2 hi n :
  0 < n → n <= fb_size b → chain p (l1 ++ b :: l2) hi →
  (if n <? fb_size b
   then sl_add (mkBlock (fb_start b + n) (fb_size b - n)) (l1 ++ l2) else l1 ++ l2)
  = l1 ++ block_rest b n ++ l2.
Proof.
  intros ?? [Hc1 (?&?&?&Hc2)]%chain_app. unfold block_rest.
  destruct (Z.ltb_spec n (fb_size b)); [|done]. simpl.
  eapply sl_add_app; [done|simpl; lia|]. destruct l2 as [|c l2]; [done|].
  simpl in Hc2. unfold fb_end in *. simpl. lia.
Qed.

Lemma zsum_rest b n : n <= fb_size b → zsum fb_size (block_rest b n) = fb_size b - n.
Proof. intros. unfold block_rest. destruct (Z.ltb_spec n (fb_size b)); simpl; lia. Qed.

Lemma in_block_rest b n x :
  0 < n → n <= fb_size b →
  free_at (block_rest b n) x ↔ in_block b x ∧ ¬ (fb_start b <= x < fb_start b + n).
Proof.
  intros. unfold block_rest, in_block, fb_end.
  destruct (Z.ltb_spec n (fb_size b)); autorewrite with py_arith;
    unfold in_block, fb_end; simpl; lia.
Qed.

(** ** Alignment *)

Lemma compute_aligned_size_pow2 k raw :
  0 <= k → compute_aligned_size (2 ^ k) raw = (raw + 2 ^ k - 1) / 2 ^ k * 2 ^ k.
Proof.
  intros Hk. unfold compute_aligned_size.
  replace (2 ^ k - 1) with (Z.ones k) by (rewrite Z.ones_equiv; lia).
  rewrite <-Z.ldiff_land, Z.ldiff_ones_r by done.
  by rewrite Z.shiftl_mul_pow2, Z.shiftr_div_pow2 by done.
Qed.

(** [compute_aligned_size] is the least multiple of a power-of-two alignment
    that is at least the raw size. *)
Lemma compute_aligned_size_spec k raw :
  0 <= k →
  let n := compute_aligned_size (2 ^ k) raw in
  raw <= n < raw + 2 ^ k ∧ (2 ^ k | n).
Proof.
  intros Hk. rewrite compute_aligned_size_pow2 by done. simpl.
  pose proof (Z.pow_pos_nonneg 2 k ltac:(lia) Hk).
  pose proof (Z.div_mod (raw + 2 ^ k - 1) (2 ^ k) ltac:(lia)).
  pose proof (Z.mod_pos_bound (raw + 2 ^ k - 1) (2 ^ k) ltac:(lia)).
  split; [nia|]. by apply Z.divide_factor_r.
Qed.

Lemma aligned_pos am raw :
  wf am → 0 < raw → 0 < compute_aligned_size (am_align am) raw.
Proof.
  intros [_ _ (k & Hk & ->)] ?. pose proof (compute_aligned_size_spec k raw Hk) as [? _].
  lia.
Qed.

Lemma compute_aligned_size_divides k n :
  0 <= k → (2 ^ k | n) → compute_aligned_size (2 ^ k) n = n.
Proof.
  intros Hk [q ->]. rewrite compute_aligned_size_pow2 by done.
  pose proof (Z.pow_pos_nonneg 2 k ltac:(lia) Hk). f_equal.
  symmetry. apply (Z.div_unique _ _ _ (2 ^ k - 1)); lia.
Qed.

Lemma compute_aligned_size_idem am n :
  wf am →
  compute_aligned_size (am_align am) (compute_aligned_size (am_align am) n)
  = compute_aligned_size (am_align am) n.
Proof.
  intros [_ _ (k & Hk & ->)]. apply compute_aligned_size_divides; [done|].
  by apply compute_aligned_size_spec.
Qed.

(** ** [allocate] *)

(** The effect of [allocate] on a well-formed state, as a decomposition of
    the free list around the block it carves. *)
Lemma am_allocate_explicit am size :
  wf am → 0 < size →
  let n := compute_aligned_size (am_align am) size in
  match find_fit n (am_list am) with
  | Some b => ∃ l1 l2,
      am_list am = l1 ++ b :: l2 ∧ n <= fb_size b ∧ (∀ c, c ∈ l1 → fb_size c < n) ∧
      am_allocate size am =
        Ret ((fb_start b, n),
             mkAM (am_size am) (am_align am) (l1 ++ block_rest b n ++ l2) (am_total am + n))
  | None => am_allocate size am = Raise RuntimeError
  end.
Proof.
  intros Hwf Hs n. pose proof (aligned_pos _ _ Hwf Hs) as Hn. destruct Hwf as [Hc _ _].
  unfold am_allocate. destruct (Z.leb_spec size 0); [lia|]. fold n in Hn |- *.
  destruct (find_fit n (am_list am)) as [b|] eqn:E; [|done].
  apply find_fit_Some in E as (l1 & l2 & Heq & Hb & Hl1). exists l1, l2.
  rewrite Heq in Hc |- *. split_and!; [done..|].
  rewrite sl_remove_app by (by eapply chain_notin). simpl.
  by erewrite sl_add_rest.
Qed.

Lemma wf_carve am b l1 l2 n :
  wf am → 0 < n → am_list am = l1 ++ b :: l2 → n <= fb_size b →
  wf (mkAM (am_size am) (am_align am) (l1 ++ block_rest b n ++ l2) (am_total am + n)).
Proof.
  intros [Hc Ht Ha] Hn Heq Hb. rewrite Heq in Hc, Ht. split; simpl; [|..|done].
  - by apply chain_carve.
  - autorewrite with py_arith in *. rewrite zsum_rest by done. lia.
Qed.

Lemma free_at_carve p b l1 l2 n hi x :
  0 < n → n <= fb_size b → chain p (l1 ++ b :: l2) hi →
  free_at (l1 ++ block_rest b n ++ l2) x ↔
  free_at (l1 ++ b :: l2) x ∧ ¬ (fb_start b <= x < fb_start b + n).
Proof.
  intros Hn Hb [Hc1 (?&?&?&Hc2)]%chain_app. rewrite !free_at_app, free_at_cons.
  rewrite in_block_rest by done. split.
  - intros [Hf|[Hf|Hf]]; [|tauto|].
    + pose proof (chain_free _ _ _ _ Hc1 Hf). split; [by left|lia].
    + pose proof (chain_free _ _ _ _ Hc2 Hf). split; [by right; right|].
      unfold fb_end in *. lia.
  - tauto.
Qed.

(** What [allocate] promises, in terms of free addresses: the returned region
    was free, it is the lowest such region, and exactly it stops being free;
    out of memory is reported only when no free region of that size exists. *)
Lemma allocate_ok am size :
  wf am → 0 < size →
  let n := compute_aligned_size (am_align am) size in
  match am_allocate size am with
  | Ret ((a, m), am') =>
      m = n ∧ run_free (am_list am) a n ∧
      (∀ a', run_free (am_list am) a' n → a <= a') ∧
      (∀ x, free_at (am_list am') x ↔ free_at (am_list am) x ∧ ¬ (a <= x < a + n)) ∧
      am_total am' = am_total am + n ∧ am_size am' = am_size am ∧
      am_align am' = am_align am ∧ wf am'
  | Raise e => e = RuntimeError ∧ ∀ a, ¬ run_free (am_list am) a n
  end.
Proof.
  intros Hwf Hs n. pose proof (am_allocate_explicit am size Hwf Hs) as He.
  pose proof (aligned_pos _ _ Hwf Hs) as Hn. cbv zeta in He. fold n in He, Hn. pose proof (wf_chain _ Hwf) as Hc.
  destruct (find_fit n (am_list am)) as [b|] eqn:E.
  - destruct He as (l1 & l2 & Heq & Hb & Hl1 & ->). simpl.
    split_and!; [done| | | |done|done|done|by apply wf_carve].
    + intros x Hx. exists b. rewrite Heq. split; [set_solver|]. unfold in_block, fb_end. lia.
    + intros a' (c & Hcl & ? & ?)%(run_in_block _ _ _ _ _ Hc Hn).
      rewrite Heq in Hcl, Hc. apply chain_app in Hc as [Hc1 (?&?&?&Hc2)].
      apply elem_of_app in Hcl as [Hcl|[->|Hcl]%elem_of_cons]; [|done|].
      * specialize (Hl1 _ Hcl). unfold fb_end in *. lia.
      * pose proof (chain_elem _ _ _ _ Hc2 Hcl). unfold fb_end in *. lia.
    + intros x. rewrite Heq in Hc |- *. by eapply free_at_carve.
  - rewrite He. split; [done|]. intros a (c & Hcl & ? & ?)%(run_in_block _ _ _ _ _ Hc Hn).
    pose proof (find_fit_None _ _ E _ Hcl). unfold fb_end in *. lia.
Qed.

(** ** [free] and [sbrk] *)

(** [bisect_left] splits the free list at an address. *)
Lemma bisect_split p l hi a :
  chain p l hi →
  ∃ l1 l2, l = l1 ++ l2 ∧ length l1 = bisect_left a l ∧
    (∀ b, b ∈ l1 → fb_start b < a) ∧ (∀ b, b ∈ l2 → a <= fb_start b).
Proof.
  revert p. induction l as [|c l IH]; intros p; simpl.
  - intros _. exists [], []. set_solver.
  - intros (?&?&?&Hc). destruct (Z.ltb_spec (fb_start c) a).
    + destruct (IH _ Hc) as (l1 & l2 & -> & Hlen & Hl1 & Hl2).
      exists (c :: l1), l2. simpl. split_and!; [done|by rewrite Hlen| |done].
      intros b [->|?]%elem_of_cons; auto.
    + exists [], (c :: l). split_and!; [done|done|set_solver|].
      intros b [->|Hb]%elem_of_cons; [done|].
      pose proof (chain_elem _ _ _ _ Hc Hb). unfold fb_end in *. lia.
Qed.

(** Inserting the block [curr] between [l1] and [l2], merged with the
    neighbours it touches: what [_coalesce] and the final [add] compute. *)
Definition merge_at (l1 : list FreeBlock) (curr : FreeBlock) (l2 : list FreeBlock)
    : list FreeBlock :=
  let mp := match last l1 with Some p => can_be_coalesced p curr | None => false end in
  let ms := match l2 with s :: _ => can_be_coalesced curr s | [] => false end in
  match last l1, l2 with
  | Some p, s :: l2' =>
      if mp && ms
      then removelast l1 ++ mkBlock (fb_start p) (fb_size p + (fb_size curr + fb_size s)) :: l2'
      else if mp then removelast l1 ++ mkBlock (fb_start p) (fb_size p + fb_size curr) :: l2
      else if ms then l1 ++ mkBlock (fb_start curr) (fb_size s + fb_size curr) :: l2'
      else l1 ++ curr :: l2
  | Some p, [] =>
      if mp then removelast l1 ++ [mkBlock (fb_start p) (fb_size p + fb_size curr)]
      else l1 ++ [curr]
  | None, s :: l2' =>
      if ms then mkBlock (fb_start curr) (fb_size s + fb_size curr) :: l2'
      else curr :: l2
  | None, [] => [curr]
  end.

(** [curr] fits between [l1] and [l2] without overlapping either. *)
Definition fits (p : Z) (l1 : list FreeBlock) (curr : FreeBlock) (l2 : list FreeBlock)
    (hi : Z) : Prop :=
  chain p (l1 ++ l2) hi ∧ p < fb_start curr ∧ 0 < fb_size curr ∧ fb_end curr <= hi ∧
  last_end p l1 <= fb_start curr ∧ match l2 with [] => True | s :: _ => fb_end curr <= fb_start s end.

Lemma list_snoc_view {A} (l : list A) :
  l = [] ∨ ∃ l' x, l = l' ++ [x].
Proof. induction l using rev_ind; [by left|right; eauto]. Qed.

Lemma removelast_snoc {A} (l : list A) x : removelast (l ++ [x]) = l.
Proof. by rewrite removelast_app, app_nil_r. Qed.

Lemma lookup_mid {A} (l1 : list A) x l2 : (l1 ++ x :: l2) !! length l1 = Some x.
Proof. by apply list_lookup_middle. Qed.

Lemma insert_mid {A} (l1 : list A) x y l2 : <[length l1 := y]> (l1 ++ x :: l2) = l1 ++ y :: l2.
Proof. by rewrite insert_app_r_alt, Nat.sub_diag by done. Qed.

(** The list that [_coalesce] and a possible [add] leave behind. *)
Definition coalesced_list (curr : FreeBlock) (prev succ : option nat) (l : list FreeBlock)
    : py (list FreeBlock) :=
  let! r := _coalesce curr prev succ l in
  Ret (if r.1 : bool then r.2 else sl_add curr r.2).

Ltac chain_arith := unfold can_be_coalesced, fb_end in *; simpl in *; lia.

Lemma coalesced_list_fits p l1 curr l2 hi :
  fits p l1 curr l2 hi →
  coalesced_list curr
    (if (0 <? length l1)%nat then Some (length l1 - 1)%nat else None)
    (match l2 with [] => None | _ => Some (length l1) end)
    (l1 ++ l2) = Ret (merge_at l1 curr l2).
Proof.
  intros (Hc & Hp & Hsz & Hhi & Hlast & Hs). unfold coalesced_list, _coalesce, merge_at.
  destruct (list_snoc_view l1) as [->|(l1' & q & ->)].
  - simpl. destruct l2 as [|s l2]; simpl in *; [done|].
    destruct (can_be_coalesced curr s) eqn:E; simpl.
    + rewrite decide_True by done. simpl. do 2 f_equal. simpl.
      assert (fb_start s - fb_size curr = fb_start curr) as Heq by chain_arith.
      rewrite Heq. apply (sl_add_app p _ [] _ hi); [done|simpl; lia|].
      destruct l2; simpl in *; [done|chain_arith].
    + f_equal. destruct (Z.leb_spec (fb_start s) (fb_start curr)); [chain_arith|done].
  - rewrite last_snoc, removelast_snoc, length_app. simpl.
    replace (0 <? length l1' + 1)%nat with true by (symmetry; apply Nat.ltb_lt; lia).
    replace (length l1' + 1 - 1)%nat with (length l1') by lia.
    rewrite <-app_assoc in Hc |- *. simpl in Hc |- *. rewrite lookup_mid. simpl.
    apply chain_app in Hc as [Hc1 (?&?&?&Hc2)]. rewrite last_end_app in Hlast. simpl in Hlast.
    assert (∀ c, c ∈ l1' → fb_end c < fb_start q) as Hl1.
    { intros c Hcl. pose proof (chain_elem _ _ _ _ Hc1 Hcl). lia. }
    destruct l2 as [|s l2]; simpl.
    + destruct (can_be_coalesced q curr) eqn:E; simpl; [by rewrite insert_mid|].
      pose proof (sl_add_app p curr (l1' ++ [q]) [] hi) as Hadd. rewrite app_nil_r in Hadd.
      rewrite Hadd; [done| |by rewrite last_end_app|done]. apply chain_app. simpl. auto.
    + assert ((l1' ++ q :: s :: l2) !! (length l1' + 1)%nat = Some s) as Hl.
      { rewrite lookup_app_r by lia. by replace (_ + 1 - _)%nat with 1%nat by lia. }
      rewrite Hl. simpl. simpl in Hc2. destruct Hc2 as (?&?&?&Hc2).
      assert (s ∉ l1') as Hs1 by (intros Hin%Hl1; chain_arith).
      destruct (can_be_coalesced q curr) eqn:E1, (can_be_coalesced curr s) eqn:E2; simpl.
      * rewrite insert_mid.
        replace (l1' ++ _ :: s :: l2) with
          ((l1' ++ [mkBlock (fb_start q) (fb_size q + (fb_size curr + fb_size s))]) ++ s :: l2)
          by by rewrite <-app_assoc.
        rewrite sl_remove_app; simpl; [by rewrite <-app_assoc|].
        intros [?|Hin%list_elem_of_singleton]%elem_of_app; [done|].
        apply (f_equal fb_start) in Hin. chain_arith.
      * by rewrite insert_mid.
      * replace (l1' ++ q :: s :: l2) with ((l1' ++ [q]) ++ s :: l2) by by rewrite <-app_assoc.
        rewrite sl_remove_app; simpl.
        2: { intros [?|Hin%list_elem_of_singleton]%elem_of_app; [done|].
             apply (f_equal fb_start) in Hin. chain_arith. }
        f_equal. replace (fb_start s - fb_size curr) with (fb_start curr) by chain_arith.
        apply (sl_add_app p _ (l1' ++ [q]) l2 hi).
        -- apply chain_app. simpl. auto.
        -- rewrite last_end_app. done.
        -- destruct l2; simpl in *; [done|chain_arith].
      * f_equal. replace (l1' ++ q :: s :: l2) with ((l1' ++ [q]) ++ s :: l2)
          by by rewrite <-app_assoc.
        apply (sl_add_app p _ (l1' ++ [q]) (s :: l2) hi).
        -- apply chain_app. simpl. auto.
        -- rewrite last_end_app. done.
        -- chain_arith.
Qed.

Lemma merge_at_chain p l1 curr l2 hi :
  fits p l1 curr l2 hi → chain p (merge_at l1 curr l2) hi.
Proof.
  intros (Hc & Hp & Hsz & Hhi & Hlast & Hs). unfold merge_at.
  destruct (list_snoc_view l1) as [->|(l1' & q & ->)].
  - simpl in *. destruct l2 as [|s l2]; [simpl; auto|]. destruct Hc as (?&?&?&Hc2).
    destruct (can_be_coalesced curr s) eqn:E; simpl; split_and!; try chain_arith; try done.
    eapply chain_weaken; [..|done]; chain_arith.
  - rewrite last_snoc, removelast_snoc. rewrite <-!app_assoc in Hc |- *. simpl in Hc |- *.
    apply chain_app in Hc as [Hc1 (?&?&?&Hc2)]. rewrite last_end_app in Hlast. simpl in Hlast.
    destruct l2 as [|s l2]; [|destruct Hc2 as (?&?&?&Hc2)];
      destruct (can_be_coalesced q curr) eqn:E1; try destruct (can_be_coalesced curr s) eqn:E2;
      simpl; rewrite <-?app_assoc; simpl; apply chain_app; simpl; (split; [done|]); split_and!; try chain_arith; try done;
      refine (chain_weaken _ _ _ _ _ _ _ Hc2); chain_arith.
Qed.

Lemma merge_at_free p l1 curr l2 hi x :
  fits p l1 curr l2 hi →
  free_at (merge_at l1 curr l2) x ↔ free_at (l1 ++ l2) x ∨ in_block curr x.
Proof.
  intros (Hc & Hp & Hsz & Hhi & Hlast & Hs). unfold merge_at.
  destruct (list_snoc_view l1) as [->|(l1' & q & ->)].
  - simpl in *. destruct l2 as [|s l2]; [autorewrite with py_arith; tauto|].
    destruct Hc as (?&?&?&Hc2).
    destruct (can_be_coalesced curr s) eqn:E; simpl; rewrite !free_at_cons;
      unfold in_block; [|tauto]. generalize (free_at l2 x). intros P.
    destruct (decide (fb_start s <= x < fb_end s)), (decide (fb_start curr <= x < fb_end curr));
      intuition chain_arith.
  - rewrite last_snoc, removelast_snoc. rewrite <-!app_assoc in Hc |- *. simpl in Hc |- *.
    apply chain_app in Hc as [Hc1 (?&?&?&Hc2)]. rewrite last_end_app in Hlast. simpl in Hlast.
    destruct l2 as [|s l2]; [|destruct Hc2 as (?&?&?&Hc2)];
      destruct (can_be_coalesced q curr) eqn:E1; try destruct (can_be_coalesced curr s) eqn:E2;
      simpl; rewrite <-?app_assoc; simpl; rewrite !free_at_app, !free_at_cons, ?free_at_nil;
      try rewrite free_at_cons; generalize (free_at l1' x); try generalize (free_at l2 x);
      intros; unfold in_block;
      destruct (decide (fb_start q <= x < fb_end q)),
               (decide (fb_start curr <= x < fb_end curr));
      try destruct (decide (fb_start s <= x < fb_end s)); intuition chain_arith.
Qed.

Lemma merge_at_zsum l1 curr l2 :
  zsum fb_size (merge_at l1 curr l2) = zsum fb_size (l1 ++ l2) + fb_size curr.
Proof.
  unfold merge_at. destruct (list_snoc_view l1) as [->|(l1' & q & ->)].
  - destruct l2 as [|s l2]; simpl; [lia|]. case_match; simpl; lia.
  - rewrite last_snoc, removelast_snoc, <-!app_assoc.
    destruct l2 as [|s l2]; simpl; repeat case_match; rewrite !zsum_app; simpl;
      rewrite ?zsum_app; simpl; lia.
Qed.

Lemma am_free_coalesced a n am :
  am_free a n am =
  let l := am_list am in
  let index := bisect_left a l in
  let! l' := coalesced_list (mkBlock a n)
    (if (0 <? index)%nat then Some (index - 1)%nat else None)
    (if (index <? length l)%nat then Some index else None) l in
  Ret (mkAM (am_size am) (am_align am) l' (am_total am - n)).
Proof.
  unfold am_free, coalesced_list. simpl. destruct (_coalesce _ _ _ _) as [[[] ?]|]; done.
Qed.

Lemma free_ok am a n :
  wf am → 0 < n → 0 <= a → a + n <= am_size am → run_used (am_list am) a n →
  ∃ l', am_free a n am = Ret (mkAM (am_size am) (am_align am) l' (am_total am - n)) ∧
    wf (mkAM (am_size am) (am_align am) l' (am_total am - n)) ∧
    (∀ x, free_at l' x ↔ free_at (am_list am) x ∨ a <= x < a + n).
Proof.
  intros [Hc Ht Ha] Hn Ha0 Hhi Hused. rewrite am_free_coalesced. simpl.
  destruct (bisect_split _ _ _ a Hc) as (l1 & l2 & Heq & Hlen & Hl1 & Hl2).
  assert (fits (-1) l1 (mkBlock a n) l2 (am_size am)) as Hfits.
  { rewrite Heq in Hc, Hused. unfold fits. simpl. unfold fb_end; simpl.
    split_and!; [done|lia|lia|lia| |].
    - destruct (list_snoc_view l1) as [->|(l1' & q & ->)]; [simpl; lia|].
      rewrite last_end_app. simpl. specialize (Hl1 q ltac:(set_solver)).
      destruct (decide (fb_end q <= a)); [done|]. exfalso. apply (Hused a); [lia|].
      exists q. split; [set_solver|]. unfold in_block. lia.
    - destruct l2 as [|s l2]; [done|]. specialize (Hl2 s ltac:(set_solver)).
      destruct (decide (a + n <= fb_start s)); [done|]. exfalso. apply (Hused (fb_start s)); [lia|].
      exists s. split; [set_solver|].
      pose proof (chain_elem _ _ _ s Hc ltac:(set_solver)). unfold in_block, fb_end. lia. }
  exists (merge_at l1 (mkBlock a n) l2). rewrite <-Hlen, Heq.
  replace (if (length l1 <? length (l1 ++ l2))%nat then Some (length l1) else None)
    with (match l2 with [] => None | _ => Some (length l1) end).
  2: { rewrite length_app. destruct l2; simpl; case_match; try done;
       [apply Nat.ltb_lt in H|apply Nat.ltb_ge in H]; lia. }
  rewrite (coalesced_list_fits _ _ _ _ _ Hfits). simpl. split; [done|].
  split; [|intros x; rewrite (merge_at_free _ _ _ _ _ _ Hfits); done].
  split; simpl; [by apply merge_at_chain| |done].
  rewrite merge_at_zsum, <-Heq. simpl. lia.
Qed.

Lemma sbrk_ok am size :
  wf am → 0 <= am_size am → 0 < size →
  let n := compute_aligned_size (am_align am) size in
  ∃ l', am_sbrk size am = Ret (mkAM (am_size am + n) (am_align am) l' (am_total am)) ∧
    wf (mkAM (am_size am + n) (am_align am) l' (am_total am)) ∧
    (∀ x, free_at l' x ↔ free_at (am_list am) x ∨ am_size am <= x < am_size am + n).
Proof.
  intros Hwf Hsz Hs n. pose proof (aligned_pos _ _ Hwf Hs) as Hn. fold n in Hn.
  destruct Hwf as [Hc Ht Ha].
  assert (fits (-1) (am_list am) (mkBlock (am_size am) n) [] (am_size am + n)) as Hfits.
  { unfold fits. rewrite app_nil_r. unfold fb_end; simpl.
    split_and!; [|lia|lia|lia| |done].
    - eapply chain_weaken; [..|done]; lia.
    - eapply last_end_le; [|done]. lia. }
  exists (merge_at (am_list am) (mkBlock (am_size am) n) []).
  pose proof (coalesced_list_fits _ _ _ _ _ Hfits) as Hl. rewrite app_nil_r in Hl.
  split_and!.
  - unfold am_sbrk, coalesced_list in *. fold n.
    destruct (_coalesce _ _ _ _) as [[[] ?]|]; simpl in *; [..|done]; congruence.
  - split; simpl; [by apply merge_at_chain| |done].
    rewrite merge_at_zsum, app_nil_r. simpl. lia.
  - intros x. rewrite (merge_at_free _ _ _ _ _ _ Hfits), app_nil_r. done.
Qed.

Lemma init_wf size k : 0 < size → 0 <= k → wf (am_init size (2 ^ k)).
Proof. split; simpl; unfold fb_end; simpl; [lia|lia|eauto]. Qed.

Lemma chain_no_coalesce p l hi :
  chain p l hi →
  existsb (λ '(prev, succ), can_be_coalesced prev succ) (zip (removelast l) (tail l)) = false.
Proof.
  revert p. induction l as [|b [|c l] IH]; [done|done|]. intros p (?&?&?&Hc).
  pose proof Hc as (?&_). change (removelast (b :: c :: l)) with (b :: removelast (c :: l)).
  simpl zip. simpl existsb. specialize (IH _ Hc). simpl in IH. rewrite IH.
  rewrite orb_false_r. unfold can_be_coalesced, fb_end in *. lia.
Qed.

Lemma check_consistency_ok am : wf am → check_consistency am = true.
Proof.
  intros [Hc Ht _]. unfold check_consistency. rewrite (chain_no_coalesce _ _ _ Hc).
  by apply Z.eqb_eq.
Qed.

(** ** [batched_allocate] is the iteration of [allocate] *)

Fixpoint allocate_n (k : nat) (size : Z) (am : AddressManager)
    : py (list (Z * Z) * AddressManager) :=
  match k with
  | O => Ret ([], am)
  | S k' =>
      let! r := am_allocate size am in
      let! r' := allocate_n k' size r.2 in
      Ret (r.1 :: r'.1, r'.2)
  end.

(** The free list after the carving loop, each block replaced in place. *)
Fixpoint batched_list (n r : Z) (l : list FreeBlock) : list FreeBlock :=
  match l with
  | [] => []
  | b :: l' =>
      if r <=? 0 then l
      else if fb_size b <? n then b :: batched_list n r l'
      else let k := Z.min r (fb_size b / n) in
           block_rest b (k * n) ++ batched_list n (r - k) l'
  end.

Definition loop_rem (n r : Z) (l : list FreeBlock) : Z := (batched_loop n r l).1.1.1.
Definition loop_res (n r : Z) (l : list FreeBlock) : list (Z * Z) := (batched_loop n r l).1.1.2.

Lemma batched_loop_done n r l : r <= 0 → batched_loop n r l = (r, [], [], []).
Proof. intros. destruct l; simpl; [done|]. destruct (Z.leb_spec r 0); [done|lia]. Qed.
Lemma batched_list_done n r l : r <= 0 → batched_list n r l = l.
Proof. intros. destruct l; simpl; [done|]. destruct (Z.leb_spec r 0); [done|lia]. Qed.

Lemma batched_loop_skip n r b l :
  fb_size b < n → 0 < r → batched_loop n r (b :: l) = batched_loop n r l.
Proof.
  intros. simpl. destruct (Z.leb_spec r 0); [lia|]. destruct (Z.ltb_spec (fb_size b) n); [done|lia].
Qed.
Lemma batched_list_skip n r b l :
  fb_size b < n → 0 < r → batched_list n r (b :: l) = b :: batched_list n r l.
Proof.
  intros. simpl. destruct (Z.leb_spec r 0); [lia|]. destruct (Z.ltb_spec (fb_size b) n); [done|lia].
Qed.

Lemma batched_loop_carve n r b l :
  n <= fb_size b → 0 < r →
  let k := Z.min r (fb_size b / n) in
  batched_loop n r (b :: l) =
  let '(rem, res, rm, add) := batched_loop n (r - k) l in
  (rem, map (λ i, (fb_start b + i * n, n)) (seqZ 0 k) ++ res, b :: rm,
   block_rest b (k * n) ++ add).
Proof.
  intros. simpl. destruct (Z.leb_spec r 0); [lia|]. destruct (Z.ltb_spec (fb_size b) n); [lia|].
  done.
Qed.
Lemma batched_list_carve n r b l :
  n <= fb_size b → 0 < r →
  let k := Z.min r (fb_size b / n) in
  batched_list n r (b :: l) = block_rest b (k * n) ++ batched_list n (r - k) l.
Proof.
  intros. simpl. destruct (Z.leb_spec r 0); [lia|]. destruct (Z.ltb_spec (fb_size b) n); [lia|done].
Qed.

Lemma block_rest_split b n k :
  0 < n → n < fb_size b →
  block_rest (mkBlock (fb_start b + n) (fb_size b - n)) (k * n) = block_rest b ((k + 1) * n).
Proof.
  intros. unfold block_rest. simpl.
  destruct (Z.ltb_spec (k * n) (fb_size b - n)), (Z.ltb_spec ((k + 1) * n) (fb_size b)); try lia; [|done].
  do 2 f_equal; lia.
Qed.

Lemma chunk_cons (s n k : Z) :
  0 <= k →
  map (λ i, (s + i * n, n)) (seqZ 0 (k + 1))
  = (s, n) :: map (λ i, (s + n + i * n, n)) (seqZ 0 k).
Proof.
  intros. rewrite seqZ_cons by lia. replace (Z.pred (k + 1)) with k by lia.
  replace (Z.succ 0) with (1 + 0) by lia. rewrite <-(fmap_add_seqZ 1 0 k). simpl. f_equal; [f_equal; lia|].
  rewrite map_map. apply map_ext. intros i. f_equal. lia.
Qed.

(** One iteration of [allocate] carves exactly what the batched loop carves
    first, so the batched run on [r + 1] blocks is one allocation followed by
    the batched run on [r]. *)
Lemma batched_step n r l1 b l2 :
  0 < n → 0 <= r → n <= fb_size b → (∀ c, c ∈ l1 → fb_size c < n) →
  let l := l1 ++ b :: l2 in
  let l' := l1 ++ block_rest b n ++ l2 in
  loop_rem n (r + 1) l = loop_rem n r l' ∧
  loop_res n (r + 1) l = (fb_start b, n) :: loop_res n r l' ∧
  batched_list n (r + 1) l = batched_list n r l'.
Proof.
  intros Hn Hr Hb. unfold loop_rem, loop_res. induction l1 as [|c l1 IH]; intros Hl1; simpl app.
  - rewrite batched_loop_carve, batched_list_carve by lia. clear Hl1.
    assert (0 < fb_size b / n) as Hq by (apply Z.div_str_pos; lia).
    assert (fb_size b = n ∨ n < fb_size b) as [He|Hlt] by lia.
    + assert (block_rest b n = []) as -> by (unfold block_rest; by rewrite He, Z.ltb_irrefl).
      assert (fb_size b / n = 1) as -> by (rewrite He; apply Z.div_same; lia).
      replace (Z.min (r + 1) 1) with (0 + 1) by lia. rewrite chunk_cons by lia.
      replace (r + 1 - (0 + 1)) with r by lia. replace ((0 + 1) * n) with (fb_size b) by lia.
      unfold block_rest. rewrite Z.ltb_irrefl. simpl app.
      destruct (batched_loop n r l2) as [[[? ?] ?] ?]; simpl. done.
    + set (b' := mkBlock (fb_start b + n) (fb_size b - n)).
      assert (block_rest b n = [b']) as Hrest
        by (unfold block_rest; by replace (n <? fb_size b) with true by lia).
      rewrite !Hrest. simpl app.
      assert (r = 0 ∨ 0 < r) as [->|Hr'] by lia.
      { replace (Z.min (0 + 1) (fb_size b / n)) with (0 + 1) by lia.
        rewrite chunk_cons, !batched_loop_done, !batched_list_done by lia.
        replace ((0 + 1) * n) with n by lia. by rewrite Hrest. }
      assert ((fb_size b - n) / n = fb_size b / n - 1) as Hdiv.
      { replace (fb_size b - n) with (fb_size b + -1 * n) by lia. rewrite Z.div_add by lia. lia. }
      destruct (Z.ltb_spec (fb_size b - n) n) as [?|?].
      * assert (fb_size b / n = 1) as -> by (rewrite Z.div_small in Hdiv; lia).
        rewrite batched_loop_skip, batched_list_skip by (simpl; lia).
        replace (Z.min (r + 1) 1) with (0 + 1) by lia. rewrite chunk_cons by lia.
        replace (r + 1 - (0 + 1)) with r by lia. replace ((0 + 1) * n) with n by lia.
        rewrite Hrest. destruct (batched_loop n r l2) as [[[? ?] ?] ?]; simpl. done.
      * rewrite batched_loop_carve, batched_list_carve by (simpl; lia). simpl fb_size. rewrite Hdiv.
        assert (0 < (fb_size b - n) / n) by (apply Z.div_str_pos; lia).
        replace (Z.min (r + 1) (fb_size b / n)) with (Z.min r (fb_size b / n - 1) + 1) by lia.
        set (k := Z.min r (fb_size b / n - 1)).
        rewrite chunk_cons by lia. replace (r + 1 - (k + 1)) with (r - k) by lia.
        unfold b'. rewrite !block_rest_split by lia.
        destruct (batched_loop n (r - k) l2) as [[[? ?] ?] ?]; simpl. done.
  - specialize (IH ltac:(set_solver)). assert (fb_size c < n) by (apply Hl1; left).
    rewrite batched_loop_skip, batched_list_skip by lia. destruct IH as (-> & -> & ->).
    assert (r = 0 ∨ 0 < r) as [->|Hr'] by lia.
    + by rewrite !batched_loop_done, !batched_list_done by lia.
    + by rewrite (batched_loop_skip _ r), (batched_list_skip _ r) by lia.
Qed.

(** The blocks the loop leaves alone. *)
Fixpoint kept (n r : Z) (l : list FreeBlock) : list FreeBlock :=
  match l with
  | [] => []
  | b :: l' =>
      if r <=? 0 then l
      else if fb_size b <? n then b :: kept n r l'
      else kept n (r - Z.min r (fb_size b / n)) l'
  end.

Lemma kept_sub n r l b : b ∈ kept n r l → b ∈ l.
Proof.
  revert r. induction l as [|c l IH]; intros r; simpl; [done|].
  destruct (r <=? 0); [done|]. destruct (fb_size c <? n); [set_solver|].
  intros ?%IH. by right.
Qed.

Lemma batched_removes p n r l1 l hi :
  0 < n → chain p (l1 ++ l) hi →
  remove_all (batched_loop n r l).1.2 (l1 ++ l) = Ret (l1 ++ kept n r l).
Proof.
  intros Hn. revert r l1. induction l as [|b l IH]; intros r l1 Hc; [done|].
  assert (r <= 0 ∨ 0 < r) as [?|?] by lia.
  { rewrite batched_loop_done by done. simpl. by destruct (Z.leb_spec r 0); [|lia]. }
  simpl kept. destruct (Z.leb_spec r 0); [lia|]. destruct (Z.ltb_spec (fb_size b) n).
  - rewrite batched_loop_skip by done. specialize (IH r (l1 ++ [b])).
    rewrite <-!app_assoc in IH. by apply IH.
  - rewrite batched_loop_carve by lia.
    specialize (IH (r - Z.min r (fb_size b / n)) l1).
    destruct (batched_loop n (r - _) l) as [[[? ?] ?] ?]. simpl in *.
    rewrite sl_remove_app by (by eapply chain_notin). simpl. apply IH.
    pose proof (chain_carve p l1 b l hi (fb_size b) ltac:(lia) ltac:(lia) Hc) as Hc'.
    unfold block_rest in Hc'. by rewrite Z.ltb_irrefl in Hc'.
Qed.

Lemma batched_adds p n r l1 l hi :
  0 < n → chain p (l1 ++ l) hi →
  foldl (λ l b, sl_add b l) (l1 ++ kept n r l) (batched_loop n r l).2 = l1 ++ batched_list n r l.
Proof.
  intros Hn. revert r l1. induction l as [|b l IH]; intros r l1 Hc; [done|].
  assert (r <= 0 ∨ 0 < r) as [?|?] by lia.
  { rewrite batched_loop_done, batched_list_done by done. simpl.
    by destruct (Z.leb_spec r 0); [|lia]. }
  simpl kept. destruct (Z.leb_spec r 0); [lia|]. destruct (Z.ltb_spec (fb_size b) n).
  - rewrite batched_loop_skip, batched_list_skip by done. specialize (IH r (l1 ++ [b])).
    rewrite <-!app_assoc in IH. by apply IH.
  - rewrite batched_list_carve by done.
    rewrite batched_loop_carve by lia.
    set (k := Z.min r (fb_size b / n)) in *.
    assert (0 < fb_size b / n) by (apply Z.div_str_pos; lia).
    assert (k * n <= fb_size b) as Hk.
    { pose proof (Z.mul_div_le (fb_size b) n Hn). nia. }
    pose proof (chain_carve p l1 b l hi (k * n) ltac:(nia) Hk Hc) as Hc'.
    specialize (IH (r - k) (l1 ++ block_rest b (k * n))).
    destruct (batched_loop n (r - k) l) as [[[? ?] ?] add]. simpl in *.
    rewrite foldl_app. rewrite <-!app_assoc in IH. rewrite <-IH by done. f_equal.
    unfold block_rest in *. destruct (Z.ltb_spec (k * n) (fb_size b)); [|done]. simpl.
    apply chain_app in Hc as [Hc1 (?&?&?&Hc2)].
    eapply sl_add_app; [done|simpl; nia|]. destruct (kept n (r - k) l) as [|c lk] eqn:Ek; [done|].
    assert (c ∈ l) as Hin by (eapply kept_sub; rewrite Ek; left).
    pose proof (chain_elem _ _ _ _ Hc2 Hin). unfold fb_end in *. simpl. lia.
Qed.

(** [batched_allocate] on the list level. *)
Lemma batched_allocate_explicit am size k :
  wf am → 0 < size → 0 <= k →
  let n := compute_aligned_size (am_align am) size in
  am_batched_allocate size k am =
    if 0 <? loop_rem n k (am_list am) then Raise RuntimeError
    else Ret (loop_res n k (am_list am),
              mkAM (am_size am) (am_align am) (batched_list n k (am_list am))
                   (am_total am + n * k)).
Proof.
  intros Hwf Hs Hk n. pose proof (aligned_pos _ _ Hwf Hs) as Hn. fold n in Hn.
  destruct Hwf as [Hc _ _]. unfold am_batched_allocate. fold n.
  destruct (Z.leb_spec size 0); [lia|]. destruct (Z.ltb_spec k 0); [lia|].
  pose proof (batched_removes _ n k [] _ _ Hn Hc) as Hr.
  pose proof (batched_adds _ n k [] _ _ Hn Hc) as Ha.
  unfold loop_rem, loop_res. destruct (batched_loop n k (am_list am)) as [[[rem res] rm] add].
  simpl in *. destruct (0 <? rem); [done|]. rewrite Hr. simpl. by rewrite Ha.
Qed.

Lemma batched_is_iterated am size k :
  wf am → 0 < size →
  am_batched_allocate size (Z.of_nat k) am = allocate_n k size am.
Proof.
  intros Hwf Hs. rewrite batched_allocate_explicit by (done || lia). simpl.
  revert am Hwf. induction k as [|k IH]; intros am Hwf; simpl allocate_n.
  - unfold loop_rem, loop_res. rewrite batched_loop_done, batched_list_done by lia. simpl.
    rewrite Z.mul_0_r, Z.add_0_r. by destruct am.
  - pose proof (am_allocate_explicit am size Hwf Hs) as He. cbv zeta in He.
    pose proof (aligned_pos _ _ Hwf Hs) as Hn.
    set (n := compute_aligned_size (am_align am) size) in *.
    replace (Z.of_nat (S k)) with (Z.of_nat k + 1) by lia.
    destruct (find_fit n (am_list am)) as [b|] eqn:E.
    + destruct He as (l1 & l2 & Heq & Hb & Hl1 & ->). simpl.
      pose proof (wf_carve am b l1 l2 n Hwf Hn Heq Hb) as Hwf'.
      rewrite <-(IH _ Hwf'). simpl. fold n. rewrite Heq.
      destruct (batched_step n (Z.of_nat k) l1 b l2) as (-> & -> & ->); [done|lia|done|done|].
      destruct (0 <? _); [done|]. simpl. do 3 f_equal. lia.
    + rewrite He. simpl. assert (loop_rem n (Z.of_nat k + 1) (am_list am) = Z.of_nat k + 1) as ->.
      { clear He IH. unfold loop_rem.
        pose proof (find_fit_None _ _ E) as Hl. clear E Hwf.
        induction (am_list am) as [|c l IHl]; [done|].
        rewrite batched_loop_skip; [|apply Hl; left|lia]. apply IHl. set_solver. }
      destruct (Z.ltb_spec 0 (Z.of_nat k + 1)); [done|lia].
Qed.

(** ** Clients: the live regions

    A client holds the regions it was given and gives each back once. [cov]
    counts the live regions that cover an address. *)

Definition covers (r : Z * Z) (x : Z) : Prop := r.1 <= x < r.1 + r.2.
#[export] Instance covers_dec r x : Decision (covers r x).
Proof. unfold covers. apply _. Defined.

Definition ind (x : Z) (r : Z * Z) : Z := if decide (covers r x) then 1 else 0.
Definition cov (live : list (Z * Z)) (x : Z) : Z := zsum (ind x) live.

Record am_inv (am : AddressManager) (live : list (Z * Z)) : Prop := {
  inv_wf : wf am;
  inv_size : 0 <= am_size am;
  inv_cover : ∀ x, 0 <= x < am_size am →
    free_at (am_list am) x ∧ cov live x = 0 ∨ ¬ free_at (am_list am) x ∧ cov live x = 1;
  inv_out : ∀ x, ¬ (0 <= x < am_size am) → cov live x = 0;
  inv_pos : ∀ r, r ∈ live → 0 < r.2;
  inv_total : am_total am = zsum snd live
}.

Lemma ind_range x r : 0 <= ind x r <= 1.
Proof. unfold ind. case_decide; lia. Qed.

Lemma cov_nonneg live x : 0 <= cov live x.
Proof. apply zsum_nonneg. intros r _. apply ind_range. Qed.

Lemma cov_elem live r x : r ∈ live → covers r x → 1 <= cov live x.
Proof.
  intros Hr Hx. unfold cov. induction live as [|s live IH]; [set_solver|]. simpl.
  pose proof (ind_range x s). pose proof (cov_nonneg live x). unfold cov in *.
  apply elem_of_cons in Hr as [->|Hr].
  - unfold ind at 1. rewrite decide_True by done. lia.
  - specialize (IH Hr). lia.
Qed.

Lemma am_inv_init size k : 0 < size → 0 <= k → am_inv (am_init size (2 ^ k)) [].
Proof.
  intros Hs Hk. split; simpl; try done; [by apply init_wf|lia| |set_solver].
  intros x Hx. left. split; [|done]. exists (mkBlock 0 size). split; [left|].
  unfold in_block, fb_end. simpl. lia.
Qed.

Lemma free_in_heap am x : wf am → free_at (am_list am) x → 0 <= x < am_size am.
Proof. intros [Hc _ _] Hf. pose proof (chain_free _ _ _ _ Hc Hf). lia. Qed.

Lemma am_inv_alloc am live size r am' :
  am_inv am live → 0 < size → am_allocate size am = Ret (r, am') → am_inv am' (r :: live).
Proof.
  intros [Hwf Hsz Hcov Hout Hpos Htot] Hs Ha. pose proof (allocate_ok am size Hwf Hs) as H.
  rewrite Ha in H. destruct r as [a m]. destruct H as (-> & Hrun & _ & Hfree & Ht & Hsize & _ & Hwf').
  pose proof (aligned_pos _ _ Hwf Hs) as Hn. set (n := compute_aligned_size _ _) in *.
  split; [done|lia| | | |simpl; lia].
  - intros x Hx. rewrite Hsize in Hx. specialize (Hcov x Hx). rewrite Hfree. simpl.
    unfold cov in *. simpl. unfold ind at 1 3, covers. simpl. case_decide as Hd.
    + right. specialize (Hrun x Hd). split; [tauto|]. destruct Hcov as [[_ ->]|[? _]]; [lia|tauto].
    + rewrite Z.add_0_l. tauto.
  - intros x Hx. rewrite Hsize in Hx. unfold cov. simpl. unfold ind at 1, covers. simpl.
    case_decide as Hd.
    + exfalso. apply Hx. by apply (free_in_heap am x Hwf), Hrun.
    + fold (cov live x). rewrite Hout by done. lia.
  - intros s [->|Hr]%elem_of_cons; [done|auto].
Qed.

Lemma am_inv_alloc_n am live size k rs am' :
  am_inv am live → 0 < size → allocate_n k size am = Ret (rs, am') →
  am_inv am' (rev rs ++ live) ∧ length rs = k ∧
  (∀ r, r ∈ rs → r.2 = compute_aligned_size (am_align am) size) ∧
  am_size am' = am_size am ∧ am_align am' = am_align am.
Proof.
  revert am live rs. induction k as [|k IH]; intros am live rs Hinv Hs; simpl.
  - intros [= <- <-]. split_and!; [done|done|set_solver|done|done].
  - destruct (am_allocate size am) as [[r am1]|] eqn:Ha; simpl; [|done].
    destruct (allocate_n k size am1) as [[rs1 am2]|] eqn:Hn; simpl; [|done].
    intros [= <- <-]. pose proof (am_inv_alloc _ _ _ _ _ Hinv Hs Ha) as Hinv1.
    pose proof (allocate_ok am size (inv_wf _ _ Hinv) Hs) as H. rewrite Ha in H.
    destruct r as [a m], H as (-> & _ & _ & _ & _ & Hsz & Hal & _).
    destruct (IH _ _ _ Hinv1 Hs Hn) as (Hinv2 & <- & Hrs & Hsz2 & Hal2). rewrite Hal in Hrs.
    split_and!; [| done| |congruence|congruence].
    + simpl. by rewrite <-app_assoc.
    + intros r [->|?]%elem_of_cons; [done|auto].
Qed.

Lemma cov_perm live live' x : live ≡ₚ live' → cov live x = cov live' x.
Proof. apply zsum_perm. Qed.

Lemma am_inv_perm am live live' : live ≡ₚ live' → am_inv am live → am_inv am live'.
Proof.
  intros Hp [Hwf Hsz Hcov Hout Hpos Htot]. split; [done|done|..].
  - intros x Hx. rewrite <-(cov_perm _ _ x Hp). auto.
  - intros x Hx. rewrite <-(cov_perm _ _ x Hp). auto.
  - intros r Hr. apply Hpos. by rewrite Hp.
  - by rewrite <-(zsum_perm _ _ _ Hp).
Qed.

(** [seg a rs n]: the regions [rs] are adjacent, in order, from [a] to
    [a + n]. *)
Fixpoint seg (a : Z) (rs : list (Z * Z)) (n : Z) : Prop :=
  match rs with
  | [] => n = 0
  | r :: rs' => r.1 = a ∧ 0 < r.2 ∧ seg (a + r.2) rs' (n - r.2)
  end.

Lemma seg_nonneg a rs n : seg a rs n → 0 <= n.
Proof. revert a n. induction rs as [|r rs IH]; simpl; intros a n; [lia|]. intros (?&?&?%IH). lia. Qed.

Lemma seg_cov a rs n x : seg a rs n → cov rs x = if decide (a <= x < a + n) then 1 else 0.
Proof.
  revert a n. induction rs as [|r rs IH]; intros a n; simpl.
  - intros ->. by rewrite decide_False by lia.
  - intros (<- & Hr & Hseg). pose proof (seg_nonneg _ _ _ Hseg). unfold cov in *. simpl.
    rewrite (IH _ _ Hseg). unfold ind, covers. repeat case_decide; lia.
Qed.

Lemma seg_zsum a rs n : seg a rs n → zsum snd rs = n.
Proof. revert a n. induction rs as [|r rs IH]; simpl; intros a n; [lia|]. intros (?&?&->%IH). lia. Qed.

(** Giving back a run of adjacent live regions with a single [free]. *)
Lemma am_inv_free_seg am live rs live' a n :
  am_inv am live → live ≡ₚ rs ++ live' → seg a rs n → 0 < n →
  ∃ am', am_free a n am = Ret am' ∧ am_inv am' live' ∧ am_size am' = am_size am ∧
         am_align am' = am_align am.
Proof.
  intros Hinv Hp Hseg Hn. apply (am_inv_perm _ _ _ Hp) in Hinv.
  destruct Hinv as [Hwf Hsz Hcov Hout Hpos Htot].
  assert (∀ x, cov (rs ++ live') x = (if decide (a <= x < a + n) then 1 else 0) + cov live' x) as Hadd.
  { intros x. unfold cov. rewrite zsum_app. fold (cov rs x). by rewrite (seg_cov _ _ _ _ Hseg). }
  assert (∀ x, a <= x < a + n → 0 <= x < am_size am) as Hin.
  { intros x Hx. destruct (decide (0 <= x < am_size am)) as [|Hx']; [done|].
    specialize (Hout x Hx'). rewrite Hadd, decide_True in Hout by done.
    pose proof (cov_nonneg live' x). lia. }
  assert (run_used (am_list am) a n) as Hused.
  { intros x Hx Hf. destruct (Hcov x (Hin x Hx)) as [[_ Hc]|[? _]]; [|done].
    rewrite Hadd, decide_True in Hc by done. pose proof (cov_nonneg live' x). lia. }
  destruct (free_ok am a n) as (l' & -> & Hwf' & Hfree); [done|done| | |done|].
  { specialize (Hin a). lia. } { specialize (Hin (a + n - 1)). lia. }
  eexists; split_and!; [done| |done|done]. split; simpl; [done|done|..].
  - intros x Hx. rewrite Hfree. specialize (Hcov x Hx). rewrite Hadd in Hcov.
    case_decide; [|rewrite Z.add_0_l in Hcov; tauto].
    left. split; [by right|]. pose proof (cov_nonneg live' x). destruct Hcov as [[_ ?]|[_ ?]]; lia.
  - intros x Hx. specialize (Hout x Hx). rewrite Hadd in Hout. pose proof (cov_nonneg live' x).
    case_decide; lia.
  - intros r Hr. apply Hpos. set_solver.
  - rewrite zsum_app, (seg_zsum _ _ _ Hseg) in Htot. lia.
Qed.

Lemma am_inv_sbrk am live size :
  am_inv am live → 0 < size →
  ∃ am', am_sbrk size am = Ret am' ∧ am_inv am' live ∧ am_align am' = am_align am ∧
         am_size am' = am_size am + compute_aligned_size (am_align am) size.
Proof.
  intros [Hwf Hsz Hcov Hout Hpos Htot] Hs. pose proof (aligned_pos _ _ Hwf Hs) as Hn.
  destruct (sbrk_ok am size Hwf Hsz Hs) as (l' & -> & Hwf' & Hfree).
  set (n := compute_aligned_size _ _) in *. eexists; split_and!; [done| |done|done].
  split; simpl; [done|lia| | |done|done].
  - intros x Hx. rewrite Hfree. destruct (decide (x < am_size am)).
    + specialize (Hcov x ltac:(lia)). destruct Hcov as [[? ?]|[Hnf ?]]; [tauto|].
      right. split; [|done]. intros [?|?]; [done|lia].
    + left. split; [right; lia|]. apply Hout. lia.
  - intros x Hx. apply Hout. lia.
Qed.

(** The histories of a client: allocations (single or batched), returns of a
    live region and heap growth, in any order. *)
Inductive am_step : AddressManager * list (Z * Z) → AddressManager * list (Z * Z) → Prop :=
  | step_allocate am live size r am' :
      am_allocate size am = Ret (r, am') → am_step (am, live) (am', r :: live)
  | step_batched am live size k rs am' :
      am_batched_allocate size k am = Ret (rs, am') → am_step (am, live) (am', rs ++ live)
  | step_free am live r live' am' :
      live ≡ₚ r :: live' → am_free r.1 r.2 am = Ret am' → am_step (am, live) (am', live')
  | step_sbrk am live size am' :
      0 < size → am_sbrk size am = Ret am' → am_step (am, live) (am', live).

Lemma am_step_inv s s' : am_step s s' → am_inv s.1 s.2 → am_inv s'.1 s'.2 ∧ am_align s'.1 = am_align s.1.
Proof.
  intros Hstep. destruct Hstep as [am live size r am' Ha|am live size k rs am' Hb|
    am live r live' am' Hp Hf|am live size am' Hs Hb]; simpl; intros Hinv.
  - assert (0 < size).
    { unfold am_allocate in Ha. destruct (Z.leb_spec size 0); [done|lia]. }
    pose proof (allocate_ok am size (inv_wf _ _ Hinv) ltac:(done)) as Hok. rewrite Ha in Hok.
    destruct r; destruct Hok as (_&_&_&_&_&_&?&_). split; [by eapply am_inv_alloc|done].
  - assert (0 < size ∧ 0 <= k) as [? Hk].
    { unfold am_batched_allocate in Hb. destruct (Z.leb_spec size 0); [done|].
      destruct (Z.ltb_spec k 0); [done|lia]. }
    rewrite <-(Z2Nat.id k Hk), batched_is_iterated in Hb by (done || apply Hinv).
    destruct (am_inv_alloc_n _ _ _ _ _ _ Hinv ltac:(done) Hb) as (Hinv' & _ & _ & _ & ?).
    split; [|done]. eapply am_inv_perm; [|done].
    apply Permutation_app; [symmetry; apply Permutation_rev|done].
  - destruct r as [a n]. assert (0 < n) by (apply (inv_pos _ _ Hinv (a, n)); rewrite Hp; left).
    destruct (am_inv_free_seg am live [(a, n)] live' a n Hinv Hp) as (am1 & Hf1 & ?&?&?);
      [simpl; split_and!; lia|done|]. simpl in Hf. rewrite Hf in Hf1. by simplify_eq.
  - destruct (am_inv_sbrk am live size Hinv Hs) as (am1 & Hb1 & ? & ? & ?).
    rewrite Hb in Hb1. by simplify_eq.
Qed.

Lemma am_reachable_inv size k s :
  0 < size → 0 <= k → rtc am_step (am_init size (2 ^ k), []) s →
  am_inv s.1 s.2 ∧ am_align s.1 = 2 ^ k.
Proof.
  intros Hs Hk. apply (rtc_ind_r (λ s, am_inv s.1 s.2 ∧ am_align s.1 = 2 ^ k)).
  - split; [by apply am_inv_init|done].
  - intros s1 s2 _ Hstep [Hinv Hal]. destruct (am_step_inv _ _ Hstep Hinv). split; [done|congruence].
Qed.

Lemma cov_disjoint live i j r s :
  (∀ x, cov live x <= 1) → (∀ r, r ∈ live → 0 < r.2) → i ≠ j →
  live !! i = Some r → live !! j = Some s → r.1 + r.2 <= s.1 ∨ s.1 + s.2 <= r.1.
Proof.
  intros Hcov Hpos Hne Hi Hj.
  assert (∀ x, covers r x → covers s x → False) as Hd.
  { intros x Hr Hs. specialize (Hcov x).
    pose proof (delete_Permutation _ _ _ Hi) as Hp. rewrite (cov_perm _ _ x Hp) in Hcov.
    unfold cov in Hcov. simpl in Hcov. unfold ind at 1 in Hcov. rewrite decide_True in Hcov by done.
    assert (s ∈ delete i live) as Hin.
    { apply list_elem_of_lookup. destruct (decide (j < i)%nat).
      - exists j. by rewrite list_lookup_delete_lt.
      - exists (j - 1)%nat. rewrite list_lookup_delete_ge by lia. by replace (S (j - 1)) with j by lia. }
    pose proof (cov_elem _ _ _ Hin Hs) as Hc. unfold cov in Hc. lia. }
  pose proof (Hpos r ltac:(by eapply list_elem_of_lookup_2)).
  pose proof (Hpos s ltac:(by eapply list_elem_of_lookup_2)).
  destruct (decide (r.1 <= s.1)).
  - left. destruct (decide (r.1 + r.2 <= s.1)); [done|]. exfalso. apply (Hd s.1); unfold covers; lia.
  - right. destruct (decide (s.1 + s.2 <= r.1)); [done|]. exfalso. apply (Hd r.1); unfold covers; lia.
Qed.

Lemma am_inv_cov_le am live x : am_inv am live → cov live x <= 1.
Proof.
  intros Hinv. destruct (decide (0 <= x < am_size am)) as [Hx|Hx].
  - destruct (inv_cover _ _ Hinv x Hx) as [[_ ->]|[_ ->]]; lia.
  - rewrite (inv_out _ _ Hinv x Hx). lia.
Qed.

Lemma am_inv_region am live r : am_inv am live → r ∈ live → 0 <= r.1 ∧ r.1 + r.2 <= am_size am.
Proof.
  intros Hinv Hr. pose proof (inv_pos _ _ Hinv r Hr).
  assert (∀ x, covers r x → 0 <= x < am_size am) as Hin.
  { intros x Hx. destruct (decide (0 <= x < am_size am)) as [|Hx']; [done|].
    pose proof (inv_out _ _ Hinv x Hx'). pose proof (cov_elem _ _ _ Hr Hx). lia. }
  pose proof (Hin r.1 ltac:(unfold covers; lia)). pose proof (Hin (r.1 + r.2 - 1) ltac:(unfold covers; lia)).
  lia.
Qed.

(** *** Alignment of the addresses handed out *)

(** A set of addresses that is a union of [A]-byte cells. *)
Definition cell_closed (A : Z) (F : Z → Prop) : Prop := ∀ x, F x ↔ F (x / A * A).

Lemma cell_start A x : 0 < A → x / A * A <= x < x / A * A + A.
Proof.
  intros. pose proof (Z.div_mod x A ltac:(lia)). pose proof (Z.mod_pos_bound x A ltac:(lia)). nia.
Qed.

(** Membership in an aligned range only depends on the cell. *)
Lemma cell_closed_range A a n : 0 < A → (A | a) → (A | n) → cell_closed A (λ x, a <= x < a + n).
Proof.
  intros HA [p ->] [q ->] x. pose proof (cell_start A x HA). split; intros Hx.
  - assert (p <= x / A) by (apply Z.div_le_lower_bound; lia).
    assert (x / A < p + q) by (apply Z.div_lt_upper_bound; lia). nia.
  - assert (x / A < p + q) by nia. assert (x / A * A + A <= (p + q) * A) by nia. lia.
Qed.

Lemma lowest_run_aligned A F a n :
  0 < A → (A | n) → 0 < n → cell_closed A F →
  (∀ x, a <= x < a + n → F x) →
  (∀ a', (∀ x, a' <= x < a' + n → F x) → a <= a') →
  (A | a).
Proof.
  intros HA [q ->] Hn Hcell Hrun Hmin. pose proof (cell_start A a HA) as Hca.
  assert (a <= a / A * A); [|exists (a / A); lia]. apply Hmin. intros x Hx.
  pose proof (cell_start A x HA) as Hcx. apply Hcell.
  assert (a / A <= x / A) by (apply Z.div_le_lower_bound; lia).
  assert (a / A * A <= x / A * A) by nia.
  assert (x / A = Z.max (x / A * A) a / A) as Hy
    by (apply (Z.div_unique_pos _ _ _ (Z.max (x / A * A) a - x / A * A)); lia).
  rewrite Hy. apply (proj1 (Hcell (Z.max (x / A * A) a))), Hrun. lia.
Qed.

Definition am_aligned (A : Z) (am : AddressManager) (live : list (Z * Z)) : Prop :=
  (A | am_size am) ∧ ∀ r, r ∈ live → (A | r.1) ∧ (A | r.2).

Lemma am_inv_free_iff am live x :
  am_inv am live → free_at (am_list am) x ↔ 0 <= x < am_size am ∧ cov live x = 0.
Proof.
  intros Hinv. split.
  - intros Hf. pose proof (free_in_heap _ _ (inv_wf _ _ Hinv) Hf) as Hx. split; [done|].
    destruct (inv_cover _ _ Hinv x Hx) as [[_ ?]|[? _]]; done.
  - intros [Hx Hc]. destruct (inv_cover _ _ Hinv x Hx) as [[? _]|[_ ?]]; [done|lia].
Qed.

Lemma cell_closed_free A am live :
  0 < A → am_inv am live → am_aligned A am live → cell_closed A (free_at (am_list am)).
Proof.
  intros HA Hinv [Hsz Hl] x. rewrite !(am_inv_free_iff _ _ _ Hinv).
  assert (cov live x = cov live (x / A * A)) as ->.
  { apply zsum_ext. intros r Hr. destruct (Hl r Hr) as [H1 H2].
    pose proof (cell_closed_range A r.1 r.2 HA H1 H2 x) as Hc. unfold ind, covers.
    repeat case_decide; tauto. }
  pose proof (cell_closed_range A 0 (am_size am) HA (Z.divide_0_r A) Hsz x) as Hc.
  rewrite Z.add_0_l in Hc. tauto.
Qed.

Lemma am_aligned_alloc k am live size r am' :
  0 <= k → am_align am = 2 ^ k → am_inv am live → am_aligned (2 ^ k) am live → 0 < size →
  am_allocate size am = Ret (r, am') → am_aligned (2 ^ k) am' (r :: live).
Proof.
  intros Hk Hal Hinv Hali Hs Ha.
  pose proof (Z.pow_pos_nonneg 2 k ltac:(lia) Hk) as HA.
  pose proof (aligned_pos _ _ (inv_wf _ _ Hinv) Hs) as Hn.
  pose proof (allocate_ok am size (inv_wf _ _ Hinv) Hs) as Hok. rewrite Ha in Hok.
  destruct r as [a m], Hok as (-> & Hrun & Hmin & _ & _ & Hsize & _). rewrite Hal in *.
  pose proof (compute_aligned_size_spec k size Hk) as [_ Hdiv]. destruct Hali as [Hsz Hl].
  split; [by rewrite Hsize|]. intros s [->|?]%elem_of_cons; [|auto]. split; [|done].
  eapply lowest_run_aligned; [done|exact Hdiv|done|by eapply cell_closed_free|done|done].
Qed.

Lemma am_aligned_alloc_n k am live size j rs am' :
  0 <= k → am_align am = 2 ^ k → am_inv am live → am_aligned (2 ^ k) am live → 0 < size →
  allocate_n j size am = Ret (rs, am') → am_aligned (2 ^ k) am' (rev rs ++ live).
Proof.
  intros Hk. revert am live rs. induction j as [|j IH]; intros am live rs Hal Hinv Hali Hs; simpl.
  - by intros [= <- <-].
  - destruct (am_allocate size am) as [[r am1]|] eqn:Ha; simpl; [|done].
    destruct (allocate_n j size am1) as [[rs1 am2]|] eqn:Hn; simpl; [|done].
    intros [= <- <-]. simpl. rewrite <-app_assoc.
    pose proof (allocate_ok am size (inv_wf _ _ Hinv) Hs) as Hok. rewrite Ha in Hok.
    destruct r as [a m]. destruct Hok as (_&_&_&_&_&_&Hal1&_).
    eapply (IH am1); [congruence|by eapply am_inv_alloc|by eapply am_aligned_alloc|done|done].
Qed.

Lemma am_step_aligned k s s' :
  0 <= k → am_align s.1 = 2 ^ k → am_inv s.1 s.2 → am_aligned (2 ^ k) s.1 s.2 →
  am_step s s' → am_aligned (2 ^ k) s'.1 s'.2.
Proof.
  intros Hk Hal Hinv Hali Hstep. destruct Hstep as [am live size r am' Ha|am live size j rs am' Hb|
    am live r live' am' Hp Hf|am live size am' Hs Hb]; simpl in *.
  - eapply am_aligned_alloc; try done. unfold am_allocate in Ha. destruct (Z.leb_spec size 0); [done|lia].
  - assert (0 < size ∧ 0 <= j) as [? Hj].
    { unfold am_batched_allocate in Hb. destruct (Z.leb_spec size 0); [done|].
      destruct (Z.ltb_spec j 0); [done|lia]. }
    rewrite <-(Z2Nat.id j Hj), batched_is_iterated in Hb by (done || apply Hinv).
    destruct (am_aligned_alloc_n k am live size _ _ _ Hk Hal Hinv Hali ltac:(done) Hb) as [? Hl].
    split; [done|]. intros r Hr. apply Hl. by rewrite <-(Permutation_rev rs).
  - destruct r as [a n]. assert (0 < n) by (apply (inv_pos _ _ Hinv (a, n)); rewrite Hp; left).
    destruct (am_inv_free_seg am live [(a, n)] live' a n Hinv Hp) as (am1 & Hf1 & ?&Hsz&?);
      [simpl; split_and!; lia|done|]. simpl in Hf. rewrite Hf in Hf1. simplify_eq.
    destruct Hali as [? Hl]. split; [by rewrite Hsz|]. intros r Hr. apply Hl. rewrite Hp. by right.
  - destruct (am_inv_sbrk am live size Hinv Hs) as (am1 & Hb1 & ? & ? & Hsz).
    rewrite Hb in Hb1. simplify_eq. destruct Hali as [? Hl]. split; [|done]. rewrite Hsz, Hal.
    apply Z.divide_add_r; [done|]. by apply compute_aligned_size_spec.
Qed.

(** ** Properties *)

(** C5: over every history of allocations, batched allocations,
    returns and heap growth starting from a fresh address manager, the regions
    a client holds lie inside the heap, are pairwise disjoint and disjoint from
    the free list, the free byte count is the heap size minus what is held, and
    [check_consistency] answers true. *)
Theorem am_reachable_safe size k am live :
  0 < size → 0 <= k → rtc am_step (am_init size (2 ^ k), []) (am, live) →
  check_consistency am = true ∧
  get_free_size am = get_heap_size am - zsum snd live ∧
  (∀ r, r ∈ live → 0 <= r.1 ∧ r.1 + r.2 <= get_heap_size am ∧ run_used (am_list am) r.1 r.2) ∧
  (∀ i j r s, i ≠ j → live !! i = Some r → live !! j = Some s →
     r.1 + r.2 <= s.1 ∨ s.1 + s.2 <= r.1).
Proof.
  intros Hs Hk Hr. destruct (am_reachable_inv _ _ _ Hs Hk Hr) as [Hinv _]. simpl in Hinv.
  split_and!.
  - apply check_consistency_ok, Hinv.
  - unfold get_free_size, get_heap_size. rewrite (inv_total _ _ Hinv). done.
  - intros r Hin. pose proof (am_inv_region _ _ _ Hinv Hin) as [? ?]. split_and!; [done|done|].
    intros x Hx Hf. apply (am_inv_free_iff _ _ _ Hinv) in Hf as [_ Hc].
    pose proof (cov_elem _ _ _ Hin Hx). lia.
  - intros i j r s Hne. eapply cov_disjoint; [|apply Hinv|done].
    intros x. by eapply am_inv_cov_le.
Qed.

Lemma am_reachable_safe_witness :
  check_consistency (mkAM 64 16 [mkBlock 16 48] 16) = true.
Proof.
  apply (am_reachable_safe 64 4 _ [(0, 16)]); [lia|lia|].
  apply rtc_once. apply (step_allocate _ _ 10). reflexivity.
Defined.

(** [allocate] returns the lowest free region of the aligned size,
    removes exactly it from the free addresses and keeps the invariant; it
    raises [RuntimeError] exactly when no free region of that size exists, so
    coalescing never hides available memory. *)
Theorem am_allocate_first_fit am size :
  wf am → 0 < size →
  let n := compute_aligned_size (am_align am) size in
  match am_allocate size am with
  | Ret ((a, m), am') =>
      m = n ∧ run_free (am_list am) a n ∧
      (∀ a', run_free (am_list am) a' n → a <= a') ∧
      (∀ x, free_at (am_list am') x ↔ free_at (am_list am) x ∧ ¬ (a <= x < a + n)) ∧
      am_total am' = am_total am + n ∧ am_size am' = am_size am ∧
      am_align am' = am_align am ∧ wf am'
  | Raise e => e = RuntimeError ∧ ∀ a, ¬ run_free (am_list am) a n
  end.
Proof. apply allocate_ok. Qed.

Lemma am_allocate_first_fit_witness :
  wf (am_init 64 (2 ^ 4)) ∧
  match am_allocate 10 (am_init 64 (2 ^ 4)) with
  | Ret ((a, m), _) => m = 16 ∧ run_free [mkBlock 0 64] a 16
  | Raise _ => False
  end.
Proof.
  assert (wf (am_init 64 (2 ^ 4))) as Hwf by (apply init_wf; lia). split; [exact Hwf|].
  pose proof (am_allocate_first_fit (am_init 64 (2 ^ 4)) 10 Hwf ltac:(lia)) as H.
  simpl in H. simpl. exact (conj (proj1 H) (proj1 (proj2 H))).
Defined.

(** The optimised [batched_allocate] computes the same addresses
    and the same allocator state as that many successive calls of [allocate],
    and raises [RuntimeError] exactly when one of them would. *)
Theorem am_batched_allocate_iterates am size k :
  wf am → 0 < size →
  am_batched_allocate size (Z.of_nat k) am = allocate_n k size am.
Proof. apply batched_is_iterated. Qed.

Lemma am_batched_allocate_iterates_witness :
  am_batched_allocate 10 3 (am_init 64 (2 ^ 4))
  = Ret ([(0, 16); (16, 16); (32, 16)], mkAM 64 16 [mkBlock 48 16] 48).
Proof.
  pose proof (am_batched_allocate_iterates (am_init 64 (2 ^ 4)) 10 3
    ltac:(apply init_wf; lia) ltac:(lia)) as H.
  change (Z.of_nat 3) with 3 in H. rewrite H. reflexivity.
Defined.

(** Freeing a region right after it was allocated restores the
    address manager exactly - the same coalesced free list and the same
    accounting. *)
Theorem am_allocate_free am live size a n am' :
  am_inv am live → 0 < size → am_allocate size am = Ret ((a, n), am') →
  am_free a n am' = Ret am.
Proof.
  intros Hinv Hs Ha. pose proof (am_inv_alloc _ _ _ _ _ Hinv Hs Ha) as Hinv'.
  pose proof (allocate_ok am size (inv_wf _ _ Hinv) Hs) as Hok. rewrite Ha in Hok.
  destruct Hok as (-> & Hrun & _ & Hfree & Htot & Hsz & Hal & Hwf').
  pose proof (aligned_pos _ _ (inv_wf _ _ Hinv) Hs) as Hn. set (n := compute_aligned_size _ _) in *.
  pose proof (am_inv_region _ _ (a, n) Hinv' ltac:(left)) as [? ?].
  destruct (free_ok am' a n) as (l' & -> & [Hc _ _] & Hfree'); [done|done|done|done| |].
  { intros x Hx. rewrite Hfree. tauto. }
  destruct am as [sz al l tot], (inv_wf _ _ Hinv) as [Hc0 _ _]. simpl in *.
  rewrite Htot, Hsz, Hal. f_equal. f_equal; [|lia].
  eapply chain_canonical; [by rewrite Hsz in Hc|done|]. intros x. rewrite Hfree', Hfree.
  specialize (Hrun x). split; [tauto|]. intros. destruct (decide (a <= x < a + n)); tauto.
Qed.

Lemma am_allocate_free_witness :
  am_free 0 16 (mkAM 64 16 [mkBlock 16 48] 16) = Ret (am_init 64 (2 ^ 4)).
Proof.
  apply (am_allocate_free (am_init 64 (2 ^ 4)) [] 10);
    [apply am_inv_init; lia|lia|reflexivity].
Defined.

(** When the initial heap size is a multiple of the power-of-two
    alignment, every region ever handed out starts at an aligned address and
    has an aligned size. *)
Theorem am_addresses_aligned size k am live r :
  0 < size → 0 <= k → (2 ^ k | size) →
  rtc am_step (am_init size (2 ^ k), []) (am, live) → r ∈ live →
  (2 ^ k | r.1) ∧ (2 ^ k | r.2).
Proof.
  intros Hs Hk Hdiv Hr Hin.
  assert (am_aligned (2 ^ k) am live) as [_ Hl]; [|by apply Hl].
  change (let s := (am, live) in am_aligned (2 ^ k) s.1 s.2). revert Hr. generalize (am, live).
  intros s Hr. assert ((am_inv s.1 s.2 ∧ am_align s.1 = 2 ^ k) ∧ am_aligned (2 ^ k) s.1 s.2); [|tauto].
  revert s Hr. apply (rtc_ind_r (λ s, (am_inv s.1 s.2 ∧ am_align s.1 = 2 ^ k) ∧ am_aligned (2 ^ k) s.1 s.2)).
  - split; [split; [by apply am_inv_init|done]|]. split; [done|set_solver].
  - intros s1 s2 _ Hstep [[Hinv Hal] Hali]. destruct (am_step_inv _ _ Hstep Hinv).
    split; [split; congruence|]. by eapply am_step_aligned.
Qed.

Lemma am_addresses_aligned_witness : (2 ^ 4 | 0) ∧ (2 ^ 4 | 16).
Proof.
  apply (am_addresses_aligned 64 4 (mkAM 64 16 [mkBlock 16 48] 16) [(0, 16)] (0, 16));
    [lia|lia|by exists 4| |left].
  apply rtc_once. apply (step_allocate _ _ 10). reflexivity.
Defined.
