(* ===== verification/TTLLock.v ===== *)
(** * The TTL lock

    [TTLLock] of csrc/lmcache_native/ttl_lock.cpp: a counter with an
    expiration time, used for the read locks and write reservations of L1
    objects. [TTLLock.v] holds the sequential meaning of its operations (what
    a caller that is alone, such as the L1 manager under its own lock,
    observes), and [Interleaving] the atomic accesses of the C++ code, thread
    by thread. *)

From stdpp Require Import gmap list relations.
From Stdlib Require Import ZArith Lia.
From S2P Require Import Prelude.

Open Scope Z_scope.

(** ** Sequential operations

    [now] is the value [now_ms()] returns in the call. *)

Record TTLLock := mkLock { counter : Z; expiration_ms : Z; ttl_ms : Z }.

Definition new_lock (ttl_sec : Z) : TTLLock := mkLock 0 0 (ttl_sec * 1000).

Definition lock (now : Z) (l : TTLLock) : TTLLock :=
  let new_expiration := now + ttl_ms l in
  if expiration_ms l <=? now
  then mkLock 1 new_expiration (ttl_ms l)
  else mkLock (counter l + 1) new_expiration (ttl_ms l).

Definition unlock (l : TTLLock) : TTLLock :=
  if counter l <=? 0 then l
  else mkLock (counter l - 1) (expiration_ms l) (ttl_ms l).

Definition is_locked (now : Z) (l : TTLLock) : bool :=
  (0 <? counter l) && (now <? expiration_ms l).

Definition reset (l : TTLLock) : TTLLock := mkLock 0 0 (ttl_ms l).

(** [for _ in range(n): lock()] where each call reads the clock once, and
    [for _ in range(n): unlock()]. *)
Fixpoint lock_n (times : list Z) (l : TTLLock) : TTLLock :=
  match times with [] => l | t :: ts => lock_n ts (lock t l) end.

Fixpoint unlock_n (n : nat) (l : TTLLock) : TTLLock :=
  match n with O => l | S n' => unlock_n n' (unlock l) end.

Definition lock_wf (l : TTLLock) : Prop := 0 <= counter l ∧ 0 <= ttl_ms l.

Lemma new_lock_wf ttl : 0 <= ttl → lock_wf (new_lock ttl).
Proof. unfold lock_wf, new_lock. simpl. lia. Qed.

Lemma lock_lock_wf now l : lock_wf l → lock_wf (lock now l).
Proof. unfold lock_wf, lock. case_match; simpl; lia. Qed.

Lemma unlock_lock_wf l : lock_wf l → lock_wf (unlock l).
Proof.
  unfold lock_wf, unlock. destruct (Z.leb_spec (counter l) 0); simpl; lia.
Qed.

Lemma lock_n_wf ts l : lock_wf l → lock_wf (lock_n ts l).
Proof. revert l. induction ts; simpl; auto using lock_lock_wf. Qed.

Lemma unlock_n_wf n l : lock_wf l → lock_wf (unlock_n n l).
Proof. revert l. induction n; simpl; auto using unlock_lock_wf. Qed.

Lemma lock_ttl now l : ttl_ms (lock now l) = ttl_ms l.
Proof. unfold lock. by case_match. Qed.
Lemma lock_expiration now l : expiration_ms (lock now l) = now + ttl_ms l.
Proof. unfold lock. by case_match. Qed.
Lemma unlock_ttl l : ttl_ms (unlock l) = ttl_ms l.
Proof. unfold unlock. by case_match. Qed.
Lemma lock_n_ttl ts l : ttl_ms (lock_n ts l) = ttl_ms l.
Proof. revert l. induction ts as [|t ts IH]; simpl; intros l; [done|]. by rewrite IH, lock_ttl. Qed.
Lemma unlock_n_ttl n l : ttl_ms (unlock_n n l) = ttl_ms l.
Proof. revert l. induction n as [|n IH]; simpl; intros l; [done|]. by rewrite IH, unlock_ttl. Qed.

Lemma unlock_n_expiration n l : expiration_ms (unlock_n n l) = expiration_ms l.
Proof.
  revert l. induction n as [|n IH]; simpl; intros l; [done|]. rewrite IH. unfold unlock.
  by case_match.
Qed.

Lemma unlock_n_counter n l :
  0 <= counter l → counter (unlock_n n l) = Z.max 0 (counter l - Z.of_nat n).
Proof.
  revert l. induction n as [|n IH]; intros l Hl; simpl unlock_n; [lia|].
  unfold unlock. destruct (Z.leb_spec (counter l) 0); rewrite IH; simpl; lia.
Qed.

Lemma is_locked_true now l : is_locked now l = true ↔ 0 < counter l ∧ now < expiration_ms l.
Proof. unfold is_locked. rewrite andb_true_iff, Z.ltb_lt, Z.ltb_lt. done. Qed.

Lemma is_locked_false now l : is_locked now l = false ↔ counter l <= 0 ∨ expiration_ms l <= now.
Proof. unfold is_locked. rewrite andb_false_iff, Z.ltb_ge, Z.ltb_ge. done. Qed.

(** Taking [length ts] locks within one TTL window on a lock that is free
    (expired or never taken) leaves exactly that count. *)
Lemma lock_n_fresh t ts l :
  expiration_ms l <= t → 0 < ttl_ms l → (∀ t', t' ∈ ts → t <= t' < t + ttl_ms l) →
  counter (lock_n (t :: ts) l) = Z.of_nat (length (t :: ts)) ∧
  t + ttl_ms l <= expiration_ms (lock_n (t :: ts) l).
Proof.
  intros He Httl Hts. simpl.
  assert (lock t l = mkLock 1 (t + ttl_ms l) (ttl_ms l)) as ->.
  { unfold lock. destruct (Z.leb_spec (expiration_ms l) t); [done|lia]. }
  assert (∀ ts c e, (∀ t', t' ∈ ts → t <= t' < t + ttl_ms l) → t + ttl_ms l <= e →
    counter (lock_n ts (mkLock c e (ttl_ms l))) = c + Z.of_nat (length ts) ∧
    t + ttl_ms l <= expiration_ms (lock_n ts (mkLock c e (ttl_ms l)))) as Hgen.
  { clear Hts. intros ts'. induction ts' as [|t' ts' IH]; intros c e H1 H2; simpl; [lia|].
    pose proof (H1 t' ltac:(left)). unfold lock at 1 2. simpl.
    destruct (Z.leb_spec e t'); [lia|].
    destruct (IH (c + 1) (t' + ttl_ms l)) as [-> ?]; [|lia|lia].
    intros u Hu. apply H1. by right. }
  destruct (Hgen ts 1 (t + ttl_ms l)) as [-> ?]; [done|lia|]. split; [simpl; lia|done].
Qed.

(** ** Interleavings of the atomic accesses *)

Module Interleaving.

(** Where a thread stands: before each atomic access of [lock()] or
    [unlock()], with the values it has read. *)
Inductive pc : Type :=
  | LStart                                    (* lock(): before now_ms() *)
  | LLoadExp (cur : Z)                        (* loop head: load expiration_ms_ *)
  | LLoadCnt (cur old_exp : Z)                (* load counter_ *)
  | LTry (cur old_exp old_cnt : Z)            (* compare_exchange_strong *)
  | LStoreCnt                                 (* expired: counter_.store(1) *)
  | LStoreExp (cur : Z)                       (* live: expiration_ms_.store *)
  | ULoad                                     (* unlock(): load counter_ *)
  | UTry (old_cnt : Z)                        (* compare_exchange_strong *)
  | Done.

Record state := mkState { mem : TTLLock; clock : Z; threads : list pc }.

Inductive action := Run (tid : nat) | Tick (d : nat).

Definition set_counter (m : TTLLock) (c : Z) : TTLLock := mkLock c (expiration_ms m) (ttl_ms m).
Definition set_exp (m : TTLLock) (e : Z) : TTLLock := mkLock (counter m) e (ttl_ms m).

(** One atomic access of a thread. *)
Definition access (now : Z) (m : TTLLock) (p : pc) : TTLLock * pc :=
  match p with
  | LStart => (m, LLoadExp now)
  | LLoadExp cur => (m, LLoadCnt cur (expiration_ms m))
  | LLoadCnt cur old_exp => (m, LTry cur old_exp (counter m))
  | LTry cur old_exp old_cnt =>
      if old_exp <=? cur then
        if expiration_ms m =? old_exp
        then (set_exp m (cur + ttl_ms m), LStoreCnt) else (m, LLoadExp cur)
      else
        if counter m =? old_cnt
        then (set_counter m (old_cnt + 1), LStoreExp cur) else (m, LLoadExp cur)
  | LStoreCnt => (set_counter m 1, Done)
  | LStoreExp cur => (set_exp m (cur + ttl_ms m), Done)
  | ULoad => if counter m <=? 0 then (m, Done) else (m, UTry (counter m))
  | UTry old_cnt =>
      if counter m =? old_cnt then (set_counter m (old_cnt - 1), Done) else (m, ULoad)
  | Done => (m, Done)
  end.

Definition exec (s : state) (a : action) : state :=
  match a with
  | Tick d => mkState (mem s) (clock s + Z.of_nat d) (threads s)
  | Run tid =>
      match threads s !! tid with
      | None => s
      | Some p =>
          let '(m, p') := access (clock s) (mem s) p in
          mkState m (clock s) (<[tid := p']> (threads s))
      end
  end.

Definition run (sched : list action) (s : state) : state := foldl exec s sched.

(** A thread past its load holds a positive old counter for [unlock]'s
    exchange. *)
Definition pc_ok (p : pc) : Prop := match p with UTry c => 0 < c | _ => True end.

Lemma access_ok now m p :
  0 <= counter m → pc_ok p →
  0 <= counter (access now m p).1 ∧ pc_ok (access now m p).2.
Proof.
  intros Hm Hp. destruct p; simpl in *; try lia;
    repeat case_match; simpl in *; try lia; by rewrite ?Z.eqb_eq, ?Z.leb_gt in *; lia.
Qed.

Lemma exec_ok s a :
  0 <= counter (mem s) ∧ Forall pc_ok (threads s) →
  0 <= counter (mem (exec s a)) ∧ Forall pc_ok (threads (exec s a)).
Proof.
  intros [Hm Ht]. destruct a as [tid|d]; simpl; [|done].
  destruct (threads s !! tid) as [p|] eqn:E; [|done].
  assert (pc_ok p) as Hp by (eapply Forall_lookup_1; done).
  destruct (access_ok (clock s) (mem s) p Hm Hp) as [H1 H2].
  destruct (access _ _ _) as [m p']. simpl in *. split; [done|]. by apply Forall_insert.
Qed.

Lemma run_ok sched s :
  0 <= counter (mem s) → Forall pc_ok (threads s) → 0 <= counter (mem (run sched s)).
Proof.
  intros Hm Ht. unfold run.
  apply (foldl_inv (λ s, 0 <= counter (mem s) ∧ Forall pc_ok (threads s)) exec sched s);
    [done|]. intros. by apply exec_ok.
Qed.

(** The threads that have completed. *)
Definition finished (s : state) : Prop := Forall (λ p, p = Done) (threads s).

(** Two callers of [lock()] on a lock nobody holds. *)
Definition race_start : state := mkState (new_lock 300) 5 [LStart; LStart].

(** Thread 0 wins the exchange on the expiration, thread 1 then sees a live
    lock, increments the stale counter and finishes, and thread 0's
    [counter_.store(1)] overwrites the increment. *)
Definition race_schedule : list action :=
  [Run 0; Run 0; Run 0; Run 0] ++ [Run 1; Run 1; Run 1; Run 1; Run 1] ++ [Run 0].

End Interleaving.

(** A thread that runs [lock()] without interference performs the sequential
    [lock], and likewise for [unlock()]. *)
Lemma lock_uncontended m now :
  let s := Interleaving.run (replicate 5 (Interleaving.Run 0))
             (Interleaving.mkState m now [Interleaving.LStart]) in
  Interleaving.mem s = lock now m ∧ Interleaving.finished s.
Proof.
  unfold Interleaving.run, Interleaving.finished, lock. destruct m as [c e t]. simpl.
  rewrite Z.eqb_refl. destruct (e <=? now); simpl.
  - rewrite ?Z.eqb_refl. simpl. repeat constructor.
  - rewrite Z.eqb_refl. simpl. repeat constructor.
Qed.

(** ** Properties *)

(** Acquisitions are counted. After [n] locks taken within one
    TTL window on a free lock, the lock is held until exactly [n] unlocks have
    been made, as long as the clock is before the first acquisition's
    expiration; the n-th unlock releases it. *)
Theorem ttl_lock_balance (t : Z) (ts : list Z) (l : TTLLock) (m : nat) (now : Z) :
  expiration_ms l <= t → 0 < ttl_ms l →
  (∀ t', t' ∈ ts → t <= t' < t + ttl_ms l) → now < t + ttl_ms l →
  is_locked now (unlock_n m (lock_n (t :: ts) l)) = (m <? length (t :: ts))%nat.
Proof.
  intros He Httl Hts Hnow. destruct (lock_n_fresh t ts l He Httl Hts) as [Hc Hexp].
  apply Bool.eq_iff_eq_true. rewrite is_locked_true, Nat.ltb_lt.
  rewrite unlock_n_expiration, unlock_n_counter; rewrite Hc; simpl length; lia.
Qed.

Lemma ttl_lock_balance_witness :
  is_locked 2000 (unlock_n 1 (lock_n [0; 1000] (new_lock 300))) = true.
Proof.
  rewrite (ttl_lock_balance 0 [1000] (new_lock 300) 1 2000); [reflexivity|simpl; lia|simpl; lia| |simpl; lia].
  intros t' ->%list_elem_of_singleton. simpl. lia.
Defined.

(** Under every interleaving of any number of concurrent
    [lock()] and [unlock()] calls the counter never becomes negative. *)
Theorem ttl_counter_nonneg (sched : list Interleaving.action) (s : Interleaving.state) :
  0 <= counter (Interleaving.mem s) →
  (∀ p, p ∈ Interleaving.threads s → p = Interleaving.LStart ∨ p = Interleaving.ULoad) →
  0 <= counter (Interleaving.mem (Interleaving.run sched s)).
Proof.
  intros Hm Ht. apply Interleaving.run_ok; [done|]. apply Forall_forall.
  intros p [->| ->]%Ht; done.
Qed.

Lemma ttl_counter_nonneg_witness :
  0 <= counter (Interleaving.mem (Interleaving.run Interleaving.race_schedule Interleaving.race_start)).
Proof.
  apply ttl_counter_nonneg; [simpl; lia|]. simpl. intros p Hp. left. set_solver.
Defined.

(** Concurrent acquisition at expiry loses a holder. There is an
    interleaving in which two [lock()] calls complete on an expired lock, the
    lock then records a single holder, and one [unlock()] frees it while the
    other caller still holds it, well before its TTL. *)
Theorem ttl_lock_race :
  let s := Interleaving.run Interleaving.race_schedule Interleaving.race_start in
  Interleaving.finished s ∧ counter (Interleaving.mem s) = 1 ∧
  is_locked (Interleaving.clock s) (Interleaving.mem s) = true ∧
  is_locked (Interleaving.clock s) (unlock (Interleaving.mem s)) = false.
Proof. vm_compute. repeat constructor. Qed.
