(* ===== verification/TensorAllocator.v ===== *)
(** * Memory objects and the tensor allocator

    [TensorMemoryObj] (lmcache/v1/memory_management.py) and
    [TensorMemoryAllocator] (lmcache/v1/memory_allocators/
    tensor_memory_allocator.py) over [AddressManager].

    Memory objects are mutable and shared (an L1 entry, a transfer and the
    allocator hold the same object), so they live in a store [objs] and are
    passed around by reference ([oid]). The payload tensor is not modelled:
    an object is its metadata and its flags. *)

From stdpp Require Import gmap list sorting.
From Stdlib Require Import ZArith Lia.
From S2P Require Import Prelude AddressManager.

Open Scope py_scope.
Open Scope Z_scope.

(** ** Layouts *)

(** A [torch.Size] and the one attribute of a [torch.dtype] the code reads. *)
Abbreviation torch_Size := (list Z) (only parsing).
Record dtype := mkDtype { itemsize : Z }.

Definition numel (shape : torch_Size) : Z := foldr Z.mul 1 shape.

Definition get_size_bytes (shapes : list torch_Size) (dtypes : list dtype) : py Z :=
  if (length shapes =? length dtypes)%nat
  then Ret (zsum (λ '(s, d), numel s * itemsize d) (zip shapes dtypes))
  else Raise AssertionError.

Inductive MemoryFormat : Type :=
  | UNDEFINED | KV_2LTD | KV_T2D | KV_2TD | BINARY | BINARY_BUFFER | KV_MLA_FMT
  | EC_TD | HS_TD.

Definition token_dim (fmt : MemoryFormat) : nat :=
  match fmt with
  | KV_2LTD => 2 | KV_T2D => 1 | KV_2TD => 0 | BINARY => 0 | BINARY_BUFFER => 0
  | KV_MLA_FMT => 2 | EC_TD => 0 | HS_TD => 0 | UNDEFINED => 0
  end.

(** ** Memory objects *)

Abbreviation oid := nat (only parsing).

Record MemoryObj := mkObj {
  mo_address : Z;
  mo_phy_size : Z;
  mo_ref_count : Z;
  mo_pin_count : Z;
  mo_fmt : MemoryFormat;
  mo_layout_size : Z;                (* group_prefix_sum[-1] *)
  mo_used_size : option Z;           (* _used_size_override *)
  mo_valid : bool;
  mo_l1_manager : option Z           (* _l1_manager_id *)
}.

Definition get_size (o : MemoryObj) : Z :=
  match mo_used_size o with Some n => n | None => mo_layout_size o end.

Definition set_used_size (n : Z) (o : MemoryObj) : py MemoryObj :=
  if (n <? 0) || (mo_phy_size o <? n) then Raise ValueError
  else Ret (mkObj (mo_address o) (mo_phy_size o) (mo_ref_count o) (mo_pin_count o) (mo_fmt o)
              (mo_layout_size o) (Some n) (mo_valid o) (mo_l1_manager o)).

Definition set_l1_manager (owner_tag : Z) (o : MemoryObj) : py MemoryObj :=
  match mo_l1_manager o with
  | Some t =>
      if t =? owner_tag
      then Ret (mkObj (mo_address o) (mo_phy_size o) (mo_ref_count o) (mo_pin_count o) (mo_fmt o)
                  (mo_layout_size o) (mo_used_size o) (mo_valid o) (Some owner_tag))
      else Raise ValueError
  | None =>
      Ret (mkObj (mo_address o) (mo_phy_size o) (mo_ref_count o) (mo_pin_count o) (mo_fmt o)
             (mo_layout_size o) (mo_used_size o) (mo_valid o) (Some owner_tag))
  end.

Definition invalidate (o : MemoryObj) : MemoryObj :=
  mkObj (mo_address o) (mo_phy_size o) (mo_ref_count o) (mo_pin_count o) (mo_fmt o)
    (mo_layout_size o) (mo_used_size o) false (mo_l1_manager o).

Definition set_counts (r p : Z) (o : MemoryObj) : MemoryObj :=
  mkObj (mo_address o) (mo_phy_size o) r p (mo_fmt o)
    (mo_layout_size o) (mo_used_size o) (mo_valid o) (mo_l1_manager o).

(** ** The allocator *)

Record TMA := mkTMA {
  tma_am : AddressManager;
  tma_active : Z;                    (* num_active_allocations *)
  tma_objs : gmap oid MemoryObj;     (* the object store *)
  tma_next : oid                     (* next fresh reference *)
}.

Definition tma_init (buffer_numel align : Z) (init_address_space : option Z) : TMA :=
  mkTMA (am_init (match init_address_space with None => buffer_numel | Some s => s end) align)
    0 ∅ 0.

Definition fresh_obj (address phy_size layout_size : Z) (fmt : MemoryFormat) : MemoryObj :=
  mkObj address phy_size 1 0 fmt layout_size None true None.

Definition tma_allocate (shapes : list torch_Size) (dtypes : list dtype) (fmt : MemoryFormat)
    (s : TMA) : py (option oid * TMA) :=
  let! raw_size := get_size_bytes shapes dtypes in
  match am_allocate raw_size (tma_am s) with
  | Raise RuntimeError => Ret (None, s)
  | Raise e => Raise e
  | Ret ((block_start, aligned_size), am') =>
      Ret (Some (tma_next s),
           mkTMA am' (tma_active s + 1)
             (<[tma_next s := fresh_obj block_start aligned_size raw_size fmt]> (tma_objs s))
             (S (tma_next s)))
  end.

(** The object-building loop of [batched_allocate]. *)
Fixpoint new_objs (addresses : list Z) (phy_size layout_size : Z) (fmt : MemoryFormat)
    (objs : gmap oid MemoryObj) (next : oid) : list oid * gmap oid MemoryObj * oid :=
  match addresses with
  | [] => ([], objs, next)
  | a :: addresses' =>
      let '(ids, objs', next') :=
        new_objs addresses' phy_size layout_size fmt
          (<[next := fresh_obj a phy_size layout_size fmt]> objs) (S next) in
      (next :: ids, objs', next')
  end.

Definition tma_batched_allocate (shapes : list torch_Size) (dtypes : list dtype)
    (batch_size : Z) (fmt : MemoryFormat) (s : TMA) : py (option (list oid) * TMA) :=
  let! unit_raw_size := get_size_bytes shapes dtypes in
  let unit_aligned_size := compute_aligned_size (am_align (tma_am s)) unit_raw_size in
  match am_batched_allocate unit_aligned_size batch_size (tma_am s) with
  | Raise RuntimeError => Ret (None, s)
  | Raise e => Raise e
  | Ret (alloc_results, am') =>
      let addresses := alloc_results.*1 in
      let '(ids, objs', next') :=
        new_objs addresses unit_aligned_size unit_raw_size fmt (tma_objs s) (tma_next s) in
      Ret (Some ids, mkTMA am' (tma_active s + batch_size) objs' next')
  end.

Definition tma_free (i : oid) (s : TMA) : py TMA :=
  match tma_objs s !! i with
  | None => Ret s
  | Some o =>
      if negb (mo_valid o) then Ret s
      else
        let! am' := am_free (mo_address o) (mo_phy_size o) (tma_am s) in
        Ret (mkTMA am' (tma_active s - 1) (<[i := invalidate o]> (tma_objs s)) (tma_next s))
  end.

(** *** [batched_free] *)

(** [memory_objs.sort(key=lambda x: x.meta.address)]. *)
Definition addr_le (objs : gmap oid MemoryObj) (i j : oid) : Prop :=
  default 0 (mo_address <$> objs !! i) <= default 0 (mo_address <$> objs !! j).
#[export] Instance addr_le_dec objs : RelDecision (addr_le objs).
Proof. intros i j. unfold addr_le. apply _. Defined.

Record run_acc := mkRun { run_start : Z; run_size : Z; run_count : Z }.

(** The coalescing loop: the run being extended ([None] before the first valid
    object), the runs closed so far and the object store. *)
Definition bf_step (st : option run_acc * list run_acc * gmap oid MemoryObj) (i : oid)
    : option run_acc * list run_acc * gmap oid MemoryObj :=
  let '(curr, closed, objs) := st in
  match objs !! i with
  | None => st
  | Some o =>
      if negb (mo_valid o) then st
      else
        let objs' := <[i := invalidate o]> objs in
        match curr with
        | None => (Some (mkRun (mo_address o) (mo_phy_size o) 1), closed, objs')
        | Some c =>
            if run_start c + run_size c =? mo_address o
            then (Some (mkRun (run_start c) (run_size c + mo_phy_size o) (run_count c + 1)),
                  closed, objs')
            else (Some (mkRun (mo_address o) (mo_phy_size o) 1), closed ++ [c], objs')
        end
  end.

Fixpoint free_runs (rs : list run_acc) (am : AddressManager) : py AddressManager :=
  match rs with
  | [] => Ret am
  | r :: rs' => let! am' := am_free (run_start r) (run_size r) am in free_runs rs' am'
  end.

Definition tma_batched_free (ids : list oid) (s : TMA) : py TMA :=
  match ids with
  | [] => Ret s
  | _ =>
      let sorted := merge_sort (addr_le (tma_objs s)) ids in
      let '(curr, closed, objs') := foldl bf_step (None, [], tma_objs s) sorted in
      let coalesced_blocks :=
        match curr with Some c => closed ++ [c] | None => closed end in
      let! am' := free_runs coalesced_blocks (tma_am s) in
      Ret (mkTMA am' (tma_active s - zsum run_count coalesced_blocks) objs' (tma_next s))
  end.

Definition tma_memcheck (s : TMA) : bool :=
  let am := tma_am s in
  (get_free_size am + am_total am =? get_heap_size am) && check_consistency am.

(** *** Reference and pin counts

    [ref_count_down] and [unpin] hand the object back to its allocator when
    the last reference is gone; a negative count is logged and reset. *)

Definition update_obj (i : oid) (o : MemoryObj) (s : TMA) : TMA :=
  mkTMA (tma_am s) (tma_active s) (<[i := o]> (tma_objs s)) (tma_next s).

Definition ref_count_up (i : oid) (s : TMA) : TMA :=
  match tma_objs s !! i with
  | None => s
  | Some o => update_obj i (set_counts (mo_ref_count o + 1) (mo_pin_count o) o) s
  end.

Definition ref_count_down (i : oid) (s : TMA) : py TMA :=
  match tma_objs s !! i with
  | None => Ret s
  | Some o =>
      let r := mo_ref_count o - 1 in
      let r := if r <? 0 then 0 else r in
      let s' := update_obj i (set_counts r (mo_pin_count o) o) s in
      if (r =? 0) && (mo_pin_count o =? 0) then tma_free i s' else Ret s'
  end.

Definition pin (i : oid) (s : TMA) : TMA :=
  match tma_objs s !! i with
  | None => s
  | Some o => update_obj i (set_counts (mo_ref_count o) (mo_pin_count o + 1) o) s
  end.

Definition unpin (i : oid) (s : TMA) : py TMA :=
  match tma_objs s !! i with
  | None => Ret s
  | Some o =>
      let p := mo_pin_count o - 1 in
      let s' := update_obj i (set_counts (mo_ref_count o) p o) s in
      let! s'' := if (p <=? 0) && (mo_ref_count o <=? 0) then tma_free i s' else Ret s' in
      if p <? 0 then
        match tma_objs s'' !! i with
        | Some o' => Ret (update_obj i (set_counts (mo_ref_count o') 0 o') s'')
        | None => Ret s''
        end
      else Ret s''
  end.

Definition can_evict (o : MemoryObj) : bool :=
  negb (0 <? mo_pin_count o) && (mo_ref_count o =? 1).

(** ** The regions held by live objects *)

Definition region (o : MemoryObj) : Z * Z := (mo_address o, mo_phy_size o).

Definition obj_regions (o : MemoryObj) : list (Z * Z) := if mo_valid o then [region o] else [].

Definition regions (objs : gmap oid MemoryObj) : list (Z * Z) :=
  (map_to_list objs).*2 ≫= obj_regions.

Record tma_inv (s : TMA) : Prop := {
  tinv_am : am_inv (tma_am s) (regions (tma_objs s));
  tinv_active : tma_active s = Z.of_nat (length (regions (tma_objs s)));
  tinv_fresh : ∀ i, (tma_next s ≤ i)%nat → tma_objs s !! i = None
}.

Lemma regions_empty : regions ∅ = [].
Proof. reflexivity. Qed.

Lemma regions_insert objs i o :
  objs !! i = None → regions (<[i := o]> objs) ≡ₚ obj_regions o ++ regions objs.
Proof. intros Hi. unfold regions. by rewrite (map_to_list_insert _ _ _ Hi). Qed.

Lemma regions_delete objs i o :
  objs !! i = Some o → regions objs ≡ₚ obj_regions o ++ regions (delete i objs).
Proof. intros Hi. unfold regions. by rewrite <-(map_to_list_delete _ _ _ Hi). Qed.

Lemma regions_update objs i o :
  regions (<[i := o]> objs) ≡ₚ obj_regions o ++ regions (delete i objs).
Proof.
  rewrite <-insert_delete_eq. apply regions_insert, lookup_delete_eq.
Qed.

(** Changing only the counts or the tag of an object moves no memory. *)
Lemma regions_same objs i o o' :
  objs !! i = Some o → obj_regions o' = obj_regions o → regions (<[i := o']> objs) ≡ₚ regions objs.
Proof. intros Hi He. rewrite regions_update, He. symmetry. by apply regions_delete. Qed.

Lemma regions_invalidate objs i o :
  objs !! i = Some o → mo_valid o = true →
  regions objs ≡ₚ region o :: regions (<[i := invalidate o]> objs).
Proof.
  intros Hi Hv. rewrite regions_update, (regions_delete objs i o Hi).
  unfold obj_regions at 1. by rewrite Hv.
Qed.

Lemma elem_regions objs r :
  r ∈ regions objs ↔ ∃ i o, objs !! i = Some o ∧ mo_valid o = true ∧ r = region o.
Proof.
  unfold regions, obj_regions. rewrite list_elem_of_bind. split.
  - intros (o & Hr & ([i o'] & Ho & Hin)%list_elem_of_fmap). simpl in Ho. subst o'.
    destruct (mo_valid o) eqn:Hv; [|set_solver]. apply list_elem_of_singleton in Hr.
    exists i, o. split_and!; [by apply elem_of_map_to_list|done|done].
  - intros (i & o & Hi & Hv & ->). exists o. rewrite Hv. split; [left|].
    apply list_elem_of_fmap. exists (i, o). split; [done|]. by apply elem_of_map_to_list.
Qed.

(** The live regions determine the address manager. *)
Lemma am_inv_unique am1 am2 live1 live2 :
  am_inv am1 live1 → am_inv am2 live2 → live1 ≡ₚ live2 →
  am_size am1 = am_size am2 → am_align am1 = am_align am2 → am1 = am2.
Proof.
  intros H1 H2 Hp Hs Ha. apply (am_inv_perm _ _ _ Hp) in H1.
  pose proof (inv_total _ _ H1) as Ht1. pose proof (inv_total _ _ H2) as Ht2.
  assert (am_list am1 = am_list am2) as Hl.
  { eapply chain_canonical; [apply (inv_wf _ _ H1)|rewrite Hs; apply (inv_wf _ _ H2)|].
    intros x. rewrite (am_inv_free_iff _ _ _ H1), (am_inv_free_iff _ _ _ H2), Hs. done. }
  destruct am1, am2; simpl in *. congruence.
Qed.

(** ** Every operation keeps the invariant *)

Lemma tma_init_inv n k : 0 < n → 0 <= k → tma_inv (tma_init n (2 ^ k) None).
Proof. intros. split; [by apply am_inv_init|done|done]. Qed.

Lemma tma_allocate_ok shapes dtypes fmt s raw :
  tma_inv s → get_size_bytes shapes dtypes = Ret raw → 0 < raw →
  match tma_allocate shapes dtypes fmt s with
  | Raise _ => False
  | Ret (None, s') =>
      s' = s ∧ ∀ a, ¬ run_free (am_list (tma_am s)) a (compute_aligned_size (am_align (tma_am s)) raw)
  | Ret (Some i, s') =>
      tma_inv s' ∧ tma_objs s !! i = None ∧
      (∃ o, tma_objs s' = <[i := o]> (tma_objs s) ∧ mo_valid o = true ∧ get_size o = raw ∧
            mo_ref_count o = 1 ∧ raw <= mo_phy_size o)
  end.
Proof.
  intros [Hinv Hact Hfr] Hsz Hraw. unfold tma_allocate. rewrite Hsz. simpl.
  pose proof (allocate_ok (tma_am s) raw (inv_wf _ _ Hinv) Hraw) as Hok.
  destruct (am_allocate raw (tma_am s)) as [[[a n] am']|e] eqn:Ha.
  - pose proof (Hfr _ (le_n _)) as Hnew. destruct Hok as (-> & _).
    pose proof (am_inv_alloc _ _ _ _ _ Hinv Hraw Ha) as Hinv'.
    set (n := compute_aligned_size _ _) in *.
    assert (regions (<[tma_next s := fresh_obj a n raw fmt]> (tma_objs s))
      ≡ₚ (a, n) :: regions (tma_objs s)) as Hp by (by rewrite regions_insert).
    split_and!; [split; simpl|done|].
    + by eapply am_inv_perm.
    + rewrite Hp. simpl. lia.
    + intros i Hi. rewrite lookup_insert_ne by lia. apply Hfr. lia.
    + eexists. split_and!; [done|done|done|done|]. simpl.
      destruct (wf_align _ (inv_wf _ _ Hinv)) as (k & Hk & Hal). unfold n. rewrite Hal.
      destruct (compute_aligned_size_spec k raw Hk) as [? _]. unfold fresh_obj. simpl. lia.
  - destruct Hok as [-> Hno]. done.
Qed.

Lemma new_objs_spec addrs phy lay fmt objs next ids objs' next' :
  (∀ i, (next ≤ i)%nat → objs !! i = None) →
  new_objs addrs phy lay fmt objs next = (ids, objs', next') →
  ids = seq next (length addrs) ∧ next' = (next + length addrs)%nat ∧
  regions objs' ≡ₚ ((λ a, (a, phy)) <$> addrs) ++ regions objs ∧
  (∀ i, (next' ≤ i)%nat → objs' !! i = None) ∧
  (∀ i, (i < next)%nat → objs' !! i = objs !! i) ∧
  (∀ j a, addrs !! j = Some a → objs' !! (next + j)%nat = Some (fresh_obj a phy lay fmt)).
Proof.
  revert objs next ids. induction addrs as [|a addrs IH]; intros objs next ids Hfr; simpl.
  - intros [= <- <- <-]. split_and!; [done|lia|done|done|done|done].
  - destruct (new_objs addrs phy lay fmt _ (S next)) as [[ids1 objs1] next1] eqn:E.
    intros [= <- <- <-]. apply IH in E as (-> & -> & Hp & Hf & Hold & Hnew).
    + split_and!; [done|lia| |intros; apply Hf; lia| |].
      * rewrite Hp, regions_insert by (apply Hfr; lia). simpl.
        by rewrite <-Permutation_middle.
      * intros i Hi. rewrite Hold by lia. by rewrite lookup_insert_ne by lia.
      * intros [|j] b Hb; simpl in Hb.
        -- simplify_eq. rewrite Nat.add_0_r, Hold by lia. apply lookup_insert_eq.
        -- rewrite <-(Hnew j b Hb). f_equal. lia.
    + intros i Hi. rewrite lookup_insert_ne by lia. apply Hfr. lia.
Qed.

Lemma tma_batched_allocate_ok shapes dtypes k fmt s raw :
  tma_inv s → get_size_bytes shapes dtypes = Ret raw → 0 < raw →
  match tma_batched_allocate shapes dtypes (Z.of_nat k) fmt s with
  | Raise _ => False
  | Ret (None, s') => s' = s
  | Ret (Some ids, s') =>
      tma_inv s' ∧ length ids = k ∧ NoDup ids ∧
      (∀ i, i ∈ ids → tma_objs s !! i = None ∧ ∃ o, tma_objs s' !! i = Some o ∧
         mo_valid o = true ∧ get_size o = raw ∧ mo_ref_count o = 1) ∧
      (∀ i, i ∉ ids → tma_objs s' !! i = tma_objs s !! i)
  end.
Proof.
  intros [Hinv Hact Hfr] Hsz Hraw. unfold tma_batched_allocate. rewrite Hsz. simpl.
  pose proof (aligned_pos _ _ (inv_wf _ _ Hinv) Hraw) as Hu.
  set (u := compute_aligned_size (am_align (tma_am s)) raw) in *.
  assert (compute_aligned_size (am_align (tma_am s)) u = u) as Hid.
  { unfold u. by apply compute_aligned_size_idem, Hinv. }
  rewrite batched_is_iterated by (done || apply Hinv).
  destruct (allocate_n k u (tma_am s)) as [[rs am']|e] eqn:Ha.
  - destruct (am_inv_alloc_n _ _ _ _ _ _ Hinv Hu Ha) as (Hinv' & Hlen & Hrs & _ & _).
    destruct (new_objs rs.*1 u raw fmt (tma_objs s) (tma_next s)) as [[ids objs'] next'] eqn:E.
    apply new_objs_spec in E as (-> & -> & Hp & Hf & Hold & Hnew); [|done].
    assert ((λ a, (a, u)) <$> rs.*1 = rs) as Hrs'.
    { rewrite <-list_fmap_compose. transitivity (id <$> rs); [|apply list_fmap_id].
      apply list_fmap_ext. intros i [a n] Hi. apply list_elem_of_lookup_2, Hrs in Hi.
      simpl in Hi. simpl. by rewrite Hi, Hid. }
    rewrite Hrs' in Hp. rewrite length_fmap in *. rewrite Hlen in *. split_and!.
    + split; simpl; [|rewrite Hp, length_app; lia|done].
      eapply am_inv_perm; [|done]. rewrite Hp. by rewrite <-Permutation_rev.
    + apply length_seq.
    + apply NoDup_seq.
    + intros i Hi%elem_of_seq. split; [apply Hfr; lia|].
      destruct (lookup_lt_is_Some_2 rs.*1 (i - tma_next s)) as [a Ha'].
      { rewrite length_fmap. lia. }
      specialize (Hnew _ _ Ha'). replace (tma_next s + (i - tma_next s))%nat with i in Hnew by lia.
      by eexists.
    + intros i Hi. rewrite elem_of_seq in Hi. simpl. destruct (decide (i < tma_next s)%nat).
      * by apply Hold.
      * rewrite Hf, Hfr by lia. done.
  - destruct (decide (e = RuntimeError)) as [->|Hne]; [done|]. exfalso. apply Hne. revert Ha.
    clear -Hinv Hu. revert Hinv. generalize (regions (tma_objs s)), (tma_am s).
    induction k as [|k IH]; simpl; intros live am Hinv; [done|].
    pose proof (allocate_ok am u (inv_wf _ _ Hinv) Hu) as Hok.
    destruct (am_allocate u am) as [[r am1]|e'] eqn:Ha; simpl.
    + pose proof (am_inv_alloc _ _ _ _ _ Hinv Hu Ha) as Hinv1. specialize (IH _ _ Hinv1).
      destruct (allocate_n k u am1) as [[? ?]|?]; simpl; [done|]. intros [= ->]. by apply IH.
    + intros [= ->]. apply Hok.
Qed.

Lemma tma_free_ok i s o :
  tma_inv s → tma_objs s !! i = Some o → mo_valid o = true →
  ∃ s', tma_free i s = Ret s' ∧ tma_inv s' ∧ tma_next s' = tma_next s ∧
        tma_objs s' = <[i := invalidate o]> (tma_objs s) ∧
        am_size (tma_am s') = am_size (tma_am s) ∧ am_align (tma_am s') = am_align (tma_am s).
Proof.
  intros [Hinv Hact Hfr] Hi Hv. unfold tma_free. rewrite Hi, Hv. simpl.
  pose proof (regions_invalidate _ _ _ Hi Hv) as Hp.
  assert (0 < mo_phy_size o) as Hpos.
  { apply (inv_pos _ _ Hinv (region o)). rewrite Hp. left. }
  destruct (am_inv_free_seg _ _ [region o] _ (mo_address o) (mo_phy_size o) Hinv Hp)
    as (am' & -> & Hinv' & Hs & Ha); [simpl; split_and!; lia|done|].
  simpl. eexists. split_and!; [done| |done|done|done|done].
  split; simpl; [done| |].
  - rewrite Hact, Hp. simpl. lia.
  - intros j Hj. rewrite lookup_insert_ne; [by apply Hfr|]. intros <-.
    rewrite Hfr in Hi by done. done.
Qed.

(** A free of an object that was freed before does nothing. *)
Lemma tma_free_invalid i s o :
  tma_objs s !! i = Some o → mo_valid o = false → tma_free i s = Ret s.
Proof. intros Hi Hv. unfold tma_free. by rewrite Hi, Hv. Qed.

(** *** Freeing many objects *)

Fixpoint free_each (ids : list oid) (s : TMA) : py TMA :=
  match ids with
  | [] => Ret s
  | i :: ids' => let! s' := tma_free i s in free_each ids' s'
  end.

Definition invalidate_all (ids : list oid) (objs : gmap oid MemoryObj) : gmap oid MemoryObj :=
  map_imap (λ i o, Some (if decide (i ∈ ids) then invalidate o else o)) objs.

Lemma invalidate_idem o : mo_valid o = false → invalidate o = o.
Proof. destruct o; simpl; by intros ->. Qed.

Lemma lookup_invalidate_all ids objs i :
  invalidate_all ids objs !! i
  = if decide (i ∈ ids) then invalidate <$> objs !! i else objs !! i.
Proof.
  unfold invalidate_all. rewrite map_lookup_imap. by destruct (objs !! i); simpl; case_decide.
Qed.

Lemma invalidate_all_cons i ids objs o :
  objs !! i = Some o →
  invalidate_all (i :: ids) objs = invalidate_all ids (<[i := invalidate o]> objs).
Proof.
  intros Hi. apply map_eq. intros j. rewrite !lookup_invalidate_all.
  destruct (decide (j = i)) as [->|Hne].
  - rewrite decide_True, Hi, lookup_insert_eq by left. by case_decide.
  - rewrite lookup_insert_ne by done. split_ifs; set_solver.
Qed.

Lemma invalidate_all_skip i ids objs :
  (∀ o, objs !! i = Some o → mo_valid o = false) →
  invalidate_all (i :: ids) objs = invalidate_all ids objs.
Proof.
  intros Hi. apply map_eq. intros j. rewrite !lookup_invalidate_all.
  destruct (decide (j = i)) as [->|Hne]; [|split_ifs; set_solver].
  rewrite decide_True by left. case_decide; [done|].
  destruct (objs !! i) as [o|]; [|done]. simpl. f_equal. by apply invalidate_idem, Hi.
Qed.

Lemma free_each_ok ids s :
  tma_inv s →
  ∃ s', free_each ids s = Ret s' ∧ tma_inv s' ∧ tma_next s' = tma_next s ∧
        tma_objs s' = invalidate_all ids (tma_objs s) ∧
        am_size (tma_am s') = am_size (tma_am s) ∧ am_align (tma_am s') = am_align (tma_am s).
Proof.
  revert s. induction ids as [|i ids IH]; intros s Hinv; simpl.
  - exists s. split_and!; try done. apply map_eq. intros j. rewrite lookup_invalidate_all.
    by case_decide as Hd; [apply not_elem_of_nil in Hd|].
  - destruct (tma_objs s !! i) as [o|] eqn:Hi; [destruct (mo_valid o) eqn:Hv|].
    + destruct (tma_free_ok i s o Hinv Hi Hv) as (s1 & -> & Hinv1 & Hn & Ho & Hs & Ha). simpl.
      destruct (IH s1 Hinv1) as (s2 & -> & Hinv2 & Hn2 & Ho2 & Hs2 & Ha2). exists s2.
      rewrite Ho2, Ho, (invalidate_all_cons _ _ _ _ Hi). split_and!; congruence.
    + rewrite (tma_free_invalid _ _ _ Hi Hv). simpl.
      rewrite invalidate_all_skip by (intros; congruence). by apply IH.
    + unfold tma_free. rewrite Hi. simpl.
      rewrite invalidate_all_skip by (intros; congruence). by apply IH.
Qed.

(** The coalescing loop: each run stands for a segment of adjacent objects. *)
Definition run_seg (r : run_acc) (rs : list (Z * Z)) : Prop :=
  seg (run_start r) rs (run_size r) ∧ 0 < run_size r ∧ run_count r = Z.of_nat (length rs).

Definition all_runs (curr : option run_acc) (closed : list run_acc) : list run_acc :=
  match curr with Some c => closed ++ [c] | None => closed end.

Definition bf_inv (objs0 : gmap oid MemoryObj)
    (st : option run_acc * list run_acc * gmap oid MemoryObj) : Prop :=
  let '(curr, closed, objs) := st in
  ∃ segs, Forall2 run_seg (all_runs curr closed) segs ∧
          regions objs0 ≡ₚ mjoin segs ++ regions objs.

Lemma seg_snoc a rs n r : seg a rs n → a + n = r.1 → 0 < r.2 → seg a (rs ++ [r]) (n + r.2).
Proof.
  revert a n. induction rs as [|r' rs IH]; simpl; intros a n.
  - intros -> ? ?. split_and!; lia.
  - intros (? & ? & Hseg) Hr Hpos. split_and!; [done|done|].
    replace (n + r.2 - r'.2) with (n - r'.2 + r.2) by lia. apply IH; [done|lia|done].
Qed.

Lemma bf_step_inv objs0 st i :
  (∀ r, r ∈ regions objs0 → 0 < r.2) → bf_inv objs0 st → bf_inv objs0 (bf_step st i).
Proof.
  destruct st as [[curr closed] objs]. intros Hpos (segs & Hsegs & Hp). unfold bf_step.
  destruct (objs !! i) as [o|] eqn:Hi; [|by exists segs].
  destruct (mo_valid o) eqn:Hv; [|by exists segs]. simpl.
  pose proof (regions_invalidate _ _ _ Hi Hv) as Ho. rewrite Ho in Hp.
  assert (0 < mo_phy_size o) as Hpo.
  { apply (Hpos (region o)). rewrite Hp. set_solver. }
  assert (run_seg (mkRun (mo_address o) (mo_phy_size o) 1) [region o]) as Hnew
    by (unfold run_seg; simpl; split_and!; lia).
  destruct curr as [c|]; simpl in Hsegs.
  - apply Forall2_app_inv_l in Hsegs as (segs1 & segs2 & Hs1 & Hs2 & ->).
    apply Forall2_cons_inv_l in Hs2 as (rs & tl & Hc & ->%Forall2_nil_inv_l & ->).
    destruct (Z.eqb_spec (run_start c + run_size c) (mo_address o)) as [Hadj|_].
    + exists (segs1 ++ [rs ++ [region o]]). simpl. split.
      * apply Forall2_app; [done|]. constructor; [|done].
        destruct Hc as (Hseg & ? & Hcnt). unfold run_seg; simpl. split_and!.
        -- by apply (seg_snoc _ _ _ (region o)).
        -- lia.
        -- rewrite length_app. simpl. lia.
      * rewrite Hp, !join_app. simpl. rewrite !app_nil_r, <-!(assoc_L (++)). done.
    + exists ((segs1 ++ [rs]) ++ [[region o]]). simpl. split.
      * apply Forall2_app; [apply Forall2_app; [done|]|]; by apply Forall2_cons.
      * rewrite Hp, (join_app _ [[region o]]), <-!(assoc_L (++)). done.
  - exists (segs ++ [[region o]]). simpl. split.
    + by apply Forall2_app; [|constructor].
    + rewrite Hp, join_app, <-(assoc_L (++)). done.
Qed.

Lemma bf_loop_objs ids st : (foldl bf_step st ids).2 = invalidate_all ids st.2.
Proof.
  revert st. induction ids as [|i ids IH]; intros [[curr closed] objs]; simpl.
  - apply map_eq. intros j. rewrite lookup_invalidate_all.
    by case_decide as Hd; [apply not_elem_of_nil in Hd|].
  - rewrite IH. unfold bf_step. destruct (objs !! i) as [o|] eqn:Hi.
    + destruct (mo_valid o) eqn:Hv; simpl.
      * rewrite (invalidate_all_cons _ _ _ _ Hi). by destruct curr; [case_match|].
      * symmetry. apply invalidate_all_skip. intros; congruence.
    + symmetry. apply invalidate_all_skip. intros; simpl in *; congruence.
Qed.

Lemma free_runs_ok rs segs live am :
  Forall2 run_seg rs segs → am_inv am (mjoin segs ++ live) →
  ∃ am', free_runs rs am = Ret am' ∧ am_inv am' live ∧ am_size am' = am_size am ∧
         am_align am' = am_align am ∧ zsum run_count rs = Z.of_nat (length (mjoin segs)).
Proof.
  intros Hr. revert am. induction Hr as [|r rs' l segs' (Hseg & Hpos & Hcnt) Hr IH]; intros am Hinv; simpl.
  - by exists am.
  - destruct (am_inv_free_seg am _ rs' (mjoin segs' ++ live) _ _ Hinv ltac:(simpl; by rewrite (assoc_L (++))) Hseg Hpos)
      as (am1 & -> & Hinv1 & Hs1 & Ha1). simpl.
    destruct (IH am1 Hinv1) as (am2 & -> & Hinv2 & Hs2 & Ha2 & Hc). exists am2.
    rewrite length_app. split_and!; [done|done|congruence|congruence|lia].
Qed.

Lemma tma_batched_free_ok ids s :
  tma_inv s →
  ∃ s', tma_batched_free ids s = Ret s' ∧ tma_inv s' ∧ tma_next s' = tma_next s ∧
        tma_objs s' = invalidate_all ids (tma_objs s) ∧
        am_size (tma_am s') = am_size (tma_am s) ∧ am_align (tma_am s') = am_align (tma_am s).
Proof.
  intros Hinv. destruct ids as [|i0 ids0]; [by apply (free_each_ok [])|].
  unfold tma_batched_free. set (ids := i0 :: ids0).
  assert (bf_inv (tma_objs s) (None, [], tma_objs s)) as Hbf by (by exists []).
  set (sorted := merge_sort _ ids).
  apply (foldl_inv (bf_inv (tma_objs s)) bf_step sorted) in Hbf.
  2: { intros st i _. apply bf_step_inv, (inv_pos _ _ (tinv_am _ Hinv)). }
  pose proof (bf_loop_objs sorted (None, [], tma_objs s)) as Hobjs. simpl in Hobjs.
  destruct (foldl bf_step (None, [], tma_objs s) sorted) as [[curr closed] objs'].
  destruct Hbf as (segs & Hsegs & Hp). simpl in Hobjs. destruct Hinv as [Ham Hact Hfr].
  fold (all_runs curr closed).
  destruct (free_runs_ok _ _ _ _ Hsegs (am_inv_perm _ _ _ Hp Ham)) as (am' & -> & Ham' & Hs & Ha & Hc).
  simpl. assert (objs' = invalidate_all ids (tma_objs s)) as ->.
  { rewrite Hobjs. apply map_eq. intros j. rewrite !lookup_invalidate_all.
    by rewrite (decide_ext (j ∈ sorted) (j ∈ ids)) by (unfold sorted; by rewrite merge_sort_Permutation). }
  eexists. split_and!; [done| |done|done|done|done].
  split; simpl; [done|rewrite Hact, Hp, length_app; lia|].
  intros j Hj. rewrite lookup_invalidate_all, Hfr by done. by case_decide.
Qed.

Lemma tma_inv_unique s1 s2 :
  tma_inv s1 → tma_inv s2 → tma_objs s1 = tma_objs s2 → tma_next s1 = tma_next s2 →
  am_size (tma_am s1) = am_size (tma_am s2) → am_align (tma_am s1) = am_align (tma_am s2) →
  s1 = s2.
Proof.
  intros [Ha1 Hc1 _] [Ha2 Hc2 _] Ho Hn Hs Ha. rewrite Ho in *.
  pose proof (am_inv_unique _ _ _ _ Ha1 Ha2 ltac:(done) Hs Ha).
  destruct s1, s2; simpl in *. congruence.
Qed.

(** *** Counts and tags *)

Lemma update_obj_inv i o o' s :
  tma_inv s → tma_objs s !! i = Some o → obj_regions o' = obj_regions o → tma_inv (update_obj i o' s).
Proof.
  intros [Ham Hact Hfr] Hi He. pose proof (regions_same _ _ _ _ Hi He) as Hp.
  split; simpl; [by eapply am_inv_perm|by rewrite Hact, Hp|].
  intros j Hj. rewrite lookup_insert_ne; [by apply Hfr|]. intros <-. rewrite Hfr in Hi; done.
Qed.

Lemma tma_free_inv i s : tma_inv s → ∃ s', tma_free i s = Ret s' ∧ tma_inv s'.
Proof.
  intros Hinv. destruct (free_each_ok [i] s Hinv) as (s' & He & ? & _). simpl in He.
  exists s'. destruct (tma_free i s); simpl in He; [by simplify_eq|done].
Qed.

Lemma ref_count_down_ok i s o :
  tma_inv s → tma_objs s !! i = Some o →
  ∃ s', ref_count_down i s = Ret s' ∧ tma_inv s' ∧
    (∀ j, j ≠ i → tma_objs s' !! j = tma_objs s !! j) ∧
    ∃ o', tma_objs s' !! i = Some o' ∧ mo_ref_count o' = Z.max 0 (mo_ref_count o - 1) ∧
      mo_pin_count o' = mo_pin_count o ∧
      mo_valid o' = mo_valid o && negb ((mo_ref_count o <=? 1) && (mo_pin_count o =? 0)).
Proof.
  intros Hinv Hi. unfold ref_count_down. rewrite Hi.
  set (r := if mo_ref_count o - 1 <? 0 then 0 else mo_ref_count o - 1).
  assert (r = Z.max 0 (mo_ref_count o - 1)) as Hr by (unfold r; case_match; lia).
  assert ((r =? 0) = (mo_ref_count o <=? 1)) as ->.
  { destruct (Z.eqb_spec r 0), (Z.leb_spec (mo_ref_count o) 1); lia || done. }
  clearbody r. subst r. set (r := Z.max _ _). set (o1 := set_counts r (mo_pin_count o) o).
  assert (tma_inv (update_obj i o1 s)) as Hinv1 by (by eapply update_obj_inv).
  assert (tma_objs (update_obj i o1 s) !! i = Some o1) as Hi1 by apply lookup_insert_eq.
  destruct (_ && _).
  - destruct (mo_valid o) eqn:Hv.
    + destruct (tma_free_ok i _ o1 Hinv1 Hi1 Hv) as (s' & -> & Hinv' & _ & Ho' & _).
      exists s'. rewrite Ho'. split_and!; [done|done| |].
      * intros j Hj. rewrite lookup_insert_ne by done. simpl. by rewrite lookup_insert_ne.
      * exists (invalidate o1). by rewrite lookup_insert_eq.
    + rewrite (tma_free_invalid i _ o1 Hi1 Hv). eexists. split_and!; [done|done| |].
      * intros j Hj. by apply lookup_insert_ne.
      * exists o1. by rewrite Hi1.
  - eexists. split_and!; [done|done| |].
    + intros j Hj. by apply lookup_insert_ne.
    + exists o1. rewrite andb_true_r. by rewrite Hi1.
Qed.

Lemma ref_count_up_inv i s : tma_inv s → tma_inv (ref_count_up i s).
Proof.
  intros Hinv. unfold ref_count_up. destruct (tma_objs s !! i) eqn:Hi; [|done].
  by eapply update_obj_inv.
Qed.

Lemma pin_inv i s : tma_inv s → tma_inv (pin i s).
Proof.
  intros Hinv. unfold pin. destruct (tma_objs s !! i) eqn:Hi; [|done].
  by eapply update_obj_inv.
Qed.

Lemma ref_count_down_inv i s : tma_inv s → ∃ s', ref_count_down i s = Ret s' ∧ tma_inv s'.
Proof.
  intros Hinv. destruct (tma_objs s !! i) as [o|] eqn:Hi.
  - destruct (ref_count_down_ok i s o Hinv Hi) as (s' & ? & ? & _). by exists s'.
  - exists s. unfold ref_count_down. by rewrite Hi.
Qed.

Lemma unpin_inv i s : tma_inv s → ∃ s', unpin i s = Ret s' ∧ tma_inv s'.
Proof.
  intros Hinv. unfold unpin. destruct (tma_objs s !! i) as [o|] eqn:Hi; [|by exists s].
  set (s1 := update_obj i _ s). assert (tma_inv s1) as Hinv1 by (by eapply update_obj_inv).
  assert (∃ s2, (if (mo_pin_count o - 1 <=? 0) && (mo_ref_count o <=? 0) then tma_free i s1
                 else Ret s1) = Ret s2 ∧ tma_inv s2) as (s2 & -> & Hinv2).
  { destruct (_ && _); [by apply tma_free_inv|by eexists]. }
  simpl. destruct (_ <? 0); [|by exists s2].
  destruct (tma_objs s2 !! i) eqn:Hi2; eexists; (split; [done|]); [by eapply update_obj_inv|done].
Qed.

(** ** Histories *)

Inductive tma_step : TMA → TMA → Prop :=
  | tstep_allocate shapes dtypes fmt s r s' :
      tma_allocate shapes dtypes fmt s = Ret (r, s') → tma_step s s'
  | tstep_batched_allocate shapes dtypes n fmt s r s' :
      tma_batched_allocate shapes dtypes n fmt s = Ret (r, s') → tma_step s s'
  | tstep_free i s s' : tma_free i s = Ret s' → tma_step s s'
  | tstep_batched_free ids s s' : tma_batched_free ids s = Ret s' → tma_step s s'
  | tstep_ref_count_up i s : tma_step s (ref_count_up i s)
  | tstep_ref_count_down i s s' : ref_count_down i s = Ret s' → tma_step s s'
  | tstep_pin i s : tma_step s (pin i s)
  | tstep_unpin i s s' : unpin i s = Ret s' → tma_step s s'.

Lemma tma_allocate_raw shapes dtypes fmt s r s' :
  tma_allocate shapes dtypes fmt s = Ret (r, s') →
  ∃ raw, get_size_bytes shapes dtypes = Ret raw ∧ 0 < raw.
Proof.
  unfold tma_allocate. destruct (get_size_bytes shapes dtypes) as [raw|]; [|done]. simpl.
  unfold am_allocate. destruct (Z.leb_spec raw 0); [done|]. by exists raw.
Qed.

Lemma tma_batched_raw shapes dtypes n fmt s r s' :
  tma_inv s → tma_batched_allocate shapes dtypes n fmt s = Ret (r, s') →
  s' = s ∨ 0 <= n ∧ ∃ raw, get_size_bytes shapes dtypes = Ret raw ∧ 0 < raw.
Proof.
  intros Hinv. unfold tma_batched_allocate.
  destruct (get_size_bytes shapes dtypes) as [raw|]; [|done]. simpl.
  unfold am_batched_allocate. destruct (_ <=? 0) eqn:Hu; [done|].
  destruct (n <? 0) eqn:Hn; [intros [= _ ->]; by left|].
  intros _. right. split; [lia|]. exists raw. split; [done|].
  destruct (wf_align _ (inv_wf _ _ (tinv_am _ Hinv))) as (k & Hk & Hal). rewrite Hal in Hu.
  destruct (decide (0 < raw)) as [|Hneg]; [done|]. exfalso.
  rewrite compute_aligned_size_pow2 in Hu by done.
  pose proof (Z.pow_pos_nonneg 2 k ltac:(lia) Hk).
  assert ((raw + 2 ^ k - 1) / 2 ^ k <= 0); [|nia].
  apply Z.lt_succ_r, Z.div_lt_upper_bound; lia.
Qed.

Lemma tma_step_inv s s' : tma_step s s' → tma_inv s → tma_inv s'.
Proof.
  intros Hstep Hinv. destruct Hstep as [shapes dtypes fmt s r s' Ha|shapes dtypes n fmt s r s' Ha|
    i s s' Hf|ids s s' Hf|i s|i s s' Hf|i s|i s s' Hf].
  - destruct (tma_allocate_raw _ _ _ _ _ _ Ha) as (raw & Hsz & Hraw).
    pose proof (tma_allocate_ok shapes dtypes fmt s raw Hinv Hsz Hraw) as Hok. rewrite Ha in Hok.
    destruct r; [apply Hok|]. by destruct Hok as [-> _].
  - destruct (tma_batched_raw _ _ _ _ _ _ _ Hinv Ha) as [->|(Hn & raw & Hsz & Hraw)];
      [done|].
    pose proof (tma_batched_allocate_ok shapes dtypes (Z.to_nat n) fmt s raw Hinv Hsz Hraw) as Hok.
    rewrite Z2Nat.id, Ha in Hok by done. destruct r; [apply Hok|]. by rewrite Hok.
  - destruct (tma_free_inv i s Hinv) as (s1 & Hf1 & ?). congruence.
  - destruct (tma_batched_free_ok ids s Hinv) as (s1 & Hf1 & ? & _). congruence.
  - by apply ref_count_up_inv.
  - destruct (ref_count_down_inv i s Hinv) as (s1 & Hf1 & ?). congruence.
  - by apply pin_inv.
  - destruct (unpin_inv i s Hinv) as (s1 & Hf1 & ?). congruence.
Qed.

(** No client operation moves the end of the heap. *)
Definition same_heap (s s' : TMA) : Prop :=
  am_size (tma_am s') = am_size (tma_am s) ∧ am_align (tma_am s') = am_align (tma_am s).

Lemma tma_free_heap i s s' : tma_inv s → tma_free i s = Ret s' → same_heap s s'.
Proof.
  intros Hinv Hf. destruct (tma_objs s !! i) as [o|] eqn:Hi; [destruct (mo_valid o) eqn:Hv|].
  - destruct (tma_free_ok i s o Hinv Hi Hv) as (s1 & E & _ & _ & _ & ?). rewrite E in Hf. by simplify_eq.
  - rewrite (tma_free_invalid _ _ _ Hi Hv) in Hf. by simplify_eq.
  - unfold tma_free in Hf. rewrite Hi in Hf. by simplify_eq.
Qed.

Lemma tma_allocate_heap shapes dtypes fmt s r s' :
  tma_inv s → tma_allocate shapes dtypes fmt s = Ret (r, s') → same_heap s s'.
Proof.
  intros Hinv Ha. destruct (tma_allocate_raw _ _ _ _ _ _ Ha) as (raw & Hsz & Hraw).
  unfold tma_allocate in Ha. rewrite Hsz in Ha. simpl in Ha.
  pose proof (allocate_ok (tma_am s) raw (inv_wf _ _ (tinv_am _ Hinv)) Hraw) as Hok.
  destruct (am_allocate raw (tma_am s)) as [[[a n] am']|[]]; simplify_eq/=; [|done].
  destruct Hok as (_ & _ & _ & _ & _ & ? & ? & _). done.
Qed.

Lemma tma_batched_heap shapes dtypes n fmt s r s' :
  tma_inv s → tma_batched_allocate shapes dtypes n fmt s = Ret (r, s') → same_heap s s'.
Proof.
  intros Hinv Ha. destruct (tma_batched_raw _ _ _ _ _ _ _ Hinv Ha) as [->|(Hn & raw & Hsz & Hraw)]; [done|].
  unfold tma_batched_allocate in Ha. rewrite Hsz in Ha. simpl in Ha.
  pose proof (aligned_pos _ _ (inv_wf _ _ (tinv_am _ Hinv)) Hraw) as Hu.
  rewrite <-(Z2Nat.id n Hn), batched_is_iterated in Ha by (done || apply Hinv).
  destruct (allocate_n _ _ _) as [[rs am']|e] eqn:E; [|by destruct e; simplify_eq].
  destruct (am_inv_alloc_n _ _ _ _ _ _ (tinv_am _ Hinv) Hu E) as (_ & _ & _ & ? & ?).
  destruct (new_objs _ _ _ _ _ _) as [[??]?]. by simplify_eq.
Qed.

Lemma tma_step_heap s s' : tma_step s s' → tma_inv s → same_heap s s'.
Proof.
  intros Hstep Hinv. destruct Hstep as [shapes dtypes fmt s r s' Ha|shapes dtypes n fmt s r s' Ha|
    i s s' Hf|ids s s' Hf|i s|i s s' Hf|i s|i s s' Hf].
  - by eapply tma_allocate_heap.
  - by eapply tma_batched_heap.
  - by eapply tma_free_heap.
  - destruct (tma_batched_free_ok ids s Hinv) as (s1 & E & _ & _ & _ & ?). rewrite E in Hf. by simplify_eq.
  - unfold ref_count_up. by case_match.
  - unfold ref_count_down in Hf. destruct (tma_objs s !! i) eqn:Hi; [|by simplify_eq].
    destruct (_ && _) in Hf; [|by simplify_eq]. eapply tma_free_heap in Hf; [done|]. by eapply update_obj_inv.
  - unfold pin. by case_match.
  - unfold unpin in Hf. destruct (tma_objs s !! i) as [o|] eqn:Hi; [|by simplify_eq].
    set (s1 := update_obj i _ s) in Hf. assert (tma_inv s1) as Hinv1 by (by eapply update_obj_inv).
    assert (same_heap s s1) as [Hs1 Ha1] by done. clearbody s1.
    destruct (if _ && _ then _ else _) as [s2|] eqn:E in Hf; [|done]. simpl in Hf.
    assert (same_heap s1 s2) as [Hs2 Ha2].
    { destruct (_ && _) in E; [by eapply tma_free_heap|by simplify_eq]. }
    destruct (_ <? 0) in Hf; [destruct (tma_objs s2 !! i)|]; simplify_eq; split; simpl; congruence.
Qed.

Lemma tma_reachable_inv n k s :
  0 < n → 0 <= k → rtc tma_step (tma_init n (2 ^ k) None) s → tma_inv s.
Proof.
  intros Hn Hk. apply (rtc_ind_r tma_inv); [by apply tma_init_inv|].
  intros s1 s2 _ Hstep. by apply tma_step_inv.
Qed.

(** Two distinct live objects hold disjoint memory. *)
Lemma tma_objs_disjoint s i j o o' :
  tma_inv s → i ≠ j → tma_objs s !! i = Some o → tma_objs s !! j = Some o' →
  mo_valid o = true → mo_valid o' = true →
  mo_address o + mo_phy_size o <= mo_address o' ∨ mo_address o' + mo_phy_size o' <= mo_address o.
Proof.
  intros Hinv Hne Hi Hj Hv Hv'.
  assert (regions (tma_objs s) ≡ₚ region o :: region o' :: regions (delete j (delete i (tma_objs s)))) as Hp.
  { rewrite (regions_delete _ _ _ Hi), (regions_delete (delete i _) j o')
      by (by rewrite lookup_delete_ne). unfold obj_regions. by rewrite Hv, Hv'. }
  pose proof (am_inv_perm _ _ _ Hp (tinv_am _ Hinv)) as Ham.
  apply (cov_disjoint _ 0 1 (region o) (region o')
    (λ x, am_inv_cov_le _ _ x Ham) (inv_pos _ _ Ham) ltac:(lia) ltac:(done) ltac:(done)).
Qed.

(** ** Properties *)

(** C35: in every state a tensor allocator reaches by any sequence of single and
    batched allocations, frees (repeated frees included), batched frees and
    reference- and pin-count changes, [memcheck] answers true, the number of
    active allocations is the number of live objects, every live object lies in
    the buffer and two live objects never overlap. *)
Theorem tma_reachable_safe n k s :
  0 < n → 0 <= k → rtc tma_step (tma_init n (2 ^ k) None) s →
  tma_memcheck s = true ∧
  tma_active s = Z.of_nat (length (regions (tma_objs s))) ∧
  (∀ i o, tma_objs s !! i = Some o → mo_valid o = true →
     0 <= mo_address o ∧ 0 < mo_phy_size o ∧
     mo_address o + mo_phy_size o <= get_heap_size (tma_am s)) ∧
  (∀ i j o o', i ≠ j → tma_objs s !! i = Some o → tma_objs s !! j = Some o' →
     mo_valid o = true → mo_valid o' = true →
     mo_address o + mo_phy_size o <= mo_address o' ∨
     mo_address o' + mo_phy_size o' <= mo_address o).
Proof.
  intros Hn Hk Hr. pose proof (tma_reachable_inv _ _ _ Hn Hk Hr) as Hinv. split_and!.
  - unfold tma_memcheck, get_free_size, get_heap_size.
    rewrite check_consistency_ok by apply (tinv_am _ Hinv).
    apply andb_true_intro. split; [lia|done].
  - apply Hinv.
  - intros i o Hi Hv. assert (region o ∈ regions (tma_objs s)) as Hin
      by (apply elem_regions; by exists i, o).
    pose proof (am_inv_region _ _ _ (tinv_am _ Hinv) Hin).
    pose proof (inv_pos _ _ (tinv_am _ Hinv) _ Hin). simpl in *. tauto.
  - intros i j o o' ??? ??. by eapply (tma_objs_disjoint s i j).
Qed.

Definition demo_dtype : dtype := mkDtype 2.

Lemma tma_reachable_safe_witness :
  match tma_allocate [[2; 3]] [demo_dtype] KV_2LTD (tma_init 64 (2 ^ 4) None) with
  | Ret (Some 0%nat, s) => tma_memcheck s = true
  | _ => False
  end.
Proof.
  destruct (tma_allocate [[2; 3]] [demo_dtype] KV_2LTD (tma_init 64 (2 ^ 4) None)) as [[r s]|] eqn:E;
    [|discriminate E].
  assert (tma_memcheck s = true) as Hm.
  { apply (tma_reachable_safe 64 4); [lia|lia|]. apply rtc_once.
    exact (tstep_allocate _ _ _ _ _ _ E). }
  injection E as <- _. exact Hm.
Defined.

(** [batched_free], which sorts the objects and coalesces adjacent ones
    before returning them, ends in exactly the state that freeing the objects
    one by one in the given order ends in, and neither raises - also when the
    list repeats an object or holds objects freed before. *)
Theorem tma_batched_free_each ids s :
  tma_inv s → ∃ s', tma_batched_free ids s = Ret s' ∧ free_each ids s = Ret s' ∧ tma_inv s'.
Proof.
  intros Hinv. destruct (tma_batched_free_ok ids s Hinv) as (s1 & -> & H1 & Hn1 & Ho1 & Hs1 & Ha1).
  destruct (free_each_ok ids s Hinv) as (s2 & -> & H2 & Hn2 & Ho2 & Hs2 & Ha2).
  exists s1. split_and!; [done| |done]. f_equal. apply tma_inv_unique; congruence.
Qed.

Definition demo_tma : TMA :=
  match tma_batched_allocate [[2; 3]] [demo_dtype] 3 KV_2LTD (tma_init 64 (2 ^ 4) None) with
  | Ret (_, s) => s | Raise _ => tma_init 64 (2 ^ 4) None
  end.

Lemma tma_batched_free_each_witness :
  ∃ s', tma_batched_free [2; 0; 0]%nat demo_tma = Ret s' ∧
        free_each [2; 0; 0]%nat demo_tma = Ret s' ∧ tma_active s' = 1.
Proof.
  destruct (tma_batched_free_each [2; 0; 0]%nat demo_tma) as (s' & H1 & H2 & _).
  - apply (tma_step_inv (tma_init 64 (2 ^ 4) None)); [|apply tma_init_inv; lia].
    apply (tstep_batched_allocate [[2; 3]] [demo_dtype] 3 KV_2LTD _ (Some [0; 1; 2]%nat)).
    vm_compute. reflexivity.
  - exists s'. split; [exact H1|]. split; [exact H2|].
    assert (tma_batched_free [2; 0; 0]%nat demo_tma = Ret s') as E by exact H1.
    vm_compute in E. injection E as <-. reflexivity.
Defined.

(** Dropping a reference returns the object's memory exactly when it was
    the last one and the object is not pinned; it changes no other object, a
    count never goes below zero, and the call never raises. *)
Theorem ref_count_down_frees_last i s o :
  tma_inv s → tma_objs s !! i = Some o →
  ∃ s', ref_count_down i s = Ret s' ∧ tma_inv s' ∧
    (∀ j, j ≠ i → tma_objs s' !! j = tma_objs s !! j) ∧
    ∃ o', tma_objs s' !! i = Some o' ∧ mo_ref_count o' = Z.max 0 (mo_ref_count o - 1) ∧
      mo_pin_count o' = mo_pin_count o ∧
      mo_valid o' = mo_valid o && negb ((mo_ref_count o <=? 1) && (mo_pin_count o =? 0)).
Proof. apply ref_count_down_ok. Qed.

Lemma ref_count_down_frees_last_witness :
  ∃ s', ref_count_down 1 demo_tma = Ret s' ∧ (mo_valid <$> tma_objs s' !! 1%nat) = Some false.
Proof.
  destruct (ref_count_down_frees_last 1 demo_tma (fresh_obj 16 16 12 KV_2LTD))
    as (s' & H1 & _ & _ & o' & Ho & _ & _ & Hv).
  - apply (tma_step_inv (tma_init 64 (2 ^ 4) None)); [|apply tma_init_inv; lia].
    apply (tstep_batched_allocate [[2; 3]] [demo_dtype] 3 KV_2LTD _ (Some [0; 1; 2]%nat)).
    vm_compute. reflexivity.
  - vm_compute. reflexivity.
  - exists s'. split; [exact H1|]. rewrite Ho. simpl. rewrite Hv. reflexivity.
Defined.
