(* ===== verification/Keys.v ===== *)
(** * Object keys

    lmcache/v1/distributed/api.py: the identity of a cached object, its
    validation, the packing of a parallel setup into a [kv_rank], the wire
    form of a key, and the expansion of one request key into the object keys
    of every object group and rank. lmcache/v1/mp_coordinator/utils/encoding.py:
    the positional form a capture stores.

    A Python [str] is a [string] of 8-bit characters and [bytes] a list of
    [byte]. [extra_attributes] is left out: it is excluded from equality and
    hashing, and nothing modelled reads it. *)

From stdpp Require Import gmap strings list.
From Stdlib Require Import ZArith Lia Ascii.
From Stdlib.Strings Require Import Byte.
From S2P Require Import Prelude TensorAllocator.

Open Scope py_scope.
Open Scope Z_scope.

(** ** Identity *)

Record ObjectKeyIdentity := mkIdentity {
  id_chunk_hash : list byte;
  id_kv_rank : Z;
  id_model_name : string;
  id_object_group_id : Z;
  id_cache_salt : string;
  id_tags : gmap string string       (* a frozen dict, compared as a mapping *)
}.

Record ObjectKey := mkKey { identity : ObjectKeyIdentity }.

#[export] Instance byte_eq_decision : EqDecision byte := Byte.byte_eq_dec.
#[export] Instance ObjectKeyIdentity_eq_dec : EqDecision ObjectKeyIdentity.
Proof. solve_decision. Defined.
#[export] Instance ObjectKey_eq_dec : EqDecision ObjectKey.
Proof. solve_decision. Defined.

Definition chunk_hash (k : ObjectKey) : list byte := id_chunk_hash (identity k).
Definition model_name (k : ObjectKey) : string := id_model_name (identity k).
Definition cache_salt (k : ObjectKey) : string := id_cache_salt (identity k).
Definition kv_rank (k : ObjectKey) : Z := id_kv_rank (identity k).
Definition object_group_id (k : ObjectKey) : Z := id_object_group_id (identity k).
Definition tags (k : ObjectKey) : gmap string string := id_tags (identity k).

Fixpoint chars (s : string) : list ascii :=
  match s with EmptyString => [] | String c s' => c :: chars s' end.

Definition contains (c : ascii) (s : string) : bool := bool_decide (c ∈ chars s).

Definition AT : ascii := "064"%char.
Definition SLASH : ascii := "047"%char.
Definition BACKSLASH : ascii := "092"%char.
Definition NUL : ascii := "000"%char.

Definition validate_identity_tags (tags : gmap string string) : py unit :=
  if decide (tags !! EmptyString = None) then Ret tt else Raise ValueError.

(** [ObjectKeyIdentity.__post_init__]. *)
Definition new_identity (chunk_hash : list byte) (kv_rank : Z) (model_name : string)
    (object_group_id : Z) (cache_salt : string) (tags : gmap string string)
    : py ObjectKeyIdentity :=
  if contains AT model_name then Raise ValueError
  else if object_group_id <? 0 then Raise ValueError
  else if existsb (λ c, contains c cache_salt) [AT; SLASH; BACKSLASH; NUL] then Raise ValueError
  else if (128 <? length (chars cache_salt))%nat then Raise ValueError
  else
    let! _ := validate_identity_tags tags in
    Ret (mkIdentity chunk_hash kv_rank model_name object_group_id cache_salt tags).

Definition is_given {A} (o : option A) : bool := match o with Some _ => true | None => false end.

(** [ObjectKey.__init__]: flat fields, or an identity some of whose fields are
    overridden. *)
Definition new_key (chunk_hash : option (list byte)) (model_name : option string)
    (kv_rank : option Z) (object_group_id : option Z) (cache_salt : option string)
    (ident : option ObjectKeyIdentity) (tags : option (gmap string string)) : py ObjectKey :=
  match ident with
  | None =>
      match chunk_hash, model_name, kv_rank with
      | Some h, Some m, Some r =>
          let! i := new_identity h r m (default 0 object_group_id) (default EmptyString cache_salt)
                      (default ∅ tags) in
          Ret (mkKey i)
      | _, _, _ => Raise TypeError
      end
  | Some i =>
      if is_given chunk_hash || is_given model_name || is_given kv_rank ||
         is_given object_group_id || is_given cache_salt || is_given tags
      then
        let! i' := new_identity (default (id_chunk_hash i) chunk_hash)
                     (default (id_kv_rank i) kv_rank) (default (id_model_name i) model_name)
                     (default (id_object_group_id i) object_group_id)
                     (default (id_cache_salt i) cache_salt) (default (id_tags i) tags) in
        Ret (mkKey i')
      else Ret (mkKey i)
  end.

(** A key any constructor call returned. *)
Definition valid_key (k : ObjectKey) : Prop :=
  contains AT (model_name k) = false ∧ 0 <= object_group_id k ∧
  existsb (λ c, contains c (cache_salt k)) [AT; SLASH; BACKSLASH; NUL] = false ∧
  (length (chars (cache_salt k)) ≤ 128)%nat ∧ tags k !! EmptyString = None.

(** ** [kv_rank] *)

Definition ComputeKVRank (world_size global_rank local_world_size local_rank : Z) : Z :=
  Z.lor (Z.lor (Z.lor (Z.shiftl world_size 24) (Z.shiftl global_rank 16))
               (Z.shiftl local_world_size 8)) local_rank.

Definition WorldSizeFromKVRank (kv_rank : Z) : Z := Z.land (Z.shiftr kv_rank 24) 255.

(** ** Wire forms *)

Definition hex_digit (n : N) : ascii :=
  ascii_of_N (if (n <? 10)%N then 48 + n else 87 + n)%N.

Definition hex_value (c : ascii) : option N :=
  let n := N_of_ascii c in
  if (48 <=? n)%N && (n <=? 57)%N then Some (n - 48)%N
  else if (97 <=? n)%N && (n <=? 102)%N then Some (n - 87)%N
  else if (65 <=? n)%N && (n <=? 70)%N then Some (n - 55)%N
  else None.

Definition is_space (c : ascii) : bool :=
  let n := N_of_ascii c in ((9 <=? n) && (n <=? 13))%N || (n =? 32)%N.

(** [bytes.hex]. *)
Fixpoint to_hex (bs : list byte) : string :=
  match bs with
  | [] => EmptyString
  | b :: bs' =>
      String (hex_digit (Byte.to_N b / 16)) (String (hex_digit (Byte.to_N b mod 16)) (to_hex bs'))
  end.

(** [bytes.fromhex]: white space is skipped between bytes. *)
Fixpoint fromhex (s : string) : py (list byte) :=
  match s with
  | EmptyString => Ret []
  | String c s' =>
      if is_space c then fromhex s'
      else
        match hex_value c, s' with
        | Some hi, String d s'' =>
            match hex_value d with
            | Some lo =>
                match Byte.of_N (16 * hi + lo) with
                | Some b => let! bs := fromhex s'' in Ret (b :: bs)
                | None => Raise ValueError
                end
            | None => Raise ValueError
            end
        | _, _ => Raise ValueError
        end
  end.

Record EncodedObjectKey := mkEncoded {
  chunk_hash_hex : string;
  enc_model_name : string;
  enc_kv_rank : Z;
  enc_object_group_id : Z;
  enc_cache_salt : string;
  enc_tags : gmap string string
}.

(** [EncodedObjectKey.__post_init__]. *)
Definition new_encoded (h m : string) (r g : Z) (salt : string) (tags : gmap string string)
    : py EncodedObjectKey :=
  let! _ := validate_identity_tags tags in Ret (mkEncoded h m r g salt tags).

Definition to_encoded_object_key (k : ObjectKey) : py EncodedObjectKey :=
  new_encoded (to_hex (chunk_hash k)) (model_name k) (kv_rank k) (object_group_id k)
    (cache_salt k) (tags k).

Definition to_object_key (e : EncodedObjectKey) : py ObjectKey :=
  let! h := fromhex (chunk_hash_hex e) in
  new_key (Some h) (Some (enc_model_name e)) (Some (enc_kv_rank e))
    (Some (enc_object_group_id e)) (Some (enc_cache_salt e)) None (Some (enc_tags e)).

Definition EncodedKey : Type := list byte * string * Z * Z * string.

Definition encode_key (k : ObjectKey) : EncodedKey :=
  (chunk_hash k, model_name k, kv_rank k, object_group_id k, cache_salt k).

Definition decode_key (e : EncodedKey) : py ObjectKey :=
  let '(h, m, r, g, salt) := e in
  new_key (Some h) (Some m) (Some r) (Some g) (Some salt) None None.

(** ** Layouts, shards and windows *)

Record MemoryLayoutDesc := mkLayout { shapes : list torch_Size; dtypes : list dtype }.

Definition new_layout (sh : list torch_Size) (dt : list dtype) : py MemoryLayoutDesc :=
  if (length sh =? length dt)%nat then Ret (mkLayout sh dt) else Raise ValueError.

Record ShardReplicationDesc := mkShards {
  group_tp_replicas : list Z;
  group_dcp_shards : list Z
}.

Definition new_shards (tp dcp : list Z) : py ShardReplicationDesc :=
  if negb (length dcp =? 0)%nat && negb (length dcp =? length tp)%nat
  then Raise ValueError else Ret (mkShards tp dcp).

Definition tp_replicas (d : ShardReplicationDesc) (g : Z) : py Z :=
  match group_tp_replicas d with [] => Ret 1 | l => py_index l g end.

Definition dcp_shards (d : ShardReplicationDesc) (g : Z) : py Z :=
  match group_dcp_shards d with [] => Ret 1 | l => py_index l g end.

Definition num_kv_readers (d : ShardReplicationDesc) (g : Z) : py Z :=
  let! tp := tp_replicas d g in
  let! dcp := dcp_shards d g in
  if dcp =? 0 then Raise ZeroDivisionError else Ret (Z.max 1 (tp / dcp)).

Record AttnWindowDesc := mkWindows { num_chunks_in_sw : list Z; attn_world_size : Z }.

(** [AttnWindowDesc.__post_init__] (the group kind labels are not modelled). *)
Definition new_windows (ws : list Z) (world_size : Z) : py AttnWindowDesc :=
  if world_size <? 1 then Raise ValueError
  else if existsb (λ w, (w =? 0) || (w <? -1)) ws then Raise ValueError
  else Ret (mkWindows ws world_size).

Definition FULL_ATTENTION_WINDOW_CHUNKS : Z := -1.

(** ** From a request key to object keys *)

(** The values of a request configuration: a string, or anything else. *)
Inductive cfg_value : Type := CStr (s : string) | COther.

Record IPCCacheServerKey := mkIPC {
  ipc_model_name : string;
  ipc_world_size : Z;
  ipc_worker_id : option Z;
  ipc_cache_salt : string;
  ipc_request_configs : option (list (string * cfg_value))
}.

Fixpoint remove_prefix (p s : string) : option string :=
  match p, s with
  | EmptyString, _ => Some s
  | String a p', String b s' => if decide (a = b) then remove_prefix p' s' else None
  | String _ _, EmptyString => None
  end.

Fixpoint request_tags_loop (cfg : list (string * cfg_value)) (acc : gmap string string)
    : py (gmap string string) :=
  match cfg with
  | [] => Ret acc
  | (name, value) :: cfg' =>
      match remove_prefix "lmcache.tag."%string name with
      | None => request_tags_loop cfg' acc
      | Some t =>
          match value with
          | COther => Raise ValueError
          | CStr v => request_tags_loop cfg' (<[t := v]> acc)
          end
      end
  end.

Definition get_request_tags (request_configs : option (list (string * cfg_value)))
    : py (gmap string string) :=
  let! tags := request_tags_loop (default [] request_configs) ∅ in
  let! _ := validate_identity_tags tags in
  Ret tags.

(** [range(0, stop, step)]. *)
Definition range0 (stop step : Z) : py (list Z) :=
  if step =? 0 then Raise ValueError
  else if 0 <? step then Ret ((λ i, Z.of_nat i * step) <$> seq 0 (Z.to_nat ((stop + step - 1) / step)))
  else Ret ((λ i, Z.of_nat i * step) <$> seq 0 (Z.to_nat ((- stop + - step - 1) / - step))).

Definition _lookup_worker_ids (world_size : Z) (worker_id : option Z) (tp_replicas dcp_shards : Z)
    : py (list Z) :=
  match worker_id with
  | None =>
      let! firsts := range0 world_size tp_replicas in
      let! shards := range0 dcp_shards 1 in
      Ret (first ← firsts; (λ shard, first + shard) <$> shards)
  | Some w =>
      if (tp_replicas =? 0) || (dcp_shards =? 0) then Raise ZeroDivisionError
      else Ret [w - w mod tp_replicas + w mod dcp_shards]
  end.

Definition _lookup_kv_ranks (k : IPCCacheServerKey) (tp_replicas dcp_shards : Z) : py (list Z) :=
  let ws := ipc_world_size k in
  let! worker_ids := _lookup_worker_ids ws (ipc_worker_id k) tp_replicas dcp_shards in
  Ret ((λ w, ComputeKVRank ws w ws w) <$> worker_ids).

Definition ipc_key_to_object_keys (k : IPCCacheServerKey) (chunk_hashes : list (list byte))
    (object_group_ids : list Z) (shard_replication_desc : ShardReplicationDesc)
    : py (list (list ObjectKey)) :=
  let! tags := get_request_tags (ipc_request_configs k) in
  py_map (λ g,
    let! per_chunk := py_map (λ h,
      let! tp := tp_replicas shard_replication_desc g in
      let! dcp := dcp_shards shard_replication_desc g in
      let! ranks := _lookup_kv_ranks k tp dcp in
      py_map (λ r, new_key (Some h) (Some (ipc_model_name k)) (Some r) (Some g)
                     (Some (ipc_cache_salt k)) None (Some tags)) ranks) chunk_hashes in
    Ret (mjoin per_chunk)) object_group_ids.

Record GroupedObjectKeys := mkGrouped {
  gk_keys : list ObjectKey;
  gk_object_group_id : Z;
  gk_layout_desc : MemoryLayoutDesc;
  gk_sliding_window_size : Z;
  gk_num_kv_readers : Z
}.

Definition new_grouped (keys : list ObjectKey) (g : Z) (lay : MemoryLayoutDesc)
    (window readers : Z) : py GroupedObjectKeys :=
  if (window =? 0) || (window <? -1) then Raise ValueError
  else if readers <? 1 then Raise ValueError
  else Ret (mkGrouped keys g lay window readers).

(** The rows of one object group, one per rank. *)
Definition group_rows (k : IPCCacheServerKey) (chunk_hashes : list (list byte))
    (group_layout_descs : dict Z MemoryLayoutDesc) (attn_desc : AttnWindowDesc)
    (shard_replication_desc : ShardReplicationDesc) (tags : gmap string string) (g : Z)
    : py (list GroupedObjectKeys) :=
  match dget g group_layout_descs with
  | None => Raise ValueError
  | Some layout_desc =>
      if negb ((0 <=? g) && (g <? Z.of_nat (length (num_chunks_in_sw attn_desc))))
      then Raise ValueError
      else
        let! window := py_index (num_chunks_in_sw attn_desc) g in
        let! readers := num_kv_readers shard_replication_desc g in
        let! tp := tp_replicas shard_replication_desc g in
        let! dcp := dcp_shards shard_replication_desc g in
        let! ranks := _lookup_kv_ranks k tp dcp in
        py_map (λ r,
          let! keys := py_map (λ h, new_key (Some h) (Some (ipc_model_name k)) (Some r) (Some g)
                                      (Some (ipc_cache_salt k)) None (Some tags)) chunk_hashes in
          new_grouped keys g layout_desc window readers) ranks
  end.

Definition ipc_key_to_grouped_object_keys (k : IPCCacheServerKey)
    (chunk_hashes : list (list byte)) (object_group_ids : list Z)
    (group_layout_descs : dict Z MemoryLayoutDesc) (attn_desc : AttnWindowDesc)
    (shard_replication_desc : ShardReplicationDesc) : py (list GroupedObjectKeys) :=
  let! tags := get_request_tags (ipc_request_configs k) in
  let! rows := py_map (group_rows k chunk_hashes group_layout_descs attn_desc
                         shard_replication_desc tags) object_group_ids in
  Ret (mjoin rows).

(** ** Lemmas *)

Lemma new_identity_Ret h r m g salt tg i :
  new_identity h r m g salt tg = Ret i →
  i = mkIdentity h r m g salt tg ∧ valid_key (mkKey i).
Proof.
  unfold new_identity, validate_identity_tags.
  destruct (contains AT m) eqn:H1; [done|]. destruct (Z.ltb_spec g 0); [done|].
  destruct (existsb _ _) eqn:H3; [done|].
  destruct (Nat.ltb_spec 128 (length (chars salt))); [done|].
  case_decide; [|done]. intros [= <-]. split; [done|]. by split_and!.
Qed.

Lemma new_identity_valid k :
  valid_key k →
  new_identity (chunk_hash k) (kv_rank k) (model_name k) (object_group_id k) (cache_salt k) (tags k)
  = Ret (identity k).
Proof.
  intros (H1 & H2 & H3 & H4 & H5). unfold new_identity, validate_identity_tags.
  rewrite H1, H3. destruct (Z.ltb_spec (object_group_id k) 0); [lia|].
  destruct (Nat.ltb_spec 128 (length (chars (cache_salt k)))); [lia|].
  rewrite decide_True by done. by destruct k as [[]].
Qed.

Lemma new_key_flat h m r g salt tg k :
  new_key (Some h) (Some m) (Some r) (Some g) (Some salt) None (Some tg) = Ret k →
  k = mkKey (mkIdentity h r m g salt tg) ∧ valid_key k.
Proof.
  unfold new_key. simpl. destruct (new_identity _ _ _ _ _ _) as [i|] eqn:E; [|done].
  apply new_identity_Ret in E as [-> ?]. simpl. by intros [= <-].
Qed.

(** *** [kv_rank] *)

Lemma lor_shiftl_add a b k : 0 <= k → 0 <= b < 2 ^ k → Z.lor (Z.shiftl a k) b = a * 2 ^ k + b.
Proof.
  intros Hk Hb. rewrite <-Z.shiftl_mul_pow2 by done.
  destruct (decide (b = 0)) as [->|Hb0]; [rewrite Z.lor_0_r; lia|]. symmetry.
  rewrite Z.add_nocarry_lxor, Z.lxor_lor; [done|..];
    (apply Z.bits_inj'; intros n Hn; rewrite Z.land_spec, Z.bits_0;
     destruct (decide (n < k));
     [rewrite Z.shiftl_spec_low by done; done|
      rewrite (Z.bits_above_log2 b n); [by rewrite andb_false_r|lia|];
      apply Z.log2_lt_pow2; [lia|]; apply Z.lt_le_trans with (2 ^ k); [lia|];
      apply Z.pow_le_mono_r; lia]).
Qed.

Lemma ComputeKVRank_sum ws gr lws lr :
  0 <= gr < 256 → 0 <= lws < 256 → 0 <= lr < 256 →
  ComputeKVRank ws gr lws lr = ws * 2 ^ 24 + (gr * 2 ^ 16 + (lws * 2 ^ 8 + lr)).
Proof.
  intros. unfold ComputeKVRank. rewrite <-!Z.lor_assoc.
  rewrite (lor_shiftl_add lws), (lor_shiftl_add gr), (lor_shiftl_add ws);
    change (2 ^ 24) with 16777216; change (2 ^ 16) with 65536; change (2 ^ 8) with 256; lia.
Qed.

(** *** Ranks *)

Lemma range0_pos stop step :
  0 < step → ∃ l, range0 stop step = Ret l ∧ NoDup l ∧
    ∀ x, x ∈ l ↔ 0 <= x < stop ∧ (step | x).
Proof.
  intros Hs. unfold range0. destruct (Z.eqb_spec step 0); [lia|].
  destruct (Z.ltb_spec 0 step); [|lia]. eexists. split; [done|]. split.
  - apply NoDup_fmap_2_strong; [|apply NoDup_seq]. intros i j _ _ Hij. nia.
  - intros x. rewrite list_elem_of_fmap. setoid_rewrite elem_of_seq.
    pose proof (Z.div_mod (stop + step - 1) step ltac:(lia)) as Hd.
    pose proof (Z.mod_pos_bound (stop + step - 1) step ltac:(lia)).
    set (q := (stop + step - 1) / step) in *. split.
    + intros (i & -> & _ & Hi). split; [|by exists (Z.of_nat i)].
      assert (Z.of_nat i + 1 <= q) by lia. nia.
    + intros [Hx [c ->]]. assert (0 <= c) by nia. exists (Z.to_nat c).
      rewrite Z2Nat.id by done. split; [done|]. split; [lia|]. assert (c < q) by nia. lia.
Qed.

Lemma lookup_ids_spec ws tp dcp :
  0 < tp → 0 < dcp →
  ∃ ids, _lookup_worker_ids ws None tp dcp = Ret ids ∧
    (∀ w, w ∈ ids ↔ ∃ first shard, w = first + shard ∧ 0 <= first < ws ∧ (tp | first) ∧ 0 <= shard < dcp) ∧
    (dcp <= tp → NoDup ids).
Proof.
  intros Htp Hdcp. destruct (range0_pos ws tp Htp) as (firsts & E1 & N1 & M1).
  destruct (range0_pos dcp 1 ltac:(lia)) as (shards & E2 & N2 & M2).
  unfold _lookup_worker_ids. rewrite E1, E2. cbn [py_bind]. eexists. split; [done|]. split.
  - intros w. rewrite list_elem_of_bind. setoid_rewrite list_elem_of_fmap.
    setoid_rewrite M1. setoid_rewrite M2. split.
    + intros (f & (s & -> & Hs & _) & Hf & Hd). exists f, s. tauto.
    + intros (f & s & -> & Hf & Hd & Hs). exists f. split; [|tauto]. exists s.
      split; [done|]. split; [done|]. by exists s; rewrite Z.mul_1_r.
  - intros Hle. apply NoDup_bind; [| |done].
    + intros f1 f2 w [Hf1 D1]%M1 [Hf2 D2]%M1. rewrite !list_elem_of_fmap.
      intros (s1 & -> & [Hs1 _]%M2) (s2 & Hw & [Hs2 _]%M2).
      destruct D1 as [a ->], D2 as [b ->]. assert (a = b) by nia. by subst.
    + intros f _. apply NoDup_fmap_2_strong; [|done]. intros; lia.
Qed.

(** The rank a worker stores under. *)
Definition worker_rank (tp dcp w : Z) : Z := w - w mod tp + w mod dcp.

Lemma lookup_ids_worker ws w tp dcp :
  0 < tp → 0 < dcp → _lookup_worker_ids ws (Some w) tp dcp = Ret [worker_rank tp dcp w].
Proof.
  intros. simpl. destruct (Z.eqb_spec tp 0), (Z.eqb_spec dcp 0); simpl; try lia. done.
Qed.

(** The workers that share one token shard of one tensor-parallel group. *)
Lemma shard_workers tp dcp c f s w :
  0 < dcp → 0 < c → tp = c * dcp → (tp | f) → 0 <= s < dcp →
  worker_rank tp dcp w = f + s ↔ ∃ j, 0 <= j < c ∧ w = f + s + j * dcp.
Proof.
  intros Hd Hc -> [q ->] Hs. unfold worker_rank.
  pose proof (Z.div_mod w (c * dcp) ltac:(nia)) as E. set (u := w mod (c * dcp)) in *.
  pose proof (Z.mod_pos_bound w (c * dcp) ltac:(nia)) as Hu. fold u in Hu.
  set (a := w / (c * dcp)) in *. clearbody u a.
  assert (w mod dcp = u mod dcp) as ->.
  { rewrite E. replace (c * dcp * a + u) with (u + (c * a) * dcp) by lia. apply Z.mod_add. lia. }
  pose proof (Z.div_mod u dcp ltac:(lia)) as Eu. pose proof (Z.mod_pos_bound u dcp Hd) as Hu'.
  set (v := u mod dcp) in *. set (j := u / dcp) in *. clearbody v j.
  assert (0 <= j < c) by nia. split.
  - intros Hr. exists j. split; [done|]. assert (a = q) by nia. subst. lia.
  - intros (j' & Hj' & Hw). assert (0 <= s + j' * dcp < c * dcp) by nia.
    destruct (Z.div_mod_unique (c * dcp) a q u (s + j' * dcp)) as [-> Hu2]; [lia|lia|lia|].
    destruct (Z.div_mod_unique dcp j j' v s) as [-> ->]; lia.
Qed.

(** *** Hex *)

Lemma hex_byte b :
  is_space (hex_digit (Byte.to_N b / 16)) = false ∧
  hex_value (hex_digit (Byte.to_N b / 16)) = Some (Byte.to_N b / 16)%N ∧
  hex_value (hex_digit (Byte.to_N b mod 16)) = Some (Byte.to_N b mod 16)%N.
Proof. by destruct b. Qed.

Lemma fromhex_to_hex bs : fromhex (to_hex bs) = Ret bs.
Proof.
  induction bs as [|b bs IH]; [done|].
  cbn [to_hex fromhex]. destruct (hex_byte b) as (-> & -> & ->).
  rewrite <-N.div_mod by done. by rewrite Byte.of_to_N, IH.
Qed.

(** *** Grouped and flat expansion *)

(** Whether [new_key] accepts a key does not depend on its hash or rank. *)
Lemma new_key_uniform m g salt tg :
  (∀ h r, ∃ e, new_key (Some h) (Some m) (Some r) (Some g) (Some salt) None (Some tg) = Raise e) ∨
  (∀ h r, new_key (Some h) (Some m) (Some r) (Some g) (Some salt) None (Some tg)
          = Ret (mkKey (mkIdentity h r m g salt tg))).
Proof.
  unfold new_key, new_identity, validate_identity_tags. simpl.
  destruct (contains AT m); [left; by eexists|]. destruct (g <? 0); [left; by eexists|].
  match goal with |- context [if ?b then Raise ValueError else _] => destruct b end; [left; by eexists|].
  match goal with |- context [if ?b then Raise ValueError else _] => destruct b end; [left; by eexists|].
  case_decide; [by right|left; by eexists].
Qed.

Lemma transpose_perm {A B C} (f : A → B → C) la lb :
  (a ← la; f a <$> lb) ≡ₚ (b ← lb; (λ a, f a b) <$> la).
Proof.
  revert lb. induction la as [|a la IH]; intros lb; csimpl.
  - by induction lb.
  - rewrite IH. clear IH. induction lb as [|b lb IH]; csimpl; [done|].
    rewrite <-IH. apply perm_skip. rewrite !(assoc_L (++)). apply Permutation_app_tail.
    apply Permutation_app_comm.
Qed.

Lemma bind_join {A B} (f : A → list B) l : l ≫= f = mjoin (f <$> l).
Proof. induction l as [|x l IH]; csimpl; [done|]. by rewrite IH. Qed.

Definition flat_group (k : IPCCacheServerKey) (chunk_hashes : list (list byte))
    (sh : ShardReplicationDesc) (tags : gmap string string) (g : Z) : py (list ObjectKey) :=
  let! per_chunk := py_map (λ h,
    let! tp := tp_replicas sh g in
    let! dcp := dcp_shards sh g in
    let! ranks := _lookup_kv_ranks k tp dcp in
    py_map (λ r, new_key (Some h) (Some (ipc_model_name k)) (Some r) (Some g)
                   (Some (ipc_cache_salt k)) None (Some tags)) ranks) chunk_hashes in
  Ret (mjoin per_chunk).

Definition row_ok (k : IPCCacheServerKey) (chunk_hashes : list (list byte))
    (row : GroupedObjectKeys) : Prop :=
  chunk_hash <$> gk_keys row = chunk_hashes ∧ 1 <= gk_num_kv_readers row ∧
  ∀ key, key ∈ gk_keys row →
    valid_key key ∧ cache_salt key = ipc_cache_salt k ∧ model_name key = ipc_model_name k ∧
    object_group_id key = gk_object_group_id row.

Lemma py_map_ext {A B} (f g : A → py B) l : (∀ x, f x = g x) → py_map f l = py_map g l.
Proof. intros Hfg. induction l as [|x l IH]; simpl; [done|]. by rewrite Hfg, IH. Qed.

Lemma new_grouped_Ret keys g lay w n row :
  new_grouped keys g lay w n = Ret row → row = mkGrouped keys g lay w n ∧ 1 <= n.
Proof.
  unfold new_grouped. destruct (_ || _); [done|]. destruct (Z.ltb_spec n 1); [done|].
  intros [= <-]. split; [done|lia].
Qed.

(** The rows built over the ranks of one group, with the keys accepted. *)
Lemma rows_of_ranks (mk : list byte → Z → ObjectKey) hashes g lay w n ranks rows :
  py_map (λ r, let! keys := py_map (λ h, Ret (mk h r)) hashes in new_grouped keys g lay w n) ranks
    = Ret rows →
  gk_keys <$> rows = (λ r, (λ h, mk h r) <$> hashes) <$> ranks ∧
  ∀ row, row ∈ rows → gk_object_group_id row = g ∧ 1 <= gk_num_kv_readers row.
Proof.
  rewrite py_map_Ret. induction 1 as [|r row ranks rows Hr _ [IH1 IH2]]; [split; [done|set_solver]|].
  rewrite py_map_pure in Hr. simpl in Hr. apply new_grouped_Ret in Hr as [-> Hn].
  csimpl. rewrite IH1. split; [done|]. intros row' [->|Hin]%elem_of_cons; [done|by apply IH2].
Qed.

Definition ipc_object_key (k : IPCCacheServerKey) (g : Z) (tags : gmap string string)
    (h : list byte) (r : Z) : py ObjectKey :=
  new_key (Some h) (Some (ipc_model_name k)) (Some r) (Some g) (Some (ipc_cache_salt k)) None (Some tags).

Definition ranks_flat k g tags (hashes : list (list byte)) (ranks : list Z) : py (list ObjectKey) :=
  let! per_chunk := py_map (λ h, py_map (λ r, ipc_object_key k g tags h r) ranks) hashes in
  Ret (mjoin per_chunk).

Definition ranks_rows k g tags (hashes : list (list byte)) lay w n (ranks : list Z)
    : py (list GroupedObjectKeys) :=
  py_map (λ r, let! keys := py_map (λ h, ipc_object_key k g tags h r) hashes in
               new_grouped keys g lay w n) ranks.

(** No key is accepted: rows exist only when there is nothing to build. *)
Lemma ranks_rows_rejected k g tags hashes lay w n ranks rows :
  (∀ h r, ∃ e, ipc_object_key k g tags h r = Raise e) →
  ranks_rows k g tags hashes lay w n ranks = Ret rows →
  ranks_flat k g tags hashes ranks = Ret [] ∧ mjoin (gk_keys <$> rows) = [] ∧
  ∀ row, row ∈ rows → row_ok k hashes row.
Proof.
  intros Hbad. unfold ranks_rows, ranks_flat. destruct hashes as [|h hs].
  - rewrite py_map_Ret. intros Hrows. split; [done|].
    assert (∀ row, row ∈ rows → gk_keys row = [] ∧ 1 <= gk_num_kv_readers row) as Hnil.
    { clear -Hrows. induction Hrows as [|r row ranks rows Hr _ IH]; [set_solver|].
      simpl in Hr. apply new_grouped_Ret in Hr as [-> ?].
      intros row' [->|]%elem_of_cons; [done|by apply IH]. }
    split.
    + clear -Hnil. induction rows as [|row rows IH]; [done|]. csimpl.
      rewrite (proj1 (Hnil row ltac:(left))). simpl. apply IH. intros row' ?. apply Hnil. by right.
    + intros row Hin. destruct (Hnil row Hin) as [E ?]. unfold row_ok. rewrite E.
      split_and!; [done|done|set_solver].
  - destruct ranks as [|r ranks]; cbn [py_map].
    + intros [= <-]. rewrite py_map_pure. cbn [py_bind]. split_and!; [|done|set_solver].
      f_equal. by induction hs.
    + by destruct (Hbad h r) as [e ->].
Qed.

Lemma ranks_rows_accepted k g tags hashes lay w n ranks rows :
  (∀ h r, ipc_object_key k g tags h r
          = Ret (mkKey (mkIdentity h r (ipc_model_name k) g (ipc_cache_salt k) tags))) →
  ranks_rows k g tags hashes lay w n ranks = Ret rows →
  ∃ flat, ranks_flat k g tags hashes ranks = Ret flat ∧ flat ≡ₚ mjoin (gk_keys <$> rows) ∧
    ∀ row, row ∈ rows → row_ok k hashes row.
Proof.
  intros Hok. set (mk := λ h r, mkKey (mkIdentity h r (ipc_model_name k) g (ipc_cache_salt k) tags)).
  unfold ranks_rows, ranks_flat.
  rewrite (py_map_ext (λ h, py_map _ ranks) (λ h, Ret (mk h <$> ranks))).
  2: { intros h. rewrite <-py_map_pure. apply py_map_ext. intros r. apply Hok. }
  rewrite py_map_pure. cbn [py_bind]. intros Hrows. eexists. split; [done|].
  rewrite (py_map_ext _ (λ r, let! keys := py_map (λ h, Ret (mk h r)) hashes in
                              new_grouped keys g lay w n)) in Hrows.
  2: { intros r. f_equal. apply py_map_ext. intros h. apply Hok. }
  apply rows_of_ranks in Hrows as [E Hr]. split.
  { rewrite E, <-!bind_join. apply transpose_perm. }
  intros row Hin. assert (gk_keys row ∈ gk_keys <$> rows) as Hin' by (apply list_elem_of_fmap; eauto).
  rewrite E in Hin'. apply list_elem_of_fmap in Hin' as (r & Er & _). destruct (Hr row Hin) as [Hg Hn].
  unfold row_ok. rewrite Er. split_and!; [|done|].
  - rewrite <-list_fmap_compose. apply list_fmap_id.
  - intros key (h & -> & _)%list_elem_of_fmap. destruct (new_key_flat _ _ _ _ _ _ _ (Hok h r)) as [_ Hv].
    by rewrite Hg.
Qed.

Lemma group_rows_flat k hashes lays attn sh tags g rows :
  group_rows k hashes lays attn sh tags g = Ret rows →
  ∃ flat, flat_group k hashes sh tags g = Ret flat ∧ flat ≡ₚ mjoin (gk_keys <$> rows) ∧
    ∀ row, row ∈ rows → row_ok k hashes row.
Proof.
  unfold group_rows, flat_group. destruct (dget g lays) as [lay|]; [|done].
  destruct (negb _); [done|]. destruct (py_index _ g) as [w|]; [|done].
  destruct (num_kv_readers sh g) as [n|]; [|done]. cbn [py_bind].
  destruct (tp_replicas sh g) as [tp|]; [|done]. destruct (dcp_shards sh g) as [dcp|]; [|done].
  cbn [py_bind]. destruct (_lookup_kv_ranks k tp dcp) as [ranks|]; [|done]. cbn [py_bind].
  change (ranks_rows k g tags hashes lay w n ranks = Ret rows →
    ∃ flat, ranks_flat k g tags hashes ranks = Ret flat ∧ flat ≡ₚ mjoin (gk_keys <$> rows) ∧
      ∀ row, row ∈ rows → row_ok k hashes row).
  destruct (new_key_uniform (ipc_model_name k) g (ipc_cache_salt k) tags) as [Hbad|Hok].
  - intros Hrows. destruct (ranks_rows_rejected _ _ _ _ _ _ _ _ _ Hbad Hrows) as (-> & -> & ?).
    by exists [].
  - by apply ranks_rows_accepted.
Qed.

Lemma groups_rows_flat k hashes lays attn sh tags gs rss :
  py_map (group_rows k hashes lays attn sh tags) gs = Ret rss →
  ∃ flats, py_map (flat_group k hashes sh tags) gs = Ret flats ∧
    mjoin flats ≡ₚ mjoin (gk_keys <$> mjoin rss) ∧
    ∀ row, row ∈ mjoin rss → row_ok k hashes row.
Proof.
  rewrite py_map_Ret. induction 1 as [|g rs gs rss Hg _ (flats & IHe & IHp & IHr)].
  - exists []. split_and!; [done|done|set_solver].
  - apply group_rows_flat in Hg as (flat & He & Hp & Hr). exists (flat :: flats).
    simpl. rewrite He, IHe. cbn [py_bind]. split; [done|]. split.
    + rewrite fmap_app, join_app. by rewrite Hp, IHp.
    + intros row [?|?]%elem_of_app; auto.
Qed.

(** ** Properties *)

(** Packing a parallel setup whose four numbers fit a byte into a
    [kv_rank] loses nothing: the world size is read back and two setups with
    the same rank are the same. *)
Theorem kv_rank_roundtrip ws gr lws lr ws' gr' lws' lr' :
  0 <= ws < 256 → 0 <= gr < 256 → 0 <= lws < 256 → 0 <= lr < 256 →
  0 <= ws' < 256 → 0 <= gr' < 256 → 0 <= lws' < 256 → 0 <= lr' < 256 →
  WorldSizeFromKVRank (ComputeKVRank ws gr lws lr) = ws ∧
  (ComputeKVRank ws gr lws lr = ComputeKVRank ws' gr' lws' lr' →
   ws = ws' ∧ gr = gr' ∧ lws = lws' ∧ lr = lr').
Proof.
  intros. rewrite !ComputeKVRank_sum by lia. split.
  - unfold WorldSizeFromKVRank. change 255 with (Z.ones 8).
    rewrite Z.land_ones, Z.shiftr_div_pow2 by lia.
    change (2 ^ 24) with 16777216; change (2 ^ 16) with 65536; change (2 ^ 8) with 256.
    rewrite Z.div_add_l, (Z.div_small (gr * _ + _)), Z.add_0_r by lia. by apply Z.mod_small.
  - change (2 ^ 24) with 16777216; change (2 ^ 16) with 65536; change (2 ^ 8) with 256. lia.
Qed.

Lemma kv_rank_roundtrip_witness : WorldSizeFromKVRank (ComputeKVRank 8 5 4 1) = 8.
Proof. apply (kv_rank_roundtrip 8 5 4 1 8 5 4 1); lia. Defined.

(** A lookup finds what the workers store. With a group replicated over
    [tp] consecutive workers and split into [dcp] token shards, the ranks a
    lookup addresses are distinct, every worker stores under one of them, and
    each of them is shared by exactly [tp // dcp] workers - the number of
    readers the key rows ask read locks for. *)
Theorem lookup_ranks_match_workers sh g tp dcp c ws n :
  tp_replicas sh g = Ret tp → dcp_shards sh g = Ret dcp →
  0 < dcp → 0 < c → tp = c * dcp → 0 < n → ws = n * tp →
  num_kv_readers sh g = Ret c ∧
  ∃ ids, _lookup_worker_ids ws None tp dcp = Ret ids ∧ NoDup ids ∧
    (∀ w, 0 <= w < ws → ∃ r, _lookup_worker_ids ws (Some w) tp dcp = Ret [r] ∧ r ∈ ids) ∧
    (∀ r, r ∈ ids → Z.of_nat (length (filter (λ w, worker_rank tp dcp w = r) (seqZ 0 ws))) = c).
Proof.
  intros Htp Hdcp Hd Hc Etp Hn Hws. assert (0 < tp) by nia. split.
  { unfold num_kv_readers. rewrite Htp, Hdcp. cbn [py_bind].
    destruct (Z.eqb_spec dcp 0); [lia|]. rewrite Etp, Z.div_mul by lia. f_equal. lia. }
  destruct (lookup_ids_spec ws tp dcp ltac:(done) Hd) as (ids & E & Hids & Hnd).
  exists ids. split_and!; [done|apply Hnd; nia| |].
  - intros w Hw. eexists. split; [by apply lookup_ids_worker|]. apply Hids.
    pose proof (Z.mod_pos_bound w tp ltac:(lia)). pose proof (Z.mod_pos_bound w dcp Hd).
    pose proof (Z.div_mod w tp ltac:(lia)). pose proof (Z.div_pos w tp ltac:(lia) ltac:(lia)).
    exists (w - w mod tp), (w mod dcp). split_and!; [done|nia|lia| |lia|lia].
    exists (w / tp). lia.
  - intros r (f & s & -> & Hf & Hdiv & Hs)%Hids.
    assert (filter (λ w, worker_rank tp dcp w = f + s) (seqZ 0 ws)
      ≡ₚ (λ j, f + s + j * dcp) <$> seqZ 0 c) as ->.
    { apply NoDup_Permutation.
      - apply NoDup_filter, NoDup_seqZ.
      - apply NoDup_fmap_2_strong; [|apply NoDup_seqZ]. intros; nia.
      - intros w. rewrite list_elem_of_filter, list_elem_of_fmap, elem_of_seqZ.
        setoid_rewrite elem_of_seqZ. rewrite (shard_workers tp dcp c) by done.
        split; [naive_solver lia|]. intros (j & -> & Hj).
        split; [exists j; split; [lia|done]|]. destruct Hdiv as [q ->]. assert (q < n) by nia. nia. }
    rewrite length_fmap, length_seqZ. lia.
Qed.

Lemma lookup_ranks_match_workers_witness :
  num_kv_readers (mkShards [8] [2]) 0 = Ret 4 ∧ _lookup_worker_ids 16 None 8 2 = Ret [0; 1; 8; 9].
Proof.
  destruct (lookup_ranks_match_workers (mkShards [8] [2]) 0 8 2 4 16 2) as [H _];
    try reflexivity. split; [exact H|]. vm_compute. reflexivity.
Defined.

(** The JSON-safe wire form of a key round-trips: every key a constructor
    accepted is encoded without error and decoded to itself. *)
Theorem encoded_key_roundtrip k :
  valid_key k → ∃ e, to_encoded_object_key k = Ret e ∧ to_object_key e = Ret k.
Proof.
  intros Hv. pose proof Hv as (_ & _ & _ & _ & Ht).
  unfold to_encoded_object_key, new_encoded, validate_identity_tags.
  rewrite decide_True by done. cbn [py_bind]. eexists. split; [done|].
  unfold to_object_key. simpl. rewrite fromhex_to_hex. simpl.
  rewrite new_identity_valid by done. by destruct k.
Qed.

Definition demo_key : ObjectKey :=
  mkKey (mkIdentity [x0a; xff] 16777216 "m"%string 0 "u1"%string {[ "lora"%string := "a"%string ]}).

Lemma encoded_key_roundtrip_witness :
  ∃ e, to_encoded_object_key demo_key = Ret e ∧ to_object_key e = Ret demo_key.
Proof. apply encoded_key_roundtrip. vm_compute. repeat split; try discriminate; lia. Defined.

(** A key without its identity tags. *)
Definition untagged (k : ObjectKey) : ObjectKey :=
  mkKey (mkIdentity (chunk_hash k) (kv_rank k) (model_name k) (object_group_id k) (cache_salt k) ∅).

Lemma untagged_id k : untagged k = k ↔ tags k = ∅.
Proof. destruct k as [[h r m g salt tg]]. unfold untagged, tags. cbn. split; [by intros [= <-]|by intros ->]. Qed.

(** What a captured key decodes to. *)
Lemma decode_encode_key k : valid_key k → decode_key (encode_key k) = Ret (untagged k).
Proof.
  intros (H1 & H2 & H3 & H4 & H5).
  assert (valid_key (untagged k)) as Hv by (destruct k as [[h r m g salt tg]]; by split_and!).
  pose proof (new_identity_valid _ Hv) as E. cbn in E |- *. rewrite E. done.
Qed.

(** The positional form a capture stores drops the matching tags: a valid
    key comes back equal exactly when it has no tags. *)
Theorem captured_key_roundtrip_iff k :
  valid_key k → decode_key (encode_key k) = Ret k ↔ tags k = ∅.
Proof.
  intros Hv. rewrite decode_encode_key, <-untagged_id by done. split; [by intros [= ->]|by intros ->].
Qed.

Lemma captured_key_roundtrip_iff_witness : decode_key (encode_key demo_key) ≠ Ret demo_key.
Proof.
  rewrite captured_key_roundtrip_iff; [discriminate|].
  vm_compute. repeat split; try discriminate; lia.
Defined.

(** The rows a prefetch works on and the flat key lists a store or a
    release works on address the same objects: whenever the row expansion of
    a request succeeds, so does the flat one, their keys agree up to order,
    every row lists one valid key per chunk in chunk order, and every key
    carries the request's own isolation salt and model. *)
Theorem grouped_and_flat_keys_agree k hashes gs lays attn sh rows :
  ipc_key_to_grouped_object_keys k hashes gs lays attn sh = Ret rows →
  ∃ flats, ipc_key_to_object_keys k hashes gs sh = Ret flats ∧
    mjoin flats ≡ₚ mjoin (gk_keys <$> rows) ∧
    ∀ row, row ∈ rows → row_ok k hashes row.
Proof.
  unfold ipc_key_to_grouped_object_keys, ipc_key_to_object_keys.
  destruct (get_request_tags _) as [tg|]; [|done]. cbn [py_bind].
  destruct (py_map (group_rows k hashes lays attn sh tg) gs) as [rss|] eqn:E; [|done].
  cbn [py_bind]. intros [= <-]. by apply groups_rows_flat in E.
Qed.

Definition demo_ipc : IPCCacheServerKey :=
  mkIPC "m"%string 2 None "u1"%string (Some [("lmcache.tag.lora"%string, CStr "a"%string)]).

Lemma grouped_and_flat_keys_agree_witness :
  ∃ rows, ipc_key_to_grouped_object_keys demo_ipc [[x01]; [x02]] [0] [(0, mkLayout [] [])]
            (mkWindows [-1] 2) (mkShards [] []) = Ret rows ∧ length rows = 2%nat ∧
    ∀ row, row ∈ rows → row_ok demo_ipc [[x01]; [x02]] row.
Proof.
  destruct (ipc_key_to_grouped_object_keys demo_ipc [[x01]; [x02]] [0] [(0, mkLayout [] [])]
            (mkWindows [-1] 2) (mkShards [] [])) as [rows|] eqn:E; [|vm_compute in E; discriminate E].
  exists rows. split; [reflexivity|]. split.
  - vm_compute in E. injection E as <-. reflexivity.
  - destruct (grouped_and_flat_keys_agree _ _ _ _ _ _ _ E) as (_ & _ & _ & Hr). exact Hr.
Defined.
