(* ===== verification/L1Memory.v ===== *)
(** * The L1 memory manager

    - [LazyMemoryAllocator] (lmcache/v1/memory_allocators/
      lazy_memory_allocator.py): a tensor allocator whose address space grows
      in the background up to the size of its buffer;
    - [MixedMemoryAllocator.batched_free] (mixed_memory_allocator.py): the
      format dispatch in front of a tensor allocator;
    - [L1MemoryManager] (lmcache/v1/distributed/memory_manager/
      l1_memory_manager.py), which puts one of them behind
      [L1MemoryManagerProtocol], the interface the L1 manager is written
      against: the class [L1MemoryManagerProtocol] and its laws
      [L1MemoryLaws], which the L1 manager's proofs use and [l1mm_laws]
      discharges. *)

From stdpp Require Import gmap list relations.
From Stdlib Require Import ZArith Lia.
From S2P Require Import Prelude AddressManager TensorAllocator Keys.

Open Scope py_scope.
Open Scope Z_scope.

Inductive L1Error : Type :=
  | SUCCESS | KEY_NOT_EXIST | KEY_NOT_READABLE | KEY_NOT_WRITABLE
  | KEY_IN_WRONG_STATE | KEY_IS_LOCKED | OUT_OF_MEMORY.

#[export] Instance L1Error_eq_dec : EqDecision L1Error.
Proof. solve_decision. Defined.

(** ** The lazily growing allocator *)

Definition align_to (size align_size : Z) : Z :=
  Z.land (size + align_size - 1) (Z.lnot (align_size - 1)).

Definition PIN_CHUNK_SIZE : Z := Z.shiftl 1 26.
Definition COMMIT_SIZE : Z := Z.shiftl 1 30.

Record LazyMemoryAllocator := mkLazy {
  lz_curr_size : Z;
  lz_final_size : Z;
  lz_pin_record : list (Z * Z);      (* offsets into the buffer *)
  lz_allocator : TMA
}.

Section lazy.
(** Whether the device accepts pinning the chunk at an offset, and the
    successive answers of [_stop_expand.is_set()]. *)
Context (pin_memory : Z → Z → bool) (stop : nat → bool).

Definition _pin_memory_chunk (final offset size : Z) (record : list (Z * Z))
    : py (list (Z * Z)) :=
  if negb (Z.land offset (PIN_CHUNK_SIZE - 1) =? 0) then Raise AssertionError
  else if negb (Z.land size (PIN_CHUNK_SIZE - 1) =? 0) then Raise AssertionError
  else if negb (offset + size <=? final) then Raise AssertionError
  else if pin_memory offset size then Ret (record ++ [(offset, size)])
  else Ret record.

Definition lazy_init (init_size final_size align_bytes : Z) : py LazyMemoryAllocator :=
  if (align_bytes <=? 0) || negb (Z.land align_bytes (align_bytes - 1) =? 0)
  then Raise ValueError
  else
    let curr := align_to init_size PIN_CHUNK_SIZE in
    let final := align_to final_size PIN_CHUNK_SIZE in
    let! record := _pin_memory_chunk final 0 curr [] in
    Ret (mkLazy curr final record (tma_init final align_bytes (Some curr))).

(** The inner loop: pin up to [n] more chunks. *)
Fixpoint pin_chunks (n : nat) (curr final : Z) (record : list (Z * Z))
    : py (Z * list (Z * Z)) :=
  match n with
  | O => Ret (curr, record)
  | S n' =>
      if final <=? curr then Ret (curr, record)
      else
        let! record' := _pin_memory_chunk final curr PIN_CHUNK_SIZE record in
        pin_chunks n' (curr + PIN_CHUNK_SIZE) final record'
  end.

Definition with_am (am : AddressManager) (t : TMA) : TMA :=
  mkTMA am (tma_active t) (tma_objs t) (tma_next t).

Definition _commit_expansion (expand_size : Z) (t : TMA) : py TMA :=
  let! am' := am_sbrk expand_size (tma_am t) in Ret (with_am am' t).

(** One round of the outer loop. [_curr_size] is written only here, so the
    worker's [last_commit_size] is its value at the start of the round. *)
Definition expand_round (lz : LazyMemoryAllocator) : py LazyMemoryAllocator :=
  let! p := pin_chunks (Z.to_nat (COMMIT_SIZE / PIN_CHUNK_SIZE))
              (lz_curr_size lz) (lz_final_size lz) (lz_pin_record lz) in
  let! t := _commit_expansion (p.1 - lz_curr_size lz) (lz_allocator lz) in
  Ret (mkLazy p.1 (lz_final_size lz) p.2 t).

(** [_expand_worker], run without interruption by clients. *)
Fixpoint _expand_worker (fuel tick : nat) (lz : LazyMemoryAllocator)
    : option (py LazyMemoryAllocator) :=
  if (lz_curr_size lz <? lz_final_size lz) && negb (stop tick) then
    match fuel with
    | O => None
    | S fuel' =>
        match expand_round lz with
        | Ret lz' => _expand_worker fuel' (S tick) lz'
        | Raise e => Some (Raise e)
        end
    end
  else Some (Ret lz).

(** What other threads do meanwhile: any client call on the allocator. *)
Definition with_tma (lz : LazyMemoryAllocator) (t : TMA) : LazyMemoryAllocator :=
  mkLazy (lz_curr_size lz) (lz_final_size lz) (lz_pin_record lz) t.

Inductive lazy_step : LazyMemoryAllocator → LazyMemoryAllocator → Prop :=
  | lstep_client lz t : tma_step (lz_allocator lz) t → lazy_step lz (with_tma lz t)
  | lstep_expand lz lz' :
      lz_curr_size lz < lz_final_size lz → expand_round lz = Ret lz' → lazy_step lz lz'.

(** ** Invariant of the lazy allocator *)

Record lazy_inv (lz : LazyMemoryAllocator) : Prop := {
  linv_tma : tma_inv (lz_allocator lz);
  linv_heap : get_heap_size (tma_am (lz_allocator lz)) = lz_curr_size lz;
  linv_align : ∃ k, 0 <= k <= 26 ∧ am_align (tma_am (lz_allocator lz)) = 2 ^ k;
  linv_curr : (PIN_CHUNK_SIZE | lz_curr_size lz);
  linv_final : (PIN_CHUNK_SIZE | lz_final_size lz);
  linv_le : 0 <= lz_curr_size lz <= lz_final_size lz
}.

Lemma chunk_pos : 0 < PIN_CHUNK_SIZE.
Proof. reflexivity. Qed.

Lemma commit_pos : 0 < COMMIT_SIZE.
Proof. reflexivity. Qed.

Lemma chunk_mask x : Z.land x (PIN_CHUNK_SIZE - 1) = x mod PIN_CHUNK_SIZE.
Proof.
  change (PIN_CHUNK_SIZE - 1) with (Z.ones 26). rewrite Z.land_ones by lia. done.
Qed.

Lemma align_to_spec x :
  x <= align_to x PIN_CHUNK_SIZE < x + PIN_CHUNK_SIZE ∧ (PIN_CHUNK_SIZE | align_to x PIN_CHUNK_SIZE).
Proof. apply (compute_aligned_size_spec 26). lia. Qed.

Lemma pin_memory_chunk_ok final offset size record :
  (PIN_CHUNK_SIZE | offset) → (PIN_CHUNK_SIZE | size) → offset + size <= final →
  ∃ record', _pin_memory_chunk final offset size record = Ret record'.
Proof.
  intros Ho Hs Hle. unfold _pin_memory_chunk.
  rewrite !chunk_mask, (proj2 (Z.mod_divide offset PIN_CHUNK_SIZE ltac:(discriminate)) Ho),
    (proj2 (Z.mod_divide size PIN_CHUNK_SIZE ltac:(discriminate)) Hs). simpl.
  destruct (Z.leb_spec (offset + size) final); [|lia]. simpl. by case_match; eexists.
Qed.

Lemma pin_chunks_ok n curr final record :
  (PIN_CHUNK_SIZE | curr) → (PIN_CHUNK_SIZE | final) → curr <= final →
  ∃ record', pin_chunks n curr final record
    = Ret (Z.min final (curr + Z.of_nat n * PIN_CHUNK_SIZE), record').
Proof.
  pose proof chunk_pos as Hpos.
  revert curr record. induction n as [|n IH]; intros curr record Hc Hf Hle; simpl pin_chunks.
  - exists record. do 2 f_equal. lia.
  - destruct (Z.leb_spec final curr) as [Hge|Hlt].
    + exists record. do 2 f_equal. nia.
    + assert (curr + PIN_CHUNK_SIZE <= final).
      { destruct Hc as [a ->], Hf as [b ->]. assert (a + 1 <= b) by nia. nia. }
      destruct (pin_memory_chunk_ok final curr PIN_CHUNK_SIZE record) as [r ->];
        [done|done|done|]. cbn [py_bind].
      destruct (IH (curr + PIN_CHUNK_SIZE) r) as [r' ->]; [|done|done|].
      * by apply Z.divide_add_r.
      * exists r'. do 2 f_equal. lia.
Qed.

Lemma aligned_chunk k x :
  0 <= k <= 26 → (PIN_CHUNK_SIZE | x) → compute_aligned_size (2 ^ k) x = x.
Proof.
  intros Hk [c ->]. apply compute_aligned_size_divides; [lia|].
  apply Z.divide_mul_r. exists (2 ^ (26 - k)). rewrite <-Z.pow_add_r by lia.
  unfold PIN_CHUNK_SIZE. rewrite Z.shiftl_1_l. f_equal. lia.
Qed.

Lemma tma_sbrk_inv n t :
  tma_inv t → 0 < n → ∃ t', _commit_expansion n t = Ret t' ∧ tma_inv t' ∧
    tma_objs t' = tma_objs t ∧ am_align (tma_am t') = am_align (tma_am t) ∧
    am_size (tma_am t') = am_size (tma_am t) + compute_aligned_size (am_align (tma_am t)) n.
Proof.
  intros [Ham Hact Hfr] Hn. unfold _commit_expansion.
  destruct (am_inv_sbrk _ _ n Ham Hn) as (am' & -> & Ham' & Hal & Hsz). simpl.
  eexists. by split_and!.
Qed.

Lemma expand_round_ok lz :
  lazy_inv lz → lz_curr_size lz < lz_final_size lz →
  ∃ lz', expand_round lz = Ret lz' ∧ lazy_inv lz' ∧
    lz_final_size lz' = lz_final_size lz ∧
    lz_curr_size lz' = Z.min (lz_final_size lz) (lz_curr_size lz + COMMIT_SIZE) ∧
    tma_objs (lz_allocator lz') = tma_objs (lz_allocator lz).
Proof.
  intros [Ht Hh (k & Hk & Hal) Hc Hf Hle] Hlt. unfold expand_round.
  destruct (pin_chunks_ok (Z.to_nat (COMMIT_SIZE / PIN_CHUNK_SIZE)) _ _ (lz_pin_record lz) Hc Hf
    ltac:(lia)) as [r' ->]. cbn [py_bind fst snd].
  change (Z.of_nat (Z.to_nat (COMMIT_SIZE / PIN_CHUNK_SIZE)) * PIN_CHUNK_SIZE) with COMMIT_SIZE.
  set (curr' := Z.min _ _).
  assert (0 < curr' - lz_curr_size lz) as Hpos by (unfold curr'; pose proof commit_pos; lia).
  assert (PIN_CHUNK_SIZE | curr') as Hc'.
  { unfold curr'. destruct (Z.min_spec (lz_final_size lz) (lz_curr_size lz + COMMIT_SIZE)) as [[_ ->]|[_ ->]];
      [done|]. apply Z.divide_add_r; [done|]. by exists 16. }
  destruct (tma_sbrk_inv _ _ Ht Hpos) as (t' & -> & Ht' & Ho & Ha & Hs). simpl.
  eexists. split; [done|]. split; [|done]. split; simpl; try done.
  - unfold get_heap_size in *. rewrite Hs, Hh, Hal, aligned_chunk; [lia|done|].
    by apply Z.divide_sub_r.
  - exists k. split; [done|congruence].
  - unfold curr'. pose proof commit_pos. lia.
Qed.

Lemma lazy_step_inv lz lz' : lazy_step lz lz' → lazy_inv lz → lazy_inv lz'.
Proof.
  intros Hstep Hinv. destruct Hstep as [lz t Ht|lz lz' Hlt He].
  - destruct Hinv as [H1 H2 H3 H4 H5 H6].
    destruct (tma_step_heap _ _ Ht H1) as [Hs Ha]. unfold get_heap_size in *.
    split; simpl; try done.
    + by eapply tma_step_inv.
    + unfold get_heap_size. congruence.
    + destruct H3 as (k & ? & ?). exists k. split; [done|congruence].
  - destruct (expand_round_ok lz Hinv Hlt) as (lz1 & E & ? & _). rewrite E in He. by simplify_eq.
Qed.

Lemma pow2_mask k : 0 <= k → (2 ^ k <=? 0) || negb (Z.land (2 ^ k) (2 ^ k - 1) =? 0) = false.
Proof.
  intros Hk. pose proof (Z.pow_pos_nonneg 2 k ltac:(lia) Hk).
  destruct (Z.leb_spec (2 ^ k) 0); [lia|]. simpl.
  replace (2 ^ k - 1) with (Z.ones k) by (rewrite Z.ones_equiv; lia).
  by rewrite Z.land_ones, Z.mod_same by lia.
Qed.

Lemma lazy_init_ok init final k :
  0 < init → init <= final → 0 <= k <= 26 →
  ∃ lz, lazy_init init final (2 ^ k) = Ret lz ∧ lazy_inv lz ∧
    lz_final_size lz = align_to final PIN_CHUNK_SIZE.
Proof.
  intros Hi Hle Hk. unfold lazy_init. rewrite pow2_mask by lia.
  destruct (align_to_spec init) as [Hc1 Hc2], (align_to_spec final) as [Hf1 Hf2].
  set (curr := align_to init _) in *. set (fin := align_to final _) in *.
  assert (curr <= fin) as Hcf.
  { destruct Hc2 as [a Ea], Hf2 as [b Eb]. pose proof chunk_pos. assert (a <= b) by nia. nia. }
  destruct (pin_memory_chunk_ok fin 0 curr []) as [r ->]; [by apply Z.divide_0_r|done|lia|].
  cbn [py_bind]. eexists. split; [done|]. split; [|done].
  split; simpl; try done.
  - split; [apply am_inv_init; lia|done|done].
  - by exists k.
  - lia.
Qed.

(** Without a stop request the worker returns once the whole buffer is
    committed; [fuel] bounds its rounds. *)
Lemma expand_worker_ok fuel tick lz :
  lazy_inv lz → (∀ t, stop t = false) →
  lz_final_size lz - lz_curr_size lz <= Z.of_nat fuel * COMMIT_SIZE →
  ∃ lz', _expand_worker fuel tick lz = Some (Ret lz') ∧ lazy_inv lz' ∧
    lz_curr_size lz' = lz_final_size lz ∧
    tma_objs (lz_allocator lz') = tma_objs (lz_allocator lz).
Proof.
  intros Hinv Hstop. revert tick lz Hinv. induction fuel as [|fuel IH]; intros tick lz Hinv Hfuel;
    simpl; rewrite Hstop, andb_true_r; pose proof (linv_le _ Hinv).
  - destruct (Z.ltb_spec (lz_curr_size lz) (lz_final_size lz)); [lia|].
    exists lz. split_and!; [done|done|lia|done].
  - destruct (Z.ltb_spec (lz_curr_size lz) (lz_final_size lz)) as [Hlt|].
    + destruct (expand_round_ok lz Hinv Hlt) as (lz1 & -> & Hinv1 & Hf & Hc & Ho).
      destruct (IH (S tick) lz1 Hinv1) as (lz' & -> & ? & ? & ?); [rewrite Hf, Hc; pose proof commit_pos; nia|].
      exists lz'. split_and!; [done|done|congruence|congruence].
    + exists lz. split_and!; [done|done|lia|done].
Qed.

(** *** What is pinned *)

(** The byte at [x] is in a pinned chunk, or in one whose pinning was refused. *)
Definition pinned_or_refused (record : list (Z * Z)) (x : Z) : Prop :=
  ∃ offset size, offset <= x < offset + size ∧ ((offset, size) ∈ record ∨ pin_memory offset size = false).
Definition pinned_so_far (lz : LazyMemoryAllocator) : Prop := ∀ x, 0 <= x < lz_curr_size lz → pinned_or_refused (lz_pin_record lz) x.

Lemma pin_chunk_pins final offset size record record' :
  _pin_memory_chunk final offset size record = Ret record' →
  (∀ x, pinned_or_refused record x → pinned_or_refused record' x) ∧ ∀ x, offset <= x < offset + size → pinned_or_refused record' x.
Proof.
  unfold _pin_memory_chunk. destruct (negb _); [done|]. destruct (negb _); [done|]. destruct (negb _); [done|]. destruct (pin_memory offset size) eqn:E; intros [= <-].
  - split; [|intros x Hx; exists offset, size; split; [done|]; left; apply elem_of_app; right; by apply list_elem_of_singleton].
    intros x (o & s & Hx & Ho). exists o, s. split; [done|]. destruct Ho as [Ho|Ho]; [|by right]. left. apply elem_of_app. by left.
  - split; [done|]. intros x Hx. exists offset, size. split; [done|by right].
Qed.

Lemma pin_chunks_pin n curr final record p :
  pin_chunks n curr final record = Ret p →
  (∀ x, pinned_or_refused record x → pinned_or_refused p.2 x) ∧ ∀ x, curr <= x < p.1 → pinned_or_refused p.2 x.
Proof.
  revert curr record. induction n as [|n IH]; intros curr record; cbn [pin_chunks]; [intros [= <-]; split; [done|cbn; lia]|].
  destruct (Z.leb_spec final curr); [intros [= <-]; split; [done|cbn; lia]|].
  destruct (_pin_memory_chunk final curr PIN_CHUNK_SIZE record) as [r|] eqn:E; [|done]. cbn [py_bind]. intros [H1 H2]%IH. apply pin_chunk_pins in E as [H3 H4].
  split; [auto|]. intros x Hx. destruct (decide (x < curr + PIN_CHUNK_SIZE)); [apply H1, H4; lia|apply H2; lia].
Qed.

Lemma expand_round_pins lz lz' : expand_round lz = Ret lz' → pinned_so_far lz → pinned_so_far lz'.
Proof.
  unfold expand_round. destruct (pin_chunks _ _ _ _) as [p|] eqn:Ep; [|done]. cbn [py_bind]. destruct (_commit_expansion _ _) as [t|]; [|done]. cbn [py_bind].
  intros [= <-] Hp x Hx. apply pin_chunks_pin in Ep as [H1 H2]. cbn in *. destruct (decide (x < lz_curr_size lz)); [apply H1, Hp; lia|apply H2; lia].
Qed.

Lemma lazy_init_pins init final align lz : lazy_init init final align = Ret lz → pinned_so_far lz.
Proof.
  unfold lazy_init. destruct (_ || _); [done|]. destruct (_pin_memory_chunk _ _ _ _) as [r|] eqn:E; [|done]. intros [= <-] x Hx. cbn in *.
  apply pin_chunk_pins in E as [_ H2]. apply H2. lia.
Qed.

Lemma lazy_steps_pin lz lz' : rtc lazy_step lz lz' → pinned_so_far lz → pinned_so_far lz'.
Proof. induction 1 as [|x y z Hxy _ IH]; [done|]. intros Hx. apply IH. destruct Hxy as [lz t Ht|lz lz1 _ He]; [done|by eapply expand_round_pins]. Qed.

Lemma expand_worker_pins fuel tick lz lz' : _expand_worker fuel tick lz = Some (Ret lz') → pinned_so_far lz → pinned_so_far lz'.
Proof.
  revert tick lz. induction fuel as [|fuel IH]; intros tick lz; cbn [_expand_worker]; (destruct (_ && _); [|by intros [= <-]]); [done|].
  destruct (expand_round lz) as [lz1|] eqn:E; [|done]. intros Hw Hp. eapply IH; [exact Hw|]. by eapply expand_round_pins.
Qed.
End lazy.

(** ** The memory manager *)

(** The allocator behind it: the mixed allocator's pinned tensor allocator,
    or the lazy allocator. *)
Inductive l1_allocator : Type :=
  | MixedAlloc (t : TMA)
  | LazyAlloc (lz : LazyMemoryAllocator).

Record L1MemoryManager := mkL1MM {
  l1mm_allocator : l1_allocator;
  l1mm_size_in_bytes : Z;
  l1mm_align_bytes : Z
}.

Definition alloc_tma (a : l1_allocator) : TMA :=
  match a with MixedAlloc t => t | LazyAlloc lz => lz_allocator lz end.

Definition set_alloc_tma (a : l1_allocator) (t : TMA) : l1_allocator :=
  match a with MixedAlloc _ => MixedAlloc t | LazyAlloc lz => LazyAlloc (with_tma lz t) end.

Definition set_mm_tma (m : L1MemoryManager) (t : TMA) : L1MemoryManager :=
  mkL1MM (set_alloc_tma (l1mm_allocator m) t) (l1mm_size_in_bytes m) (l1mm_align_bytes m).

(** The format each allocator's [batched_allocate] defaults to. *)
Definition default_fmt (a : l1_allocator) : MemoryFormat :=
  match a with MixedAlloc _ => KV_2LTD | LazyAlloc _ => UNDEFINED end.

Definition is_pinned_fmt (fmt : MemoryFormat) : bool :=
  match fmt with
  | KV_2LTD | KV_2TD | KV_T2D | KV_MLA_FMT | EC_TD | HS_TD => true
  | _ => false
  end.

(** [MixedMemoryAllocator.batched_free]: the first object's format decides. *)
Definition mixed_batched_free (ids : list oid) (t : TMA) : py TMA :=
  match ids with
  | [] => Ret t
  | i :: _ =>
      match tma_objs t !! i with
      | None => Ret t
      | Some o =>
          match mo_fmt o with
          | BINARY_BUFFER => Ret t
          | fmt => if is_pinned_fmt fmt then tma_batched_free ids t else Raise ValueError
          end
      end
  end.

Definition alloc_batched_free (a : l1_allocator) (ids : list oid) : py TMA :=
  match a with
  | MixedAlloc t => mixed_batched_free ids t
  | LazyAlloc lz => tma_batched_free ids (lz_allocator lz)
  end.

Definition l1mm_allocate (lay : MemoryLayoutDesc) (count : Z) (m : L1MemoryManager)
    : py (L1Error * list oid * L1MemoryManager) :=
  let! r := tma_batched_allocate (shapes lay) (dtypes lay) count
              (default_fmt (l1mm_allocator m)) (alloc_tma (l1mm_allocator m)) in
  let '(objects, t) := r in
  match objects with
  | None => Ret (OUT_OF_MEMORY, [], set_mm_tma m t)
  | Some ids => Ret (SUCCESS, ids, set_mm_tma m t)
  end.

Definition l1mm_free (ids : list oid) (m : L1MemoryManager) : py L1MemoryManager :=
  let! t := alloc_batched_free (l1mm_allocator m) ids in Ret (set_mm_tma m t).

Definition l1mm_get_memory_usage (m : L1MemoryManager) : Z * Z :=
  let am := tma_am (alloc_tma (l1mm_allocator m)) in
  let free_size := get_free_size am in
  let total_size := get_heap_size am in
  (total_size - free_size, total_size).

Definition l1mm_memcheck (m : L1MemoryManager) : bool := tma_memcheck (alloc_tma (l1mm_allocator m)).

(** A client's write to an object's metadata (owner tag, used size). *)
Definition l1mm_update (i : oid) (f : MemoryObj → py MemoryObj) (m : L1MemoryManager)
    : py L1MemoryManager :=
  let t := alloc_tma (l1mm_allocator m) in
  match tma_objs t !! i with
  | None => Ret m
  | Some o => let! o' := f o in Ret (set_mm_tma m (update_obj i o' t))
  end.

(** ** The interface the L1 manager uses *)

Class L1MemoryManagerProtocol (M : Type) := {
  mm_objs : M → gmap oid MemoryObj;
  mm_allocate : MemoryLayoutDesc → Z → M → py (L1Error * list oid * M);
  mm_free : list oid → M → py M;
  mm_get_memory_usage : M → Z * Z;
  mm_memcheck : M → bool;
  mm_update : oid → (MemoryObj → py MemoryObj) → M → py M
}.

(** The object at [i] is allocated and not freed. *)
Definition mm_live {M} `{L1MemoryManagerProtocol M} (m : M) (i : oid) : Prop :=
  ∃ o, mm_objs m !! i = Some o ∧ mo_valid o = true.

Definition layout_bytes (lay : MemoryLayoutDesc) : py Z := get_size_bytes (shapes lay) (dtypes lay).

(** A layout whose objects take memory. *)
Definition layout_ok (lay : MemoryLayoutDesc) : Prop :=
  ∃ raw, layout_bytes lay = Ret raw ∧ 0 < raw.

Class L1MemoryLaws (M : Type) `{L1MemoryManagerProtocol M} := {
  mm_inv : M → Prop;
  (** what the memory manager does on its own, besides serving calls *)
  mm_env : M → M → Prop;
  mm_env_ok m m' : mm_inv m → mm_env m m' → mm_inv m' ∧ mm_objs m' = mm_objs m;
  mm_allocate_ok lay n m :
    mm_inv m → layout_ok lay →
    match mm_allocate lay (Z.of_nat n) m with
    | Ret (SUCCESS, ids, m') =>
        mm_inv m' ∧ length ids = n ∧ NoDup ids ∧
        (∀ i, i ∈ ids → mm_objs m !! i = None ∧ ∃ o, mm_objs m' !! i = Some o ∧
           mo_valid o = true ∧ layout_bytes lay = Ret (get_size o) ∧ mo_l1_manager o = None) ∧
        (∀ i, i ∉ ids → mm_objs m' !! i = mm_objs m !! i)
    | Ret (OUT_OF_MEMORY, ids, m') => ids = [] ∧ m' = m
    | _ => False
    end;
  mm_free_ok ids m :
    mm_inv m → (∀ i, i ∈ ids → is_Some (mm_objs m !! i)) →
    ∃ m', mm_free ids m = Ret m' ∧ mm_inv m' ∧
      ∀ i, mm_objs m' !! i = if decide (i ∈ ids) then invalidate <$> mm_objs m !! i else mm_objs m !! i;
  mm_update_ok i f o o' m :
    mm_inv m → mm_objs m !! i = Some o → f o = Ret o' →
    mo_valid o' = mo_valid o → mo_address o' = mo_address o → mo_phy_size o' = mo_phy_size o →
    mo_fmt o' = mo_fmt o →
    ∃ m', mm_update i f m = Ret m' ∧ mm_inv m' ∧ mm_objs m' = <[i := o']> (mm_objs m);
  mm_update_raise i f o m :
    mm_objs m !! i = Some o → (∀ o', f o ≠ Ret o') → ∀ m', mm_update i f m ≠ Ret m';
  mm_memcheck_ok m : mm_inv m → mm_memcheck m = true;
  mm_usage_ok m :
    mm_inv m →
    mm_get_memory_usage m =
      (zsum snd (regions (mm_objs m)), (mm_get_memory_usage m).2) ∧
    0 <= (mm_get_memory_usage m).1 <= (mm_get_memory_usage m).2
}.

#[export] Instance l1mm_protocol : L1MemoryManagerProtocol L1MemoryManager := {|
  mm_objs := λ m, tma_objs (alloc_tma (l1mm_allocator m));
  mm_allocate := l1mm_allocate;
  mm_free := l1mm_free;
  mm_get_memory_usage := l1mm_get_memory_usage;
  mm_memcheck := l1mm_memcheck;
  mm_update := l1mm_update
|}.

(** ** The memory manager implements the interface *)

Definition l1mm_inv (m : L1MemoryManager) : Prop :=
  match l1mm_allocator m with
  | MixedAlloc t =>
      tma_inv t ∧ ∀ i o, tma_objs t !! i = Some o → is_pinned_fmt (mo_fmt o) = true
  | LazyAlloc lz => lazy_inv lz
  end.

Lemma l1mm_inv_tma m : l1mm_inv m → tma_inv (alloc_tma (l1mm_allocator m)).
Proof. unfold l1mm_inv. destruct (l1mm_allocator m); simpl; [tauto|]. by intros [? _]. Qed.

Lemma alloc_tma_set a t : alloc_tma (set_alloc_tma a t) = t.
Proof. by destruct a. Qed.

(** A change of the tensor allocator that keeps its invariant, its heap and
    the formats keeps the manager's. *)
Lemma l1mm_inv_set m t :
  l1mm_inv m → tma_inv t → same_heap (alloc_tma (l1mm_allocator m)) t →
  (∀ i o, tma_objs t !! i = Some o →
     mo_fmt o = default_fmt (l1mm_allocator m) ∨
     ∃ o0, tma_objs (alloc_tma (l1mm_allocator m)) !! i = Some o0 ∧ mo_fmt o = mo_fmt o0) →
  l1mm_inv (set_mm_tma m t).
Proof.
  unfold l1mm_inv. destruct m as [[t0|lz] sz al]; simpl.
  - intros [_ Hf] Ht _ Hfmt. split; [done|]. intros i o Hi.
    destruct (Hfmt i o Hi) as [->|(o0 & Hi0 & ->)]; [done|by eapply Hf].
  - intros [H1 H2 H3 H4 H5 H6] Ht [Hs Ha] _. unfold get_heap_size in *. split; simpl; try done.
    + unfold get_heap_size. congruence.
    + destruct H3 as (k & ? & ?). exists k. split; [done|congruence].
Qed.

Lemma invalidate_fmt o : mo_fmt (invalidate o) = mo_fmt o.
Proof. done. Qed.

(** The background expansion, with any device. *)
Definition l1mm_env (m m' : L1MemoryManager) : Prop :=
  ∃ lz pin_memory lz', l1mm_allocator m = LazyAlloc lz ∧ lz_curr_size lz < lz_final_size lz ∧
    expand_round pin_memory lz = Ret lz' ∧
    m' = mkL1MM (LazyAlloc lz') (l1mm_size_in_bytes m) (l1mm_align_bytes m).

Lemma l1mm_env_ok m m' :
  l1mm_inv m → l1mm_env m m' → l1mm_inv m' ∧ mm_objs m' = mm_objs m.
Proof.
  intros Hinv (lz & pin_memory & lz' & Ea & Hlt & He & ->). simpl. unfold l1mm_inv in *. rewrite Ea in *. simpl.
  destruct (expand_round_ok pin_memory lz Hinv Hlt) as (lz1 & E & ? & _ & _ & ?).
  rewrite E in He. by simplify_eq.
Qed.

Lemma new_objs_fields addrs phy lay fmt objs next ids objs' next' i :
  new_objs addrs phy lay fmt objs next = (ids, objs', next') →
  objs' !! i = objs !! i ∨ ∃ a, objs' !! i = Some (fresh_obj a phy lay fmt).
Proof.
  revert objs next ids. induction addrs as [|a addrs IH]; intros objs next ids; simpl.
  - intros [= <- <- <-]. by left.
  - destruct (new_objs addrs phy lay fmt _ (S next)) as [[ids1 objs1] next1] eqn:E.
    intros [= <- <- <-]. destruct (IH _ _ _ E) as [->|?]; [|by right].
    destruct (decide (i = next)) as [->|]; [right; exists a; apply lookup_insert_eq|].
    left. by apply lookup_insert_ne.
Qed.

(** Every object a batched allocation leaves in the store was there before,
    or is new, of the requested format and without an owner. *)
Lemma batched_allocate_fields sh dt n fmt t r t' i o :
  tma_batched_allocate sh dt n fmt t = Ret (r, t') → tma_objs t' !! i = Some o →
  tma_objs t !! i = Some o ∨ mo_fmt o = fmt ∧ mo_l1_manager o = None.
Proof.
  unfold tma_batched_allocate. destruct (get_size_bytes sh dt) as [raw|]; [|done]. simpl.
  destruct (am_batched_allocate _ _ _) as [[rs am']|[]]; [|intros; simplify_eq; by left..].
  destruct (new_objs _ _ _ _ _ _) as [[ids objs'] next'] eqn:E. intros [= <- <-]. simpl.
  destruct (new_objs_fields _ _ _ _ _ _ _ _ _ i E) as [->|[a ->]]; [by left|].
  intros [= <-]. by right.
Qed.

Lemma l1mm_allocate_ok lay n m :
  l1mm_inv m → layout_ok lay →
  match l1mm_allocate lay (Z.of_nat n) m with
  | Ret (SUCCESS, ids, m') =>
      l1mm_inv m' ∧ length ids = n ∧ NoDup ids ∧
      (∀ i, i ∈ ids → mm_objs m !! i = None ∧ ∃ o, mm_objs m' !! i = Some o ∧
         mo_valid o = true ∧ layout_bytes lay = Ret (get_size o) ∧ mo_l1_manager o = None) ∧
      (∀ i, i ∉ ids → mm_objs m' !! i = mm_objs m !! i)
  | Ret (OUT_OF_MEMORY, ids, m') => ids = [] ∧ m' = m
  | _ => False
  end.
Proof.
  intros Hinv (raw & Hlay & Hraw). unfold l1mm_allocate.
  pose proof (l1mm_inv_tma _ Hinv) as Ht. set (t := alloc_tma _) in *.
  pose proof (tma_batched_allocate_ok _ _ n (default_fmt (l1mm_allocator m)) t raw Ht Hlay Hraw) as Hok.
  destruct (tma_batched_allocate _ _ _ _ t) as [[[ids|] t']|] eqn:E; simpl; [| |done].
  - destruct Hok as (Ht' & Hlen & Hnd & Hin & Hout). rewrite alloc_tma_set. fold t. split_and!; try done.
    + apply l1mm_inv_set; [done|done|by eapply tma_batched_heap|].
      intros i o Hi. destruct (batched_allocate_fields _ _ _ _ _ _ _ _ _ E Hi) as [?|[? _]]; [right; eauto|by left].
    + intros i Hi. destruct (Hin i Hi) as (Hn & o & Ho & Hv & Hs & _). split; [done|].
      exists o. split_and!; [done|done|by rewrite Hs|].
      destruct (batched_allocate_fields _ _ _ _ _ _ _ _ _ E Ho) as [|[_ ?]]; [congruence|done].
  - subst t'. split; [done|]. by destruct m as [[?|[]] ? ?].
Qed.

Lemma batched_free_alloc m ids :
  l1mm_inv m → (∀ i, i ∈ ids → is_Some (mm_objs m !! i)) →
  ∃ t', alloc_batched_free (l1mm_allocator m) ids = Ret t' ∧ tma_inv t' ∧
    tma_objs t' = invalidate_all ids (tma_objs (alloc_tma (l1mm_allocator m))) ∧
    same_heap (alloc_tma (l1mm_allocator m)) t'.
Proof.
  intros Hinv Hids. destruct (tma_batched_free_ok ids _ (l1mm_inv_tma _ Hinv)) as (t' & E & Ht' & _ & Ho & Hh).
  exists t'. split; [|done]. unfold l1mm_inv in Hinv. simpl in Hids.
  destruct (l1mm_allocator m) as [t|lz]; simpl in *; [|done]. destruct Hinv as [Ht Hf].
  unfold mixed_batched_free. destruct ids as [|i ids]; [by simpl in E|].
  destruct (Hids i ltac:(left)) as [o Hi]. rewrite Hi.
  specialize (Hf i o Hi). destruct (mo_fmt o); simpl in Hf; done.
Qed.

Lemma l1mm_free_ok ids m :
  l1mm_inv m → (∀ i, i ∈ ids → is_Some (mm_objs m !! i)) →
  ∃ m', l1mm_free ids m = Ret m' ∧ l1mm_inv m' ∧
    ∀ i, mm_objs m' !! i = if decide (i ∈ ids) then invalidate <$> mm_objs m !! i else mm_objs m !! i.
Proof.
  intros Hinv Hids. destruct (batched_free_alloc m ids Hinv Hids) as (t' & E & Ht' & Ho & Hh).
  unfold l1mm_free. rewrite E. simpl. eexists. split; [done|]. split.
  - apply l1mm_inv_set; [done..|]. intros i o Hi. right. rewrite Ho, lookup_invalidate_all in Hi.
    case_decide; [|eauto]. destruct (tma_objs _ !! i) as [o0|]; [|done]. simplify_eq/=. by exists o0.
  - intros i. simpl. rewrite alloc_tma_set, Ho. apply lookup_invalidate_all.
Qed.

Lemma l1mm_update_ok i f o o' m :
  l1mm_inv m → mm_objs m !! i = Some o → f o = Ret o' →
  mo_valid o' = mo_valid o → mo_address o' = mo_address o → mo_phy_size o' = mo_phy_size o →
  mo_fmt o' = mo_fmt o →
  ∃ m', l1mm_update i f m = Ret m' ∧ l1mm_inv m' ∧ mm_objs m' = <[i := o']> (mm_objs m).
Proof.
  intros Hinv Hi Hf Hv Ha Hp Hfmt. unfold l1mm_update. simpl in Hi. rewrite Hi, Hf. simpl.
  eexists. split; [done|]. split; [|simpl; by rewrite alloc_tma_set]. apply l1mm_inv_set; [done| |done|].
  - eapply update_obj_inv; [by apply l1mm_inv_tma|done|]. unfold obj_regions, region. by rewrite Hv, Ha, Hp.
  - intros j oj. simpl. destruct (decide (j = i)) as [->|].
    + rewrite lookup_insert_eq. intros [= <-]. right. by exists o.
    + rewrite lookup_insert_ne by done. eauto.
Qed.

Lemma l1mm_update_raise i f o m :
  mm_objs m !! i = Some o → (∀ o', f o ≠ Ret o') → ∀ m', l1mm_update i f m ≠ Ret m'.
Proof.
  intros Hi Hf m'. unfold l1mm_update. simpl in Hi. rewrite Hi.
  destruct (f o) as [o'|] eqn:E; [|done]. by destruct (Hf o').
Qed.

Lemma l1mm_usage_ok m :
  l1mm_inv m →
  l1mm_get_memory_usage m = (zsum snd (regions (mm_objs m)), (l1mm_get_memory_usage m).2) ∧
  0 <= (l1mm_get_memory_usage m).1 <= (l1mm_get_memory_usage m).2.
Proof.
  intros Hinv%l1mm_inv_tma. unfold l1mm_get_memory_usage, get_free_size, get_heap_size. simpl.
  set (t := alloc_tma _) in *. destruct (tinv_am _ Hinv) as [[Hc Hw _] Hs _ _ Hpos Htot].
  pose proof (zsum_nonneg snd (regions (tma_objs t)) ltac:(intros r Hr; specialize (Hpos r Hr); lia)).
  pose proof (λ Hp, chain_zsum _ _ _ Hp Hc) as Hz. specialize (Hz ltac:(lia)). split; [f_equal; lia|lia].
Qed.

Lemma l1mm_memcheck_ok m : l1mm_inv m → l1mm_memcheck m = true.
Proof.
  intros Hinv%l1mm_inv_tma. unfold l1mm_memcheck, tma_memcheck, get_free_size, get_heap_size.
  rewrite check_consistency_ok by apply (tinv_am _ Hinv). apply andb_true_intro. split; [lia|done].
Qed.

#[export] Instance l1mm_laws : L1MemoryLaws L1MemoryManager := {|
  mm_inv := l1mm_inv;
  mm_env := l1mm_env;
  mm_env_ok := l1mm_env_ok;
  mm_allocate_ok := l1mm_allocate_ok;
  mm_free_ok := l1mm_free_ok;
  mm_update_ok := l1mm_update_ok;
  mm_update_raise := l1mm_update_raise;
  mm_memcheck_ok := l1mm_memcheck_ok;
  mm_usage_ok := l1mm_usage_ok
|}.

(** ** Properties *)

(** C38: the background expansion of the lazy allocator terminates with the
    whole buffer committed: with an alignment of at most 64 MiB (2^26), from any
    reachable state of the allocator, and without a stop request or clients in
    between, the worker returns after at most [(final - current) / 1 GiB + 1]
    rounds; the heap then ends exactly at the end of the buffer, every byte of
    it is in a pinned chunk, or in one that the device refused to pin, no object
    moved, and the allocator's check passes. *)
Theorem lazy_expansion_completes pin_memory stop tick init final k lz lz0 fuel :
  0 < init → init <= final → 0 <= k <= 26 → lazy_init pin_memory init final (2 ^ k) = Ret lz0 →
  rtc (lazy_step pin_memory) lz0 lz → (∀ t, stop t = false) →
  lz_final_size lz - lz_curr_size lz <= Z.of_nat fuel * COMMIT_SIZE →
  ∃ lz', _expand_worker pin_memory stop fuel tick lz = Some (Ret lz') ∧
    get_heap_size (tma_am (lz_allocator lz')) = lz_final_size lz ∧
    (∀ x, 0 <= x < lz_final_size lz → pinned_or_refused pin_memory (lz_pin_record lz') x) ∧
    tma_objs (lz_allocator lz') = tma_objs (lz_allocator lz) ∧
    tma_memcheck (lz_allocator lz') = true.
Proof.
  intros Hi Hle Hk Hinit Hr Hstop Hfuel.
  assert (lazy_inv lz) as Hinv.
  { destruct (lazy_init_ok pin_memory init final k Hi Hle Hk) as (lz1 & E & Hinv0 & _).
    rewrite E in Hinit. simplify_eq. clear -Hr Hinv0.
    revert lz Hr. apply (rtc_ind_r lazy_inv); [done|]. intros; by eapply lazy_step_inv. }
  destruct (expand_worker_ok pin_memory stop fuel tick lz Hinv Hstop Hfuel) as (lz' & E & Hinv' & Hc & Ho).
  exists lz'. split_and!; [done|by rewrite (linv_heap _ Hinv')| |done|].
  { rewrite <-Hc. eapply expand_worker_pins; [exact E|]. eapply lazy_steps_pin; [exact Hr|]. by eapply lazy_init_pins. }
  apply (l1mm_memcheck_ok (mkL1MM (LazyAlloc lz') 0 0) Hinv').
Qed.

Lemma lazy_expansion_completes_witness :
  ∃ lz0 lz', lazy_init (λ _ _, true) (2 ^ 26) (2 ^ 32) (2 ^ 12) = Ret lz0 ∧
    _expand_worker (λ _ _, true) (λ _, false) 4 0 lz0 = Some (Ret lz') ∧
    get_heap_size (tma_am (lz_allocator lz')) = 2 ^ 32.
Proof.
  destruct (lazy_init (λ _ _, true) (2 ^ 26) (2 ^ 32) (2 ^ 12)) as [lz0|] eqn:E; [|discriminate E].
  destruct (lazy_expansion_completes (λ _ _, true) (λ _, false) 0 (2 ^ 26) (2 ^ 32) 12 lz0 lz0 4)
    as (lz' & H1 & H2 & _); [lia|lia|lia|exact E|apply rtc_refl|reflexivity| |].
  - injection E as <-. vm_compute. discriminate.
  - exists lz0, lz'. split; [reflexivity|]. split; [exact H1|]. rewrite H2. injection E as <-. reflexivity.
Defined.
