(* ===== verification/L1Manager.v ===== *)
(** * The L1 manager

    [BaseL1Manager] (lmcache/v1/distributed/l1_manager/base.py): the object
    lifecycle state machine. Resident objects ([_objects]) are readable and
    carry a read lock; staging objects ([_staging], by key and writer tag) are
    being written and carry a write lock. Every public method runs under the
    manager's lock, so a history of the manager is a sequence of calls.

    A call is a function on the manager's state that returns a value or
    raises ([L1M]). Each [lock()] and [is_locked()] reads the clock, so the
    state counts the readings made ([l1_tick]) and the readings are a parameter
    [clock], the [i]-th reading being [clock i]. What the registered listeners
    are told and what is published on the event bus is appended to [l1_log]
    (every listener is told the same, in the same order).

    The memory manager is used through [L1MemoryManagerProtocol]; nothing here
    depends on which allocator is behind it. *)

From stdpp Require Import gmap strings list relations.
From Stdlib Require Import ZArith Lia.
From S2P Require Import Prelude TTLLock TensorAllocator Keys L1Memory.

Open Scope Z_scope.

(** ** Data *)

Definition MAX_READ_LOCK_COUNT : Z := 128.

Definition validate_read_locks (read_locks : Z) : Z :=
  if read_locks <? 1 then 1
  else if MAX_READ_LOCK_COUNT <? read_locks then MAX_READ_LOCK_COUNT
  else read_locks.

Record L1ObjectState := mkEntry {
  memory_obj : oid;
  write_lock : TTLLock;
  read_lock : TTLLock;
  is_temporary : bool;
  staging_charge : Z
}.

Definition with_read_lock (l : TTLLock) (e : L1ObjectState) : L1ObjectState :=
  mkEntry (memory_obj e) (write_lock e) l (is_temporary e) (staging_charge e).
Definition with_write_lock (l : TTLLock) (e : L1ObjectState) : L1ObjectState :=
  mkEntry (memory_obj e) l (read_lock e) (is_temporary e) (staging_charge e).
Definition with_temporary (b : bool) (e : L1ObjectState) : L1ObjectState :=
  mkEntry (memory_obj e) (write_lock e) (read_lock e) b (staging_charge e).
Definition with_charge (n : Z) (e : L1ObjectState) : L1ObjectState :=
  mkEntry (memory_obj e) (write_lock e) (read_lock e) (is_temporary e) n.

(** The methods of [L1ManagerListener]. *)
Inductive l1_callback : Type :=
  | on_l1_keys_reserved_read | on_l1_keys_read_finished | on_l1_keys_reserved_write
  | on_l1_keys_write_finished | on_l1_keys_finish_write_and_reserve_read
  | on_l1_keys_deleted_by_manager | on_l1_keys_accessed.

Inductive l1_event_type : Type :=
  | L1_READ_RESERVED | L1_READ_FINISHED | L1_WRITE_RESERVED | L1_WRITE_FINISHED
  | L1_WRITE_FINISHED_AND_READ_RESERVED | L1_KEYS_EVICTED | L1_KEYS_ACCESSED.

(** A listener callback, or a published event with the sizes of its [meta]. *)
Inductive l1_event : Type :=
  | Notify (cb : l1_callback) (keys : list ObjectKey)
  | Publish (ty : l1_event_type) (keys : list ObjectKey) (meta : list Z).

Record L1 (M : Type) := mkL1 {
  l1_objects : dict ObjectKey L1ObjectState;
  l1_staging : dict ObjectKey (dict string L1ObjectState);
  l1_staging_bytes : Z;
  l1_mm : M;
  l1_log : list l1_event;
  l1_tick : nat
}.
Arguments mkL1 {M}.
Arguments l1_objects {M}.
Arguments l1_staging {M}.
Arguments l1_staging_bytes {M}.
Arguments l1_mm {M}.
Arguments l1_log {M}.
Arguments l1_tick {M}.

(** *** The staging table: key, then writer tag *)

Section staging.
Context {E : Type}.
Abbreviation table := (list (ObjectKey * list (string * E))).

Definition staging_get (key : ObjectKey) (tag : string) (stg : table) : option E :=
  match dget key stg with None => None | Some per_tag => dget tag per_tag end.

(** [staging.setdefault(key, {})[tag] = e]. *)
Definition staging_set (key : ObjectKey) (tag : string) (e : E) (stg : table) : table :=
  dset key (dset tag e (default [] (dget key stg))) stg.

(** [per_tag.pop(tag)], dropping the key with its last tag. *)
Definition staging_del (key : ObjectKey) (tag : string) (stg : table) : table :=
  match ddel tag (default [] (dget key stg)) with
  | [] => ddel key stg
  | per_tag' => dset key per_tag' stg
  end.

Definition staged_values (stg : table) : list E := dvalues stg ≫= dvalues.
End staging.

(** [Option[MemoryObj]] with an error code. *)
Definition L1OperationResult : Type := L1Error * option oid.

(** ** Calls *)

Definition L1M (M A : Type) : Type := L1 M → py A * L1 M.

Definition ret {M A} (a : A) : L1M M A := λ s, (Ret a, s).
Definition raise {M A} (e : exn) : L1M M A := λ s, (Raise e, s).
Definition bind {M A B} (c : L1M M A) (k : A → L1M M B) : L1M M B :=
  λ s, match c s with (Ret a, s') => k a s' | (Raise e, s') => (Raise e, s') end.
Definition get {M} : L1M M (L1 M) := λ s, (Ret s, s).

Declare Scope l1_scope.
Delimit Scope l1_scope with l1.
Notation "'let*' x := c 'in' k" := (bind c (λ x, k))
  (at level 10, x binder, c at level 100, k at level 200) : l1_scope.
Open Scope l1_scope.

Section l1_manager.
Context {M : Type} `{L1MemoryManagerProtocol M}.
(** the clock's readings, in milliseconds, and the configuration *)
Context (clock : nat → Z) (write_ttl_seconds read_ttl_seconds l1_manager_id : Z).

#[local] Abbreviation L1 := (L1 M).
#[local] Abbreviation L1M := (L1M M).

(** *** State access *)

Definition put_objects (o : dict ObjectKey L1ObjectState) : L1M unit :=
  λ s, (Ret tt, mkL1 o (l1_staging s) (l1_staging_bytes s) (l1_mm s) (l1_log s) (l1_tick s)).
Definition put_staging (stg : dict ObjectKey (dict string L1ObjectState)) (bytes : Z) : L1M unit :=
  λ s, (Ret tt, mkL1 (l1_objects s) stg bytes (l1_mm s) (l1_log s) (l1_tick s)).
Definition put_mm (m : M) : L1M unit :=
  λ s, (Ret tt, mkL1 (l1_objects s) (l1_staging s) (l1_staging_bytes s) m (l1_log s) (l1_tick s)).
Definition emit (ev : list l1_event) : L1M unit :=
  λ s, (Ret tt, mkL1 (l1_objects s) (l1_staging s) (l1_staging_bytes s) (l1_mm s)
                  (l1_log s ++ ev) (l1_tick s)).

(** [n] clock readings. *)
Definition now_n (n : nat) : L1M (list Z) :=
  λ s, (Ret (clock <$> seq (l1_tick s) n),
        mkL1 (l1_objects s) (l1_staging s) (l1_staging_bytes s) (l1_mm s) (l1_log s)
          (l1_tick s + n)).
Definition now : L1M Z := let* ts := now_n 1 in ret (hd 0 ts).

Definition free_objs (ids : list oid) : L1M unit :=
  let* s := get in
  match mm_free ids (l1_mm s) with Ret m => put_mm m | Raise e => raise e end.

Definition obj_size (s : L1) (i : oid) : Z :=
  match mm_objs (l1_mm s) !! i with Some o => get_size o | None => 0 end.

(** *** Private helpers *)

Definition _get_staging (key : ObjectKey) (tag : string) (s : L1) : option L1ObjectState :=
  staging_get key tag (l1_staging s).

Definition _put_staging (key : ObjectKey) (tag : string) (entry : L1ObjectState) : L1M unit :=
  let* s := get in
  let charge := obj_size s (memory_obj entry) in
  put_staging (staging_set key tag (with_charge charge entry) (l1_staging s))
    (l1_staging_bytes s + charge).

Definition _pop_staging (key : ObjectKey) (tag : string) : L1M L1ObjectState :=
  let* s := get in
  match staging_get key tag (l1_staging s) with
  | None => raise KeyError
  | Some entry =>
      let* _ := put_staging (staging_del key tag (l1_staging s))
                  (l1_staging_bytes s - staging_charge entry) in
      ret (with_charge 0 entry)
  end.

(** A staged entry that was changed in place. *)
Definition update_staging (key : ObjectKey) (tag : string) (entry : L1ObjectState) : L1M unit :=
  let* s := get in
  put_staging (staging_set key tag entry (l1_staging s)) (l1_staging_bytes s).

Definition _take_staging (key : ObjectKey) (tag : string) : L1M (L1Error * option L1ObjectState) :=
  let* s := get in
  match _get_staging key tag s with
  | None => ret (KEY_NOT_EXIST, None)
  | Some staged =>
      let* t := now in
      if negb (is_locked t (write_lock staged)) then ret (KEY_IN_WRONG_STATE, None)
      else
        let* _ := update_staging key tag (with_write_lock (unlock (write_lock staged)) staged) in
        let* entry := _pop_staging key tag in
        ret (SUCCESS, Some entry)
  end.

Fixpoint reclaim_loop (key : ObjectKey) (force : bool) (items : list (string * L1ObjectState))
    (freed : list oid) : L1M (list oid) :=
  match items with
  | [] => ret freed
  | (tag, staged) :: items' =>
      let* t := now in
      if is_locked t (write_lock staged) && negb force then reclaim_loop key force items' freed
      else
        let* entry := _pop_staging key tag in
        reclaim_loop key force items' (freed ++ [memory_obj entry])
  end.

Definition _reclaim_staging (key : ObjectKey) (force : bool) : L1M Z :=
  let* s := get in
  match dget key (l1_staging s) with
  | None => ret 0
  | Some per_tag =>
      let* freed := reclaim_loop key force per_tag [] in
      let* _ := free_objs freed in
      ret (Z.of_nat (length freed))
  end.

Definition _report_read_reserved (keys : list ObjectKey) : L1M unit :=
  emit [Notify on_l1_keys_reserved_read keys; Publish L1_READ_RESERVED keys []].

Definition _report_staging_gone (keys : list ObjectKey) : L1M unit :=
  match keys with [] => ret tt | _ => emit [Notify on_l1_keys_deleted_by_manager keys] end.

Definition _free_and_report_deleted (keys : list ObjectKey) (objs : list oid) : L1M unit :=
  let* s := get in
  let freed_meta := obj_size s <$> objs in
  let* _ := free_objs objs in
  emit [Notify on_l1_keys_deleted_by_manager keys; Publish L1_KEYS_EVICTED keys freed_meta].

(** *** Reads *)

Fixpoint reserve_read_loop (total : nat) (keys : list ObjectKey)
    (ret_ : dict ObjectKey L1OperationResult) (successful : list ObjectKey)
    : L1M (dict ObjectKey L1OperationResult * list ObjectKey) :=
  match keys with
  | [] => ret (ret_, successful)
  | key :: keys' =>
      let* s := get in
      match dget key (l1_objects s) with
      | None => reserve_read_loop total keys' (dset key (KEY_NOT_EXIST, None) ret_) successful
      | Some entry =>
          let* ts := now_n total in
          let* _ := put_objects (dset key (with_read_lock (lock_n ts (read_lock entry)) entry)
                                   (l1_objects s)) in
          reserve_read_loop total keys' (dset key (SUCCESS, Some (memory_obj entry)) ret_)
            (successful ++ [key])
      end
  end.

Definition reserve_read (keys : list ObjectKey) (read_locks : Z)
    : L1M (dict ObjectKey L1OperationResult) :=
  let total := Z.to_nat (validate_read_locks read_locks) in
  let* r := reserve_read_loop total keys [] [] in
  let* _ := _report_read_reserved r.2 in
  ret r.1.

Fixpoint unsafe_read_loop (keys : list ObjectKey) (ret_ : dict ObjectKey L1OperationResult)
    : L1M (dict ObjectKey L1OperationResult) :=
  match keys with
  | [] => ret ret_
  | key :: keys' =>
      let* s := get in
      match dget key (l1_objects s) with
      | None => unsafe_read_loop keys' (dset key (KEY_NOT_EXIST, None) ret_)
      | Some entry =>
          let* t := now in
          if negb (is_locked t (read_lock entry))
          then unsafe_read_loop keys' (dset key (KEY_NOT_READABLE, None) ret_)
          else unsafe_read_loop keys' (dset key (SUCCESS, Some (memory_obj entry)) ret_)
      end
  end.

Definition unsafe_read (keys : list ObjectKey) : L1M (dict ObjectKey L1OperationResult) :=
  unsafe_read_loop keys [].

(** The accumulators of [finish_read]: results, successful keys, keys and
    objects to free. *)
Record fr_acc := mkFR {
  fr_ret : dict ObjectKey L1Error;
  fr_successful : list ObjectKey;
  fr_free_keys : list ObjectKey;
  fr_free : list oid
}.

Fixpoint finish_read_loop (total : nat) (keys : list ObjectKey) (acc : fr_acc) : L1M fr_acc :=
  match keys with
  | [] => ret acc
  | key :: keys' =>
      let '(mkFR r ok fk f) := acc in
      let* s := get in
      match dget key (l1_objects s) with
      | None => finish_read_loop total keys' (mkFR (dset key KEY_NOT_EXIST r) ok fk f)
      | Some entry =>
          let* t := now in
          if negb (is_locked t (read_lock entry))
          then finish_read_loop total keys' (mkFR (dset key KEY_IN_WRONG_STATE r) ok fk f)
          else
            let entry' := with_read_lock (unlock_n total (read_lock entry)) entry in
            let* gone := if is_temporary entry'
                         then let* t' := now in ret (negb (is_locked t' (read_lock entry')))
                         else ret false in
            if gone : bool then
              let* _ := put_objects (ddel key (l1_objects s)) in
              finish_read_loop total keys'
                (mkFR (dset key SUCCESS r) (ok ++ [key]) (fk ++ [key]) (f ++ [memory_obj entry]))
            else
              let* _ := put_objects (dset key entry' (l1_objects s)) in
              finish_read_loop total keys' (mkFR (dset key SUCCESS r) (ok ++ [key]) fk f)
      end
  end.

Definition finish_read (keys : list ObjectKey) (read_locks : Z) : L1M (dict ObjectKey L1Error) :=
  let total := Z.to_nat (validate_read_locks read_locks) in
  let* acc := finish_read_loop total keys (mkFR [] [] [] []) in
  let* s := get in
  let freed_meta := obj_size s <$> fr_free acc in
  let* _ := free_objs (fr_free acc) in
  let* _ := emit [Notify on_l1_keys_read_finished (fr_successful acc);
                  Notify on_l1_keys_deleted_by_manager (fr_free_keys acc);
                  Publish L1_READ_FINISHED (fr_successful acc) [];
                  Publish L1_KEYS_EVICTED (fr_free_keys acc) freed_meta] in
  ret (fr_ret acc).

(** *** Writes *)

(** The first loop: results, successful keys and the keys to allocate for. *)
Fixpoint reserve_write_scan (tag : string) (items : list (ObjectKey * bool))
    (r : dict ObjectKey L1OperationResult) (ok : list ObjectKey) (need : list (ObjectKey * bool))
    : L1M (dict ObjectKey L1OperationResult * list ObjectKey * list (ObjectKey * bool)) :=
  match items with
  | [] => ret (r, ok, need)
  | (key, is_temp) :: items' =>
      let* s := get in
      if dmem key (l1_objects s)
      then reserve_write_scan tag items' (dset key (KEY_NOT_WRITABLE, None) r) ok need
      else
        match _get_staging key tag s with
        | None => reserve_write_scan tag items' r ok (need ++ [(key, is_temp)])
        | Some staged =>
            let* t := now in
            if is_locked t (write_lock staged)
            then reserve_write_scan tag items' (dset key (KEY_NOT_WRITABLE, None) r) ok need
            else
              let* t' := now in
              let* _ := update_staging key tag
                          (with_temporary is_temp
                             (with_write_lock (lock t' (write_lock staged)) staged)) in
              reserve_write_scan tag items'
                (dset key (SUCCESS, Some (memory_obj staged)) r) (ok ++ [key]) need
        end
  end.

(** The loop over the freshly allocated objects ([zip(..., strict=True)]). *)
Fixpoint reserve_write_fill (tag : string) (need : list (ObjectKey * bool)) (ids : list oid)
    (r : dict ObjectKey L1OperationResult) (ok : list ObjectKey)
    : L1M (dict ObjectKey L1OperationResult * list ObjectKey) :=
  match need, ids with
  | [], [] => ret (r, ok)
  | (key, is_temp) :: need', i :: ids' =>
      let* s := get in
      let* _ := match mm_update i (set_l1_manager l1_manager_id) (l1_mm s) with
                | Ret m => put_mm m | Raise e => raise e end in
      let* t := now in
      let entry := mkEntry i (lock t (new_lock write_ttl_seconds)) (new_lock read_ttl_seconds)
                     is_temp 0 in
      let* _ := _put_staging key tag entry in
      reserve_write_fill tag need' ids' (dset key (SUCCESS, Some i) r) (ok ++ [key])
  | _, _ => raise ValueError
  end.

Definition reserve_write (keys : list ObjectKey) (is_temporary : list bool)
    (layout_desc : MemoryLayoutDesc) (tag : string) : L1M (dict ObjectKey L1OperationResult) :=
  if negb (length keys =? length is_temporary)%nat then raise ValueError
  else
    let* scan := reserve_write_scan tag (zip keys is_temporary) [] [] [] in
    let '(r, ok, need) := scan in
    match need with
    | [] => ret r
    | _ =>
        let* s := get in
        let* res := match mm_allocate layout_desc (Z.of_nat (length need)) (l1_mm s) with
                    | Ret (err, ids, m) => let* _ := put_mm m in ret (err, ids)
                    | Raise e => raise e end in
        let '(err, ids) := res in
        let* out :=
          if negb (bool_decide (err = SUCCESS)) then
            let r' := foldl (λ r p, dset p.1 (OUT_OF_MEMORY, None) r) r need in
            let* _ := match ids with [] => ret tt | _ => free_objs ids end in
            ret (r', ok)
          else reserve_write_fill tag need ids r ok in
        let* _ := emit [Notify on_l1_keys_reserved_write out.2; Publish L1_WRITE_RESERVED out.2 []] in
        ret out.1
    end.

Record fw_acc := mkFW {
  fw_ret : dict ObjectKey L1Error;
  fw_notify : list ObjectKey;
  fw_meta : list Z;
  fw_discarded : list oid
}.

Fixpoint finish_write_loop (tag : string) (keys : list ObjectKey) (acc : fw_acc) : L1M fw_acc :=
  match keys with
  | [] => ret acc
  | key :: keys' =>
      let '(mkFW r nk nm d) := acc in
      let* taken := _take_staging key tag in
      let '(err, entry) := taken in
      let r' := dset key err r in
      match entry with
      | None => finish_write_loop tag keys' (mkFW r' nk nm d)
      | Some entry =>
          let* s := get in
          if dmem key (l1_objects s)
          then finish_write_loop tag keys' (mkFW r' nk nm (d ++ [memory_obj entry]))
          else
            let* _ := put_objects (dset key entry (l1_objects s)) in
            if is_temporary entry then finish_write_loop tag keys' (mkFW r' nk nm d)
            else finish_write_loop tag keys'
                   (mkFW r' (nk ++ [key]) (nm ++ [obj_size s (memory_obj entry)]) d)
      end
  end.

Definition finish_write (keys : list ObjectKey) (tag : string) : L1M (dict ObjectKey L1Error) :=
  let* acc := finish_write_loop tag keys (mkFW [] [] [] []) in
  let* _ := free_objs (fw_discarded acc) in
  let* _ := match fw_notify acc with
            | [] => ret tt
            | nk => emit [Notify on_l1_keys_write_finished nk; Publish L1_WRITE_FINISHED nk (fw_meta acc)]
            end in
  ret (fw_ret acc).

Record fwr_acc := mkFWR {
  fwr_ret : dict ObjectKey L1OperationResult;
  fwr_ok : list ObjectKey;
  fwr_meta : list Z;
  fwr_resident : list ObjectKey;
  fwr_discarded : list oid
}.

Fixpoint finish_write_read_loop (total : nat) (tag : string) (keys : list ObjectKey)
    (acc : fwr_acc) : L1M fwr_acc :=
  match keys with
  | [] => ret acc
  | key :: keys' =>
      let '(mkFWR r ok meta res d) := acc in
      let* taken := _take_staging key tag in
      let '(err, entry) := taken in
      match entry with
      | None => finish_write_read_loop total tag keys' (mkFWR (dset key (err, None) r) ok meta res d)
      | Some entry =>
          let* s := get in
          let* ts := now_n total in
          match dget key (l1_objects s) with
          | None =>
              let* _ := put_objects (dset key (with_read_lock (lock_n ts (read_lock entry)) entry)
                                       (l1_objects s)) in
              finish_write_read_loop total tag keys'
                (mkFWR (dset key (SUCCESS, Some (memory_obj entry)) r) (ok ++ [key])
                   (meta ++ [obj_size s (memory_obj entry)]) res d)
          | Some resident =>
              let* _ := put_objects (dset key (with_read_lock (lock_n ts (read_lock resident)) resident)
                                       (l1_objects s)) in
              finish_write_read_loop total tag keys'
                (mkFWR (dset key (SUCCESS, Some (memory_obj resident)) r) ok meta (res ++ [key])
                   (d ++ [memory_obj entry]))
          end
      end
  end.

Definition finish_write_and_reserve_read (keys : list ObjectKey) (read_locks : Z) (tag : string)
    : L1M (dict ObjectKey L1OperationResult) :=
  let total := Z.to_nat (validate_read_locks read_locks) in
  let* acc := finish_write_read_loop total tag keys (mkFWR [] [] [] [] []) in
  let* _ := free_objs (fwr_discarded acc) in
  let* _ := match fwr_resident acc with [] => ret tt | res => _report_read_reserved res end in
  let* _ := emit [Notify on_l1_keys_finish_write_and_reserve_read (fwr_ok acc);
                  Publish L1_WRITE_FINISHED_AND_READ_RESERVED (fwr_ok acc) (fwr_meta acc)] in
  ret (fwr_ret acc).

Fixpoint finish_write_delete_loop (tag : string) (keys : list ObjectKey)
    (r : dict ObjectKey L1Error) (d : list oid) (gone : list ObjectKey)
    : L1M (dict ObjectKey L1Error * list oid * list ObjectKey) :=
  match keys with
  | [] => ret (r, d, gone)
  | key :: keys' =>
      let* taken := _take_staging key tag in
      let '(err, entry) := taken in
      let r' := dset key err r in
      match entry with
      | None => finish_write_delete_loop tag keys' r' d gone
      | Some entry =>
          let* s := get in
          let gone' := if negb (dmem key (l1_objects s)) && negb (dmem key (l1_staging s))
                       then gone ++ [key] else gone in
          finish_write_delete_loop tag keys' r' (d ++ [memory_obj entry]) gone'
      end
  end.

Definition finish_write_and_delete (keys : list ObjectKey) (tag : string)
    : L1M (dict ObjectKey L1Error) :=
  let* acc := finish_write_delete_loop tag keys [] [] [] in
  let '(r, d, gone) := acc in
  let* _ := free_objs d in
  let* _ := _report_staging_gone gone in
  ret r.

(** *** Deletion *)

Record del_acc := mkDel {
  del_ret : dict ObjectKey L1Error;
  del_ok : list ObjectKey;
  del_free : list oid;
  del_gone : list ObjectKey
}.

Fixpoint delete_loop (force : bool) (keys : list ObjectKey) (acc : del_acc) : L1M del_acc :=
  match keys with
  | [] => ret acc
  | key :: keys' =>
      let '(mkDel r ok f gone) := acc in
      let* s := get in
      let entry := dget key (l1_objects s) in
      if match entry with None => negb (dmem key (l1_staging s)) | Some _ => false end
      then delete_loop force keys' (mkDel (dset key KEY_NOT_EXIST r) ok f gone)
      else
        let* _ := _reclaim_staging key force in
        let* s' := get in
        if dmem key (l1_staging s')
        then delete_loop force keys' (mkDel (dset key KEY_IS_LOCKED r) ok f gone)
        else
          match entry with
          | None => delete_loop force keys' (mkDel (dset key SUCCESS r) ok f (gone ++ [key]))
          | Some entry =>
              let* t := now in
              if is_locked t (read_lock entry) && negb force
              then delete_loop force keys' (mkDel (dset key KEY_IS_LOCKED r) ok f gone)
              else
                let* _ := put_objects (ddel key (l1_objects s')) in
                delete_loop force keys'
                  (mkDel (dset key SUCCESS r) (ok ++ [key]) (f ++ [memory_obj entry]) gone)
          end
  end.

Definition delete (keys : list ObjectKey) (force : bool) : L1M (dict ObjectKey L1Error) :=
  let* acc := delete_loop force keys (mkDel [] [] [] []) in
  let* _ := _free_and_report_deleted (del_ok acc) (del_free acc) in
  let* _ := _report_staging_gone (del_gone acc) in
  ret (del_ret acc).

Fixpoint reclaim_all (force : bool) (keys : list ObjectKey) : L1M unit :=
  match keys with
  | [] => ret tt
  | key :: keys' => let* _ := _reclaim_staging key force in reclaim_all force keys'
  end.

Definition clear_force : L1M unit :=
  let* s := get in
  let all_keys := dkeys (l1_objects s) in
  let all_objs := memory_obj <$> dvalues (l1_objects s) in
  let all_meta := obj_size s <$> all_objs in
  let* _ := free_objs all_objs in
  let* _ := put_objects [] in
  let* _ := emit [Notify on_l1_keys_deleted_by_manager all_keys;
                  Publish L1_KEYS_EVICTED all_keys all_meta] in
  let staging_keys := filter (λ k, k ∉ all_keys) (dkeys (l1_staging s)) in
  let* _ := reclaim_all true (dkeys (l1_staging s)) in
  _report_staging_gone staging_keys.

(** The unlocked resident objects. *)
Fixpoint unlocked_residents (items : list (ObjectKey * L1ObjectState))
    : L1M (list (ObjectKey * oid)) :=
  match items with
  | [] => ret []
  | (key, entry) :: items' =>
      let* t := now in
      let* rest := unlocked_residents items' in
      ret (if is_locked t (read_lock entry) then rest else (key, memory_obj entry) :: rest)
  end.

Fixpoint reclaim_expired (keys : list ObjectKey) (gone : list ObjectKey) : L1M (list ObjectKey) :=
  match keys with
  | [] => ret gone
  | key :: keys' =>
      let* n := _reclaim_staging key false in
      let* s := get in
      reclaim_expired keys'
        (if (0 <? n) && negb (dmem key (l1_staging s)) && negb (dmem key (l1_objects s))
         then gone ++ [key] else gone)
  end.

Definition clear_unlocked : L1M unit :=
  let* s := get in
  let* items := unlocked_residents (l1_objects s) in
  let keys_to_clear := items.*1 in
  let* _ := put_objects (foldl (λ d k, ddel k d) (l1_objects s) keys_to_clear) in
  let* _ := match items with [] => ret tt
            | _ => _free_and_report_deleted keys_to_clear items.*2 end in
  let* gone := reclaim_expired (dkeys (l1_staging s)) [] in
  _report_staging_gone gone.

Definition clear (force : bool) : L1M unit := if force then clear_force else clear_unlocked.

(** *** Queries, touch and close *)

Definition touch_keys (has_subscribers : bool) (keys : list ObjectKey) : L1M unit :=
  emit (Notify on_l1_keys_accessed keys ::
        if has_subscribers then [Publish L1_KEYS_ACCESSED keys []] else []).

Fixpoint any_expired (items : list L1ObjectState) : L1M bool :=
  match items with
  | [] => ret false
  | staged :: items' =>
      let* t := now in
      if negb (is_locked t (write_lock staged)) then ret true else any_expired items'
  end.

Definition is_key_evictable (key : ObjectKey) : L1M bool :=
  let* s := get in
  let staged_part :=
    match dget key (l1_staging s) with
    | None => ret false
    | Some per_tag => any_expired (dvalues per_tag)
    end in
  match dget key (l1_objects s) with
  | Some entry =>
      let* t := now in
      if negb (is_locked t (read_lock entry)) then ret true else staged_part
  | None => staged_part
  end.

Definition get_staging_memory_usage (s : L1) : Z := l1_staging_bytes s.

(** The counters of [report_status]. *)
Record l1_status := mkStatus {
  st_is_healthy : bool;
  st_total_object_count : Z;
  st_write_locked_count : Z;
  st_read_locked_count : Z;
  st_temporary_count : Z;
  st_staging_object_count : Z;
  st_staging_bytes : Z;
  st_memory_used_bytes : Z;
  st_memory_total_bytes : Z
}.

Fixpoint count_locked (lock_of : L1ObjectState → TTLLock) (es : list L1ObjectState) : L1M Z :=
  match es with
  | [] => ret 0
  | e :: es' =>
      let* t := now in
      let* n := count_locked lock_of es' in
      ret (n + if is_locked t (lock_of e) then 1 else 0)
  end.

Definition count_temporary (es : list L1ObjectState) : Z :=
  zsum (λ e, if is_temporary e then 1 else 0) es.

Definition report_status : L1M l1_status :=
  let* s := get in
  let residents := dvalues (l1_objects s) in
  let staged := staged_values (l1_staging s) in
  let* read_locked := count_locked read_lock residents in
  let* write_locked := count_locked write_lock staged in
  let '(used, total) := mm_get_memory_usage (l1_mm s) in
  let staging := Z.of_nat (length staged) in
  ret (mkStatus (mm_memcheck (l1_mm s)) (Z.of_nat (length residents) + staging) write_locked
         read_locked (count_temporary residents + count_temporary staged) staging
         (l1_staging_bytes s) used total).

Definition close : L1M unit :=
  let* s := get in
  let* _ := free_objs (memory_obj <$> (dvalues (l1_objects s) ++ staged_values (l1_staging s))) in
  let* _ := put_objects [] in
  put_staging [] 0.
End l1_manager.
