(* ===== verification/L1ManagerInv.v ===== *)
(** * Invariant of the L1 manager

    The tables of the manager are well formed, its byte counter is the sum of
    the staged charges, a resident object is never write-locked, and the
    objects it holds are exactly the live objects that carry its owner tag -
    nothing leaks and nothing is freed twice. Every operation keeps this. *)

From stdpp Require Import gmap strings list relations.
From Stdlib Require Import ZArith Lia.
From S2P Require Import Prelude TTLLock TensorAllocator Keys L1Memory L1Manager.

Open Scope Z_scope.
Open Scope l1_scope.

(** ** The staging table *)

Section staging.
Context {E : Type}.
Implicit Types (stg : list (ObjectKey * list (string * E))).

Definition staging_wf stg : Prop :=
  NoDup (dkeys stg) ∧ ∀ key per_tag, dget key stg = Some per_tag → per_tag ≠ [] ∧ NoDup (dkeys per_tag).

Lemma dvalues_perm {K V} `{EqDecision K} (k : K) (v : V) d :
  NoDup (dkeys d) → dget k d = Some v → dvalues d ≡ₚ v :: dvalues (ddel k d).
Proof. intros Hd Hk. unfold dvalues. by rewrite (dget_perm k v d Hd Hk) at 1. Qed.
Lemma dvalues_dset {K V} `{EqDecision K} (k : K) (v : V) d :
  NoDup (dkeys d) → dvalues (dset k v d) ≡ₚ v :: dvalues (ddel k d).
Proof. intros Hd. unfold dvalues. by rewrite (dset_perm k v d Hd). Qed.

Lemma staged_split key per_tag stg :
  NoDup (dkeys stg) → dget key stg = Some per_tag →
  staged_values stg ≡ₚ dvalues per_tag ++ staged_values (ddel key stg).
Proof. intros Hd Hk. unfold staged_values. by rewrite (dvalues_perm key per_tag stg Hd Hk). Qed.
Lemma staged_dset key per_tag stg :
  NoDup (dkeys stg) → staged_values (dset key per_tag stg) ≡ₚ dvalues per_tag ++ staged_values (ddel key stg).
Proof. intros Hd. unfold staged_values. by rewrite (dvalues_dset key per_tag stg Hd). Qed.

Lemma staging_get_Some key tag stg e :
  staging_get key tag stg = Some e ↔ ∃ per_tag, dget key stg = Some per_tag ∧ dget tag per_tag = Some e.
Proof. unfold staging_get. destruct (dget key stg); naive_solver. Qed.

Lemma staged_new key tag e stg :
  staging_wf stg → staging_get key tag stg = None →
  staged_values (staging_set key tag e stg) ≡ₚ e :: staged_values stg.
Proof.
  intros [Hd Hw] Hn. unfold staging_set, staging_get in *. rewrite staged_dset by done.
  destruct (dget key stg) as [per_tag|] eqn:Hk; simpl.
  - destruct (Hw _ _ Hk) as [_ Hp]. rewrite dvalues_dset by done.
    rewrite (staged_split key per_tag stg) by done. rewrite ddel_notin by (by apply dget_None). done.
  - by rewrite ddel_notin by (by apply dget_None).
Qed.

Lemma staged_pop key tag e stg :
  staging_wf stg → staging_get key tag stg = Some e →
  staged_values stg ≡ₚ e :: staged_values (staging_del key tag stg).
Proof.
  intros [Hd Hw] (per_tag & Hk & Ht)%staging_get_Some. unfold staging_del. rewrite Hk. simpl.
  destruct (Hw _ _ Hk) as [_ Hp]. rewrite (staged_split key per_tag stg), (dvalues_perm tag e) by done.
  simpl. f_equiv. destruct (ddel tag per_tag) eqn:Ed; [done|]. by rewrite staged_dset by done.
Qed.

Lemma staged_replace key tag e e' stg :
  staging_wf stg → staging_get key tag stg = Some e →
  staged_values (staging_set key tag e' stg) ≡ₚ e' :: staged_values (staging_del key tag stg).
Proof.
  intros [Hd Hw] (per_tag & Hk & Ht)%staging_get_Some. unfold staging_set, staging_del.
  rewrite Hk. simpl. destruct (Hw _ _ Hk) as [_ Hp].
  rewrite staged_dset, dvalues_dset by done. simpl. f_equiv.
  destruct (ddel tag per_tag) eqn:Ed; [done|]. by rewrite staged_dset by done.
Qed.

Lemma staging_set_wf key tag e stg : staging_wf stg → staging_wf (staging_set key tag e stg).
Proof.
  intros [Hd Hw]. unfold staging_set. split; [by apply NoDup_dset|].
  intros k per_tag. rewrite dget_dset. case_decide as Hk; [|by apply Hw].
  intros [= <-]. split.
  - intros En. assert (tag ∈ dkeys (dset tag e (default [] (dget key stg)))) as Hin
      by (apply elem_dkeys_dset; by right). rewrite En in Hin. by apply not_elem_of_nil in Hin.
  - apply NoDup_dset. destruct (dget key stg) eqn:Eg; [by eapply Hw|constructor].
Qed.

Lemma staging_del_wf key tag stg : staging_wf stg → staging_wf (staging_del key tag stg).
Proof.
  intros [Hd Hw]. unfold staging_del. destruct (ddel tag _) as [|p pt'] eqn:Ed.
  - split; [by apply NoDup_ddel|]. intros k per_tag. rewrite dget_ddel. case_decide; [done|]. apply Hw.
  - split; [by apply NoDup_dset|]. intros k per_tag. rewrite dget_dset. case_decide as Hk; [|by apply Hw].
    intros [= <-]. split; [done|]. rewrite <-Ed. apply NoDup_ddel.
    destruct (dget key stg) eqn:Eg; [by eapply Hw|constructor].
Qed.

(** Lookups after an update. *)
Lemma staging_get_set key tag e stg key' tag' :
  staging_get key' tag' (staging_set key tag e stg)
  = if decide (key = key' ∧ tag = tag') then Some e else staging_get key' tag' stg.
Proof.
  unfold staging_get, staging_set. rewrite dget_dset. destruct (decide (key = key')) as [->|].
  - rewrite dget_dset. destruct (decide (tag = tag')) as [->|].
    + by rewrite decide_True.
    + rewrite decide_False by naive_solver. by destruct (dget key' stg).
  - by rewrite decide_False by naive_solver.
Qed.

Lemma staging_get_del key tag stg key' tag' :
  staging_get key' tag' (staging_del key tag stg)
  = if decide (key = key' ∧ tag = tag') then None else staging_get key' tag' stg.
Proof.
  unfold staging_get, staging_del. destruct (decide (key = key')) as [->|Hk].
  - assert (∀ o : option E, dget tag' (ddel tag (default [] (dget key' stg))) = o →
      (if decide (key' = key' ∧ tag = tag') then None
       else match dget key' stg with Some pt => dget tag' pt | None => None end) = o) as Hgen.
    { intros o <-. rewrite dget_ddel. destruct (decide (tag = tag')).
      - by rewrite decide_True.
      - rewrite decide_False by naive_solver. by destruct (dget key' stg). }
    destruct (ddel tag _) as [|p pt'] eqn:Ed; simpl.
    + rewrite dget_ddel_eq. symmetry. by apply Hgen.
    + rewrite dget_dset_eq. symmetry. by apply Hgen.
  - rewrite decide_False by naive_solver. destruct (ddel tag _).
    + by rewrite dget_ddel_ne.
    + by rewrite dget_dset_ne.
Qed.

Lemma staging_del_set key tag e e0 stg :
  staging_get key tag stg = Some e0 →
  staging_del key tag (staging_set key tag e stg) = staging_del key tag stg.
Proof.
  intros (per_tag & Hk & Ht)%staging_get_Some. unfold staging_del, staging_set.
  rewrite dget_dset_eq, Hk. simpl. rewrite ddel_dset, ddel_dset.
  destruct (ddel tag per_tag); [done|]. by rewrite dset_dset.
Qed.

Lemma dget_staging_del_ne key tag stg key' :
  key ≠ key' → dget key' (staging_del key tag stg) = dget key' stg.
Proof. intros. unfold staging_del. case_match; by rewrite ?dget_ddel_ne, ?dget_dset_ne. Qed.
Lemma dget_staging_set_ne key tag e stg key' :
  key ≠ key' → dget key' (staging_set key tag e stg) = dget key' stg.
Proof. intros. unfold staging_set. by rewrite dget_dset_ne. Qed.

Lemma elem_staged key tag stg e : staging_get key tag stg = Some e → e ∈ staged_values stg.
Proof.
  intros (per_tag & Hk & Ht)%staging_get_Some. unfold staged_values. apply list_elem_of_bind.
  exists per_tag. split; apply list_elem_of_fmap; [exists (tag, e)|exists (key, per_tag)];
    (split; [done|by apply dget_Some_elem]).
Qed.

Lemma staging_mem_get key stg :
  staging_wf stg → dmem key stg = true → ∃ tag e, staging_get key tag stg = Some e.
Proof.
  intros [_ Hw] Hk. unfold dmem in Hk. destruct (dget key stg) as [per_tag|] eqn:Eg; [|done].
  destruct (Hw _ _ Eg) as [Hn _]. destruct per_tag as [|[tag e] pt]; [done|].
  exists tag, e. apply staging_get_Some. exists ((tag, e) :: pt). split; [done|].
  simpl. by rewrite decide_True.
Qed.
End staging.

(** ** Calls that do not raise *)

Definition wp {M A} (c : L1M M A) (Q : A → L1 M → Prop) (s : L1 M) : Prop :=
  match c s with (Ret a, s') => Q a s' | (Raise _, _) => False end.

Lemma wp_bind {M A B} (c : L1M M A) (k : A → L1M M B) Q s :
  wp c (λ a s', wp (k a) Q s') s → wp (bind c k) Q s.
Proof. unfold wp, bind. destruct (c s) as [[a|] s']; [|done]. done. Qed.

Lemma wp_mono {M A} (c : L1M M A) (P Q : A → L1 M → Prop) s :
  wp c P s → (∀ a s', P a s' → Q a s') → wp c Q s.
Proof. unfold wp. destruct (c s) as [[a|] s']; [|done]. auto. Qed.

Lemma wp_ret {M A} (a : A) (Q : A → L1 M → Prop) s : Q a s → wp (ret a) Q s.
Proof. done. Qed.

Section invariant.
Context {M : Type} `{L1MemoryLaws M}.
Context (clock : nat → Z) (write_ttl_seconds read_ttl_seconds l1_manager_id : Z).

#[local] Abbreviation L1 := (L1 M).
Implicit Types (s : L1) (m : M).

Definition entries s : list L1ObjectState := dvalues (l1_objects s) ++ staged_values (l1_staging s).
Definition owned s : list oid := memory_obj <$> entries s.

Definition read_lock_ok (l : TTLLock) : Prop :=
  lock_wf l ∧ ttl_ms l = read_ttl_seconds * 1000.

Definition resident_ok (e : L1ObjectState) : Prop :=
  counter (write_lock e) = 0 ∧ read_lock_ok (read_lock e) ∧ staging_charge e = 0.
Definition staged_ok (e : L1ObjectState) : Prop :=
  counter (write_lock e) = 1 ∧ counter (read_lock e) = 0 ∧ read_lock_ok (read_lock e) ∧
  ttl_ms (write_lock e) = write_ttl_seconds * 1000.

Lemma lock_n_ok ts l : read_lock_ok l → read_lock_ok (lock_n ts l).
Proof. intros [? ?]. split; [by apply lock_n_wf|by rewrite lock_n_ttl]. Qed.
Lemma unlock_n_ok n l : read_lock_ok l → read_lock_ok (unlock_n n l).
Proof. intros [? ?]. split; [by apply unlock_n_wf|by rewrite unlock_n_ttl]. Qed.

Record tab_inv s : Prop := {
  ti_objects : NoDup (dkeys (l1_objects s));
  ti_staging : staging_wf (l1_staging s);
  ti_bytes : l1_staging_bytes s = zsum staging_charge (staged_values (l1_staging s));
  ti_resident : ∀ e, e ∈ dvalues (l1_objects s) → resident_ok e;
  ti_staged : ∀ e, e ∈ staged_values (l1_staging s) → staged_ok e
}.

(** The objects in [ids] are exactly the live objects of this manager. *)
Record mem_inv m (ids : list oid) : Prop := {
  mi_mm : mm_inv m;
  mi_nodup : NoDup ids;
  mi_live : ∀ i, i ∈ ids → ∃ o, mm_objs m !! i = Some o ∧ mo_valid o = true ∧
              mo_l1_manager o = Some l1_manager_id;
  mi_leak : ∀ i o, mm_objs m !! i = Some o → mo_valid o = true →
              mo_l1_manager o = Some l1_manager_id → i ∈ ids
}.

(** [pend]: objects the current call has taken out and will free. *)
Record inv (pend : list oid) s : Prop := {
  inv_tab : tab_inv s;
  inv_mem : mem_inv (l1_mm s) (pend ++ owned s)
}.

Lemma mem_inv_perm m ids ids' : ids ≡ₚ ids' → mem_inv m ids → mem_inv m ids'.
Proof.
  intros Hp [H1 H2 H3 H4]. split; [done|by rewrite <-Hp| |].
  - intros i Hi. apply H3. by rewrite Hp.
  - intros i o Hi Hv Ho. rewrite <-Hp. by eapply H4.
Qed.

Lemma inv_pend_perm pend pend' s : pend ≡ₚ pend' → inv pend s → inv pend' s.
Proof. intros Hp [H1 H2]. split; [done|]. eapply mem_inv_perm; [|done]. by rewrite Hp. Qed.

(** The invariant does not mention the log and the tick. *)
Definition same_tables s s' : Prop :=
  l1_objects s' = l1_objects s ∧ l1_staging s' = l1_staging s ∧
  l1_staging_bytes s' = l1_staging_bytes s ∧ l1_mm s' = l1_mm s.

Lemma inv_same pend s s' : same_tables s s' → inv pend s → inv pend s'.
Proof.
  destruct s, s'. intros (Ho & Hs & Hb & Hm) [[H1 H2 H3 H4 H5] H6]. unfold owned, entries in *.
  simpl in *. subst. split; [by split|done].
Qed.

(** *** Moves between the tables and the pending list *)

Lemma inv_update_resident pend s key e e' :
  inv pend s → dget key (l1_objects s) = Some e → memory_obj e' = memory_obj e → resident_ok e' →
  inv pend (mkL1 (dset key e' (l1_objects s)) (l1_staging s) (l1_staging_bytes s) (l1_mm s)
              (l1_log s) (l1_tick s)).
Proof.
  intros [[H1 H2 H3 H4 H5] H6] Hk Hm He. split.
  - split; simpl; try done; [by apply NoDup_dset|].
    intros x. rewrite dvalues_dset by done. intros [->|Hx]%elem_of_cons; [done|].
    apply H4. rewrite (dvalues_perm key e _ H1 Hk). by right.
  - eapply mem_inv_perm; [|exact H6]. simpl. f_equiv. unfold owned, entries. simpl.
    rewrite !fmap_app. f_equiv. rewrite dvalues_dset, (dvalues_perm key e _ H1 Hk) by done.
    csimpl. by rewrite Hm.
Qed.

Lemma inv_remove_resident pend s key e :
  inv pend s → dget key (l1_objects s) = Some e →
  inv (memory_obj e :: pend)
    (mkL1 (ddel key (l1_objects s)) (l1_staging s) (l1_staging_bytes s) (l1_mm s) (l1_log s) (l1_tick s)).
Proof.
  intros [[H1 H2 H3 H4 H5] H6] Hk. split.
  - split; simpl; try done; [by apply NoDup_ddel|].
    intros x Hx. apply H4. rewrite (dvalues_perm key e _ H1 Hk). by right.
  - eapply mem_inv_perm; [|exact H6]. simpl. unfold owned, entries. simpl.
    rewrite !fmap_app, (dvalues_perm key e _ H1 Hk). csimpl. by rewrite <-Permutation_middle.
Qed.

Lemma inv_admit pend s key e :
  inv (memory_obj e :: pend) s → dmem key (l1_objects s) = false → resident_ok e →
  inv pend (mkL1 (dset key e (l1_objects s)) (l1_staging s) (l1_staging_bytes s) (l1_mm s)
              (l1_log s) (l1_tick s)).
Proof.
  intros [[H1 H2 H3 H4 H5] H6] Hk%dmem_false He. split.
  - split; simpl; try done; [by apply NoDup_dset|].
    intros x. rewrite dvalues_dset by done. intros [->|Hx]%elem_of_cons; [done|].
    rewrite ddel_notin in Hx by done. by apply H4.
  - eapply mem_inv_perm; [|exact H6]. simpl. unfold owned, entries. simpl.
    rewrite !fmap_app, dvalues_dset, ddel_notin by done. csimpl. by rewrite <-Permutation_middle.
Qed.

Lemma inv_pop pend s key tag e :
  inv pend s → staging_get key tag (l1_staging s) = Some e →
  inv (memory_obj e :: pend)
    (mkL1 (l1_objects s) (staging_del key tag (l1_staging s)) (l1_staging_bytes s - staging_charge e)
       (l1_mm s) (l1_log s) (l1_tick s)).
Proof.
  intros [[H1 H2 H3 H4 H5] H6] Hk. pose proof (staged_pop key tag e _ H2 Hk) as Hp. split.
  - split; simpl; try done; [by apply staging_del_wf| |].
    + rewrite H3, (zsum_perm _ _ _ Hp), zsum_cons. lia.
    + intros x Hx. apply H5. rewrite Hp. by right.
  - eapply mem_inv_perm; [|exact H6]. simpl. unfold owned, entries. simpl.
    rewrite !fmap_app, Hp. csimpl. by rewrite <-!Permutation_middle.
Qed.

Lemma inv_update_staged pend s key tag e e' :
  inv pend s → staging_get key tag (l1_staging s) = Some e →
  memory_obj e' = memory_obj e → staging_charge e' = staging_charge e → staged_ok e' →
  inv pend (mkL1 (l1_objects s) (staging_set key tag e' (l1_staging s)) (l1_staging_bytes s) (l1_mm s)
              (l1_log s) (l1_tick s)).
Proof.
  intros [[H1 H2 H3 H4 H5] H6] Hk Hm Hc He.
  pose proof (staged_pop key tag e _ H2 Hk) as Hp. pose proof (staged_replace key tag e e' _ H2 Hk) as Hr.
  split.
  - split; simpl; try done; [by apply staging_set_wf| |].
    + rewrite H3, (zsum_perm _ _ _ Hp), (zsum_perm _ _ _ Hr), !zsum_cons. lia.
    + intros x. rewrite Hr. intros [->|Hx]%elem_of_cons; [done|]. apply H5. rewrite Hp. by right.
  - eapply mem_inv_perm; [|exact H6]. simpl. f_equiv. unfold owned, entries. simpl.
    rewrite !fmap_app. f_equiv. rewrite Hp, Hr. csimpl. by rewrite Hm.
Qed.

Lemma inv_put_staged pend s key tag e :
  inv (memory_obj e :: pend) s → staging_get key tag (l1_staging s) = None → staged_ok e →
  inv pend (mkL1 (l1_objects s) (staging_set key tag e (l1_staging s))
              (l1_staging_bytes s + staging_charge e) (l1_mm s) (l1_log s) (l1_tick s)).
Proof.
  intros [[H1 H2 H3 H4 H5] H6] Hk He. pose proof (staged_new key tag e _ H2 Hk) as Hp. split.
  - split; simpl; try done; [by apply staging_set_wf| |].
    + rewrite H3, (zsum_perm _ _ _ Hp), zsum_cons. lia.
    + intros x. rewrite Hp. intros [->|Hx]%elem_of_cons; [done|by apply H5].
  - eapply mem_inv_perm; [|exact H6]. simpl. unfold owned, entries. simpl.
    rewrite !fmap_app, Hp. csimpl. by rewrite <-!Permutation_middle.
Qed.

(** *** Primitive calls *)

Definition bump (n : nat) s : L1 :=
  mkL1 (l1_objects s) (l1_staging s) (l1_staging_bytes s) (l1_mm s) (l1_log s) (l1_tick s + n).
Definition with_objects o s : L1 :=
  mkL1 o (l1_staging s) (l1_staging_bytes s) (l1_mm s) (l1_log s) (l1_tick s).
Definition with_staging stg b s : L1 :=
  mkL1 (l1_objects s) stg b (l1_mm s) (l1_log s) (l1_tick s).
Definition with_mm m s : L1 :=
  mkL1 (l1_objects s) (l1_staging s) (l1_staging_bytes s) m (l1_log s) (l1_tick s).
Definition with_log ev s : L1 :=
  mkL1 (l1_objects s) (l1_staging s) (l1_staging_bytes s) (l1_mm s) (l1_log s ++ ev) (l1_tick s).

Lemma inv_bump pend n s : inv pend s → inv pend (bump n s).
Proof. by apply inv_same. Qed.
Lemma inv_with_log pend ev s : inv pend s → inv pend (with_log ev s).
Proof. by apply inv_same. Qed.

Lemma now_eq s : now clock s = (Ret (clock (l1_tick s)), bump 1 s).
Proof. done. Qed.
Lemma now_n_eq n s : now_n clock n s = (Ret (clock <$> seq (l1_tick s) n), bump n s).
Proof. done. Qed.

Lemma take_staging_eq key tag s :
  _take_staging clock key tag s =
  match staging_get key tag (l1_staging s) with
  | None => (Ret (KEY_NOT_EXIST, None), s)
  | Some e =>
      if is_locked (clock (l1_tick s)) (write_lock e)
      then (Ret (SUCCESS, Some (with_charge 0 (with_write_lock (unlock (write_lock e)) e))),
            bump 1 (with_staging (staging_del key tag (l1_staging s))
                      (l1_staging_bytes s - staging_charge e) s))
      else (Ret (KEY_IN_WRONG_STATE, None), bump 1 s)
  end.
Proof.
  unfold _take_staging, bind, get, _get_staging. cbn -[staging_get staging_set staging_del].
  destruct (staging_get key tag (l1_staging s)) as [e|] eqn:Eg; [|done].
  unfold bind. cbn -[staging_get staging_set staging_del].
  destruct (is_locked _ _); [|done]. cbn -[staging_get staging_set staging_del].
  rewrite staging_get_set, decide_True by done. cbn -[staging_get staging_set staging_del].
  by rewrite (staging_del_set _ _ _ e).
Qed.

Lemma staged_ok_taken e :
  staged_ok e → resident_ok (with_charge 0 (with_write_lock (unlock (write_lock e)) e)).
Proof.
  intros (Hc & _ & Hw & _). split_and!; [|done|done]. simpl. unfold unlock.
  rewrite Hc. simpl. lia.
Qed.

Lemma inv_staged_ok pend s key tag e :
  inv pend s → staging_get key tag (l1_staging s) = Some e → staged_ok e.
Proof. intros Hinv Hg. eapply ti_staged; [apply Hinv|]. by eapply elem_staged. Qed.
Lemma inv_resident_ok pend s key e :
  inv pend s → dget key (l1_objects s) = Some e → resident_ok e.
Proof.
  intros Hinv Hg. eapply ti_resident; [apply Hinv|]. apply list_elem_of_fmap.
  exists (key, e). split; [done|]. by apply dget_Some_elem.
Qed.

(** Taking a staged object out: it is pending, and ready to be resident. *)
Lemma take_staging_inv pend key tag s :
  inv pend s →
  wp (_take_staging clock key tag) (λ r s',
    match r with
    | (err, None) => err ≠ SUCCESS ∧ inv pend s'
    | (err, Some e) => err = SUCCESS ∧ inv (memory_obj e :: pend) s' ∧ resident_ok e
    end) s.
Proof.
  intros Hinv. unfold wp. rewrite take_staging_eq.
  destruct (staging_get _ _ _) as [e|] eqn:Eg; [|done].
  destruct (is_locked _ _); [|split; [done|by apply inv_bump]].
  split_and!; [done| |by eapply staged_ok_taken, inv_staged_ok].
  apply inv_bump, (inv_pop _ _ _ _ _ Hinv Eg).
Qed.

(** Freeing pending objects. *)
Record frees (ids : list oid) s s' : Prop := {
  fr_objects : l1_objects s' = l1_objects s;
  fr_staging : l1_staging s' = l1_staging s;
  fr_bytes : l1_staging_bytes s' = l1_staging_bytes s;
  fr_log : l1_log s' = l1_log s;
  fr_tick : l1_tick s' = l1_tick s;
  fr_objs : ∀ i, mm_objs (l1_mm s') !! i
    = if decide (i ∈ ids) then invalidate <$> mm_objs (l1_mm s) !! i else mm_objs (l1_mm s) !! i
}.

Lemma free_objs_eq ids s m : mm_free ids (l1_mm s) = Ret m → free_objs ids s = (Ret tt, with_mm m s).
Proof. intros Hf. unfold free_objs, bind, get. cbn. by rewrite Hf. Qed.

Lemma free_objs_inv ids pend s :
  inv (ids ++ pend) s → wp (free_objs ids) (λ _ s', inv pend s' ∧ frees ids s s') s.
Proof.
  intros [Ht [H1 H2 H3 H4]]. unfold wp, free_objs, bind, get. cbn.
  rewrite <-(assoc_L (++)) in *.
  destruct (mm_free_ok ids (l1_mm s) H1) as (m' & -> & H1' & Hobjs).
  { intros i Hi. destruct (H3 i) as (o & ? & _); [set_solver|]. by exists o. }
  cbn. split; [|by split]. split; [by destruct Ht|].
  apply NoDup_app in H2 as (_ & Hdisj & H2). split; [done|done| |].
  - intros i Hi. rewrite Hobjs, decide_False by (intros Hin; by eapply Hdisj).
    apply H3. apply elem_of_app. by right.
  - intros i o. cbn. rewrite Hobjs. case_decide as Hin.
    + destruct (mm_objs (l1_mm s) !! i); [|done]. intros [= <-]. done.
    + intros Ho Hv Hown. specialize (H4 i o Ho Hv Hown). by apply elem_of_app in H4 as [?|?].
Qed.

Lemma put_staging_eq key tag e s :
  _put_staging key tag e s =
    (Ret tt, with_staging
               (staging_set key tag (with_charge (obj_size s (memory_obj e)) e) (l1_staging s))
               (l1_staging_bytes s + obj_size s (memory_obj e)) s).
Proof. reflexivity. Qed.

Lemma pop_staging_eq key tag s e :
  staging_get key tag (l1_staging s) = Some e →
  _pop_staging key tag s =
    (Ret (with_charge 0 e), with_staging (staging_del key tag (l1_staging s))
                              (l1_staging_bytes s - staging_charge e) s).
Proof. intros Eg. unfold _pop_staging, bind, get. cbn -[staging_get staging_del]. by rewrite Eg. Qed.

(** *** Reclaiming staged objects *)

(** What happened to one staged entry between two states: kept because it
    was live at a reading made in between, or removed. *)
Definition reclaim_fate (force : bool) s s' (e : L1ObjectState) (after : option L1ObjectState) : Prop :=
  after = Some e ∧ force = false ∧
    (∃ t, (l1_tick s ≤ t < l1_tick s')%nat ∧ is_locked (clock t) (write_lock e) = true) ∨
  after = None ∧
    (force = true ∨ ∃ t, (l1_tick s ≤ t < l1_tick s')%nat ∧ is_locked (clock t) (write_lock e) = false).

Record reclaimed (key : ObjectKey) (force : bool) (items : list (string * L1ObjectState)) s s' : Prop := {
  rc_objects : l1_objects s' = l1_objects s;
  rc_log : l1_log s' = l1_log s;
  rc_tick : (l1_tick s ≤ l1_tick s')%nat;
  rc_other_key : ∀ key', key' ≠ key → dget key' (l1_staging s') = dget key' (l1_staging s);
  rc_other_tag : ∀ tag, tag ∉ items.*1 →
    staging_get key tag (l1_staging s') = staging_get key tag (l1_staging s);
  rc_fate : ∀ tag e, (tag, e) ∈ items →
    reclaim_fate force s s' e (staging_get key tag (l1_staging s'))
}.

Lemma reclaim_fate_mono force s s1 s2 e after :
  (l1_tick s ≤ l1_tick s1)%nat → reclaim_fate force s1 s2 e after → reclaim_fate force s s2 e after.
Proof.
  intros Hle [(-> & -> & t & Ht & Hl)|(-> & Hor)].
  - left. split_and!; [done|done|]. exists t. split; [lia|done].
  - right. split; [done|]. destruct Hor as [->|(t & Ht & Hl)]; [by left|right].
    exists t. split; [lia|done].
Qed.

Lemma reclaim_loop_ok key force items freed pend s :
  inv (freed ++ pend) s → NoDup items.*1 →
  (∀ tag e, (tag, e) ∈ items → staging_get key tag (l1_staging s) = Some e) →
  wp (reclaim_loop clock key force items freed)
    (λ freed' s', inv (freed' ++ pend) s' ∧ reclaimed key force items s s' ∧ l1_mm s' = l1_mm s) s.
Proof.
  revert freed s. induction items as [|[tag e] items IH]; intros freed s Hinv Hnd Hget.
  { cbn. split_and!; [done| |done]. split; try done. intros ?? Hin. by apply not_elem_of_nil in Hin. }
  rewrite fmap_cons in Hnd. simpl in Hnd. apply NoDup_cons in Hnd as [Hnt Hnd].
  pose proof (Hget tag e ltac:(left)) as Eg. cbn [reclaim_loop].
  apply wp_bind. unfold wp at 1. rewrite now_eq. cbn beta iota.
  destruct (is_locked (clock (l1_tick s)) (write_lock e) && negb force) eqn:El.
  - apply andb_true_iff in El as [El Ef%negb_true_iff].
    eapply wp_mono; [apply (IH freed (bump 1 s)); [by apply inv_bump|done|]|].
    { intros tag' e' Hin. apply Hget. by right. }
    intros freed' s' (Hinv' & [R1 R2 R3 R4 R5 R6] & Hm). split_and!; [done| |done].
    simpl in R3. split; simpl; try done; [lia| |].
    + intros tag' Hn. apply R5. set_solver.
    + intros tag' e' [Heq|Hin]%elem_of_cons.
      * simplify_eq. left. split_and!; [|done|].
        -- rewrite R5 by done. done.
        -- exists (l1_tick s). split; [lia|done].
      * eapply reclaim_fate_mono; [|by apply R6]. simpl. lia.
  - apply wp_bind. unfold wp at 1. rewrite (pop_staging_eq key tag (bump 1 s) e Eg). cbn beta iota.
    set (s1 := with_staging _ _ _).
    assert (inv ((freed ++ [memory_obj e]) ++ pend) s1) as Hinv1.
    { eapply inv_pend_perm; [|apply (inv_pop (freed ++ pend) (bump 1 s) key tag e); [by apply inv_bump|done]].
      rewrite <-(assoc_L (++)). simpl. by rewrite Permutation_middle. }
    eapply wp_mono; [apply (IH (freed ++ [memory_obj e]) s1 Hinv1 Hnd)|].
    { intros tag' e' Hin. simpl. rewrite staging_get_del, decide_False.
      - apply Hget. by right.
      - intros [_ <-]. apply Hnt. apply list_elem_of_fmap. by exists (tag, e'). }
    intros freed' s' (Hinv' & [R1 R2 R3 R4 R5 R6] & Hm). split_and!; [done| |done].
    simpl in R3. split; simpl; try done; [lia| | |].
    + intros key' Hk. rewrite R4 by done. simpl. by rewrite dget_staging_del_ne.
    + intros tag' Hn. rewrite R5 by set_solver. simpl. rewrite staging_get_del, decide_False; [done|].
      set_solver.
    + intros tag' e' [Heq|Hin]%elem_of_cons.
      * simplify_eq. right. split.
        -- rewrite R5 by done. simpl. by rewrite staging_get_del, decide_True.
        -- apply andb_false_iff in El as [El|El%negb_false_iff]; [right|by left].
           exists (l1_tick s). split; [lia|done].
      * eapply reclaim_fate_mono; [|by apply R6]. simpl. lia.
Qed.

Lemma reclaim_staging_ok key force pend s :
  inv pend s →
  wp (_reclaim_staging clock key force) (λ n s',
    inv pend s' ∧ reclaimed key force (default [] (dget key (l1_staging s))) s s') s.
Proof.
  intros Hinv. unfold _reclaim_staging. apply wp_bind. unfold wp at 1. cbn [get].
  destruct (dget key (l1_staging s)) as [per_tag|] eqn:Ek.
  2: { apply wp_ret. split; [done|]. split; try done. intros ?? Hin. by apply not_elem_of_nil in Hin. }
  pose proof (ti_staging _ (inv_tab _ _ Hinv)) as Hw. destruct (proj2 Hw _ _ Ek) as [_ Hp].
  apply wp_bind. eapply wp_mono; [apply (reclaim_loop_ok key force per_tag [] pend s Hinv Hp)|].
  { intros tag e Hin. apply staging_get_Some. exists per_tag. split; [done|]. by apply elem_dget. }
  intros freed s1 (Hinv1 & [R1 R2 R3 R4 R5 R6] & Hm). apply wp_bind.
  eapply wp_mono; [by apply free_objs_inv|]. intros _ s2 (Hinv2 & [F1 F2 F3 F4 F5 F6]). apply wp_ret.
  split; [done|]. split; simpl; try congruence.
  - intros. rewrite F2. by apply R4.
  - intros. rewrite F2. by apply R5.
  - intros tag e Hin. rewrite F2. specialize (R6 tag e Hin). unfold reclaim_fate in *. by rewrite F5.
Qed.

(** *** Every operation keeps the invariant *)

Lemma lock_resident_ok e l :
  resident_ok e → read_lock_ok l → resident_ok (with_read_lock l e).
Proof. intros (? & ? & ?) ?. by split_and!. Qed.

Lemma reserve_read_loop_inv total keys r ok s :
  inv [] s → wp (reserve_read_loop clock total keys r ok) (λ _ s', inv [] s') s.
Proof.
  revert r ok s. induction keys as [|key keys IH]; intros r ok s Hinv; [done|]. cbn [reserve_read_loop].
  apply wp_bind. unfold wp at 1. cbn [get]. destruct (dget key (l1_objects s)) as [e|] eqn:Ek; [|by apply IH].
  apply wp_bind. unfold wp at 1. rewrite now_n_eq. cbn beta iota.
  apply wp_bind. unfold wp at 1. cbn [put_objects]. apply IH.
  pose proof (inv_resident_ok _ _ _ _ Hinv Ek) as He.
  apply (inv_update_resident _ (bump total s) key e); [by apply inv_bump|done|done|].
  apply lock_resident_ok; [done|]. apply lock_n_ok, He.
Qed.

Lemma reserve_read_inv keys n s : inv [] s → wp (reserve_read clock keys n) (λ _ s', inv [] s') s.
Proof.
  intros Hinv. unfold reserve_read. apply wp_bind.
  eapply wp_mono; [by apply reserve_read_loop_inv|]. intros [r ok] s' Hinv'. by apply (inv_with_log _ _ s').
Qed.

Lemma unsafe_read_inv keys s : inv [] s → wp (unsafe_read clock keys) (λ _ s', inv [] s') s.
Proof.
  unfold unsafe_read. generalize ([] : list (ObjectKey * L1OperationResult)). revert s.
  induction keys as [|key keys IH]; intros s r Hinv; [done|]. cbn [unsafe_read_loop].
  apply wp_bind. unfold wp at 1. cbn [get]. destruct (dget key (l1_objects s)); [|by apply IH].
  apply wp_bind. unfold wp at 1. rewrite now_eq. cbn beta iota. by case_match; apply IH, inv_bump.
Qed.

Lemma finish_read_loop_inv total keys acc s :
  inv (fr_free acc) s →
  wp (finish_read_loop clock total keys acc) (λ acc' s', inv (fr_free acc') s') s.
Proof.
  revert acc s. induction keys as [|key keys IH]; intros [r ok fk f] s Hinv; [done|].
  cbn [finish_read_loop]. apply wp_bind. unfold wp at 1. cbn [get].
  destruct (dget key (l1_objects s)) as [e|] eqn:Ek; [|by apply IH].
  pose proof (inv_resident_ok _ _ _ _ Hinv Ek) as He.
  assert (resident_ok (with_read_lock (unlock_n total (read_lock e)) e)) as He'
    by (apply lock_resident_ok; [done|]; apply unlock_n_ok, He).
  apply wp_bind. unfold wp at 1. rewrite now_eq. cbn beta iota.
  destruct (negb _); [by apply IH, inv_bump|].
  assert (∀ n, inv (fr_free (mkFR (dset key SUCCESS r) (ok ++ [key]) fk f))
    (with_objects (dset key (with_read_lock (unlock_n total (read_lock e)) e) (l1_objects s)) (bump n s))) as Hkeep.
  { intros n. apply (inv_update_resident _ (bump n s) key e); [by apply inv_bump|done|done|done]. }
  cbn [is_temporary with_read_lock].
  destruct (is_temporary e).
  - apply wp_bind, wp_bind. unfold wp at 1. rewrite now_eq. cbn beta iota. unfold ret at 1, wp at 1. cbn beta iota.
    destruct (negb _).
    + apply wp_bind. unfold wp at 1. cbn [put_objects]. apply IH. cbn [fr_free].
      eapply inv_pend_perm; [by apply Permutation_cons_append|].
      by apply (inv_remove_resident f (bump 1 (bump 1 s)) key e); [do 2 apply inv_bump|].
    + apply wp_bind. unfold wp at 1. cbn [put_objects]. apply IH. by eapply inv_same; [|exact (Hkeep 0%nat)].
  - apply wp_bind. unfold ret at 1, wp at 1. cbn beta iota.
    apply wp_bind. unfold wp at 1. cbn [put_objects]. apply IH. by eapply inv_same; [|exact (Hkeep 0%nat)].
Qed.

Lemma finish_read_inv keys n s : inv [] s → wp (finish_read clock keys n) (λ _ s', inv [] s') s.
Proof.
  intros Hinv. unfold finish_read. apply wp_bind.
  eapply wp_mono; [by apply finish_read_loop_inv|]. intros acc s1 Hinv1.
  apply wp_bind. unfold wp at 1. cbn [get]. apply wp_bind.
  eapply wp_mono; [apply (free_objs_inv _ []); by rewrite app_nil_r|]. intros _ s2 [Hinv2 _].
  by apply (inv_with_log _ _ s2).
Qed.

(** A writer takes over a reservation whose lock expired. *)
Lemma staged_ok_handover t t' e b :
  staged_ok e → is_locked t (write_lock e) = false → t <= t' →
  staged_ok (with_temporary b (with_write_lock (lock t' (write_lock e)) e)).
Proof.
  intros (Hc & Hr & Hw & He) Hl Ht. split_and!; try done; simpl; [|by rewrite lock_ttl]. unfold lock.
  apply is_locked_false in Hl as [?|?]; [lia|].
  destruct (Z.leb_spec (expiration_ms (write_lock e)) t'); [done|lia].
Qed.

Lemma reserve_write_scan_inv tag items r ok need s :
  (∀ i j, (i ≤ j)%nat → clock i <= clock j) → inv [] s → NoDup (need.*1 ++ items.*1) →
  (∀ k, k ∈ need.*1 → staging_get k tag (l1_staging s) = None) →
  wp (reserve_write_scan clock tag items r ok need) (λ res s',
    inv [] s' ∧ NoDup res.2.*1 ∧
    (∀ k, k ∈ res.2.*1 → staging_get k tag (l1_staging s') = None)) s.
Proof.
  intros clock_mono.
  revert r ok need s. induction items as [|[key b] items IH]; intros r ok need s Hinv Hnd Hneed.
  { cbn. rewrite app_nil_r in Hnd. done. }
  cbn [reserve_write_scan]. apply wp_bind. unfold wp at 1. cbn [get].
  assert (NoDup (need.*1 ++ items.*1)) as Hnd'.
  { eapply sublist_NoDup; [exact Hnd|]. apply sublist_app; [done|]. csimpl. by apply sublist_cons. }
  assert (key ∉ need.*1) as Hkey.
  { csimpl in Hnd. apply NoDup_app in Hnd as (_ & Hd & _). intros Hin. by eapply Hd; [|left]. }
  destruct (dmem key (l1_objects s)); [by apply IH|]. unfold _get_staging.
  destruct (staging_get key tag (l1_staging s)) as [e|] eqn:Eg.
  - apply wp_bind. unfold wp at 1. rewrite now_eq. cbn beta iota.
    destruct (is_locked (clock (l1_tick s)) (write_lock e)) eqn:El; [by apply IH; [apply inv_bump| |]|].
    apply wp_bind. unfold wp at 1. rewrite now_eq. cbn beta iota.
    apply wp_bind. unfold wp at 1. cbn -[staging_set reserve_write_scan].
    apply IH; [|done|].
    + apply (inv_update_staged _ (bump 1 (bump 1 s)) key tag e);
        [by do 2 apply inv_bump|done|done|done|].
      eapply staged_ok_handover; [by eapply inv_staged_ok|done|]. apply clock_mono. simpl. lia.
    + intros k Hk. cbn -[staging_get staging_set]. rewrite staging_get_set, decide_False; [by apply Hneed|].
      intros [<- _]. done.
  - apply IH; [done| |].
    + rewrite fmap_app. csimpl. rewrite <-(assoc_L (++)). simpl. by csimpl in Hnd.
    + intros k. rewrite fmap_app. intros [Hk|Hk]%elem_of_app; [by apply Hneed|].
      apply list_elem_of_singleton in Hk. by subst.
Qed.

(** The owner tag is put on a fresh object: it becomes the manager's. *)
Lemma inv_claim pend s i o :
  inv pend s → mm_objs (l1_mm s) !! i = Some o → mo_valid o = true → mo_l1_manager o = None →
  ∃ m', mm_update i (set_l1_manager l1_manager_id) (l1_mm s) = Ret m' ∧
    inv (i :: pend) (with_mm m' s) ∧
    (∀ j, j ≠ i → mm_objs m' !! j = mm_objs (l1_mm s) !! j).
Proof.
  intros [Ht [H1 H2 H3 H4]] Hi Hv Ho.
  destruct (set_l1_manager l1_manager_id o) as [o'|] eqn:Es; [|unfold set_l1_manager in Es; by rewrite Ho in Es].
  assert (mo_valid o' = true ∧ mo_l1_manager o' = Some l1_manager_id ∧ mo_address o' = mo_address o ∧
    mo_phy_size o' = mo_phy_size o ∧ mo_fmt o' = mo_fmt o) as (Hv' & Ho' & Ha' & Hp' & Hf').
  { unfold set_l1_manager in Es. rewrite Ho in Es. by simplify_eq/=. }
  destruct (mm_update_ok i (set_l1_manager l1_manager_id) o o' (l1_mm s) H1 Hi Es)
    as (m' & -> & Hm' & Hobjs); [congruence|done|done|done|].
  exists m'. split; [done|]. split; [|intros j Hj; rewrite Hobjs; by apply lookup_insert_ne].
  split; [by destruct Ht|]. split; cbn.
  - done.
  - apply NoDup_cons. split; [|done]. intros Hin. destruct (H3 i Hin) as (o2 & Hi2 & _ & Hw). congruence.
  - intros j [->|Hj]%elem_of_cons; rewrite Hobjs.
    + exists o'. by rewrite lookup_insert_eq.
    + destruct (decide (j = i)) as [->|]; [exists o'; by rewrite lookup_insert_eq|].
      rewrite lookup_insert_ne by done. by apply H3.
  - intros j oj. rewrite Hobjs. destruct (decide (j = i)) as [->|]; [by left|].
    rewrite lookup_insert_ne by done. intros. right. by eapply H4.
Qed.

Lemma staged_ok_new i b c t :
  0 <= read_ttl_seconds →
  staged_ok (with_charge c (mkEntry i (lock t (new_lock write_ttl_seconds)) (new_lock read_ttl_seconds) b 0)).
Proof.
  intros Httl. split_and!; simpl; try done.
  - unfold lock, new_lock. simpl. by case_match.
  - split; [by apply new_lock_wf|done].
  - by rewrite lock_ttl.
Qed.

Lemma reserve_write_fill_inv tag need ids r ok s :
  0 <= read_ttl_seconds → inv [] s → NoDup need.*1 → NoDup ids → length ids = length need →
  (∀ k, k ∈ need.*1 → staging_get k tag (l1_staging s) = None) →
  (∀ i, i ∈ ids → ∃ o, mm_objs (l1_mm s) !! i = Some o ∧ mo_valid o = true ∧ mo_l1_manager o = None) →
  wp (reserve_write_fill clock write_ttl_seconds read_ttl_seconds l1_manager_id tag need ids r ok)
    (λ _ s', inv [] s') s.
Proof.
  intros Httl. revert ids r ok s. induction need as [|[key b] need IH]; intros [|i ids] r ok s Hinv Hnd Hids Hlen Hget Hfresh;
    try done.
  cbn [reserve_write_fill]. apply wp_bind. unfold wp at 1. cbn [get].
  destruct (Hfresh i ltac:(left)) as (o & Hi & Hv & Ho).
  destruct (inv_claim [] s i o Hinv Hi Hv Ho) as (m' & -> & Hinv1 & Hoth).
  apply wp_bind. unfold wp at 1. cbn [put_mm].
  apply wp_bind. unfold wp at 1. rewrite now_eq. cbn beta iota.
  apply wp_bind. unfold wp at 1. cbn -[staging_set reserve_write_fill].
  csimpl in Hnd. apply NoDup_cons in Hnd as [Hkey Hnd]. apply NoDup_cons in Hids as [Hni Hids].
  apply IH; [|done|done|by simpl in Hlen; lia| |].
  - eapply (inv_put_staged _ (bump 1 (with_mm m' s)) key tag
      (with_charge _ (mkEntry i _ _ b 0))); [by apply inv_bump|by apply Hget; left|by apply staged_ok_new].
  - intros k Hk. cbn -[staging_get staging_set]. rewrite staging_get_set, decide_False.
    + apply Hget. by right.
    + intros [<- _]. done.
  - intros j Hj. cbn. rewrite Hoth by (intros ->; done). apply Hfresh. by right.
Qed.

Lemma zip_fst_sub {A B} (l : list A) (k : list B) : (zip l k).*1 `sublist_of` l.
Proof.
  revert k. induction l as [|x l IH]; intros [|y k]; csimpl; try apply sublist_nil_l.
  by apply sublist_skip.
Qed.

Lemma reserve_write_inv keys temps lay tag s :
  (∀ i j, (i ≤ j)%nat → clock i <= clock j) → 0 <= read_ttl_seconds → inv [] s → NoDup keys → length keys = length temps → layout_ok lay →
  wp (reserve_write clock write_ttl_seconds read_ttl_seconds l1_manager_id keys temps lay tag)
    (λ _ s', inv [] s') s.
Proof.
  intros Hmono Httl Hinv Hnd Hlen Hlay. unfold reserve_write. rewrite Hlen, Nat.eqb_refl. cbn [negb].
  apply wp_bind. eapply wp_mono.
  { apply reserve_write_scan_inv; [done|done| |intros k Hk; by apply not_elem_of_nil in Hk].
    csimpl. eapply sublist_NoDup; [done|apply zip_fst_sub]. }
  intros [[r ok] need] s1 (Hinv1 & Hnd1 & Hget1). cbn [fst snd] in *.
  destruct need as [|p need']; [done|]. set (need := p :: need') in *.
  apply wp_bind. unfold wp at 1. cbn [get].
  pose proof (mm_allocate_ok lay (length need) (l1_mm s1) (mi_mm _ _ (inv_mem _ _ Hinv1)) Hlay) as Hal.
  destruct (mm_allocate lay _ (l1_mm s1)) as [[[err ids] m]|] eqn:Ea; [|done].
  apply wp_bind, wp_bind. unfold wp at 1. cbn [put_mm]. unfold wp at 1, ret at 1. cbn beta iota.
  destruct (decide (err = SUCCESS)) as [->|Hne].
  - rewrite bool_decide_true by done. cbn [negb]. destruct Hal as (Hm & Hl & Hni & Hfresh & Hold).
    apply wp_bind. apply (wp_mono _ (λ _ s', inv [] s'));
      [|intros out s2 Hinv2; by apply (inv_with_log _ _ s2)].
    apply reserve_write_fill_inv; [done| |done|done|done|done|].
    + destruct Hinv1 as [Ht [H1 H2 H3 H4]]. split; [by destruct Ht|]. split; cbn; [done|done| |].
      * intros i Hi. rewrite Hold; [by apply H3|]. intros Hin. destruct (Hfresh i Hin) as [Hn _].
        destruct (H3 i Hi) as (o & ? & _). congruence.
      * intros i o Ho Hv Hown. destruct (decide (i ∈ ids)) as [Hin|Hin].
        -- destruct (Hfresh i Hin) as (_ & o2 & ? & _ & _ & ?). congruence.
        -- rewrite Hold in Ho by done. by eapply H4.
    + intros i Hi. destruct (Hfresh i Hi) as (_ & o & ? & ? & _ & ?). by exists o.
  - rewrite bool_decide_false by done. cbn [negb]. apply wp_bind, wp_bind.
    destruct err; try done. destruct Hal as [-> ->].
    unfold wp at 1, ret at 1. cbn beta iota. unfold wp at 1, ret at 1. cbn beta iota.
    apply wp_bind. unfold wp at 1. cbn [emit]. apply wp_ret.
    by eapply inv_same; [|exact Hinv1].
Qed.

Lemma inv_pend_snoc i pend s : inv (i :: pend) s → inv (pend ++ [i]) s.
Proof. apply inv_pend_perm, Permutation_cons_append. Qed.

Lemma finish_write_loop_inv tag keys acc s :
  inv (fw_discarded acc) s →
  wp (finish_write_loop clock tag keys acc) (λ acc' s', inv (fw_discarded acc') s') s.
Proof.
  revert acc s. induction keys as [|key keys IH]; intros [r nk nm d] s Hinv; [done|].
  cbn [finish_write_loop]. apply wp_bind. eapply wp_mono; [by apply take_staging_inv|].
  intros [err [e|]] s1; [intros (-> & Hinv1 & He)|by intros [_ ?]; apply IH].
  apply wp_bind. unfold wp at 1. cbn [get]. destruct (dmem key (l1_objects s1)) eqn:Ed.
  - apply IH. by apply inv_pend_snoc.
  - apply wp_bind. unfold wp at 1. cbn [put_objects]. destruct (is_temporary e); apply IH; by apply inv_admit.
Qed.

Lemma finish_write_inv keys tag s : inv [] s → wp (finish_write clock keys tag) (λ _ s', inv [] s') s.
Proof.
  intros Hinv. unfold finish_write. apply wp_bind.
  eapply wp_mono; [by apply finish_write_loop_inv|]. intros acc s1 Hinv1. apply wp_bind.
  eapply wp_mono; [apply (free_objs_inv _ []); by rewrite app_nil_r|]. intros _ s2 [Hinv2 _].
  destruct (fw_notify acc); [done|]. by apply (inv_with_log _ _ s2).
Qed.

Lemma finish_write_read_loop_inv total tag keys acc s :
  inv (fwr_discarded acc) s →
  wp (finish_write_read_loop clock total tag keys acc) (λ acc' s', inv (fwr_discarded acc') s') s.
Proof.
  revert acc s. induction keys as [|key keys IH]; intros [r ok meta res d] s Hinv; [done|].
  cbn [finish_write_read_loop]. apply wp_bind. eapply wp_mono; [by apply take_staging_inv|].
  intros [err [e|]] s1; [intros (-> & Hinv1 & He)|by intros [_ ?]; apply IH].
  apply wp_bind. unfold wp at 1. cbn [get]. apply wp_bind. unfold wp at 1. rewrite now_n_eq. cbn beta iota.
  destruct (dget key (l1_objects s1)) as [e0|] eqn:Ek.
  - apply wp_bind. unfold wp at 1. cbn [put_objects]. apply IH. cbn [fwr_discarded].
    pose proof (inv_resident_ok _ _ _ _ Hinv1 Ek) as He0.
    apply (inv_update_resident _ (bump total s1) key e0); [|done|done|].
    + by apply inv_bump, inv_pend_snoc.
    + apply lock_resident_ok; [done|]. apply lock_n_ok, He0.
  - apply wp_bind. unfold wp at 1. cbn [put_objects]. apply IH. cbn [fwr_discarded].
    apply (inv_admit _ (bump total s1)); [by apply inv_bump| |].
    { change (dmem key (l1_objects s1) = false). unfold dmem. by rewrite Ek. }
    apply lock_resident_ok; [done|]. apply lock_n_ok, He.
Qed.

Lemma finish_write_and_reserve_read_inv keys n tag s :
  inv [] s → wp (finish_write_and_reserve_read clock keys n tag) (λ _ s', inv [] s') s.
Proof.
  intros Hinv. unfold finish_write_and_reserve_read. apply wp_bind.
  eapply wp_mono; [by apply finish_write_read_loop_inv|]. intros acc s1 Hinv1. apply wp_bind.
  eapply wp_mono; [apply (free_objs_inv _ []); by rewrite app_nil_r|]. intros _ s2 [Hinv2 _].
  apply wp_bind. destruct (fwr_resident acc).
  - by apply (inv_with_log _ _ s2).
  - by apply (inv_with_log _ _ (with_log _ s2)), inv_with_log.
Qed.

Lemma finish_write_delete_loop_inv tag keys r d gone s :
  inv d s → wp (finish_write_delete_loop clock tag keys r d gone) (λ acc s', inv acc.1.2 s') s.
Proof.
  revert r d gone s. induction keys as [|key keys IH]; intros r d gone s Hinv; [done|].
  cbn [finish_write_delete_loop]. apply wp_bind. eapply wp_mono; [by apply take_staging_inv|].
  intros [err [e|]] s1; [intros (-> & Hinv1 & He)|by intros [_ ?]; apply IH].
  apply wp_bind. unfold wp at 1. cbn [get]. apply IH. by apply inv_pend_snoc.
Qed.

Lemma report_gone_inv keys s : inv [] s → wp (_report_staging_gone keys) (λ _ s', inv [] s') s.
Proof. intros Hinv. destruct keys; [done|]. by apply inv_with_log. Qed.

Lemma finish_write_and_delete_inv keys tag s :
  inv [] s → wp (finish_write_and_delete clock keys tag) (λ _ s', inv [] s') s.
Proof.
  intros Hinv. unfold finish_write_and_delete. apply wp_bind.
  eapply wp_mono; [by apply finish_write_delete_loop_inv|]. intros [[r d] gone] s1 Hinv1. apply wp_bind.
  eapply wp_mono; [apply (free_objs_inv _ []); by rewrite app_nil_r|]. intros _ s2 [Hinv2 _].
  apply wp_bind. by eapply wp_mono; [apply report_gone_inv|].
Qed.

Lemma delete_loop_inv force keys acc s :
  inv (del_free acc) s →
  wp (delete_loop clock force keys acc) (λ acc' s', inv (del_free acc') s') s.
Proof.
  revert acc s. induction keys as [|key keys IH]; intros [r ok f gone] s Hinv; [done|].
  cbn [delete_loop]. apply wp_bind. unfold wp at 1. cbn [get].
  destruct (match dget key (l1_objects s) with None => _ | Some _ => _ end); [by apply IH|].
  apply wp_bind. eapply wp_mono; [by apply reclaim_staging_ok|]. intros _ s1 [Hinv1 Hrc].
  apply wp_bind. unfold wp at 1. cbn [get]. destruct (dmem key (l1_staging s1)); [by apply IH|].
  destruct (dget key (l1_objects s)) as [e|] eqn:Ek; [|by apply IH].
  apply wp_bind. unfold wp at 1. rewrite now_eq. cbn beta iota.
  destruct (_ && _); [by apply IH, inv_bump|].
  apply wp_bind. unfold wp at 1. cbn [put_objects]. apply IH. cbn [del_free].
  apply inv_pend_snoc, (inv_remove_resident _ (bump 1 s1) key e); [by apply inv_bump|].
  cbn. by rewrite (rc_objects _ _ _ _ _ Hrc).
Qed.

Lemma free_and_report_inv keys ids s :
  inv ids s → wp (_free_and_report_deleted keys ids) (λ _ s', inv [] s') s.
Proof.
  intros Hinv. unfold _free_and_report_deleted. apply wp_bind. unfold wp at 1. cbn [get]. apply wp_bind.
  eapply wp_mono; [apply (free_objs_inv _ []); by rewrite app_nil_r|]. intros _ s2 [Hinv2 _].
  by apply inv_with_log.
Qed.

Lemma delete_inv keys force s : inv [] s → wp (delete clock keys force) (λ _ s', inv [] s') s.
Proof.
  intros Hinv. unfold delete. apply wp_bind.
  eapply wp_mono; [by apply delete_loop_inv|]. intros acc s1 Hinv1.
  apply wp_bind. eapply wp_mono; [by apply free_and_report_inv|]. intros u s2 Hinv2.
  apply wp_bind. by eapply wp_mono; [apply report_gone_inv|].
Qed.

Lemma reclaim_all_inv force keys s :
  inv [] s → wp (reclaim_all clock force keys) (λ _ s', inv [] s' ∧ l1_objects s' = l1_objects s) s.
Proof.
  revert s. induction keys as [|key keys IH]; intros s Hinv; [done|]. cbn [reclaim_all].
  apply wp_bind. eapply wp_mono; [by apply reclaim_staging_ok|]. intros n s1 [Hinv1 Hrc].
  eapply wp_mono; [by apply IH|]. intros u s2 [? Ho]. split; [done|]. rewrite Ho. apply Hrc.
Qed.

Lemma inv_drop_residents s s' :
  inv [] s → same_tables (with_objects [] s) s' → inv (memory_obj <$> dvalues (l1_objects s)) s'.
Proof.
  intros [[H1 H2 H3 H4 H5] H6] Hs. eapply inv_same; [exact Hs|]. split.
  - split; cbn; try done; [constructor|]. intros e Hin. by apply not_elem_of_nil in Hin.
  - eapply mem_inv_perm; [|exact H6]. unfold owned, entries. cbn. by rewrite fmap_app.
Qed.

Lemma clear_force_inv s : inv [] s → wp (clear_force clock) (λ _ s', inv [] s') s.
Proof.
  intros Hinv. unfold clear_force. apply wp_bind. unfold wp at 1. cbn [get].
  (* the table is emptied after its objects are freed *)
  pose proof (inv_drop_residents s (with_objects [] s) Hinv ltac:(done)) as Hpend.
  pose proof (free_objs_inv (memory_obj <$> dvalues (l1_objects s)) [] (with_objects [] s)
    ltac:(by rewrite app_nil_r)) as Hf.
  unfold wp, free_objs, bind, get in Hf. cbn in Hf.
  destruct (mm_free _ (l1_mm s)) as [m|] eqn:Em; [|done]. cbn in Hf. destruct Hf as [Hinv1 _].
  apply wp_bind. unfold wp at 1. rewrite (free_objs_eq _ _ _ Em).
  apply wp_bind. unfold wp at 1. cbn [put_objects]. apply wp_bind. unfold wp at 1. cbn [emit].
  apply wp_bind. eapply wp_mono; [apply reclaim_all_inv|].
  - by eapply inv_same; [|exact Hinv1].
  - intros _ s2 [Hinv2 _]. by apply report_gone_inv.
Qed.

Lemma unlocked_residents_ok items s :
  wp (unlocked_residents clock items) (λ r s',
    r `sublist_of` ((λ p, (p.1, memory_obj p.2)) <$> items) ∧
    (∀ key e, (key, e) ∈ items → NoDup items.*1 → key ∉ r.*1 →
       ∃ t, (l1_tick s ≤ t < l1_tick s')%nat ∧ is_locked (clock t) (read_lock e) = true) ∧
    (∀ key e, (key, e) ∈ items → NoDup items.*1 → key ∈ r.*1 →
       ∃ t, (l1_tick s ≤ t < l1_tick s')%nat ∧ is_locked (clock t) (read_lock e) = false) ∧
    same_tables s s' ∧ l1_log s' = l1_log s ∧ (l1_tick s ≤ l1_tick s')%nat) s.
Proof.
  revert s. induction items as [|[key e] items IH]; intros s.
  { cbn. split_and!; try done; intros ?? Hin; by apply not_elem_of_nil in Hin. }
  cbn [unlocked_residents]. apply wp_bind. unfold wp at 1. rewrite now_eq. cbn beta iota.
  apply wp_bind. eapply wp_mono; [apply (IH (bump 1 s))|].
  intros r s1 (Hsub & Hloc & Hfree & Hst & Hlog & Htick). cbn in Htick. apply wp_ret.
  assert (∀ key' e', (key', e') ∈ items → NoDup (key :: items.*1) → key' ≠ key) as Hne.
  { intros key' e' Hin [Hk _]%NoDup_cons ->. apply Hk, list_elem_of_fmap. by exists (key, e'). }
  assert (key ∉ items.*1 → key ∉ r.*1) as Hnr.
  { intros Hk Hin. apply Hk. apply list_elem_of_fmap in Hin as ((k, i) & -> & Hin).
    eapply sublist_subseteq in Hin; [|exact Hsub]. apply list_elem_of_fmap in Hin as ((k', e') & ? & Hin).
    simplify_eq/=. apply list_elem_of_fmap. by exists (k', e'). }
  destruct (is_locked (clock (l1_tick s)) (read_lock e)) eqn:El; csimpl; split_and!; try done; try lia.
  - by apply sublist_cons.
  - intros key' e' [?|Hin]%elem_of_cons Hnd Hk; simplify_eq.
    + exists (l1_tick s). split; [lia|done].
    + destruct (Hloc _ _ Hin ltac:(by apply NoDup_cons in Hnd as [_ ?]) Hk) as (t & ? & ?).
      exists t. cbn in *. split; [lia|done].
  - intros key' e' [?|Hin]%elem_of_cons Hnd Hk; simplify_eq.
    + apply NoDup_cons in Hnd as [Hk' _]. by apply Hnr in Hk'.
    + destruct (Hfree _ _ Hin ltac:(by apply NoDup_cons in Hnd as [_ ?]) Hk) as (t & ? & ?).
      exists t. cbn in *. split; [lia|done].
  - by apply sublist_skip.
  - intros key' e' [?|Hin]%elem_of_cons Hnd Hk; simplify_eq.
    + exfalso. apply Hk. left.
    + destruct (Hloc _ _ Hin ltac:(by apply NoDup_cons in Hnd as [_ ?])) as (t & ? & ?); [set_solver|].
      exists t. cbn in *. split; [lia|done].
  - intros key' e' [?|Hin]%elem_of_cons Hnd Hk; simplify_eq.
    + exists (l1_tick s). split; [lia|done].
    + destruct (Hfree _ _ Hin ltac:(by apply NoDup_cons in Hnd as [_ ?])) as (t & ? & ?).
      { apply elem_of_cons in Hk as [->|?]; [|done]. by destruct (Hne _ _ Hin Hnd). }
      exists t. cbn in *. split; [lia|done].
Qed.

Lemma inv_remove_residents pend r s :
  inv pend s → NoDup r.*1 →
  (∀ k i, (k, i) ∈ r → ∃ e, dget k (l1_objects s) = Some e ∧ memory_obj e = i) →
  inv (pend ++ r.*2) (with_objects (foldl (λ d k, ddel k d) (l1_objects s) r.*1) s).
Proof.
  revert pend s. induction r as [|[k i] r IH]; intros pend s Hinv Hnd Hget; csimpl.
  { rewrite app_nil_r. by eapply inv_same; [|exact Hinv]. }
  csimpl in Hnd. apply NoDup_cons in Hnd as [Hk Hnd].
  destruct (Hget k i ltac:(left)) as (e & Ek & <-).
  eapply inv_pend_perm; [by apply Permutation_middle|].
  apply (IH (memory_obj e :: pend) (with_objects (ddel k (l1_objects s)) s)).
  - by apply inv_remove_resident.
  - done.
  - intros k' i' Hin. cbn. rewrite dget_ddel_ne; [apply Hget; by right|].
    intros ->. apply Hk, list_elem_of_fmap. by exists (k', i').
Qed.

Lemma clear_items pend s s1 r :
  inv pend s → same_tables s s1 →
  r `sublist_of` ((λ p, (p.1, memory_obj p.2)) <$> l1_objects s) →
  inv (pend ++ r.*2) (with_objects (foldl (λ d k, ddel k d) (l1_objects s) r.*1) s1).
Proof.
  intros Hinv (E1 & E2 & E3 & E4) Hsub.
  eapply inv_same; [|apply inv_remove_residents; [exact Hinv| |]].
  - by split_and!.
  - eapply sublist_NoDup; [apply (ti_objects _ (inv_tab _ _ Hinv))|].
    unfold dkeys. replace (l1_objects s).*1 with ((λ p, (p.1, memory_obj p.2)) <$> l1_objects s).*1
      by (by rewrite <-list_fmap_compose). by apply fmap_sublist.
  - intros k i Hin. eapply sublist_subseteq in Hin; [|exact Hsub].
    apply list_elem_of_fmap in Hin as ([k' e] & ? & Hin). simplify_eq/=. exists e. split; [|done].
    apply elem_dget; [apply (ti_objects _ (inv_tab _ _ Hinv))|done].
Qed.

Lemma reclaim_expired_inv keys gone s :
  inv [] s → wp (reclaim_expired clock keys gone) (λ _ s', inv [] s' ∧ l1_objects s' = l1_objects s) s.
Proof.
  revert gone s. induction keys as [|key keys IH]; intros gone s Hinv; [done|]. cbn [reclaim_expired].
  apply wp_bind. eapply wp_mono; [by apply reclaim_staging_ok|]. intros n s1 [Hinv1 Hrc].
  apply wp_bind. unfold wp at 1. cbn [get].
  eapply wp_mono; [by apply IH|]. intros g s2 [? Ho]. split; [done|]. rewrite Ho. apply Hrc.
Qed.

Lemma clear_unlocked_inv s : inv [] s → wp (clear_unlocked clock) (λ _ s', inv [] s') s.
Proof.
  intros Hinv. unfold clear_unlocked. apply wp_bind. unfold wp at 1. cbn [get].
  apply wp_bind. eapply wp_mono; [apply unlocked_residents_ok|].
  intros r s1 (Hsub & _ & _ & Hst & _ & _).
  pose proof (clear_items [] s s1 r Hinv Hst Hsub) as Hinv1.
  apply wp_bind. unfold wp at 1. cbn [put_objects]. apply wp_bind.
  apply (wp_mono _ (λ _ s', inv [] s')).
  - destruct r as [|p r]; [done|]. by apply free_and_report_inv.
  - intros u s2 Hinv2. apply wp_bind. eapply wp_mono; [by apply reclaim_expired_inv|].
    intros gone s3 [Hinv3 _]. by apply report_gone_inv.
Qed.

Lemma clear_inv force s : inv [] s → wp (clear clock force) (λ _ s', inv [] s') s.
Proof. destruct force; [apply clear_force_inv|apply clear_unlocked_inv]. Qed.

Lemma touch_keys_inv b keys s : inv [] s → wp (touch_keys b keys) (λ _ s', inv [] s') s.
Proof. by apply inv_with_log. Qed.

Lemma close_inv s :
  inv [] s → wp close (λ _ s', inv [] s' ∧ l1_objects s' = [] ∧ l1_staging s' = []) s.
Proof.
  intros [[H1 H2 H3 H4 H5] H6].
  assert (inv (owned s) (with_staging [] 0 (with_objects [] s))) as Hpend.
  { split; [|by rewrite app_nil_r]. split; cbn; try done.
    - constructor.
    - by split; [constructor|].
    - intros e Hin. by apply not_elem_of_nil in Hin.
    - intros e Hin. by apply not_elem_of_nil in Hin. }
  pose proof (free_objs_inv (owned s) [] _ ltac:(by rewrite app_nil_r)) as Hf. clear Hpend.
  unfold wp, free_objs, bind, get in Hf. cbn in Hf.
  destruct (mm_free _ (l1_mm s)) as [m|] eqn:Em; [|done]. cbn in Hf. destruct Hf as [Hinv1 _].
  unfold close. apply wp_bind. unfold wp at 1. cbn [get].
  fold (entries s). fold (owned s).
  apply wp_bind. unfold wp at 1. rewrite (free_objs_eq _ _ _ Em). done.
Qed.

(** Queries change nothing but the clock. *)
Lemma any_expired_ok items s : wp (any_expired clock items) (λ b s',
    same_tables s s' ∧ l1_log s' = l1_log s ∧ (l1_tick s ≤ l1_tick s')%nat ∧
    (b = true → ∃ e t, e ∈ items ∧ (l1_tick s ≤ t < l1_tick s')%nat ∧ is_locked (clock t) (write_lock e) = false) ∧
    (b = false → ∀ e, e ∈ items → ∃ t, (l1_tick s ≤ t < l1_tick s')%nat ∧ is_locked (clock t) (write_lock e) = true)) s.
Proof.
  revert s. induction items as [|e items IH]; intros s.
  { cbn. split_and!; try done. intros _ e Hin. by apply not_elem_of_nil in Hin. }
  cbn [any_expired]. apply wp_bind. unfold wp at 1. rewrite now_eq. cbn beta iota.
  destruct (is_locked (clock (l1_tick s)) (write_lock e)) eqn:El; cbn [negb].
  - eapply wp_mono; [apply (IH (bump 1 s))|]. cbn. intros b s' (Hst & Hlog & Ht & Htrue & Hfalse).
    split_and!; [done|done|lia| |].
    + intros Hb. destruct (Htrue Hb) as (e' & t & ? & ? & ?). exists e', t. split_and!; [by right|lia|lia|done].
    + intros Hb e' [->|Hin]%elem_of_cons; [exists (l1_tick s); split; [lia|done]|].
      destruct (Hfalse Hb e' Hin) as (t & ? & ?). exists t. split; [lia|done].
  - apply wp_ret. split_and!; [done|done|cbn; lia| |done]. intros _. exists e, (l1_tick s).
    split_and!; [left|lia|cbn; lia|done].
Qed.

Lemma is_key_evictable_inv key s : inv [] s → wp (is_key_evictable clock key) (λ _ s', inv [] s') s.
Proof.
  intros Hinv. unfold is_key_evictable. apply wp_bind. unfold wp at 1. cbn [get].
  assert (∀ s', same_tables s s' → wp match dget key (l1_staging s) with
    | None => ret false | Some per_tag => any_expired clock (dvalues per_tag) end (λ _ s'', inv [] s'') s') as Hst.
  { intros s' Hs'. destruct (dget key (l1_staging s)); [|by eapply inv_same].
    eapply wp_mono; [apply any_expired_ok|]. intros b s'' (Hs'' & _).
    eapply inv_same; [exact Hs''|]. by eapply inv_same. }
  destruct (dget key (l1_objects s)); [|by apply Hst].
  apply wp_bind. unfold wp at 1. rewrite now_eq. cbn beta iota.
  destruct (negb _); [by apply wp_ret, inv_bump|by apply Hst].
Qed.

Lemma count_locked_ok f es s :
  wp (count_locked clock f es) (λ n s', 0 <= n <= Z.of_nat (length es) ∧ same_tables s s') s.
Proof.
  revert s. induction es as [|e es IH]; intros s; [by cbn|]. cbn [count_locked].
  apply wp_bind. unfold wp at 1. rewrite now_eq. cbn beta iota. apply wp_bind.
  eapply wp_mono; [apply (IH (bump 1 s))|]. intros n s' [Hn Hs]. apply wp_ret.
  split; [|done]. simpl length. case_match; lia.
Qed.
End invariant.
