(* ===== verification/L1ManagerProps.v ===== *)
(** * Histories of the L1 manager and its guarantees

    A history is any sequence of calls of the public methods, interleaved with
    what the memory manager does on its own and with clients narrowing the
    used size of an object. *)

From stdpp Require Import gmap strings list relations.
From Stdlib Require Import ZArith Lia.
From S2P Require Import Prelude TTLLock TensorAllocator Keys L1Memory L1Manager L1ManagerInv.

Open Scope Z_scope.
Open Scope l1_scope.

Create HintDb l1_quiet.

(** ** Calls *)

Inductive l1_call : Type :=
  | CReserveRead (keys : list ObjectKey) (read_locks : Z)
  | CUnsafeRead (keys : list ObjectKey)
  | CFinishRead (keys : list ObjectKey) (read_locks : Z)
  | CReserveWrite (keys : list ObjectKey) (temps : list bool) (lay : MemoryLayoutDesc) (tag : string)
  | CFinishWrite (keys : list ObjectKey) (tag : string)
  | CFinishWriteAndReserveRead (keys : list ObjectKey) (read_locks : Z) (tag : string)
  | CFinishWriteAndDelete (keys : list ObjectKey) (tag : string)
  | CDelete (keys : list ObjectKey) (force : bool)
  | CClear (force : bool)
  | CTouch (has_subscribers : bool) (keys : list ObjectKey)
  | CIsKeyEvictable (key : ObjectKey)
  | CReportStatus
  | CClose.

(** What a caller of [reserve_write] owes: one flag per key, no key twice, and
    a layout that takes memory. The method checks the flags; with a key twice it
    loses track of a buffer ([duplicate_keys_leak]). *)
Definition call_ok (c : l1_call) : Prop :=
  match c with
  | CReserveWrite keys temps lay _ => NoDup keys ∧ length keys = length temps ∧ layout_ok lay
  | _ => True
  end.

Lemma wp_drop {M A} (c : L1M M A) (P : L1 M → Prop) s :
  wp c (λ _ s', P s') s → wp (let* _ := c in ret tt) (λ _ s', P s') s.
Proof. intros Hc. apply wp_bind. by eapply wp_mono; [exact Hc|]. Qed.

Section histories.
Context {M : Type} `{L1MemoryLaws M}.
Context (clock : nat → Z) (write_ttl_seconds read_ttl_seconds l1_manager_id : Z).
Hypothesis clock_mono : ∀ i j, (i ≤ j)%nat → clock i <= clock j.
Hypothesis read_ttl_nonneg : 0 <= read_ttl_seconds.

#[local] Abbreviation L1 := (L1 M).
#[local] Abbreviation inv := (inv (M:=M) write_ttl_seconds read_ttl_seconds l1_manager_id).
Implicit Types (s : L1) (m : M).

Definition run_call (c : l1_call) : L1M M unit :=
  match c with
  | CReserveRead keys n => let* _ := reserve_read clock keys n in ret tt
  | CUnsafeRead keys => let* _ := unsafe_read clock keys in ret tt
  | CFinishRead keys n => let* _ := finish_read clock keys n in ret tt
  | CReserveWrite keys temps lay tag =>
      let* _ := reserve_write clock write_ttl_seconds read_ttl_seconds l1_manager_id keys temps lay tag in
      ret tt
  | CFinishWrite keys tag => let* _ := finish_write clock keys tag in ret tt
  | CFinishWriteAndReserveRead keys n tag =>
      let* _ := finish_write_and_reserve_read clock keys n tag in ret tt
  | CFinishWriteAndDelete keys tag => let* _ := finish_write_and_delete clock keys tag in ret tt
  | CDelete keys force => let* _ := delete clock keys force in ret tt
  | CClear force => clear clock force
  | CTouch b keys => touch_keys b keys
  | CIsKeyEvictable key => let* _ := is_key_evictable clock key in ret tt
  | CReportStatus => let* _ := report_status clock in ret tt
  | CClose => close
  end.

Inductive l1_step : L1 → L1 → Prop :=
  | l1step_call c s s' : call_ok c → run_call c s = (Ret tt, s') → l1_step s s'
  | l1step_env s m : mm_env (l1_mm s) m → l1_step s (with_mm m s)
  | l1step_used_size s i n m :
      mm_update i (set_used_size n) (l1_mm s) = Ret m → is_Some (mm_objs (l1_mm s) !! i) →
      l1_step s (with_mm m s).

Definition l1_init m : L1 := mkL1 [] [] 0 m [] 0.

(** A memory manager that this L1 manager is bound to: consistent, and no
    object carries the (fresh) owner tag yet. *)
Definition fresh_mm m : Prop :=
  mm_inv m ∧ ∀ i o, mm_objs m !! i = Some o → mo_l1_manager o ≠ Some l1_manager_id.

Lemma l1_init_inv m : fresh_mm m → inv [] (l1_init m).
Proof.
  intros [Hm Hf]. split.
  - split; cbn; try done; [constructor|by split; [constructor|]|..];
      intros e Hin; by apply not_elem_of_nil in Hin.
  - split; cbn; [done|constructor| |]; [intros i Hin; by apply not_elem_of_nil in Hin|].
    intros i o Ho _ Hid. by destruct (Hf i o Ho).
Qed.

Lemma run_call_inv c s : call_ok c → inv [] s → wp (run_call c) (λ _ s', inv [] s') s.
Proof.
  intros Hc Hinv. destruct c; cbn [run_call]; try apply wp_drop.
  - by apply reserve_read_inv.
  - by apply unsafe_read_inv.
  - by apply finish_read_inv.
  - destruct Hc as (? & ? & ?). by apply reserve_write_inv.
  - by apply finish_write_inv.
  - by apply finish_write_and_reserve_read_inv.
  - by apply finish_write_and_delete_inv.
  - by apply delete_inv.
  - by apply clear_inv.
  - by apply touch_keys_inv.
  - by apply is_key_evictable_inv.
  - unfold report_status. apply wp_bind. unfold wp at 1. cbn [get].
    apply wp_bind. eapply wp_mono; [apply count_locked_ok|]. intros n s1 [_ Hs1].
    apply wp_bind. eapply wp_mono; [apply count_locked_ok|]. intros n2 s2 [_ Hs2].
    destruct (mm_get_memory_usage _). eapply inv_same; [exact Hs2|]. by eapply inv_same.
  - eapply wp_mono; [by apply close_inv|]. by intros ? ? [? _].
Qed.

Lemma inv_env s m : inv [] s → mm_env (l1_mm s) m → inv [] (with_mm m s).
Proof.
  intros [Ht [H1 H2 H3 H4]] Henv. destruct (mm_env_ok _ _ H1 Henv) as [Hm Ho].
  split; [by destruct Ht|]. split; cbn; rewrite ?Ho; done.
Qed.

Lemma inv_used_size s i n m :
  inv [] s → mm_update i (set_used_size n) (l1_mm s) = Ret m → is_Some (mm_objs (l1_mm s) !! i) →
  inv [] (with_mm m s).
Proof.
  intros [Ht [H1 H2 H3 H4]] Hu [o Ho]. destruct (set_used_size n o) as [o'|] eqn:Eo.
  - assert (mo_valid o' = mo_valid o ∧ mo_address o' = mo_address o ∧ mo_phy_size o' = mo_phy_size o ∧
      mo_fmt o' = mo_fmt o ∧ mo_l1_manager o' = mo_l1_manager o) as (E1 & E2 & E3 & E4 & E5)
      by (unfold set_used_size in Eo; case_match; by simplify_eq/=).
    destruct (mm_update_ok i (set_used_size n) o o' (l1_mm s) H1 Ho Eo E1 E2 E3 E4) as (m' & Em & Hm & Hobjs).
    rewrite Hu in Em. simplify_eq. split; [by destruct Ht|]. split; cbn; [done|done| |].
    + intros j Hj. rewrite Hobjs. destruct (H3 j Hj) as (oj & Hoj & ? & ?).
      destruct (decide (j = i)) as [->|]; [|rewrite lookup_insert_ne by done; by exists oj].
      exists o'. rewrite lookup_insert_eq. simplify_eq. split_and!; congruence.
    + intros j oj. rewrite Hobjs. destruct (decide (j = i)) as [->|].
      * rewrite lookup_insert_eq. intros [= <-] ??. eapply H4; [done|congruence..].
      * rewrite lookup_insert_ne by done. apply H4.
  - exfalso. eapply (mm_update_raise i (set_used_size n) o (l1_mm s) Ho); [|exact Hu]. congruence.
Qed.

Lemma l1_step_inv s s' : l1_step s s' → inv [] s → inv [] s'.
Proof.
  intros Hstep Hinv. destruct Hstep as [c s s' Hc Hr|s m Henv|s i n m Hu Hi].
  - pose proof (run_call_inv c s Hc Hinv) as Hw. unfold wp in Hw. by rewrite Hr in Hw.
  - by apply inv_env.
  - by eapply inv_used_size.
Qed.

Lemma l1_reachable_inv m s : fresh_mm m → rtc l1_step (l1_init m) s → inv [] s.
Proof.
  intros Hm. apply (rtc_ind_r (inv [])); [by apply l1_init_inv|]. intros; by eapply l1_step_inv.
Qed.

(** ** Read reservations protect an object *)

(** [n] read locks are held on the resident object [i] of [key], none of
    which expires before [T]. *)
Definition held (key : ObjectKey) (i : oid) (n T : Z) s : Prop :=
  ∃ e, dget key (l1_objects s) = Some e ∧ memory_obj e = i ∧
       n <= counter (read_lock e) ∧ T <= expiration_ms (read_lock e) ∧
       T <= clock (l1_tick s) + ttl_ms (read_lock e).

(** The same, as long as [T] has not passed. *)
Definition held_until (key : ObjectKey) (i : oid) (n T : Z) s : Prop :=
  clock (l1_tick s) < T → held key i n T s.

Definition keeps (key : ObjectKey) (i : oid) (n T : Z) s s' : Prop :=
  (l1_tick s ≤ l1_tick s')%nat ∧ held_until key i n T s'.

Lemma held_mono key i n T s s' :
  (l1_tick s ≤ l1_tick s')%nat → dget key (l1_objects s') = dget key (l1_objects s) →
  held_until key i n T s → held_until key i n T s'.
Proof.
  intros Ht Ho Hh Hlt. pose proof (clock_mono _ _ Ht).
  destruct (Hh ltac:(lia)) as (e & He & Hi & Hc & Hx & Hx2). exists e. rewrite Ho.
  split_and!; [done|done|done|done|lia].
Qed.

Lemma held_locked n T e t :
  1 <= n → n <= counter (read_lock e) → T <= expiration_ms (read_lock e) → t < T →
  is_locked t (read_lock e) = true.
Proof. intros. apply is_locked_true. lia. Qed.

Lemma lock_n_keeps ts l n T :
  (∀ t, t ∈ ts → t < T ∧ T <= t + ttl_ms l) → n <= counter l → T <= expiration_ms l →
  n + Z.of_nat (length ts) <= counter (lock_n ts l) ∧ T <= expiration_ms (lock_n ts l).
Proof.
  revert n l. induction ts as [|t ts IH]; intros n l Hts Hc Hx; [split; simpl; lia|]. simpl lock_n.
  destruct (Hts t ltac:(left)) as [? ?].
  assert (lock t l = mkLock (counter l + 1) (t + ttl_ms l) (ttl_ms l)) as ->.
  { unfold lock. destruct (Z.leb_spec (expiration_ms l) t); [lia|done]. }
  destruct (IH (n + 1) (mkLock (counter l + 1) (t + ttl_ms l) (ttl_ms l))) as [? ?]; simpl; [|lia|lia|].
  - intros t' Ht'. apply Hts. by right.
  - split; simpl in *; lia.
Qed.

(** Taking locks on a lock in any state leaves at least that many. *)
Lemma lock_n_acquires ts l T :
  ts ≠ [] → 0 <= counter l → (∀ t, t ∈ ts → t < T ∧ T <= t + ttl_ms l) →
  Z.of_nat (length ts) <= counter (lock_n ts l) ∧ T <= expiration_ms (lock_n ts l).
Proof.
  destruct ts as [|t ts]; [done|]. intros _ Hc Hts. simpl lock_n. destruct (Hts t ltac:(left)) as [? ?].
  assert (1 <= counter (lock t l) ∧ T <= expiration_ms (lock t l)) as [? ?]
    by (unfold lock; destruct (Z.leb_spec (expiration_ms l) t); simpl; lia).
  destruct (lock_n_keeps ts (lock t l) 1 T) as [? ?]; [|done|done|].
  - intros t' Ht'. rewrite lock_ttl. apply Hts. by right.
  - split; [simpl length; lia|done].
Qed.

(** The readings of [now_n] lie between two ticks. *)
Lemma readings_between s k n t :
  t ∈ clock <$> seq (l1_tick s) k → (l1_tick s + k ≤ n)%nat → clock (l1_tick s) <= t <= clock n.
Proof.
  intros (j & -> & Hj%elem_of_seq)%list_elem_of_fmap Hle. split; apply clock_mono; lia.
Qed.

(** Further locks on the object keep it held. *)
Lemma held_lock_more key i n T s k e :
  dget key (l1_objects s) = Some e → held_until key i n T s →
  held_until key i n T
    (with_objects (dset key (with_read_lock (lock_n (clock <$> seq (l1_tick s) k) (read_lock e)) e)
                     (l1_objects s)) (bump k s)).
Proof.
  intros Ek Hh Hlt. cbn in Hlt. pose proof (clock_mono (l1_tick s) (l1_tick s + k) ltac:(lia)).
  destruct (Hh ltac:(lia)) as (e0 & He0 & Hi & Hc & Hx & Hx2). simplify_eq.
  destruct (lock_n_keeps (clock <$> seq (l1_tick s) k) (read_lock e) n T) as [Hc' Hx']; [|done|done|].
  { intros t Ht. pose proof (readings_between s k _ t Ht (le_n _)). lia. }
  eexists. cbn. rewrite dget_dset_eq. split_and!; [done|done|cbn; lia|done|]. cbn.
  rewrite lock_n_ttl. lia.
Qed.

Lemma reserve_read_loop_keeps total keys r ok key i n T s :
  held_until key i n T s → wp (reserve_read_loop clock total keys r ok) (λ _ s', keeps key i n T s s') s.
Proof.
  revert r ok s. induction keys as [|k keys IH]; intros r ok s Hh; [by split|]. cbn [reserve_read_loop].
  apply wp_bind. unfold wp at 1. cbn [get]. destruct (dget k (l1_objects s)) as [e|] eqn:Ek; [|by apply IH].
  apply wp_bind. unfold wp at 1. rewrite now_n_eq. cbn beta iota.
  apply wp_bind. unfold wp at 1. cbn [put_objects]. eapply wp_mono; [apply IH|].
  - destruct (decide (k = key)) as [->|Hne]; [by apply held_lock_more|].
    eapply held_mono; [| |exact Hh]; cbn; [lia|by rewrite dget_dset_ne].
  - intros a s' [Ht Hh']. cbn in Ht. split; [lia|done].
Qed.

Definition occurrences (key : ObjectKey) (keys : list ObjectKey) : Z :=
  Z.of_nat (length (filter (λ k, k = key) keys)).

Lemma occurrences_cons key k keys :
  occurrences key (k :: keys) = (if decide (k = key) then 1 else 0) + occurrences key keys.
Proof. unfold occurrences. rewrite filter_cons. repeat case_decide; simpl length; try lia; done. Qed.

(** The locks one release of [k] takes from [key]. *)
Definition released (key k : ObjectKey) (total : nat) : Z :=
  if decide (k = key) then Z.of_nat total else 0.

Lemma held_weaken key i n n' T s : n' <= n → held_until key i n T s → held_until key i n' T s.
Proof.
  intros Hle Hh Hlt. destruct (Hh Hlt) as (e & ? & ? & ? & ? & ?). exists e. split_and!; try done. lia.
Qed.

Lemma held_unlock key i n T s k e total d :
  dget k (l1_objects s) = Some e → is_locked (clock (l1_tick s)) (read_lock e) = true →
  held_until key i n T s →
  held_until key i (n - released key k total) T
    (with_objects (dset k (with_read_lock (unlock_n total (read_lock e)) e) (l1_objects s)) (bump d s)).
Proof.
  intros Ek El Hh Hlt. cbn in Hlt. pose proof (clock_mono (l1_tick s) (l1_tick s + d) ltac:(lia)).
  destruct (Hh ltac:(lia)) as (e0 & He0 & Hi & Hc & Hx & Hx2). unfold held, released. cbn. rewrite dget_dset.
  destruct (decide (k = key)) as [->|].
  - simplify_eq. eexists. cbn. split_and!; [done|done| | |].
    + cbn. apply is_locked_true in El as [? _]. rewrite unlock_n_counter by lia. lia.
    + cbn. by rewrite unlock_n_expiration.
    + cbn. rewrite unlock_n_ttl. lia.
  - exists e0. split_and!; try done; lia.
Qed.

(** A temporary object is dropped only when its last lock is gone. *)
Lemma held_not_dropped key i n T s k e total :
  dget k (l1_objects s) = Some e → is_locked (clock (l1_tick s)) (read_lock e) = true →
  is_locked (clock (l1_tick s + 1)) (unlock_n total (read_lock e)) = false →
  held_until key i n T s → 1 <= n - released key k total →
  held_until key i (n - released key k total) T (with_objects (ddel k (l1_objects s)) (bump 2 s)).
Proof.
  intros Ek El El' Hh Hn Hlt. cbn in Hlt. pose proof (clock_mono (l1_tick s + 1) (l1_tick s + 2) ltac:(lia)).
  destruct (decide (k = key)) as [->|Hne].
  - exfalso. destruct (held_unlock key i n T s key e total 1 Ek El Hh) as (e2 & He2 & _ & Hc & Hx & _).
    { cbn. lia. }
    cbn in He2. rewrite dget_dset_eq in He2. simplify_eq. cbn in Hc, Hx.
    apply is_locked_false in El'. lia.
  - eapply held_weaken; [|eapply held_mono; [| |exact Hh]|]; cbn; [|lia|by rewrite dget_ddel_ne|done].
    unfold released. case_decide; [done|lia].
Qed.

(** A release of fewer locks than are held keeps the object, also a
    temporary one. *)
Lemma finish_read_loop_keeps total keys acc key i n T s :
  held_until key i n T s → 1 <= n - occurrences key keys * Z.of_nat total →
  wp (finish_read_loop clock total keys acc)
    (λ _ s', keeps key i (n - occurrences key keys * Z.of_nat total) T s s') s.
Proof.
  revert n acc s. induction keys as [|k keys IH]; intros n [r ok fk f] s Hh Hn.
  { split; [done|]. unfold occurrences. simpl. by rewrite Z.mul_0_l, Z.sub_0_r. }
  assert (n - occurrences key (k :: keys) * Z.of_nat total
    = n - released key k total - occurrences key keys * Z.of_nat total) as E.
  { rewrite occurrences_cons. unfold released. case_decide; lia. }
  rewrite E in *. assert (0 <= occurrences key keys * Z.of_nat total) by (unfold occurrences; lia).
  assert (0 <= released key k total) by (unfold released; case_decide; lia).
  assert (∀ s', (l1_tick s ≤ l1_tick s')%nat → held_until key i (n - released key k total) T s' →
    ∀ acc', wp (finish_read_loop clock total keys acc') (λ _ s'',
      keeps key i (n - released key k total - occurrences key keys * Z.of_nat total) T s s'') s') as Hrest.
  { intros s' Ht Hh' acc'. eapply wp_mono; [by apply IH|]. intros a s'' [Ht'' Hh'']. split; [lia|done]. }
  clear IH. cbn [finish_read_loop]. apply wp_bind. unfold wp at 1. cbn [get].
  destruct (dget k (l1_objects s)) as [e|] eqn:Ek.
  2: { apply Hrest; [lia|]. eapply held_weaken; [|done]. lia. }
  apply wp_bind. unfold wp at 1. rewrite now_eq. cbn beta iota.
  destruct (is_locked (clock (l1_tick s)) (read_lock e)) eqn:El; cbn [negb].
  2: { apply Hrest; [cbn; lia|]. eapply held_weaken; [|eapply held_mono; [| |exact Hh]]; cbn; [lia|lia|done]. }
  cbn [is_temporary with_read_lock]. destruct (is_temporary e).
  - apply wp_bind, wp_bind. unfold wp at 1. rewrite now_eq. cbn beta iota. unfold ret at 1, wp at 1. cbn beta iota.
    cbn [read_lock with_read_lock l1_tick bump].
    destruct (is_locked (clock (l1_tick s + 1)) (unlock_n total (read_lock e))) eqn:El'; cbn [negb];
      apply wp_bind; unfold wp at 1; cbn [put_objects]; (apply Hrest; [cbn; lia|]).
    + eapply held_mono; [| |apply (held_unlock key i n T s k e total 2); done]; cbn; [lia|done].
    + eapply held_mono; [| |apply (held_not_dropped key i n T s k e total); try done; lia]; cbn; [lia|done].
  - apply wp_bind. unfold ret at 1, wp at 1. cbn beta iota.
    apply wp_bind. unfold wp at 1. cbn [put_objects]. apply Hrest; [cbn; lia|].
    eapply held_mono; [| |apply (held_unlock key i n T s k e total 1); done]; cbn; [lia|done].
Qed.

(** *** Calls that leave the resident objects alone *)

(** What holds if the call returns. *)
Definition pc {A} (c : L1M M A) (Q : A → L1 → Prop) s : Prop := ∀ a s', c s = (Ret a, s') → Q a s'.

Lemma pc_bind {A B} (c : L1M M A) (k : A → L1M M B) Q s :
  pc c (λ a s', pc (k a) Q s') s → pc (bind c k) Q s.
Proof.
  intros Hc b s'. unfold bind. destruct (c s) as [[a|e] s1] eqn:E; [|done]. by apply Hc.
Qed.
Lemma pc_mono {A} (c : L1M M A) (P Q : A → L1 → Prop) s :
  pc c P s → (∀ a s', P a s' → Q a s') → pc c Q s.
Proof. unfold pc. eauto. Qed.
Lemma pc_ret {A} (a : A) (Q : A → L1 → Prop) s : Q a s → pc (ret a) Q s.
Proof. intros HQ b s' [= <- <-]. done. Qed.
Lemma pc_prim {A} (c : L1M M A) (Q : A → L1 → Prop) s a s' : c s = (Ret a, s') → Q a s' → pc c Q s.
Proof. intros E HQ b s1 E'. rewrite E in E'. by simplify_eq. Qed.
Lemma conj_pc {A} (c : L1M M A) (P Q : A → L1 → Prop) s : pc c P s → pc c Q s → pc c (λ a s', P a s' ∧ Q a s') s.
Proof. unfold pc. eauto. Qed.
Lemma wp_pc {A} (c : L1M M A) (Q : A → L1 → Prop) s : wp c Q s → pc c Q s.
Proof. unfold wp. intros Hw a s' E. by rewrite E in Hw. Qed.

Definition quiet {A} (c : L1M M A) : Prop :=
  ∀ s, pc c (λ _ s', l1_objects s' = l1_objects s ∧ (l1_tick s ≤ l1_tick s')%nat) s.

Lemma quiet_bind {A B} (c : L1M M A) (k : A → L1M M B) :
  quiet c → (∀ a, quiet (k a)) → quiet (bind c k).
Proof.
  intros Hc Hk s. apply pc_bind. eapply pc_mono; [apply Hc|]. intros a s1 [E1 T1].
  eapply pc_mono; [apply Hk|]. intros b s2 [E2 T2]. split; [congruence|lia].
Qed.
Lemma quiet_ret {A} (a : A) : quiet (ret a).
Proof. intros s. by apply pc_ret. Qed.
Lemma quiet_raise {A} e : quiet (raise (A:=A) e).
Proof. intros s b s' E. done. Qed.
Lemma quiet_get : quiet get.
Proof. intros s b s' [= _ <-]. done. Qed.
Lemma quiet_now_n k : quiet (now_n clock k).
Proof. intros s b s' [= _ <-]. split; [done|cbn; lia]. Qed.
Lemma quiet_now : quiet (now clock).
Proof. intros s b s' [= _ <-]. split; [done|cbn; lia]. Qed.
Lemma quiet_put_staging stg b : quiet (put_staging stg b).
Proof. intros s a s' [= _ <-]. done. Qed.
Lemma quiet_put_mm m : quiet (put_mm m).
Proof. intros s a s' [= _ <-]. done. Qed.
Lemma quiet_emit ev : quiet (emit ev).
Proof. intros s a s' [= _ <-]. done. Qed.

#[local] Hint Resolve quiet_ret quiet_raise quiet_get quiet_now_n quiet_now quiet_put_staging
  quiet_put_mm quiet_emit : l1_quiet.

(** Cases on the control flow of a quiet call. *)
Ltac solve_quiet :=
  repeat first
    [ done | by auto with l1_quiet
    | apply quiet_bind; [|intros ?]
    | match goal with |- quiet (match ?x with _ => _ end) => destruct x end
    | match goal with |- quiet (let '_ := ?x in _) => destruct x end ].

Lemma quiet_free ids : quiet (free_objs ids).
Proof. unfold free_objs. solve_quiet. Qed.
Lemma quiet_pop key tag : quiet (_pop_staging key tag).
Proof. unfold _pop_staging. solve_quiet. Qed.
Lemma quiet_put_entry key tag e : quiet (_put_staging key tag e).
Proof. unfold _put_staging. solve_quiet. Qed.
Lemma quiet_update key tag e : quiet (update_staging key tag e).
Proof. unfold update_staging. solve_quiet. Qed.
#[local] Hint Resolve quiet_free quiet_pop quiet_put_entry quiet_update : l1_quiet.

Lemma quiet_take key tag : quiet (_take_staging clock key tag).
Proof. unfold _take_staging. solve_quiet. Qed.
Lemma quiet_reclaim_loop key force items freed : quiet (reclaim_loop clock key force items freed).
Proof. revert freed. induction items as [|[tag e] items IH]; intros freed; simpl; solve_quiet. Qed.
#[local] Hint Resolve quiet_take quiet_reclaim_loop : l1_quiet.
Lemma quiet_reclaim key force : quiet (_reclaim_staging clock key force).
Proof. unfold _reclaim_staging. solve_quiet. Qed.
Lemma quiet_report_gone keys : quiet (_report_staging_gone keys).
Proof. unfold _report_staging_gone. solve_quiet. Qed.
Lemma quiet_report_read keys : quiet (_report_read_reserved keys).
Proof. unfold _report_read_reserved. solve_quiet. Qed.
Lemma quiet_free_report keys ids : quiet (_free_and_report_deleted keys ids).
Proof. unfold _free_and_report_deleted. solve_quiet. Qed.
#[local] Hint Resolve quiet_reclaim quiet_report_gone quiet_report_read quiet_free_report : l1_quiet.

Lemma quiet_unsafe_read keys : quiet (unsafe_read clock keys).
Proof.
  unfold unsafe_read. generalize ([] : list (ObjectKey * L1OperationResult)).
  induction keys; intros r; simpl; solve_quiet.
Qed.
Lemma quiet_scan tag items r ok need : quiet (reserve_write_scan clock tag items r ok need).
Proof. revert r ok need. induction items as [|[k b] items IH]; intros; simpl; solve_quiet. Qed.
Lemma quiet_fill tag need ids r ok :
  quiet (reserve_write_fill clock write_ttl_seconds read_ttl_seconds l1_manager_id tag need ids r ok).
Proof. revert ids r ok. induction need as [|[k b] need IH]; intros [|j ids] r ok; simpl; solve_quiet. Qed.
#[local] Hint Resolve quiet_scan quiet_fill : l1_quiet.
Lemma quiet_reserve_write keys temps lay tag :
  quiet (reserve_write clock write_ttl_seconds read_ttl_seconds l1_manager_id keys temps lay tag).
Proof. unfold reserve_write. solve_quiet. Qed.
Lemma quiet_fwd_loop tag keys r d gone : quiet (finish_write_delete_loop clock tag keys r d gone).
Proof. revert r d gone. induction keys as [|k keys IH]; intros; simpl; solve_quiet. Qed.
#[local] Hint Resolve quiet_fwd_loop : l1_quiet.
Lemma quiet_finish_write_and_delete keys tag : quiet (finish_write_and_delete clock keys tag).
Proof. unfold finish_write_and_delete. solve_quiet. Qed.
Lemma quiet_any_expired items : quiet (any_expired clock items).
Proof. induction items; simpl; solve_quiet. Qed.
#[local] Hint Resolve quiet_any_expired : l1_quiet.
Lemma quiet_is_key_evictable key : quiet (is_key_evictable clock key).
Proof. unfold is_key_evictable. solve_quiet. Qed.
Lemma quiet_count_locked f es : quiet (count_locked clock f es).
Proof. induction es; simpl; solve_quiet. Qed.
#[local] Hint Resolve quiet_count_locked : l1_quiet.
Lemma quiet_report_status : quiet (report_status clock).
Proof. unfold report_status. solve_quiet. Qed.
Lemma quiet_reclaim_expired keys gone : quiet (reclaim_expired clock keys gone).
Proof. revert gone. induction keys; intros; simpl; solve_quiet. Qed.
Lemma quiet_unlocked_residents items : quiet (unlocked_residents clock items).
Proof. induction items as [|[k e] items IH]; simpl; solve_quiet. Qed.

(** *** A held object survives every call that does not force *)

Lemma quiet_keeps {A} (c : L1M M A) key i n T s :
  quiet c → held_until key i n T s → pc c (λ _ s', keeps key i n T s s') s.
Proof.
  intros Hq Hh. eapply pc_mono; [apply Hq|]. intros a s' [Ho Ht]. split; [done|].
  eapply held_mono; [done| |exact Hh]. by rewrite Ho.
Qed.

Lemma keeps_trans key i n n' T s s1 s2 : keeps key i n T s s1 → keeps key i n' T s1 s2 → keeps key i n' T s s2.
Proof. intros [? _] [? ?]. split; [lia|done]. Qed.

(** The rest of a loop, from a later state. *)
Lemma keeps_rest {A} (c : L1M M A) key i n n' T s s1 :
  keeps key i n T s s1 → (held_until key i n T s1 → pc c (λ _ s', keeps key i n' T s1 s') s1) →
  pc c (λ _ s', keeps key i n' T s s') s1.
Proof.
  intros Hk Hc. eapply pc_mono; [apply Hc, Hk|]. intros a s2. by apply keeps_trans with n.
Qed.

(** An entry put under a key that is not resident. *)
Lemma held_put_absent key i n T s s' k e :
  dmem k (l1_objects s) = false → held_until key i n T s → (l1_tick s ≤ l1_tick s')%nat →
  l1_objects s' = dset k e (l1_objects s) → keeps key i n T s s'.
Proof.
  intros Hk Hh Ht Ho. split; [done|]. intros Hlt. pose proof (clock_mono _ _ Ht).
  pose proof (Hh ltac:(lia)) as (e0 & He0 & ? & ? & ? & ?).
  assert (k ≠ key) as Hne by (intros ->; unfold dmem in Hk; by rewrite He0 in Hk).
  exists e0. rewrite Ho, dget_dset_ne by done. split_and!; try done; lia.
Qed.

Lemma finish_write_loop_keeps tag keys acc key i n T s :
  held_until key i n T s → pc (finish_write_loop clock tag keys acc) (λ _ s', keeps key i n T s s') s.
Proof.
  revert acc s. induction keys as [|k keys IH]; intros [r nk nm d] s Hh; [by apply pc_ret|].
  cbn [finish_write_loop]. apply pc_bind.
  eapply pc_mono; [apply (quiet_keeps _ key i n T s (quiet_take k tag) Hh)|].
  intros [err [e|]] s1 Hk1; [|eapply keeps_rest; [exact Hk1|]; apply IH].
  apply pc_bind. eapply pc_prim; [done|]. cbn beta.
  destruct (dmem k (l1_objects s1)) eqn:Ed; [eapply keeps_rest; [exact Hk1|]; apply IH|].
  apply pc_bind. eapply pc_prim; [done|]. cbn beta.
  set (s2 := mkL1 _ _ _ _ _ _).
  assert (keeps key i n T s s2) as Hk2.
  { eapply keeps_trans; [exact Hk1|]. by eapply (held_put_absent key i n T s1 s2 k e); [|apply Hk1| |]. }
  destruct (is_temporary e); (eapply keeps_rest; [exact Hk2|]; apply IH).
Qed.

Lemma finish_write_read_loop_keeps total tag keys acc key i n T s :
  held_until key i n T s →
  pc (finish_write_read_loop clock total tag keys acc) (λ _ s', keeps key i n T s s') s.
Proof.
  revert acc s. induction keys as [|k keys IH]; intros [r ok meta res d] s Hh; [by apply pc_ret|].
  cbn [finish_write_read_loop]. apply pc_bind.
  eapply pc_mono; [apply (quiet_keeps _ key i n T s (quiet_take k tag) Hh)|].
  intros [err [e|]] s1 Hk1; [|eapply keeps_rest; [exact Hk1|]; apply IH].
  apply pc_bind. eapply pc_prim; [done|]. cbn beta.
  apply pc_bind. eapply pc_prim; [apply now_n_eq|]. cbn beta.
  destruct (dget k (l1_objects s1)) as [e0|] eqn:Ek; apply pc_bind; (eapply pc_prim; [done|]); cbn beta;
    set (s2 := mkL1 _ _ _ _ _ _);
    (assert (keeps key i n T s s2) as Hk2; [|eapply keeps_rest; [exact Hk2|]; apply IH]);
    (eapply keeps_trans; [exact Hk1|]).
  - split; [cbn; lia|]. destruct (decide (k = key)) as [->|Hne].
    + by apply (held_lock_more key i n T s1 total e0 Ek), Hk1.
    + eapply held_mono; [| |apply Hk1]; cbn; [lia|by rewrite dget_dset_ne].
  - eapply (held_put_absent key i n T s1 s2 k); [|apply Hk1|cbn; lia|done].
    unfold dmem. by rewrite Ek.
Qed.

Lemma delete_loop_keeps keys acc key i n T s :
  1 <= n → held_until key i n T s → pc (delete_loop clock false keys acc) (λ _ s', keeps key i n T s s') s.
Proof.
  intros Hn. revert acc s. induction keys as [|k keys IH]; intros [r ok f gone] s Hh; [by apply pc_ret|].
  cbn [delete_loop]. apply pc_bind. eapply pc_prim; [done|]. cbn beta.
  destruct (match dget k (l1_objects s) with None => _ | Some _ => _ end); [by apply IH|].
  apply pc_bind. eapply pc_mono; [apply (quiet_reclaim k false s)|]. intros z s1 [Ho1 Ht1].
  assert (keeps key i n T s s1) as Hk1 by (split; [done|]; eapply held_mono; [done|by rewrite Ho1|done]).
  apply pc_bind. eapply pc_prim; [done|]. cbn beta.
  destruct (dmem k (l1_staging s1)); [eapply keeps_rest; [exact Hk1|]; apply IH|].
  destruct (dget k (l1_objects s)) as [e|] eqn:Ek; [|eapply keeps_rest; [exact Hk1|]; apply IH].
  apply pc_bind. eapply pc_prim; [apply now_eq|]. cbn beta. rewrite andb_true_r.
  assert (keeps key i n T s (bump 1 s1)) as Hk2.
  { eapply keeps_trans; [exact Hk1|]. split; [cbn; lia|]. eapply held_mono; [| |apply Hk1]; cbn; [lia|done]. }
  destruct (is_locked (clock (l1_tick s1)) (read_lock e)) eqn:El.
  - eapply keeps_rest; [exact Hk2|]. apply IH.
  - apply pc_bind. eapply pc_prim; [done|]. cbn beta. set (s2 := mkL1 _ _ _ _ _ _).
    assert (keeps key i n T s s2) as Hk3; [|eapply keeps_rest; [exact Hk3|]; apply IH].
    split; [cbn; lia|]. intros Hlt. cbn in Hlt.
    pose proof (clock_mono (l1_tick s1) (l1_tick s1 + 1) ltac:(lia)).
    destruct (proj2 Hk1 ltac:(lia)) as (e0 & He0 & ? & ? & ? & ?). rewrite Ho1 in He0.
    destruct (decide (k = key)) as [->|].
    + exfalso. simplify_eq. by rewrite (held_locked n T) in El by (done || lia).
    + exists e0. cbn. rewrite Ho1, dget_ddel_ne by done. split_and!; try done; lia.
Qed.

Lemma foldl_ddel_notin key (l : list ObjectKey) (d : dict ObjectKey L1ObjectState) :
  key ∉ l → dget key (foldl (λ d k, ddel k d) d l) = dget key d.
Proof.
  revert d. induction l as [|k l IH]; intros d Hk; [done|]. simpl. rewrite IH by set_solver.
  rewrite dget_ddel_ne; [done|]. set_solver.
Qed.

Lemma clear_unlocked_keeps key i n T s :
  1 <= n → NoDup (dkeys (l1_objects s)) → held_until key i n T s →
  pc (clear_unlocked clock) (λ _ s', keeps key i n T s s') s.
Proof.
  intros Hn Hnd Hh. unfold clear_unlocked. apply pc_bind. eapply pc_prim; [done|]. cbn beta.
  apply pc_bind. eapply pc_mono; [apply wp_pc, unlocked_residents_ok|].
  intros r s1 (_ & _ & Hfree & (Ho1 & _) & _ & Ht1).
  apply pc_bind. eapply pc_prim; [done|]. cbn beta. set (s2 := mkL1 _ _ _ _ _ _).
  assert (keeps key i n T s s2) as Hk2.
  { split; [done|]. intros Hlt. cbn in Hlt. pose proof (clock_mono _ _ Ht1).
    destruct (Hh ltac:(lia)) as (e & He & ? & ? & ? & ?).
    assert (key ∉ r.*1) as Hnr.
    { intros Hin. destruct (Hfree key e (dget_Some_elem _ _ _ He) Hnd Hin) as (t & Ht & Hl).
      pose proof (clock_mono t (l1_tick s1) ltac:(lia)).
      by rewrite (held_locked n T) in Hl by (done || lia). }
    exists e. cbn. rewrite foldl_ddel_notin by done. split_and!; try done; lia. }
  eapply keeps_rest; [exact Hk2|]. intros Hh2. apply quiet_keeps; [|done].
  apply quiet_bind; [|intros _; apply quiet_bind; [apply quiet_reclaim_expired|intros; apply quiet_report_gone]].
  destruct r; [apply quiet_ret|apply quiet_free_report].
Qed.

(** Calls that respect reservations, and the locks they give back. *)
Definition gentle (c : l1_call) : Prop :=
  match c with CDelete _ force | CClear force => force = false | CClose => False | _ => True end.

Definition call_releases (key : ObjectKey) (c : l1_call) : Z :=
  match c with CFinishRead keys n => occurrences key keys * validate_read_locks n | _ => 0 end.

Lemma validate_read_locks_range n : 1 <= validate_read_locks n <= 128.
Proof. unfold validate_read_locks, MAX_READ_LOCK_COUNT. split_ifs; lia. Qed.

Lemma pc_drop {A} (c : L1M M A) (P : L1 → Prop) s :
  pc c (λ _ s', P s') s → pc (let* _ := c in ret tt) (λ _ s', P s') s.
Proof. intros Hc. apply pc_bind. eapply pc_mono; [exact Hc|]. intros. by apply pc_ret. Qed.

(** A loop that keeps the object, followed by reports and frees. *)
Lemma keeps_then_quiet {A B} (c : L1M M A) (k : A → L1M M B) key i n T s :
  pc c (λ _ s', keeps key i n T s s') s → (∀ a, quiet (k a)) →
  pc (bind c k) (λ _ s', keeps key i n T s s') s.
Proof.
  intros Hc Hk. apply pc_bind. eapply pc_mono; [exact Hc|]. intros a s1 Hk1.
  eapply keeps_rest; [exact Hk1|]. intros. by apply quiet_keeps.
Qed.

Lemma run_call_keeps c key i n T s :
  gentle c → inv [] s → held_until key i n T s → 1 <= n - call_releases key c →
  pc (run_call c) (λ _ s', keeps key i (n - call_releases key c) T s s') s.
Proof.
  intros Hg Hinv Hh Hn. destruct c; cbn [run_call call_releases] in *; rewrite ?Z.sub_0_r in *;
    try apply pc_drop; cbn in Hg; subst; try done.
  - apply keeps_then_quiet; [by apply wp_pc, reserve_read_loop_keeps|intros; solve_quiet].
  - apply quiet_keeps; [apply quiet_unsafe_read|done].
  - pose proof (validate_read_locks_range read_locks).
    apply keeps_then_quiet; [|intros; solve_quiet].
    pose proof (finish_read_loop_keeps (Z.to_nat (validate_read_locks read_locks)) keys
      (mkFR [] [] [] []) key i n T s Hh) as Hfr.
    rewrite Z2Nat.id in Hfr by lia. by apply wp_pc, Hfr.
  - apply quiet_keeps; [apply quiet_reserve_write|done].
  - apply keeps_then_quiet; [by apply finish_write_loop_keeps|intros; solve_quiet].
  - apply keeps_then_quiet; [by apply finish_write_read_loop_keeps|intros; solve_quiet].
  - apply quiet_keeps; [apply quiet_finish_write_and_delete|done].
  - apply keeps_then_quiet; [by apply delete_loop_keeps|intros; solve_quiet].
  - apply clear_unlocked_keeps; [done|apply Hinv|done].
  - apply quiet_keeps; [apply quiet_emit|done].
  - apply quiet_keeps; [apply quiet_is_key_evictable|done].
  - apply quiet_keeps; [apply quiet_report_status|done].
Qed.

(** A sequence of calls, with the memory manager acting in between. *)
Inductive l1_history : list l1_call → L1 → L1 → Prop :=
  | hist_nil s : l1_history [] s s
  | hist_call c cs s s1 s' :
      call_ok c → run_call c s = (Ret tt, s1) → l1_history cs s1 s' → l1_history (c :: cs) s s'
  | hist_env cs s m s' :
      mm_env (l1_mm s) m → l1_history cs (with_mm m s) s' → l1_history cs s s'.

Lemma history_keeps cs s s' key i n T :
  l1_history cs s s' → Forall gentle cs → inv [] s → held_until key i n T s →
  1 <= n - zsum (call_releases key) cs →
  inv [] s' ∧ keeps key i (n - zsum (call_releases key) cs) T s s'.
Proof.
  intros Hh. revert n. induction Hh as [s|c cs s s1 s' Hc Hr Hh IH|cs s m s' He Hh IH];
    intros n Hg Hinv Hheld Hn.
  - split; [done|]. split; [done|]. simpl. by rewrite Z.sub_0_r.
  - apply Forall_cons in Hg as [Hg1 Hg]. simpl in Hn.
    assert (∀ c', 0 <= call_releases key c') as Hpos.
    { intros []; simpl; try lia. pose proof (validate_read_locks_range read_locks). unfold occurrences. nia. }
    pose proof (Hpos c). pose proof (zsum_nonneg (call_releases key) cs ltac:(auto)).
    pose proof (run_call_keeps c key i n T s Hg1 Hinv Hheld ltac:(lia) _ _ Hr) as [Ht1 Hh1].
    pose proof (run_call_inv c s Hc Hinv) as Hinv1. unfold wp in Hinv1. rewrite Hr in Hinv1.
    destruct (IH (n - call_releases key c) Hg Hinv1 Hh1 ltac:(lia)) as [Hinv' [Ht' Hh']].
    split; [done|]. split; [lia|]. simpl. by rewrite Z.sub_add_distr.
  - destruct (IH n Hg) as [? [? ?]]; [by apply inv_env| |done|done]. done.
Qed.

Lemma reserve_read_loop_acquires total keys r ok key i T s :
  (0 < total)%nat → inv [] s → T <= clock (l1_tick s) + read_ttl_seconds * 1000 →
  (dget key r = Some (SUCCESS, Some i) → held_until key i (Z.of_nat total) T s) →
  wp (reserve_read_loop clock total keys r ok) (λ res s',
    dget key res.1 = Some (SUCCESS, Some i) → held_until key i (Z.of_nat total) T s') s.
Proof.
  intros Htot. revert r ok s. induction keys as [|k keys IH]; intros r ok s Hinv HT Hr; [done|].
  cbn [reserve_read_loop]. apply wp_bind. unfold wp at 1. cbn [get].
  destruct (dget k (l1_objects s)) as [e|] eqn:Ek.
  2: { apply IH; [done|done|]. rewrite dget_dset. by case_decide. }
  apply wp_bind. unfold wp at 1. rewrite now_n_eq. cbn beta iota.
  apply wp_bind. unfold wp at 1. cbn [put_objects].
  pose proof (inv_resident_ok _ _ _ _ _ _ _ Hinv Ek) as He. pose proof He as (_ & [[Hc _] Httl] & _).
  pose proof (clock_mono (l1_tick s) (l1_tick s + total) ltac:(lia)). apply IH.
  - apply (inv_update_resident _ _ _ _ (bump total s) k e); [by apply inv_bump|done|done|].
    apply lock_resident_ok; [done|]. apply lock_n_ok, He.
  - cbn. lia.
  - rewrite dget_dset. destruct (decide (k = key)) as [->|Hne].
    + intros [= <-] Hlt. cbn in Hlt. eexists. cbn. rewrite dget_dset_eq. split; [done|].
      destruct (lock_n_acquires (clock <$> seq (l1_tick s) total) (read_lock e) T) as [Hq1 Hq2]; [|done| |].
      * destruct total; [lia|done].
      * intros t Ht. pose proof (readings_between s total _ t Ht (le_n _)). lia.
      * rewrite length_fmap, length_seq in Hq1. cbn. rewrite lock_n_ttl. split_and!; [done|done|done|lia].
    + intros Hr'. eapply held_mono; [| |by apply Hr]; cbn; [lia|by rewrite dget_dset_ne].
Qed.

(** ** Properties *)

(** C1: in every state an L1 manager reaches, by any sequence of calls
    (concurrent readers and writers, expired locks, forced deletions and
    clears included) in which each [reserve_write] names no key twice and gives
    one flag per key and a layout that takes memory, the memory it holds is accounted for exactly: no object
    is held twice, an object carries the manager's tag and is live if and only
    if one of the manager's tables holds it (nothing leaks, nothing held is
    freed), the staging byte counter is the sum of the staged charges, a
    resident object is never write-locked and a staged one never read-locked,
    and the allocator's own check passes. *)
Theorem l1_reachable_safe m s :
  fresh_mm m → rtc l1_step (l1_init m) s →
  NoDup (owned s) ∧
  (∀ i, i ∈ owned s ↔ ∃ o, mm_objs (l1_mm s) !! i = Some o ∧ mo_valid o = true ∧
                           mo_l1_manager o = Some l1_manager_id) ∧
  l1_staging_bytes s = zsum staging_charge (staged_values (l1_staging s)) ∧
  (∀ e t, e ∈ dvalues (l1_objects s) → is_locked t (write_lock e) = false) ∧
  (∀ e t, e ∈ staged_values (l1_staging s) → is_locked t (read_lock e) = false) ∧
  mm_memcheck (l1_mm s) = true.
Proof.
  intros Hm Hr. destruct (l1_reachable_inv _ _ Hm Hr) as [[H1 H2 H3 H4 H5] [M1 M2 M3 M4]].
  split_and!; [done| |done| | |by apply mm_memcheck_ok].
  - intros i. split; [apply M3|]. intros (o & ? & ? & ?). by eapply M4.
  - intros e t He. destruct (H4 e He) as (Hc & _). apply is_locked_false. lia.
  - intros e t He. destruct (H5 e He) as (_ & Hc & _). apply is_locked_false. lia.
Qed.

(** C34: after any sequence of calls in which each [reserve_write] names no key
    twice and gives one flag per key and a layout that takes memory, every public
    method returns, [reserve_write] under the same condition: exhaustion of
    memory is a result, not an exception. With flags that are not one per key
    [reserve_write] raises ValueError and changes nothing. *)
Theorem l1_calls_return m s :
  fresh_mm m → rtc l1_step (l1_init m) s →
  (∀ c, call_ok c → ∃ s', run_call c s = (Ret tt, s')) ∧
  ∀ keys temps lay tag, length keys ≠ length temps → run_call (CReserveWrite keys temps lay tag) s = (Raise ValueError, s).
Proof.
  intros Hm Hr. split.
  2: { intros keys temps lay tag Hne. cbn [run_call]. unfold bind, reserve_write. by rewrite (proj2 (Nat.eqb_neq _ _) Hne). }
  intros c Hc. pose proof (run_call_inv c s Hc (l1_reachable_inv _ _ Hm Hr)) as Hw.
  unfold wp in Hw. destruct (run_call c s) as [[[]|] s']; [|done]. by exists s'.
Qed.

(** C6: a read reservation protects its object: once [reserve_read] answered
    SUCCESS with an object, that object stays the resident object of its key
    and its memory is not freed, through every history of calls that does not
    force a deletion, as long as fewer read locks on the key were given back
    than were taken and the reservation's time to live has not passed. *)
Theorem l1_read_reservation_protects m s0 keys n r s1 cs s2 key i :
  fresh_mm m → rtc l1_step (l1_init m) s0 →
  reserve_read clock keys n s0 = (Ret r, s1) → dget key r = Some (SUCCESS, Some i) →
  l1_history cs s1 s2 → Forall gentle cs →
  zsum (call_releases key) cs < validate_read_locks n →
  clock (l1_tick s2) < clock (l1_tick s0) + read_ttl_seconds * 1000 →
  (∃ e, dget key (l1_objects s2) = Some e ∧ memory_obj e = i) ∧ mm_live (l1_mm s2) i.
Proof.
  intros Hm Hr Hres Hkey Hh Hg Hrel Hclk. pose proof (l1_reachable_inv _ _ Hm Hr) as Hinv0.
  set (T := clock (l1_tick s0) + read_ttl_seconds * 1000) in *.
  pose proof (validate_read_locks_range n) as Hn.
  assert (inv [] s1 ∧ held_until key i (validate_read_locks n) T s1) as [Hinv1 Hheld1].
  { pose proof (reserve_read_inv clock write_ttl_seconds read_ttl_seconds l1_manager_id keys n s0 Hinv0) as Hw.
    unfold wp in Hw. rewrite Hres in Hw. split; [exact Hw|]. clear Hw.
    pose proof (reserve_read_loop_acquires (Z.to_nat (validate_read_locks n)) keys [] [] key i T s0
      ltac:(lia) Hinv0 ltac:(lia) ltac:(done)) as Hacq.
    unfold reserve_read, bind, wp in *. destruct (reserve_read_loop _ _ _ _ _ s0) as [[[r' ok]|] s'];
      [|done]. cbn in Hres. injection Hres as <- <-. rewrite Z2Nat.id in Hacq by lia.
    intros Hlt. by apply Hacq. }
  destruct (history_keeps cs s1 s2 key i (validate_read_locks n) T Hh Hg Hinv1 Hheld1 ltac:(lia))
    as [Hinv2 [_ Hheld2]].
  destruct (Hheld2 Hclk) as (e & He & Hi & _). split; [by exists e|].
  destruct (mi_live _ _ _ (inv_mem _ _ _ _ _ Hinv2) i) as (o & Ho & Hv & _); [|by exists o].
  cbn. apply list_elem_of_fmap. exists e. split; [done|]. unfold entries. apply elem_of_app. left.
  apply list_elem_of_fmap. exists (key, e). split; [done|]. by apply dget_Some_elem.
Qed.
End histories.

(** ** Witnesses *)

(** A 1 MiB mixed allocator, a clock that advances by one millisecond per
    reading, and a history: a write is reserved and finished, then read. *)
Definition demo_mm : L1MemoryManager :=
  mkL1MM (MixedAlloc (tma_init 1048576 (2 ^ 12) None)) 1048576 4096.
Definition demo_clock (n : nat) : Z := Z.of_nat n.
Definition demo_layout : MemoryLayoutDesc := mkLayout [[4; 256]] [mkDtype 2].

Lemma demo_fresh_mm : fresh_mm 7 demo_mm.
Proof. split; [|done]. split; [apply tma_init_inv; lia|done]. Qed.

Lemma demo_clock_mono i j : (i ≤ j)%nat → demo_clock i <= demo_clock j.
Proof. unfold demo_clock. lia. Qed.

Definition run_calls (cs : list l1_call) (s : L1 L1MemoryManager) : L1 L1MemoryManager :=
  foldl (λ s c, (run_call demo_clock 10 20 7 c s).2) s cs.

Lemma run_calls_history cs s :
  Forall call_ok cs → inv 10 20 7 [] s → l1_history demo_clock 10 20 7 cs s (run_calls cs s).
Proof.
  revert s. induction cs as [|c cs IH]; intros s Hok Hinv; [apply hist_nil|].
  apply Forall_cons in Hok as [Hc Hok]. unfold run_calls. simpl.
  pose proof (run_call_inv demo_clock 10 20 7 demo_clock_mono ltac:(lia) c s Hc Hinv) as Hw.
  unfold wp in Hw. destruct (run_call demo_clock 10 20 7 c s) as [[[]|] s1] eqn:E; [|done].
  eapply hist_call; [done|exact E|]. by apply IH.
Qed.

Lemma history_reachable cs s s' :
  l1_history demo_clock 10 20 7 cs s s' → rtc (l1_step demo_clock 10 20 7) s s'.
Proof.
  induction 1 as [s|c cs s s1 s' Hc Hr _ IH|cs s m s' He _ IH]; [apply rtc_refl|..].
  - eapply rtc_l; [by eapply l1step_call|done].
  - eapply rtc_l; [by apply l1step_env|done].
Qed.

Lemma demo_inv : inv 10 20 7 [] (l1_init demo_mm).
Proof. apply l1_init_inv, demo_fresh_mm. Qed.

Lemma demo_layout_ok : layout_ok demo_layout.
Proof. exists 2048. split; [reflexivity|lia]. Qed.

Definition demo_write : list l1_call :=
  [CReserveWrite [demo_key] [false] demo_layout "w"%string; CFinishWrite [demo_key] "w"%string].

Lemma demo_write_ok : Forall call_ok demo_write.
Proof.
  apply Forall_cons. split; [|by apply Forall_singleton].
  split_and!; [apply NoDup_singleton|done|apply demo_layout_ok].
Qed.

Definition demo_state : L1 L1MemoryManager := run_calls demo_write (l1_init demo_mm).

Lemma demo_state_reachable : rtc (l1_step demo_clock 10 20 7) (l1_init demo_mm) demo_state.
Proof. apply (history_reachable demo_write), run_calls_history; [apply demo_write_ok|apply demo_inv]. Qed.

Lemma l1_reachable_safe_witness :
  owned demo_state = [0%nat] ∧ mm_memcheck (l1_mm demo_state) = true.
Proof.
  split; [vm_compute; reflexivity|].
  destruct (l1_reachable_safe demo_clock 10 20 7 demo_clock_mono ltac:(lia) demo_mm demo_state
    demo_fresh_mm demo_state_reachable) as (_ & _ & _ & _ & _ & Hm).
  exact Hm.
Defined.

Lemma l1_calls_return_witness :
  ∃ s', run_call demo_clock 10 20 7 (CDelete [demo_key] false) demo_state = (Ret tt, s').
Proof.
  apply (l1_calls_return demo_clock 10 20 7 demo_clock_mono ltac:(lia) demo_mm demo_state demo_fresh_mm demo_state_reachable). exact I.
Defined.

(** A key named twice: both buffers are allocated, the second takes the place of
    the first, and not even a forced clear frees the first (only Python's
    collector, calling [__del__], could); its bytes stay in the staging counter. *)
Lemma duplicate_keys_leak :
  let s := run_calls [CReserveWrite [demo_key; demo_key] [false; false] demo_layout "w"%string; CFinishWrite [demo_key] "w"%string; CClear true] (l1_init demo_mm) in
  owned s = [] ∧ ((λ o, (mo_valid o, mo_l1_manager o)) <$> mm_objs (l1_mm s) !! 0%nat) = Some (true, Some 7) ∧
  l1_staging s = [] ∧ l1_staging_bytes s = 2048.
Proof. split_and!; vm_compute; reflexivity. Qed.

(** One of two readers finishes, and the object is deleted without force and
    cleared: it stays. *)
Definition demo_calls : list l1_call :=
  [CFinishRead [demo_key] 1; CDelete [demo_key] false; CClear false].

Lemma l1_read_reservation_protects_witness :
  ∃ r s1, reserve_read demo_clock [demo_key] 2 demo_state = (Ret r, s1) ∧
    mm_live (l1_mm (run_calls demo_calls s1)) 0%nat.
Proof.
  destruct (reserve_read demo_clock [demo_key] 2 demo_state) as [[r|] s1] eqn:E; [|vm_compute in E; discriminate E].
  exists r, s1. split; [reflexivity|].
  refine (proj2 (l1_read_reservation_protects demo_clock 10 20 7 demo_clock_mono ltac:(lia)
    demo_mm demo_state [demo_key] 2 r s1 demo_calls (run_calls demo_calls s1) demo_key 0%nat
    demo_fresh_mm demo_state_reachable E _ _ _ _ _)).
  - vm_compute in E. injection E as <- _. vm_compute. reflexivity.
  - apply run_calls_history; [by repeat constructor|].
    pose proof (reserve_read_inv demo_clock 10 20 7 [demo_key] 2 demo_state
      (l1_reachable_inv demo_clock 10 20 7 demo_clock_mono ltac:(lia) _ _ demo_fresh_mm demo_state_reachable)) as Hw.
    unfold wp in Hw. rewrite E in Hw. exact Hw.
  - by repeat constructor.
  - vm_compute. reflexivity.
  - vm_compute in E. injection E as _ <-. vm_compute. reflexivity.
Defined.
