(* ===== verification/L1Staging.v ===== *)
(** * A write reservation holds

    What [reserve_write] grants stays with its writer: no other call takes the
    staged object away, or gives it to another writer, while the reservation's
    time to live has not passed, unless it is forced. *)

From stdpp Require Import gmap strings list relations.
From Stdlib Require Import ZArith Lia.
From S2P Require Import Prelude TTLLock TensorAllocator Keys L1Memory L1Manager L1ManagerInv L1ManagerProps.

Open Scope Z_scope.
Open Scope l1_scope.

Create HintDb l1_calm.

Section staging.
Context {M : Type} `{L1MemoryLaws M}.
Context (clock : nat → Z) (write_ttl_seconds read_ttl_seconds l1_manager_id : Z).
Hypothesis clock_mono : ∀ i j, (i ≤ j)%nat → clock i <= clock j.
Hypothesis read_ttl_nonneg : 0 <= read_ttl_seconds.
(** The writer's key and tag, its object and the end of the reservation. *)
Context (key : ObjectKey) (tag : string) (i : oid) (T : Z).

#[local] Abbreviation L1 := (L1 M).
#[local] Abbreviation inv := (inv (M:=M) write_ttl_seconds read_ttl_seconds l1_manager_id).
Implicit Types (s : L1).

(** The writer's object is staged, under a lock that holds until [T]. *)
Definition locked_entry (e : L1ObjectState) : Prop := memory_obj e = i ∧ 1 <= counter (write_lock e) ∧ T <= expiration_ms (write_lock e).
Definition staged_for s : Prop := staging_wf (l1_staging s) ∧ ∃ e, staging_get key tag (l1_staging s) = Some e ∧ locked_entry e.

(** From [s] to [s'] the writer keeps its object, if [T] has not passed. *)
Definition still s s' : Prop := (l1_tick s ≤ l1_tick s')%nat ∧ (clock (l1_tick s') < T → staged_for s → staged_for s').
Definition calm {A} (c : L1M M A) : Prop := ∀ s, pc c (λ _ s', still s s') s.

Lemma still_trans s1 s2 s3 : still s1 s2 → still s2 s3 → still s1 s3.
Proof. intros [T1 H1] [T2 H2]. split; [lia|]. intros Hlt Hs. pose proof (clock_mono _ _ T2). apply H2; [done|]. apply H1; [lia|done]. Qed.

Lemma still_staging s s' : (l1_tick s ≤ l1_tick s')%nat → l1_staging s' = l1_staging s → still s s'.
Proof. intros Ht Hs. split; [done|]. intros _. unfold staged_for. by rewrite Hs. Qed.

Lemma calm_bind {A B} (c : L1M M A) (k : A → L1M M B) : calm c → (∀ a, calm (k a)) → calm (bind c k).
Proof.
  intros Hc Hk s. apply pc_bind. eapply pc_mono; [apply Hc|]. intros a s1 H1. eapply pc_mono; [apply Hk|]. intros b s2. by apply still_trans.
Qed.

(** The rest of a call, from a later state. *)
Lemma still_rest {A} (c : L1M M A) s s1 : still s s1 → pc c (λ _ s', still s1 s') s1 → pc c (λ _ s', still s s') s1.
Proof. intros H1 Hc. eapply pc_mono; [exact Hc|]. intros a s2. by apply still_trans. Qed.

Lemma calm_ret {A} (a : A) : calm (ret a).
Proof. intros s. apply pc_ret. by apply still_staging. Qed.
Lemma calm_raise {A} e : calm (raise (A:=A) e).
Proof. intros s b s' E. done. Qed.
Lemma calm_get : calm get.
Proof. intros s b s' [= _ <-]. by apply still_staging. Qed.
Lemma calm_now_n k : calm (now_n clock k).
Proof. intros s b s' [= _ <-]. apply still_staging; [cbn; lia|done]. Qed.
Lemma calm_now : calm (now clock).
Proof. intros s b s' [= _ <-]. apply still_staging; [cbn; lia|done]. Qed.
Lemma calm_put_objects o : calm (put_objects o).
Proof. intros s b s' [= _ <-]. by apply still_staging. Qed.
Lemma calm_put_mm m : calm (put_mm m).
Proof. intros s b s' [= _ <-]. by apply still_staging. Qed.
Lemma calm_emit ev : calm (emit ev).
Proof. intros s b s' [= _ <-]. by apply still_staging. Qed.
#[local] Hint Resolve calm_ret calm_raise calm_get calm_now_n calm_now calm_put_objects calm_put_mm calm_emit : l1_calm.

Ltac solve_calm :=
  repeat first
    [ done | by auto with l1_calm
    | apply calm_bind; [|intros ?]
    | match goal with |- calm (match ?x with _ => _ end) => destruct x end
    | match goal with |- calm (let '_ := ?x in _) => destruct x end ].

Lemma calm_free ids : calm (free_objs ids).
Proof. unfold free_objs. solve_calm. Qed.
Lemma calm_report_gone keys : calm (_report_staging_gone keys).
Proof. unfold _report_staging_gone. solve_calm. Qed.
Lemma calm_report_read keys : calm (_report_read_reserved keys).
Proof. unfold _report_read_reserved. solve_calm. Qed.
#[local] Hint Resolve calm_free calm_report_gone calm_report_read : l1_calm.
Lemma calm_free_report keys ids : calm (_free_and_report_deleted keys ids).
Proof. unfold _free_and_report_deleted. solve_calm. Qed.
#[local] Hint Resolve calm_free_report : l1_calm.

(** *** Changes to other entries *)

Definition other (k : ObjectKey) (t : string) : Prop := ¬ (k = key ∧ t = tag).

Lemma staged_set k t e s b : other k t → staged_for s → staged_for (put_staging (staging_set k t e (l1_staging s)) b s).2.
Proof.
  intros Ho [Hw (e0 & E & He)]. split; cbn [put_staging snd l1_staging]; [by apply staging_set_wf|]. exists e0. by rewrite staging_get_set, decide_False.
Qed.

Lemma staged_del k t s b : other k t → staged_for s → staged_for (put_staging (staging_del k t (l1_staging s)) b s).2.
Proof.
  intros Ho [Hw (e0 & E & He)]. split; cbn [put_staging snd l1_staging]; [by apply staging_del_wf|]. exists e0. by rewrite staging_get_del, decide_False.
Qed.

Lemma still_update k t e s : other k t → pc (update_staging k t e) (λ _ s', still s s') s.
Proof. intros Ho [] s' [= <-]. split; [done|]. intros _. by apply (staged_set k t e s (l1_staging_bytes s)). Qed.

Lemma still_pop k t s : other k t → pc (_pop_staging k t) (λ _ s', still s s') s.
Proof.
  intros Ho e s'. unfold _pop_staging, bind, get. destruct (staging_get k t (l1_staging s)) as [e0|]; [|done]. intros [= _ <-]. split; [done|]. intros _.
  by apply (staged_del k t s (l1_staging_bytes s - staging_charge e0)).
Qed.

Lemma still_put k t e s : other k t → pc (_put_staging k t e) (λ _ s', still s s') s.
Proof. intros Ho [] s' [= <-]. split; [done|]. intros _. by eapply (staged_set k t). Qed.

Lemma still_take k t s : other k t → pc (_take_staging clock k t) (λ _ s', still s s') s.
Proof.
  intros Ho. unfold _take_staging. apply pc_bind. eapply pc_prim; [done|]. cbn beta. destruct (_get_staging k t s) as [e|]; [|by apply pc_ret, still_staging].
  apply pc_bind. eapply pc_mono; [apply calm_now|]. intros now s1 H1. eapply still_rest; [exact H1|].
  destruct (negb (is_locked now (write_lock e))); [by apply pc_ret, still_staging|]. apply pc_bind. eapply pc_mono; [by apply still_update|]. intros [] s2 H2.
  eapply still_rest; [exact H2|]. apply pc_bind. eapply pc_mono; [by apply still_pop|]. intros e' s3 H3. by apply pc_ret.
Qed.

(** The lock of the writer's entry, at a reading before [T]. *)
Lemma entry_locked e t : locked_entry e → t < T → is_locked t (write_lock e) = true.
Proof. intros (_ & ? & ?) ?. apply is_locked_true. lia. Qed.

Lemma staged_locked s e : staged_for s → staging_get key tag (l1_staging s) = Some e → clock (l1_tick s) < T → is_locked (clock (l1_tick s)) (write_lock e) = true.
Proof. intros [_ (e0 & E & He)] E'. rewrite E in E'. injection E' as <-. by apply entry_locked. Qed.

(** *** Reclaiming without force *)

Lemma still_reclaim_loop k items freed s :
  (k = key → staged_for s → ∀ e, (tag, e) ∈ items → locked_entry e) →
  pc (reclaim_loop clock k false items freed) (λ _ s', still s s') s.
Proof.
  revert freed s. induction items as [|[t e] items IH]; intros freed s Hi; cbn [reclaim_loop]; [by apply pc_ret, still_staging|].
  apply pc_bind. eapply pc_prim; [apply now_eq|]. cbn beta. assert (still s (bump 1 s)) as H1 by (apply still_staging; [cbn; lia|done]).
  assert (staged_for (bump 1 s) → staged_for s) as Hback by done.
  destruct (is_locked (clock (l1_tick s)) (write_lock e)) eqn:El; cbn [andb negb].
  { eapply still_rest; [exact H1|]. apply IH. intros Ek Hs e' Hin. apply Hi; [done|done|by right]. }
  destruct (decide (k = key ∧ t = tag)) as [[-> ->]|Ho].
  - (* The writer's own entry is not locked: [T] has passed. *)
    intros a s'. unfold bind. destruct (_pop_staging key tag (bump 1 s)) as [[e'|] s2] eqn:Ep; [|done]. intros Er.
    assert (l1_tick s ≤ l1_tick s')%nat as Ht.
    { assert (l1_tick s2 = l1_tick (bump 1 s)) as Et by (revert Ep; unfold _pop_staging, bind, get; destruct (staging_get _ _ _); [by intros [= _ <-]|done]).
      destruct (quiet_reclaim_loop clock key false items (freed ++ [memory_obj e']) s2 a s' Er) as [_ Hq]. rewrite Et in Hq. cbn in Hq. lia. }
    split; [done|]. intros Hlt Hs. exfalso. pose proof (clock_mono _ _ Ht).
    assert (is_locked (clock (l1_tick s)) (write_lock e) = true) as El' by (apply entry_locked; [apply Hi; [done|done|left]|lia]). congruence.
  - apply pc_bind. eapply pc_mono; [by apply still_pop|]. intros e' s2 H2. assert (still s s2) as H12 by (by eapply still_trans).
    (* What was staged for the writer then is so before. *)
    intros a s' Er. destruct (quiet_reclaim_loop clock k false items (freed ++ [memory_obj e']) s2 a s' Er) as [_ Ht'].
    split; [destruct H12; lia|]. intros Hlt Hs. pose proof (clock_mono _ _ Ht').
    refine (proj2 (IH (freed ++ [memory_obj e']) s2 _ a s' Er) Hlt (proj2 H12 _ Hs)); [|lia]. intros Ek _ e'' Hin. apply Hi; [done|done|by right].
Qed.

Lemma calm_reclaim k : calm (_reclaim_staging clock k false).
Proof.
  intros s. unfold _reclaim_staging. apply pc_bind. eapply pc_prim; [done|]. cbn beta. destruct (dget k (l1_staging s)) as [per_tag|] eqn:Ek; [|by apply pc_ret, still_staging].
  apply pc_bind. eapply pc_mono; [apply still_reclaim_loop|].
  - intros -> [[_ Hw] (e0 & (p & Ep & Et)%staging_get_Some & He)] e Hin. rewrite Ek in Ep. injection Ep as <-.
    destruct (Hw key per_tag Ek) as [_ Hn]. rewrite (elem_dget _ _ _ Hn Hin) in Et. by injection Et as ->.
  - intros freed s1 H1. eapply still_rest; [exact H1|]. apply pc_bind. eapply pc_mono; [apply calm_free|]. intros [] s2 H2. by apply pc_ret.
Qed.
#[local] Hint Resolve calm_reclaim : l1_calm.

(** *** The calls *)

(** A method that does not touch the staging table. *)
Lemma calm_reserve_read_loop total keys r ok : calm (reserve_read_loop clock total keys r ok).
Proof. revert r ok. induction keys; intros; simpl; solve_calm. Qed.
Lemma calm_unsafe_read keys : calm (unsafe_read clock keys).
Proof.
  unfold unsafe_read. generalize ([] : list (ObjectKey * L1OperationResult)). induction keys; intros r; simpl; solve_calm.
Qed.
Lemma calm_finish_read_loop total keys acc : calm (finish_read_loop clock total keys acc).
Proof. revert acc. induction keys; intros [r ok fk f]; simpl; solve_calm. Qed.
Lemma calm_any_expired items : calm (any_expired clock items).
Proof. induction items; simpl; solve_calm. Qed.
Lemma calm_count_locked f es : calm (count_locked clock f es).
Proof. induction es; simpl; solve_calm. Qed.
Lemma calm_reclaim_expired keys gone : calm (reclaim_expired clock keys gone).
Proof. revert gone. induction keys; intros; simpl; solve_calm. Qed.
Lemma calm_unlocked_residents items : calm (unlocked_residents clock items).
Proof. induction items as [|[k e] items IH]; simpl; solve_calm. Qed.
Lemma calm_delete_loop keys acc : calm (delete_loop clock false keys acc).
Proof. revert acc. induction keys as [|k keys IH]; intros [r ok f gone]; simpl; solve_calm. Qed.
#[local] Hint Resolve calm_reserve_read_loop calm_unsafe_read calm_finish_read_loop calm_any_expired calm_count_locked calm_reclaim_expired calm_unlocked_residents
  calm_delete_loop : l1_calm.

(** Finishing other writes. *)
Lemma calm_take_other k t : other k t → calm (_take_staging clock k t).
Proof. intros Ho s. by apply still_take. Qed.

Definition spares_keys (keys : list ObjectKey) (t : string) : Prop := t = tag → key ∉ keys.

Lemma spares_cons k keys t : spares_keys (k :: keys) t → other k t ∧ spares_keys keys t.
Proof. intros Hs. split; [intros [-> ->]; apply Hs; [done|left]|]. intros Et Hin. apply (Hs Et). by right. Qed.

Lemma calm_finish_write_loop t keys acc : spares_keys keys t → calm (finish_write_loop clock t keys acc).
Proof.
  revert acc. induction keys as [|k keys IH]; intros [r nk nm d] Hs; simpl; [solve_calm|]. apply spares_cons in Hs as [Ho Hs].
  apply calm_bind; [by apply calm_take_other|]. intros [err [e|]]; solve_calm.
Qed.
Lemma calm_finish_write_read_loop total t keys acc : spares_keys keys t → calm (finish_write_read_loop clock total t keys acc).
Proof.
  revert acc. induction keys as [|k keys IH]; intros [r ok meta res d] Hs; simpl; [solve_calm|]. apply spares_cons in Hs as [Ho Hs].
  apply calm_bind; [by apply calm_take_other|]. intros [err [e|]]; solve_calm.
Qed.
Lemma calm_finish_write_delete_loop t keys r d gone : spares_keys keys t → calm (finish_write_delete_loop clock t keys r d gone).
Proof.
  revert r d gone. induction keys as [|k keys IH]; intros r d gone Hs; simpl; [solve_calm|]. apply spares_cons in Hs as [Ho Hs].
  apply calm_bind; [by apply calm_take_other|]. intros [err [e|]]; solve_calm.
Qed.

(** *** Reserving writes

    The scan neither hands the writer's buffer over nor asks for another one. *)
Lemma scan_spares t items r ok need s :
  pc (reserve_write_scan clock t items r ok need)
    (λ out s', still s s' ∧ (clock (l1_tick s') < T → staged_for s → (t = tag → key ∉ need.*1) → t = tag → key ∉ out.2.*1)) s.
Proof.
  revert r ok need s. induction items as [|[k b] items IH]; intros r ok need s; simpl.
  { apply pc_ret. split; [by apply still_staging|]. auto. }
  apply pc_bind. eapply pc_prim; [done|]. cbn beta. destruct (dmem k (l1_objects s)); [apply IH|].
  unfold _get_staging. destruct (staging_get k t (l1_staging s)) as [e|] eqn:Eg.
  2: { eapply pc_mono; [apply IH|]. intros out s' [H1 H2]. split; [done|]. intros Hlt Hs Hn. apply (H2 Hlt Hs). intros Et. rewrite fmap_app, elem_of_app.
       intros [Hin|Hin%list_elem_of_singleton]; [by apply (Hn Et)|]. cbn in Hin. subst k t. destruct Hs as [_ (e & E & _)]. congruence. }
  apply pc_bind. eapply pc_prim; [apply now_eq|]. cbn beta. assert (still s (bump 1 s)) as H1 by (apply still_staging; [cbn; lia|done]).
  destruct (is_locked (clock (l1_tick s)) (write_lock e)) eqn:El.
  { eapply pc_mono; [apply IH|]. intros out s' [H2 H3]. split; [by eapply still_trans|exact H3]. }
  apply pc_bind. eapply pc_prim; [apply now_eq|]. cbn beta. apply pc_bind. eapply pc_prim; [reflexivity|]. cbn beta. set (s2 := mkL1 _ _ _ _ _ _).
  assert (still s s2 ∧ (clock (l1_tick s2) < T → staged_for s → other k t)) as [H2 H2'].
  { assert (clock (l1_tick s2) < T → staged_for s → other k t) as Ho.
    { intros Hlt Hs [-> ->]. pose proof (clock_mono (l1_tick s) (l1_tick s2) ltac:(cbn; lia)). rewrite (staged_locked s e Hs Eg) in El by lia. done. }
    split; [|done]. split; [cbn; lia|]. intros Hlt Hs. by apply (staged_set k t _ (bump 1 (bump 1 s)) (l1_staging_bytes s)), Hs; apply Ho. }
  eapply pc_mono; [apply IH|]. intros out s' [H3 H4]. split; [by eapply still_trans|]. intros Hlt Hs. apply (H4 Hlt). apply H2; [|done].
  destruct H3 as [Ht _]. pose proof (clock_mono _ _ Ht). lia.
Qed.

Lemma calm_fill t need ids r ok :
  (t = tag → key ∉ need.*1) → calm (reserve_write_fill clock write_ttl_seconds read_ttl_seconds l1_manager_id t need ids r ok).
Proof.
  revert ids r ok. induction need as [|[k b] need IH]; intros [|j ids] r ok Hn; simpl; [solve_calm..|].
  assert (other k t) as Ho by (intros [-> ->]; apply Hn; [done|left]).
  apply calm_bind; [solve_calm|]. intros s0. apply calm_bind; [destruct (mm_update _ _ _); solve_calm|]. intros _. apply calm_bind; [solve_calm|]. intros ts.
  apply calm_bind; [intros s; by apply still_put|]. intros _. apply IH. intros Et Hin. apply (Hn Et). by right.
Qed.

(** What [reserve_write] does after the scan. *)
Definition allocate_and_fill (lay : MemoryLayoutDesc) (t : string) (r : dict ObjectKey L1OperationResult) (ok : list ObjectKey) (need : list (ObjectKey * bool))
    : L1M M (dict ObjectKey L1OperationResult) :=
  let* s := get in
  let* res := match mm_allocate lay (Z.of_nat (length need)) (l1_mm s) with
              | Ret (err, ids, m) => let* _ := put_mm m in ret (err, ids)
              | Raise e => raise e end in
  let '(err, ids) := res in
  let* out :=
    if negb (bool_decide (err = SUCCESS)) then
      let* _ := match ids with [] => ret tt | _ => free_objs ids end in
      ret (foldl (λ r p, dset p.1 (OUT_OF_MEMORY, None) r) r need, ok)
    else reserve_write_fill clock write_ttl_seconds read_ttl_seconds l1_manager_id t need ids r ok in
  let* _ := emit [Notify on_l1_keys_reserved_write out.2; Publish L1_WRITE_RESERVED out.2 []] in
  ret out.1.

Lemma quiet_allocate lay t r ok need : quiet (allocate_and_fill lay t r ok need).
Proof.
  unfold allocate_and_fill. apply quiet_bind; [apply quiet_get|intros s]. apply quiet_bind.
  { destruct (mm_allocate _ _ _) as [[[err ids] m]|]; [|apply quiet_raise]. apply quiet_bind; [apply quiet_put_mm|intros; apply quiet_ret]. }
  intros [err ids]. apply quiet_bind; [|intros; apply quiet_bind; [apply quiet_emit|intros; apply quiet_ret]].
  destruct (negb _); [|apply quiet_fill]. apply quiet_bind; [destruct ids; [apply quiet_ret|apply quiet_free]|intros; apply quiet_ret].
Qed.

Lemma calm_allocate lay t r ok need : (t = tag → key ∉ need.*1) → calm (allocate_and_fill lay t r ok need).
Proof.
  intros Hn. unfold allocate_and_fill. apply calm_bind; [solve_calm|intros s]. apply calm_bind; [destruct (mm_allocate _ _ _) as [[[err ids] m]|]; solve_calm|].
  intros [err ids]. apply calm_bind; [|intros; solve_calm]. destruct (negb _); [solve_calm|by apply calm_fill].
Qed.

Lemma calm_reserve_write keys temps lay t :
  calm (reserve_write clock write_ttl_seconds read_ttl_seconds l1_manager_id keys temps lay t).
Proof.
  unfold reserve_write. destruct (negb _); [solve_calm|]. intros s. apply pc_bind. eapply pc_mono; [apply scan_spares|]. intros [[r ok] need] s1 [H1 Hn]. cbn [snd] in Hn.
  destruct need as [|p need']; [by apply pc_ret|]. set (need := p :: need') in *. change (pc (allocate_and_fill lay t r ok need) (λ _ s', still s s') s1). clearbody need.
  destruct (decide (t = tag ∧ key ∈ need.*1)) as [[Et Hin]|Hout].
  - (* The key is to be allocated for: then the writer's entry was not there, or [T] has passed. *)
    eapply pc_mono; [apply quiet_allocate|]. intros out s' [_ Ht]. split; [destruct H1; lia|]. intros Hlt Hs. exfalso. pose proof (clock_mono _ _ Ht).
    refine (Hn _ Hs _ Et Hin); [lia|]. intros _. by intros ?%elem_of_nil.
  - eapply still_rest; [exact H1|]. apply calm_allocate. intros Et Hin. by apply Hout.
Qed.
#[local] Hint Resolve calm_reserve_write : l1_calm.

(** Calls that leave the writer's entry to the writer. *)
Definition spares (c : l1_call) : Prop :=
  match c with CFinishWrite keys t | CFinishWriteAndReserveRead keys _ t | CFinishWriteAndDelete keys t => spares_keys keys t | _ => True end.

Lemma calm_drop {A} (c : L1M M A) : calm c → calm (let* _ := c in ret tt).
Proof. intros Hc. apply calm_bind; [done|]. intros. apply calm_ret. Qed.

Lemma run_call_calm c : gentle c → spares c → calm (run_call clock write_ttl_seconds read_ttl_seconds l1_manager_id c).
Proof.
  intros Hg Hs. destruct c; cbn [run_call spares gentle] in *; subst; try done; try apply calm_drop.
  - unfold reserve_read. solve_calm.
  - solve_calm.
  - unfold finish_read. solve_calm.
  - solve_calm.
  - unfold finish_write. apply calm_bind; [by apply calm_finish_write_loop|]. intros. solve_calm.
  - unfold finish_write_and_reserve_read. apply calm_bind; [by apply calm_finish_write_read_loop|]. intros. solve_calm.
  - unfold finish_write_and_delete. apply calm_bind; [by apply calm_finish_write_delete_loop|]. intros. solve_calm.
  - unfold delete. solve_calm.
  - unfold clear, clear_unlocked. solve_calm.
  - unfold touch_keys. solve_calm.
  - unfold is_key_evictable. solve_calm.
  - unfold report_status. solve_calm.
Qed.

(** A write reservation holds through every history that does not force. *)
Lemma history_still cs s s' :
  l1_history clock write_ttl_seconds read_ttl_seconds l1_manager_id cs s s' → Forall gentle cs → Forall spares cs → still s s'.
Proof.
  induction 1 as [s|c cs s s1 s' Hc Hr Hh IH|cs s m s' He Hh IH]; intros Hg Hs; [by apply still_staging|..].
  - apply Forall_cons in Hg as [Hg1 Hg]. apply Forall_cons in Hs as [Hs1 Hs]. eapply still_trans; [|by apply IH]. by eapply (run_call_calm c Hg1 Hs1 s tt).
  - eapply still_trans; [|by apply IH]. by apply still_staging.
Qed.

Lemma history_inv cs s s' : l1_history clock write_ttl_seconds read_ttl_seconds l1_manager_id cs s s' → inv [] s → inv [] s'.
Proof.
  induction 1 as [s|c cs s s1 s' Hc Hr Hh IH|cs s m s' He Hh IH]; intros Hi; [done|..]; apply IH; [|by apply inv_env].
  pose proof (run_call_inv clock _ _ _ clock_mono read_ttl_nonneg c s Hc Hi) as Hw. unfold wp in Hw. by rewrite Hr in Hw.
Qed.
End staging.
