(* ===== verification/L1ManagerOps.v ===== *)
(** * What each L1 manager operation does

    Functional behaviour of reads, writes and deletions of the L1 manager, key
    by key and on every branch, for any batch of keys. *)

From stdpp Require Import gmap strings list relations.
From Stdlib Require Import ZArith Lia.
From S2P Require Import Prelude TTLLock TensorAllocator Keys L1Memory L1Manager L1ManagerInv L1ManagerProps L1Staging.

Open Scope Z_scope.
Open Scope l1_scope.

Section operations.
Context {M : Type} `{L1MemoryLaws M}.
Context (clock : nat → Z) (write_ttl_seconds read_ttl_seconds l1_manager_id : Z).

#[local] Abbreviation L1 := (L1 M).
#[local] Abbreviation inv := (inv (M:=M) write_ttl_seconds read_ttl_seconds l1_manager_id).
Implicit Types (s : L1) (m : M).

(** A clock reading made between two states. *)
Definition read_at s s' (t : nat) : Prop := (l1_tick s ≤ t < l1_tick s')%nat.

(** ** Reads *)

Definition read_answer (key : ObjectKey) s : L1OperationResult :=
  match dget key (l1_objects s) with
  | Some e => (SUCCESS, Some (memory_obj e))
  | None => (KEY_NOT_EXIST, None)
  end.

(** Two resident tables that differ in read locks only. *)
Definition same_objects s s' : Prop :=
  ∀ k, memory_obj <$> dget k (l1_objects s') = memory_obj <$> dget k (l1_objects s).

Lemma same_objects_answer s s' k : same_objects s s' → read_answer k s' = read_answer k s.
Proof.
  intros Hs. unfold read_answer. specialize (Hs k).
  destruct (dget k (l1_objects s')), (dget k (l1_objects s)); simplify_eq/=; congruence.
Qed.

Lemma same_objects_lock s k e l n :
  dget k (l1_objects s) = Some e →
  same_objects s (with_objects (dset k (with_read_lock l e) (l1_objects s)) (bump n s)).
Proof.
  intros Ek k'. cbn. rewrite dget_dset. case_decide; subst; [|done]. by rewrite Ek.
Qed.

Definition is_resident s (k : ObjectKey) : bool := dmem k (l1_objects s).

Lemma same_objects_resident s s' k : same_objects s s' → is_resident s' k = is_resident s k.
Proof.
  intros Hs. unfold is_resident, dmem. specialize (Hs k).
  destruct (dget k (l1_objects s')), (dget k (l1_objects s)); by simplify_eq/=.
Qed.

Lemma same_objects_trans s1 s2 s3 : same_objects s1 s2 → same_objects s2 s3 → same_objects s1 s3.
Proof. intros H1 H2 k. by rewrite H2, H1. Qed.

Lemma reserve_read_loop_spec total keys r ok s :
  wp (reserve_read_loop clock total keys r ok) (λ res s',
    (∀ k, dget k res.1 = if decide (k ∈ keys) then Some (read_answer k s) else dget k r) ∧
    res.2 = ok ++ filter (is_resident s) keys ∧ same_objects s s' ∧
    l1_staging s' = l1_staging s ∧ l1_staging_bytes s' = l1_staging_bytes s ∧
    l1_mm s' = l1_mm s ∧ l1_log s' = l1_log s) s.
Proof.
  revert r ok s. induction keys as [|key keys IH]; intros r ok s.
  { cbn. split_and!; try done. by rewrite app_nil_r. }
  cbn [reserve_read_loop]. apply wp_bind. unfold wp at 1. cbn [get].
  destruct (dget key (l1_objects s)) as [e|] eqn:Ek.
  - apply wp_bind. unfold wp at 1. rewrite now_n_eq. cbn beta iota.
    apply wp_bind. unfold wp at 1. cbn [put_objects].
    set (s1 := mkL1 _ _ _ _ _ _).
    assert (same_objects s s1) as Hs1 by (by apply (same_objects_lock s key e _ total)).
    eapply wp_mono; [apply IH|]. intros [r' ok'] s' (Hr & Hok & Hs & Hrest). cbn [fst snd] in *.
    split_and!; [| | |apply Hrest..].
    + intros k. rewrite Hr, dget_dset. rewrite (same_objects_answer _ _ k Hs1).
      destruct (decide (k ∈ keys)); [by rewrite decide_True by set_solver|].
      destruct (decide (key = k)) as [->|]; [|by rewrite decide_False by set_solver].
      rewrite decide_True by left. unfold read_answer. by rewrite Ek.
    + rewrite Hok, filter_cons, decide_True.
      * rewrite <-(assoc_L (++)). simpl. do 2 f_equal. apply list_filter_iff. intros k.
        by rewrite (same_objects_resident _ _ k Hs1).
      * unfold is_resident, dmem. by rewrite Ek.
    + by eapply same_objects_trans.
  - eapply wp_mono; [apply IH|]. intros [r' ok'] s' (Hr & Hok & Hs & Hrest). cbn [fst snd] in *.
    split_and!; [| |done|apply Hrest..].
    + intros k. rewrite Hr, dget_dset.
      destruct (decide (k ∈ keys)); [by rewrite decide_True by set_solver|].
      destruct (decide (key = k)) as [->|]; [|by rewrite decide_False by set_solver].
      rewrite decide_True by left. unfold read_answer. by rewrite Ek.
    + rewrite Hok, filter_cons, decide_False; [done|]. unfold is_resident, dmem. rewrite Ek. by intros [].
Qed.

Lemma reserve_read_effect keys n s :
  ∃ r s', reserve_read clock keys n s = (Ret r, s') ∧
    (∀ k, dget k r = if decide (k ∈ keys) then Some (read_answer k s) else None) ∧
    same_objects s s' ∧ l1_staging s' = l1_staging s ∧
    l1_staging_bytes s' = l1_staging_bytes s ∧ l1_mm s' = l1_mm s ∧
    l1_log s' = l1_log s ++ [Notify on_l1_keys_reserved_read (filter (is_resident s) keys);
                             Publish L1_READ_RESERVED (filter (is_resident s) keys) []].
Proof.
  pose proof (reserve_read_loop_spec (Z.to_nat (validate_read_locks n)) keys [] [] s) as Hw.
  unfold wp in Hw. unfold reserve_read, bind.
  destruct (reserve_read_loop _ _ _ _ _ s) as [[[r ok]|] s1]; [|done].
  cbn [fst snd] in Hw. destruct Hw as (Hr & -> & Hs & ? & ? & ? & Hl). cbn.
  do 2 eexists. split; [done|]. cbn. rewrite Hl. by split_and!.
Qed.

(** [reserve_read] answers for exactly the requested keys: SUCCESS with
    the resident object, or KEY_NOT_EXIST. Staged objects are invisible to it
    - the answer depends on the resident table alone - and it changes nothing
    but read locks; listeners and the event bus are told the keys that were
    resident, in request order. *)
Theorem reserve_read_spec keys n s :
  ∃ r s', reserve_read clock keys n s = (Ret r, s') ∧
    (∀ k, dget k r = if decide (k ∈ keys) then Some (read_answer k s) else None) ∧
    same_objects s s' ∧ l1_staging s' = l1_staging s ∧
    l1_staging_bytes s' = l1_staging_bytes s ∧ l1_mm s' = l1_mm s ∧
    l1_log s' = l1_log s ++ [Notify on_l1_keys_reserved_read (filter (is_resident s) keys);
                             Publish L1_READ_RESERVED (filter (is_resident s) keys) []].
Proof. apply reserve_read_effect. Qed.

(** ** Finishing a write *)

(** [now] is a reading of the clock made during the call. *)
Definition read_now s s' (now : Z) : Prop := ∃ t, read_at s s' t ∧ now = clock t.

Lemma read_now_mono s s1 s2 s3 now :
  (l1_tick s ≤ l1_tick s1)%nat → (l1_tick s2 ≤ l1_tick s3)%nat → read_now s1 s2 now → read_now s s3 now.
Proof. intros ? ? (t & [? ?] & ->). exists t. unfold read_at. split; [lia|done]. Qed.

Definition unchanged (k : ObjectKey) s s' : Prop :=
  dget k (l1_objects s') = dget k (l1_objects s) ∧ dget k (l1_staging s') = dget k (l1_staging s).

Lemma unchanged_staging k tag s s' :
  unchanged k s s' → staging_get k tag (l1_staging s') = staging_get k tag (l1_staging s).
Proof. intros [_ E]. unfold staging_get. by rewrite E. Qed.

Definition admitted_entry (e : L1ObjectState) : L1ObjectState :=
  with_charge 0 (with_write_lock (unlock (write_lock e)) e).

(** The result for [k], and its entries afterwards; [dropped] says what
    happens to an object that is not admitted. *)
Definition finish_write_outcome (dropped : oid → Prop) (tag : string) (k : ObjectKey)
    (res : option L1Error) s s' : Prop :=
  match staging_get k tag (l1_staging s) with
  | None => res = Some KEY_NOT_EXIST ∧ unchanged k s s'
  | Some e =>
      ∃ now, read_now s s' now ∧
      if is_locked now (write_lock e) then
        res = Some SUCCESS ∧ staging_get k tag (l1_staging s') = None ∧
        match dget k (l1_objects s) with
        | Some e0 => dget k (l1_objects s') = Some e0 ∧ dropped (memory_obj e)
        | None => dget k (l1_objects s') = Some (admitted_entry e)
        end
      else res = Some KEY_IN_WRONG_STATE ∧ unchanged k s s'
  end.

(** An outcome is stable under later changes to other keys. *)
Lemma finish_write_outcome_mono (P Q : oid → Prop) tag k res res' s s1 s' :
  (∀ i, P i → Q i) → res' = res → unchanged k s1 s' → (l1_tick s1 ≤ l1_tick s')%nat →
  finish_write_outcome P tag k res s s1 → finish_write_outcome Q tag k res' s s'.
Proof.
  intros HPQ -> [Ho Hs] Ht. unfold finish_write_outcome, unchanged.
  assert (staging_get k tag (l1_staging s') = staging_get k tag (l1_staging s1)) as Hg
    by (unfold staging_get; by rewrite Hs).
  destruct (staging_get k tag (l1_staging s)) as [e|].
  - intros (now & Hn & Hc). exists now. split; [by eapply read_now_mono; [..|exact Hn]|].
    destruct (is_locked now (write_lock e)); [|by rewrite Ho, Hs].
    rewrite Hg, Ho. destruct Hc as (? & ? & Hc). split_and!; [done|done|].
    destruct (dget k (l1_objects s)); naive_solver.
  - by rewrite Ho, Hs.
Qed.

(** ... and may be read relative to an earlier state with the same entries. *)
Lemma finish_write_outcome_from P tag k res s s1 s' :
  unchanged k s s1 → (l1_tick s ≤ l1_tick s1)%nat →
  finish_write_outcome P tag k res s1 s' → finish_write_outcome P tag k res s s'.
Proof.
  intros Hu Ht. unfold finish_write_outcome, unchanged.
  rewrite (unchanged_staging k tag s s1 Hu). destruct Hu as [Ho Hs]. rewrite Ho, Hs.
  destruct (staging_get k tag (l1_staging s)) as [e|]; [|done].
  intros (now & Hn & Hc). exists now. split; [by eapply read_now_mono; [..|exact Hn]|]. done.
Qed.

(** The body of the loop for one key. *)
Definition fw_step (tag : string) (key : ObjectKey) (acc : fw_acc) : L1M M fw_acc :=
  finish_write_loop clock tag [key] acc.

Lemma finish_write_loop_cons tag key keys acc s :
  finish_write_loop clock tag (key :: keys) acc s
  = bind (fw_step tag key acc) (finish_write_loop clock tag keys) s.
Proof.
  unfold fw_step. destruct acc as [r nk nm d]. cbn [finish_write_loop]. unfold bind.
  destruct (_take_staging clock key tag s) as [[[err [e|]]|] s1]; [|reflexivity..].
  unfold get, put_objects, ret. destruct (dmem key (l1_objects s1)); [done|].
  by destruct (is_temporary e).
Qed.

Lemma fw_step_spec tag key acc s :
  wp (fw_step tag key acc) (λ acc' s',
    finish_write_outcome (.∈ fw_discarded acc') tag key (dget key (fw_ret acc')) s s' ∧
    (∀ k, k ≠ key → dget k (fw_ret acc') = dget k (fw_ret acc) ∧ unchanged k s s') ∧
    (∀ i, i ∈ fw_discarded acc → i ∈ fw_discarded acc') ∧
    l1_mm s' = l1_mm s ∧ (l1_tick s ≤ l1_tick s')%nat) s.
Proof.
  unfold fw_step. destruct acc as [r nk nm d]. cbn [finish_write_loop].
  apply wp_bind. unfold wp at 1. rewrite take_staging_eq. unfold finish_write_outcome.
  destruct (staging_get key tag (l1_staging s)) as [e|] eqn:Eg.
  2: { apply wp_ret. cbn. rewrite dget_dset_eq. split_and!; try done. intros k Hk. by rewrite dget_dset_ne. }
  assert (∀ s', l1_tick s' = (l1_tick s + 1)%nat → read_now s s' (clock (l1_tick s))) as Hnow.
  { intros s' Ht. exists (l1_tick s). unfold read_at. split; [lia|done]. }
  assert (∀ k stg, k ≠ key → stg = staging_del key tag (l1_staging s) → dget k stg = dget k (l1_staging s)) as Hdel.
  { intros k stg Hk ->. by rewrite dget_staging_del_ne. }
  destruct (is_locked (clock (l1_tick s)) (write_lock e)) eqn:El.
  - apply wp_bind. unfold wp at 1. cbn [get]. cbn [l1_objects bump with_staging].
    unfold dmem. destruct (dget key (l1_objects s)) as [e0|] eqn:Ek.
    + apply wp_ret. cbn -[staging_del staging_get]. rewrite dget_dset_eq. split_and!; [|..|lia]; try done.
      * exists (clock (l1_tick s)). rewrite El. split; [by apply Hnow|]. cbn -[staging_del staging_get].
        rewrite staging_get_del, decide_True by done. split_and!; try done. set_solver.
      * intros k Hk. rewrite dget_dset_ne by done. split; [done|]. split; [done|]. by apply Hdel.
      * set_solver.
    + apply wp_bind. unfold wp at 1. cbn [put_objects].
      assert (∀ b : bool, wp (if b then finish_write_loop clock tag [] (mkFW (dset key SUCCESS r) nk nm d)
          else finish_write_loop clock tag [] (mkFW (dset key SUCCESS r) (nk ++ [key])
            (nm ++ [obj_size (bump 1 (with_staging (staging_del key tag (l1_staging s))
               (l1_staging_bytes s - staging_charge e) s)) (memory_obj e)]) d)) (λ acc' s',
          fw_ret acc' = dset key SUCCESS r ∧ fw_discarded acc' = d ∧
          s' = bump 1 (with_objects (dset key (admitted_entry e) (l1_objects s))
                 (with_staging (staging_del key tag (l1_staging s)) (l1_staging_bytes s - staging_charge e) s)))
        (bump 1 (with_objects (dset key (admitted_entry e) (l1_objects s))
                 (with_staging (staging_del key tag (l1_staging s)) (l1_staging_bytes s - staging_charge e) s)))) as Hb
        by (by intros []).
      eapply wp_mono; [exact (Hb (is_temporary e))|]. intros acc' s' (-> & -> & ->).
      cbn -[staging_del staging_get]. rewrite dget_dset_eq. split_and!; [|..|lia]; try done.
      * exists (clock (l1_tick s)). rewrite El. split; [by apply Hnow|]. cbn -[staging_del staging_get].
        by rewrite staging_get_del, decide_True, dget_dset_eq by done.
      * intros k Hk. rewrite dget_dset_ne by done. split; [done|]. cbn -[staging_del]. split.
        -- cbn. by rewrite dget_dset_ne.
        -- by apply Hdel.
  - apply wp_ret. cbn. rewrite dget_dset_eq. split_and!; [|..|lia]; try done.
    + exists (clock (l1_tick s)). rewrite El. by split; [apply Hnow|].
    + intros k Hk. by rewrite dget_dset_ne.
Qed.

Lemma unchanged_refl k s : unchanged k s s.
Proof. done. Qed.
Lemma unchanged_trans k s1 s2 s3 : unchanged k s1 s2 → unchanged k s2 s3 → unchanged k s1 s3.
Proof. intros [? ?] [? ?]. split; congruence. Qed.

Lemma finish_write_loop_spec tag keys acc s :
  NoDup keys →
  wp (finish_write_loop clock tag keys acc) (λ acc' s',
    (∀ k, k ∈ keys → finish_write_outcome (.∈ fw_discarded acc') tag k (dget k (fw_ret acc')) s s') ∧
    (∀ k, k ∉ keys → dget k (fw_ret acc') = dget k (fw_ret acc) ∧ unchanged k s s') ∧
    (∀ i, i ∈ fw_discarded acc → i ∈ fw_discarded acc') ∧
    l1_mm s' = l1_mm s ∧ (l1_tick s ≤ l1_tick s')%nat) s.
Proof.
  revert acc s. induction keys as [|key keys IH]; intros acc s Hnd.
  { cbn. split_and!; try done. intros k Hk. by apply not_elem_of_nil in Hk. }
  apply NoDup_cons in Hnd as [Hkey Hnd]. unfold wp. rewrite finish_write_loop_cons. apply wp_bind.
  eapply wp_mono; [apply fw_step_spec|]. intros acc1 s1 (Hout & Hoth & Hd & Hm & Ht).
  eapply wp_mono; [by apply IH|]. intros acc2 s2 (Hout2 & Hoth2 & Hd2 & Hm2 & Ht2).
  split_and!; [| |by auto|congruence|lia].
  - intros k [->|Hk]%elem_of_cons.
    + destruct (Hoth2 key Hkey) as [E Hu]. by eapply finish_write_outcome_mono; [| | | |exact Hout].
    + assert (k ≠ key) as Hne by (intros ->; done). destruct (Hoth k Hne) as [_ Hu].
      by eapply finish_write_outcome_from; [exact Hu|done|apply Hout2].
  - intros k [Hne Hk]%not_elem_of_cons. destruct (Hoth k Hne) as [E1 U1], (Hoth2 k Hk) as [E2 U2].
    split; [congruence|by eapply unchanged_trans].
Qed.

Lemma finish_write_effect keys tag s :
  inv [] s → NoDup keys →
  ∃ r s', finish_write clock keys tag s = (Ret r, s') ∧
    (∀ k, k ∈ keys → finish_write_outcome (λ i, ¬ mm_live (l1_mm s') i) tag k (dget k r) s s') ∧
    (∀ k, k ∉ keys → dget k r = None ∧ unchanged k s s').
Proof.
  intros Hinv Hnd.
  pose proof (finish_write_loop_spec tag keys (mkFW [] [] [] []) s Hnd) as Hw.
  pose proof (finish_write_loop_inv clock _ _ _ tag keys (mkFW [] [] [] []) s Hinv) as Hi.
  unfold finish_write, bind. unfold wp in Hw, Hi.
  destruct (finish_write_loop _ _ _ _ s) as [[acc|] s1]; [|done]. cbn [fw_ret] in Hw.
  destruct Hw as (Hout & Hoth & _ & _ & _).
  pose proof (free_objs_inv clock _ _ _ (fw_discarded acc) [] s1 ltac:(by rewrite app_nil_r)) as Hf.
  unfold wp in Hf. destruct (free_objs _ s1) as [[[]|] s2]; [|done]. destruct Hf as [_ Hf].
  assert (∀ k, unchanged k s1 s2) as Hu by (intros k; split; [by rewrite (fr_objects _ _ _ Hf)|by rewrite (fr_staging _ _ _ Hf)]).
  assert (∀ i, i ∈ fw_discarded acc → ¬ mm_live (l1_mm s2) i) as Hdead.
  { intros i Hin (o & Ho & Hv). rewrite (fr_objs _ _ _ Hf), decide_True in Ho by done.
    destruct (mm_objs (l1_mm s1) !! i); [|done]. by simplify_eq/=. }
  assert (∀ s3, (∀ k, unchanged k s2 s3) → l1_mm s3 = l1_mm s2 → (l1_tick s2 ≤ l1_tick s3)%nat →
    (∀ k, k ∈ keys → finish_write_outcome (λ i, ¬ mm_live (l1_mm s3) i) tag k (dget k (fw_ret acc)) s s3) ∧
    (∀ k, k ∉ keys → dget k (fw_ret acc) = None ∧ unchanged k s s3)) as Hfin.
  { intros s3 Hu3 Hm3 Ht3. rewrite Hm3. split.
    - intros k Hk. eapply finish_write_outcome_mono; [exact Hdead|done| | |by apply Hout].
      + by eapply unchanged_trans.
      + rewrite <-(fr_tick _ _ _ Hf). done.
    - intros k Hk. destruct (Hoth k Hk) as [-> U]. split; [done|].
      eapply unchanged_trans; [exact U|]. by eapply unchanged_trans. }
  destruct (fw_notify acc); do 2 eexists; (split; [done|]); by apply Hfin.
Qed.

(** [finish_write] on distinct keys, in any consistent state: for each
    key, KEY_NOT_EXIST when the tag stages nothing, KEY_IN_WRONG_STATE with
    everything left in place when the reservation had expired at the reading
    made, and otherwise SUCCESS with the staged object gone from the staging
    table and admitted as the resident object - or, when the key was already
    resident, discarded and its memory freed while the resident object is
    kept. Other keys are untouched. *)
Theorem finish_write_spec keys tag s :
  inv [] s → NoDup keys →
  ∃ r s', finish_write clock keys tag s = (Ret r, s') ∧
    (∀ k, k ∈ keys → finish_write_outcome (λ i, ¬ mm_live (l1_mm s') i) tag k (dget k r) s s') ∧
    (∀ k, k ∉ keys → dget k r = None ∧ unchanged k s s').
Proof. apply finish_write_effect. Qed.

(** ** Deletion *)

(** Somebody still uses [k]: a live reservation that is still staged, or a
    read lock, at a reading made during the call. *)
Definition in_use (k : ObjectKey) s s' : Prop :=
  (∃ tag e now, staging_get k tag (l1_staging s) = Some e ∧ staging_get k tag (l1_staging s') = Some e ∧
     read_now s s' now ∧ is_locked now (write_lock e) = true) ∨
  (∃ e now, dget k (l1_objects s) = Some e ∧ read_now s s' now ∧ is_locked now (read_lock e) = true).

(** Nobody uses [k]: every lock on it had expired or was free when read. *)
Definition not_in_use (k : ObjectKey) s s' : Prop :=
  (∀ e, dget k (l1_objects s) = Some e → ∃ now, read_now s s' now ∧ is_locked now (read_lock e) = false) ∧
  (∀ tag e, staging_get k tag (l1_staging s) = Some e →
     ∃ now, read_now s s' now ∧ is_locked now (write_lock e) = false).

Definition delete_outcome (dropped : oid → Prop) (force : bool) (k : ObjectKey)
    (res : option L1Error) s s' : Prop :=
  res = Some KEY_NOT_EXIST ∧ dget k (l1_objects s) = None ∧ dget k (l1_staging s) = None ∧ unchanged k s s' ∨
  res = Some SUCCESS ∧ (is_Some (dget k (l1_objects s)) ∨ is_Some (dget k (l1_staging s))) ∧
    dget k (l1_objects s') = None ∧ dget k (l1_staging s') = None ∧
    (force = true ∨ not_in_use k s s') ∧
    (∀ e, dget k (l1_objects s) = Some e → dropped (memory_obj e)) ∨
  res = Some KEY_IS_LOCKED ∧ force = false ∧ dget k (l1_objects s') = dget k (l1_objects s) ∧ in_use k s s'.

Lemma in_use_mono k s s1 s' : unchanged k s1 s' → (l1_tick s1 ≤ l1_tick s')%nat → in_use k s s1 → in_use k s s'.
Proof.
  intros Hu Ht [(tag & e & now & ? & Hg & Hn & ?)|(e & now & ? & Hn & ?)]; [left|right].
  - exists tag, e, now. split_and!; [done|by rewrite (unchanged_staging k tag s1 s' Hu)| |done].
    by eapply read_now_mono; [..|exact Hn].
  - exists e, now. split_and!; [done| |done]. by eapply read_now_mono; [..|exact Hn].
Qed.

Lemma not_in_use_mono k s s1 s' : (l1_tick s1 ≤ l1_tick s')%nat → not_in_use k s s1 → not_in_use k s s'.
Proof.
  intros Ht [H1 H2]. split.
  - intros e He. destruct (H1 e He) as (now & Hn & ?). exists now. split; [|done].
    by eapply read_now_mono; [..|exact Hn].
  - intros tag e He. destruct (H2 tag e He) as (now & Hn & ?). exists now. split; [|done].
    by eapply read_now_mono; [..|exact Hn].
Qed.

Lemma delete_outcome_mono (P Q : oid → Prop) force k res res' s s1 s' :
  (∀ i, P i → Q i) → res' = res → unchanged k s1 s' → (l1_tick s1 ≤ l1_tick s')%nat →
  delete_outcome P force k res s s1 → delete_outcome Q force k res' s s'.
Proof.
  intros HPQ -> Hu Ht. pose proof Hu as [Ho Hs].
  intros [(? & ? & ? & U)|[(? & ? & E1 & E2 & Hf & Hd)|(? & ? & E1 & Hu')]].
  - left. split_and!; try done. by eapply unchanged_trans.
  - right. left. rewrite Ho, Hs. split_and!; try done; [|by auto].
    destruct Hf as [?|Hf]; [by left|right; by eapply not_in_use_mono].
  - right. right. rewrite Ho. split_and!; try done. by eapply in_use_mono.
Qed.

Lemma delete_outcome_from P force k res s s1 s' :
  unchanged k s s1 → (l1_tick s ≤ l1_tick s1)%nat →
  delete_outcome P force k res s1 s' → delete_outcome P force k res s s'.
Proof.
  intros Hu Ht. pose proof Hu as [Ho Hs]. unfold delete_outcome, in_use, not_in_use, unchanged.
  assert (∀ tag, staging_get k tag (l1_staging s1) = staging_get k tag (l1_staging s)) as Hg
    by (intros; by apply unchanged_staging).
  assert (∀ now, read_now s1 s' now → read_now s s' now) as Hr
    by (intros now Hn; by eapply read_now_mono; [..|exact Hn]).
  rewrite Ho, Hs. setoid_rewrite Hg. naive_solver.
Qed.

Definition del_step (force : bool) (key : ObjectKey) (acc : del_acc) : L1M M del_acc :=
  delete_loop clock force [key] acc.

Lemma delete_loop_cons force key keys acc s :
  delete_loop clock force (key :: keys) acc s
  = bind (del_step force key acc) (delete_loop clock force keys) s.
Proof.
  unfold del_step. destruct acc as [r ok f gone]. cbn [delete_loop]. unfold bind, get.
  destruct (match dget key (l1_objects s) with None => _ | Some _ => _ end); [done|].
  destruct (_reclaim_staging clock key force s) as [[z|] s1]; [|done].
  destruct (dmem key (l1_staging s1)); [done|]. destruct (dget key (l1_objects s)) as [e|]; [|done].
  rewrite now_eq. by destruct (_ && _).
Qed.

(** After [_reclaim_staging] a key is gone, or held by a live reservation. *)
Lemma reclaimed_key key force s s' :
  staging_wf (l1_staging s) → staging_wf (l1_staging s') →
  reclaimed clock key force (default [] (dget key (l1_staging s))) s s' →
  (dmem key (l1_staging s') = true →
     force = false ∧ ∃ tag e now, staging_get key tag (l1_staging s) = Some e ∧
       staging_get key tag (l1_staging s') = Some e ∧ read_now s s' now ∧ is_locked now (write_lock e) = true) ∧
  (dmem key (l1_staging s') = false → force = true ∨
     ∀ tag e, staging_get key tag (l1_staging s) = Some e →
       ∃ now, read_now s s' now ∧ is_locked now (write_lock e) = false).
Proof.
  intros Hwf Hwf' [R1 R2 R3 R4 R5 R6].
  assert (∀ tag e, staging_get key tag (l1_staging s) = Some e → reclaim_fate clock force s s' e (staging_get key tag (l1_staging s'))) as Hfate.
  { intros tag e (pt & Ek & Et)%staging_get_Some. apply R6. rewrite Ek. by apply dget_Some_elem. }
  split.
  - intros (tag & e' & Eg')%staging_mem_get; [|done].
    destruct (staging_get key tag (l1_staging s)) as [e|] eqn:Eg.
    + destruct (Hfate tag e Eg) as [(E & -> & t & Ht & Hl)|[E _]]; [|congruence].
      split; [done|]. exists tag, e, (clock t). split_and!; [done|done| |done]. by exists t.
    + exfalso. assert (tag ∉ (default [] (dget key (l1_staging s))).*1) as Hn.
      { unfold staging_get in Eg. destruct (dget key (l1_staging s)); [by apply dget_None in Eg|].
        apply not_elem_of_nil. }
      rewrite R5 in Eg' by done. congruence.
  - intros Hd. destruct force; [by left|right]. intros tag e Eg.
    destruct (Hfate tag e Eg) as [(E & _)|[_ [?|(t & Ht & Hl)]]]; [|done|].
    + exfalso. unfold staging_get, dmem in *. by destruct (dget key (l1_staging s')).
    + exists (clock t). split; [by exists t|done].
Qed.

(** What one key's turn leaves alone. *)
Record del_frame (key : ObjectKey) (acc acc' : del_acc) s s' : Prop := {
  df_ret : ∀ k, k ≠ key → dget k (del_ret acc') = dget k (del_ret acc) ∧ unchanged k s s';
  df_free : ∀ i, i ∈ del_free acc → i ∈ del_free acc';
  df_tick : (l1_tick s ≤ l1_tick s')%nat
}.

Lemma del_step_spec force key acc s :
  inv (del_free acc) s →
  wp (del_step force key acc) (λ acc' s',
    inv (del_free acc') s' ∧ del_frame key acc acc' s s' ∧
    delete_outcome (.∈ del_free acc') force key (dget key (del_ret acc')) s s') s.
Proof.
  intros Hinv. pose proof (delete_loop_inv clock _ _ _ force [key] acc s Hinv) as Hi.
  fold (del_step force key acc) in Hi.
  cut (wp (del_step force key acc) (λ acc' s', del_frame key acc acc' s s' ∧
    delete_outcome (.∈ del_free acc') force key (dget key (del_ret acc')) s s') s).
  { unfold wp in *. destruct (del_step force key acc s) as [[acc'|] s']; tauto. }
  clear Hi. unfold del_step. destruct acc as [r ok f gone]. cbn [delete_loop].
  apply wp_bind. unfold wp at 1. cbn [get].
  assert (∀ x k, k ≠ key → dget k (dset key x r) = dget k r) as Hr by (intros; by apply dget_dset_ne).
  destruct (match dget key (l1_objects s) with None => _ | Some _ => _ end) eqn:Eabs.
  { apply wp_ret. split; [by split; [intros k Hk; split; [apply Hr|]| |]|]. left. cbn. rewrite dget_dset_eq.
    destruct (dget key (l1_objects s)); [done|]. apply negb_true_iff in Eabs. unfold dmem in Eabs.
    by destruct (dget key (l1_staging s)). }
  apply wp_bind. eapply wp_mono; [by apply (reclaim_staging_ok clock write_ttl_seconds read_ttl_seconds l1_manager_id key force f s)|].
  intros z s1 [Hinv1 Hrc]. apply wp_bind. unfold wp at 1. cbn [get].
  destruct (reclaimed_key key force s s1 (ti_staging _ _ _ (inv_tab _ _ _ _ _ Hinv))
    (ti_staging _ _ _ (inv_tab _ _ _ _ _ Hinv1)) Hrc) as [Hlive Hgone].
  pose proof (rc_objects _ _ _ _ _ _ Hrc) as Ho. pose proof (rc_tick _ _ _ _ _ _ Hrc) as Ht.
  assert (∀ k, k ≠ key → unchanged k s s1) as Hu1
    by (intros k Hk; split; [by rewrite Ho|by apply (rc_other_key _ _ _ _ _ _ Hrc)]).
  destruct (dmem key (l1_staging s1)) eqn:Ed.
  { apply wp_ret. split; [by split; [intros k Hk; split; [apply Hr|apply Hu1]| |]|].
    right. right. cbn. rewrite dget_dset_eq. destruct (Hlive eq_refl) as [-> Huse].
    split_and!; [done|done|by rewrite Ho|by left]. }
  assert (dget key (l1_staging s1) = None) as Hs1 by (unfold dmem in Ed; by destruct (dget key (l1_staging s1))).
  destruct (dget key (l1_objects s)) as [e|] eqn:Ek.
  2: { apply wp_ret. split; [by split; [intros k Hk; split; [apply Hr|apply Hu1]| |]|].
       right. left. cbn. rewrite dget_dset_eq, Ho, Ek. split_and!; try done.
       { right. apply negb_false_iff, dmem_true in Eabs. by apply dget_is_Some. }
       destruct (Hgone eq_refl) as [?|Hg]; [by left|right]. split; [|done]. intros e. by rewrite Ek. }
  apply wp_bind. unfold wp at 1. rewrite now_eq. cbn beta iota.
  assert (read_now s (bump 1 s1) (clock (l1_tick s1))) as Hnow
    by (exists (l1_tick s1); unfold read_at; cbn; split; [lia|done]).
  destruct (is_locked (clock (l1_tick s1)) (read_lock e) && negb force) eqn:El.
  - apply andb_true_iff in El as [El Ef%negb_true_iff]. apply wp_ret.
    split; [by split; [intros k Hk; split; [apply Hr|apply Hu1]| |cbn; lia]|].
    right. right. cbn. rewrite dget_dset_eq. split_and!; [done|done|by rewrite Ho|].
    right. exists e, (clock (l1_tick s1)). done.
  - apply wp_bind. unfold wp at 1. cbn [put_objects]. apply wp_ret. split.
    + split; cbn; [|set_solver|lia]. intros k Hk. split; [by apply Hr|]. destruct (Hu1 k Hk) as [E1 E2].
      split; cbn; [|done]. by rewrite dget_ddel_ne.
    + right. left. cbn. rewrite dget_dset_eq, dget_ddel_eq. split_and!; try done; [left; by eexists| |].
      * destruct (Hgone eq_refl) as [?|Hg]; [by left|].
        apply andb_false_iff in El as [El|El%negb_false_iff]; [right|by left]. split.
        -- intros e' He'. rewrite Ek in He'. injection He' as <-. exists (clock (l1_tick s1)). done.
        -- intros tag e' Hg'. destruct (Hg tag e' Hg') as (now & Hn & ?). exists now. split; [|done].
           eapply read_now_mono; [..|exact Hn]; cbn; lia.
      * intros e' He'. rewrite Ek in He'. injection He' as <-. set_solver.
Qed.

Lemma delete_loop_spec force keys acc s :
  inv (del_free acc) s → NoDup keys →
  wp (delete_loop clock force keys acc) (λ acc' s',
    inv (del_free acc') s' ∧ (∀ i, i ∈ del_free acc → i ∈ del_free acc') ∧ (l1_tick s ≤ l1_tick s')%nat ∧
    (∀ k, k ∈ keys → delete_outcome (.∈ del_free acc') force k (dget k (del_ret acc')) s s') ∧
    (∀ k, k ∉ keys → dget k (del_ret acc') = dget k (del_ret acc) ∧ unchanged k s s')) s.
Proof.
  revert acc s. induction keys as [|key keys IH]; intros acc s Hinv Hnd.
  { cbn. split_and!; try done. intros k Hk. by apply not_elem_of_nil in Hk. }
  apply NoDup_cons in Hnd as [Hkey Hnd]. unfold wp. rewrite delete_loop_cons. apply wp_bind.
  eapply wp_mono; [by apply del_step_spec|]. intros acc1 s1 (Hinv1 & [Hoth Hd Ht] & Hout).
  eapply wp_mono; [by apply IH|]. intros acc2 s2 (Hinv2 & Hd2 & Ht2 & Hout2 & Hoth2).
  split_and!; [done|by auto|lia| |].
  - intros k [->|Hk]%elem_of_cons.
    + destruct (Hoth2 key Hkey) as [E Hu]. by eapply delete_outcome_mono; [| | | |exact Hout].
    + destruct (Hoth k ltac:(intros ->; done)) as [_ Hu].
      by eapply delete_outcome_from; [exact Hu|done|apply Hout2].
  - intros k [Hne Hk]%not_elem_of_cons. destruct (Hoth k Hne) as [E1 U1], (Hoth2 k Hk) as [E2 U2].
    split; [congruence|by eapply unchanged_trans].
Qed.

Lemma delete_effect keys force s :
  inv [] s → NoDup keys →
  ∃ r s', delete clock keys force s = (Ret r, s') ∧
    (∀ k, k ∈ keys → delete_outcome (λ i, ¬ mm_live (l1_mm s') i) force k (dget k r) s s') ∧
    (∀ k, k ∉ keys → dget k r = None ∧ unchanged k s s').
Proof.
  intros Hinv Hnd. pose proof (delete_loop_spec force keys (mkDel [] [] [] []) s Hinv Hnd) as Hw.
  unfold delete, bind. unfold wp in Hw.
  destruct (delete_loop _ _ _ _ s) as [[acc|] s1]; [|done]. cbn [del_ret] in Hw.
  destruct Hw as (Hinv1 & _ & _ & Hout & Hoth).
  pose proof (free_objs_inv clock _ _ _ (del_free acc) [] s1 ltac:(by rewrite app_nil_r)) as Hf.
  unfold wp in Hf. unfold _free_and_report_deleted, bind, get.
  destruct (free_objs _ s1) as [[[]|] s2]; [|done]. destruct Hf as [_ Hf].
  assert (∀ i, i ∈ del_free acc → ¬ mm_live (l1_mm s2) i) as Hdead.
  { intros i Hin (o & Ho & Hv). rewrite (fr_objs _ _ _ Hf), decide_True in Ho by done.
    destruct (mm_objs (l1_mm s1) !! i); [|done]. by simplify_eq/=. }
  assert (∀ k s3, l1_objects s3 = l1_objects s2 → l1_staging s3 = l1_staging s2 → unchanged k s1 s3) as Hu.
  { intros k s3 E1 E2. split; [by rewrite E1, (fr_objects _ _ _ Hf)|by rewrite E2, (fr_staging _ _ _ Hf)]. }
  assert (∀ s3, l1_objects s3 = l1_objects s2 → l1_staging s3 = l1_staging s2 → l1_mm s3 = l1_mm s2 →
    l1_tick s3 = l1_tick s2 →
    (∀ k, k ∈ keys → delete_outcome (λ i, ¬ mm_live (l1_mm s3) i) force k (dget k (del_ret acc)) s s3) ∧
    (∀ k, k ∉ keys → dget k (del_ret acc) = None ∧ unchanged k s s3)) as Hfin.
  { intros s3 E1 E2 E3 E4. rewrite E3. split.
    - intros k Hk. eapply delete_outcome_mono; [exact Hdead|done|by apply Hu| |by apply Hout].
      rewrite E4, (fr_tick _ _ _ Hf). done.
    - intros k Hk. destruct (Hoth k Hk) as [-> U]. split; [done|]. eapply unchanged_trans; [exact U|by apply Hu]. }
  cbn [emit]. destruct (del_gone acc); do 2 eexists; (split; [done|]); by apply Hfin.
Qed.

(** [delete] on distinct keys, in any consistent state: a key is
    KEY_NOT_EXIST exactly when it is neither resident nor staged; otherwise
    it is either SUCCESS, gone from both tables with the memory of its
    resident object freed - without force only if every lock on it had
    expired when read - or, without force only, KEY_IS_LOCKED with its
    resident object kept, because a live reservation or a read lock was seen.
    Other keys are untouched. *)
Theorem delete_spec keys force s :
  inv [] s → NoDup keys →
  ∃ r s', delete clock keys force s = (Ret r, s') ∧
    (∀ k, k ∈ keys → delete_outcome (λ i, ¬ mm_live (l1_mm s') i) force k (dget k r) s s') ∧
    (∀ k, k ∉ keys → dget k r = None ∧ unchanged k s s').
Proof. apply delete_effect. Qed.

(** ** Reserving a write *)

(** [tag] stages the object [i] for [k] under a write lock that holds until
    [T]. *)
Definition reserved (tag : string) (T : Z) (k : ObjectKey) (i : oid) s : Prop :=
  dget k (l1_objects s) = None ∧
  ∃ e, staging_get k tag (l1_staging s) = Some e ∧ memory_obj e = i ∧
       counter (write_lock e) = 1 ∧ T <= expiration_ms (write_lock e).

Definition refused (tag : string) (k : ObjectKey) s s' : Prop :=
  is_resident s k = true ∨
  ∃ e now, staging_get k tag (l1_staging s) = Some e ∧ read_now s s' now ∧
           is_locked now (write_lock e) = true.

Definition reserve_write_outcome (tag : string) (T : Z) (k : ObjectKey)
    (res : option L1OperationResult) s s' : Prop :=
  (∃ i, res = Some (SUCCESS, Some i) ∧ reserved tag T k i s') ∨
  res = Some (KEY_NOT_WRITABLE, None) ∧ refused tag k s s' ∧ unchanged k s s' ∨
  res = Some (OUT_OF_MEMORY, None) ∧ is_resident s k = false ∧
    staging_get k tag (l1_staging s) = None ∧ unchanged k s s'.

Lemma reserved_mono tag T k i s s' : unchanged k s s' → reserved tag T k i s → reserved tag T k i s'.
Proof.
  intros Hu [Ho (e & He & Hr)]. pose proof (unchanged_staging k tag s s' Hu) as Hg. destruct Hu as [Hu _].
  split; [congruence|]. exists e. by rewrite Hg.
Qed.

Lemma refused_mono tag k s s1 s2 s' :
  unchanged k s s1 → (l1_tick s ≤ l1_tick s1)%nat → (l1_tick s2 ≤ l1_tick s')%nat →
  refused tag k s1 s2 → refused tag k s s'.
Proof.
  intros Hu Ht Ht' [Hr|(e & now & Hg & Hn & Hl)]; [left|right].
  - destruct Hu as [Ho _]. unfold is_resident, dmem in *. by rewrite <-Ho.
  - exists e, now. rewrite <-(unchanged_staging k tag s s1 Hu). split_and!; [done| |done].
    by eapply read_now_mono; [..|exact Hn].
Qed.

(** The turn of a key in the first loop: settled, or left to allocate. *)
Definition scan_outcome (tag : string) (T : Z) (need : list ObjectKey) (r0 : dict ObjectKey L1OperationResult)
    (k : ObjectKey) (r : dict ObjectKey L1OperationResult) s s' : Prop :=
  (∃ i, dget k r = Some (SUCCESS, Some i) ∧ reserved tag T k i s' ∧ k ∉ need) ∨
  (dget k r = Some (KEY_NOT_WRITABLE, None) ∧ refused tag k s s' ∧ unchanged k s s' ∧ k ∉ need) ∨
  (dget k r = dget k r0 ∧ k ∈ need ∧ is_resident s k = false ∧
     staging_get k tag (l1_staging s) = None ∧ unchanged k s s').

Hypothesis clock_mono : ∀ i j, (i ≤ j)%nat → clock i <= clock j.

(** What the turn of [key] leaves alone. *)
Record scan_frame (keys : list ObjectKey) (need need' : list (ObjectKey * bool))
    (r r' : dict ObjectKey L1OperationResult) s s' : Prop := {
  sf_other : ∀ k, k ∉ keys → dget k r' = dget k r ∧ unchanged k s s' ∧ (k ∈ need'.*1 ↔ k ∈ need.*1);
  sf_mm : l1_mm s' = l1_mm s;
  sf_tick : (l1_tick s ≤ l1_tick s')%nat
}.

Lemma scan_cons tag it items r ok need s :
  reserve_write_scan clock tag (it :: items) r ok need s
  = bind (reserve_write_scan clock tag [it] r ok need)
      (λ x, reserve_write_scan clock tag items x.1.1 x.1.2 x.2) s.
Proof.
  destruct it as [key b]. cbn [reserve_write_scan]. unfold bind, get, ret.
  destruct (dmem key (l1_objects s)); [done|]. unfold _get_staging.
  destruct (staging_get key tag (l1_staging s)) as [e|]; [|done].
  rewrite now_eq. destruct (is_locked _ _); [done|]. by rewrite now_eq.
Qed.

Lemma scan_step_spec tag T key b r ok need s :
  inv [] s → key ∉ need.*1 → T <= clock (l1_tick s) + write_ttl_seconds * 1000 →
  wp (reserve_write_scan clock tag [(key, b)] r ok need) (λ res s',
    scan_outcome tag T res.2.*1 r key res.1.1 s s' ∧ scan_frame [key] need res.2 r res.1.1 s s') s.
Proof.
  intros Hinv Hkneed HT. cbn [reserve_write_scan]. apply wp_bind. unfold wp at 1. cbn [get].
  assert (∀ x k, k ∉ [key] → dget k (dset key x r) = dget k r) as Hr
    by (intros x k Hk; rewrite dget_dset_ne; [done|set_solver]).
  destruct (dmem key (l1_objects s)) eqn:Ed.
  { apply wp_ret. cbn [fst snd]. split; [|by split; [intros k Hk; by rewrite Hr|..]].
    right. left. rewrite dget_dset_eq. split_and!; try done. by left. }
  unfold _get_staging. destruct (staging_get key tag (l1_staging s)) as [e|] eqn:Eg.
  2: { apply wp_ret. cbn [fst snd]. rewrite fmap_app. split; [|split; try done].
       - right. right. split_and!; try done. set_solver.
       - intros k Hk. split_and!; try done. rewrite fmap_app. set_solver. }
  apply wp_bind. unfold wp at 1. rewrite now_eq. cbn beta iota.
  destruct (is_locked (clock (l1_tick s)) (write_lock e)) eqn:El.
  { apply wp_ret. cbn [fst snd]. split; [|split; [intros k Hk; by rewrite Hr|done|cbn; lia]].
    right. left. rewrite dget_dset_eq. split_and!; try done. right. exists e, (clock (l1_tick s)).
    split_and!; try done. exists (l1_tick s). unfold read_at. cbn. split; [lia|done]. }
  apply wp_bind. unfold wp at 1. rewrite now_eq. cbn beta iota.
  apply wp_bind. unfold wp at 1. cbn -[staging_set dset].
  pose proof (inv_staged_ok _ _ _ _ _ _ _ _ Hinv Eg) as Hok. pose proof Hok as (_ & _ & _ & Httl).
  pose proof (clock_mono (l1_tick s) (l1_tick s + 1) ltac:(lia)) as Hle.
  destruct (staged_ok_handover _ _ _ _ e b Hok El Hle) as (Hc' & _). cbn in Hc'. split.
  - left. exists (memory_obj e). rewrite dget_dset_eq. split_and!; try done. unfold dmem in Ed.
    split; cbn -[staging_set staging_get]; [by destruct (dget key (l1_objects s))|].
    eexists. rewrite staging_get_set, decide_True by done. split; [done|]. cbn.
    split_and!; [done|done|]. rewrite lock_expiration. lia.
  - split; [|done|cbn; lia]. intros k Hk. rewrite Hr by done. split_and!; try done. split; [done|].
    cbn -[staging_set]. apply dget_staging_set_ne. set_solver.
Qed.

(** Settled and open turns are stable under the turns of other keys. *)
Lemma scan_outcome_mono tag T (need need' : list ObjectKey) r0 r r' k s s1 s' :
  dget k r' = dget k r → unchanged k s1 s' → (k ∈ need' ↔ k ∈ need) → (l1_tick s1 ≤ l1_tick s')%nat →
  scan_outcome tag T need r0 k r s s1 → scan_outcome tag T need' r0 k r' s s'.
Proof.
  intros E U Hin Ht [(i & ? & ? & ?)|[(? & Hr & ? & ?)|(Er & ? & ? & ? & ?)]].
  - left. exists i. rewrite E, Hin. split_and!; try done. by eapply reserved_mono.
  - right. left. rewrite E, Hin. split_and!; try done; [by eapply refused_mono; [| | |exact Hr]|].
    by eapply unchanged_trans.
  - right. right. rewrite E, Hin. split_and!; try done. by eapply unchanged_trans.
Qed.
Lemma scan_outcome_from tag T need r0 r1 r k s s1 s' :
  dget k r1 = dget k r0 → unchanged k s s1 → (l1_tick s ≤ l1_tick s1)%nat →
  scan_outcome tag T need r1 k r s1 s' → scan_outcome tag T need r0 k r s s'.
Proof.
  intros E U Ht [(i & ? & ? & ?)|[(? & Hr & ? & ?)|(Er & ? & Hres & Hg & ?)]].
  - left. by exists i.
  - right. left. split_and!; try done; [by eapply refused_mono; [exact U| | |exact Hr]|].
    by eapply unchanged_trans.
  - right. right. split_and!; [congruence|done| | |by eapply unchanged_trans].
    + destruct U as [U _]. unfold is_resident, dmem in *. by rewrite <-U.
    + by rewrite <-(unchanged_staging k tag s s1 U).
Qed.

Lemma reserve_write_scan_spec tag T items r ok need s :
  inv [] s → NoDup (need.*1 ++ items.*1) → T <= clock (l1_tick s) + write_ttl_seconds * 1000 →
  (∀ k, k ∈ need.*1 → staging_get k tag (l1_staging s) = None) →
  wp (reserve_write_scan clock tag items r ok need) (λ res s',
    (∀ k, k ∈ items.*1 → scan_outcome tag T res.2.*1 r k res.1.1 s s') ∧
    scan_frame items.*1 need res.2 r res.1.1 s s') s.
Proof.
  revert r ok need s. induction items as [|[key b] items IH]; intros r ok need s Hinv Hnd HT Hneed.
  { cbn. split; [|done]. intros k Hk. by apply not_elem_of_nil in Hk. }
  assert ((key ∉ need.*1) ∧ (key ∉ items.*1)) as [Hkn Hki].
  { csimpl in Hnd. apply NoDup_app in Hnd as (_ & Hd & [? _]%NoDup_cons). split; [|done].
    intros Hin. by eapply Hd; [exact Hin|left]. }
  assert (NoDup (need.*1 ++ [(key, b)].*1)) as Hndk.
  { eapply sublist_NoDup; [exact Hnd|]. csimpl. apply sublist_app; [done|]. apply sublist_skip, sublist_nil_l. }
  pose proof (reserve_write_scan_inv clock _ _ _ tag [(key, b)] r ok need s clock_mono Hinv Hndk Hneed) as Hi2.
  pose proof (scan_step_spec tag T key b r ok need s Hinv Hkn HT) as Hs1.
  unfold wp in Hi2, Hs1. unfold wp. rewrite scan_cons. apply wp_bind. unfold wp at 1.
  destruct (reserve_write_scan clock tag [(key, b)] r ok need s) as [[[[r1 ok1] need1]|] s1] eqn:E1; [|done].
  cbn [fst snd] in *. destruct Hi2 as (Hinv1 & Hnd1 & Hneed1), Hs1 as (Hout & [Hoth Hm Ht]).
  pose proof (clock_mono _ _ Ht). eapply wp_mono; [apply IH; [done| |lia|done]|].
  - csimpl in Hnd. apply NoDup_app in Hnd as (Hn & Hd & [_ ?]%NoDup_cons). apply NoDup_app.
    split_and!; [done| |done]. intros k Hk Hki'. assert (k ≠ key) by (intros ->; done).
    destruct (Hoth k ltac:(set_solver)) as (_ & _ & Hin). eapply Hd; [by apply Hin|by right].
  - intros [[r2 ok2] need2] s2 (Hout2 & [Hoth2 Hm2 Ht2]). cbn [fst snd] in *. split; [|split].
    + csimpl. intros k [->|Hk]%elem_of_cons.
      * destruct (Hoth2 key Hki) as (? & ? & ?). by eapply scan_outcome_mono; [..|exact Hout].
      * destruct (Hoth k ltac:(set_solver)) as (? & ? & ?).
        by eapply scan_outcome_from; [..|apply Hout2].
    + csimpl. intros k Hk. destruct (Hoth k ltac:(set_solver)) as (? & ? & Hin),
        (Hoth2 k ltac:(set_solver)) as (? & ? & Hin2).
      split_and!; [congruence|by eapply unchanged_trans|by rewrite Hin2].
    + congruence.
    + lia.
Qed.

Hypothesis read_ttl_nonneg : 0 <= read_ttl_seconds.

Lemma fill_cons tag key b need i ids r ok s :
  reserve_write_fill clock write_ttl_seconds read_ttl_seconds l1_manager_id tag
    ((key, b) :: need) (i :: ids) r ok s
  = bind (reserve_write_fill clock write_ttl_seconds read_ttl_seconds l1_manager_id tag
            [(key, b)] [i] r ok)
      (λ x, reserve_write_fill clock write_ttl_seconds read_ttl_seconds l1_manager_id tag
              need ids x.1 x.2) s.
Proof.
  cbn [reserve_write_fill]. unfold bind, get, ret.
  by destruct (mm_update i (set_l1_manager l1_manager_id) (l1_mm s)).
Qed.

Lemma reserve_write_fill_spec tag T need ids r ok s :
  NoDup need.*1 → T <= clock (l1_tick s) + write_ttl_seconds * 1000 →
  (∀ k, k ∈ need.*1 → dget k (l1_objects s) = None) →
  pc (reserve_write_fill clock write_ttl_seconds read_ttl_seconds l1_manager_id tag need ids r ok) (λ res s',
    (∀ k, k ∈ need.*1 → ∃ i, dget k res.1 = Some (SUCCESS, Some i) ∧ reserved tag T k i s') ∧
    (∀ k, k ∉ need.*1 → dget k res.1 = dget k r ∧ unchanged k s s') ∧
    (l1_tick s ≤ l1_tick s')%nat) s.
Proof.
  revert ids r ok s. induction need as [|[key b] need IH]; intros [|i ids] r ok s Hnd HT Hres;
    try (intros a s' E; discriminate E).
  { apply pc_ret. split_and!; try done. intros k Hk. by apply not_elem_of_nil in Hk. }
  csimpl in Hnd. apply NoDup_cons in Hnd as [Hkey Hnd]. cbn [reserve_write_fill].
  apply pc_bind. eapply pc_prim; [done|]. cbn beta. apply pc_bind.
  destruct (mm_update i (set_l1_manager l1_manager_id) (l1_mm s)) as [m|e]; [|intros a s' E; discriminate E].
  eapply pc_prim; [done|]. cbn beta. apply pc_bind. eapply pc_prim; [apply now_eq|]. cbn beta.
  apply pc_bind. eapply pc_prim; [apply put_staging_eq|]. cbn beta. set (s1 := with_staging _ _ _).
  assert (∀ k, k ≠ key → unchanged k s s1) as Hu1.
  { intros k Hk. split; [done|]. cbn -[staging_set]. by apply dget_staging_set_ne. }
  pose proof (clock_mono (l1_tick s) (l1_tick s + 1) ltac:(lia)).
  eapply pc_mono; [apply IH; [done|cbn; lia|intros k Hk; apply Hres; by right]|].
  intros [r2 ok2] s2 (Hin & Hout & Ht). cbn [fst snd] in *. cbn in Ht. split_and!; [| |lia].
  - csimpl. intros k [->|Hk]%elem_of_cons; [|by apply Hin].
    destruct (Hout key Hkey) as [-> U]. exists i. rewrite dget_dset_eq. split; [done|].
    eapply reserved_mono; [exact U|]. split; [apply Hres; left|].
    eexists. cbn -[staging_get staging_set]. rewrite staging_get_set, decide_True by done.
    split; [done|]. cbn. split_and!; [done| |].
    + unfold lock, new_lock. by case_match.
    + rewrite lock_expiration. cbn. lia.
  - csimpl. intros k [Hne Hk]%not_elem_of_cons. destruct (Hout k Hk) as [-> U].
    rewrite dget_dset_ne by done. split; [done|]. eapply unchanged_trans; [|exact U].
    by apply Hu1.
Qed.

Lemma foldl_oom (need : list (ObjectKey * bool)) (r : dict ObjectKey L1OperationResult) k :
  dget k (foldl (λ r p, dset p.1 (OUT_OF_MEMORY, None) r) r need)
  = if decide (k ∈ need.*1) then Some (OUT_OF_MEMORY, None) else dget k r.
Proof.
  revert r. induction need as [|[k' b] need IH]; intros r; [done|].
  - csimpl. rewrite IH, dget_dset. repeat case_decide; try done; set_solver.
Qed.

(** What the loops leave for a key, put together. *)
Lemma reserve_write_outcome_scan tag T need r0 k r res s s1 s' :
  scan_outcome tag T need r0 k r s s1 → (l1_tick s1 ≤ l1_tick s')%nat →
  (k ∉ need → res = dget k r ∧ unchanged k s1 s') →
  (k ∈ need → (∃ i, res = Some (SUCCESS, Some i) ∧ reserved tag T k i s') ∨
               res = Some (OUT_OF_MEMORY, None) ∧ unchanged k s1 s') →
  reserve_write_outcome tag T k res s s'.
Proof.
  intros [(i & Er & Hr & Hn)|[(Er & Hr & Hu & Hn)|(Er & Hn & Hres & Hg & Hu)]] Ht Hout Hin.
  - destruct (Hout Hn) as [-> U]. left. exists i. split; [done|]. by eapply reserved_mono.
  - destruct (Hout Hn) as [-> U]. right. left. split_and!; [done| |by eapply unchanged_trans].
    by eapply refused_mono; [| | |exact Hr].
  - destruct (Hin Hn) as [?|[-> U]]; [by left|]. right. right. split_and!; try done.
    by eapply unchanged_trans.
Qed.

(** The part of [reserve_write] after the first loop. *)
Lemma reserve_write_finish_spec lay tag T (need : list (ObjectKey * bool)) r ok s (p : ObjectKey * bool) need' :
  need = p :: need' → NoDup need.*1 → T <= clock (l1_tick s) + write_ttl_seconds * 1000 →
  (∀ k, k ∈ need.*1 → dget k (l1_objects s) = None) →
  pc (let* s := get in
      let* res := match mm_allocate lay (Z.of_nat (length need)) (l1_mm s) with
                  | Ret (err, ids, m) => let* _ := put_mm m in ret (err, ids)
                  | Raise e => raise e end in
      let '(err, ids) := res in
      let* out :=
        if negb (bool_decide (err = SUCCESS)) then
          let r' := foldl (λ r p, dset p.1 (OUT_OF_MEMORY, None) r) r need in
          let* _ := match ids with [] => ret tt | _ => free_objs ids end in
          ret (r', ok)
        else reserve_write_fill clock write_ttl_seconds read_ttl_seconds l1_manager_id tag need ids r ok in
      let* _ := emit [Notify on_l1_keys_reserved_write out.2; Publish L1_WRITE_RESERVED out.2 []] in
      ret out.1) (λ res s',
    (l1_tick s ≤ l1_tick s')%nat ∧
    (∀ k, k ∉ need.*1 → dget k res = dget k r ∧ unchanged k s s') ∧
    (∀ k, k ∈ need.*1 → (∃ i, dget k res = Some (SUCCESS, Some i) ∧ reserved tag T k i s') ∨
                         dget k res = Some (OUT_OF_MEMORY, None) ∧ unchanged k s s')) s.
Proof.
  intros _ Hnd HT Hres. apply pc_bind. eapply pc_prim; [done|]. cbn beta. apply pc_bind.
  destruct (mm_allocate lay _ (l1_mm s)) as [[[err ids] m]|]; [|intros a s' E; discriminate E].
  apply pc_bind. eapply pc_prim; [done|]. cbn beta. apply pc_ret. apply pc_bind. set (s1 := mkL1 _ _ _ m _ _).
  destruct (negb _).
  - apply pc_bind. eapply pc_mono with (P := λ _ s', (l1_tick s1 ≤ l1_tick s')%nat ∧ ∀ k, unchanged k s1 s').
    { destruct ids; [apply pc_ret; split; [done|intros k; by split]|].
      intros a s' E. unfold free_objs, bind, get in E. cbn in E.
      destruct (mm_free _ _); [|discriminate E]. injection E as _ <-. split; [done|intros k; by split]. }
    intros _ s2 [Ht2 U2]. apply pc_ret. apply pc_bind. eapply pc_prim; [done|]. cbn beta. apply pc_ret.
    split_and!; [done| |]; cbn [fst snd]; intros k Hk; rewrite foldl_oom.
    + rewrite decide_False by done. split; [done|]. apply (U2 k).
    + rewrite decide_True by done. right. split; [done|]. apply (U2 k).
  - eapply pc_mono; [by apply (reserve_write_fill_spec tag T need ids r ok s1)|].
    intros [r2 ok2] s2 (Hin & Hout & Ht). apply pc_bind. eapply pc_prim; [done|]. cbn beta. apply pc_ret.
    cbn [fst snd] in *. split_and!; [done| |].
    + intros k Hk. destruct (Hout k Hk) as [E U]. by split.
    + intros k Hk. left. apply Hin, Hk.
Qed.

Lemma reserve_write_effect keys temps lay tag s :
  inv [] s → NoDup keys → length keys = length temps → layout_ok lay →
  ∃ r s', reserve_write clock write_ttl_seconds read_ttl_seconds l1_manager_id keys temps lay tag s
            = (Ret r, s') ∧
    (∀ k, k ∈ keys →
       reserve_write_outcome tag (clock (l1_tick s) + write_ttl_seconds * 1000) k (dget k r) s s') ∧
    (∀ k, k ∉ keys → unchanged k s s') ∧ l1_objects s' = l1_objects s.
Proof.
  intros Hinv Hnd Hlen Hlay.
  pose proof (reserve_write_inv clock _ _ _ keys temps lay tag s clock_mono read_ttl_nonneg Hinv Hnd Hlen Hlay) as Hret.
  pose proof (quiet_reserve_write clock write_ttl_seconds read_ttl_seconds l1_manager_id keys temps lay tag s) as Hq.
  set (T := clock (l1_tick s) + write_ttl_seconds * 1000).
  assert ((zip keys temps).*1 = keys) as Hzip by (apply fst_zip; lia).
  cut (pc (reserve_write clock write_ttl_seconds read_ttl_seconds l1_manager_id keys temps lay tag) (λ r s',
    (∀ k, k ∈ keys → reserve_write_outcome tag T k (dget k r) s s') ∧ (∀ k, k ∉ keys → unchanged k s s')) s).
  { unfold wp in Hret. destruct (reserve_write _ _ _ _ _ _ _ _ s) as [[r|] s'] eqn:E; [|done].
    intros Hpc. destruct (Hpc _ _ E) as [H1' H2']. destruct (Hq _ _ E) as [? _]. exists r, s'. done. }
  clear Hret Hq. unfold reserve_write. rewrite Hlen, Nat.eqb_refl. cbn [negb].
  assert (∀ k : ObjectKey, k ∈ ([] : list (ObjectKey * bool)).*1 → staging_get k tag (l1_staging s) = None) as Hnil
    by (intros k Hk; by apply not_elem_of_nil in Hk).
  pose proof (reserve_write_scan_spec tag T (zip keys temps) [] [] [] s Hinv) as Hscan.
  pose proof (reserve_write_scan_inv clock _ _ _ tag (zip keys temps) [] [] [] s clock_mono Hinv) as Hsi.
  rewrite Hzip in Hscan, Hsi. specialize (Hscan Hnd ltac:(lia) Hnil). specialize (Hsi Hnd Hnil).
  apply pc_bind. eapply pc_mono; [exact (conj_pc _ _ _ _ (wp_pc _ _ _ Hscan) (wp_pc _ _ _ Hsi))|].
  intros [[r ok] need] s1 [(Hout & [Hoth Hm Ht]) (_ & Hnd1 & _)]. cbn [fst snd] in *.
  assert (∀ k, k ∈ need.*1 → k ∈ keys) as Hsub.
  { intros k Hk. destruct (decide (k ∈ keys)) as [|Hn]; [done|]. destruct (Hoth k Hn) as (_ & _ & Hin).
    apply Hin in Hk. by apply not_elem_of_nil in Hk. }
  assert (∀ res s', (l1_tick s1 ≤ l1_tick s')%nat →
    (∀ k, k ∉ need.*1 → dget k res = dget k r ∧ unchanged k s1 s') →
    (∀ k, k ∈ need.*1 → (∃ i, dget k res = Some (SUCCESS, Some i) ∧ reserved tag T k i s') ∨
                         dget k res = Some (OUT_OF_MEMORY, None) ∧ unchanged k s1 s') →
    (∀ k, k ∈ keys → reserve_write_outcome tag T k (dget k res) s s') ∧ (∀ k, k ∉ keys → unchanged k s s')) as Hfin.
  { intros res s' Ht' Hno Hyes. split.
    - intros k Hk. eapply reserve_write_outcome_scan; [by apply Hout|done|by apply Hno|by apply Hyes].
    - intros k Hk. destruct (Hoth k Hk) as (_ & U & _). eapply unchanged_trans; [exact U|]. apply Hno.
      intros Hin. by apply Hk, Hsub. }
  destruct need as [|p need'] eqn:En; [apply pc_ret, Hfin; [done|done|intros k Hk; by apply not_elem_of_nil in Hk]|].
  rewrite <-En in *. pose proof (clock_mono _ _ Ht).
  eapply pc_mono; [apply (reserve_write_finish_spec lay tag T need r ok s1 p need' En Hnd1); [unfold T; lia|]|].
  - intros k Hk. destruct (Hout k (Hsub k Hk)) as [(i & _ & _ & Hn)|[(_ & _ & _ & Hn)|(_ & _ & Hr & _ & [U _])]];
      [done|done|]. rewrite U. unfold is_resident, dmem in Hr. by destruct (dget k (l1_objects s)).
  - intros res s' (Ht' & Hno & Hyes). by apply Hfin.
Qed.

(** [reserve_write] on distinct keys, in any consistent state: each key
    is either granted - SUCCESS with an object that the tag stages under a
    write lock that holds for the full time to live - or refused as
    KEY_NOT_WRITABLE with nothing changed, because it is resident or the same
    tag's reservation was live when read, or OUT_OF_MEMORY with nothing
    changed. An expired reservation of the same tag is handed over. Other
    keys, and the resident table, are untouched. *)
Theorem reserve_write_spec keys temps lay tag s :
  inv [] s → NoDup keys → length keys = length temps → layout_ok lay →
  ∃ r s', reserve_write clock write_ttl_seconds read_ttl_seconds l1_manager_id keys temps lay tag s
            = (Ret r, s') ∧
    (∀ k, k ∈ keys →
       reserve_write_outcome tag (clock (l1_tick s) + write_ttl_seconds * 1000) k (dget k r) s s') ∧
    (∀ k, k ∉ keys → unchanged k s s') ∧ l1_objects s' = l1_objects s.
Proof. apply reserve_write_effect. Qed.

(** ** A write and the reads after it *)

Lemma finish_write_admits tag k i keys s r s' T :
  inv [] s → NoDup keys → k ∈ keys → staged_for k tag i T s → clock (l1_tick s') < T →
  finish_write clock keys tag s = (Ret r, s') →
  dget k r = Some SUCCESS ∧ read_answer k s' = (SUCCESS, Some (default i (memory_obj <$> dget k (l1_objects s)))).
Proof.
  intros Hinv Hnd Hk (_ & e & Eg & <- & Hc & HT) Hclk E.
  destruct (finish_write_effect keys tag s Hinv Hnd) as (r' & s'' & E' & Hout & _).
  rewrite E in E'. injection E' as <- <-. specialize (Hout k Hk). unfold finish_write_outcome in Hout.
  rewrite Eg in Hout. destruct Hout as (now & (t & [_ Ht] & ->) & Hout).
  assert (is_locked (clock t) (write_lock e) = true) as Hl.
  { pose proof (clock_mono t (l1_tick s') ltac:(lia)). apply is_locked_true. lia. }
  rewrite Hl in Hout. destruct Hout as (-> & _ & Er). split; [done|]. unfold read_answer.
  destruct (dget k (l1_objects s)); [destruct Er as [Er _]|]; by rewrite Er.
Qed.

Lemma finish_write_ticks keys tag (k : ObjectKey) s r s' : inv [] s → finish_write clock keys tag s = (Ret r, s') → (l1_tick s ≤ l1_tick s')%nat.
Proof.
  intros Hinv E.
  destruct (run_call_keeps clock write_ttl_seconds read_ttl_seconds l1_manager_id clock_mono read_ttl_nonneg (CFinishWrite keys tag) k 0%nat 1 (clock (l1_tick s)) s I Hinv
    ltac:(unfold held_until; lia) ltac:(cbn; lia) tt s') as [Ht _]; [|done].
  cbn [run_call]. unfold bind. by rewrite E.
Qed.

Lemma reserved_staged tag T k i s : inv [] s → reserved tag T k i s → staged_for k tag i T s.
Proof. intros Hinv (_ & e & Eg & Ei & Hc & HT). split; [apply Hinv|]. exists e. split; [done|]. split_and!; [done|lia|done]. Qed.

(** The call that led to [s2] read the clock before a reservation made from
    [s] could run out. *)
Definition within_write_ttl (s s2 : L1) : Prop :=
  clock (l1_tick s2) < clock (l1_tick s) + write_ttl_seconds * 1000.

(** C24: what is written can be read, whatever happens meanwhile. When
    [reserve_write] grants a key an object, then through any history of calls
    that forces no deletion and does not itself finish the write of this key
    under this tag, the writer keeps its object; and if it finishes before its
    reservation runs out, the finish succeeds, and the next [reserve_read] of
    the key returns an object: that very object, or, if another tag was first
    to admit one and it is resident still, that one (the writer's copy is
    dropped then) - whatever else the batches contain, each [reserve_write]
    naming no key twice, with a flag per key and a layout that takes memory. *)
Theorem l1_write_then_read keys temps lay tag s r1 s1 cs s2 keys2 r2 s3 keys3 n k i :
  inv [] s → NoDup keys → length keys = length temps → layout_ok lay → k ∈ keys →
  reserve_write clock write_ttl_seconds read_ttl_seconds l1_manager_id keys temps lay tag s = (Ret r1, s1) →
  dget k r1 = Some (SUCCESS, Some i) →
  l1_history clock write_ttl_seconds read_ttl_seconds l1_manager_id cs s1 s2 → Forall gentle cs → Forall (spares k tag) cs →
  NoDup keys2 → k ∈ keys2 → finish_write clock keys2 tag s2 = (Ret r2, s3) →
  within_write_ttl s s3 → k ∈ keys3 →
  dget k r2 = Some SUCCESS ∧
  ∃ r3 s4, reserve_read clock keys3 n s3 = (Ret r3, s4) ∧
    dget k r3 = Some (SUCCESS, Some (match dget k (l1_objects s2) with None => i | Some e => memory_obj e end)).
Proof.
  intros Hinv Hnd Hlen Hlay Hk E1 Er1 Hh Hg Hsp Hnd2 Hk2 E2 Hclk Hk3.
  pose proof (reserve_write_inv clock _ _ _ keys temps lay tag s clock_mono read_ttl_nonneg Hinv Hnd Hlen Hlay) as Hinv1.
  unfold wp in Hinv1. rewrite E1 in Hinv1.
  destruct (reserve_write_effect keys temps lay tag s Hinv Hnd Hlen Hlay) as (r' & s' & E' & Hout & _).
  rewrite E1 in E'. injection E' as <- <-.
  destruct (Hout k Hk) as [(j & Ej & Hres)|[(Ej & _)|(Ej & _)]]; rewrite Er1 in Ej; [|discriminate..].
  injection Ej as <-. set (T := clock (l1_tick s) + write_ttl_seconds * 1000) in *.
  assert (inv [] s2) as Hinv2 by (eapply (history_inv clock); [exact clock_mono|exact read_ttl_nonneg|exact Hh|exact Hinv1]).
  pose proof (history_still clock _ _ _ clock_mono k tag i T cs s1 s2 Hh Hg Hsp) as [_ Hstill].
  assert (l1_tick s2 ≤ l1_tick s3)%nat as Ht23 by (by apply (finish_write_ticks keys2 tag k _ r2)).
  assert (staged_for k tag i T s2) as Hs2 by (apply Hstill; [pose proof (clock_mono _ _ Ht23); unfold within_write_ttl in Hclk; lia|by apply reserved_staged]).
  destruct (finish_write_admits tag k i keys2 s2 r2 s3 T Hinv2 Hnd2 Hk2 Hs2 Hclk E2) as [Hs Ha].
  split; [exact Hs|]. destruct (reserve_read_effect keys3 n s3) as (r3 & s4 & E3 & Hr & _).
  exists r3, s4. split; [exact E3|]. rewrite Hr, decide_True, Ha by done. by destruct (dget k (l1_objects s2)).
Qed.
End operations.

(** ** Witnesses *)

Lemma demo_state_inv : inv 10 20 7 [] demo_state.
Proof.
  exact (l1_reachable_inv demo_clock 10 20 7 demo_clock_mono ltac:(lia) _ _ demo_fresh_mm demo_state_reachable).
Qed.

(** A state with one write reserved and not finished. *)
Definition demo_staged : L1 L1MemoryManager :=
  run_calls [CReserveWrite [demo_key] [false] demo_layout "w"%string] (l1_init demo_mm).

Lemma demo_staged_inv : inv 10 20 7 [] demo_staged.
Proof.
  refine (l1_reachable_inv demo_clock 10 20 7 demo_clock_mono ltac:(lia) _ _ demo_fresh_mm _).
  eapply history_reachable, run_calls_history; [|apply demo_inv].
  apply Forall_singleton. split_and!; [apply NoDup_singleton|done|apply demo_layout_ok].
Qed.

Lemma finish_write_spec_witness :
  ∃ r s', finish_write demo_clock [demo_key] "w"%string demo_staged = (Ret r, s') ∧
    dget demo_key r = Some SUCCESS ∧
    finish_write_outcome demo_clock (λ i, ¬ mm_live (l1_mm s') i) "w"%string demo_key (dget demo_key r) demo_staged s'.
Proof.
  destruct (finish_write_spec demo_clock 10 20 7 [demo_key] "w"%string demo_staged demo_staged_inv
    (NoDup_singleton _)) as (r & s' & E & Hout & _).
  exists r, s'. split; [exact E|]. split; [|apply Hout; left].
  vm_compute in E. injection E as <- _. vm_compute. reflexivity.
Defined.

Lemma delete_spec_witness :
  ∃ r s', delete demo_clock [demo_key] false demo_state = (Ret r, s') ∧
    dget demo_key r = Some SUCCESS ∧ ¬ mm_live (l1_mm s') 0%nat.
Proof.
  destruct (delete_spec demo_clock 10 20 7 [demo_key] false demo_state demo_state_inv
    (NoDup_singleton _)) as (r & s' & E & Hout & _).
  exists r, s'. split; [exact E|].
  assert (dget demo_key r = Some SUCCESS) as Hr.
  { vm_compute in E. injection E as <- _. vm_compute. reflexivity. }
  split; [exact Hr|]. specialize (Hout demo_key ltac:(left)). rewrite Hr in Hout.
  destruct Hout as [[? _]|[(_ & _ & _ & _ & _ & Hd)|[? _]]]; [discriminate| |discriminate].
  destruct (dget demo_key (l1_objects demo_state)) as [e|] eqn:Ee; [|vm_compute in Ee; discriminate].
  specialize (Hd e eq_refl). vm_compute in Ee. injection Ee as <-. exact Hd.
Defined.

Lemma reserve_write_spec_witness :
  ∃ r s', reserve_write demo_clock 10 20 7 [demo_key] [false] demo_layout "w"%string demo_state = (Ret r, s') ∧
    dget demo_key r = Some (KEY_NOT_WRITABLE, None) ∧
    reserve_write_outcome demo_clock "w"%string (demo_clock (l1_tick demo_state) + 10 * 1000) demo_key
      (dget demo_key r) demo_state s'.
Proof.
  destruct (reserve_write_spec demo_clock 10 20 7 demo_clock_mono ltac:(lia) [demo_key] [false] demo_layout
    "w"%string demo_state demo_state_inv (NoDup_singleton _) eq_refl demo_layout_ok) as (r & s' & E & Hout & _).
  exists r, s'. split; [exact E|]. split; [|apply Hout; left].
  vm_compute in E. injection E as <- _. vm_compute. reflexivity.
Defined.

(** Meanwhile another tag writes the key first, a deletion without force and a
    clear try to take the buffer away, and the same writer asks again. *)
Definition meanwhile : list l1_call :=
  [CReserveWrite [demo_key] [false] demo_layout "v"%string; CDelete [demo_key] false; CClear false; CReserveWrite [demo_key] [false] demo_layout "w"%string; CFinishWrite [demo_key] "v"%string].

Lemma l1_write_then_read_witness :
  ∃ r1 s1 r2 s3 r3 s4,
    reserve_write demo_clock 10 20 7 [demo_key] [false] demo_layout "w"%string (l1_init demo_mm) = (Ret r1, s1) ∧ dget demo_key r1 = Some (SUCCESS, Some 0%nat) ∧
    finish_write demo_clock [demo_key] "w"%string (run_calls meanwhile s1) = (Ret r2, s3) ∧ dget demo_key r2 = Some SUCCESS ∧
    reserve_read demo_clock [demo_key] 1 s3 = (Ret r3, s4) ∧
    dget demo_key r3 = Some (SUCCESS, Some (match dget demo_key (l1_objects (run_calls meanwhile s1)) with None => 0%nat | Some e => memory_obj e end)).
Proof.
  destruct (reserve_write demo_clock 10 20 7 [demo_key] [false] demo_layout "w"%string (l1_init demo_mm))
    as [[r1|] s1] eqn:E1; [|vm_compute in E1; discriminate E1].
  assert (dget demo_key r1 = Some (SUCCESS, Some 0%nat)) as Er1 by (vm_compute in E1; injection E1 as <- _; vm_compute; reflexivity).
  assert (inv 10 20 7 [] s1) as Hinv1.
  { pose proof (reserve_write_inv demo_clock 10 20 7 [demo_key] [false] demo_layout "w"%string (l1_init demo_mm) demo_clock_mono ltac:(lia) demo_inv
      (NoDup_singleton _) eq_refl demo_layout_ok) as Hw. unfold wp in Hw. rewrite E1 in Hw. exact Hw. }
  destruct (finish_write demo_clock [demo_key] "w"%string (run_calls meanwhile s1)) as [[r2|] s3] eqn:E2;
    [|vm_compute in E1; injection E1 as _ <-; vm_compute in E2; discriminate E2].
  destruct (l1_write_then_read demo_clock 10 20 7 demo_clock_mono ltac:(lia) [demo_key] [false] demo_layout
    "w"%string (l1_init demo_mm) r1 s1 meanwhile (run_calls meanwhile s1) [demo_key] r2 s3 [demo_key] 1 demo_key 0%nat demo_inv
    (NoDup_singleton _) eq_refl demo_layout_ok ltac:(left) E1 Er1) as (Hr2 & r3 & s4 & E3 & Hr3);
    [| | |apply NoDup_singleton|left|exact E2| |left|].
  - apply run_calls_history; [|exact Hinv1]. unfold meanwhile. rewrite !Forall_cons, Forall_nil. split_and!; try exact I;
      (split_and!; [apply NoDup_singleton|reflexivity|apply demo_layout_ok]).
  - unfold meanwhile. rewrite !Forall_cons, Forall_nil. split_and!; done.
  - unfold meanwhile. rewrite !Forall_cons, Forall_nil. split_and!; try exact I. intros [=].
  - vm_compute in E1. injection E1 as _ <-. vm_compute in E2. injection E2 as _ <-. vm_compute. reflexivity.
  - exists r1, s1, r2, s3, r3, s4. split_and!; try done.
Defined.
