(* ===== verification/Bitmap.v ===== *)
(** * The native bitmap

    [csrc/lmcache_native/bitmap.{h,cpp}], the bitmap the Python side computes
    prefix hits with: a number of bits and the bytes that hold them, bit [i]
    being bit [i mod 8] of byte [i / 8]. Every operation is given on the bytes,
    as the C++ code works, and characterised on the bits. Sizes and indices are
    [size_t] in the source and naturals here: a size is the length of a vector
    that exists in memory. *)

From stdpp Require Import list.
From Stdlib Require Import ZArith Lia.
From S2P Require Import Prelude.

Open Scope nat_scope.

Record Bitmap := mkBitmap { bm_size : nat; bm_data : list Z }.

(** [static_cast<uint8_t>]. *)
Definition u8 (x : Z) : Z := Z.land x 255.

Definition num_bytes (size : nat) : nat :=
  if Nat.eqb size 0 then 0 else (size - 1) / 8 + 1.

Definition new_bitmap (size : nat) : Bitmap := mkBitmap size (replicate (num_bytes size) 0%Z).

Definition byte_at (d : list Z) (k : nat) : Z := default 0%Z (d !! k).

Definition bm_set (b : Bitmap) (index : nat) : Bitmap :=
  if Nat.leb (bm_size b) index then b
  else mkBitmap (bm_size b)
         (alter (λ x, Z.lor x (u8 (Z.shiftl 1 (Z.of_nat (index mod 8))))) (index / 8) (bm_data b)).

Definition batched_set (b : Bitmap) (indices : list nat) : Bitmap := foldl bm_set b indices.

(** [std::fill] over the elements [a .. z - 1]. *)
Definition fill_bytes (a z : nat) (v : Z) (d : list Z) : list Z :=
  imap (λ i x, if Nat.leb a i && Nat.ltb i z then v else x) d.

Definition set_range (b : Bitmap) (start stop : nat) : Bitmap :=
  let stop := if Nat.ltb (bm_size b) stop then bm_size b else stop in
  if Nat.leb stop start then b
  else
    let first_byte := start / 8 in
    let last_byte := (stop - 1) / 8 in
    let head_low := Z.of_nat (start mod 8) in
    if Nat.eqb first_byte last_byte then
      let width := Z.of_nat (stop - start) in
      let mask := u8 (Z.shiftl (Z.shiftl 1 width - 1) head_low) in
      mkBitmap (bm_size b) (alter (λ x, Z.lor x mask) first_byte (bm_data b))
    else
      let d1 := alter (λ x, Z.lor x (u8 (Z.shiftl 255 head_low))) first_byte (bm_data b) in
      let d2 := fill_bytes (first_byte + 1) last_byte 255 d1 in
      let tail_width := Z.of_nat (stop - last_byte * 8) in
      mkBitmap (bm_size b) (alter (λ x, Z.lor x (u8 (Z.shiftl 1 tail_width - 1))) last_byte d2).

Definition bm_clear (b : Bitmap) (index : nat) : Bitmap :=
  if Nat.leb (bm_size b) index then b
  else mkBitmap (bm_size b)
         (alter (λ x, Z.land x (u8 (Z.lnot (Z.shiftl 1 (Z.of_nat (index mod 8)))))) (index / 8) (bm_data b)).

Definition bm_test (b : Bitmap) (index : nat) : bool :=
  if Nat.leb (bm_size b) index then false
  else negb (Z.land (Z.shiftr (byte_at (bm_data b) (index / 8)) (Z.of_nat (index mod 8))) 1 =? 0)%Z.

(** [__builtin_ctz] and [31 - __builtin_clz] of a non-zero byte. *)
Fixpoint ctz_from (n : nat) (i : nat) (v : Z) : nat :=
  match n with
  | 0 => i
  | S n' => if Z.testbit v (Z.of_nat i) then i else ctz_from n' (S i) v
  end.
Definition ctz (v : Z) : nat := ctz_from 8 0 v.
Definition top_bit (v : Z) : nat := Z.to_nat (Z.log2 v).

Definition last_mask (size : nat) : Z := u8 (Z.shiftl 1 (Z.of_nat (size mod 8)) - 1).

(** The loop of [clz] over the full bytes: the count, and whether a set bit was
    found. *)
Fixpoint clz_loop (d : list Z) (n : nat) (count : nat) : nat * bool :=
  match n, d with
  | S n', v :: d' => if (v =? 0)%Z then clz_loop d' n' (count + 8) else (count + ctz v, true)
  | _, _ => (count, false)
  end.

Definition clz (b : Bitmap) : nat :=
  if Nat.eqb (bm_size b) 0 then 0
  else
    let '(count, found) := clz_loop (bm_data b) (bm_size b / 8) 0 in
    if found : bool then count
    else if Nat.ltb 0 (bm_size b mod 8) then
      let last_byte := Z.land (default 0%Z (last (bm_data b))) (last_mask (bm_size b)) in
      if (last_byte =? 0)%Z then count + bm_size b mod 8 else count + ctz last_byte
    else count.

Definition bm_not (b : Bitmap) : Bitmap :=
  let d := (λ x, u8 (Z.lnot x)) <$> bm_data b in
  mkBitmap (bm_size b)
    (if Nat.ltb 0 (bm_size b mod 8)
     then alter (λ x, Z.land x (last_mask (bm_size b))) (length d - 1) d else d).

Definition clo (b : Bitmap) : nat := clz (bm_not b).

(** The loop of [highest_set_bit] over the bytes below [n], from the top. *)
Fixpoint highest_loop (d : list Z) (n : nat) : Z :=
  match n with
  | 0 => -1
  | S k => let v := byte_at d k in
           if (v =? 0)%Z then highest_loop d k else Z.of_nat (k * 8 + top_bit v)
  end.

Definition highest_set_bit (b : Bitmap) : Z := highest_loop (bm_data b) (length (bm_data b)).

Definition bm_combine (op : Z → Z → Z) (a b : Bitmap) : Bitmap :=
  let result_size := if Nat.leb (bm_size a) (bm_size b) then bm_size a else bm_size b in
  let result := new_bitmap result_size in
  mkBitmap result_size
    (imap (λ i _, op (byte_at (bm_data a) i) (byte_at (bm_data b) i)) (bm_data result)).

Definition bm_and : Bitmap → Bitmap → Bitmap := bm_combine Z.land.
Definition bm_or : Bitmap → Bitmap → Bitmap := bm_combine Z.lor.

(** ** Bits *)

(** Bit [i] of the bytes, whatever the size says. *)
Definition bit (b : Bitmap) (i : nat) : bool :=
  Z.testbit (byte_at (bm_data b) (i / 8)) (Z.of_nat (i mod 8)).

(** The bytes are those of the size, are bytes, and no bit past the size is
    set. *)
Record bm_wf (b : Bitmap) : Prop := {
  wf_len : length (bm_data b) = num_bytes (bm_size b);
  wf_byte : ∀ k, (0 <= byte_at (bm_data b) k < 256)%Z;
  wf_high : ∀ i, bm_size b ≤ i → bit b i = false
}.

Lemma num_bytes_lt size i : i < size → i / 8 < num_bytes size.
Proof.
  intros Hi. unfold num_bytes. destruct (Nat.eqb_spec size 0); [lia|].
  apply Nat.lt_succ_r in Hi as Hi'. assert (i / 8 ≤ (size - 1) / 8); [|lia].
  apply Nat.Div0.div_le_mono. lia.
Qed.

Lemma u8_testbit x i : (0 <= i < 8)%Z → Z.testbit (u8 x) i = Z.testbit x i.
Proof.
  intros Hi. unfold u8. rewrite Z.land_spec. change 255%Z with (Z.ones 8).
  rewrite Z.ones_spec_low by lia. apply andb_true_r.
Qed.

Lemma u8_range x : (0 <= u8 x < 256)%Z.
Proof.
  unfold u8. change 255%Z with (Z.ones 8). rewrite Z.land_ones by lia.
  apply Z.mod_pos_bound. lia.
Qed.

Lemma byte_high v i : (0 <= v < 256)%Z → (8 <= i)%Z → Z.testbit v i = false.
Proof.
  intros Hv Hi. destruct (decide (v = 0%Z)) as [->|]; [apply Z.bits_0|].
  apply Z.bits_above_log2; [lia|]. assert (Z.log2 v < 8)%Z; [|lia].
  apply Z.log2_lt_pow2; lia.
Qed.

Lemma byte_ext v w :
  (0 <= v < 256)%Z → (0 <= w < 256)%Z →
  (∀ i, i < 8 → Z.testbit v (Z.of_nat i) = Z.testbit w (Z.of_nat i)) → v = w.
Proof.
  intros Hv Hw Hb. apply Z.bits_inj'. intros i Hi. destruct (decide (i < 8)%Z).
  - rewrite <-(Z2Nat.id i) by lia. apply Hb. lia.
  - rewrite !byte_high by lia. done.
Qed.

Lemma lor_byte v w : (0 <= v < 256)%Z → (0 <= w < 256)%Z → (0 <= Z.lor v w < 256)%Z.
Proof.
  intros Hv Hw. assert (u8 (Z.lor v w) = Z.lor v w) as <-; [|apply u8_range].
  apply Z.bits_inj'. intros i Hi. destruct (decide (i < 8)%Z); [apply u8_testbit; lia|].
  rewrite (byte_high (u8 _)), Z.lor_spec, (byte_high v), (byte_high w); solve [done | lia | apply u8_range].
Qed.

Lemma land_byte v w : (0 <= v < 256)%Z → (0 <= w < 256)%Z → (0 <= Z.land v w < 256)%Z.
Proof.
  intros Hv Hw. assert (u8 (Z.land v w) = Z.land v w) as <-; [|apply u8_range].
  apply Z.bits_inj'. intros i Hi. destruct (decide (i < 8)%Z); [apply u8_testbit; lia|].
  rewrite (byte_high (u8 _)), Z.land_spec, (byte_high v), (byte_high w); solve [done | lia | apply u8_range].
Qed.

(** A mask of [n] low ones shifted by [low]. *)
Lemma ones_bit n i : (0 <= n)%Z → (0 <= i)%Z → Z.testbit (Z.shiftl 1 n - 1) i = (i <? n)%Z.
Proof.
  intros Hn Hi. rewrite Z.sub_1_r. change (Z.pred (Z.shiftl 1 n)) with (Z.ones n).
  destruct (Z.ltb_spec i n); [by rewrite Z.ones_spec_low by lia|by rewrite Z.ones_spec_high by lia].
Qed.

Lemma single_bit n i : (0 <= n)%Z → (0 <= i)%Z → Z.testbit (Z.shiftl 1 n) i = (i =? n)%Z.
Proof.
  intros Hn Hi. rewrite Z.shiftl_1_l. destruct (Z.eqb_spec i n) as [->|].
  - by apply Z.pow2_bits_true.
  - apply Z.pow2_bits_false. lia.
Qed.

#[export] Hint Resolve u8_range lor_byte land_byte : py_arith.

Lemma bm_test_bit b i : bm_test b i = if Nat.leb (bm_size b) i then false else bit b i.
Proof.
  unfold bm_test, bit. destruct (Nat.leb _ _); [done|].
  set (v := byte_at _ _). set (j := Z.of_nat _).
  change 1%Z with (Z.ones 1). rewrite Z.land_ones by lia.
  assert (0 <= j)%Z by lia. rewrite <-(Z.add_0_l j) at 2. rewrite <-Z.shiftr_spec by lia.
  rewrite Z.bit0_odd, Zmod_odd. by destruct (Z.odd _).
Qed.

Lemma bm_test_wf b i : bm_wf b → bm_test b i = bit b i.
Proof.
  intros Hwf. rewrite bm_test_bit. destruct (Nat.leb_spec (bm_size b) i); [|done].
  by rewrite (wf_high _ Hwf).
Qed.

Lemma bm_test_lt b i : bm_test b i = true → i < bm_size b.
Proof. rewrite bm_test_bit. by destruct (Nat.leb_spec (bm_size b) i). Qed.

Lemma bit_byte b k i : i < 8 → bit b (k * 8 + i) = Z.testbit (byte_at (bm_data b) k) (Z.of_nat i).
Proof.
  intros Hi. unfold bit.
  replace ((k * 8 + i) / 8) with k by (rewrite Nat.div_add_l, Nat.div_small by lia; lia).
  by rewrite Nat.add_comm, Nat.Div0.mod_add, Nat.mod_small.
Qed.

(** Two well-formed bitmaps with the same size and bits are equal. *)
Lemma bm_ext a b :
  bm_wf a → bm_wf b → bm_size a = bm_size b → (∀ i, i < bm_size a → bm_test a i = bm_test b i) → a = b.
Proof.
  intros Ha Hb Hs Ht. destruct a as [n d], b as [n' d']. simpl in Hs. subst n'. f_equal.
  pose proof (wf_len _ Ha) as La. pose proof (wf_len _ Hb) as Lb. cbn in *.
  assert (∀ i, bit (mkBitmap n d) i = bit (mkBitmap n d') i) as Hbit.
  { intros i. destruct (decide (i < n)) as [Hi|Hi].
    - specialize (Ht i Hi). by rewrite !bm_test_wf in Ht by done.
    - rewrite (wf_high _ Ha), (wf_high _ Hb); cbn; [done|lia|lia]. }
  assert (∀ k, byte_at d k = byte_at d' k) as Hbyte.
  { intros k. apply byte_ext; [apply (wf_byte _ Ha)|apply (wf_byte _ Hb)|]. intros i Hi.
    specialize (Hbit (k * 8 + i)). by rewrite !bit_byte in Hbit by done. }
  apply list_eq. intros k. specialize (Hbyte k). unfold byte_at in Hbyte.
  destruct (d !! k) eqn:E, (d' !! k) eqn:E'; cbn in *; try congruence.
  - apply lookup_lt_Some in E. apply lookup_ge_None in E'. lia.
  - apply lookup_lt_Some in E'. apply lookup_ge_None in E. lia.
Qed.

Lemma byte_at_alter f k d i :
  k < length d → byte_at (alter f k d) i = if Nat.eqb i k then f (byte_at d i) else byte_at d i.
Proof.
  intros Hk. unfold byte_at. destruct (Nat.eqb_spec i k) as [->|Hne].
  - rewrite list_lookup_alter_eq. by destruct (lookup_lt_is_Some_2 d k Hk) as [x ->].
  - by rewrite list_lookup_alter_ne.
Qed.

Lemma byte_at_fill a z v d i :
  i < length d → byte_at (fill_bytes a z v d) i = if Nat.leb a i && Nat.ltb i z then v else byte_at d i.
Proof.
  intros Hi. unfold byte_at, fill_bytes. rewrite list_lookup_imap.
  destruct (lookup_lt_is_Some_2 d i Hi) as [x ->]. done.
Qed.

Lemma length_fill a z v d : length (fill_bytes a z v d) = length d.
Proof. apply length_imap. Qed.

Lemma mod8_lt i : i mod 8 < 8.
Proof. apply Nat.mod_upper_bound. lia. Qed.

Lemma div_mod8 i : i = i / 8 * 8 + i mod 8.
Proof. rewrite Nat.mul_comm. apply Nat.div_mod. lia. Qed.

(** Well-formedness from the bits: a change of bytes that keeps their number
    and range and sets no bit past the size. *)
Lemma bm_wf_intro b d :
  bm_wf b → length d = length (bm_data b) → (∀ k, (0 <= byte_at d k < 256)%Z) →
  (∀ i, bm_size b ≤ i → bit (mkBitmap (bm_size b) d) i = false) → bm_wf (mkBitmap (bm_size b) d).
Proof. intros [Hl _ _] Hd Hb Hh. split; cbn; [by rewrite Hd|done|done]. Qed.

Lemma new_bitmap_bit n i : bit (new_bitmap n) i = false.
Proof.
  unfold bit, byte_at, new_bitmap. cbn [bm_data]. destruct (replicate _ _ !! _) eqn:E; [|apply Z.bits_0].
  apply lookup_replicate in E as [-> _]. apply Z.bits_0.
Qed.

Lemma new_bitmap_wf n : bm_wf (new_bitmap n).
Proof.
  split; [apply length_replicate| |intros; apply new_bitmap_bit].
  intros k. unfold byte_at, new_bitmap. cbn [bm_data]. destruct (replicate _ _ !! _) eqn:E; cbn; [|lia].
  apply lookup_replicate in E as [-> _]. lia.
Qed.

(** [set]: one more bit, or nothing past the size. *)
Lemma bm_set_bit b i j :
  bm_wf b → bit (bm_set b i) j = bit b j || (Nat.eqb j i && Nat.ltb i (bm_size b)).
Proof.
  intros Hwf. unfold bm_set. destruct (Nat.leb_spec (bm_size b) i) as [Hi|Hi].
  { replace (Nat.ltb i (bm_size b)) with false by (symmetry; apply Nat.ltb_ge; lia).
    by rewrite andb_false_r, orb_false_r. }
  replace (Nat.ltb i (bm_size b)) with true by (symmetry; apply Nat.ltb_lt; lia). rewrite andb_true_r.
  unfold bit. cbn [bm_data]. rewrite byte_at_alter by (rewrite (wf_len _ Hwf); by apply num_bytes_lt).
  pose proof (mod8_lt i). pose proof (mod8_lt j). pose proof (div_mod8 i). pose proof (div_mod8 j).
  destruct (Nat.eqb_spec (j / 8) (i / 8)) as [E|E].
  - rewrite Z.lor_spec, u8_testbit, single_bit by lia. f_equal.
    destruct (Z.eqb_spec (Z.of_nat (j mod 8)) (Z.of_nat (i mod 8))), (Nat.eqb_spec j i); lia || done.
  - destruct (Nat.eqb_spec j i); [congruence|]. by rewrite orb_false_r.
Qed.

Lemma bm_set_wf b i : bm_wf b → bm_wf (bm_set b i).
Proof.
  intros Hwf. pose proof (bm_set_bit b i) as Hb. unfold bm_set in *. destruct (Nat.leb_spec (bm_size b) i); [done|].
  apply bm_wf_intro; [done|by rewrite length_alter| |].
  - intros k. rewrite byte_at_alter by (rewrite (wf_len _ Hwf); by apply num_bytes_lt).
    pose proof (wf_byte _ Hwf k). case_match; [|done]. apply lor_byte; [done|apply u8_range].
  - intros j Hj. rewrite Hb, (wf_high _ Hwf) by done.
    destruct (Nat.eqb_spec j i); [lia|done].
Qed.

Lemma bm_set_size b i : bm_size (bm_set b i) = bm_size b.
Proof. unfold bm_set. by case_match. Qed.

Lemma bm_set_test b i j :
  bm_wf b → bm_test (bm_set b i) j = bm_test b j || (Nat.eqb j i && Nat.ltb i (bm_size b)).
Proof. intros Hwf. rewrite !bm_test_wf by auto using bm_set_wf. by apply bm_set_bit. Qed.

(** [set_range]: the bits of the range below the size, whatever bytes they
    fall in. *)
Lemma range_mask_bit low width i :
  (0 <= low)%Z → (0 <= width)%Z → (0 <= i)%Z →
  Z.testbit (Z.shiftl (Z.shiftl 1 width - 1) low) i = ((low <=? i) && (i <? low + width))%Z.
Proof.
  intros. rewrite Z.shiftl_spec by done. destruct (Z.leb_spec low i).
  - rewrite ones_bit by lia. destruct (Z.ltb_spec (i - low) width), (Z.ltb_spec i (low + width)); done || lia.
  - apply Z.testbit_neg_r. lia.
Qed.

(** The byte [k] of the range [start, stop). *)
Definition range_byte (start stop k : nat) (v : Z) : Z :=
  if Nat.eqb (start / 8) ((stop - 1) / 8) then
    if Nat.eqb k (start / 8)
    then Z.lor v (u8 (Z.shiftl (Z.shiftl 1 (Z.of_nat (stop - start)) - 1) (Z.of_nat (start mod 8)))) else v
  else if Nat.eqb k ((stop - 1) / 8)
    then Z.lor v (u8 (Z.shiftl 1 (Z.of_nat (stop - (stop - 1) / 8 * 8)) - 1))
  else if Nat.leb (start / 8 + 1) k && Nat.ltb k ((stop - 1) / 8) then 255%Z
  else if Nat.eqb k (start / 8) then Z.lor v (u8 (Z.shiftl 255 (Z.of_nat (start mod 8)))) else v.

Lemma orb_ext v c d : (c = true ↔ d = true) → v || c = v || d.
Proof. destruct v, c, d; cbn; intuition congruence. Qed.
Lemma orb_none v d : ¬ d = true → v = v || d.
Proof. destruct v, d; cbn; intuition congruence. Qed.

(** Reduces an equation of range tests to arithmetic on the bounds. *)
Ltac range_arith :=
  rewrite ?andb_true_iff, ?Z.leb_le, ?Z.ltb_lt, ?Nat.leb_le, ?Nat.ltb_lt; lia.

Lemma range_byte_bit start stop k i v :
  start < stop → i < 8 →
  Z.testbit (range_byte start stop k v) (Z.of_nat i)
  = Z.testbit v (Z.of_nat i) || (Nat.leb start (k * 8 + i) && Nat.ltb (k * 8 + i) stop).
Proof.
  intros Hs Hi. pose proof (mod8_lt start). pose proof (div_mod8 start).
  pose proof (mod8_lt (stop - 1)). pose proof (div_mod8 (stop - 1)).
  unfold range_byte. destruct (Nat.eqb_spec (start / 8) ((stop - 1) / 8)) as [Hone|Hone].
  { destruct (Nat.eqb_spec k (start / 8)) as [->|].
    - rewrite Z.lor_spec, u8_testbit, range_mask_bit by lia. apply orb_ext. range_arith.
    - apply orb_none. range_arith. }
  destruct (Nat.eqb_spec k ((stop - 1) / 8)) as [->|].
  { rewrite Z.lor_spec, u8_testbit, ones_bit by lia. apply orb_ext. range_arith. }
  change 255%Z with (Z.ones 8). destruct (Nat.leb_spec (start / 8 + 1) k), (Nat.ltb_spec k ((stop - 1) / 8)); cbn [andb].
  - rewrite Z.ones_spec_low by lia. symmetry. apply orb_true_intro. right. range_arith.
  - destruct (Nat.eqb_spec k (start / 8)); [lia|]. apply orb_none. range_arith.
  - destruct (Nat.eqb_spec k (start / 8)) as [->|]; [|apply orb_none; range_arith].
    rewrite Z.lor_spec, u8_testbit, Z.shiftl_spec by lia. apply orb_ext.
    destruct (decide (start mod 8 ≤ i)).
    + rewrite Z.ones_spec_low by lia. split; [intros _; range_arith|done].
    + rewrite Z.testbit_neg_r by lia. split; [done|]. range_arith.
  - lia.
Qed.

Lemma range_byte_range start stop k v : (0 <= v < 256)%Z → (0 <= range_byte start stop k v < 256)%Z.
Proof. intros Hv. unfold range_byte. repeat case_match; auto with py_arith; lia. Qed.

Lemma set_range_byte b start stop :
  bm_wf b → let stop' := Nat.min stop (bm_size b) in start < stop' →
  ∃ d, set_range b start stop = mkBitmap (bm_size b) d ∧ length d = length (bm_data b) ∧
       ∀ k, k < length (bm_data b) → byte_at d k = range_byte start stop' k (byte_at (bm_data b) k).
Proof.
  intros Hwf stop' Hlt. pose proof (wf_len _ Hwf) as Hlen.
  pose proof (num_bytes_lt (bm_size b) start ltac:(lia)) as Hf.
  pose proof (num_bytes_lt (bm_size b) (stop' - 1) ltac:(lia)) as Hl. rewrite <-Hlen in Hf, Hl.
  unfold set_range. replace (if Nat.ltb (bm_size b) stop then bm_size b else stop) with stop'
    by (destruct (Nat.ltb_spec (bm_size b) stop); lia).
  replace (Nat.leb stop' start) with false by (symmetry; apply Nat.leb_gt; lia). unfold range_byte.
  destruct (Nat.eqb_spec (start / 8) ((stop' - 1) / 8)) as [|Hne]; (eexists; split; [reflexivity|]).
  - rewrite length_alter. split; [done|]. intros k Hk. by rewrite byte_at_alter.
  - rewrite length_alter, length_fill, length_alter. split; [done|]. intros k Hk.
    rewrite byte_at_alter by (by rewrite length_fill, length_alter).
    rewrite byte_at_fill by (by rewrite length_alter). rewrite byte_at_alter by done.
    destruct (Nat.eqb_spec k ((stop' - 1) / 8)) as [->|]; [|done].
    replace (Nat.ltb ((stop' - 1) / 8) ((stop' - 1) / 8)) with false by (symmetry; apply Nat.ltb_irrefl).
    rewrite andb_false_r. destruct (Nat.eqb_spec ((stop' - 1) / 8) (start / 8)) as [E|]; [|done].
    by rewrite E in Hne.
Qed.

Lemma set_range_size b start stop : bm_size (set_range b start stop) = bm_size b.
Proof. unfold set_range. by repeat case_match. Qed.

Lemma set_range_bit b start stop j :
  bm_wf b →
  bit (set_range b start stop) j
  = bit b j || (Nat.leb start j && Nat.ltb j (Nat.min stop (bm_size b))).
Proof.
  intros Hwf. destruct (decide (start < Nat.min stop (bm_size b))) as [Hlt|Hge].
  - destruct (set_range_byte b start stop Hwf Hlt) as (d & -> & Hl & Hd).
    pose proof (mod8_lt j). pose proof (div_mod8 j).
    destruct (decide (j / 8 < length (bm_data b))) as [Hj|Hj].
    + unfold bit at 1. cbn [bm_data]. rewrite Hd, range_byte_bit by done. by rewrite <-div_mod8.
    + unfold bit, byte_at. cbn [bm_data]. rewrite !lookup_ge_None_2 by lia. cbn [default].
      rewrite Z.bits_0. apply orb_none. rewrite andb_true_iff, Nat.leb_le, Nat.ltb_lt. intros [_ Hjlt].
      apply Hj. rewrite (wf_len _ Hwf). apply num_bytes_lt. lia.
  - assert (set_range b start stop = b) as ->.
    { unfold set_range. replace (Nat.leb _ start) with true; [done|]. symmetry. apply Nat.leb_le.
      destruct (Nat.ltb_spec (bm_size b) stop); lia. }
    apply orb_none. rewrite andb_true_iff, Nat.leb_le, Nat.ltb_lt. lia.
Qed.

Lemma set_range_wf b start stop : bm_wf b → bm_wf (set_range b start stop).
Proof.
  intros Hwf. pose proof (set_range_bit b start stop) as Hb.
  destruct (decide (start < Nat.min stop (bm_size b))) as [Hlt|Hge].
  - destruct (set_range_byte b start stop Hwf Hlt) as (d & Ed & Hl & Hd). rewrite Ed in *.
    apply bm_wf_intro; [done|done| |].
    + intros k. destruct (decide (k < length (bm_data b))) as [Hk|Hk].
      * rewrite Hd by done. apply range_byte_range, (wf_byte _ Hwf).
      * unfold byte_at. rewrite lookup_ge_None_2 by lia. cbn. lia.
    + intros i Hi. rewrite Hb, (wf_high _ Hwf) by done. cbn [orb].
      apply andb_false_intro2, Nat.ltb_ge. lia.
  - unfold set_range in *. replace (Nat.leb _ start) with true; [done|]. symmetry. apply Nat.leb_le.
    destruct (Nat.ltb_spec (bm_size b) stop); lia.
Qed.

Lemma set_range_test b start stop j :
  bm_wf b →
  bm_test (set_range b start stop) j
  = bm_test b j || (Nat.leb start j && Nat.ltb j (Nat.min stop (bm_size b))).
Proof. intros Hwf. rewrite !bm_test_wf by auto using set_range_wf. by apply set_range_bit. Qed.

(** ** The highest set bit *)

Lemma top_bit_spec v :
  (0 < v < 256)%Z →
  top_bit v < 8 ∧ Z.testbit v (Z.of_nat (top_bit v)) = true ∧
  ∀ i, top_bit v < i → Z.testbit v (Z.of_nat i) = false.
Proof.
  intros Hv. unfold top_bit. pose proof (Z.log2_nonneg v).
  assert (Z.log2 v < 8)%Z by (apply Z.log2_lt_pow2; lia). split; [lia|]. rewrite Z2Nat.id by done. split.
  - apply Z.bit_log2. lia.
  - intros i Hi. apply Z.bits_above_log2; lia.
Qed.

Lemma highest_loop_spec b n :
  (∀ k, (0 <= byte_at (bm_data b) k < 256)%Z) →
  (highest_loop (bm_data b) n = (-1)%Z ∧ ∀ i, i < n * 8 → bit b i = false) ∨
  (∃ h, highest_loop (bm_data b) n = Z.of_nat h ∧ h < n * 8 ∧ bit b h = true ∧
        ∀ i, h < i < n * 8 → bit b i = false).
Proof.
  intros Hb. induction n as [|n IH]; [left; split; [done|lia]|]. cbn [highest_loop].
  assert (∀ i, n * 8 ≤ i < S n * 8 → bit b i = Z.testbit (byte_at (bm_data b) n) (Z.of_nat (i - n * 8))) as Htop.
  { intros i Hi. rewrite <-bit_byte by lia. f_equal. lia. }
  destruct (Z.eqb_spec (byte_at (bm_data b) n) 0) as [E|E].
  - assert (∀ i, n * 8 ≤ i < S n * 8 → bit b i = false) as Hz
      by (intros i Hi; rewrite Htop, E by done; apply Z.bits_0).
    destruct IH as [[-> IH]|(h & -> & Hh & Hbit & IH)]; [left|right].
    + split; [done|]. intros i Hi. destruct (decide (i < n * 8)); [by apply IH|apply Hz; lia].
    + exists h. split_and!; [done|lia|done|]. intros i Hi. destruct (decide (i < n * 8)); [apply IH|apply Hz]; lia.
  - right. destruct (top_bit_spec (byte_at (bm_data b) n)) as (Ht & Hset & Habove); [specialize (Hb n); lia|].
    exists (n * 8 + top_bit (byte_at (bm_data b) n)). split_and!; [done|lia|by rewrite bit_byte|].
    intros i Hi. rewrite Htop by lia. apply Habove. lia.
Qed.

(** The largest index whose bit is set, or [-1] when there is none. *)
Lemma highest_set_bit_spec b :
  bm_wf b →
  (highest_set_bit b = (-1)%Z ∧ ∀ i, bm_test b i = false) ∨
  (∃ h, highest_set_bit b = Z.of_nat h ∧ h < bm_size b ∧ bm_test b h = true ∧ ∀ i, h < i → bm_test b i = false).
Proof.
  intros Hwf. assert (∀ i, length (bm_data b) * 8 ≤ i → bit b i = false) as Hout.
  { intros i Hi. apply (wf_high _ Hwf). destruct (decide (bm_size b ≤ i)); [done|].
    pose proof (num_bytes_lt (bm_size b) i ltac:(lia)). rewrite <-(wf_len _ Hwf) in *.
    pose proof (div_mod8 i). pose proof (mod8_lt i). lia. }
  setoid_rewrite bm_test_wf; [|done..]. unfold highest_set_bit.
  destruct (highest_loop_spec b (length (bm_data b)) (wf_byte _ Hwf)) as [[-> Hz]|(h & -> & Hh & Hbit & Hz)]; [left|right].
  - split; [done|]. intros i. destruct (decide (i < length (bm_data b) * 8)); [by apply Hz|apply Hout; lia].
  - exists h. split_and!; [done| |done|].
    + destruct (decide (h < bm_size b)); [done|]. rewrite (wf_high _ Hwf) in Hbit by lia. done.
    + intros i Hi. destruct (decide (i < length (bm_data b) * 8)); [by apply Hz|apply Hout; lia].
Qed.

(** ** Bitwise operators *)

Lemma combine_byte op a b k :
  k < num_bytes (Nat.min (bm_size a) (bm_size b)) →
  byte_at (bm_data (bm_combine op a b)) k = op (byte_at (bm_data a) k) (byte_at (bm_data b) k).
Proof.
  intros Hk. unfold bm_combine. cbn [bm_data]. unfold byte_at at 1. rewrite list_lookup_imap.
  assert (k < length (bm_data (new_bitmap (if Nat.leb (bm_size a) (bm_size b) then bm_size a else bm_size b)))) as Hl.
  { cbn. rewrite length_replicate. by destruct (Nat.leb_spec (bm_size a) (bm_size b));
      [rewrite Nat.min_l in Hk by lia|rewrite Nat.min_r in Hk by lia]. }
  by destruct (lookup_lt_is_Some_2 _ k Hl) as [x ->].
Qed.

Lemma combine_size op a b : bm_size (bm_combine op a b) = Nat.min (bm_size a) (bm_size b).
Proof. unfold bm_combine. cbn. destruct (Nat.leb_spec (bm_size a) (bm_size b)); lia. Qed.

Lemma combine_length op a b :
  length (bm_data (bm_combine op a b)) = num_bytes (Nat.min (bm_size a) (bm_size b)).
Proof.
  rewrite <-(combine_size op). unfold bm_combine. cbn. by rewrite length_imap, length_replicate.
Qed.

(** The operators act bit by bit below the smaller size. *)
Lemma combine_test op bop a b i :
  (∀ v w j, Z.testbit (op v w) j = bop (Z.testbit v j) (Z.testbit w j)) → i < Nat.min (bm_size a) (bm_size b) →
  bm_test (bm_combine op a b) i = bop (bit a i) (bit b i).
Proof.
  intros Hop Hi. rewrite bm_test_bit, combine_size. replace (Nat.leb _ _) with false by (symmetry; apply Nat.leb_gt; lia).
  unfold bit. rewrite combine_byte by (by apply num_bytes_lt). apply Hop.
Qed.

Lemma combine_byte_range (op : Z → Z → Z) a b k :
  bm_wf a → bm_wf b → (∀ v w, (0 <= v < 256)%Z → (0 <= w < 256)%Z → (0 <= op v w < 256)%Z) →
  (0 <= byte_at (bm_data (bm_combine op a b)) k < 256)%Z.
Proof.
  intros Ha Hb Hop. destruct (decide (k < num_bytes (Nat.min (bm_size a) (bm_size b)))) as [Hk|Hk].
  - rewrite combine_byte by done. apply Hop; [apply (wf_byte _ Ha)|apply (wf_byte _ Hb)].
  - unfold byte_at. rewrite lookup_ge_None_2 by (rewrite combine_length; lia). cbn. lia.
Qed.

Lemma combine_bit_out op bop a b i :
  (∀ v w j, Z.testbit (op v w) j = bop (Z.testbit v j) (Z.testbit w j)) →
  bop (bit a i) (bit b i) = false → bit (bm_combine op a b) i = false.
Proof.
  intros Hop Hf. destruct (decide (i / 8 < num_bytes (Nat.min (bm_size a) (bm_size b)))) as [Hk|Hk].
  - unfold bit. rewrite combine_byte, Hop by done. exact Hf.
  - unfold bit, byte_at. rewrite lookup_ge_None_2 by (rewrite combine_length; lia). apply Z.bits_0.
Qed.

Lemma bm_and_wf a b : bm_wf a → bm_wf b → bm_wf (bm_and a b).
Proof.
  intros Ha Hb. split; [by rewrite (combine_length Z.land), (combine_size Z.land)| |].
  - intros k. by apply combine_byte_range; [| |apply land_byte].
  - intros i Hi. apply (combine_bit_out _ andb); [intros; apply Z.land_spec|].
    rewrite (combine_size Z.land) in Hi. apply andb_false_iff.
    destruct (decide (bm_size a ≤ i)); [left; by apply (wf_high _ Ha)|right; apply (wf_high _ Hb); lia].
Qed.

Lemma bm_and_test a b i : bm_wf a → bm_wf b → bm_test (bm_and a b) i = bm_test a i && bm_test b i.
Proof.
  intros Ha Hb. destruct (decide (i < Nat.min (bm_size a) (bm_size b))) as [Hi|Hi].
  - unfold bm_and. rewrite (combine_test _ andb) by (done || apply Z.land_spec). by rewrite !bm_test_wf.
  - rewrite !bm_test_bit, (combine_size Z.land). replace (Nat.leb _ i) with true by (symmetry; apply Nat.leb_le; lia).
    symmetry. apply andb_false_iff. destruct (Nat.leb_spec (bm_size a) i); [by left|right].
    by replace (Nat.leb (bm_size b) i) with true by (symmetry; apply Nat.leb_le; lia).
Qed.

Lemma bm_or_wf a b : bm_wf a → bm_wf b → bm_size a = bm_size b → bm_wf (bm_or a b).
Proof.
  intros Ha Hb Hs. split; [by rewrite (combine_length Z.lor), (combine_size Z.lor)| |].
  - intros k. by apply combine_byte_range; [| |apply lor_byte].
  - intros i Hi. apply (combine_bit_out _ orb); [intros; apply Z.lor_spec|].
    rewrite (combine_size Z.lor) in Hi. rewrite (wf_high _ Ha), (wf_high _ Hb) by lia. done.
Qed.

Lemma bm_or_test a b i :
  bm_wf a → bm_wf b →
  bm_test (bm_or a b) i = Nat.ltb i (Nat.min (bm_size a) (bm_size b)) && (bm_test a i || bm_test b i).
Proof.
  intros Ha Hb. destruct (Nat.ltb_spec i (Nat.min (bm_size a) (bm_size b))) as [Hi|Hi].
  - unfold bm_or. rewrite (combine_test _ orb) by (done || apply Z.lor_spec). by rewrite !bm_test_wf.
  - rewrite bm_test_bit, (combine_size Z.lor). by replace (Nat.leb _ i) with true by (symmetry; apply Nat.leb_le; lia).
Qed.

(** ** Complement *)

Lemma last_mask_bit size i : i < 8 → Z.testbit (last_mask size) (Z.of_nat i) = Nat.ltb i (size mod 8).
Proof.
  intros Hi. unfold last_mask. rewrite u8_testbit, ones_bit by lia.
  destruct (Z.ltb_spec (Z.of_nat i) (Z.of_nat (size mod 8))), (Nat.ltb_spec i (size mod 8)); done || lia.
Qed.

Lemma num_bytes_last size : 0 < size mod 8 → num_bytes size = size / 8 + 1.
Proof.
  intros Hm. unfold num_bytes. destruct (Nat.eqb_spec size 0) as [->|]; [by apply Nat.lt_irrefl in Hm|].
  pose proof (div_mod8 size). pose proof (mod8_lt size). f_equal.
  symmetry. apply (Nat.div_unique _ 8 _ (size mod 8 - 1)); lia.
Qed.

Lemma num_bytes_full size : size mod 8 = 0 → num_bytes size = size / 8.
Proof.
  intros Hm. unfold num_bytes. destruct (Nat.eqb_spec size 0) as [->|]; [done|].
  pose proof (div_mod8 size).
  assert ((size - 1) / 8 = size / 8 - 1) as ->; [|lia].
  symmetry. apply (Nat.div_unique _ 8 _ 7); lia.
Qed.

Lemma bm_not_byte b k :
  bm_wf b → k < length (bm_data b) →
  byte_at (bm_data (bm_not b)) k
  = (if Nat.eqb k (bm_size b / 8) then Z.land (u8 (Z.lnot (byte_at (bm_data b) k))) (last_mask (bm_size b))
     else u8 (Z.lnot (byte_at (bm_data b) k))).
Proof.
  intros Hwf Hk. pose proof (wf_len _ Hwf) as Hl. unfold bm_not. cbn [bm_data].
  assert (byte_at ((λ x, u8 (Z.lnot x)) <$> bm_data b) k = u8 (Z.lnot (byte_at (bm_data b) k))) as Hmap.
  { unfold byte_at. rewrite list_lookup_fmap. by destruct (lookup_lt_is_Some_2 _ k Hk) as [x ->]. }
  destruct (Nat.ltb_spec 0 (bm_size b mod 8)) as [Hm|Hm].
  - rewrite num_bytes_last in Hl by done. rewrite length_fmap, byte_at_alter by (rewrite length_fmap; lia).
    rewrite Hmap. replace (length (bm_data b) - 1) with (bm_size b / 8) by lia. done.
  - rewrite num_bytes_full in Hl by lia. destruct (Nat.eqb_spec k (bm_size b / 8)); [lia|done].
Qed.

Lemma bm_not_size b : bm_size (bm_not b) = bm_size b.
Proof. done. Qed.

Lemma bm_not_length b : length (bm_data (bm_not b)) = length (bm_data b).
Proof. unfold bm_not. cbn [bm_data]. case_match; by rewrite ?length_alter, length_fmap. Qed.

Lemma bm_not_bit b i : bm_wf b → bit (bm_not b) i = Nat.ltb i (bm_size b) && negb (bit b i).
Proof.
  intros Hwf. pose proof (mod8_lt i). pose proof (div_mod8 i). pose proof (div_mod8 (bm_size b)).
  pose proof (mod8_lt (bm_size b)).
  destruct (decide (i / 8 < length (bm_data b))) as [Hk|Hk].
  - unfold bit. rewrite bm_not_byte by done. destruct (Nat.eqb_spec (i / 8) (bm_size b / 8)) as [E|E].
    + rewrite Z.land_spec, u8_testbit, Z.lnot_spec, last_mask_bit by lia. rewrite andb_comm. f_equal.
      destruct (Nat.ltb_spec (i mod 8) (bm_size b mod 8)), (Nat.ltb_spec i (bm_size b)); done || lia.
    + rewrite u8_testbit, Z.lnot_spec by lia. replace (Nat.ltb i (bm_size b)) with true; [done|].
      symmetry. apply Nat.ltb_lt. pose proof (wf_len _ Hwf) as Hl.
      destruct (decide (bm_size b mod 8 = 0)); [rewrite num_bytes_full in Hl by done|rewrite num_bytes_last in Hl by lia]; lia.
  - replace (Nat.ltb i (bm_size b)) with false.
    + unfold bit, byte_at. rewrite lookup_ge_None_2 by (rewrite bm_not_length; lia). apply Z.bits_0.
    + symmetry. apply Nat.ltb_ge. destruct (decide (i < bm_size b)) as [Hi|]; [|lia].
      apply num_bytes_lt in Hi. rewrite <-(wf_len _ Hwf) in Hi. lia.
Qed.

Lemma bm_not_wf b : bm_wf b → bm_wf (bm_not b).
Proof.
  intros Hwf. split; [by rewrite bm_not_length, (wf_len _ Hwf)| |].
  - intros k. destruct (decide (k < length (bm_data b))) as [Hk|Hk].
    + rewrite bm_not_byte by done. case_match; auto with py_arith.
      apply land_byte; [apply u8_range|]. unfold last_mask. apply u8_range.
    + unfold byte_at. rewrite lookup_ge_None_2 by (rewrite bm_not_length; lia). cbn. lia.
  - intros i Hi. rewrite bm_not_bit by done. by replace (Nat.ltb i (bm_size b)) with false by (symmetry; apply Nat.ltb_ge; done).
Qed.

(** ** Counting leading zeros and ones *)

(** [c] is the number of leading bits of [b] for which [v] is [false]. *)
Definition leading (v : nat → bool) (n c : nat) : Prop :=
  c ≤ n ∧ (∀ i, i < c → v i = false) ∧ (c < n → v c = true).

Lemma leading_unique v n c c' : leading v n c → leading v n c' → c = c'.
Proof.
  intros (H1 & H2 & H3) (H1' & H2' & H3'). destruct (lt_eq_lt_dec c c') as [[Hlt|]|Hlt]; [|done|].
  - rewrite H2' in H3 by done. by discriminate H3; lia.
  - rewrite H2 in H3' by done. by discriminate H3'; lia.
Qed.

Lemma ctz_from_spec n i v :
  (∀ k, k < i → Z.testbit v (Z.of_nat k) = false) →
  (∃ k, k < i + n ∧ Z.testbit v (Z.of_nat k) = true) →
  ctz_from n i v < i + n ∧ Z.testbit v (Z.of_nat (ctz_from n i v)) = true ∧
  ∀ k, k < ctz_from n i v → Z.testbit v (Z.of_nat k) = false.
Proof.
  revert i. induction n as [|n IH]; intros i Hlow (k & Hk & Hbit); cbn.
  { rewrite Hlow in Hbit by lia. done. }
  destruct (Z.testbit v (Z.of_nat i)) eqn:E; [split_and!; [lia|done|done]|].
  rewrite <-Nat.add_succ_comm. apply IH; [|exists k; split; [lia|done]].
  intros j Hj. destruct (decide (j = i)) as [->|]; [done|]. apply Hlow. lia.
Qed.

Lemma ctz_spec v :
  (0 < v < 256)%Z → ctz v < 8 ∧ Z.testbit v (Z.of_nat (ctz v)) = true ∧
  ∀ k, k < ctz v → Z.testbit v (Z.of_nat k) = false.
Proof.
  intros Hv. apply (ctz_from_spec 8 0); [lia|]. destruct (top_bit_spec v Hv) as (Ht & Hb & _). by exists (top_bit v).
Qed.

Lemma clz_loop_spec b n j :
  bm_wf b → j + n ≤ length (bm_data b) → (∀ i, i < j * 8 → bit b i = false) →
  let '(c, found) := clz_loop (drop j (bm_data b)) n (j * 8) in
  (∀ i, i < c → bit b i = false) ∧
  if found : bool then c < (j + n) * 8 ∧ bit b c = true else c = (j + n) * 8.
Proof.
  intros Hwf. revert j. induction n as [|n IH]; intros j Hj Hz.
  { cbn. destruct (drop j (bm_data b)); split; done || lia. }
  destruct (lookup_lt_is_Some_2 (bm_data b) j ltac:(lia)) as [v Ev]. rewrite (drop_S _ v) by done. cbn [clz_loop].
  assert (byte_at (bm_data b) j = v) as Hv by (unfold byte_at; by rewrite Ev).
  pose proof (wf_byte _ Hwf j) as Hr. rewrite Hv in Hr.
  assert (∀ i, i < 8 → bit b (j * 8 + i) = Z.testbit v (Z.of_nat i)) as Hbit
    by (intros; rewrite bit_byte by done; by rewrite Hv).
  assert (∀ c, c ≤ 8 → (∀ i, i < c → Z.testbit v (Z.of_nat i) = false) → ∀ i, i < j * 8 + c → bit b i = false) as Hext.
  { intros c Hc Hlow i Hi. destruct (decide (i < j * 8)); [by apply Hz|].
    replace i with (j * 8 + (i - j * 8)) by lia. rewrite Hbit by lia. apply Hlow. lia. }
  destruct (Z.eqb_spec v 0) as [->|Hne].
  - replace (j * 8 + 8) with (S j * 8) by lia. specialize (IH (S j) ltac:(lia)).
    replace (j + S n) with (S j + n) by lia. apply IH. intros i Hi. apply (Hext 8); [lia| |lia].
    intros; apply Z.bits_0.
  - destruct (ctz_spec v ltac:(lia)) as (Hc & Hset & Hlow). split; [apply Hext; [lia|done]|].
    split; [lia|]. by rewrite Hbit.
Qed.

(** [clz] counts the leading zeros. *)
Lemma clz_spec b : bm_wf b → leading (bm_test b) (bm_size b) (clz b).
Proof.
  intros Hwf. unfold clz. pose proof (wf_len _ Hwf) as Hl.
  assert (∀ i, bm_test b i = bit b i) as Ht by (intros; by apply bm_test_wf).
  destruct (Nat.eqb_spec (bm_size b) 0) as [E|Hne]; [rewrite E; split_and!; lia|].
  pose proof (div_mod8 (bm_size b)) as Hdm. pose proof (mod8_lt (bm_size b)).
  assert (bm_size b / 8 ≤ length (bm_data b)) as Hfull.
  { rewrite Hl. destruct (decide (bm_size b mod 8 = 0)); [by rewrite num_bytes_full|rewrite num_bytes_last; lia]. }
  pose proof (clz_loop_spec b (bm_size b / 8) 0 Hwf Hfull ltac:(lia)) as Hloop. rewrite drop_0 in Hloop.
  change (0 * 8) with 0 in Hloop. destruct (clz_loop _ _ _) as [c [|]]; destruct Hloop as [Hz Hc].
  { split_and!; [lia|intros; by rewrite Ht, Hz|intros _; rewrite Ht; apply Hc]. }
  rewrite Nat.add_0_l in Hc. subst c. destruct (Nat.ltb_spec 0 (bm_size b mod 8)) as [Hm|Hm].
  2:{ split_and!; [lia|intros; by rewrite Ht, Hz|lia]. }
  rewrite num_bytes_last in Hl by done.
  assert (default 0%Z (last (bm_data b)) = byte_at (bm_data b) (bm_size b / 8)) as ->.
  { unfold byte_at. rewrite last_lookup, Hl. by rewrite Nat.add_1_r. }
  set (v := Z.land _ _).
  assert (∀ i, i < 8 → bit b (bm_size b / 8 * 8 + i) = Z.testbit v (Z.of_nat i)) as Hbit.
  { intros i Hi. unfold v. rewrite Z.land_spec, last_mask_bit, <-bit_byte by done.
    destruct (Nat.ltb_spec i (bm_size b mod 8)); [by rewrite andb_true_r|].
    rewrite andb_false_r. apply (wf_high _ Hwf). lia. }
  assert (0 <= v < 256)%Z as Hv by (apply land_byte; [apply (wf_byte _ Hwf)|apply u8_range]).
  assert (∀ c, c ≤ 8 → (∀ i, i < c → Z.testbit v (Z.of_nat i) = false) →
    ∀ i, i < bm_size b / 8 * 8 + c → bm_test b i = false) as Hext.
  { intros c Hc Hlow i Hi. rewrite Ht. destruct (decide (i < bm_size b / 8 * 8)); [by apply Hz|].
    replace i with (bm_size b / 8 * 8 + (i - bm_size b / 8 * 8)) by lia. rewrite Hbit by lia. apply Hlow. lia. }
  destruct (Z.eqb_spec v 0) as [E0|E0].
  - split_and!; [lia| |lia]. apply Hext; [lia|]. intros. rewrite E0. apply Z.bits_0.
  - destruct (ctz_spec v ltac:(lia)) as (Hc & Hset & Hlow). rewrite <-Hbit in Hset by done.
    split_and!; [|apply Hext; [lia|done]|by rewrite Ht].
    destruct (decide (bm_size b ≤ bm_size b / 8 * 8 + ctz v)) as [Hge|]; [|lia].
    rewrite (wf_high _ Hwf) in Hset by done. done.
Qed.

(** [clo] counts the leading ones. *)
Lemma clo_spec b : bm_wf b → leading (λ i, negb (bm_test b i)) (bm_size b) (clo b).
Proof.
  intros Hwf. destruct (clz_spec (bm_not b) (bm_not_wf b Hwf)) as (H1 & H2 & H3). rewrite bm_not_size in *.
  assert (∀ i, i < bm_size b → bm_test (bm_not b) i = negb (bm_test b i)) as Hn.
  { intros i Hi. rewrite !bm_test_wf, bm_not_bit by auto using bm_not_wf.
    by replace (Nat.ltb i (bm_size b)) with true by (symmetry; by apply Nat.ltb_lt). }
  unfold clo. split_and!; [done|intros i Hi; rewrite <-Hn by lia; by apply H2|].
  intros Hlt. rewrite <-Hn by done. by apply H3.
Qed.

(** The bitwise OR of two well-formed bitmaps of different sizes can set
    bits past its own size: [highest_set_bit] then answers an index outside the
    bitmap, against the comment in its body that bits beyond the size are never
    set. *)
Theorem or_sets_bits_past_size :
  ∃ a b, bm_wf a ∧ bm_wf b ∧ bm_size (bm_or a b) = 3 ∧ highest_set_bit (bm_or a b) = 6%Z ∧
         bm_test (bm_or a b) 6 = false.
Proof.
  exists (new_bitmap 3), (bm_set (new_bitmap 8) 6).
  split_and!; [apply new_bitmap_wf|apply bm_set_wf, new_bitmap_wf|reflexivity..].
Qed.
