(* ===== verification/Fold.v ===== *)
(** * Prefix hits across object groups

    [lmcache/v1/distributed/bitmap_ops/fold.py] and the kernels it calls,
    [csrc/lmcache_native/fold.cpp]: presence bitmaps are folded into the prefix
    lengths every object group can serve, the highest one is the hit length,
    and it is unfolded into the chunks each group has to keep. *)

From stdpp Require Import list.
From Stdlib Require Import ZArith Lia.
From S2P Require Import Prelude Bitmap.

Open Scope nat_scope.
Open Scope py_scope.

Definition FULL_ATTENTION_WINDOW : Z := -1.

Definition unfold_range (prefix_len window : Z) : Z * Z :=
  if (prefix_len <=? 0)%Z then (0, 0)%Z
  else
    let lo := if (window <=? 0)%Z then 0%Z else Z.max 0 (prefix_len - window) in
    (lo, prefix_len).

(** ** The loops

    One group's pass over the prefix lengths: [run] counts the consecutive
    present chunks that end at the current one. The list is [servable]. *)
Definition serve_step (present : nat → bool) (effective_window : nat) (st : list bool * nat) (j : nat)
    : list bool * nat :=
  let '(servable, run) := st in
  let prefix_len := j + 1 in
  let run := if present j then run + 1 else 0 in
  (if default false (servable !! j) && Nat.ltb run (Nat.min effective_window prefix_len)
   then <[j := false]> servable else servable, run).

Definition serve_pass (present : nat → bool) (effective_window num_chunks : nat) (servable : list bool)
    : list bool :=
  (foldl (serve_step present effective_window) (servable, 0) (seq 0 num_chunks)).1.

Definition effective_window (window : Z) (num_chunks : nat) : nat :=
  if (window <=? 0)%Z then num_chunks else Z.to_nat window.

(** The bitmap of the lengths that stayed servable. *)
Definition servable_lengths (servable : list bool) (num_chunks : nat) : Bitmap :=
  foldl (λ b j, if default false (servable !! j) then bm_set b j else b) (new_bitmap num_chunks)
        (seq 0 num_chunks).

(** Whether every kv-rank shard of chunk [j] of group [g] is present. *)
Definition chunk_present (found : Bitmap) (num_groups num_ranks g j : nat) : bool :=
  let cbase := j * (num_groups * num_ranks) + g * num_ranks in
  forallb (λ r, bm_test found (cbase + r)) (seq 0 num_ranks).

(** The reference implementation in Python. *)
Definition _fold_python (found : Bitmap) (num_chunks num_ranks : nat) (group_windows : list Z) : Bitmap :=
  let num_groups := length group_windows in
  servable_lengths
    (foldl (λ servable gw,
       serve_pass (chunk_present found num_groups num_ranks gw.1) (effective_window gw.2 num_chunks) num_chunks servable)
       (replicate num_chunks true) (imap pair group_windows))
    num_chunks.

Definition _unfold_python (hit_length : Z) (num_chunks num_ranks : nat) (group_windows : list Z) : Bitmap :=
  let hit_length := Z.min hit_length (Z.of_nat num_chunks) in
  let num_groups := length group_windows in
  let chunk_stride := num_groups * num_ranks in
  let retain_mask := new_bitmap (num_chunks * chunk_stride) in
  if (hit_length <=? 0)%Z then retain_mask
  else
    foldl (λ mask gw,
      let '(lo, hi) := unfold_range hit_length gw.2 in
      foldl (λ mask j,
        let cbase := j * chunk_stride + gw.1 * num_ranks in
        foldl (λ mask r, bm_set mask (cbase + r)) mask (seq 0 num_ranks))
        mask (seq (Z.to_nat lo) (Z.to_nat hi - Z.to_nat lo)))
      retain_mask (imap pair group_windows).

(** ** The kernels *)

(** The rank loop stops at the first absent shard. *)
Fixpoint ranks_present (found : Bitmap) (cbase r n : nat) : bool :=
  match n with
  | 0 => true
  | S n' => if bm_test found (cbase + r) then ranks_present found cbase (S r) n' else false
  end.

Definition native_fold (found : Bitmap) (num_chunks num_ranks : nat) (group_windows : list Z) : Bitmap :=
  let num_groups := length group_windows in
  servable_lengths
    (foldl (λ servable gw,
       serve_pass (λ j, ranks_present found (j * (num_groups * num_ranks) + gw.1 * num_ranks) 0 num_ranks)
         (effective_window gw.2 num_chunks) num_chunks servable)
       (replicate num_chunks true) (imap pair group_windows))
    num_chunks.

(** The first chunk a group keeps. *)
Definition native_lo (hit_length : nat) (window : Z) : nat :=
  if (0 <? window)%Z && Nat.ltb (Z.to_nat window) hit_length then hit_length - Z.to_nat window else 0.

Definition native_unfold (hit_length num_chunks num_ranks : nat) (group_windows : list Z) : Bitmap :=
  let hit_length := if Nat.ltb num_chunks hit_length then num_chunks else hit_length in
  let num_groups := length group_windows in
  let chunk_stride := num_groups * num_ranks in
  let retain_mask := new_bitmap (num_chunks * chunk_stride) in
  if Nat.eqb hit_length 0 then retain_mask
  else
    foldl (λ mask gw,
      let lo := native_lo hit_length gw.2 in
      foldl (λ mask j,
        let base := j * chunk_stride + gw.1 * num_ranks in
        set_range mask base (base + num_ranks))
        mask (seq lo (hit_length - lo)))
      retain_mask (imap pair group_windows).

Definition native_fold_grouped (rows : list Bitmap) (windows : list Z) : py Bitmap :=
  if negb (Nat.eqb (length rows) (length windows)) then Raise ValueError
  else
    let num_chunks := match rows with [] => 0 | row :: _ => bm_size row end in
    if existsb (λ row, negb (Nat.eqb (bm_size row) num_chunks)) rows then Raise ValueError
    else Ret (servable_lengths
      (foldl (λ servable rw,
         serve_pass (bm_test rw.1) (effective_window rw.2 num_chunks) num_chunks servable)
         (replicate num_chunks true) (zip rows windows))
      num_chunks).

Definition native_unfold_grouped (hit_length num_chunks : nat) (windows : list Z) : list Bitmap :=
  let hit_length := if Nat.ltb num_chunks hit_length then num_chunks else hit_length in
  (λ window,
     let lo := native_lo hit_length window in
     let row := new_bitmap num_chunks in
     if Nat.ltb 0 hit_length then set_range row lo hit_length else row) <$> windows.

(** ** The Python entry points

    [kernels] says whether the installed native module has the kernels; a
    kernel's arguments are converted to [size_t] and [int64_t], and a value out
    of range is a [TypeError]. *)
Definition as_size_t (z : Z) : py nat :=
  if (0 <=? z)%Z && (z <? 2 ^ 64)%Z then Ret (Z.to_nat z) else Raise TypeError.

Definition as_int64 (z : Z) : py Z :=
  if (- 2 ^ 63 <=? z)%Z && (z <? 2 ^ 63)%Z then Ret z else Raise TypeError.

Definition fold (kernels : bool) (found : Bitmap) (num_chunks num_ranks : Z) (group_windows : list Z) : py Bitmap :=
  if negb kernels then Raise ImportError
  else if (num_ranks <? 1)%Z then Raise ValueError
  else match group_windows with
  | [] => Raise ValueError
  | _ =>
      if (num_chunks <? 0)%Z then Raise ValueError
      else
        let! n := as_size_t num_chunks in
        let! r := as_size_t num_ranks in
        let! ws := py_map as_int64 group_windows in
        Ret (native_fold found n r ws)
  end.

Definition unfold (kernels : bool) (hit_length num_chunks num_ranks : Z) (group_windows : list Z) : py Bitmap :=
  if negb kernels then Raise ImportError
  else if (num_ranks <? 1)%Z then Raise ValueError
  else match group_windows with
  | [] => Raise ValueError
  | _ =>
      if (num_chunks <? 0)%Z then Raise ValueError
      else
        let! h := as_size_t hit_length in
        let! n := as_size_t num_chunks in
        let! r := as_size_t num_ranks in
        let! ws := py_map as_int64 group_windows in
        Ret (native_unfold h n r ws)
  end.

Definition fold_grouped (kernels : bool) (rows : list Bitmap) (windows : list Z) : py Bitmap :=
  if negb kernels then Raise ImportError
  else match windows with
  | [] => Raise ValueError
  | _ =>
      if negb (Nat.eqb (length rows) (length windows)) then Raise ValueError
      else let! ws := py_map as_int64 windows in native_fold_grouped rows ws
  end.

Definition unfold_grouped (kernels : bool) (hit_length num_chunks : Z) (windows : list Z) : py (list Bitmap) :=
  if negb kernels then Raise ImportError
  else match windows with
  | [] => Raise ValueError
  | _ =>
      if (num_chunks <? 0)%Z then Raise ValueError
      else
        let! h := as_size_t hit_length in
        let! n := as_size_t num_chunks in
        let! ws := py_map as_int64 windows in
        Ret (native_unfold_grouped h n ws)
  end.

Definition all_grouped (rows : list Bitmap) : py (list Bitmap) :=
  match rows with
  | [] => Raise IndexError
  | row :: rest => Ret (replicate (length rows) (foldl bm_and row rest))
  end.

Definition fold_unfold_grouped (kernels : bool) (rows : list Bitmap) (windows : list Z)
    : py (Z * list Bitmap) :=
  let! servable := fold_grouped kernels rows windows in
  let num_chunks := match rows with [] => 0%Z | row :: _ => Z.of_nat (bm_size row) end in
  let hit_length := (highest_set_bit servable + 1)%Z in
  let! retain := unfold_grouped kernels hit_length num_chunks windows in
  Ret (hit_length, retain).

Definition merge_bitmaps (bitmaps : list Bitmap) (num_keys : nat) : Bitmap :=
  foldl bm_or (new_bitmap num_keys) bitmaps.

(** ** What a group can serve *)

(** A prefix of [L] chunks needs the last [min w L] of them. *)
Definition serves (present : nat → bool) (w L : nat) : Prop :=
  ∀ j, L - Nat.min w L ≤ j < L → present j = true.

(** The run of present chunks that ends before [n]. *)
Fixpoint run_to (present : nat → bool) (n : nat) : nat :=
  match n with
  | 0 => 0
  | S k => if present k then run_to present k + 1 else 0
  end.

Lemma run_to_serves present n m : m ≤ n → m ≤ run_to present n ↔ ∀ j, n - m ≤ j < n → present j = true.
Proof.
  revert m. induction n as [|n IH]; intros m Hm; cbn; [split; lia|].
  destruct (decide (m = 0)) as [->|Hm0]; [split; lia|]. destruct (present n) eqn:E.
  - transitivity (m - 1 ≤ run_to present n); [lia|]. rewrite IH by lia. split; intros Hp j Hj.
    + destruct (decide (j = n)) as [->|]; [done|]. apply Hp. lia.
    + apply Hp. lia.
  - split; [lia|]. intros Hp. rewrite Hp in E by lia. done.
Qed.

Lemma foldl_seq_snoc {S} (f : S → nat → S) s n : foldl f s (seq 0 (n + 1)) = f (foldl f s (seq 0 n)) n.
Proof. by rewrite seq_app, Prelude.foldl_app. Qed.

Lemma serve_pass_spec present w servable n :
  n ≤ length servable →
  let st := foldl (serve_step present w) (servable, 0) (seq 0 n) in
  st.2 = run_to present n ∧ length st.1 = length servable ∧
  ∀ j, st.1 !! j = (λ v : bool, v && (if decide (j < n) then Nat.leb (Nat.min w (j + 1)) (run_to present (j + 1)) else true)) <$> servable !! j.
Proof.
  induction n as [|n IH]; intros Hn.
  { cbn. split_and!; [done|done|]. intros j. destruct (servable !! j) as [v|]; [|done]. cbn. by rewrite andb_true_r. }
  rewrite <-(Nat.add_1_r n), foldl_seq_snoc. specialize (IH ltac:(lia)). cbv zeta in *.
  destruct (foldl _ _ _) as [sv run]. cbn [fst snd] in IH. destruct IH as (-> & Hlen & Hl). cbn [serve_step fst snd].
  replace (if present n then run_to present n + 1 else 0) with (run_to present (n + 1)) by (by rewrite Nat.add_1_r).
  split; [done|]. split; [case_match; by rewrite ?length_insert|].
  assert (∀ j, sv !! j = _) as Hl' by exact Hl. clear Hl. intros j.
  destruct (lookup_lt_is_Some_2 sv n ltac:(lia)) as [v Ev].
  pose proof (Hl' n) as Hn'. rewrite Ev in Hn'. destruct (servable !! n) as [v0|] eqn:E0; [|done]. cbn in Hn'.
  rewrite decide_False, andb_true_r in Hn' by lia. injection Hn' as <-. rewrite Ev. cbn [default].
  destruct (decide (j = n)) as [->|Hj].
  - rewrite E0. cbn [fmap option_fmap option_map]. rewrite decide_True by lia. rewrite Nat.ltb_antisym.
    destruct v; cbn; [|by rewrite Ev]. destruct (Nat.leb _ _); cbn; [by rewrite Ev|]. rewrite list_lookup_insert_eq by lia. done.
  - transitivity (sv !! j); [case_match; [by rewrite list_lookup_insert_ne|done]|].
    rewrite Hl'. destruct (servable !! j); [|done]. cbn [fmap option_fmap option_map].
    destruct (decide (j < n)), (decide (j < n + 1)); try lia; done.
Qed.

(** One pass keeps exactly the lengths the group serves. *)
Lemma serve_pass_lookup present w servable n j :
  length servable = n →
  serve_pass present w n servable !! j
  = (λ v : bool, v && Nat.leb (Nat.min w (j + 1)) (run_to present (j + 1))) <$> servable !! j.
Proof.
  intros <-. destruct (serve_pass_spec present w servable (length servable) ltac:(done)) as (_ & _ & Hl).
  unfold serve_pass. rewrite Hl. destruct (servable !! j) eqn:E; [|done]. cbn [fmap option_fmap option_map].
  by rewrite decide_True by (by apply lookup_lt_Some in E).
Qed.

Lemma length_serve_pass present w servable n :
  length servable = n → length (serve_pass present w n servable) = n.
Proof.
  intros <-. by destruct (serve_pass_spec present w servable (length servable) ltac:(done)) as (_ & Hlen & _).
Qed.

Lemma serves_run present w L : serves present w L ↔ Nat.min w L ≤ run_to present L.
Proof. unfold serves. rewrite run_to_serves by lia. done. Qed.

(** Every pass of a list of groups, each with its presence and window. *)
Lemma serve_passes_lookup {A} (pres : A → nat → bool) (win : A → nat) (gs : list A) servable n j :
  length servable = n →
  default false (foldl (λ sv g, serve_pass (pres g) (win g) n sv) servable gs !! j) = true ↔
  default false (servable !! j) = true ∧ ∀ g, g ∈ gs → serves (pres g) (win g) (j + 1).
Proof.
  revert servable. induction gs as [|g gs IH]; intros sv Hlen; cbn [foldl].
  { split; [|tauto]. intros. split; [done|]. intros g Hg. by apply not_elem_of_nil in Hg. }
  rewrite IH by (by apply length_serve_pass). rewrite serve_pass_lookup by done.
  assert (default false ((λ v : bool, v && Nat.leb (Nat.min (win g) (j + 1)) (run_to (pres g) (j + 1))) <$> sv !! j) = true
    ↔ default false (sv !! j) = true ∧ serves (pres g) (win g) (j + 1)) as ->.
  { rewrite serves_run. destruct (sv !! j) as [v|]; cbn; [|naive_solver]. by rewrite andb_true_iff, Nat.leb_le. }
  split.
  - intros [[Hs Hg] Hgs]. split; [done|]. intros g' [->|Hin]%elem_of_cons; [done|by apply Hgs].
  - intros [Hs Hg]. split_and!; [done|apply Hg; left|]. intros g' Hin. apply Hg. by right.
Qed.

Lemma servable_lengths_spec sv n :
  bm_wf (servable_lengths sv n) ∧ bm_size (servable_lengths sv n) = n ∧
  ∀ j, bm_test (servable_lengths sv n) j = Nat.ltb j n && default false (sv !! j).
Proof.
  unfold servable_lengths.
  assert (∀ m, m ≤ n → let b := foldl (λ b j, if default false (sv !! j) then bm_set b j else b) (new_bitmap n) (seq 0 m) in
    bm_wf b ∧ bm_size b = n ∧ ∀ j, bm_test b j = Nat.ltb j m && default false (sv !! j)) as Hm; [|by apply Hm].
  induction m as [|m IH]; intros Hle b.
  { split_and!; [apply new_bitmap_wf|done|]. intros j. rewrite bm_test_wf by apply new_bitmap_wf. apply new_bitmap_bit. }
  destruct (IH ltac:(lia)) as (Hwf & Hsz & Ht). unfold b. rewrite <-Nat.add_1_r, foldl_seq_snoc.
  set (b0 := foldl _ _ _) in *.
  split; [case_match; auto using bm_set_wf|]. split; [case_match; by rewrite ?bm_set_size|].
  intros j. destruct (default false (sv !! m)) eqn:E.
  - rewrite bm_set_test, Ht, Hsz by done. destruct (Nat.eqb_spec j m) as [->|].
    + rewrite E. destruct (Nat.ltb_spec m n), (Nat.ltb_spec m (m + 1)), (Nat.ltb_spec m m); done || lia.
    + rewrite orb_false_r. f_equal. destruct (Nat.ltb_spec j m), (Nat.ltb_spec j (m + 1)); done || lia.
  - rewrite Ht. destruct (decide (j = m)) as [->|]; [by rewrite E, !andb_false_r|].
    f_equal. destruct (Nat.ltb_spec j m), (Nat.ltb_spec j (m + 1)); done || lia.
Qed.

(** ** Fold *)

Lemma ranks_present_forallb found cbase r n :
  ranks_present found cbase r n = forallb (λ r, bm_test found (cbase + r)) (seq r n).
Proof. revert r. induction n as [|n IH]; intros r; cbn; [done|]. rewrite IH. by destruct (bm_test _ _). Qed.

Lemma serve_pass_ext p q w n sv : (∀ j, p j = q j) → serve_pass p w n sv = serve_pass q w n sv.
Proof.
  intros Hpq. unfold serve_pass. f_equal. apply foldl_ext_in. intros [sv' run] j _. cbn. by rewrite Hpq.
Qed.

Lemma native_fold_python found n r ws : native_fold found n r ws = _fold_python found n r ws.
Proof.
  unfold native_fold, _fold_python. f_equal. apply foldl_ext_in. intros sv gw _. apply serve_pass_ext.
  intros j. apply ranks_present_forallb.
Qed.

Lemma fold_python_test found n r ws j :
  j < n →
  bm_test (_fold_python found n r ws) j = true ↔
  ∀ g w, ws !! g = Some w → serves (chunk_present found (length ws) r g) (effective_window w n) (j + 1).
Proof.
  intros Hj. unfold _fold_python. destruct (servable_lengths_spec
    (foldl (λ servable gw, serve_pass (chunk_present found (length ws) r gw.1) (effective_window gw.2 n) n servable)
       (replicate n true) (imap pair ws)) n) as (_ & _ & ->).
  replace (Nat.ltb j n) with true by (symmetry; by apply Nat.ltb_lt). cbn [andb].
  rewrite (serve_passes_lookup (λ gw, chunk_present found (length ws) r gw.1) (λ gw, effective_window gw.2 n))
    by apply length_replicate.
  rewrite lookup_replicate_2 by done. cbn. split.
  - intros [_ Hs] g w Hg. apply (Hs (g, w)). apply list_elem_of_lookup. exists g. by rewrite list_lookup_imap, Hg.
  - intros Hs. split; [done|]. intros [g w] Hin. apply elem_of_lookup_imap in Hin as (g' & w' & [= -> ->] & Hg). by apply Hs.
Qed.

Definition fits_int64 (w : Z) : Prop := (- 2 ^ 63 <= w < 2 ^ 63)%Z.

Lemma as_int64_fits ws : Forall fits_int64 ws → py_map as_int64 ws = Ret ws.
Proof.
  induction 1 as [|w ws [H1 H2] _ IH]; [done|]. cbn [py_map].
  assert (as_int64 w = Ret w) as ->; [|by rewrite IH].
  unfold as_int64. by replace (_ && _) with true by (symmetry; apply andb_true_intro; split; lia).
Qed.

Lemma as_size_t_nat n : (Z.of_nat n < 2 ^ 64)%Z → as_size_t (Z.of_nat n) = Ret n.
Proof.
  intros Hn. unfold as_size_t. replace (_ && _) with true by (symmetry; apply andb_true_intro; split; lia).
  by rewrite Nat2Z.id.
Qed.

(** [fold] on well-formed arguments agrees with the reference
    implementation, and its bit [j] is set exactly when every object group can
    serve a prefix of [j + 1] chunks: all kv-rank shards of the last
    [min (window, j + 1)] chunks are present, of all of them for full
    attention. *)
Theorem fold_spec found (n r : nat) ws :
  (Z.of_nat n < 2 ^ 64)%Z → (0 < Z.of_nat r < 2 ^ 64)%Z → ws ≠ [] → Forall fits_int64 ws →
  ∃ b, fold true found (Z.of_nat n) (Z.of_nat r) ws = Ret b ∧ b = _fold_python found n r ws ∧
       bm_wf b ∧ bm_size b = n ∧
       ∀ j, j < n → bm_test b j = true ↔
         ∀ g w, ws !! g = Some w →
           serves (λ c, forallb (λ k, bm_test found (c * (length ws * r) + g * r + k)) (seq 0 r))
                  (effective_window w n) (j + 1).
Proof.
  intros Hn Hr Hws Hfit. exists (_fold_python found n r ws). split.
  { unfold fold. cbn [negb]. replace (Z.of_nat r <? 1)%Z with false by lia. destruct ws as [|w ws]; [done|].
    replace (Z.of_nat n <? 0)%Z with false by lia. rewrite !as_size_t_nat by lia. cbn [py_bind].
    rewrite as_int64_fits by done. cbn [py_bind]. by rewrite native_fold_python. }
  split; [done|]. destruct (servable_lengths_spec
    (foldl (λ servable gw, serve_pass (chunk_present found (length ws) r gw.1) (effective_window gw.2 n) n servable)
       (replicate n true) (imap pair ws)) n) as (Hwf & Hsz & _).
  split; [exact Hwf|]. split; [exact Hsz|]. intros j Hj. by apply fold_python_test.
Qed.

(** ** Unfold *)

(** A loop each of whose turns sets some bits. *)
Lemma foldl_bits {A} (n : nat) (f : Bitmap → A → Bitmap) (P : A → nat → bool) xs b :
  (∀ b x, x ∈ xs → bm_wf b → bm_size b = n →
     bm_wf (f b x) ∧ bm_size (f b x) = n ∧ ∀ i, bm_test (f b x) i = bm_test b i || P x i) →
  bm_wf b → bm_size b = n →
  bm_wf (foldl f b xs) ∧ bm_size (foldl f b xs) = n ∧
  ∀ i, bm_test (foldl f b xs) i = bm_test b i || existsb (λ x, P x i) xs.
Proof.
  revert b. induction xs as [|x xs IH]; intros b Hf Hwf Hsz; cbn [foldl existsb].
  { split_and!; [done|done|]. intros i. by rewrite orb_false_r. }
  destruct (Hf b x ltac:(left) Hwf Hsz) as (Hwf1 & Hsz1 & Ht1).
  destruct (IH (f b x)) as (Hwf2 & Hsz2 & Ht2); [intros b' y Hy; apply Hf; by right|done|done|].
  split_and!; [done|done|]. intros i. by rewrite Ht2, Ht1, orb_assoc.
Qed.

Lemma existsb_seq (P : nat → bool) a n : existsb P (seq a n) = true ↔ ∃ i, a ≤ i < a + n ∧ P i = true.
Proof.
  rewrite existsb_exists. split.
  - intros (i & Hi%in_seq & HP). exists i. split; [lia|done].
  - intros (i & Hi & HP). exists i. split; [apply in_seq; lia|done].
Qed.

Lemma bool_ext (a b : bool) : (a = true ↔ b = true) → a = b.
Proof. destruct a, b; intuition congruence. Qed.

(** Setting the bits of a range one by one is [set_range]. *)
Lemma set_each_range b base n :
  bm_wf b → foldl (λ b r, bm_set b (base + r)) b (seq 0 n) = set_range b base (base + n).
Proof.
  intros Hwf.
  destruct (foldl_bits (bm_size b) (λ b r, bm_set b (base + r))
    (λ r i, Nat.eqb i (base + r) && Nat.ltb (base + r) (bm_size b)) (seq 0 n) b) as (Hwf1 & Hsz1 & Ht1); [|done|done|].
  { intros b' r _ Hwf' Hsz'. rewrite bm_set_size. split_and!; [by apply bm_set_wf|done|].
    intros i. by rewrite bm_set_test, Hsz'. }
  apply bm_ext; [done|by apply set_range_wf|by rewrite set_range_size|]. intros i _.
  rewrite Ht1, set_range_test by done. apply orb_ext. rewrite existsb_seq, andb_true_iff, Nat.leb_le, Nat.ltb_lt.
  split.
  - intros (r & Hr & [->%Nat.eqb_eq Hlt%Nat.ltb_lt]%andb_true_iff). lia.
  - intros Hi. exists (i - base). split; [lia|]. rewrite andb_true_iff, Nat.eqb_eq, Nat.ltb_lt. lia.
Qed.

Lemma foldl_ext_inv {A S} (I : S → Prop) (f g : S → A → S) l s :
  I s → (∀ s x, x ∈ l → I s → f s x = g s x ∧ I (g s x)) → foldl f s l = foldl g s l ∧ I (foldl g s l).
Proof.
  revert s. induction l as [|x l IH]; intros s Hs Hfg; [done|]. cbn.
  destruct (Hfg s x ltac:(left) Hs) as [-> Hg]. apply IH; [done|]. intros s' y Hy. apply Hfg. by right.
Qed.

Lemma unfold_range_native (h : nat) w :
  0 < h → unfold_range (Z.of_nat h) w = (Z.of_nat (native_lo h w), Z.of_nat h).
Proof.
  intros Hh. unfold unfold_range, native_lo. replace (Z.of_nat h <=? 0)%Z with false by lia. f_equal.
  destruct (Z.leb_spec w 0); [by replace (0 <? w)%Z with false by lia|].
  replace (0 <? w)%Z with true by lia. destruct (Nat.ltb_spec (Z.to_nat w) h); cbn [andb]; lia.
Qed.

Lemma native_lo_le h w : native_lo h w ≤ h.
Proof. unfold native_lo. case_match; lia. Qed.

Lemma native_unfold_python (h n r : nat) ws : native_unfold h n r ws = _unfold_python (Z.of_nat h) n r ws.
Proof.
  unfold native_unfold, _unfold_python. set (h' := if Nat.ltb n h then n else h).
  replace (Z.min (Z.of_nat h) (Z.of_nat n)) with (Z.of_nat h')
    by (unfold h'; destruct (Nat.ltb_spec n h); lia).
  destruct (Nat.eqb_spec h' 0) as [E|Hne].
  { rewrite E. done. }
  replace (Z.of_nat h' <=? 0)%Z with false by lia. symmetry.
  apply (foldl_ext_inv bm_wf); [apply new_bitmap_wf|]. intros mask gw _ Hwf.
  rewrite unfold_range_native by lia. rewrite !Nat2Z.id.
  apply (foldl_ext_inv bm_wf); [done|]. intros mask' j _ Hwf'. split; [by apply set_each_range|by apply set_range_wf].
Qed.

(** [unfold], which fills byte ranges in the kernel, returns the bitmap of
    the reference implementation, which sets the retained cells one bit at a
    time, for every hit length, number of chunks and ranks, and windows. *)
Theorem unfold_matches_reference (h n r : nat) ws :
  (Z.of_nat h < 2 ^ 64)%Z → (Z.of_nat n < 2 ^ 64)%Z → (0 < Z.of_nat r < 2 ^ 64)%Z → ws ≠ [] →
  Forall fits_int64 ws →
  unfold true (Z.of_nat h) (Z.of_nat n) (Z.of_nat r) ws = Ret (_unfold_python (Z.of_nat h) n r ws).
Proof.
  intros Hh Hn Hr Hws Hfit. unfold unfold. cbn [negb]. replace (Z.of_nat r <? 1)%Z with false by lia.
  destruct ws as [|w ws]; [done|]. replace (Z.of_nat n <? 0)%Z with false by lia.
  rewrite !as_size_t_nat by lia. cbn [py_bind]. rewrite as_int64_fits by done. cbn [py_bind].
  by rewrite native_unfold_python.
Qed.

(** ** Grouped rows *)

(** The rows of one request: well-formed and of the same size. *)
Definition rows_ok (n : nat) (rows : list Bitmap) : Prop := Forall (λ row, bm_wf row ∧ bm_size row = n) rows.

Lemma rows_ok_size n rows : rows_ok n rows → rows ≠ [] → match rows with [] => 0 | row :: _ => bm_size row end = n.
Proof. intros Hok Hne. destruct Hok as [|row rows [_ Hs]]; [done|exact Hs]. Qed.

Lemma native_fold_grouped_spec n rows windows :
  rows_ok n rows → rows ≠ [] → length rows = length windows →
  ∃ b, native_fold_grouped rows windows = Ret b ∧ bm_wf b ∧ bm_size b = n ∧
       ∀ j, j < n → bm_test b j = true ↔
         ∀ i row w, rows !! i = Some row → windows !! i = Some w →
           serves (bm_test row) (effective_window w n) (j + 1).
Proof.
  intros Hok Hne Hlen. unfold native_fold_grouped. rewrite Hlen, Nat.eqb_refl. cbn [negb].
  rewrite (rows_ok_size n rows Hok Hne).
  replace (existsb (λ row, negb (Nat.eqb (bm_size row) n)) rows) with false.
  2:{ symmetry. apply not_true_is_false. intros (row & Hin & Hb)%existsb_exists.
      apply list_elem_of_In in Hin. unfold rows_ok in Hok. rewrite Forall_forall in Hok.
      destruct (Hok row Hin) as [_ E]. by rewrite E, Nat.eqb_refl in Hb. }
  eexists. split; [reflexivity|]. destruct (servable_lengths_spec
    (foldl (λ servable rw, serve_pass (bm_test rw.1) (effective_window rw.2 n) n servable)
       (replicate n true) (zip rows windows)) n) as (Hwf & Hsz & Ht).
  split; [exact Hwf|]. split; [exact Hsz|]. intros j Hj. rewrite Ht.
  replace (Nat.ltb j n) with true by (symmetry; by apply Nat.ltb_lt). cbn [andb].
  rewrite (serve_passes_lookup (λ rw, bm_test rw.1) (λ rw, effective_window rw.2 n)) by apply length_replicate.
  rewrite lookup_replicate_2 by done. cbn. split.
  - intros [_ Hs] i row w Hr Hw. apply (Hs (row, w)). apply list_elem_of_lookup. exists i.
    rewrite lookup_zip_with, Hr. cbn. by rewrite Hw.
  - intros Hs. split; [done|]. intros [row w] [i Hi]%list_elem_of_lookup.
    apply lookup_zip_with_Some in Hi as (x & y & [= -> ->] & Hx & Hy). by eapply Hs.
Qed.

(** The chunks a row retains for a hit of length [h] are those it needs. *)
Definition retained (h : nat) (w : Z) (n j : nat) : Prop :=
  h - Nat.min (effective_window w n) h ≤ j < h.

Lemma native_lo_window h w n : h ≤ n → native_lo h w = h - Nat.min (effective_window w n) h.
Proof.
  intros Hh. unfold native_lo, effective_window. destruct (Z.leb_spec w 0).
  - replace (0 <? w)%Z with false by lia. cbn [andb]. lia.
  - replace (0 <? w)%Z with true by lia. cbn [andb]. destruct (Nat.ltb_spec (Z.to_nat w) h); lia.
Qed.

Lemma native_unfold_grouped_spec h n windows i w :
  h ≤ n → windows !! i = Some w →
  ∃ row, native_unfold_grouped h n windows !! i = Some row ∧ bm_wf row ∧ bm_size row = n ∧
         ∀ j, bm_test row j = true ↔ retained h w n j.
Proof.
  intros Hh Hw. unfold native_unfold_grouped. replace (Nat.ltb n h) with false by (symmetry; apply Nat.ltb_ge; lia).
  rewrite list_lookup_fmap, Hw. eexists. split; [reflexivity|]. cbn beta zeta. rewrite (native_lo_window h w n) by done.
  assert (∀ j, bm_test (new_bitmap n) j = false) as H0
    by (intros; rewrite bm_test_wf by apply new_bitmap_wf; apply new_bitmap_bit).
  destruct (Nat.ltb_spec 0 h).
  - split_and!; [apply set_range_wf, new_bitmap_wf|by rewrite set_range_size|].
    intros j. rewrite set_range_test by apply new_bitmap_wf. rewrite H0. cbn [orb bm_size new_bitmap].
    rewrite andb_true_iff, Nat.leb_le, Nat.ltb_lt. unfold retained. lia.
  - split_and!; [apply new_bitmap_wf|done|]. intros j. rewrite H0. unfold retained. split; [done|lia].
Qed.

(** Every row serves a prefix of [L] chunks. *)
Definition all_serve (n : nat) (rows : list Bitmap) (windows : list Z) (L : nat) : Prop :=
  ∀ i row w, rows !! i = Some row → windows !! i = Some w → serves (bm_test row) (effective_window w n) L.

(** [h] is the longest prefix, of at most [n] chunks, that every row serves. *)
Definition longest_hit (n : nat) (rows : list Bitmap) (windows : list Z) (h : nat) : Prop :=
  h ≤ n ∧ all_serve n rows windows h ∧ ∀ L, h < L ≤ n → ¬ all_serve n rows windows L.

Lemma hit_length_spec n rows windows b :
  bm_wf b → bm_size b = n → (∀ j, j < n → bm_test b j = true ↔ all_serve n rows windows (j + 1)) →
  ∃ h, (highest_set_bit b + 1)%Z = Z.of_nat h ∧ longest_hit n rows windows h.
Proof.
  intros Hwf Hsz Ht. destruct (highest_set_bit_spec b Hwf) as [[-> Hz]|(k & -> & Hk & Hbit & Hz)].
  - exists 0. split; [done|]. split_and!; [lia|intros i row w _ _ j; lia|]. intros L HL Hs.
    replace L with (L - 1 + 1) in Hs by lia. apply Ht in Hs; [|lia]. by rewrite Hz in Hs.
  - exists (k + 1). split; [lia|]. split_and!; [lia|apply Ht; [lia|done]|]. intros L HL Hs.
    replace L with (L - 1 + 1) in Hs by lia. apply Ht in Hs; [|lia]. by rewrite Hz in Hs by lia.
Qed.

Lemma fold_unfold_grouped_run n rows windows :
  rows_ok n rows → rows ≠ [] → length rows = length windows → Forall fits_int64 windows →
  (Z.of_nat n < 2 ^ 64)%Z →
  ∃ h, longest_hit n rows windows h ∧
       fold_unfold_grouped true rows windows = Ret (Z.of_nat h, native_unfold_grouped h n windows).
Proof.
  intros Hok Hne Hlen Hfit Hn.
  destruct (native_fold_grouped_spec n rows windows Hok Hne Hlen) as (b & Eb & Hwf & Hsz & Ht).
  destruct (hit_length_spec n rows windows b Hwf Hsz Ht) as (h & Hh & Hlong). exists h. split; [done|].
  assert (windows ≠ []) as Hw by (by intros ->; destruct rows).
  assert (fold_grouped true rows windows = Ret b) as E1.
  { unfold fold_grouped. cbn [negb]. destruct windows; [done|]. rewrite Hlen, Nat.eqb_refl. cbn [negb].
    rewrite as_int64_fits by done. exact Eb. }
  unfold fold_unfold_grouped. rewrite E1. cbn [py_bind]. rewrite Hh.
  replace (match rows with [] => 0%Z | row :: _ => Z.of_nat (bm_size row) end) with (Z.of_nat n)
    by (pose proof (rows_ok_size n rows Hok Hne); destruct rows; [done|congruence]).
  assert (unfold_grouped true (Z.of_nat h) (Z.of_nat n) windows = Ret (native_unfold_grouped h n windows)) as ->; [|done].
  destruct Hlong as (Hle & _ & _).
  unfold unfold_grouped. cbn [negb]. destruct windows; [done|]. replace (Z.of_nat n <? 0)%Z with false by lia.
  rewrite !as_size_t_nat by lia. cbn [py_bind]. by rewrite as_int64_fits.
Qed.

(** C23: [fold_unfold_grouped] computes the model-wide prefix hit: on rows of the
    same length with one window each it returns the longest prefix that every
    row can serve under its own window, and one bitmap per row of exactly the
    chunks that row needs for it - all of which are present in the row. *)
Theorem fold_unfold_grouped_spec n rows windows :
  rows_ok n rows → rows ≠ [] → length rows = length windows → Forall fits_int64 windows →
  (Z.of_nat n < 2 ^ 64)%Z →
  ∃ h retain, fold_unfold_grouped true rows windows = Ret (Z.of_nat h, retain) ∧
    longest_hit n rows windows h ∧ length retain = length rows ∧
    ∀ i row w, rows !! i = Some row → windows !! i = Some w →
      ∃ keep, retain !! i = Some keep ∧ bm_size keep = n ∧
        ∀ j, (bm_test keep j = true ↔ retained h w n j) ∧ (bm_test keep j = true → bm_test row j = true).
Proof.
  intros Hok Hne Hlen Hfit Hn.
  destruct (fold_unfold_grouped_run n rows windows Hok Hne Hlen Hfit Hn) as (h & Hlong & E).
  exists h, (native_unfold_grouped h n windows). split; [exact E|]. split; [exact Hlong|].
  split; [unfold native_unfold_grouped; rewrite length_fmap; by symmetry|].
  destruct Hlong as (Hle & Hs & _). intros i row w Hr Hw.
  destruct (native_unfold_grouped_spec h n windows i w Hle Hw) as (keep & Ek & _ & Hsz & Hk).
  exists keep. split; [done|]. split; [done|]. intros j. split; [apply Hk|]. intros Hj%Hk. by eapply Hs.
Qed.

(** ** Full attention *)

Lemma foldl_and_test row rows i :
  bm_wf row → Forall bm_wf rows →
  bm_wf (foldl bm_and row rows) ∧
  bm_test (foldl bm_and row rows) i = bm_test row i && forallb (λ r, bm_test r i) rows.
Proof.
  revert row. induction rows as [|r rows IH]; intros row Hwf Hall; cbn [foldl forallb].
  { by rewrite andb_true_r. }
  apply Forall_cons in Hall as [Hr Hall]. destruct (IH (bm_and row r)) as [Hwf' Ht]; [by apply bm_and_wf|done|].
  split; [done|]. by rewrite Ht, bm_and_test, andb_assoc.
Qed.

Lemma foldl_and_size row rows n :
  bm_size row = n → Forall (λ r, bm_size r = n) rows → bm_size (foldl bm_and row rows) = n.
Proof.
  revert row. induction rows as [|r rows IH]; intros row Hs Hall; [done|]. apply Forall_cons in Hall as [Hr Hall].
  cbn. apply IH; [|done]. unfold bm_and. rewrite combine_size. lia.
Qed.

(** With full attention everywhere, [fold_unfold_grouped] is the plain
    longest-prefix match: the hit length is the number of leading ones of the
    intersection of the rows, which is what [all_grouped] returns for each
    row. *)
Theorem full_attention_is_prefix_match n row rows windows :
  rows_ok n (row :: rows) → length (row :: rows) = length windows → Forall fits_int64 windows →
  (Z.of_nat n < 2 ^ 64)%Z → Forall (λ w, w <= 0)%Z windows →
  ∃ retain common, fold_unfold_grouped true (row :: rows) windows = Ret (Z.of_nat (clo common), retain) ∧
    all_grouped (row :: rows) = Ret (replicate (length (row :: rows)) common).
Proof.
  intros Hok Hlen Hfit Hn Hfull.
  destruct (fold_unfold_grouped_run n (row :: rows) windows Hok ltac:(done) Hlen Hfit Hn) as (h & (Hle & Hs & Hmax) & E).
  exists (native_unfold_grouped h n windows), (foldl bm_and row rows). split; [|done]. rewrite E. do 3 f_equal.
  pose proof Hok as Hok'. unfold rows_ok in Hok'. apply Forall_cons in Hok' as [[Hwf Hsz] Hrest].
  apply Forall_and in Hrest as [Hwfs Hszs].
  pose proof (proj1 (foldl_and_test row rows 0 Hwf Hwfs)) as Hwfc.
  assert (∀ j, bm_test (foldl bm_and row rows) j = true ↔ ∀ i r, (row :: rows) !! i = Some r → bm_test r j = true) as Hc.
  { intros j. rewrite (proj2 (foldl_and_test row rows j Hwf Hwfs)), andb_true_iff, forallb_forall. split.
    - intros [Hr Hrs] [|i] r Hi; cbn in Hi; [by injection Hi as <-|]. apply Hrs, list_elem_of_In. by eapply list_elem_of_lookup_2.
    - intros Hall. split; [by apply (Hall 0)|]. intros r [i Hi]%list_elem_of_In%list_elem_of_lookup. by apply (Hall (S i)). }
  assert (∀ L, L ≤ n → all_serve n (row :: rows) windows L ↔ ∀ j, j < L → bm_test (foldl bm_and row rows) j = true) as Hserve.
  { intros L HL. rewrite Forall_lookup in Hfull.
    assert (∀ i w, windows !! i = Some w → effective_window w n = n) as Heff.
    { intros i w Hw. unfold effective_window. by replace (w <=? 0)%Z with true by (specialize (Hfull i w Hw); cbn in Hfull; lia). }
    split.
    - intros Hall j Hj. apply Hc. intros i r Hr. destruct (lookup_lt_is_Some_2 windows i) as [w Hw].
      { rewrite <-Hlen. by eapply lookup_lt_Some. }
      apply (Hall i r w Hr Hw). rewrite (Heff i w Hw). lia.
    - intros Hj i r w Hr Hw j Hjl. by apply (proj1 (Hc j) (Hj j ltac:(lia)) i). }
  pose proof (clo_spec _ Hwfc) as Hclo. rewrite (foldl_and_size row rows n Hsz Hszs) in Hclo.
  eapply leading_unique; [|exact Hclo]. split_and!; [done| |].
  - intros i Hi. rewrite (proj1 (Hserve h Hle) Hs i Hi). done.
  - intros Hlt. apply negb_true_iff, not_true_is_false. intros Hset. apply (Hmax (h + 1)); [lia|].
    apply Hserve; [lia|]. intros j Hj. destruct (decide (j = h)) as [->|]; [done|].
    apply (proj1 (Hserve h Hle) Hs). lia.
Qed.

(** ** Merging *)

(** [merge_bitmaps] is the union of its sources, in a bitmap of [num_keys]
    bits, when every source has that size. *)
Lemma merge_bitmaps_spec n bitmaps :
  rows_ok n bitmaps →
  bm_wf (merge_bitmaps bitmaps n) ∧ bm_size (merge_bitmaps bitmaps n) = n ∧
  ∀ i, bm_test (merge_bitmaps bitmaps n) i = existsb (λ b, bm_test b i) bitmaps.
Proof.
  intros Hok. unfold rows_ok in Hok. rewrite Forall_forall in Hok. unfold merge_bitmaps.
  destruct (foldl_bits n bm_or bm_test bitmaps (new_bitmap n)) as (Hwf & Hsz & Ht); [|apply new_bitmap_wf|done|].
  - intros b x Hx Hb Hs. destruct (Hok x Hx) as [Hwx Hsx]. split_and!; [apply bm_or_wf; [done|done|lia]| |].
    + unfold bm_or. rewrite combine_size. lia.
    + intros i. rewrite bm_or_test by done. destruct (Nat.ltb_spec i (Nat.min (bm_size b) (bm_size x))); [done|].
      rewrite !bm_test_bit. rewrite Hs, Hsx. by replace (Nat.leb n i) with true by (symmetry; apply Nat.leb_le; lia).
  - split_and!; [done|done|]. intros i. rewrite Ht, bm_test_wf by apply new_bitmap_wf. by rewrite new_bitmap_bit.
Qed.

(** A source smaller than [num_keys] shrinks the merged bitmap and drops
    bits of the other sources, against the promise to always return
    [num_keys] bits. *)
Theorem merge_bitmaps_shrinks :
  ∃ bitmaps, Forall bm_wf bitmaps ∧ bm_size (merge_bitmaps bitmaps 8) = 3 ∧
    ∃ b, b ∈ bitmaps ∧ bm_test b 5 = true ∧ bm_test (merge_bitmaps bitmaps 8) 5 = false.
Proof.
  exists [bm_set (new_bitmap 8) 5; new_bitmap 3]. split.
  { rewrite !Forall_cons. split_and!; [apply bm_set_wf, new_bitmap_wf|apply new_bitmap_wf|done]. }
  split; [reflexivity|]. eexists. split; [left|]. by split.
Qed.

(** ** Witnesses

    Four chunks: a full-attention group that has the first three, and a
    sliding window of two chunks that lacks the first. *)
Definition demo_full : Bitmap := batched_set (new_bitmap 4) [0; 1; 2].
Definition demo_sliding : Bitmap := batched_set (new_bitmap 4) [1; 2].

Lemma demo_rows_ok : rows_ok 4 [demo_full; demo_sliding].
Proof.
  unfold rows_ok. rewrite !Forall_cons. split_and!; [|reflexivity| |reflexivity|apply Forall_nil_2];
    unfold demo_full, demo_sliding, batched_set; cbn [foldl];
    repeat apply bm_set_wf; apply new_bitmap_wf.
Qed.

Lemma demo_windows_fit : Forall fits_int64 [-1; 2]%Z.
Proof. repeat constructor; lia. Qed.

Lemma fold_unfold_grouped_spec_witness :
  ∃ retain, fold_unfold_grouped true [demo_full; demo_sliding] [-1; 2]%Z = Ret (3%Z, retain) ∧
    length retain = 2 ∧ longest_hit 4 [demo_full; demo_sliding] [-1; 2]%Z 3.
Proof.
  destruct (fold_unfold_grouped_spec 4 [demo_full; demo_sliding] [-1; 2]%Z demo_rows_ok ltac:(done) eq_refl
    demo_windows_fit ltac:(lia)) as (h & retain & E & Hl & Hlen & _).
  assert (match fold_unfold_grouped true [demo_full; demo_sliding] [-1; 2]%Z with Ret p => p.1 | Raise _ => 0%Z end = 3%Z)
    as H3 by (vm_compute; reflexivity).
  rewrite E in H3. cbn [fst] in H3. assert (h = 3) as -> by lia.
  exists retain. split; [exact E|]. split; [exact Hlen|exact Hl].
Defined.

Lemma full_attention_is_prefix_match_witness :
  ∃ retain common, fold_unfold_grouped true [demo_full; demo_full] [-1; 0]%Z = Ret (Z.of_nat (clo common), retain) ∧
    all_grouped [demo_full; demo_full] = Ret [common; common].
Proof.
  apply (full_attention_is_prefix_match 4 demo_full [demo_full] [-1; 0]%Z); [|done|repeat constructor; lia|lia|repeat constructor; lia].
  pose proof demo_rows_ok as Hok. apply Forall_cons in Hok as [Hf _]. apply Forall_cons. split; [exact Hf|].
  apply Forall_singleton. exact Hf.
Defined.

Definition demo_found : Bitmap := batched_set (new_bitmap 8) [0; 2; 3; 4; 5; 7].

Lemma fold_spec_witness :
  ∃ b, fold true demo_found 4 1 [-1; 2]%Z = Ret b ∧ bm_test b 2 = true ∧ bm_test b 3 = false ∧
       b = _fold_python demo_found 4 1 [-1; 2]%Z.
Proof.
  destruct (fold_spec demo_found 4 1 [-1; 2]%Z ltac:(lia) ltac:(lia) ltac:(done) demo_windows_fit)
    as (b & E & Eb & _). exists b. split; [exact E|]. rewrite Eb. split_and!; vm_compute; reflexivity.
Defined.

Lemma unfold_matches_reference_witness :
  unfold true 3 4 2 [-1; 2]%Z = Ret (_unfold_python 3 4 2 [-1; 2]%Z).
Proof.
  apply (unfold_matches_reference 3 4 2 [-1; 2]%Z); [lia|lia|lia|done|exact demo_windows_fit].
Defined.
