(* ===== verification/PyFloat.v ===== *)
(** * Python numbers

    Python's [float] is IEEE binary64, modelled by the Standard Library's
    [spec_float] at precision 53 and maximal exponent 1024; an [int] is [Z].
    Mixed arithmetic converts the [int], mixed comparisons are exact. *)

From stdpp Require Import base list.
From Stdlib Require Import ZArith Lia.
From Stdlib Require Import Floats.SpecFloat.
From S2P Require Import Prelude.

Open Scope Z_scope.

Abbreviation float := spec_float.

Definition f_zero : float := S754_zero false.
Definition f_one : float := S754_finite false 4503599627370496 (-52).

Definition f_add : float → float → float := SFadd 53 1024.
Definition f_sub : float → float → float := SFsub 53 1024.
Definition f_mul : float → float → float := SFmul 53 1024.
Definition f_div : float → float → float := SFdiv 53 1024.
Definition f_lt : float → float → bool := SFltb.

(** [float(z)], round to nearest even. *)
Definition f_of_Z (z : Z) : float := binary_normalize 53 1024 z 0 false.

(** A binary64 value. *)
Definition is_float (f : float) : Prop := valid_binary 53 1024 f = true.

(** [int(f)] truncates; it raises on a NaN and on an infinity. *)
Definition f_int (f : float) : py Z :=
  match f with
  | S754_zero _ => Ret 0
  | S754_nan => Raise ValueError
  | S754_infinity _ => Raise OverflowError
  | S754_finite s m e =>
      let a := if 0 <=? e then Z.pos m * 2 ^ e else Z.pos m / 2 ^ (- e) in
      Ret (if s : bool then - a else a)
  end.

(** ** Numbers *)

Inductive num := NInt (z : Z) | NFloat (f : float).

Definition num_float (n : num) : float :=
  match n with NInt z => f_of_Z z | NFloat f => f end.

(** An [int] against a [float], exactly. *)
Definition cmp_int_float (z : Z) (f : float) : option comparison :=
  match f with
  | S754_nan => None
  | S754_infinity s => Some (if s : bool then Gt else Lt)
  | S754_zero _ => Some (z ?= 0)
  | S754_finite s m e =>
      let v := if s : bool then Z.neg m else Z.pos m in
      Some (if 0 <=? e then z ?= v * 2 ^ e else z * 2 ^ (- e) ?= v)
  end.

Definition num_lt (a b : num) : bool :=
  match a, b with
  | NInt x, NInt y => x <? y
  | NFloat f, NFloat g => f_lt f g
  | NInt x, NFloat g => match cmp_int_float x g with Some Lt => true | _ => false end
  | NFloat f, NInt y => match cmp_int_float y f with Some Gt => true | _ => false end
  end.

(** [min(a, b)] and [max(a, b)] return the first argument unless the second one
    is strictly smaller, or larger. *)
Definition num_min (a b : num) : num := if num_lt b a then b else a.
Definition num_max (a b : num) : num := if num_lt a b then b else a.
Definition f_min (a b : float) : float := if f_lt b a then b else a.
Definition f_max (a b : float) : float := if f_lt a b then b else a.

Definition num_int (n : num) : py Z :=
  match n with NInt z => Ret z | NFloat f => f_int f end.

(** ** Rounding keeps signs and stays in range *)

Lemma iter_pos_inv {A} (P : A → Prop) (f : A → A) n x : (∀ y, P y → P (f y)) → P x → P (iter_pos f n x).
Proof. intros Hf. revert x. induction n as [n IH|n IH|]; intros x Hx; cbn; auto. Qed.

Lemma digits_log2 p : Z.pos (digits2_pos p) = Z.log2 (Z.pos p) + 1.
Proof.
  induction p as [p IH|p IH|]; cbn [digits2_pos]; [| |done].
  - rewrite Pos2Z.inj_succ, IH, (Pos2Z.inj_xI p). rewrite Z.log2_succ_double by done. lia.
  - rewrite Pos2Z.inj_succ, IH, (Pos2Z.inj_xO p). rewrite Z.log2_double by done. lia.
Qed.

Lemma Zdigits2_le a b : 0 <= a <= b → Zdigits2 a <= Zdigits2 b.
Proof.
  intros H. destruct a as [|p|p], b as [|q|q]; try lia; cbn -[Z.le]; [lia|].
  rewrite !digits_log2. pose proof (Z.log2_le_mono (Z.pos p) (Z.pos q) ltac:(lia)). lia.
Qed.

Lemma Zdigits2_nonneg a : 0 <= Zdigits2 a.
Proof. destruct a; cbn; lia. Qed.

Lemma Zdigits2_succ a : 0 <= a → Zdigits2 (a + 1) <= Zdigits2 a + 1.
Proof.
  intros Ha. destruct a as [|p|p]; [done| |lia]. change (Zdigits2 (Z.pos p + 1)) with (Z.pos (digits2_pos (p + 1))).
  cbn [Zdigits2]. rewrite !digits_log2, Pos2Z.inj_add. pose proof (Z.log2_succ_le (Z.pos p)).
  rewrite <-Z.add_1_r in *. lia.
Qed.

Lemma shr_range mrs e n : 0 <= shr_m mrs → 0 <= shr_m (shr mrs e n).1 <= shr_m mrs.
Proof.
  intros H. destruct n as [|p|p]; cbn [shr fst]; [lia| |lia].
  apply (iter_pos_inv (λ r, 0 <= shr_m r <= shr_m mrs)); [|lia]. intros [m r s]. cbn [shr_m shr_1].
  destruct m as [|[q|q|]|q]; cbn [shr_m]; lia.
Qed.

Lemma shr_exp mrs e n : (shr mrs e n).2 = Z.max e (e + n).
Proof. destruct n as [|p|p]; cbn [shr snd]; lia. Qed.

Lemma shr_fexp_bounds m e l D E :
  0 <= m → Zdigits2 m <= D → e <= E → -1074 <= E →
  let '(mrs, e') := shr_fexp 53 1024 m e l in
  0 <= shr_m mrs <= m ∧ e' <= Z.max E (D + E - 53).
Proof.
  intros Hm HD HE Hmin. unfold shr_fexp. set (n := fexp _ _ _ - e).
  pose proof (shr_range (shr_record_of_loc m l) e n) as Hr. pose proof (shr_exp (shr_record_of_loc m l) e n) as He.
  destruct (shr _ _ _) as [mrs e']. cbn [fst snd] in *.
  assert (shr_m (shr_record_of_loc m l) = m) as Hm' by (by destruct l as [|[]]). rewrite Hm' in Hr.
  split; [by apply Hr|]. subst e' n. unfold fexp, emin. lia.
Qed.

Lemma round_even_range m l : 0 <= m → m <= round_nearest_even m l <= m + 1.
Proof. intros Hm. destruct l as [|[]]; cbn; try case_match; lia. Qed.

(** Rounding a non-negative mantissa of at most [D] digits at an exponent of at
    most [E] yields a number of the given sign; it is finite when the exponents
    stay in range. *)
Lemma binary_round_aux_sign sx m e l :
  0 <= m →
  match binary_round_aux 53 1024 sx m e l with
  | S754_zero s | S754_infinity s | S754_finite s _ _ => s = sx
  | S754_nan => False
  end.
Proof.
  intros Hm. unfold binary_round_aux.
  pose proof (shr_fexp_bounds m e l (Zdigits2 m) (Z.max e (-1074)) Hm ltac:(lia) ltac:(lia) ltac:(lia)) as H1.
  destruct (shr_fexp _ _ m e l) as [mrs e1]. destruct H1 as [H1 _].
  pose proof (round_even_range (shr_m mrs) (loc_of_shr_record mrs) ltac:(lia)) as Hr.
  set (m1 := round_nearest_even _ _) in *.
  pose proof (shr_fexp_bounds m1 e1 loc_Exact (Zdigits2 m1) (Z.max e1 (-1074)) ltac:(lia) ltac:(lia) ltac:(lia) ltac:(lia)) as H2.
  destruct (shr_fexp _ _ m1 e1 loc_Exact) as [mrs2 e2]. destruct H2 as [H2 _].
  destruct (shr_m mrs2); [done| |lia]. by destruct (_ <=? _).
Qed.

Lemma binary_round_aux_finite sx m e l D E :
  0 <= m → Zdigits2 m <= D → e <= E → -1074 <= E → 0 <= D →
  Z.max (Z.max E (D + E - 53)) (D + 1 + Z.max E (D + E - 53) - 53) <= 971 →
  match binary_round_aux 53 1024 sx m e l with
  | S754_zero s => s = sx
  | S754_finite s m' e' => s = sx ∧ Zdigits2 (Z.pos m') <= D + 1 ∧
      e' <= Z.max (Z.max E (D + E - 53)) (D + 1 + Z.max E (D + E - 53) - 53)
  | _ => False
  end.
Proof.
  intros Hm HD HE Hmin HD0 Hmax. unfold binary_round_aux.
  pose proof (shr_fexp_bounds m e l D E Hm HD HE Hmin) as H1.
  destruct (shr_fexp _ _ m e l) as [mrs e1]. destruct H1 as [H1 He1].
  pose proof (round_even_range (shr_m mrs) (loc_of_shr_record mrs) ltac:(lia)) as Hr.
  set (m1 := round_nearest_even _ _) in *.
  assert (Zdigits2 m1 <= D + 1) as HD1.
  { pose proof (Zdigits2_le m1 (m + 1) ltac:(lia)). pose proof (Zdigits2_succ m Hm). lia. }
  pose proof (shr_fexp_bounds m1 e1 loc_Exact (D + 1) (Z.max E (D + E - 53)) ltac:(lia) HD1 He1 ltac:(lia)) as H2.
  destruct (shr_fexp _ _ m1 e1 loc_Exact) as [mrs2 e2]. destruct H2 as [H2 He2].
  destruct (shr_m mrs2) as [|q|q]; [done| |lia].
  replace (e2 <=? 1024 - 53) with true by lia. split_and!; [done| |lia].
  pose proof (Zdigits2_le (Z.pos q) m1 ltac:(lia)). lia.
Qed.

(** ** Conversions and products *)

Lemma digits2_iter_xO m k : Z.pos (digits2_pos (Pos.iter xO m k)) = Z.pos (digits2_pos m) + Z.pos k.
Proof.
  revert k. induction k as [|k IH] using Pos.peano_ind; [cbn; lia|].
  rewrite Pos.iter_succ. cbn [digits2_pos]. lia.
Qed.

Lemma f_of_Z_pos z :
  0 < z < 2 ^ 53 →
  match f_of_Z z with
  | S754_zero s => s = false
  | S754_finite s m e => s = false ∧ Zdigits2 (Z.pos m) <= 54 ∧ e <= 1
  | _ => False
  end.
Proof.
  intros Hz. destruct z as [|p|p]; [lia| |lia]. unfold f_of_Z. cbn [binary_normalize]. unfold binary_round.
  assert (Z.pos (digits2_pos p) <= 53) as Hd.
  { rewrite digits_log2. assert (Z.log2 (Z.pos p) < 53); [|lia]. apply Z.log2_lt_pow2; lia. }
  unfold fexp, emin. rewrite Z.add_0_r.
  replace (Z.max (Z.pos (digits2_pos p) - 53) (3 - 1024 - 53)) with (Z.pos (digits2_pos p) - 53) by lia.
  unfold shl_align. rewrite Z.sub_0_r. destruct (Z.pos (digits2_pos p) - 53) as [|k|k] eqn:Ek; [|lia|].
  - pose proof (binary_round_aux_finite false (Z.pos p) 0 loc_Exact 53 0 ltac:(lia) ltac:(cbn; lia) ltac:(lia) ltac:(lia) ltac:(lia) ltac:(lia)) as H.
    by destruct (binary_round_aux _ _ _ _ _ _).
  - pose proof (digits2_iter_xO p k) as Hi.
    pose proof (binary_round_aux_finite false (Z.pos (Pos.iter xO p k)) (Z.neg k) loc_Exact 53 0 ltac:(lia)
      ltac:(cbn [Zdigits2]; lia) ltac:(lia) ltac:(lia) ltac:(lia) ltac:(lia)) as H.
    by destruct (binary_round_aux _ _ _ _ _ _).
Qed.

Lemma Zdigits2_mul p q : Zdigits2 (Z.pos (p * q)) <= Zdigits2 (Z.pos p) + Zdigits2 (Z.pos q).
Proof.
  cbn [Zdigits2]. rewrite !digits_log2, Pos2Z.inj_mul.
  pose proof (Z.log2_mul_above (Z.pos p) (Z.pos q) ltac:(lia) ltac:(lia)). lia.
Qed.

(** A float of the unit interval, zero apart: what [max(0.0, min(1.0, f))]
    yields. *)
Definition unit_float (f : float) : Prop :=
  match f with
  | S754_zero s => s = false
  | S754_finite s m e => s = false ∧ Zdigits2 (Z.pos m) <= 53 ∧ e <= -52
  | _ => False
  end.

Definition f_clamp (f : float) : float := f_max f_zero (f_min f_one f).

Lemma f_clamp_unit f : is_float f → unit_float (f_clamp f).
Proof.
  intros Hf. unfold f_clamp, f_max, f_min.
  destruct f as [s|s| |s m e]; [by destruct s..|done|].
  assert (Zdigits2 (Z.pos m) <= 53) as Hd.
  { unfold is_float in Hf. cbn [valid_binary] in Hf. unfold bounded, canonical_mantissa, fexp, emin in Hf.
    apply andb_prop in Hf as [Hc%Z.eqb_eq _]. cbn [Zdigits2]. lia. }
  destruct (f_lt (S754_finite s m e) f_one) eqn:E1; [|done].
  destruct s; [done|]. cbn. split_and!; [done|exact Hd|].
  unfold f_lt, SFltb, f_one in E1. cbn [SFcompare] in E1. destruct (Z.compare_spec e (-52)); [lia|lia|done].
Qed.

(** [f_clamp f] is zero exactly when [f] is not positive; a NaN counts as
    one. *)
Lemma f_clamp_positive f : f_lt f_zero (f_clamp f) = negb (match f with
  | S754_zero _ | S754_infinity true | S754_finite true _ _ => true | _ => false end).
Proof.
  unfold f_clamp, f_max, f_min. destruct f as [s|[]| |[] m e]; try done.
  by destruct (f_lt (S754_finite false m e) f_one).
Qed.

Lemma f_int_product (n : Z) f :
  0 <= n < 2 ^ 53 → unit_float f → ∃ c, f_int (f_mul (f_of_Z n) f) = Ret c ∧ 0 <= c.
Proof.
  intros Hn Hf. destruct (decide (n = 0)) as [->|Hne].
  { destruct f; cbn in Hf |- *; try done; by exists 0. }
  pose proof (f_of_Z_pos n ltac:(lia)) as Hz.
  destruct (f_of_Z n) as [s|s| |s m e]; try done; destruct f as [s'|s'| |s' m' e']; try done; try (by exists 0).
  destruct Hz as (-> & Hm & He), Hf as (-> & Hm' & He'). unfold f_mul. cbn [SFmul xorb].
  pose proof (Zdigits2_mul m m') as Hmul.
  pose proof (binary_round_aux_finite false (Z.pos (m * m')) (e + e') loc_Exact 107 (-51) ltac:(lia) ltac:(lia) ltac:(lia) ltac:(lia) ltac:(lia) ltac:(lia)) as H.
  destruct (binary_round_aux _ _ _ _ _ _) as [s|s| |s q x]; try done; [by exists 0|].
  destruct H as (-> & _ & _). cbn [f_int]. eexists. split; [reflexivity|].
  case_match; [apply Z.mul_nonneg_nonneg; lia|apply Z.div_pos; lia].
Qed.

Lemma f_clamp_zero f : f_lt f_zero (f_clamp f) = false → f_clamp f = f_zero.
Proof. unfold f_clamp, f_max. by destruct (f_lt f_zero (f_min f_one f)) eqn:E; [rewrite E|]. Qed.

Lemma f_mul_zero n : 0 <= n < 2 ^ 53 → f_int (f_mul (f_of_Z n) f_zero) = Ret 0.
Proof.
  intros Hn. destruct (decide (n = 0)) as [->|Hne]; [done|].
  pose proof (f_of_Z_pos n ltac:(lia)) as Hz. by destruct (f_of_Z n).
Qed.

(** ** Non-negative numbers *)

(** Zero, positive, or plus infinity. *)
Definition f_nonneg (f : float) : Prop :=
  match f with
  | S754_zero _ => True
  | S754_infinity s | S754_finite s _ _ => s = false
  | S754_nan => False
  end.

Definition num_nonneg (n : num) : Prop :=
  match n with NInt z => 0 <= z | NFloat f => f_nonneg f end.

Lemma binary_round_aux_nonneg m e l : 0 <= m → f_nonneg (binary_round_aux 53 1024 false m e l).
Proof. intros Hm. pose proof (binary_round_aux_sign false m e l Hm) as H. by destruct (binary_round_aux _ _ _ _ _ _). Qed.

Lemma binary_normalize_nonneg m e : 0 <= m → f_nonneg (binary_normalize 53 1024 m e false).
Proof.
  intros Hm. destruct m as [|p|p]; [done| |lia]. cbn [binary_normalize]. unfold binary_round.
  destruct (shl_align _ _ _) as [mz ez]. by apply binary_round_aux_nonneg.
Qed.

Lemma f_of_Z_nonneg z : 0 <= z → f_nonneg (f_of_Z z).
Proof. apply binary_normalize_nonneg. Qed.

Lemma num_float_nonneg n : num_nonneg n → f_nonneg (num_float n).
Proof. destruct n as [z|f]; [apply f_of_Z_nonneg|done]. Qed.

Lemma f_add_nonneg f g : f_nonneg f → f_nonneg g → f_nonneg (f_add f g).
Proof.
  unfold f_add. destruct f as [s|s| |s m e], g as [s'|s'| |s' m' e']; cbn [f_nonneg SFadd]; try done;
    intros; subst; try (by repeat case_match); cbn [cond_Zopp]; apply binary_normalize_nonneg; lia.
Qed.

Lemma f_lt_nonneg f g : f_nonneg f → f_lt f g = true → f_nonneg g.
Proof.
  unfold f_lt, SFltb. destruct f as [s|s| |s m e], g as [s'|s'| |s' m' e']; cbn; try done; intros; subst; by destruct s'.
Qed.

(** [max(a, x)] is non-negative when [a] is, whatever [x]. *)
Lemma f_max_nonneg f g : f_nonneg f → f_nonneg (f_max f g).
Proof. intros Hf. unfold f_max. destruct (f_lt f g) eqn:E; [by eapply f_lt_nonneg|done]. Qed.

Lemma num_max_nonneg f g : f_nonneg f → num_nonneg (num_max (NFloat f) (NFloat g)).
Proof. intros Hf. unfold num_max. cbn [num_lt]. destruct (f_lt f g) eqn:E; cbn; [by eapply f_lt_nonneg|done]. Qed.

Lemma num_min_nonneg a b : num_nonneg a → num_nonneg b → num_nonneg (num_min a b).
Proof. unfold num_min. by case_match. Qed.

(** A non-negative number below an integer has an integer part. *)
Lemma num_int_min n z : num_nonneg n → ∃ i, num_int (num_min n (NInt z)) = Ret i.
Proof.
  intros Hn. unfold num_min. destruct (num_lt (NInt z) n) eqn:E; [by exists z|].
  destruct n as [x|f]; [by exists x|]. destruct f as [s|s| |s m e]; cbn in Hn; [by exists 0| |done|].
  - subst s. discriminate E.
  - subst s. cbn [num_int f_int]. eexists. reflexivity.
Qed.

(** ** Exact products

    A natural number below [2 ^ 53] converts exactly, and multiplying it by
    [1.0] leaves it as it is. *)

Lemma shr_fexp_exact m e : 0 <= m → Zdigits2 m = 53 → -1074 <= e →
  shr_fexp 53 1024 m e loc_Exact = ({| shr_m := m; shr_r := false; shr_s := false |}, e).
Proof.
  intros Hm Hd He. unfold shr_fexp, fexp, emin. rewrite Hd.
  replace (Z.max (53 + e - 53) (3 - 1024 - 53) - e) with 0 by lia. done.
Qed.

Lemma round_exact sx q e : Zdigits2 (Z.pos q) = 53 → -1074 <= e <= 971 →
  binary_round_aux 53 1024 sx (Z.pos q) e loc_Exact = S754_finite sx q e.
Proof.
  intros Hd He. unfold binary_round_aux. rewrite shr_fexp_exact by (done || lia).
  cbn [shr_m loc_of_shr_record round_nearest_even]. rewrite shr_fexp_exact by (done || lia). cbn [shr_m].
  by replace (e <=? 1024 - 53) with true by lia.
Qed.

Lemma iter_xO_pow q k : Z.pos (Pos.iter xO q k) = Z.pos q * 2 ^ Z.pos k.
Proof.
  induction k as [|k IH] using Pos.peano_ind; [cbn; lia|].
  rewrite Pos.iter_succ, Pos2Z.inj_succ, Z.pow_succ_r, (Pos2Z.inj_xO (Pos.iter _ _ _)), IH by done. lia.
Qed.

Lemma f_of_Z_exact z :
  0 < z < 2 ^ 53 →
  ∃ q e, f_of_Z z = S754_finite false q e ∧ Zdigits2 (Z.pos q) = 53 ∧ -52 <= e <= 0 ∧ Z.pos q = z * 2 ^ (- e).
Proof.
  intros Hz. destruct z as [|p|p]; [lia| |lia]. unfold f_of_Z. cbn [binary_normalize]. unfold binary_round.
  assert (1 <= Z.pos (digits2_pos p) <= 53) as Hd.
  { rewrite digits_log2. pose proof (Z.log2_nonneg (Z.pos p)).
    assert (Z.log2 (Z.pos p) < 53); [|lia]. apply Z.log2_lt_pow2; lia. }
  unfold fexp, emin. rewrite Z.add_0_r.
  replace (Z.max (Z.pos (digits2_pos p) - 53) (3 - 1024 - 53)) with (Z.pos (digits2_pos p) - 53) by lia.
  unfold shl_align. rewrite Z.sub_0_r. destruct (Z.pos (digits2_pos p) - 53) as [|k|k] eqn:Ek; [|lia|].
  - exists p, 0. rewrite round_exact by (cbn [Zdigits2]; lia). cbn [Zdigits2]. split_and!; [done|lia|lia|lia|lia].
  - pose proof (digits2_iter_xO p k) as Hi. exists (Pos.iter xO p k), (Z.neg k).
    rewrite round_exact by (cbn [Zdigits2]; lia). cbn [Zdigits2]. rewrite iter_xO_pow.
    split_and!; [done|lia|lia|lia|done].
Qed.

(** Shifting out zeros loses nothing. *)
Lemma shr_zeros q k e :
  shr {| shr_m := Z.pos (Pos.iter xO q k); shr_r := false; shr_s := false |} e (Z.pos k)
  = ({| shr_m := Z.pos q; shr_r := false; shr_s := false |}, e + Z.pos k).
Proof.
  cbn [shr]. f_equal. revert q. induction k as [|k IH] using Pos.peano_ind; intros q; [done|].
  rewrite Pos.iter_succ.
  assert (∀ {A} (f : A → A) n x, iter_pos f n x = Pos.iter f x n) as Hit.
  { intros A f n. induction n as [n IHn|n IHn|]; intros x; cbn; rewrite ?IHn; [|done..].
    rewrite <-!Pos.iter_swap. done. }
  rewrite Hit in *. rewrite Pos.iter_succ_r. cbn [shr_1 shr_m shr_r shr_s orb]. rewrite <-Hit. apply IH.
Qed.

Lemma f_mul_one q e :
  Zdigits2 (Z.pos q) = 53 → -52 <= e <= 0 → f_mul (S754_finite false q e) f_one = S754_finite false q e.
Proof.
  intros Hd He. unfold f_mul, f_one. cbn [SFmul xorb].
  replace (q * 4503599627370496)%positive with (Pos.iter xO q 52) by (cbn; lia).
  unfold binary_round_aux, shr_fexp, fexp, emin. cbn [Zdigits2].
  pose proof (digits2_iter_xO q 52) as Hi. cbn [Zdigits2] in Hd.
  replace (Z.max (Z.pos (digits2_pos (Pos.iter xO q 52)) + (e + -52) - 53) (3 - 1024 - 53) - (e + -52)) with 52 by lia.
  cbn [shr_record_of_loc]. rewrite shr_zeros. cbn [shr_m loc_of_shr_record round_nearest_even].
  replace (e + -52 + 52) with e by lia. pose proof (round_exact false q e Hd ltac:(lia)) as Hr.
  unfold binary_round_aux in Hr. rewrite shr_fexp_exact in Hr by (done || lia). exact Hr.
Qed.

Lemma f_int_one n : 0 <= n < 2 ^ 53 → f_int (f_mul (f_of_Z n) f_one) = Ret n.
Proof.
  intros Hn. destruct (decide (n = 0)) as [->|Hne]; [done|].
  destruct (f_of_Z_exact n ltac:(lia)) as (q & e & -> & Hd & He & Hq). rewrite f_mul_one by done. cbn [f_int].
  f_equal. rewrite Hq. destruct (Z.leb_spec 0 e).
  - replace e with 0 by lia. cbn. lia.
  - apply Z.div_mul. apply Z.pow_nonzero; lia.
Qed.

(** ** Integers scaled and divided *)

(** [f * z] converts [z], which raises when it is too large for a float. *)
Definition f_scale (f : float) (z : Z) : py float :=
  match f_of_Z z with S754_infinity _ => Raise OverflowError | g => Ret (f_mul f g) end.

(** [a / b] of non-negative integers: the nearest float to the quotient. *)
Definition int_true_div (a b : Z) : py float :=
  match a, b with
  | _, 0 => Raise ZeroDivisionError
  | Z.pos p, Z.pos q =>
      let '(m, e, l) := SFdiv_core_binary 53 1024 (Z.pos p) 0 (Z.pos q) 0 in
      match binary_round_aux 53 1024 false m e l with
      | S754_infinity _ => Raise OverflowError
      | f => Ret f
      end
  | _, _ => Ret f_zero
  end.
