(* ===== verification/EvictionPolicy.v ===== *)
(** * Eviction policies: the interface, LRU and per-salt LRU

    [lmcache/v1/distributed/eviction.py] (the interface a policy implements) and
    [eviction_policy/{lru,isolated_lru,noop}.py]. A policy is told which keys
    were reserved, created, touched and removed, and is asked for the keys to
    evict. Each method runs under the policy's lock, so it is one step. *)

From stdpp Require Import gmap strings list sorting.
From Stdlib Require Import ZArith Lia Floats.SpecFloat.
From S2P Require Import Prelude PyFloat Keys.

Open Scope Z_scope.
Open Scope py_scope.

Inductive EvictionDestination := DISCARD | L2_CACHE.

#[export] Instance EvictionDestination_eq_dec : EqDecision EvictionDestination.
Proof. solve_decision. Defined.

Record EvictionAction := mkAction { act_destination : EvictionDestination; act_keys : list ObjectKey }.

(** A filter of eligible keys; [None] accepts every key. *)
Abbreviation key_filter := (option (ObjectKey → bool)) (only parsing).

Definition eligible (f : key_filter) (k : ObjectKey) : bool :=
  match f with Some g => g k | None => true end.

(** What the controllers and listeners call. A decision may change the policy's
    state; an adaptive policy computes with floats when keys come back, which
    could raise. *)
Class EvictionPolicy (P : Type) := {
  support_isolation : bool;
  register_eviction_destination : EvictionDestination → P → P;
  on_keys_created : list ObjectKey → P → py P;
  on_keys_reserved : list ObjectKey → P → py P;
  on_keys_touched : list ObjectKey → P → P;
  on_keys_removed : list ObjectKey → P → P;
  get_eviction_actions : float → key_filter → option string → P → py (list EvictionAction * P)
}.

(** ** What the policies share *)

(** How many of [n] keys a ratio asks for: at least one if it is positive. *)
Definition eviction_target (n : nat) (expected_ratio : float) : py Z :=
  let expected_ratio := f_max f_zero (f_min f_one expected_ratio) in
  let! target_count := f_int (f_mul (f_of_Z (Z.of_nat n)) expected_ratio) in
  Ret (if f_lt f_zero expected_ratio && (target_count =? 0) && Nat.ltb 0 n then 1 else target_count).

(** The selection loop: keys in order, skipping those that fail the filter,
    until [target_count] are taken. *)
Fixpoint select_keys (f : key_filter) (target_count : Z) (keys taken : list ObjectKey) : list ObjectKey :=
  match keys with
  | [] => taken
  | k :: keys' =>
      if negb (eligible f k) then select_keys f target_count keys' taken
      else
        let taken := taken ++ [k] in
        if target_count <=? Z.of_nat (length taken) then taken
        else select_keys f target_count keys' taken
  end.

Definition pick_destination (destinations : list EvictionDestination) (dflt : EvictionDestination)
    : EvictionDestination :=
  match destinations with d :: _ => d | [] => dflt end.

Definition register_destination (d : EvictionDestination) (l : list EvictionDestination) : list EvictionDestination :=
  if bool_decide (d ∈ l) then l else l ++ [d].

(** ** LRU *)

Record LRU := mkLRU {
  lru_order : list ObjectKey;              (* OrderedDict keys, oldest first *)
  lru_destinations : list EvictionDestination;
  lru_default : EvictionDestination
}.

Definition lru_init (dflt : EvictionDestination) : LRU := mkLRU [] [] dflt.

Definition with_order (o : list ObjectKey) (p : LRU) : LRU := mkLRU o (lru_destinations p) (lru_default p).

Definition order_created (order : list ObjectKey) (key : ObjectKey) : list ObjectKey :=
  if oset_mem key order then oset_move_to_end key order else oset_set key order.
Definition order_touched (order : list ObjectKey) (key : ObjectKey) : list ObjectKey :=
  if oset_mem key order then oset_move_to_end key order else order.
Definition order_removed (order : list ObjectKey) (key : ObjectKey) : list ObjectKey :=
  if oset_mem key order then oset_del key order else order.

Definition lru_on_keys_created (keys : list ObjectKey) (p : LRU) : LRU :=
  match keys with [] => p | _ => with_order (foldl order_created (lru_order p) (rev keys)) p end.
Definition lru_on_keys_touched (keys : list ObjectKey) (p : LRU) : LRU :=
  match keys with [] => p | _ => with_order (foldl order_touched (lru_order p) (rev keys)) p end.
Definition lru_on_keys_removed (keys : list ObjectKey) (p : LRU) : LRU :=
  match keys with [] => p | _ => with_order (foldl order_removed (lru_order p) keys) p end.

Definition lru_register (d : EvictionDestination) (p : LRU) : LRU :=
  mkLRU (lru_order p) (register_destination d (lru_destinations p)) (lru_default p).

Definition lru_get_eviction_actions (expected_ratio : float) (f : key_filter) (cache_salt : option string) (p : LRU)
    : py (list EvictionAction) :=
  match lru_order p with
  | [] => Ret []
  | _ =>
      let! target_count := eviction_target (length (lru_order p)) expected_ratio in
      if target_count =? 0 then Ret []
      else
        match select_keys f target_count (lru_order p) [] with
        | [] => Ret []
        | keys_to_evict => Ret [mkAction (pick_destination (lru_destinations p) (lru_default p)) keys_to_evict]
        end
  end.

Definition get_num_tracked_keys (p : LRU) : nat := length (lru_order p).

Fixpoint candidates_loop (count : Z) (keys candidates : list ObjectKey) : list ObjectKey :=
  match keys with
  | [] => candidates
  | k :: keys' =>
      let candidates := candidates ++ [k] in
      if count <=? Z.of_nat (length candidates) then candidates else candidates_loop count keys' candidates
  end.
Definition get_eviction_candidates (count : Z) (p : LRU) : list ObjectKey := candidates_loop count (lru_order p) [].

#[export] Instance LRUEvictionPolicy : EvictionPolicy LRU := {|
  support_isolation := false;
  register_eviction_destination := lru_register;
  on_keys_created := λ keys p, Ret (lru_on_keys_created keys p);
  on_keys_reserved := λ keys p, Ret (lru_on_keys_created keys p);
  on_keys_touched := lru_on_keys_touched;
  on_keys_removed := lru_on_keys_removed;
  get_eviction_actions := λ r f salt p, py_bind (lru_get_eviction_actions r f salt p) (λ a, Ret (a, p))
|}.

(** ** IsolatedLRU *)

Record IsolatedLRU := mkIso {
  iso_order : dict string (list ObjectKey);    (* one OrderedDict per cache_salt *)
  iso_destinations : list EvictionDestination;
  iso_default : EvictionDestination
}.

Definition iso_init (dflt : EvictionDestination) : IsolatedLRU := mkIso [] [] dflt.

Definition with_buckets (d : dict string (list ObjectKey)) (p : IsolatedLRU) : IsolatedLRU :=
  mkIso d (iso_destinations p) (iso_default p).

(** A missing bucket is created, and bound to the salt, first. *)
Definition bucket_created (d : dict string (list ObjectKey)) (key : ObjectKey) : dict string (list ObjectKey) :=
  let salt := cache_salt key in
  let order := default [] (dget salt d) in
  dset salt (if oset_mem key order then oset_move_to_end key order else oset_set key order) d.

Definition bucket_touched (d : dict string (list ObjectKey)) (key : ObjectKey) : dict string (list ObjectKey) :=
  let salt := cache_salt key in
  match dget salt d with
  | Some order => if oset_mem key order then dset salt (oset_move_to_end key order) d else d
  | None => d
  end.

Definition bucket_removed (d : dict string (list ObjectKey)) (key : ObjectKey) : dict string (list ObjectKey) :=
  let salt := cache_salt key in
  match dget salt d with
  | None => d
  | Some order =>
      match oset_del key order with
      | [] => ddel salt d
      | order' => dset salt order' d
      end
  end.

Definition iso_on_keys_created (keys : list ObjectKey) (p : IsolatedLRU) : IsolatedLRU :=
  match keys with [] => p | _ => with_buckets (foldl bucket_created (iso_order p) (rev keys)) p end.
Definition iso_on_keys_touched (keys : list ObjectKey) (p : IsolatedLRU) : IsolatedLRU :=
  match keys with [] => p | _ => with_buckets (foldl bucket_touched (iso_order p) (rev keys)) p end.
Definition iso_on_keys_removed (keys : list ObjectKey) (p : IsolatedLRU) : IsolatedLRU :=
  match keys with [] => p | _ => with_buckets (foldl bucket_removed (iso_order p) keys) p end.

Definition iso_register (d : EvictionDestination) (p : IsolatedLRU) : IsolatedLRU :=
  mkIso (iso_order p) (register_destination d (iso_destinations p)) (iso_default p).

Definition iso_get_eviction_actions (expected_ratio : float) (f : key_filter) (cache_salt : option string)
    (p : IsolatedLRU) : py (list EvictionAction) :=
  match cache_salt with
  | None => Raise ValueError
  | Some salt =>
      match default [] (dget salt (iso_order p)) with
      | [] => Ret []
      | pool =>
          let! target_count := eviction_target (length pool) expected_ratio in
          if target_count =? 0 then Ret []
          else
            match select_keys f target_count pool [] with
            | [] => Ret []
            | keys_to_evict => Ret [mkAction (pick_destination (iso_destinations p) (iso_default p)) keys_to_evict]
            end
      end
  end.

Definition iso_get_num_tracked_keys (salt : option string) (p : IsolatedLRU) : Z :=
  match salt with
  | Some salt => Z.of_nat (length (default [] (dget salt (iso_order p))))
  | None => zsum (λ o, Z.of_nat (length o)) (dvalues (iso_order p))
  end.

Definition get_tracked_salts (p : IsolatedLRU) : list string := dkeys (iso_order p).

Definition capture (p : IsolatedLRU) : dict string (list EncodedKey) :=
  map (λ b : string * list ObjectKey, (b.1, map encode_key b.2)) (iso_order p).

(** [OrderedDict((decode_key(e), None) for e in ordered)]. *)
Definition restore_bucket (ordered : list EncodedKey) : py (list ObjectKey) :=
  let! keys := py_map decode_key ordered in
  Ret (foldl (λ order k, oset_set k order) [] keys).

Definition restore (state : dict string (list EncodedKey)) (p : IsolatedLRU) : py IsolatedLRU :=
  let! buckets := py_map (λ b : string * list EncodedKey, py_bind (restore_bucket b.2) (λ order, Ret (b.1, order))) state in
  Ret (with_buckets buckets p).

#[export] Instance IsolatedLRUEvictionPolicy : EvictionPolicy IsolatedLRU := {|
  support_isolation := true;
  register_eviction_destination := iso_register;
  on_keys_created := λ keys p, Ret (iso_on_keys_created keys p);
  on_keys_reserved := λ keys p, Ret (iso_on_keys_created keys p);
  on_keys_touched := iso_on_keys_touched;
  on_keys_removed := iso_on_keys_removed;
  get_eviction_actions := λ r f salt p, py_bind (iso_get_eviction_actions r f salt p) (λ a, Ret (a, p))
|}.

(** ** NoOp *)

#[export] Instance NoOpEvictionPolicy : EvictionPolicy unit := {|
  support_isolation := false;
  register_eviction_destination := λ _ p, p;
  on_keys_created := λ _ p, Ret p;
  on_keys_reserved := λ _ p, Ret p;
  on_keys_touched := λ _ p, p;
  on_keys_removed := λ _ p, p;
  get_eviction_actions := λ _ _ _ p, Ret ([], p)
|}.

(** ** Selection *)

Lemma select_keys_spec f t keys taken :
  Z.of_nat (length taken) < t →
  select_keys f t keys taken = taken ++ take (Z.to_nat t - length taken) (filter (eligible f) keys).
Proof.
  revert taken. induction keys as [|k keys IH]; intros taken Ht; [cbn; by rewrite take_nil, app_nil_r|].
  cbn [select_keys]. rewrite filter_cons. destruct (eligible f k) eqn:E; cbn [negb].
  - rewrite decide_True by done. destruct (Z.leb_spec t (Z.of_nat (length (taken ++ [k])))) as [Hle|Hgt];
      rewrite length_app in *; cbn [length] in *.
    + replace (Z.to_nat t - length taken)%nat with 1%nat by lia. done.
    + rewrite IH by (rewrite length_app; cbn; lia). rewrite length_app. cbn [length].
      replace (Z.to_nat t - length taken)%nat with (S (Z.to_nat t - (length taken + 1)))%nat by lia.
      cbn [take]. by rewrite <-app_assoc.
  - rewrite decide_False by (by intros []). by apply IH.
Qed.

(** A ratio that asks for nothing: zero or negative. *)
Definition not_positive (r : float) : bool :=
  match r with S754_zero _ | S754_infinity true | S754_finite true _ _ => true | _ => false end.

(** The target is a count, and is zero exactly for a ratio that is not
    positive. *)
Lemma eviction_target_spec n r :
  is_float r → (0 < n)%nat → Z.of_nat n < 2 ^ 53 →
  ∃ t, eviction_target n r = Ret t ∧ 0 <= t ∧ (t = 0 ↔ not_positive r = true).
Proof.
  intros Hr Hn0 Hn. unfold eviction_target. change (f_max f_zero (f_min f_one r)) with (f_clamp r).
  pose proof (f_clamp_positive r) as Hp. fold (not_positive r) in Hp. rewrite Hp.
  replace (Nat.ltb 0 n) with true by (symmetry; by apply Nat.ltb_lt).
  destruct (not_positive r) eqn:E; cbn [negb] in *.
  - rewrite f_clamp_zero, f_mul_zero by (done || lia). by exists 0.
  - destruct (f_int_product (Z.of_nat n) (f_clamp r) ltac:(lia) (f_clamp_unit r Hr)) as (c & -> & Hc).
    cbn [py_bind andb]. eexists. split; [reflexivity|]. rewrite andb_true_r.
    destruct (Z.eqb_spec c 0); split; try lia; split; try lia; done.
Qed.

(** The keys a decision evicts. *)
Definition action_keys (l : list EvictionAction) : list ObjectKey := concat (act_keys <$> l).

Lemma decision_keys f t keys d :
  0 < t →
  action_keys (match select_keys f t keys [] with [] => [] | l => [mkAction d l] end)
  = take (Z.to_nat t) (filter (eligible f) keys).
Proof.
  intros Ht. rewrite (select_keys_spec f t keys []) by done. cbn [length app]. rewrite Nat.sub_0_r.
  destruct (take _ _); [done|]. cbn. by rewrite app_nil_r.
Qed.

(** ** LRU order is recency order

    The specification: every key carries the time of its last use. Creating a
    key uses it, touching a tracked key uses it, removing a key forgets it; a
    batch uses its keys from the last to the first. *)
Inductive notice := Created (keys : list ObjectKey) | Touched (keys : list ObjectKey) | Removed (keys : list ObjectKey).

Record stamps := mkStamps { st_now : nat; st_last : ObjectKey → option nat }.

Definition st_use (s : stamps) (k : ObjectKey) : stamps :=
  mkStamps (S (st_now s)) (λ x, if decide (x = k) then Some (st_now s) else st_last s x).
Definition st_touch (s : stamps) (k : ObjectKey) : stamps :=
  match st_last s k with Some _ => st_use s k | None => s end.
Definition st_forget (s : stamps) (k : ObjectKey) : stamps :=
  mkStamps (st_now s) (λ x, if decide (x = k) then None else st_last s x).

Definition st_step (s : stamps) (n : notice) : stamps :=
  match n with
  | Created keys => foldl st_use s (rev keys)
  | Touched keys => foldl st_touch s (rev keys)
  | Removed keys => foldl st_forget s keys
  end.

Definition lru_step (p : LRU) (n : notice) : LRU :=
  match n with
  | Created keys => lru_on_keys_created keys p
  | Touched keys => lru_on_keys_touched keys p
  | Removed keys => lru_on_keys_removed keys p
  end.

Definition iso_step (p : IsolatedLRU) (n : notice) : IsolatedLRU :=
  match n with
  | Created keys => iso_on_keys_created keys p
  | Touched keys => iso_on_keys_touched keys p
  | Removed keys => iso_on_keys_removed keys p
  end.

Definition st_init : stamps := mkStamps 0 (λ _, None).

Definition older (s : stamps) (a b : ObjectKey) : Prop :=
  ∃ i j, st_last s a = Some i ∧ st_last s b = Some j ∧ (i < j)%nat.

(** The order lists the tracked keys, least recently used first. *)
Record recency (order : list ObjectKey) (s : stamps) : Prop := {
  rc_tracked : ∀ k, k ∈ order ↔ is_Some (st_last s k);
  rc_sorted : StronglySorted (older s) order;
  rc_past : ∀ k i, st_last s k = Some i → (i < st_now s)%nat
}.

Lemma sorted_filter_impl {A} (R R' : A → A → Prop) (P : A → Prop) `{∀ x, Decision (P x)} l :
  (∀ x y, P x → P y → R x y → R' x y) → StronglySorted R l → StronglySorted R' (filter P l).
Proof.
  intros HR. induction 1 as [|x l Hl IH Hx]; [constructor|]. rewrite filter_cons. case_decide; [|done].
  constructor; [done|]. rewrite Forall_forall in *. intros y [Hy Hin]%list_elem_of_filter. auto.
Qed.

Lemma oset_del_move order k : order_created order k = oset_del k order ++ [k].
Proof.
  unfold order_created, oset_set. destruct (oset_mem k order) eqn:E; [done|].
  rewrite oset_del_notin; [done|]. by apply oset_mem_false.
Qed.

Lemma recency_use order s k : recency order s → recency (order_created order k) (st_use s k).
Proof.
  intros [Ht Hs Hp]. rewrite oset_del_move. split.
  - intros x. rewrite elem_of_app, elem_of_oset_del, list_elem_of_singleton, Ht. cbn.
    destruct (decide (x = k)); split; naive_solver.
  - apply StronglySorted_app_2.
    + intros x y [Hx Hne]%elem_of_oset_del ->%list_elem_of_singleton. apply Ht in Hx as [i Hi].
      exists i, (st_now s). cbn. rewrite decide_False, decide_True by done. split_and!; [done|done|by eapply Hp].
    + apply (sorted_filter_impl (older s)); [|done]. intros x y Hx Hy (i & j & Hi & Hj & Hij).
      exists i, j. cbn. by rewrite !decide_False.
    + repeat constructor.
  - intros x i. cbn. case_decide; [intros [= <-]; lia|]. intros Hi%Hp. lia.
Qed.

Lemma recency_touch order s k : recency order s → recency (order_touched order k) (st_touch s k).
Proof.
  intros Hr. pose proof (rc_tracked _ _ Hr k) as Hk. unfold order_touched, st_touch.
  destruct (oset_mem k order) eqn:E.
  - apply oset_mem_true in E. destruct (proj1 Hk E) as [i ->].
    pose proof (recency_use order s k Hr) as Hu. unfold order_created in Hu.
    by rewrite (proj2 (oset_mem_true k order) E) in Hu.
  - apply oset_mem_false in E. destruct (st_last s k); [|done]. exfalso. apply E, Hk. by eexists.
Qed.

Lemma recency_forget order s k : recency order s → recency (order_removed order k) (st_forget s k).
Proof.
  intros [Ht Hs Hp]. assert (order_removed order k = oset_del k order) as ->.
  { unfold order_removed. destruct (oset_mem k order) eqn:E; [done|]. by rewrite oset_del_notin by (by apply oset_mem_false). }
  split.
  - intros x. rewrite elem_of_oset_del, Ht. cbn. case_decide; [|tauto]. split; [by intros []|intros [? [=]]].
  - apply (sorted_filter_impl (older s)); [|done]. intros x y Hx Hy (i & j & Hi & Hj & Hij).
    exists i, j. cbn. by rewrite !decide_False.
  - intros x i. cbn. case_decide; [done|]. apply Hp.
Qed.

Lemma foldl_sim {A S T} (R : S → T → Prop) (f : S → A → S) (g : T → A → T) l s t :
  (∀ s t x, R s t → R (f s x) (g t x)) → R s t → R (foldl f s l) (foldl g t l).
Proof. intros Hfg. revert s t. induction l as [|x l IH]; intros s t Hst; cbn; auto. Qed.

Lemma recency_step p s n : recency (lru_order p) s → recency (lru_order (lru_step p n)) (st_step s n).
Proof.
  intros Hr. destruct n as [keys|keys|keys]; destruct keys as [|k keys]; try done;
    (eapply (foldl_sim recency); [|done]); intros; auto using recency_use, recency_touch, recency_forget.
Qed.

Lemma recency_history ns p s :
  recency (lru_order p) s → recency (lru_order (foldl lru_step p ns)) (foldl st_step s ns).
Proof.
  intros Hr. apply (foldl_sim (λ p s, recency (lru_order p) s)); [|done]. intros p' s' n. apply recency_step.
Qed.

Lemma recency_init : recency [] st_init.
Proof. split; [|constructor|done]. intros k. split; [by intros ?%not_elem_of_nil|by intros []]. Qed.

Lemma lru_decision p r f salt :
  is_float r → Z.of_nat (length (lru_order p)) < 2 ^ 53 →
  ∃ acts (t : nat), lru_get_eviction_actions r f salt p = Ret acts ∧
    action_keys acts = take t (filter (eligible f) (lru_order p)) ∧
    (lru_order p ≠ [] → eviction_target (length (lru_order p)) r = Ret (Z.of_nat t) ∧ (t = 0%nat ↔ not_positive r = true)) ∧
    Forall (λ a, act_destination a = pick_destination (lru_destinations p) (lru_default p)) acts.
Proof.
  intros Hr Hlen. unfold lru_get_eviction_actions. destruct (lru_order p) as [|k0 order] eqn:Eo.
  { exists [], 0%nat. by split_and!. }
  destruct (eviction_target_spec (length (k0 :: order)) r Hr ltac:(cbn; lia) Hlen) as (t & -> & Ht & Hz).
  cbn [py_bind]. destruct (Z.eqb_spec t 0) as [E|E].
  { exists [], 0%nat. split_and!; try done. intros _. rewrite <-Hz. by subst t. }
  eexists (match select_keys f t (k0 :: order) [] with [] => [] | l => [mkAction (pick_destination (lru_destinations p) (lru_default p)) l] end), (Z.to_nat t).
  split; [by destruct (select_keys _ _ _ _)|]. split; [apply decision_keys; lia|].
  split; [intros _; rewrite <-Hz, Z2Nat.id by done; split; [done|lia]|]. destruct (select_keys _ _ _ _); by repeat constructor.
Qed.

(** C36: the LRU policy evicts the least recently used eligible keys. After any
    history of notifications its decision is the first [t] eligible keys in
    order of last use - [t] zero only for a ratio that is not positive - so
    every victim is tracked and eligible, and was last used before every
    eligible key it spares. *)
Theorem lru_victims_least_recent ns dflt r f salt :
  let p := foldl lru_step (lru_init dflt) ns in
  let s := foldl st_step st_init ns in
  is_float r → Z.of_nat (length (lru_order p)) < 2 ^ 53 →
  ∃ acts (t : nat), lru_get_eviction_actions r f salt p = Ret acts ∧
    action_keys acts = take t (filter (eligible f) (lru_order p)) ∧
    (lru_order p ≠ [] → t = 0%nat ↔ not_positive r = true) ∧
    (∀ v, v ∈ action_keys acts → is_Some (st_last s v) ∧ eligible f v = true) ∧
    (∀ v k, v ∈ action_keys acts → is_Some (st_last s k) → eligible f k = true → k ∉ action_keys acts → older s v k).
Proof.
  intros p s Hr Hlen. destruct (lru_decision p r f salt Hr Hlen) as (acts & t & E & Hk & Ht & _).
  pose proof (recency_history ns (lru_init dflt) st_init recency_init) as [Htr Hs _]. fold p s in Htr, Hs.
  exists acts, t. split; [exact E|]. split; [exact Hk|]. split; [intros Hne; apply (Ht Hne)|]. rewrite Hk.
  assert (∀ x, x ∈ filter (eligible f) (lru_order p) ↔ is_Some (st_last s x) ∧ eligible f x = true) as Hin.
  { intros x. rewrite list_elem_of_filter, Htr, Is_true_true. tauto. }
  split.
  - intros v Hv. apply Hin. by eapply subseteq_take.
  - intros v k Hv Htk Hek Hnk. assert (k ∈ drop t (filter (eligible f) (lru_order p))) as Hd.
    { assert (k ∈ filter (eligible f) (lru_order p)) as Hkf by (by apply Hin).
      rewrite <-(take_drop t (filter _ _)) in Hkf. apply elem_of_app in Hkf as [|]; done. }
    eapply (StronglySorted_app_1_elem_of (older s) (take t (filter (eligible f) (lru_order p))));
      [|exact Hv|exact Hd]. rewrite take_drop. by eapply sorted_filter_impl.
Qed.

(** ** IsolatedLRU is one LRU per salt *)

Definition of_salt (salt : string) (keys : list ObjectKey) : list ObjectKey :=
  filter (λ k, cache_salt k = salt) keys.

Definition notice_of (salt : string) (n : notice) : notice :=
  match n with
  | Created keys => Created (of_salt salt keys)
  | Touched keys => Touched (of_salt salt keys)
  | Removed keys => Removed (of_salt salt keys)
  end.

Definition bucket (salt : string) (d : dict string (list ObjectKey)) : list ObjectKey := default [] (dget salt d).

Lemma of_salt_rev salt keys : of_salt salt (rev keys) = rev (of_salt salt keys).
Proof.
  unfold of_salt. induction keys as [|k keys IH]; [done|]. cbn [rev]. rewrite filter_app, IH, !filter_cons.
  case_decide; cbn [rev]; [done|by rewrite filter_nil, app_nil_r].
Qed.

Lemma bucket_created_spec salt d k :
  bucket salt (bucket_created d k) = if decide (cache_salt k = salt) then order_created (bucket salt d) k else bucket salt d.
Proof. unfold bucket, bucket_created. rewrite dget_dset. case_decide; subst; done. Qed.

Lemma bucket_touched_spec salt d k :
  bucket salt (bucket_touched d k) = if decide (cache_salt k = salt) then order_touched (bucket salt d) k else bucket salt d.
Proof.
  unfold bucket, bucket_touched, order_touched. destruct (dget (cache_salt k) d) as [order|] eqn:E.
  - destruct (oset_mem k order) eqn:Em; [rewrite dget_dset|]; case_decide; subst; rewrite ?E; cbn [default from_option id]; by rewrite ?Em.
  - case_decide; subst; by rewrite ?E.
Qed.

Lemma order_removed_del order k : order_removed order k = oset_del k order.
Proof.
  unfold order_removed. destruct (oset_mem k order) eqn:E; [done|]. by rewrite oset_del_notin by (by apply oset_mem_false).
Qed.

Lemma bucket_removed_spec salt d k :
  bucket salt (bucket_removed d k) = if decide (cache_salt k = salt) then order_removed (bucket salt d) k else bucket salt d.
Proof.
  unfold bucket, bucket_removed. rewrite order_removed_del. destruct (dget (cache_salt k) d) as [order|] eqn:E.
  - destruct (oset_del k order) eqn:Ed; rewrite ?dget_ddel, ?dget_dset; case_decide; subst; rewrite ?E; cbn [default from_option id]; by rewrite ?Ed.
  - case_decide; subst; by rewrite ?E.
Qed.

(** A step on one key that only concerns its salt's bucket. *)
Lemma bucket_foldl (step : dict string (list ObjectKey) → ObjectKey → dict string (list ObjectKey))
    (one : list ObjectKey → ObjectKey → list ObjectKey) salt :
  (∀ d k, bucket salt (step d k) = if decide (cache_salt k = salt) then one (bucket salt d) k else bucket salt d) →
  ∀ keys d, bucket salt (foldl step d keys) = foldl one (bucket salt d) (of_salt salt keys).
Proof.
  intros Hstep keys. induction keys as [|k keys IH]; intros d; [done|]. cbn [foldl]. rewrite IH, Hstep.
  unfold of_salt. rewrite filter_cons. by case_decide.
Qed.

Lemma iso_step_bucket salt (p : IsolatedLRU) (q : LRU) n :
  bucket salt (iso_order p) = lru_order q →
  bucket salt (iso_order (iso_step p n)) = lru_order (lru_step q (notice_of salt n)).
Proof.
  intros Hq. destruct n as [keys|keys|keys]; cbn [iso_step lru_step notice_of].
  - assert (lru_order (lru_on_keys_created (of_salt salt keys) q) = foldl order_created (lru_order q) (rev (of_salt salt keys))) as ->
      by (by destruct (of_salt salt keys)).
    rewrite <-Hq, <-of_salt_rev, <-(bucket_foldl bucket_created) by apply bucket_created_spec. by destruct keys.
  - assert (lru_order (lru_on_keys_touched (of_salt salt keys) q) = foldl order_touched (lru_order q) (rev (of_salt salt keys))) as ->
      by (by destruct (of_salt salt keys)).
    rewrite <-Hq, <-of_salt_rev, <-(bucket_foldl bucket_touched) by apply bucket_touched_spec. by destruct keys.
  - assert (lru_order (lru_on_keys_removed (of_salt salt keys) q) = foldl order_removed (lru_order q) (of_salt salt keys)) as ->
      by (by destruct (of_salt salt keys)).
    rewrite <-Hq, <-(bucket_foldl bucket_removed) by apply bucket_removed_spec. by destruct keys.
Qed.

Lemma iso_step_destinations (p : IsolatedLRU) n :
  iso_destinations (iso_step p n) = iso_destinations p ∧ iso_default (iso_step p n) = iso_default p.
Proof. destruct n as [[|??]|[|??]|[|??]]; done. Qed.

Lemma lru_step_destinations (p : LRU) n :
  lru_destinations (lru_step p n) = lru_destinations p ∧ lru_default (lru_step p n) = lru_default p.
Proof. destruct n as [[|??]|[|??]|[|??]]; done. Qed.

(** The IsolatedLRU policy and the LRU policy of one of its salts. *)
Record isolates (salt : string) (p : IsolatedLRU) (q : LRU) : Prop := {
  is_bucket : bucket salt (iso_order p) = lru_order q;
  is_dests : iso_destinations p = lru_destinations q;
  is_default : iso_default p = lru_default q
}.

Lemma isolates_history salt ns p q :
  isolates salt p q → isolates salt (foldl iso_step p ns) (foldl lru_step q (notice_of salt <$> ns)).
Proof.
  revert p q. induction ns as [|n ns IH]; intros p q Hpq; [done|]. cbn. apply IH. destruct Hpq as [H1 H2 H3].
  destruct (iso_step_destinations p n) as [E1 E2], (lru_step_destinations q (notice_of salt n)) as [E3 E4].
  split; [by apply iso_step_bucket|congruence|congruence].
Qed.

(** Salts are isolated: after any history of notifications, the decision of
    the IsolatedLRU policy for a salt is the decision of a plain LRU policy that
    was only told about the keys of that salt - no other salt's keys are chosen,
    or change what is chosen - and a decision without a salt is refused. *)
Theorem isolated_lru_is_lru_per_salt ns dflt r f salt :
  iso_get_eviction_actions r f (Some salt) (foldl iso_step (iso_init dflt) ns)
  = lru_get_eviction_actions r f None (foldl lru_step (lru_init dflt) (notice_of salt <$> ns)) ∧
  iso_get_eviction_actions r f None (foldl iso_step (iso_init dflt) ns) = Raise ValueError.
Proof.
  split; [|done]. destruct (isolates_history salt ns (iso_init dflt) (lru_init dflt) ltac:(by split)) as [H1 H2 H3].
  unfold iso_get_eviction_actions, lru_get_eviction_actions. unfold bucket in H1. rewrite H1, H2, H3.
  by destruct (lru_order _).
Qed.

(** ** Checkpoints *)

(** Buckets hold distinct keys of their own salt, and none is empty. *)
Record iso_wf (d : dict string (list ObjectKey)) : Prop := {
  iw_salts : NoDup (dkeys d);
  iw_bucket : ∀ salt order, (salt, order) ∈ d →
    order ≠ [] ∧ NoDup order ∧ ∀ k, k ∈ order → cache_salt k = salt
}.

Lemma iso_wf_dset d salt order :
  iso_wf d → order ≠ [] → NoDup order → (∀ k, k ∈ order → cache_salt k = salt) → iso_wf (dset salt order d).
Proof.
  intros [Hs Hb] Hne Hnd Hk. split; [by apply NoDup_dset|]. intros salt' order' Hin.
  apply elem_dget in Hin; [|by apply NoDup_dset]. rewrite dget_dset in Hin. case_decide; simplify_eq; [done|].
  apply Hb. by apply dget_Some_elem.
Qed.

Lemma iso_wf_ddel d salt : iso_wf d → iso_wf (ddel salt d).
Proof.
  intros [Hs Hb]. split; [by apply NoDup_ddel|]. intros salt' order' Hin. apply Hb.
  unfold ddel in Hin. by apply list_elem_of_filter in Hin as [_ Hin].
Qed.

Lemma iso_wf_bucket d salt : iso_wf d → NoDup (bucket salt d) ∧ ∀ k, k ∈ bucket salt d → cache_salt k = salt.
Proof.
  intros [Hs Hb]. unfold bucket. destruct (dget salt d) as [order|] eqn:E; cbn.
  - destruct (Hb salt order) as (_ & ? & ?); [by apply dget_Some_elem|done].
  - split; [constructor|]. by intros k ?%not_elem_of_nil.
Qed.

Lemma iso_wf_created d k : iso_wf d → iso_wf (bucket_created d k).
Proof.
  intros Hwf. destruct (iso_wf_bucket d (cache_salt k) Hwf) as [Hnd Hk].
  change (bucket_created d k) with (dset (cache_salt k) (order_created (bucket (cache_salt k) d) k) d).
  rewrite oset_del_move. apply iso_wf_dset; [done|by destruct (oset_del _ _)| |].
  - change (_ ++ [k]) with (oset_move_to_end k (bucket (cache_salt k) d)). by apply NoDup_oset_move.
  - intros x [[Hx _]%elem_of_oset_del| ->%list_elem_of_singleton]%elem_of_app; [by apply Hk|done].
Qed.

Lemma iso_wf_touched d k : iso_wf d → iso_wf (bucket_touched d k).
Proof.
  intros Hwf. unfold bucket_touched. destruct (dget (cache_salt k) d) as [order|] eqn:E; [|done].
  destruct (oset_mem k order); [|done]. apply dget_Some_elem in E. destruct (iw_bucket _ Hwf _ _ E) as (_ & Hnd & Hk).
  apply iso_wf_dset; [done| |by apply NoDup_oset_move|].
  - unfold oset_move_to_end. by destruct (oset_del k order).
  - intros x [Hx| ->]%elem_of_oset_move; [by apply Hk|done].
Qed.

Lemma iso_wf_removed d k : iso_wf d → iso_wf (bucket_removed d k).
Proof.
  intros Hwf. unfold bucket_removed. destruct (dget (cache_salt k) d) as [order|] eqn:E; [|done].
  apply dget_Some_elem in E. destruct (iw_bucket _ Hwf _ _ E) as (_ & Hnd & Hk).
  destruct (oset_del k order) eqn:Ed; [by apply iso_wf_ddel|]. rewrite <-Ed.
  apply iso_wf_dset; [done|by rewrite Ed|by apply NoDup_oset_del|].
  intros x [Hx _]%elem_of_oset_del. by apply Hk.
Qed.

Lemma iso_wf_step (p : IsolatedLRU) n : iso_wf (iso_order p) → iso_wf (iso_order (iso_step p n)).
Proof.
  intros Hwf. destruct n as [keys|keys|keys]; destruct keys as [|k keys]; try done;
    (apply (foldl_inv iso_wf); [done|]); intros; auto using iso_wf_created, iso_wf_touched, iso_wf_removed.
Qed.

Lemma iso_wf_history ns dflt : iso_wf (iso_order (foldl iso_step (iso_init dflt) ns)).
Proof.
  apply (foldl_inv (λ p, iso_wf (iso_order p))); [split; [constructor|by intros ?? ?%not_elem_of_nil]|].
  intros p n _. apply iso_wf_step.
Qed.

(** Loading keys into a fresh [OrderedDict] keeps the first of each. *)
Lemma foldl_set_nodup (l acc : list ObjectKey) : NoDup (acc ++ l) → foldl (λ order k, oset_set k order) acc l = acc ++ l.
Proof.
  revert acc. induction l as [|k l IH]; intros acc Hnd; cbn; [by rewrite app_nil_r|].
  assert (oset_set k acc = acc ++ [k]) as ->.
  { unfold oset_set. rewrite (proj2 (oset_mem_false k acc)); [done|]. apply NoDup_app in Hnd as (_ & Hd & _).
    intros Hin. apply (Hd k Hin). by left. }
  rewrite IH; rewrite <-(assoc_L (++)); [done|exact Hnd].
Qed.

Lemma elem_foldl_set x (l acc : list ObjectKey) : x ∈ foldl (λ order k, oset_set k order) acc l ↔ x ∈ acc ∨ x ∈ l.
Proof.
  revert acc. induction l as [|k l IH]; intros acc; cbn; [set_solver|].
  rewrite IH, elem_of_oset_set, elem_of_cons. tauto.
Qed.

Lemma restore_bucket_captured order :
  Forall valid_key order →
  restore_bucket (map encode_key order) = Ret (foldl (λ o k, oset_set k o) [] (map untagged order)).
Proof.
  intros Hv. unfold restore_bucket.
  assert (py_map decode_key (map encode_key order) = Ret (map untagged order)) as ->; [|done].
  induction Hv as [|k order Hk _ IH]; [done|]. cbn [map py_map]. by rewrite decode_encode_key, IH.
Qed.

Lemma restore_capture_buckets p q :
  (∀ b, b ∈ iso_order p → Forall valid_key b.2) →
  restore (capture p) q
  = Ret (with_buckets (map (λ b, (b.1, foldl (λ o k, oset_set k o) [] (map untagged b.2))) (iso_order p)) q).
Proof.
  intros Hv. unfold restore, capture.
  assert (∀ d : dict string (list ObjectKey), (∀ b, b ∈ d → Forall valid_key b.2) →
    py_map (λ b : string * list EncodedKey, py_bind (restore_bucket b.2) (λ order, Ret (b.1, order)))
      (map (λ b : string * list ObjectKey, (b.1, map encode_key b.2)) d)
    = Ret (map (λ b, (b.1, foldl (λ o k, oset_set k o) [] (map untagged b.2))) d)) as Hd; [|by rewrite Hd].
  induction d as [|b d IH]; intros Hb; [done|]. cbn [map py_map fst snd].
  rewrite restore_bucket_captured by (apply Hb; left). cbn [py_bind]. rewrite IH; [done|].
  intros b' Hin. apply Hb. by right.
Qed.

(** A checkpoint of the IsolatedLRU ordering restores it exactly when no
    tracked key has identity tags; keys that differ only in their tags are
    merged otherwise. *)
Theorem isolated_checkpoint_iff ns dflt :
  let p := foldl iso_step (iso_init dflt) ns in
  (∀ salt order k, (salt, order) ∈ iso_order p → k ∈ order → valid_key k) →
  restore (capture p) p = Ret p ↔
  ∀ salt order k, (salt, order) ∈ iso_order p → k ∈ order → tags k = ∅.
Proof.
  intros p Hv. pose proof (iso_wf_history ns dflt) as Hwf. fold p in Hwf.
  rewrite restore_capture_buckets.
  2:{ intros [salt order] Hin. apply Forall_forall. intros k Hk. by eapply Hv. }
  split.
  - intros E salt order k Hin Hk. injection E as E.
    assert (iso_order p = map (λ b, (b.1, foldl (λ o k, oset_set k o) [] (map untagged b.2))) (iso_order p)) as Eo
      by (by rewrite <-E at 1).
    apply list_elem_of_lookup in Hin as [i Hi]. pose proof Hi as Hi'. rewrite Eo in Hi'.
    apply list_lookup_fmap_Some in Hi' as ([salt' order'] & Eb & Hi2).
    rewrite Hi in Hi2. injection Hi2 as <- <-. cbn in Eb. injection Eb as Eord. rewrite Eord in Hk. apply elem_foldl_set in Hk as [Hk|Hk].
    + by apply not_elem_of_nil in Hk.
    + apply list_elem_of_In, in_map_iff in Hk as (k' & <- & _). done.
  - intros Ht. f_equal. destruct p as [d dests dft]. unfold with_buckets. cbn in *. f_equal.
    rewrite <-(map_id d) at 2. apply map_ext_in. intros [salt order] Hin%list_elem_of_In. cbn. f_equal.
    destruct (iw_bucket _ Hwf salt order Hin) as (_ & Hnd & _).
    assert (map untagged order = order) as ->.
    { rewrite <-(map_id order) at 2. apply map_ext_in. intros k Hk%list_elem_of_In. apply untagged_id. by eapply Ht. }
    by apply (foldl_set_nodup order []).
Qed.

(** ** Witnesses *)

(** One half, and a second key under the same salt, without tags. *)
Definition f_half : float := S754_finite false 4503599627370496 (-53).
Definition demo_key_b : ObjectKey := untagged demo_key.
Definition demo_notices : list notice := [Created [demo_key; demo_key_b]; Touched [demo_key]].

Lemma lru_victims_least_recent_witness :
  ∃ acts, lru_get_eviction_actions f_half None None (foldl lru_step (lru_init DISCARD) demo_notices) = Ret acts ∧
    action_keys acts = [demo_key_b] ∧ older (foldl st_step st_init demo_notices) demo_key_b demo_key.
Proof.
  destruct (lru_victims_least_recent demo_notices DISCARD f_half None None ltac:(reflexivity) ltac:(vm_compute; reflexivity))
    as (acts & t & E & _ & _ & _ & Hold).
  exists acts. split; [exact E|].
  assert (action_keys acts = [demo_key_b]) as Hk by (vm_compute in E; injection E as <-; reflexivity).
  split; [exact Hk|]. rewrite Hk in Hold. apply Hold; [left|eexists; vm_compute; reflexivity|reflexivity|].
  intros Hin%list_elem_of_singleton. discriminate Hin.
Defined.

Lemma isolated_checkpoint_iff_witness :
  restore (capture (foldl iso_step (iso_init DISCARD) [Created [demo_key_b]])) (foldl iso_step (iso_init DISCARD) [Created [demo_key_b]])
  = Ret (foldl iso_step (iso_init DISCARD) [Created [demo_key_b]]).
Proof.
  apply (isolated_checkpoint_iff [Created [demo_key_b]] DISCARD).
  - intros salt order k [= -> ->]%list_elem_of_singleton ->%list_elem_of_singleton. vm_compute. repeat split; try discriminate; lia.
  - intros salt order k [= -> ->]%list_elem_of_singleton ->%list_elem_of_singleton. reflexivity.
Defined.
