(* ===== verification/ARC.v ===== *)
(** * The adaptive replacement policy

    [lmcache/v1/distributed/eviction_policy/arc.py]: resident keys are split
    between [t1] (seen once) and [t2] (seen again); [b1] and [b2] remember keys
    evicted from them, and a key that comes back from there moves the target
    size of [t1]. The target is a Python number: [min(self._capacity, x)] can
    return the integer capacity, everything else is a float. *)

From stdpp Require Import gmap list strings relations.
From Stdlib Require Import ZArith Lia Floats.SpecFloat.
From S2P Require Import Prelude PyFloat Keys EvictionPolicy.

Open Scope Z_scope.
Open Scope py_scope.

Record ARC := mkARC {
  t1 : list ObjectKey;
  t2 : list ObjectKey;
  b1 : list ObjectKey;
  b2 : list ObjectKey;
  pending_admissions : list ObjectKey;      (* a set *)
  pending_evictions : list ObjectKey;       (* a set *)
  target_t1_size : num;
  capacity : Z;
  arc_destinations : list EvictionDestination;
  arc_default : EvictionDestination
}.

Definition arc_init (dflt : EvictionDestination) : ARC :=
  mkARC [] [] [] [] [] [] (NFloat f_zero) 0 [] dflt.

Definition set_lists (x1 x2 y1 y2 : list ObjectKey) (p : ARC) : ARC :=
  mkARC x1 x2 y1 y2 (pending_admissions p) (pending_evictions p) (target_t1_size p) (capacity p)
    (arc_destinations p) (arc_default p).
Definition set_pending (adm ev : list ObjectKey) (p : ARC) : ARC :=
  mkARC (t1 p) (t2 p) (b1 p) (b2 p) adm ev (target_t1_size p) (capacity p) (arc_destinations p) (arc_default p).
Definition set_target (t : num) (p : ARC) : ARC :=
  mkARC (t1 p) (t2 p) (b1 p) (b2 p) (pending_admissions p) (pending_evictions p) t (capacity p)
    (arc_destinations p) (arc_default p).
Definition set_capacity (c : Z) (p : ARC) : ARC :=
  mkARC (t1 p) (t2 p) (b1 p) (b2 p) (pending_admissions p) (pending_evictions p) (target_t1_size p) c
    (arc_destinations p) (arc_default p).

Definition _resident_size (p : ARC) : Z := Z.of_nat (length (t1 p)) + Z.of_nat (length (t2 p)).
Definition _tracked_size (p : ARC) : Z :=
  _resident_size p + Z.of_nat (length (b1 p)) + Z.of_nat (length (b2 p)).

Definition _remove_key (key : ObjectKey) (p : ARC) : ARC :=
  set_lists (oset_del key (t1 p)) (oset_del key (t2 p)) (oset_del key (b1 p)) (oset_del key (b2 p)) p.

Definition _retire (key : ObjectKey) (p : ARC) : ARC :=
  if oset_mem key (t1 p) then set_lists (oset_del key (t1 p)) (t2 p) (oset_set key (b1 p)) (b2 p) p
  else if oset_mem key (t2 p) then set_lists (t1 p) (oset_del key (t2 p)) (b1 p) (oset_set key (b2 p)) p
  else p.

(** [len(other) / len(hit)]: true division of integers. *)
Definition true_div (a b : nat) : py float :=
  match b with
  | O => Raise ZeroDivisionError
  | _ => Ret (f_div (f_of_Z (Z.of_nat a)) (f_of_Z (Z.of_nat b)))
  end.

Definition _adaptation_delta (hit_list other_list : list ObjectKey) : py float :=
  let! q := true_div (length other_list) (length hit_list) in
  Ret (f_max f_one q).

(** [while len(t1) + len(b1) > capacity and b1: b1.popitem(last=False)]. Each
    turn drops the oldest entry of [b1]. *)
Fixpoint trim_b1 (n1 : Z) (cap : Z) (b1 : list ObjectKey) : list ObjectKey :=
  match b1 with
  | [] => []
  | _ :: b1' => if cap <? n1 + Z.of_nat (length b1) then trim_b1 n1 cap b1' else b1
  end.

(** [while tracked > 2 * capacity: drop the oldest of b2, or of b1 if b2 is
    empty]; the number of turns is bounded by the number of ghosts. *)
Fixpoint trim_ghosts (fuel : nat) (resident cap : Z) (b1 b2 : list ObjectKey) : list ObjectKey * list ObjectKey :=
  match fuel with
  | O => (b1, b2)
  | S fuel' =>
      if 2 * cap <? resident + Z.of_nat (length b1) + Z.of_nat (length b2) then
        match b2, b1 with
        | _ :: b2', _ => trim_ghosts fuel' resident cap b1 b2'
        | [], _ :: b1' => trim_ghosts fuel' resident cap b1' []
        | [], [] => (b1, b2)
        end
      else (b1, b2)
  end.

Definition _trim_ghost_lists (p : ARC) : ARC :=
  if capacity p <=? 0 then p
  else
    let y1 := trim_b1 (Z.of_nat (length (t1 p))) (capacity p) (b1 p) in
    let '(y1, y2) := trim_ghosts (length y1 + length (b2 p)) (_resident_size p) (capacity p) y1 (b2 p) in
    set_lists (t1 p) (t2 p) y1 y2 p.

Definition bump_capacity (p : ARC) : ARC := set_capacity (Z.max (capacity p) (_resident_size p)) p.

(** A hit in [b1] grows the target, a hit in [b2] shrinks it. *)
Definition grow_target (p : ARC) : py ARC :=
  let! d := _adaptation_delta (b1 p) (b2 p) in
  Ret (set_target (num_min (NInt (capacity p)) (NFloat (f_add (num_float (target_t1_size p)) d))) p).
Definition shrink_target (p : ARC) : py ARC :=
  let! d := _adaptation_delta (b2 p) (b1 p) in
  Ret (set_target (num_max (NFloat f_zero) (NFloat (f_sub (num_float (target_t1_size p)) d))) p).

Definition created_one (p : ARC) (key : ObjectKey) : py ARC :=
  let p := set_pending (pending_admissions p) (oset_del key (pending_evictions p)) p in
  if oset_mem key (pending_admissions p) then
    Ret (set_pending (oset_del key (pending_admissions p)) (pending_evictions p) p)
  else
    let! p :=
      if oset_mem key (t1 p) then
        Ret (set_lists (oset_del key (t1 p)) (oset_set key (t2 p)) (b1 p) (b2 p) p)
      else if oset_mem key (t2 p) then
        Ret (set_lists (t1 p) (oset_move_to_end key (t2 p)) (b1 p) (b2 p) p)
      else if oset_mem key (b1 p) then
        let! p := grow_target p in
        Ret (set_lists (t1 p) (oset_set key (t2 p)) (oset_del key (b1 p)) (b2 p) p)
      else if oset_mem key (b2 p) then
        let! p := shrink_target p in
        Ret (set_lists (t1 p) (oset_set key (t2 p)) (b1 p) (oset_del key (b2 p)) p)
      else
        let p := _remove_key key p in
        Ret (set_lists (oset_set key (t1 p)) (t2 p) (b1 p) (b2 p) p) in
    Ret (_trim_ghost_lists (bump_capacity p)).

Definition reserved_one (p : ARC) (key : ObjectKey) : py ARC :=
  let p := set_pending (oset_set key (pending_admissions p)) (oset_del key (pending_evictions p)) p in
  let! p :=
    if oset_mem key (b1 p) then grow_target p
    else if oset_mem key (b2 p) then shrink_target p
    else Ret p in
  let p := _remove_key key p in
  let p := set_lists (oset_set key (t1 p)) (t2 p) (b1 p) (b2 p) p in
  Ret (_trim_ghost_lists (bump_capacity p)).

Definition touched_one (p : ARC) (key : ObjectKey) : ARC :=
  if oset_mem key (t1 p) then set_lists (oset_del key (t1 p)) (oset_set key (t2 p)) (b1 p) (b2 p) p
  else if oset_mem key (t2 p) then set_lists (t1 p) (oset_move_to_end key (t2 p)) (b1 p) (b2 p) p
  else p.

Definition removed_one (p : ARC) (key : ObjectKey) : ARC :=
  let p := if oset_mem key (pending_evictions p) then _retire key p else _remove_key key p in
  set_pending (oset_del key (pending_admissions p)) (oset_del key (pending_evictions p)) p.

(** [for x in l: s = f(s, x)] where [f] can raise. *)
Fixpoint py_foldl {A S} (f : S → A → py S) (s : S) (l : list A) : py S :=
  match l with [] => Ret s | x :: l' => py_bind (f s x) (λ s', py_foldl f s' l') end.

Definition arc_on_keys_created (keys : list ObjectKey) (p : ARC) : py ARC :=
  match keys with [] => Ret p | _ => py_foldl created_one p (rev keys) end.
Definition arc_on_keys_reserved (keys : list ObjectKey) (p : ARC) : py ARC :=
  match keys with [] => Ret p | _ => py_foldl reserved_one p (rev keys) end.
Definition arc_on_keys_touched (keys : list ObjectKey) (p : ARC) : ARC :=
  match keys with [] => p | _ => foldl touched_one p (rev keys) end.
Definition arc_on_keys_removed (keys : list ObjectKey) (p : ARC) : ARC :=
  match keys with [] => p | _ => _trim_ghost_lists (foldl removed_one p keys) end.

Definition arc_register (d : EvictionDestination) (p : ARC) : ARC :=
  mkARC (t1 p) (t2 p) (b1 p) (b2 p) (pending_admissions p) (pending_evictions p) (target_t1_size p) (capacity p)
    (register_destination d (arc_destinations p)) (arc_default p).

(** The iterator is the list of the entries it has not produced yet. *)
Fixpoint _next_eligible (entries selected : list ObjectKey) (f : key_filter) : option ObjectKey * list ObjectKey :=
  match entries with
  | [] => (None, [])
  | key :: entries' =>
      if oset_mem key selected then _next_eligible entries' selected f
      else if negb (eligible f key) then _next_eligible entries' selected f
      else (Some key, entries')
  end.

(** One turn of the victim loop: the candidate, and the two iterators and the
    virtual size of [t1] after it. *)
Definition next_victim (limit : Z) (f : key_filter) (victims : list ObjectKey) (vsize : Z)
    (i1 i2 : list ObjectKey) : option ObjectKey * Z * list ObjectKey * list ObjectKey :=
  let '(c, i1) := if limit <=? vsize then _next_eligible i1 victims f else (None, i1) in
  match c with
  | Some k => (Some k, vsize - 1, i1, i2)
  | None =>
      let '(c, i2) := _next_eligible i2 victims f in
      match c with
      | Some k => (Some k, vsize, i1, i2)
      | None =>
          let '(c, i1) := _next_eligible i1 victims f in
          match c with
          | Some k => (Some k, vsize - 1, i1, i2)
          | None => (None, vsize, i1, i2)
          end
      end
  end.

(** [while len(victims) < target_count]: each turn adds a victim or stops.
    [selected] and [victims] hold the same keys. *)
Fixpoint victim_loop (fuel : nat) (target_count limit : Z) (f : key_filter) (vsize : Z)
    (i1 i2 victims : list ObjectKey) : list ObjectKey :=
  match fuel with
  | O => victims
  | S fuel' =>
      if Z.of_nat (length victims) <? target_count then
        match next_victim limit f victims vsize i1 i2 with
        | (None, _, _, _) => victims
        | (Some k, vsize, i1, i2) => victim_loop fuel' target_count limit f vsize i1 i2 (victims ++ [k])
        end
      else victims
  end.

Definition arc_get_eviction_actions (expected_ratio : float) (f : key_filter) (cache_salt : option string)
    (p : ARC) : py (list EvictionAction * ARC) :=
  let resident_size := _resident_size p in
  if resident_size =? 0 then Ret ([], p)
  else
    let! target_count := eviction_target (Z.to_nat resident_size) expected_ratio in
    if target_count =? 0 then Ret ([], p)
    else
      let p := set_capacity (Z.max (capacity p) resident_size) p in
      let p := set_target (num_min (target_t1_size p) (NInt (capacity p))) p in
      let p := _trim_ghost_lists p in
      let! limit := num_int (target_t1_size p) in
      match victim_loop (length (t1 p) + length (t2 p) + 1) target_count limit f
              (Z.of_nat (length (t1 p))) (t1 p) (t2 p) [] with
      | [] => Ret ([], p)
      | victims =>
          Ret ([mkAction (pick_destination (arc_destinations p) (arc_default p)) victims],
               set_pending (pending_admissions p)
                 (foldl (λ s k, oset_set k s) (pending_evictions p) victims) p)
      end.

#[export] Instance ARCEvictionPolicy : EvictionPolicy ARC := {|
  support_isolation := false;
  register_eviction_destination := arc_register;
  on_keys_created := arc_on_keys_created;
  on_keys_reserved := arc_on_keys_reserved;
  on_keys_touched := arc_on_keys_touched;
  on_keys_removed := arc_on_keys_removed;
  get_eviction_actions := arc_get_eviction_actions
|}.

(** ** The invariant *)

(** The four lists hold distinct keys. *)
Definition lists_ok (x1 x2 y1 y2 : list ObjectKey) : Prop := NoDup (x1 ++ x2 ++ y1 ++ y2).

(** What holds before the ghost lists are trimmed. *)
Record arc_pre (p : ARC) : Prop := {
  ap_lists : lists_ok (t1 p) (t2 p) (b1 p) (b2 p);
  ap_resident : _resident_size p <= capacity p;
  ap_empty : capacity p <= 0 → b1 p = [] ∧ b2 p = [];
  ap_pending : ∀ k, k ∈ pending_admissions p → k ∈ t1 p ∨ k ∈ t2 p;
  ap_target : num_nonneg (target_t1_size p)
}.

Record arc_inv (p : ARC) : Prop := {
  ai_pre : arc_pre p;
  ai_recent : Z.of_nat (length (t1 p)) + Z.of_nat (length (b1 p)) <= capacity p;
  ai_total : _tracked_size p <= 2 * capacity p
}.

Definition resident (p : ARC) (k : ObjectKey) : Prop := k ∈ t1 p ∨ k ∈ t2 p.

Lemma arc_init_inv dflt : arc_inv (arc_init dflt).
Proof.
  split; [|done|done]. split; [constructor|done|done|by intros k ?%not_elem_of_nil|done].
Qed.

Lemma trim_b1_spec n1 cap y :
  n1 <= cap → trim_b1 n1 cap y `suffix_of` y ∧ n1 + Z.of_nat (length (trim_b1 n1 cap y)) <= cap.
Proof.
  intros Hn. induction y as [|k y [IH1 IH2]]; cbn [trim_b1]; [split; [done|cbn; lia]|].
  destruct (Z.ltb_spec cap (n1 + Z.of_nat (length (k :: y)))); [|split; [done|lia]].
  split; [by apply suffix_cons_r|done].
Qed.

Lemma trim_ghosts_spec fuel res cap y1 y2 :
  (length y1 + length y2 ≤ fuel)%nat → res <= 2 * cap →
  let '(z1, z2) := trim_ghosts fuel res cap y1 y2 in
  z1 `suffix_of` y1 ∧ z2 `suffix_of` y2 ∧ res + Z.of_nat (length z1) + Z.of_nat (length z2) <= 2 * cap.
Proof.
  revert y1 y2. induction fuel as [|fuel IH]; intros y1 y2 Hf Hres; cbn [trim_ghosts].
  { split_and!; [done|done|lia]. }
  destruct (Z.ltb_spec (2 * cap) (res + Z.of_nat (length y1) + Z.of_nat (length y2))); [|split_and!; [done|done|lia]].
  destruct y2 as [|k2 y2]; [destruct y1 as [|k1 y1]; [split_and!; [done|done|cbn in *; lia]|]|].
  - specialize (IH y1 []). cbn [length] in *. specialize (IH ltac:(lia) Hres).
    destruct (trim_ghosts _ _ _ _ _) as [z1 z2]. destruct IH as (? & ? & ?). split_and!; [by apply suffix_cons_r|done|done].
  - specialize (IH y1 y2). cbn [length] in *. specialize (IH ltac:(lia) Hres).
    destruct (trim_ghosts _ _ _ _ _) as [z1 z2]. destruct IH as (? & ? & ?). split_and!; [done|by apply suffix_cons_r|done].
Qed.

Lemma suffix_sublist {A} (l l' : list A) : l `suffix_of` l' → l `sublist_of` l'.
Proof. intros [pre ->]. by apply sublist_inserts_l. Qed.

(** Trimming drops ghosts only, and establishes the bounds. *)
Record trimmed (p q : ARC) : Prop := {
  tr_t1 : t1 q = t1 p; tr_t2 : t2 q = t2 p;
  tr_b1 : b1 q `suffix_of` b1 p; tr_b2 : b2 q `suffix_of` b2 p;
  tr_adm : pending_admissions q = pending_admissions p; tr_ev : pending_evictions q = pending_evictions p;
  tr_target : target_t1_size q = target_t1_size p; tr_cap : capacity q = capacity p
}.

Lemma trim_inv p : arc_pre p → arc_inv (_trim_ghost_lists p) ∧ trimmed p (_trim_ghost_lists p).
Proof.
  intros Hp. pose proof Hp as [Hl Hres He Hadm Htgt].
  unfold _trim_ghost_lists, _resident_size in *. destruct (Z.leb_spec (capacity p) 0) as [Hc|Hc].
  { split; [|by split]. destruct (He Hc) as [E1 E2]. split; [done| |]; unfold _tracked_size, _resident_size;
      rewrite ?E1, ?E2; cbn [length]; lia. }
  destruct (trim_b1_spec (Z.of_nat (length (t1 p))) (capacity p) (b1 p) ltac:(lia)) as [S1 L1].
  set (y1 := trim_b1 _ _ _) in *.
  pose proof (trim_ghosts_spec (length y1 + length (b2 p)) (Z.of_nat (length (t1 p)) + Z.of_nat (length (t2 p)))
    (capacity p) y1 (b2 p) ltac:(lia) ltac:(lia)) as H.
  destruct (trim_ghosts _ _ _ _ _) as [z1 z2]. destruct H as (S2 & S3 & L2).
  assert (z1 `suffix_of` b1 p) as S4 by (by etrans). split; [|by split].
  pose proof (suffix_length _ _ S2). split; cbn; [| |unfold _tracked_size, _resident_size; cbn; lia]; [|lia].
  split; cbn; [|done|lia|done|done]. eapply sublist_NoDup; [exact Hl|].
  by repeat apply sublist_app; [..|apply suffix_sublist|apply suffix_sublist].
Qed.

(** ** Adaptation *)

Lemma adaptation_delta_ok hit other :
  hit ≠ [] → ∃ d, _adaptation_delta hit other = Ret d ∧ f_nonneg d.
Proof.
  intros Hne. unfold _adaptation_delta, true_div. destruct hit as [|k hit]; [done|]. cbn [length py_bind].
  eexists. split; [reflexivity|]. by apply f_max_nonneg.
Qed.

Lemma grow_target_ok p k :
  k ∈ b1 p → num_nonneg (target_t1_size p) → 0 <= capacity p →
  ∃ t, grow_target p = Ret (set_target t p) ∧ num_nonneg t.
Proof.
  intros Hk Ht Hc. unfold grow_target.
  destruct (adaptation_delta_ok (b1 p) (b2 p)) as (d & -> & Hd); [by intros E; rewrite E in Hk; apply not_elem_of_nil in Hk|].
  cbn [py_bind]. eexists. split; [reflexivity|]. apply num_min_nonneg; [done|]. cbn.
  apply f_add_nonneg; [by apply num_float_nonneg|done].
Qed.

Lemma shrink_target_ok p k : k ∈ b2 p → ∃ t, shrink_target p = Ret (set_target t p) ∧ num_nonneg t.
Proof.
  intros Hk. unfold shrink_target.
  destruct (adaptation_delta_ok (b2 p) (b1 p)) as (d & -> & _); [by intros E; rewrite E in Hk; apply not_elem_of_nil in Hk|].
  cbn [py_bind]. eexists. split; [reflexivity|]. by apply num_max_nonneg.
Qed.

(** ** Every notification keeps the invariant *)

(** What an admission leaves: one more resident key. *)
Definition admits (p : ARC) (k : ObjectKey) (q : ARC) : Prop :=
  arc_inv q ∧ ∀ x, resident q x ↔ resident p x ∨ x = k.

Lemma bump_trim p0 p k :
  lists_ok (t1 p) (t2 p) (b1 p) (b2 p) → num_nonneg (target_t1_size p) →
  (∀ x, x ∈ pending_admissions p → resident p x) → (∀ x, resident p x ↔ resident p0 x ∨ x = k) →
  admits p0 k (_trim_ghost_lists (bump_capacity p)).
Proof.
  intros Hl Ht Hadm Hkeep. pose proof (proj2 (Hkeep k) ltac:(by right)) as Hk.
  assert (0 < _resident_size p) as Hpos.
  { unfold _resident_size. destruct Hk as [Hk|Hk]; apply list_elem_of_lookup in Hk as [i Hi%lookup_lt_Some]; lia. }
  assert (arc_pre (bump_capacity p)) as Hpre.
  { split; cbn; [done|unfold _resident_size; cbn; fold (_resident_size p); lia|lia|done|done]. }
  destruct (trim_inv _ Hpre) as [Hinv Htr]. split; [done|]. intros x. rewrite <-Hkeep.
  unfold resident. by rewrite (tr_t1 _ _ Htr), (tr_t2 _ _ Htr).
Qed.

(** Moving a key between lists permutes the keys. *)
Lemma oset_del_perm (k : ObjectKey) l : NoDup l → k ∈ l → l ≡ₚ k :: oset_del k l.
Proof.
  induction l as [|x l IH]; [by intros _ ?%not_elem_of_nil|].
  intros [Hx Hl]%NoDup_cons Hk. unfold oset_del. rewrite filter_cons. destruct (decide (x ≠ k)) as [Hne|He].
  - apply elem_of_cons in Hk as [->|Hk]; [done|]. rewrite (IH Hl Hk) at 1. apply Permutation_swap.
  - apply dec_stable in He as ->. constructor. change (l ≡ₚ oset_del k l). by rewrite oset_del_notin.
Qed.

Lemma oset_set_notin (k : ObjectKey) l : k ∉ l → oset_set k l = l ++ [k].
Proof. intros Hk. unfold oset_set. by rewrite (proj2 (oset_mem_false k l) Hk). Qed.

Lemma lists_ok_perm x1 x2 y1 y2 x1' x2' y1' y2' :
  x1 ++ x2 ++ y1 ++ y2 ≡ₚ x1' ++ x2' ++ y1' ++ y2' → lists_ok x1 x2 y1 y2 → lists_ok x1' x2' y1' y2'.
Proof. unfold lists_ok. by intros ->. Qed.

Lemma lists_ok_elim x1 x2 y1 y2 :
  lists_ok x1 x2 y1 y2 →
  NoDup x1 ∧ NoDup x2 ∧ NoDup y1 ∧ NoDup y2 ∧
  ∀ k, (k ∈ x1 → (k ∉ x2) ∧ (k ∉ y1) ∧ (k ∉ y2)) ∧ (k ∈ x2 → (k ∉ y1) ∧ (k ∉ y2)) ∧ (k ∈ y1 → k ∉ y2).
Proof.
  unfold lists_ok. rewrite !NoDup_app. intros (H1 & H2 & H3 & H4 & H5 & H6 & H7). split_and!; try done.
  intros k. specialize (H2 k). specialize (H4 k). specialize (H6 k). rewrite !elem_of_app in *. tauto.
Qed.

Lemma remove_lists_ok k x1 x2 y1 y2 :
  lists_ok x1 x2 y1 y2 → lists_ok (oset_del k x1) (oset_del k x2) (oset_del k y1) (oset_del k y2).
Proof.
  unfold lists_ok. intros Hl. eapply sublist_NoDup; [exact Hl|].
  repeat apply sublist_app; apply sublist_filter.
Qed.

(** Membership of the lists after a move of [k]. *)
Ltac members k :=
  unfold resident; cbn -[oset_set oset_del oset_move_to_end] in *; intros;
  repeat match goal with
  | H : context [_ ∈ oset_set _ _] |- _ => rewrite elem_of_oset_set in H
  | H : context [_ ∈ oset_move_to_end _ _] |- _ => rewrite elem_of_oset_move in H
  | H : context [_ ∈ oset_del _ _] |- _ => rewrite elem_of_oset_del in H
  end;
  rewrite ?elem_of_oset_set, ?elem_of_oset_move, ?elem_of_oset_del;
  pose proof (eq_refl k);
  match goal with
  | x : ObjectKey |- _ => assert_fails (constr_eq x k); destruct (decide (x = k)) as [->|]; tauto
  | _ => tauto
  end.

Lemma move_t1_t2 k x1 x2 y1 y2 : lists_ok x1 x2 y1 y2 → k ∈ x1 → lists_ok (oset_del k x1) (oset_set k x2) y1 y2.
Proof.
  intros Hl Hk. destruct (lists_ok_elim _ _ _ _ Hl) as (H1 & _ & _ & _ & Hd). eapply lists_ok_perm; [|exact Hl].
  rewrite (oset_del_perm k x1) at 1 by done. rewrite oset_set_notin by (by apply Hd). solve_Permutation.
Qed.

Lemma move_end_t2 k x1 x2 y1 y2 : lists_ok x1 x2 y1 y2 → k ∈ x2 → lists_ok x1 (oset_move_to_end k x2) y1 y2.
Proof.
  intros Hl Hk. destruct (lists_ok_elim _ _ _ _ Hl) as (_ & H2 & _ & _ & Hd). eapply lists_ok_perm; [|exact Hl].
  unfold oset_move_to_end. rewrite (oset_del_perm k x2) at 1 by done. solve_Permutation.
Qed.

Lemma move_b1_t2 k x1 x2 y1 y2 : lists_ok x1 x2 y1 y2 → k ∈ y1 → lists_ok x1 (oset_set k x2) (oset_del k y1) y2.
Proof.
  intros Hl Hk. destruct (lists_ok_elim _ _ _ _ Hl) as (_ & _ & H3 & _ & Hd). eapply lists_ok_perm; [|exact Hl].
  specialize (Hd k). rewrite (oset_del_perm k y1) at 1 by done. rewrite oset_set_notin by tauto. solve_Permutation.
Qed.

Lemma move_b2_t2 k x1 x2 y1 y2 : lists_ok x1 x2 y1 y2 → k ∈ y2 → lists_ok x1 (oset_set k x2) y1 (oset_del k y2).
Proof.
  intros Hl Hk. destruct (lists_ok_elim _ _ _ _ Hl) as (_ & _ & _ & H4 & Hd). eapply lists_ok_perm; [|exact Hl].
  specialize (Hd k). rewrite (oset_del_perm k y2) at 1 by done. rewrite oset_set_notin by tauto. solve_Permutation.
Qed.

Lemma admit_t1 k x1 x2 y1 y2 :
  lists_ok x1 x2 y1 y2 → lists_ok (oset_set k (oset_del k x1)) (oset_del k x2) (oset_del k y1) (oset_del k y2).
Proof.
  intros Hl. apply (remove_lists_ok k) in Hl. rewrite oset_set_notin by (rewrite elem_of_oset_del; tauto).
  unfold lists_ok in *. assert (∀ a b : list ObjectKey, (a ++ [k]) ++ b ≡ₚ k :: a ++ b) as Hp by (intros; solve_Permutation).
  rewrite Hp. apply NoDup_cons. split; [|done]. rewrite !elem_of_app, !elem_of_oset_del. tauto.
Qed.

Lemma created_one_ok p k : arc_inv p → ∃ q, created_one p k = Ret q ∧ admits p k q.
Proof.
  intros [[Hl Hres He Hadm Htgt] Hr Ht]. unfold created_one. cbn [pending_admissions set_pending].
  assert (0 <= capacity p) by (unfold _resident_size in Hres; lia).
  destruct (oset_mem k (pending_admissions p)) eqn:Ep.
  { eexists. split; [reflexivity|]. apply oset_mem_true in Ep. specialize (Hadm k Ep) as Hk.
    split; [|intros x; unfold resident; cbn; split; [tauto|by intros [?| ->]]].
    split; [|done|done]. split; cbn; [done|done|done| |done]. intros x [Hx _]%elem_of_oset_del. by apply Hadm. }
  cbn [t1 t2 b1 b2 set_pending].
  destruct (oset_mem k (t1 p)) eqn:E1; [apply oset_mem_true in E1|apply oset_mem_false in E1].
  { cbn [py_bind]. eexists. split; [reflexivity|].
    apply bump_trim; [by apply move_t1_t2|done|intros x Hx%Hadm; members k|intros x; split; members k]. }
  destruct (oset_mem k (t2 p)) eqn:E2; [apply oset_mem_true in E2|apply oset_mem_false in E2].
  { cbn [py_bind]. eexists. split; [reflexivity|].
    apply bump_trim; [by apply move_end_t2|done|intros x Hx%Hadm; members k|intros x; split; members k]. }
  destruct (oset_mem k (b1 p)) eqn:E3; [apply oset_mem_true in E3|apply oset_mem_false in E3].
  { destruct (grow_target_ok (set_pending (pending_admissions p) (oset_del k (pending_evictions p)) p) k) as (t & -> & Htn); [done|done|done|].
    cbn [py_bind]. eexists. split; [reflexivity|].
    apply bump_trim; [by apply move_b1_t2|done|intros x Hx%Hadm; members k|intros x; split; members k]. }
  destruct (oset_mem k (b2 p)) eqn:E4; [apply oset_mem_true in E4|apply oset_mem_false in E4].
  { destruct (shrink_target_ok (set_pending (pending_admissions p) (oset_del k (pending_evictions p)) p) k) as (t & -> & Htn); [done|].
    cbn [py_bind]. eexists. split; [reflexivity|].
    apply bump_trim; [by apply move_b2_t2|done|intros x Hx%Hadm; members k|intros x; split; members k]. }
  cbn [py_bind]. eexists. split; [reflexivity|].
  apply bump_trim; [by apply admit_t1|done|intros x Hx%Hadm; members k|intros x; split; members k].
Qed.

Lemma reserved_one_ok p k : arc_inv p → ∃ q, reserved_one p k = Ret q ∧ admits p k q.
Proof.
  intros [[Hl Hres He Hadm Htgt] Hr Ht]. unfold reserved_one.
  assert (0 <= capacity p) by (unfold _resident_size in Hres; lia).
  set (p1 := set_pending _ _ p).
  assert (∃ t, (if oset_mem k (b1 p1) then grow_target p1 else if oset_mem k (b2 p1) then shrink_target p1 else Ret p1)
    = Ret (set_target t p1) ∧ num_nonneg t) as (t & -> & Htn).
  { destruct (oset_mem k (b1 p1)) eqn:E3; [apply oset_mem_true in E3; by apply (grow_target_ok p1 k)|].
    destruct (oset_mem k (b2 p1)) eqn:E4; [apply oset_mem_true in E4; by apply (shrink_target_ok p1 k)|].
    exists (target_t1_size p). split; [by destruct p|done]. }
  cbn [py_bind]. eexists. split; [reflexivity|].
  apply bump_trim; [by apply admit_t1|done| |intros x; split; members k].
  intros x [Hx%Hadm| ->]%elem_of_oset_set; members k.
Qed.

Lemma py_foldl_admits (f : ARC → ObjectKey → py ARC) keys p :
  (∀ p k, arc_inv p → ∃ q, f p k = Ret q ∧ admits p k q) → arc_inv p →
  ∃ q, py_foldl f p keys = Ret q ∧ arc_inv q ∧ ∀ x, resident q x ↔ resident p x ∨ x ∈ keys.
Proof.
  intros Hf. revert p. induction keys as [|k keys IH]; intros p Hp.
  { exists p. split_and!; try done. intros x. split; [tauto|]. by intros [?|?%not_elem_of_nil]. }
  destruct (Hf p k Hp) as (q & E & Hq & Hk). destruct (IH q Hq) as (q' & E' & Hq' & Hks).
  exists q'. cbn [py_foldl]. rewrite E. cbn [py_bind]. split_and!; [done|done|].
  intros x. rewrite Hks, Hk, elem_of_cons. tauto.
Qed.

Lemma length_oset_set_notin (k : ObjectKey) l : k ∉ l → length (oset_set k l) = S (length l).
Proof. intros Hk. rewrite oset_set_notin, length_app by done. cbn. lia. Qed.

Lemma touched_one_inv p k : arc_inv p → arc_inv (touched_one p k) ∧ ∀ x, resident (touched_one p k) x ↔ resident p x.
Proof.
  intros Hp. pose proof Hp as [[Hl Hres He Hadm Htgt] Hr Ht]. unfold touched_one.
  destruct (lists_ok_elim _ _ _ _ Hl) as (N1 & N2 & _ & _ & Hd).
  destruct (oset_mem k (t1 p)) eqn:E1; [apply oset_mem_true in E1|].
  - pose proof (length_oset_del k (t1 p) N1 E1) as L1.
    pose proof (length_oset_set_notin k (t2 p) (proj1 (proj1 (Hd k) E1))) as L2.
    unfold _tracked_size, _resident_size in *. split; [|intros x; split; members k].
    split; unfold _tracked_size, _resident_size; cbn; [|lia|lia].
    split; unfold _resident_size; cbn; [by apply move_t1_t2|lia|done| |done].
    intros x Hx%Hadm. members k.
  - destruct (oset_mem k (t2 p)) eqn:E2; [apply oset_mem_true in E2|done].
    pose proof (length_oset_move k (t2 p) N2 E2) as L2.
    unfold _tracked_size, _resident_size in *. split; [|intros x; split; members k].
    split; unfold _tracked_size, _resident_size; cbn; [|lia|lia].
    split; unfold _resident_size; cbn; [by apply move_end_t2|lia|done| |done].
    intros x Hx%Hadm. members k.
Qed.

Lemma move_t1_b1 k x1 x2 y1 y2 : lists_ok x1 x2 y1 y2 → k ∈ x1 → lists_ok (oset_del k x1) x2 (oset_set k y1) y2.
Proof.
  intros Hl Hk. destruct (lists_ok_elim _ _ _ _ Hl) as (H1 & _ & _ & _ & Hd). eapply lists_ok_perm; [|exact Hl].
  rewrite (oset_del_perm k x1) at 1 by done. specialize (Hd k). rewrite oset_set_notin by tauto. solve_Permutation.
Qed.

Lemma move_t2_b2 k x1 x2 y1 y2 : lists_ok x1 x2 y1 y2 → k ∈ x2 → lists_ok x1 (oset_del k x2) y1 (oset_set k y2).
Proof.
  intros Hl Hk. destruct (lists_ok_elim _ _ _ _ Hl) as (_ & H2 & _ & _ & Hd). eapply lists_ok_perm; [|exact Hl].
  rewrite (oset_del_perm k x2) at 1 by done. specialize (Hd k). rewrite oset_set_notin by tauto. solve_Permutation.
Qed.

Lemma pre_empty p : arc_pre p → capacity p <= 0 → t1 p = [] ∧ t2 p = [] ∧ b1 p = [] ∧ b2 p = [].
Proof.
  intros [_ Hres He _ _] Hc. unfold _resident_size in Hres. destruct (He Hc) as [-> ->].
  destruct (t1 p), (t2 p); cbn in *; try lia. done.
Qed.

Lemma removed_one_pre p k :
  arc_pre p → arc_pre (removed_one p k) ∧ ∀ x, resident (removed_one p k) x ↔ resident p x ∧ x ≠ k.
Proof.
  intros Hp. pose proof Hp as [Hl Hres He Hadm Htgt]. pose proof (pre_empty p Hp) as Hempty.
  destruct (lists_ok_elim _ _ _ _ Hl) as (N1 & N2 & _ & _ & Hd).
  pose proof (length_oset_del_le k (t1 p)) as L1. pose proof (length_oset_del_le k (t2 p)) as L2.
  unfold removed_one, _retire, _remove_key, _resident_size in *.
  destruct (oset_mem k (pending_evictions p)).
  - destruct (oset_mem k (t1 p)) eqn:E1; [apply oset_mem_true in E1|apply oset_mem_false in E1].
    { specialize (Hd k). split; [|intros x; split; members k].
      split; unfold _resident_size; cbn; [by apply move_t1_b1|lia| | |done].
      - intros Hc. destruct (Hempty Hc) as (E & _). rewrite E in E1. by apply not_elem_of_nil in E1.
      - intros x [Hx%Hadm Hne]%elem_of_oset_del. members k. }
    destruct (oset_mem k (t2 p)) eqn:E2; [apply oset_mem_true in E2|apply oset_mem_false in E2].
    { specialize (Hd k). split; [|intros x; split; members k].
      split; unfold _resident_size; cbn; [by apply move_t2_b2|lia| | |done].
      - intros Hc. destruct (Hempty Hc) as (_ & E & _). rewrite E in E2. by apply not_elem_of_nil in E2.
      - intros x [Hx%Hadm Hne]%elem_of_oset_del. members k. }
    split; [|intros x; split; members k]. split; unfold _resident_size; cbn; [done|lia|done| |done].
    intros x [Hx%Hadm Hne]%elem_of_oset_del. members k.
  - split; [|intros x; split; members k].
    split; unfold _resident_size; cbn; [by apply remove_lists_ok|lia| | |done].
    + intros Hc. destruct (Hempty Hc) as (_ & _ & -> & ->). done.
    + intros x [Hx%Hadm Hne]%elem_of_oset_del. members k.
Qed.

Lemma removed_pre keys p :
  arc_pre p → arc_pre (foldl removed_one p keys) ∧ ∀ x, resident (foldl removed_one p keys) x ↔ resident p x ∧ x ∉ keys.
Proof.
  revert p. induction keys as [|k keys IH]; intros p Hp; cbn [foldl].
  { split; [done|]. intros x. split; [|tauto]. intros. split; [done|apply not_elem_of_nil]. }
  destruct (removed_one_pre p k Hp) as [Hp1 H1]. destruct (IH _ Hp1) as [Hp2 H2]. split; [done|].
  intros x. rewrite H2, H1, not_elem_of_cons. tauto.
Qed.

(** ** Decisions *)

(** Keys the iterators pass over. *)
Definition skipped (victims : list ObjectKey) (f : key_filter) (k : ObjectKey) : Prop :=
  k ∈ victims ∨ eligible f k = false.

Lemma next_eligible_spec entries victims f :
  match _next_eligible entries victims f with
  | (Some k, rest) => ∃ pre, entries = pre ++ k :: rest ∧ Forall (skipped victims f) pre ∧ (k ∉ victims) ∧ eligible f k = true
  | (None, rest) => rest = [] ∧ Forall (skipped victims f) entries
  end.
Proof.
  induction entries as [|k entries IH]; cbn [_next_eligible]; [done|].
  assert (skipped victims f k →
    match _next_eligible entries victims f with
    | (Some k0, rest) => ∃ pre, k :: entries = pre ++ k0 :: rest ∧ Forall (skipped victims f) pre ∧ (k0 ∉ victims) ∧ eligible f k0 = true
    | (None, rest) => rest = [] ∧ Forall (skipped victims f) (k :: entries)
    end) as Hskip.
  { intros Hk. destruct (_next_eligible entries victims f) as [[k0|] rest].
    - destruct IH as (pre & -> & Hpre & Hk0). exists (k :: pre). split; [done|]. split; [by constructor|done].
    - destruct IH as [-> Hall]. split; [done|by constructor]. }
  destruct (oset_mem k victims) eqn:Em; [apply Hskip; left; by apply oset_mem_true|].
  destruct (eligible f k) eqn:Ee; cbn [negb]; [|apply Hskip; by right].
  exists []. split_and!; [done|constructor|by apply oset_mem_false|done].
Qed.

(** The loop's invariant: every eligible resident key not yet chosen is still
    ahead of an iterator. *)
Record choosing (all : list ObjectKey) (f : key_filter) (i1 i2 victims : list ObjectKey) : Prop := {
  ch_nodup : NoDup victims;
  ch_victims : ∀ v, v ∈ victims → v ∈ filter (eligible f) all;
  ch_ahead : ∀ k, k ∈ filter (eligible f) all → k ∈ victims ∨ k ∈ i1 ∨ k ∈ i2;
  ch_i1 : ∀ k, k ∈ i1 → k ∈ all;
  ch_i2 : ∀ k, k ∈ i2 → k ∈ all
}.

Lemma elem_eligible f k (all : list ObjectKey) : k ∈ filter (eligible f) all ↔ k ∈ all ∧ eligible f k = true.
Proof. rewrite list_elem_of_filter, Is_true_true. tauto. Qed.

(** Advancing one iterator to an eligible key, or to its end. *)
Lemma choosing_advance all f i1 i2 victims k rest pre :
  choosing all f i1 i2 victims → i1 = pre ++ k :: rest → Forall (skipped victims f) pre → k ∉ victims →
  eligible f k = true → choosing all f rest i2 (victims ++ [k]).
Proof.
  intros [Hn Hv Ha H1 H2] -> Hpre Hk Ee. rewrite Forall_forall in Hpre. split.
  - apply NoDup_app. split; [done|]. split; [|apply NoDup_singleton]. intros x Hx ->%list_elem_of_singleton. done.
  - intros v [Hx| ->%list_elem_of_singleton]%elem_of_app; [by apply Hv|]. apply elem_eligible.
    split; [|done]. apply H1, elem_of_app. right. left.
  - intros x Hx. destruct (Ha x Hx) as [Hin|[[Hin|[->|Hin]%elem_of_cons]%elem_of_app|Hin]]; rewrite ?elem_of_app; auto.
    + destruct (Hpre x Hin) as [?|Hne]; [by auto|]. apply elem_eligible in Hx as [_ Hx]. congruence.
    + left. right. by apply list_elem_of_singleton.
  - intros x Hx. apply H1, elem_of_app. right. by right.
  - done.
Qed.

Lemma choosing_exhaust all f i1 i2 victims :
  choosing all f i1 i2 victims → Forall (skipped victims f) i1 → choosing all f [] i2 victims.
Proof.
  intros [Hn Hv Ha H1 H2] Hs. rewrite Forall_forall in Hs. split; [done|done| |by intros k ?%not_elem_of_nil|done].
  intros k Hk. destruct (Ha k Hk) as [?|[Hin|?]]; auto. destruct (Hs k Hin) as [?|Hne]; [by auto|].
  apply elem_eligible in Hk as [_ Hk]. congruence.
Qed.

Lemma choosing_swap all f i1 i2 victims : choosing all f i1 i2 victims → choosing all f i2 i1 victims.
Proof. intros [Hn Hv Ha H1 H2]. split; auto. intros k Hk. destruct (Ha k Hk) as [?|[?|?]]; auto. Qed.

(** The first attempt of a turn. *)
Lemma choosing_next all f i1 i2 victims :
  choosing all f i1 i2 victims →
  match _next_eligible i1 victims f with
  | (Some k, rest) => choosing all f rest i2 (victims ++ [k])
  | (None, rest) => rest = [] ∧ choosing all f [] i2 victims
  end.
Proof.
  intros Hc. pose proof (next_eligible_spec i1 victims f) as Hn. destruct (_next_eligible i1 victims f) as [[k|] rest].
  - destruct Hn as (pre & -> & Hpre & Hk & Ee). by eapply choosing_advance.
  - destruct Hn as [-> Hs]. split; [done|]. by apply (choosing_exhaust _ _ i1).
Qed.

Lemma next_victim_spec all limit f victims vsize i1 i2 :
  choosing all f i1 i2 victims →
  match next_victim limit f victims vsize i1 i2 with
  | (Some k, _, j1, j2) => choosing all f j1 j2 (victims ++ [k])
  | (None, _, _, _) => choosing all f [] [] victims
  end.
Proof.
  intros Hc. unfold next_victim.
  assert (match (if limit <=? vsize then _next_eligible i1 victims f else (None, i1)) with
    | (Some k, rest) => choosing all f rest i2 (victims ++ [k])
    | (None, rest) => choosing all f rest i2 victims end) as H1.
  { destruct (limit <=? vsize); [|done]. pose proof (choosing_next all f i1 i2 victims Hc) as Hn.
    destruct (_next_eligible i1 victims f) as [[k|] rest]; [done|]. by destruct Hn as [-> Hn]. }
  destruct (if limit <=? vsize then _ else _) as [[k|] j1]; [done|].
  pose proof (choosing_next all f i2 j1 victims (choosing_swap _ _ _ _ _ H1)) as H2.
  destruct (_next_eligible i2 victims f) as [[k|] j2]; [by apply choosing_swap|]. destruct H2 as [-> H2].
  pose proof (choosing_next all f j1 [] victims (choosing_swap _ _ _ _ _ H2)) as H3.
  destruct (_next_eligible j1 victims f) as [[k|] j1']; [done|]. by destruct H3 as [_ H3].
Qed.

Lemma subset_length (l l' : list ObjectKey) : NoDup l → (∀ x, x ∈ l → x ∈ l') → (length l ≤ length l')%nat.
Proof. intros Hn Hs. by apply submseteq_length, NoDup_submseteq. Qed.

Lemma victim_loop_spec all fuel target limit f vsize i1 i2 victims :
  NoDup all → choosing all f i1 i2 victims → Z.of_nat (length victims) <= target →
  (length all < fuel + length victims)%nat →
  let vs := victim_loop fuel target limit f vsize i1 i2 victims in
  NoDup vs ∧ (∀ v, v ∈ vs → v ∈ filter (eligible f) all) ∧
  Z.of_nat (length vs) = Z.min target (Z.of_nat (length (filter (eligible f) all))).
Proof.
  intros Hall. assert (NoDup (filter (eligible f) all)) as Hfe by (by apply NoDup_filter).
  revert vsize i1 i2 victims. induction fuel as [|fuel IH]; intros vsize i1 i2 victims Hc Hle Hfuel; cbn [victim_loop].
  { pose proof (subset_length victims all (ch_nodup _ _ _ _ _ Hc)) as Hlen.
    assert (length victims ≤ length all)%nat; [|lia]. apply Hlen. intros v Hv.
    by apply (ch_victims _ _ _ _ _ Hc), elem_eligible in Hv as [Hv _]. }
  pose proof (subset_length victims _ (ch_nodup _ _ _ _ _ Hc) (ch_victims _ _ _ _ _ Hc)) as Hsub.
  destruct (Z.ltb_spec (Z.of_nat (length victims)) target) as [Hlt|Hge].
  - pose proof (next_victim_spec all limit f victims vsize i1 i2 Hc) as Hn.
    destruct (next_victim limit f victims vsize i1 i2) as [[[[k|] v'] j1] j2].
    + apply IH; [done|rewrite length_app; cbn; lia|rewrite length_app; cbn; lia].
    + destruct Hn as [Hn Hv Ha _ _]. split_and!; [done|done|].
      pose proof (subset_length (filter (eligible f) all) victims Hfe) as Hlen.
      assert (length (filter (eligible f) all) ≤ length victims)%nat; [|lia]. apply Hlen. intros x Hx.
      destruct (Ha x Hx) as [?|[?%not_elem_of_nil|?%not_elem_of_nil]]; done.
  - split_and!; [apply Hc|apply Hc|lia].
Qed.

(** [get_eviction_actions] never raises, keeps the resident keys, and chooses
    distinct eligible resident keys, as many as asked for or as there are. *)
Lemma arc_decision p r f salt :
  arc_inv p → is_float r → _resident_size p < 2 ^ 53 →
  ∃ acts q (t : nat), arc_get_eviction_actions r f salt p = Ret (acts, q) ∧
    arc_inv q ∧ t1 q = t1 p ∧ t2 q = t2 p ∧
    NoDup (action_keys acts) ∧ (∀ v, v ∈ action_keys acts → resident p v ∧ eligible f v = true) ∧
    length (action_keys acts) = Nat.min t (length (filter (eligible f) (t1 p ++ t2 p))) ∧
    (0 < _resident_size p → t = 0%nat ↔ not_positive r = true).
Proof.
  intros Hp Hr Hlen. unfold arc_get_eviction_actions. destruct (Z.eqb_spec (_resident_size p) 0) as [E0|E0].
  { exists [], p, 0%nat. split_and!; try done; [constructor|by intros v ?%not_elem_of_nil|lia]. }
  assert (0 < _resident_size p) as Hpos by (unfold _resident_size in *; lia).
  destruct (eviction_target_spec (Z.to_nat (_resident_size p)) r Hr ltac:(lia) ltac:(lia)) as (t & -> & Ht & Hz).
  cbn [py_bind]. destruct (Z.eqb_spec t 0) as [Et|Et].
  { exists [], p, 0%nat. split_and!; try done; [constructor|by intros v ?%not_elem_of_nil|]. intros _. by rewrite <-Hz. }
  set (p1 := set_target _ (set_capacity _ p)). pose proof Hp as [[Hl Hres He Hadm Htgt] Hrec Htot].
  assert (arc_pre p1) as Hpre.
  { split; cbn; [done|unfold _resident_size in *; cbn; lia|lia|done|].
    apply num_min_nonneg; [done|]. cbn. lia. }
  destruct (trim_inv p1 Hpre) as [Hinv Htr]. set (p2 := _trim_ghost_lists p1) in *.
  assert (target_t1_size p2 = num_min (target_t1_size p) (NInt (Z.max (capacity p) (_resident_size p)))) as ->
    by (by rewrite (tr_target _ _ Htr)).
  destruct (num_int_min (target_t1_size p) (Z.max (capacity p) (_resident_size p)) Htgt) as [limit ->]. cbn [py_bind].
  assert (t1 p2 = t1 p) as T1 by (by rewrite (tr_t1 _ _ Htr)). assert (t2 p2 = t2 p) as T2 by (by rewrite (tr_t2 _ _ Htr)).
  rewrite T1, T2.
  assert (NoDup (t1 p ++ t2 p)) as Hnd.
  { eapply sublist_NoDup; [exact Hl|]. apply sublist_app; [done|]. by apply sublist_inserts_r. }
  assert (choosing (t1 p ++ t2 p) f (t1 p) (t2 p) []) as Hc.
  { split; [constructor|by intros v ?%not_elem_of_nil| |intros; apply elem_of_app; auto..].
    intros k [Hk _]%elem_eligible. apply elem_of_app in Hk. auto. }
  pose proof (victim_loop_spec (t1 p ++ t2 p) (length (t1 p) + length (t2 p) + 1) t limit f
    (Z.of_nat (length (t1 p))) (t1 p) (t2 p) [] Hnd Hc ltac:(cbn; lia) ltac:(rewrite length_app; cbn; lia)) as Hv.
  cbv zeta in Hv. set (vs := victim_loop _ _ _ _ _ _ _ _) in *. destruct Hv as (Hvn & Hvin & Hvlen).
  assert (∀ v, v ∈ vs → resident p v ∧ eligible f v = true) as Hvres.
  { intros v [Hv He']%Hvin%elem_eligible. split; [by apply elem_of_app|done]. }
  assert (length vs = Nat.min (Z.to_nat t) (length (filter (eligible f) (t1 p ++ t2 p)))) as Hvl by lia.
  clearbody vs. destruct vs as [|v0 vs0].
  - exists [], p2, (Z.to_nat t). split_and!; try done. intros _. rewrite <-Hz. lia.
  - eexists _, _, (Z.to_nat t). split; [reflexivity|]. unfold action_keys. cbn [fmap list_fmap concat act_keys]. rewrite app_nil_r.
    split_and!; try done; [|intros _; rewrite <-Hz; lia].
    destruct Hinv as [[H1 H2 H3 H4 H5] H6 H7]. by split.
Qed.

(** ** Histories *)

Inductive arc_call :=
  | ACreated (keys : list ObjectKey) | AReserved (keys : list ObjectKey)
  | ATouched (keys : list ObjectKey) | ARemoved (keys : list ObjectKey)
  | ADecide (r : float) (f : key_filter).

Definition arc_run (p : ARC) (c : arc_call) : py ARC :=
  match c with
  | ACreated keys => arc_on_keys_created keys p
  | AReserved keys => arc_on_keys_reserved keys p
  | ATouched keys => Ret (arc_on_keys_touched keys p)
  | ARemoved keys => Ret (arc_on_keys_removed keys p)
  | ADecide r f => let! a := arc_get_eviction_actions r f None p in Ret a.2
  end.

Definition arc_call_ok (c : arc_call) : Prop := match c with ADecide r _ => is_float r | _ => True end.

(** Which keys are resident after a call. *)
Definition resident_after (p : ARC) (c : arc_call) (k : ObjectKey) : Prop :=
  match c with
  | ACreated keys | AReserved keys => resident p k ∨ k ∈ keys
  | ATouched _ | ADecide _ _ => resident p k
  | ARemoved keys => resident p k ∧ k ∉ keys
  end.

Lemma arc_removed_inv keys p :
  arc_inv p → arc_inv (arc_on_keys_removed keys p) ∧ ∀ x, resident (arc_on_keys_removed keys p) x ↔ resident p x ∧ x ∉ keys.
Proof.
  intros Hp. unfold arc_on_keys_removed. destruct keys as [|k0 keys].
  { split; [done|]. intros x. split; [|tauto]. intros. split; [done|apply not_elem_of_nil]. }
  destruct (removed_pre (k0 :: keys) p (ai_pre _ Hp)) as [Hpre Hres]. destruct (trim_inv _ Hpre) as [Hinv Htr].
  split; [exact Hinv|]. intros x. rewrite <-Hres. unfold resident. by rewrite (tr_t1 _ _ Htr), (tr_t2 _ _ Htr).
Qed.

Lemma arc_touched_inv keys p :
  arc_inv p → arc_inv (arc_on_keys_touched keys p) ∧ ∀ x, resident (arc_on_keys_touched keys p) x ↔ resident p x.
Proof.
  intros Hp. assert (arc_on_keys_touched keys p = foldl touched_one p (rev keys)) as -> by (by destruct keys).
  apply (foldl_inv (λ q, arc_inv q ∧ ∀ x, resident q x ↔ resident p x)); [done|].
  intros q k _ [Hq Hx]. destruct (touched_one_inv q k Hq) as [Hq' Hx']. split; [done|]. intros x. by rewrite Hx', Hx.
Qed.

(** A machine does not hold [2 ^ 53] keys. *)
Inductive arc_step : ARC → ARC → Prop :=
  | arc_step_call p c q : arc_call_ok c → _resident_size p < 2 ^ 53 → arc_run p c = Ret q → arc_step p q.

Lemma arc_run_ok p c :
  arc_inv p → arc_call_ok c → _resident_size p < 2 ^ 53 →
  ∃ q, arc_run p c = Ret q ∧ arc_inv q ∧ ∀ k, resident q k ↔ resident_after p c k.
Proof.
  intros Hp Hc Hlen. destruct c as [keys|keys|keys|keys|r f]; cbn [arc_run resident_after].
  - assert (arc_on_keys_created keys p = py_foldl created_one p (rev keys)) as -> by (by destruct keys).
    destruct (py_foldl_admits created_one (rev keys) p created_one_ok Hp) as (q & -> & Hq & Hk).
    exists q. split_and!; [done|done|]. intros k. by rewrite Hk, list_elem_of_In, <-in_rev, <-list_elem_of_In.
  - assert (arc_on_keys_reserved keys p = py_foldl reserved_one p (rev keys)) as -> by (by destruct keys).
    destruct (py_foldl_admits reserved_one (rev keys) p reserved_one_ok Hp) as (q & -> & Hq & Hk).
    exists q. split_and!; [done|done|]. intros k. by rewrite Hk, list_elem_of_In, <-in_rev, <-list_elem_of_In.
  - eexists. split; [reflexivity|]. by apply arc_touched_inv.
  - eexists. split; [reflexivity|]. by apply arc_removed_inv.
  - destruct (arc_decision p r f None Hp Hc Hlen) as (acts & q & t & -> & Hq & E1 & E2 & _). cbn [py_bind].
    exists q. split_and!; [done|done|]. intros k. unfold resident. by rewrite E1, E2.
Qed.

Lemma arc_reachable_inv dflt p : rtc arc_step (arc_init dflt) p → arc_inv p.
Proof.
  intros Hr. remember (arc_init dflt) as p0 eqn:E. assert (arc_inv p0) as Hp0 by (subst; apply arc_init_inv).
  clear E. induction Hr as [|p q r [p' c q' Hc Hlen Hrun] _ IH]; [done|]. apply IH.
  destruct (arc_run_ok p' c Hp0 Hc Hlen) as (q2 & E & Hq & _). rewrite Hrun in E. by injection E as <-.
Qed.

(** C37: the ARC policy never raises - no division by an empty ghost list, no
    integer part of a NaN - and keeps its lists disjoint and bounded, whatever
    the calls: at most [capacity] keys seen recently or remembered from there,
    at most twice the capacity in all, and the resident keys are exactly those
    created or reserved and not removed since. *)
Theorem arc_reachable_safe dflt p c :
  rtc arc_step (arc_init dflt) p → arc_call_ok c → _resident_size p < 2 ^ 53 →
  NoDup (t1 p ++ t2 p ++ b1 p ++ b2 p) ∧ _resident_size p <= capacity p ∧
  Z.of_nat (length (t1 p)) + Z.of_nat (length (b1 p)) <= capacity p ∧ _tracked_size p <= 2 * capacity p ∧
  ∃ q, arc_run p c = Ret q ∧ ∀ k, resident q k ↔ resident_after p c k.
Proof.
  intros Hr Hc Hlen. pose proof (arc_reachable_inv dflt p Hr) as Hp. pose proof Hp as [[Hl Hres _ _ _] Hrec Htot].
  split_and!; [done|done|done|done|]. destruct (arc_run_ok p c Hp Hc Hlen) as (q & E & _ & Hk). by exists q.
Qed.

(** A decision of the ARC policy names distinct, eligible, resident keys -
    as many as the ratio asks for, or all eligible ones if there are fewer - and
    at least one when the ratio is positive and some resident key is
    eligible. *)
Theorem arc_decision_complete dflt p r f salt :
  rtc arc_step (arc_init dflt) p → is_float r → _resident_size p < 2 ^ 53 →
  ∃ acts q (t : nat), arc_get_eviction_actions r f salt p = Ret (acts, q) ∧
    NoDup (action_keys acts) ∧ (∀ v, v ∈ action_keys acts → resident p v ∧ eligible f v = true) ∧
    length (action_keys acts) = Nat.min t (length (filter (eligible f) (t1 p ++ t2 p))) ∧
    (0 < _resident_size p → t = 0%nat ↔ not_positive r = true).
Proof.
  intros Hr Hf Hlen. destruct (arc_decision p r f salt (arc_reachable_inv dflt p Hr) Hf Hlen)
    as (acts & q & t & E & _ & _ & _ & H1 & H2 & H3 & H4). by exists acts, q, t.
Qed.

(** ** Witnesses *)

Definition demo_arc : ARC :=
  match arc_run (arc_init DISCARD) (ACreated [demo_key; demo_key_b]) with Ret p => p | Raise _ => arc_init DISCARD end.

Lemma demo_arc_reachable : rtc arc_step (arc_init DISCARD) demo_arc.
Proof. apply rtc_once. apply (arc_step_call _ (ACreated [demo_key; demo_key_b])); [done|done|vm_compute; reflexivity]. Qed.

Lemma arc_reachable_safe_witness :
  _tracked_size demo_arc <= 2 * capacity demo_arc ∧ ∃ q, arc_run demo_arc (ADecide f_half None) = Ret q.
Proof.
  destruct (arc_reachable_safe DISCARD demo_arc (ADecide f_half None) demo_arc_reachable ltac:(reflexivity)
    ltac:(vm_compute; reflexivity)) as (_ & _ & _ & Ht & q & E & _).
  split; [exact Ht|]. exists q. exact E.
Defined.

Lemma arc_decision_complete_witness :
  ∃ acts q, arc_get_eviction_actions f_half None None demo_arc = Ret (acts, q) ∧ length (action_keys acts) = 1%nat ∧
    NoDup (action_keys acts).
Proof.
  destruct (arc_decision_complete DISCARD demo_arc f_half None None demo_arc_reachable ltac:(reflexivity)
    ltac:(vm_compute; reflexivity)) as (acts & q & t & E & Hn & _).
  exists acts, q. split; [exact E|]. split; [|exact Hn]. vm_compute in E. injection E as <- _. reflexivity.
Defined.
