(* ===== verification/Grid.v ===== *)
(** * Bitmap grids and per-tier maps

    The counting operations of the native bitmap
    ([csrc/lmcache_native/bitmap.cpp]), and the two containers the prefetch
    controller plans with (storage_controllers/utils.py): [Bitmap2D], a grid
    with one bitmap per key group and one column per chunk, and [MapState], a
    grid per L1 manager or L2 adapter.

    Every operation of [Bitmap2D] and [MapState] builds new bitmaps, and a grid
    stored in a map is not changed in place, so a grid is a value here and
    [copy] is the identity. *)

From stdpp Require Import list sorting.
From Stdlib Require Import ZArith Lia.
From S2P Require Import Prelude Bitmap Fold.

Open Scope nat_scope.
Open Scope py_scope.

(** ** Counting bits *)

(** [__builtin_popcount] of a byte. *)
Definition popcount8 (v : Z) : nat := length (filter (λ i, Z.testbit v (Z.of_nat i) = true) (seq 0 8)).

Definition popcount (b : Bitmap) : nat :=
  match bm_data b with
  | [] => 0
  | d =>
      let full := sum_list (popcount8 <$> take (bm_size b / 8) d) in
      if Nat.ltb 0 (bm_size b mod 8)
      then full + popcount8 (Z.land (default 0%Z (last d)) (last_mask (bm_size b)))
      else full
  end.

(** The [while (byte != 0)] loop of [get_indices]: a byte has at most eight set
    bits, so eight rounds are enough. *)
Fixpoint byte_indices (fuel : nat) (size base : nat) (v : Z) : list nat :=
  match fuel with
  | 0 => []
  | S fuel' =>
      if (v =? 0)%Z then []
      else
        let idx := base + ctz v in
        let rest := byte_indices fuel' size base (Z.land v (u8 (v - 1))) in
        if Nat.ltb idx size then idx :: rest else rest
  end.

Definition get_indices (b : Bitmap) : list nat :=
  concat (imap (λ i v, byte_indices 8 (bm_size b) (i * 8) v) (bm_data b)).

(** ** [Bitmap2D] *)

Definition Bitmap2D : Type := list Bitmap.

Definition new_grid (rows : list Bitmap) : py Bitmap2D :=
  match rows with
  | [] => Ret []
  | row :: _ => if forallb (λ r, Nat.eqb (bm_size r) (bm_size row)) rows then Ret rows else Raise ValueError
  end.

Definition grid_zeros (num_rows num_cols : Z) : py Bitmap2D :=
  if (num_rows <? 0)%Z || (num_cols <? 0)%Z then Raise ValueError
  else new_grid (replicate (Z.to_nat num_rows) (new_bitmap (Z.to_nat num_cols))).

Definition grid_size (g : Bitmap2D) : nat * nat :=
  match g with [] => (0, 0) | row :: _ => (length g, bm_size row) end.

Definition grid_popcount (g : Bitmap2D) : nat := sum_list (popcount <$> g).

Definition _ensure_same_size {A} (a b : Bitmap2D) (k : py A) : py A :=
  if bool_decide (grid_size a = grid_size b) then k else Raise ValueError.

Definition grid_add (a b : Bitmap2D) : py Bitmap2D := _ensure_same_size a b (new_grid (zip_with bm_or a b)).
Definition grid_sub (a b : Bitmap2D) : py Bitmap2D :=
  _ensure_same_size a b (new_grid (zip_with (λ l r, bm_and l (bm_not r)) a b)).
Definition grid_and (a b : Bitmap2D) : py Bitmap2D := _ensure_same_size a b (new_grid (zip_with bm_and a b)).

(** [__iadd__] and [__isub__] assign the rows without checking them again. *)
Definition grid_iadd (a b : Bitmap2D) : py Bitmap2D := _ensure_same_size a b (Ret (zip_with bm_or a b)).
Definition grid_isub (a b : Bitmap2D) : py Bitmap2D :=
  _ensure_same_size a b (Ret (zip_with (λ l r, bm_and l (bm_not r)) a b)).

Definition zeros_like (g : Bitmap2D) : py Bitmap2D := new_grid ((λ r, new_bitmap (bm_size r)) <$> g).

(** ** [MapState]

    [_num_rows] and [_num_cols] are assigned together, by the first store. *)
Record MapState := mkMap { ms_state : dict Z Bitmap2D; ms_layout : option (nat * nat) }.

Definition ms_empty : MapState := mkMap [] None.

Definition _ensure_layout (grid : Bitmap2D) (m : MapState) : py MapState :=
  let shape := grid_size grid in
  if Nat.eqb shape.1 0 then Raise ValueError
  else match ms_layout m with
       | None => Ret (mkMap (ms_state m) (Some shape))
       | Some l => if bool_decide (shape = l) then Ret m else Raise ValueError
       end.

Definition ms_set (idx : Z) (grid : Bitmap2D) (m : MapState) : py MapState :=
  let! m' := _ensure_layout grid m in Ret (mkMap (dset idx grid (ms_state m')) (ms_layout m')).

Definition ms_get (idx : Z) (m : MapState) : py Bitmap2D :=
  match dget idx (ms_state m) with Some g => Ret g | None => Raise KeyError end.

Definition ms_del (idx : Z) (m : MapState) : py MapState :=
  if dmem idx (ms_state m) then Ret (mkMap (ddel idx (ms_state m)) (ms_layout m)) else Raise KeyError.

Definition _ensure_compatible {A} (a b : MapState) (k : py A) : py A :=
  match ms_layout a, ms_layout b with
  | Some l, Some l' => if bool_decide (l = l') then k else Raise ValueError
  | _, _ => k
  end.

Fixpoint merge_loop (merged : Bitmap2D) (grids : list Bitmap2D) : py Bitmap2D :=
  match grids with
  | [] => Ret merged
  | g :: grids' => let! m := grid_iadd merged g in merge_loop m grids'
  end.

Definition merge (m : MapState) : py Bitmap2D :=
  match ms_layout m with
  | None => new_grid []
  | Some (rows, cols) =>
      let! zeros := grid_zeros (Z.of_nat rows) (Z.of_nat cols) in
      merge_loop zeros (dvalues (ms_state m))
  end.

(** [for idx, grid in items: result[idx] = f(idx, grid)]. *)
Fixpoint ms_build (f : Z → Bitmap2D → py Bitmap2D) (items : list (Z * Bitmap2D)) (result : MapState)
    : py MapState :=
  match items with
  | [] => Ret result
  | (idx, g) :: items' =>
      let! g' := f idx g in
      let! result' := ms_set idx g' result in
      ms_build f items' result'
  end.

Definition ms_add (a b : MapState) : py MapState :=
  _ensure_compatible a b
    (let! result := ms_build (λ idx g, match dget idx (ms_state b) with
                                       | Some g' => grid_add g g' | None => Ret g end) (ms_state a) ms_empty in
     ms_build (λ _ g, Ret g) (filter (λ p, dmem p.1 (ms_state a) = false) (ms_state b)) result).

Definition ms_iadd (a b : MapState) : py MapState :=
  _ensure_compatible a b
    (foldl (λ acc p, let! m := acc in
                     match dget p.1 (ms_state m) with
                     | Some g => let! g' := grid_add g p.2 in ms_set p.1 g' m
                     | None => ms_set p.1 p.2 m
                     end) (Ret a) (ms_state b)).

Definition ms_sub (a b : MapState) : py MapState :=
  _ensure_compatible a b
    (ms_build (λ idx g, match dget idx (ms_state b) with
                        | Some g' => grid_sub g g' | None => Ret g end) (ms_state a) ms_empty).

Definition ms_isub (a b : MapState) : py MapState :=
  _ensure_compatible a b
    (foldl (λ acc p, let! m := acc in
                     match dget p.1 (ms_state m) with
                     | Some g => let! g' := grid_sub g p.2 in ms_set p.1 g' m
                     | None => Ret m
                     end) (Ret a) (ms_state b)).

(** ** The counting operations agree with the bits *)

Definition byte_bits (v : Z) : list nat := filter (λ i, Z.testbit v (Z.of_nat i) = true) (seq 0 8).

Fixpoint byte_raw (fuel : nat) (v : Z) : list nat :=
  match fuel with
  | 0 => []
  | S fuel' => if (v =? 0)%Z then [] else ctz v :: byte_raw fuel' (Z.land v (u8 (v - 1)))
  end.

Lemma byte_indices_raw fuel size base v :
  byte_indices fuel size base v = filter (λ i, i < size) ((λ i, base + i) <$> byte_raw fuel v).
Proof.
  revert v. induction fuel as [|fuel IH]; intros v; [done|]. cbn [byte_indices byte_raw].
  destruct (v =? 0)%Z; [done|]. rewrite fmap_cons, filter_cons, <-IH.
  destruct (Nat.ltb_spec (base + ctz v) size); [by rewrite decide_True|by rewrite decide_False by lia].
Qed.

(** Clearing the lowest set bit eight times enumerates the bits of a byte, in
    order: checked on each of the 256 bytes. *)
Lemma byte_raw_bits v : (0 <= v < 256)%Z → byte_raw 8 v = byte_bits v.
Proof.
  intros Hv.
  assert (forallb (λ n, bool_decide (byte_raw 8 (Z.of_nat n) = byte_bits (Z.of_nat n))) (seq 0 256) = true) as H
    by (vm_compute; reflexivity).
  rewrite forallb_forall in H. specialize (H (Z.to_nat v)). rewrite Z2Nat.id in H by lia.
  eapply bool_decide_eq_true_1, H. apply in_seq. lia.
Qed.

Lemma filter_seq_shift (P : nat → Prop) `{∀ x, Decision (P x)} (Q : nat → Prop) `{∀ x, Decision (Q x)} a n :
  (∀ i, i < n → P (a + i) ↔ Q i) → filter P (seq a n) = (λ i, a + i) <$> filter Q (seq 0 n).
Proof.
  intros Hpq. rewrite <-(Nat.add_0_r a) at 1. rewrite <-fmap_add_seq.
  assert (∀ l : list nat, (∀ i, i ∈ l → i < n) → filter P ((λ i, a + i) <$> l) = (λ i, a + i) <$> filter Q l) as Hl.
  { induction l as [|x l IH]; intros Hl; [done|]. rewrite fmap_cons, !filter_cons.
    assert (P (a + x) ↔ Q x) as Hx by (apply Hpq, Hl; left).
    rewrite IH by (intros; apply Hl; by right).
    destruct (decide (P (a + x))); destruct (decide (Q x)); tauto || done. }
  apply Hl. intros i Hi%elem_of_seq. lia.
Qed.

(** The positions of a bitmap, byte by byte. *)
Lemma bits_by_byte b :
  bm_wf b →
  concat (imap (λ k v, (λ i, k * 8 + i) <$> byte_bits v) (bm_data b))
  = filter (λ i, bit b i = true) (seq 0 (8 * length (bm_data b))).
Proof.
  intros Hwf.
  assert (∀ d k, (∀ i, d !! i = bm_data b !! (k + i)) →
    concat (imap (λ j v, (λ i, (k + j) * 8 + i) <$> byte_bits v) d)
    = filter (λ i, bit b i = true) (seq (8 * k) (8 * length d))) as Hgen.
  { induction d as [|v d IH]; intros k Hd; [done|]. rewrite imap_cons. cbn [concat length].
    replace (8 * S (length d)) with (8 + 8 * length d) by lia. rewrite seq_app, filter_app. f_equal.
    - rewrite Nat.add_0_r. symmetry. replace (8 * k) with (k * 8) by lia. apply filter_seq_shift.
      intros i Hi. rewrite bit_byte by done. unfold byte_at.
      specialize (Hd 0). rewrite Nat.add_0_r in Hd. by rewrite <-Hd.
    - replace (8 * k + 8) with (8 * S k) by lia. rewrite <-IH.
      + f_equal. apply imap_ext. intros j x _. apply list_fmap_ext. intros _ y _. lia.
      + intros i. replace (S k + i) with (k + S i) by lia. by rewrite <-Hd. }
  exact (Hgen (bm_data b) 0 ltac:(done)).
Qed.

Lemma filter_seq_bound (P : nat → Prop) `{∀ x, Decision (P x)} n m :
  n ≤ m → (∀ i, n ≤ i → ¬ P i) → filter P (seq 0 m) = filter P (seq 0 n).
Proof.
  intros Hnm Hno. replace m with (n + (m - n)) by lia. rewrite seq_app, filter_app. cbn [Nat.add].
  assert (filter P (seq n (m - n)) = []) as ->; [|apply app_nil_r].
  apply elem_of_nil_inv. intros i [Hp Hi]%list_elem_of_filter. apply elem_of_seq in Hi. apply (Hno i); [lia|done].
Qed.

(** The set positions of a bitmap, in order. *)
Definition set_bits (b : Bitmap) : list nat := filter (λ i, bm_test b i = true) (seq 0 (bm_size b)).

Lemma num_bytes_ge size : size ≤ 8 * num_bytes size.
Proof.
  pose proof (div_mod8 size). pose proof (mod8_lt size). destruct (decide (size mod 8 = 0)).
  - rewrite num_bytes_full by done. lia.
  - rewrite num_bytes_last by lia. lia.
Qed.

Lemma set_bits_bytes b :
  bm_wf b → set_bits b = concat (imap (λ k v, (λ i, k * 8 + i) <$> byte_bits v) (bm_data b)).
Proof.
  intros Hwf. rewrite bits_by_byte by done. unfold set_bits. rewrite (wf_len b Hwf).
  rewrite (filter_seq_bound _ (bm_size b) (8 * num_bytes (bm_size b))).
  - apply list_filter_iff. intros i. by rewrite bm_test_wf.
  - apply num_bytes_ge.
  - intros i Hi. by rewrite (wf_high b Hwf i Hi).
Qed.

Lemma get_indices_spec b : bm_wf b → get_indices b = set_bits b.
Proof.
  intros Hwf. rewrite set_bits_bytes by done. unfold get_indices. f_equal. apply imap_ext. intros k v Hv.
  assert (byte_at (bm_data b) k = v) as Hb by (unfold byte_at; by rewrite Hv).
  rewrite byte_indices_raw, byte_raw_bits by (rewrite <-Hb; apply (wf_byte b Hwf)).
  assert (∀ l : list nat, (∀ i, i ∈ l → k * 8 + i < bm_size b) →
    filter (λ i, i < bm_size b) ((λ i, k * 8 + i) <$> l) = (λ i, k * 8 + i) <$> l) as Hl.
  { induction l as [|x l IH]; intros Hl; [done|]. rewrite fmap_cons, filter_cons, decide_True by (apply Hl; left).
    f_equal. apply IH. intros; apply Hl; by right. }
  apply Hl. intros i [Ht Hi%elem_of_seq]%list_elem_of_filter.
  destruct (decide (k * 8 + i < bm_size b)); [done|].
  pose proof (wf_high b Hwf (k * 8 + i) ltac:(lia)) as H0. rewrite bit_byte, Hb, Ht in H0 by lia. done.
Qed.

Lemma last_byte_masked b :
  bm_wf b → 0 < bm_size b mod 8 →
  Z.land (default 0%Z (last (bm_data b))) (last_mask (bm_size b)) = byte_at (bm_data b) (bm_size b / 8).
Proof.
  intros Hwf Hm. rewrite last_lookup, (wf_len b Hwf), num_bytes_last by done.
  replace (pred (bm_size b / 8 + 1)) with (bm_size b / 8) by lia. change (default 0%Z _) with (byte_at (bm_data b) (bm_size b / 8)).
  apply byte_ext; [apply land_byte; [apply (wf_byte b Hwf)|unfold last_mask; apply u8_range]|apply (wf_byte b Hwf)|].
  intros i Hi. rewrite Z.land_spec.
  rewrite last_mask_bit by lia. destruct (Nat.ltb_spec i (bm_size b mod 8)); [apply andb_true_r|].
  rewrite andb_false_r. symmetry. rewrite <-bit_byte by lia. apply (wf_high b Hwf). pose proof (div_mod8 (bm_size b)). lia.
Qed.

Lemma popcount_bytes b : bm_wf b → popcount b = sum_list (popcount8 <$> bm_data b).
Proof.
  intros Hwf. unfold popcount. pose proof (wf_len b Hwf) as Hlen. destruct (bm_data b) as [|v d'] eqn:Ed; [done|].
  rewrite <-Ed in *. clear v d' Ed.
  destruct (Nat.ltb_spec 0 (bm_size b mod 8)) as [Hm|Hm].
  - rewrite last_byte_masked by done. rewrite num_bytes_last in Hlen by done.
    destruct (lookup_lt_is_Some_2 (bm_data b) (bm_size b / 8)) as [v Hv]; [lia|].
    rewrite <-(take_drop (bm_size b / 8) (bm_data b)) at 3.
    rewrite (drop_S _ v) by done. rewrite (drop_ge (bm_data b)) by lia.
    rewrite fmap_app, sum_list_with_app. unfold byte_at. rewrite Hv. cbn. lia.
  - rewrite num_bytes_full in Hlen by lia. by rewrite take_ge by lia.
Qed.

Lemma popcount_spec b : bm_wf b → popcount b = length (set_bits b).
Proof.
  intros Hwf. rewrite popcount_bytes, set_bits_bytes by done.
  assert (∀ d (f : nat → nat → nat), length (concat (imap (λ k v, (f k) <$> byte_bits v) d)) = sum_list (popcount8 <$> d)) as Hd.
  { induction d as [|v d IH]; intros f; [done|]. rewrite imap_cons. cbn. rewrite length_app, length_fmap. f_equal.
    exact (IH (λ k, f (S k))). }
  symmetry. apply (Hd (bm_data b) (λ k i, k * 8 + i)).
Qed.

Lemma popcount_zero b : bm_wf b → popcount b = 0 ↔ ∀ i, bm_test b i = false.
Proof.
  intros Hwf. rewrite popcount_spec by done. rewrite length_zero_iff_nil. unfold set_bits. split.
  - intros E i. destruct (bm_test b i) eqn:Ei; [|done]. exfalso.
    assert (i ∈ filter (λ i, bm_test b i = true) (seq 0 (bm_size b))) as Hin; [|rewrite E in Hin; by apply not_elem_of_nil in Hin].
    apply list_elem_of_filter. split; [done|]. apply elem_of_seq. apply bm_test_lt in Ei. lia.
  - intros Hz. apply elem_of_nil_inv. intros i [Hi _]%list_elem_of_filter. by rewrite Hz in Hi.
Qed.

(** ** Grids as tables of cells *)

Definition cell (g : list Bitmap) (i j : nat) : bool :=
  match g !! i with Some row => bm_test row j | None => false end.

(** A grid of [r] rows and [c] columns. *)
Definition grid_ok (r c : nat) (g : list Bitmap) : Prop := length g = r ∧ rows_ok c g.

Lemma new_grid_ok c rows : rows_ok c rows → new_grid rows = Ret rows.
Proof.
  intros Hok. unfold new_grid. destruct rows as [|row rows]; [done|].
  replace (forallb _ _) with true; [done|]. symmetry. apply forallb_forall. intros x Hx%list_elem_of_In.
  unfold rows_ok in Hok. rewrite Forall_forall in Hok. apply Nat.eqb_eq.
  rewrite (proj2 (Hok x Hx)). symmetry. apply Hok. left.
Qed.

Lemma grid_size_ok r c g : 0 < r → grid_ok r c g → grid_size g = (r, c).
Proof. intros Hr [Hl Hg]. destruct Hg as [|row g [_ Hs]]; cbn in *; [lia|]. by rewrite Hl, Hs. Qed.

Lemma grid_size_eq r c a b : grid_ok r c a → grid_ok r c b → grid_size a = grid_size b.
Proof.
  intros Ha Hb. destruct r.
  - destruct Ha as [Ha _], Hb as [Hb _]. apply nil_length_inv in Ha as ->, Hb as ->. done.
  - by rewrite !(grid_size_ok (S r) c) by (done || lia).
Qed.

(** The row-wise operations act cell by cell. *)
Lemma zip_grid_ok op (bop : bool → bool → bool) r c a b :
  (∀ x y, bm_wf x → bm_wf y → bm_size x = c → bm_size y = c →
     bm_wf (op x y) ∧ bm_size (op x y) = c ∧ ∀ j, bm_test (op x y) j = bop (bm_test x j) (bm_test y j)) →
  bop false false = false → grid_ok r c a → grid_ok r c b →
  grid_ok r c (zip_with op a b) ∧ ∀ i j, cell (zip_with op a b) i j = bop (cell a i j) (cell b i j).
Proof.
  intros Hop Hff [Hla Ha] [Hlb Hb]. unfold rows_ok in *. rewrite Forall_lookup in Ha, Hb. split.
  - split; [rewrite length_zip_with; lia|]. apply Forall_lookup. intros i row Hrow.
    apply lookup_zip_with_Some in Hrow as (x & y & -> & Hx & Hy).
    destruct (Ha i x Hx), (Hb i y Hy). by destruct (Hop x y) as (? & ? & _).
  - intros i j. unfold cell. rewrite lookup_zip_with.
    destruct (a !! i) as [x|] eqn:Hx; cbn.
    + destruct (lookup_lt_is_Some_2 b i) as [y Hy]; [apply lookup_lt_Some in Hx; lia|]. rewrite Hy. cbn.
      destruct (Ha i x Hx), (Hb i y Hy). by destruct (Hop x y) as (_ & _ & ->).
    + apply lookup_ge_None in Hx. rewrite (lookup_ge_None_2 b) by lia. by rewrite Hff.
Qed.

Lemma or_rows c x y :
  bm_wf x → bm_wf y → bm_size x = c → bm_size y = c →
  bm_wf (bm_or x y) ∧ bm_size (bm_or x y) = c ∧ ∀ j, bm_test (bm_or x y) j = bm_test x j || bm_test y j.
Proof.
  intros Hx Hy Hsx Hsy. split_and!.
  - apply bm_or_wf; congruence.
  - unfold bm_or. rewrite combine_size. lia.
  - intros j. rewrite bm_or_test by done. rewrite Hsx, Hsy, Nat.min_id.
    destruct (Nat.ltb_spec j c) as [|Hj]; [done|]. cbn [andb].
    destruct (bm_test x j) eqn:Ex; [apply bm_test_lt in Ex; lia|].
    destruct (bm_test y j) eqn:Ey; [apply bm_test_lt in Ey; lia|]. done.
Qed.

Lemma and_rows c x y :
  bm_wf x → bm_wf y → bm_size x = c → bm_size y = c →
  bm_wf (bm_and x y) ∧ bm_size (bm_and x y) = c ∧ ∀ j, bm_test (bm_and x y) j = bm_test x j && bm_test y j.
Proof.
  intros Hx Hy Hsx Hsy. split_and!.
  - by apply bm_and_wf.
  - unfold bm_and. rewrite combine_size. lia.
  - intros j. by apply bm_and_test.
Qed.

Lemma bm_not_test b j : bm_wf b → bm_test (bm_not b) j = Nat.ltb j (bm_size b) && negb (bm_test b j).
Proof. intros Hwf. rewrite !bm_test_wf by (done || by apply bm_not_wf). by apply bm_not_bit. Qed.

Lemma sub_rows c x y :
  bm_wf x → bm_wf y → bm_size x = c → bm_size y = c →
  bm_wf (bm_and x (bm_not y)) ∧ bm_size (bm_and x (bm_not y)) = c ∧
  ∀ j, bm_test (bm_and x (bm_not y)) j = bm_test x j && negb (bm_test y j).
Proof.
  intros Hx Hy Hsx Hsy. destruct (and_rows c x (bm_not y)) as (Hwf & Hs & Ht); try done.
  { by apply bm_not_wf. }
  split_and!; [done|done|]. intros j. rewrite Ht, bm_not_test by done.
  destruct (bm_test x j) eqn:E; [|done]. apply bm_test_lt in E. by rewrite (proj2 (Nat.ltb_lt j (bm_size y))) by lia.
Qed.

Lemma grid_add_ok r c a b :
  grid_ok r c a → grid_ok r c b →
  ∃ g, grid_add a b = Ret g ∧ grid_ok r c g ∧ ∀ i j, cell g i j = cell a i j || cell b i j.
Proof.
  intros Ha Hb. destruct (zip_grid_ok bm_or orb r c a b (or_rows c) eq_refl Ha Hb) as [Hg Hc].
  exists (zip_with bm_or a b). split_and!; [|done..]. unfold grid_add, _ensure_same_size.
  rewrite bool_decide_true by (by eapply grid_size_eq). eapply new_grid_ok, Hg.
Qed.

Lemma grid_iadd_ok r c a b :
  grid_ok r c a → grid_ok r c b →
  ∃ g, grid_iadd a b = Ret g ∧ grid_ok r c g ∧ ∀ i j, cell g i j = cell a i j || cell b i j.
Proof.
  intros Ha Hb. destruct (zip_grid_ok bm_or orb r c a b (or_rows c) eq_refl Ha Hb) as [Hg Hc].
  exists (zip_with bm_or a b). split_and!; [|done..]. unfold grid_iadd, _ensure_same_size.
  by rewrite bool_decide_true by (by eapply grid_size_eq).
Qed.

Lemma grid_sub_ok r c a b :
  grid_ok r c a → grid_ok r c b →
  ∃ g, grid_sub a b = Ret g ∧ grid_ok r c g ∧ ∀ i j, cell g i j = cell a i j && negb (cell b i j).
Proof.
  intros Ha Hb.
  destruct (zip_grid_ok _ (λ x y, x && negb y) r c a b (sub_rows c) eq_refl Ha Hb) as [Hg Hc].
  eexists. split_and!; [|exact Hg|exact Hc]. unfold grid_sub, _ensure_same_size.
  rewrite bool_decide_true by (by eapply grid_size_eq). eapply new_grid_ok, Hg.
Qed.

Lemma grid_isub_ok r c a b :
  grid_ok r c a → grid_ok r c b →
  ∃ g, grid_isub a b = Ret g ∧ grid_ok r c g ∧ ∀ i j, cell g i j = cell a i j && negb (cell b i j).
Proof.
  intros Ha Hb.
  destruct (zip_grid_ok _ (λ x y, x && negb y) r c a b (sub_rows c) eq_refl Ha Hb) as [Hg Hc].
  eexists. split_and!; [|exact Hg|exact Hc]. unfold grid_isub, _ensure_same_size.
  by rewrite bool_decide_true by (by eapply grid_size_eq).
Qed.

Lemma grid_and_ok r c a b :
  grid_ok r c a → grid_ok r c b →
  ∃ g, grid_and a b = Ret g ∧ grid_ok r c g ∧ ∀ i j, cell g i j = cell a i j && cell b i j.
Proof.
  intros Ha Hb. destruct (zip_grid_ok bm_and andb r c a b (and_rows c) eq_refl Ha Hb) as [Hg Hc].
  eexists. split_and!; [|exact Hg|exact Hc]. unfold grid_and, _ensure_same_size.
  rewrite bool_decide_true by (by eapply grid_size_eq). eapply new_grid_ok, Hg.
Qed.

Lemma new_bitmap_test n j : bm_test (new_bitmap n) j = false.
Proof. rewrite bm_test_wf by apply new_bitmap_wf. apply new_bitmap_bit. Qed.

Lemma grid_zeros_ok r c :
  ∃ g, grid_zeros (Z.of_nat r) (Z.of_nat c) = Ret g ∧ grid_ok r c g ∧ ∀ i j, cell g i j = false.
Proof.
  assert (rows_ok c (replicate r (new_bitmap c))) as Hok.
  { apply Forall_replicate. split; [apply new_bitmap_wf|done]. }
  exists (replicate r (new_bitmap c)). split_and!.
  - unfold grid_zeros. rewrite !(proj2 (Z.ltb_ge _ 0)) by lia.
    cbn [orb]. rewrite !Nat2Z.id. eapply new_grid_ok, Hok.
  - split; [apply length_replicate|exact Hok].
  - intros i j. unfold cell. destruct (replicate r (new_bitmap c) !! i) eqn:E; [|done].
    apply lookup_replicate in E as [-> _]. apply new_bitmap_test.
Qed.

Lemma grid_popcount_zero r c g : grid_ok r c g → grid_popcount g = 0 ↔ ∀ i j, cell g i j = false.
Proof.
  intros [_ Hg]. revert r. unfold grid_popcount, cell. induction Hg as [|row g [Hwf _] Hg IH]; intros r; [done|].
  cbn. rewrite Nat.eq_add_0, popcount_zero, (IH r) by done. split.
  - intros [Hrow Hrest] [|i] j; [apply Hrow|apply (Hrest i)].
  - intros Hc. split; [exact (Hc 0)|]. intros i. exact (Hc (S i)).
Qed.

Lemma cell_row r c g i j : grid_ok r c g → cell g i j = true → i < r ∧ j < c.
Proof.
  intros [Hl Hg] Hc. unfold cell in Hc. destruct (g !! i) as [row|] eqn:E; [|done].
  split; [apply lookup_lt_Some in E; lia|]. apply bm_test_lt in Hc.
  unfold rows_ok in Hg. rewrite Forall_lookup in Hg. destruct (Hg i row E). lia.
Qed.

(** ** Maps *)

(** Every stored grid has the established layout. *)
Record ms_wf (m : MapState) : Prop := {
  ms_nodup : NoDup (dkeys (ms_state m));
  ms_shape : ∀ idx g, dget idx (ms_state m) = Some g →
    ∃ r c, ms_layout m = Some (r, c) ∧ 0 < r ∧ grid_ok r c g;
  ms_rows : ∀ r c, ms_layout m = Some (r, c) → 0 < r
}.

(** Cell [(i, j)] is set under [idx]. *)
Definition locked (m : MapState) (idx : Z) (i j : nat) : bool :=
  match dget idx (ms_state m) with Some g => cell g i j | None => false end.

Lemma ms_empty_wf : ms_wf ms_empty.
Proof. split; [constructor|done|done]. Qed.

Lemma ms_set_ok r c idx g m :
  ms_wf m → grid_ok r c g → 0 < r → (ms_layout m = None ∨ ms_layout m = Some (r, c)) →
  ∃ m', ms_set idx g m = Ret m' ∧ ms_wf m' ∧ ms_layout m' = Some (r, c) ∧
        ms_state m' = dset idx g (ms_state m).
Proof.
  intros Hwf Hg Hr Hlay. unfold ms_set, _ensure_layout. rewrite (grid_size_ok r c) by done. cbn [fst].
  replace (Nat.eqb r 0) with false by (symmetry; apply Nat.eqb_neq; lia).
  assert (∀ l, l = Some (r, c) → ms_wf (mkMap (dset idx g (ms_state m)) l)) as Hwf'.
  { intros l ->. split; cbn.
    - apply NoDup_dset, Hwf.
    - intros idx' g' E. exists r, c. split; [done|]. split; [done|]. rewrite dget_dset in E.
      case_decide; [by simplify_eq|]. destruct (ms_shape m Hwf idx' g' E) as (r' & c' & El & _ & Hg').
      destruct Hlay as [Hn|Hs]; congruence.
    - by intros r' c' [= <- <-]. }
  destruct Hlay as [Hn|Hs].
  - rewrite Hn. cbn. eexists. split; [reflexivity|]. split_and!; [by apply Hwf'|done..].
  - rewrite Hs, bool_decide_true by done. cbn. eexists. split; [reflexivity|].
    split_and!; [apply Hwf'; done|done..].
Qed.

Lemma merge_loop_ok r c grids z :
  grid_ok r c z → Forall (grid_ok r c) grids →
  ∃ g, merge_loop z grids = Ret g ∧ grid_ok r c g ∧
       ∀ i j, cell g i j = cell z i j || existsb (λ h, cell h i j) grids.
Proof.
  intros Hz Hall. revert z Hz. induction Hall as [|g grids Hg Hall IH]; intros z Hz.
  - exists z. split_and!; [done..|]. intros; by rewrite orb_false_r.
  - destruct (grid_iadd_ok r c z g Hz Hg) as (z' & E & Hz' & Hc). cbn. rewrite E. cbn.
    destruct (IH z' Hz') as (m & -> & Hm & Hcm). exists m. split_and!; [done..|].
    intros i j. by rewrite Hcm, Hc, orb_assoc.
Qed.

Lemma existsb_dget (d : dict Z Bitmap2D) (P : Bitmap2D → bool) :
  NoDup (dkeys d) → existsb P (dvalues d) = true ↔ ∃ idx g, dget idx d = Some g ∧ P g = true.
Proof.
  intros Hnd. rewrite existsb_exists. split.
  - intros (g & Hg%list_elem_of_In & HP). unfold dvalues in Hg.
    apply list_elem_of_fmap in Hg as ([idx g'] & -> & Hin). exists idx, g'. split; [by apply elem_dget|done].
  - intros (idx & g & E & HP). exists g. split; [|done]. apply list_elem_of_In. unfold dvalues.
    apply list_elem_of_fmap. exists (idx, g). split; [done|]. by apply dget_Some_elem.
Qed.

(** [merge] is the union of the grids. *)
Lemma merge_ok r c m :
  ms_wf m → ms_layout m = Some (r, c) →
  ∃ g, merge m = Ret g ∧ grid_ok r c g ∧ ∀ i j, cell g i j = true ↔ ∃ idx, locked m idx i j = true.
Proof.
  intros Hwf Hlay. unfold merge. rewrite Hlay. destruct (grid_zeros_ok r c) as (z & -> & Hz & Hcz). cbn.
  destruct (merge_loop_ok r c (dvalues (ms_state m)) z Hz) as (g & -> & Hg & Hc).
  { apply Forall_forall. intros g Hin. unfold dvalues in Hin. apply list_elem_of_fmap in Hin as ([idx g'] & -> & Hin).
    apply elem_dget in Hin; [|apply Hwf]. destruct (ms_shape m Hwf idx g' Hin) as (r' & c' & E & _ & Hg'). cbn. congruence. }
  exists g. split_and!; [done..|]. intros i j. rewrite Hc, Hcz. cbn [orb]. rewrite existsb_dget by apply Hwf.
  unfold locked. split.
  - intros (idx & h & E & Hh). exists idx. by rewrite E.
  - intros [idx Hl]. destruct (dget idx (ms_state m)) as [h|] eqn:E; [|done]. eauto.
Qed.
