(* ===== verification/PrefetchPolicy.v ===== *)
(** * Store and prefetch policies

    The decisions of the storage controllers
    (storage_controllers/store_policy.py and prefetch_policy.py): which L2
    adapters a written key goes to and whether it then leaves L1, and, for a
    lookup, which cells of the request are served from which L1 manager and
    which are loaded from which L2 adapter. The policies are pure; the
    descriptors of managers and adapters only name them, so their type is a
    parameter and a table of descriptors is a dictionary by index. *)

From stdpp Require Import list sorting.
From Stdlib Require Import ZArith Lia.
From S2P Require Import Prelude Keys Bitmap Fold Grid.

Open Scope nat_scope.
Open Scope py_scope.

(** ** Store policies *)

(** The two questions a store policy answers. [D] is [L2AdapterDescriptor]. *)
Class StorePolicy (P D : Type) := {
  select_store_targets : list ObjectKey → list (Z * D) → P → dict Z (list ObjectKey);
  select_l1_deletions : list ObjectKey → P → list ObjectKey
}.

(** [{ad.index: list(keys) for ad in adapters}]. *)
Definition default_store_targets {D} (keys : list ObjectKey) (adapters : list (Z * D))
    : dict Z (list ObjectKey) := foldl (λ d ad, dset ad.1 keys d) [] adapters.

Inductive DefaultStorePolicy := default_store.
Inductive BufferOnlyStorePolicy := skip_l1.

#[export] Instance DefaultStorePolicy_policy D : StorePolicy DefaultStorePolicy D := {|
  select_store_targets := λ keys adapters _, default_store_targets keys adapters;
  select_l1_deletions := λ _ _, []
|}.

#[export] Instance BufferOnlyStorePolicy_policy D : StorePolicy BufferOnlyStorePolicy D := {|
  select_store_targets := λ keys adapters _, default_store_targets keys adapters;
  select_l1_deletions := λ keys _, keys
|}.

(** ** Prefetch policy *)

Inductive FetchingPolicy := prefix | full.

(** [sorted(d)] of a dictionary with integer keys. *)
Definition sorted_keys {V} (d : dict Z V) : list Z := merge_sort Z.le (dkeys d).

Definition _grid_matches_groups (grid : Bitmap2D) (key_groups : list GroupedObjectKeys) : bool :=
  match key_groups with
  | [] => bool_decide (grid_size grid = (0, 0))
  | g :: _ => bool_decide (grid_size grid = (length key_groups, length (gk_keys g)))
  end.

Definition _merged_or_zeros (state : MapState) (key_groups : list GroupedObjectKeys) : py Bitmap2D :=
  let! merged := merge state in
  if Nat.ltb 0 (length merged) then Ret merged
  else match key_groups with
       | [] => Raise IndexError
       | g :: _ => grid_zeros (Z.of_nat (length key_groups)) (Z.of_nat (length (gk_keys g)))
       end.

Fixpoint plan_tier_loop (locked_keys : MapState) (indices : list Z) (plan : MapState) (remaining : Bitmap2D)
    : py (MapState * Bitmap2D) :=
  match indices with
  | [] => Ret (plan, remaining)
  | index :: indices' =>
      if negb (dmem index (ms_state locked_keys)) then plan_tier_loop locked_keys indices' plan remaining
      else
        let! grid := ms_get index locked_keys in
        let! local := grid_and remaining grid in
        if Nat.eqb (grid_popcount local) 0 then plan_tier_loop locked_keys indices' plan remaining
        else
          let! plan' := ms_set index local plan in
          let! remaining' := grid_sub remaining local in
          plan_tier_loop locked_keys indices' plan' remaining'
  end.

Definition _plan_tier (needed : Bitmap2D) (locked_keys : MapState) (indices : list Z)
    : py (MapState * Bitmap2D) := plan_tier_loop locked_keys indices ms_empty needed.

Record PrefetchPlan := mkPlan { l1_planned_keys : MapState; l2_planned_keys : MapState }.

Definition empty_plan : PrefetchPlan := mkPlan ms_empty ms_empty.

(** [l1_plan], then [l2_plan] from what L1 leaves. *)
Definition plan_tiers {D1 D2} (needed : Bitmap2D) (l1_locked_keys l2_locked_keys : MapState)
    (l1_manager_descs : dict Z D1) (l2_adapter_descs : dict Z D2) : py PrefetchPlan :=
  let! l1 := _plan_tier needed l1_locked_keys (sorted_keys l1_manager_descs) in
  let! l2 := _plan_tier l1.2 l2_locked_keys (sorted_keys l2_adapter_descs) in
  Ret (mkPlan l1.1 l2.1).

Definition plan_load {D1 D2} (kernels : bool) (key_groups : list GroupedObjectKeys)
    (l1_locked_keys l2_locked_keys : MapState) (l1_manager_descs : dict Z D1) (l2_adapter_descs : dict Z D2)
    (fetching_policy : FetchingPolicy) : py PrefetchPlan :=
  match key_groups with
  | [] => Ret empty_plan
  | _ =>
      let sliding_windows := gk_sliding_window_size <$> key_groups in
      let! l1_found := _merged_or_zeros l1_locked_keys key_groups in
      let! l2_found := _merged_or_zeros l2_locked_keys key_groups in
      if negb (_grid_matches_groups l1_found key_groups) || negb (_grid_matches_groups l2_found key_groups)
      then Ret empty_plan
      else
        let! found := grid_add l1_found l2_found in
        match fetching_policy with
        | full =>
            if existsb (λ w, FULL_ATTENTION_WINDOW <? w)%Z sliding_windows then Ret empty_plan
            else plan_tiers found l1_locked_keys l2_locked_keys l1_manager_descs l2_adapter_descs
        | prefix =>
            match fold_unfold_grouped kernels found sliding_windows with
            | Raise ValueError => Ret empty_plan
            | Raise e => Raise e
            | Ret (_, retain) =>
                let! keep := new_grid retain in
                let! needed := grid_and keep found in
                plan_tiers needed l1_locked_keys l2_locked_keys l1_manager_descs l2_adapter_descs
            end
        end
  end.

(** [plan_l1_retention] of the two policies. *)
Definition default_l1_retention (keys : list ObjectKey) : list bool := replicate (length keys) false.
Definition retain_l1_retention (keys : list ObjectKey) : list bool := replicate (length keys) true.

(** ** One tier *)

(** The first index of [order] that holds a cell. *)
Definition first_holder (m : MapState) (order : list Z) (i j : nat) : option Z :=
  head (filter (λ idx, locked m idx i j = true) order).

Lemma first_holder_snoc m order idx i j :
  first_holder m (order ++ [idx]) i j
  = match first_holder m order i j with
    | Some x => Some x
    | None => if locked m idx i j then Some idx else None
    end.
Proof.
  unfold first_holder. rewrite filter_app. destruct (filter _ order); [|done]. cbn [app].
  rewrite filter_cons. by destruct (locked m idx i j).
Qed.

Lemma first_holder_in m order i j idx : first_holder m order i j = Some idx → idx ∈ order ∧ locked m idx i j = true.
Proof.
  unfold first_holder. intros E. assert (idx ∈ filter (λ idx, locked m idx i j = true) order) as [? ?]%list_elem_of_filter.
  { destruct (filter _ order); [done|]. injection E as ->. left. }
  done.
Qed.

Lemma first_holder_None m order i j : first_holder m order i j = None ↔ ∀ idx, idx ∈ order → locked m idx i j = false.
Proof.
  unfold first_holder. split.
  - intros E idx Hin. apply not_true_is_false. intros Hl.
    assert (idx ∈ filter (λ idx, locked m idx i j = true) order) as Hf by (by apply list_elem_of_filter).
    destruct (filter _ order); [by apply not_elem_of_nil in Hf|done].
  - intros Hall. destruct (filter _ order) as [|x l] eqn:E; [done|].
    assert (x ∈ filter (λ idx, locked m idx i j = true) order) as [Hx Hin]%list_elem_of_filter by (rewrite E; left).
    by rewrite Hall in Hx.
Qed.

Lemma locked_dset m idx g l x i j :
  locked (mkMap (dset idx g (ms_state m)) l) x i j = if decide (idx = x) then cell g i j else locked m x i j.
Proof. unfold locked. cbn. rewrite dget_dset. by case_decide. Qed.

(** Maps that can hold grids of [r] rows and [c] columns. *)
Definition fits (r c : nat) (m : MapState) : Prop := ms_wf m ∧ (ms_layout m = None ∨ ms_layout m = Some (r, c)).

Lemma fits_get r c m idx g : 0 < r → fits r c m → dget idx (ms_state m) = Some g → grid_ok r c g.
Proof. intros Hr [Hwf Hl] E. destruct (ms_shape m Hwf idx g E) as (r' & c' & E' & _ & Hg). destruct Hl; congruence. Qed.

(** What the loop has done when it has gone through [pre]. *)
Record tier_done (r c : nat) (needed : Bitmap2D) (m : MapState) (pre : list Z) (plan : MapState)
    (remaining : Bitmap2D) : Prop := {
  td_fits : fits r c plan;
  td_rem : grid_ok r c remaining;
  td_plan : ∀ idx i j, locked plan idx i j = true ↔ cell needed i j = true ∧ first_holder m pre i j = Some idx;
  td_left : ∀ i j, cell remaining i j = true ↔ cell needed i j = true ∧ first_holder m pre i j = None;
  td_keys : ∀ idx, idx ∈ dkeys (ms_state plan) → idx ∈ dkeys (ms_state m)
}.

Lemma tier_done_skip r c needed m pre plan remaining idx :
  tier_done r c needed m pre plan remaining →
  (∀ i j, cell remaining i j = true → locked m idx i j = false) →
  tier_done r c needed m (pre ++ [idx]) plan remaining.
Proof.
  intros [Hf Hr Hp Hl Hk] Hno. split; [done..| | |done]; intros; rewrite first_holder_snoc.
  - rewrite Hp. split; intros [Hn Hh]; split; try done.
    + by rewrite Hh.
    + destruct (first_holder m pre i j) eqn:E; [done|]. rewrite Hno in Hh; [done|]. by apply Hl.
  - rewrite Hl. split; intros [Hn Hh]; split; try done.
    + rewrite Hh, Hno; [done|]. by apply Hl.
    + by destruct (first_holder m pre i j).
Qed.

Lemma tier_done_take r c needed m pre plan remaining idx grid local plan' remaining' :
  0 < r → idx ∉ pre → dget idx (ms_state m) = Some grid →
  tier_done r c needed m pre plan remaining →
  grid_ok r c local → (∀ i j, cell local i j = cell remaining i j && cell grid i j) →
  fits r c plan' → ms_state plan' = dset idx local (ms_state plan) →
  grid_ok r c remaining' → (∀ i j, cell remaining' i j = cell remaining i j && negb (cell local i j)) →
  tier_done r c needed m (pre ++ [idx]) plan' remaining'.
Proof.
  intros Hr0 Hnew Eg [Hf Hr Hp Hl Hk] Hlo Hlocal Hf' Es Hr' Hrem.
  assert (∀ i j, locked m idx i j = cell grid i j) as Em by (intros; unfold locked; by rewrite Eg).
  split; [done..| | |].
  - intros x i j. rewrite first_holder_snoc, Em.
    assert (locked plan' x i j = if decide (idx = x) then cell local i j else locked plan x i j) as ->.
    { unfold locked. rewrite Es, dget_dset. by case_decide. }
    case_decide as Hx.
    + subst x. rewrite Hlocal, andb_true_iff, Hl. split.
      * intros [[Hn ->] ->]. done.
      * intros [Hn Hh]. destruct (first_holder m pre i j) eqn:E.
        { injection Hh as ->. by apply first_holder_in in E as [? _]. }
        destruct (cell grid i j); [done|discriminate].
    + rewrite Hp. split; intros [Hn Hh]; (split; [done|]); [by rewrite Hh|].
      destruct (first_holder m pre i j); [done|]. destruct (cell grid i j); congruence.
  - intros i j. rewrite first_holder_snoc, Em, Hrem, Hlocal, andb_true_iff.
    destruct (cell remaining i j) eqn:E.
    + apply Hl in E as [Hn Hh]. rewrite Hh. destruct (cell grid i j); cbn; split; intros [? ?]; (discriminate || done).
    + split; [by intros [? _]|]. intros [Hn Hh]. exfalso.
      assert (cell remaining i j = true) as E'; [|congruence]. apply Hl. split; [done|].
      by destruct (first_holder m pre i j).
  - intros x. rewrite Es, elem_dkeys_dset. intros [?| ->]; [by apply Hk|]. apply dget_is_Some. by eexists.
Qed.

Lemma plan_tier_loop_ok r c needed m indices pre plan remaining :
  0 < r → fits r c m → NoDup (pre ++ indices) → tier_done r c needed m pre plan remaining →
  ∃ plan' remaining', plan_tier_loop m indices plan remaining = Ret (plan', remaining') ∧
    tier_done r c needed m (pre ++ indices) plan' remaining'.
Proof.
  intros Hr Hm. revert pre plan remaining. induction indices as [|idx indices IH]; intros pre plan remaining Hnd Htd.
  { exists plan, remaining. by rewrite app_nil_r. }
  cbn [plan_tier_loop]. assert (NoDup ((pre ++ [idx]) ++ indices)) as Hnd' by (by rewrite <-app_assoc).
  replace (pre ++ idx :: indices) with ((pre ++ [idx]) ++ indices) by (by rewrite <-app_assoc).
  unfold dmem. destruct (dget idx (ms_state m)) as [grid|] eqn:Eg; cbn [negb].
  2:{ apply IH; [done|]. apply tier_done_skip; [done|]. intros; unfold locked; by rewrite Eg. }
  unfold ms_get. rewrite Eg. cbn [py_bind].
  pose proof (fits_get r c m idx grid Hr Hm Eg) as Hgrid.
  destruct (grid_and_ok r c remaining grid (td_rem _ _ _ _ _ _ _ Htd) Hgrid) as (local & -> & Hlo & Hlocal). cbn [py_bind].
  destruct (Nat.eqb_spec (grid_popcount local) 0) as [Hz|_].
  { apply IH; [done|]. apply tier_done_skip; [done|]. intros i j Hc.
    rewrite (grid_popcount_zero r c) in Hz by done. specialize (Hz i j). rewrite Hlocal, Hc in Hz.
    unfold locked. by rewrite Eg. }
  destruct (td_fits _ _ _ _ _ _ _ Htd) as [Hwfp Hlp].
  destruct (ms_set_ok r c idx local plan Hwfp Hlo Hr Hlp) as (plan' & -> & Hwf' & Hlay' & Es). cbn [py_bind].
  destruct (grid_sub_ok r c remaining local (td_rem _ _ _ _ _ _ _ Htd) Hlo) as (rem' & -> & Hrem' & Hc'). cbn [py_bind].
  assert (idx ∉ pre) as Hnew by (apply NoDup_app in Hnd as (_ & Hnd & _); intros Hin; by apply (Hnd idx Hin); left).
  apply IH; [done|]. refine (tier_done_take r c needed m pre plan remaining idx grid local plan' rem' Hr Hnew Eg Htd
    Hlo Hlocal _ Es Hrem' Hc'). split; [done|by right].
Qed.

Lemma plan_tier_ok r c needed m indices :
  0 < r → fits r c m → NoDup indices → grid_ok r c needed →
  ∃ plan rest, _plan_tier needed m indices = Ret (plan, rest) ∧ tier_done r c needed m indices plan rest.
Proof.
  intros Hr Hm Hnd Hok. apply (plan_tier_loop_ok r c needed m indices [] ms_empty needed); [done..|].
  split; [split; [apply ms_empty_wf|by left]|done| | |].
  - intros idx i j. split; [done|]. intros [_ Hh]. discriminate Hh.
  - intros i j. unfold first_holder. cbn. tauto.
  - by intros idx ?%not_elem_of_nil.
Qed.

Lemma NoDup_sorted_keys {V} (d : dict Z V) : NoDup (dkeys d) → NoDup (sorted_keys d).
Proof. intros Hnd. unfold sorted_keys. by rewrite merge_sort_Permutation. Qed.

(** The plan of both tiers: a needed cell is planned once, from the first L1
    manager that holds it, or else from the first L2 adapter. *)
Definition plan_spec {D1 D2} (l1 l2 : MapState) (d1 : dict Z D1) (d2 : dict Z D2) (needed : nat → nat → Prop)
    (plan : PrefetchPlan) : Prop :=
  ∀ idx i j,
    (locked (l1_planned_keys plan) idx i j = true ↔
       needed i j ∧ first_holder l1 (sorted_keys d1) i j = Some idx) ∧
    (locked (l2_planned_keys plan) idx i j = true ↔
       needed i j ∧ first_holder l1 (sorted_keys d1) i j = None ∧ first_holder l2 (sorted_keys d2) i j = Some idx).

(** Its maps are of the request's shape and name indices of the maps it was
    made from. *)
Record plan_shape (r c : nat) (l1 l2 : MapState) (plan : PrefetchPlan) : Prop := {
  ps_fits1 : fits r c (l1_planned_keys plan);
  ps_fits2 : fits r c (l2_planned_keys plan);
  ps_keys1 : ∀ idx, idx ∈ dkeys (ms_state (l1_planned_keys plan)) → idx ∈ dkeys (ms_state l1);
  ps_keys2 : ∀ idx, idx ∈ dkeys (ms_state (l2_planned_keys plan)) → idx ∈ dkeys (ms_state l2)
}.

Lemma empty_plan_shape r c l1 l2 : plan_shape r c l1 l2 empty_plan.
Proof. split; cbn; try (split; [apply ms_empty_wf|by left]); by intros idx ?%not_elem_of_nil. Qed.

Lemma plan_tiers_ok {D1 D2} r c needed l1 l2 (d1 : dict Z D1) (d2 : dict Z D2) :
  0 < r → fits r c l1 → fits r c l2 → NoDup (dkeys d1) → NoDup (dkeys d2) → grid_ok r c needed →
  ∃ plan, plan_tiers needed l1 l2 d1 d2 = Ret plan ∧ plan_spec l1 l2 d1 d2 (λ i j, cell needed i j = true) plan ∧
    plan_shape r c l1 l2 plan.
Proof.
  intros Hr H1 H2 Hn1 Hn2 Hok. unfold plan_tiers.
  destruct (plan_tier_ok r c needed l1 (sorted_keys d1) Hr H1 (NoDup_sorted_keys d1 Hn1) Hok) as (p1 & rest & -> & T1).
  cbn. destruct (plan_tier_ok r c rest l2 (sorted_keys d2) Hr H2 (NoDup_sorted_keys d2 Hn2) (td_rem _ _ _ _ _ _ _ T1))
    as (p2 & rest2 & -> & T2).
  cbn. eexists. split; [reflexivity|]. split.
  - intros idx i j. cbn. split; [apply T1|]. rewrite (td_plan _ _ _ _ _ _ _ T2), (td_left _ _ _ _ _ _ _ T1). tauto.
  - split; [apply T1|apply T2|apply T1|apply T2].
Qed.

(** ** A whole request *)

(** The cells a request needs, given the grid [g] of the cells found anywhere:
    all of them, or those that the longest servable prefix needs. *)
Definition wanted (p : FetchingPolicy) (n : nat) (g : Bitmap2D) (windows : list Z) (i j : nat) : Prop :=
  match p with
  | full => Forall (λ w, w <= FULL_ATTENTION_WINDOW)%Z windows ∧ cell g i j = true
  | prefix => ∃ h w, longest_hit n g windows h ∧ windows !! i = Some w ∧ retained h w n j
  end.

Definition windows_of (groups : list GroupedObjectKeys) : list Z := gk_sliding_window_size <$> groups.
Definition num_chunks_of (groups : list GroupedObjectKeys) : nat :=
  match groups with [] => 0 | g :: _ => length (gk_keys g) end.

(** [g] holds the cells locked in some tier. *)
Definition found_grid (l1 l2 : MapState) (g : Bitmap2D) : Prop :=
  ∀ i j, cell g i j = true ↔ (∃ idx, locked l1 idx i j = true) ∨ (∃ idx, locked l2 idx i j = true).

Lemma merged_or_zeros_ok groups m :
  groups ≠ [] → fits (length groups) (num_chunks_of groups) m →
  ∃ g, _merged_or_zeros m groups = Ret g ∧ grid_ok (length groups) (num_chunks_of groups) g ∧
       ∀ i j, cell g i j = true ↔ ∃ idx, locked m idx i j = true.
Proof.
  intros Hne [Hwf Hl]. unfold _merged_or_zeros. destruct groups as [|gr groups]; [done|]. destruct Hl as [Hn|Hs].
  - unfold merge. rewrite Hn. cbn [new_grid py_bind length Nat.ltb Nat.leb].
    destruct (grid_zeros_ok (length (gr :: groups)) (length (gk_keys gr))) as (g & E & Hg & Hc).
    exists g. split; [exact E|]. split; [exact Hg|]. intros i j. rewrite Hc. split; [done|].
    intros [idx Hl]. unfold locked in Hl. destruct (dget idx (ms_state m)) as [h|] eqn:E'; [|done].
    destruct (ms_shape m Hwf idx h E') as (? & ? & ? & _). congruence.
  - destruct (merge_ok _ _ m Hwf Hs) as (g & -> & Hg & Hc). cbn [py_bind].
    destruct (Nat.ltb_spec 0 (length g)) as [|Hz]; [by exists g|]. destruct Hg as [Hg _]. rewrite Hg in Hz. cbn in Hz. lia.
Qed.

Lemma grid_matches_ok groups g :
  groups ≠ [] → grid_ok (length groups) (num_chunks_of groups) g → _grid_matches_groups g groups = true.
Proof.
  intros Hne Hg. destruct groups as [|gr groups]; [done|]. apply bool_decide_eq_true_2.
  apply grid_size_ok; [apply Nat.lt_0_succ|exact Hg].
Qed.

Lemma plan_spec_iff {D1 D2} l1 l2 (d1 : dict Z D1) (d2 : dict Z D2) (P Q : nat → nat → Prop) plan :
  (∀ i j, P i j ↔ Q i j) → plan_spec l1 l2 d1 d2 P plan → plan_spec l1 l2 d1 d2 Q plan.
Proof. intros Hpq Hp idx i j. rewrite <-(Hpq i j). apply Hp. Qed.

Lemma empty_plan_spec {D1 D2} l1 l2 (d1 : dict Z D1) (d2 : dict Z D2) P :
  (∀ i j, ¬ P i j) → plan_spec l1 l2 d1 d2 P empty_plan.
Proof. intros Hno idx i j. cbn. unfold locked. cbn. split; (split; [done|]); intros [HP _]; by apply Hno in HP. Qed.

(** The cells the prefix fold retains are found, so intersecting with the found
    cells removes nothing. *)
Lemma prefix_needed n (g : list Bitmap) windows h i j :
  longest_hit n g windows h → length g = length windows →
  (∃ w, windows !! i = Some w ∧ retained h w n j) → cell g i j = true.
Proof.
  intros (_ & Hs & _) Hlen (w & Hw & Hret). unfold cell.
  destruct (lookup_lt_is_Some_2 g i) as [row Hrow]; [apply lookup_lt_Some in Hw; congruence || by rewrite Hlen|].
  rewrite Hrow. exact (Hs i row w Hrow Hw j Hret).
Qed.

Lemma longest_hit_unique n (g : list Bitmap) windows h h' : longest_hit n g windows h → longest_hit n g windows h' → h = h'.
Proof.
  intros (A1 & A2 & A3) (B1 & B2 & B3).
  destruct (lt_eq_lt_dec h h') as [[Hlt| ->]|Hlt]; [|done|]; exfalso; [apply (A3 h')|apply (B3 h)]; done || lia.
Qed.

Lemma retain_grid n g windows h :
  longest_hit n g windows h →
  grid_ok (length windows) n (native_unfold_grouped h n windows) ∧
  ∀ i j, cell (native_unfold_grouped h n windows) i j = true ↔ ∃ w, windows !! i = Some w ∧ retained h w n j.
Proof.
  intros (Hle & _ & _).
  assert (length (native_unfold_grouped h n windows) = length windows) as Hlen
    by (unfold native_unfold_grouped; by rewrite length_fmap).
  split; [split; [done|]|].
  - apply Forall_lookup. intros i row Hrow.
    destruct (lookup_lt_is_Some_2 windows i) as [w Hw]; [apply lookup_lt_Some in Hrow; lia|].
    destruct (native_unfold_grouped_spec h n windows i w Hle Hw) as (row' & E & Hwf & Hs & _).
    rewrite Hrow in E. by injection E as ->.
  - intros i j. unfold cell. destruct (windows !! i) as [w|] eqn:Hw.
    + destruct (native_unfold_grouped_spec h n windows i w Hle Hw) as (row & -> & _ & _ & Hk). rewrite Hk.
      split; [by exists w|]. by intros (w' & [= <-] & ?).
    + rewrite (lookup_ge_None_2 (native_unfold_grouped h n windows)) by (apply lookup_ge_None in Hw; lia).
      split; [done|]. by intros (w' & ? & _).
Qed.

Lemma plan_load_prefix {D1 D2} n g l1 l2 (d1 : dict Z D1) (d2 : dict Z D2) windows :
  0 < length g → grid_ok (length windows) n g → Forall fits_int64 windows → (Z.of_nat n < 2 ^ 64)%Z →
  fits (length windows) n l1 → fits (length windows) n l2 → NoDup (dkeys d1) → NoDup (dkeys d2) →
  ∃ h retain keep needed plan,
    fold_unfold_grouped true g windows = Ret (h, retain) ∧ new_grid retain = Ret keep ∧
    grid_and keep g = Ret needed ∧ plan_tiers needed l1 l2 d1 d2 = Ret plan ∧
    plan_spec l1 l2 d1 d2 (wanted prefix n g windows) plan ∧ plan_shape (length windows) n l1 l2 plan.
Proof.
  intros H0 Hg Hfit Hn H1 H2 Hn1 Hn2. pose proof Hg as [Hlen Hrows].
  assert (g ≠ []) as Hne by (intros ->; apply Nat.lt_irrefl in H0; done).
  destruct (fold_unfold_grouped_run n g windows Hrows Hne Hlen Hfit Hn) as (h & Hh & E).
  destruct (retain_grid n g windows h Hh) as [Hkeep Hck].
  destruct (grid_and_ok _ _ _ _ Hkeep Hg) as (needed & En & Hneed & Hcn).
  destruct (plan_tiers_ok (length windows) n needed l1 l2 d1 d2) as (plan & Ep & Hp & Hshape); try done.
  { by rewrite <-Hlen. }
  exists (Z.of_nat h), (native_unfold_grouped h n windows), (native_unfold_grouped h n windows), needed, plan.
  split_and!; [exact E|eapply new_grid_ok, Hkeep|exact En|exact Ep| |exact Hshape].
  eapply plan_spec_iff, Hp. intros i j. cbn beta. rewrite Hcn, andb_true_iff, Hck. cbn [wanted]. split.
  - intros [(w & Hw & Hr) _]. by exists h, w.
  - intros (h' & w & Hh' & Hw & Hr). rewrite (longest_hit_unique _ _ _ _ _ Hh' Hh) in Hr.
    split; [by exists w|]. eapply (prefix_needed n g windows h); [exact Hh|exact Hlen|by exists w].
Qed.

Lemma plan_load_run {D1 D2} groups l1 l2 (d1 : dict Z D1) (d2 : dict Z D2) policy :
  groups ≠ [] →
  fits (length groups) (num_chunks_of groups) l1 → fits (length groups) (num_chunks_of groups) l2 →
  NoDup (dkeys d1) → NoDup (dkeys d2) →
  Forall fits_int64 (windows_of groups) → (Z.of_nat (num_chunks_of groups) < 2 ^ 64)%Z →
  ∃ g plan, plan_load true groups l1 l2 d1 d2 policy = Ret plan ∧ found_grid l1 l2 g ∧
    plan_spec l1 l2 d1 d2 (wanted policy (num_chunks_of groups) g (windows_of groups)) plan ∧
    plan_shape (length groups) (num_chunks_of groups) l1 l2 plan.
Proof.
  intros Hne H1 H2 Hn1 Hn2 Hfit Hn.
  destruct (merged_or_zeros_ok groups l1 Hne H1) as (g1 & E1 & Hg1 & Hc1).
  destruct (merged_or_zeros_ok groups l2 Hne H2) as (g2 & E2 & Hg2 & Hc2).
  destruct (grid_add_ok _ _ g1 g2 Hg1 Hg2) as (g & Eg & Hg & Hc).
  assert (length groups = length (windows_of groups)) as Hlen by (unfold windows_of; by rewrite length_fmap).
  exists g. unfold plan_load. destruct groups as [|gr groups'] eqn:Egr; [done|]. rewrite <-Egr in *.
  rewrite E1, E2. cbn [py_bind]. rewrite !grid_matches_ok by done. cbn [negb orb]. rewrite Eg. cbn [py_bind].
  assert (0 < length g) as H0 by (destruct Hg as [-> _]; rewrite Egr; apply Nat.lt_0_succ).
  assert (found_grid l1 l2 g) as Hf by (intros i j; by rewrite Hc, orb_true_iff, Hc1, Hc2).
  fold (windows_of groups). destruct policy.
  - rewrite Hlen in *. destruct (plan_load_prefix _ g l1 l2 d1 d2 (windows_of groups) H0 Hg Hfit Hn H1 H2 Hn1 Hn2)
      as (h & retain & keep & needed & plan & -> & E3 & E4 & E5 & Hp & Hshape).
    exists plan. rewrite E3. cbn [py_bind]. rewrite E4. cbn [py_bind]. by rewrite E5.
  - destruct (existsb (λ w, FULL_ATTENTION_WINDOW <? w)%Z (windows_of groups)) eqn:Ew.
    + exists empty_plan. split_and!; [done..| |apply empty_plan_shape]. apply empty_plan_spec. intros i j [Hall _].
      apply existsb_exists in Ew as (w & Hw%list_elem_of_In & Hlt). rewrite Forall_forall in Hall.
      specialize (Hall w Hw). lia.
    + destruct (plan_tiers_ok (length groups) (num_chunks_of groups) g l1 l2 d1 d2) as (plan & Ep & Hp & Hshape); try done.
      { destruct Hg as [<- _]. done. }
      exists plan. split_and!; [exact Ep|done| |exact Hshape]. eapply plan_spec_iff, Hp. intros i j. cbn. split; [|by intros [_ ?]].
      intros Hcell. split; [|done]. apply Forall_forall. intros w Hw. apply Z.nlt_ge. intros Hlt.
      rewrite (proj2 (existsb_exists _ _)) in Ew; [done|]. exists w. split; [by apply list_elem_of_In|by apply Z.ltb_lt].
Qed.

(** C31: [DefaultPrefetchPolicy.plan_load] on a request whose lookup results
    have its shape: it returns a plan - it does not raise - in which a cell
    is served by an L1 manager exactly when the request wants the cell and
    that manager is the lowest-indexed one holding it, and loaded from an L2
    adapter exactly when the request wants it, no L1 manager holds it and
    that adapter is the lowest-indexed one holding it. A full request wants
    every cell found, and nothing if a group has a sliding window; a prefix
    request wants the cells the longest servable prefix needs. *)
Theorem plan_load_spec {D1 D2} groups l1 l2 (d1 : dict Z D1) (d2 : dict Z D2) policy :
  groups ≠ [] →
  fits (length groups) (num_chunks_of groups) l1 → fits (length groups) (num_chunks_of groups) l2 →
  NoDup (dkeys d1) → NoDup (dkeys d2) →
  Forall fits_int64 (windows_of groups) → (Z.of_nat (num_chunks_of groups) < 2 ^ 64)%Z →
  ∃ g plan, plan_load true groups l1 l2 d1 d2 policy = Ret plan ∧ found_grid l1 l2 g ∧
    plan_spec l1 l2 d1 d2 (wanted policy (num_chunks_of groups) g (windows_of groups)) plan.
Proof.
  intros Hne H1 H2 Hn1 Hn2 Hfit Hn.
  destruct (plan_load_run groups l1 l2 d1 d2 policy Hne H1 H2 Hn1 Hn2 Hfit Hn) as (g & plan & E & Hf & Hp & _). by exists g, plan.
Qed.

(** ** Witness: two groups of four chunks, two L1 managers and one L2 adapter *)

Definition demo_desc : MemoryLayoutDesc := mkLayout [] [].
Definition demo_groups : list GroupedObjectKeys :=
  [mkGrouped (replicate 4 demo_key) 0 demo_desc (-1) 1; mkGrouped (replicate 4 demo_key) 1 demo_desc 2 1].
Definition demo_l1 : MapState :=
  mkMap [(7%Z, [batched_set (new_bitmap 4) [0; 1]; new_bitmap 4]);
         (3%Z, [batched_set (new_bitmap 4) [1]; batched_set (new_bitmap 4) [1]])] (Some (2, 4)).
Definition demo_l2 : MapState :=
  mkMap [(0%Z, [batched_set (new_bitmap 4) [2]; batched_set (new_bitmap 4) [1; 2]])] (Some (2, 4)).

Lemma batched_set_row n l : bm_wf (batched_set (new_bitmap n) l) ∧ bm_size (batched_set (new_bitmap n) l) = n.
Proof.
  unfold batched_set. generalize (conj (new_bitmap_wf n) (eq_refl n) : bm_wf (new_bitmap n) ∧ bm_size (new_bitmap n) = n).
  generalize (new_bitmap n). induction l as [|x l IH]; intros b Hb; [exact Hb|]. cbn. apply IH.
  destruct Hb. split; [by apply bm_set_wf|by rewrite bm_set_size].
Qed.

Lemma two_rows_ok n a b : grid_ok 2 n [batched_set (new_bitmap n) a; batched_set (new_bitmap n) b].
Proof. split; [done|]. apply Forall_cons; split; [apply batched_set_row|]. apply Forall_singleton, batched_set_row. Qed.

Lemma demo_maps_fit : fits 2 4 demo_l1 ∧ fits 2 4 demo_l2.
Proof.
  split; (split; [|by right]); (split; [apply (bool_decide_unpack _); vm_compute; exact I| |]).
  2, 4: intros r c [= <- <-]; lia.
  - intros idx g E. exists 2, 4. split; [done|]. split; [lia|]. unfold demo_l1 in E. cbn [ms_state dget] in E.
    case_decide; [injection E as <-; exact (two_rows_ok 4 [0; 1] [])|].
    case_decide; [injection E as <-; exact (two_rows_ok 4 [1] [1])|discriminate].
  - intros idx g E. exists 2, 4. split; [done|]. split; [lia|]. unfold demo_l2 in E. cbn [ms_state dget] in E.
    case_decide; [injection E as <-; exact (two_rows_ok 4 [2] [1; 2])|discriminate].
Qed.

Lemma plan_load_spec_witness :
  ∃ g plan, plan_load true demo_groups demo_l1 demo_l2 [(7%Z, tt); (3%Z, tt)] [(0%Z, tt)] prefix = Ret plan ∧
    found_grid demo_l1 demo_l2 g ∧
    locked (l1_planned_keys plan) 3 0 1 = true ∧ locked (l1_planned_keys plan) 7 0 1 = false ∧
    locked (l2_planned_keys plan) 0 0 2 = true ∧ wanted prefix 4 g [-1; 2]%Z 0 2.
Proof.
  destruct (plan_load_spec demo_groups demo_l1 demo_l2 [(7%Z, tt); (3%Z, tt)] [(0%Z, tt)] prefix ltac:(done)
    (proj1 demo_maps_fit) (proj2 demo_maps_fit) ltac:(apply (bool_decide_unpack _); vm_compute; exact I)
    ltac:(apply (bool_decide_unpack _); vm_compute; exact I) demo_windows_fit ltac:(cbn; lia)) as (g & plan & E & Hf & Hp).
  assert (match plan_load true demo_groups demo_l1 demo_l2 [(7%Z, tt); (3%Z, tt)] [(0%Z, tt)] prefix with
          | Ret p => (locked (l1_planned_keys p) 3 0 1, locked (l1_planned_keys p) 7 0 1, locked (l2_planned_keys p) 0 0 2)
          | Raise _ => (false, false, false) end = (true, false, true)) as Hv by (vm_compute; reflexivity).
  rewrite E in Hv. injection Hv as H1 H2 H3.
  exists g, plan. split_and!; [exact E|exact Hf|exact H1|exact H2|exact H3|]. exact (proj1 (proj1 (proj2 (Hp 0%Z 0 2)) H3)).
Defined.
