(* ===== verification/L2Adapter.v ===== *)
(** * L2 adapters: byte accounting and the in-memory adapter

    [L2AdapterInterface] (l2_adapters/base.py) keeps, for every adapter, the
    bytes it stores in total and per [cache_salt]; adapters report what they
    stored and deleted through [_notify_keys_stored] and
    [_notify_keys_deleted], which also tell the registered listeners.
    [MockL2Adapter] (l2_adapters/mock_l2_adapter.py) is the adapter that keeps
    its objects in memory.

    The mock adapter runs its tasks on an event loop thread. A task is queued
    when it is submitted; a store or load runs up to its [asyncio.sleep] and
    finishes later. Which queued task starts next and which sleeping task wakes
    next is left open: a history of the adapter interleaves submissions,
    deletions, queries, starts and wake-ups, each of which is one step. What
    listeners are told is returned as a list of [l2_event]. *)

From stdpp Require Import list strings relations.
From Stdlib Require Import ZArith Lia.
From S2P Require Import Prelude PyFloat TensorAllocator Keys Bitmap.

Open Scope Z_scope.
Open Scope py_scope.

(** ** Usage *)

Record AdapterUsage := mkUsage {
  total_bytes_used : Z;
  total_capacity_bytes : Z;
  bytes_by_cache_salt : dict string Z
}.

Definition f_minus_one : float := SpecFloat.S754_finite true 4503599627370496 (-52).

Definition usage_fraction (u : AdapterUsage) : py float :=
  if total_capacity_bytes u <=? 0 then Ret f_minus_one
  else int_true_div (total_bytes_used u) (total_capacity_bytes u).

(** The counters of [L2AdapterInterface]. *)
Record L2Base := mkBase {
  max_capacity_bytes : Z;
  base_total : Z;                  (* _total_bytes_used *)
  base_by_salt : dict string Z     (* _bytes_by_cache_salt *)
}.

Definition l2_init (capacity : Z) : L2Base := mkBase capacity 0 [].

(** What a registered [L2AdapterListener] is told. *)
Inductive l2_event :=
  | on_l2_keys_stored (keys : list ObjectKey) (sizes : list Z)
  | on_l2_keys_accessed (keys : list ObjectKey)
  | on_l2_keys_deleted (keys : list ObjectKey).

(** The per-salt and total deltas of a batch ([zip(..., strict=True)]). *)
Fixpoint salt_deltas (keys : list ObjectKey) (sizes : list Z) (delta : dict string Z) (total : Z)
    : py (dict string Z * Z) :=
  match keys, sizes with
  | [], [] => Ret (delta, total)
  | key :: keys', size :: sizes' =>
      salt_deltas keys' sizes'
        (dset (cache_salt key) (default 0 (dget (cache_salt key) delta) + size) delta) (total + size)
  | _, _ => Raise ValueError
  end.

Definition add_salt (by_salt : dict string Z) (p : string * Z) : dict string Z :=
  dset p.1 (default 0 (dget p.1 by_salt) + p.2) by_salt.

Definition sub_salt (by_salt : dict string Z) (p : string * Z) : dict string Z :=
  let new_total := default 0 (dget p.1 by_salt) - p.2 in
  if new_total <=? 0 then ddel p.1 by_salt else dset p.1 new_total by_salt.

Definition _notify_keys_stored (keys : list ObjectKey) (sizes : list Z) (b : L2Base)
    : py (L2Base * list l2_event) :=
  let! d := salt_deltas keys sizes [] 0 in
  Ret (mkBase (max_capacity_bytes b) (base_total b + d.2) (foldl add_salt (base_by_salt b) d.1),
       [on_l2_keys_stored keys sizes]).

Definition _notify_keys_accessed (keys : list ObjectKey) : list l2_event := [on_l2_keys_accessed keys].

Definition _notify_keys_deleted (keys : list ObjectKey) (sizes : list Z) (b : L2Base)
    : py (L2Base * list l2_event) :=
  let! d := salt_deltas keys sizes [] 0 in
  let total := base_total b - d.2 in
  Ret (mkBase (max_capacity_bytes b) (if total <? 0 then 0 else total) (foldl sub_salt (base_by_salt b) d.1),
       [on_l2_keys_deleted keys]).

Definition supports_global_eviction (b : L2Base) : bool := 0 <? max_capacity_bytes b.

Definition get_usage (b : L2Base) : AdapterUsage :=
  mkUsage (base_total b) (max_capacity_bytes b) (filter (λ p, 0 < p.2) (base_by_salt b)).

(** What the eviction controller uses of an adapter: its usage, and deletion,
    which may tell the listeners. *)
Class L2Adapter (A : Type) := {
  adapter_usage : A → AdapterUsage;
  adapter_delete : list ObjectKey → A → py (A * list l2_event)
}.

(** ** [L2StoreResult] *)

Definition new_store_result (success : bool) (bytes_transferred : Z) : py Z :=
  if bytes_transferred <? 0 then Raise ValueError
  else Ret (if success then bytes_transferred else -1).
Definition is_successful (r : Z) : bool := 0 <=? r.
Definition bytes_transferred (r : Z) : Z := if 0 <=? r then r else 0.

(** ** [MockL2Adapter] *)

(** A task that waits to run on the loop, and one that sleeps before it
    reports. *)
Inductive mock_job :=
  | JobStore (keys : list ObjectKey) (objects : list MemoryObj) (task_id : Z)
  | JobLookup (keys : list ObjectKey) (task_id : Z)
  | JobUnlock (keys : list ObjectKey)
  | JobLoad (keys : list ObjectKey) (objects : list MemoryObj) (task_id : Z).

Inductive mock_sleeper :=
  | SleepStore (task_id : Z) (success : bool) (total_bytes : Z) (keys : list ObjectKey) (sizes : list Z)
  | SleepLoad (task_id : Z) (bitmap : Bitmap) (accessed : list ObjectKey).

Record MockL2Adapter := mkMock {
  mk_objects : dict ObjectKey MemoryObj;
  mk_locked : dict ObjectKey Z;
  mk_size : Z;                          (* _current_size_bytes *)
  mk_base : L2Base;
  mk_next : Z;                          (* _next_task_id *)
  mk_stores : dict Z Z;                 (* _completed_store_tasks *)
  mk_lookups : dict Z Bitmap;
  mk_loads : dict Z Bitmap;
  mk_queue : list mock_job;
  mk_sleeping : list mock_sleeper
}.

Definition mock_init (capacity : Z) : MockL2Adapter := mkMock [] [] 0 (l2_init capacity) 0 [] [] [] [] [].

Definition set_objects (objs : dict ObjectKey MemoryObj) (size : Z) (m : MockL2Adapter) : MockL2Adapter :=
  mkMock objs (mk_locked m) size (mk_base m) (mk_next m) (mk_stores m) (mk_lookups m) (mk_loads m)
    (mk_queue m) (mk_sleeping m).
Definition set_locked (l : dict ObjectKey Z) (m : MockL2Adapter) : MockL2Adapter :=
  mkMock (mk_objects m) l (mk_size m) (mk_base m) (mk_next m) (mk_stores m) (mk_lookups m) (mk_loads m)
    (mk_queue m) (mk_sleeping m).
Definition set_base (b : L2Base) (m : MockL2Adapter) : MockL2Adapter :=
  mkMock (mk_objects m) (mk_locked m) (mk_size m) b (mk_next m) (mk_stores m) (mk_lookups m) (mk_loads m)
    (mk_queue m) (mk_sleeping m).
Definition set_results (stores : dict Z Z) (lookups loads : dict Z Bitmap) (m : MockL2Adapter) : MockL2Adapter :=
  mkMock (mk_objects m) (mk_locked m) (mk_size m) (mk_base m) (mk_next m) stores lookups loads
    (mk_queue m) (mk_sleeping m).
Definition set_tasks (next : Z) (queue : list mock_job) (sleeping : list mock_sleeper) (m : MockL2Adapter)
    : MockL2Adapter :=
  mkMock (mk_objects m) (mk_locked m) (mk_size m) (mk_base m) next (mk_stores m) (mk_lookups m) (mk_loads m)
    queue sleeping.

(** A fresh [TensorMemoryObj] with a copy of the metadata. *)
Definition clone_tensor_memory_obj (o : MemoryObj) : py MemoryObj :=
  if negb (mo_valid o) then Raise AssertionError
  else Ret (mkObj (mo_address o) (mo_phy_size o) (mo_ref_count o) (mo_pin_count o) (mo_fmt o)
              (mo_layout_size o) None true None).

Definition submit (job : Z → mock_job) (m : MockL2Adapter) : Z * MockL2Adapter :=
  (mk_next m, set_tasks (mk_next m + 1) (mk_queue m ++ [job (mk_next m)]) (mk_sleeping m) m).

Definition submit_store_task (keys : list ObjectKey) (objects : list MemoryObj) : MockL2Adapter → Z * MockL2Adapter :=
  submit (JobStore keys objects).
Definition submit_lookup_and_lock_task (keys : list ObjectKey) : MockL2Adapter → Z * MockL2Adapter :=
  submit (JobLookup keys).
Definition submit_load_task (keys : list ObjectKey) (objects : list MemoryObj) : MockL2Adapter → Z * MockL2Adapter :=
  submit (JobLoad keys objects).
Definition submit_unlock (keys : list ObjectKey) (m : MockL2Adapter) : MockL2Adapter :=
  set_tasks (mk_next m) (mk_queue m ++ [JobUnlock keys]) (mk_sleeping m) m.

Definition pop_completed_store_tasks (m : MockL2Adapter) : dict Z Z * MockL2Adapter :=
  (mk_stores m, set_results [] (mk_lookups m) (mk_loads m) m).
Definition query_lookup_and_lock_result (task_id : Z) (m : MockL2Adapter) : option Bitmap * MockL2Adapter :=
  (dget task_id (mk_lookups m), set_results (mk_stores m) (ddel task_id (mk_lookups m)) (mk_loads m) m).
Definition query_load_result (task_id : Z) (m : MockL2Adapter) : option Bitmap * MockL2Adapter :=
  (dget task_id (mk_loads m), set_results (mk_stores m) (mk_lookups m) (ddel task_id (mk_loads m)) m).

(** The loop of [_execute_store_in_the_loop]. An exception ends it and keeps
    what was stored: a batch whose lists have different lengths, or an object
    that cannot be cloned. *)
Record store_acc := mkStoreAcc {
  sa_objects : dict ObjectKey MemoryObj;
  sa_size : Z;
  sa_total : Z;
  sa_keys : list ObjectKey;
  sa_sizes : list Z
}.

Fixpoint store_loop (capacity : Z) (keys : list ObjectKey) (objects : list MemoryObj) (a : store_acc)
    : bool * store_acc :=
  match keys, objects with
  | [], [] => (true, a)
  | key :: keys', obj :: objects' =>
      let obj_size := get_size obj in
      if capacity <? obj_size then store_loop capacity keys' objects' a
      else if dmem key (sa_objects a) then store_loop capacity keys' objects' a
      else if capacity <? sa_size a + obj_size then store_loop capacity keys' objects' a
      else
        match clone_tensor_memory_obj obj with
        | Raise _ => (false, a)
        | Ret new_obj =>
            store_loop capacity keys' objects'
              (mkStoreAcc (dset key new_obj (sa_objects a)) (sa_size a + obj_size) (sa_total a + obj_size)
                 (sa_keys a ++ [key]) (sa_sizes a ++ [obj_size]))
        end
  | _, _ => (false, a)
  end.

Definition _unlock_key (locked : dict ObjectKey Z) (key : ObjectKey) : dict ObjectKey Z :=
  match dget key locked with
  | None => locked
  | Some n => if n <=? 1 then ddel key locked else dset key (n - 1) locked
  end.

(** [for i, key in enumerate(keys)], the resident keys with their positions. *)
Definition found_keys (keys : list ObjectKey) (m : MockL2Adapter) : list (nat * ObjectKey) :=
  filter (λ p, dmem p.2 (mk_objects m) = true) (imap pair keys).

Definition lookup_bitmap (keys : list ObjectKey) (m : MockL2Adapter) : Bitmap :=
  batched_set (new_bitmap (length keys)) (found_keys keys m).*1.

(** The destination of every key found has its tensor; a load that misses one
    dies on an assertion, or on an index, before it sleeps, and never
    completes. *)
Definition load_targets_ok (keys : list ObjectKey) (objects : list MemoryObj) (m : MockL2Adapter) : bool :=
  forallb (λ p, match objects !! p.1 with Some o => mo_valid o | None => false end) (found_keys keys m).

(** Run one job up to its end or its sleep. *)
Definition run_job (j : mock_job) (m : MockL2Adapter) : MockL2Adapter :=
  match j with
  | JobStore keys objects id =>
      let '(success, a) := store_loop (max_capacity_bytes (mk_base m)) keys objects
                             (mkStoreAcc (mk_objects m) (mk_size m) 0 [] []) in
      let m' := set_objects (sa_objects a) (sa_size a) m in
      set_tasks (mk_next m) (mk_queue m) (mk_sleeping m ++ [SleepStore id success (sa_total a) (sa_keys a) (sa_sizes a)]) m'
  | JobLookup keys id =>
      let m' := set_locked (foldl (λ l p, dset p.2 (default 0 (dget p.2 l) + 1) l) (mk_locked m) (found_keys keys m)) m in
      set_results (mk_stores m) (dset id (lookup_bitmap keys m) (mk_lookups m)) (mk_loads m) m'
  | JobUnlock keys => set_locked (foldl _unlock_key (mk_locked m) keys) m
  | JobLoad keys objects id =>
      if load_targets_ok keys objects m then
        set_tasks (mk_next m) (mk_queue m)
          (mk_sleeping m ++ [SleepLoad id (lookup_bitmap keys m) (found_keys keys m).*2]) m
      else m
  end.

(** What a task does after its sleep. *)
Definition wake (s : mock_sleeper) (m : MockL2Adapter) : py (MockL2Adapter * list l2_event) :=
  match s with
  | SleepStore id success total keys sizes =>
      let! r := new_store_result success total in
      let m' := set_results (dset id r (mk_stores m)) (mk_lookups m) (mk_loads m) m in
      match keys with
      | [] => Ret (m', [])
      | _ => let! be := _notify_keys_stored keys sizes (mk_base m) in Ret (set_base be.1 m', be.2)
      end
  | SleepLoad id bitmap accessed =>
      let ev := match accessed with [] => [] | _ => _notify_keys_accessed accessed end in
      Ret (set_results (mk_stores m) (mk_lookups m) (dset id bitmap (mk_loads m)) m, ev)
  end.

(** The loop of [delete]: what remains, its size, the keys deleted and their
    sizes. *)
Fixpoint mock_delete_loop (keys : list ObjectKey) (objs : dict ObjectKey MemoryObj) (size : Z)
    (dk : list ObjectKey) (ds : list Z) : dict ObjectKey MemoryObj * Z * list ObjectKey * list Z :=
  match keys with
  | [] => (objs, size, dk, ds)
  | key :: keys' =>
      match dget key objs with
      | None => mock_delete_loop keys' objs size dk ds
      | Some obj =>
          mock_delete_loop keys' (ddel key objs) (size - get_size obj) (dk ++ [key]) (ds ++ [get_size obj])
      end
  end.

Definition mock_delete (keys : list ObjectKey) (m : MockL2Adapter) : py (MockL2Adapter * list l2_event) :=
  let '(objs, size, dk, ds) := mock_delete_loop keys (mk_objects m) (mk_size m) [] [] in
  let m' := set_objects objs size m in
  match dk with
  | [] => Ret (m', [])
  | _ => let! be := _notify_keys_deleted dk ds (mk_base m') in Ret (set_base be.1 m', be.2)
  end.

#[export] Instance MockL2Adapter_adapter : L2Adapter MockL2Adapter := {|
  adapter_usage := λ m, get_usage (mk_base m);
  adapter_delete := mock_delete
|}.

(** ** Accounting *)

(** The bytes of a table of keys and sizes, in all and under one salt. *)
Definition bytes_of (l : dict ObjectKey Z) : Z := zsum snd l.
Definition salt_bytes (salt : string) (l : dict ObjectKey Z) : Z :=
  zsum (λ p, if decide (cache_salt p.1 = salt) then p.2 else 0) l.

(** The counters say what is in the table. *)
Record accounted (b : L2Base) (l : dict ObjectKey Z) : Prop := {
  ac_total : base_total b = bytes_of l;
  ac_salt : ∀ salt, default 0 (dget salt (base_by_salt b)) = salt_bytes salt l;
  ac_nodup : NoDup (dkeys (base_by_salt b))
}.

Definition sized (l : dict ObjectKey Z) : Prop := Forall (λ p, 0 < p.2) l.

Lemma salt_bytes_nonneg salt l : sized l → 0 <= salt_bytes salt l.
Proof.
  intros Hs. apply zsum_nonneg. unfold sized in Hs. rewrite Forall_forall in Hs.
  intros p Hp%Hs. case_decide; lia.
Qed.

Lemma bytes_of_nonneg l : sized l → 0 <= bytes_of l.
Proof.
  intros Hs. apply zsum_nonneg. unfold sized in Hs. rewrite Forall_forall in Hs. intros p Hp%Hs. lia.
Qed.

Lemma salt_bytes_cons salt p l :
  salt_bytes salt (p :: l) = (if decide (cache_salt p.1 = salt) then p.2 else 0) + salt_bytes salt l.
Proof. apply zsum_cons. Qed.

Lemma salt_deltas_ok keys sizes delta total :
  length keys = length sizes → NoDup (dkeys delta) →
  ∃ delta', salt_deltas keys sizes delta total = Ret (delta', total + bytes_of (zip keys sizes)) ∧
    NoDup (dkeys delta') ∧
    ∀ salt, default 0 (dget salt delta') = default 0 (dget salt delta) + salt_bytes salt (zip keys sizes).
Proof.
  revert sizes delta total. induction keys as [|k keys IH]; intros [|s sizes] delta total Hlen Hnd; try done.
  { exists delta. cbn. rewrite Z.add_0_r. split_and!; [done..|]. intros; by rewrite Z.add_0_r. }
  cbn [salt_deltas zip zip_with]. injection Hlen as Hlen.
  destruct (IH sizes (dset (cache_salt k) (default 0 (dget (cache_salt k) delta) + s) delta) (total + s) Hlen
    (NoDup_dset _ _ _ Hnd)) as (delta' & E & Hnd' & Hd).
  exists delta'. split_and!; [|done|].
  - change (bytes_of ((k, s) :: zip keys sizes)) with (s + bytes_of (zip keys sizes)). rewrite E. do 2 f_equal. lia.
  - intros salt. rewrite Hd, dget_dset, salt_bytes_cons. cbn [fst snd]. case_decide; [subst; cbn; lia|lia].
Qed.

Lemma add_salts_ok delta by_salt :
  NoDup (dkeys delta) → NoDup (dkeys by_salt) →
  NoDup (dkeys (foldl add_salt by_salt delta)) ∧
  ∀ salt, default 0 (dget salt (foldl add_salt by_salt delta))
          = default 0 (dget salt by_salt) + default 0 (dget salt delta).
Proof.
  revert by_salt. induction delta as [|[s d] delta IH]; intros by_salt Hnd Hb; cbn [foldl].
  { split; [done|]. intros. cbn. lia. }
  apply NoDup_cons in Hnd as [Hs Hnd]. destruct (IH (add_salt by_salt (s, d)) Hnd) as [Hn' Hv].
  { by apply NoDup_dset. }
  split; [exact Hn'|]. intros salt. rewrite Hv. unfold add_salt. cbn [fst snd dget]. rewrite dget_dset.
  case_decide; [subst; cbn|lia]. rewrite (proj2 (dget_None _ _) Hs). cbn. lia.
Qed.

Lemma sub_salts_ok delta by_salt :
  NoDup (dkeys delta) → NoDup (dkeys by_salt) →
  (∀ salt, 0 <= default 0 (dget salt by_salt) - default 0 (dget salt delta)) →
  NoDup (dkeys (foldl sub_salt by_salt delta)) ∧
  ∀ salt, default 0 (dget salt (foldl sub_salt by_salt delta))
          = default 0 (dget salt by_salt) - default 0 (dget salt delta).
Proof.
  revert by_salt. induction delta as [|[s d] delta IH]; intros by_salt Hnd Hb Hle; cbn [foldl].
  { split; [done|]. intros. cbn. lia. }
  apply NoDup_cons in Hnd as [Hs Hnd].
  assert (default 0 (dget s delta) = 0) as Hs0 by (by rewrite (proj2 (dget_None _ _) Hs)).
  assert (∀ salt, default 0 (dget salt (sub_salt by_salt (s, d)))
                  = default 0 (dget salt by_salt) - (if decide (s = salt) then d else 0)) as Hone.
  { intros salt. unfold sub_salt. cbn [fst snd]. specialize (Hle s). cbn [dget] in Hle. rewrite decide_True in Hle by done.
    cbn in Hle. destruct (Z.leb_spec (default 0 (dget s by_salt) - d) 0);
      [rewrite dget_ddel|rewrite dget_dset]; case_decide; subst; cbn; lia. }
  destruct (IH (sub_salt by_salt (s, d)) Hnd) as [Hn' Hv].
  { unfold sub_salt. case_match; [by apply NoDup_ddel|by apply NoDup_dset]. }
  { intros salt. rewrite Hone. specialize (Hle salt). cbn [dget] in Hle. case_decide; [subst; cbn in Hle|]; lia. }
  split; [exact Hn'|]. intros salt. rewrite Hv, Hone. cbn [dget]. case_decide; [subst; cbn|]; lia.
Qed.

Lemma accounted_perm b l l' : l ≡ₚ l' → accounted b l → accounted b l'.
Proof.
  intros Hp [H1 H2 H3]. split; [|intros salt|done].
  - by rewrite H1; apply zsum_perm.
  - by rewrite H2; apply zsum_perm.
Qed.

Lemma salt_bytes_app salt l l' : salt_bytes salt (l ++ l') = salt_bytes salt l + salt_bytes salt l'.
Proof. apply zsum_app. Qed.
Lemma bytes_of_app l l' : bytes_of (l ++ l') = bytes_of l + bytes_of l'.
Proof. apply zsum_app. Qed.

(** Storing adds the batch to what is accounted for ... *)
Lemma notify_stored_ok keys sizes b l :
  length keys = length sizes → accounted b l →
  ∃ b', _notify_keys_stored keys sizes b = Ret (b', [on_l2_keys_stored keys sizes]) ∧
    accounted b' (l ++ zip keys sizes) ∧ max_capacity_bytes b' = max_capacity_bytes b.
Proof.
  intros Hlen [H1 H2 H3]. unfold _notify_keys_stored.
  destruct (salt_deltas_ok keys sizes [] 0 Hlen (NoDup_nil_2)) as (delta & -> & Hnd & Hd). cbn [py_bind fst snd].
  eexists. split; [reflexivity|]. split; [|done].
  destruct (add_salts_ok delta (base_by_salt b) Hnd H3) as [Hn Hv]. split; cbn [base_total base_by_salt].
  - rewrite H1, bytes_of_app. lia.
  - intros salt. rewrite Hv, H2, Hd, salt_bytes_app. cbn. lia.
  - exact Hn.
Qed.

(** ... and deleting takes it out; nothing underflows. *)
Lemma notify_deleted_ok keys sizes b l :
  length keys = length sizes → sized l → accounted b (l ++ zip keys sizes) →
  ∃ b', _notify_keys_deleted keys sizes b = Ret (b', [on_l2_keys_deleted keys]) ∧
    accounted b' l ∧ max_capacity_bytes b' = max_capacity_bytes b.
Proof.
  intros Hlen Hs [H1 H2 H3]. unfold _notify_keys_deleted.
  destruct (salt_deltas_ok keys sizes [] 0 Hlen (NoDup_nil_2)) as (delta & -> & Hnd & Hd). cbn [py_bind fst snd].
  eexists. split; [reflexivity|]. split; [|done].
  destruct (sub_salts_ok delta (base_by_salt b) Hnd H3) as [Hn Hv].
  { intros salt. rewrite H2, Hd, salt_bytes_app. cbn. pose proof (salt_bytes_nonneg salt l Hs). lia. }
  split; cbn [base_total base_by_salt].
  - rewrite H1, bytes_of_app. pose proof (bytes_of_nonneg l Hs).
    destruct (Z.ltb_spec (bytes_of l + bytes_of (zip keys sizes) - (0 + bytes_of (zip keys sizes))) 0); lia.
  - intros salt. rewrite Hv, H2, Hd, salt_bytes_app. cbn. lia.
  - exact Hn.
Qed.

(** The usage report lists the salts with bytes, each once. *)
Lemma usage_salt b l salt :
  accounted b l → sized l →
  default 0 (dget salt (bytes_by_cache_salt (get_usage b))) = salt_bytes salt l.
Proof.
  intros [_ H2 H3] Hs. rewrite <-H2. cbn. pose proof (salt_bytes_nonneg salt l Hs) as Hn. rewrite <-H2 in Hn.
  assert (∀ d : dict string Z, NoDup (dkeys d) → 0 <= default 0 (dget salt d) →
    default 0 (dget salt (filter (λ p, 0 < p.2) d)) = default 0 (dget salt d)) as Hd; [|by apply Hd].
  clear. induction d as [|[s v] d IH]; intros Hnd Hv; [done|]. apply NoDup_cons in Hnd as [Hs Hnd].
  rewrite filter_cons. cbn [snd dget] in *. destruct (decide (s = salt)) as [->|Hne].
  - case_decide; cbn [dget]; [by rewrite decide_True|].
    rewrite (proj2 (dget_None salt (filter (λ p, 0 < p.2) d))); [cbn in *; lia|].
    intros Hin. apply Hs. unfold dkeys in *. apply list_elem_of_fmap in Hin as (p & -> & [_ Hin]%list_elem_of_filter).
    apply list_elem_of_fmap. by exists p.
  - case_decide; cbn [dget]; [rewrite decide_False by done|]; by apply IH.
Qed.

Lemma usage_nodup b l : accounted b l → NoDup (dkeys (bytes_by_cache_salt (get_usage b))).
Proof.
  intros [_ _ H3]. cbn. unfold dkeys in *. eapply sublist_NoDup; [exact H3|]. apply fmap_sublist, sublist_filter.
Qed.

(** ** The mock adapter's state *)

(** The resident objects with their sizes, and what sleeping store tasks have
    stored but not yet reported. *)
Definition ledger (objs : dict ObjectKey MemoryObj) : dict ObjectKey Z := (λ p, (p.1, get_size p.2)) <$> objs.
Definition unreported (s : mock_sleeper) : dict ObjectKey Z :=
  match s with SleepStore _ _ _ keys sizes => zip keys sizes | SleepLoad _ _ _ => [] end.
Definition pending (sleeping : list mock_sleeper) : dict ObjectKey Z := sleeping ≫= unreported.

(** Objects whose size was not narrowed: a clone has the size of the original. *)
Definition plain (o : MemoryObj) : Prop := mo_used_size o = None ∧ 0 < get_size o.

Definition job_ok (j : mock_job) : Prop :=
  match j with JobStore _ objects _ => Forall plain objects | _ => True end.
Definition sleeper_ok (s : mock_sleeper) : Prop :=
  match s with SleepStore _ _ total keys sizes => length keys = length sizes ∧ 0 <= total | _ => True end.

(** [noted] is what the adapter has reported and still stores. *)
Record mock_inv (noted : dict ObjectKey Z) (m : MockL2Adapter) : Prop := {
  mi_split : ledger (mk_objects m) ≡ₚ noted ++ pending (mk_sleeping m);
  mi_nodup : NoDup (dkeys (mk_objects m));
  mi_size : mk_size m = bytes_of (ledger (mk_objects m));
  mi_cap : mk_size m <= max_capacity_bytes (mk_base m);
  mi_sized : sized (ledger (mk_objects m));
  mi_acc : accounted (mk_base m) noted;
  mi_sleep : Forall sleeper_ok (mk_sleeping m);
  mi_queue : Forall job_ok (mk_queue m)
}.

Lemma dkeys_ledger objs : dkeys (ledger objs) = dkeys objs.
Proof. unfold dkeys, ledger. rewrite <-list_fmap_compose. by apply list_fmap_ext. Qed.

Lemma mock_init_inv capacity : 0 <= capacity → mock_inv [] (mock_init capacity).
Proof.
  intros Hc. split; cbn; [done|constructor|done|exact Hc|constructor| |constructor|constructor].
  split; [done|done|constructor].
Qed.

(** What the store loop adds. *)
Definition stored_more (capacity : Z) (a a' : store_acc) : Prop :=
  ∃ new_keys new_sizes objs',
    a' = mkStoreAcc objs' (sa_size a + zsum id new_sizes) (sa_total a + zsum id new_sizes)
           (sa_keys a ++ new_keys) (sa_sizes a ++ new_sizes) ∧
    ledger objs' = ledger (sa_objects a) ++ zip new_keys new_sizes ∧ length new_keys = length new_sizes ∧
    NoDup (dkeys objs') ∧ Forall (λ s, 0 < s) new_sizes ∧
    (sa_size a <= capacity → sa_size a + zsum id new_sizes <= capacity).

Lemma stored_none capacity a : NoDup (dkeys (sa_objects a)) → stored_more capacity a a.
Proof.
  destruct a as [o sz t k s]. intros Hnd. exists [], [], o. cbn. rewrite !Z.add_0_r, !app_nil_r. by split_and!.
Qed.

Lemma store_loop_ok capacity keys objects a :
  Forall plain objects → NoDup (dkeys (sa_objects a)) →
  stored_more capacity a (store_loop capacity keys objects a).2.
Proof.
  revert objects a. induction keys as [|key keys IH]; intros [|obj objects] a Hpl Hnd; cbn [store_loop]; try by apply stored_none.
  apply Forall_cons in Hpl as [[Hno Hpos] Hpl].
  destruct (capacity <? get_size obj); [by apply IH|].
  destruct (dmem key (sa_objects a)) eqn:Em; [by apply IH|].
  destruct (Z.ltb_spec capacity (sa_size a + get_size obj)); [by apply IH|].
  unfold clone_tensor_memory_obj. destruct (mo_valid obj); cbn [negb]; [|by apply stored_none].
  apply dmem_false in Em.
  set (new := mkObj _ _ _ _ _ _ _ _ _).
  destruct (IH objects (mkStoreAcc (dset key new (sa_objects a)) (sa_size a + get_size obj) (sa_total a + get_size obj)
    (sa_keys a ++ [key]) (sa_sizes a ++ [get_size obj])) Hpl) as (nk & ns & objs' & E & Hl & Hlen & Hnd' & Hp & Hc).
  { by apply NoDup_dset. }
  exists (key :: nk), (get_size obj :: ns), objs'. rewrite E. cbn [sa_size sa_total sa_keys sa_sizes sa_objects] in *.
  rewrite zsum_cons. unfold id in *. split_and!; [| |cbn; by f_equal|done|by constructor|].
  - rewrite <-!app_assoc. cbn [app]. f_equal; lia.
  - rewrite Hl, dset_notin by done. unfold ledger. rewrite fmap_app, <-app_assoc. do 2 f_equal. cbn. f_equal.
    unfold get_size. cbn. by rewrite Hno.
  - intros _. lia.
Qed.

Lemma bytes_of_zip keys sizes : length keys = length sizes → bytes_of (zip keys sizes) = zsum id sizes.
Proof.
  revert sizes. induction keys as [|k keys IH]; intros [|s sizes] Hl; try done. injection Hl as Hl.
  change (bytes_of (zip (k :: keys) (s :: sizes))) with (s + bytes_of (zip keys sizes)). rewrite IH by done. done.
Qed.

Lemma sized_zip keys sizes : Forall (λ s, 0 < s) sizes → sized (zip keys sizes).
Proof.
  intros Hs. revert keys. induction Hs as [|s sizes Hs _ IH]; intros [|k keys]; constructor; [done|apply IH].
Qed.

Lemma pending_snoc sl s : pending (sl ++ [s]) = pending sl ++ unreported s.
Proof. unfold pending. rewrite bind_app. cbn. by rewrite app_nil_r. Qed.

(** Reduces the fields of an updated adapter. *)
Ltac cbn_mock :=
  cbn [mk_objects mk_locked mk_size mk_base mk_next mk_stores mk_lookups mk_loads mk_queue mk_sleeping
       set_objects set_locked set_base set_results set_tasks fst snd].

(** Running a queued task. *)
Lemma run_job_inv noted j m : mock_inv noted m → job_ok j → mock_inv noted (run_job j m).
Proof.
  intros [H1 H2 H3 H4 H5 H6 H7 H8] Hj. destruct j as [keys objects tid|keys tid|keys|keys objects tid]; cbn [run_job].
  - destruct (store_loop_ok (max_capacity_bytes (mk_base m)) keys objects (mkStoreAcc (mk_objects m) (mk_size m) 0 [] []) Hj H2)
      as (nk & ns & objs' & E & Hl & Hlen & Hnd & Hp & Hc). destruct (store_loop _ _ _ _) as [ok a]. cbn [snd] in E. subst a. cbn [sa_size sa_total sa_keys sa_sizes sa_objects app] in *.
    split; cbn_mock; try done.
    + rewrite Hl, pending_snoc, H1. by rewrite app_assoc.
    + rewrite Hl, bytes_of_app, bytes_of_zip, H3 by done. done.
    + by apply Hc.
    + rewrite Hl. apply Forall_app. split; [done|by apply sized_zip].
    + apply Forall_app. split; [done|]. apply Forall_singleton. cbn. split; [done|]. apply zsum_nonneg.
      rewrite Forall_forall in Hp. intros x Hx%Hp. unfold id. lia.
  - by split.
  - by split.
  - destruct (load_targets_ok _ _ _); [|by split]. split; cbn_mock; try done.
    + rewrite pending_snoc. cbn [unreported]. by rewrite app_nil_r.
    + apply Forall_app. split; [done|by apply Forall_singleton].
Qed.

(** Waking a sleeping task: a store reports what it stored. *)
Lemma wake_inv noted before s after m :
  mock_inv noted m → mk_sleeping m = before ++ s :: after →
  ∃ m' evs, wake s (set_tasks (mk_next m) (mk_queue m) (before ++ after) m) = Ret (m', evs) ∧
    mock_inv (noted ++ unreported s) m' ∧
    evs = match s with
          | SleepStore _ _ _ [] _ => []
          | SleepStore _ _ _ keys sizes => [on_l2_keys_stored keys sizes]
          | SleepLoad _ _ [] => []
          | SleepLoad _ _ keys => [on_l2_keys_accessed keys]
          end.
Proof.
  intros [H1 H2 H3 H4 H5 H6 H7 H8] Hs. rewrite Hs in *. apply Forall_app in H7 as [H7a H7].
  apply Forall_cons in H7 as [Hok H7b].
  assert (Forall sleeper_ok (before ++ after)) as H7 by (by apply Forall_app).
  assert (ledger (mk_objects m) ≡ₚ (noted ++ unreported s) ++ pending (before ++ after)) as Hsplit.
  { rewrite H1. unfold pending. rewrite !bind_app, bind_cons. solve_Permutation. }
  destruct s as [tid ok total keys sizes|tid bm acc]; cbn [wake].
  - destruct Hok as [Hlen Htot]. unfold new_store_result. rewrite (proj2 (Z.ltb_ge total 0)) by done. cbn [py_bind].
    destruct keys as [|k keys].
    + eexists _, _. split; [reflexivity|]. split; [|done]. cbn [unreported zip zip_with] in *. rewrite app_nil_r in *.
      split; cbn_mock; done.
    + destruct (notify_stored_ok (k :: keys) sizes (mk_base m) noted Hlen H6) as (b' & E & Hb & Hc).
      cbn_mock. rewrite E. cbn [py_bind]. eexists _, _. split; [reflexivity|]. split; [|done].
      split; cbn_mock; try done. by rewrite Hc.
  - eexists _, _. split; [reflexivity|]. split; [|by destruct acc]. cbn [unreported] in *. rewrite app_nil_r in *.
    split; cbn_mock; done.
Qed.

Lemma ledger_ddel key objs : ledger (ddel key objs) = ddel key (ledger objs).
Proof.
  unfold ledger, ddel. induction objs as [|[k o] objs IH]; [done|]. rewrite fmap_cons, !filter_cons. cbn [fst].
  case_decide; [by rewrite fmap_cons, IH|done].
Qed.

Lemma dget_ledger key objs : dget key (ledger objs) = get_size <$> dget key objs.
Proof. induction objs as [|[k o] objs IH]; [done|]. cbn. by case_decide. Qed.

(** What the delete loop removes: the resident keys of the batch. *)
Lemma mock_delete_loop_ok keys objs size dk ds :
  NoDup (dkeys objs) → length dk = length ds →
  ∃ objs' rk rs,
    mock_delete_loop keys objs size dk ds = (objs', size - zsum id rs, dk ++ rk, ds ++ rs) ∧
    ledger objs ≡ₚ ledger objs' ++ zip rk rs ∧ length rk = length rs ∧ NoDup (dkeys objs') ∧
    (∀ k, k ∈ rk ↔ k ∈ keys ∧ k ∈ dkeys objs) ∧ (∀ k, k ∈ dkeys objs' ↔ (k ∉ keys) ∧ k ∈ dkeys objs).
Proof.
  revert objs size dk ds. induction keys as [|key keys IH]; intros objs size dk ds Hnd Hlen; cbn [mock_delete_loop].
  - exists objs, [], []. cbn. rewrite !app_nil_r, Z.sub_0_r. split_and!; try done.
    + intros k. split; [by intros ?%not_elem_of_nil|by intros [?%not_elem_of_nil _]].
    + intros k. split; [|by intros [_ ?]]. intros. split; [by apply not_elem_of_nil|done].
  - destruct (dget key objs) as [o|] eqn:E.
    + destruct (IH (ddel key objs) (size - get_size o) (dk ++ [key]) (ds ++ [get_size o])) as
        (objs' & rk & rs & E' & Hp & Hl & Hn & Hrk & Hrest).
      { by apply NoDup_ddel. } { rewrite !length_app. cbn. lia. }
      exists objs', (key :: rk), (get_size o :: rs). rewrite E'. split_and!.
      * rewrite zsum_cons. unfold id at 1. rewrite <-!app_assoc. do 3 f_equal. unfold id. lia.
      * rewrite (dget_perm key (get_size o) (ledger objs)).
        -- rewrite <-ledger_ddel, Hp. cbn. solve_Permutation.
        -- by rewrite dkeys_ledger.
        -- by rewrite dget_ledger, E.
      * cbn. by f_equal.
      * done.
      * intros k. rewrite !elem_of_cons, Hrk, elem_dkeys_ddel.
        assert (key ∈ dkeys objs) by (apply dget_is_Some; by eexists).
        destruct (decide (k = key)); subst; tauto.
      * intros k. rewrite Hrest, elem_dkeys_ddel, not_elem_of_cons. tauto.
    + destruct (IH objs size dk ds Hnd Hlen) as (objs' & rk & rs & E' & Hp & Hl & Hn & Hrk & Hrest).
      exists objs', rk, rs. split_and!; try done.
      * intros k. rewrite elem_of_cons, Hrk. apply dget_None in E. split; [tauto|]. intros [[->|?] ?]; [done|tauto].
      * intros k. rewrite not_elem_of_cons, Hrest. apply dget_None in E. split; [|tauto]. intros [? ?]. split; [|done].
        split; [|done]. by intros ->.
Qed.

Lemma filter_split {A} (P : A → Prop) `{∀ x, Decision (P x)} (l : list A) :
  l ≡ₚ filter (λ x, ¬ P x) l ++ filter P l.
Proof.
  induction l as [|x l IH]; [done|]. rewrite !filter_cons. destruct (decide (P x)).
  - rewrite decide_False by tauto. rewrite IH at 1. solve_Permutation.
  - rewrite decide_True by tauto. rewrite IH at 1. solve_Permutation.
Qed.

Lemma elem_dkeys {V} (p : ObjectKey * V) (l : dict ObjectKey V) : p ∈ l → p.1 ∈ dkeys l.
Proof. intros Hp. unfold dkeys. apply list_elem_of_fmap. by exists p. Qed.

Lemma elem_zip_fst {V} (p : ObjectKey * V) ks (vs : list V) : p ∈ zip ks vs → p.1 ∈ ks.
Proof. destruct p as [k v]. intros Hp. by apply elem_of_zip_l in Hp. Qed.

(** What remains of a table when the keys of a batch go. *)
Definition without (keys : list ObjectKey) (l : dict ObjectKey Z) : dict ObjectKey Z :=
  filter (λ p, ¬ p.1 ∈ keys) l.

(** Deleting resident keys that were reported. *)
Lemma mock_delete_inv noted keys m :
  mock_inv noted m → (∀ k, k ∈ keys → k ∈ dkeys (mk_objects m) → k ∈ dkeys noted) →
  ∃ m' rk, mock_delete keys m = Ret (m', match rk with [] => [] | _ => [on_l2_keys_deleted rk] end) ∧
    mock_inv (without keys noted) m' ∧ (∀ k, k ∈ rk ↔ k ∈ keys ∧ k ∈ dkeys noted) ∧
    mk_sleeping m' = mk_sleeping m.
Proof.
  intros [H1 H2 H3 H4 H5 H6 H7 H8] Hkeys. unfold mock_delete.
  destruct (mock_delete_loop_ok keys (mk_objects m) (mk_size m) [] [] H2 eq_refl)
    as (objs' & rk & rs & -> & Hp & Hl & Hn & Hrk & Hrest). cbn [app].
  assert (NoDup (dkeys noted ++ dkeys (pending (mk_sleeping m)))) as Hnd.
  { unfold dkeys. rewrite <-fmap_app, <-H1. change (ledger _).*1 with (dkeys (ledger (mk_objects m))). by rewrite dkeys_ledger. }
  assert (∀ k, k ∈ dkeys noted → k ∈ dkeys (mk_objects m)) as Hres.
  { intros k Hk. rewrite <-dkeys_ledger. unfold dkeys. rewrite H1, fmap_app. apply elem_of_app. by left. }
  assert (filter (λ p, p.1 ∈ keys) (pending (mk_sleeping m)) = []) as Hpe.
  { apply filter_none. intros p Hpp Hk. apply NoDup_app in Hnd as (_ & Hd & _).
    apply (Hd p.1); [|by apply elem_dkeys]. apply Hkeys; [done|]. rewrite <-dkeys_ledger. unfold dkeys.
    rewrite H1, fmap_app. apply elem_of_app. right. by apply elem_dkeys. }
  assert (zip rk rs ≡ₚ filter (λ p, p.1 ∈ keys) noted) as Hgone.
  { assert (filter (λ p, p.1 ∈ keys) (ledger (mk_objects m)) ≡ₚ zip rk rs) as <-.
    - rewrite Hp, filter_app. rewrite (filter_none _ (ledger objs')).
      + cbn [app]. rewrite filter_all; [done|]. intros p Hz%elem_zip_fst. by apply Hrk in Hz as [? _].
      + intros p Hl' Hk. apply elem_dkeys in Hl'. rewrite dkeys_ledger in Hl'. by apply Hrest in Hl' as [? _].
    - rewrite H1, filter_app, Hpe. by rewrite app_nil_r. }
  assert (ledger objs' ≡ₚ without keys noted ++ pending (mk_sleeping m)) as Hsplit.
  { apply (Permutation_app_inv_r (zip rk rs)). rewrite <-Hp, H1. rewrite (filter_split (λ p, p.1 ∈ keys) noted) at 1.
    rewrite <-Hgone. unfold without. solve_Permutation. }
  assert (sized (ledger objs')) as Hs'.
  { unfold sized in *. rewrite Hp in H5. by apply Forall_app in H5 as [? _]. }
  assert (sized (without keys noted)) as Hsn.
  { unfold sized in *. rewrite Hsplit in Hs'. by apply Forall_app in Hs' as [? _]. }
  assert (bytes_of (ledger (mk_objects m)) = bytes_of (ledger objs') + zsum id rs) as Hb.
  { unfold bytes_of at 1. rewrite (zsum_perm _ _ _ Hp). fold (bytes_of (ledger objs' ++ zip rk rs)).
    by rewrite bytes_of_app, bytes_of_zip. }
  assert (0 <= zsum id rs) as Hrs.
  { rewrite <-(bytes_of_zip rk rs Hl). apply bytes_of_nonneg. unfold sized in *. rewrite Hp in H5.
    by apply Forall_app in H5 as [_ ?]. }
  assert (∀ k, k ∈ rk ↔ k ∈ keys ∧ k ∈ dkeys noted) as Hrk'.
  { intros k. rewrite Hrk. split; intros [? ?]; (split; [done|]); [by apply Hkeys|by apply Hres]. }
  destruct rk as [|k0 rk].
  - eexists _, []. split; [reflexivity|]. split; [|by split].
    split; cbn_mock; try done; [lia|lia|]. eapply accounted_perm; [|exact H6].
    unfold without. rewrite filter_all; [done|]. intros p Hpn Hk. apply elem_dkeys in Hpn.
    by apply (not_elem_of_nil p.1), Hrk'.
  - destruct (notify_deleted_ok (k0 :: rk) rs (mk_base m) (without keys noted) Hl Hsn) as (b' & E & Hb' & Hc).
    { eapply accounted_perm; [|exact H6]. rewrite Hgone. apply filter_split. }
    cbn_mock. rewrite E. cbn [py_bind]. eexists _, (k0 :: rk). split; [reflexivity|]. split; [|by split].
    split; cbn_mock; try done; [lia|rewrite Hc; lia].
Qed.
