(* ===== verification/EvictionController.v ===== *)
(** * Quotas and eviction controllers

    [QuotaManager] (quota_manager.py), the bridges that turn L1 and L2 events
    into policy notifications ([L1EvictionPolicy] and [L2EvictionPolicy],
    eviction.py), the policy factory (eviction_policy/factory.py), and one pass
    of the eviction controllers (storage_controllers/eviction_controller.py).

    A controller is written against the interfaces: a policy is any
    [EvictionPolicy], an adapter any [L2Adapter] whose listener is the bridge of
    that policy. The loops around the passes, their sleeps and what is logged or
    published on the event bus are not modelled. *)

From stdpp Require Import gmap list strings relations.
From Stdlib Require Import ZArith Lia Floats.SpecFloat.
From S2P Require Import Prelude PyFloat TensorAllocator Keys L1Memory L1Manager Bitmap EvictionPolicy ARC L2Adapter.

Open Scope Z_scope.
Open Scope py_scope.

(** ** Quotas *)

Record QuotaManager := mkQuota {
  q_limits : dict string Z;             (* _limits *)
  q_default : option Z                  (* _default_limit_bytes *)
}.

Definition quota_init : QuotaManager := mkQuota [] None.

Definition set_quota (cache_salt : string) (limit_bytes : Z) (q : QuotaManager) : py QuotaManager :=
  if limit_bytes <? 0 then Raise ValueError
  else Ret (mkQuota (dset cache_salt limit_bytes (q_limits q)) (q_default q)).

Definition delete_quota (cache_salt : string) (q : QuotaManager) : bool * QuotaManager :=
  (dmem cache_salt (q_limits q), mkQuota (ddel cache_salt (q_limits q)) (q_default q)).

Definition get_limit_bytes (cache_salt : string) (q : QuotaManager) : Z :=
  default 0 (dget cache_salt (q_limits q)).

Definition set_default_limit_bytes (limit_bytes : option Z) (q : QuotaManager) : py QuotaManager :=
  match limit_bytes with
  | Some n => if n <? 0 then Raise ValueError else Ret (mkQuota (q_limits q) (Some n))
  | None => Ret (mkQuota (q_limits q) None)
  end.

Definition get_default_limit_bytes (q : QuotaManager) : option Z := q_default q.

Definition effective_limit_bytes (cache_salt : string) (q : QuotaManager) : option Z :=
  match dget cache_salt (q_limits q) with Some n => Some n | None => q_default q end.

Definition has_quota (cache_salt : string) (q : QuotaManager) : bool := dmem cache_salt (q_limits q).

(** [{"limits": ..., "default_limit_bytes": ...}]. *)
Definition quota_capture (q : QuotaManager) : dict string Z * option Z := (q_limits q, q_default q).
Definition quota_restore (state : dict string Z * option Z) (q : QuotaManager) : QuotaManager :=
  mkQuota state.1 state.2.

Definition list_quotas (q : QuotaManager) : list (string * Z) := q_limits q.

(** ** Policies by name *)

Inductive any_policy := PLRU (p : LRU) | PARC (p : ARC) | PIsolatedLRU (p : IsolatedLRU) | PNoOp.

Definition CreateEvictionPolicy (eviction_policy : string) : py any_policy :=
  if bool_decide (eviction_policy = "LRU"%string) then Ret (PLRU (lru_init DISCARD))
  else if bool_decide (eviction_policy = "ARC"%string) then Ret (PARC (arc_init DISCARD))
  else if bool_decide (eviction_policy = "IsolatedLRU"%string) then Ret (PIsolatedLRU (iso_init DISCARD))
  else if bool_decide (eviction_policy = "noop"%string) then Ret PNoOp
  else Raise ValueError.

(** ** Bridges *)

Section bridges.
Context {P : Type} `{EvictionPolicy P}.

(** [L1EvictionPolicy]: what the policy makes of an L1 notification. *)
Definition l1_notify (e : l1_event) (p : P) : py P :=
  match e with
  | Notify on_l1_keys_reserved_write keys => on_keys_reserved keys p
  | Notify on_l1_keys_write_finished keys => on_keys_created keys p
  | Notify on_l1_keys_finish_write_and_reserve_read keys => on_keys_created keys p
  | Notify on_l1_keys_deleted_by_manager keys => Ret (on_keys_removed keys p)
  | Notify on_l1_keys_accessed keys => Ret (on_keys_touched keys p)
  | Notify on_l1_keys_reserved_read _ | Notify on_l1_keys_read_finished _ => Ret p
  | Publish _ _ _ => Ret p
  end.

(** [L2EvictionPolicy]. *)
Definition l2_notify (e : l2_event) (p : P) : py P :=
  match e with
  | on_l2_keys_stored keys _ => on_keys_created keys p
  | on_l2_keys_accessed keys => Ret (on_keys_touched keys p)
  | on_l2_keys_deleted keys => Ret (on_keys_removed keys p)
  end.

Fixpoint notify_all {E} (notify : E → P → py P) (evs : list E) (p : P) : py P :=
  match evs with
  | [] => Ret p
  | e :: evs' => let! p' := notify e p in notify_all notify evs' p'
  end.
End bridges.

(** ** The L1 controller *)

Record EvictionConfig := mkConfig {
  eviction_policy : string;
  trigger_watermark : float;
  eviction_ratio : float
}.

(** [usage = 0 if total == 0 else used / total; usage < watermark]. *)
Definition below_watermark (used total : Z) (watermark : float) : py bool :=
  if total =? 0 then Ret (num_lt (NInt 0) (NFloat watermark))
  else let! usage := int_true_div used total in Ret (f_lt usage watermark).

(** One turn of the loop, up to the decision: nothing below the watermark, else
    what the policy chooses among the keys the manager says are evictable. The
    manager answers while other threads use it, so its answers are a
    parameter. *)
Definition l1_eviction_decision {P} `{EvictionPolicy P} (cfg : EvictionConfig) (used total : Z)
    (is_evictable : ObjectKey → bool) (p : P) : py (list EvictionAction * P) :=
  let! skip := below_watermark used total (trigger_watermark cfg) in
  if skip : bool then Ret ([], p)
  else get_eviction_actions (eviction_ratio cfg) (Some is_evictable) None p.

(** [execute_eviction_action]: every destination is treated as DISCARD. *)
Definition l1_execute_action {M} `{L1MemoryManagerProtocol M} (clock : nat → Z) (action : EvictionAction)
    : L1M M (list (ObjectKey * L1Error)) := delete clock (act_keys action) false.

(** ** The L2 controller *)

Section l2_controller.
Context {A P : Type} `{L2Adapter A} `{EvictionPolicy P}.

Definition _execute_eviction_action (action : EvictionAction) (st : A * P) : py (A * P) :=
  let! r := adapter_delete (act_keys action) st.1 in
  let! p := notify_all l2_notify r.2 st.2 in
  Ret (r.1, p).

Fixpoint execute_all (actions : list EvictionAction) (st : A * P) : py (A * P) :=
  match actions with
  | [] => Ret st
  | a :: actions' => let! st' := _execute_eviction_action a st in execute_all actions' st'
  end.

Definition _check_and_evict_global (cfg : EvictionConfig) (st : A * P) : py (A * P) :=
  let! current_usage := usage_fraction (adapter_usage st.1) in
  if num_lt (NFloat current_usage) (NInt 0) || f_lt current_usage (trigger_watermark cfg) then Ret st
  else
    let! r := get_eviction_actions (eviction_ratio cfg) None None st.2 in
    execute_all r.1 (st.1, r.2).

Definition extend_pending (pending : dict EvictionDestination (list ObjectKey)) (a : EvictionAction)
    : dict EvictionDestination (list ObjectKey) :=
  dset (act_destination a) (default [] (dget (act_destination a) pending) ++ act_keys a) pending.

(** The loop over the salts with bytes. *)
Fixpoint salts_loop (q : QuotaManager) (cfg : EvictionConfig) (usage : list (string * Z))
    (pending : dict EvictionDestination (list ObjectKey)) (p : P)
    : py (dict EvictionDestination (list ObjectKey) * P) :=
  match usage with
  | [] => Ret (pending, p)
  | (cache_salt, user_bytes) :: usage' =>
      if user_bytes <=? 0 then salts_loop q cfg usage' pending p
      else
        let limit := get_limit_bytes cache_salt q in
        let! threshold := f_scale (trigger_watermark cfg) limit in
        if num_lt (NInt user_bytes) (NFloat threshold) then salts_loop q cfg usage' pending p
        else
          let effective_ratio := if limit =? 0 then f_one else eviction_ratio cfg in
          let! r := get_eviction_actions effective_ratio None (Some cache_salt) p in
          salts_loop q cfg usage' (foldl extend_pending pending r.1) r.2
  end.

Definition _check_and_evict_by_cache_salt (q : QuotaManager) (cfg : EvictionConfig) (st : A * P) : py (A * P) :=
  let usage := adapter_usage st.1 in
  let! r := salts_loop q cfg (bytes_by_cache_salt usage) [] st.2 in
  execute_all (map (λ d : EvictionDestination * list ObjectKey, mkAction d.1 d.2) r.1) (st.1, r.2).

Definition _check_and_evict (q : option QuotaManager) (cfg : EvictionConfig) (st : A * P) : py (A * P) :=
  match support_isolation, q with
  | true, Some q => _check_and_evict_by_cache_salt q cfg st
  | _, _ => _check_and_evict_global cfg st
  end.
End l2_controller.

(** The adapters under eviction, by id. *)
Definition add_adapter_state {S} (state : Z * S) (states : list (Z * S)) : list (Z * S) := states ++ [state].
Definition remove_adapter_state {S} (adapter_id : Z) (states : list (Z * S)) : list (Z * S) :=
  filter (λ s, s.1 ≠ adapter_id) states.

(** ** What the controller relies on

    An adapter has a table of the keys it reported stored and still holds; its
    usage is that of the table, and deletion takes keys out of it and reports
    them. *)
Class L2AdapterLaws (A : Type) `{L2Adapter A} := {
  adapter_inv : dict ObjectKey Z → A → Prop;
  law_nodup : ∀ noted a, adapter_inv noted a → NoDup (dkeys noted);
  law_sized : ∀ noted a, adapter_inv noted a → sized noted;
  law_usage_nodup : ∀ noted a, adapter_inv noted a → NoDup (dkeys (bytes_by_cache_salt (adapter_usage a)));
  law_usage : ∀ noted a salt, adapter_inv noted a →
    default 0 (dget salt (bytes_by_cache_salt (adapter_usage a))) = salt_bytes salt noted;
  law_delete : ∀ noted a keys, adapter_inv noted a → (∀ k, k ∈ keys → k ∈ dkeys noted) →
    ∃ a' rk, adapter_delete keys a = Ret (a', match rk with [] => [] | _ => [on_l2_keys_deleted rk] end) ∧
      adapter_inv (without keys noted) a' ∧ (∀ k, k ∈ rk ↔ k ∈ keys ∧ k ∈ dkeys noted)
}.

Lemma mock_noted noted m : mock_inv noted m → NoDup (dkeys noted) ∧ sized noted ∧ ∀ k, k ∈ dkeys noted → k ∈ dkeys (mk_objects m).
Proof.
  intros Hm. pose proof (mi_split _ _ Hm) as Hp. split_and!.
  - pose proof (mi_nodup _ _ Hm) as Hnd. rewrite <-dkeys_ledger in Hnd. unfold dkeys in *. rewrite Hp, fmap_app in Hnd.
    by apply NoDup_app in Hnd as [? _].
  - pose proof (mi_sized _ _ Hm) as Hs. unfold sized in *. rewrite Hp in Hs. by apply Forall_app in Hs as [? _].
  - intros k Hk. rewrite <-dkeys_ledger. unfold dkeys in *. rewrite Hp, fmap_app. apply elem_of_app. by left.
Qed.

#[export] Instance MockL2Adapter_laws : L2AdapterLaws MockL2Adapter.
Proof.
  refine {| adapter_inv := mock_inv |}.
  - intros noted m Hm. apply (mock_noted noted m Hm).
  - intros noted m Hm. apply (mock_noted noted m Hm).
  - intros noted m Hm. eapply usage_nodup, (mi_acc _ _ Hm).
  - intros noted m salt Hm. eapply usage_salt; [apply (mi_acc _ _ Hm)|apply (mock_noted noted m Hm)].
  - intros noted m keys Hm Hk.
    destruct (mock_delete_inv noted keys m Hm) as (m' & rk & E & Hm' & Hrk & _); [by intros; apply Hk|].
    by exists m', rk.
Defined.

(** ** Decisions of the per-salt policy *)

(** The LRU policy of one bucket. *)
Definition bucket_lru (salt : string) (p : IsolatedLRU) : LRU :=
  mkLRU (bucket salt (iso_order p)) (iso_destinations p) (iso_default p).

Lemma iso_decision_lru r f salt p :
  iso_get_eviction_actions r f (Some salt) p = lru_get_eviction_actions r f None (bucket_lru salt p).
Proof. unfold iso_get_eviction_actions, lru_get_eviction_actions, bucket_lru, bucket. cbn. by destruct (default [] _). Qed.

Lemma eviction_target_one n : Z.of_nat n < 2 ^ 53 → eviction_target n f_one = Ret (Z.of_nat n).
Proof.
  intros Hn. unfold eviction_target. change (f_max f_zero (f_min f_one f_one)) with f_one.
  rewrite f_int_one by lia. cbn [py_bind]. f_equal. destruct n; [done|]. done.
Qed.

Lemma filter_eligible_all (l : list ObjectKey) : filter (eligible None) l = l.
Proof. by apply filter_all. Qed.

(** A ratio of [1.0] evicts every eligible key of the bucket. *)
Lemma bucket_wiped f salt p :
  Z.of_nat (length (bucket salt (iso_order p))) < 2 ^ 53 →
  ∃ acts, iso_get_eviction_actions f_one f (Some salt) p = Ret acts ∧
    action_keys acts = filter (eligible f) (bucket salt (iso_order p)) ∧
    Forall (λ a, act_destination a = pick_destination (iso_destinations p) (iso_default p)) acts.
Proof.
  intros Hlen. rewrite iso_decision_lru. unfold lru_get_eviction_actions. cbn [bucket_lru lru_order lru_destinations lru_default].
  destruct (bucket salt (iso_order p)) as [|k b] eqn:Eb; [by exists []|].
  rewrite eviction_target_one by done. cbn [py_bind]. rewrite (proj2 (Z.eqb_neq (Z.of_nat (length (k :: b))) 0)) by (rewrite length_cons; lia).
  eexists (match select_keys f (Z.of_nat (length (k :: b))) (k :: b) [] with
           | [] => [] | l => [mkAction (pick_destination (iso_destinations p) (iso_default p)) l] end).
  split; [by destruct (select_keys _ _ _ _)|]. split.
  - rewrite decision_keys by (rewrite length_cons; lia). rewrite Nat2Z.id. apply firstn_all2, length_filter.
  - destruct (select_keys _ _ _ _); by repeat constructor.
Qed.

(** Any other ratio evicts the oldest eligible keys of the bucket. *)
Lemma bucket_trimmed f salt p r :
  is_float r → Z.of_nat (length (bucket salt (iso_order p))) < 2 ^ 53 →
  ∃ acts (t : nat), iso_get_eviction_actions r f (Some salt) p = Ret acts ∧
    action_keys acts = take t (filter (eligible f) (bucket salt (iso_order p))) ∧
    (bucket salt (iso_order p) ≠ [] → eviction_target (length (bucket salt (iso_order p))) r = Ret (Z.of_nat t) ∧ (t = 0%nat ↔ not_positive r = true)) ∧
    Forall (λ a, act_destination a = pick_destination (iso_destinations p) (iso_default p)) acts.
Proof. intros Hr Hlen. rewrite iso_decision_lru. exact (lru_decision (bucket_lru salt p) r f None Hr Hlen). Qed.

(** ** One quota pass *)

(** The test of the loop: some bytes, and not below the threshold. *)
Definition over_budget (q : QuotaManager) (cfg : EvictionConfig) (salt : string) (bytes : Z) : bool :=
  (0 <? bytes) &&
  match f_scale (trigger_watermark cfg) (get_limit_bytes salt q) with
  | Ret threshold => negb (num_lt (NInt bytes) (NFloat threshold))
  | Raise _ => false
  end.

(** What the pass takes from a salt. *)
Definition salt_victims (q : QuotaManager) (cfg : EvictionConfig) (p : IsolatedLRU) (salt : string) (bytes : Z)
    (victims : list ObjectKey) : Prop :=
  if over_budget q cfg salt bytes then
    if get_limit_bytes salt q =? 0 then victims = bucket salt (iso_order p)
    else ∃ t : nat, victims = take t (bucket salt (iso_order p)) ∧
         (bucket salt (iso_order p) ≠ [] → t = 0%nat ↔ not_positive (eviction_ratio cfg) = true)
  else victims = [].

Definition limits_fit (q : QuotaManager) : Prop := ∀ salt, 0 <= get_limit_bytes salt q < 2 ^ 53.
Definition buckets_fit (p : IsolatedLRU) : Prop := ∀ salt, Z.of_nat (length (bucket salt (iso_order p))) < 2 ^ 53.

Lemma f_scale_fits f z : 0 <= z < 2 ^ 53 → ∃ t, f_scale f z = Ret t.
Proof.
  intros Hz. unfold f_scale. destruct (decide (z = 0)) as [->|Hne]; [by eexists|].
  pose proof (f_of_Z_pos z ltac:(lia)) as Hp. destruct (f_of_Z z); try done; by eexists.
Qed.

(** A salt without quota is over budget as soon as it has bytes. *)
Lemma no_quota_over q cfg salt bytes : get_limit_bytes salt q = 0 → 0 < bytes → over_budget q cfg salt bytes = true.
Proof.
  intros Hl Hb. unfold over_budget. rewrite Hl. replace (0 <? bytes) with true by lia. cbn [andb].
  change (f_scale (trigger_watermark cfg) 0) with (Ret (f_mul (trigger_watermark cfg) f_zero)). apply negb_true_iff.
  destruct (trigger_watermark cfg) as [s|s| |s m e]; cbn; try done; destruct bytes; done.
Qed.

Lemma of_salt_bucket p salt salt' l :
  iso_wf (iso_order p) → (∀ k, k ∈ l → k ∈ bucket salt (iso_order p)) →
  of_salt salt' l = if decide (salt = salt') then l else [].
Proof.
  intros Hwf Hl. destruct (iso_wf_bucket _ salt Hwf) as [_ Hk]. unfold of_salt. case_decide as Hs.
  - apply filter_all. intros k Hin. subst. by apply Hk, Hl.
  - apply filter_none. intros k Hin E. apply Hs. rewrite <-E. symmetry. by apply Hk, Hl.
Qed.

Lemma of_salt_app salt a b : of_salt salt (a ++ b) = of_salt salt a ++ of_salt salt b.
Proof. apply filter_app. Qed.

(** All actions of a policy go to one destination. *)
Definition collected (d : EvictionDestination) (ks : list ObjectKey)
    (pending : dict EvictionDestination (list ObjectKey)) : Prop :=
  (pending = [] ∧ ks = []) ∨ pending = [(d, ks)].

Lemma collected_extend d acts ks pending :
  Forall (λ a, act_destination a = d) acts → collected d ks pending →
  collected d (ks ++ action_keys acts) (foldl extend_pending pending acts).
Proof.
  intros Hd. revert ks pending. induction Hd as [|a acts Ha _ IH]; intros ks pending Hc; cbn [foldl].
  - unfold action_keys. cbn. by rewrite app_nil_r.
  - unfold action_keys. cbn [fmap list_fmap concat]. rewrite app_assoc. apply IH. right. unfold extend_pending. rewrite Ha.
    destruct Hc as [[-> ->]| ->]; cbn [dget dset]; [done|]. by rewrite !decide_True.
Qed.

Section quota_pass.
Context (q : QuotaManager) (cfg : EvictionConfig).
Hypothesis Hlimits : limits_fit q.
Hypothesis Hratio : is_float (eviction_ratio cfg).

(** The decision for one salt over its budget. *)
Lemma salt_decision p salt bytes :
  buckets_fit p → over_budget q cfg salt bytes = true →
  ∃ acts, iso_get_eviction_actions (if get_limit_bytes salt q =? 0 then f_one else eviction_ratio cfg) None (Some salt) p
          = Ret acts ∧
    salt_victims q cfg p salt bytes (action_keys acts) ∧ (∀ k, k ∈ action_keys acts → k ∈ bucket salt (iso_order p)) ∧
    Forall (λ a, act_destination a = pick_destination (iso_destinations p) (iso_default p)) acts.
Proof.
  intros Hfit Hover. unfold salt_victims. rewrite Hover. destruct (get_limit_bytes salt q =? 0).
  - destruct (bucket_wiped None salt p (Hfit salt)) as (acts & E & Hk & Hd). rewrite filter_eligible_all in Hk. exists acts. split_and!; try done. by rewrite Hk.
  - destruct (bucket_trimmed None salt p _ Hratio (Hfit salt)) as (acts & t & E & Hk & Ht' & Hd). pose proof (λ H, proj2 (Ht' H)) as Ht. rewrite filter_eligible_all in Hk. exists acts.
    split_and!; [done|by exists t| |done]. intros k Hin. rewrite Hk in Hin. by eapply subseteq_take.
Qed.

Lemma salts_loop_ok p usage pending ks :
  iso_wf (iso_order p) → buckets_fit p → NoDup (dkeys usage) →
  (∀ salt, salt ∈ dkeys usage → of_salt salt ks = []) →
  (∀ k, k ∈ ks → k ∈ bucket (cache_salt k) (iso_order p)) →
  collected (pick_destination (iso_destinations p) (iso_default p)) ks pending →
  ∃ pending' ks', salts_loop q cfg usage pending p = Ret (pending', p) ∧
    collected (pick_destination (iso_destinations p) (iso_default p)) ks' pending' ∧
    (∀ k, k ∈ ks' → k ∈ bucket (cache_salt k) (iso_order p)) ∧
    (∀ salt bytes, dget salt usage = Some bytes → salt_victims q cfg p salt bytes (of_salt salt ks')) ∧
    (∀ salt, salt ∉ dkeys usage → of_salt salt ks' = of_salt salt ks).
Proof.
  intros Hwf Hfit. revert pending ks. induction usage as [|[salt bytes] usage IH]; intros pending ks Hnd Hno Hin Hc.
  { exists pending, ks. by split_and!. }
  cbn [salts_loop]. apply NoDup_cons in Hnd as [Hsalt Hnd].
  assert (∀ over, over_budget q cfg salt bytes = over →
    (if over then True else
       salts_loop q cfg ((salt, bytes) :: usage) pending p = salts_loop q cfg usage pending p)) as Hskip.
  { intros [] E; [done|]. cbn [salts_loop]. unfold over_budget in E.
    destruct (f_scale_fits (trigger_watermark cfg) _ (Hlimits salt)) as [t Et]. rewrite Et in *. cbn [py_bind].
    destruct (Z.leb_spec bytes 0); [done|]. replace (0 <? bytes) with true in E by lia. cbn [andb] in E.
    apply negb_false_iff in E. by rewrite E. }
  destruct (over_budget q cfg salt bytes) eqn:Eo.
  - destruct (salt_decision p salt bytes Hfit Eo) as (acts & E & Hv & Hb & Hd).
    assert (∀ k, k ∈ action_keys acts → cache_salt k = salt) as Hks.
    { intros k Hk%Hb. by apply (proj2 (iso_wf_bucket _ salt Hwf)). }
    destruct (IH (foldl extend_pending pending acts) (ks ++ action_keys acts) Hnd) as (pend' & ks' & E' & Hc' & Hin' & Hv' & Ho').
    { intros s Hs. rewrite of_salt_app, (of_salt_bucket p salt s (action_keys acts)) by done. rewrite Hno by (right; done).
      rewrite decide_False; [done|]. by intros ->. }
    { intros k [Hk|Hk]%elem_of_app; [by apply Hin|]. rewrite (Hks k Hk). by apply Hb. }
    { by apply collected_extend. }
    exists pend', ks'. split_and!; [|done|done| |].
    + unfold over_budget in Eo. destruct (f_scale_fits (trigger_watermark cfg) _ (Hlimits salt)) as [t Et]. rewrite Et in *.
      apply andb_true_iff in Eo as [Eb El%negb_true_iff]. replace (bytes <=? 0) with false by lia. cbn [py_bind].
      rewrite El. cbn [get_eviction_actions IsolatedLRUEvictionPolicy]. rewrite E. cbn [py_bind fst snd]. exact E'.
    + intros s b. cbn [dget]. case_decide as Hs; [|apply Hv'].
      intros [= <-]. subst s. rewrite Ho' by done. rewrite of_salt_app, (of_salt_bucket p salt salt (action_keys acts)) by done.
      rewrite Hno by left. by rewrite decide_True.
    + intros s Hs. rewrite Ho' by (intros ?; apply Hs; by right). rewrite of_salt_app, (of_salt_bucket p salt s (action_keys acts)) by done.
      rewrite decide_False; [by rewrite app_nil_r|]. intros ->. apply Hs. left.
  - specialize (Hskip false eq_refl). cbn [salts_loop] in Hskip. rewrite Hskip.
    destruct (IH pending ks Hnd) as (pend' & ks' & E' & Hc' & Hin' & Hv' & Ho').
    { intros s Hs. apply Hno. by right. } { done. } { done. }
    exists pend', ks'. split_and!; [done|done|done| |].
    + intros s b. cbn [dget]. case_decide as Hs; [|apply Hv'].
      intros [= <-]. subst s. unfold salt_victims. rewrite Eo, Ho' by done. apply Hno. left.
    + intros s Hs. apply Ho'. intros ?. apply Hs. by right.
Qed.
End quota_pass.

(** ** The controller with its adapter and its policy *)

(** The per-salt policy tracks exactly the keys the adapter has reported and
    still stores. *)
Record sys_inv {A} `{L2AdapterLaws A} (noted : dict ObjectKey Z) (a : A) (p : IsolatedLRU) : Prop := {
  sy_adapter : adapter_inv noted a;
  sy_wf : iso_wf (iso_order p);
  sy_tracks : ∀ k, k ∈ bucket (cache_salt k) (iso_order p) ↔ k ∈ dkeys noted
}.

Lemma removed_filter keys order : foldl order_removed order keys = filter (λ k, k ∉ keys) order.
Proof.
  revert order. induction keys as [|k keys IH]; intros order; cbn [foldl].
  - symmetry. apply filter_all. intros x _. apply not_elem_of_nil.
  - rewrite IH, order_removed_del. unfold oset_del. rewrite list_filter_filter. apply list_filter_iff.
    intros x. rewrite not_elem_of_cons. tauto.
Qed.

Lemma bucket_removed_all keys p salt :
  bucket salt (iso_order (iso_on_keys_removed keys p)) = filter (λ k, k ∉ of_salt salt keys) (bucket salt (iso_order p)).
Proof.
  rewrite <-removed_filter, <-(bucket_foldl bucket_removed order_removed salt (bucket_removed_spec salt)).
  by destruct keys.
Qed.

Lemma elem_of_salt k salt keys : k ∈ of_salt salt keys ↔ cache_salt k = salt ∧ k ∈ keys.
Proof. unfold of_salt. by rewrite list_elem_of_filter. Qed.

Lemma elem_dkeys_without k keys l : k ∈ dkeys (without keys l) ↔ (k ∉ keys) ∧ k ∈ dkeys l.
Proof.
  unfold dkeys, without. rewrite !list_elem_of_fmap. split.
  - intros (p & -> & [Hn Hp]%list_elem_of_filter). split; [done|by exists p].
  - intros (Hn & p & -> & Hp). exists p. split; [done|]. by apply list_elem_of_filter.
Qed.

(** The pass ends with one deletion, of which the policy is told. *)
Lemma execute_pending_ok {A} `{L2AdapterLaws A} d ks pending noted (a : A) p :
  collected d ks pending → sys_inv noted a p → (∀ k, k ∈ ks → k ∈ dkeys noted) →
  ∃ a' p', execute_all (map (λ d : EvictionDestination * list ObjectKey, mkAction d.1 d.2) pending) (a, p) = Ret (a', p') ∧
    sys_inv (without ks noted) a' p' ∧
    ∀ salt, bucket salt (iso_order p') = filter (λ k, k ∉ of_salt salt ks) (bucket salt (iso_order p)).
Proof.
  intros Hc [Ha Hwf Ht] Hks. destruct Hc as [[-> ->]| ->]; cbn [map execute_all].
  - assert (without [] noted = noted) as -> by (apply filter_all; intros; apply not_elem_of_nil).
    exists a, p. split_and!; [done|by split|]. intros salt. symmetry. apply filter_all. intros; apply not_elem_of_nil.
  - unfold _execute_eviction_action. cbn [act_keys fst snd].
    destruct (law_delete noted a ks Ha Hks) as (a' & rk & -> & Ha' & Hrk). cbn [py_bind fst snd].
    assert (notify_all l2_notify match rk with [] => [] | _ => [on_l2_keys_deleted rk] end p
            = Ret (iso_on_keys_removed rk p)) as -> by (by destruct rk).
    assert (∀ k, k ∈ rk ↔ k ∈ ks) as Hrk' by (intros k; rewrite Hrk; split; [by intros [? _]|intros; split; auto]).
    assert (∀ salt, bucket salt (iso_order (iso_on_keys_removed rk p))
                    = filter (λ k, k ∉ of_salt salt ks) (bucket salt (iso_order p))) as Hb.
    { intros salt. rewrite bucket_removed_all. apply list_filter_iff. intros k. by rewrite !elem_of_salt, Hrk'. }
    exists a', (iso_on_keys_removed rk p). split; [done|]. split; [|done]. split; [done| |].
    + change (iso_on_keys_removed rk p) with (iso_step p (Removed rk)). by apply iso_wf_step.
    + intros k. rewrite Hb, list_elem_of_filter, elem_of_salt, Ht, elem_dkeys_without. tauto.
Qed.

Lemma salt_bytes_some salt l p : sized l → p ∈ l → cache_salt p.1 = salt → 0 < salt_bytes salt l.
Proof.
  intros Hs Hp Hsalt. unfold sized in Hs. induction Hs as [|x l Hx Hl IH]; [by apply not_elem_of_nil in Hp|].
  rewrite salt_bytes_cons. pose proof (salt_bytes_nonneg salt l Hl). apply elem_of_cons in Hp as [->|Hp].
  - rewrite decide_True by done. lia.
  - specialize (IH Hp). case_decide; lia.
Qed.

Lemma salt_bytes_none salt l : (∀ p, p ∈ l → cache_salt p.1 ≠ salt) → salt_bytes salt l = 0.
Proof.
  intros Hl. unfold salt_bytes. rewrite (zsum_ext _ (λ _, 0)).
  - induction l as [|x l IH]; [done|]. rewrite zsum_cons, IH; [done|]. intros; apply Hl; by right.
  - intros x Hx. by rewrite decide_False by auto.
Qed.

(** One pass of quota eviction. *)
Lemma quota_pass_ok {A} `{L2AdapterLaws A} q cfg noted (a : A) p :
  limits_fit q → is_float (eviction_ratio cfg) → sys_inv noted a p → buckets_fit p →
  ∃ a' p' victims, _check_and_evict_by_cache_salt q cfg (a, p) = Ret (a', p') ∧
    sys_inv (without victims noted) a' p' ∧ (∀ k, k ∈ victims → k ∈ dkeys noted) ∧
    ∀ salt,
      salt_victims q cfg p salt (salt_bytes salt noted) (of_salt salt victims) ∧
      bucket salt (iso_order p') = filter (λ k, k ∉ of_salt salt victims) (bucket salt (iso_order p)) ∧
      (get_limit_bytes salt q = 0 → salt_bytes salt (without victims noted) = 0).
Proof.
  intros Hq Hr Hsys Hfit. pose proof Hsys as [Ha Hwf Ht]. unfold _check_and_evict_by_cache_salt. cbn [fst snd].
  destruct (salts_loop_ok q cfg Hq Hr p (bytes_by_cache_salt (adapter_usage a)) [] [] Hwf Hfit (law_usage_nodup noted a Ha))
    as (pending & ks & -> & Hc & Hin & Hv & Ho); [done|by intros k ?%not_elem_of_nil|by left|].
  cbn [py_bind fst snd]. assert (∀ k, k ∈ ks → k ∈ dkeys noted) as Hks by (intros k Hk%Hin; by apply Ht).
  destruct (execute_pending_ok _ ks pending noted a p Hc Hsys Hks) as (a' & p' & -> & Hsys' & Hb).
  exists a', p', ks. split; [done|]. split; [done|]. split; [done|]. intros salt.
  assert (salt_victims q cfg p salt (salt_bytes salt noted) (of_salt salt ks)) as Hsalt.
  { rewrite <-(law_usage noted a salt Ha). destruct (dget salt _) as [b|] eqn:E; [by apply Hv|].
    unfold salt_victims, over_budget. cbn. rewrite Ho by (by apply dget_None). done. }
  split; [done|]. split; [done|]. intros Hl. apply salt_bytes_none. intros x Hx Hs.
  apply list_elem_of_filter in Hx as [Hnk Hx]. pose proof (salt_bytes_some salt noted x (law_sized noted a Ha) Hx Hs) as Hpos.
  unfold salt_victims in Hsalt. rewrite no_quota_over, Hl in Hsalt by done. cbn in Hsalt.
  apply Hnk. assert (x.1 ∈ of_salt salt ks) as [_ ?]%elem_of_salt; [|done]. rewrite Hsalt, <-Hs. apply Ht. by apply elem_dkeys.
Qed.

(** *** Membership after a notification *)

Lemma elem_created keys order k : k ∈ foldl order_created order keys ↔ k ∈ order ∨ k ∈ keys.
Proof.
  revert order. induction keys as [|x keys IH]; intros order; cbn [foldl].
  - split; [by left|]. intros [?|?%not_elem_of_nil]; done.
  - rewrite IH, oset_del_move, elem_of_app, elem_of_oset_del, list_elem_of_singleton, elem_of_cons.
    destruct (decide (k = x)); tauto.
Qed.

Lemma elem_touched keys order k : k ∈ foldl order_touched order keys ↔ k ∈ order.
Proof.
  revert order. induction keys as [|x keys IH]; intros order; cbn [foldl]; [done|]. rewrite IH. unfold order_touched.
  destruct (oset_mem x order) eqn:E; [|done]. apply oset_mem_true in E. rewrite elem_of_oset_move.
  split; [by intros [?| ->]|by left].
Qed.

Lemma bucket_created_all keys p k :
  k ∈ bucket (cache_salt k) (iso_order (iso_on_keys_created keys p)) ↔
  k ∈ bucket (cache_salt k) (iso_order p) ∨ k ∈ keys.
Proof.
  assert (bucket (cache_salt k) (iso_order (iso_on_keys_created keys p))
          = foldl order_created (bucket (cache_salt k) (iso_order p)) (of_salt (cache_salt k) (rev keys))) as ->.
  { rewrite <-(bucket_foldl bucket_created order_created _ (bucket_created_spec _)). by destruct keys. }
  rewrite elem_created, elem_of_salt. assert (k ∈ rev keys ↔ k ∈ keys) as -> by (by rewrite !list_elem_of_In, <-in_rev).
  tauto.
Qed.

Lemma bucket_touched_all keys p k :
  k ∈ bucket (cache_salt k) (iso_order (iso_on_keys_touched keys p)) ↔ k ∈ bucket (cache_salt k) (iso_order p).
Proof.
  assert (bucket (cache_salt k) (iso_order (iso_on_keys_touched keys p))
          = foldl order_touched (bucket (cache_salt k) (iso_order p)) (of_salt (cache_salt k) (rev keys))) as ->.
  { rewrite <-(bucket_foldl bucket_touched order_touched _ (bucket_touched_spec _)). by destruct keys. }
  apply elem_touched.
Qed.

(** ** Histories of the mock adapter under quota eviction *)

(** A step: a submission, a query, the start of a queued task, the end of a
    sleeping one, a touch, or an eviction pass. *)
Inductive l2_step : MockL2Adapter * IsolatedLRU → MockL2Adapter * IsolatedLRU → Prop :=
  | step_store keys objects m p :
      Forall plain objects → l2_step (m, p) ((submit_store_task keys objects m).2, p)
  | step_lookup keys m p : l2_step (m, p) ((submit_lookup_and_lock_task keys m).2, p)
  | step_load keys objects m p : l2_step (m, p) ((submit_load_task keys objects m).2, p)
  | step_unlock keys m p : l2_step (m, p) (submit_unlock keys m, p)
  | step_pop m p : l2_step (m, p) ((pop_completed_store_tasks m).2, p)
  | step_query_lookup id m p : l2_step (m, p) ((query_lookup_and_lock_result id m).2, p)
  | step_query_load id m p : l2_step (m, p) ((query_load_result id m).2, p)
  | step_run before j after m p :
      mk_queue m = before ++ j :: after →
      l2_step (m, p) (run_job j (set_tasks (mk_next m) (before ++ after) (mk_sleeping m) m), p)
  | step_wake before s after m m' evs p p' :
      mk_sleeping m = before ++ s :: after →
      wake s (set_tasks (mk_next m) (mk_queue m) (before ++ after) m) = Ret (m', evs) →
      notify_all l2_notify evs p = Ret p' → l2_step (m, p) (m', p')
  | step_touch keys m p p' :
      notify_all l2_notify (_notify_keys_accessed keys) p = Ret p' → l2_step (m, p) (m, p')
  | step_evict q cfg m m' p p' :
      limits_fit q → is_float (eviction_ratio cfg) → buckets_fit p →
      _check_and_evict (Some q) cfg (m, p) = Ret (m', p') → l2_step (m, p) (m', p').

Lemma sys_same noted m m' p :
  sys_inv noted m p → mk_objects m' = mk_objects m → mk_sleeping m' = mk_sleeping m → mk_size m' = mk_size m →
  mk_base m' = mk_base m → Forall job_ok (mk_queue m') → sys_inv noted m' p.
Proof.
  intros [[H1 H2 H3 H4 H5 H6 H7 H8] Hwf Ht] E1 E2 E3 E4 Hq. split; [|done|done]. split; rewrite ?E1, ?E2, ?E3, ?E4; done.
Qed.

Lemma queue_split noted m p before j after :
  sys_inv noted m p → mk_queue m = before ++ j :: after → job_ok j ∧ Forall job_ok (before ++ after).
Proof.
  intros [Hm _ _] E. pose proof (mi_queue _ _ Hm) as Hq. rewrite E in Hq. apply Forall_app in Hq as [Hb Hq].
  apply Forall_cons in Hq as [Hj Ha]. split; [done|]. by apply Forall_app.
Qed.

Lemma sys_wake noted before s after m m' evs p p' :
  sys_inv noted m p → mk_sleeping m = before ++ s :: after →
  wake s (set_tasks (mk_next m) (mk_queue m) (before ++ after) m) = Ret (m', evs) →
  notify_all l2_notify evs p = Ret p' → sys_inv (noted ++ unreported s) m' p'.
Proof.
  intros [Hm Hwf Ht] Es Ew En. destruct (wake_inv noted before s after m Hm Es) as (m2 & ev2 & E2 & Hm2 & Hev).
  rewrite Ew in E2. injection E2 as <- <-.
  assert (∀ k, k ∈ dkeys (noted ++ unreported s) ↔ k ∈ dkeys noted ∨ k ∈ dkeys (unreported s)) as Hk.
  { intros k. unfold dkeys. by rewrite fmap_app, elem_of_app. }
  destruct s as [tid ok total keys sizes|tid bm acc].
  - assert (dkeys (unreported (SleepStore tid ok total keys sizes)) = keys) as Hu.
    { pose proof (mi_sleep _ _ Hm) as Hsl. rewrite Es in Hsl. apply Forall_app in Hsl as [_ Hsl].
      apply Forall_cons in Hsl as [[Hlen _] _]. unfold dkeys. cbn. by rewrite fst_zip by lia. }
    assert (p' = iso_on_keys_created keys p) as ->.
    { subst evs. destruct keys; cbn in En; by injection En as <-. }
    split; [done| |].
    + change (iso_on_keys_created keys p) with (iso_step p (Created keys)). by apply iso_wf_step.
    + intros k. by rewrite bucket_created_all, Ht, Hk, Hu.
  - assert (p' = iso_on_keys_touched acc p) as ->.
    { subst evs. destruct acc; cbn in En; by injection En as <-. }
    split; [done| |].
    + change (iso_on_keys_touched acc p) with (iso_step p (Touched acc)). by apply iso_wf_step.
    + intros k. rewrite bucket_touched_all, Ht, Hk. cbn. split; [by left|]. intros [?|?%not_elem_of_nil]; done.
Qed.

Lemma l2_step_inv st st' noted :
  l2_step st st' → sys_inv noted st.1 st.2 → ∃ noted', sys_inv noted' st'.1 st'.2.
Proof.
  intros Hstep Hsys.
  assert (∀ j m', job_ok j → mk_objects m' = mk_objects st.1 → mk_sleeping m' = mk_sleeping st.1 →
    mk_size m' = mk_size st.1 → mk_base m' = mk_base st.1 → mk_queue m' = mk_queue st.1 ++ [j] →
    sys_inv noted m' st.2) as Hsub.
  { intros j m' Hj E1 E2 E3 E4 E5. eapply sys_same; try done. rewrite E5. apply Forall_app. split; [|by apply Forall_singleton].
    apply (mi_queue _ _ (sy_adapter _ _ _ Hsys)). }
  pose proof (mi_queue _ _ (sy_adapter _ _ _ Hsys)) as Hq.
  destruct Hstep as [keys objects m p Hpl|keys m p|keys objects m p|keys m p|m p|tid m p|tid m p|before j after m p Eq
    |before s after m m' evs p p' Es Ew En|keys m p p' En|q cfg m m' p p' Hl Hr Hb E]; cbn [fst snd] in *.
  - exists noted. by eapply (Hsub (JobStore keys objects (mk_next m))).
  - exists noted. by eapply (Hsub (JobLookup keys (mk_next m))).
  - exists noted. by eapply (Hsub (JobLoad keys objects (mk_next m))).
  - exists noted. by eapply (Hsub (JobUnlock keys)).
  - exists noted. by eapply sys_same.
  - exists noted. by eapply sys_same.
  - exists noted. by eapply sys_same.
  - exists noted. destruct (queue_split noted m p before j after Hsys Eq) as [Hj Hrest].
    assert (sys_inv noted (set_tasks (mk_next m) (before ++ after) (mk_sleeping m) m) p) as [Hm Hwf Ht]
      by (by eapply sys_same).
    split; [by apply run_job_inv|done|done].
  - eexists. by eapply sys_wake.
  - exists noted. cbn in En. injection En as <-. destruct Hsys as [Hm Hwf Ht]. split; [done| |].
    + change (iso_on_keys_touched keys p) with (iso_step p (Touched keys)). by apply iso_wf_step.
    + intros k. by rewrite bucket_touched_all.
  - destruct (quota_pass_ok q cfg noted m p Hl Hr Hsys Hb) as (m2 & p2 & ks & E2 & Hsys2 & _).
    cbn [_check_and_evict support_isolation IsolatedLRUEvictionPolicy] in E. unfold _check_and_evict in E.
    cbn [support_isolation IsolatedLRUEvictionPolicy] in E. rewrite E2 in E. injection E as <- <-. by eexists.
Qed.
(** C29: one pass of quota eviction over an adapter and its per-salt policy.
    The pass returns, keeps policy and adapter in step, and deletes exactly
    the following keys. From a salt whose bytes are below its threshold,
    none. From a salt over its threshold, its oldest keys - at least one if
    the configured ratio is positive - and never another salt's. From a salt
    without quota, all: it is left without a byte. *)
Theorem quota_pass_enforced {A} `{L2AdapterLaws A} q cfg noted (a : A) p :
  limits_fit q → is_float (eviction_ratio cfg) → sys_inv noted a p → buckets_fit p →
  ∃ a' p' victims, _check_and_evict_by_cache_salt q cfg (a, p) = Ret (a', p') ∧
    sys_inv (without victims noted) a' p' ∧ (∀ k, k ∈ victims → k ∈ dkeys noted) ∧
    ∀ salt,
      salt_victims q cfg p salt (salt_bytes salt noted) (of_salt salt victims) ∧
      bucket salt (iso_order p') = filter (λ k, k ∉ of_salt salt victims) (bucket salt (iso_order p)) ∧
      (get_limit_bytes salt q = 0 → salt_bytes salt (without victims noted) = 0).
Proof. apply quota_pass_ok. Qed.

(** C30: in every state that submissions, task starts and wake-ups in any order,
    queries, touches and quota passes can reach, where the objects stored have a
    positive size that was not narrowed, the mock adapter, listened to by the
    per-salt LRU policy, is within its capacity; its byte counters, in all and per salt, together with what
    sleeping store tasks have yet to report are the bytes it stores; and the
    policy tracks exactly the stored keys that were reported. *)
Theorem l2_reachable_consistent capacity m p :
  0 <= capacity → rtc l2_step (mock_init capacity, iso_init DISCARD) (m, p) →
  bytes_of (ledger (mk_objects m)) <= max_capacity_bytes (mk_base m) ∧
  base_total (mk_base m) + bytes_of (pending (mk_sleeping m)) = bytes_of (ledger (mk_objects m)) ∧
  (∀ salt, default 0 (dget salt (base_by_salt (mk_base m))) + salt_bytes salt (pending (mk_sleeping m))
           = salt_bytes salt (ledger (mk_objects m))) ∧
  (∀ k, k ∈ bucket (cache_salt k) (iso_order p) ↔
        k ∈ dkeys (mk_objects m) ∧ (k ∉ dkeys (pending (mk_sleeping m)))).
Proof.
  intros Hc Hr. assert (∃ noted, sys_inv noted m p) as [noted [Hm Hwf Ht]].
  { assert (∀ st st', rtc l2_step st st' → (∃ noted, sys_inv noted st.1 st.2) → ∃ noted, sys_inv noted st'.1 st'.2) as Hrtc.
    { induction 1 as [|x y z Hxy _ IH]; [done|]. intros [n0 Hn]. apply IH. by eapply l2_step_inv. }
    apply (Hrtc _ _ Hr). exists []. split; [by apply mock_init_inv| |].
    - split; [constructor|by intros ?? ?%not_elem_of_nil].
    - intros k. cbn. split; by intros ?%not_elem_of_nil. }
  destruct Hm as [H1 H2 H3 H4 H5 [A1 A2 A3] H7 H8]. split_and!.
  - by rewrite <-H3.
  - rewrite A1, <-bytes_of_app. symmetry. by apply zsum_perm.
  - intros salt. rewrite A2, <-salt_bytes_app. symmetry. by apply zsum_perm.
  - intros k. rewrite Ht. assert (NoDup (dkeys noted ++ dkeys (pending (mk_sleeping m)))) as Hnd.
    { unfold dkeys. rewrite <-fmap_app, <-H1. change (ledger _).*1 with (dkeys (ledger (mk_objects m))). by rewrite dkeys_ledger. }
    assert (k ∈ dkeys (mk_objects m) ↔ k ∈ dkeys noted ∨ k ∈ dkeys (pending (mk_sleeping m))) as ->.
    { rewrite <-dkeys_ledger. unfold dkeys. by rewrite H1, fmap_app, elem_of_app. }
    apply NoDup_app in Hnd as (_ & Hd & _). specialize (Hd k). tauto.
Qed.

(** Narrowed objects are cloned at their full size: storing one and deleting it
    takes more off the counters than it added. *)
Lemma narrowed_object_drifts :
  let o := mkObj 0 512 1 0 KV_2LTD 100 (Some 10) true None in
  ∃ m1 ev1 m2 ev2,
    wake (SleepStore 0 true 10 [demo_key] [10])
      (set_tasks 1 [] [] (run_job (JobStore [demo_key] [o] 0) (mock_init 1000))) = Ret (m1, ev1) ∧
    base_total (mk_base m1) = 10 ∧ mock_delete [demo_key] m1 = Ret (m2, ev2) ∧ mk_size m2 = -90.
Proof. do 4 eexists. split; [vm_compute; reflexivity|]. split; [reflexivity|]. split; [vm_compute; reflexivity|]. reflexivity. Qed.

(** ** Witnesses *)

Definition demo_object : MemoryObj := mkObj 0 512 1 0 KV_2LTD 100 None true None.
Definition demo_config : EvictionConfig := mkConfig "IsolatedLRU" f_half f_half.

(** An adapter that stored one object and reported it, and its policy. *)
Definition demo_adapter : MockL2Adapter :=
  match wake (SleepStore 0 true 100 [demo_key] [100])
          (set_tasks 1 [] [] (run_job (JobStore [demo_key] [demo_object] 0) (set_tasks 1 [] [] (mock_init 1000)))) with
  | Ret (m, _) => m
  | Raise _ => mock_init 1000
  end.
Definition demo_iso : IsolatedLRU := iso_on_keys_created [demo_key] (iso_init DISCARD).

Lemma demo_history : rtc l2_step (mock_init 1000, iso_init DISCARD) (demo_adapter, demo_iso).
Proof.
  eapply rtc_l; [apply (step_store [demo_key] [demo_object])|].
  { apply Forall_singleton. by split. }
  eapply rtc_l; [apply (step_run [] (JobStore [demo_key] [demo_object] 0) []); reflexivity|].
  eapply rtc_l; [|apply rtc_refl].
  eapply (step_wake [] (SleepStore 0 true 100 [demo_key] [100]) []); [reflexivity|vm_compute; reflexivity|reflexivity].
Qed.

Lemma l2_reachable_consistent_witness :
  base_total (mk_base demo_adapter) = 100 ∧ demo_key ∈ bucket (cache_salt demo_key) (iso_order demo_iso).
Proof.
  destruct (l2_reachable_consistent 1000 demo_adapter demo_iso ltac:(lia) demo_history) as (_ & Ht & _ & Hk).
  split; [reflexivity|]. apply Hk. split; [left|apply not_elem_of_nil].
Defined.

Lemma demo_sys : sys_inv [(demo_key, 100)] demo_adapter demo_iso.
Proof.
  split.
  - split; try done.
    + apply (bool_decide_unpack _). vm_compute. exact I.
    + repeat constructor.
    + split; [reflexivity| |apply (bool_decide_unpack _); vm_compute; exact I].
      intros salt. assert (base_by_salt (mk_base demo_adapter) = [(cache_salt demo_key, 100)]) as -> by (vm_compute; reflexivity).
      rewrite salt_bytes_cons. cbn [dget fst snd]. by case_decide.
  - change demo_iso with (iso_step (iso_init DISCARD) (Created [demo_key])). apply iso_wf_step.
    split; [constructor|by intros ?? ?%not_elem_of_nil].
  - intros k. unfold demo_iso. rewrite bucket_created_all. cbn. split; [|by right].
    intros [?%not_elem_of_nil|?]; done.
Qed.

Lemma demo_fit : buckets_fit demo_iso.
Proof.
  intros salt. unfold bucket. change (iso_order demo_iso) with [(cache_salt demo_key, [demo_key])]. cbn [dget].
  by case_decide.
Qed.

(** Without a quota for its salt the object goes. *)
Lemma quota_pass_enforced_witness :
  ∃ m' p' victims, _check_and_evict_by_cache_salt quota_init demo_config (demo_adapter, demo_iso) = Ret (m', p') ∧
    demo_key ∈ victims ∧ salt_bytes (cache_salt demo_key) (without victims [(demo_key, 100)]) = 0.
Proof.
  destruct (quota_pass_enforced quota_init demo_config [(demo_key, 100)] demo_adapter demo_iso
    ltac:(intros salt; cbn; lia) ltac:(reflexivity) demo_sys
    demo_fit) as (m' & p' & ks & E & _ & _ & Hs).
  destruct (Hs (cache_salt demo_key)) as (Hv & _ & H0). exists m', p', ks. split; [exact E|].
  split; [|by apply H0].
  assert (of_salt (cache_salt demo_key) ks = bucket (cache_salt demo_key) (iso_order demo_iso)) as Hv' by exact Hv.
  assert (demo_key ∈ of_salt (cache_salt demo_key) ks) as [_ Hin]%elem_of_salt; [|exact Hin].
  rewrite Hv'. left.
Defined.
