(* ===== verification/Handler.v ===== *)
(** * Handlers

    The controllers run handlers on their own state: a handler returns or
    raises, and what it changed before it raised stays changed. [hwp] is the
    weakest precondition of a handler for a postcondition on return and one
    on exceptions; with [False] for the latter it says that the handler
    returns. *)

From stdpp Require Import list.
From S2P Require Import Prelude.

Definition handler (St X : Type) : Type := St → py X * St.

Definition h_ret {St X} (x : X) : handler St X := λ s, (Ret x, s).
Definition h_raise {St X} (e : exn) : handler St X := λ s, (Raise e, s).
Definition h_bind {St X Y} (c : handler St X) (k : X → handler St Y) : handler St Y :=
  λ s, match c s with (Ret x, s') => k x s' | (Raise e, s') => (Raise e, s') end.
Definition h_get {St} : handler St St := λ s, (Ret s, s).
Definition h_modify {St} (f : St → St) : handler St unit := λ s, (Ret tt, f s).

(** A pure computation that can raise. *)
Definition h_lift {St X} (c : py X) : handler St X := λ s, (c, s).

(** [try: h except Exception: k]. *)
Definition h_catch {St X} (h k : handler St X) : handler St X :=
  λ s, match h s with (Ret x, s') => (Ret x, s') | (Raise _, s') => k s' end.

Declare Scope handler_scope.
Delimit Scope handler_scope with handler.
Notation "'let^' x := c 'in' k" := (h_bind c (λ x, k))
  (at level 10, x binder, c at level 100, k at level 200) : handler_scope.
Open Scope handler_scope.

(** [for x in l: f(x)]. *)
Fixpoint h_iter {St X} (f : X → handler St unit) (l : list X) : handler St unit :=
  match l with
  | [] => h_ret tt
  | x :: l' => let^ _ := f x in h_iter f l'
  end.

(** The same, updating local variables [a]. *)
Fixpoint h_fold {St X A} (f : A → X → handler St A) (a : A) (l : list X) : handler St A :=
  match l with
  | [] => h_ret a
  | x :: l' => let^ a' := f a x in h_fold f a' l'
  end.

(** ** Weakest preconditions *)

Section hwp.
Context {St : Type}.

Definition hwp {X} (h : handler St X) (Q : X → St → Prop) (E : St → Prop) (s : St) : Prop :=
  match h s with (Ret x, s') => Q x s' | (Raise _, s') => E s' end.

Lemma hwp_bind {X Y} (c : handler St X) (k : X → handler St Y) Q E s :
  hwp c (λ x s', hwp (k x) Q E s') E s → hwp (let^ x := c in k x) Q E s.
Proof. unfold hwp, h_bind. by destruct (c s) as [[x|e] s']. Qed.

Lemma hwp_mono {X} (c : handler St X) (P Q : X → St → Prop) (E F : St → Prop) s :
  hwp c P E s → (∀ x s', P x s' → Q x s') → (∀ s', E s' → F s') → hwp c Q F s.
Proof. unfold hwp. destruct (c s) as [[x|e] s']; auto. Qed.

Lemma hwp_returns {X} (c : handler St X) (Q : X → St → Prop) (E : St → Prop) s :
  hwp c Q (λ _, False) s → hwp c Q E s.
Proof. intros H. by eapply hwp_mono. Qed.

Lemma hwp_ret {X} (x : X) (Q : X → St → Prop) E s : Q x s → hwp (h_ret x) Q E s.
Proof. done. Qed.

Lemma hwp_lift {X} (c : py X) (x : X) (Q : X → St → Prop) E s : c = Ret x → Q x s → hwp (h_lift c) Q E s.
Proof. by intros ->. Qed.

(** A loop keeps what each of its turns keeps. *)
Lemma hwp_iter {X} (f : X → handler St unit) (I : list X → St → Prop) E l s :
  (∀ x l' s, x ∈ l → I (x :: l') s → hwp (f x) (λ _ s', I l' s') E s) →
  I l s → hwp (h_iter f l) (λ _ s', I [] s') E s.
Proof.
  revert s. induction l as [|x l IH]; intros s Hf Hs; [done|]. cbn [h_iter]. apply hwp_bind.
  eapply hwp_mono; [apply Hf; [left|exact Hs]| |done]. intros [] s1 Hs1. apply (IH s1); [|exact Hs1].
  intros y l' s'' Hy. apply Hf. by right.
Qed.

Lemma hwp_fold {X A} (f : A → X → handler St A) (I : list X → A → St → Prop) E l a s :
  (∀ x l' a s, x ∈ l → I (x :: l') a s → hwp (f a x) (λ a' s', I l' a' s') E s) →
  I l a s → hwp (h_fold f a l) (λ a' s', I [] a' s') E s.
Proof.
  revert a s. induction l as [|x l IH]; intros a s Hf Hs; [done|]. cbn [h_fold]. apply hwp_bind.
  eapply hwp_mono; [apply Hf; [left|exact Hs]| |done]. intros a1 s1 Hs1. apply (IH a1 s1); [|exact Hs1].
  intros y l' a'' s'' Hy. apply Hf. by right.
Qed.
End hwp.
