(* ===== verification/StoreController.v ===== *)
(** * The store controller

    [StoreController] (storage_controllers/store_controller.py): a background
    loop that copies objects from L1 to the L2 adapters once their write
    finished. It takes a read lock on every object it submits, and gives it
    back when the adapter reports the task done, or when the controller stops.

    The controller is written against two interfaces: the L1 manager
    ([L1ManagerInterface] of internal_api.py; nothing is assumed of the answers
    it gives, which other threads influence, but that [finish_read] returns) and the store part of an L2 adapter
    ([L2AdapterInterface]), of which only is used that it does not issue a task
    id twice. An exception ends the handler it is raised in, is logged by the
    loop and leaves the state as it is at that point, so a handler is a function
    on the state that returns or raises, and keeps the state in both cases. The
    read locks taken from and returned to L1 are recorded in [sc_taken] and
    [sc_returned]; events and gauges are not modelled, and the [done] event of
    an operation is its number, added to [sc_done] when it is set. *)

From stdpp Require Import gmap list strings relations.
From Stdlib Require Import ZArith Lia.
From S2P Require Import Prelude TensorAllocator Keys L1Memory L1Manager L1ManagerInv L1ManagerProps Bitmap L2Adapter PrefetchPolicy Handler.

Open Scope Z_scope.
Open Scope handler_scope.

(** ** Interfaces *)

(** The calls the controller makes on [L1ManagerInterface]. *)
Class L1ManagerInterface (S : Type) := {
  l1_reserve_read : list ObjectKey → Z → S → py (dict ObjectKey L1OperationResult) * S;
  l1_finish_read : list ObjectKey → Z → S → py (dict ObjectKey L1Error) * S;
  l1_delete : list ObjectKey → bool → S → py (dict ObjectKey L1Error) * S
}.

(** The L1 manager of this development is one. *)
#[export] Instance BaseL1Manager_interface {M} `{L1MemoryManagerProtocol M} (clock : nat → Z)
    : L1ManagerInterface (L1 M) := {|
  l1_reserve_read := reserve_read clock;
  l1_finish_read := finish_read clock;
  l1_delete := delete clock
|}.

(** What the controller relies on: in a consistent state [finish_read] returns,
    and the calls keep the manager consistent. *)
Class L1ManagerLaws (S : Type) `{L1ManagerInterface S} := {
  l1_ok : S → Prop;
  l1_reserve_ok : ∀ keys n s, l1_ok s → l1_ok (l1_reserve_read keys n s).2;
  l1_finish_ok : ∀ keys n s, l1_ok s → ∃ r s', l1_finish_read keys n s = (Ret r, s') ∧ l1_ok s';
  l1_delete_ok : ∀ keys force s, l1_ok s → l1_ok (l1_delete keys force s).2
}.

Lemma wp_returns {M X} (call : L1M M X) (I : L1 M → Prop) s :
  wp call (λ _ s', I s') s → ∃ r s', call s = (Ret r, s') ∧ I s'.
Proof. unfold wp. destruct (call s) as [[r|e] s']; [by eauto|done]. Qed.

#[export] Instance BaseL1Manager_laws {M} `{L1MemoryLaws M} (clock : nat → Z) (wttl rttl mid : Z)
    : @L1ManagerLaws (L1 M) (BaseL1Manager_interface clock).
Proof.
  refine {| l1_ok := inv wttl rttl mid [] |}.
  - intros keys n s Hs. destruct (wp_returns _ _ _ (reserve_read_inv clock wttl rttl mid keys n s Hs)) as (r & s' & E & Hs').
    cbn. by rewrite E.
  - intros keys n s Hs. exact (wp_returns _ _ _ (finish_read_inv clock wttl rttl mid keys n s Hs)).
  - intros keys f s Hs. destruct (wp_returns _ _ _ (delete_inv clock wttl rttl mid keys f s Hs)) as (r & s' & E & Hs').
    cbn. by rewrite E.
Defined.

Class L2StoreAdapter (A : Type) := {
  store_submit : list ObjectKey → list oid → A → py Z * A;
  store_pop : A → dict Z Z * A
}.

(** A task id is issued once. *)
Class L2StoreLaws (A : Type) `{L2StoreAdapter A} := {
  issued : A → Z → Prop;
  submit_fresh : ∀ keys objs a id a', store_submit keys objs a = (Ret id, a') →
    ¬ issued a id ∧ issued a' id ∧ ∀ i, issued a i → issued a' i;
  submit_failed : ∀ keys objs a e a', store_submit keys objs a = (Raise e, a') → ∀ i, issued a i → issued a' i;
  pop_issued : ∀ a i, issued a i → issued (store_pop a).2 i
}.

(** The mock adapter is one: it stores what the objects that it is handed by
    reference hold ([heap]) when the task runs, and counts its task ids up. *)
#[export] Instance Mock_store_adapter (heap : oid → MemoryObj) : L2StoreAdapter MockL2Adapter := {|
  store_submit := λ keys objs m, let '(id, m') := submit_store_task keys (heap <$> objs) m in (Ret id, m');
  store_pop := pop_completed_store_tasks
|}.

#[export] Instance Mock_store_laws (heap : oid → MemoryObj) : @L2StoreLaws MockL2Adapter (Mock_store_adapter heap).
Proof.
  refine {| issued := λ m i, i < mk_next m |}.
  - intros keys objs m id m' [= <- <-]. cbn. split_and!; lia.
  - discriminate.
  - done.
Defined.

(** ** State *)

Record InFlightStoreTask := mkInFlight {
  if_keys : list ObjectKey;
  if_read_locked_keys : list ObjectKey;
  if_l2_store_result : option bool;
  if_l2_bytes_transferred : Z
}.

(** A queued [AddAdapterOp] or [RemoveAdapterOp], with its [done] event. *)
Inductive adapter_op (A D : Type) :=
  | AddAdapterOp (adapter_id : Z) (adapter : A) (descriptor : D) (done : Z)
  | RemoveAdapterOp (adapter_id : Z) (done : Z).
Arguments AddAdapterOp {A D}.
Arguments RemoveAdapterOp {A D}.

Record StoreController (S A D P : Type) := mkSC {
  sc_l1 : S;
  sc_adapters : dict Z A;
  sc_descriptors : dict Z D;
  sc_policy : P;
  sc_draining : dict Z Z;                                  (* adapter id -> done event *)
  sc_ops : list (adapter_op A D);
  sc_pending_keys : list ObjectKey;                        (* of the StoreListener *)
  sc_in_flight : dict (Z * Z) InFlightStoreTask;
  sc_deferred : list ObjectKey;                            (* _deferred_l1_deletions *)
  sc_done : list Z;
  sc_taken : list ObjectKey;
  sc_returned : list ObjectKey
}.
Arguments mkSC {S A D P}.
Arguments sc_l1 {S A D P}.
Arguments sc_adapters {S A D P}.
Arguments sc_descriptors {S A D P}.
Arguments sc_policy {S A D P}.
Arguments sc_draining {S A D P}.
Arguments sc_ops {S A D P}.
Arguments sc_pending_keys {S A D P}.
Arguments sc_in_flight {S A D P}.
Arguments sc_deferred {S A D P}.
Arguments sc_done {S A D P}.
Arguments sc_taken {S A D P}.
Arguments sc_returned {S A D P}.

Definition _group_keys_by_shape (keys : list ObjectKey) : dict (string * Z) (list ObjectKey) :=
  foldl (λ groups key,
    let shape := (model_name key, kv_rank key) in
    dset shape (default [] (dget shape groups) ++ [key]) groups) [] keys.

Section controller.
Context {S A D P : Type} `{L1ManagerInterface S} `{L2StoreAdapter A} `{StorePolicy P D}.

#[local] Abbreviation SC := (StoreController S A D P).
#[local] Abbreviation Handler := (handler SC).

Definition set_l1 (s : S) (c : SC) : SC :=
  mkSC s (sc_adapters c) (sc_descriptors c) (sc_policy c) (sc_draining c) (sc_ops c) (sc_pending_keys c)
    (sc_in_flight c) (sc_deferred c) (sc_done c) (sc_taken c) (sc_returned c).
Definition set_adapters (a : dict Z A) (d : dict Z D) (c : SC) : SC :=
  mkSC (sc_l1 c) a d (sc_policy c) (sc_draining c) (sc_ops c) (sc_pending_keys c)
    (sc_in_flight c) (sc_deferred c) (sc_done c) (sc_taken c) (sc_returned c).
Definition set_draining (d : dict Z Z) (done : list Z) (c : SC) : SC :=
  mkSC (sc_l1 c) (sc_adapters c) (sc_descriptors c) (sc_policy c) d (sc_ops c) (sc_pending_keys c)
    (sc_in_flight c) (sc_deferred c) done (sc_taken c) (sc_returned c).
Definition set_queues (ops : list (adapter_op A D)) (keys : list ObjectKey) (c : SC) : SC :=
  mkSC (sc_l1 c) (sc_adapters c) (sc_descriptors c) (sc_policy c) (sc_draining c) ops keys
    (sc_in_flight c) (sc_deferred c) (sc_done c) (sc_taken c) (sc_returned c).
Definition set_in_flight (f : dict (Z * Z) InFlightStoreTask) (c : SC) : SC :=
  mkSC (sc_l1 c) (sc_adapters c) (sc_descriptors c) (sc_policy c) (sc_draining c) (sc_ops c) (sc_pending_keys c)
    f (sc_deferred c) (sc_done c) (sc_taken c) (sc_returned c).
Definition set_deferred (d : list ObjectKey) (c : SC) : SC :=
  mkSC (sc_l1 c) (sc_adapters c) (sc_descriptors c) (sc_policy c) (sc_draining c) (sc_ops c) (sc_pending_keys c)
    (sc_in_flight c) d (sc_done c) (sc_taken c) (sc_returned c).
Definition set_locks (taken returned : list ObjectKey) (c : SC) : SC :=
  mkSC (sc_l1 c) (sc_adapters c) (sc_descriptors c) (sc_policy c) (sc_draining c) (sc_ops c) (sc_pending_keys c)
    (sc_in_flight c) (sc_deferred c) (sc_done c) taken returned.

Definition modify (f : SC → SC) : Handler unit := λ c, (Ret tt, f c).

(** *** Calls on L1 *)

(** The keys of a batch whose reservation succeeded, with their objects. *)
Definition reserved_objs (target : list ObjectKey) (results : dict ObjectKey L1OperationResult)
    : list (ObjectKey * oid) :=
  omap (λ key, match dget key results with
               | Some (SUCCESS, Some obj) => Some (key, obj)
               | _ => None
               end) target.

Definition call_reserve_read (target : list ObjectKey) : Handler (list (ObjectKey * oid)) :=
  λ c, match l1_reserve_read target 1 (sc_l1 c) with
       | (Raise e, s) => (Raise e, set_l1 s c)
       | (Ret r, s) =>
           let got := reserved_objs target r in
           (Ret got, set_locks (sc_taken c ++ got.*1) (sc_returned c) (set_l1 s c))
       end.

Definition call_finish_read (keys : list ObjectKey) : Handler unit :=
  λ c, match l1_finish_read keys 1 (sc_l1 c) with
       | (Raise e, s) => (Raise e, set_l1 s c)
       | (Ret _, s) => (Ret tt, set_locks (sc_taken c) (sc_returned c ++ keys) (set_l1 s c))
       end.

Definition call_delete (keys : list ObjectKey) : Handler (dict ObjectKey L1Error) :=
  λ c, let '(r, s) := l1_delete keys false (sc_l1 c) in (r, set_l1 s c).

(** *** New keys *)

(** One entry of the policy's plan. *)
Definition submit_to_adapter (target : Z * list ObjectKey) : Handler unit :=
  let '(adapter_index, target_keys) := target in
  match target_keys with
  | [] => h_ret tt
  | _ =>
      let^ c := h_get in
      match dget adapter_index (sc_adapters c) with
      | None => h_ret tt
      | Some _ =>
          let^ got := call_reserve_read target_keys in
          match got with
          | [] => h_ret tt
          | _ =>
              let^ c := h_get in
              match dget adapter_index (sc_adapters c) with
              | None => h_raise KeyError
              | Some adapter =>
                  let '(r, adapter') := store_submit got.*1 got.*2 adapter in
                  let^ _ := modify (λ c, set_adapters (dset adapter_index adapter' (sc_adapters c)) (sc_descriptors c) c) in
                  match r with
                  | Raise _ => call_finish_read got.*1
                  | Ret task_id =>
                      let^ _ := modify (λ c, set_in_flight
                        (dset (adapter_index, task_id) (mkInFlight got.*1 got.*1 None 0) (sc_in_flight c)) c) in
                      let^ c := h_get in
                      (* l2_name = self._adapter_descriptors[adapter_index].type_name *)
                      match dget adapter_index (sc_descriptors c) with None => h_raise KeyError | Some _ => h_ret tt end
                  end
              end
          end
      end
  end.

Definition _submit_store_for_single_shape (keys : list ObjectKey) : Handler unit :=
  let^ c := h_get in
  let routing := filter (λ d, dmem d.1 (sc_draining c) = false) (sc_descriptors c) in
  h_iter submit_to_adapter (select_store_targets keys routing (sc_policy c)).

Definition _process_new_keys (keys : list ObjectKey) : Handler unit :=
  let^ _ := modify (λ c, set_deferred (filter (λ k, k ∉ keys) (sc_deferred c)) c) in
  h_iter _submit_store_for_single_shape (dvalues (_group_keys_by_shape keys)).

(** [pop_pending_keys], then [_process_new_keys] if there are any. *)
Definition handle_listener : Handler unit :=
  let^ c := h_get in
  let^ _ := modify (λ c, set_queues (sc_ops c) [] c) in
  match sc_pending_keys c with [] => h_ret tt | keys => _process_new_keys keys end.

(** *** Completions *)

Definition deposit (adapter_index : Z) (completed : Z * Z) : Handler unit :=
  modify (λ c, match dget (adapter_index, completed.1) (sc_in_flight c) with
               | None => c
               | Some task =>
                   set_in_flight (dset (adapter_index, completed.1)
                     (mkInFlight (if_keys task) (if_read_locked_keys task) (Some (is_successful completed.2))
                        (bytes_transferred completed.2)) (sc_in_flight c)) c
               end).

Definition drain_adapter (adapter_index : Z) : Handler unit :=
  let^ c := h_get in
  match dget adapter_index (sc_adapters c) with
  | None => h_raise KeyError
  | Some adapter =>
      let '(completed, adapter') := store_pop adapter in
      let^ _ := modify (λ c, set_adapters (dset adapter_index adapter' (sc_adapters c)) (sc_descriptors c) c) in
      h_iter (deposit adapter_index) completed
  end.

Definition _drain_l2_store_completions (signaled_adapters : list Z) : Handler unit := h_iter drain_adapter signaled_adapters.

(** Keys whose deletion a reader refused are tried again later. *)
Definition defer_result (p : ObjectKey * L1Error) : Handler unit :=
  modify (λ c, set_deferred (if bool_decide (p.2 = KEY_IS_LOCKED) then oset_set p.1 (sc_deferred c)
                             else oset_del p.1 (sc_deferred c)) c).
Definition _delete_from_l1 (keys : list ObjectKey) : Handler unit :=
  let^ r := call_delete keys in h_iter defer_result r.

Definition _finalize_store (task_key : Z * Z) (task : InFlightStoreTask) : Handler unit :=
  let^ _ := call_finish_read (if_read_locked_keys task) in
  let^ _ := modify (λ c, set_in_flight (ddel task_key (sc_in_flight c)) c) in
  let^ c := h_get in
  match dget task_key.1 (sc_descriptors c) with
  | None => h_raise KeyError
  | Some _ =>
      if default false (if_l2_store_result task) then
        match select_l1_deletions (if_keys task) (sc_policy c) with
        | [] => h_ret tt
        | delete_keys => _delete_from_l1 delete_keys
        end
      else h_ret tt
  end.

Definition _advance_request (task_key : Z * Z) (task : InFlightStoreTask) : Handler unit :=
  match if_l2_store_result task with None => h_ret tt | Some _ => _finalize_store task_key task end.

(** A handler whose exceptions the loop logs. *)
Definition logged (h : Handler unit) : Handler unit := λ c, (Ret tt, (h c).2).

(** The second half of a turn of the loop: an exception while draining, or in
    one task, does not stop the others. A task handed out by the snapshot is
    looked at as it then is: the object in the table. *)
Definition handle_completions (signaled_adapters : list Z) : Handler unit :=
  let^ _ := logged (_drain_l2_store_completions signaled_adapters) in
  let^ c := h_get in
  h_iter (λ t : (Z * Z) * InFlightStoreTask, logged (_advance_request t.1 t.2)) (sc_in_flight c).

(** [due]: [now - self._last_l1_deletion_retry] has reached the poll interval. *)
Definition _retry_deferred_l1_deletions (due : bool) : Handler unit :=
  let^ c := h_get in
  match sc_deferred c with
  | [] => h_ret tt
  | keys => if due then _delete_from_l1 keys else h_ret tt
  end.

(** *** Adapters added and removed at runtime *)

Definition apply_op (op : adapter_op A D) : Handler unit :=
  match op with
  | AddAdapterOp id adapter descriptor done =>
      modify (λ c, set_draining (sc_draining c) (sc_done c ++ [done])
                     (set_adapters (dset id adapter (sc_adapters c)) (dset id descriptor (sc_descriptors c)) c))
  | RemoveAdapterOp id done =>
      modify (λ c, if dmem id (sc_adapters c)
                   then set_draining (dset id done (sc_draining c)) (sc_done c) c
                   else set_draining (sc_draining c) (sc_done c ++ [done]) c)
  end.

Definition _apply_pending_adapter_ops : Handler unit :=
  let^ c := h_get in
  let^ _ := modify (λ c, set_queues [] (sc_pending_keys c) c) in
  h_iter apply_op (sc_ops c).

Definition _adapter_in_use (adapter_id : Z) (c : SC) : bool :=
  existsb (λ t : (Z * Z) * InFlightStoreTask, t.1.1 =? adapter_id) (sc_in_flight c).

Definition finalize_one (adapter_id : Z) : Handler unit :=
  let^ c := h_get in
  if _adapter_in_use adapter_id c then h_ret tt
  else if negb (dmem adapter_id (sc_adapters c)) then h_raise KeyError
  else modify (λ c, set_draining (ddel adapter_id (sc_draining c))
                      (sc_done c ++ match dget adapter_id (sc_draining c) with Some d => [d] | None => [] end)
                      (set_adapters (ddel adapter_id (sc_adapters c)) (ddel adapter_id (sc_descriptors c)) c)).

Definition _finalize_drained_adapters : Handler unit :=
  let^ c := h_get in h_iter finalize_one (dkeys (sc_draining c)).

(** One turn of [_store_loop]: [ready] is what [poll] reports, the listener or
    the store descriptor of an adapter. The adapters signaled form a set; the
    exceptions of all parts but the first and the fourth are logged. *)
Inductive ready_fd := ListenerFd | AdapterFd (adapter_idx : Z).

Definition handle_ready (fd : ready_fd) : Handler unit :=
  match fd with ListenerFd => logged handle_listener | AdapterFd _ => h_ret tt end.
Definition signaled_adapters (ready : list ready_fd) : list Z :=
  foldl (λ acc fd, match fd with ListenerFd => acc | AdapterFd i => oset_set i acc end) [] ready.

Definition _store_loop_turn (ready : list ready_fd) (due : bool) : Handler unit :=
  let^ _ := _apply_pending_adapter_ops in
  let^ _ := h_iter handle_ready ready in
  let^ _ := match signaled_adapters ready with [] => h_ret tt | signaled => handle_completions signaled end in
  let^ _ := _finalize_drained_adapters in
  logged (_retry_deferred_l1_deletions due).

(** *** Calls from other threads, and the end *)

Definition on_write_finished (keys : list ObjectKey) (c : SC) : SC :=
  set_queues (sc_ops c) (sc_pending_keys c ++ keys) c.
Definition enqueue_op (op : adapter_op A D) (c : SC) : SC := set_queues (sc_ops c ++ [op]) (sc_pending_keys c) c.

(** [_cleanup_in_flight_tasks], once the loop has ended. *)
Definition _cleanup_in_flight_tasks : Handler unit :=
  let^ c := h_get in
  let^ _ := h_iter (λ t : (Z * Z) * InFlightStoreTask, call_finish_read (if_read_locked_keys t.2)) (sc_in_flight c) in
  modify (set_in_flight []).
End controller.

(** ** The invariant *)

Section invariant.
Context {S A D P : Type} {IL : L1ManagerInterface S} {LL : L1ManagerLaws S}
  {IA : L2StoreAdapter A} {LA : L2StoreLaws A} {IP : StorePolicy P D}.

#[local] Abbreviation SC := (StoreController S A D P).

(** The read locks that in-flight tasks hold. *)
Definition flight (c : SC) : list ObjectKey := dvalues (sc_in_flight c) ≫= if_read_locked_keys.

(** The ids that queued operations will attach. *)
Definition added (ops : list (adapter_op A D)) : list Z :=
  omap (λ op, match op with AddAdapterOp id _ _ _ => Some id | RemoveAdapterOp _ _ => None end) ops.

(** [extra]: read locks just taken that no task holds yet. [adds]: ids of
    operations taken off the queue and not applied yet. *)
Record sc_inv (extra : list ObjectKey) (adds : list Z) (c : SC) : Prop := {
  iv_l1 : l1_ok (sc_l1 c);
  iv_balance : sc_taken c ≡ₚ sc_returned c ++ flight c ++ extra;
  iv_nodup : NoDup (dkeys (sc_in_flight c));
  iv_attached : ∀ idx id, (idx, id) ∈ dkeys (sc_in_flight c) → ∃ a, dget idx (sc_adapters c) = Some a ∧ issued a id;
  iv_descs : ∀ i, i ∈ dkeys (sc_descriptors c) ↔ i ∈ dkeys (sc_adapters c);
  iv_drain : NoDup (dkeys (sc_draining c)) ∧ ∀ i, i ∈ dkeys (sc_draining c) → i ∈ dkeys (sc_adapters c);
  iv_adds : NoDup (adds ++ added (sc_ops c));
  iv_fresh : ∀ i, i ∈ adds ++ added (sc_ops c) → i ∉ dkeys (sc_adapters c)
}.

(** Reduces the fields of an updated controller. *)
Ltac cbn_sc :=
  cbn [sc_l1 sc_adapters sc_descriptors sc_policy sc_draining sc_ops sc_pending_keys sc_in_flight sc_deferred sc_done
       sc_taken sc_returned set_l1 set_adapters set_draining set_queues set_in_flight set_deferred set_locks fst snd].

(** A handler that keeps an invariant, whether it returns or raises. *)
Definition keeps {X} (I J : SC → Prop) (h : handler SC X) : Prop := ∀ c, I c → J (h c).2.

Lemma keeps_bind {X Y} I J (h : handler SC X) (k : X → handler SC Y) :
  keeps I J h → (∀ x, keeps J J (k x)) → keeps I J (let^ x := h in k x).
Proof. intros Hh Hk c Hc. unfold h_bind. specialize (Hh c Hc). destruct (h c) as [[x|e] c']; [by apply Hk|done]. Qed.

Lemma keeps_iter {X} I (f : X → handler SC unit) l : (∀ x, x ∈ l → keeps I I (f x)) → keeps I I (h_iter f l).
Proof.
  induction l as [|x l IH]; intros Hf; [by intros c Hc|]. cbn. apply keeps_bind; [apply Hf; left|].
  intros _. apply IH. intros; apply Hf; by right.
Qed.

Lemma keeps_get {X} I J (k : SC → handler SC X) : (∀ c, I c → J (k c c).2) → keeps I J (let^ c := h_get in k c).
Proof. intros Hk c Hc. exact (Hk c Hc). Qed.

Lemma keeps_modify I J (f : SC → SC) : (∀ c, I c → J (f c)) → keeps I J (modify f).
Proof. intros Hf c Hc. by apply Hf. Qed.

Lemma keeps_ret {X} I (x : X) : keeps I I (h_ret x).
Proof. by intros c Hc. Qed.
Lemma keeps_raise {X} I e : keeps I I (@h_raise _ X e).
Proof. by intros c Hc. Qed.

(** *** L1 calls *)

Lemma reserve_read_keeps target adds c :
  sc_inv [] adds c →
  match call_reserve_read target c with
  | (Ret got, c') => sc_inv got.*1 adds c' ∧ sc_adapters c' = sc_adapters c
  | (Raise _, c') => sc_inv [] adds c'
  end.
Proof.
  intros [H1 H2 H3 H4 H5 H6 H7 H8]. unfold call_reserve_read.
  pose proof (l1_reserve_ok target 1 (sc_l1 c) H1) as Hl. destruct (l1_reserve_read _ _ _) as [[r|e] s]; [|by split].
  split; [|done]. split; try done. cbn. rewrite H2, app_nil_r. unfold flight. cbn. solve_Permutation.
Qed.

Lemma finish_read_keeps keys adds c :
  sc_inv keys adds c → ∃ c', call_finish_read keys c = (Ret tt, c') ∧ sc_inv [] adds c' ∧
    sc_in_flight c' = sc_in_flight c ∧ sc_descriptors c' = sc_descriptors c.
Proof.
  intros [H1 H2 H3 H4 H5 H6 H7 H8]. unfold call_finish_read.
  destruct (l1_finish_ok keys 1 (sc_l1 c) H1) as (r & s & -> & Hl). eexists. split; [reflexivity|].
  split; [|done]. split; try done. cbn. rewrite H2, app_nil_r. unfold flight. cbn. solve_Permutation.
Qed.

Lemma delete_keeps keys extra adds : keeps (sc_inv extra adds) (sc_inv extra adds) (call_delete keys).
Proof.
  intros c [H1 H2 H3 H4 H5 H6 H7 H8]. unfold call_delete. pose proof (l1_delete_ok keys false (sc_l1 c) H1) as Hl.
  destruct (l1_delete _ _ _) as [r s]. by split.
Qed.

(** An adapter that was called: its id, and the ids it issued, stay. *)
Lemma adapter_called idx a a' extra adds c :
  dget idx (sc_adapters c) = Some a → (∀ i, issued a i → issued a' i) → sc_inv extra adds c →
  sc_inv extra adds (set_adapters (dset idx a' (sc_adapters c)) (sc_descriptors c) c).
Proof.
  intros Ea Hi [H1 H2 H3 H4 H5 H6 H7 H8].
  assert (∀ i, i ∈ dkeys (dset idx a' (sc_adapters c)) ↔ i ∈ dkeys (sc_adapters c)) as Hk.
  { intros i. rewrite elem_dkeys_dset. split; [|by left]. intros [?| ->]; [done|]. apply dget_is_Some. by eexists. }
  split; cbn; try done.
  - intros i id Hin. destruct (H4 i id Hin) as (x & Ex & Hx). rewrite dget_dset. case_decide as Hidx; [|by exists x].
    subst i. exists a'. split; [done|]. apply Hi. congruence.
  - intros i. by rewrite Hk.
  - split; [apply H6|]. intros i Hin. by apply Hk, H6.
  - intros i Hin Hin'. by apply (H8 i Hin), Hk.
Qed.

(** *** Submission *)

Lemma flight_dset key t c :
  key ∉ dkeys (sc_in_flight c) → flight (set_in_flight (dset key t (sc_in_flight c)) c) = flight c ++ if_read_locked_keys t.
Proof.
  intros Hk. unfold flight. cbn. rewrite dset_notin by done. unfold dvalues. rewrite fmap_app, bind_app. cbn.
  by rewrite app_nil_r.
Qed.

Lemma task_submitted idx id a keys adds c :
  dget idx (sc_adapters c) = Some a → issued a id → (idx, id) ∉ dkeys (sc_in_flight c) → sc_inv keys adds c →
  sc_inv [] adds (set_in_flight (dset (idx, id) (mkInFlight keys keys None 0) (sc_in_flight c)) c).
Proof.
  intros Ea Hi Hnew [H1 H2 H3 H4 H5 H6 H7 H8]. split; try done.
  - rewrite flight_dset by done. cbn. rewrite H2. by rewrite app_nil_r.
  - by apply NoDup_dset.
  - intros i j [Hin|[= -> ->]]%elem_dkeys_dset; [by apply H4|]. by exists a.
Qed.

(** The task that holds the locks of [got], or their return. *)
Lemma submit_got idx a got adds c :
  sc_inv got.*1 adds c → dget idx (sc_adapters c) = Some a →
  sc_inv [] adds
    ((let '(r, a') := store_submit got.*1 got.*2 a in
      let^ _ := modify (λ c, set_adapters (dset idx a' (sc_adapters c)) (sc_descriptors c) c) in
      match r with
      | Raise _ => call_finish_read got.*1
      | Ret task_id =>
          let^ _ := modify (λ c, set_in_flight
            (dset (idx, task_id) (mkInFlight got.*1 got.*1 None 0) (sc_in_flight c)) c) in
          let^ c := h_get in
          match dget idx (sc_descriptors c) with None => h_raise KeyError | Some _ => h_ret tt end
      end) c).2.
Proof.
  intros Hinv Ea. destruct (store_submit got.*1 got.*2 a) as [[id|e] a'] eqn:Es.
  - destruct (submit_fresh _ _ _ _ _ Es) as (Hnew & His & Hmono).
    pose proof (adapter_called idx a a' _ _ c Ea Hmono Hinv) as Hinv'.
    unfold h_bind, modify, h_get. cbn [fst snd].
    set (c1 := set_adapters _ _ c) in *. assert (sc_inv [] adds
      (set_in_flight (dset (idx, id) (mkInFlight got.*1 got.*1 None 0) (sc_in_flight c1)) c1)) as Hdone.
    { apply (task_submitted idx id a'); [cbn; by rewrite dget_dset_eq|done| |done].
      intros Hin. destruct (iv_attached _ _ _ Hinv idx id Hin) as (x & Ex & Hx). apply Hnew. congruence. }
    by destruct (dget idx (sc_descriptors _)).
  - pose proof (adapter_called idx a a' _ _ c Ea (submit_failed _ _ _ _ _ Es) Hinv) as Hinv'.
    unfold h_bind, modify. cbn [fst snd]. destruct (finish_read_keeps _ _ _ Hinv') as (c' & E & Hc' & _).
    by rewrite E.
Qed.

Lemma submit_to_adapter_keeps target adds : keeps (sc_inv [] adds) (sc_inv [] adds) (submit_to_adapter target).
Proof.
  intros c Hc. destruct target as [idx keys]. unfold submit_to_adapter. destruct keys as [|k keys]; [done|].
  set (ks := k :: keys). unfold h_bind at 1, h_get at 1.
  destruct (dget idx (sc_adapters c)) as [a|] eqn:Ea; [|done].
  pose proof (reserve_read_keeps ks adds c Hc) as Hr. unfold h_bind at 1.
  destruct (call_reserve_read ks c) as [[got|e] c1]; [|done]. destruct Hr as [Hinv Ead].
  destruct got as [|g got]; [done|]. set (gs := g :: got) in *. unfold h_bind at 1, h_get at 1.
  rewrite Ead, Ea. apply submit_got; [done|]. by rewrite Ead.
Qed.

Lemma deferred_keeps f extra adds : keeps (sc_inv extra adds) (sc_inv extra adds) (modify (λ c, set_deferred (f c) c)).
Proof. apply keeps_modify. intros c [H1 H2 H3 H4 H5 H6 H7 H8]. by split. Qed.

Lemma process_new_keys_keeps keys adds : keeps (sc_inv [] adds) (sc_inv [] adds) (_process_new_keys keys).
Proof.
  apply keeps_bind; [apply deferred_keeps|]. intros _. apply keeps_iter. intros group _. apply keeps_get.
  intros c Hc. apply (keeps_iter (sc_inv [] adds)); [|done]. intros t _. apply submit_to_adapter_keeps.
Qed.

Lemma handle_listener_keeps : keeps (sc_inv [] []) (sc_inv [] []) handle_listener.
Proof.
  apply keeps_get. intros c Hc. unfold h_bind, modify.
  assert (sc_inv [] [] (set_queues (sc_ops c) [] c)) as Hc' by (destruct Hc; by split).
  destruct (sc_pending_keys c); [done|]. by apply process_new_keys_keeps.
Qed.

(** *** Completions *)

(** Recording an outcome changes no lock. *)
Lemma dset_existing {K V} `{EqDecision K} (k : K) (v v' : V) (d : dict K V) (f : V → list ObjectKey) :
  dget k d = Some v → f v' = f v → dvalues (dset k v' d) ≫= f = dvalues d ≫= f ∧ dkeys (dset k v' d) = dkeys d.
Proof.
  unfold dvalues, dkeys. induction d as [|[k0 v0] d IH]; [done|]. cbn [dget dset]. case_decide as Hk.
  - intros [= ->] Hf. cbn. by rewrite Hf.
  - intros E Hf. destruct (IH E Hf) as [E1 E2]. cbn. by rewrite E1, E2.
Qed.

Lemma deposit_keeps idx completed extra adds : keeps (sc_inv extra adds) (sc_inv extra adds) (deposit idx completed).
Proof.
  apply keeps_modify. intros c Hc. destruct (dget _ (sc_in_flight c)) as [t|] eqn:Et; [|done].
  destruct Hc as [H1 H2 H3 H4 H5 H6 H7 H8].
  destruct (dset_existing (idx, completed.1) t (mkInFlight (if_keys t) (if_read_locked_keys t)
    (Some (is_successful completed.2)) (bytes_transferred completed.2)) (sc_in_flight c) if_read_locked_keys Et eq_refl)
    as [Ef Ek].
  split; try done; cbn_sc; [|by rewrite Ek|by rewrite Ek]. unfold flight. cbn_sc. by rewrite Ef.
Qed.

Lemma drain_keeps signaled extra adds :
  keeps (sc_inv extra adds) (sc_inv extra adds) (_drain_l2_store_completions signaled).
Proof.
  apply keeps_iter. intros idx _. apply keeps_get. intros c Hc.
  destruct (dget idx (sc_adapters c)) as [a|] eqn:Ea; [|done]. destruct (store_pop a) as [done a'] eqn:Ep.
  assert (sc_inv extra adds (set_adapters (dset idx a' (sc_adapters c)) (sc_descriptors c) c)) as Hc'.
  { eapply adapter_called; [done| |done]. intros i Hi. pose proof (pop_issued a i Hi) as Hp. by rewrite Ep in Hp. }
  apply (keeps_iter (sc_inv extra adds)); [|done]. intros x _. apply deposit_keeps.
Qed.

Lemma delete_from_l1_keeps keys extra adds : keeps (sc_inv extra adds) (sc_inv extra adds) (_delete_from_l1 keys).
Proof.
  apply keeps_bind; [apply delete_keeps|]. intros r. apply keeps_iter. intros p _. apply deferred_keeps.
Qed.

(** A finished task gives its locks back and leaves the table. *)
Lemma task_removed key t adds c :
  dget key (sc_in_flight c) = Some t → sc_inv [] adds c →
  sc_inv (if_read_locked_keys t) adds (set_in_flight (ddel key (sc_in_flight c)) c).
Proof.
  intros Et [H1 H2 H3 H4 H5 H6 H7 H8]. split; try done.
  - cbn. rewrite H2, app_nil_r. unfold flight. cbn.
    assert (dvalues (sc_in_flight c) ≡ₚ t :: dvalues (ddel key (sc_in_flight c))) as ->.
    { unfold dvalues. rewrite (dget_perm key t (sc_in_flight c)) at 1 by done. done. }
    cbn. solve_Permutation.
  - by apply NoDup_ddel.
  - intros i j [Hin _]%elem_dkeys_ddel. by apply H4.
Qed.

(** The locks go back first and the entry leaves the table next: the same
    state as the other way round. *)
Lemma finalize_first key t adds c :
  dget key (sc_in_flight c) = Some t → sc_inv [] adds c →
  ∃ c', call_finish_read (if_read_locked_keys t) c = (Ret tt, c') ∧
    sc_inv [] adds (set_in_flight (ddel key (sc_in_flight c')) c') ∧ sc_in_flight c' = sc_in_flight c.
Proof.
  intros Et Hc. destruct (finish_read_keeps _ _ _ (task_removed key t adds c Et Hc)) as (c2 & E & Hc2 & _).
  unfold call_finish_read in *. cbn [sc_l1 set_in_flight] in E.
  destruct (l1_finish_read _ _ (sc_l1 c)) as [[r|e] s]; [|done]. injection E as <-.
  eexists. split; [reflexivity|]. split; [exact Hc2|done].
Qed.

Lemma advance_keeps key t adds c :
  dget key (sc_in_flight c) = Some t → sc_inv [] adds c →
  sc_inv [] adds (_advance_request key t c).2 ∧
  ∀ k, k ≠ key → dget k (sc_in_flight (_advance_request key t c).2) = dget k (sc_in_flight c).
Proof.
  intros Et Hc. unfold _advance_request. destruct (if_l2_store_result t) as [b|] eqn:Eb; [|done].
  destruct (finalize_first key t adds c Et Hc) as (c1 & E1 & Hc1 & Ef).
  set (c2 := set_in_flight (ddel key (sc_in_flight c1)) c1) in *.
  assert (_finalize_store key t c =
    match dget key.1 (sc_descriptors c2) with
    | None => h_raise KeyError
    | Some _ =>
        if default false (if_l2_store_result t) then
          match select_l1_deletions (if_keys t) (sc_policy c2) with
          | [] => h_ret tt
          | delete_keys => _delete_from_l1 delete_keys
          end
        else h_ret tt
    end c2) as ->.
  { unfold _finalize_store, h_bind. rewrite E1. done. }
  assert (∀ k, k ≠ key → dget k (sc_in_flight c2) = dget k (sc_in_flight c)) as Hk.
  { intros k Hne. cbn. rewrite dget_ddel, decide_False by done. by rewrite Ef. }
  destruct (dget key.1 (sc_descriptors c2)); [|split; [exact Hc1|exact Hk]].
  destruct (default false (if_l2_store_result t)); [|split; [exact Hc1|exact Hk]].
  destruct (select_l1_deletions (if_keys t) (sc_policy c2)) as [|dk ds]; [split; [exact Hc1|exact Hk]|].
  split; [by apply delete_from_l1_keeps|]. intros k Hne. rewrite <-(Hk k Hne).
  assert (keeps (λ x, sc_in_flight x = sc_in_flight c2) (λ x, sc_in_flight x = sc_in_flight c2) (_delete_from_l1 (dk :: ds))) as Hd.
  { apply keeps_bind; [intros x Hx; unfold call_delete; by destruct (l1_delete _ _ _)|].
    intros r. apply keeps_iter. intros p _ x Hx. exact Hx. }
  by rewrite (Hd c2 eq_refl).
Qed.

Lemma advance_all_keeps adds tasks c :
  NoDup (dkeys tasks) → (∀ k t, (k, t) ∈ tasks → dget k (sc_in_flight c) = Some t) → sc_inv [] adds c →
  sc_inv [] adds (h_iter (λ t : (Z * Z) * InFlightStoreTask, logged (_advance_request t.1 t.2)) tasks c).2.
Proof.
  revert c. induction tasks as [|[k t] tasks IH]; intros c Hnd Hin Hc; [done|]. cbn [h_iter fst snd].
  apply NoDup_cons in Hnd as [Hk Hnd]. unfold h_bind, logged at 1.
  destruct (advance_keeps k t adds c (Hin k t ltac:(left)) Hc) as [Hc' Ho]. apply IH; [done| |done].
  intros k' t' Hin'. rewrite Ho; [apply Hin; by right|]. intros ->. apply Hk. unfold dkeys. apply list_elem_of_fmap.
  by exists (k, t').
Qed.

Lemma handle_completions_keeps signaled adds : keeps (sc_inv [] adds) (sc_inv [] adds) (handle_completions signaled).
Proof.
  apply keeps_bind; [intros c Hc; by apply drain_keeps|]. intros _. apply keeps_get. intros c Hc.
  apply advance_all_keeps; [apply Hc| |done]. intros k t Hin. apply elem_dget; [apply Hc|done].
Qed.

Lemma retry_deferred_keeps adds due : keeps (sc_inv [] adds) (sc_inv [] adds) (_retry_deferred_l1_deletions due).
Proof. apply keeps_get. intros c Hc. destruct (sc_deferred c); [done|]. destruct due; [by apply delete_from_l1_keeps|done]. Qed.

(** *** Adapters *)

Lemma apply_op_keeps op adds c :
  sc_inv [] (added [op] ++ adds) c → sc_inv [] adds (apply_op op c).2.
Proof.
  intros [H1 H2 H3 H4 H5 H6 H7 H8]. destruct op as [id a d ev|id ev]; unfold apply_op, modify; cbn [snd].
  - cbn in H7, H8. apply NoDup_cons in H7 as [Hid H7].
    assert (id ∉ dkeys (sc_adapters c)) as Hnew by (apply H8; left).
    split; cbn_sc; try done.
    + intros i j Hin. destruct (H4 i j Hin) as (x & Ex & Hx). exists x. split; [|done]. rewrite dget_dset_ne; [done|].
      intros ->. apply Hnew, dget_is_Some. by eexists.
    + intros i. rewrite !elem_dkeys_dset, H5. done.
    + split; [apply H6|]. intros i Hi. apply elem_dkeys_dset. left. by apply H6.
    + intros i Hi [Hin| ->]%elem_dkeys_dset; [|done]. apply (H8 i); [by right|done].
  - destruct (dmem id (sc_adapters c)) eqn:Em; [|by split]. split; try done. cbn_sc.
    split; [apply NoDup_dset, H6|]. intros i [Hi| ->]%elem_dkeys_dset; [by apply H6|by apply dmem_true].
Qed.

Lemma apply_ops_keeps ops adds c :
  sc_inv [] (added ops ++ adds) c → sc_inv [] adds (h_iter apply_op ops c).2.
Proof.
  revert c. induction ops as [|op ops IH]; intros c Hc; [done|]. cbn [h_iter]. unfold h_bind.
  assert (sc_inv [] (added ops ++ adds) (apply_op op c).2) as Hc'.
  { apply apply_op_keeps. replace (added [op] ++ added ops ++ adds) with (added (op :: ops) ++ adds); [done|].
    unfold added. cbn. by destruct op. }
  destruct (apply_op op c) as [[[]|e] c'] eqn:E; [by apply IH|]. destruct op; unfold apply_op, modify in E; congruence.
Qed.

Lemma apply_pending_keeps : keeps (sc_inv [] []) (sc_inv [] []) _apply_pending_adapter_ops.
Proof.
  apply keeps_get. intros c Hc. unfold h_bind, modify. apply apply_ops_keeps. rewrite app_nil_r.
  destruct Hc as [H1 H2 H3 H4 H5 H6 H7 H8]. split; try done; cbn_sc; rewrite ?app_nil_r; done.
Qed.

(** Detaching an adapter no task uses; the adapter is there, so the loop does
    not die on a missing key. *)
Lemma finalize_one_keeps id c :
  sc_inv [] [] c → id ∈ dkeys (sc_draining c) →
  (finalize_one id c).1 = Ret tt ∧ sc_inv [] [] (finalize_one id c).2 ∧
  ∀ i, i ≠ id → i ∈ dkeys (sc_draining c) → i ∈ dkeys (sc_draining (finalize_one id c).2).
Proof.
  intros Hc Hid. unfold finalize_one, h_bind, h_get, modify. destruct (_adapter_in_use id c) eqn:Eu; [done|].
  destruct Hc as [H1 H2 H3 H4 H5 H6 H7 H8].
  assert (dmem id (sc_adapters c) = true) as -> by (apply dmem_true; by apply H6). cbn [negb].
  assert (∀ i j, (i, j) ∈ dkeys (sc_in_flight c) → i ≠ id) as Hno.
  { intros i j Hin ->. unfold _adapter_in_use in Eu. unfold dkeys in Hin. apply list_elem_of_fmap in Hin as (t & Et & Hin).
    assert (existsb (λ t : (Z * Z) * InFlightStoreTask, t.1.1 =? id) (sc_in_flight c) = true); [|congruence].
    apply existsb_exists. exists t. split; [by apply list_elem_of_In|]. rewrite <-Et. apply Z.eqb_refl. }
  split; [done|]. split.
  - split; cbn_sc; try done.
    + intros i j Hin. rewrite dget_ddel, decide_False; [by apply H4|]. intros <-. by eapply Hno.
    + intros i. by rewrite !elem_dkeys_ddel, H5.
    + split; [apply NoDup_ddel, H6|]. intros i [Hi Hne]%elem_dkeys_ddel. apply elem_dkeys_ddel. split; [by apply H6|done].
    + intros i Hi [Hin _]%elem_dkeys_ddel. by apply (H8 i).
  - intros i Hne Hi. cbn_sc. by apply elem_dkeys_ddel.
Qed.

Lemma finalize_drained_ok c :
  sc_inv [] [] c →
  (_finalize_drained_adapters c).1 = Ret tt ∧ sc_inv [] [] (_finalize_drained_adapters c).2.
Proof.
  intros Hc. pose proof (iv_drain _ _ _ Hc) as [Hnd _]. unfold _finalize_drained_adapters, h_bind, h_get.
  assert (∀ ids, NoDup ids → ∀ c, sc_inv [] [] c → (∀ i, i ∈ ids → i ∈ dkeys (sc_draining c)) →
    (h_iter finalize_one ids c).1 = Ret tt ∧ sc_inv [] [] (h_iter finalize_one ids c).2) as Hloop; [|by apply Hloop].
  clear c Hc Hnd. induction ids as [|i ids IH]; intros Hnd c Hc Hin; [done|]. cbn [h_iter].
  apply NoDup_cons in Hnd as [Hi Hnd]. destruct (finalize_one_keeps i c Hc (Hin i ltac:(left))) as (E1 & Hc' & Hd).
  unfold h_bind. destruct (finalize_one i c) as [r c']. cbn [fst snd] in *. subst r. apply IH; [done..|].
  intros j Hj. apply Hd; [|apply Hin; by right]. by intros ->.
Qed.

(** *** The end *)

Lemma cleanup_ok c :
  sc_inv [] [] c →
  (_cleanup_in_flight_tasks c).1 = Ret tt ∧
  sc_in_flight (_cleanup_in_flight_tasks c).2 = [] ∧
  sc_taken (_cleanup_in_flight_tasks c).2 ≡ₚ sc_returned (_cleanup_in_flight_tasks c).2.
Proof.
  intros [H1 H2 _ _ _ _ _ _]. unfold _cleanup_in_flight_tasks, h_bind, h_get.
  assert (∀ (tasks : dict (Z * Z) InFlightStoreTask) (c : SC), l1_ok (sc_l1 c) → ∃ c',
    h_iter (λ t : (Z * Z) * InFlightStoreTask, call_finish_read (if_read_locked_keys t.2)) tasks c = (Ret tt, c') ∧
    sc_taken c' = sc_taken c ∧ sc_returned c' = sc_returned c ++ (dvalues tasks ≫= if_read_locked_keys)) as Hloop.
  { clear. induction tasks as [|[k t] tasks IH]; intros c Hl.
    { exists c. cbn. by rewrite app_nil_r. }
    cbn [h_iter]. unfold h_bind, call_finish_read at 1. cbn [snd].
    destruct (l1_finish_ok (if_read_locked_keys t) 1 (sc_l1 c) Hl) as (r & s & -> & Hs).
    destruct (IH (set_locks (sc_taken c) (sc_returned c ++ if_read_locked_keys t) (set_l1 s c)) Hs) as (c' & -> & E1 & E2).
    exists c'. split; [done|]. split; [done|]. rewrite E2. cbn. by rewrite app_assoc. }
  destruct (Hloop (sc_in_flight c) c H1) as (c' & -> & E1 & E2). cbn. split; [done|]. split; [done|].
  rewrite E1, E2, H2, app_nil_r. done.
Qed.

(** ** Histories *)

(** One step: a call from another thread, anything that L1 or an adapter does
    on its own, or one part of a turn of the loop. An adapter is attached under
    an id that is neither attached nor about to be. *)
Inductive sc_step : SC → SC → Prop :=
  | step_write_finished keys c : sc_step c (on_write_finished keys c)
  | step_add id a d ev c :
      id ∉ dkeys (sc_adapters c) → id ∉ added (sc_ops c) → sc_step c (enqueue_op (AddAdapterOp id a d ev) c)
  | step_remove id ev c : sc_step c (enqueue_op (RemoveAdapterOp id ev) c)
  | step_l1 s c : l1_ok s → sc_step c (set_l1 s c)
  | step_adapter idx a a' c :
      dget idx (sc_adapters c) = Some a → (∀ i, issued a i → issued a' i) →
      sc_step c (set_adapters (dset idx a' (sc_adapters c)) (sc_descriptors c) c)
  | step_ops c : sc_step c (_apply_pending_adapter_ops c).2
  | step_listener c : sc_step c (handle_listener c).2
  | step_completions signaled c : sc_step c (handle_completions signaled c).2
  | step_finalize c : sc_step c (_finalize_drained_adapters c).2
  | step_retry due c : sc_step c (_retry_deferred_l1_deletions due c).2.

Lemma sc_step_inv c c' : sc_step c c' → sc_inv [] [] c → sc_inv [] [] c'.
Proof.
  intros Hstep Hc. pose proof Hc as [H1 H2 H3 H4 H5 H6 H7 H8].
  destruct Hstep as [keys c|id a d ev c Hn Ha|id ev c|s c Hs|idx a a' c Ea Hm|c|c|signaled c|c|due c].
  - by split.
  - split; try done; unfold enqueue_op; cbn_sc; unfold added in *; rewrite omap_app; cbn [app omap list_omap].
    + apply NoDup_app. split; [exact H7|]. split; [|apply NoDup_singleton]. intros x Hx ->%list_elem_of_singleton. done.
    + intros i [Hi| ->%list_elem_of_singleton]%elem_of_app; [by apply H8|done].
  - split; try done; unfold enqueue_op; cbn_sc; unfold added in *; rewrite omap_app; cbn [app omap list_omap]; by rewrite app_nil_r.
  - by split.
  - by eapply adapter_called.
  - by apply apply_pending_keeps.
  - by apply handle_listener_keeps.
  - by apply handle_completions_keeps.
  - by apply finalize_drained_ok.
  - by apply retry_deferred_keeps.
Qed.

Lemma sc_path_inv c c' : rtc sc_step c c' → sc_inv [] [] c → sc_inv [] [] c'.
Proof. induction 1 as [|x y z Hxy _ IH]; [done|]. intros Hx. apply IH. by eapply sc_step_inv. Qed.

(** A controller as constructed: some adapters attached, nothing else. *)
Definition sc_initial (c : SC) : Prop :=
  l1_ok (sc_l1 c) ∧ dkeys (sc_descriptors c) = dkeys (sc_adapters c) ∧ sc_draining c = [] ∧ sc_ops c = [] ∧
  sc_in_flight c = [] ∧ sc_taken c = [] ∧ sc_returned c = [].

Lemma sc_reachable_inv c0 c : sc_initial c0 → rtc sc_step c0 c → sc_inv [] [] c.
Proof.
  intros (H1 & H2 & H3 & H4 & H5 & H6 & H7) Hr.
  assert (sc_inv [] [] c0) as H0.
  { split.
    - done.
    - unfold flight. by rewrite H5, H6, H7.
    - rewrite H5. constructor.
    - intros idx id Hin. rewrite H5 in Hin. by apply not_elem_of_nil in Hin.
    - intros i. by rewrite H2.
    - rewrite H3. split; [constructor|]. intros i Hin. by apply not_elem_of_nil in Hin.
    - rewrite H4. constructor.
    - intros i Hin. rewrite H4 in Hin. by apply not_elem_of_nil in Hin. }
  by eapply sc_path_inv.
Qed.

(** A turn of the loop is a path of steps, and it returns. *)
Lemma apply_ops_return ops c : (h_iter (@apply_op S A D P) ops c).1 = Ret tt.
Proof. revert c. induction ops as [|[] ops IH]; intros c; [done|apply IH..]. Qed.

Lemma handle_ready_path ready c : (h_iter handle_ready ready c).1 = Ret tt ∧ rtc sc_step c (h_iter handle_ready ready c).2.
Proof.
  revert c. induction ready as [|[|i] ready IH]; intros c; [done| |apply IH]. cbn [h_iter]. unfold h_bind, handle_ready, logged at 1 3.
  destruct (IH (handle_listener c).2) as [E Hr]. split; [exact E|]. eapply rtc_l; [apply step_listener|exact Hr].
Qed.

Lemma turn_path ready due c :
  sc_inv [] [] c → (_store_loop_turn ready due c).1 = Ret tt ∧ rtc sc_step c (_store_loop_turn ready due c).2.
Proof.
  intros Hc. unfold _store_loop_turn, h_bind.
  pose proof (step_ops c) as P1. pose proof (apply_ops_return (sc_ops c) (set_queues [] (sc_pending_keys c) c)) as E1.
  change (h_iter apply_op (sc_ops c) (set_queues [] (sc_pending_keys c) c)) with (_apply_pending_adapter_ops c) in E1.
  destruct (_apply_pending_adapter_ops c) as [r1 c1]. cbn [fst snd] in *. subst r1.
  destruct (handle_ready_path ready c1) as [E2 P2]. destruct (h_iter handle_ready ready c1) as [r2 c2]. cbn [fst snd] in *. subst r2.
  set (part := match signaled_adapters ready with [] => _ | _ => _ end).
  assert ((part c2).1 = Ret tt ∧ rtc sc_step c2 (part c2).2) as [E3 P3].
  { unfold part. destruct (signaled_adapters ready) as [|i l]; [done|]. split; [|apply rtc_once, step_completions].
    unfold handle_completions, h_bind, logged at 1, h_get. cbn [fst snd].
    generalize (sc_in_flight (_drain_l2_store_completions (i :: l) c2).2) as tasks.
    generalize (_drain_l2_store_completions (i :: l) c2).2 as c3. intros c3 tasks. revert c3.
    induction tasks as [|t tasks IH]; intros c3; [done|apply IH]. }
  destruct (part c2) as [r3 c3]. cbn [fst snd] in *. subst r3.
  assert (rtc sc_step c c3) as Pc3 by (eapply rtc_l; [exact P1|]; by etrans).
  destruct (finalize_drained_ok c3 (sc_path_inv _ _ Pc3 Hc)) as [E4 _]. pose proof (step_finalize c3) as P4.
  destruct (_finalize_drained_adapters c3) as [r4 c4]. cbn [fst snd] in *. subst r4.
  split; [done|]. cbn. etrans; [exact Pc3|]. eapply rtc_l; [exact P4|]. apply rtc_once, step_retry.
Qed.

(** C3: the store controller neither loses a read lock nor returns one twice.
    In every state its loop, other threads and adapters added and removed at
    runtime can lead to - handlers that raise included - the read locks it
    took from L1 are those it returned and those its in-flight tasks hold; a
    task in flight belongs to an attached adapter; a turn of the loop from
    there returns, so that no exception ends the thread; and stopping returns
    every lock that is left. *)
Theorem store_locks_balanced c0 c :
  sc_initial c0 → rtc sc_step c0 c →
  sc_taken c ≡ₚ sc_returned c ++ flight c ∧
  (∀ idx id, (idx, id) ∈ dkeys (sc_in_flight c) → idx ∈ dkeys (sc_adapters c)) ∧
  (∀ ready due, (_store_loop_turn ready due c).1 = Ret tt) ∧
  (_cleanup_in_flight_tasks c).1 = Ret tt ∧
  sc_in_flight (_cleanup_in_flight_tasks c).2 = [] ∧
  sc_taken (_cleanup_in_flight_tasks c).2 ≡ₚ sc_returned (_cleanup_in_flight_tasks c).2.
Proof.
  intros H0 Hr. pose proof (sc_reachable_inv c0 c H0 Hr) as Hc. destruct (cleanup_ok c Hc) as (E1 & E2 & E3).
  split_and!; try done.
  - pose proof (iv_balance _ _ _ Hc) as Hb. by rewrite app_nil_r in Hb.
  - intros idx id Hin. destruct (iv_attached _ _ _ Hc idx id Hin) as (a & Ea & _). apply dget_is_Some. by eexists.
  - intros ready due. by apply turn_path.
Qed.
End invariant.

(** ** A run

    One object, written to the L1 of [demo_state], is stored to a mock adapter. *)

Definition demo_stored : MemoryObj := mkObj 0 2048 1 0 KV_2LTD 2048 None true (Some 7).

Definition demo_sc : StoreController (L1 L1MemoryManager) MockL2Adapter unit DefaultStorePolicy :=
  mkSC demo_state [(3, mock_init 4096)] [(3, tt)] default_store [] [] [] [] [] [] [] [].

#[local] Instance demo_interface : L1ManagerInterface (L1 L1MemoryManager) := BaseL1Manager_interface demo_clock.
#[local] Instance demo_laws : L1ManagerLaws (L1 L1MemoryManager) := BaseL1Manager_laws demo_clock 10 20 7.
#[local] Instance demo_store_adapter : L2StoreAdapter MockL2Adapter := Mock_store_adapter (λ _, demo_stored).
#[local] Instance demo_store_laws : L2StoreLaws MockL2Adapter := Mock_store_laws (λ _, demo_stored).

Definition demo_submitted : StoreController (L1 L1MemoryManager) MockL2Adapter unit DefaultStorePolicy :=
  (handle_listener (on_write_finished [demo_key] demo_sc)).2.

Lemma demo_submitted_path : rtc sc_step demo_sc demo_submitted.
Proof. eapply rtc_l; [apply (step_write_finished [demo_key])|]. apply rtc_once, step_listener. Qed.

Lemma store_locks_balanced_witness :
  flight demo_submitted = [demo_key] ∧
  sc_returned (_cleanup_in_flight_tasks demo_submitted).2 ≡ₚ [demo_key].
Proof.
  split; [by vm_compute|].
  destruct (store_locks_balanced demo_sc demo_submitted) as (_ & _ & _ & _ & _ & E).
  - split_and!; try reflexivity. apply (l1_reachable_inv demo_clock 10 20 7 demo_clock_mono ltac:(lia) _ _ demo_fresh_mm demo_state_reachable).
  - apply demo_submitted_path.
  - rewrite <-E. by vm_compute.
Defined.
