(* ===== verification/Cells.v ===== *)
(** * Cells of a request

    A prefetch request is a grid of object keys, one row per key group and one
    column per chunk; which of its cells are locked, reserved or loaded is a
    grid of bits. Here are the helpers of
    storage_controllers/prefetch_controller.py that go from grids to keys
    ([_gather_keys], [_gather_keys_by_row]) and from an adapter's flat answer to
    grids ([_scatter_bitmaps], [_scatter_bitmaps_full_global]), with [gather] of
    the native bitmap (csrc/lmcache_native/pybind.cpp), and their meaning on
    cells. [cells_sum] adds up a weight over the selected cells that hold a
    key: the amount of locks a grid stands for. *)

From stdpp Require Import list.
From Stdlib Require Import ZArith Lia.
From S2P Require Import Prelude Keys Bitmap Fold Grid PrefetchPolicy.

Open Scope nat_scope.
Open Scope py_scope.

(** ** Code *)

Definition gather {X} (b : Bitmap) (items : list X) : list X := omap (λ i, items !! i) (get_indices b).

Fixpoint gather_rows (key_groups : list GroupedObjectKeys) (bitmaps : Bitmap2D)
    : py (list (GroupedObjectKeys * list ObjectKey)) :=
  match key_groups, bitmaps with
  | group :: groups', bitmap :: bitmaps' =>
      if negb (Nat.eqb (bm_size bitmap) (length (gk_keys group))) then Raise ValueError
      else let! rows := gather_rows groups' bitmaps' in Ret ((group, gather bitmap (gk_keys group)) :: rows)
  | _, _ => Ret []
  end.

Definition _gather_keys_by_row (key_groups : list GroupedObjectKeys) (bitmaps : Bitmap2D)
    : py (list (GroupedObjectKeys * list ObjectKey)) :=
  if negb (Nat.eqb (length key_groups) (length bitmaps)) then Raise ValueError else gather_rows key_groups bitmaps.

Definition _gather_keys (key_groups : list GroupedObjectKeys) (bitmaps : Bitmap2D) : py (list ObjectKey) :=
  let! rows := _gather_keys_by_row key_groups bitmaps in Ret (rows ≫= snd).

(** [ret[idx // cols].set(idx % cols)] for every index. *)
Fixpoint scatter_loop (cols : nat) (indices : list nat) (g : list Bitmap) : py Bitmap2D :=
  match indices with
  | [] => Ret g
  | idx :: indices' =>
      match g !! (idx / cols) with
      | None => Raise IndexError
      | Some row => scatter_loop cols indices' (<[idx / cols := bm_set row (idx mod cols)]> g)
      end
  end.

Definition _scatter_bitmaps (global_indices : Bitmap2D) (local_bitmap : Bitmap) : py Bitmap2D :=
  let '(rows, cols) := grid_size global_indices in
  if Nat.eqb rows 0 then new_grid []
  else
    let selected_indices := concat (imap (λ i row, (λ j, j + i * cols) <$> get_indices row) global_indices) in
    if negb (Nat.eqb (length selected_indices) (bm_size local_bitmap)) then Raise ValueError
    else
      let! zeros := grid_zeros (Z.of_nat rows) (Z.of_nat cols) in
      scatter_loop cols (gather local_bitmap selected_indices) zeros.

Definition _scatter_bitmaps_full_global (local_bitmap : Bitmap) (num_rows num_cols : nat) : py Bitmap2D :=
  if negb (Nat.eqb (bm_size local_bitmap) (num_rows * num_cols)) then Raise ValueError
  else
    let! zeros := grid_zeros (Z.of_nat num_rows) (Z.of_nat num_cols) in
    scatter_loop num_cols (get_indices local_bitmap) zeros.

(** ** Gathering *)

Lemma omap_lookup_filter {X} (f : nat → bool) (l : list X) :
  omap (λ i, l !! i) (filter (λ i, f i = true) (seq 0 (length l)))
  = (filter (λ p : nat * X, f p.1 = true) (imap pair l)).*2.
Proof.
  induction l as [|x l IH] using rev_ind; [done|].
  rewrite length_app, Nat.add_1_r, seq_S, filter_app, omap_app, imap_app, filter_app, fmap_app. f_equal.
  - rewrite <-IH. apply list_omap_ext. apply Forall_Forall2_diag, Forall_forall.
    intros i [_ Hi%elem_of_seq]%list_elem_of_filter. apply lookup_app_l. lia.
  - rewrite imap_cons, imap_nil, !filter_cons, !filter_nil. cbn [fst snd compose]. rewrite Nat.add_0_r, Nat.add_0_l.
    destruct (decide (f (length l) = true)) as [Hf|Hf]; cbn; [|done].
    by rewrite lookup_app_r, Nat.sub_diag by lia.
Qed.

Lemma gather_spec {X} b (l : list X) :
  bm_wf b → bm_size b = length l → gather b l = (filter (λ p : nat * X, bm_test b p.1 = true) (imap pair l)).*2.
Proof.
  intros Hwf Hs. unfold gather. rewrite get_indices_spec by done. unfold set_bits. rewrite Hs. apply omap_lookup_filter.
Qed.

Lemma imap_pair_snd {X} (l : list X) : (imap pair l).*2 = l.
Proof. rewrite fmap_imap. rewrite <-(list_fmap_id l) at 2. exact (imap_const id l). Qed.

Lemma gather_sublist {X} b (l : list X) : bm_wf b → bm_size b = length l → sublist (gather b l) l.
Proof.
  intros Hwf Hs. rewrite gather_spec by done. rewrite <-(imap_pair_snd l) at 2. apply fmap_sublist, sublist_filter.
Qed.

Lemma zsum_gather {X} (f : X → Z) b (l : list X) :
  bm_wf b → bm_size b = length l →
  zsum f (gather b l) = zsum (λ p, if bm_test b p.1 then f p.2 else 0%Z) (imap pair l).
Proof.
  intros Hwf Hs. rewrite gather_spec, zsum_fmap, zsum_filter by done. apply zsum_ext. intros p _.
  by destruct (bm_test b p.1).
Qed.

(** ** Weighted sums over cells *)

(** The weight of a row's selected cells that hold [key]. *)
Definition row_sum (w : Z) (f : nat → bool) (keys : list ObjectKey) (key : ObjectKey) : Z :=
  zsum (λ p : nat * ObjectKey, if f p.1 && bool_decide (p.2 = key) then w else 0%Z) (imap pair keys).

Definition cells_sum (groups : list GroupedObjectKeys) (wt : GroupedObjectKeys → Z) (f : nat → nat → bool)
    (key : ObjectKey) : Z :=
  zsum (λ p : nat * GroupedObjectKeys, row_sum (wt p.2) (f p.1) (gk_keys p.2) key) (imap pair groups).

Section cells_sum.
Context (groups : list GroupedObjectKeys) (wt : GroupedObjectKeys → Z).
Implicit Types (f g : nat → nat → bool) (key : ObjectKey).

Lemma cells_sum_ext f g key : (∀ i j, f i j = g i j) → cells_sum groups wt f key = cells_sum groups wt g key.
Proof. intros Hfg. apply zsum_ext. intros [i gr] _. apply zsum_ext. intros [j k] _. cbn. by rewrite Hfg. Qed.

Lemma cells_sum_false f key : (∀ i j, f i j = false) → cells_sum groups wt f key = 0%Z.
Proof. intros Hf. apply zsum_zero. intros [i gr] _. apply zsum_zero. intros [j k] _. cbn. by rewrite Hf. Qed.

Lemma cells_sum_split f g key :
  cells_sum groups wt f key
  = (cells_sum groups wt (λ i j, f i j && g i j) key + cells_sum groups wt (λ i j, f i j && negb (g i j)) key)%Z.
Proof.
  unfold cells_sum. rewrite <-zsum_add. apply zsum_ext. intros [i gr] _. unfold row_sum. rewrite <-zsum_add.
  apply zsum_ext. intros [j k] _. cbn. destruct (f i j), (g i j), (bool_decide (k = key)); cbn; lia.
Qed.

(** A selection that loses the part of [g] that it has. *)
Lemma cells_sum_sub f g h key :
  (∀ i j, h i j = f i j && negb (g i j)) → (∀ i j, g i j = true → f i j = true) →
  cells_sum groups wt h key = (cells_sum groups wt f key - cells_sum groups wt g key)%Z.
Proof.
  intros Hh Hsub. rewrite (cells_sum_split f g), (cells_sum_ext h (λ i j, f i j && negb (g i j))) by done.
  rewrite (cells_sum_ext (λ i j, f i j && g i j) g); [lia|]. intros i j. destruct (g i j) eqn:E; [|by rewrite andb_false_r].
  by rewrite (Hsub i j E).
Qed.

(** A selection that gains [g]. *)
Lemma cells_sum_add f g h key :
  (∀ i j, h i j = f i j || g i j) → (∀ i j, f i j = true → g i j = false) →
  cells_sum groups wt h key = (cells_sum groups wt f key + cells_sum groups wt g key)%Z.
Proof.
  intros Hh Hd. rewrite (cells_sum_split h f). f_equal; apply cells_sum_ext; intros i j; rewrite Hh.
  - by destruct (f i j), (g i j).
  - specialize (Hd i j). destruct (f i j), (g i j); try done. by rewrite Hd.
Qed.
End cells_sum.

Lemma zsum_imap_S {X} (F : nat * X → Z) l : zsum F (imap (pair ∘ S) l) = zsum (λ p, F (S p.1, p.2)) (imap pair l).
Proof. rewrite <-(zsum_fmap F (λ p : nat * X, (S p.1, p.2))), fmap_imap. done. Qed.

(** ** Rows of keys *)

(** A request of [r] rows and [c] columns. *)
Definition groups_ok (r c : nat) (groups : list GroupedObjectKeys) : Prop :=
  length groups = r ∧ Forall (λ g, length (gk_keys g) = c) groups.

Lemma gather_rows_run r c groups g :
  groups_ok r c groups → grid_ok r c g →
  _gather_keys_by_row groups g = Ret (zip_with (λ group b, (group, gather b (gk_keys group))) groups g).
Proof.
  intros [Hl Hc] [Hlg Hg]. unfold _gather_keys_by_row. rewrite Hl, Hlg, Nat.eqb_refl. cbn [negb]. clear Hl Hlg r.
  revert g Hg. induction Hc as [|gr groups Hgr Hc IH]; intros [|b g] Hg; try done. cbn [gather_rows zip_with].
  apply Forall_cons in Hg as [[Hwf Hs] Hg]. rewrite Hs, Hgr, Nat.eqb_refl. cbn [negb]. by rewrite (IH g Hg).
Qed.

(** What a loop over the gathered rows adds up to. *)
Lemma gather_rows_sum r c groups g (wt : GroupedObjectKeys → Z) key :
  groups_ok r c groups → grid_ok r c g →
  zsum (λ p : GroupedObjectKeys * list ObjectKey, zsum (λ k, if bool_decide (k = key) then wt p.1 else 0%Z) p.2)
    (zip_with (λ group b, (group, gather b (gk_keys group))) groups g)
  = cells_sum groups wt (cell g) key.
Proof.
  intros [Hl Hc] [Hlg Hg]. assert (length groups = length g) as Hlen by congruence. clear Hl Hlg r.
  unfold cells_sum. revert g Hg Hlen. induction Hc as [|gr groups Hgr Hc IH]; intros [|b g] Hg Hlen; try done.
  apply Forall_cons in Hg as [[Hwf Hs] Hg]. injection Hlen as Hlen. cbn [zip_with]. rewrite imap_cons, !zsum_cons. f_equal.
  - cbn [fst snd]. rewrite zsum_gather by congruence. apply zsum_ext. intros [j k] _. cbn.
    by destruct (bm_test b j), (bool_decide (k = key)).
  - rewrite (IH g Hg Hlen), zsum_imap_S. done.
Qed.

(** ** Scattering *)

Lemma cell_insert r c g a row b i j :
  grid_ok r c g → g !! a = Some row →
  cell (<[a := bm_set row b]> g) i j = cell g i j || (Nat.eqb i a && (Nat.eqb j b && Nat.ltb b c)).
Proof.
  intros [_ Hg] Ea. unfold rows_ok in Hg. rewrite Forall_lookup in Hg. destruct (Hg a row Ea) as [Hwf Hs].
  unfold cell. destruct (decide (i = a)) as [->|Hne].
  - rewrite list_lookup_insert_eq by (by eapply lookup_lt_Some). rewrite Ea, Nat.eqb_refl, bm_set_test, Hs by done. done.
  - rewrite list_lookup_insert_ne by done. apply Nat.eqb_neq in Hne. by rewrite Hne, orb_false_r.
Qed.

Lemma insert_row_ok r c g a row b : grid_ok r c g → g !! a = Some row → grid_ok r c (<[a := bm_set row b]> g).
Proof.
  intros [Hl Hg] Ea. split; [by rewrite length_insert|]. apply Forall_insert; [done|].
  unfold rows_ok in Hg. rewrite Forall_lookup in Hg. destruct (Hg a row Ea). split; [by apply bm_set_wf|by rewrite bm_set_size].
Qed.

(** Cell [(i, j)] is index [j + i * c] of the flat order. *)
Lemma flat_index c i j x : j + i * c = x ∧ j < c ↔ i = x / c ∧ j = x mod c ∧ 0 < c.
Proof.
  split.
  - intros [<- Hj]. rewrite Nat.div_add, Nat.Div0.mod_add, Nat.div_small, Nat.mod_small by lia. lia.
  - intros (-> & -> & Hc). pose proof (Nat.div_mod_eq x c). pose proof (Nat.mod_upper_bound x c). lia.
Qed.

Lemma scatter_loop_ok r c indices g :
  grid_ok r c g → (∀ x, x ∈ indices → x < r * c) →
  ∃ g', scatter_loop c indices g = Ret g' ∧ grid_ok r c g' ∧
    ∀ i j, cell g' i j = cell g i j || bool_decide (j < c ∧ j + i * c ∈ indices).
Proof.
  revert g. induction indices as [|x indices IH]; intros g Hg Hx.
  { exists g. split_and!; [done..|]. intros i j. rewrite bool_decide_false, orb_false_r; [done|].
    intros [_ Hin]. by apply not_elem_of_nil in Hin. }
  cbn [scatter_loop]. assert (x < r * c) as Hlt by (apply Hx; left).
  assert (0 < c) as Hc by lia. assert (x / c < r) as Ha by (apply Nat.Div0.div_lt_upper_bound; lia).
  destruct (g !! (x / c)) as [row|] eqn:Ea.
  2: { apply lookup_ge_None in Ea. destruct Hg as [Hl _]. lia. }
  destruct (IH (<[x / c := bm_set row (x mod c)]> g)) as (g' & E & Hg' & Hcell).
  { by apply insert_row_ok. }
  { intros y Hy. apply Hx. by right. }
  exists g'. split_and!; [exact E|exact Hg'|]. intros i j. rewrite Hcell, (cell_insert r c) by done.
  rewrite <-orb_assoc. f_equal. apply eq_true_iff_eq.
  rewrite orb_true_iff, !andb_true_iff, !Nat.eqb_eq, Nat.ltb_lt, !bool_decide_eq_true, elem_of_cons.
  pose proof (flat_index c i j x) as Hfl. pose proof (Nat.mod_upper_bound x c ltac:(lia)). split.
  - intros [(Hi & Hj & _)|[Hj Hin]]; [|by split; [|right]]. destruct (proj2 Hfl (conj Hi (conj Hj Hc))) as [? ?].
    split; [done|by left].
  - intros [Hj [Heq|Hin]]; [|by right]. left. destruct (proj1 Hfl (conj Heq Hj)) as (-> & -> & _). split_and!; try done.
Qed.

Lemma scatter_full_ok r c local :
  bm_wf local → bm_size local = r * c →
  ∃ g, _scatter_bitmaps_full_global local r c = Ret g ∧ grid_ok r c g ∧
    ∀ i j, cell g i j = Nat.ltb j c && bm_test local (j + i * c).
Proof.
  intros Hwf Hs. unfold _scatter_bitmaps_full_global. rewrite Hs, Nat.eqb_refl. cbn [negb].
  destruct (grid_zeros_ok r c) as (z & -> & Hz & Hcz). cbn [py_bind].
  assert (∀ x, x ∈ get_indices local ↔ bm_test local x = true) as Hin.
  { intros x. rewrite get_indices_spec by done. unfold set_bits. rewrite list_elem_of_filter, elem_of_seq.
    split; [by intros [? _]|]. intros Ht. split; [done|]. apply bm_test_lt in Ht. lia. }
  destruct (scatter_loop_ok r c (get_indices local) z Hz) as (g & E & Hg & Hcell).
  { intros x Hx%Hin%bm_test_lt. lia. }
  exists g. split_and!; [exact E|exact Hg|]. intros i j. rewrite Hcell, Hcz. cbn [orb]. apply eq_true_iff_eq.
  by rewrite bool_decide_eq_true, andb_true_iff, Nat.ltb_lt, Hin.
Qed.

Lemma elem_of_concat {X} (x : X) ls : x ∈ concat ls ↔ ∃ l, x ∈ l ∧ l ∈ ls.
Proof.
  rewrite list_elem_of_In, in_concat. split; intros (l & H1 & H2); exists l; rewrite ?list_elem_of_In in *; by split.
Qed.

(** An adapter's answer about the cells of [planned] selects some of them; an
    answer of another length is refused. *)
Lemma selected_cell r c planned i j :
  grid_ok r c planned → j < c →
  j + i * c ∈ concat (imap (λ i row, (λ j, j + i * c) <$> get_indices row) planned) → cell planned i j = true.
Proof.
  intros [_ Hg] Hj Hin. apply elem_of_concat in Hin as (l & Hx & Hl).
  apply elem_of_lookup_imap in Hl as (k & row & -> & Ek). apply list_elem_of_fmap in Hx as (j' & Heq & Hj').
  unfold rows_ok in Hg. rewrite Forall_lookup in Hg. destruct (Hg k row Ek) as [Hwf Hs].
  rewrite get_indices_spec in Hj' by done. unfold set_bits in Hj'. apply list_elem_of_filter in Hj' as [Ht Hlt].
  apply elem_of_seq in Hlt. assert (j' < c) as Hj2 by lia. assert (i = k ∧ j = j') as [-> ->].
  { destruct (proj1 (flat_index c i j (j + i * c)) (conj eq_refl Hj)) as (E1 & E2 & _).
    destruct (proj1 (flat_index c k j' (j + i * c)) (conj (eq_sym Heq) Hj2)) as (E3 & E4 & _).
    split; congruence. }
  unfold cell. by rewrite Ek.
Qed.

Lemma scatter_planned r c planned local :
  0 < r → grid_ok r c planned → bm_wf local →
  match _scatter_bitmaps planned local with
  | Ret g => grid_ok r c g ∧ ∀ i j, cell g i j = true → cell planned i j = true
  | Raise _ => True
  end.
Proof.
  intros Hr Hp Hwf. unfold _scatter_bitmaps. rewrite (grid_size_ok r c) by done.
  rewrite (proj2 (Nat.eqb_neq r 0)) by lia. set (sel := concat _).
  destruct (Nat.eqb_spec (length sel) (bm_size local)) as [Hlen|]; [|done]. cbn [negb].
  destruct (grid_zeros_ok r c) as (z & -> & Hz & Hcz). cbn [py_bind].
  assert (∀ x, x ∈ gather local sel → x ∈ sel) as Hsub.
  { intros x Hx. eapply elem_of_sublist; [exact Hx|]. by apply gather_sublist. }
  destruct (scatter_loop_ok r c (gather local sel) z Hz) as (g & -> & Hg & Hcell).
  { intros x Hx%Hsub. unfold sel in Hx. apply elem_of_concat in Hx as (l & Hx & Hl).
    apply elem_of_lookup_imap in Hl as (k & row & -> & Ek). apply list_elem_of_fmap in Hx as (j & -> & Hj).
    destruct Hp as [Hl Hg]. unfold rows_ok in Hg. rewrite Forall_lookup in Hg. destruct (Hg k row Ek) as [Hwr Hs].
    rewrite get_indices_spec in Hj by done. unfold set_bits in Hj. apply list_elem_of_filter in Hj as [_ Hj%elem_of_seq].
    apply lookup_lt_Some in Ek. nia. }
  split; [done|]. intros i j Hc. rewrite Hcell, Hcz in Hc. cbn [orb] in Hc. apply bool_decide_eq_true in Hc as [Hj Hin].
  apply (selected_cell r c); [done|done|]. by apply Hsub.
Qed.

(** ** Maps of a fixed shape *)

Lemma fits_empty r c : fits r c ms_empty.
Proof. split; [apply ms_empty_wf|by left]. Qed.

Lemma fits_set r c idx g m :
  0 < r → fits r c m → grid_ok r c g →
  ∃ m', ms_set idx g m = Ret m' ∧ fits r c m' ∧ ms_state m' = dset idx g (ms_state m) ∧
    (∀ x i j, locked m' x i j = if decide (idx = x) then cell g i j else locked m x i j).
Proof.
  intros Hr [Hwf Hl] Hg. destruct (ms_set_ok r c idx g m Hwf Hg Hr Hl) as (m' & E & Hwf' & Hl' & Es).
  exists m'. split_and!; [done|split; [done|by right]|done|]. intros x i j. unfold locked. rewrite Es, dget_dset. by case_decide.
Qed.

Lemma fits_locked r c m idx i j : 0 < r → fits r c m → locked m idx i j = true → i < r ∧ j < c.
Proof.
  unfold locked. intros Hr Hm Hl. destruct (dget idx (ms_state m)) as [g|] eqn:E; [|done].
  eapply cell_row; [by eapply fits_get|done].
Qed.

Lemma fits_del r c idx m :
  fits r c m → idx ∈ dkeys (ms_state m) →
  ∃ m', ms_del idx m = Ret m' ∧ fits r c m' ∧ ms_state m' = ddel idx (ms_state m) ∧
    (∀ x i j, locked m' x i j = if decide (idx = x) then false else locked m x i j).
Proof.
  intros [Hwf Hl] Hin. unfold ms_del. rewrite (proj2 (dmem_true _ _)) by done. eexists. split; [done|].
  destruct Hwf as [Hn Hs Hr]. split_and!.
  - split; [|exact Hl]. split; [by apply NoDup_ddel| |done]. cbn. intros x g E. apply (Hs x).
    rewrite dget_ddel in E. by case_decide.
  - done.
  - intros x i j. unfold locked. cbn. rewrite dget_ddel. by case_decide.
Qed.

Lemma fits_shape r c m : 0 < r → fits r c m → dkeys (ms_state m) ≠ [] → ms_layout m = Some (r, c).
Proof.
  intros Hr [Hwf [Hn|Hs]] Hk; [|done]. destruct (dkeys (ms_state m)) as [|idx l] eqn:E; [done|].
  assert (is_Some (dget idx (ms_state m))) as [g Eg] by (apply dget_is_Some; rewrite E; left).
  destruct (ms_shape m Hwf idx g Eg) as (r' & c' & El & _). congruence.
Qed.

Lemma ms_build_ok r c (f : Z → Bitmap2D → py Bitmap2D) (h : Z → nat → nat → bool) items result :
  0 < r → NoDup (dkeys items) → fits r c result →
  (∀ idx g, (idx, g) ∈ items → ∃ g', f idx g = Ret g' ∧ grid_ok r c g' ∧ ∀ i j, cell g' i j = h idx i j) →
  ∃ m, ms_build f items result = Ret m ∧ fits r c m ∧
    (∀ x, x ∈ dkeys (ms_state m) ↔ x ∈ dkeys (ms_state result) ∨ x ∈ dkeys items) ∧
    (∀ x i j, locked m x i j = if decide (x ∈ dkeys items) then h x i j else locked result x i j).
Proof.
  intros Hr. revert result. induction items as [|[idx g] items IH]; intros result Hnd Hfit Hf.
  { exists result. split_and!; [done|done| |]; intros x; [|intros; by rewrite decide_False by apply not_elem_of_nil].
    split; [by left|]. intros [?|?%not_elem_of_nil]; done. }
  cbn [ms_build]. destruct (Hf idx g ltac:(left)) as (g' & -> & Hg' & Hc). cbn [py_bind].
  destruct (fits_set r c idx g' result Hr Hfit Hg') as (m1 & -> & Hfit1 & Es & Hl1). cbn [py_bind].
  change (dkeys ((idx, g) :: items)) with (idx :: dkeys items) in *. apply NoDup_cons in Hnd as [Hni Hnd].
  destruct (IH m1 Hnd Hfit1) as (m & E & Hfm & Hk & Hl).
  { intros x gx Hin. apply Hf. by right. }
  exists m. split_and!; [done|done| |].
  - intros x. rewrite Hk, Es, elem_dkeys_dset, elem_of_cons. tauto.
  - intros x i j. rewrite Hl, Hl1. destruct (decide (x ∈ dkeys items)) as [Hx|Hx].
    + by rewrite decide_True by (by right).
    + destruct (decide (idx = x)) as [->|Hne]; [rewrite decide_True by left; by rewrite Hc|].
      rewrite decide_False; [done|]. intros [->|?]%elem_of_cons; done.
Qed.

Lemma compatible r c a b {X} (k : py X) : fits r c a → fits r c b → _ensure_compatible a b k = k.
Proof.
  intros [_ Ha] [_ Hb]. unfold _ensure_compatible. destruct Ha as [->|Ea]; [done|]. rewrite Ea.
  destruct Hb as [->|Eb]; [done|]. by rewrite Eb, bool_decide_true.
Qed.

(** [a - b]: the grids of [a] without the cells of [b]. *)
Lemma ms_sub_ok r c a b :
  0 < r → fits r c a → fits r c b →
  ∃ m, ms_sub a b = Ret m ∧ fits r c m ∧ (∀ x, x ∈ dkeys (ms_state m) ↔ x ∈ dkeys (ms_state a)) ∧
    (∀ x i j, locked m x i j = locked a x i j && negb (locked b x i j)).
Proof.
  intros Hr Ha Hb. pose proof Ha as [Hwfa _]. unfold ms_sub. rewrite (compatible r c) by done.
  destruct (ms_build_ok r c
    (λ idx g, match dget idx (ms_state b) with Some g' => grid_sub g g' | None => Ret g end)
    (λ x i j, locked a x i j && negb (locked b x i j)) (ms_state a) ms_empty Hr (ms_nodup _ Hwfa) (fits_empty r c))
    as (m & E & Hm & Hk & Hl).
  { intros idx g Hin. apply elem_dget in Hin; [|apply Hwfa]. pose proof (fits_get r c a idx g Hr Ha Hin) as Hg.
    unfold locked. rewrite Hin. destruct (dget idx (ms_state b)) as [g'|] eqn:Eb.
    - destruct (grid_sub_ok r c g g' Hg) as (s & -> & Hs & Hcs); [by eapply fits_get|]. by exists s.
    - exists g. split_and!; [done..|]. intros i j. by rewrite andb_true_r. }
  exists m. split_and!; [done|done| |].
  - intros x. rewrite Hk. cbn. split; [intros [?%not_elem_of_nil|?]; done|by right].
  - intros x i j. rewrite Hl. case_decide as Hx; [done|]. unfold locked at 2. apply dget_None in Hx. by rewrite Hx.
Qed.

(** ** Cells and keys *)

Lemma zsum_imap_pair {X} (F : nat * X → Z) (G : X → Z) l :
  (∀ i x, l !! i = Some x → F (i, x) = G x) → zsum F (imap pair l) = zsum G l.
Proof.
  revert F. induction l as [|x l IH]; intros F HF; [done|]. rewrite imap_cons, !zsum_cons, zsum_imap_S.
  rewrite (HF 0 x eq_refl). f_equal. apply IH. intros i y E. by apply (HF (S i)).
Qed.

Lemma lookup_imap_pair {X} (l : list X) i x : (i, x) ∈ imap pair l ↔ l !! i = Some x.
Proof.
  rewrite elem_of_lookup_imap. split.
  - by intros (j & y & [= -> ->] & E).
  - intros E. by exists i, x.
Qed.

(** Cells that are selected by their key. *)
Lemma cells_sum_keys groups wt f (p : ObjectKey → bool) x :
  (∀ i g j y, groups !! i = Some g → gk_keys g !! j = Some y → f i j = p y) →
  cells_sum groups wt f x
  = zsum (λ g, zsum (λ y, if bool_decide (y = x) then wt g else 0%Z) (filter (λ y, p y = true) (gk_keys g))) groups.
Proof.
  intros Hf. apply zsum_imap_pair. intros i g Hi. cbn [fst snd]. rewrite zsum_filter. apply zsum_imap_pair.
  intros j y Hj. cbn [fst snd]. rewrite (Hf i g j y Hi Hj). by destruct (p y), (bool_decide (y = x)).
Qed.

(** Cells of a row are those of the gathered keys that pass a test. *)
Lemma row_sum_gather b keys w (f : nat → bool) (p : ObjectKey → bool) x :
  bm_wf b → bm_size b = length keys → (∀ j y, keys !! j = Some y → f j = bm_test b j && p y) →
  row_sum w f keys x = zsum (λ y, if bool_decide (y = x) then w else 0%Z) (filter (λ y, p y = true) (gather b keys)).
Proof.
  intros Hwf Hs Hf. rewrite zsum_filter, zsum_gather by done. apply zsum_ext. intros [j y] Hin%lookup_imap_pair.
  cbn [fst snd]. rewrite (Hf j y Hin). by destruct (bm_test b j), (p y), (bool_decide (y = x)).
Qed.

Lemma length_flat r c groups : groups_ok r c groups → length (groups ≫= gk_keys) = r * c.
Proof.
  intros [<- Hc]. induction Hc as [|g groups Hg Hc IH]; [done|]. rewrite bind_cons, length_app, IH, Hg. done.
Qed.

Lemma lookup_flat r c groups i j :
  groups_ok r c groups → j < c → (groups ≫= gk_keys) !! (j + i * c) = groups !! i ≫= λ g, gk_keys g !! j.
Proof.
  intros [_ Hc] Hj. revert i. induction Hc as [|g groups Hg Hc IH]; intros i; [done|]. rewrite bind_cons. destruct i as [|i].
  - rewrite Nat.mul_0_l, Nat.add_0_r. cbn. apply lookup_app_l. lia.
  - rewrite lookup_app_r by lia. cbn [lookup list_lookup]. rewrite <-IH. f_equal. lia.
Qed.

Lemma zsum_imap_app {X} (F : nat * X → Z) l1 l2 :
  zsum F (imap pair (l1 ++ l2)) = (zsum F (imap pair l1) + zsum (λ p, F (length l1 + p.1, p.2)%nat) (imap pair l2))%Z.
Proof.
  rewrite imap_app, zsum_app. f_equal. rewrite <-(zsum_fmap F (λ p : nat * X, (length l1 + p.1, p.2)%nat)), fmap_imap. done.
Qed.

(** A sum over the flat order is a sum over rows. *)
Lemma zsum_flat r c groups (F : nat * ObjectKey → Z) :
  groups_ok r c groups →
  zsum F (imap pair (groups ≫= gk_keys))
  = zsum (λ p : nat * GroupedObjectKeys, zsum (λ q : nat * ObjectKey, F (q.1 + p.1 * c, q.2)%nat) (imap pair (gk_keys p.2)))
      (imap pair groups).
Proof.
  intros [_ Hc]. revert F. induction Hc as [|g groups Hg Hc IH]; intros F; [done|].
  rewrite bind_cons, zsum_imap_app, imap_cons, zsum_cons, zsum_imap_S, IH. f_equal.
  - apply zsum_ext. intros [j y] _. cbn. by rewrite Nat.add_0_r.
  - apply zsum_ext. intros [i gr] _. apply zsum_ext. intros [j y] _. cbn. rewrite Hg. do 2 f_equal. lia.
Qed.

(** An adapter's flat answer about every cell. *)
Lemma flat_answer_sum r c groups b (g : Bitmap2D) x :
  groups_ok r c groups → bm_wf b → bm_size b = r * c → (∀ i j, cell g i j = Nat.ltb j c && bm_test b (j + i * c)) →
  zsum (λ y, if bool_decide (y = x) then 1 else 0)%Z (gather b (groups ≫= gk_keys)) = cells_sum groups (λ _, 1%Z) (cell g) x.
Proof.
  intros Hgr Hwf Hs Hcell. rewrite zsum_gather by (done || by rewrite (length_flat r c)). rewrite (zsum_flat r c) by done.
  apply zsum_ext. intros [i gr] Hi%lookup_imap_pair. apply zsum_ext. intros [j y] Hj%lookup_imap_pair. cbn [fst snd].
  rewrite Hcell. destruct Hgr as [_ Hc]. rewrite Forall_lookup in Hc.
  assert (length (gk_keys gr) = c) as Hl by exact (Hc i gr Hi). apply lookup_lt_Some in Hj. cbn [snd] in Hj.
  rewrite (proj2 (Nat.ltb_lt j c)) by lia. by destruct (bm_test b (j + i * c)), (bool_decide (y = x)).
Qed.
