(* ===== verification/PrefetchController.v ===== *)
(** * The prefetch controller

    [PrefetchController] (storage_controllers/prefetch_controller.py): requests
    name a grid of objects. The controller read-locks what the L1 managers hold,
    asks the L2 adapters what they hold, plans which cells to serve from where,
    stages buffers in L1 for the cells to load, admits what the adapters loaded,
    and publishes which cells are hits. Everything it holds for a request - L1
    read locks, L2 locks, L1 buffers - is recorded in the request's maps.

    L1 managers and L2 adapters are reached through classes ([L1Tier],
    [L2Prefetch]); with them changes the [World]: the managers, the adapters and
    the log of the locks and buffers they granted and got back, which is what
    the controller's records are compared with. A call that a manager or adapter
    answers is a handler on the world; a method of the controller that works on
    a request is a handler on the controller and the request, since the code
    mutates both and an exception leaves both as they are. A request is in the
    table [_in_flight_requests] while it is worked on, and its entry there is
    brought up to date when the method is done: nothing reads the table in
    between. Gauges, events and file descriptors are not modelled. *)

From stdpp Require Import gmap list strings pretty.
From Stdlib Require Import ZArith Lia Floats.SpecFloat.
From S2P Require Import Prelude PyFloat TensorAllocator Keys L1Memory L1Manager Bitmap Fold Grid PrefetchPolicy Cells Handler.

Open Scope Z_scope.
Open Scope py_scope.
Open Scope handler_scope.

(** ** Interfaces *)

(** What the controller uses of an L1 manager. [T] is [MemoryTags]. *)
Class L1Tier (S T : Type) := {
  tier_reserve_read : list ObjectKey → Z → S → py (dict ObjectKey L1OperationResult) * S;
  tier_finish_read : list ObjectKey → Z → S → py (dict ObjectKey L1Error) * S;
  tier_reserve_write : list ObjectKey → list bool → MemoryLayoutDesc → string → S →
    py (dict ObjectKey L1OperationResult) * S;
  tier_finish_write_and_reserve_read : list ObjectKey → Z → string → S → py (dict ObjectKey L1OperationResult) * S;
  tier_finish_write_and_delete : list ObjectKey → string → S → py (dict ObjectKey L1Error) * S;
  tier_touch_keys : list ObjectKey → S → py unit * S;
  tier_memory_usage : S → Z * Z;
  tier_staging_usage : S → Z;
  tier_tags : S → T;
  tier_id : S → Z
}.

(** What it uses of an L2 adapter. *)
Class L2Prefetch (A T : Type) := {
  l2_submit_lookup : list ObjectKey → dict Z MemoryLayoutDesc → A → py Z * A;
  l2_query_lookup : Z → A → py (option Bitmap) * A;
  l2_submit_unlock : list ObjectKey → A → py unit * A;
  l2_submit_load : list ObjectKey → list oid → A → py Z * A;
  l2_query_load : Z → A → py (option Bitmap) * A;
  l2_tags : A → T
}.

Class PrefetchPolicy (P D1 D2 : Type) := {
  policy_plan_load : list GroupedObjectKeys → MapState → MapState → dict Z D1 → dict Z D2 → FetchingPolicy → P →
    py PrefetchPlan;
  policy_l1_retention : list ObjectKey → D1 → D2 → P → list bool
}.

Inductive DefaultPrefetchPolicy := default_prefetch (kernels : bool).
Inductive RetainPrefetchPolicy := retain_prefetch (kernels : bool).

#[export] Instance DefaultPrefetchPolicy_policy D1 D2 : PrefetchPolicy DefaultPrefetchPolicy D1 D2 := {|
  policy_plan_load := λ groups l1 l2 d1 d2 fp '(default_prefetch kernels), plan_load kernels groups l1 l2 d1 d2 fp;
  policy_l1_retention := λ keys _ _ _, default_l1_retention keys
|}.

#[export] Instance RetainPrefetchPolicy_policy D1 D2 : PrefetchPolicy RetainPrefetchPolicy D1 D2 := {|
  policy_plan_load := λ groups l1 l2 d1 d2 fp '(retain_prefetch kernels), plan_load kernels groups l1 l2 d1 d2 fp;
  policy_l1_retention := λ keys _ _ _, retain_l1_retention keys
|}.

(** [get_wanted_l1_memory_tags] of the configuration a descriptor carries. *)
Class WantsTags (D T : Type) := wanted_l1_memory_tags : D → list T.

(** ** Requests *)

Inductive PrefetchLockMode := LOCK | NO_LOCK.

Record PrefetchTaskSpec (T : Type) := mkSpec {
  sp_key_groups : list GroupedObjectKeys;
  sp_fetching_policy : FetchingPolicy;
  sp_lock_mode : PrefetchLockMode;
  sp_l1_tags : option (list T);               (* allowed_l1_memory_tags *)
  sp_l2_tags : option (list T)
}.
Arguments mkSpec {T}.
Arguments sp_key_groups {T}.
Arguments sp_fetching_policy {T}.
Arguments sp_lock_mode {T}.
Arguments sp_l1_tags {T}.
Arguments sp_l2_tags {T}.

Record PrefetchResult := mkResult {
  hit_cells : list Bitmap;
  l1_hit_cells : list Bitmap;
  l2_hit_cells : list Bitmap;
  found_cells : option (list Bitmap);
  l1_owners : dict ObjectKey Z
}.

(** [InFlightPrefetchRequest], with the three maps of its [PrefetchKeyState]. *)
Record Request (T : Type) := mkReq {
  rq_id : Z;
  rq_groups : list GroupedObjectKeys;
  rq_policy : FetchingPolicy;
  rq_lock_mode : PrefetchLockMode;
  rq_l1_tags : option (list T);
  rq_l2_tags : option (list T);
  rq_l2_found : option Bitmap2D;              (* l2_found_cells *)
  rq_l1_locked : MapState;
  rq_l2_locked : MapState;
  rq_l1_reserved : MapState;
  rq_lookups : dict Z Z;                      (* inflight_lookup_tasks *)
  rq_loads : dict Z Z;                        (* inflight_load_tasks *)
  rq_loaded : Bitmap2D;                       (* l2_loaded_cells *)
  rq_max_load_bytes : Z
}.
Arguments mkReq {T}.
Arguments rq_id {T}.
Arguments rq_groups {T}.
Arguments rq_policy {T}.
Arguments rq_lock_mode {T}.
Arguments rq_l1_tags {T}.
Arguments rq_l2_tags {T}.
Arguments rq_l2_found {T}.
Arguments rq_l1_locked {T}.
Arguments rq_l2_locked {T}.
Arguments rq_l1_reserved {T}.
Arguments rq_lookups {T}.
Arguments rq_loads {T}.
Arguments rq_loaded {T}.
Arguments rq_max_load_bytes {T}.

Section request.
Context {T : Type}.
Implicit Types q : Request T.

Definition set_l1_locked (m : MapState) q : Request T :=
  mkReq (rq_id q) (rq_groups q) (rq_policy q) (rq_lock_mode q) (rq_l1_tags q) (rq_l2_tags q) (rq_l2_found q) m
    (rq_l2_locked q) (rq_l1_reserved q) (rq_lookups q) (rq_loads q) (rq_loaded q) (rq_max_load_bytes q).
Definition set_l2_locked (m : MapState) q : Request T :=
  mkReq (rq_id q) (rq_groups q) (rq_policy q) (rq_lock_mode q) (rq_l1_tags q) (rq_l2_tags q) (rq_l2_found q)
    (rq_l1_locked q) m (rq_l1_reserved q) (rq_lookups q) (rq_loads q) (rq_loaded q) (rq_max_load_bytes q).
Definition set_l1_reserved (m : MapState) q : Request T :=
  mkReq (rq_id q) (rq_groups q) (rq_policy q) (rq_lock_mode q) (rq_l1_tags q) (rq_l2_tags q) (rq_l2_found q)
    (rq_l1_locked q) (rq_l2_locked q) m (rq_lookups q) (rq_loads q) (rq_loaded q) (rq_max_load_bytes q).
Definition set_tasks (lookups loads : dict Z Z) q : Request T :=
  mkReq (rq_id q) (rq_groups q) (rq_policy q) (rq_lock_mode q) (rq_l1_tags q) (rq_l2_tags q) (rq_l2_found q)
    (rq_l1_locked q) (rq_l2_locked q) (rq_l1_reserved q) lookups loads (rq_loaded q) (rq_max_load_bytes q).
Definition set_found (found : option Bitmap2D) (loaded : Bitmap2D) q : Request T :=
  mkReq (rq_id q) (rq_groups q) (rq_policy q) (rq_lock_mode q) (rq_l1_tags q) (rq_l2_tags q) found
    (rq_l1_locked q) (rq_l2_locked q) (rq_l1_reserved q) (rq_lookups q) (rq_loads q) loaded (rq_max_load_bytes q).

Definition _get_prefetch_write_tag (request_id : Z) : string := "prefetch:" +:+ pretty request_id.

Fixpoint _get_max_load_bytes (key_groups : list GroupedObjectKeys) : py Z :=
  match key_groups with
  | [] => Ret 0
  | group :: groups' =>
      let! size := get_size_bytes (shapes (gk_layout_desc group)) (dtypes (gk_layout_desc group)) in
      let! rest := _get_max_load_bytes groups' in
      Ret (Z.of_nat (length (gk_keys group)) * size + rest)
  end.

Definition _build_request (request_id : Z) (spec : PrefetchTaskSpec T) : py (Request T) :=
  match sp_key_groups spec with
  | [] => Raise ValueError
  | groups =>
      let! bytes := _get_max_load_bytes groups in
      Ret (mkReq request_id groups (sp_fetching_policy spec) (sp_lock_mode spec) (sp_l1_tags spec) (sp_l2_tags spec)
             None ms_empty ms_empty ms_empty [] [] [] bytes)
  end.

Definition get_flattened_keys q : list ObjectKey := rq_groups q ≫= gk_keys.
Definition group_layout_descs (groups : list GroupedObjectKeys) : dict Z MemoryLayoutDesc :=
  foldl (λ d row, dset (gk_object_group_id row) (gk_layout_desc row) d) [] groups.

Inductive PrefetchPhase := LOOKUP | PLAN_AND_LOAD.
Definition phase q : PrefetchPhase := match rq_lookups q with [] => PLAN_AND_LOAD | _ => LOOKUP end.
Definition all_lookups_done q : bool := match rq_lookups q with [] => true | _ => false end.
Definition all_loads_done q : bool := match rq_loads q with [] => true | _ => false end.

Definition _tags_allowed `{EqDecision T} (tags : T) (allowed : option (list T)) : bool :=
  match allowed with None => true | Some l => bool_decide (tags ∈ l) end.
End request.

Definition _needs_l2_lookup (kernels : bool) (key_groups : list GroupedObjectKeys) (l1_locked_keys : MapState)
    (fetching_policy : FetchingPolicy) : py bool :=
  let! l1_found := _merged_or_zeros l1_locked_keys key_groups in
  let num_chunks := num_chunks_of key_groups in
  match fetching_policy with
  | full => Ret (Nat.ltb (grid_popcount l1_found) (length key_groups * num_chunks))
  | prefix =>
      let! r := fold_unfold_grouped kernels l1_found (gk_sliding_window_size <$> key_groups) in
      Ret (r.1 <? Z.of_nat num_chunks)
  end.

(** ** The world *)

(** The locks and buffers that managers and adapters granted and got back, in
    order. [ReadHanded]: a read lock that the client of a finished request
    keeps. [ReadRefused]: the manager did not admit a loaded object. *)
Inductive pf_event :=
  | ReadLocked (l1_idx : Z) (key : ObjectKey) (n : Z)
  | ReadReleased (l1_idx : Z) (key : ObjectKey) (n : Z)
  | ReadHanded (l1_idx : Z) (key : ObjectKey) (n : Z)
  | ReadRefused (l1_idx : Z) (key : ObjectKey) (n : Z)
  | Staged (l1_idx : Z) (key : ObjectKey) (tag : string)
  | Unstaged (l1_idx : Z) (key : ObjectKey) (tag : string)
  | L2Locked (l2_idx : Z) (key : ObjectKey)
  | L2Unlocked (l2_idx : Z) (key : ObjectKey).

Record World (S A : Type) := mkWorld {
  w_l1 : dict Z S;                            (* _l1_managers *)
  w_l2 : dict Z A;                            (* _l2_adapters *)
  w_log : list pf_event
}.
Arguments mkWorld {S A}.
Arguments w_l1 {S A}.
Arguments w_l2 {S A}.
Arguments w_log {S A}.

(** The keys of [keys] that [results] answers with SUCCESS. *)
Definition succeeded (results : dict ObjectKey L1OperationResult) (keys : list ObjectKey) : list ObjectKey :=
  filter (λ k, match dget k results with Some (SUCCESS, _) => true | _ => false end = true) keys.

Section world.
Context {S A T : Type} `{L1Tier S T} `{L2Prefetch A T}.

#[local] Abbreviation W := (World S A).

(** A call on [self._l1_managers[l1_idx]]; [ev] is what it adds to the log. *)
Definition on_l1 {X} (l1_idx : Z) (call : S → py X * S) (ev : X → list pf_event) : handler W X :=
  λ w, match dget l1_idx (w_l1 w) with
       | None => (Raise KeyError, w)
       | Some s =>
           match call s with
           | (Ret x, s') => (Ret x, mkWorld (dset l1_idx s' (w_l1 w)) (w_l2 w) (w_log w ++ ev x))
           | (Raise e, s') => (Raise e, mkWorld (dset l1_idx s' (w_l1 w)) (w_l2 w) (w_log w))
           end
       end.

Definition on_l2 {X} (l2_idx : Z) (call : A → py X * A) (ev : X → list pf_event) : handler W X :=
  λ w, match dget l2_idx (w_l2 w) with
       | None => (Raise KeyError, w)
       | Some a =>
           match call a with
           | (Ret x, a') => (Ret x, mkWorld (w_l1 w) (dset l2_idx a' (w_l2 w)) (w_log w ++ ev x))
           | (Raise e, a') => (Raise e, mkWorld (w_l1 w) (dset l2_idx a' (w_l2 w)) (w_log w))
           end
       end.

Definition pf_reserve_read (l1_idx : Z) (keys : list ObjectKey) (n : Z) : handler W (dict ObjectKey L1OperationResult) :=
  on_l1 l1_idx (tier_reserve_read keys n) (λ r, (λ k, ReadLocked l1_idx k n) <$> succeeded r keys).
Definition pf_finish_read (l1_idx : Z) (keys : list ObjectKey) (n : Z) : handler W (dict ObjectKey L1Error) :=
  on_l1 l1_idx (tier_finish_read keys n) (λ _, (λ k, ReadReleased l1_idx k n) <$> keys).
Definition pf_reserve_write (l1_idx : Z) (keys : list ObjectKey) (temps : list bool) (layout : MemoryLayoutDesc)
    (tag : string) : handler W (dict ObjectKey L1OperationResult) :=
  on_l1 l1_idx (tier_reserve_write keys temps layout tag) (λ r, (λ k, Staged l1_idx k tag) <$> succeeded r keys).
Definition pf_admit (l1_idx : Z) (keys : list ObjectKey) (n : Z) (tag : string)
    : handler W (dict ObjectKey L1OperationResult) :=
  on_l1 l1_idx (tier_finish_write_and_reserve_read keys n tag) (λ r,
    ((λ k, Unstaged l1_idx k tag) <$> keys) ++
    ((λ k, match dget k r with Some (SUCCESS, _) => ReadLocked l1_idx k n | _ => ReadRefused l1_idx k n end) <$> keys)).
Definition pf_discard (l1_idx : Z) (keys : list ObjectKey) (tag : string) : handler W (dict ObjectKey L1Error) :=
  on_l1 l1_idx (tier_finish_write_and_delete keys tag) (λ _, (λ k, Unstaged l1_idx k tag) <$> keys).
Definition pf_touch_keys (l1_idx : Z) (keys : list ObjectKey) : handler W unit :=
  on_l1 l1_idx (tier_touch_keys keys) (λ _, []).

Definition pf_submit_lookup (l2_idx : Z) (keys : list ObjectKey) (layouts : dict Z MemoryLayoutDesc) : handler W Z :=
  on_l2 l2_idx (l2_submit_lookup keys layouts) (λ _, []).
(** A lookup of [keys] that reports locked the keys it found. *)
Definition pf_query_lookup (l2_idx task_id : Z) (keys : list ObjectKey) : handler W (option Bitmap) :=
  on_l2 l2_idx (l2_query_lookup task_id) (λ r,
    match r with
    | Some b => if Nat.eqb (bm_size b) (length keys) then L2Locked l2_idx <$> gather b keys else []
    | None => []
    end).
Definition pf_submit_unlock (l2_idx : Z) (keys : list ObjectKey) : handler W unit :=
  on_l2 l2_idx (l2_submit_unlock keys) (λ _, L2Unlocked l2_idx <$> keys).
Definition pf_submit_load (l2_idx : Z) (keys : list ObjectKey) (objs : list oid) : handler W Z :=
  on_l2 l2_idx (l2_submit_load keys objs) (λ _, []).
Definition pf_query_load (l2_idx task_id : Z) : handler W (option Bitmap) :=
  on_l2 l2_idx (l2_query_load task_id) (λ _, []).

(** *** Loops over cells *)

(** [for row, keys in _gather_keys_by_row(...): if keys: finish_read(...)]. *)
Definition release_cells (groups : list GroupedObjectKeys) (l1_idx : Z) (cells : Bitmap2D) : handler W unit :=
  let^ rows := h_lift (_gather_keys_by_row groups cells) in
  h_iter (λ row : GroupedObjectKeys * list ObjectKey,
    match row.2 with
    | [] => h_ret tt
    | keys => let^ _ := pf_finish_read l1_idx keys (gk_num_kv_readers row.1) in h_ret tt
    end) rows.

(** [keys = _gather_keys(...); if keys: submit_unlock(keys)]. *)
Definition unlock_cells (groups : list GroupedObjectKeys) (l2_idx : Z) (cells : Bitmap2D) : handler W unit :=
  let^ keys := h_lift (_gather_keys groups cells) in
  match keys with [] => h_ret tt | _ => pf_submit_unlock l2_idx keys end.

(** [keys = _gather_keys(...); if keys: finish_write_and_delete(keys, tag)]. *)
Definition discard_cells (groups : list GroupedObjectKeys) (tag : string) (l1_idx : Z) (cells : Bitmap2D)
    : handler W (list ObjectKey) :=
  let^ keys := h_lift (_gather_keys groups cells) in
  match keys with [] => h_ret [] | _ => let^ _ := pf_discard l1_idx keys tag in h_ret keys end.

(** Admitting the loaded cells, row by row. *)
Definition admit_cells (groups : list GroupedObjectKeys) (tag : string) (l1_idx : Z) (cells : Bitmap2D) : handler W unit :=
  let^ rows := h_lift (_gather_keys_by_row groups cells) in
  h_iter (λ row : GroupedObjectKeys * list ObjectKey,
    match row.2 with
    | [] => h_ret tt
    | keys => let^ _ := pf_admit l1_idx keys (gk_num_kv_readers row.1) tag in h_ret tt
    end) rows.

(** *** [_reserve_l1_cells] *)

Fixpoint lookup_all {V} (d : dict ObjectKey V) (keys : list ObjectKey) : py (list V) :=
  match keys with
  | [] => Ret []
  | key :: keys' =>
      match dget key d with
      | None => Raise KeyError
      | Some v => let! vs := lookup_all d keys' in Ret (v :: vs)
      end
  end.

Record reserve_acc := mkReserve {
  ra_success : list Bitmap;
  ra_objs : dict ObjectKey oid;
  ra_failed : Z
}.

(** [for col, key in zip(cols, keys, strict=True)]. *)
Fixpoint reserve_results (row_id : nat) (cols : list nat) (keys : list ObjectKey)
    (results : dict ObjectKey L1OperationResult) (a : reserve_acc) : py reserve_acc :=
  match cols, keys with
  | [], [] => Ret a
  | col :: cols', key :: keys' =>
      match dget key results with
      | None => Raise KeyError
      | Some (SUCCESS, Some mem_obj) =>
          match ra_success a !! row_id with
          | None => Raise IndexError
          | Some row =>
              reserve_results row_id cols' keys' results
                (mkReserve (<[row_id := bm_set row col]> (ra_success a)) (dset key mem_obj (ra_objs a)) (ra_failed a))
          end
      | Some _ => reserve_results row_id cols' keys' results (mkReserve (ra_success a) (ra_objs a) (ra_failed a + 1))
      end
  | _, _ => Raise ValueError
  end.

Fixpoint reserve_rows (l1_idx : Z) (retain : dict ObjectKey bool) (tag : string) (row_id : nat)
    (groups : list GroupedObjectKeys) (cells : list Bitmap) (a : reserve_acc) : handler W reserve_acc :=
  match groups, cells with
  | [], [] => h_ret a
  | group :: groups', row :: cells' =>
      match get_indices row with
      | [] => reserve_rows l1_idx retain tag (Datatypes.S row_id) groups' cells' a
      | cols =>
          let keys := gather row (gk_keys group) in
          let^ kept := h_lift (lookup_all retain keys) in
          let^ results := pf_reserve_write l1_idx keys (negb <$> kept) (gk_layout_desc group) tag in
          let^ a' := h_lift (reserve_results row_id cols keys results a) in
          reserve_rows l1_idx retain tag (Datatypes.S row_id) groups' cells' a'
      end
  | _, _ => h_raise ValueError
  end.

Definition _reserve_l1_cells (l1_idx : Z) (groups : list GroupedObjectKeys) (cells : Bitmap2D)
    (retain : dict ObjectKey bool) (tag : string) : handler W reserve_acc :=
  let^ success := h_lift (zeros_like cells) in
  reserve_rows l1_idx retain tag 0 groups cells (mkReserve success [] 0).
End world.

(** ** The controller *)

Inductive pf_op (A D2 : Type) :=
  | PfAdd (adapter_id : Z) (adapter : A) (descriptor : D2) (done : Z)      (* AddAdapterOp *)
  | PfRemove (adapter_id : Z) (done : Z).                                  (* RemoveAdapterOp *)
Arguments PfAdd {A D2}.
Arguments PfRemove {A D2}.

Record PrefetchController (S A D1 D2 P T : Type) := mkPC {
  pc_world : World S A;
  pc_l1_descs : dict Z D1;                    (* _l1_manager_descriptors *)
  pc_descs : dict Z D2;                       (* _adapter_descriptors *)
  pc_policy : P;
  pc_affinity : dict Z Z;                     (* _l2_affinity *)
  pc_watermark : float;
  pc_draining : dict Z Z;
  pc_ops : list (pf_op A D2);
  pc_in_flight : dict Z (Request T);
  pc_pending : list (Z * PrefetchTaskSpec T);
  pc_submitted : list (Z * PrefetchTaskSpec T);
  pc_next : Z;                                (* _next_request_id *)
  pc_results : dict Z PrefetchResult;
  pc_done : list Z                            (* the done events that are set *)
}.
Arguments mkPC {S A D1 D2 P T}.
Arguments pc_world {S A D1 D2 P T}.
Arguments pc_l1_descs {S A D1 D2 P T}.
Arguments pc_descs {S A D1 D2 P T}.
Arguments pc_policy {S A D1 D2 P T}.
Arguments pc_affinity {S A D1 D2 P T}.
Arguments pc_watermark {S A D1 D2 P T}.
Arguments pc_draining {S A D1 D2 P T}.
Arguments pc_ops {S A D1 D2 P T}.
Arguments pc_in_flight {S A D1 D2 P T}.
Arguments pc_pending {S A D1 D2 P T}.
Arguments pc_submitted {S A D1 D2 P T}.
Arguments pc_next {S A D1 D2 P T}.
Arguments pc_results {S A D1 D2 P T}.
Arguments pc_done {S A D1 D2 P T}.

(** [for tags in wanted: for key, manager in l1_managers.items(): ...]. *)
Definition resolve_l1_affinity {S T} `{EqDecision T} `{L1Tier S T} (wanted : list T) (l1_managers : dict Z S) : py Z :=
  match wanted ≫= (λ tags, omap (λ m : Z * S, if bool_decide (tier_tags m.2 = tags) then Some m.1 else None) l1_managers) with
  | key :: _ => Ret key
  | [] => Raise ValueError
  end.

Section controller.
Context {S A D1 D2 P T : Type} `{EqDecision T} `{L1Tier S T} `{L2Prefetch A T} `{PrefetchPolicy P D1 D2} `{WantsTags D2 T}.
Context (kernels : bool).

#[local] Abbreviation PC := (PrefetchController S A D1 D2 P T).
#[local] Abbreviation Req := (Request T).
#[local] Abbreviation W := (World S A).

Definition set_world (w : W) (c : PC) : PC :=
  mkPC w (pc_l1_descs c) (pc_descs c) (pc_policy c) (pc_affinity c) (pc_watermark c) (pc_draining c) (pc_ops c)
    (pc_in_flight c) (pc_pending c) (pc_submitted c) (pc_next c) (pc_results c) (pc_done c).
Definition set_adapters (w : W) (descs : dict Z D2) (aff : dict Z Z) (draining : dict Z Z) (done : list Z) (c : PC) : PC :=
  mkPC w (pc_l1_descs c) descs (pc_policy c) aff (pc_watermark c) draining (pc_ops c)
    (pc_in_flight c) (pc_pending c) (pc_submitted c) (pc_next c) (pc_results c) done.
Definition set_ops (ops : list (pf_op A D2)) (c : PC) : PC :=
  mkPC (pc_world c) (pc_l1_descs c) (pc_descs c) (pc_policy c) (pc_affinity c) (pc_watermark c) (pc_draining c) ops
    (pc_in_flight c) (pc_pending c) (pc_submitted c) (pc_next c) (pc_results c) (pc_done c).
Definition set_table (f : dict Z Req) (c : PC) : PC :=
  mkPC (pc_world c) (pc_l1_descs c) (pc_descs c) (pc_policy c) (pc_affinity c) (pc_watermark c) (pc_draining c) (pc_ops c)
    f (pc_pending c) (pc_submitted c) (pc_next c) (pc_results c) (pc_done c).
Definition set_queues (pending submitted : list (Z * PrefetchTaskSpec T)) (next : Z) (c : PC) : PC :=
  mkPC (pc_world c) (pc_l1_descs c) (pc_descs c) (pc_policy c) (pc_affinity c) (pc_watermark c) (pc_draining c) (pc_ops c)
    (pc_in_flight c) pending submitted next (pc_results c) (pc_done c).
Definition set_results (r : dict Z PrefetchResult) (c : PC) : PC :=
  mkPC (pc_world c) (pc_l1_descs c) (pc_descs c) (pc_policy c) (pc_affinity c) (pc_watermark c) (pc_draining c) (pc_ops c)
    (pc_in_flight c) (pc_pending c) (pc_submitted c) (pc_next c) r (pc_done c).

(** A method working on a request. *)
#[local] Abbreviation RH := (handler (PC * Req)).

Definition on_world {X} (h : handler W X) : RH X :=
  λ s, let '(r, w) := h (pc_world s.1) in (r, (set_world w s.1, s.2)).
Definition on_ctl (f : PC → PC) : RH unit := h_modify (λ s, (f s.1, s.2)).
Definition on_req (f : Req → Req) : RH unit := h_modify (λ s, (s.1, f s.2)).

Definition _is_l2_eligible (c : PC) (q : Req) (l2_idx : Z) : py bool :=
  if dmem l2_idx (pc_draining c) then Ret false
  else match dget l2_idx (w_l2 (pc_world c)) with
       | None => Raise KeyError
       | Some a => Ret (_tags_allowed (l2_tags a) (rq_l2_tags q))
       end.

Definition _get_l2_affinity_manager (c : PC) (l2_idx : Z) : py Z :=
  match dget l2_idx (pc_affinity c) with Some l1_idx => Ret l1_idx | None => Raise KeyError end.

(** *** Lookup *)

(** [result[key]] for every key: the bits of the keys that are locked now. *)
Fixpoint mark_loop (i : nat) (keys : list ObjectKey) (result : dict ObjectKey L1OperationResult) (b : Bitmap) : py Bitmap :=
  match keys with
  | [] => Ret b
  | key :: keys' =>
      match dget key result with
      | None => Raise KeyError
      | Some (SUCCESS, _) => mark_loop (Datatypes.S i) keys' result (bm_set b i)
      | Some _ => mark_loop (Datatypes.S i) keys' result b
      end
  end.

Definition reserve_read_rows (l1_idx : Z) (groups : list GroupedObjectKeys) : handler W (dict ObjectKey L1OperationResult) :=
  h_fold (λ acc row,
    let^ r := pf_reserve_read l1_idx (gk_keys row) (gk_num_kv_readers row) in
    h_ret (foldl (λ d p, dset p.1 p.2 d) acc r)) [] groups.

Definition lock_manager (l1_idx : Z) : RH unit :=
  let^ s := h_get in
  match dget l1_idx (w_l1 (pc_world s.1)) with
  | None => h_raise KeyError
  | Some l1_manager =>
      if negb (_tags_allowed (tier_tags l1_manager) (rq_l1_tags s.2)) then h_ret tt
      else
        let groups := rq_groups s.2 in
        let^ result := on_world (reserve_read_rows l1_idx groups) in
        let^ res_bitmap := h_lift (mark_loop 0 (get_flattened_keys s.2) result
                                     (new_bitmap (length (get_flattened_keys s.2)))) in
        let^ grid := h_lift (_scatter_bitmaps_full_global res_bitmap (length groups) (num_chunks_of groups)) in
        let^ s := h_get in
        let^ locked := h_lift (ms_set l1_idx grid (rq_l1_locked s.2)) in
        on_req (set_l1_locked locked)
  end.

(** [_release_all_locks]: the maps are cleared once everything is returned. *)
Definition unlock_attached (groups : list GroupedObjectKeys) (p : Z * Bitmap2D) : handler W unit :=
  let^ keys := h_lift (_gather_keys groups p.2) in
  let^ w := h_get in
  match keys with
  | [] => h_ret tt
  | _ => if dmem p.1 (w_l2 w) then pf_submit_unlock p.1 keys else h_ret tt
  end.

Definition _release_all_locks : RH unit :=
  let^ s := h_get in
  let q := s.2 in
  let tag := _get_prefetch_write_tag (rq_id q) in
  let^ _ := on_world (h_iter (unlock_attached (rq_groups q)) (ms_state (rq_l2_locked q))) in
  let^ _ := on_world (h_iter (λ p, let^ _ := discard_cells (rq_groups q) tag p.1 p.2 in h_ret tt)
                        (ms_state (rq_l1_reserved q))) in
  let^ _ := on_world (h_iter (λ p, release_cells (rq_groups q) p.1 p.2) (ms_state (rq_l1_locked q))) in
  on_req (λ q, set_l1_reserved ms_empty (set_l2_locked ms_empty (set_l1_locked ms_empty q))).

(** [try: ... finally: if not completed: self._release_all_locks(request)]. *)
Definition _lock_l1_keys : RH unit :=
  λ s, match h_iter lock_manager (dkeys (w_l1 (pc_world s.1))) s with
       | (Ret x, s') => (Ret x, s')
       | (Raise e, s') =>
           match _release_all_locks s' with
           | (Ret _, s'') => (Raise e, s'')
           | (Raise e', s'') => (Raise e', s'')
           end
       end.

(** *** Planning *)

Definition _plan_load (active_l2_descs : dict Z D2) : RH MapState :=
  let^ s := h_get in
  let '(c, q) := s in
  let^ plan := h_lift (policy_plan_load (rq_groups q) (rq_l1_locked q) (rq_l2_locked q) (pc_l1_descs c)
                         active_l2_descs (rq_policy q) (pc_policy c)) in
  let^ l1_dropped := h_lift (ms_sub (rq_l1_locked q) (l1_planned_keys plan)) in
  let^ l2_dropped := h_lift (ms_sub (rq_l2_locked q) (l2_planned_keys plan)) in
  let^ _ := on_world (h_iter (λ p, release_cells (rq_groups q) p.1 p.2) (ms_state l1_dropped)) in
  let^ _ := on_world (h_iter (λ p, unlock_cells (rq_groups q) p.1 p.2) (ms_state l2_dropped)) in
  let^ _ := on_req (λ q, set_l2_locked (l2_planned_keys plan) (set_l1_locked (l1_planned_keys plan) q)) in
  h_ret l2_dropped.

(** One adapter of [_poll_lookup_results]. *)
Definition poll_lookup (signaled : list Z) (task : Z * Z) : RH unit :=
  let '(adapter_idx, task_id) := task in
  if negb (bool_decide (adapter_idx ∈ signaled)) then h_ret tt
  else
    let^ s := h_get in
    let groups := rq_groups s.2 in
    let^ result := on_world (pf_query_lookup adapter_idx task_id (get_flattened_keys s.2)) in
    match result with
    | None => h_ret tt
    | Some b =>
        let^ found := h_lift (_scatter_bitmaps_full_global b (length groups) (num_chunks_of groups)) in
        let^ locked := h_lift (ms_set adapter_idx found (rq_l2_locked s.2)) in
        let^ _ := on_req (set_l2_locked locked) in
        let^ _ := match rq_policy s.2 with
                  | full =>
                      match rq_l2_found s.2 with
                      | None => on_req (λ q, set_found (Some found) (rq_loaded q) q)
                      | Some g => let^ g' := h_lift (grid_iadd g found) in on_req (λ q, set_found (Some g') (rq_loaded q) q)
                      end
                  | prefix => h_ret tt
                  end in
        on_req (λ q, set_tasks (ddel adapter_idx (rq_lookups q)) (rq_loads q) q)
    end.

Definition _poll_lookup_results (signaled : list Z) : RH unit :=
  let^ s := h_get in h_iter (poll_lookup signaled) (rq_lookups s.2).

(** *** Loading *)

(** [_build_l1_allocation_plans]. *)
Fixpoint zip_strict {X Y} (l : list X) (k : list Y) : py (list (X * Y)) :=
  match l, k with
  | [], [] => Ret []
  | x :: l', y :: k' => let! r := zip_strict l' k' in Ret ((x, y) :: r)
  | _, _ => Raise ValueError
  end.

Definition allocation_step (c : PC) (q : Req) (acc : dict Z Bitmap2D * dict ObjectKey bool) (p : Z * Bitmap2D)
    : py (dict Z Bitmap2D * dict ObjectKey bool) :=
  let '(l2_idx, planned) := p in
  let! l1_idx := _get_l2_affinity_manager c l2_idx in
  let! keys := _gather_keys (rq_groups q) planned in
  let! retention :=
    match rq_lock_mode q with
    | NO_LOCK => Ret (replicate (length keys) true)
    | LOCK =>
        match dget l1_idx (pc_l1_descs c), dget l2_idx (pc_descs c) with
        | Some d1, Some d2 => Ret (policy_l1_retention keys d1 d2 (pc_policy c))
        | _, _ => Raise KeyError
        end
    end in
  let! pairs := zip_strict keys retention in
  let retain := foldl (λ d p, dset p.1 p.2 d) acc.2 pairs in
  match dget l1_idx acc.1 with
  | Some cells => let! cells' := grid_iadd cells planned in Ret (dset l1_idx cells' acc.1, retain)
  | None => Ret (dset l1_idx planned acc.1, retain)
  end.

Fixpoint allocation_loop (c : PC) (q : Req) (acc : dict Z Bitmap2D * dict ObjectKey bool) (items : list (Z * Bitmap2D))
    : py (dict Z Bitmap2D * dict ObjectKey bool) :=
  match items with
  | [] => Ret acc
  | p :: items' => let! acc' := allocation_step c q acc p in allocation_loop c q acc' items'
  end.

Definition _build_l1_allocation_plans (c : PC) (q : Req) : py (dict Z Bitmap2D * dict ObjectKey bool) :=
  allocation_loop c q ([], []) (ms_state (rq_l2_locked q)).

(** Local variables of [_transition_to_load_phase]: [l1_reserved_keys],
    [reserved_objs] and [num_failed_reservations]. *)
Record load_acc := mkLoad { ld_reserved : MapState; ld_objs : dict ObjectKey oid; ld_failed : Z }.

Definition reserve_manager (groups : list GroupedObjectKeys) (retain : dict ObjectKey bool) (tag : string)
    (a : load_acc) (p : Z * Bitmap2D) : handler W load_acc :=
  let^ r := _reserve_l1_cells p.1 groups p.2 retain tag in
  let^ reserved := h_lift (ms_set p.1 (ra_success r) (ld_reserved a)) in
  h_ret (mkLoad reserved (foldl (λ d o, dset o.1 o.2 d) (ld_objs a) (ra_objs r)) (ld_failed a + ra_failed r)).

Definition drop_objs (keys : list ObjectKey) (objs : dict ObjectKey oid) : dict ObjectKey oid :=
  foldl (λ d k, ddel k d) objs keys.

(** Step 3.5: a manager keeps its cells of whole columns. *)
Definition trim_manager (groups : list GroupedObjectKeys) (tag : string) (kept : Bitmap2D) (a : load_acc)
    (p : Z * Bitmap2D) : handler W load_acc :=
  let^ extra := h_lift (grid_sub p.2 kept) in
  let^ release_keys := discard_cells groups tag p.1 extra in
  match release_keys with
  | [] => h_ret a
  | _ =>
      let^ rest := h_lift (grid_and p.2 kept) in
      let^ reserved := h_lift (ms_set p.1 rest (ld_reserved a)) in
      h_ret (mkLoad reserved (drop_objs release_keys (ld_objs a)) (ld_failed a))
  end.

Definition trim_columns (groups : list GroupedObjectKeys) (tag : string) (a : load_acc) : handler W load_acc :=
  let^ merged := h_lift (merge (ld_reserved a)) in
  match merged with
  | [] => h_ret a
  | _ =>
      let^ rows := h_lift (all_grouped merged) in
      let^ kept := h_lift (new_grid rows) in
      h_fold (trim_manager groups tag kept) a (ms_state (ld_reserved a))
  end.

(** Step 4: the L2 cells that have a buffer. *)
Fixpoint reserved_part (c : PC) (reserved : MapState) (items : list (Z * Bitmap2D)) (m : MapState) : py MapState :=
  match items with
  | [] => Ret m
  | (l2_idx, cells) :: items' =>
      let! l1_idx := _get_l2_affinity_manager c l2_idx in
      let! grid := ms_get l1_idx reserved in
      let! both := grid_and cells grid in
      let! m' := ms_set l2_idx both m in
      reserved_part c reserved items' m'
  end.

(** Step 5: the buffers of the cells that the second plan dropped. *)
Definition discard_dropped (tag : string) (objs : dict ObjectKey oid) (p : Z * Bitmap2D) : RH (dict ObjectKey oid) :=
  let '(l2_idx, cells) := p in
  let^ s := h_get in
  let^ keys := h_lift (_gather_keys (rq_groups s.2) cells) in
  match keys with
  | [] => h_ret objs
  | _ =>
      let^ l1_idx := h_lift (_get_l2_affinity_manager s.1 l2_idx) in
      let^ _ := on_world (pf_discard l1_idx keys tag) in
      let^ grid := h_lift (ms_get l1_idx (rq_l1_reserved s.2)) in
      let^ rest := h_lift (grid_isub grid cells) in
      let^ reserved := h_lift (ms_set l1_idx rest (rq_l1_reserved s.2)) in
      let^ _ := on_req (set_l1_reserved reserved) in
      h_ret (drop_objs keys objs)
  end.

(** One adapter of [_submit_load_tasks]. *)
Definition submit_load (objs : dict ObjectKey oid) (p : Z * Bitmap2D) : RH unit :=
  let '(l2_idx, cells) := p in
  let^ s := h_get in
  let^ keys := h_lift (_gather_keys (rq_groups s.2) cells) in
  match keys with
  | [] => h_ret tt
  | _ =>
      let^ objects := h_lift (lookup_all objs keys) in
      let^ task_id := on_world (pf_submit_load l2_idx keys objects) in
      let^ _ := on_req (λ q, set_tasks (rq_lookups q) (dset l2_idx task_id (rq_loads q)) q) in
      (* self._adapter_descriptors[l2_idx].type_name *)
      match dget l2_idx (pc_descs s.1) with None => h_raise KeyError | Some _ => h_ret tt end
  end.

Definition _submit_load_tasks (objs : dict ObjectKey oid) : RH unit :=
  let^ s := h_get in h_iter (submit_load objs) (ms_state (rq_l2_locked s.2)).

Fixpoint eligible_descs (c : PC) (q : Req) (descs : dict Z D2) : py (dict Z D2) :=
  match descs with
  | [] => Ret []
  | (l2_idx, desc) :: descs' =>
      let! ok := _is_l2_eligible c q l2_idx in
      let! rest := eligible_descs c q descs' in
      Ret (if ok : bool then (l2_idx, desc) :: rest else rest)
  end.

(** Steps 4 and 5, when some reservation failed. *)
Definition replan (tag : string) (active : dict Z D2) (objs : dict ObjectKey oid) : RH (dict ObjectKey oid) :=
  let^ s := h_get in
  let q := s.2 in
  let^ l2_new := h_lift (reserved_part s.1 (rq_l1_reserved q) (ms_state (rq_l2_locked q)) ms_empty) in
  let^ to_unlock := h_lift (ms_sub (rq_l2_locked q) l2_new) in
  let^ _ := on_world (h_iter (λ p, unlock_cells (rq_groups q) p.1 p.2) (ms_state to_unlock)) in
  let^ _ := on_req (set_l2_locked l2_new) in
  let^ l2_dropped := _plan_load active in
  h_fold (discard_dropped tag) objs (ms_state l2_dropped).

Definition _transition_to_load_phase : RH unit :=
  let^ s := h_get in
  let^ active := h_lift (eligible_descs s.1 s.2 (pc_descs s.1)) in
  let^ _ := _plan_load active in
  let^ s := h_get in
  let q := s.2 in
  let tag := _get_prefetch_write_tag (rq_id q) in
  let^ plans := h_lift (_build_l1_allocation_plans s.1 q) in
  let^ a := on_world (h_fold (reserve_manager (rq_groups q) plans.2 tag) (mkLoad ms_empty [] 0) plans.1) in
  let^ a := match rq_policy q with
            | full => if 0 <? ld_failed a then on_world (trim_columns (rq_groups q) tag a) else h_ret a
            | prefix => h_ret a
            end in
  let^ _ := on_req (set_l1_reserved (ld_reserved a)) in
  let^ objs := if 0 <? ld_failed a then replan tag active (ld_objs a) else h_ret (ld_objs a) in
  _submit_load_tasks objs.

(** The updates of the request that follow a finished load, each visible when a
    later one raises. *)
Definition record_load (adapter_idx l1_idx : Z) (planned loaded : Bitmap2D) : RH unit :=
  let^ s := h_get in
  let^ l1_grid := h_lift (match dget l1_idx (ms_state (rq_l1_locked s.2)) with
                          | Some g => grid_iadd g loaded
                          | None => Ret loaded
                          end) in
  let^ l1_locked := h_lift (ms_set l1_idx l1_grid (rq_l1_locked s.2)) in
  let^ _ := on_req (set_l1_locked l1_locked) in
  let^ s := h_get in
  let^ all_loaded := h_lift (match rq_loaded s.2 with [] => Ret loaded | g => grid_iadd g loaded end) in
  let^ _ := on_req (λ q, set_found (rq_l2_found q) all_loaded q) in
  let^ s := h_get in
  let^ buffers := h_lift (ms_get l1_idx (rq_l1_reserved s.2)) in
  let^ rest := h_lift (grid_isub buffers planned) in
  let^ l1_reserved := h_lift (ms_set l1_idx rest (rq_l1_reserved s.2)) in
  let^ _ := on_req (set_l1_reserved l1_reserved) in
  let^ s := h_get in
  let^ l2_locked := h_lift (ms_del adapter_idx (rq_l2_locked s.2)) in
  let^ _ := on_req (set_l2_locked l2_locked) in
  on_req (λ q, set_tasks (rq_lookups q) (ddel adapter_idx (rq_loads q)) q).

(** One adapter of [_poll_load_results]. *)
Definition poll_load (signaled : list Z) (task : Z * Z) : RH unit :=
  let '(adapter_idx, task_id) := task in
  if negb (bool_decide (adapter_idx ∈ signaled)) then h_ret tt
  else
    let^ result := on_world (pf_query_load adapter_idx task_id) in
    match result with
    | None => h_ret tt
    | Some b =>
        let^ s := h_get in
        let '(c, q) := s in
        let groups := rq_groups q in
        let tag := _get_prefetch_write_tag (rq_id q) in
        let^ planned := h_lift (ms_get adapter_idx (rq_l2_locked q)) in
        let^ loaded := h_lift (_scatter_bitmaps planned b) in
        let^ failed := h_lift (grid_sub planned loaded) in
        let^ l1_idx := h_lift (_get_l2_affinity_manager c adapter_idx) in
        let^ _ := h_lift (match dget l1_idx (w_l1 (pc_world c)) with Some _ => Ret tt | None => Raise KeyError end) in
        let^ _ := h_lift (_gather_keys groups loaded) in
        let^ _ := h_lift (_gather_keys groups failed) in
        let^ _ := on_world (admit_cells groups tag l1_idx loaded) in
        let^ _ := on_world (discard_cells groups tag l1_idx failed) in
        let^ keys := h_lift (_gather_keys groups planned) in
        let^ _ := on_world (pf_submit_unlock adapter_idx keys) in
        let^ _ := record_load adapter_idx l1_idx planned loaded in
        match dget adapter_idx (pc_descs c) with None => h_raise KeyError | Some _ => h_ret tt end
    end.

Definition _poll_load_results (signaled : list Z) : RH unit :=
  let^ s := h_get in h_iter (poll_load signaled) (rq_loads s.2).

(** *** Finishing *)

Definition _publish_result (result : PrefetchResult) : RH unit :=
  let^ s := h_get in on_ctl (λ c, set_results (dset (rq_id s.2) result (pc_results c)) c).

Definition _retire_request : RH unit :=
  let^ s := h_get in on_ctl (λ c, set_table (ddel (rq_id s.2) (pc_in_flight c)) c).

(** The log entries of the cells whose read locks the client keeps. *)
Definition hand_over (groups : list GroupedObjectKeys) (l1_idx : Z) (cells : Bitmap2D) : handler W unit :=
  let^ rows := h_lift (_gather_keys_by_row groups cells) in
  h_modify (λ w, mkWorld (w_l1 w) (w_l2 w) (w_log w ++ (rows ≫= λ row : GroupedObjectKeys * list ObjectKey,
    (λ k, ReadHanded l1_idx k (gk_num_kv_readers row.1)) <$> row.2))).

(** One manager of the loop in [_finish_request]: release what is not kept and
    touch the hits. What is locked and not released is the client's. *)
Definition settle_manager (groups : list GroupedObjectKeys) (mode : PrefetchLockMode) (hits : Bitmap2D)
    (p : Z * Bitmap2D) : handler W unit :=
  let '(l1_idx, locked) := p in
  let^ release := h_lift (match mode with NO_LOCK => Ret locked | LOCK => grid_sub locked hits end) in
  let^ _ := release_cells groups l1_idx release in
  let^ kept := h_lift (grid_and locked hits) in
  let^ hit_keys := h_lift (_gather_keys groups kept) in
  let^ _ := match hit_keys with [] => h_ret tt | _ => pf_touch_keys l1_idx hit_keys end in
  match mode with NO_LOCK => h_ret tt | LOCK => hand_over groups l1_idx kept end.

Fixpoint owners_loop (w : W) (groups : list GroupedObjectKeys) (hits : Bitmap2D) (items : list (Z * Bitmap2D))
    (owners : dict ObjectKey Z) : py (dict ObjectKey Z) :=
  match items with
  | [] => Ret owners
  | (idx, locked) :: items' =>
      let! kept := grid_and locked hits in
      let! keys := _gather_keys groups kept in
      match dget idx (w_l1 w), keys with
      | Some m, _ => owners_loop w groups hits items' (foldl (λ d k, dset k (tier_id m) d) owners keys)
      | None, [] => owners_loop w groups hits items' owners
      | None, _ => Raise KeyError
      end
  end.

(** [found] and [hit_cells] of a request. A task spec admits the two fetching
    policies only, so the code's last [else] branch is never taken. *)
Definition final_hits (q : Req) : py (Bitmap2D * Bitmap2D) :=
  let! merged := merge (rq_l1_locked q) in
  let! found := match merged with
                | [] => grid_zeros (Z.of_nat (length (rq_groups q))) (Z.of_nat (num_chunks_of (rq_groups q)))
                | _ => Ret merged
                end in
  let! r := fold_unfold_grouped kernels found (gk_sliding_window_size <$> rq_groups q) in
  let! hits := match rq_policy q with
               | prefix => let! keep := new_grid r.2 in grid_and keep found
               | full => let! rows := all_grouped found in new_grid rows
               end in
  Ret (found, hits).

Definition _finish_request : RH unit :=
  let^ s := h_get in
  let q := s.2 in
  let^ fh := h_lift (final_hits q) in
  let '(found, hits) := fh in
  let^ _ := on_world (h_iter (settle_manager (rq_groups q) (rq_lock_mode q) hits) (ms_state (rq_l1_locked q))) in
  let^ l2_hits := h_lift (match rq_loaded q with [] => zeros_like hits | loaded => grid_and hits loaded end) in
  let^ l1_hits := h_lift (grid_sub hits l2_hits) in
  let^ all_found := h_lift (match rq_policy q with
                            | full => match rq_l2_found q with
                                      | Some g => let! f := grid_add found g in Ret (Some f)
                                      | None => Ret (Some found)
                                      end
                            | prefix => Ret None
                            end) in
  let^ s := h_get in
  let^ owners := h_lift (match rq_lock_mode q with
                         | LOCK => owners_loop (pc_world s.1) (rq_groups q) hits (ms_state (rq_l1_locked q)) []
                         | NO_LOCK => Ret []
                         end) in
  _publish_result (mkResult hits l1_hits l2_hits all_found owners).

Definition _abort_request : RH unit :=
  let^ _ := _release_all_locks in
  let^ s := h_get in
  let^ empty := h_lift (grid_zeros (Z.of_nat (length (rq_groups s.2))) (Z.of_nat (num_chunks_of (rq_groups s.2)))) in
  let^ zeros := h_lift (zeros_like empty) in
  let^ _ := _publish_result (mkResult empty zeros zeros None []) in
  _retire_request.

Definition _advance_request (lookup_signaled load_signaled : list Z) : RH unit :=
  let^ s := h_get in
  let^ proceed :=
    match phase s.2 with
    | LOOKUP =>
        match lookup_signaled with
        | [] => h_ret false
        | _ =>
            let^ _ := _poll_lookup_results lookup_signaled in
            let^ s := h_get in
            let^ _ := if all_lookups_done s.2 then _transition_to_load_phase else h_ret tt in
            h_ret true
        end
    | PLAN_AND_LOAD =>
        match load_signaled with
        | [] => h_ret false
        | _ => let^ _ := _poll_load_results load_signaled in h_ret true
        end
    end in
  let^ s := h_get in
  if (proceed : bool) && all_lookups_done s.2 && all_loads_done s.2 then
    let^ _ := _finish_request in _retire_request
  else h_ret tt.

(** ** The loop and its clients *)

(** Run a method on a request; its entry in the table follows. *)
Definition run_on {X} (q : Req) (h : RH X) : handler PC X :=
  λ c, let '(r, (c', q')) := h (c, q) in
       (r, if dmem (rq_id q') (pc_in_flight c') then set_table (dset (rq_id q') q' (pc_in_flight c')) c' else c').

(** The eligible adapters of [_start_lookup_phase]. *)
Fixpoint eligible_adapters (c : PC) (q : Req) (adapters : list Z) : py (list Z) :=
  match adapters with
  | [] => Ret []
  | idx :: adapters' =>
      let! ok := _is_l2_eligible c q idx in
      let! rest := eligible_adapters c q adapters' in
      Ret (if ok : bool then idx :: rest else rest)
  end.

Definition serve_from_l1 : RH unit := let^ _ := _plan_load [] in _finish_request.

Definition submit_lookup (l2_idx : Z) : RH unit :=
  let^ s := h_get in
  let^ task_id := on_world (pf_submit_lookup l2_idx (get_flattened_keys s.2) (group_layout_descs (rq_groups s.2))) in
  on_req (λ q, set_tasks (dset l2_idx task_id (rq_lookups q)) (rq_loads q) q).

Definition start_lookups : RH unit :=
  let^ _ := _lock_l1_keys in
  let^ s := h_get in
  let^ active := h_lift (eligible_adapters s.1 s.2 (dkeys (w_l2 (pc_world s.1)))) in
  let^ alone := match active with
                | [] => h_ret true
                | _ => let^ needed := h_lift (_needs_l2_lookup kernels (rq_groups s.2) (rq_l1_locked s.2) (rq_policy s.2)) in
                       h_ret (negb needed)
                end in
  if (alone : bool) then let^ _ := serve_from_l1 in _retire_request
  else h_iter submit_lookup active.

(** [_start_lookup_phase], and the abort of a registered request when it
    raises, as [_start_pending_requests] does. *)
Definition start_request (item : Z * PrefetchTaskSpec T) : handler PC unit :=
  λ c, match _build_request item.1 item.2 with
       | Raise _ => (Ret tt, c)
       | Ret q =>
           run_on q (h_catch start_lookups
             (let^ s := h_get in if dmem (rq_id q) (pc_in_flight s.1) then _abort_request else h_ret tt))
             (set_table (dset item.1 q (pc_in_flight c)) c)
       end.

(** [staged_bytes >= watermark * total_bytes]. *)
Definition num_ge (a b : num) : bool :=
  match a, b with
  | NInt x, NFloat g => match cmp_int_float x g with Some Lt => false | Some _ => true | None => false end
  | _, _ => negb (num_lt a b)
  end.

Fixpoint admit_loop (c : PC) (lookup_bytes request_bytes : Z) (targets : list Z) : py bool :=
  match targets with
  | [] => Ret true
  | l1_idx :: targets' =>
      match dget l1_idx (w_l1 (pc_world c)) with
      | None => Raise KeyError
      | Some m =>
          let '(used, total) := tier_memory_usage m in
          let staged := tier_staging_usage m + lookup_bytes in
          let! threshold := f_scale (pc_watermark c) total in
          if num_ge (NInt staged) (NFloat threshold) then Ret false
          else if total - used - lookup_bytes <? request_bytes then Ret false
          else admit_loop c lookup_bytes request_bytes targets'
      end
  end.

Fixpoint affinities (c : PC) (adapters : list Z) : py (list Z) :=
  match adapters with
  | [] => Ret []
  | idx :: adapters' =>
      if dmem idx (pc_draining c) then affinities c adapters'
      else let! l1_idx := _get_l2_affinity_manager c idx in
           let! rest := affinities c adapters' in Ret (oset_set l1_idx rest)
  end.

Definition _can_admit_new_prefetch (c : PC) (spec : PrefetchTaskSpec T) : py bool :=
  match pc_in_flight c with
  | [] => Ret true
  | _ =>
      let! request_bytes := _get_max_load_bytes (sp_key_groups spec) in
      let lookup_bytes := zsum (λ q : Req, match phase q with LOOKUP => rq_max_load_bytes q | PLAN_AND_LOAD => 0 end)
                            (dvalues (pc_in_flight c)) in
      let! targets := affinities c (dkeys (w_l2 (pc_world c))) in
      admit_loop c lookup_bytes request_bytes targets
  end.

(** The loop of [_start_pending_requests]; an exception of the admission test is
    logged by the loop around it. *)
Fixpoint start_pending (queue : list (Z * PrefetchTaskSpec T)) : handler PC unit :=
  λ c, match queue with
       | [] => (Ret tt, c)
       | item :: queue' =>
           match _can_admit_new_prefetch c item.2 with
           | Raise e => (Raise e, c)
           | Ret false => (Ret tt, c)
           | Ret true =>
               match start_request item (set_queues queue' (pc_submitted c) (pc_next c) c) with
               | (Ret _, c') => start_pending queue' c'
               | (Raise e, c') => (Raise e, c')
               end
           end
       end.

Definition _start_pending_requests : handler PC unit := λ c, start_pending (pc_pending c) c.

Definition _drain_submission_queue : handler PC unit :=
  h_modify (λ c, set_queues (pc_pending c ++ pc_submitted c) [] (pc_next c) c).

(** The requests in flight, in turn: one that raises is aborted. *)
Definition advance_all (lookup_signaled load_signaled : list Z) : handler PC unit :=
  λ c, h_iter (λ t : Z * Req, run_on t.2 (h_catch (_advance_request lookup_signaled load_signaled) _abort_request))
         (pc_in_flight c) c.

(** *** Adapters added and removed at runtime *)

Definition apply_op (op : pf_op A D2) : handler PC unit :=
  match op with
  | PfAdd id adapter descriptor done =>
      let^ c := h_get in
      let^ l1_idx := h_lift (resolve_l1_affinity (wanted_l1_memory_tags descriptor) (w_l1 (pc_world c))) in
      h_modify (λ c, set_adapters (mkWorld (w_l1 (pc_world c)) (dset id adapter (w_l2 (pc_world c))) (w_log (pc_world c)))
                       (dset id descriptor (pc_descs c)) (dset id l1_idx (pc_affinity c)) (pc_draining c)
                       (pc_done c ++ [done]) c)
  | PfRemove id done =>
      h_modify (λ c, if dmem id (w_l2 (pc_world c))
                     then set_adapters (pc_world c) (pc_descs c) (pc_affinity c) (dset id done (pc_draining c)) (pc_done c) c
                     else set_adapters (pc_world c) (pc_descs c) (pc_affinity c) (pc_draining c) (pc_done c ++ [done]) c)
  end.

Definition _apply_pending_adapter_ops : handler PC unit :=
  let^ c := h_get in
  let^ _ := h_modify (set_ops []) in
  h_iter apply_op (pc_ops c).

Definition _adapter_in_use (adapter_id : Z) (c : PC) : bool :=
  existsb (λ t : Z * Req, dmem adapter_id (rq_lookups t.2) || dmem adapter_id (rq_loads t.2)
                          || dmem adapter_id (ms_state (rq_l2_locked t.2))) (pc_in_flight c).

Definition finalize_one (adapter_id : Z) : handler PC unit :=
  let^ c := h_get in
  if _adapter_in_use adapter_id c then h_ret tt
  else if negb (dmem adapter_id (w_l2 (pc_world c))) then h_raise KeyError
  else h_modify (λ c, set_adapters
         (mkWorld (w_l1 (pc_world c)) (ddel adapter_id (w_l2 (pc_world c))) (w_log (pc_world c)))
         (ddel adapter_id (pc_descs c)) (ddel adapter_id (pc_affinity c)) (ddel adapter_id (pc_draining c))
         (pc_done c ++ match dget adapter_id (pc_draining c) with Some d => [d] | None => [] end) c).

Definition _finalize_drained_adapters : handler PC unit :=
  let^ c := h_get in h_iter finalize_one (dkeys (pc_draining c)).

(** One turn of [_prefetch_loop]. *)
Inductive pf_ready := SubmissionFd | LookupFd (adapter_idx : Z) | LoadFd (adapter_idx : Z).

Definition pf_logged (h : handler PC unit) : handler PC unit := λ c, (Ret tt, (h c).2).
Definition pf_signaled (lookup : bool) (ready : list pf_ready) : list Z :=
  foldl (λ acc fd, match fd with
                   | LookupFd i => if lookup then oset_set i acc else acc
                   | LoadFd i => if lookup then acc else oset_set i acc
                   | SubmissionFd => acc
                   end) [] ready.

Definition _prefetch_loop_turn (ready : list pf_ready) : handler PC unit :=
  let^ _ := _apply_pending_adapter_ops in
  let^ _ := h_iter (λ fd, match fd with SubmissionFd => _drain_submission_queue | _ => h_ret tt end) ready in
  let^ _ := match pf_signaled true ready, pf_signaled false ready with
            | [], [] => h_ret tt
            | lookups, loads => advance_all lookups loads
            end in
  let^ _ := pf_logged _start_pending_requests in
  _finalize_drained_adapters.

(** *** Calls from other threads, and the end *)

Definition submit_prefetch_request (spec : PrefetchTaskSpec T) : handler PC Z :=
  let^ c := h_get in
  let request_id := pc_next c in
  let^ _ := h_modify (λ c, set_queues (pc_pending c) (pc_submitted c) (pc_next c + 1) c) in
  if bool_decide (sp_l2_tags spec = Some []) || bool_decide (dkeys (w_l2 (pc_world c)) = []) then
    let^ q := h_lift (_build_request request_id spec) in
    let^ _ := run_on q (let^ _ := _lock_l1_keys in serve_from_l1) in
    h_ret request_id
  else
    let^ _ := h_modify (λ c, set_queues (pc_pending c) (pc_submitted c ++ [(request_id, spec)]) (pc_next c) c) in
    h_ret request_id.

Definition query_prefetch_result (request_id : Z) : handler PC (option PrefetchResult) :=
  λ c, (Ret (dget request_id (pc_results c)), set_results (ddel request_id (pc_results c)) c).

Definition pf_enqueue (op : pf_op A D2) (c : PC) : PC := set_ops (pc_ops c ++ [op]) c.

(** [add_adapter]: the affinity is checked on the caller's thread. *)
Definition add_adapter (id : Z) (adapter : A) (descriptor : D2) (done : Z) : handler PC unit :=
  let^ c := h_get in
  let^ _ := h_lift (resolve_l1_affinity (wanted_l1_memory_tags descriptor) (w_l1 (pc_world c))) in
  h_modify (pf_enqueue (PfAdd id adapter descriptor done)).

Definition _cleanup_in_flight_requests : handler PC unit :=
  λ c, h_iter (λ t : Z * Req, run_on t.2 (let^ _ := _release_all_locks in _retire_request)) (pc_in_flight c) c.
End controller.
