(* ===== verification/PrefetchMoves.v ===== *)
(** * What the prefetch controller's calls do to the log

    The laws of managers, adapters and policies that the controller rests on;
    how much the log of the world says is out ([net]) and how much the maps of a
    request record ([recorded]); and, for every loop over cells in
    PrefetchController.v, that it returns and by how much it moves the log:
    releasing, admitting, discarding and unlocking the cells of a grid, locking
    the keys of a request, and reserving buffers. *)

From stdpp Require Import gmap list strings relations.
From Stdlib Require Import ZArith Lia.
From S2P Require Import Prelude PyFloat TensorAllocator Keys L1Memory L1Manager L1ManagerInv L1ManagerOps Bitmap Fold Grid PrefetchPolicy Cells Handler PrefetchController.

Open Scope Z_scope.
Open Scope handler_scope.

(** ** Laws *)

(** In a consistent state the calls of an L1 manager return, answer for every
    key they are given, and leave it consistent. *)
Class L1TierLaws (S T : Type) `{L1Tier S T} := {
  tier_ok : S → Prop;
  tier_reserve_read_ok : ∀ keys n s, tier_ok s →
    ∃ r s', tier_reserve_read keys n s = (Ret r, s') ∧ tier_ok s' ∧ NoDup (dkeys r) ∧ ∀ k, k ∈ dkeys r ↔ k ∈ keys;
  tier_finish_read_ok : ∀ keys n s, tier_ok s → ∃ r s', tier_finish_read keys n s = (Ret r, s') ∧ tier_ok s';
  tier_reserve_write_ok : ∀ keys temps layout tag s,
    tier_ok s → NoDup keys → length keys = length temps → layout_ok layout →
    ∃ r s', tier_reserve_write keys temps layout tag s = (Ret r, s') ∧ tier_ok s' ∧
      ∀ k, k ∈ keys → ∃ e o, dget k r = Some (e, o) ∧ (e = SUCCESS → is_Some o);
  tier_admit_ok : ∀ keys n tag s, tier_ok s →
    ∃ r s', tier_finish_write_and_reserve_read keys n tag s = (Ret r, s') ∧ tier_ok s';
  tier_discard_ok : ∀ keys tag s, tier_ok s →
    ∃ r s', tier_finish_write_and_delete keys tag s = (Ret r, s') ∧ tier_ok s';
  tier_touch_ok : ∀ keys s, tier_ok s → ∃ s', tier_touch_keys keys s = (Ret tt, s') ∧ tier_ok s'
}.

(** In a consistent state [submit_unlock] succeeds, the bitmaps an adapter
    answers with are well formed, and the calls leave it consistent. *)
Class L2PrefetchLaws (A T : Type) `{L2Prefetch A T} := {
  l2_ok : A → Prop;
  l2_unlock_ok : ∀ keys a, l2_ok a → ∃ a', l2_submit_unlock keys a = (Ret tt, a') ∧ l2_ok a';
  l2_submit_lookup_ok : ∀ keys layouts a, l2_ok a → l2_ok (l2_submit_lookup keys layouts a).2;
  l2_query_lookup_ok : ∀ id a, l2_ok a → l2_ok (l2_query_lookup id a).2;
  l2_submit_load_ok : ∀ keys objs a, l2_ok a → l2_ok (l2_submit_load keys objs a).2;
  l2_query_load_ok : ∀ id a, l2_ok a → l2_ok (l2_query_load id a).2;
  l2_lookup_wf : ∀ id a b a', l2_ok a → l2_query_lookup id a = (Ret (Some b), a') → bm_wf b;
  l2_load_wf : ∀ id a b a', l2_ok a → l2_query_load id a = (Ret (Some b), a') → bm_wf b
}.

(** A plan takes cells from where they are locked, each at most once. *)
Record plan_ok (r c : nat) (l1 l2 : MapState) (plan : PrefetchPlan) : Prop := {
  po_fits1 : fits r c (l1_planned_keys plan);
  po_fits2 : fits r c (l2_planned_keys plan);
  po_l1 : ∀ idx i j, locked (l1_planned_keys plan) idx i j = true → locked l1 idx i j = true;
  po_l2 : ∀ idx i j, locked (l2_planned_keys plan) idx i j = true → locked l2 idx i j = true;
  po_keys1 : ∀ idx, idx ∈ dkeys (ms_state (l1_planned_keys plan)) → idx ∈ dkeys (ms_state l1);
  po_keys2 : ∀ idx, idx ∈ dkeys (ms_state (l2_planned_keys plan)) → idx ∈ dkeys (ms_state l2);
  po_once1 : ∀ a b i j, locked (l1_planned_keys plan) a i j = true → locked (l1_planned_keys plan) b i j = true → a = b;
  po_once2 : ∀ a b i j, locked (l2_planned_keys plan) a i j = true → locked (l2_planned_keys plan) b i j = true → a = b;
  po_once : ∀ a b i j, locked (l1_planned_keys plan) a i j = true → locked (l2_planned_keys plan) b i j = false
}.

(** A request that [fold] can work on. *)
Definition windows_ok (groups : list GroupedObjectKeys) : Prop :=
  Forall fits_int64 (windows_of groups) ∧ Z.of_nat (num_chunks_of groups) < 2 ^ 64.

Class PrefetchPolicyLaws (P D1 D2 : Type) `{PrefetchPolicy P D1 D2} := {
  policy_wf : P → Prop;
  policy_plan_ok : ∀ groups l1 l2 d1 d2 fp p,
    policy_wf p → groups ≠ [] → windows_ok groups → NoDup (dkeys d1) → NoDup (dkeys d2) →
    fits (length groups) (num_chunks_of groups) l1 → fits (length groups) (num_chunks_of groups) l2 →
    ∃ plan, policy_plan_load groups l1 l2 d1 d2 fp p = Ret plan ∧
      plan_ok (length groups) (num_chunks_of groups) l1 l2 plan;
  policy_retention_ok : ∀ keys d1 d2 p, length (policy_l1_retention keys d1 d2 p) = length keys
}.

(** ** The log *)

Inductive kind :=
  | KRead (l1_idx : Z) (key : ObjectKey)
  | KStage (l1_idx : Z) (key : ObjectKey) (tag : string)
  | KLock2 (l2_idx : Z) (key : ObjectKey).

Definition weight (k : kind) (e : pf_event) : Z :=
  match k, e with
  | KRead i x, (ReadLocked j y n | ReadRefused j y n) => if decide (i = j ∧ y = x) then n else 0
  | KRead i x, (ReadReleased j y n | ReadHanded j y n) => if decide (i = j ∧ y = x) then - n else 0
  | KStage i x t, Staged j y u => if decide (i = j ∧ y = x ∧ t = u) then 1 else 0
  | KStage i x t, Unstaged j y u => if decide (i = j ∧ y = x ∧ t = u) then - 1 else 0
  | KLock2 i x, L2Locked j y => if decide (i = j ∧ y = x) then 1 else 0
  | KLock2 i x, L2Unlocked j y => if decide (i = j ∧ y = x) then - 1 else 0
  | _, _ => 0
  end.

(** What the controller takes to be out after a log: granted and recorded as
    admitted, less returned and handed over. *)
Definition net (k : kind) (log : list pf_event) : Z := zsum (weight k) log.

(** Of this, what is out of what was granted, and what was only recorded: the
    read locks of loads that the manager did not admit. *)
Definition is_refusal (e : pf_event) : bool := match e with ReadRefused _ _ _ => true | _ => false end.
Definition net_granted (k : kind) (log : list pf_event) : Z := zsum (λ e, if is_refusal e then 0 else weight k e) log.
Definition net_refused (k : kind) (log : list pf_event) : Z := zsum (λ e, if is_refusal e then weight k e else 0) log.

Lemma net_split k log : net k log = net_granted k log + net_refused k log.
Proof. unfold net, net_granted, net_refused. induction log as [|e log IH]; [done|]. rewrite !zsum_cons, IH. destruct (is_refusal e); lia. Qed.

Lemma refused_reads k log : (∀ i x, k ≠ KRead i x) → net_refused k log = 0.
Proof. intros Hk. apply zsum_zero. intros e _. destruct k as [i x| |]; [by destruct (Hk i x)|by destruct e..]. Qed.

(** What a grid of one manager or adapter stands for. *)
Definition d_read (groups : list GroupedObjectKeys) (idx : Z) (f : nat → nat → bool) (k : kind) : Z :=
  match k with KRead i x => if decide (i = idx) then cells_sum groups gk_num_kv_readers f x else 0 | _ => 0 end.
Definition d_stage (groups : list GroupedObjectKeys) (tag : string) (idx : Z) (f : nat → nat → bool) (k : kind) : Z :=
  match k with KStage i x t => if decide (i = idx ∧ t = tag) then cells_sum groups (λ _, 1) f x else 0 | _ => 0 end.
Definition d_lock2 (groups : list GroupedObjectKeys) (idx : Z) (f : nat → nat → bool) (k : kind) : Z :=
  match k with KLock2 i x => if decide (i = idx) then cells_sum groups (λ _, 1) f x else 0 | _ => 0 end.

(** What a map stands for. *)
Definition m_read (groups : list GroupedObjectKeys) (m : MapState) (k : kind) : Z :=
  match k with KRead i x => cells_sum groups gk_num_kv_readers (locked m i) x | _ => 0 end.
Definition m_stage (groups : list GroupedObjectKeys) (tag : string) (m : MapState) (k : kind) : Z :=
  match k with KStage i x t => if decide (t = tag) then cells_sum groups (λ _, 1) (locked m i) x else 0 | _ => 0 end.
Definition m_lock2 (groups : list GroupedObjectKeys) (m : MapState) (k : kind) : Z :=
  match k with KLock2 i x => cells_sum groups (λ _, 1) (locked m i) x | _ => 0 end.

(** What a request records. *)
Definition recorded {T} (q : Request T) (k : kind) : Z :=
  m_read (rq_groups q) (rq_l1_locked q) k + m_stage (rq_groups q) (_get_prefetch_write_tag (rq_id q)) (rq_l1_reserved q) k
  + m_lock2 (rq_groups q) (rq_l2_locked q) k.

(** Sums over the items of a map, item by item. *)
Definition items_sum (d : Z → (nat → nat → bool) → kind → Z) (items : list (Z * Bitmap2D)) (k : kind) : Z :=
  zsum (λ p : Z * Bitmap2D, d p.1 (cell p.2) k) items.

Lemma cells_sum_items groups wt (items : dict Z Bitmap2D) i x :
  NoDup (dkeys items) →
  zsum (λ p : Z * Bitmap2D, if decide (i = p.1) then cells_sum groups wt (cell p.2) x else 0) items
  = cells_sum groups wt (λ a b, match dget i items with Some g => cell g a b | None => false end) x.
Proof.
  induction items as [|[idx g] items IH]; intros Hnd.
  { symmetry. by apply cells_sum_false. }
  change (dkeys ((idx, g) :: items)) with (idx :: dkeys items) in Hnd. apply NoDup_cons in Hnd as [Hni Hnd].
  rewrite zsum_cons, (IH Hnd). cbn [fst snd dget]. destruct (decide (i = idx)) as [->|Hne].
  - rewrite decide_True by done. apply dget_None in Hni. rewrite Hni.
    rewrite (cells_sum_false groups wt (λ _ _, false)) by done. by rewrite Z.add_0_r.
  - rewrite decide_False by congruence. done.
Qed.

Lemma items_sum_read groups (m : MapState) k :
  NoDup (dkeys (ms_state m)) → items_sum (d_read groups) (ms_state m) k = m_read groups m k.
Proof. intros Hnd. destruct k; [apply (cells_sum_items groups), Hnd|by apply zsum_zero..]. Qed.

Lemma items_sum_stage groups tag (m : MapState) k :
  NoDup (dkeys (ms_state m)) → items_sum (d_stage groups tag) (ms_state m) k = m_stage groups tag m k.
Proof.
  intros Hnd. destruct k as [|i x t|]; [by apply zsum_zero| |by apply zsum_zero]. cbn. destruct (decide (t = tag)) as [->|Hne].
  - etrans; [|exact (cells_sum_items groups (λ _, 1) (ms_state m) i x Hnd)]. apply zsum_ext. intros [idx g] _. cbn.
    destruct (decide (i = idx)); [by rewrite decide_True|]. rewrite decide_False; [done|]. by intros [? _].
  - apply zsum_zero. intros [idx g] _. cbn. rewrite decide_False; [done|]. by intros [_ ?].
Qed.

Lemma items_sum_lock2 groups (m : MapState) k :
  NoDup (dkeys (ms_state m)) → items_sum (d_lock2 groups) (ms_state m) k = m_lock2 groups m k.
Proof. intros Hnd. destruct k; [by apply zsum_zero..|apply (cells_sum_items groups), Hnd]. Qed.

(** ** What calls do to the world *)


Section world.
Context {S A T : Type} {IL : L1Tier S T} {LL : L1TierLaws S T} {IA : L2Prefetch A T} {LA : L2PrefetchLaws A T}.

#[local] Abbreviation W := (World S A).

Definition world_ok (w : W) : Prop :=
  (∀ idx s, dget idx (w_l1 w) = Some s → tier_ok s) ∧ (∀ idx a, dget idx (w_l2 w) = Some a → l2_ok a).

(** A change of the world that moves the log by [delta]. *)
Record moved (delta : kind → Z) (w w' : W) : Prop := {
  mv_ok : world_ok w';
  mv_l1 : dkeys (w_l1 w') = dkeys (w_l1 w);
  mv_l2 : dkeys (w_l2 w') = dkeys (w_l2 w);
  mv_net : ∀ k, net k (w_log w') = net k (w_log w) + delta k
}.

Lemma moved_refl w : world_ok w → moved (λ _, 0) w w.
Proof. intros Hw. split; [done..|]. intros k. lia. Qed.

Lemma moved_trans d1 d2 d w1 w2 w3 :
  moved d1 w1 w2 → moved d2 w2 w3 → (∀ k, d k = d1 k + d2 k) → moved d w1 w3.
Proof.
  intros [O1 A1 B1 N1] [O2 A2 B2 N2] Hd. split; [done|congruence..|]. intros k. rewrite N2, N1, Hd. lia.
Qed.

Lemma moved_ext d d' w w' : moved d w w' → (∀ k, d k = d' k) → moved d' w w'.
Proof. intros [O1 A1 B1 N1] Hd. split; [done..|]. intros k. by rewrite N1, Hd. Qed.

Lemma net_app k l1 l2 : net k (l1 ++ l2) = net k l1 + net k l2.
Proof. apply zsum_app. Qed.

(** The world returns and moves as said. *)
Definition moves {X} (h : handler W X) (delta : kind → Z) (w : W) : Prop :=
  hwp h (λ _ w', moved delta w w') (λ _, False) w.

Lemma on_l1_moves {X} idx (call : S → py X * S) ev w (Q : X → Prop) :
  world_ok w → idx ∈ dkeys (w_l1 w) →
  (∀ s, tier_ok s → ∃ x s', call s = (Ret x, s') ∧ tier_ok s' ∧ Q x) →
  hwp (on_l1 idx call ev) (λ x w', moved (λ k, net k (ev x)) w w' ∧ Q x) (λ _, False) w.
Proof.
  intros Hw Hidx Hc. apply dget_is_Some in Hidx as [s Es]. unfold hwp, on_l1. rewrite Es.
  destruct (Hc s (proj1 Hw idx s Es)) as (x & s' & -> & Hs' & HQ). split; [|done]. split; cbn [w_l1 w_l2 w_log].
  - split; [|apply Hw]. intros i t. cbn [w_l1]. rewrite dget_dset. case_decide; [by intros [= <-]|apply Hw].
  - by eapply dkeys_dset_in.
  - done.
  - intros k. by rewrite net_app.
Qed.

Lemma set_l2_ok idx a l log w : world_ok w → l2_ok a → l = w_l1 w → world_ok (mkWorld l (dset idx a (w_l2 w)) log).
Proof.
  intros [H1 H2] Ha ->. split; cbn [w_l1 w_l2]; [done|]. intros i x. rewrite dget_dset. case_decide; [by intros [= <-]|apply H2].
Qed.

Lemma on_l2_moves {X} idx (call : A → py X * A) ev w :
  world_ok w → (∀ a, l2_ok a → l2_ok (call a).2) →
  hwp (on_l2 idx call ev) (λ x w', moved (λ k, net k (ev x)) w w' ∧ ∃ a a', l2_ok a ∧ call a = (Ret x, a'))
    (λ w', moved (λ _, 0) w w') w.
Proof.
  intros Hw Hc. unfold hwp, on_l2. destruct (dget idx (w_l2 w)) as [a|] eqn:Ea; [|by apply moved_refl].
  pose proof (proj2 Hw idx a Ea) as Ha. specialize (Hc a Ha). destruct (call a) as [[x|e] a'] eqn:Ec.
  - split; [|by eauto]. split; cbn [w_l1 w_l2 w_log]; [by apply set_l2_ok|done|by eapply dkeys_dset_in|]. intros k. by rewrite net_app.
  - split; cbn [w_l1 w_l2 w_log]; [by apply set_l2_ok|done|by eapply dkeys_dset_in|]. intros k. lia.
Qed.

(** The sums of the events of a list of keys. *)
Lemma net_fmap k (f : ObjectKey → pf_event) keys : net k (f <$> keys) = zsum (λ x, weight k (f x)) keys.
Proof. apply zsum_fmap. Qed.

Lemma finish_read_moves idx keys n w :
  world_ok w → idx ∈ dkeys (w_l1 w) →
  moves (pf_finish_read idx keys n) (λ k, net k ((λ x, ReadReleased idx x n) <$> keys)) w.
Proof.
  intros Hw Hidx. eapply hwp_mono; [apply (on_l1_moves _ _ _ _ (λ _, True)); [done|done|]| |done].
  - intros s Hs. destruct (tier_finish_read_ok keys n s Hs) as (r & s' & ? & ?). by exists r, s'.
  - by intros x w' [? _].
Qed.

Lemma discard_moves idx keys tag w :
  world_ok w → idx ∈ dkeys (w_l1 w) →
  moves (pf_discard idx keys tag) (λ k, net k ((λ x, Unstaged idx x tag) <$> keys)) w.
Proof.
  intros Hw Hidx. eapply hwp_mono; [apply (on_l1_moves _ _ _ _ (λ _, True)); [done|done|]| |done].
  - intros s Hs. destruct (tier_discard_ok keys tag s Hs) as (r & s' & ? & ?). by exists r, s'.
  - by intros x w' [? _].
Qed.

Lemma touch_moves idx keys w : world_ok w → idx ∈ dkeys (w_l1 w) → moves (pf_touch_keys idx keys) (λ _, 0) w.
Proof.
  intros Hw Hidx. eapply hwp_mono; [apply (on_l1_moves _ _ _ _ (λ _, True)); [done|done|]| |done].
  - intros s Hs. destruct (tier_touch_ok keys s Hs) as (s' & ? & ?). by exists tt, s'.
  - by intros x w' [? _].
Qed.

Lemma unlock_moves idx keys w :
  world_ok w → idx ∈ dkeys (w_l2 w) → moves (pf_submit_unlock idx keys) (λ k, net k (L2Unlocked idx <$> keys)) w.
Proof.
  intros Hw Hidx. apply dget_is_Some in Hidx as [a Ea]. destruct (l2_unlock_ok keys a (proj2 Hw idx a Ea)) as (a' & E & Ha').
  unfold moves, pf_submit_unlock, hwp, on_l2. rewrite Ea, E. split; cbn [w_l1 w_l2 w_log]; [by apply set_l2_ok|done|by eapply dkeys_dset_in|].
  intros k. by rewrite net_app.
Qed.

Lemma iter_moves {X} (f : X → handler W unit) (d : X → kind → Z) l w :
  world_ok w →
  (∀ x w', x ∈ l → world_ok w' → dkeys (w_l1 w') = dkeys (w_l1 w) → dkeys (w_l2 w') = dkeys (w_l2 w) →
     moves (f x) (d x) w') →
  moves (h_iter f l) (λ k, zsum (λ x, d x k) l) w.
Proof.
  revert w. induction l as [|x l IH]; intros w Hw Hf; [by apply moved_refl|]. cbn [h_iter]. apply hwp_bind.
  eapply hwp_mono; [apply Hf; [left|done..]| |done]. intros [] w1 M1. eapply hwp_mono; [apply IH| |done].
  - apply M1.
  - intros y w' Hy Hw' E1 E2. apply Hf; [by right|done|by rewrite E1, (mv_l1 _ _ _ M1)|by rewrite E2, (mv_l2 _ _ _ M1)].
  - intros [] w2 M2. eapply moved_trans; [exact M1|exact M2|]. intros k. by rewrite zsum_cons.
Qed.
End world.

(** ** Keys and cells *)

(** The amount [n] per occurrence of a key. *)
Definition key_sum (n : Z) (keys : list ObjectKey) (x : ObjectKey) : Z := zsum (λ y, if bool_decide (y = x) then n else 0) keys.

Definition k_read (idx n : Z) (keys : list ObjectKey) (k : kind) : Z :=
  match k with KRead i x => if decide (i = idx) then key_sum n keys x else 0 | _ => 0 end.
Definition k_stage (tag : string) (idx : Z) (keys : list ObjectKey) (k : kind) : Z :=
  match k with KStage i x t => if decide (i = idx ∧ t = tag) then key_sum 1 keys x else 0 | _ => 0 end.
Definition k_lock2 (idx : Z) (keys : list ObjectKey) (k : kind) : Z :=
  match k with KLock2 i x => if decide (i = idx) then key_sum 1 keys x else 0 | _ => 0 end.

Lemma zsum_opp {X} (f : X → Z) l : zsum (λ x, - f x) l = - zsum f l.
Proof. induction l as [|x l IH]; [done|]. rewrite !zsum_cons, IH. lia. Qed.

Lemma zsum_guard {X} (f g : X → Z) (b : Prop) `{Decision b} l :
  (∀ x, x ∈ l → f x = if decide b then g x else 0) → zsum f l = if decide b then zsum g l else 0.
Proof. intros Hf. case_decide; [by apply zsum_ext|by apply zsum_zero]. Qed.

Lemma net_locked idx n keys k : net k ((λ x, ReadLocked idx x n) <$> keys) = k_read idx n keys k.
Proof.
  unfold net. rewrite zsum_fmap. destruct k as [i x|i x t|i x]; cbn [weight k_read]; [|by apply zsum_zero..].
  apply zsum_guard. intros y _. case_bool_decide; repeat case_decide; naive_solver.
Qed.

Lemma net_released idx n keys k : net k ((λ x, ReadReleased idx x n) <$> keys) = - k_read idx n keys k.
Proof.
  unfold net. rewrite zsum_fmap, <-net_locked. unfold net. rewrite zsum_fmap, <-zsum_opp. apply zsum_ext. intros y _.
  destruct k; cbn [weight]; try done. by case_decide.
Qed.

Lemma net_handed idx n keys k : net k ((λ x, ReadHanded idx x n) <$> keys) = - k_read idx n keys k.
Proof. rewrite <-net_released. unfold net. rewrite !zsum_fmap. by apply zsum_ext. Qed.

Lemma net_staged idx tag keys k : net k ((λ x, Staged idx x tag) <$> keys) = k_stage tag idx keys k.
Proof.
  unfold net. rewrite zsum_fmap. destruct k as [i x|i x t|i x]; cbn [weight k_stage]; [by apply zsum_zero| |by apply zsum_zero].
  apply zsum_guard. intros y _. case_bool_decide; repeat case_decide; naive_solver.
Qed.

Lemma net_unstaged idx tag keys k : net k ((λ x, Unstaged idx x tag) <$> keys) = - k_stage tag idx keys k.
Proof.
  unfold net. rewrite zsum_fmap, <-net_staged. unfold net. rewrite zsum_fmap, <-zsum_opp. apply zsum_ext. intros y _.
  destruct k; cbn [weight]; try done. by case_decide.
Qed.

Lemma net_l2_locked idx keys k : net k (L2Locked idx <$> keys) = k_lock2 idx keys k.
Proof.
  unfold net. rewrite zsum_fmap. destruct k as [i x|i x t|i x]; cbn [weight k_lock2]; [by apply zsum_zero..|].
  apply zsum_guard. intros y _. case_bool_decide; repeat case_decide; naive_solver.
Qed.

Lemma net_l2_unlocked idx keys k : net k (L2Unlocked idx <$> keys) = - k_lock2 idx keys k.
Proof.
  unfold net. rewrite zsum_fmap, <-net_l2_locked. unfold net. rewrite zsum_fmap, <-zsum_opp. apply zsum_ext. intros y _.
  destruct k; cbn [weight]; try done. by case_decide.
Qed.

(** The keys gathered from a grid, in all and row by row. *)
Definition rows_of (groups : list GroupedObjectKeys) (g : Bitmap2D) : list (GroupedObjectKeys * list ObjectKey) :=
  zip_with (λ group b, (group, gather b (gk_keys group))) groups g.

Lemma rows_key_sum r c groups g (wt : GroupedObjectKeys → Z) x :
  groups_ok r c groups → grid_ok r c g →
  zsum (λ p : GroupedObjectKeys * list ObjectKey, key_sum (wt p.1) p.2 x) (rows_of groups g) = cells_sum groups wt (cell g) x.
Proof. apply gather_rows_sum. Qed.

Lemma key_sum_app n l1 l2 x : key_sum n (l1 ++ l2) x = key_sum n l1 x + key_sum n l2 x.
Proof. apply zsum_app. Qed.

Lemma flat_key_sum r c groups g x :
  groups_ok r c groups → grid_ok r c g → key_sum 1 (rows_of groups g ≫= snd) x = cells_sum groups (λ _, 1) (cell g) x.
Proof.
  intros Hgr Hg. rewrite <-(rows_key_sum r c groups g (λ _, 1)) by done. induction (rows_of groups g) as [|p l IH]; [done|].
  by rewrite bind_cons, key_sum_app, zsum_cons, IH.
Qed.

Lemma gather_keys_run r c groups g :
  groups_ok r c groups → grid_ok r c g → _gather_keys groups g = Ret (rows_of groups g ≫= snd).
Proof. intros Hgr Hg. unfold _gather_keys. by rewrite (gather_rows_run r c). Qed.

(** ** Loops over cells *)

Section loops.
Context {S A T : Type} {IL : L1Tier S T} {LL : L1TierLaws S T} {IA : L2Prefetch A T} {LA : L2PrefetchLaws A T}.
Context (r c : nat) (groups : list GroupedObjectKeys) (Hgroups : groups_ok r c groups) (Hr : (0 < r)%nat).

#[local] Abbreviation W := (World S A).
Implicit Types w : W.

Lemma moves_ext {X} (h : handler W X) d d' w : moves h d w → (∀ k, d k = d' k) → moves h d' w.
Proof. intros Hm Hd. eapply hwp_mono; [exact Hm| |done]. intros x w' M. exact (moved_ext _ _ _ _ M Hd). Qed.

(** A row-by-row loop that makes one call per row with selected cells. *)
Lemma rows_moves (call : list ObjectKey → Z → handler W unit) (d : Z → list ObjectKey → kind → Z) rows (w : W) :
  world_ok w → (∀ n k, d n [] k = 0) →
  (∀ keys n w', world_ok w' → dkeys (w_l1 w') = dkeys (w_l1 w) → moves (call keys n) (d n keys) w') →
  moves (h_iter (λ row : GroupedObjectKeys * list ObjectKey,
           match row.2 with [] => h_ret tt | keys => call keys (gk_num_kv_readers row.1) end) rows)
    (λ k, zsum (λ p : GroupedObjectKeys * list ObjectKey, d (gk_num_kv_readers p.1) p.2 k) rows) w.
Proof.
  intros Hw H0 Hc.
  apply (iter_moves _ (λ (p : GroupedObjectKeys * list ObjectKey) k, d (gk_num_kv_readers p.1) p.2 k)); [done|].
  intros [g keys] w' _ Hw' E1 E2. cbn [fst snd]. destruct keys as [|x keys]; [|by apply Hc].
  eapply moves_ext; [apply moved_refl, Hw'|]. intros k. by rewrite H0.
Qed.

Lemma release_cells_moves idx g w :
  world_ok w → idx ∈ dkeys (w_l1 w) → grid_ok r c g →
  moves (release_cells groups idx g) (λ k, - d_read groups idx (cell g) k) w.
Proof.
  intros Hw Hidx Hg. unfold release_cells. apply hwp_bind. eapply hwp_lift; [by apply (gather_rows_run r c)|].
  eapply moves_ext.
  - apply (rows_moves (λ keys n, let^ _ := pf_finish_read idx keys n in h_ret tt) (λ n keys k, - k_read idx n keys k)); [done| |].
    + intros n k. destruct k; cbn; [|done..]. by case_decide.
    + intros keys n w' Hw' E. apply hwp_bind. eapply hwp_mono; [apply finish_read_moves; [done|by rewrite E]| |done].
      intros ? w2 M. eapply moved_ext; [exact M|]. intros k. apply net_released.
  - intros k. cbn beta. rewrite zsum_opp. f_equal. destruct k as [i x| |]; cbn; [|by apply zsum_zero..]. case_decide.
    + by apply (rows_key_sum r c).
    + by apply zsum_zero.
Qed.

Lemma admit_cells_moves tag idx g w :
  world_ok w → idx ∈ dkeys (w_l1 w) → grid_ok r c g →
  moves (admit_cells groups tag idx g) (λ k, d_read groups idx (cell g) k - d_stage groups tag idx (cell g) k) w.
Proof.
  intros Hw Hidx Hg. unfold admit_cells. apply hwp_bind. eapply hwp_lift; [by apply (gather_rows_run r c)|].
  eapply moves_ext.
  - apply (rows_moves (λ keys n, let^ _ := pf_admit idx keys n tag in h_ret tt)
      (λ n keys k, k_read idx n keys k + - k_stage tag idx keys k)); [done| |].
    + intros n k. destruct k; cbn; [by case_decide|by case_decide|done].
    + intros keys n w' Hw' E. apply hwp_bind. eapply hwp_mono.
      * apply (on_l1_moves _ _ _ _ (λ _, True)); [done|by rewrite E|].
        intros s Hs. destruct (tier_admit_ok keys n tag s Hs) as (x & s' & ? & ?). by exists x, s'.
      * intros x w2 [M _]. eapply moved_ext; [exact M|]. intros k. cbn beta. rewrite net_app, net_unstaged, <-net_locked.
        rewrite Z.add_comm. f_equal. unfold net. rewrite !zsum_fmap. apply zsum_ext. intros y _.
        by destruct (dget y x) as [[[] o]|], k.
      * done.
  - intros k. cbn beta. rewrite zsum_add, zsum_opp, <-Z.add_opp_r. f_equal; [|f_equal]; destruct k as [i x|i x t|]; cbn; try (by apply zsum_zero).
    + case_decide; [by apply (rows_key_sum r c)|by apply zsum_zero].
    + case_decide; [by apply (rows_key_sum r c groups g (λ _, 1))|by apply zsum_zero].
Qed.

Lemma flat_stage tag idx g k : grid_ok r c g → k_stage tag idx (rows_of groups g ≫= snd) k = d_stage groups tag idx (cell g) k.
Proof. intros Hg. destruct k; cbn; [done| |done]. case_decide; [by apply (flat_key_sum r c)|done]. Qed.

Lemma flat_lock2 idx g k : grid_ok r c g → k_lock2 idx (rows_of groups g ≫= snd) k = d_lock2 groups idx (cell g) k.
Proof. intros Hg. destruct k; cbn; [done..|]. case_decide; [by apply (flat_key_sum r c)|done]. Qed.

Lemma discard_cells_moves tag idx g w :
  world_ok w → idx ∈ dkeys (w_l1 w) → grid_ok r c g →
  hwp (discard_cells groups tag idx g)
    (λ keys w', moved (λ k, - d_stage groups tag idx (cell g) k) w w' ∧ keys = rows_of groups g ≫= snd) (λ _, False) w.
Proof.
  intros Hw Hidx Hg. unfold discard_cells. apply hwp_bind. eapply hwp_lift; [by apply (gather_keys_run r c)|].
  destruct (rows_of groups g ≫= snd) as [|x keys] eqn:E.
  - split; [|done]. eapply moved_ext; [by apply moved_refl|]. intros k. cbn beta. rewrite <-flat_stage, E by done.
    destruct k; cbn; [done| |done]. by case_decide.
  - apply hwp_bind. eapply hwp_mono; [by apply discard_moves| |done]. intros ? w' M. split; [|done].
    eapply moved_ext; [exact M|]. intros k. cbn beta. by rewrite net_unstaged, <-flat_stage, E.
Qed.

Lemma unlock_cells_moves idx g w :
  world_ok w → idx ∈ dkeys (w_l2 w) → grid_ok r c g →
  moves (unlock_cells groups idx g) (λ k, - d_lock2 groups idx (cell g) k) w.
Proof.
  intros Hw Hidx Hg. unfold unlock_cells. apply hwp_bind. eapply hwp_lift; [by apply (gather_keys_run r c)|].
  destruct (rows_of groups g ≫= snd) as [|x keys] eqn:E.
  - eapply moved_ext; [by apply moved_refl|]. intros k. cbn beta. rewrite <-flat_lock2, E by done.
    destruct k; cbn; [done..|]. by case_decide.
  - eapply hwp_mono; [by apply unlock_moves| |done]. intros ? w' M.
    eapply moved_ext; [exact M|]. intros k. cbn beta. by rewrite net_l2_unlocked, <-flat_lock2, E.
Qed.

(** Walks over the maps of a request. *)
Lemma map_item m idx (g : Bitmap2D) : fits r c m → (idx, g) ∈ ms_state m → grid_ok r c g ∧ idx ∈ dkeys (ms_state m).
Proof.
  intros Hm Hin. split.
  - eapply (fits_get r c); [done|exact Hm|]. apply elem_dget; [apply Hm|done].
  - unfold dkeys. apply list_elem_of_fmap. by exists (idx, g).
Qed.

Lemma release_map m w :
  world_ok w → fits r c m → (∀ idx, idx ∈ dkeys (ms_state m) → idx ∈ dkeys (w_l1 w)) →
  moves (h_iter (λ p, release_cells groups p.1 p.2) (ms_state m)) (λ k, - m_read groups m k) w.
Proof.
  intros Hw Hm Hk. eapply moves_ext.
  - apply (iter_moves _ (λ (p : Z * Bitmap2D) k, - d_read groups p.1 (cell p.2) k)); [done|].
    intros [idx g] w' Hin Hw' E1 _. destruct (map_item m idx g Hm Hin). apply release_cells_moves; [done| |done].
    rewrite E1. by apply Hk.
  - intros k. cbn beta. rewrite zsum_opp. f_equal. apply items_sum_read, Hm.
Qed.

Lemma discard_map tag m w :
  world_ok w → fits r c m → (∀ idx, idx ∈ dkeys (ms_state m) → idx ∈ dkeys (w_l1 w)) →
  moves (h_iter (λ p, let^ _ := discard_cells groups tag p.1 p.2 in h_ret tt) (ms_state m)) (λ k, - m_stage groups tag m k) w.
Proof.
  intros Hw Hm Hk. eapply moves_ext.
  - apply (iter_moves _ (λ (p : Z * Bitmap2D) k, - d_stage groups tag p.1 (cell p.2) k)); [done|].
    intros [idx g] w' Hin Hw' E1 _. destruct (map_item m idx g Hm Hin). apply hwp_bind.
    eapply hwp_mono; [apply discard_cells_moves; [done| |done]| |done]; [rewrite E1; by apply Hk|].
    by intros keys w2 [M _].
  - intros k. cbn beta. rewrite zsum_opp. f_equal. apply items_sum_stage, Hm.
Qed.

Lemma unlock_map m w :
  world_ok w → fits r c m → (∀ idx, idx ∈ dkeys (ms_state m) → idx ∈ dkeys (w_l2 w)) →
  moves (h_iter (λ p, unlock_cells groups p.1 p.2) (ms_state m)) (λ k, - m_lock2 groups m k) w.
Proof.
  intros Hw Hm Hk. eapply moves_ext.
  - apply (iter_moves _ (λ (p : Z * Bitmap2D) k, - d_lock2 groups p.1 (cell p.2) k)); [done|].
    intros [idx g] w' Hin Hw' _ E2. destruct (map_item m idx g Hm Hin). apply unlock_cells_moves; [done| |done].
    rewrite E2. by apply Hk.
  - intros k. cbn beta. rewrite zsum_opp. f_equal. apply items_sum_lock2, Hm.
Qed.

Lemma unlock_attached_map m w :
  world_ok w → fits r c m → (∀ idx, idx ∈ dkeys (ms_state m) → idx ∈ dkeys (w_l2 w)) →
  moves (h_iter (unlock_attached groups) (ms_state m)) (λ k, - m_lock2 groups m k) w.
Proof.
  intros Hw Hm Hk. eapply moves_ext.
  - apply (iter_moves _ (λ (p : Z * Bitmap2D) k, - d_lock2 groups p.1 (cell p.2) k)); [done|].
    intros [idx g] w' Hin Hw' _ E2. destruct (map_item m idx g Hm Hin) as [Hg Hidx].
    assert (idx ∈ dkeys (w_l2 w')) as Hi by (rewrite E2; by apply Hk).
    pose proof (unlock_cells_moves idx g w' Hw' Hi Hg) as Hu. unfold moves, unlock_attached, unlock_cells, h_bind, h_get, hwp in *.
    cbn [fst snd h_lift] in *. unfold h_lift in *. rewrite (gather_keys_run r c) in * by done. cbn [fst snd].
    destruct (rows_of groups g ≫= snd); [exact Hu|]. rewrite (proj2 (dmem_true _ _)) by done. exact Hu.
  - intros k. cbn beta. rewrite zsum_opp. f_equal. apply items_sum_lock2, Hm.
Qed.
End loops.

(** ** Taking read locks *)

Definition is_success (results : dict ObjectKey L1OperationResult) (x : ObjectKey) : bool :=
  match dget x results with Some (SUCCESS, _) => true | _ => false end.

Lemma dget_update {K V} `{EqDecision K} (r d : dict K V) x :
  NoDup (dkeys r) → dget x (foldl (λ d p, dset p.1 p.2 d) d r) = match dget x r with Some v => Some v | None => dget x d end.
Proof.
  revert d. induction r as [|[k v] r IH]; intros d Hnd; [done|]. change (dkeys ((k, v) :: r)) with (k :: dkeys r) in Hnd.
  apply NoDup_cons in Hnd as [Hk Hnd]. cbn [foldl fst snd]. rewrite (IH _ Hnd). cbn [dget]. rewrite dget_dset.
  destruct (decide (k = x)) as [->|]; [|done]. apply dget_None in Hk. by rewrite Hk.
Qed.

Lemma filter_ext_elem {X} (P Q : X → Prop) `{∀ x, Decision (P x)} `{∀ x, Decision (Q x)} (l : list X) :
  (∀ x, x ∈ l → P x ↔ Q x) → filter P l = filter Q l.
Proof.
  induction l as [|x l IH]; intros Heq; [done|]. rewrite !filter_cons.
  rewrite (decide_ext (P x) (Q x)) by (apply Heq; left). rewrite IH; [done|]. intros y Hy. apply Heq. by right.
Qed.

Section lock.
Context {S A T : Type} {IL : L1Tier S T} {LL : L1TierLaws S T} {IA : L2Prefetch A T} {LA : L2PrefetchLaws A T}.
Implicit Types w : World S A.

(** The locks of the keys that a manager answered SUCCESS for. *)
Definition granted (groups : list GroupedObjectKeys) (idx : Z) (result : dict ObjectKey L1OperationResult) (k : kind) : Z :=
  match k with
  | KRead i x =>
      if decide (i = idx)
      then zsum (λ g, key_sum (gk_num_kv_readers g) (filter (λ y, is_success result y = true) (gk_keys g)) x) groups else 0
  | _ => 0
  end.

Lemma reserve_read_fold idx groups acc w :
  world_ok w → idx ∈ dkeys (w_l1 w) → NoDup (groups ≫= gk_keys) →
  hwp (h_fold (λ acc row,
        let^ r := pf_reserve_read idx (gk_keys row) (gk_num_kv_readers row) in
        h_ret (foldl (λ d p, dset p.1 p.2 d) acc r)) acc groups)
    (λ result w', moved (granted groups idx result) w w' ∧
       (∀ x, x ∈ groups ≫= gk_keys → x ∈ dkeys result) ∧ (∀ x, x ∉ groups ≫= gk_keys → dget x result = dget x acc))
    (λ _, False) w.
Proof.
  revert acc w. induction groups as [|g groups IH]; intros acc w Hw Hidx Hnd.
  { split; [|split; [by intros x ?%not_elem_of_nil|done]]. eapply moved_ext; [by apply moved_refl|].
    intros [i x| |]; cbn; [|done..]. by case_decide. }
  rewrite bind_cons in Hnd. apply NoDup_app in Hnd as (_ & Hdis & Hnd). cbn [h_fold]. apply hwp_bind. apply hwp_bind.
  eapply hwp_mono; [apply (on_l1_moves _ _ _ _ (λ r, NoDup (dkeys r) ∧ ∀ k, k ∈ dkeys r ↔ k ∈ gk_keys g)); [done|done|]| |done].
  { intros s Hs. destruct (tier_reserve_read_ok (gk_keys g) (gk_num_kv_readers g) s Hs) as (r & s' & ? & ? & ? & ?).
    by exists r, s'. }
  intros r w1 (M1 & Hnr & Hkr). apply hwp_ret. eapply hwp_mono; [apply IH; [apply M1|by rewrite (mv_l1 _ _ _ M1)|done]| |done].
  intros result w2 (M2 & Hin & Hout). split; [|split].
  - eapply moved_trans; [exact M1|exact M2|]. intros k. cbn beta. rewrite net_locked.
    assert (∀ y, y ∈ gk_keys g → is_success result y = is_success r y) as Hsame.
    { intros y Hy. unfold is_success. rewrite (Hout y), (dget_update r acc y Hnr); [|by intros ?; eapply Hdis].
      apply Hkr, dget_is_Some in Hy as [v ->]. done. }
    destruct k as [i x| |]; cbn [granted k_read]; [|done..]. case_decide; [|done]. rewrite zsum_cons. f_equal.
    unfold key_sum, succeeded. f_equal. apply filter_ext_elem. intros y Hy. by rewrite (Hsame y Hy).
  - intros x [Hx|Hx]%elem_of_app; [|by apply Hin]. apply dget_is_Some. rewrite (Hout x), (dget_update r acc x Hnr);
      [|by intros ?; eapply Hdis]. apply Hkr, dget_is_Some in Hx as [v ->]. by eexists.
  - intros x [Hx1 Hx2]%not_elem_of_app. rewrite (Hout x Hx2), (dget_update r acc x Hnr).
    assert (dget x r = None) as ->; [|done]. apply dget_None. by rewrite Hkr.
Qed.

Lemma mark_loop_ok keys i result b :
  (∀ x, x ∈ keys → x ∈ dkeys result) → bm_wf b → (i + length keys ≤ bm_size b)%nat →
  ∃ b', mark_loop i keys result b = Ret b' ∧ bm_wf b' ∧ bm_size b' = bm_size b ∧
    ∀ p, bm_test b' p = bm_test b p || match keys !! (p - i)%nat with Some x => Nat.leb i p && is_success result x | None => false end.
Proof.
  revert i b. induction keys as [|x keys IH]; intros i b Hin Hwf Hlen.
  { exists b. split_and!; [done..|]. intros p. by rewrite orb_false_r. }
  cbn [mark_loop length] in *. assert (x ∈ dkeys result) as [[e o] Ex]%dget_is_Some by (apply Hin; left). rewrite Ex.
  assert (∀ b1, bm_wf b1 → bm_size b1 = bm_size b →
    (∀ p, bm_test b1 p = bm_test b p || (Nat.eqb p i && is_success result x)) →
    ∃ b', mark_loop (Datatypes.S i) keys result b1 = Ret b' ∧ bm_wf b' ∧ bm_size b' = bm_size b ∧
      ∀ p, bm_test b' p = bm_test b p ||
        match (x :: keys) !! (p - i)%nat with Some x => Nat.leb i p && is_success result x | None => false end) as Hstep.
  { intros b1 Hwf1 Hs1 Ht1. destruct (IH (Datatypes.S i) b1) as (b' & E & Hwf' & Hs' & Ht'); [|done|lia|].
    { intros y Hy. apply Hin. by right. }
    exists b'. split_and!; [done|done|congruence|]. intros p. rewrite Ht', Ht1, <-orb_assoc. f_equal.
    destruct (Nat.eqb_spec p i) as [->|Hne].
    - rewrite (proj2 (Nat.leb_gt (Datatypes.S i) i)), Nat.sub_diag, Nat.leb_refl by lia. cbn [lookup list_lookup andb].
      destruct (keys !! _); by rewrite orb_false_r.
    - cbn [andb orb]. destruct (decide (i < p)%nat) as [Hlt|Hge].
      + replace (p - i)%nat with (Datatypes.S (p - Datatypes.S i)) by lia. cbn [lookup list_lookup].
        by rewrite (proj2 (Nat.leb_le i p)), (proj2 (Nat.leb_le (Datatypes.S i) p)) by lia.
      + rewrite (proj2 (Nat.leb_gt i p)), (proj2 (Nat.leb_gt (Datatypes.S i) p)) by lia.
        by destruct (keys !! _), ((x :: keys) !! _). }
  assert (is_success result x = match e with SUCCESS => true | _ => false end) as Hs by (unfold is_success; by rewrite Ex).
  destruct e; try (apply Hstep; [done|done|]; intros p; by rewrite Hs, andb_false_r, orb_false_r).
  apply Hstep; [by apply bm_set_wf|apply bm_set_size|]. intros p. rewrite bm_set_test, Hs by done. f_equal.
  rewrite andb_true_r. destruct (Nat.eqb_spec p i) as [->|]; [|done]. cbn. apply Nat.ltb_lt. lia.
Qed.

(** The grid that [lock_manager] records stands for the locks granted. *)
Lemma granted_grid r c groups idx result b (g : Bitmap2D) k :
  groups_ok r c groups → bm_size b = (r * c)%nat →
  (∀ p, bm_test b p = match (groups ≫= gk_keys) !! p with Some x => is_success result x | None => false end) →
  (∀ i j, cell g i j = Nat.ltb j c && bm_test b (j + i * c)%nat) →
  granted groups idx result k = d_read groups idx (cell g) k.
Proof.
  intros Hgr Hs Hb Hg. destruct k as [i x| |]; [|done..]. cbn. case_decide; [|done]. symmetry.
  apply (cells_sum_keys groups gk_num_kv_readers (cell g) (is_success result)). intros a gr j y Ha Hj.
  assert (j < c)%nat as Hlt.
  { destruct Hgr as [_ Hc]. rewrite Forall_lookup in Hc. pose proof (Hc a gr Ha) as Hl. apply lookup_lt_Some in Hj. cbn in Hl. lia. }
  rewrite Hg, Hb, (lookup_flat r c), Ha, (proj2 (Nat.ltb_lt j c)) by done. cbn. by rewrite Hj.
Qed.
End lock.

(** ** Reserving buffers *)

Lemma gather_aligned {X} b (l : list X) :
  bm_wf b → bm_size b = length l → Forall2 (λ col x, l !! col = Some x) (get_indices b) (gather b l).
Proof.
  intros Hwf Hs. unfold gather. rewrite get_indices_spec by done. unfold set_bits. rewrite Hs.
  assert (∀ cols, (∀ i, i ∈ cols → (i < length l)%nat) → Forall2 (λ col x, l !! col = Some x) cols (omap (λ i, l !! i) cols)) as Hcols.
  { induction cols as [|i cols IH]; intros Hi; [constructor|]. cbn. destruct (l !! i) as [x|] eqn:E.
    - constructor; [done|]. apply IH. intros; apply Hi; by right.
    - apply lookup_ge_None in E. specialize (Hi i ltac:(left)). lia. }
  apply Hcols. intros i [_ Hi%elem_of_seq]%list_elem_of_filter. lia.
Qed.

Lemma lookup_all_ok {V} (d : dict ObjectKey V) keys :
  (∀ x, x ∈ keys → x ∈ dkeys d) → ∃ vs, lookup_all d keys = Ret vs ∧ length vs = length keys.
Proof.
  induction keys as [|x keys IH]; intros Hin; [by exists []|]. cbn [lookup_all].
  assert (x ∈ dkeys d) as [v Ev]%dget_is_Some by (apply Hin; left). rewrite Ev.
  destruct IH as (vs & -> & Hl); [intros; apply Hin; by right|]. exists (v :: vs). split; [done|]. cbn. by rewrite Hl.
Qed.

Lemma reserve_results_ok r c row_id (l : list ObjectKey) (results : dict ObjectKey L1OperationResult) cols keys a :
  Forall2 (λ col x, l !! col = Some x) cols keys →
  (∀ x, x ∈ keys → ∃ e o, dget x results = Some (e, o) ∧ (e = SUCCESS → is_Some o)) →
  grid_ok r c (ra_success a) → (row_id < r)%nat → length l = c →
  ∃ a', reserve_results row_id cols keys results a = Ret a' ∧ grid_ok r c (ra_success a') ∧
    (∀ i j, cell (ra_success a') i j = cell (ra_success a) i j ||
       (Nat.eqb i row_id && (bool_decide (j ∈ cols) && match l !! j with Some x => is_success results x | None => false end))) ∧
    ra_failed a <= ra_failed a' ∧ (ra_failed a' = ra_failed a → ∀ x, x ∈ keys → is_success results x = true).
Proof.
  intros Hal. revert a. induction Hal as [|col x cols keys Hx Hal IH]; intros a Hans Hg Hrow Hl.
  { exists a. split_and!; [done|done| |lia|by intros _ y ?%not_elem_of_nil]. intros i j.
    rewrite bool_decide_false by apply not_elem_of_nil. by rewrite andb_false_r, orb_false_r. }
  cbn [reserve_results]. destruct (Hans x ltac:(left)) as (e & o & Ex & Ho). rewrite Ex.
  assert (is_success results x = match e with SUCCESS => true | _ => false end) as Hs by (unfold is_success; by rewrite Ex).
  assert (∀ y, y ∈ keys → ∃ e o, dget y results = Some (e, o) ∧ (e = SUCCESS → is_Some o)) as Hans'.
  { intros y Hy. apply Hans. by right. }
  assert (∀ a1, grid_ok r c (ra_success a1) →
    (∀ i j, cell (ra_success a1) i j = cell (ra_success a) i j || (Nat.eqb i row_id && (Nat.eqb j col && is_success results x))) →
    (if is_success results x then ra_failed a1 = ra_failed a else ra_failed a < ra_failed a1) →
    ∃ a', reserve_results row_id cols keys results a1 = Ret a' ∧ grid_ok r c (ra_success a') ∧
      (∀ i j, cell (ra_success a') i j = cell (ra_success a) i j ||
         (Nat.eqb i row_id && (bool_decide (j ∈ col :: cols) && match l !! j with Some x => is_success results x | None => false end))) ∧
      ra_failed a <= ra_failed a' ∧ (ra_failed a' = ra_failed a → ∀ y, y ∈ x :: keys → is_success results y = true)) as Hstep.
  { intros a1 Hg1 Hc1 Hf1. destruct (IH a1 Hans' Hg1 Hrow Hl) as (a' & E & Hg' & Hc' & Hf' & Hall).
    exists a'. split_and!; [done|done| | |].
    - intros i j. rewrite Hc', Hc1, <-orb_assoc. f_equal. destruct (Nat.eqb i row_id); [|done]. cbn [andb].
      destruct (Nat.eqb_spec j col) as [->|Hne].
      + rewrite (bool_decide_true (col ∈ col :: cols)) by left. rewrite Hx. cbn [andb]. by destruct (is_success results x), (bool_decide (col ∈ cols)).
      + cbn [andb orb]. f_equal. apply bool_decide_ext. rewrite elem_of_cons. naive_solver.
    - destruct (is_success results x); lia.
    - intros Heq y [->|Hy]%elem_of_cons; [destruct (is_success results x); [done|lia]|]. apply Hall; [|done].
      destruct (is_success results x); lia. }
  destruct e; try (apply Hstep; cbn; rewrite ?Hs; [done| |lia]; intros i j; by rewrite !andb_false_r, orb_false_r).
  destruct (Ho eq_refl) as [obj ->]. destruct (ra_success a !! row_id) as [row|] eqn:Er.
  2: { apply lookup_ge_None in Er. destruct Hg as [Hlen _]. lia. }
  apply Hstep; cbn [ra_success ra_failed]; rewrite ?Hs; [by apply insert_row_ok| |done]. intros i j.
  rewrite (cell_insert r c) by done. f_equal. rewrite (proj2 (Nat.ltb_lt col c)); [by rewrite andb_true_r|].
  apply lookup_lt_Some in Hx. lia.
Qed.

Lemma cell_cons_S (row : Bitmap) (g : list Bitmap) i j : cell (row :: g) (Datatypes.S i) j = cell g i j.
Proof. done. Qed.

Lemma get_indices_elem b j : bm_wf b → j ∈ get_indices b ↔ bm_test b j = true.
Proof.
  intros Hwf. rewrite get_indices_spec by done. unfold set_bits. rewrite list_elem_of_filter, elem_of_seq.
  split; [by intros [? _]|]. intros Ht. split; [done|]. apply bm_test_lt in Ht. lia.
Qed.

Section reserve.
Context {S A T : Type} {IL : L1Tier S T} {LL : L1TierLaws S T} {IA : L2Prefetch A T} {LA : L2PrefetchLaws A T}.
Implicit Types w : World S A.
Context (idx : Z) (retain : dict ObjectKey bool) (tag : string) (r c : nat).

(** The buffers granted for rows [row_id], ... *)
Definition rows_stage (row_id : nat) (gs : list GroupedObjectKeys) (success : Bitmap2D) (k : kind) : Z :=
  match k with
  | KStage i x t =>
      if decide (i = idx ∧ t = tag)
      then zsum (λ p : nat * GroupedObjectKeys, row_sum 1 (cell success (row_id + p.1)) (gk_keys p.2) x) (imap pair gs) else 0
  | _ => 0
  end.

(** What reserving rows [row_id], ... has done. *)
Record rows_reserved (row_id : nat) (cs : list Bitmap) (a a' : reserve_acc) : Prop := {
  rr_ok : grid_ok r c (ra_success a');
  rr_before : ∀ i j, (i < row_id)%nat → cell (ra_success a') i j = cell (ra_success a) i j;
  rr_sub : ∀ n j, cell (ra_success a') (row_id + n) j = true → cell cs n j = true;
  rr_failed : ra_failed a <= ra_failed a';
  rr_all : ra_failed a' = ra_failed a → ∀ n j, cell cs n j = true → cell (ra_success a') (row_id + n) j = true
}.

Definition row_ready (g : GroupedObjectKeys) (row : Bitmap) : Prop :=
  length (gk_keys g) = c ∧ bm_wf row ∧ bm_size row = c ∧ NoDup (gk_keys g) ∧ layout_ok (gk_layout_desc g) ∧
  ∀ x, x ∈ gather row (gk_keys g) → x ∈ dkeys retain.

(** One row. *)
Lemma reserve_row_ok row_id g row a w :
  world_ok w → idx ∈ dkeys (w_l1 w) → row_ready g row → grid_ok r c (ra_success a) → (row_id < r)%nat →
  (∀ i j, (row_id ≤ i)%nat → cell (ra_success a) i j = false) →
  hwp (let^ kept := h_lift (lookup_all retain (gather row (gk_keys g))) in
       let^ results := pf_reserve_write idx (gather row (gk_keys g)) (negb <$> kept) (gk_layout_desc g) tag in
       h_lift (reserve_results row_id (get_indices row) (gather row (gk_keys g)) results a))
    (λ a' w', rows_reserved row_id [row] a a' ∧ (∀ i j, i ≠ row_id → cell (ra_success a') i j = cell (ra_success a) i j) ∧
       moved (λ k, match k with
                   | KStage i x t => if decide (i = idx ∧ t = tag) then row_sum 1 (cell (ra_success a') row_id) (gk_keys g) x else 0
                   | _ => 0 end) w w') (λ _, False) w.
Proof.
  intros Hw Hidx (Hlen & Hwf & Hs & Hnd & Hlay & Hret) Hg Hrow H0.
  set (keys := gather row (gk_keys g)). destruct (lookup_all_ok retain keys Hret) as (kept & Ek & Hlk).
  apply hwp_bind. eapply hwp_lift; [exact Ek|]. apply hwp_bind.
  eapply hwp_mono; [apply (on_l1_moves _ _ _ _ (λ res, ∀ k, k ∈ keys → ∃ e o, dget k res = Some (e, o) ∧ (e = SUCCESS → is_Some o))); [done|done|]| |done].
  { intros s Ht. destruct (tier_reserve_write_ok keys (negb <$> kept) (gk_layout_desc g) tag s Ht) as (res & s' & ? & ? & ?);
      [|by rewrite length_fmap|done|by exists res, s'].
    eapply sublist_NoDup; [exact Hnd|]. apply gather_sublist; [done|congruence]. }
  intros res w1 [M Hans].
  destruct (reserve_results_ok r c row_id (gk_keys g) res (get_indices row) keys a) as (a' & E & Hg' & Hc' & Hf & Hall); try done.
  { apply gather_aligned; [done|congruence]. }
  eapply hwp_lift; [exact E|].
  assert (∀ j, cell (ra_success a') row_id j = bm_test row j &&
    match gk_keys g !! j with Some x => is_success res x | None => false end) as Hrow'.
  { intros j. rewrite Hc', H0, Nat.eqb_refl by lia. cbn [orb andb]. f_equal. apply eq_true_iff_eq.
    by rewrite bool_decide_eq_true, get_indices_elem. }
  split; [split|split].
  - done.
  - intros i j Hi. rewrite Hc'. rewrite (proj2 (Nat.eqb_neq i row_id)) by lia. by rewrite orb_false_r.
  - intros [|n] j; [|rewrite cell_cons_S]; intros Hc.
    + rewrite Nat.add_0_r, Hrow' in Hc. by apply andb_true_iff in Hc as [? _].
    + exfalso. rewrite Hc', (proj2 (Nat.eqb_neq _ row_id)), orb_false_r, H0 in Hc by lia. done.
  - done.
  - intros Heq [|n] j Hc; [|done]. change (bm_test row j = true) in Hc. rewrite Nat.add_0_r, Hrow', Hc. cbn [andb].
    assert (j < length (gk_keys g))%nat as [x Ex]%lookup_lt_is_Some by (apply bm_test_lt in Hc; lia). rewrite Ex.
    apply Hall; [done|]. unfold keys. rewrite gather_spec by (done || congruence). apply list_elem_of_fmap. exists (j, x).
    split; [done|]. apply list_elem_of_filter. split; [exact Hc|by apply lookup_imap_pair].
  - intros i j Hi. rewrite Hc'. rewrite (proj2 (Nat.eqb_neq i row_id)) by done. by rewrite orb_false_r.
  - eapply moved_ext; [exact M|]. intros k. cbn beta. rewrite net_staged. destruct k as [i x|i x t|]; [done| |done].
    cbn [k_stage]. case_decide; [|done]. symmetry. unfold key_sum, succeeded. fold (is_success res).
    apply (row_sum_gather row); [done|congruence|]. intros j y Hj. by rewrite Hrow', Hj.
Qed.

Lemma reserve_rows_ok row_id gs cs a w :
  world_ok w → idx ∈ dkeys (w_l1 w) → Forall2 row_ready gs cs → grid_ok r c (ra_success a) → (row_id + length gs = r)%nat →
  (∀ i j, (row_id ≤ i)%nat → cell (ra_success a) i j = false) →
  hwp (reserve_rows idx retain tag row_id gs cs a)
    (λ a' w', rows_reserved row_id cs a a' ∧ moved (rows_stage row_id gs (ra_success a')) w w') (λ _, False) w.
Proof.
  intros Hw Hidx Hready. revert row_id a w Hw Hidx. induction Hready as [|g row gs cs Hrow Hready IH];
    intros row_id a w Hw Hidx Hg Hlen H0.
  { split.
    - split; [done|done| |lia|done]. intros n j Hc. rewrite H0 in Hc by lia. done.
    - eapply moved_ext; [by apply moved_refl|]. intros [|i x t|]; cbn; [done| |done]. by case_decide. }
  cbn [reserve_rows length] in *. assert (row_id < r)%nat as Hlt by lia.
  assert (hwp (let^ kept := h_lift (lookup_all retain (gather row (gk_keys g))) in
       let^ results := pf_reserve_write idx (gather row (gk_keys g)) (negb <$> kept) (gk_layout_desc g) tag in
       let^ a' := h_lift (reserve_results row_id (get_indices row) (gather row (gk_keys g)) results a) in
       reserve_rows idx retain tag (Datatypes.S row_id) gs cs a')
    (λ a' w', rows_reserved row_id (row :: cs) a a' ∧ moved (rows_stage row_id (g :: gs) (ra_success a')) w w') (λ _, False) w) as Hstep.
  { pose proof (reserve_row_ok row_id g row a w Hw Hidx Hrow Hg Hlt H0) as H1. unfold hwp, h_bind in *.
    destruct (h_lift (lookup_all retain (gather row (gk_keys g))) w) as [[kept|] w1]; [|done].
    destruct (pf_reserve_write _ _ _ _ _ w1) as [[res|] w2]; [|done].
    destruct (h_lift (reserve_results _ _ _ _ _) w2) as [[a1|] w3]; [|done]. destruct H1 as (R1 & Hother & M1).
    assert (hwp (reserve_rows idx retain tag (Datatypes.S row_id) gs cs a1)
      (λ a' w', rows_reserved (Datatypes.S row_id) cs a1 a' ∧ moved (rows_stage (Datatypes.S row_id) gs (ra_success a')) w3 w')
      (λ _, False) w3) as H2.
    { apply IH; [apply M1|by rewrite (mv_l1 _ _ _ M1)|apply R1|lia|].
      intros i j Hi. rewrite Hother by lia. apply H0. lia. }
    unfold hwp in H2. destruct (reserve_rows _ _ _ _ _ _ a1 w3) as [[a'|] w4]; [|done]. destruct H2 as [R2 M2].
    destruct R1 as [_ B1 S1 F1 A1], R2 as [O2 B2 S2 F2 A2]. split; [split|].
    - done.
    - intros i j Hi. rewrite B2, B1 by lia. done.
    - intros [|n] j Hc.
      + rewrite Nat.add_0_r, B2 in Hc by lia. apply (S1 0%nat). by rewrite Nat.add_0_r.
      + apply S2. by replace (Datatypes.S row_id + n)%nat with (row_id + Datatypes.S n)%nat by lia.
    - lia.
    - intros Heq [|n] j Hc.
      + rewrite Nat.add_0_r, B2 by lia. specialize (A1 ltac:(lia) 0%nat j Hc). by rewrite Nat.add_0_r in A1.
      + replace (row_id + Datatypes.S n)%nat with (Datatypes.S row_id + n)%nat by lia. apply A2; [lia|exact Hc].
    - eapply moved_trans; [exact M1|exact M2|]. intros [|i x t|]; cbn [rows_stage]; [done| |done]. case_decide; [|done].
      rewrite imap_cons, zsum_cons, zsum_imap_S. f_equal; [|].
      + cbn [fst snd]. unfold row_sum. apply zsum_ext. intros [j y] _. cbn [fst snd]. by rewrite Nat.add_0_r, B2 by lia.
      + apply zsum_ext. intros [n gr] _. cbn [fst snd]. f_equal. by rewrite Nat.add_succ_r. }
  destruct (get_indices row) as [|col cols] eqn:Ei; [|exact Hstep].
  assert (∀ j, bm_test row j = false) as Hempty.
  { intros j. destruct (bm_test row j) eqn:Ej; [|done]. apply get_indices_elem in Ej; [|apply Hrow].
    rewrite Ei in Ej. by apply not_elem_of_nil in Ej. }
  eapply hwp_mono; [apply IH; [done|done|done|lia|]| |done].
  { intros i j Hi. apply H0. lia. }
  intros a' w' [[O2 B2 S2 F2 A2] M2]. split; [split|].
  - done.
  - intros i j Hi. apply B2. lia.
  - intros [|n] j Hc.
    + rewrite Nat.add_0_r, B2, H0 in Hc by lia. done.
    + apply S2. by replace (Datatypes.S row_id + n)%nat with (row_id + Datatypes.S n)%nat by lia.
  - done.
  - intros Heq [|n] j Hc; [change (bm_test row j = true) in Hc; by rewrite Hempty in Hc|].
    replace (row_id + Datatypes.S n)%nat with (Datatypes.S row_id + n)%nat by lia. by apply A2.
  - eapply moved_ext; [exact M2|]. intros [|i x t|]; cbn [rows_stage]; [done| |done]. case_decide; [|done].
    rewrite imap_cons, zsum_cons, zsum_imap_S. cbn [fst snd].
    assert (row_sum 1 (cell (ra_success a') (row_id + 0)) (gk_keys g) x = 0) as ->.
    { apply zsum_zero. intros [j y] _. cbn [fst snd]. by rewrite Nat.add_0_r, B2, H0 by lia. }
    rewrite Z.add_0_l. apply zsum_ext. intros [n gr] _. cbn [fst snd]. f_equal. by rewrite Nat.add_succ_r.
Qed.
End reserve.

Lemma zeros_like_ok r c g : grid_ok r c g → ∃ z, zeros_like g = Ret z ∧ grid_ok r c z ∧ ∀ i j, cell z i j = false.
Proof.
  intros [Hl Hg]. exists ((λ b, new_bitmap (bm_size b)) <$> g).
  assert (rows_ok c ((λ b, new_bitmap (bm_size b)) <$> g)) as Hrows.
  { apply Forall_fmap. eapply Forall_impl; [exact Hg|]. intros b [_ Hs]. split; [apply new_bitmap_wf|exact Hs]. }
  split_and!; [eapply new_grid_ok, Hrows|split; [by rewrite length_fmap|done]|].
  intros i j. unfold cell. rewrite list_lookup_fmap. destruct (g !! i); [apply new_bitmap_test|done].
Qed.

(** A request the controller can work on. *)
Record request_ok (groups : list GroupedObjectKeys) : Prop := {
  rk_some : groups ≠ [];
  rk_shape : groups_ok (length groups) (num_chunks_of groups) groups;
  rk_windows : windows_ok groups;
  rk_nodup : NoDup (groups ≫= gk_keys);
  rk_layouts : Forall (λ g, layout_ok (gk_layout_desc g)) groups
}.

Lemma request_rows groups : request_ok groups → (0 < length groups)%nat.
Proof. intros [Hs _ _ _ _]. destruct groups; [done|]. cbn. lia. Qed.

Lemma reserve_cells_ok {S A T} `{L1TierLaws S T} `{L2PrefetchLaws A T} idx groups cells retain tag (w : World S A) :
  world_ok w → idx ∈ dkeys (w_l1 w) → request_ok groups → grid_ok (length groups) (num_chunks_of groups) cells →
  (∀ x, x ∈ rows_of groups cells ≫= snd → x ∈ dkeys retain) →
  hwp (_reserve_l1_cells idx groups cells retain tag)
    (λ a w', grid_ok (length groups) (num_chunks_of groups) (ra_success a) ∧
       (∀ i j, cell (ra_success a) i j = true → cell cells i j = true) ∧ 0 <= ra_failed a ∧
       (ra_failed a = 0 → ∀ i j, cell cells i j = true → cell (ra_success a) i j = true) ∧
       moved (d_stage groups tag idx (cell (ra_success a))) w w') (λ _, False) w.
Proof.
  intros Hw Hidx Hreq Hg Hret. unfold _reserve_l1_cells. apply hwp_bind.
  destruct (zeros_like_ok _ _ cells Hg) as (z & Ez & Hz & Hcz). eapply hwp_lift; [exact Ez|].
  eapply hwp_mono; [apply (reserve_rows_ok idx retain tag (length groups) (num_chunks_of groups)); [done|done| |done|done|]| |done].
  - destruct Hg as [Hlen Hrows], (rk_shape _ Hreq) as [_ Hcols]. pose proof (rk_nodup _ Hreq) as Hnd.
    pose proof (rk_layouts _ Hreq) as Hlay. clear Hidx Hw Hz Hcz Ez Hreq. revert Hcols Hrows. generalize (num_chunks_of groups) as c.
    intros c Hcols Hrows. revert cells Hlen Hrows Hret. induction groups as [|g groups IH]; intros [|row cells] Hlen Hrows Hret; try done.
    apply Forall_cons in Hcols as [Hcg Hcols], Hrows as [[Hwf Hs] Hrows], Hlay as [Hl Hlay].
    rewrite bind_cons in Hnd. apply NoDup_app in Hnd as (Hn1 & _ & Hn2). constructor.
    + split_and!; try done. intros x Hx. apply Hret. cbn. apply elem_of_app. by left.
    + apply IH; [done|done|done|by injection Hlen|done|]. intros x Hx. apply Hret. cbn. apply elem_of_app. by right.
  - by intros.
  - intros a w' [[O B Su F Al] M]. split_and!; [done|exact Su|exact F|exact Al|].
    eapply moved_ext; [exact M|]. intros [|i x t|]; cbn [rows_stage d_stage]; [done| |done]. case_decide; done.
Qed.

(** The sum for one manager or adapter whose grid changed. *)
Lemma m_read_set groups m m' idx (g : nat → nat → bool) k :
  (∀ x i j, locked m' x i j = if decide (idx = x) then g i j else locked m x i j) →
  m_read groups m' k = m_read groups m k + d_read groups idx g k - d_read groups idx (locked m idx) k.
Proof.
  intros Hl. destruct k as [i x| |]; cbn; [|done..]. case_decide as Hi.
  - subst i. rewrite (cells_sum_ext _ _ (locked m' idx) g); [lia|]. intros a b. by rewrite Hl, decide_True.
  - rewrite (cells_sum_ext _ _ (locked m' i) (locked m i)); [lia|]. intros a b. rewrite Hl, decide_False; [done|congruence].
Qed.

Lemma m_stage_set groups tag m m' idx (g : nat → nat → bool) k :
  (∀ x i j, locked m' x i j = if decide (idx = x) then g i j else locked m x i j) →
  m_stage groups tag m' k = m_stage groups tag m k + d_stage groups tag idx g k - d_stage groups tag idx (locked m idx) k.
Proof.
  intros Hl. destruct k as [|i x t|]; cbn; [done| |done]. destruct (decide (t = tag)) as [->|Ht].
  2: { rewrite !(decide_False (P := i = idx ∧ t = tag)) by (by intros [_ ?]). lia. }
  destruct (decide (i = idx)) as [->|Hi].
  - rewrite !decide_True by done. rewrite (cells_sum_ext _ _ (locked m' idx) g); [lia|]. intros a b. by rewrite Hl, decide_True.
  - rewrite !(decide_False (P := i = idx ∧ tag = tag)) by (by intros [? _]). rewrite (cells_sum_ext _ _ (locked m' i) (locked m i)); [lia|].
    intros a b. rewrite Hl, decide_False; [done|congruence].
Qed.

Lemma m_lock2_set groups m m' idx (g : nat → nat → bool) k :
  (∀ x i j, locked m' x i j = if decide (idx = x) then g i j else locked m x i j) →
  m_lock2 groups m' k = m_lock2 groups m k + d_lock2 groups idx g k - d_lock2 groups idx (locked m idx) k.
Proof.
  intros Hl. destruct k as [| |i x]; cbn; [done..|]. case_decide as Hi.
  - subst i. rewrite (cells_sum_ext _ _ (locked m' idx) g); [lia|]. intros a b. by rewrite Hl, decide_True.
  - rewrite (cells_sum_ext _ _ (locked m' i) (locked m i)); [lia|]. intros a b. rewrite Hl, decide_False; [done|congruence].
Qed.

(** A map that lost the cells of another. *)
Lemma m_read_sub groups d m p k :
  (∀ x i j, locked d x i j = locked m x i j && negb (locked p x i j)) →
  (∀ x i j, locked p x i j = true → locked m x i j = true) → m_read groups d k = m_read groups m k - m_read groups p k.
Proof. intros Hd Hp. destruct k as [i x| |]; cbn; [|done..]. apply cells_sum_sub; [intros; apply Hd|intros a b; apply Hp]. Qed.

Lemma m_lock2_sub groups d m p k :
  (∀ x i j, locked d x i j = locked m x i j && negb (locked p x i j)) →
  (∀ x i j, locked p x i j = true → locked m x i j = true) → m_lock2 groups d k = m_lock2 groups m k - m_lock2 groups p k.
Proof. intros Hd Hp. destruct k as [| |i x]; cbn; [done..|]. apply cells_sum_sub; [intros; apply Hd|intros a b; apply Hp]. Qed.

(** ** Handing over *)

Lemma hand_over_moves {S A T} `{L1TierLaws S T} `{L2PrefetchLaws A T} r c groups idx g (w : World S A) :
  world_ok w → groups_ok r c groups → grid_ok r c g →
  moves (hand_over groups idx g) (λ k, - d_read groups idx (cell g) k) w.
Proof.
  intros Hw Hgr Hg. unfold hand_over. apply hwp_bind. eapply hwp_lift; [by apply (gather_rows_run r c)|].
  split; cbn [w_l1 w_l2 w_log]; [exact Hw|done|done|]. intros k. rewrite net_app. f_equal. fold (rows_of groups g).
  assert (net k (rows_of groups g ≫= λ row : GroupedObjectKeys * list ObjectKey,
    (λ x, ReadHanded idx x (gk_num_kv_readers row.1)) <$> row.2)
    = - zsum (λ p : GroupedObjectKeys * list ObjectKey, k_read idx (gk_num_kv_readers p.1) p.2 k) (rows_of groups g)) as ->.
  { induction (rows_of groups g) as [|p l IH]; [done|]. rewrite bind_cons, net_app, zsum_cons, IH, net_handed. lia. }
  f_equal. destruct k as [i x| |]; cbn; [|by apply zsum_zero..]. case_decide; [by apply (rows_key_sum r c)|by apply zsum_zero].
Qed.
