(* ===== verification/PrefetchLoad.v ===== *)
(** * Staging the cells of a load

    The parts of [_transition_to_load_phase] that work on the L1 managers: which
    manager stages which planned cells ([_build_l1_allocation_plans]), the
    reservations, the trimming to whole columns, and the L2 cells that are left
    when reservations failed. *)

From stdpp Require Import gmap list strings.
From Stdlib Require Import ZArith Lia.
From S2P Require Import Prelude PyFloat TensorAllocator Keys L1Memory L1Manager Bitmap Fold Grid PrefetchPolicy Cells Handler PrefetchController PrefetchMoves.

Open Scope Z_scope.
Open Scope py_scope.
Open Scope handler_scope.

(** A cell of a grid in a dictionary. *)
Definition dcell (d : dict Z Bitmap2D) (idx : Z) (i j : nat) : bool :=
  match dget idx d with Some g => cell g i j | None => false end.

Lemma dcell_locked m idx i j : locked m idx i j = dcell (ms_state m) idx i j.
Proof. done. Qed.

Lemma dcell_cons b g l x i j : b ∉ dkeys l → dcell ((b, g) :: l) x i j = if decide (b = x) then cell g i j else dcell l x i j.
Proof. intros Hb. unfold dcell. cbn [dget]. by destruct (decide (b = x)). Qed.

Lemma dcell_key l x i j : dcell l x i j = true → x ∈ dkeys l.
Proof. unfold dcell. destruct (dget x l) eqn:E; [|done]. intros _. apply dget_is_Some. by eexists. Qed.

(** The keys gathered from a grid are those of its cells. *)
Lemma rows_elem r c groups g x :
  groups_ok r c groups → grid_ok r c g →
  x ∈ rows_of groups g ≫= snd ↔ ∃ i j gr, groups !! i = Some gr ∧ gk_keys gr !! j = Some x ∧ cell g i j = true.
Proof.
  intros [Hl Hc] [Hlg Hg]. assert (length groups = length g) as Hlen by congruence. clear Hl Hlg r.
  revert g Hg Hlen. induction Hc as [|gr groups Hgr Hc IH]; intros [|b g] Hg Hlen; try done.
  { split; [by intros ?%not_elem_of_nil|]. by intros (i & j & gr & ? & _). }
  apply Forall_cons in Hg as [[Hwf Hs] Hg]. injection Hlen as Hlen. cbn [rows_of zip_with]. rewrite bind_cons, elem_of_app. cbn [snd].
  fold (rows_of groups g). rewrite (IH g Hg Hlen), gather_spec, list_elem_of_fmap by congruence. split.
  - intros [([j y] & -> & Hin)|(i & j & gr' & ?)]; [|by exists (Datatypes.S i), j, gr'].
    apply list_elem_of_filter in Hin as [Ht Hj%lookup_imap_pair]. by exists 0%nat, j, gr.
  - intros ([|i] & j & gr' & Hi & Hj & Hcell).
    + injection Hi as <-. left. exists (j, x). split; [done|]. apply list_elem_of_filter. split; [exact Hcell|by apply lookup_imap_pair].
    + right. by exists i, j, gr'.
Qed.

Lemma rows_none r c groups g :
  groups_ok r c groups → grid_ok r c g → rows_of groups g ≫= snd = [] → ∀ i j, cell g i j = false.
Proof.
  intros Hgr Hg E i j. destruct (cell g i j) eqn:Ec; [|done]. exfalso. destruct (cell_row r c g i j Hg Ec) as [Hi Hj].
  pose proof Hgr as [Hl Hc]. rewrite <-Hl in Hi. apply lookup_lt_is_Some in Hi as [gr Hi]. rewrite Forall_lookup in Hc.
  assert (j < length (gk_keys gr))%nat as [x Hx]%lookup_lt_is_Some by (rewrite (Hc i gr Hi); done).
  assert (x ∈ rows_of groups g ≫= snd) as Hin by (apply (rows_elem r c); [done|done|]; by exists i, j, gr).
  rewrite E in Hin. by apply not_elem_of_nil in Hin.
Qed.

Lemma zip_strict_ok {X Y} (l : list X) (k : list Y) : length k = length l → zip_strict l k = Ret (zip l k).
Proof.
  revert k. induction l as [|x l IH]; intros [|y k] Hl; try done. cbn [zip_strict]. rewrite IH by (by injection Hl). done.
Qed.

Lemma update_keys {V} (pairs : list (ObjectKey * V)) (d : dict ObjectKey V) x :
  x ∈ dkeys (foldl (λ d p, dset p.1 p.2 d) d pairs) ↔ x ∈ dkeys d ∨ x ∈ pairs.*1.
Proof.
  revert d. induction pairs as [|[y v] pairs IH]; intros d; cbn [foldl fst snd].
  - split; [by left|]. intros [?|?%not_elem_of_nil]; done.
  - rewrite IH, elem_dkeys_dset, fmap_cons, elem_of_cons. cbn [fst]. tauto.
Qed.

(** ** Which manager stages what *)

Section allocation.
Context {S A D1 D2 P T : Type} `{EqDecision T}.
Context {IL : L1Tier S T} {IA : L2Prefetch A T} {IP : PrefetchPolicy P D1 D2} {LP : PrefetchPolicyLaws P D1 D2}.
Context (c : PrefetchController S A D1 D2 P T) (q : Request T) (r cols : nat).
Context (Hgroups : groups_ok r cols (rq_groups q)) (Hr : (0 < r)%nat).

(** Where an adapter loads to, when the descriptors are there. *)
Definition placed (b a : Z) : Prop :=
  dget b (pc_affinity c) = Some a ∧ a ∈ dkeys (pc_l1_descs c) ∧ b ∈ dkeys (pc_descs c).

Record allocated (items : dict Z Bitmap2D) (acc acc' : dict Z Bitmap2D * dict ObjectKey bool) : Prop := {
  al_grids : ∀ a (g : Bitmap2D), dget a acc'.1 = Some g → grid_ok r cols g;
  al_nodup : NoDup (dkeys acc'.1);
  al_keys : ∀ a, a ∈ dkeys acc'.1 ↔ a ∈ dkeys acc.1 ∨ ∃ b, b ∈ dkeys items ∧ dget b (pc_affinity c) = Some a;
  al_cells : ∀ a i j, dcell acc'.1 a i j = true ↔
    dcell acc.1 a i j = true ∨ ∃ b, dget b (pc_affinity c) = Some a ∧ dcell items b i j = true;
  al_retain : ∀ x, x ∈ dkeys acc.2 ∨ (∃ b g, dget b items = Some g ∧ x ∈ rows_of (rq_groups q) g ≫= snd) → x ∈ dkeys acc'.2
}.

Lemma allocation_step_ok (acc : dict Z Bitmap2D * dict ObjectKey bool) b (g : Bitmap2D) a :
  placed b a → grid_ok r cols g → (∀ a (g : Bitmap2D), dget a acc.1 = Some g → grid_ok r cols g) → NoDup (dkeys acc.1) →
  ∃ acc', allocation_step c q acc (b, g) = Ret acc' ∧ allocated [(b, g)] acc acc'.
Proof.
  destruct acc as [plans retain]. cbn [fst]. intros (Ea & Ha & Hb) Hg Hacc Hnd. unfold allocation_step, _get_l2_affinity_manager. rewrite Ea. cbn [py_bind].
  rewrite (gather_keys_run r cols) by done. cbn [py_bind]. set (keys := rows_of (rq_groups q) g ≫= snd).
  assert (∃ ret, length ret = length keys ∧ match rq_lock_mode q with
    | NO_LOCK => Ret (replicate (length keys) true)
    | LOCK => match dget a (pc_l1_descs c), dget b (pc_descs c) with
              | Some d1, Some d2 => Ret (policy_l1_retention keys d1 d2 (pc_policy c)) | _, _ => Raise KeyError end
    end = Ret ret) as (ret & Hret & ->).
  { destruct (rq_lock_mode q).
    - apply dget_is_Some in Ha as [d1 ->], Hb as [d2 ->]. eexists. split; [apply policy_retention_ok|done].
    - eexists. split; [|done]. by rewrite length_replicate. }
  cbn [py_bind]. rewrite zip_strict_ok by done. cbn [py_bind].
  assert (∀ x, x ∈ dkeys retain ∨ (∃ b' g', dget b' [(b, g)] = Some g' ∧ x ∈ rows_of (rq_groups q) g' ≫= snd) →
    x ∈ dkeys (foldl (λ d p, dset p.1 p.2 d) retain (zip keys ret))) as Hre.
  { intros x Hx. apply update_keys. rewrite fst_zip by lia. destruct Hx as [?|(b' & g' & E & Hx)]; [by left|right].
    cbn [dget] in E. case_decide; [|done]. by injection E as <-. }
  assert (∀ a' i j, (∃ b', dget b' (pc_affinity c) = Some a' ∧ dcell [(b, g)] b' i j = true) ↔ a = a' ∧ cell g i j = true) as Hsingle.
  { intros a' i j. split.
    - intros (b' & Eb' & Hc). unfold dcell in Hc. cbn [dget] in Hc. case_decide as Hd; [|done]. subst b'.
      split; [congruence|done].
    - intros [<- Hc]. exists b. split; [done|]. unfold dcell. cbn [dget]. by rewrite decide_True. }
  assert (∀ a', (∃ b', b' ∈ dkeys [(b, g)] ∧ dget b' (pc_affinity c) = Some a') ↔ a' = a) as Hkey.
  { intros a'. split.
    - intros (b' & ->%list_elem_of_singleton & E). cbn in E. congruence.
    - intros ->. exists b. split; [by apply list_elem_of_singleton|done]. }
  assert (∀ g' : Bitmap2D, grid_ok r cols g' → (∀ i j, cell g' i j = dcell plans a i j || cell g i j) →
    allocated [(b, g)] (plans, retain) (dset a g' plans, foldl (λ d p, dset p.1 p.2 d) retain (zip keys ret))) as Hdone.
  { intros g' Hg' Hc. split; cbn [fst snd].
    - intros x gx. rewrite dget_dset. case_decide; [by intros [= <-]|apply Hacc].
    - by apply NoDup_dset.
    - intros x. by rewrite elem_dkeys_dset, Hkey.
    - intros x i j. rewrite Hsingle. unfold dcell at 1. rewrite dget_dset. case_decide as Hd.
      + subst x. rewrite Hc, orb_true_iff. naive_solver.
      + fold (dcell plans x i j). naive_solver.
    - exact Hre. }
  cbn [fst snd]. destruct (dget a plans) as [g0|] eqn:E0.
  - destruct (grid_iadd_ok r cols g0 g (Hacc a g0 E0) Hg) as (g' & -> & Hg' & Hc). cbn [py_bind]. eexists. split; [done|].
    apply Hdone; [done|]. intros i j. unfold dcell. by rewrite E0, Hc.
  - eexists. split; [done|]. apply Hdone; [done|]. intros i j. unfold dcell. by rewrite E0.
Qed.

Lemma allocation_loop_ok (items : dict Z Bitmap2D) (acc : dict Z Bitmap2D * dict ObjectKey bool) :
  (∀ b (g : Bitmap2D), (b, g) ∈ items → grid_ok r cols g ∧ ∃ a, placed b a) → NoDup (dkeys items) →
  (∀ a (g : Bitmap2D), dget a acc.1 = Some g → grid_ok r cols g) → NoDup (dkeys acc.1) →
  ∃ acc', allocation_loop c q acc items = Ret acc' ∧ allocated items acc acc'.
Proof.
  revert acc. induction items as [|[b g] items IH]; intros acc Hi Hni Hacc Hnd.
  { exists acc. split; [done|]. split; [done|done| | |].
    - intros a. split; [by left|]. intros [?|(b & ?%not_elem_of_nil & _)]; done.
    - intros a i j. split; [by left|]. intros [?|(b & _ & ?)]; done.
    - intros x [?|(b & g & ? & _)]; done. }
  destruct (Hi b g ltac:(left)) as [Hg [a Hp]]. destruct (allocation_step_ok acc b g a Hp Hg Hacc Hnd) as (acc1 & E1 & A1).
  change (dkeys ((b, g) :: items)) with (b :: dkeys items) in *. apply NoDup_cons in Hni as [Hb Hni].
  cbn [allocation_loop]. rewrite E1. cbn [py_bind].
  destruct (IH acc1) as (acc' & E' & A'); [intros; apply Hi; by right|done|apply A1|apply A1|]. exists acc'. split; [done|].
  destruct A1 as [_ _ Ak Ac Ar], A' as [Bg Bn Bk Bc Br]. split; [done|done| | |].
  - intros x. rewrite Bk, Ak. change (dkeys [(b, g)]) with [b]. split.
    + intros [[?|(y & ->%list_elem_of_singleton & E)]|(y & Hy & E)]; [by left|right..].
      * exists b. split; [left|done].
      * exists y. split; [by right|done].
    + intros [?|(y & [->|Hy]%elem_of_cons & E)]; [by left; left|left; right|right].
      * exists b. by split; [apply list_elem_of_singleton|].
      * by exists y.
  - intros x i j. rewrite Bc, Ac. split.
    + intros [[?|(y & Ey & Hy)]|(y & Ey & Hy)]; [by left|right; exists y; split; [done|]..].
      * unfold dcell in *. cbn [dget] in *. by case_decide.
      * rewrite dcell_cons by done. pose proof (dcell_key _ _ _ _ Hy). rewrite decide_False; [done|congruence].
    + intros [?|(y & Ey & Hy)]; [by left; left|]. rewrite dcell_cons in Hy by done. case_decide as Hd.
      * left; right. exists y. split; [done|]. unfold dcell. cbn [dget]. by rewrite decide_True.
      * right. by exists y.
  - intros x [?|(y & gy & Ey & Hx)]; apply Br; [left; apply Ar; by left|]. cbn [dget] in Ey. case_decide as Hd.
    + injection Ey as <-. left. apply Ar. right. exists b, g. split; [|done]. cbn [dget]. by rewrite decide_True.
    + right. by exists y, gy.
Qed.
End allocation.

(** ** Rows of common columns *)

Lemma all_grouped_ok r c (g : list Bitmap) :
  (0 < r)%nat → grid_ok r c g →
  ∃ rows, all_grouped g = Ret rows ∧ grid_ok r c rows ∧
    ∀ i j, cell rows i j = true ↔ (i < r)%nat ∧ ∀ i', (i' < r)%nat → cell g i' j = true.
Proof.
  intros Hr [Hl Hg]. destruct g as [|row rest]; [cbn in Hl; lia|]. unfold all_grouped. eexists. split; [done|].
  apply Forall_cons in Hg as [[Hwf Hs] Hg].
  assert (Forall bm_wf rest) as Hwfs by (eapply Forall_impl; [exact Hg|]; by intros b [? _]).
  assert (bm_size (foldl bm_and row rest) = c) as Hsz.
  { apply foldl_and_size; [done|]. eapply Forall_impl; [exact Hg|]. by intros b [_ ?]. }
  split; [split|].
  - by rewrite length_replicate.
  - apply Forall_replicate. split; [by apply (foldl_and_test row rest 0)|done].
  - intros i j. unfold cell at 1. rewrite Hl. destruct (decide (i < r)%nat) as [Hi|Hi].
    2: { rewrite (lookup_ge_None_2 (replicate r _)) by (rewrite length_replicate; lia). split; [done|]. by intros [? _]. }
    rewrite lookup_replicate_2 by done. rewrite (proj2 (foldl_and_test row rest j Hwf Hwfs)), andb_true_iff, forallb_forall. split.
    + intros [H0 Hrest]. split; [done|]. intros [|i'] Hi'; [exact H0|]. rewrite cell_cons_S. unfold cell.
      assert (i' < length rest)%nat as [b Eb]%lookup_lt_is_Some by (cbn in Hl; lia). rewrite Eb.
      apply Hrest, list_elem_of_In. by eapply list_elem_of_lookup_2.
    + intros [_ Hall]. split; [apply (Hall 0%nat Hr)|]. intros b Hb%list_elem_of_In. apply list_elem_of_lookup in Hb as [i' Eb].
      specialize (Hall (Datatypes.S i')). rewrite cell_cons_S in Hall. unfold cell in Hall. rewrite Eb in Hall. apply Hall.
      apply lookup_lt_Some in Eb. cbn in Hl. lia.
Qed.

(** ** Reservations *)

Lemma dcell_snoc b g l x i j :
  b ∉ dkeys l → dcell (l ++ [(b, g)]) x i j = if decide (b = x) then cell g i j else dcell l x i j.
Proof.
  intros Hb. unfold dcell. induction l as [|[y h] l IH]; [cbn; by destruct (decide (b = x))|].
  change (dkeys ((y, h) :: l)) with (y :: dkeys l) in Hb. apply not_elem_of_cons in Hb as [Hy Hb]. cbn [app dget].
  destruct (decide (y = x)) as [->|]; [by rewrite decide_False|by apply IH].
Qed.

Section staging.
Context {S A T : Type} {IL : L1Tier S T} {LL : L1TierLaws S T} {IA : L2Prefetch A T} {LA : L2PrefetchLaws A T}.
Context (groups : list GroupedObjectKeys) (tag : string) (Hreq : request_ok groups).
Implicit Types w : World S A.

#[local] Abbreviation r := (length groups).
#[local] Abbreviation cols := (num_chunks_of groups).

(** The buffers reserved for [plans]. *)
Record staged (plans : dict Z Bitmap2D) (a : load_acc) : Prop := {
  sg_fits : fits r cols (ld_reserved a);
  sg_keys : ∀ x, x ∈ dkeys (ms_state (ld_reserved a)) ↔ x ∈ dkeys plans;
  sg_sub : ∀ x i j, locked (ld_reserved a) x i j = true → dcell plans x i j = true;
  sg_failed : 0 <= ld_failed a;
  sg_all : ld_failed a = 0 → ∀ x i j, dcell plans x i j = true → locked (ld_reserved a) x i j = true
}.

Lemma staged_rows : (0 < r)%nat.
Proof. by apply request_rows. Qed.

Lemma reserve_managers_ok plans retain w :
  world_ok w → NoDup (dkeys plans) →
  (∀ a (g : Bitmap2D), (a, g) ∈ plans → grid_ok r cols g ∧ a ∈ dkeys (w_l1 w) ∧
     ∀ x, x ∈ rows_of groups g ≫= snd → x ∈ dkeys retain) →
  hwp (h_fold (reserve_manager groups retain tag) (mkLoad ms_empty [] 0) plans)
    (λ a w', moved (m_stage groups tag (ld_reserved a)) w w' ∧ staged plans a) (λ _, False) w.
Proof.
  intros Hw Hnd Hp.
  eapply hwp_mono; [apply (hwp_fold _ (λ l a w', ∃ past, plans = past ++ l ∧ moved (m_stage groups tag (ld_reserved a)) w w' ∧ staged past a)
    (λ _, False) plans)| |done].
  - intros [b g] l a w1 _ (past & E & M & [F1 F2 F3 F4 F5]). unfold reserve_manager. cbn [fst snd].
    assert ((b, g) ∈ plans) as Hin by (rewrite E; apply elem_of_app; right; left). destruct (Hp b g Hin) as (Hg & Hb & Hre).
    assert (b ∉ dkeys past) as Hfree.
    { rewrite E in Hnd. unfold dkeys in *. rewrite fmap_app, fmap_cons in Hnd. apply NoDup_app in Hnd as (_ & Hd & _).
      intros Hbp. apply (Hd b Hbp). left. }
    apply hwp_bind. eapply hwp_mono; [apply reserve_cells_ok; [apply M|by rewrite (mv_l1 _ _ _ M)|done|done|done]| |done].
    intros a1 w2 (O1 & S1 & N1 & A1 & M1). apply hwp_bind.
    destruct (fits_set r cols b (ra_success a1) (ld_reserved a) staged_rows F1 O1) as (m & Em & Hm & Es & Hl).
    eapply hwp_lift; [exact Em|]. apply hwp_ret. exists (past ++ [(b, g)]). split_and!; [by rewrite <-app_assoc|cbn [ld_reserved]|].
    + eapply moved_trans; [exact M|exact M1|]. intros k. rewrite (m_stage_set groups tag (ld_reserved a) m b _ k Hl).
      assert (d_stage groups tag b (locked (ld_reserved a) b) k = 0) as ->; [|lia]. destruct k; cbn; [done| |done].
      case_decide; [|done]. apply cells_sum_false. intros i j. destruct (locked _ b i j) eqn:El; [|done].
      exfalso. apply Hfree, (dcell_key past b i j), F3, El.
    + split; cbn [ld_reserved ld_failed]; [done| | |lia|].
      * intros x. rewrite Es, elem_dkeys_dset, F2. unfold dkeys. rewrite fmap_app, elem_of_app. cbn. by rewrite list_elem_of_singleton.
      * intros x i j. rewrite Hl, dcell_snoc by done. case_decide; [apply S1|apply F3].
      * intros Hz x i j. rewrite Hl, dcell_snoc by done. case_decide; [apply A1; lia|apply F5; lia].
  - exists []. split; [done|]. split.
    + eapply moved_ext; [by apply moved_refl|]. intros [| |]; cbn; [done| |done]. case_decide; [|done].
      symmetry. by apply cells_sum_false.
    + split; cbn; [apply fits_empty|done|done|lia|done].
  - intros a w' (past & E & M & Hs). rewrite app_nil_r in E. by subst past.
Qed.

Lemma trim_manager_ok kept (a : load_acc) b (g : Bitmap2D) w :
  world_ok w → b ∈ dkeys (w_l1 w) → grid_ok r cols kept → fits r cols (ld_reserved a) → dget b (ms_state (ld_reserved a)) = Some g →
  hwp (trim_manager groups tag kept a (b, g))
    (λ a' w', moved (λ k, m_stage groups tag (ld_reserved a') k - m_stage groups tag (ld_reserved a) k) w w' ∧
       fits r cols (ld_reserved a') ∧ dkeys (ms_state (ld_reserved a')) = dkeys (ms_state (ld_reserved a)) ∧
       ld_failed a' = ld_failed a ∧ (∀ x, x ≠ b → dget x (ms_state (ld_reserved a')) = dget x (ms_state (ld_reserved a))) ∧
       ∀ x i j, locked (ld_reserved a') x i j = if decide (b = x) then locked (ld_reserved a) x i j && cell kept i j
                                                else locked (ld_reserved a) x i j) (λ _, False) w.
Proof.
  intros Hw Hb Hk Hf Eg. pose proof (fits_get r cols _ _ _ staged_rows Hf Eg) as Hg. unfold trim_manager. cbn [fst snd].
  destruct (grid_sub_ok r cols g kept Hg Hk) as (extra & Ee & He & Hce). apply hwp_bind. eapply hwp_lift; [exact Ee|].
  assert (∀ i j, locked (ld_reserved a) b i j = cell g i j) as Hlk by (intros i j; unfold locked; by rewrite Eg).
  apply hwp_bind. eapply hwp_mono; [apply (discard_cells_moves r cols groups (rk_shape _ Hreq)); [done|done|exact He]| |done].
  intros keys w1 [M ->]. destruct (rows_of groups extra ≫= snd) as [|y keys] eqn:Ek.
  - pose proof (rows_none r cols groups extra (rk_shape _ Hreq) He Ek) as Hnone. apply hwp_ret. split_and!; try done.
    + eapply moved_ext; [exact M|]. intros k. cbn beta. rewrite Z.sub_diag. destruct k; cbn; [done| |done].
      case_decide; [|done]. by rewrite cells_sum_false.
    + intros x i j. case_decide as Hd; [|done]. subst x. rewrite Hlk. specialize (Hnone i j). rewrite Hce in Hnone.
      by destruct (cell g i j), (cell kept i j).
  - destruct (grid_and_ok r cols g kept Hg Hk) as (rest & Er & Hr & Hcr). apply hwp_bind. eapply hwp_lift; [exact Er|].
    destruct (fits_set r cols b rest (ld_reserved a) staged_rows Hf Hr) as (m & Em & Hm & Es & Hl). apply hwp_bind.
    eapply hwp_lift; [exact Em|]. apply hwp_ret. cbn [ld_reserved ld_failed]. split_and!; [|done| |done| |].
    + eapply moved_ext; [exact M|]. intros k. cbn beta. rewrite (m_stage_set groups tag (ld_reserved a) m b _ k Hl).
      destruct k as [|i x t|]; cbn; [done| |done]. repeat case_decide; try lia; try tauto.
      rewrite (cells_sum_sub groups (λ _, 1) (cell g) (cell extra) (cell rest)).
      * rewrite (cells_sum_ext _ _ (locked (ld_reserved a) b) (cell g)) by done. lia.
      * intros i' j. rewrite Hcr, Hce. by destruct (cell g i' j), (cell kept i' j).
      * intros i' j. rewrite Hce. by intros [? _]%andb_true_iff.
    + rewrite Es. by eapply dkeys_dset_in.
    + intros x Hx. rewrite Es, dget_dset. by rewrite decide_False.
    + intros x i j. rewrite Hl. case_decide as Hd; [|done]. subst x. by rewrite Hcr, Hlk.
Qed.

Lemma trim_columns_ok plans (a : load_acc) w :
  world_ok w → staged plans a → 0 < ld_failed a → (∀ x, x ∈ dkeys plans → x ∈ dkeys (w_l1 w)) →
  hwp (trim_columns groups tag a)
    (λ a' w', moved (λ k, m_stage groups tag (ld_reserved a') k - m_stage groups tag (ld_reserved a) k) w w' ∧
       staged plans a' ∧ ld_failed a' = ld_failed a) (λ _, False) w.
Proof.
  intros Hw Hst Hfail Hkeys. pose proof Hst as [F1 F2 F3 F4 F5].
  assert (hwp (h_ret a) (λ a' w', moved (λ k, m_stage groups tag (ld_reserved a') k - m_stage groups tag (ld_reserved a) k) w w' ∧
    staged plans a' ∧ ld_failed a' = ld_failed a) (λ _, False) w) as Hnone.
  { apply hwp_ret. split_and!; [|done|done]. eapply moved_ext; [by apply moved_refl|]. intros k. cbn beta. lia. }
  unfold trim_columns. apply hwp_bind. pose proof F1 as [Hwf [Hlay|Hlay]].
  { unfold merge. rewrite Hlay. eapply hwp_lift; [done|]. exact Hnone. }
  destruct (merge_ok r cols (ld_reserved a) Hwf Hlay) as (g & Eg & Hg & _). eapply hwp_lift; [exact Eg|].
  destruct g as [|row rest] eqn:E; [exact Hnone|]. rewrite <-E in *. clear E row rest.
  destruct (all_grouped_ok r cols g staged_rows Hg) as (rows & Er & Hrows & _). apply hwp_bind. eapply hwp_lift; [exact Er|].
  apply hwp_bind. eapply hwp_lift; [eapply new_grid_ok, Hrows|].
  eapply hwp_mono; [apply (hwp_fold (trim_manager groups tag rows) (λ l a' w',
    moved (λ k, m_stage groups tag (ld_reserved a') k - m_stage groups tag (ld_reserved a) k) w w' ∧
    staged plans a' ∧ ld_failed a' = ld_failed a ∧ NoDup l.*1 ∧ ∀ x gx, (x, gx) ∈ l → dget x (ms_state (ld_reserved a')) = Some gx)
    (λ _, False))| |done].
  - intros [b g0] l a1 w1 _ (M & [G1 G2 G3 G4 G5] & Hf & Hnd & Hl). apply NoDup_cons in Hnd as [Hnb Hnd].
    assert (dget b (ms_state (ld_reserved a1)) = Some g0) as Eb by (apply Hl; left).
    assert (b ∈ dkeys (ms_state (ld_reserved a1))) as Hb by (apply dget_is_Some; by eexists).
    eapply hwp_mono; [apply (trim_manager_ok rows a1 b g0 w1)| |done]; [apply M| |done|done|done|].
    { rewrite (mv_l1 _ _ _ M). by apply Hkeys, G2. }
    intros a2 w2 (M2 & H1 & H2 & H3 & H4 & H5). split_and!.
    + eapply moved_trans; [exact M|exact M2|]. intros k. cbn beta. lia.
    + split; [done|intros x; rewrite H2; apply G2| |lia|lia]. intros x i j. rewrite H5. case_decide; [|apply G3].
      intros [? _]%andb_true_iff. by apply G3.
    + congruence.
    + done.
    + intros x gx Hx. rewrite H4; [apply Hl; by right|]. intros ->. apply Hnb. cbn. apply list_elem_of_fmap. by exists (b, gx).
  - split_and!; [|done|done|apply Hwf|].
    + eapply moved_ext; [by apply moved_refl|]. intros k. cbn beta. lia.
    + intros x gx Hx. apply elem_dget; [apply Hwf|done].
  - intros a' w' (M & Hs & Hf & _). done.
Qed.
End staging.

(** ** After failed reservations *)

Section reserved.
Context {S A D1 D2 P T : Type} `{EqDecision T} {IL : L1Tier S T} {IA : L2Prefetch A T}.
Context (c : PrefetchController S A D1 D2 P T) (r cols : nat) (Hr : (0 < r)%nat).

Definition has_buffer (reserved : MapState) (b : Z) (i j : nat) : bool :=
  match dget b (pc_affinity c) with Some a => locked reserved a i j | None => false end.

Lemma reserved_part_ok reserved (items : dict Z Bitmap2D) m :
  fits r cols reserved → fits r cols m → NoDup (dkeys items) →
  (∀ b (g : Bitmap2D), (b, g) ∈ items →
     grid_ok r cols g ∧ ∃ a, dget b (pc_affinity c) = Some a ∧ a ∈ dkeys (ms_state reserved)) →
  ∃ m', reserved_part c reserved items m = Ret m' ∧ fits r cols m' ∧
    (∀ x, x ∈ dkeys (ms_state m') ↔ x ∈ dkeys (ms_state m) ∨ x ∈ dkeys items) ∧
    (∀ x i j, locked m' x i j = if decide (x ∈ dkeys items) then dcell items x i j && has_buffer reserved x i j else locked m x i j).
Proof.
  intros Hres. revert m. induction items as [|[b g] items IH]; intros m Hm Hnd Hi.
  { exists m. split_and!; [done|done| |done]. intros x. split; [by left|]. intros [?|?%not_elem_of_nil]; done. }
  destruct (Hi b g ltac:(left)) as (Hg & a & Ea & Ha). cbn [reserved_part]. unfold _get_l2_affinity_manager. rewrite Ea. cbn [py_bind].
  unfold ms_get. apply dget_is_Some in Ha as [gr Egr]. rewrite Egr. cbn [py_bind].
  destruct (grid_and_ok r cols g gr Hg (fits_get r cols _ _ _ Hr Hres Egr)) as (both & -> & Hb & Hcb). cbn [py_bind].
  destruct (fits_set r cols b both m Hr Hm Hb) as (m1 & -> & Hm1 & Es & Hl). cbn [py_bind].
  change (dkeys ((b, g) :: items)) with (b :: dkeys items) in *. apply NoDup_cons in Hnd as [Hnb Hnd].
  destruct (IH m1 Hm1 Hnd) as (m' & E' & Hm' & Hk & Hl'); [intros; apply Hi; by right|]. exists m'. split_and!; [done|done| |].
  - intros x. rewrite Hk, Es, elem_dkeys_dset, elem_of_cons. tauto.
  - intros x i j. rewrite Hl', Hl, dcell_cons by done. destruct (decide (x ∈ dkeys items)) as [Hx|Hx].
    + rewrite decide_True by (by right). rewrite decide_False; [done|congruence].
    + destruct (decide (b = x)) as [->|Hne].
      * rewrite decide_True by left. rewrite Hcb. unfold has_buffer, locked. by rewrite Ea, Egr.
      * rewrite decide_False; [done|]. intros [->|?]%elem_of_cons; done.
Qed.

Lemma is_eligible_ok (q : Request T) b : b ∈ dkeys (w_l2 (pc_world c)) → ∃ ok, _is_l2_eligible c q b = Ret ok.
Proof.
  unfold _is_l2_eligible. destruct (dmem b (pc_draining c)); [by eexists|]. intros [m ->]%dget_is_Some. by eexists.
Qed.

Lemma eligible_descs_ok (q : Request T) descs :
  (∀ b, b ∈ dkeys descs → b ∈ dkeys (w_l2 (pc_world c))) → ∃ active, eligible_descs c q descs = Ret active ∧ sublist active descs.
Proof.
  induction descs as [|[b d] descs IH]; intros Hk; [by exists []|]. cbn [eligible_descs].
  destruct IH as (active & -> & Hsub); [intros x Hx; apply Hk; by right|].
  destruct (is_eligible_ok q b) as [ok ->]; [apply Hk; left|].
  cbn [py_bind]. destruct ok; eexists; (split; [done|]); by constructor.
Qed.

Lemma eligible_adapters_ok (q : Request T) adapters :
  (∀ b, b ∈ adapters → b ∈ dkeys (w_l2 (pc_world c))) →
  ∃ active, eligible_adapters c q adapters = Ret active ∧ sublist active adapters.
Proof.
  induction adapters as [|b adapters IH]; intros Hk; [by exists []|]. cbn [eligible_adapters].
  destruct IH as (active & -> & Hsub); [intros x Hx; apply Hk; by right|].
  destruct (is_eligible_ok q b) as [ok ->]; [apply Hk; left|].
  cbn [py_bind]. destruct ok; eexists; (split; [done|]); by constructor.
Qed.
End reserved.
