(* ===== verification/PrefetchInv.v ===== *)
(** * What the prefetch controller holds

    The records of a request against the log of the world: for every L1 manager
    and key, the read locks granted and not yet returned or handed to a client
    are those the requests in flight record; the same for L1 buffers and for L2
    locks. First each method on one request, then the controller. *)

From stdpp Require Import gmap list strings relations.
From Stdlib Require Import ZArith Lia.
From S2P Require Import Prelude PyFloat TensorAllocator Keys L1Memory L1Manager Bitmap Fold Grid PrefetchPolicy Cells Handler PrefetchController PrefetchMoves PrefetchLoad.

Open Scope Z_scope.
Open Scope handler_scope.

(** ** What a method starts from *)

Record env_ok {S A D1 D2 P T} `{L1TierLaws S T} `{L2PrefetchLaws A T} `{PrefetchPolicyLaws P D1 D2} (c : PrefetchController S A D1 D2 P T) : Prop := {
  ev_world : world_ok (pc_world c);
  ev_l1 : NoDup (dkeys (pc_l1_descs c)) ∧ ∀ i, i ∈ dkeys (pc_l1_descs c) ↔ i ∈ dkeys (w_l1 (pc_world c));
  ev_l2 : NoDup (dkeys (pc_descs c)) ∧ ∀ i, i ∈ dkeys (pc_descs c) ↔ i ∈ dkeys (w_l2 (pc_world c));
  ev_affinity : ∀ i, i ∈ dkeys (w_l2 (pc_world c)) →
    ∃ a, dget i (pc_affinity c) = Some a ∧ a ∈ dkeys (w_l1 (pc_world c));
  ev_policy : policy_wf (pc_policy c);
  ev_l1_nodup : NoDup (dkeys (w_l1 (pc_world c)));
  ev_l2_nodup : NoDup (dkeys (w_l2 (pc_world c)))
}.

(** What holds of the maps of a request with these [groups], among the L1
    managers [l1] and the L2 adapters [l2]: they have its shape and name managers
    and adapters that are there. *)
Record maps_ok {T} (groups : list GroupedObjectKeys) (l1 l2 : list Z) (q : Request T) : Prop := {
  mo_l1 : fits (length groups) (num_chunks_of groups) (rq_l1_locked q);
  mo_l2 : fits (length groups) (num_chunks_of groups) (rq_l2_locked q);
  mo_buffers : fits (length groups) (num_chunks_of groups) (rq_l1_reserved q);
  mo_l1_keys : ∀ i, i ∈ dkeys (ms_state (rq_l1_locked q)) → i ∈ l1;
  mo_l2_keys : ∀ i, i ∈ dkeys (ms_state (rq_l2_locked q)) → i ∈ l2;
  mo_buffer_keys : ∀ i, i ∈ dkeys (ms_state (rq_l1_reserved q)) → i ∈ l1;
  mo_lookups : ∀ i, i ∈ dkeys (rq_lookups q) → i ∈ l2;
  mo_loads : ∀ i, i ∈ dkeys (rq_loads q) → i ∈ l2;
  mo_loaded : rq_loaded q = [] ∨ grid_ok (length groups) (num_chunks_of groups) (rq_loaded q);
  mo_found : ∀ g, rq_l2_found q = Some g → grid_ok (length groups) (num_chunks_of groups) g
}.

(** A request before its load phase: nothing is staged, and what it has locked in
    L2 is that of the adapters that answered. *)
Record looking {T} (q : Request T) : Prop := {
  lk_nodup : NoDup (dkeys (rq_lookups q));
  lk_loads : rq_loads q = [];
  lk_buffers : ms_state (rq_l1_reserved q) = [];
  lk_free : ∀ i, i ∈ dkeys (rq_lookups q) → i ∉ dkeys (ms_state (rq_l2_locked q))
}.

(** Once loads are planned: no cell is locked twice, and the staged cells of a
    manager are those that some adapter loads into it. *)
Record planned {T} (affinity : dict Z Z) (q : Request T) : Prop := {
  pl_once : ∀ a b i j, locked (rq_l2_locked q) a i j = true → locked (rq_l2_locked q) b i j = true → a = b;
  pl_apart : ∀ a b i j, locked (rq_l1_locked q) a i j = true → locked (rq_l2_locked q) b i j = false;
  pl_staged : ∀ a i j, locked (rq_l1_reserved q) a i j = true ↔
                ∃ b, dget b affinity = Some a ∧ locked (rq_l2_locked q) b i j = true;
  pl_held : ∀ b a, b ∈ dkeys (ms_state (rq_l2_locked q)) → dget b affinity = Some a → a ∈ dkeys (ms_state (rq_l1_reserved q))
}.

(** A request with load tasks: every adapter with locked cells has one. *)
Record loading {T} (affinity : dict Z Z) (q : Request T) : Prop := {
  lo_lookups : rq_lookups q = [];
  lo_nodup : NoDup (dkeys (rq_loads q));
  lo_planned : planned affinity q;
  lo_cover : ∀ b i j, locked (rq_l2_locked q) b i j = true → b ∈ dkeys (rq_loads q)
}.

(** ** Rules for methods *)

Section rules.
Context {S A D1 D2 P T : Type} `{EqDecision T}.
Context {IL : L1Tier S T} {LL : L1TierLaws S T} {IA : L2Prefetch A T} {LA : L2PrefetchLaws A T}.

#[local] Abbreviation PC := (PrefetchController S A D1 D2 P T).
#[local] Abbreviation Req := (Request T).
#[local] Abbreviation W := (World S A).

(** The controller a method starts from, and what is out on behalf of others. *)
Context (c0 : PC) (base : kind → Z).

(** In the middle of a method: [out] is out on behalf of its request. *)
Record stands (out : kind → Z) (c : PC) : Prop := {
  st_ctl : c = set_world (pc_world c) c0;
  st_world : world_ok (pc_world c);
  st_l1 : dkeys (w_l1 (pc_world c)) = dkeys (w_l1 (pc_world c0));
  st_l2 : dkeys (w_l2 (pc_world c)) = dkeys (w_l2 (pc_world c0));
  st_net : ∀ k, net k (w_log (pc_world c)) = base k + out k
}.

Lemma stands_ext out out' c : stands out c → (∀ k, out k = out' k) → stands out' c.
Proof. intros [? ? ? ? Hn] Hout. split; [done..|]. intros k. by rewrite Hn, Hout. Qed.

(** The controller's other fields are those it started with. *)
Lemma st_fields out c :
  stands out c → pc_l1_descs c = pc_l1_descs c0 ∧ pc_descs c = pc_descs c0 ∧ pc_policy c = pc_policy c0 ∧
    pc_affinity c = pc_affinity c0 ∧ pc_in_flight c = pc_in_flight c0 ∧ pc_results c = pc_results c0 ∧
    pc_draining c = pc_draining c0.
Proof. intros [E _ _ _ _]. rewrite E. done. Qed.

Lemma stands_moved out delta c w' :
  stands out c → moved delta (pc_world c) w' → stands (λ k, out k + delta k) (set_world w' c).
Proof.
  intros [E Hw H1 H2 Hn] [Ow A1 A2 N]. split; cbn [set_world pc_world].
  - rewrite E. done.
  - done.
  - congruence.
  - congruence.
  - intros k. rewrite N, Hn. lia.
Qed.

(** A call on the world that returns. *)
Lemma wp_world_last {X} (h : handler W X) (delta : X → kind → Z) (Q : X → Prop) (R : X → PC * Req → Prop) E out c q :
  stands out c →
  hwp h (λ x w', moved (delta x) (pc_world c) w' ∧ Q x) (λ _, False) (pc_world c) →
  (∀ x c', Q x → stands (λ k, out k + delta x k) c' → R x (c', q)) → hwp (on_world h) R E (c, q).
Proof.
  intros Hs Hh Hk. unfold hwp, on_world in *. cbn [fst snd]. destruct (h (pc_world c)) as [[x|e] w']; [|done].
  destruct Hh as [M HQ]. apply Hk; [done|]. by apply stands_moved.
Qed.

Lemma wp_world {X Y} (h : handler W X) (delta : X → kind → Z) (Q : X → Prop) (k : X → handler (PC * Req) Y) R E out c q :
  stands out c →
  hwp h (λ x w', moved (delta x) (pc_world c) w' ∧ Q x) (λ _, False) (pc_world c) →
  (∀ x c', Q x → stands (λ k, out k + delta x k) c' → hwp (k x) R E (c', q)) →
  hwp (let^ x := on_world h in k x) R E (c, q).
Proof. intros Hs Hh Hk. apply hwp_bind. by eapply (wp_world_last h delta Q). Qed.

Lemma wp_moves {X Y} (h : handler W X) delta (k : X → handler (PC * Req) Y) R E out c q :
  stands out c → moves h delta (pc_world c) →
  (∀ x c', stands (λ k, out k + delta k) c' → hwp (k x) R E (c', q)) →
  hwp (let^ x := on_world h in k x) R E (c, q).
Proof.
  intros Hs Hh Hk. eapply (wp_world h (λ _, delta) (λ _, True)); [done| |by intros x c' _; apply Hk].
  eapply hwp_mono; [exact Hh|by intros x w' M|done].
Qed.

(** A call that can raise, with the log as it was. *)
Lemma wp_call {X Y} idx (call : A → py X * A) (ev : X → list pf_event) (k : X → handler (PC * Req) Y) R (E : PC * Req → Prop) out c q :
  stands out c → (∀ a, l2_ok a → l2_ok (call a).2) →
  (∀ c', stands out c' → E (c', q)) →
  (∀ x c' a a', l2_ok a → call a = (Ret x, a') → stands (λ k, out k + net k (ev x)) c' → hwp (k x) R E (c', q)) →
  hwp (let^ x := on_world (on_l2 idx call ev) in k x) R E (c, q).
Proof.
  intros Hs Hok HE Hk. apply hwp_bind. pose proof (on_l2_moves idx call ev (pc_world c) (st_world _ _ Hs) Hok) as Hm.
  unfold hwp, on_world in *. cbn [fst snd]. destruct (on_l2 idx call ev (pc_world c)) as [[x|e] w'].
  - destruct Hm as (M & a & a' & Ha & Ec). apply (Hk x _ a a' Ha Ec). exact (stands_moved _ _ _ _ Hs M).
  - apply HE. eapply stands_ext; [exact (stands_moved _ _ _ _ Hs Hm)|]. intros k'. cbn beta. lia.
Qed.

Lemma wp_get {Y} (k : PC * Req → handler (PC * Req) Y) R E c q :
  hwp (k (c, q)) R E (c, q) → hwp (let^ s := h_get in k s) R E (c, q).
Proof. done. Qed.

Lemma wp_lift {X Y} (m : py X) x (k : X → handler (PC * Req) Y) R E c q :
  m = Ret x → hwp (k x) R E (c, q) → hwp (let^ x := h_lift m in k x) R E (c, q).
Proof. by intros ->. Qed.

(** A computation that can raise. *)
Lemma wp_try {X Y} (m : py X) (k : X → handler (PC * Req) Y) R (E : PC * Req → Prop) c q :
  E (c, q) → (∀ x, m = Ret x → hwp (k x) R E (c, q)) → hwp (let^ x := h_lift m in k x) R E (c, q).
Proof. intros HE Hk. destruct m as [x|e] eqn:Em; [by apply Hk|exact HE]. Qed.

Lemma wp_req {Y} (f : Req → Req) (k : unit → handler (PC * Req) Y) R E c q :
  hwp (k tt) R E (c, f q) → hwp (let^ x := on_req f in k x) R E (c, q).
Proof. done. Qed.
End rules.

(** ** The hits of a request *)

Section hits.
Context {T : Type} (groups : list GroupedObjectKeys) (Hreq : request_ok groups).

#[local] Abbreviation r := (length groups).
#[local] Abbreviation cols := (num_chunks_of groups).

(** The hits of a request, given the cells that were found: those that the longest
    servable prefix needs, or the whole columns. *)
Definition hit_spec (policy : FetchingPolicy) (found : Bitmap2D) (i j : nat) : Prop :=
  match policy with
  | prefix => wanted prefix cols found (windows_of groups) i j
  | full => (i < r)%nat ∧ ∀ i', (i' < r)%nat → cell found i' j = true
  end.

Lemma final_hits_run l1 l2 (q : Request T) :
  rq_groups q = groups → maps_ok groups l1 l2 q → ∃ found hits, final_hits true q = Ret (found, hits) ∧ grid_ok r cols found ∧ grid_ok r cols hits ∧
    (∀ i j, cell found i j = true ↔ ∃ a, locked (rq_l1_locked q) a i j = true) ∧
    (∀ i j, cell hits i j = true → cell found i j = true) ∧ (∀ i j, cell hits i j = true ↔ hit_spec (rq_policy q) found i j).
Proof.
  intros Eg [[Hwf Hlay] _ _ _ _ _ _ _ _ _]. unfold final_hits. rewrite Eg.
  assert (∃ found, (let! merged := merge (rq_l1_locked q) in
      match merged with [] => grid_zeros (Z.of_nat r) (Z.of_nat cols) | _ => Ret merged end)%py = Ret found ∧ grid_ok r cols found ∧
    (∀ i j, cell found i j = true ↔ ∃ a, locked (rq_l1_locked q) a i j = true)) as (found & Ef & Hf & Hcf).
  { destruct Hlay as [Hn|Hs].
    - unfold merge. rewrite Hn. cbn [new_grid py_bind]. destruct (grid_zeros_ok r cols) as (z & Ez & Hz & Hcz). exists z.
      split_and!; [exact Ez|done|]. intros i j. rewrite Hcz. split; [done|]. intros [a Ha]. unfold locked in Ha.
      destruct (dget a (ms_state (rq_l1_locked q))) as [h|] eqn:E'; [|done].
      destruct (ms_shape _ Hwf a h E') as (? & ? & ? & _). congruence.
    - destruct (merge_ok r cols _ Hwf Hs) as (g & -> & Hg & Hc). cbn [py_bind]. destruct g as [|row rest] eqn:E; [|by exists (row :: rest)].
      destruct Hg as [Hl _]. pose proof (request_rows _ Hreq). cbn in Hl. lia. }
  destruct (merge (rq_l1_locked q)) as [merged|]; [|done]. cbn [py_bind] in *. rewrite Ef. cbn [py_bind].
  pose proof Hf as [Hlen Hrows]. pose proof (rk_windows _ Hreq) as [Hw Hn]. pose proof (request_rows _ Hreq) as Hr.
  assert (found ≠ []) as Hne by (intros ->; cbn in Hlen; lia).
  assert (length found = length (windows_of groups)) as Hl by (unfold windows_of; rewrite length_fmap; done).
  destruct (fold_unfold_grouped_run cols found (windows_of groups) Hrows Hne Hl Hw Hn) as (h & Hh & E). fold (windows_of groups). rewrite E.
  cbn [py_bind snd]. destruct (rq_policy q).
  - destruct (retain_grid cols found (windows_of groups) h Hh) as [Hk Hck]. rewrite <-Hl, Hlen in Hk.
    rewrite (new_grid_ok cols) by apply Hk. cbn [py_bind].
    destruct (grid_and_ok r cols _ found Hk Hf) as (hits & -> & Hhits & Hc). cbn [py_bind]. exists found, hits.
    split_and!; try done; intros i j; rewrite Hc; [by intros [_ ?]%andb_true_iff|]. rewrite andb_true_iff, Hck. cbn [hit_spec wanted]. split.
    + intros [(w & Hwi & Hret) _]. by exists h, w.
    + intros (h' & w & Hh' & Hwi & Hret). rewrite (longest_hit_unique _ _ _ _ _ Hh' Hh) in Hret. split; [by exists w|].
      eapply (prefix_needed cols found (windows_of groups) h); [exact Hh|exact Hl|by exists w].
  - destruct (all_grouped_ok r cols found Hr Hf) as (rows & -> & Hro & Hc). cbn [py_bind]. rewrite (new_grid_ok cols) by apply Hro.
    cbn [py_bind]. exists found, rows. split_and!; try done. intros i j [Hi Hall]%Hc. by apply Hall.
Qed.
End hits.

(** ** Methods on one request *)

Section request.
Context {S A D1 D2 P T : Type} `{EqDecision T}.
Context {IL : L1Tier S T} {LL : L1TierLaws S T} {IA : L2Prefetch A T} {LA : L2PrefetchLaws A T}.
Context {IP : PrefetchPolicy P D1 D2} {LP : PrefetchPolicyLaws P D1 D2}.

#[local] Abbreviation PC := (PrefetchController S A D1 D2 P T).
#[local] Abbreviation Req := (Request T).

Context (c0 : PC) (base : kind → Z) (groups : list GroupedObjectKeys) (id : Z).
Context (Henv : env_ok c0) (Hreq : request_ok groups).

#[local] Abbreviation r := (length groups).
#[local] Abbreviation cols := (num_chunks_of groups).
#[local] Abbreviation tag := (_get_prefetch_write_tag id).
#[local] Abbreviation K1 := (dkeys (w_l1 (pc_world c0))).
#[local] Abbreviation K2 := (dkeys (w_l2 (pc_world c0))).

(** A request of the method. *)
Record mine (q : Req) : Prop := {
  mi_groups : rq_groups q = groups;
  mi_id : rq_id q = id;
  mi_maps : maps_ok groups K1 K2 q
}.

(** What is out is what the request records. *)
Definition holds (s : PC * Req) : Prop := mine s.2 ∧ stands c0 base (recorded s.2) s.1.

Lemma rows_pos : (0 < r)%nat.
Proof. by apply request_rows. Qed.

Lemma affinity_of out c i :
  stands c0 base out c → i ∈ K2 → ∃ a, _get_l2_affinity_manager c i = Ret a ∧ dget i (pc_affinity c0) = Some a ∧ a ∈ K1.
Proof.
  intros Hs Hi. destruct (ev_affinity _ Henv i Hi) as (a & Ea & Ha). exists a. split; [|done].
  unfold _get_l2_affinity_manager. destruct (st_fields _ _ _ _ Hs) as (_ & _ & _ & E & _). by rewrite E, Ea.
Qed.

(** The walks over the maps move the world by what the maps stand for. *)
Lemma mine_shape : groups_ok r cols groups.
Proof. apply Hreq. Qed.

Lemma world_l1 out c i : stands c0 base out c → i ∈ K1 → i ∈ dkeys (w_l1 (pc_world c)).
Proof. intros Hs. by rewrite (st_l1 _ _ _ _ Hs). Qed.

Lemma world_l2 out c i : stands c0 base out c → i ∈ K2 → i ∈ dkeys (w_l2 (pc_world c)).
Proof. intros Hs. by rewrite (st_l2 _ _ _ _ Hs). Qed.

(** *** Releasing *)

Definition cleared (q : Req) : Req := set_l1_reserved ms_empty (set_l2_locked ms_empty (set_l1_locked ms_empty q)).

Lemma m_zero_l1 k : m_read groups ms_empty k = 0.
Proof. destruct k; [by apply cells_sum_false|done..]. Qed.

Lemma m_zero_stage k : m_stage groups tag ms_empty k = 0.
Proof. destruct k; [done| |done]. cbn. case_decide; [by apply cells_sum_false|done]. Qed.

Lemma m_zero_l2 k : m_lock2 groups ms_empty k = 0.
Proof. destruct k; [done..|by apply cells_sum_false]. Qed.

Lemma recorded_mine q k :
  mine q → recorded q k = m_read groups (rq_l1_locked q) k + m_stage groups tag (rq_l1_reserved q) k + m_lock2 groups (rq_l2_locked q) k.
Proof. intros [Eg Ei _]. unfold recorded. by rewrite Eg, Ei. Qed.

Lemma release_all_wp (R : unit → PC * Req → Prop) E c q :
  holds (c, q) → (∀ c', stands c0 base (λ _, 0) c' → R tt (c', cleared q)) → hwp _release_all_locks R E (c, q).
Proof.
  intros [Hq Hs] HR. cbn [fst snd] in *. pose proof Hq as [Eg Ei [F1 F2 F3 K1' K2' K3' _ _ _ _]].
  unfold _release_all_locks. apply wp_get. cbn [fst snd]. rewrite Eg, Ei.
  eapply (wp_moves c0 base); [exact Hs| |].
  { eapply (unlock_attached_map r cols); [exact mine_shape|exact rows_pos|apply Hs|exact F2|].
    intros i Hi. eapply world_l2; [done|by apply K2']. }
  intros _ c1 Hs1. eapply (wp_moves c0 base); [exact Hs1| |].
  { eapply (discard_map r cols); [exact mine_shape|exact rows_pos|apply Hs1|exact F3|].
    intros i Hi. eapply world_l1; [done|by apply K3']. }
  intros _ c2 Hs2. eapply (wp_moves c0 base); [exact Hs2| |].
  { eapply (release_map r cols); [exact mine_shape|exact rows_pos|apply Hs2|exact F1|].
    intros i Hi. eapply world_l1; [done|by apply K1']. }
  intros _ c3 Hs3. apply HR. eapply stands_ext; [exact Hs3|]. intros k. cbn beta. rewrite (recorded_mine q k Hq). lia.
Qed.

(** *** Updates of the maps *)

Lemma mine_l1 m q :
  mine q → fits r cols m → (∀ i, i ∈ dkeys (ms_state m) → i ∈ K1) → mine (set_l1_locked m q).
Proof. intros [Eg Ei []] Hm Hk. split; [done|done|by split]. Qed.

Lemma mine_l2 m q :
  mine q → fits r cols m → (∀ i, i ∈ dkeys (ms_state m) → i ∈ K2) → mine (set_l2_locked m q).
Proof. intros [Eg Ei []] Hm Hk. split; [done|done|by split]. Qed.

Lemma mine_buffers m q :
  mine q → fits r cols m → (∀ i, i ∈ dkeys (ms_state m) → i ∈ K1) → mine (set_l1_reserved m q).
Proof. intros [Eg Ei []] Hm Hk. split; [done|done|by split]. Qed.

Lemma mine_tasks lookups loads q :
  mine q → (∀ i, i ∈ dkeys lookups → i ∈ K2) → (∀ i, i ∈ dkeys loads → i ∈ K2) → mine (set_tasks lookups loads q).
Proof. intros [Eg Ei []] Hm Hk. split; [done|done|by split]. Qed.

Lemma mine_found found loaded q :
  mine q → (∀ g, found = Some g → grid_ok r cols g) → loaded = [] ∨ grid_ok r cols loaded → mine (set_found found loaded q).
Proof. intros [Eg Ei []] Hm Hk. split; [done|done|by split]. Qed.

Lemma mine_cleared q : mine q → mine (cleared q).
Proof.
  intros Hq. apply mine_buffers; [|apply fits_empty|by intros i ?%not_elem_of_nil].
  apply mine_l2; [|apply fits_empty|by intros i ?%not_elem_of_nil].
  apply mine_l1; [done|apply fits_empty|by intros i ?%not_elem_of_nil].
Qed.

Lemma holds_cleared c q : mine q → stands c0 base (λ _, 0) c → holds (c, cleared q).
Proof.
  intros Hq Hs. split; [by apply mine_cleared|]. eapply stands_ext; [exact Hs|]. intros k. symmetry.
  etrans; [apply (recorded_mine (cleared q)); by apply mine_cleared|]. cbn. by rewrite m_zero_l1, m_zero_stage, m_zero_l2.
Qed.

(** *** Locking *)

Lemma lock_manager_wp idx (R : unit → PC * Req → Prop) E c q :
  holds (c, q) → idx ∈ K1 → idx ∉ dkeys (ms_state (rq_l1_locked q)) →
  (∀ m c', holds (c', set_l1_locked m q) → (∀ x, x ∈ dkeys (ms_state m) → x = idx ∨ x ∈ dkeys (ms_state (rq_l1_locked q))) →
     R tt (c', set_l1_locked m q)) →
  hwp (lock_manager idx) R E (c, q).
Proof.
  intros [Hq Hs] Hidx Hfree HR. cbn [fst snd] in *. pose proof Hq as [Eg Ei [F1 F2 F3 K1' K2' K3' _ _ _ _]].
  unfold lock_manager. apply wp_get. cbn [fst snd]. pose proof (world_l1 _ _ _ Hs Hidx) as Hin.
  pose proof Hin as [m Em]%dget_is_Some. rewrite Em. destruct (_tags_allowed (tier_tags m) (rq_l1_tags q)); cbn [negb].
  2: { apply hwp_ret. replace q with (set_l1_locked (rq_l1_locked q) q) by (by destruct q).
       apply HR; [by destruct q|]. intros x Hx. by right. }
  unfold get_flattened_keys. rewrite Eg. eapply (wp_world c0 base _ (granted groups idx) _ _ _ _ (recorded q)); [exact Hs| |].
  { eapply hwp_mono; [apply (reserve_read_fold idx groups []); [apply Hs|done|apply Hreq]| |done].
    intros result w' (M & Hans & _). split; [exact M|exact Hans]. }
  intros result c1 Hans Hs1. set (flat := groups ≫= gk_keys) in *.
  destruct (mark_loop_ok flat 0 result (new_bitmap (length flat))) as (b & Eb & Hwf & Hsz & Ht); [done|apply new_bitmap_wf|done|].
  eapply wp_lift; [exact Eb|]. assert (bm_size b = r * cols)%nat as Hsize.
  { rewrite Hsz. apply (length_flat r cols), Hreq. }
  destruct (scatter_full_ok r cols b Hwf Hsize) as (g & Eg' & Hg & Hcell). eapply wp_lift; [exact Eg'|]. apply wp_get. cbn [snd].
  destruct (fits_set r cols idx g (rq_l1_locked q) rows_pos F1 Hg) as (m' & Em' & Hm' & Es & Hl). eapply wp_lift; [exact Em'|].
  assert (mine (set_l1_locked m' q)) as Hq'.
  { apply mine_l1; [done|done|]. intros x. rewrite Es, elem_dkeys_dset. intros [?| ->]; [by apply K1'|done]. }
  apply HR; [split; [exact Hq'|]|].
  - eapply stands_ext; [exact Hs1|]. intros k. cbn [snd]. rewrite (recorded_mine _ k Hq'), (recorded_mine _ k Hq). cbn.
    rewrite (m_read_set groups (rq_l1_locked q) m' idx (cell g) k Hl).
    rewrite (granted_grid r cols groups idx result b g k mine_shape Hsize); [|intros p; rewrite Ht, new_bitmap_test|done].
    + assert (d_read groups idx (locked (rq_l1_locked q) idx) k = 0) as ->; [|lia].
      destruct k; cbn; [|done..]. case_decide; [|done]. apply cells_sum_false. intros a j. unfold locked.
      apply dget_None in Hfree. by rewrite Hfree.
    + rewrite Nat.sub_0_r. unfold flat. by destruct ((groups ≫= gk_keys) !! p).
  - intros x. rewrite Es, elem_dkeys_dset. tauto.
Qed.

Lemma lock_l1_wp (R : unit → PC * Req → Prop) E c q :
  holds (c, q) → ms_state (rq_l1_locked q) = [] →
  (∀ m c', holds (c', set_l1_locked m q) → R tt (c', set_l1_locked m q)) → hwp _lock_l1_keys R E (c, q).
Proof.
  intros Hh Hempty HR. pose proof (proj2 Hh) as Hst. cbn [fst snd] in Hst.
  assert (hwp (h_iter lock_manager (dkeys (w_l1 (pc_world c))))
    (λ _ s, ∃ m, s.2 = set_l1_locked m q ∧ holds s) (λ _, False) (c, q)) as Hiter.
  { eapply hwp_mono; [apply (hwp_iter lock_manager (λ l s, ∃ m, s.2 = set_l1_locked m q ∧ holds s ∧ NoDup l ∧
      ∀ x, x ∈ l → x ∈ K1 ∧ x ∉ dkeys (ms_state m)) (λ _, False))| |].
    - intros idx l [c1 q1] _ (m & Eq & Hs1 & Hnd & Hl). cbn [snd] in Eq. subst q1. apply NoDup_cons in Hnd as [Hni Hnd].
      destruct (Hl idx ltac:(left)) as [Hi Hf]. apply lock_manager_wp; [done|done|done|]. intros m' c2 Hs2 Hk. exists m'.
      split_and!; [done|done|done|]. intros x Hx. split; [apply Hl; by right|]. intros [->|Hin]%Hk; [done|].
      by destruct (Hl x ltac:(by right)) as [_ ?].
    - exists (rq_l1_locked q). split_and!; [by destruct q|done| |].
      + rewrite (st_l1 _ _ _ _ Hst). apply Henv.
      + intros x. rewrite (st_l1 _ _ _ _ Hst). intros Hx. split; [done|]. cbn. rewrite Hempty. apply not_elem_of_nil.
    - intros [] s1 (m & Eq & Hs1 & _). by exists m.
    - done. }
  unfold hwp, _lock_l1_keys in *. cbn [fst]. destruct (h_iter _ _ (c, q)) as [[[]|e] s']; [|done].
  destruct s' as [c' q']. destruct Hiter as (m & Eq & Hs1). cbn [snd] in Eq. subst q'. by apply HR.
Qed.

(** *** Planning *)

Lemma plan_load_wp active (R : MapState → PC * Req → Prop) E c q :
  holds (c, q) → NoDup (dkeys active) →
  (∀ plan dropped c', plan_ok r cols (rq_l1_locked q) (rq_l2_locked q) plan →
     holds (c', set_l2_locked (l2_planned_keys plan) (set_l1_locked (l1_planned_keys plan) q)) →
     fits r cols dropped → (∀ x, x ∈ dkeys (ms_state dropped) ↔ x ∈ dkeys (ms_state (rq_l2_locked q))) →
     (∀ x i j, locked dropped x i j = locked (rq_l2_locked q) x i j && negb (locked (l2_planned_keys plan) x i j)) →
     R dropped (c', set_l2_locked (l2_planned_keys plan) (set_l1_locked (l1_planned_keys plan) q))) →
  hwp (_plan_load active) R E (c, q).
Proof.
  intros [Hq Hs] Hact HR. cbn [fst snd] in *. pose proof Hq as [Eg Ei [F1 F2 F3 K1' K2' K3' _ _ _ _]].
  unfold _plan_load. apply wp_get. cbn [fst snd]. rewrite Eg. destruct (st_fields _ _ _ _ Hs) as (E1 & _ & E3 & _). rewrite E1, E3.
  destruct (policy_plan_ok groups (rq_l1_locked q) (rq_l2_locked q) (pc_l1_descs c0) active (rq_policy q) (pc_policy c0))
    as (plan & Ep & Hp); [apply Henv|apply Hreq|apply Hreq|apply Henv|done|done|done|]. pose proof Hp as [P1 P2 S1 S2 J1 J2 _ _ _].
  eapply wp_lift; [exact Ep|].
  destruct (ms_sub_ok r cols (rq_l1_locked q) (l1_planned_keys plan) rows_pos F1 P1) as (d1 & Ed1 & D1' & Dk1 & Dl1).
  destruct (ms_sub_ok r cols (rq_l2_locked q) (l2_planned_keys plan) rows_pos F2 P2) as (d2 & Ed2 & D2' & Dk2 & Dl2).
  eapply wp_lift; [exact Ed1|]. eapply wp_lift; [exact Ed2|]. eapply (wp_moves c0 base); [exact Hs| |].
  { eapply (release_map r cols); [exact mine_shape|exact rows_pos|apply Hs|exact D1'|].
    intros i Hi. eapply world_l1; [done|by apply K1', Dk1]. }
  intros _ c1 Hs1. eapply (wp_moves c0 base); [exact Hs1| |].
  { eapply (unlock_map r cols); [exact mine_shape|exact rows_pos|apply Hs1|exact D2'|].
    intros i Hi. eapply world_l2; [done|by apply K2', Dk2]. }
  intros _ c2 Hs2. apply wp_req, hwp_ret.
  assert (mine (set_l2_locked (l2_planned_keys plan) (set_l1_locked (l1_planned_keys plan) q))) as Hq'.
  { apply mine_l2; [apply mine_l1; [done|done|]|done|].
    - intros i Hi. by apply K1', J1.
    - intros i Hi. by apply K2', J2. }
  apply (HR plan d2); [done|split; [exact Hq'|]|done|done|done]. cbn [fst snd].
  eapply stands_ext; [exact Hs2|]. intros k. rewrite (recorded_mine _ k Hq'), (recorded_mine _ k Hq). cbn.
  rewrite (m_read_sub groups d1 _ _ k Dl1 S1), (m_lock2_sub groups d2 _ _ k Dl2 S2). lia.
Qed.

(** *** Lookups *)

Lemma submit_lookup_wp idx (R : unit → PC * Req → Prop) (E : PC * Req → Prop) c q :
  holds (c, q) → idx ∈ K2 →
  (∀ c', holds (c', q) → E (c', q)) →
  (∀ task c', holds (c', set_tasks (dset idx task (rq_lookups q)) (rq_loads q) q) →
     R tt (c', set_tasks (dset idx task (rq_lookups q)) (rq_loads q) q)) →
  hwp (submit_lookup idx) R E (c, q).
Proof.
  intros [Hq Hs] Hidx HE HR. cbn [fst snd] in *. unfold submit_lookup. apply wp_get. cbn [snd].
  eapply (wp_call c0 base); [exact Hs|apply l2_submit_lookup_ok| |].
  - intros c' Hs'. apply HE. by split.
  - intros task c' a a' _ _ Hs'. apply HR. split; cbn [fst snd].
    + pose proof (mi_maps _ Hq) as [_ _ _ _ _ _ Kl Kd _ _]. apply mine_tasks; [done| |exact Kd].
      intros i. rewrite elem_dkeys_dset. intros [?| ->]; [by apply Kl|done].
    + eapply stands_ext; [exact Hs'|]. intros k. apply Z.add_0_r.
Qed.

Lemma poll_lookup_wp signaled task (R : unit → PC * Req → Prop) (E : PC * Req → Prop) c q :
  holds (c, q) → task.1 ∈ K2 → task.1 ∉ dkeys (ms_state (rq_l2_locked q)) →
  (∀ c' q', holds (c', q') → E (c', q')) →
  (∀ c', holds (c', q) → R tt (c', q)) →
  (∀ m found c', let q' := set_tasks (ddel task.1 (rq_lookups q)) (rq_loads q) (set_found found (rq_loaded q) (set_l2_locked m q)) in
     holds (c', q') → (∀ x, x ∈ dkeys (ms_state m) → x = task.1 ∨ x ∈ dkeys (ms_state (rq_l2_locked q))) →
     R tt (c', q')) →
  hwp (poll_lookup signaled task) R E (c, q).
Proof.
  intros [Hq Hs] Hidx Hfree HE HR1 HR2. cbn [fst snd] in *. destruct task as [idx task]. cbn [fst] in *.
  pose proof Hq as [Eg Ei [F1 F2 F3 K1' K2' K3' Kl Kd Hld Hf]]. unfold poll_lookup.
  destruct (bool_decide (idx ∈ signaled)); cbn [negb]; [|by apply hwp_ret, HR1]. apply wp_get. cbn [snd].
  unfold get_flattened_keys. rewrite Eg. eapply (wp_call c0 base); [exact Hs|apply l2_query_lookup_ok|intros c' Hs'; by apply HE|].
  intros [b|] c1 a a' Hok Ec Hs1.
  2: { apply hwp_ret, HR1. split; [done|]. eapply stands_ext; [exact Hs1|]. intros k. apply Z.add_0_r. }
  cbn beta iota in Hs1. rewrite (length_flat r cols groups mine_shape) in Hs1.
  unfold _scatter_bitmaps_full_global at 1. destruct (Nat.eqb_spec (bm_size b) (r * cols)) as [Hsz|Hsz].
  2: { apply wp_try; [|done]. apply HE. split; [done|]. eapply stands_ext; [exact Hs1|]. intros k. apply Z.add_0_r. }
  pose proof (l2_lookup_wf _ _ _ _ Hok Ec) as Hwf. destruct (scatter_full_ok r cols b Hwf Hsz) as (g & Egr & Hg & Hcell).
  unfold _scatter_bitmaps_full_global in Egr. rewrite (proj2 (Nat.eqb_eq _ _) Hsz) in Egr. eapply wp_lift; [exact Egr|].
  destruct (fits_set r cols idx g (rq_l2_locked q) rows_pos F2 Hg) as (m & Em & Hm & Es & Hl). eapply wp_lift; [exact Em|].
  apply wp_req.
  assert (mine (set_l2_locked m q)) as Hq1.
  { apply mine_l2; [done|done|]. intros x. rewrite Es, elem_dkeys_dset. intros [?| ->]; [by apply K2'|done]. }
  assert (∀ found, (∀ g', found = Some g' → grid_ok r cols g') →
    mine (set_tasks (ddel idx (rq_lookups q)) (rq_loads q) (set_found found (rq_loaded q) (set_l2_locked m q)))) as Hq2.
  { intros found Hfound. apply mine_tasks; [by apply mine_found| |done]. intros i [Hi _]%elem_dkeys_ddel. by apply Kl. }
  assert (∀ found, (∀ g', found = Some g' → grid_ok r cols g') →
    R tt (c1, set_tasks (ddel idx (rq_lookups q)) (rq_loads q) (set_found found (rq_loaded q) (set_l2_locked m q)))) as Hend.
  { intros found Hfound. apply HR2.
    - split; [by apply Hq2|]. cbn [fst snd]. eapply stands_ext; [exact Hs1|]. intros k.
      rewrite (recorded_mine _ k (Hq2 found Hfound)), (recorded_mine _ k Hq). cbn. rewrite net_l2_locked.
      rewrite (m_lock2_set groups (rq_l2_locked q) m idx (cell g) k Hl). destruct k as [| |i x]; cbn; [lia..|].
      case_decide; [|lia]. subst i. rewrite (cells_sum_false _ _ (locked (rq_l2_locked q) idx)).
      + unfold key_sum. rewrite (flat_answer_sum r cols groups b g x mine_shape Hwf Hsz Hcell). lia.
      + intros i j. unfold locked. apply dget_None in Hfree. by rewrite Hfree.
    - intros x. rewrite Es, elem_dkeys_dset. tauto. }
  destruct (rq_policy q).
  - apply hwp_bind, hwp_ret. apply (Hend (rq_l2_found q)). intros g' Eg'. by apply Hf.
  - destruct (rq_l2_found q) as [g0|] eqn:Ef.
    + apply hwp_bind. destruct (grid_iadd_ok r cols g0 g (Hf g0 eq_refl) Hg) as (g1 & Eg1 & Hg1 & _).
      eapply wp_lift; [exact Eg1|]. apply (Hend (Some g1)). by intros g' [= <-].
    + apply wp_req. apply (Hend (Some g)). by intros g' [= <-].
Qed.

Lemma poll_lookups_wp signaled (R : unit → PC * Req → Prop) (E : PC * Req → Prop) c q :
  holds (c, q) → looking q →
  (∀ c' q', holds (c', q') → E (c', q')) →
  (∀ c' q', holds (c', q') → looking q' → R tt (c', q')) →
  hwp (_poll_lookup_results signaled) R E (c, q).
Proof.
  intros Hh Hlook HE HR. unfold _poll_lookup_results. apply wp_get. cbn [snd].
  eapply hwp_mono; [apply (hwp_iter (poll_lookup signaled) (λ l s, holds s ∧ looking s.2 ∧ NoDup l.*1 ∧
    ∀ i, i ∈ l.*1 → i ∈ K2 ∧ i ∉ dkeys (ms_state (rq_l2_locked s.2))) E)| |done].
  - intros task l [c1 q1] _ (Hs1 & Hl1 & Hnd & Hi). cbn [snd] in *. rewrite fmap_cons in *. apply NoDup_cons in Hnd as [Hni Hnd].
    destruct (Hi task.1 ltac:(left)) as [Hin Hfree]. apply poll_lookup_wp; [done|done|done|done| |].
    + intros c' Hs'. split_and!; [done|done|done|]. intros i Hil. apply Hi. by right.
    + intros m found c' q' Hs' Hk. destruct Hl1 as [L1 L2 L3 L4]. split_and!; [done| |done|].
      * split; [by apply NoDup_ddel|exact L2|exact L3|]. cbn. intros i [Hil Hne]%elem_dkeys_ddel [->|Hm]%Hk; [done|].
        by apply (L4 i).
      * intros i Hil. cbn. split; [apply Hi; by right|]. intros [->|Hm]%Hk; [done|].
        destruct (Hi i ltac:(by right)) as [_ ?]. done.
  - split_and!; [done|done|apply Hlook|]. intros i Hi. split; [|by apply Hlook].
    destruct Hh as [[_ _ []] _]. auto.
  - intros [] [c' q'] (Hs' & Hl' & _). by apply HR.
Qed.

(** *** Loading *)

#[local] Abbreviation affinity := (pc_affinity c0).

(** The buffers of cells that a plan dropped are given back. *)
Lemma discard_dropped_wp objs b (g : Bitmap2D) (R : dict ObjectKey oid → PC * Req → Prop) E c q :
  holds (c, q) → b ∈ K2 → grid_ok r cols g →
  (∀ a, dget b affinity = Some a → a ∈ dkeys (ms_state (rq_l1_reserved q)) ∧
     ∀ i j, cell g i j = true → locked (rq_l1_reserved q) a i j = true) →
  (∀ m objs' c', holds (c', set_l1_reserved m q) →
     (∀ x, x ∈ dkeys (ms_state m) ↔ x ∈ dkeys (ms_state (rq_l1_reserved q))) →
     (∀ x i j, locked m x i j = locked (rq_l1_reserved q) x i j && negb (bool_decide (dget b affinity = Some x) && cell g i j)) →
     R objs' (c', set_l1_reserved m q)) →
  hwp (discard_dropped tag objs (b, g)) R E (c, q).
Proof.
  intros [Hq Hs] Hb Hg Hbuf HR. cbn [fst snd] in *. pose proof Hq as [Eg Ei [F1 F2 F3 K1' K2' K3' _ _ _ _]].
  unfold discard_dropped. apply wp_get. cbn [fst snd]. rewrite Eg. eapply wp_lift; [by apply (gather_keys_run r cols), Hg; apply Hreq|].
  destruct (rows_of groups g ≫= snd) as [|y keys] eqn:Ek.
  - apply hwp_ret. replace q with (set_l1_reserved (rq_l1_reserved q) q) by (by destruct q). apply HR; [by destruct q|done|].
    intros x i j. rewrite (rows_none r cols groups g mine_shape Hg Ek i j). by rewrite andb_false_r, andb_true_r.
  - rewrite <-Ek. destruct (affinity_of _ _ _ Hs Hb) as (a & Ea & Eaf & Ha). eapply wp_lift; [exact Ea|].
    destruct (Hbuf a Eaf) as [[gr Egr]%dget_is_Some Hsub]. assert (grid_ok r cols gr) as Hgr by (eapply fits_get; [exact rows_pos|exact F3|done]).
    eapply (wp_moves c0 base); [exact Hs|apply discard_moves; [apply Hs|by eapply world_l1]|]. intros _ c1 Hs1.
    unfold ms_get. rewrite Egr. eapply wp_lift; [done|].
    destruct (grid_isub_ok r cols gr g Hgr Hg) as (rest & Er & Hrest & Hcr). eapply wp_lift; [exact Er|].
    destruct (fits_set r cols a rest (rq_l1_reserved q) rows_pos F3 Hrest) as (m & Em & Hm & Es & Hl). eapply wp_lift; [exact Em|].
    apply wp_req, hwp_ret. assert (∀ i j, locked (rq_l1_reserved q) a i j = cell gr i j) as Hlk by (intros; unfold locked; by rewrite Egr).
    assert (mine (set_l1_reserved m q)) as Hq'.
    { apply mine_buffers; [done|done|]. intros x. rewrite Es, elem_dkeys_dset. intros [?| ->]; [by apply K3'|done]. }
    apply HR; [split; [exact Hq'|]| |]; cbn [fst snd].
    + eapply stands_ext; [exact Hs1|]. intros k. rewrite (recorded_mine _ k Hq'), (recorded_mine _ k Hq). cbn.
      rewrite net_unstaged, (flat_stage r cols groups mine_shape) by done. rewrite (m_stage_set groups tag (rq_l1_reserved q) m a _ k Hl).
      destruct k as [|i x t|]; cbn; [lia| |lia]. repeat case_decide; try lia; try tauto.
      rewrite (cells_sum_sub groups (λ _, 1) (cell gr) (cell g) (cell rest)); [|done|intros i' j Hc; rewrite <-Hlk; by apply Hsub].
      rewrite (cells_sum_ext _ _ (locked (rq_l1_reserved q) a) (cell gr)) by done. lia.
    + intros x. rewrite Es, elem_dkeys_dset. split; [|tauto]. intros [?| ->]; [done|]. apply dget_is_Some. by eexists.
    + intros x i j. rewrite Hl. case_decide as Hd.
      * subst x. by rewrite Hcr, Hlk, bool_decide_true.
      * rewrite bool_decide_false; [by rewrite andb_true_r|]. congruence.
Qed.

Lemma discard_all_wp objs items (R : dict ObjectKey oid → PC * Req → Prop) E c q :
  holds (c, q) → NoDup (dkeys items) →
  (∀ b (g : Bitmap2D), (b, g) ∈ items → grid_ok r cols g ∧ b ∈ K2 ∧
     ∀ a, dget b affinity = Some a → a ∈ dkeys (ms_state (rq_l1_reserved q))) →
  (∀ b b' i j, dcell items b i j = true → locked (rq_l2_locked q) b' i j = false ∧ (dcell items b' i j = true → b = b')) →
  (∀ a i j, locked (rq_l1_reserved q) a i j = true ↔
     ∃ b, dget b affinity = Some a ∧ (locked (rq_l2_locked q) b i j = true ∨ dcell items b i j = true)) →
  (∀ m objs' c', holds (c', set_l1_reserved m q) →
     (∀ x, x ∈ dkeys (ms_state m) ↔ x ∈ dkeys (ms_state (rq_l1_reserved q))) →
     (∀ a i j, locked m a i j = true ↔ ∃ b, dget b affinity = Some a ∧ locked (rq_l2_locked q) b i j = true) →
     R objs' (c', set_l1_reserved m q)) →
  hwp (h_fold (discard_dropped tag) objs items) R E (c, q).
Proof.
  intros Hh Hnd Hi Hone Hst HR.
  eapply hwp_mono; [apply (hwp_fold (discard_dropped tag) (λ l _ s, ∃ m, s.2 = set_l1_reserved m q ∧ holds s ∧ NoDup (dkeys l) ∧
    (∀ p, p ∈ l → p ∈ items) ∧ (∀ x, x ∈ dkeys (ms_state m) ↔ x ∈ dkeys (ms_state (rq_l1_reserved q))) ∧
    (∀ a i j, locked m a i j = true ↔ ∃ b, dget b affinity = Some a ∧ (locked (rq_l2_locked q) b i j = true ∨ dcell l b i j = true))) E)| |done].
  - intros [b g] l objs1 [c1 q1] _ (m & Eq & Hs1 & Hnl & Hin & Hk & Hm). cbn [snd] in Eq. subst q1.
    destruct (Hi b g) as (Hg & Hb & Hbk); [apply Hin; left|]. change (dkeys ((b, g) :: l)) with (b :: dkeys l) in Hnl.
    apply NoDup_cons in Hnl as [Hnb Hnl]. assert (∀ i j, dcell ((b, g) :: l) b i j = cell g i j) as Hbc.
    { intros i j. by rewrite dcell_cons, decide_True. }
    assert (∀ x i j, dcell ((b, g) :: l) x i j = true → dcell items x i j = true) as Hsub.
    { intros x i j. unfold dcell. destruct (dget x ((b, g) :: l)) as [gx|] eqn:Ex; [|done]. apply dget_Some_elem, Hin in Ex.
      apply elem_dget in Ex; [by rewrite Ex|done]. }
    apply discard_dropped_wp; [done|done|done| |].
    { intros a Ea. cbn. split; [by apply Hk, Hbk|]. intros i j Hc. apply Hm. exists b. split; [done|]. right. by rewrite Hbc. }
    intros m' objs' c' Hs' Hk' Hl'. cbn in Hk', Hl'. exists m'. split_and!; [done|done|done| | |].
    + intros p Hp. apply Hin. by right.
    + intros x. by rewrite Hk', Hk.
    + intros a i j. rewrite Hl', andb_true_iff, negb_true_iff, andb_false_iff, bool_decide_eq_false, Hm. split.
      * intros [(x & Ex & Hx) Hno]. exists x. split; [done|]. destruct Hx as [?|Hx]; [by left|]. right.
        rewrite dcell_cons in Hx by done. case_decide as Hd; [|done]. subst x. destruct Hno; [done|congruence].
      * intros (x & Ex & Hx). split.
        { exists x. split; [done|]. destruct Hx as [?|Hx]; [by left|right]. rewrite dcell_cons by done.
          pose proof (dcell_key _ _ _ _ Hx). rewrite decide_False; [done|congruence]. }
        destruct (decide (dget b affinity = Some a)) as [Eb|]; [|by left]. right. destruct (cell g i j) eqn:Ec; [|done].
        exfalso. rewrite <-Hbc in Ec. apply Hsub in Ec. destruct (Hone b x i j Ec) as [Hn Hu]. destruct Hx as [Hx|Hx]; [congruence|].
        assert (b = x) as <-.
        { apply Hu, Hsub. rewrite dcell_cons by done. case_decide as Hd; [subst x|done]. by apply dcell_key in Hx. }
        by apply dcell_key in Hx.
  - exists (rq_l1_reserved q). split_and!; [by destruct q|done|done|done|done|done].
  - intros objs' [c' q'] (m & Eq & Hs' & _ & _ & Hk & Hm). cbn [snd] in Eq. subst q'. apply HR; [done|done|].
    intros a i j. rewrite Hm. split; intros (x & Ex & Hx); exists x; (split; [done|]); [|by left]. by destruct Hx.
Qed.

(** Whenever buffers were refused: the L2 cells without one are given back and
    the rest is planned again. *)
Lemma replan_wp active objs (R : dict ObjectKey oid → PC * Req → Prop) E c q :
  holds (c, q) → NoDup (dkeys active) →
  (∀ a b i j, locked (rq_l2_locked q) a i j = true → locked (rq_l2_locked q) b i j = true → a = b) →
  (∀ b a, b ∈ dkeys (ms_state (rq_l2_locked q)) → dget b affinity = Some a → a ∈ dkeys (ms_state (rq_l1_reserved q))) →
  (∀ a i j, locked (rq_l1_reserved q) a i j = true → ∃ b, dget b affinity = Some a ∧ locked (rq_l2_locked q) b i j = true) →
  (∀ objs' c' q', holds (c', q') → planned affinity q' → rq_lookups q' = rq_lookups q → rq_loads q' = rq_loads q → R objs' (c', q')) →
  hwp (replan tag active objs) R E (c, q).
Proof.
  intros [Hq Hs] Hact Honce Hkeys Hsub HR. cbn [fst snd] in *. pose proof Hq as [Eg Ei [F1 F2 F3 K1' K2' K3' _ _ _ _]].
  unfold replan. apply wp_get. cbn [fst snd]. destruct (st_fields _ _ _ _ Hs) as (_ & _ & _ & Ea & _).
  destruct (reserved_part_ok c r cols rows_pos (rq_l1_reserved q) (ms_state (rq_l2_locked q)) ms_empty) as (l2n & E1 & N1 & N2 & N3).
  { done. }
  { apply fits_empty. }
  { apply F2. }
  { intros b g Hin. destruct (map_item r cols rows_pos _ _ _ F2 Hin) as [Hg Hb]. split; [done|].
    destruct (affinity_of _ _ _ Hs (K2' b Hb)) as (a & _ & Eaf & _). exists a. rewrite Ea. split; [done|by eapply Hkeys]. }
  eapply wp_lift; [exact E1|].
  assert (∀ x i j, locked l2n x i j = locked (rq_l2_locked q) x i j && has_buffer c (rq_l1_reserved q) x i j) as Hl2n.
  { intros x i j. rewrite N3. case_decide as Hx; [done|]. unfold locked at 2. apply dget_None in Hx. by rewrite Hx. }
  assert (∀ x, x ∈ dkeys (ms_state l2n) ↔ x ∈ dkeys (ms_state (rq_l2_locked q))) as Hk2n.
  { intros x. rewrite N2. split; [by intros [?%not_elem_of_nil|?]|by right]. }
  destruct (ms_sub_ok r cols (rq_l2_locked q) l2n rows_pos F2 N1) as (un & Eu & U1 & U2 & U3). eapply wp_lift; [exact Eu|].
  rewrite Eg. eapply (wp_moves c0 base); [exact Hs| |].
  { eapply (unlock_map r cols); [exact mine_shape|exact rows_pos|apply Hs|exact U1|].
    intros i Hi. eapply world_l2; [done|by apply K2', U2]. }
  intros _ c1 Hs1. apply wp_req.
  assert (mine (set_l2_locked l2n q)) as Hq1 by (apply mine_l2; [done|done|]; intros i Hi; by apply K2', Hk2n).
  assert (holds (c1, set_l2_locked l2n q)) as Hh1.
  { split; [exact Hq1|]. cbn [fst snd]. eapply stands_ext; [exact Hs1|]. intros k.
    rewrite (recorded_mine _ k Hq1), (recorded_mine _ k Hq). cbn.
    rewrite (m_lock2_sub groups un (rq_l2_locked q) l2n k U3); [lia|].
    intros x i j. rewrite Hl2n. by intros [? _]%andb_true_iff. }
  apply hwp_bind, plan_load_wp; [done|done|]. cbn. intros plan dropped c2 [P1 P2 S1 S2 J1 J2 O1 O2 O3] Hh2 D1' D2' D3'.
  assert (∀ a i j, locked (rq_l1_reserved q) a i j = true ↔ ∃ b, dget b affinity = Some a ∧ locked l2n b i j = true) as Hst.
  { intros a i j. split.
    - intros Hl. destruct (Hsub a i j Hl) as (b & Eb & Hb). exists b. split; [done|]. rewrite Hl2n, Hb. unfold has_buffer.
      by rewrite Ea, Eb.
    - intros (b & Eb & Hb). rewrite Hl2n in Hb. apply andb_true_iff in Hb as [_ Hb]. unfold has_buffer in Hb. by rewrite Ea, Eb in Hb. }
  assert (∀ a b i j, locked l2n a i j = true → locked l2n b i j = true → a = b) as Hon.
  { intros a b i j. rewrite !Hl2n. intros [? _]%andb_true_iff [? _]%andb_true_iff. by eapply Honce. }
  apply discard_all_wp; [done|apply D1'| | | |].
  - intros b g Hin. destruct (map_item r cols rows_pos _ _ _ D1' Hin) as [Hg Hb%D2'%Hk2n]. split_and!; [done|by apply K2'|].
    intros a Eb. cbn. by eapply Hkeys.
  - intros b b' i j Hb. rewrite <-dcell_locked, D3' in Hb. apply andb_true_iff in Hb as [Hb Hnb]. cbn. split.
    + destruct (locked (l2_planned_keys plan) b' i j) eqn:Ep; [|done]. assert (b = b') as <- by (eapply Hon; [exact Hb|by apply S2]).
      by rewrite Ep in Hnb.
    + rewrite <-dcell_locked, D3'. intros [Hb' _]%andb_true_iff. by eapply Hon.
  - intros a i j. cbn. rewrite Hst. split; intros (b & Eb & Hb); exists b; (split; [done|]).
    + rewrite <-dcell_locked, D3', Hb. destruct (locked (l2_planned_keys plan) b i j); [by left|by right].
    + destruct Hb as [Hb|Hb]; [by apply S2|]. rewrite <-dcell_locked, D3' in Hb. by apply andb_true_iff in Hb as [? _].
  - intros m objs' c' Hh' Hk Hm. apply HR; [done| |done|done]. split; cbn; [done|done|done|].
    intros b a Hb Eb. apply Hk. cbn. by eapply Hkeys; [apply Hk2n, J2|].
Qed.

Lemma submit_loads_wp objs (R : unit → PC * Req → Prop) (E : PC * Req → Prop) c q :
  holds (c, q) → rq_lookups q = [] → rq_loads q = [] → planned affinity q →
  (∀ c' q', holds (c', q') → E (c', q')) →
  (∀ c' q', holds (c', q') → loading affinity q' → R tt (c', q')) →
  hwp (_submit_load_tasks objs) R E (c, q).
Proof.
  intros Hh Hlk Hld Hpl HE HR. unfold _submit_load_tasks. apply wp_get. cbn [snd]. set (items := ms_state (rq_l2_locked q)).
  pose proof (proj1 Hh) as Hq0. cbn [snd] in Hq0. pose proof Hq0 as [_ _ [_ F2 _ _ K2' _ _ _ _ _]].
  eapply hwp_mono; [apply (hwp_iter (submit_load objs) (λ l s, ∃ loads, s.2 = set_tasks [] loads q ∧ holds s ∧ NoDup (dkeys loads) ∧
    NoDup (dkeys l) ∧ (∀ p, p ∈ l → p ∈ items) ∧
    (∀ b i j, locked (rq_l2_locked q) b i j = true → b ∈ dkeys loads ∨ dcell l b i j = true)) E)| |done].
  - intros [b g] l [c1 q1] _ (loads & Eq & [Hq Hs] & Hnd & Hnl & Hin & Hcov). cbn [fst snd] in *. subst q1.
    assert ((b, g) ∈ items) as Hbg by (apply Hin; left). destruct (map_item r cols rows_pos _ _ _ F2 Hbg) as [Hg Hb].
    change (dkeys ((b, g) :: l)) with (b :: dkeys l) in Hnl. apply NoDup_cons in Hnl as [Hnb Hnl].
    unfold submit_load. apply wp_get. cbn [fst snd]. rewrite (mi_groups _ Hq).
    eapply wp_lift; [by apply (gather_keys_run r cols), Hg; apply Hreq|]. destruct (rows_of groups g ≫= snd) as [|y keys] eqn:Ek.
    + apply hwp_ret. exists loads. split_and!; [done|done|done|done|intros p Hp; apply Hin; by right|].
      intros x i j Hx. destruct (Hcov x i j Hx) as [?|Hc]; [by left|]. right. rewrite dcell_cons in Hc by done.
      case_decide; [|done]. by rewrite (rows_none r cols groups g mine_shape Hg Ek) in Hc.
    + rewrite <-Ek. apply wp_try; [by apply HE|]. intros objects _.
      eapply (wp_call c0 base); [exact Hs|apply l2_submit_load_ok|intros c' Hs'; by apply HE|]. intros task c2 a a' _ _ Hs2. apply wp_req. cbn [snd].
      assert (mine (set_tasks [] (dset b task loads) q)) as Hq'.
      { apply mine_tasks; [done|by intros i ?%not_elem_of_nil|]. intros i. rewrite elem_dkeys_dset. intros [Hi| ->]; [|by apply K2'].
        destruct Hq as [_ _ []]. auto. }
      assert (stands c0 base (recorded (set_tasks [] (dset b task loads) q)) c2) as Hs2'.
      { eapply stands_ext; [exact Hs2|]. intros k. apply Z.add_0_r. }
      destruct (st_fields _ _ _ _ Hs) as (_ & Ed & _). rewrite Ed.
      assert (b ∈ dkeys (pc_descs c0)) as [d ->]%dget_is_Some by (apply Henv; by apply K2').
      apply hwp_ret. exists (dset b task loads). split_and!; [done|done|by apply NoDup_dset|done|intros p Hp; apply Hin; by right|].
      intros x i j Hx. destruct (Hcov x i j Hx) as [?|Hc]; [left; apply elem_dkeys_dset; by left|].
      rewrite dcell_cons in Hc by done. case_decide as Hd; [subst x|by right]. left. apply elem_dkeys_dset. by right.
  - exists []. split_and!; [destruct q; cbn in *; by subst|done|constructor|apply F2|done|]. intros b i j Hb. by right.
  - intros [] [c' q'] (loads & Eq & Hs' & Hnd & _ & _ & Hcov). cbn [snd] in Eq. subst q'. apply HR; [done|]. split; [done|done| |].
    + destruct Hpl. by split.
    + intros b i j Hb. cbn in *. by destruct (Hcov b i j Hb).
Qed.

(** The buffers that stand for a set of plans. *)
Lemma staged_holds (plans : dict Z Bitmap2D) a c q :
  mine q → ms_state (rq_l1_reserved q) = [] → staged groups plans a → (∀ x, x ∈ dkeys plans → x ∈ K1) →
  stands c0 base (λ k, recorded q k + m_stage groups tag (ld_reserved a) k) c → holds (c, set_l1_reserved (ld_reserved a) q).
Proof.
  intros Hq Hempty Hst Hk Hs. assert (mine (set_l1_reserved (ld_reserved a) q)) as Hq'.
  { apply mine_buffers; [done|apply Hst|]. intros i Hi. by apply Hk, Hst. }
  split; [done|]. cbn [fst snd]. eapply stands_ext; [exact Hs|]. intros k. cbn beta.
  rewrite (recorded_mine _ k Hq'), (recorded_mine _ k Hq). cbn. enough (m_stage groups tag (rq_l1_reserved q) k = 0) by lia.
  destruct k; cbn; [done| |done]. case_decide; [|done]. apply cells_sum_false. intros i j. unfold locked. by rewrite Hempty.
Qed.

Lemma allocation_ok c q :
  holds (c, q) →
  ∃ plans, _build_l1_allocation_plans c q = Ret plans ∧ NoDup (dkeys plans.1) ∧
    (∀ a (g : Bitmap2D), (a, g) ∈ plans.1 → grid_ok r cols g ∧ a ∈ K1 ∧ ∀ x, x ∈ rows_of groups g ≫= snd → x ∈ dkeys plans.2) ∧
    (∀ a, a ∈ dkeys plans.1 ↔ ∃ b, b ∈ dkeys (ms_state (rq_l2_locked q)) ∧ dget b affinity = Some a) ∧
    (∀ a i j, dcell plans.1 a i j = true ↔ ∃ b, dget b affinity = Some a ∧ locked (rq_l2_locked q) b i j = true).
Proof.
  intros [Hq Hs]. cbn [fst snd] in *. pose proof Hq as [Eg Ei [_ F2 _ _ K2' _ _ _ _ _]].
  destruct (st_fields _ _ _ _ Hs) as (Ed1 & Ed2 & _ & Ea & _). unfold _build_l1_allocation_plans.
  assert (groups_ok r cols (rq_groups q)) as Hgr by (rewrite Eg; exact mine_shape).
  destruct (allocation_loop_ok c q r cols Hgr rows_pos (ms_state (rq_l2_locked q)) ([], [])) as (plans & E & [A1 A2 A3 A4 A5]);
    [|apply F2|done|constructor|].
  { intros b g Hin. destruct (map_item r cols rows_pos _ _ _ F2 Hin) as [Hg Hb]. split; [done|].
    destruct (affinity_of _ _ _ Hs (K2' b Hb)) as (a & _ & Eb & Ha). exists a. unfold placed. rewrite Ea, Ed1, Ed2.
    split_and!; [done|by apply Henv|apply Henv; by apply K2']. }
  cbn [fst snd] in *. rewrite Ea in *. rewrite Eg in *. exists plans.
  assert (∀ a, a ∈ dkeys plans.1 ↔ ∃ b, b ∈ dkeys (ms_state (rq_l2_locked q)) ∧ dget b affinity = Some a) as Hk.
  { intros a. rewrite A3. split; [by intros [?%not_elem_of_nil|?]|by right]. }
  assert (∀ a i j, dcell plans.1 a i j = true ↔ ∃ b, dget b affinity = Some a ∧ locked (rq_l2_locked q) b i j = true) as Hc.
  { intros a i j. rewrite A4. split; [by intros [?|?]|by right]. }
  split_and!; [done|done| |done|done]. intros a g Hin. assert (dget a plans.1 = Some g) as Eag by (by apply elem_dget).
  assert (a ∈ dkeys plans.1) as (b & Hb & Eb)%Hk by (apply dget_is_Some; by eexists). split_and!; [by eapply A1| |].
  - destruct (affinity_of _ _ _ Hs (K2' b Hb)) as (a' & _ & Eb' & Ha'). congruence.
  - intros x Hx. apply (rows_elem r cols) in Hx as (i & j & gr & Hi & Hj & Hcell); [|done|by eapply A1].
    assert (dcell plans.1 a i j = true) as (b' & Eb' & Hl)%Hc by (unfold dcell; by rewrite Eag). apply A5. right.
    unfold locked in Hl. destruct (dget b' (ms_state (rq_l2_locked q))) as [g'|] eqn:Eg'; [|done]. exists b', g'.
    split; [done|]. apply (rows_elem r cols); [done|by eapply fits_get; [exact rows_pos|exact F2|]|]. by exists i, j, gr.
Qed.

Lemma transition_wp (R : unit → PC * Req → Prop) (E : PC * Req → Prop) c q :
  holds (c, q) → looking q → rq_lookups q = [] →
  (∀ c' q', holds (c', q') → E (c', q')) →
  (∀ c' q', holds (c', q') → loading affinity q' → R tt (c', q')) →
  hwp _transition_to_load_phase R E (c, q).
Proof.
  intros Hh Hlook Hlk HE HR. unfold _transition_to_load_phase. apply wp_get. cbn [fst snd].
  pose proof (proj2 Hh) as Hs0. cbn [fst snd] in Hs0. destruct (st_fields _ _ _ _ Hs0) as (_ & Ed & _). rewrite Ed.
  destruct (eligible_descs_ok c q (pc_descs c0)) as (active & Ea & Hsub).
  { intros b Hb. eapply world_l2; [exact Hs0|]. by apply (ev_l2 _ Henv). }
  eapply wp_lift; [exact Ea|]. assert (NoDup (dkeys active)) as Hact.
  { eapply sublist_NoDup; [apply (ev_l2 _ Henv)|]. by apply fmap_sublist. }
  apply hwp_bind, plan_load_wp; [done|done|]. intros plan dropped c1 [P1 P2 S1 S2 J1 J2 O1 O2 O3] Hh1 _ _ _. apply wp_get. cbn [fst snd].
  set (q1 := set_l2_locked (l2_planned_keys plan) (set_l1_locked (l1_planned_keys plan) q)) in *.
  pose proof Hh1 as [Hq1 Hs1]. cbn [fst snd] in Hq1, Hs1. destruct (allocation_ok c1 q1 Hh1) as (plans & Ep & Hnp & Hp & Hpk & Hpc).
  eapply wp_lift; [exact Ep|]. rewrite (mi_groups _ Hq1), (mi_id _ Hq1).
  assert (∀ x, x ∈ dkeys plans.1 → x ∈ K1) as Hk1.
  { intros x [g Hg]%dget_is_Some. apply dget_Some_elem in Hg. by apply Hp in Hg as (_ & ? & _). }
  eapply (wp_world c0 base _ (λ a, m_stage groups tag (ld_reserved a)) (staged groups plans.1)); [exact Hs1| |].
  { apply reserve_managers_ok; [exact Hreq|apply Hs1|exact Hnp|]. intros a g Hin. destruct (Hp a g Hin) as (Hg & Ha & Hre).
    split_and!; [done|by eapply world_l1|done]. }
  assert (looking q1) as Hl1 by (destruct Hlook as [L1 L2 L3 L4]; split; [done|done|done|]; intros i; cbn; by rewrite Hlk; intros ?%not_elem_of_nil).
  intros a c2 Hst Hs2.
  assert (∀ a c', staged groups plans.1 a → stands c0 base (λ k, recorded q1 k + m_stage groups tag (ld_reserved a) k) c' →
    hwp (let^ _ := on_req (set_l1_reserved (ld_reserved a)) in
         let^ objs := if 0 <? ld_failed a then replan tag active (ld_objs a) else h_ret (ld_objs a) in
         _submit_load_tasks objs) R E (c', q1)) as Hrest.
  { clear a c2 Hst Hs2. intros a c2 Hst Hs2. apply wp_req.
    pose proof (staged_holds plans.1 a c2 q1 Hq1 (lk_buffers _ Hl1) Hst Hk1 Hs2) as Hh2. set (q2 := set_l1_reserved (ld_reserved a) q1) in *.
    assert (∀ b a', b ∈ dkeys (ms_state (rq_l2_locked q2)) → dget b affinity = Some a' → a' ∈ dkeys (ms_state (rq_l1_reserved q2))) as Hheld.
    { intros b a' Hb Eb. cbn. apply Hst, Hpk. by exists b. }
    apply hwp_bind. destruct (Z.ltb_spec 0 (ld_failed a)) as [Hf|Hf].
    - apply replan_wp; [done|done|exact O2|exact Hheld| |].
      + intros a' i j Hl. by apply Hpc, (sg_sub _ _ _ Hst).
      + intros objs' c3 q3 Hh3 Hpl Elk Eld. apply submit_loads_wp; [done|by rewrite Elk|rewrite Eld; apply Hlook|done|done|done].
    - apply hwp_ret, submit_loads_wp; [done|done|apply Hlook| |done|done]. pose proof (sg_failed _ _ _ Hst).
      split; [exact O2|exact O3| |exact Hheld]. intros a' i j. etrans; [|exact (Hpc a' i j)]. split; [apply (sg_sub _ _ _ Hst)|].
      apply (sg_all _ _ _ Hst). lia. }
  apply hwp_bind. destruct (rq_policy q1); [apply hwp_ret, Hrest; done|].
  destruct (Z.ltb_spec 0 (ld_failed a)) as [Hf|Hf]; [|apply hwp_ret, Hrest; done].
  eapply (wp_world_last c0 base _ _ (λ a', staged groups plans.1 a' ∧ ld_failed a' = ld_failed a)); [exact Hs2| |].
  - apply trim_columns_ok; [exact Hreq|apply Hs2|done|done|]. intros x Hx. eapply world_l1; [exact Hs2|by apply Hk1].
  - intros a' c3 [Hst' _] Hs3. apply Hrest; [done|]. eapply stands_ext; [exact Hs3|]. intros k. cbn beta. lia.
Qed.

(** What a finished load task does to the maps of its request. *)
Definition settled_load (b : Z) (l1 buffers l2 : MapState) (loaded : Bitmap2D) (q : Req) : Req :=
  set_found (rq_l2_found q) loaded (set_tasks (rq_lookups q) (ddel b (rq_loads q))
    (set_l2_locked l2 (set_l1_reserved buffers (set_l1_locked l1 q)))).

(** The request is still a loading one: the loaded cells moved from [b] to its
    manager [a], the others of [b] are gone. *)
Lemma settled_loading b a (loaded all : Bitmap2D) l1 buffers l2 q :
  loading affinity q → dget b affinity = Some a →
  (∀ i j, cell loaded i j = true → locked (rq_l2_locked q) b i j = true) →
  (∀ x i j, locked l1 x i j = true → locked (rq_l1_locked q) x i j = true ∨ cell loaded i j = true) →
  (∀ x i j, locked buffers x i j = if decide (a = x) then locked (rq_l1_reserved q) a i j && negb (locked (rq_l2_locked q) b i j)
                                   else locked (rq_l1_reserved q) x i j) →
  (∀ x, x ∈ dkeys (ms_state (rq_l1_reserved q)) → x ∈ dkeys (ms_state buffers)) →
  (∀ x, x ∈ dkeys (ms_state l2) → x ∈ dkeys (ms_state (rq_l2_locked q))) →
  (∀ x i j, locked l2 x i j = if decide (b = x) then false else locked (rq_l2_locked q) x i j) →
  loading affinity (settled_load b l1 buffers l2 all q).
Proof.
  intros [L1 L2 [P1 P2 P3 P4] L3] Eb Hld Hl1 Hbuf Hbk Hk2 Hl2.
  assert (∀ x i j, locked l2 x i j = true → x ≠ b ∧ locked (rq_l2_locked q) x i j = true) as Hl2'.
  { intros x i j. rewrite Hl2. case_decide; [done|]. intros ?. split; [congruence|done]. }
  split; cbn.
  - done.
  - by apply NoDup_ddel.
  - split; cbn.
    + intros x y i j [_ Hx]%Hl2' [_ Hy]%Hl2'. by eapply P1.
    + intros x y i j Hx. destruct (locked l2 y i j) eqn:Ey; [|done]. apply Hl2' in Ey as [Hne Hy].
      destruct (Hl1 x i j Hx) as [H0|Hc]; [by rewrite (P2 x y i j H0) in Hy|]. destruct Hne. eapply P1; [exact Hy|by apply Hld].
    + intros x i j. rewrite Hbuf. split.
      * intros Hx. assert (locked (rq_l1_reserved q) x i j = true ∧ (a = x → locked (rq_l2_locked q) b i j = false)) as [H1 H2].
        { case_decide as Hd; [subst x|by split]. by apply andb_true_iff in Hx as [? ?%negb_true_iff]. }
        apply P3 in H1 as (y & Ey & Hy). exists y. split; [done|]. rewrite Hl2. rewrite decide_False; [done|]. intros <-.
        rewrite H2 in Hy; [done|congruence].
      * intros (y & Ey & [Hne Hy]%Hl2'). assert (locked (rq_l1_reserved q) x i j = true) as H1 by (apply P3; by exists y).
        case_decide as Hd; [|done]. subst x. rewrite H1. cbn [andb]. apply negb_true_iff.
        destruct (locked (rq_l2_locked q) b i j) eqn:E; [|done]. destruct Hne. by eapply P1.
    + intros x y Hx Ey. apply Hbk. eapply P4; [by apply Hk2|done].
  - intros x i j [Hne Hx]%Hl2'. apply elem_dkeys_ddel. split; [by eapply L3|done].
Qed.

(** The sums of the maps follow. *)
Lemma settled_recorded b a (loaded failed all : Bitmap2D) l1 buffers l2 q k :
  mine q → mine (settled_load b l1 buffers l2 all q) → planned affinity q → dget b affinity = Some a →
  (∀ i j, cell loaded i j = true → locked (rq_l2_locked q) b i j = true) →
  (∀ i j, cell failed i j = locked (rq_l2_locked q) b i j && negb (cell loaded i j)) →
  (∀ x i j, locked l1 x i j = if decide (a = x) then locked (rq_l1_locked q) a i j || cell loaded i j else locked (rq_l1_locked q) x i j) →
  (∀ x i j, locked buffers x i j = if decide (a = x) then locked (rq_l1_reserved q) a i j && negb (locked (rq_l2_locked q) b i j)
                                   else locked (rq_l1_reserved q) x i j) →
  (∀ x i j, locked l2 x i j = if decide (b = x) then false else locked (rq_l2_locked q) x i j) →
  recorded (settled_load b l1 buffers l2 all q) k
  = recorded q k + (d_read groups a (cell loaded) k - d_stage groups tag a (cell loaded) k)
    - d_stage groups tag a (cell failed) k - d_lock2 groups b (locked (rq_l2_locked q) b) k.
Proof.
  intros Hq Hq' [P1 P2 P3 P4] Eb Hld Hfa Hl1 Hbuf Hl2. rewrite (recorded_mine _ k Hq'), (recorded_mine _ k Hq). cbn.
  rewrite (m_read_set groups (rq_l1_locked q) l1 a (λ i j, locked (rq_l1_locked q) a i j || cell loaded i j) k Hl1).
  rewrite (m_stage_set groups tag (rq_l1_reserved q) buffers a
    (λ i j, locked (rq_l1_reserved q) a i j && negb (locked (rq_l2_locked q) b i j)) k Hbuf).
  rewrite (m_lock2_set groups (rq_l2_locked q) l2 b (λ _ _, false) k Hl2). destruct k as [i x|i x t|i x]; cbn.
  - case_decide; [|lia]. rewrite (cells_sum_add groups _ (locked (rq_l1_locked q) a) (cell loaded)
      (λ i j, locked (rq_l1_locked q) a i j || cell loaded i j)); [lia|done|].
    intros u v Hu. destruct (cell loaded u v) eqn:E; [|done]. apply Hld in E. by rewrite (P2 a b u v Hu) in E.
  - destruct (decide (i = a ∧ t = tag)) as [[-> ->]|]; [|lia].
    rewrite (cells_sum_sub groups (λ _, 1) (locked (rq_l1_reserved q) a) (locked (rq_l2_locked q) b)
      (λ u v, locked (rq_l1_reserved q) a u v && negb (locked (rq_l2_locked q) b u v))); [|done|].
    + rewrite (cells_sum_sub groups (λ _, 1) (locked (rq_l2_locked q) b) (cell loaded) (cell failed) x Hfa Hld). lia.
    + intros u v Hu. apply P3. by exists b.
  - case_decide; [|lia]. rewrite (cells_sum_false groups _ (λ _ _, false)) by done. lia.
Qed.

(** The updates of the request return, and what they leave. *)
Lemma record_load_run b a (pl loaded : Bitmap2D) (c : PC) q :
  mine q → planned affinity q → dget b affinity = Some a → a ∈ K1 → dget b (ms_state (rq_l2_locked q)) = Some pl → grid_ok r cols loaded →
  ∃ l1 buffers l2 all, record_load b a pl loaded (c, q) = (Ret tt, (c, settled_load b l1 buffers l2 all q)) ∧
    mine (settled_load b l1 buffers l2 all q) ∧
    (∀ x i j, locked l1 x i j = if decide (a = x) then locked (rq_l1_locked q) a i j || cell loaded i j else locked (rq_l1_locked q) x i j) ∧
    (∀ x i j, locked buffers x i j = if decide (a = x) then locked (rq_l1_reserved q) a i j && negb (locked (rq_l2_locked q) b i j)
                                     else locked (rq_l1_reserved q) x i j) ∧
    (∀ x, x ∈ dkeys (ms_state (rq_l1_reserved q)) → x ∈ dkeys (ms_state buffers)) ∧
    (∀ x, x ∈ dkeys (ms_state l2) → x ∈ dkeys (ms_state (rq_l2_locked q))) ∧
    (∀ x i j, locked l2 x i j = if decide (b = x) then false else locked (rq_l2_locked q) x i j).
Proof.
  intros Hq Hpd Eaf Ha Egb Hgl. pose proof Hq as [Eg Ei [F1 F2 F3 K1' K2' K3' Kl Kd Hld Hf]].
  pose proof (fits_get r cols _ _ _ rows_pos F2 Egb) as Hpl.
  assert (∃ g1, match dget a (ms_state (rq_l1_locked q)) with Some g => grid_iadd g loaded | None => Ret loaded end = Ret g1 ∧
    grid_ok r cols g1 ∧ ∀ i j, cell g1 i j = locked (rq_l1_locked q) a i j || cell loaded i j) as (g1 & Eg1 & Hg1 & Hcg1).
  { unfold locked. destruct (dget a (ms_state (rq_l1_locked q))) as [ga|] eqn:Ega; [|by exists loaded].
    apply (grid_iadd_ok r cols); [|done]. by eapply fits_get; [exact rows_pos|exact F1|]. }
  destruct (fits_set r cols a g1 (rq_l1_locked q) rows_pos F1 Hg1) as (l1 & El1 & Hf1 & Es1 & Hl1).
  assert (∃ al, match rq_loaded q with [] => Ret loaded | g => grid_iadd g loaded end = Ret al ∧ grid_ok r cols al) as (al & Eal & Hal).
  { destruct Hld as [->|Hld]; [by exists loaded|]. destruct (rq_loaded q) eqn:Er; [by exists loaded|]. rewrite <-Er in *.
    destruct (grid_iadd_ok r cols (rq_loaded q) loaded Hld Hgl) as (al & ? & ? & _). by exists al. }
  assert (b ∈ dkeys (ms_state (rq_l2_locked q))) as Hbk by (apply dget_is_Some; by eexists).
  assert (a ∈ dkeys (ms_state (rq_l1_reserved q))) as [gb Egbu]%dget_is_Some by (by eapply (pl_held _ _ Hpd); [|exact Eaf]).
  destruct (grid_isub_ok r cols gb pl) as (rest & Ere & Hre & Hcre); [by eapply fits_get; [exact rows_pos|exact F3|]|done|].
  destruct (fits_set r cols a rest (rq_l1_reserved q) rows_pos F3 Hre) as (bu & Ebu & Hbu & Esb & Hlbu).
  destruct (fits_del r cols b (rq_l2_locked q) F2 Hbk) as (l2 & El2 & Hf2 & Es2 & Hl2).
  exists l1, bu, l2, al. split; [|split_and!].
  - unfold record_load, ms_get, h_bind, h_get, h_lift, on_req, h_modify. cbn [fst snd]. rewrite Eg1, El1.
    cbn [fst snd rq_loaded set_l1_locked]. rewrite Eal. cbn [fst snd rq_l1_reserved set_l1_locked set_found]. rewrite Egbu, Ere, Ebu.
    cbn [fst snd rq_l2_locked set_l1_reserved set_l1_locked set_found]. rewrite El2. done.
  - apply mine_found; [|done|by right]. apply mine_tasks; [|done|].
    + apply mine_l2; [apply mine_buffers; [apply mine_l1|..]|..]; try done.
      * intros x. rewrite Es1, elem_dkeys_dset. intros [?| ->]; [by apply K1'|done].
      * intros x. rewrite Esb, elem_dkeys_dset. intros [?| ->]; [by apply K3'|done].
      * intros x. rewrite Es2, elem_dkeys_ddel. intros [? _]. by apply K2'.
    + intros x [Hx _]%elem_dkeys_ddel. by apply Kd.
  - intros x i j. rewrite Hl1. by case_decide.
  - intros x i j. rewrite Hlbu. case_decide; [|done]. rewrite Hcre. unfold locked. by rewrite Egbu, Egb.
  - intros x. rewrite Esb, elem_dkeys_dset. by left.
  - intros x. rewrite Es2, elem_dkeys_ddel. by intros [? _].
  - done.
Qed.

Lemma poll_load_wp signaled task (R : unit → PC * Req → Prop) (E : PC * Req → Prop) c q :
  holds (c, q) → loading affinity q → task.1 ∈ K2 →
  (∀ c' q', holds (c', q') → E (c', q')) →
  (∀ c' q', holds (c', q') → loading affinity q' → R tt (c', q')) →
  hwp (poll_load signaled task) R E (c, q).
Proof.
  intros [Hq Hs] Hlo Hb HE HR. cbn [fst snd] in *. destruct task as [b task]. cbn [fst] in *.
  pose proof Hq as [Eg Ei [F1 F2 F3 K1' K2' K3' Kl Kd Hld Hf]]. unfold poll_load.
  destruct (bool_decide (b ∈ signaled)); cbn [negb]; [|by apply hwp_ret, HR]. eapply (wp_call c0 base); [exact Hs|apply l2_query_load_ok|intros c' Hs'; by apply HE|].
  intros res c1 ad ad' Hok Ec Hs1'. assert (stands c0 base (recorded q) c1) as Hs1.
  { eapply stands_ext; [exact Hs1'|]. intros k. apply Z.add_0_r. }
  clear Hs1' Hs c. destruct res as [bm|]; [|apply hwp_ret; by apply HR]. pose proof (l2_load_wf _ _ _ _ Hok Ec) as Hwf.
  assert (holds (c1, q)) as Hh1 by done. apply wp_get. cbn beta iota. rewrite Eg, Ei.
  apply wp_try; [by apply HE|]. intros pl Epl. apply wp_try; [by apply HE|]. intros loaded El.
  unfold ms_get in Epl. destruct (dget b (ms_state (rq_l2_locked q))) as [g|] eqn:Egb; [|done]. injection Epl as ->.
  assert (∀ i j, locked (rq_l2_locked q) b i j = cell pl i j) as Hlb by (intros; unfold locked; by rewrite Egb).
  pose proof (fits_get r cols _ _ _ rows_pos F2 Egb) as Hpl. pose proof (scatter_planned r cols pl bm rows_pos Hpl Hwf) as Hsc.
  rewrite El in Hsc. destruct Hsc as [Hgl Hcl].
  destruct (grid_sub_ok r cols pl loaded Hpl Hgl) as (failed & Efa & Hgf & Hcf). eapply wp_lift; [exact Efa|].
  destruct (affinity_of _ _ _ Hs1 Hb) as (a & Ea & Eaf & Ha). eapply wp_lift; [exact Ea|].
  pose proof (world_l1 _ _ _ Hs1 Ha) as [m Em]%dget_is_Some. rewrite Em. eapply wp_lift; [done|].
  eapply wp_lift; [by apply (gather_keys_run r cols); [exact mine_shape|]|].
  eapply wp_lift; [by apply (gather_keys_run r cols); [exact mine_shape|]|].
  eapply (wp_moves c0 base); [exact Hs1|apply (admit_cells_moves r cols); [exact mine_shape|apply Hs1|by eapply world_l1|done]|].
  intros _ c2 Hs2. eapply (wp_world c0 base); [exact Hs2| |].
  { eapply hwp_mono; [apply (discard_cells_moves r cols groups mine_shape); [apply Hs2|by eapply world_l1|exact Hgf]| |done].
    intros keys w' [M _]. split; [exact M|exact I]. }
  intros keys c3 _ Hs3. eapply wp_lift; [by apply (gather_keys_run r cols); [exact mine_shape|]|].
  eapply (wp_moves c0 base); [exact Hs3|apply unlock_moves; [apply Hs3|by eapply world_l2]|]. intros _ c4 Hs4.
  pose proof (lo_planned _ _ Hlo) as Hpd.
  destruct (record_load_run b a pl loaded c4 q Hq Hpd Eaf Ha Egb Hgl) as (l1 & bu & l2 & al & Erun & Hq' & Hl1 & Hlbu & Hbk & Hk2 & Hl2).
  apply hwp_bind. unfold hwp at 1. rewrite Erun.
  destruct (st_fields _ _ _ _ Hs1) as (_ & Ed & _). rewrite Ed.
  assert (b ∈ dkeys (pc_descs c0)) as [d Edd]%dget_is_Some by (by apply (ev_l2 _ Henv)). rewrite Edd. apply hwp_ret.
  apply HR; [split; [exact Hq'|]|]; cbn [fst snd].
  - eapply stands_ext; [exact Hs4|]. intros k. cbn beta. rewrite net_l2_unlocked, (flat_lock2 r cols groups mine_shape) by done.
    rewrite (settled_recorded b a loaded failed al l1 bu l2 q k Hq Hq' Hpd Eaf); [| | | |done|done].
    + assert (d_lock2 groups b (locked (rq_l2_locked q) b) k = d_lock2 groups b (cell pl) k) as ->; [|lia].
      destruct k; cbn; [done..|]. case_decide; [|done]. by apply cells_sum_ext.
    + intros i j. rewrite Hlb. apply Hcl.
    + intros i j. by rewrite Hlb, Hcf.
    + done.
  - eapply (settled_loading b a loaded al l1 bu l2 q Hlo Eaf); [| |done|done|done|done].
    + intros i j. rewrite Hlb. apply Hcl.
    + intros x i j. rewrite Hl1. case_decide as Hd; [subst x|by left]. by intros [?|?]%orb_true_iff; [left|right].
Qed.

Lemma poll_loads_wp signaled (R : unit → PC * Req → Prop) (E : PC * Req → Prop) c q :
  holds (c, q) → loading affinity q →
  (∀ c' q', holds (c', q') → E (c', q')) →
  (∀ c' q', holds (c', q') → loading affinity q' → R tt (c', q')) →
  hwp (_poll_load_results signaled) R E (c, q).
Proof.
  intros Hh Hlo HE HR. unfold _poll_load_results. apply wp_get. cbn [snd].
  eapply hwp_mono; [apply (hwp_iter (poll_load signaled) (λ l s, holds s ∧ loading affinity s.2 ∧ ∀ t, t ∈ l → t.1 ∈ K2) E)| |done].
  - intros task l [c1 q1] _ (Hs1 & Hl1 & Hk). apply poll_load_wp; [done|done|apply Hk; left|done|].
    intros c' q' Hs' Hl'. split_and!; [done|done|]. intros t Ht. apply Hk. by right.
  - split_and!; [done|done|]. intros t Ht. destruct Hh as [[_ _ []] _]. apply mo_loads0. unfold dkeys. apply list_elem_of_fmap. by exists t.
  - intros [] [c' q'] (Hs' & Hl' & _). by apply HR.
Qed.

(** *** Finishing *)

(** A result a client gets: the hits are split into those that were in L1 and
    those loaded from L2. *)
Definition result_ok (res : PrefetchResult) : Prop :=
  ∃ rows columns, grid_ok rows columns (hit_cells res) ∧ grid_ok rows columns (l1_hit_cells res) ∧ grid_ok rows columns (l2_hit_cells res) ∧
    (∀ i j, cell (hit_cells res) i j = cell (l1_hit_cells res) i j || cell (l2_hit_cells res) i j) ∧
    (∀ i j, cell (l1_hit_cells res) i j && cell (l2_hit_cells res) i j = false) ∧
    (∀ g, found_cells res = Some g → grid_ok rows columns g ∧ ∀ i j, cell (hit_cells res) i j = true → cell g i j = true).

Definition results_ok (results : dict Z PrefetchResult) : Prop := ∀ i res, dget i results = Some res → result_ok res.

Lemma results_set i res results : results_ok results → result_ok res → results_ok (dset i res results).
Proof. intros Hr Hres j x. rewrite dget_dset. case_decide; [by intros [= <-]|apply Hr]. Qed.

(** The request holds nothing, and clients have results. *)
Definition let_go (c' : PC) : Prop :=
  ∃ c2 results, stands c0 base (λ _, 0) c2 ∧ (results_ok (pc_results c0) → results_ok results) ∧ c' = set_results results c2.

Definition ended (c' : PC) : Prop := ∃ c2, let_go c2 ∧ c' = set_table (ddel id (pc_in_flight c0)) c2.

Lemma settle_manager_moves mode hits idx (g : Bitmap2D) (w : World S A) :
  world_ok w → idx ∈ dkeys (w_l1 w) → grid_ok r cols g → grid_ok r cols hits →
  moves (settle_manager groups mode hits (idx, g)) (λ k, - d_read groups idx (cell g) k) w.
Proof.
  intros Hw Hidx Hg Hh. unfold settle_manager. destruct (grid_and_ok r cols g hits Hg Hh) as (kept & Ek & Hk & Hck).
  destruct (grid_sub_ok r cols g hits Hg Hh) as (rel & Er & Hrel & Hcr).
  assert (∀ w1, moved (λ k, - d_read groups idx (cell (match mode with NO_LOCK => g | LOCK => rel end)) k) w w1 →
    moves (let^ kept := h_lift (grid_and g hits) in let^ hit_keys := h_lift (_gather_keys groups kept) in
       let^ _ := match hit_keys with [] => h_ret tt | _ => pf_touch_keys idx hit_keys end in
       match mode with NO_LOCK => h_ret tt | LOCK => hand_over groups idx kept end)
      (λ k, match mode with NO_LOCK => 0 | LOCK => - d_read groups idx (cell kept) k end) w1) as Hrest.
  { intros w1 M1. apply hwp_bind. eapply hwp_lift; [exact Ek|]. apply hwp_bind.
    eapply hwp_lift; [by apply (gather_keys_run r cols); [exact mine_shape|]|]. apply hwp_bind.
    assert (∀ keys, moves (match keys with [] => h_ret tt | _ => pf_touch_keys idx keys end) (λ _, 0) w1) as Ht.
    { intros [|x keys]; [apply moved_refl, M1|]. apply touch_moves; [apply M1|by rewrite (mv_l1 _ _ _ M1)]. }
    eapply hwp_mono; [apply Ht| |done]. intros [] w2 M2. destruct mode; [|exact M2].
    eapply hwp_mono; [apply (hand_over_moves r cols); [apply M2|exact mine_shape|exact Hk]| |done].
    intros [] w3 M3. eapply moved_trans; [exact M2|exact M3|]. intros k. done. }
  apply hwp_bind. eapply hwp_lift.
  { instantiate (1 := match mode with NO_LOCK => g | LOCK => rel end). by destruct mode. }
  apply hwp_bind. eapply hwp_mono; [apply (release_cells_moves r cols groups mine_shape); [done|done|by destruct mode]| |done].
  intros [] w1 M1. eapply hwp_mono; [apply (Hrest w1 M1)| |done]. intros [] w2 M2. eapply moved_trans; [exact M1|exact M2|].
  intros k. cbn beta. destruct mode; [|lia]. destruct k as [i x| |]; cbn; [|lia..]. case_decide; [|lia].
  rewrite (cells_sum_split groups gk_num_kv_readers (cell g) (cell hits)).
  rewrite (cells_sum_ext _ _ (cell rel) (λ i j, cell g i j && negb (cell hits i j))) by done.
  rewrite (cells_sum_ext _ _ (cell kept) (λ i j, cell g i j && cell hits i j)) by done. lia.
Qed.

Lemma settle_map mode hits m (w : World S A) :
  world_ok w → fits r cols m → (∀ idx, idx ∈ dkeys (ms_state m) → idx ∈ dkeys (w_l1 w)) → grid_ok r cols hits →
  moves (h_iter (settle_manager groups mode hits) (ms_state m)) (λ k, - m_read groups m k) w.
Proof.
  intros Hw Hm Hk Hh. eapply moves_ext.
  - apply (iter_moves _ (λ (p : Z * Bitmap2D) k, - d_read groups p.1 (cell p.2) k)); [done|].
    intros [idx g] w' Hin Hw' E1 _. destruct (map_item r cols rows_pos m idx g Hm Hin). apply settle_manager_moves; [done| |done|done].
    rewrite E1. by apply Hk.
  - intros k. cbn beta. rewrite zsum_opp. f_equal. apply items_sum_read, Hm.
Qed.

Lemma owners_ok (w : World S A) hits items owners :
  (∀ a (g : Bitmap2D), (a, g) ∈ items → grid_ok r cols g ∧ a ∈ dkeys (w_l1 w)) → grid_ok r cols hits →
  ∃ owners', owners_loop w groups hits items owners = Ret owners'.
Proof.
  intros Hi Hh. revert owners. induction items as [|[a g] items IH]; intros owners; [by eexists|].
  destruct (Hi a g ltac:(left)) as [Hg [s Es]%dget_is_Some]. cbn [owners_loop].
  destruct (grid_and_ok r cols g hits Hg Hh) as (kept & -> & Hk & _). cbn [py_bind].
  rewrite (gather_keys_run r cols) by (done || exact mine_shape). cbn [py_bind]. rewrite Es. apply IH. intros; apply Hi. by right.
Qed.

(** The grids of the result. *)
Lemma finish_grids q found hits :
  mine q → grid_ok r cols found → grid_ok r cols hits → (∀ i j, cell hits i j = true → cell found i j = true) →
  ∃ l2_hits l1_hits all_found,
    match rq_loaded q with [] => zeros_like hits | loaded => grid_and hits loaded end = Ret l2_hits ∧ grid_sub hits l2_hits = Ret l1_hits ∧
    match rq_policy q with
    | full => match rq_l2_found q with Some g => let! f := grid_add found g in Ret (Some f) | None => Ret (Some found) end
    | prefix => Ret None
    end%py = Ret all_found ∧ ∀ owners, result_ok (mkResult hits l1_hits l2_hits all_found owners).
Proof.
  intros Hq Hf Hh Hsub. destruct Hq as [_ _ [_ _ _ _ _ _ _ _ Hld Hfo]].
  assert (∃ l2h, match rq_loaded q with [] => zeros_like hits | loaded => grid_and hits loaded end = Ret l2h ∧ grid_ok r cols l2h ∧
    ∀ i j, cell l2h i j = true → cell hits i j = true) as (l2h & E2 & H2 & Hc2).
  { destruct (rq_loaded q) as [|row rest] eqn:E.
    - destruct (zeros_like_ok r cols hits Hh) as (z & -> & Hz & Hcz). exists z. split_and!; [done..|]. intros i j. by rewrite Hcz.
    - destruct Hld as [?|Hld]; [done|]. destruct (grid_and_ok r cols hits _ Hh Hld) as (z & -> & Hz & Hcz). exists z.
      split_and!; [done..|]. intros i j. rewrite Hcz. by intros [? _]%andb_true_iff. }
  destruct (grid_sub_ok r cols hits l2h Hh H2) as (l1h & E1 & H1 & Hc1).
  assert (∃ af, match rq_policy q with
    | full => match rq_l2_found q with Some g => let! f := grid_add found g in Ret (Some f) | None => Ret (Some found) end
    | prefix => Ret None
    end%py = Ret af ∧ ∀ g, af = Some g → grid_ok r cols g ∧ ∀ i j, cell hits i j = true → cell g i j = true) as (af & Ea & Ha).
  { destruct (rq_policy q); [by exists None|]. destruct (rq_l2_found q) as [g|]; [|exists (Some found); split; [done|by intros g' [= <-]]].
    destruct (grid_add_ok r cols found g Hf (Hfo g eq_refl)) as (f & -> & Hff & Hcff). exists (Some f). split; [done|]. intros g' [= <-].
    split; [done|]. intros i j Hc. by rewrite Hcff, (Hsub i j Hc). }
  exists l2h, l1h, af. split_and!; [done|done|done|]. intros owners. exists r, cols. cbn. split_and!; try done; intros i j.
  - rewrite Hc1. specialize (Hc2 i j). destruct (cell hits i j), (cell l2h i j); try done. by rewrite Hc2.
  - rewrite Hc1. by destruct (cell hits i j), (cell l2h i j).
Qed.

Lemma finish_wp (R : unit → PC * Req → Prop) E c q :
  holds (c, q) → (∀ k, m_stage groups tag (rq_l1_reserved q) k = 0) → (∀ k, m_lock2 groups (rq_l2_locked q) k = 0) →
  (∀ c', let_go c' → pc_in_flight c' = pc_in_flight c0 → R tt (c', q)) → hwp (_finish_request true) R E (c, q).
Proof.
  intros [Hq Hs] Hz1 Hz2 HR. cbn [fst snd] in *. pose proof Hq as [Eg Ei [F1 F2 F3 K1' K2' K3' _ _ _ _]].
  unfold _finish_request. apply wp_get. cbn [snd]. destruct (final_hits_run groups Hreq K1 K2 q Eg (mi_maps _ Hq)) as (found & hits & Efh & Hf & Hh & _ & Hsub & _).
  eapply wp_lift; [exact Efh|]. cbn beta iota. rewrite Eg. eapply (wp_moves c0 base); [exact Hs| |].
  { apply settle_map; [apply Hs|exact F1| |exact Hh]. intros i Hi. eapply world_l1; [done|by apply K1']. }
  intros _ c1 Hs1. destruct (finish_grids q found hits Hq Hf Hh Hsub) as (l2h & l1h & af & E1 & E2 & E3 & Hres).
  eapply wp_lift; [exact E1|]. eapply wp_lift; [exact E2|]. eapply wp_lift; [exact E3|]. apply wp_get. cbn [fst].
  assert (∃ owners, match rq_lock_mode q with
    | LOCK => owners_loop (pc_world c1) groups hits (ms_state (rq_l1_locked q)) [] | NO_LOCK => Ret [] end = Ret owners) as [owners Eo].
  { destruct (rq_lock_mode q); [|by eexists]. apply owners_ok; [|done]. intros a g Hin.
    destruct (map_item r cols rows_pos _ _ _ F1 Hin) as [Hg Ha]. split; [done|]. eapply world_l1; [exact Hs1|by apply K1']. }
  eapply wp_lift; [exact Eo|]. unfold _publish_result. apply wp_get. cbn [snd]. rewrite Ei.
  destruct (st_fields _ _ _ _ Hs1) as (_ & _ & _ & _ & Et & Er & _). apply HR; [|exact Et].
  exists c1, (dset id (mkResult hits l1h l2h af owners) (pc_results c1)). split_and!; [|intros Hok; rewrite Er; by apply results_set|done].
  eapply stands_ext; [exact Hs1|]. intros k. cbn beta. rewrite (recorded_mine q k Hq), Hz1, Hz2. lia.
Qed.

Lemma retire_wp (R : unit → PC * Req → Prop) E c q :
  mine q → let_go c → pc_in_flight c = pc_in_flight c0 → (∀ c', ended c' → R tt (c', q)) → hwp _retire_request R E (c, q).
Proof.
  intros [_ Ei _] Hc Et HR. unfold _retire_request. apply wp_get. cbn [snd]. rewrite Ei.
  change (R tt (set_table (ddel id (pc_in_flight c)) c, q)). rewrite Et. apply HR. by exists c.
Qed.

Lemma abort_wp (R : unit → PC * Req → Prop) E c q :
  holds (c, q) → (∀ c' q', rq_id q' = id → ended c' → R tt (c', q')) → hwp _abort_request R E (c, q).
Proof.
  intros Hh HR. unfold _abort_request. apply hwp_bind. apply release_all_wp; [done|]. intros c1 Hs1. apply wp_get. cbn [snd].
  pose proof (mine_cleared q (proj1 Hh)) as Hq. cbn [snd] in Hq. rewrite (mi_groups _ Hq).
  destruct (grid_zeros_ok r cols) as (z & Ez & Hz & Hcz). eapply wp_lift; [exact Ez|].
  destruct (zeros_like_ok r cols z Hz) as (z' & Ez' & Hz' & Hcz'). eapply wp_lift; [exact Ez'|].
  apply hwp_bind. unfold _publish_result. apply wp_get. cbn [snd]. rewrite (mi_id _ Hq).
  destruct (st_fields _ _ _ _ Hs1) as (_ & _ & _ & _ & Et & Er & _).
  apply retire_wp; [exact Hq| |exact Et|intros c' Hc'; apply HR; [exact (mi_id _ Hq)|done]].
  exists c1, (dset id (mkResult z z' z' None []) (pc_results c1)). split_and!; [done|intros Hok; rewrite Er; apply results_set; [done|]|done].
  exists r, cols. cbn. split_and!; try done; intros i j; by rewrite ?Hcz, !Hcz'.
Qed.

(** *** Advancing a request *)

(** A request that waits. *)
Definition waiting (q : Req) : Prop :=
  (looking q ∧ rq_lookups q ≠ []) ∨ (loading affinity q ∧ rq_loads q ≠ []).

Lemma loading_done (q : Req) : loading affinity q → rq_loads q = [] →
  (∀ k, m_stage groups tag (rq_l1_reserved q) k = 0) ∧ (∀ k, m_lock2 groups (rq_l2_locked q) k = 0).
Proof.
  intros [_ _ Hp Hc] Hl. assert (∀ b i j, locked (rq_l2_locked q) b i j = false) as H2.
  { intros b i j. destruct (locked _ b i j) eqn:E; [|done]. apply Hc in E. rewrite Hl in E. by apply not_elem_of_nil in E. }
  split; intros [| |]; cbn; try done.
  - case_decide; [|done]. apply cells_sum_false. intros i j. destruct (locked _ _ i j) eqn:E; [|done].
    apply (pl_staged _ _ Hp) in E as (b & _ & Hb). by rewrite H2 in Hb.
  - apply cells_sum_false. intros. apply H2.
Qed.

Lemma finish_loading_wp (R : unit → PC * Req → Prop) E c q :
  holds (c, q) → loading affinity q → rq_loads q = [] → (∀ c', ended c' → R tt (c', q)) →
  hwp (let^ _ := _finish_request true in _retire_request) R E (c, q).
Proof.
  intros Hh Hlo Hl HR. destruct (loading_done q Hlo Hl). apply hwp_bind, finish_wp; [done|done|done|].
  intros c' Hc Et. apply retire_wp; [apply Hh|done|done|done].
Qed.

(** The end of [_advance_request]. *)
Lemma settle_wp (R : unit → PC * Req → Prop) E c q :
  holds (c, q) → (looking q ∧ rq_lookups q ≠ []) ∨ loading affinity q →
  (∀ c' q', holds (c', q') → waiting q' → R tt (c', q')) → (∀ c', ended c' → R tt (c', q)) →
  hwp (if all_lookups_done q && all_loads_done q then let^ _ := _finish_request true in _retire_request else h_ret tt) R E (c, q).
Proof.
  intros Hh [[Hl Hne]|Hl] HR1 HR2; unfold all_lookups_done, all_loads_done.
  - destruct (rq_lookups q) eqn:Eq; [done|]. apply hwp_ret, HR1; [done|]. left. split; [done|]. by rewrite Eq.
  - rewrite (lo_lookups _ _ Hl). cbn [andb]. destruct (rq_loads q) eqn:Eq; [by apply finish_loading_wp|].
    apply hwp_ret, HR1; [done|]. right. split; [done|]. by rewrite Eq.
Qed.

Lemma advance_wp lookups loads (R : unit → PC * Req → Prop) (E : PC * Req → Prop) c q :
  holds (c, q) → waiting q →
  (∀ c' q', holds (c', q') → E (c', q')) →
  (∀ c' q', holds (c', q') → waiting q' → R tt (c', q')) → (∀ c' q', rq_id q' = id → ended c' → R tt (c', q')) →
  hwp (_advance_request true lookups loads) R E (c, q).
Proof.
  intros Hh Hw HE HR1 HR2. unfold _advance_request. apply wp_get. cbn [snd]. apply hwp_bind.
  assert (∀ c' q', holds (c', q') → (looking q' ∧ rq_lookups q' ≠ []) ∨ loading affinity q' →
    hwp (let^ s := h_get in if true && all_lookups_done s.2 && all_loads_done s.2 then
           let^ _ := _finish_request true in _retire_request else h_ret tt) R E (c', q')) as Hend.
  { intros c' q' Hh' Hc'. apply wp_get. cbn [snd andb]. apply settle_wp; [done|done|done|]. intros c2. apply HR2, Hh'. }
  unfold phase. destruct Hw as [[Hl Hne]|[Hl Hne]].
  - destruct (rq_lookups q) as [|t ts] eqn:El; [done|]. destruct lookups as [|x lookups].
    { apply hwp_ret, wp_get. cbn [andb snd]. apply hwp_ret, HR1; [done|]. left. split; [done|]. by rewrite El. }
    apply hwp_bind, poll_lookups_wp; [done|done|done|]. intros c1 q1 Hh1 Hl1. apply wp_get. cbn [snd]. apply hwp_bind.
    unfold all_lookups_done at 1. destruct (rq_lookups q1) as [|t1 ts1] eqn:E1.
    + apply transition_wp; [done|done|done|done|]. intros c2 q2 Hh2 Hl2. apply hwp_ret, Hend; [done|by right].
    + apply hwp_ret, hwp_ret, Hend; [done|]. left. split; [done|]. by rewrite E1.
  - rewrite (lo_lookups _ _ Hl). destruct loads as [|x loads].
    { apply hwp_ret, wp_get. cbn [andb snd]. apply hwp_ret, HR1; [done|]. by right. }
    apply hwp_bind, poll_loads_wp; [done|done|done|]. intros c1 q1 Hh1 Hl1. apply hwp_ret, Hend; [done|by right].
Qed.

(** *** Starting a request *)

Record fresh (q : Req) : Prop := {
  fr_l1 : ms_state (rq_l1_locked q) = [];
  fr_l2 : ms_state (rq_l2_locked q) = [];
  fr_buffers : ms_state (rq_l1_reserved q) = [];
  fr_lookups : rq_lookups q = [];
  fr_loads : rq_loads q = []
}.

Lemma no_cells m : ms_state m = [] → ∀ x i j, locked m x i j = false.
Proof. intros E x i j. unfold locked. by rewrite E. Qed.

Lemma serve_wp m (R : unit → PC * Req → Prop) E c q :
  holds (c, set_l1_locked m q) → fresh q →
  (∀ c' q', let_go c' → mine q' → pc_in_flight c' = pc_in_flight c0 → R tt (c', q')) →
  hwp (serve_from_l1 true) R E (c, set_l1_locked m q).
Proof.
  intros Hh [_ F2 F3 _ _] HR. unfold serve_from_l1. apply hwp_bind, plan_load_wp; [done|constructor|].
  intros plan dropped c1 Hp Hh1 _ _ _. apply finish_wp; [done| | |].
  - intros [| |]; cbn; [done| |done]. case_decide; [|done]. apply cells_sum_false. intros i j. by apply no_cells.
  - intros [| |]; cbn; [done..|]. apply cells_sum_false. intros i j. destruct (locked _ _ i j) eqn:El; [|done].
    apply (po_l2 _ _ _ _ _ Hp) in El. cbn in El. by rewrite no_cells in El.
  - intros c' Hc Et. apply HR; [done|apply Hh1|done].
Qed.

Lemma submit_lookups_wp active (R : unit → PC * Req → Prop) (E : PC * Req → Prop) c q :
  holds (c, q) → active ≠ [] → (∀ b, b ∈ active → b ∈ K2) → rq_lookups q = [] → rq_loads q = [] →
  ms_state (rq_l2_locked q) = [] → ms_state (rq_l1_reserved q) = [] →
  (∀ c' q', holds (c', q') → E (c', q')) →
  (∀ c' q', holds (c', q') → waiting q' → R tt (c', q')) →
  hwp (h_iter submit_lookup active) R E (c, q).
Proof.
  intros Hh Hne Hact Hlk Hld Hl2 Hbuf HE HR.
  eapply hwp_mono; [apply (hwp_iter submit_lookup (λ l s, ∃ lookups, s.2 = set_tasks lookups [] q ∧ holds s ∧ NoDup (dkeys lookups) ∧
    (∀ b, b ∈ l → b ∈ K2) ∧ (l = [] → lookups ≠ [])) E)| |done].
  - intros b l [c1 q1] _ (lookups & Eq & Hs1 & Hnd & Hk & _). cbn [snd] in Eq. subst q1. apply submit_lookup_wp; [done|apply Hk; left|by auto|].
    intros task c2 Hs2. exists (dset b task lookups). split_and!; [done|done|by apply NoDup_dset|intros x Hx; apply Hk; by right|].
    intros _ E0. assert (b ∈ dkeys (dset b task lookups)) as Hin by (apply elem_dkeys_dset; by right). rewrite E0 in Hin.
    by apply not_elem_of_nil in Hin.
  - exists []. split_and!; [destruct q; cbn in *; by subst|done|constructor|done|done].
  - intros [] [c' q'] (lookups & Eq & Hs' & Hnd & _ & Hl). cbn [snd] in Eq. subst q'. apply HR; [done|]. left. split; [|by apply Hl].
    split; cbn; [done|done|done|]. intros i _. rewrite Hl2. apply not_elem_of_nil.
Qed.

Lemma start_wp (R : unit → PC * Req → Prop) (E : PC * Req → Prop) c q :
  holds (c, q) → fresh q →
  (∀ c' q', holds (c', q') → E (c', q')) →
  (∀ c' q', holds (c', q') → waiting q' → R tt (c', q')) → (∀ c' q', rq_id q' = id → ended c' → R tt (c', q')) →
  hwp (start_lookups true) R E (c, q).
Proof.
  intros Hh Hf HE HR1 HR2. unfold start_lookups. apply hwp_bind, lock_l1_wp; [done|apply Hf|]. intros m c1 Hh1.
  apply wp_get. cbn [fst snd]. pose proof (proj2 Hh1) as Hs1. cbn [fst snd] in Hs1.
  destruct (eligible_adapters_ok c1 (set_l1_locked m q) (dkeys (w_l2 (pc_world c1)))) as (active & Ea & Hsub); [done|].
  eapply wp_lift; [exact Ea|].
  assert (hwp (let^ _ := serve_from_l1 true in _retire_request) R E (c1, set_l1_locked m q)) as Hserve.
  { apply hwp_bind, serve_wp; [done|done|]. intros c' q' Hc Hq Et. apply retire_wp; [done|done|done|].
    intros c2 Hc2. apply HR2; [apply Hq|done]. }
  assert (∀ b, b ∈ active → b ∈ K2) as Hact.
  { intros b Hb. rewrite <-(st_l2 _ _ _ _ Hs1). by eapply elem_of_sublist. }
  destruct active as [|b active]; [exact Hserve|]. apply hwp_bind, wp_try; [by apply HE|]. intros needed _. apply hwp_ret.
  destruct needed; cbn [negb]; [|exact Hserve]. by apply submit_lookups_wp; try done; apply Hf.
Qed.
End request.
