(* ===== verification/PrefetchBalance.v ===== *)
(** * The prefetch controller's books balance

    The invariant of the controller over every call and turn of its loop: what
    the log says is out on a manager, a buffer tag or an adapter is what the
    requests in flight record. Each method on one request was treated in
    PrefetchInv.v; here are the table of requests, the queues, adapters that come
    and go, and the theorems. *)

From stdpp Require Import gmap list strings relations.
From Stdlib Require Import ZArith Lia.
From S2P Require Import Prelude PyFloat TensorAllocator Keys L1Memory L1Manager Bitmap Fold Grid PrefetchPolicy Cells Handler PrefetchController PrefetchMoves PrefetchLoad PrefetchInv.

Open Scope Z_scope.
Open Scope handler_scope.

(** The fields of an updated controller. *)
Ltac pc_cbn :=
  cbn [set_world set_table set_results set_queues set_ops set_adapters pc_world pc_l1_descs pc_descs pc_policy pc_affinity
       pc_watermark pc_draining pc_ops pc_in_flight pc_pending pc_submitted pc_next pc_results pc_done w_l1 w_l2 w_log].

Section controller.
Context {S A D1 D2 P T : Type} `{EqDecision T} `{WantsTags D2 T}.
Context {IL : L1Tier S T} {LL : L1TierLaws S T} {IA : L2Prefetch A T} {LA : L2PrefetchLaws A T}.
Context {IP : PrefetchPolicy P D1 D2} {LP : PrefetchPolicyLaws P D1 D2}.

#[local] Abbreviation PC := (PrefetchController S A D1 D2 P T).
#[local] Abbreviation Req := (Request T).

(** What is out on behalf of the requests in flight. *)
Definition in_flight_total (c : PC) (k : kind) : Z := zsum (λ t : Z * Req, recorded t.2 k) (pc_in_flight c).

Definition tracked (c : PC) (i : Z) (q : Req) : Prop :=
  rq_id q = i ∧ request_ok (rq_groups q) ∧ maps_ok (rq_groups q) (dkeys (w_l1 (pc_world c))) (dkeys (w_l2 (pc_world c))) q.

Definition op_adds (op : pf_op A D2) : option Z := match op with PfAdd i _ _ _ => Some i | PfRemove _ _ => None end.

Definition op_ok (op : pf_op A D2) : Prop := match op with PfAdd _ a _ _ => l2_ok a | PfRemove _ _ => True end.

(** The invariant; request [skip] need not be waiting. *)
Record ctl_inv (skip : option Z) (c : PC) : Prop := {
  ci_env : env_ok c;
  ci_nodup : NoDup (dkeys (pc_in_flight c));
  ci_requests : ∀ i q, dget i (pc_in_flight c) = Some q → tracked c i q ∧ (Some i ≠ skip → waiting c q);
  ci_balance : ∀ k, net k (w_log (pc_world c)) = in_flight_total c k;
  ci_specs : ∀ i spec, (i, spec) ∈ pc_pending c ++ pc_submitted c → request_ok (sp_key_groups spec);
  ci_queue : NoDup (pc_pending c ++ pc_submitted c).*1;
  ci_new : ∀ i, i ∈ (pc_pending c ++ pc_submitted c).*1 → i ∉ dkeys (pc_in_flight c);
  ci_next : ∀ i, i ∈ dkeys (pc_in_flight c) ∨ i ∈ (pc_pending c ++ pc_submitted c).*1 → i < pc_next c;
  ci_ops : NoDup (omap op_adds (pc_ops c));
  ci_adds : ∀ i, i ∈ omap op_adds (pc_ops c) → i ∉ dkeys (w_l2 (pc_world c));
  ci_adapters : Forall op_ok (pc_ops c);
  ci_draining : ∀ i, i ∈ dkeys (pc_draining c) → i ∈ dkeys (w_l2 (pc_world c));
  ci_drain_nodup : NoDup (dkeys (pc_draining c));
  ci_results : results_ok (pc_results c)
}.

(** ** Methods and the table *)

(** The same controller with another world, results and table. *)
Definition moved_on (w : World S A) (results : dict Z PrefetchResult) (table : dict Z Req) (c : PC) : PC :=
  set_table table (set_results results (set_world w c)).

Lemma env_move c w :
  env_ok c → world_ok w → dkeys (w_l1 w) = dkeys (w_l1 (pc_world c)) → dkeys (w_l2 w) = dkeys (w_l2 (pc_world c)) →
  ∀ results table, env_ok (moved_on w results table c).
Proof.
  intros [E1 E2 E3 E4 E5 E6 E7] Hw H1 H2 results table. split; cbn; rewrite ?H1, ?H2; done.
Qed.

Lemma inv_move skip skip' c w results table :
  ctl_inv skip c → world_ok w → dkeys (w_l1 w) = dkeys (w_l1 (pc_world c)) → dkeys (w_l2 w) = dkeys (w_l2 (pc_world c)) →
  results_ok results → NoDup (dkeys table) → (∀ i, i ∈ dkeys table → i ∈ dkeys (pc_in_flight c)) →
  (∀ i q, dget i table = Some q → tracked c i q ∧ (Some i ≠ skip' → waiting c q)) →
  (∀ k, net k (w_log w) = zsum (λ t : Z * Req, recorded t.2 k) table) →
  ctl_inv skip' (moved_on w results table c).
Proof.
  intros [E1 E2 E3 E4 E5 E6 E7 E8 E9 E10 E14 E11 E12 E13] Hw H1 H2 Hres Hnd Hin Hq Hn.
  split; cbn; try done.
  - by apply env_move.
  - intros i q Ei. destruct (Hq i q Ei) as [(T1 & T2 & T3) Hwt]. split; [|done]. split_and!; [done|done|]. cbn. by rewrite H1, H2.
  - intros i Hi Ht. by apply (E7 i Hi), Hin.
  - intros i [Hi|Hi]; apply E8; [left; by apply Hin|by right].
  - intros i Hi. rewrite H2. by apply E10.
  - intros i Hi. rewrite H2. by apply E11.
Qed.

(** What a method of a request may leave: the request waiting, or gone. *)
Definition method_done (c : PC) (base : kind → Z) (i : Z) (groups : list GroupedObjectKeys) (s : PC * Req) : Prop :=
  (holds c base groups i s ∧ waiting c s.2) ∨ (rq_id s.2 = i ∧ ended c base i s.1).

(** What the others have out, while the method runs. *)
Definition others (c : PC) (q : Req) (k : kind) : Z := in_flight_total c k - recorded q k.

Lemma method_start i q c :
  ctl_inv (Some i) c → dget i (pc_in_flight c) = Some q → holds c (others c q) (rq_groups q) i (c, q).
Proof.
  intros Hc Ei. destruct (ci_requests _ _ Hc i q Ei) as [(T1 & T2 & T3) _]. split; [by split|].
  split; cbn; [by destruct c|apply Hc|done|done|]. intros k. rewrite (ci_balance _ _ Hc). unfold others. lia.
Qed.

(** The entry of the request in the table, after the method. *)
Definition write_back (s : PC * Req) : PC :=
  if dmem (rq_id s.2) (pc_in_flight s.1) then set_table (dset (rq_id s.2) s.2 (pc_in_flight s.1)) s.1 else s.1.

Lemma stay_inv i q c s :
  ctl_inv (Some i) c → dget i (pc_in_flight c) = Some q → holds c (others c q) (rq_groups q) i s → waiting c s.2 →
  ∃ w, write_back s = moved_on w (pc_results c) (dset i s.2 (pc_in_flight c)) c ∧ ctl_inv None (write_back s).
Proof.
  intros Hc Ei [Hq' Hs'] Hw. pose proof Hc as [E1 E2 E3 E4 E5 E6 E7 E8 E9 E10 E14 E11 E12 E13].
  destruct (E3 i q Ei) as [(T1 & T2 & T3) _]. destruct s as [c' q']. unfold write_back. cbn [fst snd] in *.
  assert (i ∈ dkeys (pc_in_flight c)) as Hin by (apply dget_is_Some; by eexists).
  destruct Hq' as [Eg' Ei' Hm']. pose proof (st_fields _ _ _ _ Hs') as (_ & _ & _ & _ & Et & _).
  destruct Hs' as [Ec Hw' H1 H2 Hn]. rewrite Et, Ei', (proj2 (dmem_true _ _) Hin). exists (pc_world c').
  assert (set_table (dset i q' (pc_in_flight c)) c' = moved_on (pc_world c') (pc_results c) (dset i q' (pc_in_flight c)) c) as ->
    by (by rewrite Ec). split; [done|]. apply (inv_move (Some i)); try done.
  - by apply NoDup_dset.
  - intros j. rewrite elem_dkeys_dset. by intros [?| ->].
  - intros j qj. rewrite dget_dset. case_decide as Hd.
    { intros [= <-]. subst j. split; [split_and!; [done|by rewrite Eg'|by rewrite Eg']|done]. }
    intros Ej. destruct (E3 j qj Ej) as [? Hwj]. split; [done|]. intros _. apply Hwj. congruence.
  - intros k. rewrite Hn, (zsum_dset _ i q q') by done. unfold others, in_flight_total. cbn. lia.
Qed.

Lemma gone_inv i q c s :
  ctl_inv (Some i) c → dget i (pc_in_flight c) = Some q → rq_id s.2 = i → ended c (others c q) i s.1 →
  ∃ w results, write_back s = moved_on w results (ddel i (pc_in_flight c)) c ∧ ctl_inv None (write_back s).
Proof.
  intros Hc Ei Eq' (c2 & (c3 & results & Hs3 & Hres & ->) & Ec'). pose proof Hc as [E1 E2 E3 E4 E5 E6 E7 E8 E9 E10 E14 E11 E12 E13].
  destruct s as [c' q']. unfold write_back. cbn [fst snd] in *. subst c'.
  destruct Hs3 as [Ec Hw' H1 H2 Hn]. cbn [set_table pc_in_flight].
  rewrite Eq'. assert (dmem i (ddel i (pc_in_flight c)) = false) as ->.
  { destruct (dmem i _) eqn:Ed; [|done]. by apply dmem_true, elem_dkeys_ddel in Ed as [_ ?]. }
  exists (pc_world c3), results.
  assert (set_table (ddel i (pc_in_flight c)) (set_results results c3) = moved_on (pc_world c3) results (ddel i (pc_in_flight c)) c) as ->
    by (by rewrite Ec). split; [done|]. apply (inv_move (Some i)); try done.
  - by apply Hres.
  - by apply NoDup_ddel.
  - by intros j [? _]%elem_dkeys_ddel.
  - intros j qj. rewrite dget_ddel. case_decide; [done|]. intros Ej. destruct (E3 j qj Ej) as [? Hwj].
    split; [done|]. intros _. apply Hwj. congruence.
  - intros k. rewrite Hn, (zsum_ddel _ i q) by done. unfold others, in_flight_total. cbn. lia.
Qed.

Lemma run_on_wp {X} q (h : handler (PC * Req) X) (R : X → PC → Prop) E c :
  hwp h (λ x s, R x (write_back s)) (λ s, E (write_back s)) (c, q) → hwp (run_on q h) R E c.
Proof. unfold hwp, run_on. destruct (h (c, q)) as [[x|e] [c' q']]; done. Qed.

Lemma run_on_inv i q (h : handler (PC * Req) unit) c :
  ctl_inv (Some i) c → dget i (pc_in_flight c) = Some q →
  hwp h (λ _ s, method_done c (others c q) i (rq_groups q) s) (λ _, False) (c, q) →
  hwp (run_on q h) (λ _ c', ∃ w results table, c' = moved_on w results table c ∧ ctl_inv None c' ∧
      (∀ j, j ≠ i → dget j table = dget j (pc_in_flight c))) (λ _, False) c.
Proof.
  intros Hc Ei Hh. apply run_on_wp. eapply hwp_mono; [exact Hh| |done]. intros [] s [[Hs Hw]|[Eq He]].
  - destruct (stay_inv i q c s Hc Ei Hs Hw) as (w & E & Hinv). eexists w, _, _. split_and!; [exact E|done|].
    intros j Hj. rewrite dget_dset. by rewrite decide_False.
  - destruct (gone_inv i q c s Hc Ei Eq He) as (w & results & E & Hinv). eexists w, _, _. split_and!; [exact E|done|].
    intros j Hj. rewrite dget_ddel. by rewrite decide_False.
Qed.

Lemma inv_skip i c : ctl_inv None c → ctl_inv (Some i) c.
Proof. intros []. split; try done. intros j q Ej. destruct (ci_requests0 j q Ej) as [? Hw]. split; [done|]. intros _. by apply Hw. Qed.

(** [try: h except Exception: k]. *)
Lemma hwp_catch {St X} (h k : handler St X) (R : X → St → Prop) E s :
  hwp h R (λ s', hwp k R E s') s → hwp (h_catch h k) R E s.
Proof. unfold hwp, h_catch. by destruct (h s) as [[x|e] s']. Qed.

Lemma advance_one_inv lookups loads i q c :
  ctl_inv None c → dget i (pc_in_flight c) = Some q →
  hwp (run_on q (h_catch (_advance_request true lookups loads) _abort_request))
    (λ _ c', ∃ w results table, c' = moved_on w results table c ∧ ctl_inv None c' ∧
      (∀ j, j ≠ i → dget j table = dget j (pc_in_flight c))) (λ _, False) c.
Proof.
  intros Hc Ei. destruct (ci_requests _ _ Hc i q Ei) as [(T1 & T2 & T3) Hw]. pose proof (method_start i q c (inv_skip i c Hc) Ei) as Hh.
  apply (run_on_inv i); [by apply inv_skip|done|]. apply hwp_catch. pose proof (ci_env _ _ Hc) as Henv.
  eapply (advance_wp c (others c q) (rq_groups q) i Henv T2); [done|by apply Hw| | |].
  - intros c' q' Hh'. apply (abort_wp c (others c q) (rq_groups q) i T2); [done|]. intros c2 q2 Eq Hc2. by right.
  - intros c' q' Hh' Hw'. by left.
  - intros c' q' Eq Hc'. by right.
Qed.

Lemma advance_all_inv lookups loads c :
  ctl_inv None c →
  hwp (advance_all true lookups loads) (λ _ c', ∃ w results table, c' = moved_on w results table c ∧ ctl_inv None c') (λ _, False) c.
Proof.
  intros Hc. unfold advance_all. change (hwp (h_iter (λ t : Z * Req, run_on t.2 (h_catch (_advance_request true lookups loads) _abort_request))
    (pc_in_flight c)) (λ _ c', ∃ w results table, c' = moved_on w results table c ∧ ctl_inv None c') (λ _, False) c).
  eapply hwp_mono; [apply (hwp_iter _ (λ l c', (∃ w results table, c' = moved_on w results table c) ∧ ctl_inv None c' ∧ NoDup l.*1 ∧
    ∀ i q, (i, q) ∈ l → dget i (pc_in_flight c') = Some q) (λ _, False))| |done].
  - intros [i q] l c1 _ ((w1 & res1 & tab1 & E1) & Hc1 & Hnd & Hl). apply NoDup_cons in Hnd as [Hni Hnd].
    eapply hwp_mono; [apply (advance_one_inv lookups loads i q c1 Hc1), Hl; left| |done].
    intros [] c2 (w & res & tab & E2 & Hc2 & Hsame). split_and!; [exists w, res, tab; by rewrite E2, E1|done|done|].
    intros j qj Hj. rewrite E2. cbn. rewrite Hsame; [apply Hl; by right|]. intros ->. apply Hni. apply list_elem_of_fmap. by exists (i, qj).
  - split_and!; [|done|apply Hc|].
    + exists (pc_world c), (pc_results c), (pc_in_flight c). by destruct c.
    + intros i q Hin. apply elem_dget; [apply Hc|done].
  - intros [] c' ((w & res & tab & E) & Hc' & _). by exists w, res, tab.
Qed.

(** ** Requests that arrive *)

Lemma build_request_ok i spec (q : Req) :
  request_ok (sp_key_groups spec) → _build_request i spec = Ret q →
  rq_id q = i ∧ rq_groups q = sp_key_groups spec ∧ fresh q ∧ (∀ k, recorded q k = 0) ∧
  ∀ l1 l2, maps_ok (rq_groups q) l1 l2 q.
Proof.
  intros Hreq. unfold _build_request. destruct (sp_key_groups spec) as [|g gs] eqn:Eg; [by destruct (rk_some _ Hreq)|].
  destruct (_get_max_load_bytes (g :: gs)) as [bytes|]; [|done]. intros [= <-]. cbn. split_and!; [done|done|done| |].
  - intros k. unfold recorded. cbn [rq_groups rq_id rq_l1_locked rq_l1_reserved rq_l2_locked].
    by rewrite (m_zero_l1 (g :: gs)), (m_zero_stage (g :: gs)), (m_zero_l2 (g :: gs)).
  - intros l1 l2. split; cbn; try apply fits_empty; try (by intros x ?%not_elem_of_nil); [by left|done].
Qed.

(** A new request in the table, before its first method. *)
Lemma inv_new i (q : Req) c :
  ctl_inv None c → i ∉ dkeys (pc_in_flight c) → i < pc_next c → i ∉ (pc_pending c ++ pc_submitted c).*1 →
  tracked c i q → (∀ k, recorded q k = 0) → ctl_inv (Some i) (set_table (dset i q (pc_in_flight c)) c).
Proof.
  intros [E1 E2 E3 E4 E5 E6 E7 E8 E9 E10 E14 E11 E12 E13] Hi Hn Hnq Hq Hz.
  assert (∀ k, net k (w_log (pc_world c)) = in_flight_total (set_table (dset i q (pc_in_flight c)) c) k) as Hb.
  { intros k. rewrite E4. unfold in_flight_total. cbn [set_table pc_in_flight]. rewrite zsum_dset_new by done. cbn [snd]. rewrite Hz. lia. }
  split; [..|exact Hb| | | | | | | | | |]; pc_cbn; try done.
  - by destruct E1.
  - by apply NoDup_dset.
  - intros j qj. rewrite dget_dset. case_decide as Hd; [intros [= <-]; subst j; by split|]. intros Ej.
    destruct (E3 j qj Ej) as [? Hw]. split; [done|]. intros _. by apply Hw.
  - intros j Hj. rewrite elem_dkeys_dset. intros [Ht| ->]; [|done]. by apply (E7 j).
  - intros j. rewrite elem_dkeys_dset. intros [[?| ->]|?]; [apply E8; by left|done|apply E8; by right].
Qed.

Lemma start_request_inv item c :
  ctl_inv None c → item.1 ∉ dkeys (pc_in_flight c) → item.1 < pc_next c → item.1 ∉ (pc_pending c ++ pc_submitted c).*1 →
  request_ok (sp_key_groups item.2) →
  hwp (start_request true item) (λ _ c', ctl_inv None c' ∧ pc_pending c' = pc_pending c) (λ _, False) c.
Proof.
  intros Hc Hi Hn Hnq Hreq. unfold start_request. destruct item as [i spec]. cbn [fst snd] in *.
  destruct (_build_request i spec) as [q|e] eqn:Eb; [|by unfold hwp].
  destruct (build_request_ok i spec q Hreq Eb) as (Eid & Eg & Hf & Hz & Hm).
  change (hwp (run_on q (h_catch (start_lookups true) (let^ s := h_get in if dmem (rq_id q) (pc_in_flight s.1) then _abort_request else h_ret tt)))
    (λ _ c', ctl_inv None c' ∧ pc_pending c' = pc_pending c) (λ _, False) (set_table (dset i q (pc_in_flight c)) c)).
  set (c1 := set_table (dset i q (pc_in_flight c)) c). assert (tracked c i q) as Ht by (split_and!; [done|by rewrite Eg|apply Hm]).
  pose proof (inv_new i q c Hc Hi Hn Hnq Ht Hz) as Hc1. fold c1 in Hc1.
  assert (dget i (pc_in_flight c1) = Some q) as Ei by (cbn; apply dget_dset_eq). pose proof (method_start i q c1 Hc1 Ei) as Hh.
  pose proof (ci_env _ _ Hc1) as Henv. assert (request_ok (rq_groups q)) as Hrq by (by rewrite Eg).
  eapply hwp_mono; [apply (run_on_inv i q _ c1 Hc1 Ei)| |done].
  - apply hwp_catch. eapply (start_wp c1 (others c1 q) (rq_groups q) i Henv Hrq); [exact Hh|exact Hf| | |].
    + intros c' q' Hh'. apply wp_get. cbn [fst]. pose proof (st_fields _ _ _ _ (proj2 Hh')) as (_ & _ & _ & _ & Et & _). cbn [fst] in Et.
      rewrite Et, Eid, (proj2 (dmem_true i (pc_in_flight c1))) by (apply dget_is_Some; by eexists).
      apply (abort_wp c1 (others c1 q) (rq_groups q) i Hrq); [done|]. intros c2 q2 Eq Hc2. by right.
    + intros c' q' Hh' Hw'. by left.
    + intros c' q' Eq Hc'. by right.
  - intros [] c' (w & res & tab & -> & Hc' & _). by split.
Qed.

Lemma inv_queues pending submitted next c :
  ctl_inv None c → NoDup (pending ++ submitted).*1 →
  (∀ i spec, (i, spec) ∈ pending ++ submitted →
     request_ok (sp_key_groups spec) ∧ (i ∉ dkeys (pc_in_flight c)) ∧ i < next) → pc_next c <= next →
  ctl_inv None (set_queues pending submitted next c).
Proof.
  intros [E1 E2 E3 E4 E5 E6 E7 E8 E9 E10 E14 E11 E12 E13] Hnd Hq Hn.
  assert (∀ i, i ∈ (pending ++ submitted).*1 → (i ∉ dkeys (pc_in_flight c)) ∧ i < next) as Hi.
  { intros i Hi. apply list_elem_of_fmap in Hi as ([j spec] & -> & Hin). by apply Hq in Hin as (_ & ? & ?). }
  split; pc_cbn; try done.
  - by destruct E1.
  - intros i spec Hin. by apply Hq in Hin as (? & _).
  - intros i Hin. by apply Hi.
  - intros i [Ht|Hin]; [|by apply Hi]. assert (i < pc_next c) by (apply E8; by left). lia.
Qed.

Lemma queue_facts c i spec :
  ctl_inv None c → (i, spec) ∈ pc_pending c ++ pc_submitted c →
  request_ok (sp_key_groups spec) ∧ (i ∉ dkeys (pc_in_flight c)) ∧ i < pc_next c.
Proof.
  intros Hc Hin. assert (i ∈ (pc_pending c ++ pc_submitted c).*1) as Hi.
  { apply list_elem_of_fmap. by exists (i, spec). }
  split_and!; [by eapply (ci_specs _ _ Hc)|by apply (ci_new _ _ Hc)|apply (ci_next _ _ Hc); by right].
Qed.

Lemma start_pending_inv queue c :
  ctl_inv None c → pc_pending c = queue → hwp (start_pending true queue) (λ _ c', ctl_inv None c') (λ c', ctl_inv None c') c.
Proof.
  revert c. induction queue as [|item queue IH]; intros c Hc Eq; [done|]. unfold hwp. cbn [start_pending].
  destruct (_can_admit_new_prefetch c item.2) as [[]|e]; [|done|done]. destruct item as [i spec].
  set (c1 := set_queues queue (pc_submitted c) (pc_next c) c).
  destruct (queue_facts c i spec Hc) as (Hreq & Hi & Hn); [rewrite Eq; left|].
  pose proof (ci_queue _ _ Hc) as Hnd. rewrite Eq in Hnd. cbn [app] in Hnd. rewrite fmap_cons in Hnd. apply NoDup_cons in Hnd as [Hni Hnd].
  assert (ctl_inv None c1) as Hc1.
  { apply inv_queues; [done|done| |done]. intros j sj Hj. apply (queue_facts c j sj Hc). rewrite Eq. by right. }
  pose proof (start_request_inv (i, spec) c1 Hc1 Hi Hn Hni Hreq) as Hs. unfold hwp in Hs.
  destruct (start_request true (i, spec) c1) as [[[]|e] c2]; [|done]. destruct Hs as [Hc2 Ep]. exact (IH c2 Hc2 Ep).
Qed.

(** ** Adapters that come and go *)

Lemma loading_affinity aff aff' (q : Req) :
  (∀ b, b ∈ dkeys (ms_state (rq_l2_locked q)) → dget b aff' = dget b aff) → loading aff q → loading aff' q.
Proof.
  intros Ha [L1 L2 [P1 P2 P3 P4] L3]. split; [done|done| |done]. split; [done|done| |].
  - intros a i j. rewrite P3. split; intros (b & Eb & Hb); exists b; (split; [|done]); rewrite <-Eb.
    + apply Ha. by eapply (dcell_key (ms_state (rq_l2_locked q))).
    + symmetry. apply Ha. by eapply (dcell_key (ms_state (rq_l2_locked q))).
  - intros b a Hb Eb. eapply P4; [done|]. by rewrite <-Ha.
Qed.

Lemma waiting_affinity (c c' : PC) (q : Req) :
  (∀ b, b ∈ dkeys (ms_state (rq_l2_locked q)) → dget b (pc_affinity c') = dget b (pc_affinity c)) → waiting c q → waiting c' q.
Proof. intros Ha [?|[Hl ?]]; [by left|right]. split; [|done]. by eapply loading_affinity. Qed.

(** The invariant under a change of the adapters. *)
Lemma inv_adapters l2 descs aff draining done c :
  let c' := set_adapters (mkWorld (w_l1 (pc_world c)) l2 (w_log (pc_world c))) descs aff draining done c in
  ctl_inv None c → env_ok c' →
  (∀ i q, dget i (pc_in_flight c) = Some q → maps_ok (rq_groups q) (dkeys (w_l1 (pc_world c))) (dkeys l2) q ∧
     ∀ b, b ∈ dkeys (ms_state (rq_l2_locked q)) → dget b aff = dget b (pc_affinity c)) →
  (∀ i, i ∈ omap op_adds (pc_ops c) → i ∉ dkeys l2) → (∀ i, i ∈ dkeys draining → i ∈ dkeys l2) → NoDup (dkeys draining) →
  ctl_inv None c'.
Proof.
  intros c' [E1 E2 E3 E4 E5 E6 E7 E8 E9 E10 E14 E11 E12 E13] Henv Hq Ha Hd Hnd. split; unfold c' in *; pc_cbn; try done.
  intros i q Ei. destruct (Hq i q Ei) as [Hm Haff], (E3 i q Ei) as [(T1 & T2 & T3) Hw]. split; [by split_and!|].
  intros Hs. eapply waiting_affinity; [|by apply Hw]. exact Haff.
Qed.

Lemma resolve_ok wanted (l1 : dict Z S) a : resolve_l1_affinity wanted l1 = Ret a → a ∈ dkeys l1.
Proof.
  unfold resolve_l1_affinity. destruct (wanted ≫= _) as [|x xs] eqn:E; [done|]. intros [= <-].
  assert (x ∈ x :: xs) as Hx by left. rewrite <-E in Hx. apply list_elem_of_bind in Hx as (tags & Hx & _).
  apply list_elem_of_omap in Hx as ([k m] & Hin & Hm). case_bool_decide; [|done]. injection Hm as <-. unfold dkeys.
  apply list_elem_of_fmap. by exists (k, m).
Qed.

Lemma maps_more {U} groups l1 l2 l2' (q : Request U) : (∀ i, i ∈ l2 → i ∈ l2') → maps_ok groups l1 l2 q → maps_ok groups l1 l2' q.
Proof. intros Hl []. split; auto. Qed.

Lemma add_inv i adapter descriptor done l1_idx c :
  ctl_inv None c → i ∉ dkeys (w_l2 (pc_world c)) → l2_ok adapter → l1_idx ∈ dkeys (w_l1 (pc_world c)) → pc_ops c = [] →
  ctl_inv None (set_adapters (mkWorld (w_l1 (pc_world c)) (dset i adapter (w_l2 (pc_world c))) (w_log (pc_world c)))
    (dset i descriptor (pc_descs c)) (dset i l1_idx (pc_affinity c)) (pc_draining c) (pc_done c ++ [done]) c).
Proof.
  intros Hc Hi Hok Ha Eo. pose proof (ci_env _ _ Hc) as [V1 V2 [V3 V3'] V4 V5 V6 V7]. apply inv_adapters; [done| | | | |apply Hc].
  - split; pc_cbn; try done.
    + by apply set_l2_ok.
    + split; [by apply NoDup_dset|]. intros j. by rewrite !elem_dkeys_dset, V3'.
    + intros j. rewrite elem_dkeys_dset. intros Hj. rewrite dget_dset. case_decide; [by exists l1_idx|].
      destruct Hj as [Hj| ->]; [by apply V4|done].
    + by apply NoDup_dset.
  - intros j q Ej. destruct (ci_requests _ _ Hc j q Ej) as [(_ & _ & Hm) _]. split.
    + eapply maps_more; [|exact Hm]. intros x Hx. apply elem_dkeys_dset. by left.
    + intros b Hb. rewrite dget_dset. rewrite decide_False; [done|]. intros ->. by apply Hi, (mo_l2_keys _ _ _ _ Hm).
  - rewrite Eo. by intros j ?%not_elem_of_nil.
  - intros j Hj. apply elem_dkeys_dset. left. by apply (ci_draining _ _ Hc).
Qed.

Lemma inv_ops ops c :
  ctl_inv None c → NoDup (omap op_adds ops) → (∀ i, i ∈ omap op_adds ops → i ∉ dkeys (w_l2 (pc_world c))) →
  Forall op_ok ops → ctl_inv None (set_ops ops c).
Proof. intros [E1 E2 E3 E4 E5 E6 E7 E8 E9 E10 E14 E11 E12 E13] Hn Ha Hok. split; pc_cbn; try done. by destruct E1. Qed.

Lemma apply_op_inv op ops c :
  ctl_inv None c → pc_ops c = [] → op_ok op → NoDup (omap op_adds (op :: ops)) →
  (∀ i, i ∈ omap op_adds (op :: ops) → i ∉ dkeys (w_l2 (pc_world c))) →
  hwp (apply_op op) (λ _ c', ctl_inv None c' ∧ pc_ops c' = [] ∧ ∀ i, i ∈ omap op_adds ops → i ∉ dkeys (w_l2 (pc_world c')))
    (λ c', ctl_inv None c') c.
Proof.
  intros Hc Eo Hok Hnd Ha. destruct op as [i adapter descriptor done|i done]; cbn [omap list_omap op_adds] in *.
  - unfold apply_op. apply hwp_bind. change (hwp (let^ l1_idx := h_lift (resolve_l1_affinity (wanted_l1_memory_tags descriptor) (w_l1 (pc_world c))) in
      h_modify (λ c : PC, set_adapters (mkWorld (w_l1 (pc_world c)) (dset i adapter (w_l2 (pc_world c))) (w_log (pc_world c)))
        (dset i descriptor (pc_descs c)) (dset i l1_idx (pc_affinity c)) (pc_draining c) (pc_done c ++ [done]) c))
      (λ _ c', ctl_inv None c' ∧ pc_ops c' = [] ∧ ∀ i, i ∈ omap op_adds ops → i ∉ dkeys (w_l2 (pc_world c'))) (λ c', ctl_inv None c') c).
    apply hwp_bind. destruct (resolve_l1_affinity _ _) as [a|e] eqn:Er; [|done]. apply NoDup_cons in Hnd as [Hni Hnd].
    split_and!; [apply add_inv; [done|apply Ha; left|done|by eapply resolve_ok|done]|done|]. intros j Hj. pc_cbn. rewrite elem_dkeys_dset.
    intros [Hj2| ->]; [|done]. apply (Ha j); [by right|done].
  - unfold apply_op, hwp, h_modify. destruct (dmem i (w_l2 (pc_world c))) eqn:Em.
    + split_and!; [|done|done]. destruct Hc as [E1 E2 E3 E4 E5 E6 E7 E8 E9 E10 E14 E11 E12 E13]. split; pc_cbn; try done.
      * by destruct E1.
      * intros j. rewrite elem_dkeys_dset. intros [?| ->]; [by apply E11|by apply dmem_true].
      * by apply NoDup_dset.
    + split_and!; [|done|done]. destruct Hc as [E1 E2 E3 E4 E5 E6 E7 E8 E9 E10 E14 E11 E12 E13]. split; pc_cbn; try done. by destruct E1.
Qed.

Lemma apply_ops_inv c :
  ctl_inv None c → hwp _apply_pending_adapter_ops (λ _ c', ctl_inv None c') (λ c', ctl_inv None c') c.
Proof.
  intros Hc. unfold _apply_pending_adapter_ops.
  change (hwp (h_iter apply_op (pc_ops c)) (λ _ c', ctl_inv None c') (λ c', ctl_inv None c') (set_ops [] c)).
  eapply hwp_mono; [apply (hwp_iter apply_op (λ ops c', ctl_inv None c' ∧ pc_ops c' = [] ∧ Forall op_ok ops ∧ NoDup (omap op_adds ops) ∧
    ∀ i, i ∈ omap op_adds ops → i ∉ dkeys (w_l2 (pc_world c'))) (λ c', ctl_inv None c'))| |done].
  - intros op ops c1 _ (Hc1 & Eo & Hok & Hnd & Ha). apply Forall_cons in Hok as [Hok1 Hok]. eapply hwp_mono; [by apply apply_op_inv| |done]. intros [] c2 (Hc2 & Eo2 & Ha2).
    split_and!; [done|done|done| |done]. cbn in Hnd. destruct (op_adds op); [by apply NoDup_cons in Hnd as [_ ?]|done].
  - split_and!; [apply inv_ops; [done|constructor|by intros i ?%not_elem_of_nil|constructor]|done|apply Hc|apply Hc|apply Hc].
  - by intros [] c' [? _].
Qed.

Lemma finalize_one_inv i c :
  ctl_inv None c → i ∈ dkeys (pc_draining c) →
  hwp (finalize_one i) (λ _ c', ctl_inv None c' ∧ ∀ j, j ≠ i → j ∈ dkeys (pc_draining c) → j ∈ dkeys (pc_draining c')) (λ _, False) c.
Proof.
  intros Hc Hi. unfold finalize_one, hwp, h_bind, h_get. destruct (_adapter_in_use i c) eqn:Eu; [done|].
  rewrite (proj2 (dmem_true i (w_l2 (pc_world c)))) by (by apply (ci_draining _ _ Hc)). cbn [negb]. unfold h_modify.
  assert (∀ j q, dget j (pc_in_flight c) = Some q →
    (i ∉ dkeys (rq_lookups q)) ∧ (i ∉ dkeys (rq_loads q)) ∧ i ∉ dkeys (ms_state (rq_l2_locked q))) as Hfree.
  { intros j q Ej%dget_Some_elem. unfold _adapter_in_use in Eu.
    assert (¬ (dmem i (rq_lookups q) || dmem i (rq_loads q) || dmem i (ms_state (rq_l2_locked q)) = true)) as Hn.
    { intros Ht. assert (existsb (λ t : Z * Req, dmem i (rq_lookups t.2) || dmem i (rq_loads t.2) || dmem i (ms_state (rq_l2_locked t.2)))
        (pc_in_flight c) = true) as Hx; [|congruence]. apply existsb_exists. exists (j, q). by rewrite <-list_elem_of_In. }
    rewrite !orb_true_iff, !dmem_true in Hn. tauto. }
  pose proof (ci_env _ _ Hc) as [V1 V2 [V3 V3'] V4 V5 V6 V7].
  split.
  - apply inv_adapters; [done| | | | |apply NoDup_ddel, Hc].
    + split; pc_cbn; try done.
      * split; [apply V1|]. cbn [w_l2]. intros j a. rewrite dget_ddel. case_decide; [done|apply V1].
      * split; [by apply NoDup_ddel|]. intros j. by rewrite !elem_dkeys_ddel, V3'.
      * intros j [Hj Hne]%elem_dkeys_ddel. rewrite dget_ddel. rewrite decide_False by congruence. by apply V4.
      * by apply NoDup_ddel.
    + intros j q Ej. destruct (ci_requests _ _ Hc j q Ej) as [(_ & _ & Hm) _], (Hfree j q Ej) as (F1 & F2 & F3). split.
      * destruct Hm. split; auto; intros x Hx; apply elem_dkeys_ddel; (split; [by auto|]); by intros ->.
      * intros b Hb. rewrite dget_ddel. rewrite decide_False; [done|]. by intros ->.
    + intros j Hj [? _]%elem_dkeys_ddel. by apply (ci_adds _ _ Hc j).
    + intros j [Hj Hne]%elem_dkeys_ddel. apply elem_dkeys_ddel. split; [by apply (ci_draining _ _ Hc)|done].
  - intros j Hne Hj. pc_cbn. by apply elem_dkeys_ddel.
Qed.

Lemma finalize_inv c : ctl_inv None c → hwp _finalize_drained_adapters (λ _ c', ctl_inv None c') (λ _, False) c.
Proof.
  intros Hc. unfold _finalize_drained_adapters. change (hwp (h_iter finalize_one (dkeys (pc_draining c))) (λ _ c', ctl_inv None c') (λ _, False) c).
  eapply hwp_mono; [apply (hwp_iter finalize_one (λ l c', ctl_inv None c' ∧ NoDup l ∧ ∀ j, j ∈ l → j ∈ dkeys (pc_draining c')) (λ _, False))| |done].
  - intros i l c1 _ (Hc1 & Hnd & Hl). apply NoDup_cons in Hnd as [Hni Hnd]. eapply hwp_mono; [apply finalize_one_inv; [done|apply Hl; left]| |done].
    intros [] c2 [Hc2 Hk]. split_and!; [done|done|]. intros j Hj. apply Hk; [by intros ->|]. apply Hl. by right.
  - split_and!; [done|apply Hc|done].
  - by intros [] c' [? _].
Qed.

(** ** The loop and the clients *)

Lemma turn_inv ready c :
  ctl_inv None c → hwp (_prefetch_loop_turn true ready) (λ _ c', ctl_inv None c') (λ c', ctl_inv None c') c.
Proof.
  intros Hc. unfold _prefetch_loop_turn. apply hwp_bind. eapply hwp_mono; [by apply apply_ops_inv| |done]. intros [] c1 Hc1.
  apply hwp_bind. eapply hwp_mono; [apply (hwp_iter _ (λ _ c', ctl_inv None c') (λ _, False))| |done].
  { intros fd l c2 _ Hc2. destruct fd; [|done..]. apply inv_queues; [done|rewrite app_nil_r; apply Hc2| |done].
    intros i spec. rewrite app_nil_r. by apply queue_facts. }
  { exact Hc1. }
  intros [] c2 Hc2. apply hwp_bind.
  assert (hwp (match pf_signaled true ready, pf_signaled false ready with
    | [], [] => h_ret tt | lookups, loads => advance_all true lookups loads end) (λ _ c', ctl_inv None c') (λ c', ctl_inv None c') c2) as Hadv.
  { destruct (pf_signaled true ready), (pf_signaled false ready); [done|..];
      (eapply hwp_mono; [by apply advance_all_inv| |done]; by intros [] c' (w & res & tab & _ & ?)). }
  eapply hwp_mono; [exact Hadv| |done]. intros [] c3 Hc3. apply hwp_bind.
  assert (hwp (pf_logged (_start_pending_requests true)) (λ _ c', ctl_inv None c') (λ c', ctl_inv None c') c3) as Hst.
  { pose proof (start_pending_inv (pc_pending c3) c3 Hc3 eq_refl) as Hp. unfold hwp, pf_logged, _start_pending_requests in *.
    by destruct (start_pending true (pc_pending c3) c3) as [[[]|e] c']. }
  eapply hwp_mono; [exact Hst| |done]. intros [] c4 Hc4. eapply hwp_mono; [by apply finalize_inv|done|done].
Qed.

(** A request served on the caller's thread. *)
Lemma direct_inv i spec (q : Req) c :
  ctl_inv None c → request_ok (sp_key_groups spec) → _build_request i spec = Ret q → i ∉ dkeys (pc_in_flight c) →
  hwp (run_on q (let^ _ := _lock_l1_keys in serve_from_l1 true)) (λ _ c', ctl_inv None c') (λ _, False) c.
Proof.
  intros Hc Hreq Eb Hi. destruct (build_request_ok i spec q Hreq Eb) as (Eid & Eg & Hf & Hz & Hm).
  pose proof (ci_env _ _ Hc) as Henv. assert (request_ok (rq_groups q)) as Hrq by (by rewrite Eg).
  assert (holds c (in_flight_total c) (rq_groups q) i (c, q)) as Hh.
  { split; [split; [done|done|apply Hm]|]. split; cbn [fst snd]; [by destruct c|apply Hc|done|done|]. intros k. rewrite Hz, (ci_balance _ _ Hc). lia. }
  apply run_on_wp, hwp_bind. apply (lock_l1_wp c (in_flight_total c) (rq_groups q) i Henv Hrq); [done|apply Hf|]. intros m c1 Hh1.
  apply (serve_wp c (in_flight_total c) (rq_groups q) i Henv Hrq); [done|done|].
  intros c' q' (c2 & results & Hs2 & Hres & ->) Hq' Et. unfold write_back. cbn [fst snd]. rewrite Et, (mi_id _ _ _ _ Hq').
  destruct (dmem i (pc_in_flight c)) eqn:Ed; [by apply dmem_true in Ed|]. pose proof (st_fields _ _ _ _ Hs2) as (_ & _ & _ & _ & Et2 & _).
  destruct Hs2 as [Ec Hw H1 H2 Hn].
  assert (set_results results c2 = moved_on (pc_world c2) results (pc_in_flight c) c) as -> by (by rewrite Ec).
  apply (inv_move None); try done; [apply Hres, Hc|apply Hc| |].
  - intros j qj Ej. by apply (ci_requests _ _ Hc).
  - intros k. rewrite Hn. unfold in_flight_total. lia.
Qed.

Lemma submit_inv spec c :
  ctl_inv None c → request_ok (sp_key_groups spec) →
  hwp (submit_prefetch_request true spec) (λ _ c', ctl_inv None c') (λ c', ctl_inv None c') c.
Proof.
  intros Hc Hreq. set (c1 := set_queues (pc_pending c) (pc_submitted c) (pc_next c + 1) c).
  assert (ctl_inv None c1) as Hc1.
  { apply inv_queues; [done|apply Hc| |lia]. intros i sp Hin. destruct (queue_facts c i sp Hc Hin) as (? & ? & ?). split_and!; [done|done|lia]. }
  assert (pc_next c ∉ dkeys (pc_in_flight c)) as Hnew.
  { intros Hi. assert (pc_next c < pc_next c) by (apply (ci_next _ _ Hc); by left). lia. }
  unfold submit_prefetch_request. apply hwp_bind. apply hwp_ret. cbn [pc_next]. apply hwp_bind.
  change (hwp (if bool_decide (sp_l2_tags spec = Some []) || bool_decide (dkeys (w_l2 (pc_world c)) = []) then
      let^ q := h_lift (_build_request (pc_next c) spec) in
      let^ _ := run_on q (let^ _ := _lock_l1_keys in serve_from_l1 true) in h_ret (pc_next c)
    else
      let^ _ := h_modify (λ c', set_queues (pc_pending c') (pc_submitted c' ++ [(pc_next c, spec)]) (pc_next c') c') in h_ret (pc_next c))
    (λ _ c', ctl_inv None c') (λ c', ctl_inv None c') c1).
  destruct (bool_decide _ || bool_decide _).
  - apply hwp_bind. destruct (_build_request (pc_next c) spec) as [q|e] eqn:Eb; [|exact Hc1]. eapply hwp_lift; [done|]. apply hwp_bind.
    eapply hwp_mono; [by apply (direct_inv (pc_next c) spec q c1)| |done]. by intros [] c' Hc'.
  - apply hwp_bind. change (ctl_inv None (set_queues (pc_pending c1) (pc_submitted c1 ++ [(pc_next c, spec)]) (pc_next c1) c1)).
    apply inv_queues; [done| | |done]; rewrite app_assoc.
    + rewrite fmap_app. apply NoDup_app. split_and!; [apply Hc1| |by apply NoDup_singleton].
      intros i Hi Hin%list_elem_of_singleton. cbn in Hin. subst i. assert (pc_next c < pc_next c) by (apply (ci_next _ _ Hc); by right). lia.
    + intros i sp [Hin|[= -> ->]%list_elem_of_singleton]%elem_of_app; [by apply queue_facts|]. split_and!; [done|done|]. cbn. lia.
Qed.

(** At the end every request in flight gives back what it holds. *)
Lemma cleanup_inv c :
  ctl_inv None c → hwp _cleanup_in_flight_requests (λ _ c', ctl_inv None c' ∧ pc_in_flight c' = []) (λ _, False) c.
Proof.
  intros Hc. change (hwp (h_iter (λ t : Z * Req, run_on t.2 (let^ _ := _release_all_locks in _retire_request)) (pc_in_flight c))
    (λ _ c', ctl_inv None c' ∧ pc_in_flight c' = []) (λ _, False) c).
  eapply hwp_mono; [apply (hwp_iter _ (λ l c', ctl_inv None c' ∧ pc_in_flight c' = l) (λ _, False))| |done].
  - intros [i q] l c1 _ [Hc1 Et]. assert (dget i (pc_in_flight c1) = Some q) as Ei by (rewrite Et; cbn; by rewrite decide_True).
    destruct (ci_requests _ _ Hc1 i q Ei) as [(T1 & T2 & T3) _]. pose proof (inv_skip i c1 Hc1) as Hsk.
    pose proof (method_start i q c1 Hsk Ei) as Hh. cbn [snd]. apply run_on_wp, hwp_bind.
    apply (release_all_wp c1 (others c1 q) (rq_groups q) i T2); [done|]. intros c2 Hs2.
    pose proof (st_fields _ _ _ _ Hs2) as (_ & _ & _ & _ & Et2 & Er2 & _).
    eapply (retire_wp c1 (others c1 q) (rq_groups q) i); [by apply mine_cleared, Hh| |done|].
    + exists c2, (pc_results c2). split_and!; [done|by rewrite Er2|by destruct c2].
    + intros c' He. destruct (gone_inv i q c1 (c', cleared q) Hsk Ei) as (w & res & E & Hinv); [exact T1|exact He|]. split; [done|].
      rewrite E. cbn [moved_on set_table pc_in_flight]. pose proof (ci_nodup _ _ Hc1) as Hnd. rewrite Et in *. unfold ddel.
      change (dkeys ((i, q) :: l)) with (i :: dkeys l) in Hnd. apply NoDup_cons in Hnd as [Hni _]. rewrite filter_cons. cbn [fst].
      rewrite decide_False by (by intros ?). by apply (ddel_notin i l).
  - done.
  - by intros [] c'.
Qed.
End controller.
