(* ===== verification/PrefetchTiers.v ===== *)
(** * Implementations of what the prefetch controller relies on

    The L1 manager of L1Manager.v, the mock L2 adapter and the two prefetch
    policies satisfy the laws of PrefetchMoves.v. *)

From stdpp Require Import gmap list strings.
From Stdlib Require Import ZArith Lia.
From S2P Require Import Prelude TTLLock TensorAllocator Keys L1Memory L1Manager L1ManagerInv L1ManagerProps L1ManagerOps Bitmap Fold Grid PrefetchPolicy L2Adapter StoreController Cells PrefetchController PrefetchMoves.

Open Scope Z_scope.

(** ** The L1 manager *)

(** A manager with its clock, lifetimes, id, subscribers and memory tags. *)
Definition BaseL1Manager_tier {M T} `{L1MemoryManagerProtocol M} (clock : nat → Z) (wttl rttl mid : Z) (subscribers : bool) (tags : T)
    : L1Tier (L1 M) T := {|
  tier_reserve_read := reserve_read clock;
  tier_finish_read := finish_read clock;
  tier_reserve_write := reserve_write clock wttl rttl mid;
  tier_finish_write_and_reserve_read := finish_write_and_reserve_read clock;
  tier_finish_write_and_delete := finish_write_and_delete clock;
  tier_touch_keys := touch_keys subscribers;
  tier_memory_usage := λ s, mm_get_memory_usage (l1_mm s);
  tier_staging_usage := get_staging_memory_usage;
  tier_tags := λ _, tags;
  tier_id := λ _, mid
|}.

Lemma reserve_read_loop_nodup {M} clock total keys r ok (s : L1 M) :
  NoDup (dkeys r) → wp (reserve_read_loop clock total keys r ok) (λ res _, NoDup (dkeys res.1)) s.
Proof.
  revert r ok s. induction keys as [|key keys IH]; intros r ok s Hr; [done|]. cbn [reserve_read_loop]. apply wp_bind. unfold wp at 1.
  cbn [get]. destruct (dget key (l1_objects s)) as [e|]; [|apply IH; by apply NoDup_dset].
  apply wp_bind. unfold wp at 1. rewrite now_n_eq. cbn beta iota. apply wp_bind. unfold wp at 1. cbn [put_objects]. apply IH. by apply NoDup_dset.
Qed.

Lemma reserve_read_nodup {M} clock keys n (s : L1 M) : wp (reserve_read clock keys n) (λ r _, NoDup (dkeys r)) s.
Proof.
  unfold reserve_read. apply wp_bind. eapply wp_mono; [apply reserve_read_loop_nodup; constructor|].
  intros res s' Hn. apply wp_bind. unfold wp at 1. cbn [_report_read_reserved emit]. exact Hn.
Qed.

Definition BaseL1Manager_tier_laws {M T} `{L1MemoryLaws M} (clock : nat → Z) (wttl rttl mid : Z) (subscribers : bool) (tags : T)
    (clock_mono : ∀ i j, (i ≤ j)%nat → clock i <= clock j) (read_ttl_nonneg : 0 <= rttl)
    : @L1TierLaws (L1 M) T (BaseL1Manager_tier clock wttl rttl mid subscribers tags).
Proof.
  refine {| tier_ok := inv wttl rttl mid [] |}.
  - intros keys n s Hs. pose proof (reserve_read_inv clock wttl rttl mid keys n s Hs) as Hi. pose proof (reserve_read_nodup clock keys n s) as Hn.
    destruct (reserve_read_effect clock keys n s) as (r & s' & E & Hr & _). unfold wp in Hi, Hn. rewrite E in Hi, Hn. exists r, s'.
    split_and!; [exact E|done|done|]. intros k. rewrite <-dget_is_Some, Hr. case_decide; [by split|]. split; [by intros [? ?]|done].
  - intros keys n s Hs. exact (wp_returns _ _ _ (finish_read_inv clock wttl rttl mid keys n s Hs)).
  - intros keys temps lay tag s Hs Hnd Hlen Hlay.
    pose proof (reserve_write_inv clock wttl rttl mid keys temps lay tag s clock_mono read_ttl_nonneg Hs Hnd Hlen Hlay) as Hi.
    destruct (reserve_write_effect clock wttl rttl mid clock_mono read_ttl_nonneg keys temps lay tag s Hs Hnd Hlen Hlay) as (r & s' & E & Hr & _).
    unfold wp in Hi. rewrite E in Hi. exists r, s'. split_and!; [exact E|done|]. intros k Hk.
    destruct (Hr k Hk) as [(i & Ek & _)|[(Ek & _)|(Ek & _)]]; rewrite Ek; do 2 eexists; (split; [done|]); by eauto.
  - intros keys n tag s Hs. exact (wp_returns _ _ _ (finish_write_and_reserve_read_inv clock wttl rttl mid keys n tag s Hs)).
  - intros keys tag s Hs. exact (wp_returns _ _ _ (finish_write_and_delete_inv clock wttl rttl mid keys tag s Hs)).
  - intros keys s Hs. destruct (wp_returns _ _ _ (touch_keys_inv wttl rttl mid subscribers keys s Hs)) as ([] & s' & E & Hs'). by exists s'.
Defined.

(** ** The mock adapter *)

(** It reads what the buffers that it is handed by reference hold ([heap]). *)
Definition Mock_prefetch {T} (heap : oid → MemoryObj) (tags : T) : L2Prefetch MockL2Adapter T := {|
  l2_submit_lookup := λ keys _ m, let '(id, m') := submit_lookup_and_lock_task keys m in (Ret id, m');
  l2_query_lookup := λ id m, let '(r, m') := query_lookup_and_lock_result id m in (Ret r, m');
  l2_submit_unlock := λ keys m, (Ret tt, submit_unlock keys m);
  l2_submit_load := λ keys objs m, let '(id, m') := submit_load_task keys (heap <$> objs) m in (Ret id, m');
  l2_query_load := λ id m, let '(r, m') := query_load_result id m in (Ret r, m');
  l2_tags := λ _, tags
|}.

(** The bitmaps it keeps are well formed. *)
Record mock_bitmaps_ok (m : MockL2Adapter) : Prop := {
  mb_lookups : ∀ id b, dget id (mk_lookups m) = Some b → bm_wf b;
  mb_loads : ∀ id b, dget id (mk_loads m) = Some b → bm_wf b;
  mb_sleeping : ∀ id b keys, SleepLoad id b keys ∈ mk_sleeping m → bm_wf b
}.

Lemma dset_bitmaps id b0 (d : dict Z Bitmap) :
  bm_wf b0 → (∀ i b, dget i d = Some b → bm_wf b) → ∀ i b, dget i (dset id b0 d) = Some b → bm_wf b.
Proof. intros H0 Hd i b. rewrite dget_dset. case_decide; [by intros [= <-]|apply Hd]. Qed.

Lemma run_job_bitmaps j m : mock_bitmaps_ok m → mock_bitmaps_ok (run_job j m).
Proof.
  intros [H1 H2 H3]. assert (∀ keys, bm_wf (lookup_bitmap keys m)) as Hl by (intros keys; apply batched_set_row).
  destruct j as [keys objs id|keys id|keys|keys objs id]; cbn [run_job].
  - destruct (store_loop _ _ _ _) as [ok a]. split; cbn; [done|done|]. intros i b ks [Hin|[=]%list_elem_of_singleton]%elem_of_app. by eapply H3.
  - split; cbn; [by apply dset_bitmaps|done|done].
  - by split.
  - destruct (load_targets_ok keys objs m); [|done]. split; cbn; [done|done|].
    intros i b ks [Hin|[= -> -> ->]%list_elem_of_singleton]%elem_of_app; [by eapply H3|apply Hl].
Qed.

Lemma wake_bitmaps s m m' ev : mock_bitmaps_ok m → s ∈ mk_sleeping m → wake s m = Ret (m', ev) → mock_bitmaps_ok m'.
Proof.
  intros [H1 H2 H3] Hs. destruct s as [id ok total keys sizes|id b keys]; cbn [wake].
  - destruct (new_store_result ok total) as [r|]; [|done]. cbn [py_bind]. destruct keys as [|k keys]; [intros [= <- _]; by split|].
    destruct (_notify_keys_stored _ _ _) as [[b e]|]; [|done]. intros [= <- _]. by split.
  - intros [= <- _]. split; cbn; [done|apply dset_bitmaps; [by eapply H3|done]|done].
Qed.

Lemma ddel_bitmaps id (d : dict Z Bitmap) :
  (∀ i b, dget i d = Some b → bm_wf b) → ∀ i b, dget i (ddel id d) = Some b → bm_wf b.
Proof. intros Hd i b. rewrite dget_ddel. case_decide; [done|apply Hd]. Qed.

Definition Mock_prefetch_laws {T} (heap : oid → MemoryObj) (tags : T) : @L2PrefetchLaws MockL2Adapter T (Mock_prefetch heap tags).
Proof.
  refine {| l2_ok := mock_bitmaps_ok |}.
  - intros keys m [H1 H2 H3]. exists (submit_unlock keys m). split; [done|]. by split.
  - intros keys layouts m [H1 H2 H3]. by split.
  - intros id m [H1 H2 H3]. split; cbn; [by apply ddel_bitmaps|done|done].
  - intros keys objs m [H1 H2 H3]. by split.
  - intros id m [H1 H2 H3]. split; cbn; [done|by apply ddel_bitmaps|done].
  - intros id m b m' [H1 H2 H3] [= Eb _]. by eapply H1.
  - intros id m b m' [H1 H2 H3] [= Eb _]. by eapply H2.
Defined.

(** ** The policies *)

Lemma plan_load_ok {D1 D2} groups l1 l2 (d1 : dict Z D1) (d2 : dict Z D2) fp :
  groups ≠ [] → windows_ok groups → NoDup (dkeys d1) → NoDup (dkeys d2) →
  fits (length groups) (num_chunks_of groups) l1 → fits (length groups) (num_chunks_of groups) l2 →
  ∃ plan, plan_load true groups l1 l2 d1 d2 fp = Ret plan ∧ plan_ok (length groups) (num_chunks_of groups) l1 l2 plan.
Proof.
  intros Hne [Hw Hn] Hn1 Hn2 H1 H2.
  destruct (plan_load_run groups l1 l2 d1 d2 fp Hne H1 H2 Hn1 Hn2 Hw Hn) as (g & plan & E & _ & Hp & [S1 S2 S3 S4]). exists plan.
  assert (∀ idx i j, locked (l1_planned_keys plan) idx i j = true → first_holder l1 (sorted_keys d1) i j = Some idx) as P1.
  { intros idx i j Hl. by apply Hp in Hl as [_ ?]. }
  assert (∀ idx i j, locked (l2_planned_keys plan) idx i j = true →
    first_holder l1 (sorted_keys d1) i j = None ∧ first_holder l2 (sorted_keys d2) i j = Some idx) as P2.
  { intros idx i j Hl. by apply Hp in Hl as [_ ?]. }
  split; [done|]. split; [done|done| | |done|done| | |].
  - intros idx i j Hl%P1. by apply first_holder_in in Hl as [_ ?].
  - intros idx i j [_ Hl]%P2. by apply first_holder_in in Hl as [_ ?].
  - intros a b i j Ha%P1 Hb%P1. congruence.
  - intros a b i j [_ Ha]%P2 [_ Hb]%P2. congruence.
  - intros a b i j Ha%P1. destruct (locked (l2_planned_keys plan) b i j) eqn:Eb; [|done]. apply P2 in Eb as [Eb _]. congruence.
Qed.

#[export] Instance DefaultPrefetchPolicy_laws D1 D2 : PrefetchPolicyLaws DefaultPrefetchPolicy D1 D2.
Proof.
  refine {| policy_wf := λ '(default_prefetch kernels), kernels = true |}.
  - intros groups l1 l2 d1 d2 fp [kernels] ->. apply plan_load_ok.
  - intros keys d1 d2 p. apply length_replicate.
Defined.

#[export] Instance RetainPrefetchPolicy_laws D1 D2 : PrefetchPolicyLaws RetainPrefetchPolicy D1 D2.
Proof.
  refine {| policy_wf := λ '(retain_prefetch kernels), kernels = true |}.
  - intros groups l1 l2 d1 d2 fp [kernels] ->. apply plan_load_ok.
  - intros keys d1 d2 p. apply length_replicate.
Defined.
