(* ===== verification/PrefetchProps.v ===== *)
(** * Theorems about the prefetch controller

    The steps of the controller - calls of clients, adapters added and removed,
    turns of its loop, and whatever else happens to the managers and adapters in
    between - and what holds after any number of them. *)

From stdpp Require Import gmap list strings relations.
From Stdlib Require Import ZArith Lia Strings.Byte.
From S2P Require Import Prelude PyFloat TTLLock TensorAllocator Keys L1Memory L1Manager L1ManagerInv L1ManagerProps L1ManagerOps Bitmap Fold Grid PrefetchPolicy L2Adapter StoreController Cells Handler PrefetchController PrefetchMoves PrefetchLoad PrefetchInv PrefetchBalance PrefetchTiers.

Open Scope Z_scope.
Open Scope handler_scope.

Section prefetch.
Context {S A D1 D2 P T : Type} `{EqDecision T} `{WantsTags D2 T}.
Context {IL : L1Tier S T} {LL : L1TierLaws S T} {IA : L2Prefetch A T} {LA : L2PrefetchLaws A T}.
Context {IP : PrefetchPolicy P D1 D2} {LP : PrefetchPolicyLaws P D1 D2}.

#[local] Abbreviation PC := (PrefetchController S A D1 D2 P T).
#[local] Abbreviation Req := (Request T).

(** A controller as [__init__] leaves it, with its managers and adapters. *)
Definition pf_initial (c : PC) : Prop :=
  env_ok c ∧ pc_in_flight c = [] ∧ pc_pending c = [] ∧ pc_submitted c = [] ∧ pc_ops c = [] ∧ pc_draining c = [] ∧
  pc_results c = [] ∧ w_log (pc_world c) = [].

(** Adapter ids are never reused: the storage manager counts them up. *)
Inductive pf_step : PC → PC → Prop :=
  | pf_submit spec c : request_ok (sp_key_groups spec) → pf_step c (submit_prefetch_request true spec c).2
  | pf_query i c : pf_step c (query_prefetch_result i c).2
  | pf_add i adapter descriptor done c :
      i ∉ dkeys (w_l2 (pc_world c)) → i ∉ omap op_adds (pc_ops c) → l2_ok adapter → pf_step c (add_adapter i adapter descriptor done c).2
  | pf_remove i done c : pf_step c (pf_enqueue (PfRemove i done) c)
  | pf_turn ready c : pf_step c (_prefetch_loop_turn true ready c).2
  | pf_stop c : pf_step c (_cleanup_in_flight_requests c).2
  | pf_outside l1 l2 c :
      world_ok (mkWorld l1 l2 (w_log (pc_world c))) → dkeys l1 = dkeys (w_l1 (pc_world c)) → dkeys l2 = dkeys (w_l2 (pc_world c)) →
      pf_step c (set_world (mkWorld l1 l2 (w_log (pc_world c))) c).

Lemma initial_inv c : pf_initial c → ctl_inv None c.
Proof.
  intros (He & E1 & E2 & E3 & E4 & E5 & E6 & E7).
  split; unfold in_flight_total; rewrite ?E1, ?E2, ?E3, ?E4, ?E5, ?E6, ?E7; try done; try (by constructor);
    try (by intros i ?%not_elem_of_nil); try (by intros i [?%not_elem_of_nil|?%not_elem_of_nil]).
  by intros i spec ?%not_elem_of_nil.
Qed.

Lemma hwp_state {St X} (h : handler St X) (I : St → Prop) s : hwp h (λ _ s', I s') I s → I (h s).2.
Proof. unfold hwp. by destruct (h s) as [[x|e] s']. Qed.

Lemma outside_inv l1 l2 c :
  ctl_inv None c → world_ok (mkWorld l1 l2 (w_log (pc_world c))) → dkeys l1 = dkeys (w_l1 (pc_world c)) →
  dkeys l2 = dkeys (w_l2 (pc_world c)) → ctl_inv None (set_world (mkWorld l1 l2 (w_log (pc_world c))) c).
Proof.
  intros Hc Hw E1 E2. assert (set_world (mkWorld l1 l2 (w_log (pc_world c))) c
    = moved_on (mkWorld l1 l2 (w_log (pc_world c))) (pc_results c) (pc_in_flight c) c) as -> by done.
  apply (inv_move None); try done; [apply Hc|apply Hc|apply Hc|apply Hc].
Qed.

Lemma step_inv c c' : pf_step c c' → ctl_inv None c → ctl_inv None c'.
Proof.
  intros Hstep Hc. destruct Hstep as [spec c Hreq|i c|i adapter descriptor done c Hi Ho Hok|i done c|ready c|c|l1 l2 c Hw E1 E2].
  - by apply hwp_state, submit_inv.
  - destruct Hc as [E1 E2 E3 E4 E5 E6 E7 E8 E9 E10 E14 E11 E12 E13]. cbn. split; pc_cbn; try done; [by destruct E1|].
    intros j res. rewrite dget_ddel. case_decide; [done|apply E13].
  - unfold add_adapter, h_bind, h_get, h_lift. destruct (resolve_l1_affinity _ _); [|exact Hc]. cbn. apply inv_ops; [done| | |].
    + rewrite omap_app. apply NoDup_app. split_and!; [apply Hc| |by apply NoDup_singleton]. by intros j Hj ->%list_elem_of_singleton.
    + intros j. rewrite omap_app. intros [Hj| ->%list_elem_of_singleton]%elem_of_app; [by apply (ci_adds _ _ Hc)|done].
    + apply Forall_app. split; [apply Hc|by apply Forall_singleton].
  - apply inv_ops; [done| | |].
    + rewrite omap_app. cbn. rewrite app_nil_r. apply Hc.
    + intros j. rewrite omap_app. cbn. rewrite app_nil_r. apply (ci_adds _ _ Hc).
    + apply Forall_app. split; [apply Hc|by apply Forall_singleton].
  - by apply hwp_state, turn_inv.
  - apply hwp_state. eapply hwp_mono; [by apply cleanup_inv| |done]. by intros [] c' [? _].
  - by apply outside_inv.
Qed.

Lemma reachable_inv c0 c : pf_initial c0 → rtc pf_step c0 c → ctl_inv None c.
Proof. intros H0 Hr. apply initial_inv in H0. induction Hr; [done|]. apply IHHr. by eapply step_inv. Qed.

(** The adapters work on their own. *)
Definition adapters_work (f : A → A) (c : PC) : PC :=
  set_world (mkWorld (w_l1 (pc_world c)) ((λ p : Z * A, (p.1, f p.2)) <$> w_l2 (pc_world c)) (w_log (pc_world c))) c.

Lemma dget_map {V W} (f : V → W) (d : dict Z V) i : dget i ((λ p : Z * V, (p.1, f p.2)) <$> d) = f <$> dget i d.
Proof. induction d as [|[k v] d IH]; [done|]. cbn. case_decide; [done|apply IH]. Qed.

Lemma adapters_step f c : ctl_inv None c → (∀ a, l2_ok a → l2_ok (f a)) → pf_step c (adapters_work f c).
Proof.
  intros Hc Hf. apply pf_outside; [|done|].
  - split; cbn; [apply (ev_world _ (ci_env _ _ Hc))|]. intros i a. rewrite dget_map.
    destruct (dget i (w_l2 (pc_world c))) as [a0|] eqn:E; [|done]. intros [= <-]. apply Hf. by eapply (ev_world _ (ci_env _ _ Hc)).
  - unfold dkeys. rewrite <-list_fmap_compose. by apply list_fmap_ext.
Qed.

(** C2: the prefetch controller's books balance. After any sequence of requests,
    turns of the loop, and adapters added, removed, and failing (any call of
    theirs may raise but [submit_unlock], which their interface requires to
    succeed), what is out of what was granted - less what was given back, and
    the read locks left to the clients of finished requests - is what the
    requests in flight record: for every L2 adapter and key, the locks that the
    lookup results taken by the controller reported; for every L1 manager, key
    and tag, the buffers staged; and for every L1 manager and key, the read
    locks, save that the controller also records those of a load that the
    manager refused to admit, and gives them back too. The cleanup at the end
    returns, empties the table of requests, and then no buffer, no L2 lock and,
    for a key that no manager refused to admit, no read lock is out. (Locks that
    an adapter takes for a lookup whose result is never taken are not among
    those reported: [cleanup_leaves_lookup_locks].) *)
Theorem prefetch_locks_balanced c0 c :
  pf_initial c0 → rtc pf_step c0 c →
  (∀ k, net_granted k (w_log (pc_world c)) + net_refused k (w_log (pc_world c)) = in_flight_total c k) ∧
  (∀ k, (∀ i x, k ≠ KRead i x) → net_granted k (w_log (pc_world c)) = in_flight_total c k) ∧
  ∃ c', _cleanup_in_flight_requests c = (Ret tt, c') ∧ pc_in_flight c' = [] ∧
    (∀ k, (∀ i x, k ≠ KRead i x) → net_granted k (w_log (pc_world c')) = 0) ∧
    ∀ k, net_refused k (w_log (pc_world c')) = 0 → net_granted k (w_log (pc_world c')) = 0.
Proof.
  intros H0 Hr. pose proof (reachable_inv c0 c H0 Hr) as Hc. pose proof (cleanup_inv c Hc) as Hcl. unfold hwp in Hcl.
  destruct (_cleanup_in_flight_requests c) as [[[]|e] c'] eqn:E; [|done]. destruct Hcl as [Hc' Et].
  assert (∀ k, net_granted k (w_log (pc_world c)) + net_refused k (w_log (pc_world c)) = in_flight_total c k) as Hb by (intros k; rewrite <-net_split; apply (ci_balance _ _ Hc)).
  assert (∀ k, net_granted k (w_log (pc_world c')) + net_refused k (w_log (pc_world c')) = 0) as Hb'
    by (intros k; rewrite <-net_split, (ci_balance _ _ Hc'); unfold in_flight_total; by rewrite Et).
  split; [done|]. split; [intros k Hk; rewrite <-Hb, (refused_reads k _ Hk); lia|]. exists c'. split; [done|]. split; [done|]. split.
  - intros k Hk. specialize (Hb' k). rewrite (refused_reads k _ Hk) in Hb'. lia.
  - intros k Hk. specialize (Hb' k). lia.
Qed.

(** C22: a request in its load phase is consistent with what it reserved. Every
    adapter with cells locked for it has a load task; every adapter with a task
    or with locked cells is attached, and loads into an L1 manager that exists;
    no cell is locked on two adapters, and none that the request has read-locked
    in L1; and a manager has a buffer staged for a cell exactly when one of the
    adapters that load into it has that cell locked for the request. *)
Theorem prefetch_load_phase c0 c i q :
  pf_initial c0 → rtc pf_step c0 c → dget i (pc_in_flight c) = Some q → phase q = PLAN_AND_LOAD →
  (∀ b r j, locked (rq_l2_locked q) b r j = true → b ∈ dkeys (rq_loads q)) ∧
  (∀ b, b ∈ dkeys (rq_loads q) ∨ b ∈ dkeys (ms_state (rq_l2_locked q)) →
     b ∈ dkeys (w_l2 (pc_world c)) ∧ ∃ a, dget b (pc_affinity c) = Some a ∧ a ∈ dkeys (w_l1 (pc_world c))) ∧
  (∀ a b r j, locked (rq_l2_locked q) a r j = true → locked (rq_l2_locked q) b r j = true → a = b) ∧
  (∀ a b r j, locked (rq_l1_locked q) a r j = true → locked (rq_l2_locked q) b r j = false) ∧
  (∀ a r j, locked (rq_l1_reserved q) a r j = true ↔
     ∃ b, dget b (pc_affinity c) = Some a ∧ locked (rq_l2_locked q) b r j = true).
Proof.
  intros H0 Hr Ei Hp. pose proof (reachable_inv c0 c H0 Hr) as Hc. destruct (ci_requests _ _ Hc i q Ei) as [(_ & _ & Hm) Hw].
  specialize (Hw ltac:(done)). destruct Hw as [[Hl Hne]|[Hl _]]; [unfold phase in Hp; by destruct (rq_lookups q)|].
  destruct (lo_planned _ _ Hl) as [P1 P2 P3 P4]. split_and!; [apply Hl| |done|done|done]. intros b Hb.
  assert (b ∈ dkeys (w_l2 (pc_world c))) as Hin by (destruct Hm; destruct Hb; auto). split; [done|]. by apply (ev_affinity _ (ci_env _ _ Hc)).
Qed.

(** A client gets consistent results. Whatever [query_prefetch_result]
    returns after any history has three grids of one shape, in which every hit
    cell is a hit in L1 or a hit loaded from L2 and not both, and, for a request
    that asked for everything found, the found cells contain the hits. *)
Theorem prefetch_results_split c0 c i res c' :
  pf_initial c0 → rtc pf_step c0 c → query_prefetch_result i c = (Ret (Some res), c') → result_ok res ∧ dget i (pc_results c') = None.
Proof.
  intros H0 Hr. pose proof (reachable_inv c0 c H0 Hr) as Hc. intros [= E <-]. split; [by eapply (ci_results _ _ Hc)|]. cbn.
  apply dget_ddel_eq.
Qed.

(** The cells a request hits, of those that were found. *)
Definition hit (policy : FetchingPolicy) (groups : list GroupedObjectKeys) (found : Bitmap2D) (i j : nat) : Prop :=
  match policy with
  | prefix => wanted prefix (num_chunks_of groups) found (windows_of groups) i j
  | full => (i < length groups)%nat ∧ ∀ i', (i' < length groups)%nat → cell found i' j = true
  end.

(** C32: the hits of a finished request. With one row per key group, a prefix
    request hits exactly the cells that its longest prefix servable from the
    cells it has read-locked needs, each of them read-locked; a request for
    everything hits the columns that are read-locked in every row. *)
Theorem final_hits_spec l1 l2 (q : Req) :
  request_ok (rq_groups q) → maps_ok (rq_groups q) l1 l2 q →
  ∃ found hits, final_hits true q = Ret (found, hits) ∧
    (∀ i j, cell found i j = true ↔ ∃ a, locked (rq_l1_locked q) a i j = true) ∧
    (∀ i j, cell hits i j = true ↔ hit (rq_policy q) (rq_groups q) found i j) ∧
    (∀ i j, cell hits i j = true → cell found i j = true).
Proof.
  intros Hreq Hm. destruct (final_hits_run (rq_groups q) Hreq l1 l2 q eq_refl Hm) as (found & hits & E & _ & _ & H1 & H2 & H3).
  by exists found, hits.
Qed.
End prefetch.

(** ** Witness

    A request for two chunks, the first resident in the L1 of [demo_state], the
    second held by a mock adapter. *)

Definition demo_key2 : ObjectKey := mkKey (mkIdentity [Byte.x0a; Byte.x00] 16777216 "m"%string 0 "u1"%string {[ "lora"%string := "a"%string ]}).

#[local] Instance demo_tier : L1Tier (L1 L1MemoryManager) unit := BaseL1Manager_tier demo_clock 10 20 7 false tt.
#[local] Instance demo_tier_laws : L1TierLaws (L1 L1MemoryManager) unit :=
  BaseL1Manager_tier_laws demo_clock 10 20 7 false tt demo_clock_mono ltac:(lia).
#[local] Instance demo_l2 : L2Prefetch MockL2Adapter unit := Mock_prefetch (λ _, demo_stored) tt.
#[local] Instance demo_l2_laws : L2PrefetchLaws MockL2Adapter unit := Mock_prefetch_laws (λ _, demo_stored) tt.
#[local] Instance demo_wants : WantsTags unit unit := λ _, [tt].

Definition demo_adapter : MockL2Adapter := set_objects [(demo_key2, demo_stored)] 2048 (mock_init 4096).

Definition demo_pc : PrefetchController (L1 L1MemoryManager) MockL2Adapter unit unit DefaultPrefetchPolicy unit :=
  mkPC (mkWorld [(0, demo_state)] [(3, demo_adapter)] []) [(0, tt)] [(3, tt)] (default_prefetch true) [(3, 0)] f_one
    [] [] [] [] [] 0 [] [].

Definition demo_spec : PrefetchTaskSpec unit :=
  mkSpec [mkGrouped [demo_key; demo_key2] 0 demo_layout (-1) 2] prefix LOCK None None.

(** The adapter runs what it was asked to do. *)
Definition mock_run_queue (m : MockL2Adapter) : MockL2Adapter :=
  foldl (λ m j, run_job j m) (L2Adapter.set_tasks (mk_next m) [] (mk_sleeping m) m) (mk_queue m).
Definition mock_wake_first (m : MockL2Adapter) : MockL2Adapter :=
  match mk_sleeping m with s :: _ => match wake s m with Ret (m', _) => m' | Raise _ => m end | [] => m end.

Definition demo_looking := (_prefetch_loop_turn true [SubmissionFd] (submit_prefetch_request true demo_spec demo_pc).2).2.
Definition demo_loading := (_prefetch_loop_turn true [LookupFd 3] (adapters_work mock_run_queue demo_looking)).2.
Definition demo_loaded := adapters_work mock_wake_first (adapters_work mock_run_queue demo_loading).
Definition demo_finished := (_prefetch_loop_turn true [LoadFd 3] demo_loaded).2.

Lemma demo_spec_ok : request_ok (sp_key_groups demo_spec).
Proof.
  split.
  - done.
  - split; [done|]. by apply Forall_singleton.
  - split; [|cbn; lia]. apply Forall_singleton. unfold fits_int64. cbn. lia.
  - apply (bool_decide_unpack _). by vm_compute.
  - apply Forall_singleton, demo_layout_ok.
Qed.

Lemma demo_pc_initial : pf_initial demo_pc.
Proof.
  split; [|by split_and!]. split; unfold demo_pc; cbn [pc_world pc_l1_descs pc_descs pc_policy pc_affinity w_l1 w_l2].
  - split; intros i x; cbn [w_l1 w_l2 dget]; (case_decide; [|done]); intros <-%(inj Some); [exact demo_state_inv|].
    split; cbn; [done|done|]. by intros ? ? ? ?%not_elem_of_nil.
  - split; [apply NoDup_singleton|done].
  - split; [apply NoDup_singleton|done].
  - intros i ->%list_elem_of_singleton. exists 0. split; [done|by apply list_elem_of_singleton].
  - done.
  - apply NoDup_singleton.
  - apply NoDup_singleton.
Qed.

Lemma mock_run_ok m : mock_bitmaps_ok m → mock_bitmaps_ok (mock_run_queue m).
Proof.
  intros Hm. unfold mock_run_queue. assert (mock_bitmaps_ok (L2Adapter.set_tasks (mk_next m) [] (mk_sleeping m) m)) as H0
    by (destruct Hm; by split).
  revert H0. generalize (L2Adapter.set_tasks (mk_next m) [] (mk_sleeping m) m). induction (mk_queue m) as [|j l IH]; intros m0 H0; [done|].
  cbn [foldl]. apply IH. by apply run_job_bitmaps.
Qed.

Lemma mock_wake_ok m : mock_bitmaps_ok m → mock_bitmaps_ok (mock_wake_first m).
Proof.
  intros Hm. unfold mock_wake_first. destruct (mk_sleeping m) as [|s l] eqn:E; [done|]. destruct (wake s m) as [[m' ev]|] eqn:Ew; [|done].
  eapply wake_bitmaps; [exact Hm| |exact Ew]. rewrite E. left.
Qed.

Lemma demo_looking_path : rtc pf_step demo_pc demo_looking.
Proof. eapply rtc_l; [apply (pf_submit demo_spec), demo_spec_ok|]. apply rtc_once, pf_turn. Qed.

Lemma demo_work f c : rtc pf_step demo_pc c → (∀ m, mock_bitmaps_ok m → mock_bitmaps_ok (f m)) → rtc pf_step demo_pc (adapters_work f c).
Proof.
  intros Hr Hf. eapply rtc_r; [exact Hr|]. apply adapters_step; [|exact Hf]. eapply reachable_inv; [apply demo_pc_initial|exact Hr].
Qed.

Lemma demo_loading_path : rtc pf_step demo_pc demo_loading.
Proof. eapply rtc_r; [|apply pf_turn]. apply demo_work; [apply demo_looking_path|apply mock_run_ok]. Qed.

Lemma demo_finished_path : rtc pf_step demo_pc demo_finished.
Proof.
  eapply rtc_r; [|apply pf_turn]. apply demo_work; [|apply mock_wake_ok]. apply demo_work; [apply demo_loading_path|apply mock_run_ok].
Qed.

(** While it loads: two read locks on the resident chunk, a buffer and an L2 lock
    for the other. *)
Lemma prefetch_locks_balanced_witness :
  net_granted (KRead 0 demo_key) (w_log (pc_world demo_loading)) + net_refused (KRead 0 demo_key) (w_log (pc_world demo_loading)) = 2 ∧
  net_granted (KStage 0 demo_key2 "prefetch:0"%string) (w_log (pc_world demo_loading)) = 1 ∧
  net_granted (KLock2 3 demo_key2) (w_log (pc_world demo_loading)) = 1 ∧
  ∃ c', _cleanup_in_flight_requests demo_loading = (Ret tt, c') ∧ net_granted (KLock2 3 demo_key2) (w_log (pc_world c')) = 0.
Proof.
  destruct (prefetch_locks_balanced demo_pc demo_loading demo_pc_initial demo_loading_path) as (Hb & Hs & c' & E & _ & Hz & _).
  rewrite Hb, !Hs by done. split_and!; [vm_compute; reflexivity..|]. exists c'. split; [exact E|by apply Hz].
Defined.

(** A lookup that still runs at the end is left to complete, and then nobody
    gives its locks back: the request is gone, and the adapter holds a lock. *)
Lemma cleanup_leaves_lookup_locks :
  let c := adapters_work mock_run_queue (_cleanup_in_flight_requests demo_looking).2 in
  pc_in_flight c = [] ∧ net_granted (KLock2 3 demo_key2) (w_log (pc_world c)) = 0 ∧
  (mk_locked <$> dget 3 (w_l2 (pc_world c))) = Some [(demo_key2, 1)].
Proof. split_and!; vm_compute; reflexivity. Qed.

Lemma prefetch_load_phase_witness :
  ∃ q, dget 0 (pc_in_flight demo_loading) = Some q ∧ locked (rq_l2_locked q) 3 0 1 = true ∧ locked (rq_l1_reserved q) 0 0 1 = true.
Proof.
  assert (match dget 0 (pc_in_flight demo_loading) with
          | Some q => (true, locked (rq_l2_locked q) 3 0 1, match phase q with PLAN_AND_LOAD => true | LOOKUP => false end)
          | None => (false, false, false) end = (true, true, true)) as Hv by (vm_compute; reflexivity).
  destruct (dget 0 (pc_in_flight demo_loading)) as [q|] eqn:E; [|discriminate Hv]. injection Hv as Hl Hp. exists q.
  assert (phase q = PLAN_AND_LOAD) as Hp' by (destruct (phase q); [discriminate Hp|reflexivity]).
  destruct (prefetch_load_phase demo_pc demo_loading 0 q demo_pc_initial demo_loading_path E Hp') as (_ & _ & _ & _ & Hs).
  split; [reflexivity|]. split; [exact Hl|]. apply Hs. exists 3. split; [vm_compute; reflexivity|exact Hl].
Defined.

Lemma prefetch_results_split_witness :
  ∃ res c', query_prefetch_result 0 demo_finished = (Ret (Some res), c') ∧ result_ok res ∧
    cell (l1_hit_cells res) 0 0 = true ∧ cell (l2_hit_cells res) 0 1 = true.
Proof.
  assert (match (query_prefetch_result 0 demo_finished).1 with
          | Ret (Some res) => (true, cell (l1_hit_cells res) 0 0, cell (l2_hit_cells res) 0 1)
          | _ => (false, false, false) end = (true, true, true)) as Hv by (vm_compute; reflexivity).
  destruct (query_prefetch_result 0 demo_finished) as [[[res|]|e] c'] eqn:E; cbn [fst] in Hv; [|discriminate Hv..].
  injection Hv as H1 H2. exists res, c'. split; [reflexivity|]. split; [|split; [exact H1|exact H2]].
  exact (proj1 (prefetch_results_split demo_pc demo_finished 0 res c' demo_pc_initial demo_finished_path E)).
Defined.

Lemma final_hits_spec_witness :
  ∃ q found hits, dget 0 (pc_in_flight demo_loading) = Some q ∧ final_hits true q = Ret (found, hits) ∧
    cell hits 0 0 = true ∧ cell hits 0 1 = false ∧ wanted prefix 2 found [-1] 0 0.
Proof.
  pose proof (reachable_inv demo_pc demo_loading demo_pc_initial demo_loading_path) as Hc.
  assert (match dget 0 (pc_in_flight demo_loading) with
          | Some q => Some (rq_policy q, num_chunks_of (rq_groups q), windows_of (rq_groups q),
                       match final_hits true q with Ret fh => (cell fh.2 0 0, cell fh.2 0 1) | Raise _ => (false, false) end)
          | None => None end = Some (prefix, 2%nat, [-1], (true, false))) as Hv by (vm_compute; reflexivity).
  destruct (dget 0 (pc_in_flight demo_loading)) as [q|] eqn:E; [|discriminate Hv].
  destruct (ci_requests _ _ Hc 0 q E) as [(_ & Hreq & Hm) _]. destruct (final_hits_spec _ _ q Hreq Hm) as (found & hits & Ef & _ & Hh & _).
  rewrite Ef in Hv. injection Hv as Ep En Ew H0 H1. exists q, found, hits.
  split; [reflexivity|]. split; [exact Ef|]. split; [exact H0|]. split; [exact H1|].
  apply Hh in H0. unfold hit in H0. rewrite Ep, En, Ew in H0. exact H0.
Defined.
