(* ===== verification/StorageManager.v ===== *)
(** * The storage manager

    [StorageManager] (storage_manager.py) is what a serving engine calls: it
    places writes on L1 managers, routes the end of a write and of a read to the
    manager that owns the object, reads what a prefetch locked, and deletes and
    clears. The L1 managers, in placement order, are reached through a class
    ([L1Service]) whose laws are in [L1ServiceLaws]; a memory object is the id of
    the manager whose pool holds it and its identity there. The events it
    publishes are logged. Here are also write_policy.py and [l1_owners_of]. *)

From stdpp Require Import gmap list strings.
From Stdlib Require Import ZArith Lia.
From S2P Require Import Prelude TensorAllocator Keys L1Memory L1Manager Handler.

Open Scope Z_scope.
Open Scope py_scope.
Open Scope handler_scope.

(** ** Interfaces *)

(** What the storage manager uses of an L1 manager. [T] is [MemoryTags]. *)
Class L1Service (S T : Type) := {
  svc_id : S → Z;
  svc_tags : S → T;
  svc_reserve_write : list ObjectKey → list bool → MemoryLayoutDesc → string → S →
    py (dict ObjectKey L1OperationResult) * S;
  svc_finish_write : list ObjectKey → string → S → py (dict ObjectKey L1Error) * S;
  svc_unsafe_read : list ObjectKey → S → py (dict ObjectKey L1OperationResult) * S;
  svc_finish_read : list ObjectKey → Z → S → py (dict ObjectKey L1Error) * S;
  svc_delete : list ObjectKey → bool → S → py (dict ObjectKey L1Error) * S;
  svc_clear : bool → S → py unit * S;
  svc_memory_usage : S → Z * Z;
  svc_memcheck : S → bool;
  (** [get_l1_manager] of an object of the manager's pool *)
  svc_owner_of : oid → S → option Z
}.

(** [select_write_targets] gets the managers in placement order. *)
Class WritePolicy (P S : Type) := {
  select_write_targets : list ObjectKey → dict Z S → P → py (dict Z (list ObjectKey))
}.

Inductive DefaultWritePolicy := default_write.

(** Everything goes to the first L1 manager. *)
#[export] Instance DefaultWritePolicy_policy S : WritePolicy DefaultWritePolicy S := {|
  select_write_targets := λ keys l1_managers _,
    match l1_managers with
    | [] => Raise IndexError
    | (l1_manager_id, _) :: _ => Ret [(l1_manager_id, keys)]
    end
|}.

(** A [MemoryObj]: the manager whose pool it lives in, and which one it is. *)
Definition mem_obj : Type := Z * oid.

Inductive sm_event :=
  | SM_WRITE_RESERVED (succeeded_keys failed_keys : list ObjectKey)
  | L1_ALLOCATION_FAILED (keys : list ObjectKey)
  | SM_WRITE_FINISHED (succeeded_keys failed_keys : list ObjectKey)
  | L1_READ_FAILED (reason : string) (keys : list ObjectKey)
  | SM_READ_PREFETCHED_FINISHED (succeeded_keys failed_keys : list ObjectKey).

(** [_l1_managers] and [_l1_managers_by_id] are one dictionary, in placement
    order. *)
Record StorageManager (S P : Type) := mkSM {
  sm_l1 : dict Z S;
  sm_policy : P;
  sm_events : list sm_event
}.
Arguments mkSM {S P}.
Arguments sm_l1 {S P}.
Arguments sm_policy {S P}.
Arguments sm_events {S P}.

Definition _L1_WRITE_TAG : string := "storage_manager".

(** [d.update(r)]. *)
Definition dict_update {K V} `{EqDecision K} (d r : dict K V) : dict K V := foldl (λ d p, dset p.1 p.2 d) d r.

(** [Counter(a) == Counter(b)]. *)
Definition count (key : ObjectKey) (keys : list ObjectKey) : nat := length (filter (λ k, k = key) keys).
Definition same_counts (a b : list ObjectKey) : bool := forallb (λ k, count k a =? count k b)%nat (a ++ b).

Section storage.
Context {S P T : Type} `{EqDecision T} `{L1Service S T} `{WritePolicy P S}.

#[local] Abbreviation SM := (StorageManager S P).

Definition set_l1 (l1 : dict Z S) (c : SM) : SM := mkSM l1 (sm_policy c) (sm_events c).
Definition publish (ev : sm_event) : handler SM unit :=
  h_modify (λ c : SM, mkSM (sm_l1 c) (sm_policy c) (sm_events c ++ [ev])).
Definition publish_some (ev : list ObjectKey → sm_event) (keys : list ObjectKey) : handler SM unit :=
  match keys with [] => h_ret tt | _ => publish (ev keys) end.

(** A call on [self._l1_managers_by_id[owner]]. *)
Definition l1_call {X} (owner : Z) (f : S → py X * S) : handler SM X := λ c,
  match dget owner (sm_l1 c) with
  | None => (Raise KeyError, c)
  | Some m => let '(r, m') := f m in (r, set_l1 (dset owner m' (sm_l1 c)) c)
  end.

(** ** Writes *)

Definition _validate_write_targets (keys : list ObjectKey) (targets : dict Z (list ObjectKey)) (registered : dict Z S)
    : py unit :=
  if negb (forallb (λ owner, dmem owner registered) (dkeys targets)) then Raise ValueError
  else if negb (same_counts (dvalues targets ≫= id) keys) then Raise ValueError
  else Ret tt.

(** The results of a manager name objects of its pool. *)
Definition tagged (owner : Z) (r : dict ObjectKey L1OperationResult) : dict ObjectKey (L1Error * option mem_obj) :=
  (λ p : ObjectKey * L1OperationResult, (p.1, (p.2.1, pair owner <$> p.2.2))) <$> r.

(** [[d[k] for k in keys]], paired with the keys. *)
Fixpoint index_all {V} (d : dict ObjectKey V) (keys : list ObjectKey) : py (list (ObjectKey * V)) :=
  match keys with
  | [] => Ret []
  | key :: keys' =>
      match dget key d with
      | None => Raise KeyError
      | Some v => let! rest := index_all d keys' in Ret ((key, v) :: rest)
      end
  end.

(** [{k: m for k in keys if (m := reserve_result[k][1]) is not None}]. *)
Definition granted_objects (rs : list (ObjectKey * (L1Error * option mem_obj))) : dict ObjectKey mem_obj :=
  foldl (λ d p, match p.2.2 with Some o => dset p.1 o d | None => d end) [] rs.

Definition reserve_write (keys : list ObjectKey) (layout_desc : MemoryLayoutDesc) : handler SM (dict ObjectKey mem_obj) :=
  let^ c := h_get in
  let^ targets := h_lift (select_write_targets keys (sm_l1 c) (sm_policy c)) in
  let^ _ := h_lift (_validate_write_targets keys targets (sm_l1 c)) in
  let^ reserve_result := h_fold (λ acc p,
    let^ r := l1_call p.1 (svc_reserve_write p.2 (replicate (length p.2) false) layout_desc _L1_WRITE_TAG) in
    h_ret (dict_update acc (tagged p.1 r))) [] targets in
  let^ rs := h_lift (index_all reserve_result keys) in
  let result := granted_objects rs in
  let failed_keys := (filter (λ p : ObjectKey * (L1Error * option mem_obj), p.2.2 = None) rs).*1 in
  let^ _ := publish (SM_WRITE_RESERVED (dkeys result) failed_keys) in
  let oom_keys := (filter (λ p : ObjectKey * (L1Error * option mem_obj), p.2.1 = OUT_OF_MEMORY) rs).*1 in
  let^ _ := publish_some L1_ALLOCATION_FAILED oom_keys in
  h_ret result.

(** [_group_by_owner]: [groups[owner].append(key)] on a [defaultdict(list)]. *)
Fixpoint group_loop (registered : dict Z S) (owners : dict ObjectKey Z) (keys : list ObjectKey)
    (groups : dict Z (list ObjectKey)) : py (dict Z (list ObjectKey)) :=
  match keys with
  | [] => Ret groups
  | key :: keys' =>
      match dget key owners with
      | None => Raise ValueError
      | Some owner =>
          if negb (dmem owner registered) then Raise ValueError
          else group_loop registered owners keys' (dset owner (default [] (dget owner groups) ++ [key]) groups)
      end
  end.

Definition _group_by_owner (keys : list ObjectKey) (owners : dict ObjectKey Z) (c : SM) : py (dict Z (list ObjectKey)) :=
  group_loop (sm_l1 c) owners keys [].

(** The keys of a result dictionary that succeeded, and the others. *)
Definition succeeded_keys (r : dict ObjectKey L1Error) : list ObjectKey :=
  (filter (λ p : ObjectKey * L1Error, p.2 = SUCCESS) r).*1.
Definition failed_keys (r : dict ObjectKey L1Error) : list ObjectKey :=
  (filter (λ p : ObjectKey * L1Error, p.2 ≠ SUCCESS) r).*1.

Definition finish_write (keys : list ObjectKey) (l1_owners : dict ObjectKey Z) : handler SM unit :=
  let^ c := h_get in
  let^ groups := h_lift (_group_by_owner keys l1_owners c) in
  let^ finish_result := h_fold (λ acc p,
    let^ r := l1_call p.1 (svc_finish_write p.2 _L1_WRITE_TAG) in h_ret (dict_update acc r)) [] groups in
  publish (SM_WRITE_FINISHED (succeeded_keys finish_result) (failed_keys finish_result)).

(** [l1_owners_of]: the owner is recorded in the object. *)
Definition get_l1_manager (c : SM) (obj : mem_obj) : option Z :=
  match dget obj.1 (sm_l1 c) with Some m => svc_owner_of obj.2 m | None => None end.

Fixpoint owners_of_loop (c : SM) (objects : dict ObjectKey mem_obj) (owners : dict ObjectKey Z) : py (dict ObjectKey Z) :=
  match objects with
  | [] => Ret owners
  | (key, obj) :: objects' =>
      match get_l1_manager c obj with
      | None => Raise ValueError
      | Some owner => owners_of_loop c objects' (dset key owner owners)
      end
  end.

Definition l1_owners_of (objects : dict ObjectKey mem_obj) (c : SM) : py (dict ObjectKey Z) := owners_of_loop c objects [].

(** ** Reads *)

(** [is_multi_l1]. *)
Definition is_multi_l1 (c : SM) : bool := (1 <? length (sm_l1 c))%nat.

(** The loop of [_read_groups] that asks every manager for the keys nobody has
    claimed yet. *)
Fixpoint probe_groups (managers : list Z) (pending : list ObjectKey) (groups : dict Z (list ObjectKey))
    : handler SM (dict Z (list ObjectKey)) :=
  match managers with
  | [] => h_ret groups
  | owner :: managers' =>
      match pending with
      | [] => h_ret groups
      | _ =>
          let^ results := l1_call owner (svc_unsafe_read pending) in
          let^ answers := h_lift (index_all results pending) in
          let held := (filter (λ p : ObjectKey * L1OperationResult, p.2.1 = SUCCESS) answers).*1 in
          match held with
          | [] => probe_groups managers' pending groups
          | _ => probe_groups managers' (filter (λ k, k ∉ held) pending)
                   (dset owner (default [] (dget owner groups) ++ held) groups)
          end
      end
  end.

Definition _read_groups (keys : list ObjectKey) (owners : option (dict ObjectKey Z)) : handler SM (dict Z (list ObjectKey)) :=
  let^ c := h_get in
  match owners with
  | Some owners => h_lift (_group_by_owner keys owners c)
  | None =>
      match dkeys (sm_l1 c) with
      | [owner] => h_ret [(owner, keys)]
      | managers => probe_groups managers keys []
      end
  end.

(** The inner loop of [_read_objects]: what a manager answered for the pending
    keys. *)
Fixpoint probe_answers (pending : list ObjectKey) (probe : dict ObjectKey (L1Error * option mem_obj))
    (results : dict ObjectKey (L1Error * option mem_obj)) (still_pending : list ObjectKey)
    : py (dict ObjectKey (L1Error * option mem_obj) * list ObjectKey) :=
  match pending with
  | [] => Ret (results, still_pending)
  | key :: pending' =>
      match dget key probe with
      | None => Raise KeyError
      | Some (SUCCESS, obj) => probe_answers pending' probe (dset key (SUCCESS, obj) results) still_pending
      | Some (KEY_NOT_READABLE, _) =>
          probe_answers pending' probe (dset key (KEY_NOT_READABLE, None) results) (still_pending ++ [key])
      | Some _ => probe_answers pending' probe results (still_pending ++ [key])
      end
  end.

Fixpoint probe_objects (managers : list Z) (pending : list ObjectKey) (results : dict ObjectKey (L1Error * option mem_obj))
    : handler SM (dict ObjectKey (L1Error * option mem_obj)) :=
  match managers with
  | [] => h_ret results
  | owner :: managers' =>
      match pending with
      | [] => h_ret results
      | _ =>
          let^ probe := l1_call owner (svc_unsafe_read pending) in
          let^ r := h_lift (probe_answers pending (tagged owner probe) results []) in
          probe_objects managers' r.2 r.1
      end
  end.

Definition missing {E} (e : E) (keys : list ObjectKey) : dict ObjectKey E := foldl (λ d k, dset k e d) [] keys.

Definition _read_objects (keys : list ObjectKey) (owners : option (dict ObjectKey Z))
    : handler SM (dict ObjectKey (L1Error * option mem_obj)) :=
  let^ c := h_get in
  let results := missing (KEY_NOT_EXIST, None) keys in
  if match owners with Some _ => true | None => (length (sm_l1 c) =? 1)%nat end then
    let^ groups := _read_groups keys owners in
    h_fold (λ acc p, let^ r := l1_call p.1 (svc_unsafe_read p.2) in h_ret (dict_update acc (tagged p.1 r))) results groups
  else probe_objects (dkeys (sm_l1 c)) keys results.

Definition _finish_read_objects (keys : list ObjectKey) (count : Z) (owners : option (dict ObjectKey Z))
    : handler SM (dict ObjectKey L1Error) :=
  let^ groups := _read_groups keys owners in
  h_fold (λ acc p, let^ r := l1_call p.1 (svc_finish_read p.2 count) in h_ret (dict_update acc r))
    (missing KEY_NOT_EXIST keys) groups.

(** The keys that were read, with their objects, and those that were not. *)
Definition good_items (r : dict ObjectKey (L1Error * option mem_obj)) : list (ObjectKey * mem_obj) :=
  omap (λ p : ObjectKey * (L1Error * option mem_obj), (λ o, (p.1, o)) <$> p.2.2) r.
Definition bad_keys (r : dict ObjectKey (L1Error * option mem_obj)) : list ObjectKey :=
  (filter (λ p : ObjectKey * (L1Error * option mem_obj), p.2.2 = None) r).*1.
Definition bad_keys_with (e : L1Error) (r : dict ObjectKey (L1Error * option mem_obj)) : list ObjectKey :=
  (filter (λ p : ObjectKey * (L1Error * option mem_obj), p.2.2 = None ∧ p.2.1 = e) r).*1.

(** [with read_prefetched_results(keys, l1_owners) as objs: body(objs)]. *)
Definition read_prefetched_results {X} (keys : list ObjectKey) (l1_owners : option (dict ObjectKey Z))
    (body : option (list mem_obj) → handler SM X) : handler SM X :=
  let^ read_results := _read_objects keys l1_owners in
  let good := good_items read_results in
  let bad := bad_keys read_results in
  let all_good := match bad with [] => true | _ => false end in
  let^ _ := publish_some (L1_READ_FAILED "not_found") (bad_keys_with KEY_NOT_EXIST read_results) in
  let^ _ := publish_some (L1_READ_FAILED "write_locked") (bad_keys_with KEY_NOT_READABLE read_results) in
  let give_back :=
    let^ _ := _finish_read_objects good.*1 1 l1_owners in
    publish (SM_READ_PREFETCHED_FINISHED good.*1 bad) in
  λ c, match body (if all_good then Some good.*2 else None) c with
       | (Ret x, c') => if all_good then (Ret x, c') else (let^ _ := give_back in h_ret x) c'
       | (Raise e, c') => (let^ _ := give_back in h_raise e) c'
       end.

Definition finish_read_prefetched (keys : list ObjectKey) (read_locks : Z) (l1_owners : option (dict ObjectKey Z))
    : handler SM unit :=
  let^ finish_result := _finish_read_objects keys read_locks l1_owners in
  publish (SM_READ_PREFETCHED_FINISHED (succeeded_keys finish_result) (failed_keys finish_result)).

Definition unsafe_read (keys : list ObjectKey) (l1_owners : option (dict ObjectKey Z))
    : handler SM (list ObjectKey * list mem_obj) :=
  let^ read_results := _read_objects keys l1_owners in
  let items := omap (λ key, match dget key read_results with
                            | Some (SUCCESS, Some obj) => Some (key, obj)
                            | _ => None
                            end) keys in
  h_ret (items.*1, items.*2).

Definition prepare_read_completion (keys : list ObjectKey) (l1_owners : option (dict ObjectKey Z))
    : handler SM (list (Z * list ObjectKey)) := _read_groups keys l1_owners.

(** [dict.fromkeys(keys, owner)] is [missing owner keys]. *)
Definition finish_read_by_owner (completion : list (Z * list ObjectKey)) : handler SM unit :=
  let^ c := h_get in
  if negb (forallb (λ p : Z * list ObjectKey, dmem p.1 (sm_l1 c)) completion) then h_raise ValueError
  else if negb (is_multi_l1 c) then finish_read_prefetched (completion ≫= snd) 1 None
  else h_iter (λ p : Z * list ObjectKey, finish_read_prefetched p.2 1 (Some (missing p.1 p.2))) completion.

(** ** Deletion and management *)

Fixpoint delete_results (items : list (ObjectKey * L1Error)) (results : dict ObjectKey L1Error) : dict ObjectKey L1Error :=
  match items with
  | [] => results
  | (key, error) :: items' =>
      delete_results items'
        (if bool_decide (error = KEY_IS_LOCKED) ||
            negb (bool_decide (error = KEY_NOT_EXIST)) && negb (bool_decide (dget key results = Some KEY_IS_LOCKED))
         then dset key error results else results)
  end.

Definition delete_l1_keys (keys : list ObjectKey) (force : bool) : handler SM (nat * nat) :=
  let^ c := h_get in
  let^ results := h_fold (λ acc owner, let^ r := l1_call owner (svc_delete keys force) in h_ret (delete_results r acc))
                    [] (dkeys (sm_l1 c)) in
  h_ret (length (filter (λ e, e = SUCCESS) (dvalues results)), length (filter (λ e, e = KEY_IS_LOCKED) (dvalues results))).

Definition clear (force : bool) : handler SM unit :=
  let^ c := h_get in h_iter (λ owner, l1_call owner (svc_clear force)) (dkeys (sm_l1 c)).

Definition memcheck (c : SM) : bool := forallb svc_memcheck (dvalues (sm_l1 c)).

Definition get_l1_usage (c : SM) : Z * Z :=
  let usages := svc_memory_usage <$> dvalues (sm_l1 c) in (zsum fst usages, zsum snd usages).

Definition get_l1_manager_by_tags (tags : T) (c : SM) : py Z :=
  match filter (λ p : Z * S, svc_tags p.2 = tags) (sm_l1 c) with
  | [(owner, _)] => Ret owner
  | _ => Raise ValueError
  end.
End storage.
