(* ===== verification/StorageRouting.v ===== *)
(** * Routing calls to L1 managers

    The laws of the L1 managers that the storage manager rests on, and what its
    loops over managers do: grouping keys by owner, one call per group, and the
    probing of every manager for keys without an owner. *)

From stdpp Require Import gmap list strings.
From Stdlib Require Import ZArith Lia.
From S2P Require Import Prelude TensorAllocator Keys L1Memory L1Manager Handler StorageManager.

Open Scope Z_scope.
Open Scope py_scope.
Open Scope handler_scope.

(** ** Laws *)

(** A result dictionary that answers for exactly the keys asked for. *)
Definition answers_for {R} (keys : list ObjectKey) (r : dict ObjectKey R) : Prop :=
  NoDup (dkeys r) ∧ ∀ k, k ∈ dkeys r ↔ k ∈ keys.

(** In a consistent state the calls of an L1 manager return, answer for the
    keys they are given and leave it consistent, with the same id.
    - A granted write is staged, by an object that names its manager, until the
      write's time to live has passed; finishing it earlier makes it resident.
    - [svc_answers n f]: the next [n] reads of a key answer [f], as long as only
      reads happen. (A read lock that expires changes the answer.)
    - A deletion removes a key, finds nothing to remove, or - unless forced -
      leaves it because it is in use. *)
Class L1ServiceLaws (S T : Type) `{L1Service S T} := {
  svc_ok : S → Prop;
  svc_now : S → Z;
  svc_write_ttl : S → Z;
  svc_reserved : string → Z → ObjectKey → oid → S → Prop;
  svc_resident : ObjectKey → oid → S → Prop;
  svc_has : ObjectKey → S → Prop;
  svc_answers : nat → (ObjectKey → L1OperationResult) → S → Prop;
  svc_answers_less : ∀ n n' f s, (n ≤ n')%nat → svc_answers n' f s → svc_answers n f s;
  svc_reserve_write_ok : ∀ keys temps lay tag s,
    svc_ok s → NoDup keys → length keys = length temps → layout_ok lay →
    ∃ r s', svc_reserve_write keys temps lay tag s = (Ret r, s') ∧ svc_ok s' ∧ svc_id s' = svc_id s ∧ answers_for keys r ∧
      ∀ k, k ∈ keys →
        (∃ i, dget k r = Some (SUCCESS, Some i) ∧ svc_reserved tag (svc_now s + svc_write_ttl s) k i s' ∧
              svc_owner_of i s' = Some (svc_id s)) ∨
        (∃ e, e ≠ SUCCESS ∧ dget k r = Some (e, None));
  svc_finish_write_ok : ∀ keys tag s,
    svc_ok s → NoDup keys →
    ∃ r s', svc_finish_write keys tag s = (Ret r, s') ∧ svc_ok s' ∧ svc_id s' = svc_id s ∧ answers_for keys r ∧
      ∀ k i t, k ∈ keys → svc_reserved tag t k i s → svc_now s' < t → dget k r = Some SUCCESS ∧ svc_resident k i s';
  svc_unsafe_read_ok : ∀ keys s,
    svc_ok s →
    ∃ r s', svc_unsafe_read keys s = (Ret r, s') ∧ svc_ok s' ∧ svc_id s' = svc_id s ∧ answers_for keys r ∧
      ∀ n f, svc_answers (length keys + n) f s → svc_answers n f s' ∧ ∀ k, k ∈ keys → dget k r = Some (f k);
  svc_finish_read_ok : ∀ keys n s,
    svc_ok s →
    ∃ r s', svc_finish_read keys n s = (Ret r, s') ∧ svc_ok s' ∧ svc_id s' = svc_id s ∧ answers_for keys r;
  svc_delete_ok : ∀ keys force s,
    svc_ok s → NoDup keys →
    ∃ r s', svc_delete keys force s = (Ret r, s') ∧ svc_ok s' ∧ svc_id s' = svc_id s ∧ answers_for keys r ∧
      ∀ k, k ∈ keys →
        (dget k r = Some SUCCESS ∧ svc_has k s ∧ ¬ svc_has k s') ∨
        (dget k r = Some KEY_IS_LOCKED ∧ force = false ∧ svc_has k s') ∨
        (dget k r = Some KEY_NOT_EXIST ∧ ¬ svc_has k s ∧ ¬ svc_has k s');
  svc_clear_ok : ∀ force s, svc_ok s → ∃ s', svc_clear force s = (Ret tt, s') ∧ svc_ok s' ∧ svc_id s' = svc_id s
}.

(** ** Dictionaries *)

Section dictionaries.
Context {K V : Type} `{EqDecision K}.

Lemma dget_dict_update (d r : dict K V) k :
  NoDup (dkeys r) → dget k (dict_update d r) = match dget k r with Some v => Some v | None => dget k d end.
Proof.
  unfold dict_update. revert d. induction r as [|[k' v] r IH]; intros d Hr; [done|]. apply NoDup_cons in Hr as [Hn Hr].
  cbn [foldl fst snd dget]. rewrite IH, dget_dset by done. case_decide as Hk; [subst k'|done].
  by rewrite (proj2 (dget_None _ _) Hn).
Qed.

Lemma elem_dkeys_update (d r : dict K V) k : k ∈ dkeys (dict_update d r) ↔ k ∈ dkeys d ∨ k ∈ dkeys r.
Proof.
  unfold dict_update. revert d. induction r as [|[k' v] r IH]; intros d; [cbn; set_solver|]. cbn [foldl fst snd].
  rewrite IH, elem_dkeys_dset. unfold dkeys. rewrite fmap_cons, elem_of_cons. cbn. tauto.
Qed.

Lemma NoDup_update (d r : dict K V) : NoDup (dkeys d) → NoDup (dkeys (dict_update d r)).
Proof. unfold dict_update. revert d. induction r as [|[k' v] r IH]; intros d Hd; [done|]. cbn [foldl]. by apply IH, NoDup_dset. Qed.

(** An update of keys that are there keeps their order. *)
Lemma dkeys_update (d r : dict K V) : (∀ k, k ∈ dkeys r → k ∈ dkeys d) → dkeys (dict_update d r) = dkeys d.
Proof.
  unfold dict_update. revert d. induction r as [|[k' v] r IH]; intros d Hd; [done|]. cbn [foldl fst snd].
  assert (dkeys (dset k' v d) = dkeys d) as E by (rewrite dkeys_dset, decide_True; [done|apply Hd; left]).
  rewrite IH, E; [done|]. intros k Hk. rewrite E. apply Hd. by right.
Qed.
End dictionaries.

Lemma dkeys_missing_acc {E} (e : E) keys (d : dict ObjectKey E) :
  NoDup (dkeys d ++ keys) → dkeys (foldl (λ d k, dset k e d) d keys) = dkeys d ++ keys.
Proof.
  revert d. induction keys as [|k keys IH]; intros d Hd; [by rewrite app_nil_r|]. cbn [foldl].
  assert (k ∉ dkeys d) as Hk by (apply NoDup_app in Hd as (_ & Hd & _); intros Hin; apply (Hd k Hin); left).
  assert (dkeys (dset k e d) = dkeys d ++ [k]) as E1 by (by rewrite dkeys_dset, decide_False).
  rewrite IH, E1; [by rewrite <-app_assoc|]. by rewrite E1, <-app_assoc.
Qed.

Lemma dkeys_missing {E} (e : E) keys : NoDup keys → dkeys (missing e keys) = keys.
Proof. intros Hk. by apply dkeys_missing_acc. Qed.

Lemma dget_missing {E} (e : E) keys k : dget k (missing e keys) = if decide (k ∈ keys) then Some e else None.
Proof.
  unfold missing. assert (∀ d : dict ObjectKey E, dget k (foldl (λ d k, dset k e d) d keys)
    = if decide (k ∈ keys) then Some e else dget k d) as Hg; [|apply Hg].
  induction keys as [|x keys IH]; intros d; [done|]. cbn [foldl]. rewrite IH, dget_dset.
  repeat case_decide; set_solver.
Qed.

Lemma dkeys_tagged owner r : dkeys (tagged owner r) = dkeys r.
Proof. unfold dkeys, tagged. rewrite <-list_fmap_compose. by apply list_fmap_ext. Qed.

Lemma dget_tagged owner (r : dict ObjectKey L1OperationResult) k :
  dget k (tagged owner r) = (λ a : L1OperationResult, (a.1, pair owner <$> a.2)) <$> dget k r.
Proof. unfold tagged. induction r as [|[k' v] r IH]; [done|]. cbn. case_decide; [done|apply IH]. Qed.

Lemma index_all_ok {V} (d : dict ObjectKey V) keys (f : ObjectKey → V) :
  (∀ k, k ∈ keys → dget k d = Some (f k)) → index_all d keys = Ret ((λ k, (k, f k)) <$> keys).
Proof.
  induction keys as [|k keys IH]; intros Hk; [done|]. cbn. rewrite Hk by left. rewrite IH; [done|]. intros x Hx. apply Hk. by right.
Qed.

Lemma filter_pairs {V} (f : ObjectKey → V) (Q : V → Prop) (D : ∀ p : ObjectKey * V, Decision (Q p.2)) (D' : ∀ k, Decision (Q (f k))) keys :
  (filter (λ p : ObjectKey * V, Q p.2) ((λ k, (k, f k)) <$> keys)).*1 = filter (λ k, Q (f k)) keys.
Proof. induction keys as [|k keys IH]; [done|]. rewrite fmap_cons, !filter_cons. cbn [snd]. repeat case_decide; cbn; by rewrite ?IH. Qed.

Lemma filter_nothing {X} (Q : X → Prop) `{∀ x, Decision (Q x)} (l : list X) : (∀ x, x ∈ l → ¬ Q x) → filter Q l = [].
Proof. induction l as [|x l IH]; intros Hl; [done|]. rewrite filter_cons, decide_False by (apply Hl; left). apply IH. intros y Hy. apply Hl. by right. Qed.

Lemma filter_agree {X} (Q Q' : X → Prop) `{∀ x, Decision (Q x)} `{∀ x, Decision (Q' x)} (l : list X) :
  (∀ x, x ∈ l → Q x ↔ Q' x) → filter Q l = filter Q' l.
Proof.
  induction l as [|x l IH]; intros Hl; [done|]. rewrite !filter_cons. rewrite IH by (intros y Hy; apply Hl; by right).
  pose proof (Hl x ltac:(left)). repeat case_decide; tauto.
Qed.

(** ** Counting keys *)

Lemma count_perm k a b : a ≡ₚ b → count k a = count k b.
Proof. intros Hp. unfold count. by rewrite Hp. Qed.

Lemma count_cons k x l : count k (x :: l) = ((if decide (x = k) then 1 else 0) + count k l)%nat.
Proof. unfold count. rewrite filter_cons. by case_decide. Qed.

Lemma count_elem k l : k ∈ l ↔ (0 < count k l)%nat.
Proof.
  induction l as [|x l IH]; [rewrite elem_of_nil; cbn; lia|]. rewrite elem_of_cons, IH, count_cons.
  case_decide; [subst; split; [lia|by left]|]. split; [|tauto]. intros [?|?]; [congruence|lia].
Qed.

Lemma counts_perm a b : (∀ k, count k a = count k b) → a ≡ₚ b.
Proof.
  revert b. induction a as [|x a IH]; intros b Hab.
  - destruct b as [|y b]; [done|]. specialize (Hab y). rewrite count_cons, decide_True in Hab by done. unfold count in Hab. cbn in Hab. lia.
  - assert (x ∈ b) as (b1 & b2 & ->)%list_elem_of_split.
    { apply count_elem. rewrite <-Hab, count_cons, decide_True by done. lia. }
    rewrite <-Permutation_middle. apply Permutation_skip, IH. intros k. specialize (Hab k).
    rewrite (count_perm k (b1 ++ x :: b2) (x :: b1 ++ b2)) in Hab by (by rewrite Permutation_middle).
    rewrite !count_cons in Hab. lia.
Qed.

Lemma same_counts_true a b : same_counts a b = true ↔ a ≡ₚ b.
Proof.
  unfold same_counts. rewrite forallb_forall. split.
  - intros Hab. apply counts_perm. intros k. destruct (decide (k ∈ a ++ b)) as [Hk|Hk].
    + apply Nat.eqb_eq, Hab. by apply list_elem_of_In.
    + rewrite elem_of_app, !count_elem in Hk. lia.
  - intros Hp k _. apply Nat.eqb_eq. by apply count_perm.
Qed.

Section routing.
Context {S P T : Type} `{EqDecision T} {IS : L1Service S T} {LS : L1ServiceLaws S T} {IW : WritePolicy P S}.

#[local] Abbreviation SM := (StorageManager S P).
Implicit Types (c : SM).

(** Every manager is consistent and registered under its id. *)
Definition sm_ok (c : SM) : Prop :=
  NoDup (dkeys (sm_l1 c)) ∧ ∀ a m, dget a (sm_l1 c) = Some m → svc_ok m ∧ svc_id m = a.

(** Only the states of the managers differ. *)
Definition framed c c' : Prop :=
  dkeys (sm_l1 c') = dkeys (sm_l1 c) ∧ sm_policy c' = sm_policy c ∧ sm_events c' = sm_events c.

Lemma l1_call_run {X} a (f : S → py X * S) c m x m' :
  dget a (sm_l1 c) = Some m → f m = (Ret x, m') → l1_call a f c = (Ret x, set_l1 (dset a m' (sm_l1 c)) c).
Proof. intros Ea Ef. unfold l1_call. by rewrite Ea, Ef. Qed.

Lemma set_l1_framed a m m' c : dget a (sm_l1 c) = Some m → framed c (set_l1 (dset a m' (sm_l1 c)) c).
Proof. intros Ea. split_and!; [|done|done]. cbn [sm_l1 set_l1]. rewrite dkeys_dset, decide_True; [done|]. apply dget_is_Some. by eexists. Qed.

Lemma framed_trans c1 c2 c3 : framed c1 c2 → framed c2 c3 → framed c1 c3.
Proof. intros (E1 & E2 & E3) (F1 & F2 & F3). split_and!; congruence. Qed.

(** ** One call per group *)

Section calls.
Context {R R' : Type} (call : list ObjectKey → S → py (dict ObjectKey R) * S) (tg : Z → dict ObjectKey R → dict ObjectKey R').
Hypothesis tg_keys : ∀ a r, dkeys (tg a r) = dkeys r.

Record routed (groups : dict Z (list ObjectKey)) (acc acc' : dict ObjectKey R') c c' : Prop := {
  rt_framed : framed c c';
  rt_state : ∀ a, dget a (sm_l1 c') = match dget a groups with
                                      | Some ks => (λ m, (call ks m).2) <$> dget a (sm_l1 c)
                                      | None => dget a (sm_l1 c)
                                      end;
  rt_result : ∀ a ks m r m' k, dget a groups = Some ks → dget a (sm_l1 c) = Some m → call ks m = (Ret r, m') → k ∈ ks →
                dget k acc' = dget k (tg a r);
  rt_other : ∀ k, (∀ a ks, dget a groups = Some ks → k ∉ ks) → dget k acc' = dget k acc;
  rt_keys : (∀ a ks k, dget a groups = Some ks → k ∈ ks → k ∈ dkeys acc) → dkeys acc' = dkeys acc;
  rt_nodup : NoDup (dkeys acc) → NoDup (dkeys acc');
  rt_elem : ∀ k, k ∈ dkeys acc' ↔ k ∈ dkeys acc ∨ ∃ a ks, dget a groups = Some ks ∧ k ∈ ks
}.

Definition disjoint_groups (groups : dict Z (list ObjectKey)) : Prop :=
  ∀ a b ks ks' k, dget a groups = Some ks → dget b groups = Some ks' → k ∈ ks → k ∈ ks' → a = b.

Lemma routed_cons a ks groups acc c m r m' acc' c' :
  a ∉ dkeys groups → disjoint_groups ((a, ks) :: groups) →
  dget a (sm_l1 c) = Some m → call ks m = (Ret r, m') → answers_for ks r →
  routed groups (dict_update acc (tg a r)) acc' (set_l1 (dset a m' (sm_l1 c)) c) c' →
  routed ((a, ks) :: groups) acc acc' c c'.
Proof.
  intros Hn Hd Ea Ec [Hr1 Hr2] [Hf Hs Hres Hoth Hk Hnd Hel].
  assert (∀ k, k ∈ ks → ∀ b ks', dget b groups = Some ks' → k ∉ ks') as Hsep.
  { intros k Hk0 b ks' Eb Hk'. assert (b ≠ a) as Hne by (intros ->; apply Hn, dget_is_Some; by eexists).
    assert (a = b) as ->; [|done]. eapply (Hd a b ks ks' k); [by cbn; rewrite decide_True| |done|done].
    cbn. by rewrite decide_False. }
  assert (dget a groups = None) as Eg by (by apply dget_None).
  split.
  - eapply framed_trans; [by eapply set_l1_framed|exact Hf].
  - intros b. rewrite Hs. cbn [dget sm_l1 set_l1]. rewrite dget_dset. case_decide as Hb; [|done]. subst b.
    rewrite Eg, Ea. cbn. by rewrite Ec.
  - intros b ks' m0 r0 m0' k. cbn [dget]. case_decide as Hb.
    + subst b. intros [= <-] Em E0 Hk0. rewrite Em in Ea. injection Ea as ->. rewrite E0 in Ec. injection Ec as -> ->.
      rewrite Hoth by (by apply Hsep). rewrite dget_dict_update by (by rewrite tg_keys).
      assert (k ∈ dkeys (tg a r)) as [v Ev]%dget_is_Some by (rewrite tg_keys; by apply Hr2). by rewrite Ev.
    + intros Eb Em E0 Hk0. eapply (Hres b ks'); [done| |done|done]. cbn. by rewrite dget_dset_ne.
  - intros k Hno. rewrite Hoth.
    + rewrite dget_dict_update by (by rewrite tg_keys). assert (k ∉ dkeys (tg a r)) as Hnk.
      { rewrite tg_keys, Hr2. apply (Hno a). cbn. by rewrite decide_True. }
      by rewrite (proj2 (dget_None _ _) Hnk).
    + intros b ks' Eb. apply (Hno b). cbn. rewrite decide_False; [done|]. intros ->. apply Hn, dget_is_Some. by eexists.
  - intros Hin. assert (dkeys (dict_update acc (tg a r)) = dkeys acc) as E.
    { apply dkeys_update. intros k. rewrite tg_keys, Hr2. apply (Hin a). cbn. by rewrite decide_True. }
    rewrite Hk, E; [done|]. intros b ks' k Eb Hk'. rewrite E. eapply (Hin b ks'); [|done]. cbn. rewrite decide_False; [done|].
    intros ->. apply Hn, dget_is_Some. by eexists.
  - intros Hacc. by apply Hnd, NoDup_update.
  - intros k. rewrite Hel, elem_dkeys_update, tg_keys, Hr2. split.
    + intros [[?|?]|(b & ks' & Eb & ?)]; [by left|right; exists a, ks; cbn; by rewrite decide_True|].
      right. exists b, ks'. cbn. rewrite decide_False; [done|]. intros ->. apply Hn, dget_is_Some. by eexists.
    + intros [?|(b & ks' & Eb & Hk')]; [by left; left|]. cbn in Eb. case_decide; [injection Eb as <-; left; by right|].
      right. by exists b, ks'.
Qed.

Lemma fold_calls groups acc c :
  NoDup (dkeys groups) → disjoint_groups groups →
  (∀ a ks, dget a groups = Some ks → ∃ m r m', dget a (sm_l1 c) = Some m ∧ call ks m = (Ret r, m') ∧ answers_for ks r) →
  ∃ acc' c', h_fold (λ acc p, let^ r := l1_call p.1 (call p.2) in h_ret (dict_update acc (tg p.1 r))) acc groups c = (Ret acc', c') ∧
    routed groups acc acc' c c'.
Proof.
  revert acc c. induction groups as [|[a ks] groups IH]; intros acc c Hn Hd Hc.
  - exists acc, c. split; [done|]. split; try done. intros k. split; [by left|]. by intros [?|(? & ? & ? & _)].
  - apply NoDup_cons in Hn as [Hna Hn]. destruct (Hc a ks) as (m & r & m' & Ea & Ec & Hr); [by cbn; rewrite decide_True|].
    assert (∀ b ks', dget b groups = Some ks' → dget b ((a, ks) :: groups) = Some ks') as Hsub.
    { intros b ks' Eb. cbn. rewrite decide_False; [done|]. intros ->. apply Hna, dget_is_Some. by eexists. }
    destruct (IH (dict_update acc (tg a r)) (set_l1 (dset a m' (sm_l1 c)) c) Hn) as (acc' & c' & E & Hrt).
    + intros b b' ks1 ks2 k E1 E2. eapply Hd; by apply Hsub.
    + intros b ks' Eb. destruct (Hc b ks' (Hsub _ _ Eb)) as (mb & rb & mb' & Emb & ?). exists mb, rb, mb'. split; [|done].
      cbn. rewrite dget_dset_ne; [done|]. intros ->. apply Hna, dget_is_Some. by eexists.
    + exists acc', c'. split; [|by eapply routed_cons]. cbn [h_fold]. unfold h_bind at 1. cbn [fst snd].
      unfold h_bind at 1. erewrite l1_call_run by done. cbn. exact E.
Qed.
End calls.

Lemma routed_ok {R R'} (call : list ObjectKey → S → py (dict ObjectKey R) * S) (tg : Z → dict ObjectKey R → dict ObjectKey R') groups acc acc' c c' :
  (∀ a ks m, dget a groups = Some ks → dget a (sm_l1 c) = Some m → svc_ok (call ks m).2 ∧ svc_id (call ks m).2 = svc_id m) →
  sm_ok c → routed call tg groups acc acc' c c' → sm_ok c'.
Proof.
  intros Hcall [Hn Hok] [(Ek & _) Hs _ _ _ _ _]. split; [by rewrite Ek|]. intros a m. rewrite Hs.
  destruct (dget a groups) as [ks|] eqn:Eg; [|apply Hok]. destruct (dget a (sm_l1 c)) as [m0|] eqn:Em; [|done]. intros [= <-].
  destruct (Hok a m0 Em) as [_ Hid]. destruct (Hcall a ks m0 Eg Em) as [? E]. split; [done|by rewrite E].
Qed.

(** ** Grouping by owner *)

Definition group_of (owners : dict ObjectKey Z) (a : Z) (keys : list ObjectKey) : list ObjectKey :=
  filter (λ k, dget k owners = Some a) keys.

Definition grouped (owners : dict ObjectKey Z) (keys : list ObjectKey) (groups : dict Z (list ObjectKey)) : Prop :=
  NoDup (dkeys groups) ∧ ∀ a, dget a groups = match group_of owners a keys with [] => None | l => Some l end.

(** Every key has a registered owner. *)
Definition owned (owners : dict ObjectKey Z) (keys : list ObjectKey) c : Prop :=
  ∀ k, k ∈ keys → ∃ a, dget k owners = Some a ∧ a ∈ dkeys (sm_l1 c).

Lemma grouped_get owners keys groups a ks :
  grouped owners keys groups → dget a groups = Some ks → ks = group_of owners a keys ∧ ks ≠ [].
Proof. intros [_ Hg] E. rewrite Hg in E. by destruct (group_of owners a keys) as [|x l]; simplify_eq. Qed.

Lemma grouped_disjoint owners keys groups : grouped owners keys groups → disjoint_groups groups.
Proof.
  intros Hg a b ks ks' k Ea Eb. destruct (grouped_get _ _ _ _ _ Hg Ea) as [-> _], (grouped_get _ _ _ _ _ Hg Eb) as [-> _].
  intros [Ha _]%list_elem_of_filter [Hb _]%list_elem_of_filter. congruence.
Qed.

Lemma grouped_elem owners keys groups k a :
  grouped owners keys groups → k ∈ keys → dget k owners = Some a → ∃ ks, dget a groups = Some ks ∧ k ∈ ks.
Proof.
  intros [_ Hg] Hk Ek. assert (k ∈ group_of owners a keys) as Hin by (by apply list_elem_of_filter).
  rewrite Hg. destruct (group_of owners a keys) as [|x l]; [by apply not_elem_of_nil in Hin|]. by eexists.
Qed.

Lemma grouped_owner owners keys groups c a ks :
  grouped owners keys groups → owned owners keys c → dget a groups = Some ks → a ∈ dkeys (sm_l1 c).
Proof.
  intros Hg Ho Ea. destruct (grouped_get _ _ _ _ _ Hg Ea) as [-> Hne]. destruct (group_of owners a keys) as [|k l] eqn:E; [done|].
  assert (k ∈ group_of owners a keys) as [Ek Hk]%list_elem_of_filter by (rewrite E; left).
  destruct (Ho k Hk) as (a' & Ea' & Hin). congruence.
Qed.

Lemma group_loop_ok owners keys done groups c :
  owned owners keys c → grouped owners done groups →
  ∃ groups', group_loop (sm_l1 c) owners keys groups = Ret groups' ∧ grouped owners (done ++ keys) groups'.
Proof.
  revert done groups. induction keys as [|k keys IH]; intros done groups Ho Hg; [exists groups; by rewrite app_nil_r|].
  destruct (Ho k) as (a & Ek & Ha); [left|]. cbn [group_loop]. rewrite Ek, (proj2 (dmem_true _ _) Ha). cbn [negb].
  destruct (IH (done ++ [k]) (dset a (default [] (dget a groups) ++ [k]) groups)) as (g' & E & Hg').
  - intros x Hx. apply Ho. by right.
  - destruct Hg as [Hn Hg]. split; [by apply NoDup_dset|]. intros b. unfold group_of. rewrite filter_app, dget_dset, filter_cons, filter_nil.
    case_decide as Hb; [subst b|].
    + rewrite decide_True by done. rewrite Hg. unfold group_of. destruct (filter _ done); done.
    + rewrite decide_False by congruence. rewrite app_nil_r. apply Hg.
  - exists g'. split; [exact E|]. by rewrite <-app_assoc in Hg'.
Qed.

Lemma group_by_owner_ok keys owners c :
  owned owners keys c → ∃ groups, _group_by_owner keys owners c = Ret groups ∧ grouped owners keys groups.
Proof. intros Ho. apply (group_loop_ok owners keys [] [] c Ho). split; [constructor|done]. Qed.

(** A key without a registered owner is refused. *)
Lemma group_loop_bad owners keys groups c k :
  k ∈ keys → (∀ a, dget k owners = Some a → a ∉ dkeys (sm_l1 c)) → group_loop (sm_l1 c) owners keys groups = Raise ValueError.
Proof.
  intros Hk Hbad. revert groups. induction keys as [|x keys IH]; intros groups; [by apply not_elem_of_nil in Hk|]. cbn [group_loop].
  destruct (dget x owners) as [a|] eqn:Ex; [|done]. destruct (dmem a (sm_l1 c)) eqn:Ea; [|done]. cbn [negb].
  apply IH. apply elem_of_cons in Hk as [->|]; [|done]. apply dmem_true in Ea. by destruct (Hbad a Ex).
Qed.

(** ** Probing every manager *)

(** The next [n a] reads of manager [a] answer [f a]. *)
Definition steady (n : Z → nat) (f : Z → ObjectKey → L1OperationResult) c : Prop := ∀ a m, dget a (sm_l1 c) = Some m → svc_answers (n a) (f a) m.

Lemma steady_less n n' f c : (∀ a, (n a ≤ n' a)%nat) → steady n' f c → steady n f c.
Proof. intros Hn Hst a m Em. eapply svc_answers_less; [apply Hn|by apply Hst]. Qed.

(** What is left of [n] after [k] reads of each of the [managers]. *)
Definition spent (managers : list Z) (k : nat) (n : Z → nat) (a : Z) : nat := if decide (a ∈ managers) then n a - k else n a.

Fixpoint first_holder (f : Z → ObjectKey → L1OperationResult) (managers : list Z) (k : ObjectKey) : option Z :=
  match managers with
  | [] => None
  | a :: managers' => if decide ((f a k).1 = SUCCESS) then Some a else first_holder f managers' k
  end.

Lemma first_holder_registered f managers k a : first_holder f managers k = Some a → a ∈ managers ∧ (f a k).1 = SUCCESS.
Proof.
  induction managers as [|b managers IH]; [done|]. cbn. case_decide as Hb; [intros [= <-]; split; [left|done]|].
  intros [? ?]%IH. split; [by right|done].
Qed.

(** What a probe finds for [k], when nothing or [prev] was known before. *)
Definition probed (f : Z → ObjectKey → L1OperationResult) (managers : list Z) (k : ObjectKey)
    (prev : option (L1Error * option mem_obj)) : option (L1Error * option mem_obj) :=
  match first_holder f managers k with
  | Some a => Some (SUCCESS, pair a <$> (f a k).2)
  | None => if decide (Exists (λ a, (f a k).1 = KEY_NOT_READABLE) managers) then Some (KEY_NOT_READABLE, None) else prev
  end.

(** Consistent, with the same reads, and nothing else changed. *)
Definition reads_only n f c c' : Prop := sm_ok c' ∧ steady n f c' ∧ framed c c'.

Lemma probe_call n f a pending c :
  sm_ok c → steady n f c → (length pending ≤ n a)%nat → a ∈ dkeys (sm_l1 c) →
  ∃ r c', l1_call a (svc_unsafe_read pending) c = (Ret r, c') ∧ reads_only (spent [a] (length pending) n) f c c' ∧ answers_for pending r ∧
    ∀ k, k ∈ pending → dget k r = Some (f a k).
Proof.
  intros [Hn Hok] Hst Hle [m Em]%dget_is_Some. destruct (Hok a m Em) as [Hm Hid].
  destruct (svc_unsafe_read_ok pending m Hm) as (r & m' & E & Hm' & Hid' & Hr & Hf).
  destruct (Hf (n a - length pending)%nat (f a)) as [Hst' Hk]; [rewrite Nat.add_comm, Nat.sub_add by done; by apply Hst|].
  exists r, (set_l1 (dset a m' (sm_l1 c)) c). split; [by eapply l1_call_run|]. split; [|done].
  pose proof (set_l1_framed a m m' c Em) as Hfr. split; [split; [by rewrite (proj1 Hfr)|]|split; [|exact Hfr]].
  - intros b mb. cbn [sm_l1 set_l1]. rewrite dget_dset. case_decide; [|apply Hok]. intros [= <-]. split; [done|congruence].
  - intros b mb. cbn [sm_l1 set_l1]. rewrite dget_dset. unfold spent. case_decide as Hb.
    + intros [= <-]. subst b. by rewrite decide_True by (by apply list_elem_of_singleton).
    + rewrite decide_False by (intros ->%list_elem_of_singleton; done). apply Hst.
Qed.

Lemma reads_only_trans n1 n2 n3 f c1 c2 c3 : (∀ a, (n3 a ≤ n2 a)%nat) → reads_only n1 f c1 c2 → reads_only n2 f c2 c3 → reads_only n3 f c1 c3.
Proof. intros Hn (_ & _ & H1) (H2 & H3 & H4). split_and!; [done|by eapply steady_less|by eapply framed_trans]. Qed.

(** The reads of one manager, and then fewer of each of the others. *)
Lemma spent_cons a managers k k' n b :
  (a ∉ managers) → (k' ≤ k)%nat → (spent (a :: managers) k n b ≤ spent managers k' (spent [a] k n) b)%nat.
Proof.
  intros Ha Hk. unfold spent. destruct (decide (b ∈ managers)) as [Hb|Hb].
  - rewrite decide_True by (by right). rewrite decide_False by (intros ->%list_elem_of_singleton; done). lia.
  - destruct (decide (b = a)) as [->|Hne]; [by rewrite !decide_True by (by left)|]. rewrite !decide_False; [done|by intros ->%list_elem_of_singleton|].
    by intros [?|?]%elem_of_cons.
Qed.

Lemma spent_rest a managers k k' n b :
  (a ∉ managers) → b ∈ managers → (k' ≤ k)%nat → (∀ x, x ∈ a :: managers → (k ≤ n x)%nat) → (k' ≤ spent [a] k n b)%nat.
Proof.
  intros Ha Hb Hk Hn. unfold spent. rewrite decide_False by (intros ->%list_elem_of_singleton; done). specialize (Hn b ltac:(by right)). lia.
Qed.

(** The managers' groups: each key goes to its first holder. *)
Lemma probe_groups_ok n f managers pending groups c :
  sm_ok c → steady n f c → (∀ a, a ∈ managers → (length pending ≤ n a)%nat) → NoDup managers → (∀ a, a ∈ managers → a ∈ dkeys (sm_l1 c) ∧ a ∉ dkeys groups) → NoDup (dkeys groups) →
  ∃ groups' c', probe_groups managers pending groups c = (Ret groups', c') ∧ reads_only (spent managers (length pending) n) f c c' ∧ NoDup (dkeys groups') ∧
    ∀ a, dget a groups' = match filter (λ k, first_holder f managers k = Some a) pending with [] => dget a groups | l => Some l end.
Proof.
  revert n pending groups c. induction managers as [|a managers IH]; intros n pending groups c Hok Hst Hle Hn Hin Hg.
  { exists groups, c. split_and!; [done|by split_and!|done|]. intros a. by rewrite filter_nothing. }
  apply NoDup_cons in Hn as [Hna Hn]. cbn [probe_groups]. destruct pending as [|k0 pending0] eqn:Ep.
  { exists groups, c. split_and!; [done|split_and!; [done|eapply steady_less; [|exact Hst]; intros b; unfold spent; case_decide; cbn; lia|done]|done|done]. }
  rewrite <-Ep in *. clear Ep k0 pending0.
  destruct (probe_call n f a pending c Hok Hst) as (r & c1 & E & Hro & _ & Hr); [apply Hle; left|apply Hin; left|].
  unfold h_bind at 1. rewrite E. unfold h_bind at 1, h_lift. rewrite (index_all_ok r pending (f a) Hr).
  assert ((filter (λ p : ObjectKey * L1OperationResult, p.2.1 = SUCCESS) ((λ k, (k, f a k)) <$> pending)).*1
    = filter (λ k, (f a k).1 = SUCCESS) pending) as -> by apply (filter_pairs (f a) (λ v, v.1 = SUCCESS)). set (held := filter (λ k, (f a k).1 = SUCCESS) pending).
  assert (∀ k, first_holder f managers k ≠ Some a) as Hnot by (intros k [? _]%first_holder_registered; done).
  assert (∀ b, b ≠ a → filter (λ k, first_holder f (a :: managers) k = Some b) pending
    = filter (λ k, first_holder f managers k = Some b) (filter (λ k, k ∉ held) pending)) as Hothers.
  { intros b Hb. rewrite list_filter_filter. apply filter_agree. intros k Hk. cbn [first_holder]. unfold held.
    rewrite list_elem_of_filter. case_decide; [split; [congruence|]|tauto]. intros [_ Hno]. by destruct Hno. }
  assert (filter (λ k, first_holder f (a :: managers) k = Some a) pending = held) as Hself.
  { apply filter_agree. intros k _. cbn [first_holder]. case_decide; [done|]. split; [by intros ?%Hnot|done]. }
  pose proof Hro as (Hok1 & Hst1 & (Ek & _)).
  destruct (decide (held = [])) as [Eh|Eh].
  - assert (filter (λ k, k ∉ held) pending = pending) as Ef.
    { rewrite Eh. clear. induction pending as [|k l IHl]; [done|]. rewrite filter_cons, decide_True by apply not_elem_of_nil. by rewrite IHl. }
    rewrite Eh. destruct (IH _ pending groups c1 Hok1 Hst1) as (g' & c2 & E2 & Hro2 & Hn2 & Hg2); [|done| |done|].
    { intros b Hb. by apply (spent_rest a managers). }
    { intros b Hb. rewrite Ek. apply Hin. by right. }
    exists g', c2. split_and!; [exact E2|eapply reads_only_trans; [|exact Hro|exact Hro2]; intros b; by apply spent_cons|done|]. intros b. rewrite Hg2. destruct (decide (b = a)) as [->|Hb].
    + rewrite Hself, Eh. by rewrite filter_nothing by (intros k _; apply Hnot).
    + by rewrite Hothers, Ef.
  - assert (dget a groups = None) as Ea by (apply dget_None, Hin; left). rewrite Ea. cbn [default app].
    assert (length (filter (λ k, k ∉ held) pending) ≤ length pending)%nat as Hshort by apply length_filter.
    destruct (IH _ (filter (λ k, k ∉ held) pending) (dset a held groups) c1 Hok1 Hst1) as (g' & c2 & E2 & Hro2 & Hn2 & Hg2); [|done|..].
    { intros b Hb. by apply (spent_rest a managers (length pending)). }
    { intros b Hb. rewrite Ek. split; [apply Hin; by right|]. rewrite elem_dkeys_dset. intros [Hbg|Hbg]; [by destruct (Hin b); [right|]|].
      by subst b. }
    { by apply NoDup_dset. }
    exists g', c2. split_and!; [|eapply reads_only_trans; [|exact Hro|exact Hro2]; intros b; by apply spent_cons|done|].
    + destruct held; [done|exact E2].
    + intros b. rewrite Hg2. destruct (decide (b = a)) as [->|Hb].
      * rewrite Hself. rewrite filter_nothing by (intros k _; apply Hnot). rewrite dget_dset_eq. by destruct held.
      * rewrite Hothers by done. by rewrite dget_dset_ne.
Qed.

(** The inner loop of [_read_objects]. *)
Lemma probe_answers_ok (g : ObjectKey → L1Error * option mem_obj) pending probe results still :
  NoDup pending → (∀ k, k ∈ pending → dget k probe = Some (g k) ∧ k ∈ dkeys results) →
  ∃ results', probe_answers pending probe results still = Ret (results', still ++ filter (λ k, (g k).1 ≠ SUCCESS) pending) ∧
    dkeys results' = dkeys results ∧
    ∀ k, dget k results' = if decide (k ∈ pending)
                           then match (g k).1 with
                                | SUCCESS => Some (g k)
                                | KEY_NOT_READABLE => Some (KEY_NOT_READABLE, None)
                                | _ => dget k results
                                end
                           else dget k results.
Proof.
  revert results still. induction pending as [|k pending IH]; intros results still Hn Hk; [exists results; by rewrite app_nil_r|].
  apply NoDup_cons in Hn as [Hnk Hn]. destruct (Hk k) as [Ek Hin]; [left|]. cbn [probe_answers]. rewrite Ek.
  assert (∀ v, dkeys (dset k v results) = dkeys results) as Hdk by (intros v; by rewrite dkeys_dset, decide_True).
  assert (∀ x, x ∈ pending → dget x probe = Some (g x) ∧ x ∈ dkeys results) as Hk' by (intros x Hx; apply Hk; by right).
  assert (∀ (e : L1Error * option mem_obj) x, x ≠ k → dget x (dset k e results) = dget x results) as Hne by (intros; by apply dget_dset_ne).
  rewrite filter_cons. destruct (g k) as [e obj] eqn:Eg. cbn [fst]. destruct e;
  match goal with
  | |- context [probe_answers _ _ ?res ?st] =>
      destruct (IH res st Hn) as (res' & E & Edk & Hget); [intros x Hx; rewrite ?Hdk; by apply Hk'|]
  end; exists res'; rewrite E, Edk, ?Hdk; (split; [rewrite ?decide_True, ?decide_False by done; by rewrite <-?app_assoc|]);
  (split; [done|]); intros x; rewrite Hget; (destruct (decide (x = k)) as [->|Hx];
    [rewrite (decide_False (P := k ∈ pending)), decide_True by (done || left); by rewrite ?dget_dset_eq, ?Eg
    |rewrite ?Hne by done; destruct (decide (x ∈ pending)) as [Hi|Hi];
      [rewrite decide_True by (by right); done|rewrite decide_False by (by intros [?|?]%elem_of_cons); done]]).
Qed.

Lemma probed_cons f a managers k prev :
  probed f (a :: managers) k prev
  = match (f a k).1 with
    | SUCCESS => Some (SUCCESS, pair a <$> (f a k).2)
    | KEY_NOT_READABLE => probed f managers k (Some (KEY_NOT_READABLE, None))
    | _ => probed f managers k prev
    end.
Proof.
  unfold probed. cbn [first_holder].
  assert (Exists (λ b, (f b k).1 = KEY_NOT_READABLE) (a :: managers)
    ↔ (f a k).1 = KEY_NOT_READABLE ∨ Exists (λ b, (f b k).1 = KEY_NOT_READABLE) managers) as Hex by apply Exists_cons.
  destruct ((f a k).1) eqn:E; cbn; try done; destruct (first_holder f managers k); try done;
    repeat case_decide; try done; exfalso; naive_solver.
Qed.

Lemma probe_objects_ok n f managers pending results c :
  sm_ok c → steady n f c → (∀ a, a ∈ managers → (length pending ≤ n a)%nat) → NoDup managers → (∀ a, a ∈ managers → a ∈ dkeys (sm_l1 c)) → NoDup pending → (∀ k, k ∈ pending → k ∈ dkeys results) →
  ∃ results' c', probe_objects managers pending results c = (Ret results', c') ∧ reads_only (spent managers (length pending) n) f c c' ∧ dkeys results' = dkeys results ∧
    ∀ k, dget k results' = if decide (k ∈ pending) then probed f managers k (dget k results) else dget k results.
Proof.
  revert n pending results c. induction managers as [|a managers IH]; intros n pending results c Hok Hst Hle Hnm Hin Hn Hres.
  { exists results, c. split_and!; [done|by split_and!|done|]. intros k. by case_decide. }
  apply NoDup_cons in Hnm as [Hna Hnm]. cbn [probe_objects]. destruct pending as [|k0 pending0] eqn:Ep.
  { exists results, c. split_and!; [done|split_and!; [done|eapply steady_less; [|exact Hst]; intros b; unfold spent; case_decide; cbn; lia|done]|done|done]. }
  rewrite <-Ep in *. clear Ep k0 pending0.
  destruct (probe_call n f a pending c Hok Hst) as (r & c1 & E & Hro & [Hr1 Hr2] & Hr); [apply Hle; left|apply Hin; left|].
  set (g := λ k, ((f a k).1, pair a <$> (f a k).2) : L1Error * option mem_obj).
  destruct (probe_answers_ok g pending (tagged a r) results [] Hn) as (res1 & E1 & Ek1 & Hg1).
  { intros k Hk. split; [|by apply Hres]. by rewrite dget_tagged, Hr. }
  unfold h_bind at 1. rewrite E. unfold h_bind, h_lift. rewrite E1. cbn [fst snd app]. pose proof Hro as (Hok1 & Hst1 & (Ek & _)).
  assert (length (filter (λ k, (g k).1 ≠ SUCCESS) pending) ≤ length pending)%nat as Hshort by apply length_filter.
  destruct (IH _ (filter (λ k, (g k).1 ≠ SUCCESS) pending) res1 c1 Hok1 Hst1) as (res2 & c2 & E2 & Hro2 & Ek2 & Hg2); [|done|..].
  - intros b Hb. by apply (spent_rest a managers (length pending)).
  - intros b Hb. rewrite Ek. apply Hin. by right.
  - by apply NoDup_filter.
  - intros k [_ Hk]%list_elem_of_filter. rewrite Ek1. by apply Hres.
  - exists res2, c2. split_and!; [exact E2|eapply reads_only_trans; [|exact Hro|exact Hro2]; intros b; by apply spent_cons|congruence|]. intros k. rewrite Hg2, Hg1, probed_cons. cbn [g fst].
    destruct (decide (k ∈ pending)) as [Hk|Hk].
    + destruct (decide (k ∈ filter _ pending)) as [Hf|Hf].
      * apply list_elem_of_filter in Hf as [Hne _]. cbn in Hne. by destruct (f a k).1.
      * rewrite list_elem_of_filter in Hf. cbn in Hf. destruct ((f a k).1) eqn:Ee; try (destruct Hf; split; [done|done]).
        unfold g. by rewrite Ee.
    + rewrite decide_False; [done|]. by intros [_ ?]%list_elem_of_filter.
Qed.

(** ** Reads *)

(** The results of a read that knows the owners. *)
Lemma read_owned n f keys owners c :
  sm_ok c → steady (λ _, length keys + n)%nat f c → NoDup keys → owned owners keys c →
  ∃ results c', _read_objects keys (Some owners) c = (Ret results, c') ∧ reads_only (λ _, n) f c c' ∧ dkeys results = keys ∧
    ∀ k a, k ∈ keys → dget k owners = Some a → dget k results = Some ((f a k).1, pair a <$> (f a k).2).
Proof.
  intros Hok Hst Hn Ho. destruct (group_by_owner_ok keys owners c Ho) as (groups & Eg & Hg).
  assert (∀ a m ks, dget a (sm_l1 c) = Some m → dget a groups = Some ks → svc_answers (length ks + n) (f a) m) as Hst'.
  { intros a m ks Em Ea. eapply svc_answers_less; [|by apply Hst]. destruct (grouped_get _ _ _ _ _ Hg Ea) as [-> _].
    pose proof (length_filter (λ k, dget k owners = Some a) keys). unfold group_of. lia. }
  destruct (fold_calls svc_unsafe_read tagged dkeys_tagged groups (missing (KEY_NOT_EXIST, None) keys) c) as (res & c' & E & Hrt).
  - apply Hg.
  - by eapply grouped_disjoint.
  - intros a ks Ea. destruct (proj2 (dget_is_Some _ _) (grouped_owner _ _ _ _ _ _ Hg Ho Ea)) as [m Em].
    destruct (svc_unsafe_read_ok ks m (proj1 (proj2 Hok a m Em))) as (r & m' & E & _ & _ & Hr & _). by exists m, r, m'.
  - exists res, c'. split; [|split].
    + unfold _read_objects, h_bind at 1, h_get. cbn beta iota. unfold h_bind at 1, _read_groups, h_bind at 1, h_get, h_lift. rewrite Eg. exact E.
    + split; [|split; [|apply Hrt]].
      * eapply routed_ok; [|exact Hok|exact Hrt]. intros a ks m _ Em.
        destruct (svc_unsafe_read_ok ks m (proj1 (proj2 Hok a m Em))) as (r & m' & E' & Hm' & Hid & _). by rewrite E'.
      * intros a m. rewrite (rt_state _ _ _ _ _ _ _ Hrt). destruct (dget a groups) as [ks|] eqn:Ea; [|intros Em; eapply svc_answers_less; [|by apply Hst]; lia].
        destruct (dget a (sm_l1 c)) as [m0|] eqn:Em; [|done]. intros [= <-].
        destruct (svc_unsafe_read_ok ks m0 (proj1 (proj2 Hok a m0 Em))) as (r & m' & E' & _ & _ & _ & Hf). rewrite E'. by apply Hf, Hst'.
    + assert (dkeys res = keys) as Ek.
      { rewrite (rt_keys _ _ _ _ _ _ _ Hrt); [by apply dkeys_missing|]. intros a ks k Ea Hk. rewrite dkeys_missing by done.
        destruct (grouped_get _ _ _ _ _ Hg Ea) as [-> _]. by apply list_elem_of_filter in Hk as [_ ?]. }
      split; [done|]. intros k a Hk Eka. destruct (grouped_elem _ _ _ _ _ Hg Hk Eka) as (ks & Ea & Hks).
      destruct (proj2 (dget_is_Some _ _) (grouped_owner _ _ _ _ _ _ Hg Ho Ea)) as [m Em].
      destruct (svc_unsafe_read_ok ks m (proj1 (proj2 Hok a m Em))) as (r & m' & E' & _ & _ & _ & Hf).
      rewrite (rt_result _ _ _ _ _ _ _ Hrt a ks m r m' k Ea Em E' Hks), dget_tagged. destruct (Hf n (f a) (Hst' a m ks Em Ea)) as [_ Hfk].
      by rewrite (Hfk k Hks).
Qed.

(** Giving locks back to known owners: every owner gets one call with its keys. *)
Lemma release_owned keys n owners c :
  sm_ok c → owned owners keys c →
  ∃ results c', _finish_read_objects keys n (Some owners) c = (Ret results, c') ∧ sm_ok c' ∧ framed c c' ∧
    ∀ a, dget a (sm_l1 c') = match group_of owners a keys with
                             | [] => dget a (sm_l1 c)
                             | ks => (λ m, (svc_finish_read ks n m).2) <$> dget a (sm_l1 c)
                             end.
Proof.
  intros Hok Ho. destruct (group_by_owner_ok keys owners c Ho) as (groups & Eg & Hg).
  destruct (fold_calls (λ ks, svc_finish_read ks n) (λ _ r, r) (λ _ _, eq_refl) groups (missing KEY_NOT_EXIST keys) c) as (res & c' & E & Hrt).
  - apply Hg.
  - by eapply grouped_disjoint.
  - intros a ks Ea. destruct (proj2 (dget_is_Some _ _) (grouped_owner _ _ _ _ _ _ Hg Ho Ea)) as [m Em].
    destruct (svc_finish_read_ok ks n m (proj1 (proj2 Hok a m Em))) as (r & m' & E & _ & _ & Hr). by exists m, r, m'.
  - exists res, c'. split_and!; [| |apply Hrt|].
    + unfold _finish_read_objects, h_bind at 1, _read_groups, h_bind at 1, h_get, h_lift. rewrite Eg. exact E.
    + eapply routed_ok; [|exact Hok|exact Hrt]. intros a ks m _ Em.
      destruct (svc_finish_read_ok ks n m (proj1 (proj2 Hok a m Em))) as (r & m' & E' & Hm' & Hid & _). by rewrite E'.
    + intros a. rewrite (rt_state _ _ _ _ _ _ _ Hrt), (proj2 Hg). by destruct (group_of owners a keys).
Qed.

(** ** Deletion *)

Lemma delete_results_get r acc k :
  NoDup (dkeys r) →
  dget k (delete_results r acc) = match dget k r with
                                  | Some KEY_IS_LOCKED => Some KEY_IS_LOCKED
                                  | None | Some KEY_NOT_EXIST => dget k acc
                                  | Some e => if decide (dget k acc = Some KEY_IS_LOCKED) then Some KEY_IS_LOCKED else Some e
                                  end.
Proof.
  revert acc. induction r as [|[k' e] r IH]; intros acc Hr; [done|]. apply NoDup_cons in Hr as [Hn Hr]. cbn [delete_results dget fst].
  rewrite IH by done. destruct (decide (k' = k)) as [Hk|Hk].
  - subst k'. rewrite (proj2 (dget_None _ _) Hn). destruct (decide (dget k acc = Some KEY_IS_LOCKED)) as [Hd|Hd];
      [rewrite (bool_decide_eq_true_2 _ Hd)|rewrite (bool_decide_eq_false_2 _ Hd)]; destruct e; repeat case_bool_decide; try done; cbn; rewrite ?dget_dset_eq; congruence.
  - assert (∀ b : bool, dget k (if b then dset k' e acc else acc) = dget k acc) as Hb by (intros []; [by rewrite dget_dset_ne|done]).
    by rewrite Hb.
Qed.

Lemma delete_results_nodup r acc : NoDup (dkeys acc) → NoDup (dkeys (delete_results r acc)).
Proof.
  revert acc. induction r as [|[k e] r IH]; intros acc Ha; [done|]. cbn [delete_results]. apply IH.
  destruct (_ || _); [by apply NoDup_dset|done].
Qed.

(** What a deletion has done when it has gone through the managers [pre]. *)
Record deleting (keys : list ObjectKey) (force : bool) (pre : list Z) (results : dict ObjectKey L1Error) c c' : Prop := {
  de_ok : sm_ok c';
  de_framed : framed c c';
  de_rest : ∀ a, a ∉ pre → dget a (sm_l1 c') = dget a (sm_l1 c);
  de_nodup : NoDup (dkeys results);
  de_keys : ∀ k, k ∈ dkeys results → k ∈ keys;
  de_key : ∀ k, k ∈ keys → match dget k results with
    | None => ∀ a m, a ∈ pre → (dget a (sm_l1 c) = Some m ∨ dget a (sm_l1 c') = Some m) → ¬ svc_has k m
    | Some SUCCESS => (∃ a m, dget a (sm_l1 c) = Some m ∧ svc_has k m) ∧
                      ∀ a m, a ∈ pre → dget a (sm_l1 c') = Some m → ¬ svc_has k m
    | Some KEY_IS_LOCKED => force = false ∧ ∃ a m, a ∈ pre ∧ dget a (sm_l1 c') = Some m ∧ svc_has k m
    | _ => False
    end
}.

Lemma delete_step keys force pre a results c c' :
  sm_ok c → NoDup keys → a ∈ dkeys (sm_l1 c) → a ∉ pre → deleting keys force pre results c c' →
  ∃ r c'', l1_call a (svc_delete keys force) c' = (Ret r, c'') ∧ deleting keys force (a :: pre) (delete_results r results) c c''.
Proof.
  intros [Hn0 Hok0] Hn Ha Hpre [[Hn' Hok] Hfr Hrest Hnd Hks Hkey].
  destruct (proj2 (dget_is_Some _ _) Ha) as [m Em0]. assert (dget a (sm_l1 c') = Some m) as Em by (by rewrite Hrest).
  destruct (Hok a m Em) as [Hm Hid]. destruct (svc_delete_ok keys force m Hm Hn) as (r & m' & E & Hm' & Hid' & [Hr1 Hr2] & Hout).
  exists r, (set_l1 (dset a m' (sm_l1 c')) c'). split; [by eapply l1_call_run|]. pose proof (set_l1_framed a m m' c' Em) as Hfr'.
  assert (∀ b, dget b (sm_l1 (set_l1 (dset a m' (sm_l1 c')) c')) = if decide (a = b) then Some m' else dget b (sm_l1 c')) as Hget
    by (intros b; apply dget_dset).
  split.
  - split; [by rewrite (proj1 Hfr')|]. intros b mb. rewrite Hget. case_decide; [|apply Hok]. intros [= <-]. split; [done|congruence].
  - by eapply framed_trans.
  - intros b [Hba Hb]%not_elem_of_cons. rewrite Hget, decide_False by done. by apply Hrest.
  - by apply delete_results_nodup.
  - intros k [e Ek]%dget_is_Some. rewrite delete_results_get in Ek by done. destruct (dget k r) as [e'|] eqn:Er.
    + apply Hr2, dget_is_Some. by eexists.
    + apply Hks, dget_is_Some. by eexists.
  - intros k Hk. rewrite delete_results_get by done. specialize (Hkey k Hk).
    assert (∀ b mb, b ∈ pre → dget b (sm_l1 (set_l1 (dset a m' (sm_l1 c')) c')) = Some mb → dget b (sm_l1 c') = Some mb) as Hold.
    { intros b mb Hb. rewrite Hget, decide_False; [done|]. by intros ->. }
    destruct (Hout k Hk) as [(-> & Hh & Hh')|[(-> & Hforce & Hh)|(-> & Hh & Hh')]].
    + case_decide as Hl.
      * rewrite Hl in Hkey. destruct Hkey as (? & b & mb & Hb & Eb & ?). split; [done|]. exists b, mb. split_and!; [by right| |done].
        rewrite Hget, decide_False; [done|]. by intros ->.
      * split; [by exists a, m|]. intros b mb [->|Hb]%elem_of_cons; [rewrite Hget, decide_True by done; by intros [= <-]|].
        intros Eb. pose proof (Hold b mb Hb Eb) as Eb'. destruct (dget k results) as [[]|] eqn:Er; try done.
        -- by eapply Hkey.
        -- eapply Hkey; [exact Hb|by right].
    + split; [done|]. exists a, m'. split_and!; [left|by rewrite Hget, decide_True|done].
    + destruct (dget k results) as [[]|] eqn:Er; try done.
      * destruct Hkey as [? Hkey]. split; [done|]. intros b mb [->|Hb]%elem_of_cons; [rewrite Hget, decide_True by done; by intros [= <-]|].
        intros Eb. eapply Hkey; [exact Hb|by apply Hold].
      * destruct Hkey as (? & b & mb & Hb & Eb & ?). split; [done|]. exists b, mb. split_and!; [by right| |done].
        rewrite Hget, decide_False; [done|]. by intros ->.
      * intros b mb [->|Hb]%elem_of_cons Hor.
        -- destruct Hor as [Eb|Eb]; [rewrite Em0 in Eb; by injection Eb as <-|]. rewrite Hget, decide_True in Eb by done. by injection Eb as <-.
        -- eapply Hkey; [exact Hb|]. destruct Hor as [?|?]; [by left|right; by apply Hold].
Qed.

Lemma delete_managers keys force pre todo results c c' :
  sm_ok c → NoDup keys → NoDup (pre ++ todo) → (∀ a, a ∈ todo → a ∈ dkeys (sm_l1 c)) → deleting keys force (reverse pre) results c c' →
  ∃ results' c'', h_fold (λ acc owner, let^ r := l1_call owner (svc_delete keys force) in h_ret (delete_results r acc)) results todo c'
      = (Ret results', c'') ∧ deleting keys force (reverse (pre ++ todo)) results' c c''.
Proof.
  revert pre results c'. induction todo as [|a todo IH]; intros pre results c' Hok Hn Hnd Hin Hde; [exists results, c'; by rewrite app_nil_r|].
  destruct (delete_step keys force (reverse pre) a results c c' Hok Hn) as (r & c1 & E & Hde1); [apply Hin; left| |done|].
  { rewrite elem_of_reverse. apply NoDup_app in Hnd as (_ & Hd & _). intros Ha. apply (Hd a Ha). left. }
  destruct (IH (pre ++ [a]) (delete_results r results) c1) as (res & c2 & E2 & Hde2); [done|done|by rewrite <-app_assoc| | |].
  - intros b Hb. apply Hin. by right.
  - by rewrite reverse_app.
  - exists res, c2. rewrite <-app_assoc in Hde2. split; [|exact Hde2]. cbn [h_fold]. unfold h_bind at 1 2. rewrite E. exact E2.
Qed.
End routing.
