(* ===== verification/StorageTiers.v ===== *)
(** * The L1 manager as the storage manager sees it

    [BaseL1Manager] of L1Manager.v with its configuration and id satisfies the
    laws of StorageRouting.v. *)

From stdpp Require Import gmap list strings.
From Stdlib Require Import ZArith Lia.
From S2P Require Import Prelude TTLLock TensorAllocator Keys L1Memory L1Manager L1ManagerInv L1ManagerProps L1ManagerOps Handler StorageManager StorageRouting.

Open Scope Z_scope.

(** An L1 manager: its id, memory tags and times to live, and its state. *)
Record L1Instance (M T : Type) := mkInstance {
  in_id : Z;
  in_tags : T;
  in_write_ttl : Z;
  in_read_ttl : Z;
  in_state : L1 M
}.
Arguments mkInstance {M T}.
Arguments in_id {M T}.
Arguments in_tags {M T}.
Arguments in_write_ttl {M T}.
Arguments in_read_ttl {M T}.
Arguments in_state {M T}.

(** ** Result dictionaries *)

Section shapes.
Context {M : Type} `{L1MemoryManagerProtocol M}.
Context (clock : nat → Z) (wttl rttl mid : Z).
#[local] Abbreviation L1 := (L1 M).
Implicit Types (s : L1).

(** The results grew by answers for keys among [keys]. *)
Definition grows {R} (keys : list ObjectKey) (r r' : dict ObjectKey R) : Prop :=
  (NoDup (dkeys r) → NoDup (dkeys r')) ∧ ∀ k, k ∈ dkeys r' → k ∈ dkeys r ∨ k ∈ keys.

Lemma grows_refl {R} keys (r : dict ObjectKey R) : grows keys r r.
Proof. split; [done|]. by left. Qed.

Lemma grows_dset {R} keys k (v : R) r r' : grows keys (dset k v r) r' → grows (k :: keys) r r'.
Proof.
  intros [H1 H2]. split; [intros Hr; by apply H1, NoDup_dset|]. intros x Hx. rewrite elem_of_cons.
  destruct (H2 x Hx) as [[?| ->]%elem_dkeys_dset|?]; tauto.
Qed.

Lemma grows_skip {R} keys k (r r' : dict ObjectKey R) : grows keys r r' → grows (k :: keys) r r'.
Proof. intros [H1 H2]. split; [done|]. intros x Hx. rewrite elem_of_cons. destruct (H2 x Hx); tauto. Qed.

Lemma grows_trans {R} keys (r1 r2 r3 : dict ObjectKey R) : grows keys r1 r2 → grows keys r2 r3 → grows keys r1 r3.
Proof. intros [A1 A2] [B1 B2]. split; [auto|]. intros k Hk. destruct (B2 k Hk) as [Hk'|?]; [by apply A2|by right]. Qed.

Lemma grows_answers {R} keys (r : dict ObjectKey R) :
  grows keys [] r → (∀ k, k ∈ keys → is_Some (dget k r)) → answers_for keys r.
Proof.
  intros [H1 H2] H3. split; [apply H1; constructor|]. intros k. split.
  - intros [Hk|Hk]%H2; [by apply not_elem_of_nil in Hk|done].
  - intros Hk. by apply dget_is_Some, H3.
Qed.

(** A call whose result does not depend on what comes first. *)
Lemma pc_skip {A B} (c : L1M M A) (k : A → L1M M B) (Q : B → L1 → Prop) s : (∀ a s', pc (k a) Q s') → pc (bind c k) Q s.
Proof. intros Hk. apply pc_bind. intros a s' _. apply Hk. Qed.

Lemma unsafe_read_shape keys s : pc (L1Manager.unsafe_read clock keys) (λ r _, answers_for keys r) s.
Proof.
  assert (∀ r, pc (unsafe_read_loop clock keys r) (λ r' _, grows keys r r' ∧ ∀ k, k ∈ dkeys r ∨ k ∈ keys → k ∈ dkeys r') s) as Hl.
  { revert s. induction keys as [|key keys IH]; intros s r.
    { apply pc_ret. split; [apply grows_refl|]. intros k [?|?%elem_of_nil]; done. }
    assert (∀ s' v, pc (unsafe_read_loop clock keys (dset key v r))
      (λ r' _, grows (key :: keys) r r' ∧ ∀ k, k ∈ dkeys r ∨ k ∈ key :: keys → k ∈ dkeys r') s') as Hd.
    { intros s' v. eapply pc_mono; [apply IH|]. intros r' _ [H1 H2]. split; [by eapply grows_dset|].
      intros k Hk. apply H2. rewrite elem_dkeys_dset. rewrite elem_of_cons in Hk. tauto. }
    cbn [unsafe_read_loop]. apply pc_skip. intros s0 s1. destruct (dget key (l1_objects s0)); [|apply Hd].
    apply pc_skip. intros t s2. destruct (negb _); apply Hd. }
  eapply pc_mono; [apply Hl|]. intros r s' [Hg Hall]. apply grows_answers; [done|]. intros k Hk. apply dget_is_Some, Hall. by right.
Qed.

Lemma finish_read_shape keys n s : pc (finish_read clock keys n) (λ r _, answers_for keys r) s.
Proof.
  assert (∀ total acc s, pc (finish_read_loop clock total keys acc)
    (λ acc' _, grows keys (fr_ret acc) (fr_ret acc') ∧ ∀ k, k ∈ dkeys (fr_ret acc) ∨ k ∈ keys → k ∈ dkeys (fr_ret acc')) s) as Hl.
  { intros total. induction keys as [|key keys IH]; intros [r ok fk f] s0.
    { apply pc_ret. split; [apply grows_refl|]. intros k [?|?%elem_of_nil]; done. }
    assert (∀ s' v ok fk f, pc (finish_read_loop clock total keys (mkFR (dset key v r) ok fk f))
      (λ acc' _, grows (key :: keys) r (fr_ret acc') ∧ ∀ k, k ∈ dkeys r ∨ k ∈ key :: keys → k ∈ dkeys (fr_ret acc')) s') as Hd.
    { intros s' v ok' fk' f'. eapply pc_mono; [apply IH|]. intros r' _ [H1 H2]. split; [by eapply grows_dset|].
      intros k Hk. apply H2. cbn [fr_ret]. rewrite elem_dkeys_dset. rewrite elem_of_cons in Hk. tauto. }
    cbn [finish_read_loop fr_ret]. apply pc_skip. intros s1 s2. destruct (dget key (l1_objects s1)); [|apply Hd].
    apply pc_skip. intros t s3. destruct (negb _); [apply Hd|]. apply pc_skip. intros [] s4; apply pc_skip; intros ? s5; apply Hd. }
  unfold finish_read. apply pc_bind. eapply pc_mono; [apply Hl|]. intros acc s1 [Hg Hall]. do 3 (apply pc_skip; intros ? ?). apply pc_ret.
  apply grows_answers; [done|]. intros k Hk. apply dget_is_Some, Hall. by right.
Qed.

Lemma finish_write_shape keys tag s : pc (L1Manager.finish_write clock keys tag) (λ r _, grows keys [] r) s.
Proof.
  assert (∀ acc s, pc (finish_write_loop clock tag keys acc) (λ acc' _, grows keys (fw_ret acc) (fw_ret acc')) s) as Hl.
  { induction keys as [|key keys IH]; intros [r nk nm d] s0; [apply pc_ret, grows_refl|].
    assert (∀ s' v nk nm d, pc (finish_write_loop clock tag keys (mkFW (dset key v r) nk nm d)) (λ acc' _, grows (key :: keys) r (fw_ret acc')) s') as Hd.
    { intros. eapply pc_mono; [apply IH|]. intros acc' s1 Hg. eapply grows_dset, Hg. }
    cbn [finish_write_loop fw_ret]. apply pc_skip. intros [err [entry|]] s1; [|apply Hd]. apply pc_skip. intros s2 s3.
    destruct (dmem key (l1_objects s2)); [apply Hd|]. apply pc_skip. intros ? s4. destruct (is_temporary entry); apply Hd. }
  unfold L1Manager.finish_write. apply pc_bind. eapply pc_mono; [apply Hl|]. intros acc s1 Hg. do 2 (apply pc_skip; intros ? ?). by apply pc_ret.
Qed.

Lemma delete_shape keys force s : pc (delete clock keys force) (λ r _, grows keys [] r) s.
Proof.
  assert (∀ acc s, pc (delete_loop clock force keys acc) (λ acc' _, grows keys (del_ret acc) (del_ret acc')) s) as Hl.
  { induction keys as [|key keys IH]; intros [r ok f gone] s0; [apply pc_ret, grows_refl|].
    assert (∀ s' v ok f gone, pc (delete_loop clock force keys (mkDel (dset key v r) ok f gone)) (λ acc' _, grows (key :: keys) r (del_ret acc')) s') as Hd.
    { intros. eapply pc_mono; [apply IH|]. intros acc' s1 Hg. eapply grows_dset, Hg. }
    cbn [delete_loop del_ret]. apply pc_skip. intros s1 s2. destruct (match dget key (l1_objects s1) with None => _ | Some _ => _ end); [apply Hd|].
    apply pc_skip. intros z s3. apply pc_skip. intros s4 s5. destruct (dmem key (l1_staging s4)); [apply Hd|].
    destruct (dget key (l1_objects s1)); [|apply Hd]. apply pc_skip. intros t s6. destruct (_ && _); [apply Hd|]. apply pc_skip. intros ? s7. apply Hd. }
  unfold delete. apply pc_bind. eapply pc_mono; [apply Hl|]. intros acc s1 Hg. do 2 (apply pc_skip; intros ? ?). by apply pc_ret.
Qed.

Lemma reserve_write_scan_shape tag items r ok need s :
  pc (reserve_write_scan clock tag items r ok need) (λ res _, grows items.*1 r res.1.1 ∧ ∀ k, k ∈ res.2.*1 → k ∈ need.*1 ∨ k ∈ items.*1) s.
Proof.
  revert r ok need s. induction items as [|[key b] items IH]; intros r ok need s.
  { apply pc_ret. split; [apply grows_refl|by left]. }
  assert (∀ v ok s', pc (reserve_write_scan clock tag items (dset key v r) ok need)
    (λ res _, grows (key :: items.*1) r res.1.1 ∧ ∀ k, k ∈ res.2.*1 → k ∈ need.*1 ∨ k ∈ key :: items.*1) s') as Hd.
  { intros v ok' s'. eapply pc_mono; [apply IH|]. intros res s1 [Hg Hn]. split; [eapply grows_dset, Hg|]. intros k Hk. rewrite elem_of_cons.
    destruct (Hn k Hk); tauto. }
  cbn [reserve_write_scan]. rewrite fmap_cons. cbn [fst]. apply pc_skip. intros s0 s1. destruct (dmem key (l1_objects s0)); [apply Hd|].
  destruct (_get_staging key tag s0).
  - apply pc_skip. intros t s2. destruct (is_locked _ _); [apply Hd|]. apply pc_skip. intros t' s3. apply pc_skip. intros ? s4. apply Hd.
  - eapply pc_mono; [apply IH|]. intros res s2 [Hg Hn]. split; [apply grows_skip, Hg|]. intros k Hk. rewrite elem_of_cons.
    destruct (Hn k Hk) as [Hk'|?]; [|tauto]. rewrite fmap_app, elem_of_app in Hk'. cbn in Hk'. rewrite list_elem_of_singleton in Hk'. tauto.
Qed.

Lemma reserve_write_fill_shape tag need ids r ok s :
  pc (reserve_write_fill clock wttl rttl mid tag need ids r ok) (λ res _, grows need.*1 r res.1) s.
Proof.
  revert ids r ok s. induction need as [|[key b] need IH]; intros [|i ids] r ok s; try (by intros ? ? E).
  { apply pc_ret, grows_refl. }
  cbn [reserve_write_fill]. rewrite fmap_cons. do 4 (apply pc_skip; intros ? ?). eapply pc_mono; [apply IH|]. intros res s1 Hg. eapply grows_dset, Hg.
Qed.

Lemma grows_oom (need : list (ObjectKey * bool)) (r : dict ObjectKey L1OperationResult) :
  grows need.*1 r (foldl (λ r p, dset p.1 (OUT_OF_MEMORY, None) r) r need).
Proof.
  revert r. induction need as [|[key b] need IH]; intros r; [apply grows_refl|]. cbn [foldl fst]. rewrite fmap_cons. eapply grows_dset, IH.
Qed.

Lemma reserve_write_shape keys temps lay tag s :
  pc (L1Manager.reserve_write clock wttl rttl mid keys temps lay tag) (λ r _, grows keys [] r) s.
Proof.
  unfold L1Manager.reserve_write. destruct (length keys =? length temps)%nat eqn:El; cbn [negb]; [|by intros ? ? E].
  apply Nat.eqb_eq in El. assert ((zip keys temps).*1 = keys) as Ez by (apply fst_zip; lia).
  apply pc_bind. eapply pc_mono; [apply reserve_write_scan_shape|]. intros [[r ok] need] s1 [Hg Hn]. cbn [fst snd] in Hg, Hn. rewrite Ez in Hg, Hn.
  assert (∀ r', grows need.*1 r r' → grows keys [] r') as Hall.
  { intros r' Hr'. eapply grows_trans; [exact Hg|]. destruct Hr' as [H1 H2]. split; [done|]. intros k Hk.
    destruct (H2 k Hk) as [?|Hk']; [by left|]. destruct (Hn k Hk') as [?%elem_of_nil|?]; [done|by right]. }
  destruct need as [|p need'] eqn:En; [by apply pc_ret|]. rewrite <-En in *. apply pc_skip. intros s2 s3. apply pc_skip. intros [err ids] s4.
  apply pc_bind. eapply (pc_mono _ (λ out _, grows need.*1 r out.1)).
  - destruct (negb _); [|apply reserve_write_fill_shape]. apply pc_skip. intros ? s5. apply pc_ret, grows_oom.
  - intros out s5 Hout. apply pc_skip. intros ? s6. apply pc_ret. by apply Hall.
Qed.
End shapes.

(** ** The instance *)

Section service.
Context {M T : Type} `{L1MemoryLaws M}.
Context (clock : nat → Z) (clock_mono : ∀ i j, (i ≤ j)%nat → clock i <= clock j).
#[local] Abbreviation Inst := (L1Instance M T).
Implicit Types (s : Inst).

Definition with_state (l : L1 M) s : Inst := mkInstance (in_id s) (in_tags s) (in_write_ttl s) (in_read_ttl s) l.
Definition in_call {X} (call : L1M M X) s : py X * Inst := let '(r, l) := call (in_state s) in (r, with_state l s).

Definition BaseL1Manager_service : L1Service Inst T := {|
  svc_id := in_id;
  svc_tags := in_tags;
  svc_reserve_write := λ keys temps lay tag s,
    in_call (L1Manager.reserve_write clock (in_write_ttl s) (in_read_ttl s) (in_id s) keys temps lay tag) s;
  svc_finish_write := λ keys tag, in_call (L1Manager.finish_write clock keys tag);
  svc_unsafe_read := λ keys, in_call (L1Manager.unsafe_read clock keys);
  svc_finish_read := λ keys n, in_call (finish_read clock keys n);
  svc_delete := λ keys force, in_call (delete clock keys force);
  svc_clear := λ force, in_call (L1Manager.clear clock force);
  svc_memory_usage := λ s, mm_get_memory_usage (l1_mm (in_state s));
  svc_memcheck := λ s, mm_memcheck (l1_mm (in_state s));
  svc_owner_of := λ i s, o ← mm_objs (l1_mm (in_state s)) !! i; mo_l1_manager o
|}.

Definition inst_ok s : Prop := inv (in_write_ttl s) (in_read_ttl s) (in_id s) [] (in_state s) ∧ 0 <= in_read_ttl s.
Definition inst_has (k : ObjectKey) s : Prop :=
  is_Some (dget k (l1_objects (in_state s))) ∨ is_Some (dget k (l1_staging (in_state s))).

(** The next [n] reads answer [f]: no read lock expires during the [n] readings
    of the clock that they make. *)
Definition inst_answers (n : nat) (f : ObjectKey → L1OperationResult) s : Prop :=
  ∀ k, match dget k (l1_objects (in_state s)) with
       | None => f k = (KEY_NOT_EXIST, None)
       | Some e => ∃ b : bool, (∀ t, (l1_tick (in_state s) ≤ t < l1_tick (in_state s) + n)%nat → is_locked (clock t) (read_lock e) = b) ∧
                    f k = if b then (SUCCESS, Some (memory_obj e)) else (KEY_NOT_READABLE, None)
       end.

Lemma in_call_ok {X} (call : L1M M X) s (Q : X → L1 M → Prop) :
  inst_ok s → wp call (λ _ l, inv (in_write_ttl s) (in_read_ttl s) (in_id s) [] l) (in_state s) → pc call Q (in_state s) →
  ∃ x l, call (in_state s) = (Ret x, l) ∧ in_call call s = (Ret x, with_state l s) ∧ inst_ok (with_state l s) ∧ Q x l.
Proof.
  intros [_ Hr] Hw Hp. unfold wp, in_call in *. destruct (call (in_state s)) as [[x|e] l] eqn:E; [|done].
  exists x, l. split; [done|]. split; [done|]. split; [by split|by apply Hp].
Qed.

Lemma unsafe_read_loop_answers n f keys r s (l : L1 M) :
  inst_answers n f s → l1_objects l = l1_objects (in_state s) → (l1_tick (in_state s) ≤ l1_tick l)%nat → (l1_tick l + length keys ≤ l1_tick (in_state s) + n)%nat →
  pc (unsafe_read_loop clock keys r) (λ r' l', (l1_tick l' ≤ l1_tick l + length keys)%nat ∧ ∀ k, dget k r' = if decide (k ∈ keys) then Some (f k) else dget k r) l.
Proof.
  intros Hf. revert r l. induction keys as [|key keys IH]; intros r l Eo Ht Hn.
  { apply pc_ret. split; [cbn; lia|]. intros k. rewrite decide_False by apply not_elem_of_nil. done. }
  assert (∀ l' : L1 M, l1_objects l' = l1_objects (in_state s) → (l1_tick l ≤ l1_tick l' ≤ l1_tick l + 1)%nat →
    pc (unsafe_read_loop clock keys (dset key (f key) r))
      (λ r' l2, (l1_tick l2 ≤ l1_tick l + length (key :: keys))%nat ∧ ∀ k, dget k r' = if decide (k ∈ key :: keys) then Some (f k) else dget k r) l') as Hd.
  { intros l' Eo' Ht'. eapply pc_mono; [apply IH; [done|lia|cbn [length] in Hn; lia]|]. intros r' l2 [Ht2 Hr]. split; [cbn [length]; lia|].
    intros k. rewrite Hr, dget_dset. repeat case_decide; subst; set_solver. }
  cbn [unsafe_read_loop]. apply pc_bind. intros l0 l1 [= <- <-]. specialize (Hf key). rewrite Eo.
  destruct (dget key (l1_objects (in_state s))) as [e|] eqn:Ek; [|rewrite <-Hf; apply Hd; [done|lia]].
  destruct Hf as (b & Hb & Hfk). apply pc_bind. intros t l1 [= <- <-]. rewrite Hb by (cbn [length] in Hn; lia). cbn [bump].
  destruct b; cbn [negb]; rewrite <-Hfk; apply Hd; cbn; [done|lia|done|lia].
Qed.

(** Reads leave the tables alone, so later reads answer the same. *)
Lemma inst_answers_mono n n' f s (l : L1 M) :
  inst_answers n f s → l1_objects l = l1_objects (in_state s) → (l1_tick (in_state s) ≤ l1_tick l)%nat → (l1_tick l + n' ≤ l1_tick (in_state s) + n)%nat →
  inst_answers n' f (with_state l s).
Proof.
  intros Hf Eo Ht Hn k. specialize (Hf k). cbn [in_state with_state]. rewrite Eo. destruct (dget k (l1_objects (in_state s))); [|done].
  destruct Hf as (b & Hb & Hfk). exists b. split; [|done]. intros t Ht'. cbn in Ht'. apply Hb. lia.
Qed.

(** A staged object of a consistent manager is live and names the manager. *)
Lemma reserved_owner s tag t k i :
  inst_ok s → reserved tag t k i (in_state s) → (o ← mm_objs (l1_mm (in_state s)) !! i; mo_l1_manager o) = Some (in_id s).
Proof.
  intros [[_ Hmem] _] (_ & e & Ee & <- & _). destruct (mi_live _ _ _ Hmem (memory_obj e)) as (o & Eo & _ & Hid).
  - cbn [app]. apply list_elem_of_fmap. exists e. split; [done|]. unfold entries. apply elem_of_app. right.
    unfold staging_get in Ee. destruct (dget k (l1_staging (in_state s))) as [per|] eqn:Ek; [|done].
    unfold staged_values, dvalues. apply list_elem_of_bind. exists per. split.
    + apply list_elem_of_fmap. exists (tag, e). split; [done|by apply dget_Some_elem].
    + apply list_elem_of_fmap. exists (k, per). split; [done|by apply dget_Some_elem].
  - by rewrite Eo.
Qed.

Definition BaseL1Manager_service_laws : @L1ServiceLaws Inst T BaseL1Manager_service.
Proof.
  refine {|
    svc_ok := inst_ok;
    svc_now := λ s, clock (l1_tick (in_state s));
    svc_write_ttl := λ s, in_write_ttl s * 1000;
    svc_reserved := λ tag t k i s, reserved tag t k i (in_state s);
    svc_resident := λ k i s, read_answer k (in_state s) = (SUCCESS, Some i);
    svc_has := inst_has;
    svc_answers := inst_answers |}; cbn [svc_id svc_tags svc_reserve_write svc_finish_write svc_unsafe_read svc_finish_read svc_delete svc_clear svc_owner_of BaseL1Manager_service].
  - intros n n' f s Hn Hf k. specialize (Hf k). destruct (dget k (l1_objects (in_state s))) as [e|]; [|done]. destruct Hf as (b & Hb & Hfk). exists b. split; [|done].
    intros t Ht. apply Hb. lia.
  - intros keys temps lay tag s Hok Hn Hl Hlay. pose proof Hok as [Hinv Hr].
    destruct (in_call_ok _ s _ Hok (reserve_write_inv clock _ _ _ keys temps lay tag (in_state s) clock_mono Hr Hinv Hn Hl Hlay)
      (reserve_write_shape clock _ _ _ keys temps lay tag (in_state s))) as (r & l & E & Ec & Hok' & Hg).
    destruct (reserve_write_effect clock _ _ _ clock_mono Hr keys temps lay tag (in_state s) Hinv Hn Hl Hlay) as (r' & l' & E' & Hout & _).
    rewrite E in E'. injection E' as <- <-. exists r, (with_state l s). split; [exact Ec|]. split; [exact Hok'|]. split; [done|]. split.
    + apply grows_answers; [exact Hg|]. intros k Hk. destruct (Hout k Hk) as [(i & -> & _)|[(-> & _)|(-> & _)]]; by eexists.
    + intros k Hk. destruct (Hout k Hk) as [(i & Ei & Hres)|[(Ei & _)|(Ei & _)]].
      * left. exists i. split_and!; [exact Ei|exact Hres|]. exact (reserved_owner (with_state l s) _ _ _ _ Hok' Hres).
      * right. by exists KEY_NOT_WRITABLE.
      * right. by exists OUT_OF_MEMORY.
  - intros keys tag s Hok Hn. pose proof Hok as [Hinv Hr].
    destruct (in_call_ok _ s _ Hok (finish_write_inv clock _ _ _ keys tag (in_state s) Hinv) (finish_write_shape clock keys tag (in_state s)))
      as (r & l & E & Ec & Hok' & Hg).
    destruct (finish_write_effect clock _ _ _ keys tag (in_state s) Hinv Hn) as (r' & l' & E' & Hout & _).
    rewrite E in E'. injection E' as <- <-. exists r, (with_state l s). split; [exact Ec|]. split; [exact Hok'|]. split; [done|]. split.
    + apply grows_answers; [exact Hg|]. intros k Hk. specialize (Hout k Hk). unfold finish_write_outcome in Hout.
      destruct (staging_get k tag (l1_staging (in_state s))) as [e|]; [|destruct Hout as [-> _]; by eexists].
      destruct Hout as (now & _ & Hout). destruct (is_locked now (write_lock e)); destruct Hout as [-> _]; by eexists.
    + intros k i t Hk Hres Ht. pose proof (finish_write_admits clock (in_write_ttl s) (in_read_ttl s) (in_id s) clock_mono tag k i keys (in_state s) r l t Hinv Hn Hk) as Ha.
      destruct Ha as [Ha1 Ha2]; [by eapply reserved_staged|exact Ht|exact E|]. split; [exact Ha1|]. refine (eq_trans Ha2 _). destruct Hres as [-> _]. done.
  - intros keys s Hok. pose proof Hok as [Hinv Hr].
    destruct (in_call_ok _ s _ Hok (unsafe_read_inv clock _ _ _ keys (in_state s) Hinv) (unsafe_read_shape clock keys (in_state s)))
      as (r & l & E & Ec & Hok' & Hg). exists r, (with_state l s). split; [exact Ec|]. split; [exact Hok'|]. split; [done|]. split; [exact Hg|].
    intros n f Hf. destruct (quiet_unsafe_read clock keys (in_state s) _ _ E) as [Eo Ht].
    destruct (unsafe_read_loop_answers (length keys + n) f keys [] s (in_state s) Hf eq_refl (le_n _) ltac:(lia) _ _ E) as [Ht2 Hr2].
    split; [eapply inst_answers_mono; [exact Hf|exact Eo|exact Ht|cbn; lia]|]. intros k Hk. by rewrite Hr2, decide_True.
  - intros keys n s Hok. pose proof Hok as [Hinv Hr].
    destruct (in_call_ok _ s _ Hok (finish_read_inv clock _ _ _ keys n (in_state s) Hinv) (finish_read_shape clock keys n (in_state s)))
      as (r & l & E & Ec & Hok' & Hg). exists r, (with_state l s). split; [exact Ec|]. split; [exact Hok'|]. by split.
  - intros keys force s Hok Hn. pose proof Hok as [Hinv Hr].
    destruct (in_call_ok _ s _ Hok (delete_inv clock _ _ _ keys force (in_state s) Hinv) (delete_shape clock keys force (in_state s)))
      as (r & l & E & Ec & Hok' & Hg).
    destruct (delete_effect clock _ _ _ keys force (in_state s) Hinv Hn) as (r' & l' & E' & Hout & _).
    rewrite E in E'. injection E' as <- <-. exists r, (with_state l s). split; [exact Ec|]. split; [exact Hok'|]. split; [done|]. split.
    + apply grows_answers; [exact Hg|]. intros k Hk. destruct (Hout k Hk) as [(-> & _)|[(-> & _)|(-> & _)]]; by eexists.
    + intros k Hk. unfold inst_has. cbn [in_state with_state]. destruct (Hout k Hk) as [(-> & E1 & E2 & [E3 E4])|[(-> & Hw & E1 & E2 & _)|(-> & Hf & E1 & Hu)]].
      * right. right. rewrite E3, E4, E1, E2. split_and!; [done|by intros [[? ?]|[? ?]]|by intros [[? ?]|[? ?]]].
      * left. rewrite E1, E2. split_and!; [done|done|by intros [[? ?]|[? ?]]].
      * right. left. split_and!; [done|done|]. destruct Hu as [(tag & e & now & _ & Eg & _)|(e & now & Ee & _)].
        -- right. unfold staging_get in Eg. destruct (dget k (l1_staging l)); [by eexists|done].
        -- left. rewrite E1, Ee. by eexists.
  - intros force s Hok. pose proof Hok as [Hinv Hr].
    destruct (in_call_ok _ s (λ _ _, True) Hok (clear_inv clock _ _ _ force (in_state s) Hinv)) as ([] & l & E & Ec & Hok' & _); [done|].
    exists (with_state l s). split; [exact Ec|]. by split.
Defined.
End service.
