(* ===== verification/StorageProps.v ===== *)
(** * Theorems about the storage manager

    Writes placed on several L1 managers and finished on the owners that the
    objects name; reads with and without known owners; deletion over all
    managers. [BaseL1Manager] satisfies the laws they rest on. *)

From stdpp Require Import gmap list strings.
From Stdlib Require Import ZArith Lia.
From S2P Require Import Prelude TTLLock TensorAllocator Keys L1Memory L1Manager L1ManagerInv L1ManagerProps L1ManagerOps Handler StorageManager StorageRouting StorageTiers.

Open Scope Z_scope.
Open Scope py_scope.
Open Scope handler_scope.

Section storage.
Context {S P T : Type} `{EqDecision T} {IS : L1Service S T} {LS : L1ServiceLaws S T} {IW : WritePolicy P S}.

#[local] Abbreviation SM := (StorageManager S P).
Implicit Types (c : SM).

(** ** Writes *)

(** A placement puts every key exactly once, on managers that exist. *)
Definition placed (keys : list ObjectKey) (targets : dict Z (list ObjectKey)) (registered : dict Z S) : Prop :=
  (∀ a, a ∈ dkeys targets → a ∈ dkeys registered) ∧ dvalues targets ≫= id ≡ₚ keys.

Lemma validate_spec keys targets registered :
  (placed keys targets registered ∧ _validate_write_targets keys targets registered = Ret tt) ∨
  (¬ placed keys targets registered ∧ _validate_write_targets keys targets registered = Raise ValueError).
Proof.
  unfold _validate_write_targets, placed.
  assert (forallb (λ owner, dmem owner registered) (dkeys targets) = true ↔ ∀ a, a ∈ dkeys targets → a ∈ dkeys registered) as H1.
  { rewrite forallb_forall. setoid_rewrite <-list_elem_of_In. by setoid_rewrite dmem_true. }
  pose proof (same_counts_true (dvalues targets ≫= id) keys) as H2.
  destruct (forallb _ _), (same_counts _ _); cbn; naive_solver.
Qed.

(** The targets of a valid placement are disjoint groups of distinct keys. *)
Lemma placement_groups keys (targets : dict Z (list ObjectKey)) :
  NoDup keys → NoDup (dkeys targets) → dvalues targets ≫= id ≡ₚ keys →
  disjoint_groups targets ∧ (∀ a ks, dget a targets = Some ks → NoDup ks) ∧
  ∀ k, k ∈ keys ↔ ∃ a ks, dget a targets = Some ks ∧ k ∈ ks.
Proof.
  intros Hn Ht Hp. assert (NoDup (dvalues targets ≫= id)) as Hc by (by rewrite Hp).
  assert (∀ k, k ∈ keys ↔ ∃ a ks, dget a targets = Some ks ∧ k ∈ ks) as Hk.
  { intros k. rewrite <-Hp, list_elem_of_bind. setoid_rewrite list_elem_of_fmap. split.
    - intros (ks & Hk & [a ks'] & -> & Hin). exists a, ks'. split; [by apply elem_dget|done].
    - intros (a & ks & Ea & Hk). exists ks. split; [done|]. exists (a, ks). split; [done|by apply dget_Some_elem]. }
  clear Hp Hn. revert Hc Hk. revert keys. induction targets as [|[a ks] targets IH]; intros keys Hc Hk; [by split_and!|].
  apply NoDup_cons in Ht as [Hna Ht]. unfold dvalues in Hc. rewrite fmap_cons, bind_cons in Hc. cbn in Hc.
  apply NoDup_app in Hc as (Hks & Hsep & Hc).
  destruct (IH Ht (dvalues targets ≫= id)) as (Hd & Hnd & Hin).
  { exact Hc. }
  { intros k. rewrite list_elem_of_bind. setoid_rewrite list_elem_of_fmap. split.
    - intros (l & Hl & [b l'] & -> & Hb). exists b, l'. split; [by apply elem_dget|done].
    - intros (b & l & Eb & Hl). exists l. split; [done|]. exists (b, l). split; [done|by apply dget_Some_elem]. }
  assert (∀ b l k, dget b targets = Some l → k ∈ l → k ∉ ks) as Hout by (intros b l k Eb Hl Hkk; apply (Hsep k Hkk), Hin; by exists b, l).
  split_and!.
  - intros x y l l' k. cbn. repeat case_decide; intros Ex Ey H1 H2; simplify_eq; [done| | |by eapply Hd].
    + by destruct (Hout y l' k Ey H2).
    + by destruct (Hout x l k Ex H1).
  - intros b l. cbn. case_decide; [by intros [= <-]|apply Hnd].
  - exact Hk.
Qed.

Lemma granted_acc (f : ObjectKey → L1Error * option mem_obj) keys (d : dict ObjectKey mem_obj) :
  NoDup (dkeys d ++ keys) →
  let d' := foldl (λ d p, match p.2.2 with Some o => dset p.1 o d | None => d end) d ((λ k, (k, f k)) <$> keys) in
  NoDup (dkeys d') ∧ ∀ k, dget k d' = if decide (k ∈ keys) then (f k).2 else dget k d.
Proof.
  revert d. induction keys as [|x keys IH]; intros d Hd; [split; [by rewrite app_nil_r in Hd|done]|]. cbn [fmap list_fmap foldl fst snd].
  assert (x ∉ dkeys d) as Hx by (apply NoDup_app in Hd as (_ & Hd & _); intros Hin; apply (Hd x Hin); left).
  assert ((x ∉ keys) ∧ NoDup (dkeys d ++ keys) ∧ NoDup ((dkeys d ++ [x]) ++ keys)) as (Hxk & H1 & H2).
  { rewrite <-app_assoc. cbn. split_and!; [| |done].
    - apply NoDup_app in Hd as (_ & _ & Hd). by apply NoDup_cons in Hd as [? _].
    - eapply sublist_NoDup; [exact Hd|]. by apply sublist_app, sublist_cons. }
  destruct ((f x).2) as [o|] eqn:Ex.
  - destruct (IH (dset x o d)) as [Hn Hg]; [by rewrite dkeys_dset, decide_False|]. split; [exact Hn|]. intros k. rewrite Hg, dget_dset.
    destruct (decide (x = k)) as [<-|Hne]; [rewrite decide_False, decide_True by (done || left); by rewrite Ex|].
    repeat case_decide; set_solver.
  - destruct (IH d H1) as [Hn Hg]. split; [exact Hn|]. intros k. rewrite Hg. destruct (decide (x = k)) as [<-|Hne].
    + rewrite decide_False, decide_True by (done || left). rewrite Ex. by apply dget_None.
    + repeat case_decide; set_solver.
Qed.

(** What [reserve_write] leaves behind for a granted object. *)
Definition write_granted (targets : dict Z (list ObjectKey)) (k : ObjectKey) (o : mem_obj) c c' : Prop :=
  ∃ ks m m', dget o.1 targets = Some ks ∧ k ∈ ks ∧ dget o.1 (sm_l1 c) = Some m ∧ dget o.1 (sm_l1 c') = Some m' ∧
    svc_reserved _L1_WRITE_TAG (svc_now m + svc_write_ttl m) k o.2 m' ∧ svc_owner_of o.2 m' = Some o.1.

Lemma reserve_write_calls keys lay targets c :
  sm_ok c → NoDup keys → layout_ok lay → NoDup (dkeys targets) → placed keys targets (sm_l1 c) →
  ∃ acc c', h_fold (λ acc p,
      let^ r := l1_call p.1 (svc_reserve_write p.2 (replicate (length p.2) false) lay _L1_WRITE_TAG) in
      h_ret (dict_update acc (tagged p.1 r))) [] targets c = (Ret acc, c') ∧
    sm_ok c' ∧ framed c c' ∧
    ∀ k, k ∈ keys → (∃ o, dget k acc = Some (SUCCESS, Some o) ∧ write_granted targets k o c c') ∨
                    (∃ e, e ≠ SUCCESS ∧ dget k acc = Some (e, None)).
Proof.
  intros Hok Hn Hlay Ht [Hreg Hp]. destruct (placement_groups keys targets Hn Ht Hp) as (Hd & Hnd & Hin).
  set (call := λ ks : list ObjectKey, svc_reserve_write ks (replicate (length ks) false) lay _L1_WRITE_TAG).
  assert (∀ a ks, dget a targets = Some ks → ∃ m, dget a (sm_l1 c) = Some m ∧ svc_ok m ∧ svc_id m = a ∧ NoDup ks) as Hm.
  { intros a ks Ea. assert (a ∈ dkeys (sm_l1 c)) as [m Em]%dget_is_Some by (apply Hreg, dget_is_Some; by eexists).
    exists m. destruct (proj2 Hok a m Em). split_and!; [done..|]. by eapply Hnd. }
  assert (∀ ks m, svc_ok m → NoDup ks → ∃ r m', call ks m = (Ret r, m') ∧ svc_ok m' ∧ svc_id m' = svc_id m ∧ answers_for ks r ∧ ∀ k, k ∈ ks →
    (∃ i, dget k r = Some (SUCCESS, Some i) ∧ svc_reserved _L1_WRITE_TAG (svc_now m + svc_write_ttl m) k i m' ∧
          svc_owner_of i m' = Some (svc_id m)) ∨ (∃ e, e ≠ SUCCESS ∧ dget k r = Some (e, None))) as Hcall.
  { intros ks m Hm1 Hks. apply svc_reserve_write_ok; [done|done|by rewrite length_replicate|done]. }
  destruct (fold_calls call tagged dkeys_tagged targets [] c Ht Hd) as (acc & c' & E & Hrt).
  { intros a ks Ea. destruct (Hm a ks Ea) as (m & Em & Hm1 & _ & Hks). destruct (Hcall ks m Hm1 Hks) as (r & m' & E & _ & _ & Hr & _).
    by exists m, r, m'. }
  exists acc, c'. split_and!; [exact E| |apply Hrt|].
  - eapply routed_ok; [|exact Hok|exact Hrt]. intros a ks m Ea Em. destruct (Hm a ks Ea) as (m0 & Em0 & Hm1 & _ & Hks).
    rewrite Em in Em0. injection Em0 as <-. destruct (Hcall ks m Hm1 Hks) as (r & m' & E' & ? & ? & _). by rewrite E'.
  - intros k Hk. apply Hin in Hk as (a & ks & Ea & Hk). destruct (Hm a ks Ea) as (m & Em & Hm1 & Hid & Hks).
    destruct (Hcall ks m Hm1 Hks) as (r & m' & E' & _ & _ & _ & Hres).
    rewrite (rt_result _ _ _ _ _ _ _ Hrt a ks m r m' k Ea Em E' Hk), dget_tagged.
    destruct (Hres k Hk) as [(i & Ei & Hi & Ho)|(e & He & Ee)]; [left|right; exists e; by rewrite Ee].
    exists (a, i). rewrite Ei. split; [done|]. exists ks, m, m'. cbn [fst snd]. split_and!; [done|done|done| |done|congruence].
    by rewrite (rt_state _ _ _ _ _ _ _ Hrt), Ea, Em; cbn; rewrite E'.
Qed.

Lemma reserve_write_run keys lay targets c :
  sm_ok c → NoDup keys → layout_ok lay → select_write_targets keys (sm_l1 c) (sm_policy c) = Ret targets →
  NoDup (dkeys targets) → placed keys targets (sm_l1 c) →
  ∃ result c', reserve_write keys lay c = (Ret result, c') ∧ sm_ok c' ∧ dkeys (sm_l1 c') = dkeys (sm_l1 c) ∧
    NoDup (dkeys result) ∧ (∀ k, k ∈ dkeys result → k ∈ keys) ∧ (∀ k o, dget k result = Some o → write_granted targets k o c c').
Proof.
  intros Hok Hn Hlay Et Ht Hpl. destruct (reserve_write_calls keys lay targets c Hok Hn Hlay Ht Hpl) as (acc & c1 & E & Hok1 & Hfr & Hacc).
  set (f := λ k, default (KEY_NOT_EXIST, None) (dget k acc)).
  assert (index_all acc keys = Ret ((λ k, (k, f k)) <$> keys)) as Ei.
  { apply index_all_ok. intros k Hk. unfold f. destruct (Hacc k Hk) as [(o & -> & _)|(e & _ & ->)]; done. }
  destruct (granted_acc f keys []) as [Hnd Hget]; [done|].
  destruct (validate_spec keys targets (sm_l1 c)) as [[_ Ev]|[? _]]; [|done].
  assert (∃ c', reserve_write keys lay c = (Ret (granted_objects ((λ k, (k, f k)) <$> keys)), c') ∧ sm_l1 c' = sm_l1 c1) as (c' & Er & El).
  { unfold reserve_write, h_bind at 1, h_get. unfold h_bind at 1, h_lift. rewrite Et. unfold h_bind at 1. rewrite Ev.
    unfold h_bind at 1. rewrite E. unfold h_bind at 1. rewrite Ei. unfold h_bind, publish, h_modify.
    unfold publish_some. destruct ((filter _ _).*1); eexists; by split. }
  exists (granted_objects ((λ k, (k, f k)) <$> keys)), c'. split_and!; [exact Er| | |exact Hnd| |].
  - unfold sm_ok. by rewrite El.
  - rewrite El. apply Hfr.
  - intros k [o Eo]%dget_is_Some. unfold granted_objects in Eo. rewrite Hget in Eo. by case_decide.
  - intros k o Eo. unfold granted_objects in Eo. rewrite Hget in Eo. case_decide as Hk; [|done]. unfold f in Eo.
    unfold write_granted. rewrite El. destruct (Hacc k Hk) as [(o' & Eo' & Hg)|(e & _ & Ee)]; [|by rewrite Ee in Eo].
    rewrite Eo' in Eo. cbn in Eo. by simplify_eq.
Qed.

Lemma owners_of_run objects owners c :
  NoDup (dkeys objects) → (∀ k o, dget k objects = Some o → get_l1_manager c o = Some o.1) →
  ∃ owners', owners_of_loop c objects owners = Ret owners' ∧
    ∀ k, dget k owners' = match dget k objects with Some o => Some o.1 | None => dget k owners end.
Proof.
  revert owners. induction objects as [|[k o] objects IH]; intros owners Hn Ho; [by exists owners|]. apply NoDup_cons in Hn as [Hk Hn].
  cbn [owners_of_loop]. rewrite (Ho k o) by (cbn; by rewrite decide_True). destruct (IH (dset k o.1 owners) Hn) as (owners' & E & Hg).
  - intros x ox Ex. apply (Ho x). cbn. rewrite decide_False; [done|]. intros ->. apply Hk, dget_is_Some. by eexists.
  - exists owners'. split; [exact E|]. intros x. rewrite Hg. cbn [dget]. rewrite dget_dset. case_decide as Hx; [|done]. subst x.
    by rewrite (proj2 (dget_None _ _) Hk).
Qed.

Lemma finish_write_run keys owners c :
  sm_ok c → NoDup keys → owned owners keys c →
  ∃ c', finish_write keys owners c = (Ret tt, c') ∧ sm_ok c' ∧
    ∀ k a m i t, k ∈ keys → dget k owners = Some a → dget a (sm_l1 c) = Some m → svc_reserved _L1_WRITE_TAG t k i m →
      ∃ m', dget a (sm_l1 c') = Some m' ∧ (svc_now m' < t → svc_resident k i m').
Proof.
  intros Hok Hn Ho. destruct (group_by_owner_ok keys owners c Ho) as (groups & Eg & Hg).
  assert (∀ a ks, dget a groups = Some ks → NoDup ks ∧ ∃ m, dget a (sm_l1 c) = Some m ∧ svc_ok m) as Hm.
  { intros a ks Ea. destruct (proj2 (dget_is_Some _ _) (grouped_owner _ _ _ _ _ _ Hg Ho Ea)) as [m Em].
    split; [destruct (grouped_get _ _ _ _ _ Hg Ea) as [-> _]; by apply NoDup_filter|]. exists m. split; [done|]. by apply (proj2 Hok a m Em). }
  destruct (fold_calls (λ ks, svc_finish_write ks _L1_WRITE_TAG) (λ _ r, r) (λ _ _, eq_refl) groups [] c) as (res & c' & E & Hrt).
  - apply Hg.
  - by eapply grouped_disjoint.
  - intros a ks Ea. destruct (Hm a ks Ea) as (Hks & m & Em & Hm1).
    destruct (svc_finish_write_ok ks _L1_WRITE_TAG m Hm1 Hks) as (r & m' & E & _ & _ & Hr & _). by exists m, r, m'.
  - exists (mkSM (sm_l1 c') (sm_policy c') (sm_events c' ++ [SM_WRITE_FINISHED (succeeded_keys res) (failed_keys res)])).
    split; [|split; [|cbn [sm_l1]]].
    + unfold finish_write, h_bind at 1, h_get. unfold h_bind at 1, h_lift. rewrite Eg. unfold h_bind at 1. by rewrite E.
    + change (sm_ok c'). eapply routed_ok; [|exact Hok|exact Hrt]. intros a ks m Ea Em. destruct (Hm a ks Ea) as (Hks & m0 & Em0 & Hm1).
      rewrite Em in Em0. injection Em0 as <-. destruct (svc_finish_write_ok ks _L1_WRITE_TAG m Hm1 Hks) as (r & m' & E' & ? & ? & _). by rewrite E'.
    + intros k a m i t Hk Eka Em Hres. destruct (grouped_elem _ _ _ _ _ Hg Hk Eka) as (ks & Ea & Hks).
      destruct (Hm a ks Ea) as (Hnd & m0 & Em0 & Hm1). rewrite Em in Em0. injection Em0 as <-.
      destruct (svc_finish_write_ok ks _L1_WRITE_TAG m Hm1 Hnd) as (r & m' & E' & _ & _ & _ & Hfin). exists m'. split.
      * rewrite (rt_state _ _ _ _ _ _ _ Hrt), Ea, Em. cbn. by rewrite E'.
      * intros Ht. by apply (Hfin k i t).
Qed.

(** ** Reads *)

Lemma dict_tabulated {V} (d : dict ObjectKey V) keys (g : ObjectKey → V) :
  NoDup keys → dkeys d = keys → (∀ k, k ∈ keys → dget k d = Some (g k)) → d = (λ k, (k, g k)) <$> keys.
Proof.
  revert d. induction keys as [|k keys IH]; intros [|[k' v] d] Hn Ek Hg; try done. apply NoDup_cons in Hn as [Hk Hn].
  unfold dkeys in Ek. cbn in Ek. injection Ek as -> Ek. cbn [fmap list_fmap].
  pose proof (Hg k ltac:(left)) as Ev. cbn in Ev. rewrite decide_True in Ev by done. injection Ev as ->. f_equal. apply IH; [done|done|].
  intros x Hx. specialize (Hg x ltac:(by right)). cbn in Hg. rewrite decide_False in Hg; [done|]. by intros ->.
Qed.

(** The object a read of [k] returns, when reads answer [f]. *)
Definition object_of (f : Z → ObjectKey → L1OperationResult) (owners : dict ObjectKey Z) (k : ObjectKey) : option mem_obj :=
  a ← dget k owners; i ← (f a k).2; Some (a, i).

Definition readable f owners (keys : list ObjectKey) : list ObjectKey := filter (λ k, is_Some (object_of f owners k)) keys.

Lemma good_items_run f owners keys :
  let g := λ k, ((default (KEY_NOT_EXIST, None) (a ← dget k owners; Some (f a k))).1, object_of f owners k) in
  let r := (λ k, (k, g k)) <$> keys in
  (good_items r).*1 = readable f owners keys ∧ (good_items r).*2 = omap (object_of f owners) keys ∧
  (bad_keys r = [] ↔ readable f owners keys = keys).
Proof.
  intros g r. unfold good_items, bad_keys, readable, r. induction keys as [|k keys (IH1 & IH2 & IH3)]; [done|].
  rewrite fmap_cons, !filter_cons. cbn [omap list_omap fst snd g].
  destruct (object_of f owners k) as [o|] eqn:Eo; cbn [fmap option_fmap option_map list_fmap fst snd].
  - rewrite decide_True by (by eexists). rewrite decide_False by done. rewrite IH1, IH2, IH3. split_and!; [done|done|].
    split; [by intros ->|by intros [=]].
  - rewrite decide_False by (by intros [? ?]). rewrite decide_True by done. split_and!; [done|done|]. cbn. split; [done|].
    intros E. exfalso. assert (length (filter (λ k, is_Some (object_of f owners k)) keys) ≤ length keys)%nat as Hl by apply length_filter.
    rewrite E in Hl. cbn in Hl. lia.
Qed.

Lemma read_prefetched_enter {X} n f keys owners (body : option (list mem_obj) → handler SM X) c :
  sm_ok c → steady (λ _, length keys + n)%nat f c → NoDup keys → owned owners keys c →
  ∃ c1 bad, sm_ok c1 ∧ steady (λ _, n) f c1 ∧ dkeys (sm_l1 c1) = dkeys (sm_l1 c) ∧
    read_prefetched_results keys (Some owners) body c
    = let good := readable f owners keys in
      let all_good := bool_decide (good = keys) in
      let give_back := let^ _ := _finish_read_objects good 1 (Some owners) in publish (SM_READ_PREFETCHED_FINISHED good bad) in
      match body (if all_good then Some (omap (object_of f owners) keys) else None) c1 with
      | (Ret x, c2) => if all_good then (Ret x, c2) else (let^ _ := give_back in h_ret x) c2
      | (Raise e, c2) => (let^ _ := give_back in h_raise e) c2
      end.
Proof.
  intros Hok Hst Hn Ho. destruct (read_owned n f keys owners c Hok Hst Hn Ho) as (res & c' & E & (Hok' & Hst' & (Ek & _)) & Edk & Hres).
  set (g := λ k, ((default (KEY_NOT_EXIST, None) (a ← dget k owners; Some (f a k))).1, object_of f owners k)).
  assert (res = (λ k, (k, g k)) <$> keys) as ->.
  { apply dict_tabulated; [done|done|]. intros k Hk. destruct (Ho k Hk) as (a & Ea & _). rewrite (Hres k a Hk Ea). unfold g, object_of. rewrite Ea.
    cbn. by destruct (f a k) as [e [i|]]. }
  set (r := (λ k, (k, g k)) <$> keys) in *.
  assert ((good_items r).*1 = readable f owners keys ∧ (good_items r).*2 = omap (object_of f owners) keys ∧
    (bad_keys r = [] ↔ readable f owners keys = keys)) as (E1 & E2 & E3) by apply good_items_run.
  assert (∃ c1, (let^ _ := publish_some (L1_READ_FAILED "not_found") (bad_keys_with KEY_NOT_EXIST r) in
    publish_some (L1_READ_FAILED "write_locked") (bad_keys_with KEY_NOT_READABLE r)) c' = (Ret tt, c1) ∧ sm_l1 c1 = sm_l1 c') as (c1 & Ep & El).
  { unfold publish_some. destruct (bad_keys_with KEY_NOT_EXIST r), (bad_keys_with KEY_NOT_READABLE r); eexists; by split. }
  exists c1, (bad_keys r). split_and!; [unfold sm_ok; by rewrite El|unfold steady; by rewrite El|by rewrite El|].
  unfold read_prefetched_results. unfold h_bind at 1. rewrite E. cbv zeta. rewrite E1, E2.
  assert (match bad_keys r with [] => true | _ => false end = bool_decide (readable f owners keys = keys)) as ->.
  { symmetry. destruct (bad_keys r) as [|b l]; [apply bool_decide_eq_true_2; by apply E3|].
    apply bool_decide_eq_false_2. intros Hall. by apply E3 in Hall. }
  unfold h_bind in Ep. destruct (publish_some (L1_READ_FAILED "not_found") (bad_keys_with KEY_NOT_EXIST r) c') as [[[]|] c0] eqn:E0; [|done].
  unfold h_bind at 1. rewrite E0. unfold h_bind at 1. rewrite Ep. done.
Qed.

(** ** Theorems *)

(** C25: what is written through the storage manager becomes readable where it was
    placed. For any placement of distinct keys that puts each of them once on
    registered L1 managers, [reserve_write] returns; the objects it grants name
    the manager that the policy chose, so that [l1_owners_of] and a
    [finish_write] that follows directly route each key back there; and if the
    manager's clock has then not passed the reservation's time to live, the
    granted object is the resident object of its key. (For what other calls may
    do in between to one manager, see [l1_write_then_read].) *)
Theorem sm_write_roundtrip keys lay targets c :
  sm_ok c → NoDup keys → layout_ok lay → select_write_targets keys (sm_l1 c) (sm_policy c) = Ret targets →
  NoDup (dkeys targets) → placed keys targets (sm_l1 c) →
  ∃ result c1 owners c2,
    reserve_write keys lay c = (Ret result, c1) ∧ l1_owners_of result c1 = Ret owners ∧
    finish_write (dkeys result) owners c1 = (Ret tt, c2) ∧ sm_ok c2 ∧
    ∀ k a i, dget k result = Some (a, i) →
      dget k owners = Some a ∧ (∃ ks, dget a targets = Some ks ∧ k ∈ ks) ∧
      ∃ m m2, dget a (sm_l1 c) = Some m ∧ dget a (sm_l1 c2) = Some m2 ∧
        (svc_now m2 < svc_now m + svc_write_ttl m → svc_resident k i m2).
Proof.
  intros Hok Hn Hlay Et Ht Hpl.
  destruct (reserve_write_run keys lay targets c Hok Hn Hlay Et Ht Hpl) as (result & c1 & E1 & Hok1 & Ek1 & Hnd & _ & Hgr).
  destruct (owners_of_run result [] c1 Hnd) as (owners & Eo & Hown).
  { intros k o Eo. destruct (Hgr k o Eo) as (ks & m & m' & _ & _ & _ & Em' & _ & Hi). unfold get_l1_manager. by rewrite Em'. }
  destruct (finish_write_run (dkeys result) owners c1 Hok1 Hnd) as (c2 & E2 & Hok2 & Hfin).
  { intros k [o Ek]%dget_is_Some. exists o.1. rewrite Hown, Ek. split; [done|]. destruct (Hgr k o Ek) as (ks & m & m' & _ & _ & _ & Em' & _).
    apply dget_is_Some. by eexists. }
  exists result, c1, owners, c2. split_and!; [done|done|done|done|]. intros k a i Ek.
  destruct (Hgr k (a, i) Ek) as (ks & m & m1 & Ea & Hks & Em & Em1 & Hres & _). cbn [fst snd] in *.
  assert (dget k owners = Some a) as Eka by (by rewrite Hown, Ek). split_and!; [done|by exists ks|].
  destruct (Hfin k a m1 i _ ltac:(apply dget_is_Some; by eexists) Eka Em1 Hres) as (m2 & Em2 & Hr). by exists m, m2.
Qed.

(** A placement that leaves out a key, repeats one or names an unknown L1
    manager is refused with a [ValueError] before any L1 is touched, and so is
    the end of a write whose owners miss a key or name an unknown manager. *)
Theorem sm_bad_placement_refused keys lay c :
  (∀ targets, select_write_targets keys (sm_l1 c) (sm_policy c) = Ret targets → ¬ placed keys targets (sm_l1 c) →
     reserve_write keys lay c = (Raise ValueError, c)) ∧
  (∀ owners k, k ∈ keys → (∀ a, dget k owners = Some a → a ∉ dkeys (sm_l1 c)) → finish_write keys owners c = (Raise ValueError, c)).
Proof.
  split.
  - intros targets Et Hpl. unfold reserve_write, h_bind at 1, h_get. unfold h_bind at 1, h_lift. rewrite Et. unfold h_bind at 1.
    destruct (validate_spec keys targets (sm_l1 c)) as [[? _]|[_ ->]]; done.
  - intros owners k Hk Hbad. unfold finish_write, h_bind at 1, h_get. unfold h_bind at 1, h_lift, _group_by_owner.
    by rewrite (group_loop_bad owners keys [] c k).
Qed.

(** C26: reading prefetched objects, with an owner given for each of the distinct
    keys. When the next reads of the managers, as many as there are keys, answer
    [f] - that is, while no read lock expires during the call - the body of
    [read_prefetched_results] gets the objects of all keys, in request order,
    if every one is readable, and [None] otherwise. When it got objects and
    returns, no lock is given back; otherwise each owner is given back one
    read lock on exactly its readable keys, in one call, after the body, and
    the body's result or exception is passed on. *)
Theorem sm_read_prefetched {X} n f keys owners (body : option (list mem_obj) → handler SM X) c :
  sm_ok c → steady (λ _, length keys + n)%nat f c → NoDup keys → owned owners keys c →
  (∀ objs c0, sm_ok c0 → sm_ok (body objs c0).2 ∧ dkeys (sm_l1 (body objs c0).2) = dkeys (sm_l1 c0)) →
  let good := readable f owners keys in
  let objs := if decide (good = keys) then Some (omap (object_of f owners) keys) else None in
  ∃ c1 c3, sm_ok c1 ∧ steady (λ _, n) f c1 ∧ read_prefetched_results keys (Some owners) body c = ((body objs c1).1, c3) ∧
    let c2 := (body objs c1).2 in
    match objs, (body objs c1).1 with
    | Some _, Ret _ => c3 = c2
    | _, _ => ∀ a, dget a (sm_l1 c3) = match group_of owners a good with
                                       | [] => dget a (sm_l1 c2)
                                       | ks => (λ m, (svc_finish_read ks 1 m).2) <$> dget a (sm_l1 c2)
                                       end
    end.
Proof.
  intros Hok Hst Hn Ho Hbody good objs.
  destruct (read_prefetched_enter n f keys owners body c Hok Hst Hn Ho) as (c1 & bad & Hok1 & Hst1 & Ek1 & E). cbv zeta in E. fold good in E.
  assert ((if bool_decide (good = keys) then Some (omap (object_of f owners) keys) else None) = objs) as Eobjs.
  { unfold objs. case_bool_decide; by case_decide. }
  rewrite Eobjs in E. clearbody objs. destruct (Hbody objs c1 Hok1) as [Hok2 Ek2].
  assert (owned owners good (body objs c1).2) as Ho2.
  { intros k [_ Hk]%list_elem_of_filter. rewrite Ek2, Ek1. by apply Ho. }
  destruct (release_owned good 1 owners (body objs c1).2 Hok2 Ho2) as (res & c3 & E3 & _ & _ & Hs3).
  set (c4 := mkSM (sm_l1 c3) (sm_policy c3) (sm_events c3 ++ [SM_READ_PREFETCHED_FINISHED good bad])).
  destruct (body objs c1) as [[x|e] c2] eqn:Eb; cbn [fst snd] in *.
  - case_bool_decide as Hall; subst objs.
    + exists c1, c2. rewrite Eb, E. by split_and!.
    + exists c1, c4. rewrite Eb. split_and!; [done|done| |exact Hs3]. rewrite E. unfold h_bind at 1 2. by rewrite E3.
  - exists c1, c4. split_and!; [done|done| |].
    + rewrite Eb, E. unfold h_bind at 1 2. by rewrite E3.
    + case_bool_decide; subst objs; rewrite Eb; exact Hs3.
Qed.

(** The managers that hold [k] read-locked are [owner] alone, or none. *)
Definition held_only_by (f : Z → ObjectKey → L1OperationResult) (managers : list Z) (k : ObjectKey) (owner : option Z) : Prop :=
  ∀ a, a ∈ managers → (f a k).1 = SUCCESS ↔ owner = Some a.

Lemma only_holder_first f managers k owner :
  held_only_by f managers k owner → (∀ a, owner = Some a → a ∈ managers) → first_holder f managers k = owner.
Proof.
  intros Ho Hin. destruct (first_holder f managers k) as [a|] eqn:E.
  - apply first_holder_registered in E as [Ha Hs]. symmetry. by apply (Ho a Ha).
  - destruct owner as [a|]; [|done]. exfalso. specialize (Hin a eq_refl). pose proof (proj2 (Ho a Hin) eq_refl) as Hs. clear Ho.
    induction managers as [|b managers IH]; [by apply elem_of_nil in Hin|]. cbn in E. case_decide as Hb; [done|].
    apply elem_of_cons in Hin as [->|Hin]; [done|by apply IH].
Qed.

(** C33: reads without owners. On several L1 managers, while no read lock expires
    during the two calls (the next reads of each manager, as many as two for
    each of the distinct keys, answer [f]), a read probes the managers in
    placement order and returns each key's object from the first manager that
    holds it read-locked (KEY_NOT_READABLE if some manager holds it unlocked,
    KEY_NOT_EXIST else), and the keys are grouped for giving the locks back by
    that same manager. If a key is read-locked in at most one L1, which is what
    the code requires of its callers for this, then that is its owner: the
    groups are those of the owners, and a read with the owners given returns the
    same. *)
Theorem sm_probe_equals_owners f keys c :
  sm_ok c → steady (λ _, length keys + length keys)%nat f c → NoDup keys → length (sm_l1 c) ≠ 1%nat →
  let ids := dkeys (sm_l1 c) in
  ∃ results c1 groups c2,
    _read_objects keys None c = (Ret results, c1) ∧ dkeys results = keys ∧
    (∀ k, k ∈ keys → dget k results = probed f ids k (Some (KEY_NOT_EXIST, None))) ∧
    _read_groups keys None c1 = (Ret groups, c2) ∧ NoDup (dkeys groups) ∧
    (∀ a, dget a groups = match filter (λ k, first_holder f ids k = Some a) keys with [] => None | l => Some l end) ∧
    ∀ owners, (∀ k, k ∈ keys → held_only_by f ids k (dget k owners) ∧ ∀ a, dget k owners = Some a → a ∈ ids) →
      grouped owners keys groups ∧
      ((∀ k, k ∈ keys → is_Some (dget k owners)) → ∃ c1', _read_objects keys (Some owners) c = (Ret results, c1')).
Proof.
  intros Hok Hst Hn Hlen ids.
  destruct (probe_objects_ok (λ _, length keys + length keys)%nat f ids keys (missing (KEY_NOT_EXIST, None) keys) c Hok Hst)
    as (res & c1 & E1 & (Hok1 & Hst1 & (Ek & _)) & Edk & Hres); [intros; lia|apply Hok|done|done|by rewrite dkeys_missing|].
  rewrite dkeys_missing in Edk by done.
  assert (∀ k, k ∈ keys → dget k res = probed f ids k (Some (KEY_NOT_EXIST, None))) as Hres'.
  { intros k Hk. rewrite Hres, decide_True, dget_missing, decide_True by done. done. }
  destruct (probe_groups_ok _ f ids keys [] c1 Hok1 Hst1) as (groups & c2 & E2 & _ & Hgn & Hg).
  { intros a Ha. unfold spent. rewrite decide_True by done. lia. }
  { apply Hok. } { intros a Ha. rewrite Ek. split; [done|by intros ?%elem_of_nil]. } { constructor. }
  exists res, c1, groups, c2. split_and!; [|done|done| |done|done|].
  - unfold _read_objects, h_bind at 1, h_get. by rewrite (proj2 (Nat.eqb_neq _ _) Hlen).
  - unfold _read_groups, h_bind at 1, h_get. rewrite Ek. fold ids. destruct ids as [|a [|b l]] eqn:Ei; [exact E2| |exact E2].
    unfold ids, dkeys in Ei. apply (f_equal length) in Ei. rewrite length_fmap in Ei. done.
  - intros owners Howners. assert (∀ k, k ∈ keys → dget k owners = first_holder f ids k) as Hown.
    { intros k Hk. destruct (Howners k Hk) as [Ho Hin]. symmetry. by apply only_holder_first. }
    split.
    + split; [done|]. intros a. rewrite Hg. cbn [dget]. unfold group_of.
      rewrite (filter_agree (λ k, dget k owners = Some a) (λ k, first_holder f ids k = Some a)); [by destruct (filter _ keys)|].
      intros k Hk. by rewrite (Hown k Hk).
    + intros Hall. assert (owned owners keys c) as Ho by (intros k Hk; destruct (Hall k Hk) as [a Ea]; exists a; split; [done|by apply (proj2 (Howners k Hk))]).
      destruct (read_owned (length keys) f keys owners c Hok Hst Hn Ho) as (res' & c1' & E' & _ & Edk' & Hres2). exists c1'. rewrite E'. f_equal. f_equal.
      assert (∀ k, k ∈ keys → ∃ v, dget k res' = Some v ∧ dget k res = Some v) as Hsame.
      { intros k Hk. destruct (Hall k Hk) as [a Ea]. rewrite (Hres2 k a Hk Ea), (Hres' k Hk). unfold probed. rewrite <-(Hown k Hk), Ea.
        rewrite (Hown k Hk) in Ea. apply first_holder_registered in Ea as [_ Es]. rewrite Es. by eexists. }
      set (g := λ k, default (KEY_NOT_EXIST, None) (dget k res)).
      rewrite (dict_tabulated res keys g Hn Edk), (dict_tabulated res' keys g Hn Edk'); [done| |]; intros k Hk; unfold g;
        destruct (Hsame k Hk) as (v & E1' & E2'); by rewrite ?E1', ?E2'.
Qed.

(** Deletion from all L1 managers. [delete_l1_keys] returns how many of the
    distinct keys it deleted and how many it skipped: the deleted keys were in
    some manager and are in none afterwards; a skipped key is still in a manager
    (where it is in use), which happens without force only; no other key was in
    any manager. *)
Theorem sm_delete_counts keys force c :
  sm_ok c → NoDup keys →
  ∃ deleted skipped c', delete_l1_keys keys force c = (Ret (length deleted, length skipped), c') ∧ sm_ok c' ∧
    NoDup (deleted ++ skipped) ∧
    (∀ k, k ∈ deleted → k ∈ keys ∧ (∃ a m, dget a (sm_l1 c) = Some m ∧ svc_has k m) ∧ ∀ a m, dget a (sm_l1 c') = Some m → ¬ svc_has k m) ∧
    (∀ k, k ∈ skipped → k ∈ keys ∧ force = false ∧ ∃ a m, dget a (sm_l1 c') = Some m ∧ svc_has k m) ∧
    (∀ k, k ∈ keys → k ∉ deleted → k ∉ skipped → ∀ a m, dget a (sm_l1 c) = Some m → ¬ svc_has k m).
Proof.
  intros Hok Hn. destruct (delete_managers keys force [] (dkeys (sm_l1 c)) [] c c) as (res & c' & E & [Hok' (Ek & _) _ Hnd Hks Hkey]).
  { done. } { done. } { apply Hok. } { done. }
  { split; try done; [constructor|by intros k ?%elem_of_nil|]. intros k _ a m ?%elem_of_nil. done. }
  cbn [app] in Hkey. set (chosen := λ e : L1Error, (filter (λ p : ObjectKey * L1Error, p.2 = e) res).*1).
  assert (∀ e k, k ∈ chosen e ↔ dget k res = Some e) as Hch.
  { intros e k. unfold chosen. rewrite list_elem_of_fmap. split.
    - intros ([k' e'] & -> & [Ee Hin]%list_elem_of_filter). cbn in Ee. subst e'. by apply elem_dget.
    - intros Hd. exists (k, e). split; [done|]. apply list_elem_of_filter. split; [done|by apply dget_Some_elem]. }
  assert (∀ e, NoDup (chosen e)) as Hcn.
  { intros e. unfold chosen. eapply sublist_NoDup; [exact Hnd|]. unfold dkeys. apply fmap_sublist, sublist_filter. }
  assert (∀ e, length (filter (λ x, x = e) (dvalues res)) = length (chosen e)) as Hlen.
  { intros e. unfold chosen, dvalues. rewrite length_fmap. clear. induction res as [|[k v] l IH]; [done|]. rewrite fmap_cons, !filter_cons. cbn [snd].
    case_decide; cbn; by rewrite IH. }
  assert (∀ a m, dget a (sm_l1 c) = Some m ∨ dget a (sm_l1 c') = Some m → a ∈ reverse (dkeys (sm_l1 c))) as Hall.
  { intros a m Hm. rewrite elem_of_reverse. destruct Hm as [Hm|Hm]; [|rewrite <-Ek]; apply dget_is_Some; by eexists. }
  exists (chosen SUCCESS), (chosen KEY_IS_LOCKED), c'. split_and!; [|done| | | |].
  - unfold delete_l1_keys, h_bind at 1, h_get. unfold h_bind at 1. rewrite E. unfold h_ret. by rewrite !Hlen.
  - apply NoDup_app. split_and!; [apply Hcn| |apply Hcn]. intros k E1%Hch E2%Hch. congruence.
  - intros k Hk%Hch. assert (k ∈ keys) as Hin by (apply Hks, dget_is_Some; by eexists). specialize (Hkey k Hin). rewrite Hk in Hkey.
    destruct Hkey as [Hh Hno]. split_and!; [done|done|]. intros a m Em. eapply Hno; [by eapply Hall; right|exact Em].
  - intros k Hk%Hch. assert (k ∈ keys) as Hin by (apply Hks, dget_is_Some; by eexists). specialize (Hkey k Hin). rewrite Hk in Hkey.
    destruct Hkey as (? & a & m & _ & ? & ?). split_and!; [done|done|by exists a, m].
  - intros k Hin H1 H2 a m Em. rewrite Hch in H1, H2. specialize (Hkey k Hin). destruct (dget k res) as [[]|]; try done.
    eapply Hkey; [by eapply Hall; left|by left].
Qed.
End storage.

(** ** Witnesses

    Two managers: the first, 7, holds the object of [demo_key] of [demo_state],
    read-locked twice; the second, 8, is empty. The clock advances with every
    reading, and the read locks hold for 20 seconds. *)

Definition other_key : ObjectKey := mkKey (mkIdentity [] 16777216 "m"%string 0 "u1"%string ∅).

#[local] Instance demo_service : L1Service (L1Instance L1MemoryManager unit) unit := BaseL1Manager_service demo_clock.
#[local] Instance demo_service_laws : L1ServiceLaws (L1Instance L1MemoryManager unit) unit :=
  BaseL1Manager_service_laws demo_clock demo_clock_mono.

Definition demo_locked : L1 L1MemoryManager := (reserve_read demo_clock [demo_key] 2 demo_state).2.
Definition demo_sm : StorageManager (L1Instance L1MemoryManager unit) DefaultWritePolicy :=
  mkSM [(7, mkInstance 7 tt 10 20 demo_locked); (8, mkInstance 8 tt 10 20 (l1_init demo_mm))] default_write [].

Lemma demo_sm_ok : sm_ok demo_sm.
Proof.
  split; [apply (bool_decide_unpack _); by vm_compute|]. intros a m. unfold demo_sm. cbn [sm_l1 dget].
  case_decide as H7; [intros <-%(inj Some); subst a|case_decide as H8; [intros <-%(inj Some); subst a|done]].
  - split; [|done]. split; [|cbn; lia]. pose proof (reserve_read_inv demo_clock 10 20 7 [demo_key] 2 demo_state demo_state_inv) as Hw.
    unfold wp in Hw. unfold demo_locked. cbn [in_write_ttl in_read_ttl in_id in_state].
    destruct (reserve_read demo_clock [demo_key] 2 demo_state) as [[r|e] s']; [exact Hw|destruct Hw].
  - split; [|done]. split; [|cbn; lia]. apply l1_init_inv. split; [|done]. apply demo_fresh_mm.
Qed.

Definition demo_entry : L1ObjectState :=
  default (mkEntry 0 (new_lock 0) (new_lock 0) false 0) (dget demo_key (l1_objects demo_locked)).

(** What reads of the two managers answer. *)
Definition demo_reads (a : Z) (k : ObjectKey) : L1OperationResult :=
  if decide (a = 7 ∧ k = demo_key) then (SUCCESS, Some 0%nat) else (KEY_NOT_EXIST, None).

Lemma demo_steady : steady (λ _, 4)%nat demo_reads demo_sm.
Proof.
  intros a m. unfold demo_sm. cbn [sm_l1 dget]. unfold demo_reads.
  case_decide as H7; [intros <-%(inj Some); subst a|case_decide as H8; [intros <-%(inj Some); subst a|done]]; intros k; cbn [in_state].
  - assert (l1_objects demo_locked = [(demo_key, demo_entry)]) as -> by (vm_compute; reflexivity). cbn [dget]. case_decide as Hk.
    + exists true. rewrite decide_True by done. split; [|vm_compute; reflexivity]. intros t [_ Ht]. apply is_locked_true.
      assert (counter (read_lock demo_entry) = 2) as Ec by (vm_compute; reflexivity).
      assert (expiration_ms (read_lock demo_entry) = 20003) as Ee by (vm_compute; reflexivity).
      assert (l1_tick demo_locked = 4%nat) as Et by (vm_compute; reflexivity).
      rewrite Ec, Ee. rewrite Et in Ht. unfold demo_clock. lia.
    + rewrite decide_False; [reflexivity|]. intros [_ ->]. done.
  - cbn [l1_init l1_objects dget]. by rewrite decide_False by (intros [? _]; done).
Qed.

Lemma sm_write_roundtrip_witness :
  ∃ result c1 owners c2, reserve_write [other_key] demo_layout demo_sm = (Ret result, c1) ∧
    finish_write (dkeys result) owners c1 = (Ret tt, c2) ∧ dget other_key result = Some (7, 1%nat) ∧ dget other_key owners = Some 7.
Proof.
  destruct (sm_write_roundtrip (IW := DefaultWritePolicy_policy _) [other_key] demo_layout [(7, [other_key])] demo_sm demo_sm_ok (NoDup_singleton _) demo_layout_ok eq_refl
    (NoDup_singleton _)) as (result & c1 & owners & c2 & E1 & Eo & E2 & _ & Hres).
  { split; [|reflexivity]. intros a ->%list_elem_of_singleton. left. }
  exists result, c1, owners, c2. assert (dget other_key result = Some (7, 1%nat)) as Er.
  { assert (match (reserve_write [other_key] demo_layout demo_sm).1 with Ret r => dget other_key r | Raise _ => None end = Some (7, 1%nat)) as Hv
      by (vm_compute; reflexivity). rewrite E1 in Hv. exact Hv. }
  split; [exact E1|]. split; [exact E2|]. split; [exact Er|]. exact (proj1 (Hres other_key 7 1%nat Er)).
Defined.

(** A policy that places nothing. *)
Inductive DropPolicy := drop_all.
#[local] Instance DropPolicy_policy S : WritePolicy DropPolicy S := {| select_write_targets := λ _ _ _, Ret [] |}.

Lemma sm_bad_placement_refused_witness :
  let c := mkSM (sm_l1 demo_sm) drop_all [] in
  reserve_write [demo_key] demo_layout c = (Raise ValueError, c) ∧ finish_write [demo_key] [(demo_key, 9)] c = (Raise ValueError, c).
Proof.
  intros c. destruct (sm_bad_placement_refused (IW := DropPolicy_policy _) [demo_key] demo_layout c) as [H1 H2]. split.
  - apply (H1 [] eq_refl). intros [_ Hp]. apply Permutation_length in Hp. discriminate Hp.
  - apply (H2 [(demo_key, 9)] demo_key); [left|]. intros a [= <-]. apply (bool_decide_unpack _). vm_compute. exact I.
Defined.

Lemma demo_owned : owned [(demo_key, 7)] [demo_key] demo_sm.
Proof. intros k ->%list_elem_of_singleton. exists 7. split; [reflexivity|]. left. Qed.

Lemma sm_read_prefetched_witness :
  ∃ c3, read_prefetched_results [demo_key] (Some [(demo_key, 7)]) (λ objs, h_ret objs) demo_sm = (Ret (Some [(7, 0%nat)]), c3) ∧
    (∃ c1, steady (λ _, 3)%nat demo_reads c1 ∧ c3 = c1).
Proof.
  destruct (sm_read_prefetched 3 demo_reads [demo_key] [(demo_key, 7)] (λ objs, h_ret objs) demo_sm demo_sm_ok demo_steady (NoDup_singleton _)
    demo_owned) as (c1 & c3 & _ & Hst & E & Hc).
  { intros objs c0 Hc0. split; [exact Hc0|reflexivity]. }
  cbn in E, Hc. exists c3. split; [exact E|]. exists c1. split; [exact Hst|exact Hc].
Defined.

Lemma sm_probe_equals_owners_witness :
  ∃ results c1 groups c2, _read_objects [demo_key; other_key] None demo_sm = (Ret results, c1) ∧
    dget demo_key results = Some (SUCCESS, Some (7, 0%nat)) ∧ dget other_key results = Some (KEY_NOT_EXIST, None) ∧
    _read_groups [demo_key; other_key] None c1 = (Ret groups, c2) ∧ dget 7 groups = Some [demo_key] ∧ grouped [(demo_key, 7)] [demo_key; other_key] groups.
Proof.
  destruct (sm_probe_equals_owners demo_reads [demo_key; other_key] demo_sm demo_sm_ok demo_steady)
    as (results & c1 & groups & c2 & E1 & _ & Hres & E2 & _ & Hg & Ho).
  { apply (bool_decide_unpack _). vm_compute. exact I. }
  { discriminate. }
  exists results, c1, groups, c2. split; [exact E1|]. rewrite !Hres by (apply (bool_decide_unpack _); vm_compute; exact I).
  split; [vm_compute; reflexivity|]. split; [vm_compute; reflexivity|]. split; [exact E2|]. split; [rewrite Hg; vm_compute; reflexivity|].
  apply Ho. intros k [->| ->%list_elem_of_singleton]%elem_of_cons; split.
  - intros a [->|[->|[]%elem_of_nil]%elem_of_cons]%elem_of_cons; vm_compute; split; (reflexivity || discriminate).
  - intros a [= <-]. left.
  - intros a [->|[->|[]%elem_of_nil]%elem_of_cons]%elem_of_cons; vm_compute; split; (reflexivity || discriminate).
  - intros a E. vm_compute in E. discriminate E.
Defined.

Lemma sm_delete_counts_witness :
  ∃ (deleted skipped : list ObjectKey) c', delete_l1_keys [demo_key] false demo_sm = (Ret (length deleted, length skipped), c') ∧ deleted = [] ∧ skipped = [demo_key].
Proof.
  destruct (sm_delete_counts [demo_key] false demo_sm demo_sm_ok (NoDup_singleton _)) as (deleted & skipped & c' & E & _ & Hnd & _ & Hs & _).
  exists deleted, skipped, c'. split; [exact E|].
  assert ((delete_l1_keys [demo_key] false demo_sm).1 = Ret (0%nat, 1%nat)) as Hv by (vm_compute; reflexivity). rewrite E in Hv. cbn [fst] in Hv.
  destruct deleted as [|d l]; [|discriminate Hv]. destruct skipped as [|k [|k' l']]; [discriminate Hv| |discriminate Hv].
  split; [reflexivity|]. destruct (Hs k (list_elem_of_here _ _)) as [Hk _]. apply list_elem_of_singleton in Hk. by rewrite Hk.
Defined.
