(* ===== verification/TokenHasher.v ===== *)
(** * Token buffers, chunk hashes and sessions

    The names under which a request's chunks are cached:
    - lmcache/v1/multiprocess/token_codec.py, the packed form of a token
      sequence (big-endian 32-bit words);
    - lmcache/v1/multiprocess/token_hasher.py, the rolling prefix hash that names
      a chunk by its tokens and everything before them, over token lists and
      over packed buffers, and the polynomial hashes of windows of tokens;
    - lmcache/v1/multiprocess/session.py, which caches the hashes of a request.

    [blake3] and the hash functions of the inference engine are parameters. A
    hash value is [bytes] or an [int]. Whether the machine is little-endian is
    a parameter too; arrays of native words are modelled by their bytes. *)

From stdpp Require Import gmap list strings.
From Stdlib Require Import ZArith Lia.
From Stdlib.Strings Require Import Byte.
From S2P Require Import Prelude Keys Handler.

Open Scope Z_scope.
Open Scope py_scope.
Open Scope handler_scope.

(** ** Packed token ids *)

Definition TOKEN_STRIDE : Z := 4.

Definition byte_of (z : Z) : byte := default x00 (Byte.of_N (Z.to_N (z mod 256))).
Definition of_byte (b : byte) : Z := Z.of_N (Byte.to_N b).

(** The [n] bytes of an unsigned integer, most significant first, and back. *)
Fixpoint be_bytes (n : nat) (z : Z) : list byte :=
  match n with O => [] | S n' => be_bytes n' (z / 256) ++ [byte_of z] end.
Definition be_value (bs : list byte) : Z := foldl (λ acc b, acc * 256 + of_byte b) 0 bs.

(** A native 4-byte word in memory. *)
Definition native_word (little : bool) (z : Z) : list byte := (if little then reverse else id) (be_bytes 4 z).
Definition native_value (little : bool) (w : list byte) : Z := be_value ((if little then reverse else id) w).
Definition byteswap (words : list (list byte)) : list (list byte) := reverse <$> words.

Definition fits_u32 (t : Z) : bool := (0 <=? t) && (t <? 2 ^ 32).

(** [little] is [_SWAP]; [array.array("I", ...)] refuses what is no [uint32]. *)
Definition pack_token_ids (little : bool) (token_ids : list Z) : py (list byte) :=
  if negb (forallb fits_u32 token_ids) then Raise OverflowError
  else
    let words := native_word little <$> token_ids in
    let words := if little then byteswap words else words in
    Ret (mjoin words).

Definition num_packed_tokens (packed : list byte) : Z := Z.of_nat (length packed) / TOKEN_STRIDE.

(** [words.frombytes(packed)]. *)
Fixpoint frombytes (packed : list byte) : list (list byte) :=
  match packed with
  | a :: b :: c :: d :: rest => [a; b; c; d] :: frombytes rest
  | _ => []
  end.

Definition unpack_token_ids (little : bool) (packed : list byte) : py (list Z) :=
  if negb (Z.of_nat (length packed) mod TOKEN_STRIDE =? 0) then Raise ValueError
  else
    let words := frombytes packed in
    let words := if little then byteswap words else words in
    Ret (native_value little <$> words).

(** ** Chunk hashes *)

Inductive hash_value := HBytes (b : list byte) | HInt (n : Z).

(** [n.to_bytes(8, byteorder="big", signed=True)]. *)
Definition to_bytes8 (n : Z) : py (list byte) :=
  if (- 2 ^ 63 <=? n) && (n <? 2 ^ 63) then Ret (be_bytes 8 (n mod 2 ^ 64)) else Raise OverflowError.

Definition hash_to_bytes (hash_val : hash_value) : py (list byte) :=
  match hash_val with HBytes b => Ret b | HInt n => to_bytes8 n end.

(** [x[start:stop]] for indices that are not negative. *)
Definition slice {X} (start stop : Z) (l : list X) : list X := take (Z.to_nat (stop - start)) (drop (Z.to_nat start) l).

Record TokenHasher := mkHasher {
  chunk_size : Z;
  hash_algorithm_name : string;
  none_hash : hash_value
}.

Section hasher.
Context (little : bool) (blake3 : list byte → list byte) (engine_hash : hash_value → list Z → hash_value).

(** [_make_blake3_packed_hash_func]: the digest of all updates in a row. *)
Definition blake3_packed_hash (chunk : list byte) (prefix_hash : hash_value) : py hash_value :=
  let! prefix := hash_to_bytes prefix_hash in Ret (HBytes (blake3 (prefix ++ chunk))).

Definition is_blake3 (hash_algorithm : string) : bool := (hash_algorithm =? "blake3")%string.

Definition hash_func (hash_algorithm : string) (prefix_hash : hash_value) (tokens : list Z) : py hash_value :=
  if is_blake3 hash_algorithm
  then let! packed := pack_token_ids little tokens in blake3_packed_hash packed prefix_hash
  else Ret (engine_hash prefix_hash tokens).

(** [_init_none_hash]: [engine_none] is the engine's [NONE_HASH], if it has
    one. *)
Definition _init_none_hash (hash_algorithm : string) (engine_none : option hash_value) : py hash_value :=
  match engine_none with
  | Some none_hash => if is_blake3 hash_algorithm then hash_func hash_algorithm (HInt 0) [0] else Ret none_hash
  | None => hash_func hash_algorithm (HInt 0) [0]
  end.

Definition new_hasher (chunk_size : Z) (hash_algorithm : string) (engine_none : option hash_value) : py TokenHasher :=
  let! none_hash := _init_none_hash hash_algorithm engine_none in Ret (mkHasher chunk_size hash_algorithm none_hash).

Implicit Types (h : TokenHasher).

Definition hash_tokens h (tokens : list Z) (prefix_hash : option hash_value) : py hash_value :=
  hash_func (hash_algorithm_name h) (default (none_hash h) prefix_hash) tokens.

Definition _hash_by_unpacking h (chunk : list byte) (prefix_hash : hash_value) : py hash_value :=
  let! tokens := unpack_token_ids little chunk in hash_tokens h tokens (Some prefix_hash).

Definition hash_packed_chunk h (chunk : list byte) (prefix_hash : option hash_value) : py hash_value :=
  let prefix_hash := default (none_hash h) prefix_hash in
  if is_blake3 (hash_algorithm_name h) then blake3_packed_hash chunk prefix_hash
  else _hash_by_unpacking h chunk prefix_hash.

(** The loop over [range(0, num_complete, chunk_size)]; [hash_at i] hashes the
    chunk at [i]. *)
Fixpoint hash_chunks (hash_at : Z → hash_value → py hash_value) (start : Z) (indices : list Z) (prefix_hash : hash_value)
    (hashes : list (list byte)) : py (list (list byte)) :=
  match indices with
  | [] => Ret hashes
  | i :: indices' =>
      let! prefix_hash := hash_at i prefix_hash in
      if start <=? i
      then let! b := hash_to_bytes prefix_hash in hash_chunks hash_at start indices' prefix_hash (hashes ++ [b])
      else hash_chunks hash_at start indices' prefix_hash hashes
  end.

(** [range(0, num_complete, chunk_size)], where [num_complete] is what of
    [num_tokens] tokens, cut at [end], fills whole chunks. *)
Definition chunk_starts (chunk_size num_tokens : Z) (stop : option Z) : list Z :=
  let effective_len := match stop with Some e => Z.min num_tokens e | None => num_tokens end in
  let num_complete := effective_len - effective_len mod chunk_size in
  (λ n : nat, Z.of_nat n * chunk_size) <$> seq 0 (Z.to_nat (num_complete / chunk_size)).

Definition compute_packed_chunk_hashes h (packed : list byte) (prefix_hash : option hash_value) (start : Z) (stop : option Z) : py (list (list byte)) :=
  if chunk_size h =? 0 then Raise ZeroDivisionError
  else
    let stride := chunk_size h * TOKEN_STRIDE in
    hash_chunks (λ i prefix, hash_packed_chunk h (slice (i * TOKEN_STRIDE) (i * TOKEN_STRIDE + stride) packed) (Some prefix))
      start (chunk_starts (chunk_size h) (num_packed_tokens packed) stop) (default (none_hash h) prefix_hash) [].

Definition compute_chunk_hashes h (token_ids : list Z) (prefix_hash : option hash_value) (start : Z) (stop : option Z) : py (list (list byte)) :=
  if chunk_size h =? 0 then Raise ZeroDivisionError
  else
    hash_chunks (λ i prefix, hash_tokens h (slice i (i + chunk_size h) token_ids) (Some prefix))
      start (chunk_starts (chunk_size h) (Z.of_nat (length token_ids)) stop) (default (none_hash h) prefix_hash) [].

(** ** Sessions

    [request_id], [created_at] and [extras] are read by the session manager
    only. *)
Record Session := mkSession {
  request_id : string;
  ses_tokens : list byte;
  chunk_hashes : list hash_value;
  last_prefix_hash : option hash_value;
  num_chunks_processed : Z;
  created_at : Z;
  lookup_ipc_key : option IPCCacheServerKey;
  prefetch_hit_chunks : Z;
  prefetch_locked_gids : list Z;
  _prefetch_owners : dict ObjectKey Z
}.

Definition new_session (request_id : string) (now : Z) : Session := mkSession request_id [] [] None 0 now None (-1) [] [].

Definition set_tokens (packed_token_ids : list byte) (s : Session) : Session :=
  mkSession (request_id s) packed_token_ids (chunk_hashes s) (last_prefix_hash s) (num_chunks_processed s) (created_at s)
    (lookup_ipc_key s) (prefetch_hit_chunks s) (prefetch_locked_gids s) (_prefetch_owners s).

(** One turn of the loop of [_compute_hash]. *)
Definition compute_one h : handler Session unit := λ s,
  let stride := chunk_size h * TOKEN_STRIDE in
  let cs := num_chunks_processed s * stride in
  match hash_packed_chunk h (slice cs (cs + stride) (ses_tokens s)) (Some (default (none_hash h) (last_prefix_hash s))) with
  | Raise e => (Raise e, s)
  | Ret hash => (Ret tt, mkSession (request_id s) (ses_tokens s) (chunk_hashes s ++ [hash]) (Some hash)
                           (num_chunks_processed s + 1) (created_at s) (lookup_ipc_key s) (prefetch_hit_chunks s)
                           (prefetch_locked_gids s) (_prefetch_owners s))
  end.

(** [while self.num_chunks_processed < end_chunk]: every turn counts one up. *)
Definition _compute_hash h (end_chunk : Z) : handler Session unit := λ s,
  h_iter (λ _, compute_one h) (seq 0 (Z.to_nat (end_chunk - num_chunks_processed s))) s.

Definition get_hashes h (start : Z) (stop : option Z) : handler Session (list hash_value) :=
  if chunk_size h =? 0 then h_raise ZeroDivisionError
  else if negb (start mod chunk_size h =? 0) then h_raise AssertionError
  else
    let start_chunk := start / chunk_size h in
    let^ s := h_get in
    let held := num_packed_tokens (ses_tokens s) in
    if match stop with Some e => held <? e | None => false end then h_raise ValueError
    else
      let stop := default (held - held mod chunk_size h) stop in
      if negb (stop mod chunk_size h =? 0) then h_raise AssertionError
      else
        let end_chunk := stop / chunk_size h in
        let^ _ := _compute_hash h end_chunk in
        let^ s := h_get in
        h_ret (slice start_chunk end_chunk (chunk_hashes s)).

Definition begin_lookup (key : IPCCacheServerKey) (s : Session) : Session :=
  mkSession (request_id s) (ses_tokens s) (chunk_hashes s) (last_prefix_hash s) (num_chunks_processed s) (created_at s)
    (Some key) (-1) [] [].

Definition record_prefetch_result (hit_chunks : Z) (locked_gids : list Z) (l1_owners : option (dict ObjectKey Z)) (s : Session)
    : Session :=
  mkSession (request_id s) (ses_tokens s) (chunk_hashes s) (last_prefix_hash s) (num_chunks_processed s) (created_at s)
    (lookup_ipc_key s) hit_chunks locked_gids (default [] l1_owners).

Definition get_prefetch_owners (s : Session) : dict ObjectKey Z := _prefetch_owners s.

(** ** Polynomial hashes of windows

    Arithmetic of [uint64] wraps. *)

Definition u64 (z : Z) : Z := z mod 2 ^ 64.

(** [for x in window: h = h * base + x]. *)
Definition window_hash (base : Z) (h : Z) (window : list Z) : Z := foldl (λ (h x : Z), u64 (u64 (h * base) + x)) h window.

(** The loop of the rolling hash: [olds] and [news] are [arr[0:]] and
    [arr[k:]]. *)
Fixpoint roll (base power : Z) (h : Z) (olds news : list Z) : list Z :=
  match olds, news with
  | old :: olds', new :: news' =>
      let h := u64 (h - u64 (old * power)) in
      let h := u64 (u64 (h * base) + new) in
      h :: roll base power h olds' news'
  | _, _ => []
  end.

(** [np.empty] refuses a negative length. *)
Definition rolling_hash_windows (arr : list Z) (k : nat) (base : Z) : py (list Z) :=
  if (length arr <? k)%nat then Raise ValueError
  else
    let power := foldl (λ power _, u64 (power * base)) 1 (seq 0 (k - 1)) in
    let h := window_hash base 0 (take k arr) in
    Ret (h :: roll base power h arr (drop k arr)).

Definition chunk_hash_windows (arr : list Z) (k : nat) (base : Z) : list Z :=
  (λ w, window_hash base 0 (take k (drop (w * k) arr))) <$> seq 0 (length arr / k).

(** ** Packing *)

Lemma of_byte_of z : of_byte (byte_of z) = z mod 256.
Proof.
  unfold byte_of, of_byte. pose proof (Z.mod_pos_bound z 256 ltac:(lia)) as Hb.
  destruct (Byte.of_N (Z.to_N (z mod 256))) as [b|] eqn:E.
  - apply Byte.to_of_N in E. cbn. rewrite E. lia.
  - apply Byte.of_N_None_iff in E. lia.
Qed.

Lemma be_value_app bs b : be_value (bs ++ [b]) = be_value bs * 256 + of_byte b.
Proof. unfold be_value. by rewrite foldl_app. Qed.

Lemma be_value_bytes n z : be_value (be_bytes n z) = z mod 256 ^ Z.of_nat n.
Proof.
  revert z. induction n as [|n IH]; intros z; [cbn; by rewrite Z.mod_1_r|]. cbn [be_bytes].
  rewrite be_value_app, IH, of_byte_of, Nat2Z.inj_succ, Z.pow_succ_r by lia.
  rewrite (Z.rem_mul_r z 256 (256 ^ Z.of_nat n)) by lia. lia.
Qed.

Lemma length_be_bytes n z : length (be_bytes n z) = n.
Proof. revert z. induction n as [|n IH]; intros z; [done|]. cbn. rewrite length_app, IH. cbn. lia. Qed.

(** The packed form of tokens. *)
Definition be_words (token_ids : list Z) : list byte := token_ids ≫= be_bytes 4.

Lemma length_be_words ts : length (be_words ts) = (4 * length ts)%nat.
Proof. unfold be_words. induction ts as [|t ts IH]; [done|]. rewrite bind_cons, length_app, length_be_bytes, IH. cbn. lia. Qed.

Lemma pack_token_ids_words ts : forallb fits_u32 ts = true → pack_token_ids little ts = Ret (be_words ts).
Proof.
  intros Hf. unfold pack_token_ids. rewrite Hf. cbn [negb]. f_equal. unfold be_words, byteswap, native_word. clear Hf.
  destruct little; induction ts as [|t ts IH]; try done; cbn [fmap list_fmap mjoin list_join mbind list_bind] in *; rewrite ?reverse_involutive; by f_equal.
Qed.

Lemma pack_token_ids_Ret ts packed : pack_token_ids little ts = Ret packed → forallb fits_u32 ts = true ∧ packed = be_words ts.
Proof.
  intros Hp. destruct (forallb fits_u32 ts) eqn:Hf.
  - split; [done|]. rewrite pack_token_ids_words in Hp by done. by injection Hp as <-.
  - unfold pack_token_ids in Hp. by rewrite Hf in Hp.
Qed.

Lemma be_bytes_4 z : ∃ a b c d, be_bytes 4 z = [a; b; c; d].
Proof. by do 4 eexists. Qed.

Lemma frombytes_words ts : frombytes (be_words ts) = be_bytes 4 <$> ts.
Proof.
  unfold be_words. induction ts as [|t ts IH]; [done|]. rewrite bind_cons. destruct (be_bytes_4 t) as (a & b & c & d & E).
  rewrite E. cbn [app frombytes]. rewrite IH, fmap_cons. by rewrite E.
Qed.

Lemma fits_u32_mod t : fits_u32 t = true → t mod 256 ^ Z.of_nat 4 = t.
Proof. unfold fits_u32. intros [H1 H2]%andb_true_iff. apply Z.mod_small. lia. Qed.

Lemma unpack_words ts : forallb fits_u32 ts = true → unpack_token_ids little (be_words ts) = Ret ts.
Proof.
  intros Hf. unfold unpack_token_ids, TOKEN_STRIDE. rewrite length_be_words.
  replace (Z.of_nat (4 * length ts) mod 4 =? 0) with true
    by (symmetry; apply Z.eqb_eq; rewrite Nat2Z.inj_mul; apply Z.mod_divide; [lia|]; by exists (Z.of_nat (length ts)); lia).
  cbn [negb]. rewrite frombytes_words. f_equal. unfold byteswap, native_value. clear -Hf.
  induction ts as [|t ts IH]; [by destruct little|]. cbn [forallb] in Hf. apply andb_true_iff in Hf as [Ht Hts].
  destruct little; cbn [fmap list_fmap] in *; rewrite ?reverse_involutive; unfold id; rewrite be_value_bytes, fits_u32_mod by done; f_equal; auto.
Qed.

Lemma drop_be_words n ts : drop (4 * n) (be_words ts) = be_words (drop n ts).
Proof.
  revert ts. induction n as [|n IH]; intros ts; [done|]. destruct ts as [|t ts]; [by rewrite drop_nil|].
  replace (4 * S n)%nat with (4 + 4 * n)%nat by lia. unfold be_words. rewrite bind_cons. cbn [drop].
  destruct (be_bytes_4 t) as (a & b & c & d & ->). cbn [app drop Nat.add]. apply IH.
Qed.
Lemma take_be_words n ts : take (4 * n) (be_words ts) = be_words (take n ts).
Proof.
  revert ts. induction n as [|n IH]; intros ts; [done|]. destruct ts as [|t ts]; [by rewrite take_nil|].
  replace (4 * S n)%nat with (4 + 4 * n)%nat by lia. unfold be_words. rewrite bind_cons. cbn [take].
  rewrite bind_cons. destruct (be_bytes_4 t) as (a & b & c & d & ->). cbn [app take Nat.add]. do 4 f_equal. apply IH.
Qed.

(** Slicing the buffer at word boundaries slices the tokens. *)
Lemma slice_be_words i n ts :
  0 <= i → 0 <= n → slice (i * TOKEN_STRIDE) (i * TOKEN_STRIDE + n * TOKEN_STRIDE) (be_words ts) = be_words (slice i (i + n) ts).
Proof.
  intros Hi Hn. unfold slice, TOKEN_STRIDE. replace (Z.to_nat (i * 4)) with (4 * Z.to_nat i)%nat by lia.
  replace (Z.to_nat (i * 4 + n * 4 - i * 4)) with (4 * Z.to_nat (i + n - i))%nat by lia. by rewrite drop_be_words, take_be_words.
Qed.

Lemma fits_slice i j ts : forallb fits_u32 ts = true → forallb fits_u32 (slice i j ts) = true.
Proof.
  rewrite !forallb_forall. intros Hf x Hx%list_elem_of_In. apply Hf, list_elem_of_In. unfold slice in Hx.
  by apply subseteq_take, subseteq_drop in Hx.
Qed.

Lemma num_packed_words ts : num_packed_tokens (be_words ts) = Z.of_nat (length ts).
Proof. unfold num_packed_tokens, TOKEN_STRIDE. rewrite length_be_words, Nat2Z.inj_mul, Z.mul_comm. by rewrite Z.div_mul. Qed.

(** ** Chains of prefix hashes *)

(** The hashes of the chunks at [indices], each chained to the one before. *)
Fixpoint chain (hash_at : Z → hash_value → py hash_value) (prefix : hash_value) (indices : list Z) : py (list hash_value) :=
  match indices with
  | [] => Ret []
  | i :: indices' => let! hash := hash_at i prefix in let! hashes := chain hash_at hash indices' in Ret (hash :: hashes)
  end.

Lemma chain_ext f g prefix indices : (∀ i v, i ∈ indices → f i v = g i v) → chain f prefix indices = chain g prefix indices.
Proof.
  revert prefix. induction indices as [|i l IH]; intros prefix Hf; [done|]. cbn. rewrite Hf by left.
  destruct (g i prefix); [|done]. cbn. rewrite IH; [done|]. intros j v Hj. apply Hf. by right.
Qed.
Lemma hash_chunks_ext f g start indices prefix acc :
  (∀ i v, i ∈ indices → f i v = g i v) → hash_chunks f start indices prefix acc = hash_chunks g start indices prefix acc.
Proof.
  revert prefix acc. induction indices as [|i l IH]; intros prefix acc Hf; [done|]. cbn. rewrite Hf by left.
  assert (∀ j v, j ∈ l → f j v = g j v) as Hl by (intros j v Hj; apply Hf; by right).
  destruct (g i prefix) as [v|]; [|done]. cbn. destruct (start <=? i); [|by apply IH]. destruct (hash_to_bytes v); [|done]. cbn. by apply IH.
Qed.

Lemma length_chain f prefix indices hashes : chain f prefix indices = Ret hashes → length hashes = length indices.
Proof.
  revert prefix hashes. induction indices as [|i l IH]; intros prefix hashes; cbn; [by intros [= <-]|].
  destruct (f i prefix) as [v|]; [|done]. cbn. destruct (chain f v l) as [vs|] eqn:E; [|done]. intros [= <-]. cbn. f_equal. by eapply IH.
Qed.

Lemma chain_take n f prefix indices hashes :
  chain f prefix indices = Ret hashes → chain f prefix (take n indices) = Ret (take n hashes).
Proof.
  revert n prefix hashes. induction indices as [|i l IH]; intros n prefix hashes; cbn.
  { intros [= <-]. by rewrite !take_nil. }
  destruct (f i prefix) as [v|] eqn:Ev; [|done]. cbn. destruct (chain f v l) as [vs|] eqn:E; [|done]. intros [= <-].
  destruct n as [|n]; [done|]. cbn. rewrite Ev. cbn. by rewrite (IH n v vs E).
Qed.

(** One more link. *)
Lemma chain_snoc f prefix indices i :
  chain f prefix (indices ++ [i]) =
  (let! hashes := chain f prefix indices in let! hash := f i (default prefix (last hashes)) in Ret (hashes ++ [hash])).
Proof.
  revert prefix. induction indices as [|j l IH]; intros prefix; [done|]. cbn. destruct (f j prefix) as [v|]; [|done]. cbn.
  rewrite IH. destruct (chain f v l) as [vs|]; [|done]. cbn.
  assert (default v (last vs) = default prefix (last (v :: vs))) as -> by (rewrite last_cons; by destruct (last vs)).
  by destruct (f i _).
Qed.

Lemma chain_of_hashes f start indices prefix acc bytes :
  hash_chunks f start indices prefix acc = Ret bytes → ∃ hashes, chain f prefix indices = Ret hashes.
Proof.
  revert prefix acc. induction indices as [|i l IH]; intros prefix acc; cbn; [by eauto|].
  destruct (f i prefix) as [v|]; [|done]. cbn. intros Hh.
  assert (∃ hashes, chain f v l = Ret hashes) as [vs ->]; [|by eexists]. destruct (start <=? i); [|by eapply IH].
  destruct (hash_to_bytes v); [|done]. by eapply IH.
Qed.

(** The positions of chunks [a], [a + 1], ... *)
Definition positions (cs : Z) (a n : nat) : list Z := (λ n : nat, Z.of_nat n * cs) <$> seq a n.

Lemma py_map_cons {X Y} (f : X → py Y) x l : py_map f (x :: l) = (let! y := f x in let! ys := py_map f l in Ret (y :: ys)).
Proof. done. Qed.
Lemma py_bind_assoc {X Y Z'} (c : py X) (k : X → py Y) (k' : Y → py Z') : py_bind (py_bind c k) k' = py_bind c (λ x, py_bind (k x) k').
Proof. by destruct c. Qed.

(** The loop returns the bytes of the hashes from chunk [s] on. *)
Lemma hash_chunks_chain f cs s a n prefix acc hashes :
  0 < cs → chain f prefix (positions cs a n) = Ret hashes →
  hash_chunks f (Z.of_nat s * cs) (positions cs a n) prefix acc =
  (let! bytes := py_map hash_to_bytes (drop (s - a) hashes) in Ret (acc ++ bytes)).
Proof.
  intros Hcs. revert a prefix acc hashes. induction n as [|n IH]; intros a prefix acc hashes; cbn.
  { intros [= <-]. rewrite drop_nil. cbn. by rewrite app_nil_r. }
  unfold positions in *. destruct (f (Z.of_nat a * cs) prefix) as [v|]; [|done]. cbn [py_bind].
  destruct (chain f v _) as [vs|] eqn:E; [|done]. cbn [py_bind]. intros [= <-].
  destruct (Z.leb_spec (Z.of_nat s * cs) (Z.of_nat a * cs)) as [Hle|Hlt].
  - assert (s ≤ a)%nat as Hsa by nia. replace (s - a)%nat with 0%nat by lia. rewrite drop_0, py_map_cons.
    destruct (hash_to_bytes v) as [b|]; [|done]. cbn [py_bind]. rewrite (IH _ _ _ _ E). replace (s - S a)%nat with 0%nat by lia.
    rewrite drop_0, py_bind_assoc. destruct (py_map hash_to_bytes vs); [|done]. cbn. by rewrite <-app_assoc.
  - assert (a < s)%nat as Hsa by nia. rewrite (IH _ _ _ _ E). replace (s - a)%nat with (S (s - S a)) by lia. done.
Qed.

Lemma chunk_starts_full cs n stop :
  0 < cs → 0 <= n → chunk_starts cs n stop =
  positions cs 0 (Z.to_nat (match stop with Some e => Z.min n e | None => n end / cs)).
Proof.
  intros Hcs Hn. unfold chunk_starts, positions. do 2 f_equal. set (e := match stop with Some e => _ | None => _ end). clearbody e.
  rewrite (Z.div_mod e cs) at 1 by lia. replace (cs * (e / cs) + e mod cs - e mod cs) with ((e / cs) * cs) by lia. by rewrite Z.div_mul by lia.
Qed.

Lemma chain_link f prefix indices hashes n hash :
  chain f prefix indices = Ret hashes → hashes !! n = Some hash →
  ∃ i before, indices !! n = Some i ∧ f i before = Ret hash ∧ match n with O => before = prefix | S m => hashes !! m = Some before end.
Proof.
  revert prefix hashes n. induction indices as [|i l IH]; intros prefix hashes n; cbn; [by intros [= <-]|].
  destruct (f i prefix) as [v|] eqn:Ev; [|done]. cbn. destruct (chain f v l) as [vs|] eqn:E; [|done]. intros [= <-].
  destruct n as [|n]; cbn; [intros [= ->]; by exists i, prefix|]. intros Hn.
  destruct (IH v vs n E Hn) as (j & before & Hj & Hf & Hb). exists j, before. split_and!; [done|done|]. destruct n; [by subst|done].
Qed.

Lemma positions_lookup cs a n k i : positions cs a n !! k = Some i → i = Z.of_nat (a + k) * cs ∧ (k < n)%nat.
Proof. unfold positions. rewrite list_lookup_fmap_Some. intros (j & -> & [-> ?]%lookup_seq). done. Qed.
Lemma elem_positions cs n i : i ∈ positions cs 0 n ↔ ∃ k, i = Z.of_nat k * cs ∧ (k < n)%nat.
Proof.
  unfold positions. rewrite list_elem_of_fmap. setoid_rewrite list_elem_of_In. setoid_rewrite in_seq.
  split; intros (k & -> & ?); exists k; (split; [done|]); lia.
Qed.
Lemma take_positions cs k n : (k ≤ n)%nat → take k (positions cs 0 n) = positions cs 0 k.
Proof. intros Hk. unfold positions. rewrite <-fmap_take, take_seq. by rewrite Nat.min_l. Qed.

Lemma slice_app {X} i n (l : list X) : 0 <= i → 0 <= n → take (Z.to_nat (i + n)) l = take (Z.to_nat i) l ++ slice i (i + n) l.
Proof.
  intros Hi Hn. unfold slice. rewrite Z2Nat.inj_add by lia. replace (Z.to_nat (i + n - i)) with (Z.to_nat n) by lia.
  by rewrite take_take_drop.
Qed.
Lemma slice_take {X} i j m (l : list X) : 0 <= i → j <= m → slice i j (take (Z.to_nat m) l) = slice i j l.
Proof.
  intros Hi Hj. unfold slice. rewrite skipn_firstn_comm, take_take. f_equal. lia.
Qed.
Lemma slice_chunk_agree {X} (l l' : list X) cs b k :
  0 < cs → take (Z.to_nat (Z.of_nat b * cs)) l' = take (Z.to_nat (Z.of_nat b * cs)) l → (k < b)%nat →
  slice (Z.of_nat k * cs) (Z.of_nat k * cs + cs) l' = slice (Z.of_nat k * cs) (Z.of_nat k * cs + cs) l.
Proof.
  intros Hcs E Hk. rewrite <-(slice_take _ _ (Z.of_nat b * cs) l'), <-(slice_take _ _ (Z.of_nat b * cs) l), E by nia. done.
Qed.

Lemma py_map_take_drop {X Y} (f : X → py Y) a b l r :
  py_map f l = Ret r → py_map f (drop a (take b l)) = Ret (drop a (take b r)).
Proof. rewrite !py_map_Ret. intros Hf. by apply Forall2_drop, Forall2_take. Qed.

(** ** The hasher *)

Lemma hash_packed_words h ts prefix :
  forallb fits_u32 ts = true → hash_packed_chunk h (be_words ts) prefix = hash_tokens h ts prefix.
Proof.
  intros Hf. unfold hash_packed_chunk, hash_tokens, hash_func, _hash_by_unpacking.
  rewrite (pack_token_ids_words ts Hf), (unpack_words ts Hf).
  cbn [py_bind]. unfold hash_tokens, hash_func. by destruct (is_blake3 _).
Qed.

(** The chunk hashes of a packed buffer are those of its tokens, whatever the
    algorithm, the range and the machine. *)
Theorem packed_hashes_agree h token_ids packed prefix_hash start stop :
  0 < chunk_size h → pack_token_ids little token_ids = Ret packed →
  compute_packed_chunk_hashes h packed prefix_hash start stop = compute_chunk_hashes h token_ids prefix_hash start stop.
Proof.
  intros Hcs [Hf ->]%pack_token_ids_Ret. unfold compute_packed_chunk_hashes, compute_chunk_hashes.
  rewrite num_packed_words. case_match; [done|]. apply hash_chunks_ext. intros i v Hi.
  rewrite chunk_starts_full in Hi by lia. apply elem_positions in Hi as (k & -> & _).
  rewrite slice_be_words by nia. by apply hash_packed_words, fits_slice.
Qed.

(** The rolling hashes of the first [n] chunks. *)
Definition names h (ts : list Z) (n : nat) : py (list hash_value) :=
  chain (λ i prefix, hash_tokens h (slice i (i + chunk_size h) ts) (Some prefix)) (none_hash h) (positions (chunk_size h) 0 n).

Lemma compute_names h ts (a b : nat) vs :
  0 < chunk_size h → Z.of_nat b * chunk_size h <= Z.of_nat (length ts) → names h ts b = Ret vs →
  compute_chunk_hashes h ts None (Z.of_nat a * chunk_size h) (Some (Z.of_nat b * chunk_size h)) = py_map hash_to_bytes (drop a vs).
Proof.
  intros Hcs Hb Hn. unfold compute_chunk_hashes. rewrite (proj2 (Z.eqb_neq _ _)) by lia.
  rewrite chunk_starts_full, Z.min_r, Z.div_mul, Nat2Z.id by lia. cbn [default].
  rewrite (hash_chunks_chain _ _ a 0 b _ [] vs Hcs Hn), Nat.sub_0_r. by destruct (py_map _ _).
Qed.

Lemma all_names h ts bytes :
  0 < chunk_size h → compute_chunk_hashes h ts None 0 None = Ret bytes →
  ∃ vs, names h ts (Z.to_nat (Z.of_nat (length ts) / chunk_size h)) = Ret vs ∧ py_map hash_to_bytes vs = Ret bytes.
Proof.
  intros Hcs. unfold compute_chunk_hashes. rewrite (proj2 (Z.eqb_neq _ _)) by lia.
  rewrite chunk_starts_full by lia. cbn [default id]. intros Hb. destruct (chain_of_hashes _ _ _ _ _ _ Hb) as [vs Hvs]. exists vs. split; [exact Hvs|].
  pose proof (hash_chunks_chain _ _ 0 0 _ _ [] vs Hcs Hvs) as E. change (Z.of_nat 0 * chunk_size h) with 0 in E.
  rewrite drop_0 in E. cbn [app] in E.
  rewrite Hb in E. destruct (py_map hash_to_bytes vs); [|done]. by injection E as ->.
Qed.

(** Names of the same chunks of sequences that agree that far are the same. *)
Lemma names_agree h ts ts' n b vs :
  0 < chunk_size h → (b ≤ n)%nat → names h ts n = Ret vs →
  take (Z.to_nat (Z.of_nat b * chunk_size h)) ts' = take (Z.to_nat (Z.of_nat b * chunk_size h)) ts → names h ts' b = Ret (take b vs).
Proof.
  intros Hcs Hb Hn E. unfold names in *. apply (chain_take b) in Hn. rewrite take_positions in Hn by done. rewrite <-Hn.
  apply chain_ext. intros i v (k & -> & Hk)%elem_positions. by rewrite (slice_chunk_agree ts ts' _ b k Hcs E Hk).
Qed.

(** A blake3 name is a digest. *)
Lemma named_bytes h ts vs n v b :
  is_blake3 (hash_algorithm_name h) = true → names h ts b = Ret vs → vs !! n = Some v → ∃ x, v = HBytes x.
Proof.
  intros Hb3 Hn Hv. destruct (chain_link _ _ _ _ _ _ Hn Hv) as (? & ? & _ & E & _).
  unfold hash_tokens, hash_func in E. rewrite Hb3 in E. destruct (pack_token_ids little _); [|done]. cbn [py_bind] in E.
  unfold blake3_packed_hash in E. destruct (hash_to_bytes _); [|done]. injection E as <-. by eexists.
Qed.

(** Equal names of the [n]-th chunks come from equal tokens, or collide. *)
Lemma names_injective h ts ts' b b' vs vs' n v :
  0 < chunk_size h → is_blake3 (hash_algorithm_name h) = true → forallb fits_u32 ts = true → forallb fits_u32 ts' = true →
  Z.of_nat b * chunk_size h <= Z.of_nat (length ts) → Z.of_nat b' * chunk_size h <= Z.of_nat (length ts') →
  names h ts b = Ret vs → names h ts' b' = Ret vs' → vs !! n = Some v → vs' !! n = Some v →
  take (Z.to_nat (Z.of_nat (S n) * chunk_size h)) ts = take (Z.to_nat (Z.of_nat (S n) * chunk_size h)) ts' ∨
  ∃ x y, x ≠ y ∧ blake3 x = blake3 y.
Proof.
  intros Hcs Hb3 Hf Hf' Hlen Hlen' Hn Hn'. revert v. induction n as [|n IH]; intros v Hv Hv'.
  all: destruct (chain_link _ _ _ _ _ _ Hn Hv) as (i & p & Hi & E & Hp), (chain_link _ _ _ _ _ _ Hn' Hv') as (i' & p' & Hi' & E' & Hp').
  all: apply positions_lookup in Hi as [-> Hb], Hi' as [-> Hb']; cbn [Nat.add] in *.
  all: unfold hash_tokens, hash_func in E, E'; rewrite Hb3 in E, E'.
  all: rewrite pack_token_ids_words in E, E' by (by apply fits_slice); unfold blake3_packed_hash in E, E'; cbn [default py_bind] in E, E'.
  all: set (w := slice _ _ ts) in *; set (w' := slice _ _ ts') in *.
  all: assert (length (be_words w) = length (be_words w')) as Hw by
    (rewrite !length_be_words; unfold w, w', slice; rewrite !length_take, !length_drop; nia).
  all: unfold id in E, E'; destruct (hash_to_bytes p) as [q|] eqn:Eq; [|done]; destruct (hash_to_bytes p') as [q'|] eqn:Eq'; [|done]; cbn [py_bind] in *.
  all: injection E as E; injection E' as E'; rewrite <-E' in E; injection E as E.
  all: destruct (decide (q ++ be_words w = q' ++ be_words w')) as [Ew|Ne]; [|right; by exists (q ++ be_words w), (q' ++ be_words w')].
  all: apply app_inj_2 in Ew as [-> Ew]; [|done].
  all: assert (w = w') as Eww by (pose proof (unpack_words w (fits_slice _ _ _ Hf)) as U;
    pose proof (unpack_words w' (fits_slice _ _ _ Hf')) as U'; rewrite Ew, U' in U; by injection U).
  - left. replace (Z.of_nat 1 * chunk_size h) with (0 + chunk_size h) by lia. rewrite !slice_app by lia. f_equal. exact Eww.
  - replace (Z.of_nat (S (S n)) * chunk_size h) with (Z.of_nat (S n) * chunk_size h + chunk_size h) by lia. rewrite !slice_app by nia.
    assert (p = p') as <-; [|destruct (IH p Hp Hp') as [IHe|?]; [left|by right]; rewrite IHe; f_equal; exact Eww].
    destruct (named_bytes h ts vs n p b Hb3 Hn Hp) as [x ->], (named_bytes h ts' vs' n p' b' Hb3 Hn' Hp') as [x' ->].
    cbn in Eq, Eq'. congruence.
Qed.

(** C27: a chunk's name stands for its tokens and all tokens before it. Hashing a
    range of chunks of a sequence gives the names that hashing another
    sequence as a whole gives those chunks, when the two agree up to the end
    of the range. Conversely, if two sequences have a chunk of the same name at
    the same place, then they agree up to the end of it, or two inputs with the
    same blake3 digest have been found. *)
Theorem chunk_names_prefix h ts ts' bytes :
  0 < chunk_size h → compute_chunk_hashes h ts None 0 None = Ret bytes →
  (∀ a b : nat, (a ≤ b ≤ length bytes)%nat → Z.of_nat b * chunk_size h <= Z.of_nat (length ts') →
     take (Z.to_nat (Z.of_nat b * chunk_size h)) ts' = take (Z.to_nat (Z.of_nat b * chunk_size h)) ts →
     compute_chunk_hashes h ts' None (Z.of_nat a * chunk_size h) (Some (Z.of_nat b * chunk_size h)) =
     Ret (slice (Z.of_nat a) (Z.of_nat b) bytes)) ∧
  (is_blake3 (hash_algorithm_name h) = true → forallb fits_u32 ts = true → forallb fits_u32 ts' = true →
     ∀ bytes' n name, compute_chunk_hashes h ts' None 0 None = Ret bytes' → bytes !! n = Some name → bytes' !! n = Some name →
     take (Z.to_nat (Z.of_nat (S n) * chunk_size h)) ts = take (Z.to_nat (Z.of_nat (S n) * chunk_size h)) ts' ∨
     ∃ x y, x ≠ y ∧ blake3 x = blake3 y).
Proof.
  intros Hcs Hbytes. destruct (all_names h ts bytes Hcs Hbytes) as (vs & Hvs & Hmap).
  assert (length bytes = length vs) as Hlen by (apply py_map_Ret, Forall2_length in Hmap; by symmetry).
  pose proof (length_chain _ _ _ _ Hvs) as Hl. unfold positions in Hl. rewrite length_fmap, length_seq in Hl. split.
  - intros a b [Ha Hb] Hlb E. rewrite (compute_names h ts' a b (take b vs) Hcs Hlb); [|by eapply names_agree; [| |exact Hvs|]; [|lia|]].
    rewrite (py_map_take_drop _ a b _ _ Hmap). unfold slice. rewrite skipn_firstn_comm.
    by rewrite <-Nat2Z.inj_sub, !Nat2Z.id by lia.
  - intros Hb3 Hf Hf' bytes' n name Hbytes' Hn Hn'. destruct (all_names h ts' bytes' Hcs Hbytes') as (vs' & Hvs' & Hmap').
    apply py_map_Ret in Hmap, Hmap'. destruct (Forall2_lookup_r _ _ _ _ _ Hmap Hn) as (v & Hv & Ev), (Forall2_lookup_r _ _ _ _ _ Hmap' Hn') as (v' & Hv' & Ev').
    destruct (named_bytes h ts vs n v _ Hb3 Hvs Hv) as [x Hx], (named_bytes h ts' vs' n v' _ Hb3 Hvs' Hv') as [x' Hx']. subst v v'.
    cbn in Ev, Ev'. injection Ev as ->; injection Ev' as ->.
    eapply (names_injective h ts ts' _ _ vs vs' n); try done; rewrite Z2Nat.id by (apply Z.div_pos; lia); rewrite Z.mul_comm; apply Z.mul_div_le; lia.
Qed.

(** *** Sessions *)

(** The hash of the chunk at [i] of a packed buffer, and of its first [n]
    chunks. *)
Definition hash_at h (packed : list byte) (i : Z) (prefix : hash_value) : py hash_value :=
  hash_packed_chunk h (slice (i * TOKEN_STRIDE) (i * TOKEN_STRIDE + chunk_size h * TOKEN_STRIDE) packed) (Some prefix).
Definition packed_names h (packed : list byte) (n : nat) : py (list hash_value) :=
  chain (hash_at h packed) (none_hash h) (positions (chunk_size h) 0 n).

Lemma packed_names_S h packed n :
  packed_names h packed (S n) =
  (let! vs := packed_names h packed n in
   let! v := hash_at h packed (Z.of_nat n * chunk_size h) (default (none_hash h) (last vs)) in Ret (vs ++ [v])).
Proof. unfold packed_names, positions. rewrite seq_S, fmap_app. cbn [fmap list_fmap Nat.add]. apply chain_snoc. Qed.

Lemma packed_range h packed (b : nat) bytes :
  0 < chunk_size h → Z.of_nat b * chunk_size h <= num_packed_tokens packed →
  compute_packed_chunk_hashes h packed None 0 (Some (Z.of_nat b * chunk_size h)) = Ret bytes →
  ∃ vs, packed_names h packed b = Ret vs ∧ py_map hash_to_bytes vs = Ret bytes.
Proof.
  intros Hcs Hb. unfold compute_packed_chunk_hashes. rewrite (proj2 (Z.eqb_neq _ _)) by lia.
  rewrite chunk_starts_full, Z.min_r, Z.div_mul, Nat2Z.id by lia. cbn [default]. intros Hh.
  destruct (chain_of_hashes _ _ _ _ _ _ Hh) as [vs Hvs]. exists vs. split; [exact Hvs|].
  pose proof (hash_chunks_chain _ _ 0 0 _ _ [] vs Hcs Hvs) as E. change (Z.of_nat 0 * chunk_size h) with 0 in E.
  rewrite Hh, drop_0 in E. destruct (py_map hash_to_bytes vs); [|done]. by injection E as ->.
Qed.

(** What a request can do to its session: its token buffer is a prefix of
    [full] at any time. *)
Inductive session_reach h (full : list byte) : Session → Prop :=
  | reach_new id now : session_reach h full (new_session id now)
  | reach_set packed s : packed `prefix_of` full → session_reach h full s → session_reach h full (set_tokens packed s)
  | reach_hashes start stop s : session_reach h full s → session_reach h full (get_hashes h start stop s).2
  | reach_lookup key s : session_reach h full s → session_reach h full (begin_lookup key s)
  | reach_result hits gids owners s : session_reach h full s → session_reach h full (record_prefetch_result hits gids owners s).

(** The cached hashes are those of [full]. *)
Record session_inv h (full : list byte) (s : Session) : Prop := {
  si_tokens : ses_tokens s `prefix_of` full;
  si_num : num_chunks_processed s = Z.of_nat (length (chunk_hashes s));
  si_last : last_prefix_hash s = last (chunk_hashes s);
  si_names : packed_names h full (length (chunk_hashes s)) = Ret (chunk_hashes s)
}.

Lemma slice_prefix {X} i j (l full : list X) : 0 <= i → j <= Z.of_nat (length l) → l `prefix_of` full → slice i j l = slice i j full.
Proof.
  intros Hi Hj [k ->]. rewrite <-(slice_take i j (Z.of_nat (length l)) (l ++ k)) by lia. by rewrite Nat2Z.id, take_app_length.
Qed.

(** A turn of the loop hashes the next chunk of [full]. *)
Lemma compute_one_run h full s :
  0 < chunk_size h → session_inv h full s → (num_chunks_processed s + 1) * chunk_size h * TOKEN_STRIDE <= Z.of_nat (length (ses_tokens s)) →
  match packed_names h full (S (length (chunk_hashes s))) with
  | Ret _ => ∃ s', compute_one h s = (Ret tt, s') ∧ session_inv h full s' ∧ ses_tokens s' = ses_tokens s ∧
                   num_chunks_processed s' = num_chunks_processed s + 1
  | Raise e => compute_one h s = (Raise e, s)
  end.
Proof.
  intros Hcs Hi Hlen. pose proof Hi as [Ht Hn Hl Hv]. rewrite packed_names_S, Hv. cbn [py_bind]. unfold compute_one, hash_at.
  rewrite Hn in Hlen |- *. rewrite (slice_prefix _ _ (ses_tokens s) full); [|unfold TOKEN_STRIDE; nia|unfold TOKEN_STRIDE in *; nia|done]. rewrite Hl, <-Z.mul_assoc.
  destruct (hash_packed_chunk h _ _) as [v|e] eqn:E; cbn [py_bind]; [|done]. eexists. split; [reflexivity|]. split_and!; [|done|done].
  split; cbn [ses_tokens num_chunks_processed last_prefix_hash chunk_hashes];
    [done|rewrite length_app; cbn; lia|by rewrite last_snoc|]. rewrite length_app, Nat.add_1_r, packed_names_S, Hv. cbn [py_bind].
  unfold hash_at. by rewrite <-Z.mul_assoc, E.
Qed.

Lemma packed_names_prefix h full n m vs : (n ≤ m)%nat → packed_names h full m = Ret vs → packed_names h full n = Ret (take n vs).
Proof. intros Hn Hm. apply (chain_take n) in Hm. by rewrite take_positions in Hm. Qed.

Lemma compute_loop_run h full l s :
  0 < chunk_size h → session_inv h full s →
  (num_chunks_processed s + Z.of_nat (length l)) * chunk_size h * TOKEN_STRIDE <= Z.of_nat (length (ses_tokens s)) ∨ l = [] →
  hwp (h_iter (λ _ : nat, compute_one h) l)
    (λ _ s', session_inv h full s' ∧ num_chunks_processed s' = num_chunks_processed s + Z.of_nat (length l))
    (λ s', session_inv h full s' ∧ ∀ vs, packed_names h full (length (chunk_hashes s) + length l) ≠ Ret vs) s.
Proof.
  intros Hcs. revert s. induction l as [|x l IH]; intros s Hi Hlen; [cbn; split; [done|lia]|]. destruct Hlen as [Hlen|?]; [|done].
  cbn [h_iter length] in *. unfold TOKEN_STRIDE in *. apply hwp_bind. pose proof (compute_one_run h full s Hcs Hi ltac:(unfold TOKEN_STRIDE; nia)) as Hone.
  destruct (packed_names h full (S _)) as [vs|e] eqn:Ep.
  - destruct Hone as (s1 & E1 & Hi1 & Et & En). unfold hwp at 1. rewrite E1. eapply hwp_mono; [apply (IH s1 Hi1); left; rewrite Et, En; nia| |].
    + intros [] s' [? ->]. split; [done|]. lia.
    + intros s' [? Hno]. split; [done|]. pose proof (si_num h full s Hi). pose proof (si_num h full s1 Hi1).
      by replace (length (chunk_hashes s) + S (length l))%nat with (length (chunk_hashes s1) + length l)%nat by lia.
  - unfold hwp at 1. rewrite Hone. split; [done|]. intros vs Hvs. apply (packed_names_prefix _ _ (S (length (chunk_hashes s)))) in Hvs; [|lia].
    by rewrite Ep in Hvs.
Qed.

Lemma held_words (tokens : list byte) cs n : n * cs <= num_packed_tokens tokens → n * cs * TOKEN_STRIDE <= Z.of_nat (length tokens).
Proof. unfold num_packed_tokens, TOKEN_STRIDE. pose proof (Z.mul_div_le (Z.of_nat (length tokens)) 4). lia. Qed.

Lemma num_packed_prefix (l full : list byte) : l `prefix_of` full → num_packed_tokens l <= num_packed_tokens full.
Proof. intros [k ->]. unfold num_packed_tokens, TOKEN_STRIDE. rewrite length_app. apply Z.div_le_mono; lia. Qed.

(** Every call of [get_hashes] keeps the invariant. *)
Lemma get_hashes_inv h full start stop s : 0 < chunk_size h → session_inv h full s → session_inv h full (get_hashes h start stop s).2.
Proof.
  intros Hcs Hi. unfold get_hashes. rewrite (proj2 (Z.eqb_neq _ _)) by lia.
  destruct (negb (start mod _ =? 0)); [done|]. unfold h_bind at 1, h_get at 1. set (held := num_packed_tokens _).
  destruct (match stop with Some e => held <? e | None => false end) eqn:Eh; [done|].
  set (e := default _ stop). destruct (negb (e mod _ =? 0)) eqn:Em; [done|]. unfold h_bind at 1, _compute_hash.
  assert (e <= held) as He.
  { unfold e. destruct stop as [e'|]; cbn; [lia|]. pose proof (Z.mod_pos_bound held (chunk_size h)). lia. }
  pose proof (compute_loop_run h full (seq 0 (Z.to_nat (e / chunk_size h - num_chunks_processed s))) s Hcs Hi) as Hw. unfold hwp in Hw.
  apply negb_false_iff, Z.eqb_eq in Em.
  destruct (h_iter _ _ s) as [[[]|x] s']; [|apply Hw]; [apply Hw|]; clear Hw.
  all: rewrite length_seq; destruct (decide (e / chunk_size h <= num_chunks_processed s)); [right; by replace (Z.to_nat _) with 0%nat by lia|left].
  all: rewrite Z2Nat.id by lia; apply held_words; pose proof (Z.div_mod e (chunk_size h)); unfold held in *; nia.
Qed.

Lemma session_reach_inv h full s : 0 < chunk_size h → session_reach h full s → session_inv h full s.
Proof.
  intros Hcs. induction 1 as [id now|packed s Hp _ [H1 H2 H3 H4]|start stop s _ IH|key s _ [H1 H2 H3 H4]|hits gids owners s _ [H1 H2 H3 H4]];
    [|by split|by apply get_hashes_inv|by split|by split].
  split; [apply prefix_nil|done|done|done].
Qed.

Lemma slice_nat {X} (a b : nat) (xs : list X) : (a ≤ b)%nat → slice (Z.of_nat a) (Z.of_nat b) xs = drop a (take b xs).
Proof. intros Hab. unfold slice. by rewrite skipn_firstn_comm, <-Nat2Z.inj_sub, !Nat2Z.id by lia. Qed.

Lemma get_hashes_run h full s (a b : nat) bytes :
  0 < chunk_size h → session_inv h full s → (a ≤ b)%nat → Z.of_nat b * chunk_size h <= num_packed_tokens (ses_tokens s) →
  compute_packed_chunk_hashes h full None 0 (Some (Z.of_nat b * chunk_size h)) = Ret bytes →
  ∃ vs s', get_hashes h (Z.of_nat a * chunk_size h) (Some (Z.of_nat b * chunk_size h)) s = (Ret vs, s') ∧ session_inv h full s' ∧
    py_map hash_to_bytes vs = Ret (slice (Z.of_nat a) (Z.of_nat b) bytes).
Proof.
  intros Hcs Hi Hab Hheld Hbytes. pose proof (num_packed_prefix _ _ (si_tokens h full s Hi)) as Hle.
  destruct (packed_range h full b bytes Hcs ltac:(lia) Hbytes) as (vs & Hvs & Hmap). unfold get_hashes.
  rewrite (proj2 (Z.eqb_neq (chunk_size h) 0)), Z.mod_mul by lia. cbn [Z.eqb negb]. unfold h_bind at 1, h_get at 1.
  rewrite (proj2 (Z.ltb_ge _ _) Hheld). cbn [default id]. rewrite Z.mod_mul by lia. cbn [Z.eqb negb].
  unfold h_bind at 1, _compute_hash. rewrite !Z.div_mul by lia.
  set (l := seq 0 (Z.to_nat (Z.of_nat b - num_chunks_processed s))).
  assert (length l = Z.to_nat (Z.of_nat b - num_chunks_processed s)) as Hl by (apply length_seq). clearbody l.
  pose proof (si_num h full s Hi) as Hnum. pose proof (compute_loop_run h full l s Hcs Hi) as Hw. unfold hwp in Hw.
  assert ((num_chunks_processed s + Z.of_nat (length l)) * chunk_size h * TOKEN_STRIDE <= Z.of_nat (length (ses_tokens s)) ∨ l = []) as Hside.
  { destruct (decide (Z.of_nat b <= num_chunks_processed s)); [right; apply length_zero_iff_nil; lia|left]. apply held_words. rewrite Hl. nia. }
  specialize (Hw Hside). destruct (h_iter _ l s) as [[[]|e] s'].
  - destruct Hw as [Hi' Hn']. eexists _, s'. split; [reflexivity|]. split; [done|].
    pose proof (si_names h full s' Hi') as Hv'. pose proof (si_num h full s' Hi') as Hnum'.
    apply (packed_names_prefix _ _ b) in Hv'; [|lia]. rewrite Hv' in Hvs. injection Hvs as <-. rewrite !slice_nat by done.
    rewrite <-(take_ge bytes b) in Hmap; [|apply py_map_Ret, Forall2_length in Hmap; rewrite length_take in Hmap; lia].
    pose proof (py_map_take_drop _ a b _ _ Hmap) as Hd. by rewrite !take_take, !Nat.min_id in Hd.
  - exfalso. destruct Hw as [_ Hno]. destruct (decide (Z.of_nat b <= num_chunks_processed s)) as [Hc|Hc].
    + replace (length l) with 0%nat in Hno by lia. rewrite Nat.add_0_r in Hno. eapply Hno, Hi.
    + replace (length (chunk_hashes s) + length l)%nat with b in Hno by lia. by eapply Hno.
Qed.

(** C28: a session's cached hashes are right. While the token buffers set in a
    session are prefixes of one buffer, in any history of calls, [get_hashes]
    for chunks within the current buffer returns what hashing the whole buffer
    from scratch gives those chunks; beyond the current buffer it raises. *)
Theorem session_hashes_cached h full s (a b : nat) :
  0 < chunk_size h → session_reach h full s → (a ≤ b)%nat →
  let start := Z.of_nat a * chunk_size h in
  let stop := Z.of_nat b * chunk_size h in
  if num_packed_tokens (ses_tokens s) <? stop then get_hashes h start (Some stop) s = (Raise ValueError, s)
  else ∀ bytes, compute_packed_chunk_hashes h full None 0 (Some stop) = Ret bytes →
       ∃ vs s', get_hashes h start (Some stop) s = (Ret vs, s') ∧ session_inv h full s' ∧
         py_map hash_to_bytes vs = Ret (slice (Z.of_nat a) (Z.of_nat b) bytes).
Proof.
  intros Hcs Hr Hab start stop. pose proof (session_reach_inv h full s Hcs Hr) as Hi.
  destruct (Z.ltb_spec (num_packed_tokens (ses_tokens s)) stop) as [Hlt|Hheld]; [|intros bytes; by apply get_hashes_run].
  unfold get_hashes, start. rewrite (proj2 (Z.eqb_neq (chunk_size h) 0)), Z.mod_mul by lia. cbn [Z.eqb negb].
  unfold h_bind at 1, h_get at 1. by rewrite (proj2 (Z.ltb_lt _ _) Hlt).
Qed.
End hasher.

(** ** Rolling hashes *)

(** The polynomial without wrapping. *)
Definition poly (base h : Z) (window : list Z) : Z := foldl (λ h x, h * base + x) h window.

Lemma poly_app base h l1 l2 : poly base h (l1 ++ l2) = poly base (poly base h l1) l2.
Proof. apply foldl_app. Qed.

Lemma poly_start base h window : poly base h window = h * base ^ Z.of_nat (length window) + poly base 0 window.
Proof.
  revert h. induction window as [|x l IH]; intros h; [cbn; lia|]. cbn [poly foldl length]. unfold poly in IH.
  rewrite IH, (IH (0 * base + x)), Nat2Z.inj_succ, Z.pow_succ_r by lia. lia.
Qed.

Lemma u64_idem z : u64 (u64 z) = u64 z.
Proof. unfold u64. by rewrite Z.mod_mod. Qed.
Lemma u64_step base h x : u64 (u64 (u64 h * base) + x) = u64 (h * base + x).
Proof. unfold u64. by rewrite Z.mul_mod_idemp_l, Z.add_mod_idemp_l by lia. Qed.

Lemma window_hash_poly base h window : window_hash base (u64 h) window = u64 (poly base h window).
Proof.
  revert h. induction window as [|x l IH]; intros h; [done|]. cbn [window_hash poly foldl]. rewrite u64_step. apply IH.
Qed.

Lemma power_poly base n p : foldl (λ power _, u64 (power * base)) (u64 p) (seq 0 n) = u64 (p * base ^ Z.of_nat n).
Proof.
  generalize 0%nat. revert p. induction n as [|n IH]; intros p a; cbn [seq foldl]; [f_equal; lia|].
  replace (u64 (u64 p * base)) with (u64 (p * base)) by (unfold u64; by rewrite Z.mul_mod_idemp_l by lia).
  rewrite IH. f_equal. rewrite Nat2Z.inj_succ, Z.pow_succ_r by lia. lia.
Qed.

(** One step of the rolling hash moves the window by one. *)
Lemma roll_step base old new window h power :
  h = u64 (poly base 0 (old :: window)) → power = u64 (base ^ Z.of_nat (length window)) →
  u64 (u64 (u64 (h - u64 (old * power)) * base) + new) = u64 (poly base 0 (window ++ [new])).
Proof.
  intros -> ->. rewrite u64_step, poly_app. cbn [poly foldl]. change (foldl _ 0 window) with (poly base 0 window).
  change (foldl _ (0 * base + old) window) with (poly base (0 * base + old) window). rewrite (poly_start base (0 * base + old)).
  set (W := poly base 0 window). set (B := base ^ Z.of_nat (length window)). unfold u64.
  set (P := 2 ^ 64). assert (P ≠ 0) as HP by (unfold P; lia). clearbody P.
  rewrite (Z.mod_eq ((0 * base + old) * B + W) P), (Z.mod_eq (old * (B mod P)) P), (Z.mod_eq B P) by done.
  set (q1 := _ / P). set (q2 := B / P). set (q3 := _ / P). clearbody q1 q2 q3.
  rewrite <-(Z_mod_plus_full (W * base + new) ((- q1 + old * q2 + q3) * base) P). f_equal. ring.
Qed.

Lemma roll_windows base k arr window h power i :
  length window = k → h = u64 (poly base 0 window) → power = u64 (base ^ Z.of_nat (k - 1)) → (0 < k)%nat → (i < length arr)%nat →
  roll base power h (window ++ arr) arr !! i = Some (u64 (poly base 0 (take k (drop (S i) (window ++ arr))))).
Proof.
  revert window h i. induction arr as [|new arr IH]; intros window h i Hlen Hh Hp Hk Hi; [cbn in Hi; lia|].
  destruct window as [|old window]; [cbn in Hlen; lia|]. cbn [length] in Hlen. cbn [app roll].
  rewrite (roll_step base old new window h power) by (try done; rewrite Hp; do 3 f_equal; lia).
  destruct i as [|i]; cbn [lookup list_lookup drop].
  - rewrite drop_0. do 3 f_equal. replace (window ++ new :: arr) with ((window ++ [new]) ++ arr) by (by rewrite <-app_assoc).
    replace k with (length (window ++ [new])) by (rewrite length_app; cbn; lia). by rewrite take_app_length.
  - replace (window ++ new :: arr) with ((window ++ [new]) ++ arr) by (by rewrite <-app_assoc). cbn [length] in Hi.
    apply IH; [rewrite length_app; cbn; lia|done|done|done|lia].
Qed.

Lemma length_roll base power h olds news : (length news ≤ length olds)%nat → length (roll base power h olds news) = length news.
Proof. revert h news. induction olds as [|o olds IH]; intros h [|n news] Hl; cbn in *; try lia. rewrite IH; lia. Qed.

Lemma chunk_hash_poly w k base : (0 < k)%nat → length w = k → chunk_hash_windows w k base = [u64 (poly base 0 w)].
Proof.
  intros Hk Hw. unfold chunk_hash_windows. rewrite Hw, Nat.div_same by lia. cbn [seq fmap list_fmap Nat.mul].
  by rewrite <-(window_hash_poly base 0), drop_0, take_ge by lia.
Qed.

Lemma rolling_windows arr k base :
  (0 < k)%nat → (k ≤ length arr)%nat →
  rolling_hash_windows arr k base = Ret ((λ i, u64 (poly base 0 (take k (drop i arr)))) <$> seq 0 (length arr - k + 1)).
Proof.
  intros Hk Hlen. unfold rolling_hash_windows. rewrite (proj2 (Nat.ltb_ge _ _)) by done. f_equal. apply list_eq_same_length with (length arr - k + 1)%nat.
  { by rewrite length_fmap, length_seq. }
  { cbn. rewrite length_roll, length_drop; [lia|]. rewrite length_drop. lia. }
  assert (length (take k arr) = k) as Hw by (rewrite length_take; lia). set (h := window_hash base 0 (take k arr)).
  assert (h = u64 (poly base 0 (take k arr))) as Hh by (by rewrite <-(window_hash_poly base 0)).
  pose proof (power_poly base (k - 1) 1) as Hp. change (u64 1) with 1 in Hp. rewrite Z.mul_1_l in Hp. rewrite Hp.
  intros i x y Hi. rewrite list_lookup_fmap, lookup_seq_lt by done. cbn. intros Hx [= <-]. destruct i as [|i].
  { cbn in Hx. injection Hx as <-. by rewrite drop_0, Hh. }
  pose proof (roll_windows base k (drop k arr) (take k arr) h _ i Hw Hh eq_refl Hk ltac:(rewrite length_drop; lia)) as Hr.
  rewrite take_drop in Hr. set (out := roll _ _ _ _ _) in *. change ((h :: out) !! S i) with (out !! i) in Hx. congruence.
Qed.

(** The rolling hash, which updates the hash of a window from the one before
    it in constant time, gives every window of the array the hash that the
    chunk hash computes for it from scratch, although the arithmetic wraps
    around. It raises on arrays shorter than the window. *)
Theorem rolling_hash_is_chunk_hash arr k base :
  (0 < k)%nat →
  if (length arr <? k)%nat then rolling_hash_windows arr k base = Raise ValueError
  else ∃ out, rolling_hash_windows arr k base = Ret out ∧ length out = (length arr - k + 1)%nat ∧
       ∀ i, (i < length out)%nat → chunk_hash_windows (take k (drop i arr)) k base = [default 0 (out !! i)].
Proof.
  intros Hk. destruct (Nat.ltb_spec (length arr) k) as [Hlt|Hlen].
  { unfold rolling_hash_windows. by rewrite (proj2 (Nat.ltb_lt _ _) Hlt). }
  eexists. split; [by apply rolling_windows|]. rewrite length_fmap, length_seq. split; [done|]. intros i Hi.
  rewrite list_lookup_fmap, lookup_seq_lt by done. apply chunk_hash_poly; [done|]. rewrite length_take, length_drop. lia.
Qed.

(** ** Witnesses

    The digest of the examples is its input. *)

Definition plain_digest (x : list byte) : list byte := x.
Definition plain_engine (prefix : hash_value) (tokens : list Z) : hash_value := HInt 0.
Definition demo_hasher : TokenHasher := mkHasher 2 "blake3" (HBytes []).

Definition packed_of (token_ids : list Z) : list byte := be_words token_ids.
Definition demo_session : Session :=
  (get_hashes true plain_digest plain_engine demo_hasher 0 (Some 2) (set_tokens (packed_of [1; 2; 3]) (new_session "r" 0))).2.

Lemma chunk_names_prefix_witness :
  compute_chunk_hashes true plain_digest plain_engine demo_hasher [1; 2; 7] None 0 (Some 2) = Ret [packed_of [1; 2]] ∧
  (take 2 [1; 2; 3; 4] = take 2 [1; 2; 7] ∨ ∃ x y, x ≠ y ∧ plain_digest x = plain_digest y).
Proof.
  destruct (chunk_names_prefix true plain_digest plain_engine demo_hasher [1; 2; 3; 4] [1; 2; 7] [packed_of [1; 2]; packed_of [1; 2; 3; 4]])
    as [H1 H2]; [reflexivity|vm_compute; reflexivity|]. split.
  - exact (H1 0%nat 1%nat ltac:(cbn; lia) ltac:(cbn; lia) ltac:(reflexivity)).
  - exact (H2 eq_refl eq_refl eq_refl [packed_of [1; 2]] 0%nat (packed_of [1; 2]) ltac:(vm_compute; reflexivity) eq_refl eq_refl).
Defined.

Lemma session_hashes_cached_witness :
  ∃ vs s', get_hashes true plain_digest plain_engine demo_hasher 2 (Some 4) (set_tokens (packed_of [1; 2; 3; 4; 5]) demo_session) = (Ret vs, s') ∧
    py_map hash_to_bytes vs = Ret [packed_of [1; 2; 3; 4]].
Proof.
  pose proof (session_hashes_cached true plain_digest plain_engine demo_hasher (packed_of [1; 2; 3; 4; 5])
    (set_tokens (packed_of [1; 2; 3; 4; 5]) demo_session) 1 2 ltac:(reflexivity)) as H.
  destruct (H ltac:(apply reach_set; [by exists []|apply reach_hashes, reach_set; [by exists (packed_of [4; 5])|constructor]]) ltac:(lia)
    [packed_of [1; 2]; packed_of [1; 2; 3; 4]] ltac:(vm_compute; reflexivity)) as (vs & s' & E & _ & Hm).
  exists vs, s'. split; [exact E|exact Hm].
Defined.

(** Replacing the tokens of a session by others keeps the hashes of the first
    ones: the second call names chunk [[5; 6]] as if it were [[1; 2]]. *)
Lemma session_keeps_stale_hashes :
  ∃ s', get_hashes true plain_digest plain_engine demo_hasher 0 (Some 2) (set_tokens (packed_of [5; 6]) demo_session) =
        (Ret [HBytes (packed_of [1; 2])], s').
Proof. eexists. vm_compute. reflexivity. Qed.

Lemma rolling_hash_is_chunk_hash_witness :
  ∃ out, rolling_hash_windows [1; 2; 3; 2 ^ 32 - 1] 2 11400714819323198485 = Ret out ∧
    ∀ i, (i < length out)%nat → chunk_hash_windows (take 2 (drop i [1; 2; 3; 2 ^ 32 - 1])) 2 11400714819323198485 = [default 0 (out !! i)].
Proof.
  destruct (rolling_hash_is_chunk_hash [1; 2; 3; 2 ^ 32 - 1] 2 11400714819323198485 ltac:(lia)) as (out & E & _ & H).
  exists out. split; [exact E|exact H].
Defined.
