(* ===== verification/BlendIndex.v ===== *)
(** * The blend index

    lmcache/v1/mp_coordinator/blend_index.py: which cached chunks do the tokens
    of a query contain, and where? Contents are found by a 64-bit polynomial
    fingerprint: a strided rolling hash of the query goes through an occupancy
    filter, then through a table, and the tokens are compared. Several chunk
    hashes can hold one content; each is claimed by the namespaces that stored
    it. [BlendNamespace] and [BlendMatch] are in mp_coordinator/api.py.

    A numpy array of [uint32] or [uint64] is a list of integers, a set of
    namespaces a list without duplicates. The methods return the index they
    leave, or the exception. *)

From stdpp Require Import gmap list strings.
From Stdlib Require Import ZArith Lia.
From Stdlib.Strings Require Import Byte.
From S2P Require Import Prelude Keys TokenHasher.

Open Scope Z_scope.
Open Scope py_scope.

Record BlendNamespace := mkNamespace {
  ns_model_name : string;
  ns_cache_salt : string;
  ns_world_size : Z
}.

#[export] Instance BlendNamespace_eq_dec : EqDecision BlendNamespace.
Proof. solve_decision. Defined.

Definition from_object_key (key : ObjectKey) : BlendNamespace :=
  mkNamespace (model_name key) (cache_salt key) (WorldSizeFromKVRank (kv_rank key)).

Record BlendMatch := mkMatch { bm_chunk_hash : list byte; old_st : Z; cur_st : nat }.

Definition POLY_BASE : Z := 11400714819323198485.   (* 0x9E3779B97F4A7C15 *)
Definition _TABLE_GROWTH : nat := 16.
Definition _MIN_TABLE_SIZE : nat := Nat.pow 2 10.

Record Occupant := mkOccupant { token_offset : Z; namespaces : list BlendNamespace }.
Record FingerprintEntry := mkFingerprint { token_ids : list Z; occupants : dict (list byte) Occupant }.

Record BlendIndex := mkBlend {
  bi_chunk_size : nat;
  bi_probe_stride : nat;
  fingerprint_table : dict Z FingerprintEntry;
  slots : list bool;
  mask : Z;
  bits_set : nat;
  num_chunks : Z;
  claims_by_namespace : dict BlendNamespace Z
}.

Definition new_blend_index (chunk_size probe_stride : Z) : py BlendIndex :=
  if chunk_size <? 1 then Raise ValueError
  else if probe_stride <? 1 then Raise ValueError
  else Ret (mkBlend (Z.to_nat chunk_size) (Z.to_nat probe_stride) [] (replicate _MIN_TABLE_SIZE false)
              (Z.of_nat _MIN_TABLE_SIZE - 1) 0 0 []).

Definition set_table (table : dict Z FingerprintEntry) (x : BlendIndex) : BlendIndex :=
  mkBlend (bi_chunk_size x) (bi_probe_stride x) table (slots x) (mask x) (bits_set x) (num_chunks x) (claims_by_namespace x).
Definition set_filter (sl : list bool) (m : Z) (bits : nat) (x : BlendIndex) : BlendIndex :=
  mkBlend (bi_chunk_size x) (bi_probe_stride x) (fingerprint_table x) sl m bits (num_chunks x) (claims_by_namespace x).
Definition set_counts (n : Z) (claims : dict BlendNamespace Z) (x : BlendIndex) : BlendIndex :=
  mkBlend (bi_chunk_size x) (bi_probe_stride x) (fingerprint_table x) (slots x) (mask x) (bits_set x) n claims.

(** [_fingerprint] of content of the chunk size. *)
Definition _fingerprint (chunk_size : nat) (tokens : list Z) : Z := default 0 (head (chunk_hash_windows tokens chunk_size POLY_BASE)).

Definition _count_claim (namespace : BlendNamespace) (delta : Z) (x : BlendIndex) : py BlendIndex :=
  let count := default 0 (dget namespace (claims_by_namespace x)) + delta in
  if negb (count =? 0) then Ret (set_counts (num_chunks x) (dset namespace count (claims_by_namespace x)) x)
  else if dmem namespace (claims_by_namespace x)
       then Ret (set_counts (num_chunks x) (ddel namespace (claims_by_namespace x)) x)
       else Raise KeyError.

(** [while size < _TABLE_GROWTH * n: size <<= 1]. *)
Fixpoint grow (fuel : nat) (size target : nat) : nat :=
  match fuel with
  | O => size
  | S fuel' => if (size <? target)%nat then grow fuel' (2 * size) target else size
  end.

(** The slot of a fingerprint. *)
Definition slot (m poly : Z) : nat := Z.to_nat (Z.land poly m).

(** Every doubling adds at least one, so [target] turns are enough. *)
Definition _rebuild_table (x : BlendIndex) : BlendIndex :=
  let target := (_TABLE_GROWTH * length (fingerprint_table x))%nat in
  let size := grow target _MIN_TABLE_SIZE target in
  let m := Z.of_nat size - 1 in
  let sl := foldl (λ sl poly, <[slot m poly := true]> sl) (replicate size false) (dkeys (fingerprint_table x)) in
  set_filter sl m (length (filter (λ b : bool, b = true) sl)) x.

(** The part of [add] that enters a new fingerprint. *)
Definition enter_fingerprint (poly : Z) (tokens : list Z) (x : BlendIndex) : BlendIndex :=
  let x := set_table (dset poly (mkFingerprint tokens []) (fingerprint_table x)) x in
  let sl := slot (mask x) poly in
  let x := if default false (slots x !! sl) then x
           else set_filter (<[sl := true]> (slots x)) (mask x) (S (bits_set x)) x in
  if (length (slots x) <? _TABLE_GROWTH * length (fingerprint_table x))%nat then _rebuild_table x else x.

Definition set_occupants (poly : Z) (entry : FingerprintEntry) (occs : dict (list byte) Occupant) (x : BlendIndex) : BlendIndex :=
  set_table (dset poly (mkFingerprint (token_ids entry) occs) (fingerprint_table x)) x.

Definition add (tokens : list Z) (chunk_hash : list byte) (offset : Z) (namespace : BlendNamespace) (x : BlendIndex) : py BlendIndex :=
  if negb (length tokens =? bi_chunk_size x)%nat then Ret x
  else
    let poly := _fingerprint (bi_chunk_size x) tokens in
    let '(entry, x) := match dget poly (fingerprint_table x) with
                       | Some entry => (entry, x)
                       | None => (mkFingerprint tokens [], enter_fingerprint poly tokens x)
                       end in
    match dget chunk_hash (occupants entry) with
    | None =>
        let x := set_occupants poly entry (dset chunk_hash (mkOccupant offset [namespace]) (occupants entry)) x in
        _count_claim namespace 1 (set_counts (num_chunks x + 1) (claims_by_namespace x) x)
    | Some occupant =>
        let x := set_occupants poly entry
                   (dset chunk_hash (mkOccupant offset (oset_set namespace (namespaces occupant))) (occupants entry)) x in
        if bool_decide (namespace ∈ namespaces occupant) then Ret x else _count_claim namespace 1 x
    end.

(** The end of both removals, once [chunk_hash] is out of the entry. *)
Definition drop_content (poly : Z) (entry : FingerprintEntry) (occs : dict (list byte) Occupant) (x : BlendIndex) : BlendIndex :=
  match occs with
  | _ :: _ => set_occupants poly entry occs x
  | [] =>
      let x := set_table (ddel poly (fingerprint_table x)) x in
      if (2 * length (fingerprint_table x) <? bits_set x)%nat then _rebuild_table x else x
  end.

Definition remove_claim (tokens : list Z) (chunk_hash : list byte) (namespace : BlendNamespace) (x : BlendIndex) : py BlendIndex :=
  if negb (length tokens =? bi_chunk_size x)%nat then Ret x
  else
    let poly := _fingerprint (bi_chunk_size x) tokens in
    match dget poly (fingerprint_table x) with
    | None => Ret x
    | Some entry =>
        match dget chunk_hash (occupants entry) with
        | None => Ret x
        | Some occupant =>
            if negb (bool_decide (namespace ∈ namespaces occupant)) then Ret x
            else
              let left := oset_del namespace (namespaces occupant) in
              let! x := _count_claim namespace (-1) x in
              match left with
              | _ :: _ => Ret (set_occupants poly entry (dset chunk_hash (mkOccupant (token_offset occupant) left) (occupants entry)) x)
              | [] => Ret (drop_content poly entry (ddel chunk_hash (occupants entry))
                             (set_counts (num_chunks x - 1) (claims_by_namespace x) x))
              end
        end
    end.

Fixpoint count_claims (nss : list BlendNamespace) (delta : Z) (x : BlendIndex) : py BlendIndex :=
  match nss with
  | [] => Ret x
  | namespace :: nss' => let! x := _count_claim namespace delta x in count_claims nss' delta x
  end.

Definition remove_chunk (tokens : list Z) (chunk_hash : list byte) (x : BlendIndex) : py BlendIndex :=
  if negb (length tokens =? bi_chunk_size x)%nat then Ret x
  else
    let poly := _fingerprint (bi_chunk_size x) tokens in
    match dget poly (fingerprint_table x) with
    | None => Ret x
    | Some entry =>
        match dget chunk_hash (occupants entry) with
        | None => Ret x
        | Some occupant =>
            let! x := count_claims (namespaces occupant) (-1) (set_counts (num_chunks x - 1) (claims_by_namespace x) x) in
            Ret (drop_content poly entry (ddel chunk_hash (occupants entry)) x)
        end
    end.

(** ** Matching *)

(** The loop over the occupants of an entry: those seen or not claimed are
    passed over; content that differs ends it; the first one left is taken. *)
Fixpoint take_occupant (same : bool) (namespace : BlendNamespace) (seen : list (list byte)) (occs : dict (list byte) Occupant)
    : option (list byte * Occupant) :=
  match occs with
  | [] => None
  | (chunk_hash, occupant) :: occs' =>
      if bool_decide (chunk_hash ∈ seen) || negb (bool_decide (namespace ∈ namespaces occupant))
      then take_occupant same namespace seen occs'
      else if same then Some (chunk_hash, occupant) else None
  end.

(** [l[::stride]] with the indices. *)
Definition every {X} (stride : nat) (l : list X) : list (nat * X) :=
  omap (λ i, pair i <$> l !! (i * stride)%nat) (seq 0 (length l)).

Definition match_at (x : BlendIndex) (query : list Z) (namespace : BlendNamespace) (acc : list (list byte) * list BlendMatch)
    (probe : nat * Z) : list (list byte) * list BlendMatch :=
  let '(seen, matches) := acc in
  let '(position, poly) := probe in
  if negb (default false (slots x !! slot (mask x) poly)) then acc
  else
    match dget poly (fingerprint_table x) with
    | None => acc
    | Some entry =>
        let cur := (position * bi_probe_stride x)%nat in
        match take_occupant (bool_decide (take (bi_chunk_size x) (drop cur query) = token_ids entry)) namespace seen (occupants entry) with
        | None => acc
        | Some (chunk_hash, occupant) =>
            (oset_set chunk_hash seen, matches ++ [mkMatch chunk_hash (token_offset occupant) cur])
        end
    end.

Definition match_ (query : list Z) (namespace : BlendNamespace) (x : BlendIndex) : py (list BlendMatch) :=
  if (length query <? bi_chunk_size x)%nat then Ret []
  else
    let! rolling := rolling_hash_windows query (bi_chunk_size x) POLY_BASE in
    Ret (foldl (match_at x query namespace) ([], []) (every (bi_probe_stride x) rolling)).2.

Record BlendIndexStats := mkBlendStats {
  st_num_contents : nat; st_num_chunks : Z; st_num_claims : Z; st_num_namespaces : nat; st_table_size : nat
}.
Definition stats (x : BlendIndex) : BlendIndexStats :=
  mkBlendStats (length (fingerprint_table x)) (num_chunks x) (zsum id (dvalues (claims_by_namespace x)))
    (length (claims_by_namespace x)) (length (slots x)).

(** ** The specification

    What the index promises: a map from contents to the chunks that hold them,
    without fingerprints and filters. *)

Abbreviation contents := (dict (list Z) (dict (list byte) Occupant)).

Definition claim (chunk_hash : list byte) (offset : Z) (namespace : BlendNamespace) (occs : dict (list byte) Occupant)
    : dict (list byte) Occupant :=
  dset chunk_hash (mkOccupant offset (oset_set namespace (match dget chunk_hash occs with Some o => namespaces o | None => [] end))) occs.

Definition release (chunk_hash : list byte) (namespace : BlendNamespace) (occs : dict (list byte) Occupant) : dict (list byte) Occupant :=
  match dget chunk_hash occs with
  | None => occs
  | Some o => match oset_del namespace (namespaces o) with
              | [] => ddel chunk_hash occs
              | rest => dset chunk_hash (mkOccupant (token_offset o) rest) occs
              end
  end.

(** A content without chunks is dropped. *)
Definition put_content (tokens : list Z) (occs : dict (list byte) Occupant) (c : contents) : contents :=
  match occs with [] => ddel tokens c | _ => dset tokens occs c end.

Inductive blend_op :=
  | Add (tokens : list Z) (chunk_hash : list byte) (offset : Z) (namespace : BlendNamespace)
  | RemoveClaim (tokens : list Z) (chunk_hash : list byte) (namespace : BlendNamespace)
  | RemoveChunk (tokens : list Z) (chunk_hash : list byte).

Definition op_tokens (op : blend_op) : list Z :=
  match op with Add tokens _ _ _ | RemoveClaim tokens _ _ | RemoveChunk tokens _ => tokens end.

Definition spec_op (chunk_size : nat) (c : contents) (op : blend_op) : contents :=
  if negb (length (op_tokens op) =? chunk_size)%nat then c
  else
    let occs := default [] (dget (op_tokens op) c) in
    put_content (op_tokens op)
      (match op with
       | Add _ chunk_hash offset namespace => claim chunk_hash offset namespace occs
       | RemoveClaim _ chunk_hash namespace => release chunk_hash namespace occs
       | RemoveChunk _ chunk_hash => ddel chunk_hash occs
       end) c.

Definition spec_match_at (chunk_size stride : nat) (c : contents) (query : list Z) (namespace : BlendNamespace)
    (acc : list (list byte) * list BlendMatch) (position : nat) : list (list byte) * list BlendMatch :=
  let cur := (position * stride)%nat in
  match head (filter (λ p, (p.1 ∉ acc.1) ∧ namespace ∈ namespaces p.2) (default [] (dget (take chunk_size (drop cur query)) c))) with
  | None => acc
  | Some (chunk_hash, occupant) => (oset_set chunk_hash acc.1, acc.2 ++ [mkMatch chunk_hash (token_offset occupant) cur])
  end.

(** One chunk per position of the query whose window is a content. *)
Definition spec_match (chunk_size stride : nat) (query : list Z) (namespace : BlendNamespace) (c : contents) : list BlendMatch :=
  if (length query <? chunk_size)%nat then []
  else (foldl (spec_match_at chunk_size stride c query namespace) ([], [])
          (every stride (seq 0 (length query - chunk_size + 1))).*1).2.

Definition run_op (x : BlendIndex) (op : blend_op) : py BlendIndex :=
  match op with
  | Add tokens chunk_hash offset namespace => add tokens chunk_hash offset namespace x
  | RemoveClaim tokens chunk_hash namespace => remove_claim tokens chunk_hash namespace x
  | RemoveChunk tokens chunk_hash => remove_chunk tokens chunk_hash x
  end.

Fixpoint run_ops (ops : list blend_op) (x : BlendIndex) : py BlendIndex :=
  match ops with [] => Ret x | op :: ops' => let! x := run_op x op in run_ops ops' x end.

(** ** The occupancy filter *)

Lemma grow_power fuel m target : ∃ m', grow fuel (2 ^ m) target = (2 ^ m')%nat.
Proof.
  revert m. induction fuel as [|fuel IH]; intros m; cbn [grow]; [by exists m|]. destruct (_ <? _)%nat; [|by exists m].
  replace (2 * 2 ^ m)%nat with (2 ^ S m)%nat by (cbn; lia). apply IH.
Qed.

(** The fuel of the growth loop is enough. *)
Lemma grow_enough fuel size target : (0 < size)%nat → (target ≤ size + fuel)%nat → (target ≤ grow fuel size target)%nat.
Proof.
  revert size. induction fuel as [|fuel IH]; intros size Hs Ht; cbn [grow]; [lia|].
  destruct (Nat.ltb_spec size target); [apply IH; lia|done].
Qed.

Lemma slot_lt m poly : (slot (Z.of_nat (2 ^ m) - 1) poly < 2 ^ m)%nat.
Proof.
  unfold slot. rewrite Nat2Z.inj_pow. replace (Z.of_nat 2 ^ Z.of_nat m - 1) with (Z.ones (Z.of_nat m)) by (rewrite Z.ones_equiv; lia).
  rewrite Z.land_ones by lia. pose proof (Z.mod_pos_bound poly (2 ^ Z.of_nat m) ltac:(lia)).
  apply Nat2Z.inj_lt. rewrite Nat2Z.inj_pow, Z2Nat.id by lia. lia.
Qed.

(** The filter has a bit for every fingerprint of the table. *)
Definition filter_ok (keys : list Z) (x : BlendIndex) : Prop :=
  ∃ m, length (slots x) = (2 ^ m)%nat ∧ mask x = Z.of_nat (2 ^ m) - 1 ∧
       ∀ poly, poly ∈ keys → slots x !! slot (mask x) poly = Some true.

Lemma set_bits_lookup (f : Z → nat) keys (sl : list bool) i :
  (∀ poly, f poly < length sl)%nat → (sl !! i = Some true ∨ ∃ poly, poly ∈ keys ∧ f poly = i) →
  foldl (λ sl poly, <[f poly := true]> sl) sl keys !! i = Some true.
Proof.
  revert sl. induction keys as [|k keys IH]; intros sl Hf Hi; cbn [foldl].
  { destruct Hi as [?|(? & ?%elem_of_nil & _)]; done. }
  apply IH; [intros; by rewrite length_insert|]. destruct Hi as [Hi|(poly & [->|Hp]%elem_of_cons & <-)].
  - left. destruct (decide (f k = i)) as [<-|Hne]; [by rewrite list_lookup_insert_eq|by rewrite list_lookup_insert_ne].
  - left. by rewrite list_lookup_insert_eq.
  - right. by exists poly.
Qed.
Lemma length_set_bits (f : Z → nat) keys (sl : list bool) : length (foldl (λ sl poly, <[f poly := true]> sl) sl keys) = length sl.
Proof. revert sl. induction keys as [|k keys IH]; intros sl; cbn; [done|]. by rewrite IH, length_insert. Qed.

Lemma rebuild_filter x : filter_ok (dkeys (fingerprint_table x)) (_rebuild_table x).
Proof.
  unfold _rebuild_table. set (target := (_ * _)%nat). destruct (grow_power target 10 target) as [m Hm].
  unfold _MIN_TABLE_SIZE. rewrite Hm. exists m. cbn [set_filter slots mask]. split; [by rewrite length_set_bits, length_replicate|].
  split; [done|]. intros poly Hp. apply set_bits_lookup; [|right; by exists poly]. intros p. rewrite length_replicate. apply slot_lt.
Qed.

Lemma filter_less keys keys' x : filter_ok keys x → (∀ p, p ∈ keys' → p ∈ keys) → filter_ok keys' x.
Proof. intros (m & H1 & H2 & H3) Hk. exists m. split_and!; [done|done|]. intros p Hp. by apply H3, Hk. Qed.

Lemma enter_filter poly tokens x :
  filter_ok (dkeys (fingerprint_table x)) x → filter_ok (dkeys (dset poly (mkFingerprint tokens []) (fingerprint_table x))) (enter_fingerprint poly tokens x).
Proof.
  intros (m & H1 & H2 & H3). unfold enter_fingerprint. set (x1 := set_table _ x).
  assert (∀ b, default false b = true ↔ b = Some true) as Hd by (by intros [[]|]).
  set (x2 := if default false (slots x1 !! slot (mask x1) poly) then x1
             else set_filter (<[slot (mask x1) poly := true]> (slots x1)) (mask x1) (S (bits_set x1)) x1).
  assert (fingerprint_table x2 = fingerprint_table x1) as Ht by (unfold x2; by destruct (default false _)).
  assert (filter_ok (dkeys (fingerprint_table x1)) x2) as Hf.
  { exists m. unfold x2, x1. cbn [set_table fingerprint_table slots mask].
    destruct (default false _) eqn:Es; cbn [set_filter slots mask]; (split; [by rewrite ?length_insert|]); (split; [done|]);
      intros p [Hp| ->]%elem_dkeys_dset.
    - by apply H3.
    - by apply Hd.
    - destruct (decide (slot (mask x) poly = slot (mask x) p)) as [->|Hne]; [|rewrite list_lookup_insert_ne by done; by apply H3].
      rewrite list_lookup_insert_eq; [done|]. rewrite H1, H2. apply slot_lt.
    - rewrite list_lookup_insert_eq; [done|]. rewrite H1, H2. apply slot_lt. }
  cbv zeta. fold x2. destruct (_ <? _)%nat; [|exact Hf]. pose proof (rebuild_filter x2) as Hr. by rewrite Ht in Hr.
Qed.

(** ** The invariant *)

Definition holds (namespace : BlendNamespace) (o : Occupant) : Z := if bool_decide (namespace ∈ namespaces o) then 1 else 0.
Definition claims_of (namespace : BlendNamespace) (occs : dict (list byte) Occupant) : Z := zsum (λ q, holds namespace q.2) occs.

(** What the running totals should be. *)
Definition chunks_total (t : dict Z FingerprintEntry) : Z := zsum (λ p, Z.of_nat (length (occupants p.2))) t.
Definition claims_total (t : dict Z FingerprintEntry) (namespace : BlendNamespace) : Z := zsum (λ p, claims_of namespace (occupants p.2)) t.

Definition counted (n : Z) (T : BlendNamespace → Z) (x : BlendIndex) : Prop :=
  num_chunks x = n ∧ NoDup (dkeys (claims_by_namespace x)) ∧ ∀ ns, dget ns (claims_by_namespace x) = nonzero (T ns).

Definition occs_ok (occs : dict (list byte) Occupant) : Prop :=
  NoDup (dkeys occs) ∧ ∀ ch o, dget ch occs = Some o → NoDup (namespaces o) ∧ namespaces o ≠ [].

Lemma count_claim_run ns delta n T x :
  counted n T x → delta ≠ 0 →
  ∃ x', _count_claim ns delta x = Ret x' ∧ counted n (λ ns', T ns' + (if decide (ns' = ns) then delta else 0)) x' ∧
    ∃ claims, x' = set_counts (num_chunks x) claims x.
Proof.
  intros (Hn & Hnd & HT) Hd. unfold _count_claim. rewrite HT, (proj1 (nonzero_spec (T ns))).
  destruct (Z.eqb_spec (T ns + delta) 0) as [E0|Ne]; cbn [negb].
  - rewrite (proj2 (dmem_true _ _)) by (apply dget_is_Some; rewrite HT; apply (proj2 (nonzero_spec _)); lia).
    eexists. split; [reflexivity|]. split; [|by eexists]. unfold counted. cbn [set_counts num_chunks claims_by_namespace]. split_and!; [done|by apply NoDup_ddel|]. intros ns'. rewrite dget_ddel, HT.
    destruct (decide (ns' = ns)) as [->|Hne]; [by rewrite decide_True, E0|rewrite decide_False by congruence; f_equal; lia].
  - eexists. split; [reflexivity|]. split; [|by eexists]. unfold counted. cbn [set_counts num_chunks claims_by_namespace]. split_and!; [done|by apply NoDup_dset|]. intros ns'. rewrite dget_dset, HT.
    destruct (decide (ns' = ns)) as [->|Hne]; [|rewrite decide_False by congruence; f_equal; lia].
    rewrite decide_True by done. unfold nonzero. by rewrite (proj2 (Z.eqb_neq _ _)).
Qed.

Lemma count_claims_run nss n T x :
  counted n T x → NoDup nss →
  ∃ x', count_claims nss (-1) x = Ret x' ∧ counted n (λ ns, T ns - (if bool_decide (ns ∈ nss) then 1 else 0)) x' ∧
    ∃ claims, x' = set_counts (num_chunks x) claims x.
Proof.
  revert T x. induction nss as [|ns nss IH]; intros T x Hc Hnd.
  { exists x. split; [done|]. split; [|exists (claims_by_namespace x); by destruct x]. destruct Hc as (? & ? & HT). split_and!; [done..|].
    intros ns. rewrite HT. f_equal. case_bool_decide as Hin; [by apply elem_of_nil in Hin|lia]. }
  apply NoDup_cons in Hnd as [Hns Hnd]. destruct (count_claim_run ns (-1) n T x Hc ltac:(lia)) as (x1 & E1 & Hc1 & claims & ->).
  destruct (IH _ _ Hc1 Hnd) as (x2 & E2 & Hc2 & claims2 & ->). eexists. cbn [count_claims]. rewrite E1. cbn [py_bind]. split; [exact E2|].
  split; [|by exists claims2]. destruct Hc2 as (? & ? & HT). split_and!; [done..|]. intros ns'. rewrite HT. f_equal.
  case_decide as Hd; case_bool_decide as H1; case_bool_decide as H2; rewrite elem_of_cons in H2; try lia; exfalso; [subst|..]; tauto.
Qed.

Section refinement.
Context (U : list Z → Prop) (cs stride : nat).

(** The fingerprints tell the contents apart. *)
Definition collision_free : Prop := ∀ c c', U c → U c' → _fingerprint cs c = _fingerprint cs c' → c = c'.

Definition entry_ok (p : Z * FingerprintEntry) : Prop :=
  p.1 = _fingerprint cs (token_ids p.2) ∧ length (token_ids p.2) = cs ∧ U (token_ids p.2) ∧
  occs_ok (occupants p.2) ∧ occupants p.2 ≠ [].

Record blend_inv (x : BlendIndex) : Prop := {
  bv_size : bi_chunk_size x = cs ∧ bi_probe_stride x = stride;
  bv_keys : NoDup (dkeys (fingerprint_table x));
  bv_entries : ∀ p, p ∈ fingerprint_table x → entry_ok p;
  bv_filter : filter_ok (dkeys (fingerprint_table x)) x;
  bv_counts : counted (chunks_total (fingerprint_table x)) (claims_total (fingerprint_table x)) x
}.

(** The table without its fingerprints. *)
Definition contents_of (t : dict Z FingerprintEntry) : contents := (λ p : Z * FingerprintEntry, (token_ids p.2, occupants p.2)) <$> t.

Context (Hcf : collision_free).
Implicit Types (t : dict Z FingerprintEntry) (c : list Z).

(** Distinct contents have distinct fingerprints, so the table is a map from
    contents. *)
Lemma same_fingerprint p c : entry_ok p → U c → (p.1 = _fingerprint cs c ↔ token_ids p.2 = c).
Proof. intros (-> & _ & Hu & _) Hc. split; [by apply Hcf|by intros ->]. Qed.

Lemma dget_contents t c :
  (∀ p, p ∈ t → entry_ok p) → U c → dget c (contents_of t) = occupants <$> dget (_fingerprint cs c) t.
Proof.
  intros Ht Hc. unfold contents_of. induction t as [|[poly e] t IH]; [done|].
  pose proof (same_fingerprint (poly, e) c (Ht _ ltac:(left)) Hc) as Hs. cbn [fst snd] in Hs.
  assert (∀ p, p ∈ t → entry_ok p) as Ht' by (intros p Hp; apply Ht; by right). rewrite fmap_cons. cbn [dget fst snd].
  destruct (decide (token_ids e = c)) as [He|He]; [by rewrite decide_True by tauto|]. rewrite decide_False by tauto. by apply IH.
Qed.

Lemma dset_contents t c occs :
  (∀ p, p ∈ t → entry_ok p) → U c →
  contents_of (dset (_fingerprint cs c) (mkFingerprint c occs) t) = dset c occs (contents_of t).
Proof.
  intros Ht Hc. unfold contents_of. induction t as [|[poly e] t IH]; [done|].
  pose proof (same_fingerprint (poly, e) c (Ht _ ltac:(left)) Hc) as Hs. cbn [fst snd] in Hs.
  assert (∀ p, p ∈ t → entry_ok p) as Ht' by (intros p Hp; apply Ht; by right). rewrite fmap_cons. cbn [dset fst snd].
  destruct (decide (token_ids e = c)) as [He|He].
  - rewrite decide_True, fmap_cons by tauto. cbn [fst snd token_ids occupants]. by rewrite He.
  - rewrite decide_False, fmap_cons by tauto. cbn [fst snd token_ids occupants]. f_equal. by apply IH.
Qed.

Lemma ddel_contents t c :
  (∀ p, p ∈ t → entry_ok p) → U c → contents_of (ddel (_fingerprint cs c) t) = ddel c (contents_of t).
Proof.
  intros Ht Hc. unfold ddel. induction t as [|[poly e] t IH]; [done|].
  pose proof (same_fingerprint (poly, e) c (Ht _ ltac:(left)) Hc) as Hs. cbn [fst snd] in Hs.
  assert (∀ p, p ∈ t → entry_ok p) as Ht' by (intros p Hp; apply Ht; by right). specialize (IH Ht'). unfold contents_of in *.
  rewrite filter_cons, fmap_cons, filter_cons. cbn [fst snd]. destruct (decide (token_ids e = c)) as [He|He].
  - rewrite decide_False, decide_False by tauto. exact IH.
  - rewrite decide_True, decide_True by tauto. rewrite fmap_cons. cbn [fst snd]. by f_equal.
Qed.

(** Replacing the chunks of one content. *)
Definition put_entry (c : list Z) (occs : dict (list byte) Occupant) t : dict Z FingerprintEntry :=
  match occs with [] => ddel (_fingerprint cs c) t | _ => dset (_fingerprint cs c) (mkFingerprint c occs) t end.

Definition chunks_at (c : list Z) t : dict (list byte) Occupant := default [] (occupants <$> dget (_fingerprint cs c) t).

Lemma put_entry_sum (f : dict (list byte) Occupant → Z) c occs t :
  NoDup (dkeys t) → f [] = 0 →
  zsum (λ p, f (occupants p.2)) (put_entry c occs t) = zsum (λ p, f (occupants p.2)) t - f (chunks_at c t) + f occs.
Proof.
  intros Hnd Hf. unfold put_entry, chunks_at. destruct (dget (_fingerprint cs c) t) as [e|] eqn:E; cbn [fmap option_fmap option_map default].
  - destruct occs as [|o occs]; [rewrite (zsum_ddel _ _ e) by done|rewrite (zsum_dset _ _ e) by done]; cbn [snd occupants]; unfold id; lia.
  - apply dget_None in E. rewrite Hf. destruct occs as [|o occs]; [rewrite ddel_notin by done; lia|].
    rewrite zsum_dset_new by done. cbn [snd occupants]. lia.
Qed.

Lemma put_entry_contents c occs t :
  (∀ p, p ∈ t → entry_ok p) → U c → contents_of (put_entry c occs t) = put_content c occs (contents_of t).
Proof. intros Ht Hc. destruct occs; [by apply ddel_contents|by apply dset_contents]. Qed.

Lemma elem_dset {K V} `{EqDecision K} (k : K) (v : V) d p : p ∈ dset k v d → p = (k, v) ∨ p ∈ d.
Proof.
  induction d as [|[k' v'] d IH]; cbn [dset]; [intros ->%list_elem_of_singleton; by left|].
  case_decide; intros [->|Hp]%elem_of_cons; subst.
  - by left.
  - right. by right.
  - right. left.
  - destruct (IH Hp) as [?|?]; [by left|right; by right].
Qed.

Lemma put_entry_ok c occs t p :
  (∀ p, p ∈ t → entry_ok p) → U c → length c = cs → occs_ok occs → p ∈ put_entry c occs t → entry_ok p.
Proof.
  intros Ht Hc Hl Ho Hp. unfold put_entry in Hp. destruct occs as [|o occs].
  - apply Ht. unfold ddel in Hp. by apply list_elem_of_filter in Hp as [_ ?].
  - apply elem_dset in Hp as [->|?]; [|by apply Ht]. by unfold entry_ok.
Qed.

Lemma updated c occs' x x' :
  let t := fingerprint_table x in
  blend_inv x → U c → length c = cs → occs_ok occs' → bi_chunk_size x' = cs → bi_probe_stride x' = stride →
  fingerprint_table x' = put_entry c occs' t → filter_ok (dkeys (fingerprint_table x')) x' →
  counted (chunks_total t - Z.of_nat (length (chunks_at c t)) + Z.of_nat (length occs'))
          (λ ns, claims_total t ns - claims_of ns (chunks_at c t) + claims_of ns occs') x' →
  blend_inv x' ∧ contents_of (fingerprint_table x') = put_content c occs' (contents_of t).
Proof.
  intros t [Hs Hnd Hent Hfil Hcnt] Hc Hl Ho Hs' Hs2' Et Hf (H1 & H2 & H3). rewrite Et in *. split; [|by apply put_entry_contents].
  split; [done|rewrite Et|rewrite Et|by rewrite Et|rewrite Et].
  - unfold put_entry. destruct occs'; [by apply NoDup_ddel|by apply NoDup_dset].
  - intros p Hp. by eapply put_entry_ok.
  - split_and!; [|done|].
    + rewrite H1. unfold chunks_total. by rewrite (put_entry_sum (λ occs, Z.of_nat (length occs))).
    + intros ns. rewrite H3. f_equal. unfold claims_total. by rewrite (put_entry_sum (claims_of ns)).
Qed.

(** Putting back what is there changes nothing. *)
Lemma dset_id {K V} `{EqDecision K} (k : K) (v : V) d : dget k d = Some v → dset k v d = d.
Proof.
  induction d as [|[k' v'] d IH]; [done|]. cbn [dget dset]. case_decide; [by intros [= ->]|]. intros E. by rewrite (IH E).
Qed.
Lemma put_unchanged c x :
  blend_inv x → U c → put_content c (chunks_at c (fingerprint_table x)) (contents_of (fingerprint_table x)) = contents_of (fingerprint_table x).
Proof.
  intros [_ _ He _ _] Hc. unfold chunks_at. destruct (dget _ (fingerprint_table x)) as [e|] eqn:E; cbn.
  - pose proof (dget_Some_elem _ _ _ E) as Hin. destruct (He _ Hin) as (_ & _ & _ & _ & Hne). cbn in Hne.
    unfold put_content. destruct (occupants e) as [|o os] eqn:Eo; [done|]. apply dset_id. rewrite dget_contents, E by done. cbn. by rewrite Eo.
  - apply ddel_notin, dget_None. by rewrite dget_contents, E by done.
Qed.

(** What changing one occupant does to the counts. *)
Lemma claims_dset ns ch o occs :
  claims_of ns (dset ch o occs) = claims_of ns occs - (match dget ch occs with Some o' => holds ns o' | None => 0 end) + holds ns o.
Proof.
  unfold claims_of. destruct (dget ch occs) as [o'|] eqn:E; [by rewrite (zsum_dset _ _ o')|].
  apply dget_None in E. rewrite zsum_dset_new by done. cbn [snd]. lia.
Qed.
Lemma claims_ddel ns ch o occs : NoDup (dkeys occs) → dget ch occs = Some o → claims_of ns (ddel ch occs) = claims_of ns occs - holds ns o.
Proof. intros Hnd E. unfold claims_of. by rewrite (zsum_ddel _ _ o). Qed.
Lemma length_dset {K V} `{EqDecision K} (k : K) (v : V) d :
  Z.of_nat (length (dset k v d)) = Z.of_nat (length d) + (match dget k d with Some _ => 0 | None => 1 end).
Proof. induction d as [|[k' v'] d IH]; [done|]. cbn [dset dget length]. case_decide; cbn [length]; lia. Qed.
Lemma length_ddel {K V} `{EqDecision K} (k : K) (v : V) d :
  NoDup (dkeys d) → dget k d = Some v → Z.of_nat (length (ddel k d)) = Z.of_nat (length d) - 1.
Proof. intros Hnd E. rewrite (dget_perm k v d Hnd E) at 2. cbn. lia. Qed.

Lemma holds_set ns ns' o off :
  holds ns' (mkOccupant off (oset_set ns (namespaces o))) = holds ns' o + (if decide (ns' = ns) then (if bool_decide (ns ∈ namespaces o) then 0 else 1) else 0).
Proof.
  unfold holds. cbn [namespaces]. repeat case_bool_decide; case_decide; subst; try lia; exfalso; set_solver.
Qed.

Lemma counted_ext n n' T T' x : counted n T x → n = n' → (∀ ns, T ns = T' ns) → counted n' T' x.
Proof. intros (H1 & H2 & H3) <- HT. split_and!; [done..|]. intros ns. by rewrite H3, HT. Qed.

Lemma enter_fingerprint_frame poly c x :
  let x' := enter_fingerprint poly c x in
  fingerprint_table x' = dset poly (mkFingerprint c []) (fingerprint_table x) ∧ num_chunks x' = num_chunks x ∧
  claims_by_namespace x' = claims_by_namespace x ∧ bi_chunk_size x' = bi_chunk_size x ∧ bi_probe_stride x' = bi_probe_stride x.
Proof. cbv zeta. unfold enter_fingerprint, _rebuild_table. destruct (default false _); destruct (_ <? _)%nat; by cbn. Qed.

Lemma entry_at c x :
  blend_inv x → U c → dget (_fingerprint cs c) (fingerprint_table x) = None ∨
  ∃ occs, dget (_fingerprint cs c) (fingerprint_table x) = Some (mkFingerprint c occs) ∧ chunks_at c (fingerprint_table x) = occs ∧ occs_ok occs ∧ occs ≠ [].
Proof.
  intros [_ _ He _ _] Hc. unfold chunks_at. destruct (dget _ (fingerprint_table x)) as [[c' occs]|] eqn:E; [right|by left].
  pose proof (He _ (dget_Some_elem _ _ _ E)) as Hok. pose proof (proj1 (same_fingerprint _ c Hok Hc) eq_refl) as Ec. cbn in Ec. subst c'.
  destruct Hok as (_ & _ & _ & ? & ?). exists occs. by cbn.
Qed.

(** The entry [add] works on. *)
Lemma entered c x :
  blend_inv x → U c →
  ∃ x1, match dget (_fingerprint cs c) (fingerprint_table x) with
        | Some entry => (entry, x)
        | None => (mkFingerprint c [], enter_fingerprint (_fingerprint cs c) c x)
        end = (mkFingerprint c (chunks_at c (fingerprint_table x)), x1) ∧ occs_ok (chunks_at c (fingerprint_table x)) ∧
    (∀ e, dset (_fingerprint cs c) e (fingerprint_table x1) = dset (_fingerprint cs c) e (fingerprint_table x)) ∧
    (∀ e, filter_ok (dkeys (dset (_fingerprint cs c) e (fingerprint_table x))) x1) ∧
    counted (chunks_total (fingerprint_table x)) (claims_total (fingerprint_table x)) x1 ∧
    bi_chunk_size x1 = cs ∧ bi_probe_stride x1 = stride.
Proof.
  intros Hi Hc. pose proof Hi as [[Hs Hs2] Hnd He Hf Hcnt]. destruct (entry_at c x Hi Hc) as [E|(occs & E & Eo & Hok & _)]; rewrite E.
  - exists (enter_fingerprint (_fingerprint cs c) c x).
    destruct (enter_fingerprint_frame (_fingerprint cs c) c x) as (F1 & F2 & F3 & F4 & F5). unfold chunks_at. rewrite E.
    cbn [fmap option_fmap option_map default]. split_and!; [done|split; [constructor|done]| | | |by rewrite F4|by rewrite F5].
    + intros e. by rewrite F1, dset_dset.
    + intros e. eapply filter_less; [by apply enter_filter|]. intros p. by rewrite !elem_dkeys_dset.
    + unfold counted. by rewrite F2, F3.
  - exists x. rewrite Eo. split_and!; try done. intros e. eapply filter_less; [exact Hf|]. intros p. rewrite elem_dkeys_dset.
    intros [?| ->]; [done|]. apply dget_is_Some. by eexists.
Qed.

Lemma claim_ok ch off ns occs : occs_ok occs → occs_ok (claim ch off ns occs) ∧ claim ch off ns occs ≠ [].
Proof.
  intros [Hnd Ho]. unfold claim. split; [split; [by apply NoDup_dset|]|].
  - intros ch' o'. rewrite dget_dset. case_decide as Hc; [|apply Ho]. intros [= <-]. subst ch'. cbn [namespaces]. split.
    + apply NoDup_oset_set. destruct (dget ch occs) as [o|] eqn:E; [by eapply Ho|constructor].
    + intros Hnil. assert (ns ∈ oset_set ns (match dget ch occs with Some o => namespaces o | None => [] end)) as Hin by set_solver.
      rewrite Hnil in Hin. by apply elem_of_nil in Hin.
  - intros Hnil. assert (dget ch (claim ch off ns occs) = None) as Hn by (unfold claim; by rewrite Hnil). unfold claim in Hn. by rewrite dget_dset_eq in Hn.
Qed.

Lemma claims_claim ch off ns occs ns' :
  claims_of ns' (claim ch off ns occs) =
  claims_of ns' occs + (if decide (ns' = ns) then match dget ch occs with Some o => if bool_decide (ns ∈ namespaces o) then 0 else 1 | None => 1 end else 0).
Proof.
  unfold claim. rewrite claims_dset. destruct (dget ch occs) as [o|]; [rewrite holds_set; case_decide; lia|].
  unfold holds. cbn. case_bool_decide as Hin; case_decide; subst; try lia; exfalso; set_solver.
Qed.

Lemma put_entry_some c occs t : occs ≠ [] → put_entry c occs t = dset (_fingerprint cs c) (mkFingerprint c occs) t.
Proof. by destruct occs. Qed.

Lemma add_run c ch off ns x :
  blend_inv x → U c → length c = cs →
  ∃ x', add c ch off ns x = Ret x' ∧ blend_inv x' ∧
    contents_of (fingerprint_table x') = put_content c (claim ch off ns (chunks_at c (fingerprint_table x))) (contents_of (fingerprint_table x)).
Proof.
  intros Hi Hc Hl. unfold add. rewrite (proj1 (bv_size x Hi)), Hl, Nat.eqb_refl. cbn [negb].
  destruct (entered c x Hi Hc) as (x1 & -> & Hok & Hdset & Hfil & Hcnt & Hs & Hs2). cbn [occupants]. set (t := fingerprint_table x) in *.
  set (occs := chunks_at c t) in *. destruct (claim_ok ch off ns occs Hok) as [Hok' Hne].
  assert (∀ x', fingerprint_table x' = dset (_fingerprint cs c) (mkFingerprint c (claim ch off ns occs)) (fingerprint_table x1) →
    slots x' = slots x1 → mask x' = mask x1 → bi_chunk_size x' = cs → bi_probe_stride x' = stride →
    counted (chunks_total t - Z.of_nat (length occs) + Z.of_nat (length (claim ch off ns occs)))
      (λ ns', claims_total t ns' - claims_of ns' occs + claims_of ns' (claim ch off ns occs)) x' →
    blend_inv x' ∧ contents_of (fingerprint_table x') = put_content c (claim ch off ns occs) (contents_of t)) as Hupd.
  { intros x' Et Esl Em Es1 Es2 Hcnt'. rewrite Hdset, <-put_entry_some in Et by done. eapply updated; try done.
    rewrite Et, put_entry_some by done. destruct (Hfil (mkFingerprint c (claim ch off ns occs))) as (m & F1 & F2 & F3). exists m. by rewrite Esl, Em. }
  assert (Z.of_nat (length (claim ch off ns occs)) = Z.of_nat (length occs) + match dget ch occs with Some _ => 0 | None => 1 end) as Hlen by (apply length_dset).
  pose proof (claims_claim ch off ns occs) as Ecl. destruct (dget ch occs) as [o|] eqn:Eo.
  - replace (dset ch _ occs) with (claim ch off ns occs) by (unfold claim; by rewrite Eo).
    destruct (bool_decide (ns ∈ namespaces o)) eqn:Eb.
    + eexists. split; [reflexivity|]. apply Hupd; try done. eapply counted_ext; [exact Hcnt|lia|]. intros ns'. rewrite Ecl, ?Eb. destruct (decide (ns' = ns)); lia.
    + destruct (count_claim_run ns 1 (chunks_total t) (claims_total t) (set_occupants (_fingerprint cs c) (mkFingerprint c occs) (claim ch off ns occs) x1))
        as (x' & E & Hc' & claims & ->); [exact Hcnt|done|]. eexists. split; [exact E|].
      apply Hupd; try done. eapply counted_ext; [exact Hc'|lia|]. intros ns'. cbv beta. rewrite Ecl, ?Eb. destruct (decide (ns' = ns)); lia.
  - replace (dset ch _ occs) with (claim ch off ns occs) by (unfold claim; by rewrite Eo).
    edestruct (count_claim_run ns 1 (chunks_total t + 1) (claims_total t)) as (x' & E & Hc' & claims & ->); [|done|]; [|eexists; split; [exact E|]].
    { destruct Hcnt as (G1 & G2 & G3). split_and!; [by cbn; rewrite G1|done|done]. }
    apply Hupd; try done. eapply counted_ext; [exact Hc'|lia|]. intros ns'. cbv beta. rewrite Ecl. destruct (decide (ns' = ns)); lia.
Qed.

Lemma drop_content_frame c occs0 occs x :
  filter_ok (dkeys (fingerprint_table x)) x → is_Some (dget (_fingerprint cs c) (fingerprint_table x)) →
  let x' := drop_content (_fingerprint cs c) (mkFingerprint c occs0) occs x in
  fingerprint_table x' = put_entry c occs (fingerprint_table x) ∧ filter_ok (dkeys (fingerprint_table x')) x' ∧
  num_chunks x' = num_chunks x ∧ claims_by_namespace x' = claims_by_namespace x ∧ bi_chunk_size x' = bi_chunk_size x ∧
  bi_probe_stride x' = bi_probe_stride x.
Proof.
  intros Hf Hin. destruct occs as [|o occs]; cbn [drop_content put_entry].
  - set (x1 := set_table _ x). assert (filter_ok (dkeys (fingerprint_table x1)) x1) as Hf1.
    { eapply filter_less; [exact Hf|]. intros p Hp. unfold x1 in Hp. cbn [set_table fingerprint_table] in Hp. by apply elem_dkeys_ddel in Hp as [? _]. }
    pose proof (rebuild_filter x1) as Hr. cbv zeta. fold x1. by destruct (_ <? _)%nat.
  - split_and!; try done. eapply filter_less; [exact Hf|]. intros p. cbn [set_occupants set_table fingerprint_table].
    rewrite elem_dkeys_dset. intros [?| ->]; [done|]. by apply dget_is_Some.
Qed.

Lemma release_noop ch ns occs :
  occs_ok occs → (∀ o, dget ch occs = Some o → ns ∉ namespaces o) → release ch ns occs = occs.
Proof.
  intros [_ Ho] Hno. unfold release. destruct (dget ch occs) as [o|] eqn:E; [|done]. rewrite oset_del_notin by (by apply Hno).
  destruct (Ho ch o E) as [_ Hne]. destruct o as [off nss]. cbn in *. destruct nss; [done|]. by apply dset_id.
Qed.

Lemma ddel_ok ch occs : occs_ok occs → occs_ok (ddel ch occs).
Proof. intros [Hnd Ho]. split; [by apply NoDup_ddel|]. intros ch' o'. rewrite dget_ddel. case_decide; [done|]. apply Ho. Qed.

Lemma dset_ok ch o occs : occs_ok occs → NoDup (namespaces o) → namespaces o ≠ [] → occs_ok (dset ch o occs).
Proof.
  intros [Hnd Ho] ??. split; [by apply NoDup_dset|]. intros ch' o'. rewrite dget_dset. case_decide; [intros [= <-]; done|apply Ho].
Qed.

Lemma holds_del ns ns' off nss :
  NoDup nss → ns ∈ nss → holds ns' (mkOccupant off (oset_del ns nss)) = holds ns' (mkOccupant off nss) - (if decide (ns' = ns) then 1 else 0).
Proof.
  intros _ Hin. unfold holds. cbn [namespaces]. repeat case_bool_decide; destruct (decide (ns' = ns)); subst; try lia; exfalso; set_solver.
Qed.

Lemma remove_claim_run c ch ns x :
  blend_inv x → U c → length c = cs →
  ∃ x', remove_claim c ch ns x = Ret x' ∧ blend_inv x' ∧
    contents_of (fingerprint_table x') = put_content c (release ch ns (chunks_at c (fingerprint_table x))) (contents_of (fingerprint_table x)).
Proof.
  intros Hi Hc Hl. unfold remove_claim. rewrite (proj1 (bv_size x Hi)), Hl, Nat.eqb_refl. cbn [negb].
  destruct (entry_at c x Hi Hc) as [E|(occs & E & Eo & Hok & Hne)]; rewrite E; cbn [occupants].
  { exists x. split; [done|]. split; [done|]. rewrite release_noop, put_unchanged; [done..| |]; unfold chunks_at; rewrite E; [split; [constructor|done]|done]. }
  assert (∀ b : bool, release ch ns (chunks_at c (fingerprint_table x)) = chunks_at c (fingerprint_table x) →
    ∃ x', Ret x = Ret x' ∧ blend_inv x' ∧ contents_of (fingerprint_table x') =
      put_content c (release ch ns (chunks_at c (fingerprint_table x))) (contents_of (fingerprint_table x))) as Hsame.
  { intros _ ->. exists x. by rewrite put_unchanged. }
  rewrite Eo in *. destruct (dget ch occs) as [o|] eqn:Ed; [|apply (Hsame true), release_noop; [done|congruence]].
  case_bool_decide as Hin; cbn [negb]; [|apply (Hsame true), release_noop; [done|by intros o' [= <-]%(eq_trans (eq_sym Ed))]].
  destruct (proj2 Hok ch o Ed) as [Hnd Hnn]. pose proof Hi as [[Hs Hs2] Hnt He Hf Hcnt].
  destruct (count_claim_run ns (-1) _ _ x Hcnt ltac:(lia)) as (x1 & -> & Hc1 & claims & ->). cbn [py_bind].
  assert (∀ ns', claims_of ns' (release ch ns occs) = claims_of ns' occs - (if decide (ns' = ns) then 1 else 0)) as Ecl.
  { intros ns'. pose proof (holds_del ns ns' (token_offset o) (namespaces o) Hnd Hin) as Hh. unfold release. rewrite Ed.
    assert (mkOccupant (token_offset o) (namespaces o) = o) as Eoo by (by destruct o). rewrite Eoo in Hh.
    destruct (oset_del ns (namespaces o)) as [|n l]; [|rewrite claims_dset, Ed; lia]. rewrite (claims_ddel _ _ o) by (done || apply Hok).
    assert (holds ns' (mkOccupant (token_offset o) []) = 0) as H0 by (unfold holds; rewrite bool_decide_eq_false_2; [done|apply not_elem_of_nil]). lia. }
  assert (occs_ok (release ch ns occs)) as Hrel.
  { unfold release. rewrite Ed. destruct (oset_del ns (namespaces o)) as [|n l] eqn:El; [by apply ddel_ok|]. apply dset_ok; [done| |done].
    cbn [namespaces]. rewrite <-El. by apply NoDup_oset_del. }
  unfold release in Hrel, Ecl |- *. rewrite Ed in Hrel, Ecl |- *. destruct (oset_del ns (namespaces o)) as [|n l] eqn:El.
  - set (x2 := set_counts _ _ _).
    destruct (drop_content_frame c occs (ddel ch occs) x2 Hf ltac:(cbn; by eexists)) as (F1 & F2 & F3 & F4 & F5 & F6).
    eexists. split; [reflexivity|]. eapply (updated c (ddel ch occs)); try done; [by rewrite F5|by rewrite F6|]. rewrite Eo.
    destruct Hc1 as (G1 & G2 & G3). unfold counted. rewrite F3, F4. cbn [x2 set_counts num_chunks claims_by_namespace] in *. split_and!; [|done|].
    + rewrite (length_ddel _ o) by (done || apply Hok). rewrite G1. lia.
    + intros ns'. rewrite G3, Ecl. f_equal. destruct (decide (ns' = ns)); lia.
  - eexists. split; [reflexivity|]. eapply (updated c (dset ch (mkOccupant (token_offset o) (n :: l)) occs)); try done.
    + symmetry. apply put_entry_some. intros Hnil. assert (dget ch (dset ch (mkOccupant (token_offset o) (n :: l)) occs) = None) as Hx by (by rewrite Hnil).
      by rewrite dget_dset_eq in Hx.
    + eapply filter_less; [exact Hf|]. intros p. cbn [set_occupants set_table set_counts fingerprint_table].
      rewrite elem_dkeys_dset. intros [?| ->]; [done|]. apply dget_is_Some. by eexists.
    + rewrite Eo. eapply counted_ext; [exact Hc1|rewrite length_dset, Ed; lia|]. intros ns'. cbv beta. rewrite Ecl. destruct (decide (ns' = ns)); lia.
Qed.

Lemma remove_chunk_run c ch x :
  blend_inv x → U c → length c = cs →
  ∃ x', remove_chunk c ch x = Ret x' ∧ blend_inv x' ∧
    contents_of (fingerprint_table x') = put_content c (ddel ch (chunks_at c (fingerprint_table x))) (contents_of (fingerprint_table x)).
Proof.
  intros Hi Hc Hl. unfold remove_chunk. rewrite (proj1 (bv_size x Hi)), Hl, Nat.eqb_refl. cbn [negb]. pose proof (put_unchanged c x Hi Hc) as Hsame.
  destruct (entry_at c x Hi Hc) as [E|(occs & E & Eo & Hok & Hne)]; rewrite E; cbn [occupants].
  { exists x. split; [done|]. split; [done|]. unfold chunks_at in *. rewrite E in *. symmetry. exact Hsame. }
  rewrite Eo in *. destruct (dget ch occs) as [o|] eqn:Ed.
  2: { exists x. split; [done|]. split; [done|]. rewrite ddel_notin; [done|]. by apply dget_None. }
  destruct (proj2 Hok ch o Ed) as [Hnd Hnn]. pose proof Hi as [[Hs Hs2] Hnt He Hf Hcnt]. set (x0 := set_counts _ _ x).
  destruct (count_claims_run (namespaces o) (chunks_total (fingerprint_table x) - 1) (claims_total (fingerprint_table x)) x0)
    as (x1 & -> & Hc1 & claims & ->); [|done|].
  { destruct Hcnt as (G1 & G2 & G3). split_and!; [by cbn; rewrite G1|done|done]. }
  cbn [py_bind]. set (x2 := set_counts (num_chunks x0) claims x0) in *.
  destruct (drop_content_frame c occs (ddel ch occs) x2 Hf ltac:(cbn; by eexists)) as (F1 & F2 & F3 & F4 & F5 & F6).
  eexists. split; [reflexivity|]. eapply (updated c (ddel ch occs)); try done; [by apply ddel_ok|by rewrite F5|by rewrite F6|]. rewrite Eo.
  destruct Hc1 as (G1 & G2 & G3). unfold counted. rewrite F3, F4. split_and!; [|done|].
  - rewrite (length_ddel _ o) by (done || apply Hok). rewrite G1. lia.
  - intros ns'. rewrite G3, (claims_ddel _ _ o) by (done || apply Hok). f_equal. unfold holds. lia.
Qed.

Lemma run_op_ok x op :
  blend_inv x → (length (op_tokens op) = cs → U (op_tokens op)) →
  ∃ x', run_op x op = Ret x' ∧ blend_inv x' ∧ contents_of (fingerprint_table x') = spec_op cs (contents_of (fingerprint_table x)) op.
Proof.
  intros Hi Hu. unfold spec_op. destruct (Nat.eqb_spec (length (op_tokens op)) cs) as [Hl|Hl]; cbn [negb].
  - specialize (Hu Hl). assert (default [] (dget (op_tokens op) (contents_of (fingerprint_table x))) = chunks_at (op_tokens op) (fingerprint_table x)) as ->.
    { unfold chunks_at. by rewrite dget_contents by (done || apply Hi). }
    destruct op; cbn [op_tokens run_op] in *; [by apply add_run|by apply remove_claim_run|by apply remove_chunk_run].
  - exists x. split; [|done]. apply Nat.eqb_neq in Hl.
    destruct op; cbn [op_tokens run_op] in *; unfold add, remove_claim, remove_chunk; by rewrite (proj1 (bv_size x Hi)), Hl.
Qed.

Lemma run_ops_ok ops x :
  blend_inv x → (∀ op, op ∈ ops → length (op_tokens op) = cs → U (op_tokens op)) →
  ∃ x', run_ops ops x = Ret x' ∧ blend_inv x' ∧ contents_of (fingerprint_table x') = foldl (spec_op cs) (contents_of (fingerprint_table x)) ops.
Proof.
  revert x. induction ops as [|op ops IH]; intros x Hi Hu; [by exists x|]. cbn [run_ops foldl].
  destruct (run_op_ok x op Hi) as (x1 & -> & Hi1 & <-); [apply Hu; left|]. cbn [py_bind]. apply IH; [done|]. intros op' Hop. apply Hu. by right.
Qed.

(** *** Matching *)

Lemma lookup_window w x :
  blend_inv x → dget w (contents_of (fingerprint_table x)) =
  match dget (_fingerprint cs w) (fingerprint_table x) with
  | Some e => if decide (token_ids e = w) then Some (occupants e) else None
  | None => None
  end.
Proof.
  intros [_ Hnd He _ _]. set (t := fingerprint_table x) in *.
  assert (∀ occs, dget w (contents_of t) = Some occs → ∃ e, dget (_fingerprint cs w) t = Some e ∧ token_ids e = w) as Hback.
  { intros occs Hd%dget_Some_elem. unfold contents_of in Hd. apply list_elem_of_fmap in Hd as ([p e] & [= -> ->] & Hin).
    exists e. split; [|done]. destruct (He _ Hin) as (Hp & _). cbn in Hp. rewrite <-Hp. by apply elem_dget. }
  destruct (dget (_fingerprint cs w) t) as [e|] eqn:E.
  - destruct (decide (token_ids e = w)) as [Ew|Ne].
    + rewrite dget_contents, E by (done || subst w; by apply (He _ (dget_Some_elem _ _ _ E))). done.
    + destruct (dget w (contents_of t)) as [occs|] eqn:Ed; [|done]. destruct (Hback occs eq_refl) as (e' & [= <-] & ?). done.
  - destruct (dget w (contents_of t)) as [occs|] eqn:Ed; [|done]. by destruct (Hback occs eq_refl) as (e' & ? & ?).
Qed.

Lemma take_occupant_differs ns seen occs : take_occupant false ns seen occs = None.
Proof. induction occs as [|[ch o] occs IH]; [done|]. cbn. by destruct (_ || _). Qed.

Lemma take_occupant_first ns seen occs : take_occupant true ns seen occs = head (filter (λ p, (p.1 ∉ seen) ∧ ns ∈ namespaces p.2) occs).
Proof.
  induction occs as [|[ch o] occs IH]; [done|]. rewrite filter_cons. cbn [take_occupant fst snd]. rewrite IH.
  repeat case_bool_decide; cbn [orb negb]; case_decide; done || tauto.
Qed.

Lemma match_at_spec x query ns acc j :
  blend_inv x →
  match_at x query ns acc (j, _fingerprint cs (take cs (drop (j * stride) query))) =
  spec_match_at cs stride (contents_of (fingerprint_table x)) query ns acc j.
Proof.
  intros Hi. destruct acc as [seen matches]. unfold match_at, spec_match_at. cbn [fst snd]. set (w := take cs _).
  rewrite lookup_window by done. pose proof Hi as [[Hs Hs2] Hnd He (m & _ & _ & Hbit) _]. rewrite Hs, Hs2. fold w.
  destruct (dget (_fingerprint cs w) (fingerprint_table x)) as [e|] eqn:E; [|by destruct (default false _)].
  rewrite Hbit by (apply dget_is_Some; by eexists). cbn [default negb].
  destruct (decide (token_ids e = w)) as [Ew|Ne]; [by rewrite bool_decide_eq_true_2, take_occupant_first|].
  rewrite bool_decide_eq_false_2 by congruence. by rewrite take_occupant_differs.
Qed.

Lemma every_fmap {X Y} (f : X → Y) n l : every n (f <$> l) = (λ p, (p.1, f p.2)) <$> every n l.
Proof.
  unfold every. rewrite length_fmap. induction (seq 0 (length l)) as [|i idx IH]; [done|]. cbn [omap list_omap].
  rewrite list_lookup_fmap. destruct (l !! _); cbn; [by f_equal|done].
Qed.
Lemma foldl_fmap {X Y S} (f : S → Y → S) (g : X → Y) l s : foldl f s (g <$> l) = foldl (λ s x, f s (g x)) s l.
Proof. revert s. induction l as [|x l IH]; intros s; [done|]. cbn. apply IH. Qed.
Lemma elem_every_seq n k j v : (j, v) ∈ every n (seq 0 k) → v = (j * n)%nat ∧ (v < k)%nat.
Proof.
  unfold every. rewrite list_elem_of_omap. intros (i & _ & Hi). destruct (seq 0 k !! (i * n)%nat) as [v'|] eqn:E; [|done].
  injection Hi as -> ->. apply lookup_seq in E as [-> ?]. done.
Qed.

Lemma match_spec x query ns : blend_inv x → (0 < cs)%nat → match_ query ns x = Ret (spec_match cs stride query ns (contents_of (fingerprint_table x))).
Proof.
  intros Hi Hcs. unfold match_, spec_match. rewrite (proj1 (bv_size x Hi)), (proj2 (bv_size x Hi)).
  destruct (Nat.ltb_spec (length query) cs) as [|Hlen]; [done|]. rewrite rolling_windows by done. cbn [py_bind]. do 2 f_equal.
  rewrite every_fmap, !foldl_fmap. apply foldl_ext_in. intros acc [j v] [-> Hv]%elem_every_seq. cbn [fst snd]. rewrite <-match_at_spec by done.
  do 2 f_equal. unfold _fingerprint. rewrite chunk_hash_poly; [done|done|]. rewrite length_take, length_drop. lia.
Qed.
End refinement.

(** C21: the index implements a map from contents to the chunks that hold them.
    After any additions and removals whose contents have different
    fingerprints, none of which raises, a query is answered as by going over
    its windows, looking each of them up by its tokens and taking the
    namespace's first chunk not taken yet: no match is lost to the filter, the
    stride or the table, and none is made up. The running totals are the
    number of contents, of chunks, and of each namespace's claims. *)
Theorem blend_index_refines (chunk_size stride : nat) x0 ops :
  new_blend_index (Z.of_nat chunk_size) (Z.of_nat stride) = Ret x0 →
  (∀ op op', op ∈ ops → op' ∈ ops → length (op_tokens op) = chunk_size → length (op_tokens op') = chunk_size →
     _fingerprint chunk_size (op_tokens op) = _fingerprint chunk_size (op_tokens op') → op_tokens op = op_tokens op') →
  let c := foldl (spec_op chunk_size) [] ops in
  ∃ x, run_ops ops x0 = Ret x ∧ (∀ query ns, match_ query ns x = Ret (spec_match chunk_size stride query ns c)) ∧
    st_num_contents (stats x) = length c ∧ st_num_chunks (stats x) = zsum (λ p, Z.of_nat (length p.2)) c ∧
    ∀ ns, dget ns (claims_by_namespace x) = nonzero (zsum (λ p, claims_of ns p.2) c).
Proof.
  intros Hnew Hcf c. unfold new_blend_index in Hnew. destruct (Z.ltb_spec (Z.of_nat chunk_size) 1) as [|Hcs]; [done|].
  destruct (Z.ltb_spec (Z.of_nat stride) 1) as [|Hst]; [done|]. injection Hnew as <-.
  set (U := λ w, ∃ op, op ∈ ops ∧ op_tokens op = w ∧ length w = chunk_size).
  assert (collision_free U chunk_size) as HU by (intros ? ? (op & ? & <- & ?) (op' & ? & <- & ?); by apply Hcf).
  assert (blend_inv U chunk_size stride (mkBlend (Z.to_nat (Z.of_nat chunk_size)) (Z.to_nat (Z.of_nat stride)) [] (replicate _MIN_TABLE_SIZE false)
    (Z.of_nat _MIN_TABLE_SIZE - 1) 0 0 [])) as Hi0.
  { split; cbn -[_MIN_TABLE_SIZE]; [by rewrite !Nat2Z.id|constructor|by intros p ?%elem_of_nil| |].
    - exists 10%nat. split_and!; [apply length_replicate|done|by intros p ?%elem_of_nil].
    - split_and!; [done|constructor|done]. }
  destruct (run_ops_ok U chunk_size stride HU ops _ Hi0) as (x & E & Hi & Ec).
  { intros op Hop Hl. by exists op. }
  change (contents_of (fingerprint_table x) = c) in Ec.
  exists x. split_and!; [done| | | |].
  - intros query ns. rewrite <-Ec. eapply match_spec; [exact HU|exact Hi|lia].
  - rewrite <-Ec. unfold contents_of. by rewrite length_fmap.
  - destruct (bv_counts _ _ _ _ Hi) as (H1 & _). cbn [stats st_num_chunks]. rewrite H1, <-Ec. unfold contents_of. by rewrite zsum_fmap.
  - intros ns. destruct (bv_counts _ _ _ _ Hi) as (_ & _ & H3). rewrite H3, <-Ec. unfold contents_of. by rewrite zsum_fmap.
Qed.

(** ** Collisions *)

Definition victim_tokens : list Z := [23789; 0; 31644; 23248].
Definition crafted_tokens : list Z := [0; 19693; 0; 0].
Definition tenant (salt : string) : BlendNamespace := mkNamespace "m" salt 1.
Definition demo_index (chunk_size stride : nat) : BlendIndex :=
  mkBlend chunk_size stride [] (replicate _MIN_TABLE_SIZE false) (Z.of_nat _MIN_TABLE_SIZE - 1) 0 0 [].

(** Two contents with the same fingerprint share an entry, which keeps the
    first one's tokens only. The tokens below are small and collide: once one
    tenant stored [victim_tokens] and another [crafted_tokens], a query of the
    second tenant that contains the first's tokens is answered with the chunk of
    [crafted_tokens], which do not occur in it. *)
Theorem blend_collision_wrong_match :
  ∃ x, run_ops [Add victim_tokens [x01] 0 (tenant "a"); Add crafted_tokens [x02] 0 (tenant "b")] (demo_index 4 1) = Ret x ∧
    match_ victim_tokens (tenant "b") x = Ret [mkMatch [x02] 0 0] ∧ crafted_tokens ≠ victim_tokens ∧
    ∀ i, take 4 (drop i victim_tokens) ≠ crafted_tokens.
Proof.
  destruct (run_ops [Add victim_tokens [x01] 0 (tenant "a"); Add crafted_tokens [x02] 0 (tenant "b")] (demo_index 4 1)) as [x|e] eqn:E.
  2: { vm_compute in E. discriminate E. }
  exists x. split; [reflexivity|]. split; [|split; [discriminate|]].
  - assert ((let! x := run_ops [Add victim_tokens [x01] 0 (tenant "a"); Add crafted_tokens [x02] 0 (tenant "b")] (demo_index 4 1) in
      match_ victim_tokens (tenant "b") x) = Ret [mkMatch [x02] 0 0]) as Hm by (vm_compute; reflexivity).
    rewrite E in Hm. exact Hm.
  - intros [|[|[|[|i]]]]; [discriminate..|]. unfold victim_tokens. cbn [drop]. rewrite drop_nil. discriminate.
Qed.

(** ** Witness *)

Definition demo_ops : list blend_op :=
  [Add [1; 2] [x01] 0 (tenant "a"); Add [3; 4] [x02] 2 (tenant "a"); Add [1; 2] [x03] 6 (tenant "b"); RemoveClaim [1; 2] [x01] (tenant "a")].

Lemma blend_index_refines_witness :
  ∃ x, run_ops demo_ops (demo_index 2 1) = Ret x ∧ match_ [9; 3; 4; 1; 2] (tenant "a") x = Ret [mkMatch [x02] 2 1] ∧
    match_ [9; 3; 4; 1; 2] (tenant "b") x = Ret [mkMatch [x03] 6 3] ∧ st_num_chunks (stats x) = 2.
Proof.
  destruct (blend_index_refines 2 1 (demo_index 2 1) demo_ops eq_refl) as (x & E & Hm & _ & Hn & _).
  { intros op op' Hop Hop' _ _. unfold demo_ops in Hop, Hop'. rewrite !elem_of_cons in Hop, Hop'.
    destruct Hop as [->|[->|[->|[->|[]%elem_of_nil]]]], Hop' as [->|[->|[->|[->|[]%elem_of_nil]]]]; vm_compute; congruence. }
  exists x. split; [exact E|]. rewrite !Hm. split; [vm_compute; reflexivity|]. split; [vm_compute; reflexivity|]. exact Hn.
Defined.
