(* ===== verification/EventGate.v ===== *)
(** * Cache events and their admission

    lmcache/v1/mp_coordinator: [CacheEventBatch] (api.py), the broadcaster that
    fans admitted batches out to consumers (ingest/event_broadcaster.py), the
    gate that orders, deduplicates and fences the streams of the fleet's servers
    (ingest/event_gate.py), the read position of the Kafka stream
    (ingest/stream_position.py) and the loop that feeds the gate from it
    (ingest/kafka_event_source.py).

    The views behind the broadcaster are a state [V]; a consumer works on it.
    Clock readings are arguments. Warnings, timings of consumers and metrics
    are not modelled. *)

From stdpp Require Import gmap list strings.
From Stdlib Require Import ZArith Lia Sorted.
From Stdlib Require Import Floats.SpecFloat.
From S2P Require Import Prelude Keys PyFloat Handler.

Open Scope Z_scope.
Open Scope py_scope.
Open Scope handler_scope.

(** ** Batches *)

Inductive Tier := TierL1 | TierL2 | TierALL.
#[export] Instance Tier_eq_dec : EqDecision Tier.
Proof. solve_decision. Defined.

Inductive CacheEventType := STORE | DELETE | ACCESS | CONFIG.
#[export] Instance CacheEventType_eq_dec : EqDecision CacheEventType.
Proof. solve_decision. Defined.

Definition UNKNOWN_TOKEN_OFFSET : Z := -1.

Record CacheEventEntry := mkEventEntry {
  ev_key : EncodedObjectKey;
  ev_size_bytes : Z;
  ev_token_ids : list Z;
  ev_token_offset : Z
}.

(** [CacheEventEntry.__post_init__]. *)
Definition new_event_entry (key : EncodedObjectKey) (size_bytes : Z) (tokens : list Z) (offset : Z) : py CacheEventEntry :=
  if size_bytes <? 0 then Raise ValueError
  else if (offset <? 0) && negb (offset =? UNKNOWN_TOKEN_OFFSET) then Raise ValueError
  else Ret (mkEventEntry key size_bytes tokens offset).

Record CacheEventBatch := mkBatch {
  instance_id : string;
  incarnation : Z;
  seq_no : Z;
  event_type : CacheEventType;
  tier : Tier;
  backend : string;
  entries : list CacheEventEntry;
  shared : bool;
  ts : float;
  capacity_bytes : Z;
  capacity_revision : Z;
  dropped_events : Z
}.

(** [CacheEventBatch.__post_init__]. *)
Definition check_batch (b : CacheEventBatch) : py CacheEventBatch :=
  if bool_decide (instance_id b = EmptyString) then Raise ValueError
  else if bool_decide (backend b = EmptyString) && negb (bool_decide (event_type b = ACCESS)) then Raise ValueError
  else if bool_decide (event_type b = CONFIG) && negb (bool_decide (length (entries b) = 0%nat)) then Raise ValueError
  else if capacity_bytes b <? 0 then Raise ValueError
  else if capacity_revision b <? 0 then Raise ValueError
  else if incarnation b <? 0 then Raise ValueError
  else if seq_no b <? 1 then Raise ValueError
  else if bool_decide (tier b = TierALL) then Raise ValueError
  else if f_lt (ts b) f_zero then Raise ValueError
  else if dropped_events b <? 0 then Raise ValueError
  else Ret b.

(** A batch the constructor accepts. *)
Definition batch_ok (b : CacheEventBatch) : Prop := check_batch b = Ret b.

(** ** The broadcaster *)

(** One registered consumer, on the state of all views. *)
Record Consumer (V : Type) := mkConsumer {
  consume_batch : CacheEventBatch → handler V unit;
  fence_views : string → handler V unit
}.
Arguments mkConsumer {V}.
Arguments consume_batch {V}.
Arguments fence_views {V}.

Record ConsumerStats := mkConsumerStats { batches_delivered : Z; consume_failures : Z; fence_failures : Z }.

(** The consumers in registration order, with their counts. *)
Section broadcaster.
Context {V : Type}.

Definition counted_call (h : handler V unit) (ok failed : ConsumerStats → ConsumerStats) (st : ConsumerStats) (v : V) : ConsumerStats * V :=
  match h v with (Ret _, v') => (ok st, v') | (Raise _, v') => (failed st, v') end.

Definition delivered (failed : bool) (st : ConsumerStats) : ConsumerStats :=
  mkConsumerStats (batches_delivered st + 1) (if failed then consume_failures st + 1 else consume_failures st) (fence_failures st).
Definition fence_failed (st : ConsumerStats) : ConsumerStats :=
  mkConsumerStats (batches_delivered st) (consume_failures st) (fence_failures st + 1).

Fixpoint broadcast (consumers : list (Consumer V * ConsumerStats)) (batch : CacheEventBatch) (v : V)
    : list (Consumer V * ConsumerStats) * V :=
  match consumers with
  | [] => ([], v)
  | (consumer, st) :: consumers' =>
      let '(st, v) := counted_call (consume_batch consumer batch) (delivered false) (delivered true) st v in
      let '(rest, v) := broadcast consumers' batch v in
      ((consumer, st) :: rest, v)
  end.

Fixpoint broadcast_fence (consumers : list (Consumer V * ConsumerStats)) (instance_id : string) (v : V)
    : list (Consumer V * ConsumerStats) * V :=
  match consumers with
  | [] => ([], v)
  | (consumer, st) :: consumers' =>
      let '(st, v) := counted_call (fence_views consumer instance_id) id fence_failed st v in
      let '(rest, v) := broadcast_fence consumers' instance_id v in
      ((consumer, st) :: rest, v)
  end.
End broadcaster.

(** ** The gate *)

Inductive IngestResult := ADMITTED | DUPLICATE | STALE_INCARNATION.
#[export] Instance IngestResult_eq_dec : EqDecision IngestResult.
Proof. solve_decision. Defined.

Record StreamCursor := mkCursor {
  cur_incarnation : Z;
  last_seq : Z;
  gap_detected : bool;
  last_dropped_events : option Z;
  missing_batches : Z;
  events_dropped : Z;
  last_admitted_monotonic : float;
  event_delivery_delay_seconds : option float
}.

Record EventGateStats := mkGateStats {
  batches_applied : Z;
  batches_duplicate : Z;
  batches_stale : Z;
  batches_missing : Z;
  total_events_dropped : Z
}.

Record EventGate (V : Type) := mkGate {
  consumers : list (Consumer V * ConsumerStats);
  views : V;
  cursors : dict string StreamCursor;
  departed : dict string Z;
  gate_stats : EventGateStats
}.
Arguments mkGate {V}.
Arguments consumers {V}.
Arguments views {V}.
Arguments cursors {V}.
Arguments departed {V}.
Arguments gate_stats {V}.

(** Clock readings: [time.monotonic()] and [time.time()]. *)
Record clock := mkClock { monotonic : float; wall : float }.

Section gate.
Context {V : Type}.
Implicit Types (g : EventGate V) (b : CacheEventBatch).

Definition new_gate (cs : list (Consumer V * ConsumerStats)) (v : V) : EventGate V :=
  mkGate cs v [] [] (mkGateStats 0 0 0 0 0).

Definition gate_broadcast b g : EventGate V :=
  let '(cs, v) := broadcast (consumers g) b (views g) in mkGate cs v (cursors g) (departed g) (gate_stats g).
Definition gate_fence (id : string) g : EventGate V :=
  let '(cs, v) := broadcast_fence (consumers g) id (views g) in mkGate cs v (cursors g) (departed g) (gate_stats g).
Definition set_cursors (cu : dict string StreamCursor) g : EventGate V := mkGate (consumers g) (views g) cu (departed g) (gate_stats g).
Definition set_departed (d : dict string Z) g : EventGate V := mkGate (consumers g) (views g) (cursors g) d (gate_stats g).
Definition set_stats (st : EventGateStats) g : EventGate V := mkGate (consumers g) (views g) (cursors g) (departed g) st.

Definition _mark_gap (c : StreamCursor) : StreamCursor :=
  mkCursor (cur_incarnation c) (last_seq c) true (last_dropped_events c) (missing_batches c) (events_dropped c)
    (last_admitted_monotonic c) (event_delivery_delay_seconds c).

(** The loss that batch [b] reveals, on the cursor and on the totals. *)
Definition account_skipped (tracked : bool) b (c : StreamCursor) (st : EventGateStats) : StreamCursor * EventGateStats :=
  let skipped := seq_no b - last_seq c - 1 in
  if 0 <? skipped then
    let c := _mark_gap c in
    if tracked then
      (mkCursor (cur_incarnation c) (last_seq c) (gap_detected c) (last_dropped_events c) (missing_batches c + skipped)
         (events_dropped c) (last_admitted_monotonic c) (event_delivery_delay_seconds c),
       mkGateStats (batches_applied st) (batches_duplicate st) (batches_stale st) (batches_missing st + skipped) (total_events_dropped st))
    else (c, st)
  else (c, st).

Definition account_dropped b (c : StreamCursor) (st : EventGateStats) : StreamCursor * EventGateStats :=
  match last_dropped_events c with
  | None => (c, st)
  | Some last =>
      let dropped := dropped_events b - last in
      if 0 <? dropped then
        let c := _mark_gap c in
        (mkCursor (cur_incarnation c) (last_seq c) (gap_detected c) (last_dropped_events c) (missing_batches c)
           (events_dropped c + dropped) (last_admitted_monotonic c) (event_delivery_delay_seconds c),
         mkGateStats (batches_applied st) (batches_duplicate st) (batches_stale st) (batches_missing st) (total_events_dropped st + dropped))
      else (c, st)
  end.

(** The end of [_admit]: the batch is admitted on cursor [c]. *)
Definition admit_on (now : clock) (tracked : bool) b (c : StreamCursor) g : EventGate V :=
  let '(c, st) := account_skipped tracked b c (gate_stats g) in
  let '(c, st) := account_dropped b c st in
  let c := mkCursor (cur_incarnation c) (seq_no b) (gap_detected c) (Some (dropped_events b)) (missing_batches c) (events_dropped c)
             (monotonic now) (if f_lt f_zero (ts b) then Some (f_sub (wall now) (ts b)) else event_delivery_delay_seconds c) in
  gate_broadcast b (set_stats st (set_cursors (dset (instance_id b) c (cursors g)) g)).

Definition new_cursor (now : clock) (tracked : bool) b : StreamCursor :=
  mkCursor (incarnation b) 0 false (if tracked || (seq_no b =? 1) then Some 0 else None) 0 0 (monotonic now) None.

(** [_admit] once the batch has passed the test for departed instances. *)
Definition admit_stream (now : clock) b g : IngestResult * EventGate V :=
  match dget (instance_id b) (cursors g) with
  | Some cursor =>
      if incarnation b <? cur_incarnation cursor then (STALE_INCARNATION, g)
      else if cur_incarnation cursor <? incarnation b
           then (ADMITTED, admit_on now true b (new_cursor now true b) (gate_fence (instance_id b) g))
      else if seq_no b <=? last_seq cursor then (DUPLICATE, g)
      else (ADMITTED, admit_on now true b cursor g)
  | None => (ADMITTED, admit_on now false b (new_cursor now false b) g)
  end.

Definition _admit (now : clock) b g : IngestResult * EventGate V :=
  match dget (instance_id b) (departed g) with
  | Some d =>
      if d <? incarnation b then admit_stream now b (set_departed (ddel (instance_id b) (departed g)) g)
      else if bool_decide (tier b = TierL1) then (STALE_INCARNATION, g)
      else admit_stream now b g
  | None => admit_stream now b g
  end.

Definition ingest (now : clock) b g : IngestResult * EventGate V :=
  let '(result, g) := _admit now b g in
  let st := gate_stats g in
  (result, set_stats (match result with
     | ADMITTED => mkGateStats (batches_applied st + 1) (batches_duplicate st) (batches_stale st) (batches_missing st) (total_events_dropped st)
     | DUPLICATE => mkGateStats (batches_applied st) (batches_duplicate st + 1) (batches_stale st) (batches_missing st) (total_events_dropped st)
     | STALE_INCARNATION => mkGateStats (batches_applied st) (batches_duplicate st) (batches_stale st + 1) (batches_missing st) (total_events_dropped st)
     end) g).

Record CacheEventIngestSummary := mkSummary { applied : Z; duplicates : Z; stale : Z }.

Fixpoint ingest_loop (batches : list (clock * CacheEventBatch)) (sm : CacheEventIngestSummary) g : CacheEventIngestSummary * EventGate V :=
  match batches with
  | [] => (sm, g)
  | (now, b) :: batches' =>
      let '(result, g) := ingest now b g in
      ingest_loop batches' (match result with
        | ADMITTED => mkSummary (applied sm + 1) (duplicates sm) (stale sm)
        | DUPLICATE => mkSummary (applied sm) (duplicates sm + 1) (stale sm)
        | STALE_INCARNATION => mkSummary (applied sm) (duplicates sm) (stale sm + 1)
        end) g
  end.

(** Each batch with the clock at its turn. *)
Definition ingest_batches (batches : list (clock * CacheEventBatch)) g : CacheEventIngestSummary * EventGate V :=
  ingest_loop batches (mkSummary 0 0 0) g.

Definition drop_instance (id : string) g : EventGate V :=
  let g := gate_fence id g in
  match dget id (cursors g) with
  | None => g
  | Some cursor => set_departed (dset id (cur_incarnation cursor) (departed g)) (set_cursors (ddel id (cursors g)) g)
  end.

Definition readmit_instance (id : string) g : EventGate V := set_departed (ddel id (departed g)) g.

(** ** Durable state *)

(** A captured cursor; older captures lack the last field. *)
Record captured_cursor := mkCaptured { cap_incarnation : Z; cap_last_seq : Z; cap_gap : bool; cap_dropped : option (option Z) }.

Definition capture g : dict string captured_cursor :=
  (λ p : string * StreamCursor, (p.1, mkCaptured (cur_incarnation p.2) (last_seq p.2) (gap_detected p.2) (Some (last_dropped_events p.2)))) <$> cursors g.

Definition restored_cursor (now : clock) (c : captured_cursor) : StreamCursor :=
  mkCursor (cap_incarnation c) (cap_last_seq c) (cap_gap c) (default None (cap_dropped c)) 0 0 (monotonic now) None.

Definition restore (now : clock) (state : dict string captured_cursor) g : py (EventGate V) :=
  match cursors g with
  | _ :: _ => Raise ValueError
  | [] => Ret (set_cursors (foldl (λ d p, dset p.1 (restored_cursor now p.2) d) [] state) g)
  end.
End gate.

(** ** The position in the stream *)

Abbreviation StreamPosition := (dict (string * Z) Z).

Definition record_offset (topic : string) (partition offset : Z) (p : StreamPosition) : StreamPosition := dset (topic, partition) offset p.
Definition next_offset (topic : string) (partition : Z) (p : StreamPosition) : option Z := Z.succ <$> dget (topic, partition) p.
Definition capture_position (p : StreamPosition) : list (string * Z * Z) := (λ q : (string * Z) * Z, (q.1.1, q.1.2, q.2)) <$> p.
Definition restore_position (state : list (string * Z * Z)) : StreamPosition := foldl (λ d q, dset (q.1.1, q.1.2) q.2 d) [] state.

(** A record of the topic: [None] if its value does not decode. *)
Record Message := mkMessage {
  msg_topic : string;
  msg_partition : Z;
  msg_offset : Z;
  msg_batches : option (list (clock * CacheEventBatch))
}.

(** One turn of [_consume_until_stopped] that got a record. *)
Definition consume_message {V} (m : Message) (s : EventGate V * StreamPosition) : EventGate V * StreamPosition :=
  let g := match msg_batches m with Some batches => (ingest_batches batches s.1).2 | None => s.1 end in
  (g, record_offset (msg_topic m) (msg_partition m) (msg_offset m) s.2).

(** ** What the views see

    A delivery is what the broadcaster hands to every consumer. *)

Inductive delivery := Delivered (b : CacheEventBatch) | Fenced (id : string).

Section log.
Context {V : Type}.
Implicit Types (g : EventGate V) (b : CacheEventBatch).

(** Calls on the gate. *)
Inductive gate_call := Ingest (now : clock) (b : CacheEventBatch) | Drop (id : string) | Readmit (id : string).

Definition run_call g (call : gate_call) : EventGate V :=
  match call with Ingest now b => (ingest now b g).2 | Drop id => drop_instance id g | Readmit id => readmit_instance id g end.

Definition deliver (s : list (Consumer V * ConsumerStats) * V) (d : delivery) : list (Consumer V * ConsumerStats) * V :=
  match d with Delivered b => broadcast s.1 b s.2 | Fenced id => broadcast_fence s.1 id s.2 end.
End log.

(** A consumer that writes down what it gets. *)
Definition recorder : Consumer (list delivery) :=
  mkConsumer (λ b, h_modify (λ log, log ++ [Delivered b])) (λ id, h_modify (λ log, log ++ [Fenced id])).

Definition empty_stats : ConsumerStats := mkConsumerStats 0 0 0.

(** What a call hands out, in a gate with these cursors and departures. *)
Definition call_deliveries (cu : dict string StreamCursor) (dep : dict string Z) (call : gate_call) : list delivery :=
  views (run_call (mkGate [(recorder, empty_stats)] [] cu dep (mkGateStats 0 0 0 0 0)) call).

(** *** The effect of a call, without the views *)

Definition admits (cu : dict string StreamCursor) b : bool :=
  match dget (instance_id b) cu with
  | Some c => (cur_incarnation c <? incarnation b) || (cur_incarnation c =? incarnation b) && (last_seq c <? seq_no b)
  | None => true
  end.

Definition restarts (cu : dict string StreamCursor) b : bool :=
  match dget (instance_id b) cu with Some c => cur_incarnation c <? incarnation b | None => false end.

(** The cursor an admitted batch leaves. *)
Definition next_cursor (now : clock) (cu : dict string StreamCursor) b : StreamCursor :=
  let '(tracked, c) := match dget (instance_id b) cu with
                       | Some c => (true, if cur_incarnation c <? incarnation b then new_cursor now true b else c)
                       | None => (false, new_cursor now false b)
                       end in
  let c := (account_skipped tracked b c (mkGateStats 0 0 0 0 0)).1 in
  let c := (account_dropped b c (mkGateStats 0 0 0 0 0)).1 in
  mkCursor (cur_incarnation c) (seq_no b) (gap_detected c) (Some (dropped_events b)) (missing_batches c) (events_dropped c)
    (monotonic now) (if f_lt f_zero (ts b) then Some (f_sub (wall now) (ts b)) else event_delivery_delay_seconds c).

Definition batch_deliveries (cu : dict string StreamCursor) b : list delivery :=
  (if restarts cu b then [Fenced (instance_id b)] else []) ++ [Delivered b].

Section effect.
Context {V : Type}.
Implicit Types (g : EventGate V) (b : CacheEventBatch).

Lemma account_skipped_fst tracked b c st st' : (account_skipped tracked b c st).1 = (account_skipped tracked b c st').1.
Proof. unfold account_skipped. by destruct (0 <? _), tracked. Qed.
Lemma account_dropped_fst b c st st' : (account_dropped b c st).1 = (account_dropped b c st').1.
Proof. unfold account_dropped. destruct (last_dropped_events c); [|done]. by destruct (0 <? _). Qed.

Lemma admit_on_run now tracked b c g :
  ∃ st, admit_on now tracked b c g =
    let c1 := (account_dropped b (account_skipped tracked b c (mkGateStats 0 0 0 0 0)).1 (mkGateStats 0 0 0 0 0)).1 in
    let c2 := mkCursor (cur_incarnation c1) (seq_no b) (gap_detected c1) (Some (dropped_events b)) (missing_batches c1) (events_dropped c1)
      (monotonic now) (if f_lt f_zero (ts b) then Some (f_sub (wall now) (ts b)) else event_delivery_delay_seconds c1) in
    let s := deliver (consumers g, views g) (Delivered b) in
    mkGate s.1 s.2 (dset (instance_id b) c2 (cursors g)) (departed g) st.
Proof.
  unfold admit_on. destruct (account_skipped tracked b c (gate_stats g)) as [c1 st1] eqn:E1.
  destruct (account_dropped b c1 st1) as [c2 st2] eqn:E2. exists st2. cbv zeta.
  rewrite (account_skipped_fst _ _ _ _ (gate_stats g)), E1. cbn [fst]. rewrite (account_dropped_fst _ _ _ st1), E2. cbn [fst].
  unfold gate_broadcast, set_stats, set_cursors, deliver. cbn [consumers views cursors departed gate_stats fst snd].
  by destruct (broadcast (consumers g) b (views g)).
Qed.

(** The gate admits a batch of a stream exactly if it is new, and then hands
    out a fence, if the server restarted, and the batch. *)
Lemma admit_stream_run now b g :
  if admits (cursors g) b then
    ∃ st, admit_stream now b g =
      (ADMITTED, let s := foldl deliver (consumers g, views g) (batch_deliveries (cursors g) b) in
                 mkGate s.1 s.2 (dset (instance_id b) (next_cursor now (cursors g) b) (cursors g)) (departed g) st)
  else ∃ r, r ≠ ADMITTED ∧ admit_stream now b g = (r, g).
Proof.
  unfold admits, admit_stream, batch_deliveries, restarts, next_cursor. destruct (dget (instance_id b) (cursors g)) as [c|] eqn:Ec.
  - destruct (Z.ltb_spec (incarnation b) (cur_incarnation c)) as [Hlt|Hge].
    { rewrite (proj2 (Z.ltb_ge (cur_incarnation c) (incarnation b))), (proj2 (Z.eqb_neq _ _)) by lia. cbn. by exists STALE_INCARNATION. }
    destruct (Z.ltb_spec (cur_incarnation c) (incarnation b)) as [Hlt|Hle]; cbn [orb].
    + destruct (admit_on_run now true b (new_cursor now true b) (gate_fence (instance_id b) g)) as (st & ->). exists st. f_equal.
      cbv zeta. cbn [foldl app]. unfold gate_fence. change (deliver (consumers g, views g) (Fenced (instance_id b)))
        with (broadcast_fence (consumers g) (instance_id b) (views g)).
      by destruct (broadcast_fence (consumers g) (instance_id b) (views g)).
    + rewrite (proj2 (Z.eqb_eq (cur_incarnation c) (incarnation b))) by lia. cbn [andb].
      destruct (Z.leb_spec (seq_no b) (last_seq c)); [rewrite (proj2 (Z.ltb_ge _ _)) by lia; by exists DUPLICATE|].
      rewrite (proj2 (Z.ltb_lt _ _)) by lia. destruct (admit_on_run now true b c g) as (st & ->). by exists st.
  - destruct (admit_on_run now false b (new_cursor now false b) g) as (st & ->). by exists st.
Qed.

(** Departed servers: their late L1 batches are refused, a new incarnation
    lifts the mark. *)
Definition barred (dep : dict string Z) b : bool :=
  match dget (instance_id b) dep with Some d => negb (d <? incarnation b) && bool_decide (tier b = TierL1) | None => false end.
Definition lifted (dep : dict string Z) b : dict string Z :=
  match dget (instance_id b) dep with Some d => if d <? incarnation b then ddel (instance_id b) dep else dep | None => dep end.

Lemma ingest_run now b g :
  let '(r, g') := ingest now b g in
  if negb (barred (departed g) b) && admits (cursors g) b then
    ∃ st, r = ADMITTED ∧ g' = let s := foldl deliver (consumers g, views g) (batch_deliveries (cursors g) b) in
             mkGate s.1 s.2 (dset (instance_id b) (next_cursor now (cursors g) b) (cursors g)) (lifted (departed g) b) st
  else ∃ st, r ≠ ADMITTED ∧ g' = mkGate (consumers g) (views g) (cursors g) (if barred (departed g) b then departed g else lifted (departed g) b) st.
Proof.
  unfold ingest, _admit, barred, lifted. destruct (dget (instance_id b) (departed g)) as [d|] eqn:Ed.
  - destruct (d <? incarnation b); cbn [negb andb].
    + pose proof (admit_stream_run now b (set_departed (ddel (instance_id b) (departed g)) g)) as H. cbn [set_departed cursors consumers views departed] in H.
      destruct (admits (cursors g) b); [destruct H as (st & ->)|destruct H as (r & Hr & ->)]; cbn [set_stats consumers views cursors departed gate_stats].
      * by eexists.
      * eexists. split; [done|]. reflexivity.
    + case_bool_decide as Htier; cbn [negb andb]; [by eexists|]. pose proof (admit_stream_run now b g) as H.
      destruct (admits (cursors g) b); [destruct H as (st & ->); by eexists|destruct H as (r & Hr & ->); by eexists].
  - cbn [negb andb]. pose proof (admit_stream_run now b g) as H.
    destruct (admits (cursors g) b); [destruct H as (st & ->); by eexists|destruct H as (r & Hr & ->); by eexists].
Qed.
End effect.

(** ** Streams are delivered once and in order *)

(** The batches of a server delivered since its L1 state was last voided. *)
Definition since_step (id : string) (seg : list CacheEventBatch) (d : delivery) : list CacheEventBatch :=
  match d with
  | Delivered b => if decide (instance_id b = id) then seg ++ [b] else seg
  | Fenced j => if decide (j = id) then [] else seg
  end.
Definition since_fence (id : string) (log : list delivery) : list CacheEventBatch := foldl (since_step id) [] log.

(** What a cursor says about the batches delivered on it. *)
Record stream_ok (c : StreamCursor) (seg : list CacheEventBatch) : Prop := {
  so_incarnation : ∀ b, b ∈ seg → incarnation b = cur_incarnation c;
  so_sorted : StronglySorted Z.lt (seq_no <$> seg);
  so_last : last (seq_no <$> seg) = Some (last_seq c);
  so_complete : gap_detected c = false → seq_no <$> seg = seqZ 1 (last_seq c);
  so_loss : ∃ lead, last_seq c = Z.of_nat (length seg) + missing_batches c + lead ∧ (lead = 0 ∨ seq_no <$> head seg = Some (lead + 1))
}.

(** The deliveries of a history. *)
Definition deliveries (calls : list gate_call) : list delivery :=
  views (foldl run_call (new_gate [(recorder, empty_stats)] []) calls).

(** The cursor a batch continues, and whether its losses count. *)
Definition base_cursor (now : clock) (cu : dict string StreamCursor) b : bool * StreamCursor :=
  match dget (instance_id b) cu with
  | Some c => (true, if cur_incarnation c <? incarnation b then new_cursor now true b else c)
  | None => (false, new_cursor now false b)
  end.

Lemma next_cursor_spec now cu b :
  let '(tracked, c) := base_cursor now cu b in
  let c' := next_cursor now cu b in
  cur_incarnation c' = cur_incarnation c ∧ last_seq c' = seq_no b ∧
  (gap_detected c' = false → gap_detected c = false ∧ seq_no b <= last_seq c + 1) ∧
  missing_batches c' = missing_batches c + (if tracked then Z.max 0 (seq_no b - last_seq c - 1) else 0) ∧
  last_dropped_events c' = Some (dropped_events b).
Proof.
  unfold next_cursor. change (match dget (instance_id b) cu with Some c => _ | None => _ end) with (base_cursor now cu b).
  destruct (base_cursor now cu b) as [tracked c]. unfold account_skipped, account_dropped.
  destruct (Z.ltb_spec 0 (seq_no b - last_seq c - 1)); destruct tracked; cbn [fst]; cbv zeta;
    cbn [_mark_gap cur_incarnation last_seq gap_detected last_dropped_events missing_batches events_dropped];
    (destruct (last_dropped_events c) as [d|]; [destruct (0 <? dropped_events b - d)|]);
    cbn [fst _mark_gap cur_incarnation last_seq gap_detected last_dropped_events missing_batches]; split_and!; (done || lia || (intros ?; split; [done|lia])).
Qed.

Lemma recorder_delivers st log ds : ∃ st', foldl deliver ([(recorder, st)], log) ds = ([(recorder, st')], log ++ ds).
Proof.
  revert st log. induction ds as [|d ds IH]; intros st log; [exists st; by rewrite app_nil_r|]. cbn [foldl].
  destruct d; cbn [deliver broadcast broadcast_fence counted_call recorder consume_batch fence_views h_modify fst snd];
    match goal with |- context [foldl _ ([(_, ?s)], ?l) _] => destruct (IH s l) as (st' & ->) end; exists st'; by rewrite <-app_assoc.
Qed.

(** What a call hands out and where it leaves cursors and departures do not
    depend on the views. *)
Definition call_effect (cu : dict string StreamCursor) (dep : dict string Z) (call : gate_call)
    : list delivery * dict string StreamCursor * dict string Z :=
  match call with
  | Ingest now b =>
      if barred dep b then ([], cu, dep)
      else if admits cu b then (batch_deliveries cu b, dset (instance_id b) (next_cursor now cu b) cu, lifted dep b)
      else ([], cu, lifted dep b)
  | Drop id => match dget id cu with
               | Some c => ([Fenced id], ddel id cu, dset id (cur_incarnation c) dep)
               | None => ([Fenced id], cu, dep)
               end
  | Readmit id => ([], cu, ddel id dep)
  end.

Lemma run_call_effect {V} (g : EventGate V) call :
  let '(ds, cu, dep) := call_effect (cursors g) (departed g) call in
  let g' := run_call g call in
  (consumers g', views g') = foldl deliver (consumers g, views g) ds ∧ cursors g' = cu ∧ departed g' = dep.
Proof.
  destruct call as [now b|id|id]; cbn [call_effect run_call].
  - pose proof (ingest_run now b g) as H. destruct (ingest now b g) as [r g']. cbn [snd].
    destruct (barred (departed g) b); cbn [negb andb] in H; [by destruct H as (st & _ & ->)|].
    destruct (admits (cursors g) b); destruct H as (st & _ & ->); [|done]. cbv zeta. cbn [consumers views cursors departed].
    split_and!; [|done|done]. by destruct (foldl deliver _ _).
  - unfold drop_instance, gate_fence. destruct (broadcast_fence (consumers g) id (views g)) as [cs v] eqn:E. cbn [cursors].
    destruct (dget id (cursors g)); cbn; by rewrite E.
  - done.
Qed.

Section runs.
Context {V : Type} (cs : list (Consumer V * ConsumerStats)) (v : V).

Lemma run_simulates calls :
  let g := foldl run_call (new_gate cs v) calls in
  let gr := foldl run_call (new_gate [(recorder, empty_stats)] []) calls in
  cursors g = cursors gr ∧ departed g = departed gr ∧ (consumers g, views g) = foldl deliver (cs, v) (views gr) ∧
  ∃ st, consumers gr = [(recorder, st)].
Proof.
  induction calls as [|call calls IH] using rev_ind; [split_and!; try done; by exists empty_stats|].
  cbv zeta in IH |- *. rewrite !foldl_app. cbn [foldl]. set (g := foldl run_call (new_gate cs v) calls) in *. set (gr := foldl run_call (new_gate [(recorder, empty_stats)] []) calls) in *.
  destruct IH as (E1 & E2 & E3 & st & E4). pose proof (run_call_effect g call) as H. pose proof (run_call_effect gr call) as Hr.
  rewrite E1, E2 in H. destruct (call_effect (cursors gr) (departed gr) call) as [[ds cu] dep].
  cbv zeta in H, Hr. destruct H as (F1 & F2 & F3), Hr as (R1 & R2 & R3). rewrite E4 in R1. destruct (recorder_delivers st (views gr) ds) as (st' & E). rewrite E in R1.
  injection R1 as R1 R1'. cbv zeta. split_and!; [congruence|congruence| |by exists st'].
  rewrite R1', foldl_app, <-E3. exact F1.
Qed.
End runs.

Lemma since_fence_app id log d : since_fence id (log ++ [d]) = since_step id (since_fence id log) d.
Proof. unfold since_fence. by rewrite foldl_app. Qed.

Lemma since_deliveries id log cu b :
  since_fence id (log ++ batch_deliveries cu b) =
  if decide (instance_id b = id) then (if restarts cu b then [] else since_fence id log) ++ [b] else since_fence id log.
Proof.
  unfold batch_deliveries, since_fence. rewrite !foldl_app. destruct (restarts cu b); cbn [foldl app since_step]; repeat case_decide; done.
Qed.

(** Admitting the next batch of a stream. *)
Lemma stream_extended now cu b seg :
  1 <= seq_no b → admits cu b = true →
  match dget (instance_id b) cu with Some c => stream_ok c seg | None => seg = [] end →
  stream_ok (next_cursor now cu b) ((if restarts cu b then [] else seg) ++ [b]).
Proof.
  intros Hs Ha Hseg. pose proof (next_cursor_spec now cu b) as Hc. unfold base_cursor, admits, restarts in *.
  destruct (dget (instance_id b) cu) as [c|].
  - destruct (Z.ltb_spec (cur_incarnation c) (incarnation b)) as [Hlt|Hge]; cbn [orb] in *.
    + destruct Hc as (H1 & H2 & H3 & H4 & _). cbn in H1, H2, H3, H4. split; cbn.
      * by intros b' ->%list_elem_of_singleton.
      * repeat constructor.
      * by rewrite H2.
      * intros Hg. destruct (H3 Hg) as [_ ?]. rewrite H2. by replace (seq_no b) with 1 by lia.
      * exists 0. rewrite H2, H4. split; [lia|by left].
    + apply andb_true_iff in Ha as [He Hl]. apply Z.eqb_eq in He. apply Z.ltb_lt in Hl. destruct Hc as (H1 & H2 & H3 & H4 & _). destruct Hseg as [S1 S2 S3 S4 S5].
      assert (seg ≠ []) as Hne by (intros ->; done). split.
      * intros b' [?| ->%list_elem_of_singleton]%elem_of_app; [rewrite H1; by apply S1|congruence].
      * rewrite fmap_app. apply last_Some in S3 as [l' El]. rewrite El in S2 |- *. clear -S2 Hl. induction l' as [|x l' IH]; cbn in *.
        { repeat constructor. done. }
        apply StronglySorted_inv in S2 as [S2 Hx]. constructor; [by apply IH|]. apply Forall_app. split; [done|]. repeat constructor.
        rewrite Forall_app in Hx. destruct Hx as [_ Hx%Forall_inv]. lia.
      * rewrite fmap_app, last_app. cbn. by rewrite H2.
      * intros Hg. destruct (H3 Hg) as [Hg' Hle]. rewrite fmap_app, (S4 Hg'), H2. replace (seq_no b) with (last_seq c + 1) by lia.
        assert (0 <= last_seq c) as Hp.
        { pose proof (f_equal length (S4 Hg')) as E4. rewrite length_fmap, length_seqZ in E4. destruct seg; [done|]. cbn in E4. lia. }
        rewrite seqZ_app by lia. f_equal. change (seqZ (1 + last_seq c) 1) with [0 + (1 + last_seq c)]. cbn. f_equal. lia.
      * destruct S5 as (lead & E & Hlead). exists lead. rewrite H2, H4, length_app. cbn. split; [lia|]. destruct seg; [done|]. exact Hlead.
  - subst seg. destruct Hc as (H1 & H2 & H3 & H4 & _). cbn in H1, H2, H3, H4. split; cbn.
    + by intros b' ->%list_elem_of_singleton.
    + repeat constructor.
    + by rewrite H2.
    + intros Hg. destruct (H3 Hg) as [_ ?]. rewrite H2. by replace (seq_no b) with 1 by lia.
    + exists (seq_no b - 1). rewrite H2, H4. split; [lia|]. right. f_equal. lia.
Qed.

Lemma streams_ok calls :
  (∀ now b, Ingest now b ∈ calls → batch_ok b) →
  let gr := foldl run_call (new_gate [(recorder, empty_stats)] []) calls in
  ∀ id, match dget id (cursors gr) with Some c => stream_ok c (since_fence id (views gr)) | None => since_fence id (views gr) = [] end.
Proof.
  induction calls as [|call calls IH] using rev_ind; intros Hok gr id; [done|].
  assert (∀ now b, Ingest now b ∈ calls → batch_ok b) as Hok' by (intros now b Hb; apply (Hok now); apply elem_of_app; by left).
  specialize (IH Hok'). cbv zeta in IH. unfold gr. rewrite foldl_app. cbn [foldl].
  set (g := foldl run_call (new_gate [(recorder, empty_stats)] []) calls) in *.
  destruct (run_simulates [(recorder, empty_stats)] [] calls) as (_ & _ & _ & st & E4). fold g in E4.
  pose proof (run_call_effect g call) as H. destruct (call_effect (cursors g) (departed g) call) as [[ds cu] dep] eqn:Ee.
  cbv zeta in H. destruct H as (H1 & H2 & _). rewrite E4 in H1. destruct (recorder_delivers st (views g) ds) as (st' & E). rewrite E in H1.
  injection H1 as _ H1. rewrite H1, H2. clear st' E H1 H2 E4. destruct call as [now b|j|j]; cbn [call_effect] in Ee.
  - destruct (barred (departed g) b); [injection Ee as <- <- _; rewrite app_nil_r; apply IH|].
    destruct (admits (cursors g) b) eqn:Ea; [|injection Ee as <- <- _; rewrite app_nil_r; apply IH]. injection Ee as <- <- _.
    rewrite since_deliveries, dget_dset. destruct (decide (instance_id b = id)) as [<-|Hne]; [|apply IH].
    apply stream_extended; [|done|apply IH]. specialize (Hok now b ltac:(apply elem_of_app; right; left)). unfold batch_ok, check_batch in Hok.
    repeat (case_match; [done|]). by apply Z.ltb_ge.
  - assert (ds = [Fenced j] ∧ cu = ddel j (cursors g)) as [-> ->].
    { destruct (dget j (cursors g)) as [c|] eqn:Ec; injection Ee as <- <- _; [done|]. split; [done|]. by rewrite ddel_notin by (by apply dget_None). }
    rewrite since_fence_app, dget_ddel. cbn [since_step]. destruct (decide (j = id)); [done|apply IH].
  - injection Ee as <- <- _. rewrite app_nil_r. apply IH.
Qed.

(** C4: every server's stream reaches the views once and in order. Whatever
    batches are offered, in whatever order and however often, and whichever
    servers leave and come back: the views see one log of deliveries, and what
    it holds of a server since its L1 state was last voided are batches of one
    incarnation, the one of its cursor, in increasing order of their numbers,
    up to the cursor's. If the cursor reports no gap, these are all batches of
    the incarnation, from the first on; otherwise the cursor's count of missing
    batches is the difference, up to the start of a stream joined midway. *)
Theorem gate_delivers_in_order {V} (cs : list (Consumer V * ConsumerStats)) (v : V) calls :
  (∀ now b, Ingest now b ∈ calls → batch_ok b) →
  let g := foldl run_call (new_gate cs v) calls in
  (consumers g, views g) = foldl deliver (cs, v) (deliveries calls) ∧
  ∀ id, match dget id (cursors g) with
        | Some c => stream_ok c (since_fence id (deliveries calls))
        | None => since_fence id (deliveries calls) = []
        end.
Proof.
  intros Hok g. destruct (run_simulates cs v calls) as (E1 & _ & E3 & _). cbv zeta in E1, E3. fold g in E1, E3.
  split; [exact E3|]. rewrite E1. by apply streams_ok.
Qed.

(** ** Restarting the coordinator *)

(** What a checkpoint keeps of a cursor decides what the gate does. *)
Definition core (c : StreamCursor) : Z * Z * bool * option Z := (cur_incarnation c, last_seq c, gap_detected c, last_dropped_events c).
Definition cores (cu : dict string StreamCursor) : dict string (Z * Z * bool * option Z) := (λ p : string * StreamCursor, (p.1, core p.2)) <$> cu.

Lemma dget_cores id cu : dget id (cores cu) = core <$> dget id cu.
Proof. unfold cores. induction cu as [|[j c] cu IH]; [done|]. rewrite fmap_cons. cbn [dget fst snd]. by case_decide. Qed.
Lemma cores_dset id c cu : cores (dset id c cu) = dset id (core c) (cores cu).
Proof.
  unfold cores. induction cu as [|[j c'] cu IH]; [done|]. cbn [dset]. rewrite fmap_cons. cbn [dset fst snd]. case_decide; [done|].
  rewrite fmap_cons. cbn [fst snd]. by f_equal.
Qed.

Lemma core_eq_fields c c' :
  core c = core c' → cur_incarnation c = cur_incarnation c' ∧ last_seq c = last_seq c' ∧ gap_detected c = gap_detected c' ∧ last_dropped_events c = last_dropped_events c'.
Proof. unfold core. by intros [= -> -> -> ->]. Qed.

(** The cursor fields kept by a checkpoint evolve on their own. *)
Lemma skipped_core tracked tracked' b c c' st : core c = core c' → core (account_skipped tracked b c st).1 = core (account_skipped tracked' b c' st).1.
Proof.
  destruct c, c'. unfold core, account_skipped. cbn. intros [= -> -> -> ->]. destruct (0 <? _); [|done]. by destruct tracked, tracked'.
Qed.
Lemma dropped_core b c c' st : core c = core c' → core (account_dropped b c st).1 = core (account_dropped b c' st).1.
Proof.
  destruct c, c'. unfold core, account_dropped. cbn. intros [= -> -> -> ->]. case_match; [|done]. by destruct (0 <? _).
Qed.
Lemma accounted_core tracked tracked' b c c' st :
  core c = core c' → core (account_dropped b (account_skipped tracked b c st).1 st).1 = core (account_dropped b (account_skipped tracked' b c' st).1 st).1.
Proof. intros E. by apply dropped_core, skipped_core. Qed.

Lemma next_core now now' cu cu' b : cores cu = cores cu' → core (next_cursor now cu b) = core (next_cursor now' cu' b).
Proof.
  intros E. assert (core <$> dget (instance_id b) cu = core <$> dget (instance_id b) cu') as Ed by (by rewrite <-!dget_cores, E).
  unfold next_cursor. set (st := mkGateStats 0 0 0 0 0).
  assert (∀ tr c c', core c = core c' → ∀ c1 c1', c1 = (account_dropped b (account_skipped tr b c st).1 st).1 →
    c1' = (account_dropped b (account_skipped tr b c' st).1 st).1 → cur_incarnation c1 = cur_incarnation c1' ∧ gap_detected c1 = gap_detected c1') as Hacc.
  { intros tr c c' Ec c1 c1' -> ->. destruct (core_eq_fields _ _ (accounted_core tr tr b c c' st Ec)) as (? & _ & ? & _). done. }
  destruct (dget (instance_id b) cu) as [c|], (dget (instance_id b) cu') as [c'|]; try done.
  - cbn in Ed. injection Ed as Ei El Eg Edr.
    assert (core (if cur_incarnation c <? incarnation b then new_cursor now true b else c) =
            core (if cur_incarnation c' <? incarnation b then new_cursor now' true b else c')) as Eb.
    { rewrite <-Ei. destruct (_ <? _); [done|]. unfold core. congruence. }
    destruct (Hacc true _ _ Eb _ _ eq_refl eq_refl) as [H1 H2]. unfold core. cbn. by rewrite H1, H2.
  - destruct (Hacc false (new_cursor now false b) (new_cursor now' false b) eq_refl _ _ eq_refl eq_refl) as [H1 H2]. unfold core. cbn. by rewrite H1, H2.
Qed.

(** Gates in the same state but for their counters. *)
Definition similar {V} (g g' : EventGate V) : Prop :=
  (consumers g).*1 = (consumers g').*1 ∧ views g = views g' ∧ cores (cursors g) = cores (cursors g') ∧ departed g = [] ∧ departed g' = [].

Section recovery.
Context {V : Type}.
Implicit Types (g : EventGate V) (b : CacheEventBatch).

Lemma deliver_frame (s : list (Consumer V * ConsumerStats) * V) d : (deliver s d).1.*1 = s.1.*1.
Proof.
  destruct s as [cs v]. cbn [fst]. destruct d as [b|id]; cbn [deliver fst snd]; revert v; induction cs as [|[c st] cs IH]; intros v; try done; cbn [broadcast broadcast_fence].
  - destruct (counted_call _ _ _ st v) as [st1 v1]. specialize (IH v1). destruct (broadcast cs b v1). cbn in *. by f_equal.
  - destruct (counted_call _ _ _ st v) as [st1 v1]. specialize (IH v1). destruct (broadcast_fence cs id v1). cbn in *. by f_equal.
Qed.

Lemma counted_call_view (h : handler V unit) ok ok' failed failed' st st' v : (counted_call h ok failed st v).2 = (counted_call h ok' failed' st' v).2.
Proof. unfold counted_call. by destruct (h v) as [[]]. Qed.

Lemma deliver_similar cs cs' v d : cs.*1 = cs'.*1 → (@deliver V (cs, v) d).2 = (deliver (cs', v) d).2.
Proof.
  intros E. destruct d as [b|id]; cbn [deliver fst snd]; revert cs' v E; induction cs as [|[c st] cs IH]; intros [|[c' st'] cs'] v E; try done;
    rewrite !fmap_cons in E; injection E as <- E; cbn [broadcast broadcast_fence].
  - pose proof (counted_call_view (consume_batch c b) (delivered false) (delivered false) (delivered true) (delivered true) st st' v) as Ev.
    destruct (counted_call _ _ _ st v) as [st1 v1], (counted_call _ _ _ st' v) as [st1' v1']. cbn in Ev. subst v1'. specialize (IH cs' v1 E).
    by destruct (broadcast cs b v1), (broadcast cs' b v1).
  - pose proof (counted_call_view (fence_views c id) (λ x, x) (λ x, x) fence_failed fence_failed st st' v) as Ev.
    destruct (counted_call _ _ _ st v) as [st1 v1], (counted_call _ _ _ st' v) as [st1' v1']. cbn in Ev. subst v1'. specialize (IH cs' v1 E).
    by destruct (broadcast_fence cs id v1), (broadcast_fence cs' id v1).
Qed.

Lemma deliveries_similar (cs cs' : list (Consumer V * ConsumerStats)) (v : V) ds :
  cs.*1 = cs'.*1 → let s := foldl deliver (cs, v) ds in let s' := foldl deliver (cs', v) ds in s.1.*1 = s'.1.*1 ∧ s.2 = s'.2.
Proof.
  revert cs cs' v. induction ds as [|d ds IH]; intros cs cs' v E; [done|]. cbn [foldl].
  pose proof (deliver_frame (cs, v) d) as F. pose proof (deliver_frame (cs', v) d) as F'. pose proof (deliver_similar cs cs' v d E) as Ev.
  destruct (deliver (cs, v) d) as [cs1 v1], (deliver (cs', v) d) as [cs1' v1']. cbn in F, F', Ev. subst v1'. apply IH. congruence.
Qed.

Lemma ingest_effect now b g :
  departed g = [] →
  let g' := (ingest now b g).2 in
  departed g' = [] ∧
  if admits (cursors g) b then
    (consumers g', views g') = foldl deliver (consumers g, views g) (batch_deliveries (cursors g) b) ∧
    cursors g' = dset (instance_id b) (next_cursor now (cursors g) b) (cursors g)
  else (consumers g', views g') = (consumers g, views g) ∧ cursors g' = cursors g.
Proof.
  intros Hd. pose proof (run_call_effect g (Ingest now b)) as H. unfold call_effect, barred, lifted in H. rewrite Hd in H. cbn [dget] in H.
  cbn [run_call] in H. destruct (admits (cursors g) b); cbv zeta in H; destruct H as (H1 & H2 & H3); cbv zeta; done.
Qed.

Lemma similar_ingest now now' b g g' : similar g g' → similar (ingest now b g).2 (ingest now' b g').2.
Proof.
  intros (E1 & E2 & E3 & E4 & E5). destruct (ingest_effect now b g E4) as [F1 F2], (ingest_effect now' b g' E5) as [G1 G2].
  assert (core <$> dget (instance_id b) (cursors g) = core <$> dget (instance_id b) (cursors g')) as Ed by (by rewrite <-!dget_cores, E3).
  assert (admits (cursors g) b = admits (cursors g') b ∧ batch_deliveries (cursors g) b = batch_deliveries (cursors g') b) as [Ea Eb].
  { unfold admits, batch_deliveries, restarts. destruct (dget _ (cursors g)) as [c|], (dget _ (cursors g')) as [c'|]; try done.
    cbn in Ed. injection Ed as -> -> _ _. done. }
  unfold similar. rewrite <-Ea, <-Eb in G2. destruct (admits (cursors g) b).
  - destruct F2 as [F2 F3], G2 as [G2 G3]. pose proof (deliveries_similar (consumers g) (consumers g') (views g) (batch_deliveries (cursors g) b) E1) as [D1 D2].
    rewrite <-E2, <-F2 in *. rewrite <-G2 in D1, D2. cbn [fst snd] in D1, D2. rewrite F3, G3, !cores_dset, E3, (next_core now now' _ _ b E3). done.
  - destruct F2 as [F2 F3], G2 as [G2 G3]. injection F2 as -> ->. injection G2 as -> ->. rewrite F3, G3. done.
Qed.

Lemma similar_refl g : departed g = [] → similar g g.
Proof. done. Qed.
Lemma similar_trans g1 g2 g3 : similar g1 g2 → similar g2 g3 → similar g1 g3.
Proof. intros (?&?&?&?&?) (?&?&?&?&?). split_and!; congruence. Qed.

(** A batch the gate has dealt with: offering it again changes nothing. *)
Definition covered b (cu : dict string StreamCursor) : Prop :=
  ∃ c, dget (instance_id b) cu = Some c ∧ (incarnation b < cur_incarnation c ∨ incarnation b = cur_incarnation c ∧ seq_no b <= last_seq c).

Lemma covered_refused b cu : covered b cu → admits cu b = false.
Proof.
  intros (c & E & H). unfold admits. rewrite E. apply orb_false_iff. split; [apply Z.ltb_ge; lia|].
  apply andb_false_iff. destruct H as [?|[? ?]]; [left; apply Z.eqb_neq; lia|right; apply Z.ltb_ge; lia].
Qed.

Lemma admits_covers now b cu : covered b (if admits cu b then dset (instance_id b) (next_cursor now cu b) cu else cu).
Proof.
  destruct (admits cu b) eqn:Ea.
  - exists (next_cursor now cu b). rewrite dget_dset_eq. split; [done|]. pose proof (next_cursor_spec now cu b) as Hc. unfold base_cursor, admits in *.
    destruct (dget (instance_id b) cu) as [c|]; destruct Hc as (H1 & H2 & _); [|right; rewrite H1, H2; cbn; lia].
    destruct (Z.ltb_spec (cur_incarnation c) (incarnation b)); [right; rewrite H1, H2; cbn; lia|]. cbn [orb] in Ea.
    apply andb_true_iff in Ea as [Ea _]. apply Z.eqb_eq in Ea. right. rewrite H1, H2. lia.
  - unfold admits, covered in *. destruct (dget (instance_id b) cu) as [c|]; [|done]. exists c. split; [done|]. apply orb_false_iff in Ea as [Ea1 Ea2].
    apply Z.ltb_ge in Ea1. apply andb_false_iff in Ea2 as [Ea2|Ea2]; [apply Z.eqb_neq in Ea2; left; lia|apply Z.ltb_ge in Ea2; lia].
Qed.

Lemma covered_kept now b b' cu :
  covered b' cu → admits cu b = true → covered b' (dset (instance_id b) (next_cursor now cu b) cu).
Proof.
  intros (c & E & H) Ha. unfold covered. rewrite dget_dset. destruct (decide (instance_id b = instance_id b')) as [Ei|Ne]; [|by exists c].
  exists (next_cursor now cu b). split; [done|]. pose proof (next_cursor_spec now cu b) as Hc. unfold base_cursor, admits in *. rewrite Ei, E in *.
  destruct Hc as (H1 & H2 & _). destruct (Z.ltb_spec (cur_incarnation c) (incarnation b)) as [Hlt|Hge]; [left; rewrite H1; cbn; lia|]. cbn [orb] in Ha.
  apply andb_true_iff in Ha as [Ha1 Ha2]. apply Z.ltb_lt in Ha2. rewrite H1, H2. lia.
Qed.

(** The gate after a list of batches. *)
Definition ingest_all (batches : list (clock * CacheEventBatch)) g : EventGate V := foldl (λ g p, (ingest p.1 p.2 g).2) g batches.

Lemma ingest_batches_all batches g : (ingest_batches batches g).2 = ingest_all batches g.
Proof.
  unfold ingest_batches, ingest_all. generalize (mkSummary 0 0 0). revert g.
  induction batches as [|[now b] batches IH]; intros g sm; [done|]. cbn [ingest_loop foldl fst snd]. destruct (ingest now b g) as [r g'] eqn:E. cbn [snd]. apply IH.
Qed.

Lemma ingest_all_covers batches g :
  departed g = [] → departed (ingest_all batches g) = [] ∧
  (∀ b, covered b (cursors g) → covered b (cursors (ingest_all batches g))) ∧ ∀ p, p ∈ batches → covered p.2 (cursors (ingest_all batches g)).
Proof.
  revert g. induction batches as [|[now b] batches IH]; intros g Hd; [split_and!; [done|done|by intros p ?%elem_of_nil]|]. cbn [ingest_all foldl fst snd].
  destruct (ingest_effect now b g Hd) as [F1 F2]. destruct (IH _ F1) as (H1 & H2 & H3). split; [exact H1|].
  assert (∀ b', covered b' (cursors g) → covered b' (cursors (ingest now b g).2)) as Hk.
  { intros b' Hb'. destruct (admits (cursors g) b) eqn:Ea; destruct F2 as [_ ->]; [by apply covered_kept|done]. }
  split; [intros b' Hb'; by apply H2, Hk|]. intros p [->|Hp]%elem_of_cons; [|by apply H3]. cbn [snd]. apply H2.
  pose proof (admits_covers now b (cursors g)) as Hc. destruct (admits (cursors g) b); destruct F2 as [_ ->]; exact Hc.
Qed.

(** Replaying batches the gate has dealt with changes nothing. *)
Lemma replay_noop batches g : departed g = [] → (∀ p, p ∈ batches → covered p.2 (cursors g)) → similar g (ingest_all batches g).
Proof.
  revert g. induction batches as [|[now b] batches IH]; intros g Hd Hc; [by apply similar_refl|]. cbn [ingest_all foldl fst snd].
  destruct (ingest_effect now b g Hd) as [F1 F2]. rewrite (covered_refused b (cursors g)) in F2 by (apply (Hc (now, b)); left). destruct F2 as [F2 F3].
  injection F2 as F2 F2'. eapply similar_trans; [|apply IH; [exact F1|]].
  - unfold similar. rewrite F2, F2', F3. done.
  - rewrite F3. intros p Hp. apply Hc. by right.
Qed.

Lemma similar_all batches g g' : similar g g' → similar (ingest_all batches g) (ingest_all batches g').
Proof. revert g g'. induction batches as [|[now b] batches IH]; intros g g' Hs; [done|]. cbn [ingest_all foldl]. by apply IH, similar_ingest. Qed.
End recovery.

Section restart.
Context {V : Type}.
Implicit Types (g : EventGate V).

(** Reading messages in a row. *)
Definition consume_messages (ms : list Message) (s : EventGate V * StreamPosition) : EventGate V * StreamPosition :=
  foldl (λ s m, consume_message m s) s ms.

Definition batches_of (ms : list Message) : list (clock * CacheEventBatch) := ms ≫= λ m, default [] (msg_batches m).

Lemma consume_messages_split ms s :
  (consume_messages ms s).1 = ingest_all (batches_of ms) s.1 ∧
  (consume_messages ms s).2 = foldl (λ p m, record_offset (msg_topic m) (msg_partition m) (msg_offset m) p) s.2 ms.
Proof.
  revert s. induction ms as [|m ms IH]; intros s; [done|]. unfold consume_messages, batches_of in *. cbn [foldl]. rewrite bind_cons.
  destruct (IH (consume_message m s)) as [-> ->]. unfold consume_message. cbn [fst snd]. split; [|done]. unfold ingest_all. rewrite foldl_app. f_equal.
  destruct (msg_batches m); [apply ingest_batches_all|done].
Qed.

Lemma ingest_all_NoDup batches g : departed g = [] → NoDup (dkeys (cursors g)) → NoDup (dkeys (cursors (ingest_all batches g))).
Proof.
  revert g. induction batches as [|[now b] batches IH]; intros g Hd Hn; [done|]. cbn [ingest_all foldl fst snd].
  destruct (ingest_effect now b g Hd) as [F1 F2]. apply IH; [exact F1|]. destruct (admits (cursors g) b); destruct F2 as [_ ->]; [by apply NoDup_dset|done].
Qed.

(** Inserting the entries of a dictionary one by one copies it. *)
Lemma rebuild_dict {K W X} `{EqDecision K} (f : X → K * W) (l : list X) (d : dict K W) :
  NoDup (dkeys (d ++ (f <$> l))) → foldl (λ d x, dset (f x).1 (f x).2 d) d l = d ++ (f <$> l).
Proof.
  revert d. induction l as [|x l IH]; intros d Hn; [by rewrite app_nil_r|]. cbn [foldl]. rewrite fmap_cons in *.
  rewrite dset_notin. { rewrite <-surjective_pairing, IH; rewrite <-app_assoc; [done|exact Hn]. }
  unfold dkeys in *. rewrite fmap_app, fmap_cons in Hn. apply NoDup_app in Hn as (_ & Hx & _). intros Hin. apply (Hx _ Hin). left.
Qed.

Lemma capture_cores g :
  capture g = (λ p : string * (Z * Z * bool * option Z), (p.1, mkCaptured p.2.1.1.1 p.2.1.1.2 p.2.1.2 (Some p.2.2))) <$> cores (cursors g).
Proof. unfold capture, cores. rewrite <-list_fmap_compose. by apply list_fmap_ext. Qed.

Lemma restore_capture now g g0 :
  NoDup (dkeys (cursors g)) → cursors g0 = [] →
  ∃ cu, restore now (capture g) g0 = Ret (set_cursors cu g0) ∧ cores cu = cores (cursors g) ∧ NoDup (dkeys cu).
Proof.
  intros Hn E0. unfold restore. rewrite E0. eexists. split; [reflexivity|].
  rewrite (rebuild_dict (λ p : string * captured_cursor, (p.1, restored_cursor now p.2)) (capture g) []).
  - cbn [app]. unfold capture, cores, dkeys. rewrite <-!list_fmap_compose. split; [|exact Hn].
    apply list_fmap_ext. intros _ [id c] _. done.
  - cbn [app]. unfold dkeys, capture. rewrite <-!list_fmap_compose. exact Hn.
Qed.

Lemma restore_position_capture p : NoDup (dkeys p) → restore_position (capture_position p) = p.
Proof.
  intros Hn. unfold restore_position, capture_position.
  rewrite (rebuild_dict (λ q : string * Z * Z, ((q.1.1, q.1.2), q.2)) _ []); cbn [app]; rewrite <-list_fmap_compose.
  - rewrite <-(list_fmap_id p) at 2. apply list_fmap_ext. by intros _ [[t q] o] _.
  - unfold dkeys. rewrite <-list_fmap_compose. erewrite list_fmap_ext; [exact Hn|]. by intros _ [[t q] o] _.
Qed.

Lemma positions_NoDup ms (p : StreamPosition) :
  NoDup (dkeys p) → NoDup (dkeys (foldl (λ p m, record_offset (msg_topic m) (msg_partition m) (msg_offset m) p) p ms)).
Proof. revert p. induction ms as [|m ms IH]; intros p Hp; [done|]. cbn [foldl]. apply IH. by apply NoDup_dset. Qed.

Lemma run_consumers batches g : departed g = [] → (consumers (ingest_all batches g)).*1 = (consumers g).*1.
Proof.
  revert g. induction batches as [|[now b] batches IH]; intros g Hd; [done|]. cbn [ingest_all foldl fst snd].
  destruct (ingest_effect now b g Hd) as [F1 F2]. unfold ingest_all in IH. rewrite IH by exact F1.
  destruct (admits (cursors g) b); destruct F2 as [F2 _]; [|by injection F2 as -> _].
  assert (∀ ds (s : list (Consumer V * ConsumerStats) * V), (foldl deliver s ds).1.*1 = s.1.*1) as Hf.
  { induction ds as [|d ds IHd]; intros s; [done|]. cbn [foldl]. by rewrite IHd, deliver_frame. }
  pose proof (Hf (batch_deliveries (cursors g) b) (consumers g, views g)) as Hx. rewrite <-F2 in Hx. exact Hx.
Qed.

(** C20: a coordinator that restarts from a checkpoint catches up exactly. The
    checkpoint may be taken while a message is being ingested: it holds the
    views and cursors with some batches [xs] of message [m2] applied, and the
    position before [m2]. Restoring it and reading on from there, [m2] again
    included, ends with the views, the cursors and the position of a coordinator
    that never stopped. This is of histories in which no server leaves (departures
    are not captured), and of views that are restored as they were captured. *)
Theorem checkpoint_replay (cs cs' : list (Consumer V * ConsumerStats)) (v : V) ms1 m2 xs ys ms3 now :
  cs'.*1 = cs.*1 → msg_batches m2 = Some (xs ++ ys) →
  let s1 := consume_messages ms1 (new_gate cs v, []) in
  let mid := (ingest_batches xs s1.1).2 in
  let straight := consume_messages (m2 :: ms3) s1 in
  ∃ g, restore now (capture mid) (new_gate cs' (views mid)) = Ret g ∧
    let resumed := consume_messages (m2 :: ms3) (g, restore_position (capture_position s1.2)) in
    views resumed.1 = views straight.1 ∧ capture resumed.1 = capture straight.1 ∧ resumed.2 = straight.2.
Proof.
  intros Ecs Em s1 mid straight. destruct (consume_messages_split ms1 (new_gate cs v, [])) as [E1 E2]. fold s1 in E1, E2. cbn [fst snd] in E1, E2.
  assert (mid = ingest_all (batches_of ms1 ++ xs) (new_gate cs v)) as Emid.
  { unfold mid. rewrite ingest_batches_all, E1. unfold ingest_all. by rewrite foldl_app. }
  destruct (ingest_all_covers (batches_of ms1 ++ xs) (new_gate cs v) eq_refl) as (Hd & _ & Hcov). rewrite <-Emid in Hd, Hcov.
  pose proof (ingest_all_NoDup (batches_of ms1 ++ xs) (new_gate cs v) eq_refl ltac:(constructor)) as Hn. rewrite <-Emid in Hn.
  destruct (restore_capture now mid (new_gate cs' (views mid)) Hn eq_refl) as (cu & -> & Ecu & Hnu). eexists. split; [reflexivity|].
  assert (similar mid (set_cursors cu (new_gate cs' (views mid)))) as Hsim.
  { unfold similar. cbn. split_and!; [|done|done|done|done]. rewrite Ecs, Emid.
    by rewrite run_consumers. }
  rewrite restore_position_capture by (rewrite E2; apply positions_NoDup; constructor). cbv zeta.
  destruct (consume_messages_split (m2 :: ms3) s1) as [S1 S2], (consume_messages_split (m2 :: ms3) (set_cursors cu (new_gate cs' (views mid)), s1.2)) as [R1 R2].
  unfold straight. rewrite S1, S2, R1, R2. cbn [fst snd].
  assert (batches_of (m2 :: ms3) = xs ++ (ys ++ batches_of ms3)) as Eb by (unfold batches_of; rewrite bind_cons, Em; symmetry; apply app_assoc).
  rewrite Eb. unfold ingest_all. rewrite !foldl_app. change (foldl _ s1.1 xs) with (ingest_all xs s1.1).
  assert (ingest_all xs s1.1 = mid) as -> by (unfold mid; by rewrite ingest_batches_all).
  change (similar mid (set_cursors cu (new_gate cs' (views mid)))) in Hsim.
  assert (similar mid (ingest_all xs (set_cursors cu (new_gate cs' (views mid))))) as Hrep.
  { eapply similar_trans; [|apply (similar_all xs _ _ Hsim)]. apply replay_noop; [done|]. intros p Hp. apply Hcov, elem_of_app. by right. }
  pose proof (similar_all (ys ++ batches_of ms3) _ _ Hrep) as (_ & Ev & Ec & _ & _). unfold ingest_all in Ev, Ec.
  rewrite !foldl_app in Ev, Ec. split_and!; [by rewrite Ev|rewrite !capture_cores; by rewrite Ec|done].
Qed.
End restart.

(** ** Witnesses *)

Definition demo_clock : clock := mkClock f_zero f_zero.
Definition demo_batch (inc n : Z) : CacheEventBatch := mkBatch "s1" inc n ACCESS TierL1 "" [] false f_zero 0 0 0.
Definition demo_calls : list gate_call := Ingest demo_clock <$> [demo_batch 0 1; demo_batch 0 1; demo_batch 1 1; demo_batch 0 2; demo_batch 1 2].

Lemma gate_delivers_in_order_witness :
  ∃ c, dget "s1" (cursors (foldl run_call (new_gate [(recorder, empty_stats)] []) demo_calls)) = Some c ∧
    gap_detected c = false ∧ since_fence "s1" (deliveries demo_calls) = [demo_batch 1 1; demo_batch 1 2] ∧
    seq_no <$> since_fence "s1" (deliveries demo_calls) = seqZ 1 (last_seq c).
Proof.
  destruct (gate_delivers_in_order [(recorder, empty_stats)] [] demo_calls) as [_ H].
  { intros now b (b' & [= -> ->] & Hb)%list_elem_of_fmap. rewrite !elem_of_cons in Hb.
    destruct Hb as [->|[->|[->|[->|[->|[]%elem_of_nil]]]]]; reflexivity. }
  specialize (H "s1"). destruct (dget "s1" (cursors (foldl run_call (new_gate [(recorder, empty_stats)] []) demo_calls))) as [c|] eqn:E;
    [|vm_compute in E; discriminate E].
  exists c. split; [reflexivity|]. assert (gap_detected c = false) as Hg.
  { assert (gap_detected <$> dget "s1" (cursors (foldl run_call (new_gate [(recorder, empty_stats)] []) demo_calls)) = Some false) as Hv
      by (vm_compute; reflexivity). rewrite E in Hv. exact (inj Some _ _ Hv). }
  split; [exact Hg|]. split; [vm_compute; reflexivity|]. exact (so_complete _ _ H Hg).
Defined.

Definition demo_message (offset : Z) (bs : list CacheEventBatch) : Message := mkMessage "t" 0 offset (Some (pair demo_clock <$> bs)).

Lemma checkpoint_replay_witness :
  let s1 := consume_messages [demo_message 0 [demo_batch 0 1]] (new_gate [(recorder, empty_stats)] [], []) in
  let xs := [(demo_clock, demo_batch 0 2)] in
  let mid := (ingest_batches xs s1.1).2 in
  ∃ g, restore demo_clock (capture mid) (new_gate [(recorder, empty_stats)] (views mid)) = Ret g ∧
    views (consume_messages [demo_message 1 [demo_batch 0 2; demo_batch 0 3]] (g, restore_position (capture_position s1.2))).1 =
      Delivered <$> [demo_batch 0 1; demo_batch 0 2; demo_batch 0 3].
Proof.
  destruct (checkpoint_replay [(recorder, empty_stats)] [(recorder, empty_stats)] [] [demo_message 0 [demo_batch 0 1]]
    (demo_message 1 [demo_batch 0 2; demo_batch 0 3]) [(demo_clock, demo_batch 0 2)] [(demo_clock, demo_batch 0 3)] [] demo_clock eq_refl eq_refl)
    as (g & E & Hv & _). exists g. split; [exact E|]. rewrite Hv. vm_compute. reflexivity.
Defined.

(** A checkpoint forgets which servers have left: the late L1 batch of one,
    refused before a restart, is admitted after it. *)
Lemma departure_forgotten :
  let g := foldl run_call (new_gate [(recorder, empty_stats)] []) [Ingest demo_clock (demo_batch 5 1); Drop "s1"] in
  (ingest demo_clock (demo_batch 5 2) g).1 = STALE_INCARNATION ∧
  ∃ g', restore demo_clock (capture g) (new_gate [(recorder, empty_stats)] (views g)) = Ret g' ∧
        (ingest demo_clock (demo_batch 5 2) g').1 = ADMITTED.
Proof. cbv zeta. split; [vm_compute; reflexivity|]. eexists. split; vm_compute; reflexivity. Qed.
