(* ===== verification/Placements.v ===== *)
(** * Placements

    What the coordinator's views are about: which server's tier and backend
    holds a key, and how many bytes. [Placement] is in
    lmcache/v1/mp_coordinator/views/key_directory.py. The rest is the
    specification of the views: a partial map from placement identities, and
    what a delivery does to it. *)

From stdpp Require Import gmap list strings.
From Stdlib Require Import ZArith Lia.
From S2P Require Import Prelude Keys PyFloat Handler EventGate.

Open Scope Z_scope.
Open Scope py_scope.
Open Scope handler_scope.

Definition tier_value (t : Tier) : string := match t with TierL1 => "l1" | TierL2 => "l2" | TierALL => "all" end.
Definition Tier_of (s : string) : py Tier :=
  if (s =? "l1")%string then Ret TierL1 else if (s =? "l2")%string then Ret TierL2 else if (s =? "all")%string then Ret TierALL else Raise ValueError.

Record Placement := mkPlacement {
  pl_instance_id : string;
  pl_incarnation : Z;
  pl_tier : Tier;
  pl_backend : string;
  pl_size_bytes : Z;
  pl_shared : bool
}.
#[export] Instance Placement_eq_dec : EqDecision Placement.
Proof. solve_decision. Defined.

(** The placement an entry of a store batch reports. *)
Definition placement_of (b : CacheEventBatch) (e : CacheEventEntry) : Placement :=
  mkPlacement (instance_id b) (incarnation b) (tier b) (backend b) (ev_size_bytes e) (shared b).

(** ** Identities

    [(tier, key, owner, backend)]; the owner of a shared pool is nobody. *)
Abbreviation pid := (Tier * ObjectKey * string * string)%type.

Definition batch_owner (b : CacheEventBatch) : string := if shared b then "" else instance_id b.
Definition batch_pid (b : CacheEventBatch) (key : ObjectKey) : pid := (tier b, key, batch_owner b, backend b).

Definition pid_tier (i : pid) : Tier := i.1.1.1.
Definition pid_key (i : pid) : ObjectKey := i.1.1.2.
Definition pid_owner (i : pid) : string := i.1.2.
Definition pid_backend (i : pid) : string := i.2.

(** ** The specification *)

(** The entries up to the first one whose key does not decode: the exception
    ends the consumer's work on the batch. *)
Fixpoint decoded (es : list CacheEventEntry) : list (ObjectKey * CacheEventEntry) :=
  match es with
  | [] => []
  | e :: es' => match to_object_key (ev_key e) with Ret key => (key, e) :: decoded es' | Raise _ => [] end
  end.

Definition placements : Type := pid → option Placement.

Definition update (i : pid) (p : option Placement) (m : placements) : placements := λ j, if decide (i = j) then p else m j.

Definition spec_entry (b : CacheEventBatch) (m : placements) (q : ObjectKey * CacheEventEntry) : placements :=
  match event_type b with
  | STORE => update (batch_pid b q.1) (Some (placement_of b q.2)) m
  | DELETE => update (batch_pid b q.1) None m
  | _ => m
  end.

(** L1 placements die with the server that reported them. *)
Definition spec_fence (id : string) (m : placements) : placements := λ j,
  match m j with
  | Some p => if bool_decide (pl_tier p = TierL1 ∧ pl_instance_id p = id) then None else Some p
  | None => None
  end.

Definition spec_deliver (m : placements) (d : delivery) : placements :=
  match d with Delivered b => foldl (spec_entry b) m (decoded (entries b)) | Fenced id => spec_fence id m end.

(** What every map of the specification has: a placement is found under its own
    identity, in a concrete tier. *)
Definition own_pid (p : Placement) (key : ObjectKey) : pid :=
  (pl_tier p, key, if pl_shared p then ""%string else pl_instance_id p, pl_backend p).

Definition well_placed (m : placements) : Prop :=
  ∀ i p, m i = Some p → i = own_pid p (pid_key i) ∧ pl_tier p ≠ TierALL ∧ pl_instance_id p ≠ ""%string ∧ 0 <= pl_size_bytes p.

(** A delivery of batches the constructors accept. *)
Definition delivery_ok (d : delivery) : Prop :=
  match d with Delivered b => batch_ok b ∧ ∀ e, e ∈ entries b → 0 <= ev_size_bytes e | Fenced _ => True end.

Lemma batch_ok_fields b : batch_ok b → instance_id b ≠ ""%string ∧ tier b ≠ TierALL.
Proof. unfold batch_ok, check_batch. intros Hb. repeat (case_match; [done|]). repeat case_bool_decide; done. Qed.

Lemma decoded_in es q : q ∈ decoded es → q.2 ∈ es.
Proof.
  induction es as [|e es IH]; cbn [decoded]; [by intros ?%elem_of_nil|]. destruct (to_object_key (ev_key e)); [|by intros ?%elem_of_nil].
  intros [->|Hq]%elem_of_cons; [left|right; by apply IH].
Qed.

Lemma well_placed_fold b (es : list (ObjectKey * CacheEventEntry)) m :
  batch_ok b → (∀ q, q ∈ es → 0 <= ev_size_bytes q.2) → well_placed m → well_placed (foldl (spec_entry b) m es).
Proof.
  intros Hb Hes Hm. apply (foldl_inv well_placed); [done|]. intros m' q Hq Hm'. specialize (Hes q Hq). destruct (batch_ok_fields b Hb) as [Hi Ht].
  unfold spec_entry. destruct (event_type b); try done; intros i p; unfold update; case_decide as Hd; try apply Hm'; [|done].
  intros [= <-]. subst i. done.
Qed.

Lemma well_placed_fence id m : well_placed m → well_placed (spec_fence id m).
Proof. intros Hm i p. unfold spec_fence. destruct (m i) as [p'|] eqn:E; [|done]. case_bool_decide; [done|]. intros [= <-]. by apply Hm. Qed.

Lemma well_placed_deliver m d : delivery_ok d → well_placed m → well_placed (spec_deliver m d).
Proof.
  intros Hd Hm. destruct d as [b|id]; [|by apply well_placed_fence]. destruct Hd as [Hb He]. apply well_placed_fold; [done| |done].
  intros q Hq. by apply He, decoded_in.
Qed.

(** ** Views and their deliveries

    What a delivery does to a view: the broadcaster keeps what a consumer did
    before it raised. *)
Definition view_step {V} (c : Consumer V) (v : V) (d : delivery) : V :=
  match d with Delivered b => (consume_batch c b v).2 | Fenced id => (fence_views c id v).2 end.

Lemma view_deliver {V} (c : Consumer V) st v ds : (foldl deliver ([(c, st)], v) ds).2 = foldl (view_step c) v ds.
Proof.
  revert st v. induction ds as [|d ds IH]; intros st v; [done|]. cbn [foldl].
  assert (∃ st', deliver ([(c, st)], v) d = ([(c, st')], view_step c v d)) as [st' ->]; [|apply IH].
  destruct d as [b|id]; cbn [deliver fst snd broadcast broadcast_fence view_step]; unfold counted_call;
    [destruct (consume_batch c b v) as [[]]|destruct (fence_views c id v) as [[]]]; by eexists.
Qed.

(** A loop over the entries of a batch, each of them decoded first, does the
    work of the decoded ones. *)
Lemma iter_decoded {V} (f : ObjectKey → CacheEventEntry → V → V) (es : list CacheEventEntry) v :
  (h_iter (λ e, let^ key := h_lift (to_object_key (ev_key e)) in h_modify (f key e)) es v).2 = foldl (λ v q, f q.1 q.2 v) v (decoded es).
Proof.
  revert v. induction es as [|e es IH]; intros v; [done|]. cbn [h_iter decoded]. unfold h_bind, h_lift. destruct (to_object_key (ev_key e)) as [key|]; [|done].
  cbn. apply IH.
Qed.

(** [delivery_ok] is decidable. *)
Definition delivery_okb (d : delivery) : bool :=
  match d with
  | Delivered b => (if check_batch b is Ret _ then true else false) && forallb (λ e, 0 <=? ev_size_bytes e) (entries b)
  | Fenced _ => true
  end.

Lemma deliveries_okb ds : forallb delivery_okb ds = true → Forall delivery_ok ds.
Proof.
  intros H. apply Forall_forall. intros d Hd. rewrite forallb_forall in H. specialize (H d (proj1 (list_elem_of_In _ _) Hd)). destruct d as [b|id]; [|done].
  cbn in H. apply andb_true_iff in H as [H1 H2]. split.
  - unfold batch_ok. unfold check_batch in *. repeat (case_match; try done).
  - intros e He. rewrite forallb_forall in H2. apply Z.leb_le, H2. by apply list_elem_of_In.
Qed.

(** Batches of server [id], for the examples. *)
Definition example_entry (h : string) (size : Z) : CacheEventEntry := mkEventEntry (mkEncoded h "m" 16777216 0 "u1" ∅) size [] UNKNOWN_TOKEN_OFFSET.
Definition example_batch (id : string) (t : Tier) (et : CacheEventType) (sh : bool) (n : Z) (es : list CacheEventEntry) : CacheEventBatch :=
  mkBatch id 0 n et t "fs" es sh f_zero 0 0 0.
