(* ===== verification/UsageManager.v ===== *)
(** * Byte usage of the fleet

    lmcache/v1/mp_coordinator/views/usage_manager.py: [CacheUsageManager] sums
    the bytes of placements per key, per cache salt, and per server and
    backend, all by tier, from the deliveries of the gate. A set of placement
    identities is a list without duplicates. *)

From stdpp Require Import gmap list strings.
From Stdlib Require Import ZArith Lia.
From S2P Require Import Prelude Keys PyFloat Handler EventGate Placements.

Open Scope Z_scope.
Open Scope py_scope.
Open Scope handler_scope.

Record CacheUsageManager := mkUsage {
  placement_sizes : dict pid Z;
  key_bytes : dict (Tier * ObjectKey) Z;
  salt_bytes : dict (Tier * string) Z;
  instance_bytes : dict (Tier * string * string) Z;
  l1_by_instance : dict string (list pid)
}.

Definition new_usage : CacheUsageManager := mkUsage [] [] [] [] [].

Definition set_sizes (sizes : dict pid Z) (u : CacheUsageManager) : CacheUsageManager :=
  mkUsage sizes (key_bytes u) (salt_bytes u) (instance_bytes u) (l1_by_instance u).
Definition set_l1_index (ix : dict string (list pid)) (u : CacheUsageManager) : CacheUsageManager :=
  mkUsage (placement_sizes u) (key_bytes u) (salt_bytes u) (instance_bytes u) ix.

(** One rollup: a total that is not positive is dropped. *)
Definition roll_up {K} `{EqDecision K} (k : K) (delta : Z) (r : dict K Z) : dict K Z :=
  let total := default 0 (dget k r) + delta in
  if 0 <? total then dset k total r else ddel k r.

Definition key_of_pid (i : pid) : Tier * ObjectKey := (pid_tier i, pid_key i).
Definition salt_of_pid (i : pid) : Tier * string := (pid_tier i, cache_salt (pid_key i)).
Definition node_of_pid (i : pid) : Tier * string * string := (pid_tier i, pid_owner i, pid_backend i).

Definition _adjust (i : pid) (delta : Z) (u : CacheUsageManager) : CacheUsageManager :=
  if delta =? 0 then u
  else mkUsage (placement_sizes u) (roll_up (key_of_pid i) delta (key_bytes u)) (roll_up (salt_of_pid i) delta (salt_bytes u))
         (roll_up (node_of_pid i) delta (instance_bytes u)) (l1_by_instance u).

Definition _remove (i : pid) (u : CacheUsageManager) : CacheUsageManager :=
  let u := match (if bool_decide (pid_tier i = TierL1) then dget (pid_owner i) (l1_by_instance u) else None) with
           | Some owned => set_l1_index (match oset_del i owned with
                                         | [] => ddel (pid_owner i) (l1_by_instance u)
                                         | owned => dset (pid_owner i) owned (l1_by_instance u)
                                         end) u
           | None => u
           end in
  let size := default 0 (dget i (placement_sizes u)) in
  _adjust i (- size) (set_sizes (ddel i (placement_sizes u)) u).

(** Take in the size of a placement, and the change it makes. *)
Definition record_size (t : Tier) (owner : string) (i : pid) (size delta : Z) (u : CacheUsageManager) : CacheUsageManager :=
  let u := set_sizes (dset i size (placement_sizes u)) u in
  let u := if bool_decide (t = TierL1) && negb (bool_decide (owner = EmptyString))
           then set_l1_index (dset owner (oset_set i (default [] (dget owner (l1_by_instance u)))) (l1_by_instance u)) u
           else u in
  _adjust i delta u.

Definition store_entry (b : CacheEventBatch) (i : pid) (size : Z) (u : CacheUsageManager) : CacheUsageManager :=
  let old := default 0 (dget i (placement_sizes u)) in
  record_size (tier b) (batch_owner b) i size (size - old) u.

Definition consume_entry (b : CacheEventBatch) (e : CacheEventEntry) : handler CacheUsageManager unit :=
  let^ key := h_lift (to_object_key (ev_key e)) in
  let i := batch_pid b key in
  match event_type b with
  | STORE => h_modify (store_entry b i (ev_size_bytes e))
  | DELETE => h_modify (_remove i)
  | _ => h_ret tt
  end.

Definition consume_usage (b : CacheEventBatch) : handler CacheUsageManager unit :=
  if bool_decide (event_type b = ACCESS) then h_ret tt else h_iter (consume_entry b) (entries b).

Definition fence_usage (id : string) : handler CacheUsageManager unit := λ u,
  (Ret tt, foldl (λ u i, _remove i u) (set_l1_index (ddel id (l1_by_instance u)) u) (default [] (dget id (l1_by_instance u)))).

Definition usage_consumer : Consumer CacheUsageManager := mkConsumer consume_usage fence_usage.

(** ** Reads *)

Definition get_salt_bytes (t : Tier) (salt : string) (u : CacheUsageManager) : Z := default 0 (dget (t, salt) (salt_bytes u)).
Definition get_key_bytes (t : Tier) (key : ObjectKey) (u : CacheUsageManager) : Z := default 0 (dget (t, key) (key_bytes u)).
Definition get_bytes_by_salt (t : Tier) (u : CacheUsageManager) : dict string Z :=
  omap (λ p : (Tier * string) * Z, if decide (p.1.1 = t) then Some (p.1.2, p.2) else None) (salt_bytes u).
Definition get_bytes_by_instance (t : Tier) (u : CacheUsageManager) : dict string (dict string Z) :=
  foldl (λ d (p : (Tier * string * string) * Z),
    if decide (p.1.1.1 = t) then dset p.1.1.2 (dset p.1.2 p.2 (default [] (dget p.1.1.2 d))) d else d) [] (instance_bytes u).
Definition get_total_bytes (t : Tier) (u : CacheUsageManager) : Z :=
  zsum (λ p : (Tier * string) * Z, if decide (p.1.1 = t) then p.2 else 0) (salt_bytes u).

Definition stats_step (acc : py (dict string Z)) (p : (Tier * string) * Z) : py (dict string Z) :=
  let! d := acc in
  match dget (tier_value p.1.1) d with
  | Some n => Ret (dset (tier_value p.1.1) (n + p.2) d)
  | None => Raise KeyError
  end.
Definition usage_stats (u : CacheUsageManager) : py (dict string Z) :=
  foldl stats_step (Ret [("l1", 0); ("l2", 0)]%string) (salt_bytes u).

(** ** Durable state *)

Abbreviation captured_placement := (string * EncodedKey * string * string * Z)%type.

Definition capture_usage (u : CacheUsageManager) : list captured_placement :=
  (λ p : pid * Z, (tier_value (pid_tier p.1), encode_key (pid_key p.1), pid_owner p.1, pid_backend p.1, p.2)) <$> placement_sizes u.

Definition restore_placement (q : captured_placement) : handler CacheUsageManager unit :=
  let '(t, k, owner, bk, size) := q in
  let^ t := h_lift (Tier_of t) in
  let^ key := h_lift (decode_key k) in
  let i : pid := (t, key, owner, bk) in
  h_modify (record_size t owner i size size).

Definition restore_usage (state : list captured_placement) : handler CacheUsageManager unit :=
  let^ u := h_get in
  match placement_sizes u with
  | _ :: _ => h_raise ValueError
  | [] => h_iter restore_placement state
  end.

(** ** The invariant *)

(** The sum of the sizes that a rollup puts under [k]. *)
Definition total_of {K} `{EqDecision K} (f : pid → K) (k : K) (d : dict pid Z) : Z :=
  zsum (λ p : pid * Z, if decide (f p.1 = k) then p.2 else 0) d.

Definition rolled {K} `{EqDecision K} (f : pid → K) (d : dict pid Z) (r : dict K Z) : Prop :=
  NoDup (dkeys r) ∧ ∀ k, dget k r = nonzero (total_of f k d).

Definition is_owned_l1 (i : pid) : bool := bool_decide (pid_tier i = TierL1) && negb (bool_decide (pid_owner i = EmptyString)).

(** The L1 index of [id] lists the L1 placements [id] owns. *)
Definition indexed (d : dict pid Z) (ix : dict string (list pid)) : Prop :=
  NoDup (dkeys ix) ∧ ∀ id, let l := default [] (dget id ix) in
    NoDup l ∧ ∀ i, i ∈ l ↔ i ∈ dkeys d ∧ is_owned_l1 i = true ∧ pid_owner i = id.

(** The rollups are the sums they stand for. *)
Record usage_core (u : CacheUsageManager) : Prop := {
  uo_sizes : NoDup (dkeys (placement_sizes u)) ∧ ∀ i n, dget i (placement_sizes u) = Some n → 0 <= n;
  uo_keys : rolled key_of_pid (placement_sizes u) (key_bytes u);
  uo_salts : rolled salt_of_pid (placement_sizes u) (salt_bytes u);
  uo_nodes : rolled node_of_pid (placement_sizes u) (instance_bytes u)
}.
Definition usage_ok (u : CacheUsageManager) : Prop := usage_core u ∧ indexed (placement_sizes u) (l1_by_instance u).

Lemma total_nonneg {K} `{EqDecision K} (f : pid → K) k d : NoDup (dkeys d) → (∀ i n, dget i d = Some n → 0 <= n) → 0 <= total_of f k d.
Proof. intros Hn Hd. apply zsum_nonneg. intros [i n] Hin. cbn. case_decide; [|done]. apply (Hd i). by apply elem_dget. Qed.

Lemma total_dset {K} `{EqDecision K} (f : pid → K) k i n d :
  total_of f k (dset i n d) = total_of f k d + (if decide (f i = k) then n - default 0 (dget i d) else 0).
Proof.
  unfold total_of. destruct (dget i d) as [m|] eqn:E; cbn [default].
  - rewrite (zsum_dset _ _ m) by done. cbn [fst snd]. unfold id. case_decide; lia.
  - rewrite zsum_dset_new by (by apply dget_None). cbn [fst snd]. case_decide; lia.
Qed.
Lemma total_ddel {K} `{EqDecision K} (f : pid → K) k i d :
  NoDup (dkeys d) → total_of f k (ddel i d) = total_of f k d - (if decide (f i = k) then default 0 (dget i d) else 0).
Proof.
  intros Hn. unfold total_of. destruct (dget i d) as [m|] eqn:E; cbn [default].
  - rewrite (zsum_ddel _ _ m) by done. cbn [fst snd]. unfold id. case_decide; lia.
  - rewrite ddel_notin by (by apply dget_None). case_decide; lia.
Qed.

(** Adjusting a rollup by the change of its total. *)
Lemma roll_up_ok {K} `{EqDecision K} (f : pid → K) i delta d d' r :
  rolled f d r → NoDup (dkeys d') → (∀ j n, dget j d' = Some n → 0 <= n) →
  (∀ k, total_of f k d' = total_of f k d + (if decide (f i = k) then delta else 0)) → rolled f d' (roll_up (f i) delta r).
Proof.
  intros [Hn Hr] Hn' Hpos Ht. unfold roll_up. rewrite Hr, (proj1 (nonzero_spec _)).
  pose proof (total_nonneg f (f i) d' Hn' Hpos) as H0. pose proof (Ht (f i)) as Hti. rewrite decide_True in Hti by done.
  destruct (Z.ltb_spec 0 (total_of f (f i) d + delta)) as [Hgt|Hle].
  - split; [by apply NoDup_dset|]. intros k. rewrite dget_dset, Ht, Hr. case_decide as Hk; [subst k|f_equal; lia].
    unfold nonzero. by rewrite (proj2 (Z.eqb_neq _ _)) by lia.
  - split; [by apply NoDup_ddel|]. intros k. rewrite dget_ddel, Ht, Hr. case_decide as Hk; [subst k|f_equal; lia].
    unfold nonzero. by rewrite (proj2 (Z.eqb_eq _ _)) by lia.
Qed.

Lemma rolled_same {K} `{EqDecision K} (f : pid → K) d d' r : rolled f d r → (∀ k, total_of f k d' = total_of f k d) → rolled f d' r.
Proof. intros [Hn Hr] Ht. split; [done|]. intros k. by rewrite Hr, Ht. Qed.

Lemma adjust_ok i delta d u :
  rolled key_of_pid d (key_bytes u) → rolled salt_of_pid d (salt_bytes u) → rolled node_of_pid d (instance_bytes u) →
  NoDup (dkeys (placement_sizes u)) → (∀ j n, dget j (placement_sizes u) = Some n → 0 <= n) →
  (∀ (K : Type) (EK : EqDecision K) (f : pid → K) k, total_of f k (placement_sizes u) = total_of f k d + (if decide (f i = k) then delta else 0)) →
  usage_core (_adjust i delta u) ∧ placement_sizes (_adjust i delta u) = placement_sizes u ∧ l1_by_instance (_adjust i delta u) = l1_by_instance u.
Proof.
  intros H1 H2 H3 Hn Hp Ht. unfold _adjust. destruct (Z.eqb_spec delta 0) as [->|Hne].
  - split; [|done]. split; [done|eapply rolled_same; [eassumption|]..]; intros k; rewrite (Ht _ _ _ k); case_decide; lia.
  - split; [|done]. split; cbn [placement_sizes key_bytes salt_bytes instance_bytes]; [done| | |]; eapply roll_up_ok; try done; apply Ht.
Qed.

(** *** Stores *)

Lemma record_size_ok i size delta u :
  usage_ok u → 0 <= size → delta = size - default 0 (dget i (placement_sizes u)) →
  let u' := record_size (pid_tier i) (pid_owner i) i size delta u in usage_ok u' ∧ placement_sizes u' = dset i size (placement_sizes u).
Proof.
  intros [[[Hn Hp] H1 H2 H3] [Hin Hix]] Hs ->. unfold record_size.
  set (d := placement_sizes u) in *. set (ix := l1_by_instance u) in *. cbv zeta. cbn [set_sizes l1_by_instance]. fold ix.
  set (u1 := if bool_decide (pid_tier i = TierL1) && negb (bool_decide (pid_owner i = "")) then _ else _).
  assert (placement_sizes u1 = dset i size d) as Ed by (unfold u1; by destruct (_ && _)).
  destruct (adjust_ok i (size - default 0 (dget i d)) d u1) as (Hcore & Es & Ei).
  1-3: unfold u1; by destruct (_ && _).
  { rewrite Ed. by apply NoDup_dset. }
  { intros j n. rewrite Ed, dget_dset. case_decide; [by intros [= <-]|apply Hp]. }
  { intros K EK f k. rewrite Ed, total_dset. done. }
  split; [split; [exact Hcore|]|by rewrite Es, Ed]. rewrite Es, Ei, Ed. unfold u1.
  change (bool_decide (pid_tier i = TierL1) && negb (bool_decide (pid_owner i = ""))) with (is_owned_l1 i).
  destruct (is_owned_l1 i) eqn:Eown; cbn [set_l1_index set_sizes l1_by_instance]; fold ix.
  - split; [by apply NoDup_dset|]. intros o. rewrite dget_dset. destruct (decide (pid_owner i = o)) as [<-|Ho].
    + destruct (Hix (pid_owner i)) as [Hnd Hl]. cbn [default]. unfold id. split; [by apply NoDup_oset_set|]. intros j.
      rewrite elem_of_oset_set, Hl, elem_dkeys_dset. split; [intros [?| ->]; [tauto|by split_and!; [right|..]]|].
      intros ([?| ->] & ? & ?); [by left|by right].
    + destruct (Hix o) as [Hnd Hl]. split; [done|]. intros j. rewrite Hl, elem_dkeys_dset. split; [tauto|].
      intros ([?| ->] & ? & Hj); [done|]. done.
  - split; [done|]. intros o. destruct (Hix o) as [Hnd Hl]. split; [done|]. intros j. rewrite Hl, elem_dkeys_dset. split; [tauto|].
    intros ([?| ->] & ? & ?); [done|congruence].
Qed.

(** *** Removals *)

Lemma remove_core i u :
  usage_core u → usage_core (_remove i u) ∧ placement_sizes (_remove i u) = ddel i (placement_sizes u) ∧
  l1_by_instance (_remove i u) = match (if bool_decide (pid_tier i = TierL1) then dget (pid_owner i) (l1_by_instance u) else None) with
                                 | Some owned => match oset_del i owned with
                                                 | [] => ddel (pid_owner i) (l1_by_instance u)
                                                 | owned => dset (pid_owner i) owned (l1_by_instance u)
                                                 end
                                 | None => l1_by_instance u
                                 end.
Proof.
  intros [[Hn Hp] H1 H2 H3]. unfold _remove. set (u0 := match (if bool_decide _ then _ else _) with Some owned => _ | None => u end).
  assert (placement_sizes u0 = placement_sizes u ∧ key_bytes u0 = key_bytes u ∧ salt_bytes u0 = salt_bytes u ∧ instance_bytes u0 = instance_bytes u) as (E1 & E2 & E3 & E4).
  { unfold u0. by destruct (if bool_decide _ then _ else _). }
  cbv zeta. destruct (adjust_ok i (- default 0 (dget i (placement_sizes u0))) (placement_sizes u) (set_sizes (ddel i (placement_sizes u0)) u0)) as (Hcore & Es & Ei).
  1-3: cbn [set_sizes key_bytes salt_bytes instance_bytes]; by rewrite ?E2, ?E3, ?E4.
  { cbn [set_sizes placement_sizes]. rewrite E1. by apply NoDup_ddel. }
  { cbn [set_sizes placement_sizes]. intros j n. rewrite E1, dget_ddel. case_decide; [done|apply Hp]. }
  { intros K EK f k. cbn [set_sizes placement_sizes]. rewrite E1, total_ddel by done. case_decide; lia. }
  split; [exact Hcore|]. rewrite Es, Ei. cbn [set_sizes placement_sizes l1_by_instance]. rewrite E1. split; [done|]. unfold u0.
  by destruct (if bool_decide _ then _ else _).
Qed.

(** What a removal leaves of the index: every list loses the placement. *)
Lemma remove_index i d ix :
  indexed d ix →
  let ix' := match (if bool_decide (pid_tier i = TierL1) then dget (pid_owner i) ix else None) with
             | Some owned => match oset_del i owned with [] => ddel (pid_owner i) ix | owned => dset (pid_owner i) owned ix end
             | None => ix
             end in
  NoDup (dkeys ix') ∧ ∀ o, default [] (dget o ix') = oset_del i (default [] (dget o ix)).
Proof.
  intros [Hin Hix] ix'.
  assert (∀ o, pid_tier i ≠ TierL1 ∨ pid_owner i ≠ o ∨ dget o ix = None → oset_del i (default [] (dget o ix)) = default [] (dget o ix)) as Hskip.
  { intros o Hor. apply oset_del_notin. intros Hi. pose proof Hi as (_ & Ho & Eo)%Hix. unfold is_owned_l1 in Ho. apply andb_true_iff in Ho as [Ho _].
    apply bool_decide_eq_true in Ho. destruct Hor as [?|[?|Hnone]]; [done|done|]. rewrite Hnone in Hi. by apply elem_of_nil in Hi. }
  unfold ix'. case_bool_decide as Ht; [|split; [done|]; intros o; symmetry; apply Hskip; by left].
  destruct (dget (pid_owner i) ix) as [owned|] eqn:E; [|split; [done|]; intros o; symmetry; apply Hskip; destruct (decide (pid_owner i = o)) as [<-|]; auto].
  split; [destruct (oset_del i owned); [by apply NoDup_ddel|by apply NoDup_dset]|]. intros o. destruct (decide (pid_owner i = o)) as [<-|Hne].
  - rewrite E. cbn [default]. unfold id. destruct (oset_del i owned) as [|q l] eqn:El; [by rewrite dget_ddel, decide_True|by rewrite dget_dset, decide_True].
  - rewrite Hskip by auto. destruct (oset_del i owned); [by rewrite dget_ddel, decide_False|by rewrite dget_dset, decide_False].
Qed.

Lemma remove_ok i u : usage_ok u → usage_ok (_remove i u) ∧ placement_sizes (_remove i u) = ddel i (placement_sizes u).
Proof.
  intros [Hc Hi]. destruct (remove_core i u Hc) as (Hcore & Es & Ei). split; [|done]. split; [done|]. rewrite Es, Ei.
  destruct (remove_index i _ _ Hi) as [Hn' Hl']. split; [exact Hn'|]. intros o. cbv zeta. rewrite Hl'. destruct (proj2 Hi o) as [Hnd Hl].
  split; [by apply NoDup_oset_del|]. intros j. rewrite elem_of_oset_del, Hl, elem_dkeys_ddel. tauto.
Qed.

(** *** Fencing *)

Lemma fence_loop o l u :
  usage_core u → (∀ i, i ∈ l → pid_owner i = o) → dget o (l1_by_instance u) = None →
  let u' := foldl (λ u i, _remove i u) u l in
  usage_core u' ∧ l1_by_instance u' = l1_by_instance u ∧ ∀ j, dget j (placement_sizes u') = if decide (j ∈ l) then None else dget j (placement_sizes u).
Proof.
  revert u. induction l as [|i l IH]; intros u Hc Hl Hnone.
  - split_and!; [done|done|]. intros j. by rewrite decide_False by apply not_elem_of_nil.
  - cbn [foldl]. destruct (remove_core i u Hc) as (Hc1 & Es & Ei). rewrite (Hl i) in Ei by left. rewrite Hnone in Ei.
    replace (if bool_decide _ then None else None) with (@None (list pid)) in Ei by (by case_bool_decide).
    destruct (IH (_remove i u) Hc1) as (H1 & H2 & H3); [intros; apply Hl; by right|by rewrite Ei|].
    split_and!; [done|by rewrite H2|]. intros j. rewrite H3, Es, dget_ddel. repeat case_decide; set_solver.
Qed.

(** The fence of the specification: shared placements have no owner. *)
Definition spec_fence_owned (o : string) (m : placements) : placements := λ j, if is_owned_l1 j && bool_decide (pid_owner j = o) then None else m j.

Definition spec_usage (m : placements) (d : delivery) : placements :=
  match d with Delivered b => foldl (spec_entry b) m (decoded (entries b)) | Fenced o => spec_fence_owned o m end.

Definition sizes_of (u : CacheUsageManager) (m : placements) : Prop := ∀ i, dget i (placement_sizes u) = pl_size_bytes <$> m i.

Lemma fence_usage_ok o u m : usage_ok u → sizes_of u m → usage_ok (fence_usage o u).2 ∧ sizes_of (fence_usage o u).2 (spec_fence_owned o m).
Proof.
  intros [Hc [Hin Hix]] Hm. unfold fence_usage. cbn [snd]. set (l := default [] (dget o (l1_by_instance u))). destruct (Hix o) as [Hnd Hl]. cbv zeta in Hl. fold l in Hl, Hnd.
  destruct (fence_loop o l (set_l1_index (ddel o (l1_by_instance u)) u)) as (H1 & H2 & H3).
  { by destruct Hc. } { intros i Hi. by apply Hl. } { cbn [set_l1_index l1_by_instance]. by rewrite dget_ddel, decide_True. }
  set (u' := foldl _ _ _) in *. cbn [set_l1_index l1_by_instance placement_sizes] in H2, H3.
  split; [split; [exact H1|]|].
  - rewrite H2. split; [by apply NoDup_ddel|]. intros o'. cbv zeta. rewrite dget_ddel.
    assert (∀ j, j ∈ dkeys (placement_sizes u') ↔ j ∈ dkeys (placement_sizes u) ∧ j ∉ l) as Hk.
    { intros j. rewrite <-!dget_is_Some, H3. case_decide; [|tauto]. split; [by intros [? ?]|tauto]. }
    destruct (decide (o = o')) as [<-|Hne]; cbn [default].
    + split; [constructor|]. intros j. rewrite Hk, Hl. split; [by intros ?%elem_of_nil|tauto].
    + destruct (Hix o') as [Hnd' Hl']. split; [done|]. intros j. rewrite Hl', Hk, Hl. split; [|tauto]. intros (? & ? & <-). split_and!; auto. intros (_ & _ & ?). done.
  - intros j. rewrite H3. unfold spec_fence_owned. destruct (decide (j ∈ l)) as [Hj|Hj].
    + apply Hl in Hj as (_ & -> & ->). by rewrite bool_decide_true.
    + rewrite Hm. destruct (is_owned_l1 j) eqn:Eo; [|done]. case_bool_decide as Ho; [|done]. cbn [andb].
      destruct (m j) as [p|] eqn:Ep; [|done]. destruct Hj. apply Hl. split_and!; [|done|done]. apply dget_is_Some. rewrite Hm, Ep. by eexists.
Qed.

(** *** Deliveries *)

Definition usage_entry (b : CacheEventBatch) (key : ObjectKey) (e : CacheEventEntry) (u : CacheUsageManager) : CacheUsageManager :=
  match event_type b with
  | STORE => store_entry b (batch_pid b key) (ev_size_bytes e) u
  | DELETE => _remove (batch_pid b key) u
  | _ => u
  end.

Lemma usage_entry_ok b key e u m :
  usage_ok u → sizes_of u m → 0 <= ev_size_bytes e →
  usage_ok (usage_entry b key e u) ∧ sizes_of (usage_entry b key e u) (spec_entry b m (key, e)).
Proof.
  intros Hu Hm He. unfold usage_entry, spec_entry. destruct (event_type b); try done; cbn [fst snd].
  - destruct (record_size_ok (batch_pid b key) (ev_size_bytes e) _ u Hu He eq_refl) as [H1 H2]. split; [exact H1|]. intros i.
    etransitivity; [exact (f_equal (dget i) H2)|]. rewrite dget_dset. unfold update. by destruct (decide _).
  - destruct (remove_ok (batch_pid b key) u Hu) as [H1 H2]. split; [exact H1|]. intros i. rewrite H2, dget_ddel. unfold update. by destruct (decide _).
Qed.

Lemma consume_usage_ok b u m :
  usage_ok u → sizes_of u m → (∀ e, e ∈ entries b → 0 <= ev_size_bytes e) →
  usage_ok (consume_usage b u).2 ∧ sizes_of (consume_usage b u).2 (foldl (spec_entry b) m (decoded (entries b))).
Proof.
  intros Hu Hm He.
  assert ((consume_usage b u).2 = foldl (λ u q, usage_entry b q.1 q.2 u) u (decoded (entries b))) as ->.
  { unfold consume_usage. case_bool_decide as Ha.
    - cbn [h_ret snd]. symmetry. apply (foldl_inv (λ u', u' = u)); [done|]. intros u' q _ ->. unfold usage_entry. by rewrite Ha.
    - rewrite <-(iter_decoded (usage_entry b)). f_equal. f_equal. unfold consume_entry, usage_entry, batch_pid. by destruct (event_type b). }
  assert (∀ q, q ∈ decoded (entries b) → 0 <= ev_size_bytes q.2) as Hd by (intros q Hq; by apply He, decoded_in).
  revert u m Hu Hm Hd. induction (decoded (entries b)) as [|[key e] l IH]; intros u m Hu Hm Hd; [done|]. cbn [foldl fst snd].
  destruct (usage_entry_ok b key e u m Hu Hm) as [H1 H2]; [apply (Hd (key, e)); left|]. apply IH; [done|done|]. intros q Hq. apply Hd. by right.
Qed.

Lemma new_usage_ok : usage_ok new_usage ∧ sizes_of new_usage (λ _, None).
Proof.
  split; [|done]. split; [split; [split; [constructor|done]|split; [constructor|done]..]|]. split; [constructor|]. intros o. split; [constructor|].
  intros i. split; [by intros ?%elem_of_nil|by intros [?%elem_of_nil _]].
Qed.

Lemma usage_run_ok ds u m :
  Forall delivery_ok ds → usage_ok u → sizes_of u m → let u' := foldl (view_step usage_consumer) u ds in usage_ok u' ∧ sizes_of u' (foldl spec_usage m ds).
Proof.
  intros Hds. cbv zeta. revert u m. induction Hds as [|d ds Hd _ IH]; intros u m Hu Hm; [done|]. cbn [foldl].
  assert (usage_ok (view_step usage_consumer u d) ∧ sizes_of (view_step usage_consumer u d) (spec_usage m d)) as [H1 H2]; [|by apply IH].
  destruct d as [b|o]; cbn [view_step spec_usage]; [destruct Hd as [_ Hd]; by apply consume_usage_ok|by apply fence_usage_ok].
Qed.

Lemma well_placed_usage ds m : Forall delivery_ok ds → well_placed m → well_placed (foldl spec_usage m ds).
Proof.
  intros Hds. revert m. induction Hds as [|d ds Hd _ IH]; intros m Hm; [done|]. apply IH. destruct d as [b|o]; [by apply (well_placed_deliver m (Delivered b))|].
  intros i p. cbn [spec_usage]. unfold spec_fence_owned. destruct (_ && _); [done|apply Hm].
Qed.

(** *** Reads *)

(** The rollup of a rollup. *)
Lemma rolled_again {K L} `{EqDecision K} `{EqDecision L} (f : pid → K) (h : K → L) l d r :
  NoDup (dkeys d) → (∀ i n, dget i d = Some n → 0 <= n) → rolled f d r →
  zsum (λ q : K * Z, if decide (h q.1 = l) then q.2 else 0) r = total_of (λ i, h (f i)) l d.
Proof.
  intros Hn Hp [Hnr Hr].
  assert (∀ p, p ∈ d → f p.1 ∉ dkeys r → p.2 = 0) as Hz.
  { intros [i n] Hin Hk. apply dget_None in Hk. rewrite Hr in Hk. cbn [fst snd] in *.
    assert (total_of f (f i) d = 0) as H0 by (unfold nonzero in Hk; destruct (Z.eqb_spec (total_of f (f i) d) 0); [done|discriminate]).
    pose proof (total_ddel f (f i) i d Hn) as H1. rewrite decide_True in H1 by done. rewrite (elem_dget i n d) in H1 by done. cbn [default] in H1. unfold id in H1.
    assert (0 <= total_of f (f i) (ddel i d)) as H2.
    { apply total_nonneg; [by apply NoDup_ddel|]. intros j m. rewrite dget_ddel. case_decide; [done|]. apply Hp. }
    specialize (Hp i n (elem_dget _ _ _ Hn Hin)). lia. }
  transitivity (zsum (λ q : K * Z, zsum (λ p : pid * Z, if decide (f p.1 = q.1) then (if decide (h q.1 = l) then p.2 else 0) else 0) d) r).
  { apply zsum_ext. intros [k n] Hin. cbn [fst snd]. pose proof (elem_dget _ _ _ Hnr Hin) as E. rewrite Hr in E.
    assert (n = total_of f k d) as ->. { pose proof (proj1 (nonzero_spec (total_of f k d))) as E'. rewrite E in E'. exact E'. }
    destruct (decide (h k = l)); [by apply zsum_ext|]. symmetry. apply zsum_zero. intros p _. by case_decide. }
  rewrite zsum_swap. apply zsum_ext. intros p Hin. specialize (Hz p Hin).
  etransitivity; [exact (zsum_keyed (λ k, if decide (h k = l) then p.2 else 0) (f p.1) r Hnr)|]. cbv beta. destruct (decide (f p.1 ∈ dkeys r)) as [Hk|Hk]; [done|]. rewrite Hz by done. by case_decide.
Qed.

Lemma get_total_ok t u : usage_core u → get_total_bytes t u = total_of pid_tier t (placement_sizes u).
Proof. intros [[Hn Hp] _ Hs _]. exact (rolled_again salt_of_pid fst t _ _ Hn Hp Hs). Qed.

Lemma rolled_get {K} `{EqDecision K} (f : pid → K) d r k : rolled f d r → default 0 (dget k r) = total_of f k d.
Proof. intros [_ Hr]. rewrite Hr. apply nonzero_spec. Qed.

Lemma by_instance_ok t o bk r :
  NoDup (dkeys r) →
  dget bk (default [] (dget o (foldl (λ d (p : (Tier * string * string) * Z),
    if decide (p.1.1.1 = t) then dset p.1.1.2 (dset p.1.2 p.2 (default [] (dget p.1.1.2 d))) d else d) [] r))) = dget (t, o, bk) r.
Proof.
  induction r as [|[[[t' o'] bk'] n] r IH] using rev_ind; intros Hn; [done|]. rewrite foldl_app. cbn [foldl fst snd].
  unfold dkeys in Hn, IH. rewrite map_app in Hn. apply NoDup_app in Hn as (Hn & Hni & _). cbn [map fst] in Hni. specialize (IH Hn). rewrite dget_app.
  set (d := foldl _ [] r) in *.
  assert (∀ k, (t, o, bk) ≠ k → match dget (t, o, bk) r with Some v => Some v | None => dget (t, o, bk) [(k, n)] end = dget bk (default [] (dget o d))) as Hother.
  { intros k Hk. rewrite IH. destruct (dget (t, o, bk) r); [done|]. cbn. by rewrite decide_False. }
  destruct (decide (t' = t)) as [->|Ht]; [|symmetry; apply Hother; congruence].
  rewrite dget_dset. destruct (decide (o' = o)) as [->|Ho]; [|symmetry; apply Hother; congruence].
  change (default [] (Some ?l)) with l. rewrite dget_dset. destruct (decide (bk' = bk)) as [->|Hb]; [|symmetry; apply Hother; congruence].
  destruct (dget (t, o, bk) r) eqn:E; [|cbn; by rewrite decide_True]. exfalso. apply (Hni (t, o, bk)); [|left]. apply dget_is_Some. rewrite E. by eexists.
Qed.

Lemma by_salt_ok t salt u : dget salt (get_bytes_by_salt t u) = dget (t, salt) (salt_bytes u).
Proof.
  unfold get_bytes_by_salt. induction (salt_bytes u) as [|[[t' s'] n] r IH]; [done|]. cbn [omap list_omap fst snd dget]. destruct (decide (t' = t)) as [->|Ht].
  - cbn [dget]. repeat case_decide; congruence.
  - rewrite decide_False by congruence. apply IH.
Qed.

Lemma stats_fold (r : dict (Tier * string) Z) a b :
  (∀ q, q ∈ r → q.1.1 ≠ TierALL) →
  foldl stats_step (Ret [("l1", a); ("l2", b)]%string) r
  = Ret [("l1", a + zsum (λ q : (Tier * string) * Z, if decide (q.1.1 = TierL1) then q.2 else 0) r);
         ("l2", b + zsum (λ q : (Tier * string) * Z, if decide (q.1.1 = TierL2) then q.2 else 0) r)]%string.
Proof.
  revert a b. induction r as [|[[t s] n] r IH]; intros a b Hr; [by rewrite !zsum_nil, !Z.add_0_r|].
  assert (t ≠ TierALL) by (apply (Hr (t, s, n)); left). rewrite !zsum_cons. cbn [foldl fst snd].
  assert (∀ x y x' y', x = x' → y = y' → Ret [("l1", x); ("l2", y)]%string = Ret [("l1", x'); ("l2", y')]%string :> py (dict string Z)) as Hpair by (by intros ? ? ? ? -> ->).
  assert (∀ q, q ∈ r → q.1.1 ≠ TierALL) as Hr' by (intros q Hq; apply Hr; by right).
  destruct t; [| |done]; [change (stats_step _ _) with (Ret [("l1", a + n); ("l2", b)]%string)|change (stats_step _ _) with (Ret [("l1", a); ("l2", b + n)]%string)];
    rewrite IH by done; apply Hpair; cbn [fst snd]; destruct (decide (_ = _)); first [lia|done].
Qed.

Lemma stats_ok u :
  usage_core u → (∀ i, i ∈ dkeys (placement_sizes u) → pid_tier i ≠ TierALL) →
  usage_stats u = Ret [("l1", get_total_bytes TierL1 u); ("l2", get_total_bytes TierL2 u)]%string.
Proof.
  intros [_ _ [Hn Hr] _] Ht. unfold usage_stats. rewrite stats_fold; [done|]. intros [[t s] n] Hq Et. cbn [fst] in Et. subst t.
  pose proof (elem_dget _ _ _ Hn Hq) as E. rewrite Hr in E. unfold nonzero in E. destruct (Z.eqb_spec (total_of salt_of_pid (TierALL, s) (placement_sizes u)) 0) as [|Hne]; [done|].
  apply Hne. apply zsum_zero. intros [i m] Hi. cbn [fst snd]. case_decide as Hd; [|done]. destruct (Ht i); [|by injection Hd].
  apply list_elem_of_fmap. by exists (i, m).
Qed.

(** *** Restoring *)

Definition same_reads (u u' : CacheUsageManager) : Prop := ∀ t,
  (∀ key, get_key_bytes t key u = get_key_bytes t key u') ∧
  (∀ salt, get_salt_bytes t salt u = get_salt_bytes t salt u' ∧ dget salt (get_bytes_by_salt t u) = dget salt (get_bytes_by_salt t u')) ∧
  (∀ o bk, dget bk (default [] (dget o (get_bytes_by_instance t u))) = dget bk (default [] (dget o (get_bytes_by_instance t u')))) ∧
  get_total_bytes t u = get_total_bytes t u'.

Lemma total_perm {K} `{EqDecision K} (f : pid → K) k d d' :
  NoDup (dkeys d) → NoDup (dkeys d') → (∀ i, dget i d = dget i d') → total_of f k d = total_of f k d'.
Proof.
  intros Hn Hn' E. apply zsum_perm. apply NoDup_Permutation; [by eapply NoDup_fmap_1|by eapply NoDup_fmap_1|]. intros [i n].
  split; intros Hi%elem_dget; try done; apply dget_Some_elem; congruence.
Qed.

Lemma same_sizes_reads u u' : usage_ok u → usage_ok u' → (∀ i, dget i (placement_sizes u) = dget i (placement_sizes u')) → same_reads u u'.
Proof.
  intros [Hc _] [Hc' _] E t. pose proof Hc as [[Hn _] [_ H1] [_ H2] [_ H3]]. pose proof Hc' as [[Hn' _] [_ H1'] [_ H2'] [_ H3']].
  unfold get_key_bytes, get_salt_bytes. split_and!.
  - intros key. by rewrite H1, H1', (total_perm _ _ _ _ Hn Hn' E).
  - intros salt. by rewrite !by_salt_ok, H2, H2', (total_perm _ _ _ _ Hn Hn' E).
  - intros o bk. unfold get_bytes_by_instance. rewrite !by_instance_ok by (apply uo_nodes; done). by rewrite H3, H3', (total_perm _ _ _ _ Hn Hn' E).
  - rewrite !get_total_ok by done. apply (total_perm _ _ _ _ Hn Hn' E).
Qed.

Lemma restore_placements (l : dict pid Z) u :
  usage_ok u → (∀ i n, (i, n) ∈ l → 0 <= n ∧ valid_key (pid_key i) ∧ tags (pid_key i) = ∅) →
  NoDup (dkeys (placement_sizes u ++ l)) →
  ∃ u', h_iter restore_placement ((λ p : pid * Z, (tier_value (pid_tier p.1), encode_key (pid_key p.1), pid_owner p.1, pid_backend p.1, p.2)) <$> l) u = (Ret tt, u') ∧
    usage_ok u' ∧ placement_sizes u' = placement_sizes u ++ l.
Proof.
  revert u. induction l as [|[i n] l IH]; intros u Hu Hl Hn; [exists u; by rewrite app_nil_r|].
  destruct (Hl i n) as (Hpos & Hv & Ht); [left|].
  assert (i ∉ dkeys (placement_sizes u)) as Hni.
  { unfold dkeys in *. rewrite map_app in Hn. apply NoDup_app in Hn as (_ & Hx & _). intros Hin. apply (Hx i Hin). left. }
  destruct (record_size_ok i n n u Hu Hpos) as [Hu1 Es]; [rewrite (proj2 (dget_None _ _)) by done; cbn; lia|].
  rewrite dset_notin in Es by done.
  destruct (IH (record_size (pid_tier i) (pid_owner i) i n n u) Hu1) as (u' & E & Hu' & Es').
  { intros j m Hj. apply Hl. by right. } { rewrite Es, <-app_assoc. exact Hn. }
  exists u'. split_and!; [|done|by rewrite Es', Es, <-app_assoc]. rewrite <-E, fmap_cons. cbn [h_iter]. unfold h_bind at 1.
  assert (restore_placement (tier_value (pid_tier i), encode_key (pid_key i), pid_owner i, pid_backend i, n) u = (Ret tt, record_size (pid_tier i) (pid_owner i) i n n u)) as Er;
    [|by cbn [fst snd]; rewrite Er].
  unfold restore_placement, h_bind, h_lift. rewrite decode_encode_key, (proj2 (untagged_id _) Ht) by done. destruct i as [[[t key] o] bk]. by destruct t.
Qed.

(** ** Properties *)

(** C19: the byte totals of the fleet are exact. After any deliveries of batches
    the constructors accept, whatever re-stores, deletes of unknown keys, keys
    that do not decode and fences they hold: a placement is accounted exactly
    when the specification has it, with its last reported size; and the reads
    by key, by salt, by server and backend and by tier, which are kept as
    running totals, are the sums over the accounted placements. A total that
    fell to zero has no entry, and the tier statistics never fail. *)
Theorem usage_refines ds :
  Forall delivery_ok ds →
  let u := foldl (view_step usage_consumer) new_usage ds in
  let sizes := placement_sizes u in
  NoDup (dkeys sizes) ∧ (∀ i, dget i sizes = pl_size_bytes <$> foldl spec_usage (λ _, None) ds i) ∧
  (∀ t key, get_key_bytes t key u = total_of key_of_pid (t, key) sizes) ∧
  (∀ t salt, get_salt_bytes t salt u = total_of salt_of_pid (t, salt) sizes ∧ dget salt (get_bytes_by_salt t u) = nonzero (total_of salt_of_pid (t, salt) sizes)) ∧
  (∀ t o bk, dget bk (default [] (dget o (get_bytes_by_instance t u))) = nonzero (total_of node_of_pid (t, o, bk) sizes)) ∧
  (∀ t, get_total_bytes t u = total_of pid_tier t sizes) ∧
  usage_stats u = Ret [("l1", get_total_bytes TierL1 u); ("l2", get_total_bytes TierL2 u)]%string.
Proof.
  intros Hds u sizes. destruct (usage_run_ok ds new_usage (λ _, None) Hds) as [[Hc _] Hm]; [apply new_usage_ok|done|]. fold u in Hc, Hm. fold sizes in Hm.
  pose proof Hc as [[Hn _] H1 H2 H3]. unfold get_key_bytes, get_salt_bytes. split_and!; [done|done| | | | |].
  - intros t key. by apply rolled_get.
  - intros t salt. split; [by apply rolled_get|]. rewrite by_salt_ok. apply H2.
  - intros t o bk. unfold get_bytes_by_instance. rewrite by_instance_ok by apply H3. apply H3.
  - intros t. by apply get_total_ok.
  - apply stats_ok; [done|]. intros i [n E]%dget_is_Some. change (dget i sizes = Some n) in E. rewrite Hm in E.
    destruct (foldl spec_usage _ ds i) as [p|] eqn:Ep; [|done]. destruct (well_placed_usage ds (λ _, None) Hds) with i p as (-> & Ht & _); [done|exact Ep|exact Ht].
Qed.

(** Usage survives a restart of the coordinator. Restoring the captured
    placements into a new view succeeds, and the restored view answers every
    read as the captured one, and keeps doing so whatever is delivered to both
    afterwards, fences of servers included: the index of L1 placements is
    rebuilt with the totals. *)
Theorem usage_capture_restore u ds :
  usage_ok u → (∀ i, i ∈ dkeys (placement_sizes u) → valid_key (pid_key i) ∧ tags (pid_key i) = ∅) → Forall delivery_ok ds →
  ∃ u', restore_usage (capture_usage u) new_usage = (Ret tt, u') ∧ capture_usage u' = capture_usage u ∧
    same_reads (foldl (view_step usage_consumer) u' ds) (foldl (view_step usage_consumer) u ds).
Proof.
  intros Hu Hk Hds. destruct (restore_placements (placement_sizes u) new_usage) as (u' & E & Hu' & Es); [apply new_usage_ok| |by apply Hu|].
  { intros i n Hi. destruct Hu as [[[Hn Hp] _ _ _] _]. split; [by eapply Hp, elem_dget|]. apply Hk. apply list_elem_of_fmap. by exists (i, n). }
  exists u'. split; [exact E|]. cbn [new_usage placement_sizes app] in Es. split; [unfold capture_usage; by rewrite Es|].
  set (m := λ i, (λ n, mkPlacement "" 0 TierL1 "" n false) <$> dget i (placement_sizes u)).
  assert (sizes_of u m ∧ sizes_of u' m) as [Hm Hm'] by (split; intros i; rewrite ?Es; unfold m; by destruct (dget i (placement_sizes u))).
  destruct (usage_run_ok ds u m) as [H1 H2]; [done..|]. destruct (usage_run_ok ds u' m) as [H1' H2']; [done..|].
  apply same_sizes_reads; [done|done|]. intros i. by rewrite H2, H2'.
Qed.

(** *** Witnesses *)

Definition demo_deliveries : list delivery :=
  [Delivered (example_batch "s1" TierL1 STORE false 1 [example_entry "0a" 100; example_entry "0b" 7]);
   Delivered (example_batch "s1" TierL1 STORE false 2 [example_entry "0a" 70; example_entry "zz" 9; example_entry "0c" 5]);
   Delivered (example_batch "s2" TierL2 STORE true 1 [example_entry "0a" 50]);
   Delivered (example_batch "s1" TierL1 DELETE false 3 [example_entry "0b" 0; example_entry "0d" 0])].

Lemma usage_refines_witness :
  let u := foldl (view_step usage_consumer) new_usage demo_deliveries in
  get_salt_bytes TierL1 "u1" u = 70 ∧ get_bytes_by_instance TierL2 u = [("", [("fs", 50)])]%string ∧
  usage_stats u = Ret [("l1", get_total_bytes TierL1 u); ("l2", get_total_bytes TierL2 u)]%string.
Proof.
  intros u. split; [vm_compute; reflexivity|]. split; [vm_compute; reflexivity|].
  apply (usage_refines demo_deliveries). apply deliveries_okb. vm_compute. reflexivity.
Defined.

Lemma usage_capture_restore_witness :
  let u := foldl (view_step usage_consumer) new_usage demo_deliveries in
  ∃ u', restore_usage (capture_usage u) new_usage = (Ret tt, u') ∧ capture_usage u' = capture_usage u ∧
    same_reads (foldl (view_step usage_consumer) u' [Fenced "s1"]) (foldl (view_step usage_consumer) u [Fenced "s1"]).
Proof.
  intros u. apply (usage_capture_restore u [Fenced "s1"]).
  - apply (usage_run_ok demo_deliveries new_usage (λ _, None)); [apply deliveries_okb; vm_compute; reflexivity|apply new_usage_ok|apply new_usage_ok].
  - intros i Hi. assert (dkeys (placement_sizes u) = [(TierL1, mkKey (mkIdentity [Byte.x0a] 16777216 "m" 0 "u1" ∅), "s1", "fs");
      (TierL2, mkKey (mkIdentity [Byte.x0a] 16777216 "m" 0 "u1" ∅), "", "fs")]%string) as E by (vm_compute; reflexivity).
    rewrite E in Hi. rewrite !elem_of_cons in Hi. destruct Hi as [->|[->|[]%elem_of_nil]]; vm_compute; repeat split; try discriminate; lia.
  - apply deliveries_okb. vm_compute. reflexivity.
Defined.
