(* ===== verification/KeyDirectory.v ===== *)
(** * The key directory

    lmcache/v1/mp_coordinator/views/key_directory.py: where the fleet holds a
    key, the tokens of a chunk and, through the blend index, the chunks in the
    middle of a query. Python's sets of keys are lists without duplicates; an
    object of the directory that a method updates through a reference is updated
    in its place in the state. The counters of served lookups are left out. *)

From stdpp Require Import gmap list strings.
From Stdlib Require Import ZArith Lia.
From Stdlib.Strings Require Import Byte.
From S2P Require Import Prelude Keys PyFloat Handler TokenHasher BlendIndex EventGate Placements.

Open Scope Z_scope.
Open Scope py_scope.
Open Scope handler_scope.

Record TierPlacementStats := mkTierStats { ts_count : Z; ts_size_bytes : Z }.
Record KeyRecord := mkRecord { rec_placements : list Placement; last_access : float; access_count : Z }.
Record TokenBinding := mkBinding { tb_token_ids : list Z; tb_token_offset : Z; tb_keys : list ObjectKey }.

Record KeyDirectory := mkDirectory {
  directory : dict ObjectKey KeyRecord;
  placement_stats : dict Tier TierPlacementStats;
  l1_keys_by_instance : dict string (list ObjectKey);
  token_bindings : dict (list byte) TokenBinding;
  blend_index : BlendIndex;
  blend_lookup_enabled : bool;
  blend_chunk_size : option Z;
  blend_probe_stride : Z
}.

Definition new_directory : py KeyDirectory :=
  let! index := new_blend_index 256 1 in
  Ret (mkDirectory [] [(TierL1, mkTierStats 0 0); (TierL2, mkTierStats 0 0)] [] [] index false None 1).

Implicit Types (d : KeyDirectory) (b : CacheEventBatch) (e : CacheEventEntry) (key : ObjectKey).

Definition set_directory (ks : dict ObjectKey KeyRecord) d : KeyDirectory :=
  mkDirectory ks (placement_stats d) (l1_keys_by_instance d) (token_bindings d) (blend_index d) (blend_lookup_enabled d) (blend_chunk_size d) (blend_probe_stride d).
Definition set_placement_stats (st : dict Tier TierPlacementStats) d : KeyDirectory :=
  mkDirectory (directory d) st (l1_keys_by_instance d) (token_bindings d) (blend_index d) (blend_lookup_enabled d) (blend_chunk_size d) (blend_probe_stride d).
Definition set_l1_keys (l1 : dict string (list ObjectKey)) d : KeyDirectory :=
  mkDirectory (directory d) (placement_stats d) l1 (token_bindings d) (blend_index d) (blend_lookup_enabled d) (blend_chunk_size d) (blend_probe_stride d).
Definition set_bindings (tb : dict (list byte) TokenBinding) d : KeyDirectory :=
  mkDirectory (directory d) (placement_stats d) (l1_keys_by_instance d) tb (blend_index d) (blend_lookup_enabled d) (blend_chunk_size d) (blend_probe_stride d).
Definition set_blend_index (x : BlendIndex) d : KeyDirectory :=
  mkDirectory (directory d) (placement_stats d) (l1_keys_by_instance d) (token_bindings d) x (blend_lookup_enabled d) (blend_chunk_size d) (blend_probe_stride d).

Definition set_record key (r : KeyRecord) d : KeyDirectory := set_directory (dset key r (directory d)) d.
Definition set_binding (h : list byte) (t : TokenBinding) d : KeyDirectory := set_bindings (dset h t (token_bindings d)) d.

(** A call on the blend index. *)
Definition on_blend (f : BlendIndex → py BlendIndex) : handler KeyDirectory unit := λ d,
  match f (blend_index d) with Ret x => (Ret tt, set_blend_index x d) | Raise x => (Raise x, d) end.

(** ** Internals *)

Definition _adjust_placement_stats (p : Placement) (count_delta size_bytes_delta : Z) : handler KeyDirectory unit := λ d,
  match dget (pl_tier p) (placement_stats d) with
  | None => (Raise ValueError, d)
  | Some st => (Ret tt, set_placement_stats
                 (dset (pl_tier p) (mkTierStats (ts_count st + count_delta) (ts_size_bytes st + size_bytes_delta)) (placement_stats d)) d)
  end.

Definition _claim_binding (h : list byte) (binding : TokenBinding) key : handler KeyDirectory unit :=
  let^ d := h_get in
  if negb (blend_lookup_enabled d) then h_ret tt
  else if bool_decide (tb_token_ids binding = []) || (tb_token_offset binding =? UNKNOWN_TOKEN_OFFSET) then h_ret tt
  else on_blend (add (tb_token_ids binding) h (tb_token_offset binding) (from_object_key key)).

(** [np.asarray(token_ids, dtype=np.uint32)]; [None] where it raises. *)
Definition as_uint32 (token_ids : list Z) : option (list Z) := if forallb fits_u32 token_ids then Some token_ids else None.

Definition _create_token_binding key e : handler KeyDirectory unit :=
  match as_uint32 (ev_token_ids e) with
  | None => h_ret tt
  | Some token_ids =>
      let^ d := h_get in
      match dget (chunk_hash key) (token_bindings d) with
      | None => h_raise KeyError
      | Some binding =>
          let replaced := blend_lookup_enabled d && negb (bool_decide (tb_token_ids binding = [])) &&
                          negb (bool_decide (tb_token_ids binding = token_ids)) in
          let^ _ := if replaced then on_blend (remove_chunk (tb_token_ids binding) (chunk_hash key)) else h_ret tt in
          let fresh_content := replaced || bool_decide (tb_token_ids binding = []) in
          let binding := mkBinding token_ids (ev_token_offset e) (tb_keys binding) in
          let^ _ := h_modify (set_binding (chunk_hash key) binding) in
          if fresh_content then h_iter (λ held, _claim_binding (chunk_hash key) binding held) (tb_keys binding)
          else _claim_binding (chunk_hash key) binding key
      end
  end.

Definition _add_token_binding key : handler KeyDirectory unit :=
  let^ d := h_get in
  match dget (chunk_hash key) (token_bindings d) with
  | None => h_modify (set_binding (chunk_hash key) (mkBinding [] UNKNOWN_TOKEN_OFFSET [key]))
  | Some binding =>
      let binding := mkBinding (tb_token_ids binding) (tb_token_offset binding) (oset_set key (tb_keys binding)) in
      let^ _ := h_modify (set_binding (chunk_hash key) binding) in
      _claim_binding (chunk_hash key) binding key
  end.

Definition _remove_token_binding key : handler KeyDirectory unit :=
  let^ d := h_get in
  match dget (chunk_hash key) (token_bindings d) with
  | None => h_ret tt
  | Some binding =>
      let binding := mkBinding (tb_token_ids binding) (tb_token_offset binding) (oset_del key (tb_keys binding)) in
      let^ _ := h_modify (set_binding (chunk_hash key) binding) in
      let^ _ := if blend_lookup_enabled d && negb (bool_decide (tb_token_ids binding = [])) &&
                   negb (existsb (λ held, bool_decide (from_object_key held = from_object_key key)) (tb_keys binding))
                then on_blend (remove_claim (tb_token_ids binding) (chunk_hash key) (from_object_key key)) else h_ret tt in
      if bool_decide (tb_keys binding = []) then h_modify (λ d, set_bindings (ddel (chunk_hash key) (token_bindings d)) d) else h_ret tt
  end.

Definition matches_batch b (p : Placement) : Prop :=
  pl_shared p = shared b ∧ (shared b = true ∨ pl_instance_id p = instance_id b) ∧ pl_tier p = tier b ∧ pl_backend p = backend b.
#[export] Instance matches_batch_dec b p : Decision (matches_batch b p) := _.

Definition _find_placement (ps : list Placement) b : option nat := fst <$> list_find (matches_batch b) ps.

(** The record of a key that is known to have one. *)
Definition record_of key d : KeyRecord := default (mkRecord [] f_zero 0) (dget key (directory d)).
Definition with_placements (ps : list Placement) (r : KeyRecord) : KeyRecord := mkRecord ps (last_access r) (access_count r).

Definition store_placement key b e : handler KeyDirectory unit :=
  let placement := placement_of b e in
  let^ d := h_get in
  let r := record_of key d in
  match _find_placement (rec_placements r) b with
  | None =>
      let^ _ := h_modify (set_record key (with_placements (rec_placements r ++ [placement]) r)) in
      _adjust_placement_stats placement 1 (pl_size_bytes placement)
  | Some index =>
      match rec_placements r !! index with
      | None => h_raise IndexError
      | Some old_placement =>
          let^ _ := h_modify (set_record key (with_placements (<[index := placement]> (rec_placements r)) r)) in
          _adjust_placement_stats placement 0 (pl_size_bytes placement - pl_size_bytes old_placement)
      end
  end.

Definition touch_record key (stamp : float) (accesses : Z) d : KeyDirectory :=
  let r := record_of key d in set_record key (mkRecord (rec_placements r) (f_max (last_access r) stamp) (access_count r + accesses)) d.

Definition apply_store key b e : handler KeyDirectory unit :=
  let^ d := h_get in
  let^ _ := match dget key (directory d) with
            | Some _ => h_ret tt
            | None => let^ _ := h_modify (set_record key (mkRecord [] f_zero 0)) in _add_token_binding key
            end in
  let^ _ := store_placement key b e in
  let^ _ := match ev_token_ids e with [] => h_ret tt | _ => _create_token_binding key e end in
  let^ _ := h_modify (touch_record key (ts b) 0) in
  if bool_decide (tier b = TierL1)
  then h_modify (λ d, set_l1_keys (dset (instance_id b) (oset_set key (default [] (dget (instance_id b) (l1_keys_by_instance d)))) (l1_keys_by_instance d)) d)
  else h_ret tt.

Definition reported_l1 (id : string) (p : Placement) : bool := bool_decide (pl_tier p = TierL1) && bool_decide (pl_instance_id p = id).

(** [record.placements.pop(index)], if there is one, and what is left. *)
Definition pop_placement key (r : KeyRecord) b : handler KeyDirectory (list Placement) :=
  match _find_placement (rec_placements r) b with
  | None => h_ret (rec_placements r)
  | Some index =>
      match rec_placements r !! index with
      | None => h_raise IndexError
      | Some placement =>
          let kept := delete index (rec_placements r) in
          let^ _ := h_modify (set_record key (with_placements kept r)) in
          let^ _ := _adjust_placement_stats placement (-1) (- pl_size_bytes placement) in
          h_ret kept
      end
  end.

(** [del self._directory[key]; self._remove_token_binding(key)]. *)
Definition drop_record key : handler KeyDirectory unit :=
  let^ _ := h_modify (λ d, set_directory (ddel key (directory d)) d) in _remove_token_binding key.

Definition discard_l1_key (id : string) key d : KeyDirectory :=
  set_l1_keys (dset id (oset_del key (default [] (dget id (l1_keys_by_instance d)))) (l1_keys_by_instance d)) d.

Definition apply_delete key b : handler KeyDirectory unit :=
  let^ d := h_get in
  match dget key (directory d) with
  | None => h_ret tt
  | Some r =>
      let^ kept := pop_placement key r b in
      let^ _ := match kept with [] => drop_record key | _ => h_ret tt end in
      if bool_decide (tier b = TierL1) && negb (existsb (reported_l1 (instance_id b)) kept)
      then h_modify (discard_l1_key (instance_id b) key)
      else h_ret tt
  end.

Definition apply_access key b : handler KeyDirectory unit :=
  let^ d := h_get in
  match dget key (directory d) with Some _ => h_modify (touch_record key (ts b) 1) | None => h_ret tt end.

Definition _apply_entry b e : handler KeyDirectory unit :=
  let^ key := h_lift (to_object_key (ev_key e)) in
  match event_type b with
  | STORE => apply_store key b e
  | DELETE => apply_delete key b
  | ACCESS => apply_access key b
  | CONFIG => h_ret tt
  end.

Definition consume_directory b : handler KeyDirectory unit :=
  let^ _ := h_modify (λ d, set_l1_keys (dset (instance_id b) (default [] (dget (instance_id b) (l1_keys_by_instance d))) (l1_keys_by_instance d)) d) in
  h_iter (_apply_entry b) (entries b).

(** One key of [_drop_l1_placements]. *)
Definition drop_l1_of (id : string) (removed : Z) key : handler KeyDirectory Z :=
  let^ d := h_get in
  match dget key (directory d) with
  | None => h_ret removed
  | Some r =>
      let^ acc := h_fold (λ acc p,
        if reported_l1 id p
        then let^ _ := _adjust_placement_stats p (-1) (- pl_size_bytes p) in h_ret (acc.1, acc.2 + 1)
        else h_ret (acc.1 ++ [p], acc.2)) ([], removed) (rec_placements r) in
      let^ _ := match acc.1 with
                | _ :: _ => h_modify (set_record key (with_placements acc.1 r))
                | [] => drop_record key
                end in
      h_ret acc.2
  end.

Definition _drop_l1_placements (id : string) : handler KeyDirectory Z :=
  let^ d := h_get in
  match dget id (l1_keys_by_instance d) with
  | None => h_ret 0
  | Some l1_keys =>
      let^ removed := h_fold (drop_l1_of id) 0 l1_keys in
      let^ _ := h_modify (λ d, set_l1_keys (dset id [] (l1_keys_by_instance d)) d) in
      h_ret removed
  end.

Definition fence_directory (id : string) : handler KeyDirectory unit :=
  let^ _ := _drop_l1_placements id in
  h_modify (λ d, set_l1_keys (ddel id (l1_keys_by_instance d)) d).

Definition directory_consumer : Consumer KeyDirectory := mkConsumer consume_directory fence_directory.

(** ** Reads *)

(** [sorted(l, key=...)], which keeps the order of equal elements. *)
Fixpoint insert_sorted {X} (leb : X → X → bool) (x : X) (l : list X) : list X :=
  match l with [] => [x] | y :: l' => if leb x y then x :: l else y :: insert_sorted leb x l' end.
Definition sort_by {X} (leb : X → X → bool) (l : list X) : list X := foldr (insert_sorted leb) [] l.

(** The order of [(instance_id, tier.value, backend)]. *)
Definition placement_leb (p q : Placement) : bool :=
  match (pl_instance_id p ?= pl_instance_id q)%string with
  | Lt => true
  | Gt => false
  | Eq => match (tier_value (pl_tier p) ?= tier_value (pl_tier q))%string with
          | Lt => true
          | Gt => false
          | Eq => (pl_backend p <=? pl_backend q)%string
          end
  end.

Definition lookup_keys (keys : list ObjectKey) d : list (list Placement) :=
  (λ key, match dget key (directory d) with None => [] | Some r => sort_by placement_leb (rec_placements r) end) <$> keys.

Definition in_group (g : Z) key : ObjectKey :=
  mkKey (mkIdentity (chunk_hash key) (kv_rank key) (model_name key) g (cache_salt key) (tags key)).

Definition _get_stored_keys_in_other_groups key d : list ObjectKey :=
  match dget (chunk_hash key) (token_bindings d) with
  | None => []
  | Some binding => filter (λ stored, object_group_id stored ≠ object_group_id key ∧ in_group (object_group_id key) stored = key) (tb_keys binding)
  end.

Definition get_keys_across_object_groups (keys : list ObjectKey) d : list ObjectKey :=
  keys ≫= λ key, sort_by (λ k k', object_group_id k <=? object_group_id k') (key :: _get_stored_keys_in_other_groups key d).

Definition get_token_ids (hashes : list (list byte)) d : list (list Z) :=
  (λ h, match dget h (token_bindings d) with Some binding => tb_token_ids binding | None => [] end) <$> hashes.

Definition get_access_counts (keys : list ObjectKey) d : list Z :=
  (λ key, match dget key (directory d) with Some r => access_count r | None => 0 end) <$> keys.

Definition blend_match (tokens : list Z) (namespace : BlendNamespace) d : py (list BlendMatch) :=
  if negb (blend_lookup_enabled d) then Ret [] else match_ tokens namespace (blend_index d).

Definition selects (t : Tier) (id bk : string) (p : Placement) : bool :=
  (bool_decide (t = TierALL) || bool_decide (pl_tier p = t)) &&
  (bool_decide (id = EmptyString) || bool_decide (pl_instance_id p = id)) &&
  (bool_decide (bk = EmptyString) || bool_decide (pl_backend p = bk)).

Definition list_keys (t : Tier) (id bk : string) (offset limit : Z) d : py (Z * dict ObjectKey (list Placement)) :=
  if offset <? 0 then Raise ValueError
  else if limit <? 0 then Raise ValueError
  else Ret (foldl (λ acc (q : ObjectKey * KeyRecord),
         match filter (λ p, selects t id bk p = true) (rec_placements q.2) with
         | [] => acc
         | ps => (acc.1 + 1, if (offset <=? acc.1) && (Z.of_nat (length acc.2) <? limit) then dset q.1 ps acc.2 else acc.2)
         end) (0, []) (directory d)).

Record DirectoryStats := mkDirStats {
  ds_num_keys : nat;
  ds_num_placements : Z;
  ds_l1_keys_by_instance : dict string nat;
  ds_blend : BlendIndexStats;
  ds_blend_lookup_enabled : bool;
  ds_l1_count : Z;
  ds_l1_size_bytes : Z;
  ds_l2_count : Z;
  ds_l2_size_bytes : Z
}.

Definition directory_stats d : py DirectoryStats :=
  match dget TierL1 (placement_stats d), dget TierL2 (placement_stats d) with
  | Some l1, Some l2 =>
      Ret (mkDirStats (length (directory d)) (ts_count l1 + ts_count l2) ((λ q : string * list ObjectKey, (q.1, length q.2)) <$> l1_keys_by_instance d)
             (stats (blend_index d)) (blend_lookup_enabled d) (ts_count l1) (ts_size_bytes l1) (ts_count l2) (ts_size_bytes l2))
  | _, _ => Raise KeyError
  end.

(** ** Blend lookup *)

Definition enable_blend_lookup (chunk_size probe_stride : Z) : handler KeyDirectory unit := λ d,
  match new_blend_index chunk_size probe_stride with
  | Raise x => (Raise x, d)
  | Ret index => (Ret tt, mkDirectory (directory d) (placement_stats d) (l1_keys_by_instance d) (token_bindings d) index true (Some chunk_size) probe_stride)
  end.

(** The namespaces of a set of keys. *)
Definition namespaces_of (keys : list ObjectKey) : list BlendNamespace := foldl (λ s key, oset_set (from_object_key key) s) [] keys.

Fixpoint add_claims (binding : TokenBinding) (h : list byte) (nss : list BlendNamespace) (x : BlendIndex) : py BlendIndex :=
  match nss with
  | [] => Ret x
  | ns :: nss' => let! x := add (tb_token_ids binding) h (tb_token_offset binding) ns x in add_claims binding h nss' x
  end.

Fixpoint rebuild_index (bindings : dict (list byte) TokenBinding) (x : BlendIndex) : py BlendIndex :=
  match bindings with
  | [] => Ret x
  | (h, binding) :: rest =>
      let! x := if bool_decide (tb_token_ids binding = []) || (tb_token_offset binding =? UNKNOWN_TOKEN_OFFSET) then Ret x
                else add_claims binding h (namespaces_of (tb_keys binding)) x in
      rebuild_index rest x
  end.

Definition bind_chunk_size (chunk_size : Z) : handler KeyDirectory unit := λ d,
  if negb (blend_lookup_enabled d) || bool_decide (blend_chunk_size d = Some chunk_size) then (Ret tt, d)
  else
    match (let! x := new_blend_index chunk_size (blend_probe_stride d) in rebuild_index (token_bindings d) x) with
    | Raise x => (Raise x, d)
    | Ret index => (Ret tt, mkDirectory (directory d) (placement_stats d) (l1_keys_by_instance d) (token_bindings d) index
                              (blend_lookup_enabled d) (Some chunk_size) (blend_probe_stride d))
    end.

(** ** Durable state *)

Abbreviation encoded_placement := (string * Z * string * string * Z * bool)%type.

Definition _encode_placement (p : Placement) : encoded_placement :=
  (pl_instance_id p, pl_incarnation p, tier_value (pl_tier p), pl_backend p, pl_size_bytes p, pl_shared p).

Definition _decode_placement (q : encoded_placement) : py Placement :=
  let '(id, inc, t, bk, size, sh) := q in let! t := Tier_of t in Ret (mkPlacement id inc t bk size sh).

Record captured_directory := mkCapturedDir {
  cd_keys : list (EncodedKey * float * Z * list encoded_placement);
  cd_bindings : list (list byte * Z * list byte);
  cd_l1_keys : dict string (list Z)
}.

(** Token ids go out as little-endian words. *)
Definition le_words (token_ids : list Z) : list byte := mjoin (native_word true <$> token_ids).
Definition from_le_words (raw : list byte) : py (list Z) :=
  if negb (Z.of_nat (length raw) mod 4 =? 0) then Raise ValueError else Ret (native_value true <$> frombytes raw).

(** [positions.get(key)]. *)
Definition position_of key d : option Z := (λ q, Z.of_nat q.1) <$> list_find (eq key) (dkeys (directory d)).

Definition capture_directory d : captured_directory :=
  mkCapturedDir
    ((λ q : ObjectKey * KeyRecord, (encode_key q.1, last_access q.2, access_count q.2, _encode_placement <$> rec_placements q.2)) <$> directory d)
    ((λ q : list byte * TokenBinding, (q.1, tb_token_offset q.2, le_words (tb_token_ids q.2))) <$> token_bindings d)
    ((λ q : string * list ObjectKey, (q.1, omap (λ key, position_of key d) q.2)) <$> l1_keys_by_instance d).

Definition restore_key (key_table : list ObjectKey) (q : EncodedKey * float * Z * list encoded_placement) : handler KeyDirectory (list ObjectKey) :=
  let '(encoded, last, count, ps) := q in
  let^ key := h_lift (decode_key encoded) in
  let^ ps := h_lift (py_map _decode_placement ps) in
  if existsb (λ p, bool_decide (pl_tier p = TierALL)) ps then h_raise ValueError
  else
    let^ _ := h_modify (set_record key (mkRecord ps last count)) in
    let^ _ := h_iter (λ p, _adjust_placement_stats p 1 (pl_size_bytes p)) ps in
    let^ _ := _add_token_binding key in
    h_ret (key_table ++ [key]).

Definition restore_binding (q : list byte * Z * list byte) : handler KeyDirectory unit :=
  let '(h, offset, raw) := q in
  let^ d := h_get in
  match dget h (token_bindings d) with
  | None => h_ret tt
  | Some binding =>
      let^ token_ids := h_lift (from_le_words raw) in
      let binding := mkBinding token_ids offset (tb_keys binding) in
      let^ _ := h_modify (set_binding h binding) in
      h_iter (λ held, _claim_binding h binding held) (tb_keys binding)
  end.

Definition restore_l1_keys (key_table : list ObjectKey) (q : string * list Z) : handler KeyDirectory unit :=
  if existsb (λ position, negb ((0 <=? position) && (position <? Z.of_nat (length key_table)))) q.2 then h_raise ValueError
  else h_modify (λ d, set_l1_keys (dset q.1 (foldl (λ s position, match key_table !! Z.to_nat position with Some key => oset_set key s | None => s end) [] q.2)
                                     (l1_keys_by_instance d)) d).

Definition restore_directory (state : captured_directory) : handler KeyDirectory unit :=
  let^ d := h_get in
  match directory d, l1_keys_by_instance d with
  | [], [] =>
      let^ key_table := h_fold restore_key [] (cd_keys state) in
      let^ _ := h_iter restore_binding (cd_bindings state) in
      h_iter (restore_l1_keys key_table) (cd_l1_keys state)
  | _, _ => h_raise ValueError
  end.
