(* ===== verification/KeyDirectoryInv.v ===== *)
(** * The invariant of the key directory

    What the methods of KeyDirectory.v do to the state, and the invariant that
    ties the directory to the specification of Placements.v: its records hold
    exactly the placements, its counters are their sums, the index of L1 keys
    misses none, and the bindings list the keys of each chunk. *)

From stdpp Require Import gmap list strings.
From Stdlib Require Import ZArith Lia.
From Stdlib.Strings Require Import Byte.
From S2P Require Import Prelude Keys PyFloat Handler TokenHasher BlendIndex EventGate Placements KeyDirectory.

Open Scope Z_scope.
Open Scope py_scope.
Open Scope handler_scope.

Implicit Types (d : KeyDirectory) (b : CacheEventBatch) (e : CacheEventEntry) (key : ObjectKey) (m : placements).

(** ** The blend index never raises *)

Lemma count_claim_total ns delta x : delta ≠ 0 → ∃ x', _count_claim ns delta x = Ret x'.
Proof.
  intros Hd. unfold _count_claim. destruct (negb _) eqn:E; [by eexists|]. unfold dmem. destruct (dget ns (claims_by_namespace x)) as [n|] eqn:En; [by eexists|].
  exfalso. cbn in E. apply negb_false_iff, Z.eqb_eq in E. done.
Qed.

Lemma count_claims_total nss delta x : delta ≠ 0 → ∃ x', count_claims nss delta x = Ret x'.
Proof.
  intros Hd. revert x. induction nss as [|ns nss IH]; intros x; [by eexists|]. cbn [count_claims].
  destruct (count_claim_total ns delta x Hd) as [x' ->]. apply IH.
Qed.

Lemma run_op_total x op : ∃ x', run_op x op = Ret x'.
Proof.
  destruct op as [c ch off ns|c ch ns|c ch]; cbn [run_op]; unfold add, remove_claim, remove_chunk.
  - destruct (negb _); [by eexists|]. cbv zeta. destruct (match dget _ (fingerprint_table x) with Some _ => _ | None => _ end) as [entry x1].
    destruct (dget ch (occupants entry)); [destruct (bool_decide _); [by eexists|]|]; by apply count_claim_total.
  - destruct (negb _); [by eexists|]. cbv zeta. destruct (dget _ (fingerprint_table x)) as [entry|]; [|by eexists].
    destruct (dget ch (occupants entry)) as [o|]; [|by eexists]. destruct (negb _); [by eexists|].
    destruct (count_claim_total ns (-1) x) as [x' ->]; [done|]. cbn [py_bind]. destruct (oset_del _ _); by eexists.
  - destruct (negb _); [by eexists|]. cbv zeta. destruct (dget _ (fingerprint_table x)) as [entry|]; [|by eexists].
    destruct (dget ch (occupants entry)) as [o|]; [|by eexists].
    destruct (count_claims_total (namespaces o) (-1) (set_counts (num_chunks x - 1) (claims_by_namespace x) x)) as [x' ->]; [done|]. by eexists.
Qed.

Lemma run_ops_total ops x : ∃ x', run_ops ops x = Ret x'.
Proof.
  revert x. induction ops as [|op ops IH]; intros x; [by eexists|]. cbn [run_ops]. destruct (run_op_total x op) as [x' ->]. apply IH.
Qed.

Lemma run_ops_app ops ops' x : run_ops (ops ++ ops') x = (let! x := run_ops ops x in run_ops ops' x).
Proof. revert x. induction ops as [|op ops IH]; intros x; [done|]. cbn [run_ops app]. destruct (run_op x op) as [x'|]; [|done]. apply IH. Qed.

(** ** Effects

    A method that only touches the bindings and the blend index returns; what it
    leaves is [tb'] and the index after [ops]. *)
Definition binding_effect (h : handler KeyDirectory unit) (tb : dict (list byte) TokenBinding) (ops : list blend_op) d : Prop :=
  ∃ x, run_ops ops (blend_index d) = Ret x ∧ h d = (Ret tt, set_blend_index x (set_bindings tb d)).

Lemma set_index_id d : set_blend_index (blend_index d) (set_bindings (token_bindings d) d) = d.
Proof. by destruct d. Qed.

Lemma effect_ret d : binding_effect (h_ret tt) (token_bindings d) [] d.
Proof. exists (blend_index d). split; [done|]. by rewrite set_index_id. Qed.

Lemma effect_modify tb d : binding_effect (h_modify (set_bindings tb)) tb [] d.
Proof. exists (blend_index d). by destruct d. Qed.

Lemma effect_blend f op d : (∀ x, f x = run_op x op) → binding_effect (on_blend f) (token_bindings d) [op] d.
Proof.
  intros Hf. destruct (run_op_total (blend_index d) op) as [x E]. exists x. cbn [run_ops]. rewrite E. split; [done|]. unfold on_blend. rewrite Hf, E. by destruct d.
Qed.

Lemma effect_seq h1 h2 tb1 tb2 ops1 ops2 d :
  binding_effect h1 tb1 ops1 d → (∀ x, binding_effect h2 tb2 ops2 (set_blend_index x (set_bindings tb1 d))) →
  binding_effect (let^ _ := h1 in h2) tb2 (ops1 ++ ops2) d.
Proof.
  intros (x1 & E1 & H1) H2. destruct (H2 x1) as (x & E & H). exists x. rewrite run_ops_app, E1. split; [exact E|]. unfold h_bind. by rewrite H1, H.
Qed.

Definition claim_ops (enabled : bool) (h : list byte) (t : TokenBinding) (keys : list ObjectKey) : list blend_op :=
  if enabled && negb (bool_decide (tb_token_ids t = [])) && negb (tb_token_offset t =? UNKNOWN_TOKEN_OFFSET)
  then (λ key, Add (tb_token_ids t) h (tb_token_offset t) (from_object_key key)) <$> keys else [].

Lemma claim_effect h t key d : binding_effect (_claim_binding h t key) (token_bindings d) (claim_ops (blend_lookup_enabled d) h t [key]) d.
Proof.
  unfold claim_ops. change (binding_effect (λ d', _claim_binding h t key d') (token_bindings d)) with (binding_effect (_claim_binding h t key) (token_bindings d)).
  assert (_claim_binding h t key d = (if negb (blend_lookup_enabled d) then h_ret tt
    else if bool_decide (tb_token_ids t = []) || (tb_token_offset t =? UNKNOWN_TOKEN_OFFSET) then h_ret tt
    else on_blend (add (tb_token_ids t) h (tb_token_offset t) (from_object_key key))) d) as E by done.
  unfold binding_effect. rewrite E. destruct (blend_lookup_enabled d); cbn [negb andb]; [|apply effect_ret].
  destruct (bool_decide _), (_ =? _); cbn [negb andb orb]; try apply effect_ret.
  by apply (effect_blend _ (Add (tb_token_ids t) h (tb_token_offset t) (from_object_key key))).
Qed.

Lemma claims_effect h t keys d :
  binding_effect (h_iter (λ held, _claim_binding h t held) keys) (token_bindings d) (claim_ops (blend_lookup_enabled d) h t keys) d.
Proof.
  revert d. induction keys as [|key keys IH]; intros d.
  - replace (claim_ops _ h t []) with (@nil blend_op) by (unfold claim_ops; by destruct (_ && _)). apply effect_ret.
  - replace (claim_ops (blend_lookup_enabled d) h t (key :: keys)) with
      (claim_ops (blend_lookup_enabled d) h t [key] ++ claim_ops (blend_lookup_enabled d) h t keys) by (unfold claim_ops; by destruct (_ && _)).
    cbn [h_iter]. eapply effect_seq; [apply claim_effect|]. intros x. apply (IH (set_blend_index x (set_bindings (token_bindings d) d))).
Qed.

(** *** The methods on bindings *)

Definition created key e d : dict (list byte) TokenBinding :=
  match as_uint32 (ev_token_ids e), dget (chunk_hash key) (token_bindings d) with
  | Some token_ids, Some t => dset (chunk_hash key) (mkBinding token_ids (ev_token_offset e) (tb_keys t)) (token_bindings d)
  | _, _ => token_bindings d
  end.

Definition create_ops key e d : list blend_op :=
  match as_uint32 (ev_token_ids e), dget (chunk_hash key) (token_bindings d) with
  | Some token_ids, Some t =>
      let t' := mkBinding token_ids (ev_token_offset e) (tb_keys t) in
      let replaced := blend_lookup_enabled d && negb (bool_decide (tb_token_ids t = [])) && negb (bool_decide (tb_token_ids t = token_ids)) in
      (if replaced then [RemoveChunk (tb_token_ids t) (chunk_hash key)] else []) ++
      claim_ops (blend_lookup_enabled d) (chunk_hash key) t' (if replaced || bool_decide (tb_token_ids t = []) then tb_keys t else [key])
  | _, _ => []
  end.

Lemma create_effect key e d :
  is_Some (dget (chunk_hash key) (token_bindings d)) → binding_effect (_create_token_binding key e) (created key e d) (create_ops key e d) d.
Proof.
  intros [t Et]. unfold created, create_ops, _create_token_binding. rewrite Et. destruct (as_uint32 _) as [token_ids|]; [|apply effect_ret].
  unfold binding_effect, h_bind at 1, h_get. rewrite Et. fold (binding_effect (λ d0, h_ret tt d0)). cbv zeta. cbn [tb_keys].
  set (replaced := blend_lookup_enabled d && _ && _). set (t' := mkBinding _ _ _).
  apply (effect_seq _ _ (token_bindings d)).
  { destruct replaced; [|apply effect_ret]. by apply (effect_blend _ (RemoveChunk (tb_token_ids t) (chunk_hash key))). }
  intros x. rewrite <-(app_nil_l (claim_ops _ _ _ _)). eapply effect_seq; [apply effect_modify|]. intros x'.
  destruct (_ || _).
  - apply (claims_effect _ _ _ (set_blend_index x' (set_bindings _ (set_blend_index x (set_bindings (token_bindings d) d))))).
  - apply (claim_effect _ _ _ (set_blend_index x' (set_bindings _ (set_blend_index x (set_bindings (token_bindings d) d))))).
Qed.

Definition joined key d : TokenBinding :=
  match dget (chunk_hash key) (token_bindings d) with
  | None => mkBinding [] UNKNOWN_TOKEN_OFFSET [key]
  | Some t => mkBinding (tb_token_ids t) (tb_token_offset t) (oset_set key (tb_keys t))
  end.

Definition add_ops key d : list blend_op := claim_ops (blend_lookup_enabled d) (chunk_hash key) (joined key d) [key].

Lemma add_effect key d : binding_effect (_add_token_binding key) (dset (chunk_hash key) (joined key d) (token_bindings d)) (add_ops key d) d.
Proof.
  unfold add_ops, joined, _add_token_binding, binding_effect, h_bind at 1, h_get. destruct (dget _ (token_bindings d)) as [t|] eqn:Et.
  - rewrite <-(app_nil_l (claim_ops _ _ _ _)). eapply effect_seq; [apply effect_modify|]. intros x.
    apply (claim_effect _ _ _ (set_blend_index x (set_bindings _ d))).
  - unfold claim_ops. cbn [tb_token_ids]. rewrite bool_decide_true by done. rewrite andb_false_r. apply effect_modify.
Qed.

Definition left_binding key (t : TokenBinding) : TokenBinding := mkBinding (tb_token_ids t) (tb_token_offset t) (oset_del key (tb_keys t)).

Definition removed_bindings key d : dict (list byte) TokenBinding :=
  match dget (chunk_hash key) (token_bindings d) with
  | None => token_bindings d
  | Some t => let tb := dset (chunk_hash key) (left_binding key t) (token_bindings d) in
              if bool_decide (tb_keys (left_binding key t) = []) then ddel (chunk_hash key) tb else tb
  end.

Definition remove_ops key d : list blend_op :=
  match dget (chunk_hash key) (token_bindings d) with
  | None => []
  | Some t =>
      if blend_lookup_enabled d && negb (bool_decide (tb_token_ids t = [])) &&
         negb (existsb (λ held, bool_decide (from_object_key held = from_object_key key)) (oset_del key (tb_keys t)))
      then [RemoveClaim (tb_token_ids t) (chunk_hash key) (from_object_key key)] else []
  end.

Lemma remove_effect key d : binding_effect (_remove_token_binding key) (removed_bindings key d) (remove_ops key d) d.
Proof.
  unfold removed_bindings, remove_ops, _remove_token_binding, binding_effect, h_bind at 1, h_get. destruct (dget _ (token_bindings d)) as [t|] eqn:Et; [|apply effect_ret].
  cbv zeta. change (mkBinding _ _ (oset_del key (tb_keys t))) with (left_binding key t).
  rewrite <-(app_nil_l (if _ && _ then _ else _)). eapply effect_seq; [apply effect_modify|]. intros x.
  rewrite <-(app_nil_r (if _ && _ then _ else _)). eapply (effect_seq _ _ (dset (chunk_hash key) (left_binding key t) (token_bindings d))).
  { cbn [left_binding tb_token_ids tb_keys]. destruct (_ && _); [|apply (effect_ret (set_blend_index x (set_bindings _ d)))].
    by apply (effect_blend _ (RemoveClaim (tb_token_ids t) (chunk_hash key) (from_object_key key)) (set_blend_index x (set_bindings _ d))). }
  intros x'. destruct (bool_decide _); [apply effect_modify|apply (effect_ret (set_blend_index x' (set_bindings _ (set_blend_index x (set_bindings _ d)))))].
Qed.

(** ** Bindings list the keys of their chunk *)

Definition keys_at (tb : dict (list byte) TokenBinding) (h : list byte) : list ObjectKey := from_option tb_keys [] (dget h tb).

Record bindings_ok (ks : list ObjectKey) (tb : dict (list byte) TokenBinding) : Prop := {
  bo_nodup : NoDup (dkeys tb);
  bo_nonempty : ∀ h t, dget h tb = Some t → tb_keys t ≠ [];
  bo_fits : ∀ h t, dget h tb = Some t → forallb fits_u32 (tb_token_ids t) = true;
  bo_keys_nodup : ∀ h, NoDup (keys_at tb h);
  bo_keys : ∀ h key, key ∈ keys_at tb h ↔ key ∈ ks ∧ chunk_hash key = h
}.

Lemma bindings_present ks tb key : bindings_ok ks tb → key ∈ ks → is_Some (dget (chunk_hash key) tb).
Proof.
  intros Hb Hk. assert (key ∈ keys_at tb (chunk_hash key)) as Hi by (by apply (bo_keys _ _ Hb)). unfold keys_at in Hi.
  destruct (dget (chunk_hash key) tb); [by eexists|by apply elem_of_nil in Hi].
Qed.

Lemma created_ok ks key e d : bindings_ok ks (token_bindings d) → bindings_ok ks (created key e d).
Proof.
  intros Hb. unfold created. destruct (as_uint32 _) eqn:Eu; [|done]. destruct (dget _ (token_bindings d)) as [t|] eqn:Et; [|done].
  destruct Hb as [H1 H2 Hf H3 H4].
  assert (∀ h, keys_at (dset (chunk_hash key) (mkBinding l (ev_token_offset e) (tb_keys t)) (token_bindings d)) h = keys_at (token_bindings d) h) as Ek.
  { intros h. unfold keys_at. rewrite dget_dset. case_decide as Hd; [|done]. subst h. by rewrite Et. }
  split; [by apply NoDup_dset| | |intros h; by rewrite Ek|intros h k; by rewrite Ek]; intros h t'; rewrite dget_dset.
  - case_decide; [|apply H2]. intros [= <-]. cbn. by eapply H2.
  - case_decide; [|apply Hf]. intros [= <-]. cbn. unfold as_uint32 in Eu. destruct (forallb fits_u32 (ev_token_ids e)) eqn:Ef; [|done]. by injection Eu as <-.
Qed.

Lemma joined_ok ks ks' key d :
  bindings_ok ks (token_bindings d) → (∀ k, k ∈ ks' ↔ k ∈ ks ∨ k = key) → bindings_ok ks' (dset (chunk_hash key) (joined key d) (token_bindings d)).
Proof.
  intros [H1 H2 Hf H3 H4] Hks.
  assert (tb_keys (joined key d) = oset_set key (keys_at (token_bindings d) (chunk_hash key))) as Ej.
  { unfold joined, keys_at. by destruct (dget _ (token_bindings d)). }
  assert (∀ h, keys_at (dset (chunk_hash key) (joined key d) (token_bindings d)) h =
               if decide (chunk_hash key = h) then oset_set key (keys_at (token_bindings d) h) else keys_at (token_bindings d) h) as Ek.
  { intros h. unfold keys_at at 1. rewrite dget_dset. case_decide as Hd; [|done]. subst h. by rewrite <-Ej. }
  split; [by apply NoDup_dset| | | |].
  2: { intros h t. rewrite dget_dset. case_decide as Hd; [|apply Hf]. intros [= <-]. unfold joined. destruct (dget (chunk_hash key) _) as [t|] eqn:Et; [exact (Hf _ _ Et)|done]. }
  - intros h t. rewrite dget_dset. case_decide as Hd; [|apply H2]. intros [= <-] E. assert (key ∈ tb_keys (joined key d)) as Hi.
    { rewrite Ej, elem_of_oset_set. by right. } rewrite E in Hi. by apply elem_of_nil in Hi.
  - intros h. rewrite Ek. case_decide; [by apply NoDup_oset_set|done].
  - intros h k. rewrite Ek. case_decide as Hd; rewrite ?elem_of_oset_set, H4, Hks; [subst h; split; [intros [?| ->]|]|split]; try tauto; intros ([?| ->] & ?); tauto.
Qed.

Lemma removed_ok ks ks' key d :
  bindings_ok ks (token_bindings d) → (∀ k, k ∈ ks' ↔ k ∈ ks ∧ k ≠ key) → bindings_ok ks' (removed_bindings key d).
Proof.
  intros [H1 H2 Hf H3 H4] Hks.
  assert (∀ h, keys_at (removed_bindings key d) h = if decide (chunk_hash key = h) then oset_del key (keys_at (token_bindings d) h) else keys_at (token_bindings d) h) as Ek.
  { intros h. unfold removed_bindings. destruct (dget (chunk_hash key) (token_bindings d)) as [t|] eqn:Et.
    - cbv zeta. unfold keys_at. case_bool_decide as Hl.
      + rewrite dget_ddel, dget_dset. destruct (decide (chunk_hash key = h)) as [<-|]; [|done]. rewrite Et. cbn [from_option]. symmetry. exact Hl.
      + rewrite dget_dset. destruct (decide (chunk_hash key = h)) as [<-|]; [|done]. by rewrite Et.
    - destruct (decide (chunk_hash key = h)) as [<-|]; [|done]. unfold keys_at. by rewrite Et. }
  split.
  - unfold removed_bindings. destruct (dget _ _) as [t|]; [|done]. cbv zeta. case_bool_decide; [apply NoDup_ddel|]; by apply NoDup_dset.
  - intros h t. unfold removed_bindings. destruct (dget (chunk_hash key) (token_bindings d)) as [t0|] eqn:Et; [|apply H2]. cbv zeta. case_bool_decide as Hl.
    + rewrite dget_ddel, dget_dset. destruct (decide _); [done|]. apply H2.
    + rewrite dget_dset. destruct (decide _); [by intros [= <-]|apply H2].
  - intros h t. unfold removed_bindings. destruct (dget (chunk_hash key) (token_bindings d)) as [t0|] eqn:Et; [|apply Hf]. cbv zeta.
    assert (forallb fits_u32 (tb_token_ids (left_binding key t0)) = true) by apply (Hf _ _ Et).
    case_bool_decide; rewrite ?dget_ddel, dget_dset; destruct (decide _); try done; try apply Hf. by intros [= <-].
  - intros h. rewrite Ek. case_decide; [by apply NoDup_oset_del|done].
  - intros h k. rewrite Ek. case_decide as Hd; rewrite ?elem_of_oset_del, H4, Hks; [tauto|]. split; [|tauto]. intros [? <-]. split_and!; [done|congruence|done].
Qed.

(** ** The records *)

Abbreviation records := (dict ObjectKey KeyRecord).
Implicit Types (ks : records) (ps : list Placement).

Definition held ks key : list Placement := from_option rec_placements [] (dget key ks).

(** A sum over all placements. *)
Definition weigh (f : Placement → Z) ks : Z := zsum (λ q : ObjectKey * KeyRecord, zsum f (rec_placements q.2)) ks.
Definition in_tier (t : Tier) (p : Placement) : Z := if decide (pl_tier p = t) then 1 else 0.
Definition bytes_in (t : Tier) (p : Placement) : Z := if decide (pl_tier p = t) then pl_size_bytes p else 0.

(** The counters of the concrete tiers are the sums. *)
Definition tracks ks (st : dict Tier TierPlacementStats) : Prop :=
  ∀ t, dget t st = if decide (t = TierALL) then None else Some (mkTierStats (weigh (in_tier t) ks) (weigh (bytes_in t) ks)).

Record core_ok ks (st : dict Tier TierPlacementStats) (l1 : dict string (list ObjectKey)) (tb : dict (list byte) TokenBinding) m : Prop := {
  co_nodup : NoDup (dkeys ks);
  co_nonempty : ∀ key, key ∈ dkeys ks → held ks key ≠ [];
  co_once : ∀ key, NoDup ((λ p, own_pid p key) <$> held ks key);
  co_held : ∀ key p, p ∈ held ks key ↔ m (own_pid p key) = Some p;
  co_stats : tracks ks st;
  co_l1 : NoDup (dkeys l1) ∧ ∀ key p, p ∈ held ks key → pl_tier p = TierL1 → key ∈ default [] (dget (pl_instance_id p) l1);
  co_bindings : bindings_ok (dkeys ks) tb
}.

Definition dir_ok d m : Prop := core_ok (directory d) (placement_stats d) (l1_keys_by_instance d) (token_bindings d) m ∧ well_placed m.

Lemma held_dset ks key r key' : held (dset key r ks) key' = if decide (key = key') then rec_placements r else held ks key'.
Proof. unfold held. rewrite dget_dset. by destruct (decide _). Qed.
Lemma held_ddel ks key key' : held (ddel key ks) key' = if decide (key = key') then [] else held ks key'.
Proof. unfold held. rewrite dget_ddel. by destruct (decide _). Qed.
Lemma held_notin ks key : key ∉ dkeys ks → held ks key = [].
Proof. intros H. unfold held. by rewrite (proj2 (dget_None _ _)). Qed.

Lemma weigh_dset f ks key r : weigh f (dset key r ks) = weigh f ks - zsum f (held ks key) + zsum f (rec_placements r).
Proof.
  unfold weigh, held. destruct (dget key ks) as [r0|] eqn:E; [by rewrite (zsum_dset _ _ r0)|]. rewrite zsum_dset_new by (by apply dget_None). cbn. lia.
Qed.
Lemma weigh_ddel f ks key : NoDup (dkeys ks) → weigh f (ddel key ks) = weigh f ks - zsum f (held ks key).
Proof.
  intros Hn. unfold weigh, held. destruct (dget key ks) as [r0|] eqn:E; [by rewrite (zsum_ddel _ _ r0)|]. rewrite ddel_notin by (by apply dget_None). cbn. lia.
Qed.

Lemma zsum_delete {X} (f : X → Z) l i x : l !! i = Some x → zsum f (delete i l) = zsum f l - f x.
Proof.
  revert i. induction l as [|z l IH]; intros [|i] E; try done.
  - injection E as ->. change (delete 0%nat (x :: l)) with l. rewrite zsum_cons. lia.
  - change (delete (S i) (z :: l)) with (z :: delete i l). rewrite !zsum_cons, (IH i E). lia.
Qed.

(** *** Identities *)

Lemma matches_pid b p key :
  instance_id b ≠ ""%string → pl_instance_id p ≠ ""%string → matches_batch b p ↔ own_pid p key = batch_pid b key.
Proof.
  intros Hb Hp. unfold matches_batch, own_pid, batch_pid, batch_owner. split.
  - intros (-> & Ho & -> & ->). destruct (shared b); [done|]. destruct Ho as [?| ->]; done.
  - intros [= Ht Ho Hk]. destruct (pl_shared p), (shared b); try congruence; split_and!; auto.
Qed.

(** Replacing or deleting the one element of an identity. *)
Lemma elem_of_replaced {X Y} (f : X → Y) l i x y z :
  NoDup (f <$> l) → l !! i = Some x → f y = f x → z ∈ <[i := y]> l ↔ (z ∈ l ∧ f z ≠ f x) ∨ z = y.
Proof.
  intros Hn Hx Hf. assert (i < length l)%nat as Hi by (by eapply lookup_lt_Some). rewrite !list_elem_of_lookup. split.
  - intros [j Hj]. destruct (decide (i = j)) as [<-|Hne]; [rewrite list_lookup_insert_eq in Hj by done; right; congruence|].
    rewrite list_lookup_insert_ne in Hj by done. left. split; [by exists j|]. intros E. apply Hne. eapply NoDup_lookup; [exact Hn| |]; rewrite list_lookup_fmap.
    + by rewrite Hx.
    + rewrite Hj. cbn. by rewrite E.
  - intros [[[j Hj] Hne]| ->]; [|exists i; by rewrite list_lookup_insert_eq]. exists j. rewrite list_lookup_insert_ne; [done|]. congruence.
Qed.
Lemma elem_of_deleted {X Y} (f : X → Y) l i x z : NoDup (f <$> l) → l !! i = Some x → z ∈ delete i l ↔ z ∈ l ∧ f z ≠ f x.
Proof.
  intros Hn Hx. pose proof (delete_Permutation l i x Hx) as Hp. rewrite Hp, fmap_cons in Hn. apply NoDup_cons in Hn as [Hni Hn].
  assert (z ∈ l ↔ z = x ∨ z ∈ delete i l) as -> by (rewrite <-elem_of_cons; by rewrite <-Hp). split.
  - intros Hz. split; [by right|]. intros E. apply Hni. rewrite <-E. by apply list_elem_of_fmap_2.
  - intros [[->|Hz] Hne]; done.
Qed.

Lemma NoDup_fmap_delete {X Y} (f : X → Y) l i x : NoDup (f <$> l) → l !! i = Some x → NoDup (f <$> delete i l).
Proof. intros Hn Hx. rewrite (delete_Permutation l i x Hx), fmap_cons in Hn. by apply NoDup_cons in Hn as [_ Hn]. Qed.

Lemma fmap_insert_same {X Y} (f : X → Y) (l : list X) (i : nat) x y : l !! i = Some x → f y = f x → f <$> <[i := y]> l = f <$> l.
Proof. intros Hx Hf. rewrite list_fmap_insert, Hf. apply list_insert_id. by rewrite list_lookup_fmap, Hx. Qed.

(** Finding the placement of a batch's identity. *)
Lemma find_placement ps b key :
  instance_id b ≠ ""%string → (∀ p, p ∈ ps → pl_instance_id p ≠ ""%string) →
  match _find_placement ps b with
  | Some i => ∃ p, ps !! i = Some p ∧ own_pid p key = batch_pid b key
  | None => ∀ p, p ∈ ps → own_pid p key ≠ batch_pid b key
  end.
Proof.
  intros Hb Hps. unfold _find_placement. destruct (list_find (matches_batch b) ps) as [[i p]|] eqn:E; cbn [fmap option_fmap option_map fst].
  - apply list_find_Some in E as (Hi & Hm & _). exists p. split; [done|]. apply matches_pid; [done|apply Hps; by eapply list_elem_of_lookup_2|done].
  - intros p Hp Ho. apply list_find_None in E. rewrite Forall_forall in E. apply (E p Hp). apply (matches_pid b p key); auto.
Qed.

(** ** Traces of the blend state

    What calls do to the bindings and the blend index; contents, with their
    offsets, come from [C]. *)
Inductive blend_step (C : list Z → Z → Prop) d d' : Prop :=
  | bs_frame : token_bindings d' = token_bindings d → blend_index d' = blend_index d → blend_step C d d'
  | bs_create key e : C (ev_token_ids e) (ev_token_offset e) → key ∈ keys_at (token_bindings d) (chunk_hash key) → token_bindings d' = created key e d →
      run_ops (create_ops key e d) (blend_index d) = Ret (blend_index d') → blend_step C d d'
  | bs_add key : token_bindings d' = dset (chunk_hash key) (joined key d) (token_bindings d) →
      run_ops (add_ops key d) (blend_index d) = Ret (blend_index d') → blend_step C d d'
  | bs_remove key : token_bindings d' = removed_bindings key d →
      run_ops (remove_ops key d) (blend_index d) = Ret (blend_index d') → blend_step C d d'.

Definition blend_trace (C : list Z → Z → Prop) : relation KeyDirectory := rtc (λ d d', blend_step C d d' ∧ blend_lookup_enabled d' = blend_lookup_enabled d).

Lemma trace_frame C d d' :
  token_bindings d' = token_bindings d → blend_index d' = blend_index d → blend_lookup_enabled d' = blend_lookup_enabled d → blend_trace C d d'.
Proof. intros H1 H2 H3. apply rtc_once. split; [by apply bs_frame|done]. Qed.

Lemma effect_trace C h tb ops d d0 d' :
  binding_effect h tb ops d → h d = (Ret tt, d') → (token_bindings d' = tb → run_ops ops (blend_index d) = Ret (blend_index d') → blend_step C d d') →
  d0 = d → blend_trace C d0 d'.
Proof.
  intros (x & Ex & E) E' Hs ->. rewrite E in E'. injection E' as <-. apply rtc_once. split; [apply Hs; [done|exact Ex]|done].
Qed.

(** ** Stores *)

Lemma adjust_run p dc db d ks ks' :
  tracks ks (placement_stats d) → pl_tier p ≠ TierALL →
  (∀ t, weigh (in_tier t) ks' = weigh (in_tier t) ks + (if decide (pl_tier p = t) then dc else 0)) →
  (∀ t, weigh (bytes_in t) ks' = weigh (bytes_in t) ks + (if decide (pl_tier p = t) then db else 0)) →
  ∃ st, _adjust_placement_stats p dc db d = (Ret tt, set_placement_stats st d) ∧ tracks ks' st.
Proof.
  intros Ht Hp Hc Hb. unfold _adjust_placement_stats. rewrite Ht, decide_False by done. eexists. split; [done|]. intros t.
  rewrite dget_dset, Hc, Hb, Ht. destruct (decide (pl_tier p = t)) as [<-|Hne]; [by rewrite decide_False|]. by rewrite !Z.add_0_r.
Qed.

(** What a store makes of the placements of a key. *)
Definition stored b e ps : list Placement :=
  match _find_placement ps b with Some i => <[i := placement_of b e]> ps | None => ps ++ [placement_of b e] end.

Lemma own_placement b e key : own_pid (placement_of b e) key = batch_pid b key.
Proof. done. Qed.

(** Dropping a key that has no placement left. *)
Lemma drop_record_run C key d :
  bindings_ok (dkeys (directory d)) (token_bindings d) →
  ∃ d', drop_record key d = (Ret tt, d') ∧ directory d' = ddel key (directory d) ∧ placement_stats d' = placement_stats d ∧
    l1_keys_by_instance d' = l1_keys_by_instance d ∧ bindings_ok (dkeys (directory d')) (token_bindings d') ∧ blend_trace C d d'.
Proof.
  intros Hb. set (d1 := set_directory (ddel key (directory d)) d). destruct (remove_effect key d1) as (x & Ex & Er).
  eexists. split; [unfold drop_record, h_bind, h_modify; fold d1; exact Er|]. cbn [set_blend_index set_bindings directory placement_stats token_bindings l1_keys_by_instance].
  split_and!; [done|done|done| |].
  - apply (removed_ok (dkeys (directory d))); [done|]. intros k. apply elem_dkeys_ddel.
  - etrans; [by apply (trace_frame C d d1)|]. apply rtc_once. split; [|done]. by apply (bs_remove C _ _ key).
Qed.

Lemma core_ok_ext ks st l1 tb m m' : (∀ i, m i = m' i) → core_ok ks st l1 tb m → core_ok ks st l1 tb m'.
Proof. intros E [H1 H2 H3 H4 H5 H6 H7]. split; try done. intros k p. by rewrite <-E. Qed.

Section batch.
Context (b : CacheEventBatch) (Hid : instance_id b ≠ ""%string) (Htier : tier b ≠ TierALL).

Lemma stored_spec e ps key :
  (∀ p, p ∈ ps → pl_instance_id p ≠ ""%string) → NoDup ((λ p, own_pid p key) <$> ps) →
  NoDup ((λ p, own_pid p key) <$> stored b e ps) ∧
  ∀ p, p ∈ stored b e ps ↔ (p ∈ ps ∧ own_pid p key ≠ batch_pid b key) ∨ p = placement_of b e.
Proof.
  intros Hps Hn. unfold stored. pose proof (find_placement ps b key Hid Hps) as Hf. destruct (_find_placement ps b) as [i|].
  - destruct Hf as (old & Hi & Ho). split.
    + rewrite (fmap_insert_same _ _ _ old); [done|done|]. by rewrite own_placement, Ho.
    + intros p. rewrite (elem_of_replaced (λ p, own_pid p key) ps i old) by (done || by rewrite own_placement, Ho). by rewrite Ho.
  - split.
    + rewrite fmap_app. apply NoDup_app. split_and!; [done| |apply NoDup_singleton]. intros i (p & -> & Hp)%list_elem_of_fmap. cbn. rewrite list_elem_of_singleton.
      by apply Hf.
    + intros p. rewrite elem_of_app, list_elem_of_singleton. split; [intros [Hp| ->]; [left|by right]; split; [done|by apply Hf]|]. intros [[? _]|?]; auto.
Qed.

Lemma find_lookup ps i : _find_placement ps b = Some i → ∃ p, ps !! i = Some p ∧ pl_tier p = tier b.
Proof.
  unfold _find_placement. intros ([j p] & (Hi & (_ & _ & Ht & _) & _)%list_find_Some & ->)%fmap_Some. by exists p.
Qed.

(** [store_placement] on a key that has a record. *)
Lemma store_placement_run key e d :
  is_Some (dget key (directory d)) → tracks (directory d) (placement_stats d) →
  let r := record_of key d in
  let ks := dset key (with_placements (stored b e (rec_placements r)) r) (directory d) in
  ∃ st, store_placement key b e d = (Ret tt, set_placement_stats st (set_directory ks d)) ∧ tracks ks st.
Proof.
  intros [r0 Er] Ht r ks. assert (held (directory d) key = rec_placements r) as Eh by (unfold held, r, record_of; by rewrite Er).
  unfold store_placement, h_bind at 1, h_get. fold r. unfold ks, stored. destruct (_find_placement (rec_placements r) b) as [i|] eqn:Ef.
  - destruct (find_lookup _ _ Ef) as (old & Hi & Hto). rewrite Hi. unfold h_bind, h_modify, set_record.
    destruct (adjust_run (placement_of b e) 0 (pl_size_bytes (placement_of b e) - pl_size_bytes old)
      (set_directory (dset key (with_placements (<[i := placement_of b e]> (rec_placements r)) r) (directory d)) d) (directory d)
      (dset key (with_placements (<[i := placement_of b e]> (rec_placements r)) r) (directory d))) as (st & E & Hst); [done|done| | |by exists st];
      intros t; rewrite weigh_dset, Eh; cbn [with_placements rec_placements]; rewrite (zsum_insert _ _ _ old) by done; unfold in_tier, bytes_in;
      rewrite Hto; cbn [placement_of pl_tier pl_size_bytes]; destruct (decide (tier b = t)); lia.
  - unfold h_bind, h_modify, set_record.
    destruct (adjust_run (placement_of b e) 1 (pl_size_bytes (placement_of b e))
      (set_directory (dset key (with_placements (rec_placements r ++ [placement_of b e]) r) (directory d)) d) (directory d)
      (dset key (with_placements (rec_placements r ++ [placement_of b e]) r) (directory d))) as (st & E & Hst); [done|done| | |by exists st];
      intros t; rewrite weigh_dset, Eh; cbn [with_placements rec_placements]; rewrite zsum_app, zsum_cons, zsum_nil; unfold in_tier, bytes_in;
      cbn [placement_of pl_tier pl_size_bytes]; destruct (decide (tier b = t)); lia.
Qed.

(** The record of a key before its first placement. *)
Lemma ensure_record C key d m :
  dir_ok d m →
  ∃ d', (match dget key (directory d) with
         | Some _ => h_ret tt
         | None => let^ _ := h_modify (set_record key (mkRecord [] f_zero 0)) in _add_token_binding key
         end) d = (Ret tt, d') ∧
    NoDup (dkeys (directory d')) ∧ (∀ k, k ∈ dkeys (directory d') ↔ k ∈ dkeys (directory d) ∨ k = key) ∧
    (∀ k, held (directory d') k = held (directory d) k) ∧ tracks (directory d') (placement_stats d') ∧
    bindings_ok (dkeys (directory d')) (token_bindings d') ∧ l1_keys_by_instance d' = l1_keys_by_instance d ∧ blend_trace C d d'.
Proof.
  intros [[H1 H2 H3 H4 H5 H6 H7] _]. destruct (dget key (directory d)) as [r|] eqn:E.
  - exists d. assert (key ∈ dkeys (directory d)) by (apply dget_is_Some; by eexists). split_and!; try done. intros k. split; [by left|]. by intros [?| ->].
  - set (d1 := set_record key (mkRecord [] f_zero 0) d). destruct (add_effect key d1) as (x & Ex & Er).
    eexists. split; [unfold h_bind, h_modify; fold d1; exact Er|]. cbn [set_blend_index set_bindings directory placement_stats token_bindings l1_keys_by_instance].
    assert (∀ k, k ∈ dkeys (directory d1) ↔ k ∈ dkeys (directory d) ∨ k = key) as Hk by (intros k; apply elem_dkeys_dset).
    split_and!; [by apply NoDup_dset|done| | | |done|].
    + intros k. unfold d1, set_record. cbn [set_directory directory]. rewrite held_dset. case_decide as Hd; [|done]. subst k. unfold held. by rewrite E.
    + intros t. unfold d1, set_record. cbn [set_directory directory placement_stats]. rewrite H5, !weigh_dset. unfold held. rewrite E. cbn. by rewrite !Z.sub_0_r, !Z.add_0_r.
    + by apply (joined_ok (dkeys (directory d))).
    + etrans; [apply (trace_frame C d d1); done|]. apply rtc_once. split; [|done]. by apply (bs_add C _ _ key).
Qed.

(** The part of a store after the placement. *)
Definition store_tail key e : handler KeyDirectory unit :=
  let^ _ := match ev_token_ids e with [] => h_ret tt | _ => _create_token_binding key e end in
  let^ _ := h_modify (touch_record key (ts b) 0) in
  if bool_decide (tier b = TierL1)
  then h_modify (λ d, set_l1_keys (dset (instance_id b) (oset_set key (default [] (dget (instance_id b) (l1_keys_by_instance d)))) (l1_keys_by_instance d)) d)
  else h_ret tt.

Lemma store_tail_run (C : list Z → Z → Prop) key e d :
  C (ev_token_ids e) (ev_token_offset e) → is_Some (dget key (directory d)) → NoDup (dkeys (directory d)) → tracks (directory d) (placement_stats d) → bindings_ok (dkeys (directory d)) (token_bindings d) →
  ∃ d', store_tail key e d = (Ret tt, d') ∧ dkeys (directory d') = dkeys (directory d) ∧ (∀ k, held (directory d') k = held (directory d) k) ∧
    tracks (directory d') (placement_stats d') ∧ bindings_ok (dkeys (directory d')) (token_bindings d') ∧
    (∀ id, default [] (dget id (l1_keys_by_instance d')) =
       if bool_decide (tier b = TierL1 ∧ instance_id b = id) then oset_set key (default [] (dget id (l1_keys_by_instance d))) else default [] (dget id (l1_keys_by_instance d))) ∧
    (NoDup (dkeys (l1_keys_by_instance d)) → NoDup (dkeys (l1_keys_by_instance d'))) ∧ blend_trace C d d'.
Proof.
  intros HC Hk Hn Ht Hb. assert (key ∈ dkeys (directory d)) as Hkey by (by apply dget_is_Some).
  assert (∃ tb x, (match ev_token_ids e with [] => h_ret tt | _ => _create_token_binding key e end) d = (Ret tt, set_blend_index x (set_bindings tb d)) ∧
    bindings_ok (dkeys (directory d)) tb ∧ blend_trace C d (set_blend_index x (set_bindings tb d))) as (tb & x & E1 & Hb1 & Htr).
  { destruct (ev_token_ids e) eqn:Ee.
    - exists (token_bindings d), (blend_index d). rewrite set_index_id. split_and!; [done|done|apply rtc_refl].
    - destruct (create_effect key e d (bindings_present _ _ _ Hb Hkey)) as (x & Ex & Er). exists (created key e d), x. split_and!; [exact Er|by apply created_ok|].
      apply rtc_once. split; [|done]. apply (bs_create C _ _ key e); [by rewrite Ee|by apply (bo_keys _ _ Hb)|done|exact Ex]. }
  unfold store_tail, h_bind at 1. rewrite E1. set (d1 := set_blend_index x (set_bindings tb d)) in *.
  unfold h_bind at 1, h_modify at 1. set (d2 := touch_record key (ts b) 0 d1).
  assert (directory d2 = dset key (mkRecord (rec_placements (record_of key d)) (f_max (last_access (record_of key d)) (ts b)) (access_count (record_of key d) + 0)) (directory d)) as Ed by done.
  destruct Hk as [r Er]. assert (held (directory d) key = rec_placements (record_of key d)) as Eh by (unfold held, record_of; by rewrite Er).
  assert (dkeys (directory d2) = dkeys (directory d)) as Edk by (rewrite Ed; by apply (dkeys_dset_in _ r)).
  assert (∀ k, held (directory d2) k = held (directory d) k) as Ehk.
  { intros k. rewrite Ed, held_dset. case_decide as Hd; [|done]. subst k. by rewrite Eh. }
  assert (tracks (directory d2) (placement_stats d2)) as Ht2.
  { intros t. rewrite Ed, !weigh_dset, Eh. cbn [rec_placements]. rewrite !Z.sub_add. apply Ht. }
  exists (if bool_decide (tier b = TierL1) then
    set_l1_keys (dset (instance_id b) (oset_set key (default [] (dget (instance_id b) (l1_keys_by_instance d2)))) (l1_keys_by_instance d2)) d2 else d2).
  assert (blend_trace C d d2) as Htr2 by (etrans; [exact Htr|by apply trace_frame]).
  case_bool_decide as Htl; cbn [set_l1_keys directory placement_stats token_bindings l1_keys_by_instance]; rewrite ?Edk.
  - split_and!; [done|done|done|done|exact Hb1| |by apply NoDup_dset|etrans; [exact Htr2|by apply trace_frame]].
    intros id. rewrite dget_dset. destruct (decide (instance_id b = id)) as [<-|Hne]; [by rewrite bool_decide_true|]. rewrite bool_decide_false by tauto. done.
  - split_and!; [done|done|done|done|exact Hb1| |done|exact Htr2]. intros id. by rewrite bool_decide_false by tauto.
Qed.

(** The placements of one key follow an update of the specification. *)
Lemma held_updated ks ks' m key new ps' :
  (∀ k, held ks' k = if decide (key = k) then ps' else held ks k) → (∀ p, new = Some p → own_pid p key = batch_pid b key) →
  (∀ p, p ∈ ps' ↔ (p ∈ held ks key ∧ own_pid p key ≠ batch_pid b key) ∨ new = Some p) →
  (∀ k p, p ∈ held ks k ↔ m (own_pid p k) = Some p) → ∀ k p, p ∈ held ks' k ↔ update (batch_pid b key) new m (own_pid p k) = Some p.
Proof.
  intros Hh Hnew Hps Hm k p. rewrite Hh. unfold update. destruct (decide (key = k)) as [<-|Hne].
  - rewrite Hps. destruct (decide (batch_pid b key = own_pid p key)) as [Ho|Ho]; [split; [intros [[_ []]|?]; [by symmetry|done]|by right]|].
    rewrite Hm. split; [intros [[? _]|Hp%Hnew]; [done|congruence]|]. intros ?. left. split; [done|]. congruence.
  - rewrite decide_False; [apply Hm|]. unfold batch_pid, own_pid. congruence.
Qed.

Lemma apply_store_ok (C : list Z → Z → Prop) key e d m :
  dir_ok d m → C (ev_token_ids e) (ev_token_offset e) → 0 <= ev_size_bytes e →
  ∃ d', apply_store key b e d = (Ret tt, d') ∧ dir_ok d' (update (batch_pid b key) (Some (placement_of b e)) m) ∧ blend_trace C d d'.
Proof.
  intros Hd HC Hs. pose proof Hd as [[H1 H2 H3 H4 H5 H6 H7] Hw].
  destruct (ensure_record C key d m Hd) as (d1 & E1 & Hn1 & Hk1 & Hh1 & Ht1 & Hb1 & El1 & Htr1).
  assert (is_Some (dget key (directory d1))) as Hin1 by (apply dget_is_Some, Hk1; by right).
  destruct (store_placement_run key e d1 Hin1 Ht1) as (st & E2 & Ht2). cbv zeta in E2, Ht2.
  set (r := record_of key d1) in *. assert (rec_placements r = held (directory d) key) as Er.
  { rewrite <-Hh1. unfold held, r, record_of. by destruct Hin1 as [? ->]. }
  set (ks2 := dset key (with_placements (stored b e (rec_placements r)) r) (directory d1)) in *. set (d2 := set_placement_stats st (set_directory ks2 d1)) in *.
  assert (dkeys ks2 = dkeys (directory d1)) as Ek2 by (destruct Hin1 as [r1 ?]; by apply (dkeys_dset_in _ r1)). assert (directory d2 = ks2) as Ed2 by done.
  destruct (store_tail_run C key e d2) as (d3 & E3 & Ek3 & Hh3 & Ht3 & Hb3 & Hl3 & Hln3 & Htr3); [done| | |done| |].
  { apply dget_is_Some. rewrite Ed2, Ek2. apply Hk1. by right. } { by rewrite Ed2, Ek2. } { by rewrite Ed2, Ek2. }
  exists d3. split.
  { unfold apply_store, h_bind at 1, h_get. unfold h_bind at 1. rewrite E1. unfold h_bind at 1. rewrite E2. exact E3. }
  assert (∀ k, held (directory d3) k = if decide (key = k) then stored b e (held (directory d) key) else held (directory d) k) as Hh.
  { intros k. rewrite Hh3. unfold d2. cbn [set_placement_stats set_directory directory]. unfold ks2. rewrite held_dset. cbn [with_placements rec_placements]. by rewrite Er, Hh1. }
  assert (∀ k, k ∈ dkeys (directory d3) ↔ k ∈ dkeys (directory d) ∨ k = key) as Hk by (intros k; by rewrite Ek3, Ed2, Ek2, Hk1).
  assert (∀ p, p ∈ held (directory d) key → pl_instance_id p ≠ ""%string) as Hids by (intros p Hp%H4; by apply Hw in Hp as (_ & _ & ? & _)).
  destruct (stored_spec e (held (directory d) key) key Hids (H3 key)) as [Hsn Hse].
  split; [split|].
  - split; [by rewrite Ek3, Ed2, Ek2| | | |done| |done].
    + intros k Hkin. rewrite Hh. destruct (decide (key = k)) as [Hd2|Hd2]; [|apply Hk in Hkin as [?| ->]; [by apply H2|done]]. intros En.
      assert (placement_of b e ∈ stored b e (held (directory d) key)) as Hi by (apply Hse; by right). rewrite En in Hi. by apply elem_of_nil in Hi.
    + intros k. rewrite Hh. destruct (decide (key = k)) as [<-|Hd2]; [exact Hsn|apply H3].
    + apply (held_updated (directory d) _ m key _ _ Hh); [by intros p [= <-]| |done]. intros p. rewrite Hse. split; intros [?|?]; auto; right; congruence.
    + split; [apply Hln3; cbn [d2 set_placement_stats set_directory l1_keys_by_instance]; rewrite El1; apply H6|]. intros k p Hp Htp. rewrite Hl3. cbn [d2 set_placement_stats set_directory l1_keys_by_instance]. rewrite El1. rewrite Hh in Hp.
      assert (p ∈ held (directory d) k ∨ (k = key ∧ p = placement_of b e)) as [Hold|[-> ->]].
      { destruct (decide (key = k)) as [<-|]; [|by left]. apply Hse in Hp as [[? _]| ->]; auto. }
      * pose proof (proj2 H6 k p Hold Htp). case_bool_decide; [|done]. apply elem_of_oset_set. by left.
      * cbn [placement_of pl_tier] in Htp. rewrite bool_decide_true by done. apply elem_of_oset_set. by right.
  - intros i p. unfold update. destruct (decide (batch_pid b key = i)) as [<-|Hi]; [|apply Hw]. intros [= <-]. done.
  - etrans; [exact Htr1|]. etrans; [|exact Htr3]. by apply trace_frame.
Qed.

(** ** Deletions *)

Definition without ps : list Placement := match _find_placement ps b with Some i => delete i ps | None => ps end.

Lemma without_spec ps key :
  (∀ p, p ∈ ps → pl_instance_id p ≠ ""%string) → NoDup ((λ p, own_pid p key) <$> ps) →
  NoDup ((λ p, own_pid p key) <$> without ps) ∧ ∀ p, p ∈ without ps ↔ p ∈ ps ∧ own_pid p key ≠ batch_pid b key.
Proof.
  intros Hps Hn. unfold without. pose proof (find_placement ps b key Hid Hps) as Hf. destruct (_find_placement ps b) as [i|].
  - destruct Hf as (old & Hi & Ho). split; [by eapply NoDup_fmap_delete|]. intros p. rewrite (elem_of_deleted (λ p, own_pid p key) ps i old) by done. by rewrite Ho.
  - split; [done|]. intros p. split; [|by intros [? _]]. intros Hp. split; [done|by apply Hf].
Qed.

(** Taking the placement of the batch out of a record. *)
Lemma take_out_run key r d :
  dget key (directory d) = Some r → tracks (directory d) (placement_stats d) →
  ∃ ks st, pop_placement key r b d = (Ret (without (rec_placements r)), set_placement_stats st (set_directory ks d)) ∧
    tracks ks st ∧ dkeys ks = dkeys (directory d) ∧ ∀ k, held ks k = if decide (key = k) then without (rec_placements r) else held (directory d) k.
Proof.
  intros Er Ht. assert (held (directory d) key = rec_placements r) as Eh by (unfold held; by rewrite Er).
  unfold without, pop_placement. destruct (_find_placement (rec_placements r) b) as [i|] eqn:Ef.
  - destruct (find_lookup _ _ Ef) as (old & Hi & Hto). rewrite Hi. cbv zeta. unfold h_bind at 1, h_modify.
    set (ks := dset key (with_placements (delete i (rec_placements r)) r) (directory d)).
    destruct (adjust_run old (-1) (- pl_size_bytes old) (set_record key (with_placements (delete i (rec_placements r)) r) d) (directory d) ks) as (st & E & Hst).
    { done. } { by rewrite Hto. }
    1-2: intros t; unfold ks; rewrite weigh_dset, Eh; cbn [with_placements rec_placements]; rewrite (zsum_delete _ _ i old) by done;
      unfold in_tier, bytes_in; destruct (decide (pl_tier old = t)); lia.
    exists ks, st. split_and!; [unfold h_bind; by rewrite E|done|by apply (dkeys_dset_in _ r)|]. intros k. unfold ks. by rewrite held_dset.
  - exists (directory d), (placement_stats d). split_and!; [by destruct d|done|done|]. intros k. destruct (decide (key = k)) as [<-|]; [by rewrite Eh|done].
Qed.

Lemma apply_delete_ok C key d m :
  dir_ok d m → ∃ d', apply_delete key b d = (Ret tt, d') ∧ dir_ok d' (update (batch_pid b key) None m) ∧ blend_trace C d d'.
Proof.
  intros [Hcore Hw]. pose proof Hcore as [H1 H2 H3 H4 H5 H6 H7].
  assert (well_placed (update (batch_pid b key) None m)) as Hw'.
  { intros i p. unfold update. destruct (decide (batch_pid b key = i)); [done|apply Hw]. }
  unfold apply_delete, h_bind at 1, h_get. destruct (dget key (directory d)) as [r|] eqn:Er.
  2: { exists d. split_and!; [done| |apply rtc_refl]. split; [|done]. eapply core_ok_ext; [|exact Hcore]. intros i. unfold update.
       destruct (decide (batch_pid b key = i)) as [<-|]; [|done]. destruct (m (batch_pid b key)) as [p|] eqn:Em; [|done]. exfalso.
       destruct (Hw _ _ Em) as (Ho & _). unfold pid_key in Ho. cbn in Ho. rewrite Ho in Em. apply H4 in Em. unfold held in Em. rewrite Er in Em. by apply elem_of_nil in Em. }
  assert (held (directory d) key = rec_placements r) as Eh by (unfold held; by rewrite Er).
  destruct (take_out_run key r d Er H5) as (ks & st & E1 & Ht & Ek & Hh). unfold h_bind at 1. rewrite E1. clear E1.
  set (kept := without (rec_placements r)) in *. set (d1 := set_placement_stats st (set_directory ks d)).
  assert (∀ p, p ∈ rec_placements r → pl_instance_id p ≠ ""%string) as Hids by (intros p Hp; rewrite <-Eh in Hp; apply H4, Hw in Hp as (_ & _ & ? & _); done).
  destruct (without_spec (rec_placements r) key Hids) as [Hkn Hke]; [rewrite <-Eh; apply H3|]. fold kept in Hkn, Hke.
  assert (∃ d2, (match kept with [] => drop_record key | _ => h_ret tt end) d1 = (Ret tt, d2) ∧ NoDup (dkeys (directory d2)) ∧
    (∀ k, k ∈ dkeys (directory d2) → held (directory d2) k ≠ []) ∧ (∀ k, held (directory d2) k = held ks k) ∧ tracks (directory d2) (placement_stats d2) ∧
    l1_keys_by_instance d2 = l1_keys_by_instance d ∧ bindings_ok (dkeys (directory d2)) (token_bindings d2) ∧ blend_trace C d d2) as
    (d2 & E2 & Hn2 & Hne2 & Hh2 & Ht2 & El2 & Hb2 & Htr2).
  { assert (bindings_ok (dkeys ks) (token_bindings d1)) as Hb1 by (by rewrite Ek).
    assert (blend_trace C d d1) as Htr1 by (by apply trace_frame).
    assert (∀ k, k ∈ dkeys ks → (k = key → kept ≠ []) → held ks k ≠ []) as Hne.
    { intros k Hk Hkk. rewrite Hh. destruct (decide (key = k)) as [<-|]; [by apply Hkk|]. apply H2. by rewrite <-Ek. }
    destruct kept as [|p0 kept'] eqn:Ekept.
    - destruct (drop_record_run C key d1 Hb1) as (d2 & E2 & Ed2 & Es2 & El2 & Hb2 & Htr2). exists d2. split; [exact E2|]. rewrite !Ed2, Es2.
      cbn [d1 set_placement_stats set_directory directory placement_stats]. split_and!; [apply NoDup_ddel; by rewrite Ek| | | |done|by rewrite Ed2 in Hb2|by etrans].
      + intros k [Hk Hkk]%elem_dkeys_ddel. rewrite held_ddel, decide_False by done. by apply Hne.
      + intros k. rewrite held_ddel. destruct (decide (key = k)) as [<-|]; [|done]. by rewrite Hh, decide_True.
      + intros t. rewrite !weigh_ddel by (by rewrite Ek). assert (held ks key = []) as -> by (by rewrite Hh, decide_True). rewrite !zsum_nil, !Z.sub_0_r. apply Ht.
    - exists d1. split_and!; try done; [by rewrite <-Ek in H1|]. intros k Hk. by apply Hne. }
  set (d3 := if bool_decide (tier b = TierL1) && negb (existsb (reported_l1 (instance_id b)) kept) then discard_l1_key (instance_id b) key d2 else d2).
  exists d3. split_and!.
  - unfold h_bind. rewrite E2. unfold d3. by destruct (_ && _).
  - split; [|done]. assert (core_ok (directory d2) (placement_stats d2) (l1_keys_by_instance d3) (token_bindings d2) (update (batch_pid b key) None m)) as Hc3.
    { assert (∀ k, held (directory d2) k = if decide (key = k) then kept else held (directory d) k) as Hhd by (intros k; by rewrite Hh2).
      split; [done|done| | |done| |done].
      - intros k. rewrite Hhd. destruct (decide (key = k)) as [<-|]; [exact Hkn|apply H3].
      - apply (held_updated (directory d) _ m key None kept Hhd); [done| |done]. intros p. rewrite Hke, Eh. split; [by left|]. by intros [?|?].
      - split; [unfold d3; destruct (_ && _); cbn [discard_l1_key set_l1_keys l1_keys_by_instance]; rewrite El2; [apply NoDup_dset|]; apply H6|].
        intros k p Hp Htp. rewrite Hhd in Hp.
        assert (k ∈ default [] (dget (pl_instance_id p) (l1_keys_by_instance d2))) as Hin.
        { rewrite El2. apply (proj2 H6); [|done]. destruct (decide (key = k)) as [<-|]; [|done]. rewrite Eh. by apply Hke. }
        unfold d3. destruct (bool_decide (tier b = TierL1) && _) eqn:Ec; [|done]. cbn [discard_l1_key set_l1_keys l1_keys_by_instance]. rewrite dget_dset.
        destruct (decide (instance_id b = pl_instance_id p)) as [Ei|]; [|done]. rewrite Ei. cbn [default]. unfold id. apply elem_of_oset_del. split; [exact Hin|]. intros ->.
        rewrite decide_True in Hp by done. apply andb_true_iff in Ec as [_ Ec]. apply negb_true_iff in Ec. apply not_true_iff_false in Ec. apply Ec, existsb_exists.
        exists p. split; [by apply list_elem_of_In|]. unfold reported_l1. rewrite Htp, <-Ei. by rewrite !bool_decide_true. }
    unfold d3 in *. by destruct (_ && _).
  - etrans; [exact Htr2|]. apply trace_frame; unfold d3; by destruct (_ && _).
Qed.
End batch.

(** ** Fences *)

Definition stays (id : string) (p : Placement) : Prop := reported_l1 id p = false.
#[local] Instance stays_dec id p : Decision (stays id p) := bool_eq_dec _ _.

(** The counters of the tiers, as functions. *)
Definition counters (wc wb : Tier → Z) (st : dict Tier TierPlacementStats) : Prop :=
  ∀ t, dget t st = if decide (t = TierALL) then None else Some (mkTierStats (wc t) (wb t)).

Lemma drop_placements_run id ps kept n wc wb d :
  counters wc wb (placement_stats d) → (∀ p, p ∈ ps → pl_tier p ≠ TierALL) →
  ∃ n' st, h_fold (λ acc p,
      if reported_l1 id p
      then let^ _ := _adjust_placement_stats p (-1) (- pl_size_bytes p) in h_ret (acc.1, acc.2 + 1)
      else h_ret (acc.1 ++ [p], acc.2)) (kept, n) ps d = (Ret (kept ++ filter (stays id) ps, n'), set_placement_stats st d) ∧
    counters (λ t, wc t - (zsum (in_tier t) ps - zsum (in_tier t) (filter (stays id) ps)))
             (λ t, wb t - (zsum (bytes_in t) ps - zsum (bytes_in t) (filter (stays id) ps))) st.
Proof.
  revert kept n wc wb d. induction ps as [|p ps IH]; intros kept n wc wb d Hc Hps.
  - exists n, (placement_stats d). rewrite app_nil_r. split; [by destruct d|]. intros t. rewrite Hc, !filter_nil, !zsum_nil, !Z.sub_0_r. done.
  - cbn [h_fold fst snd]. rewrite filter_cons. destruct (decide (stays id p)) as [Hs|Hs]; [unfold stays in Hs|apply not_false_is_true in Hs]; rewrite Hs.
    2: { unfold h_bind, _adjust_placement_stats. rewrite Hc, decide_False by (apply Hps; left). cbn [h_ret].
      destruct (IH kept (n + 1) (λ t, wc t + (if decide (pl_tier p = t) then -1 else 0)) (λ t, wb t + (if decide (pl_tier p = t) then - pl_size_bytes p else 0))
        (set_placement_stats (dset (pl_tier p) (mkTierStats (wc (pl_tier p) + -1) (wb (pl_tier p) + - pl_size_bytes p)) (placement_stats d)) d)) as (n' & st & E & Hst).
      { intros t. cbn [set_placement_stats placement_stats]. rewrite dget_dset, Hc. destruct (decide (pl_tier p = t)) as [<-|]; [by rewrite decide_False by (apply Hps; left)|].
        by rewrite !Z.add_0_r. }
      { intros q Hq. apply Hps. by right. }
      exists n', st. split; [exact E|]. intros t. rewrite Hst. rewrite !zsum_cons. unfold in_tier at 3, bytes_in at 3. destruct (decide (t = TierALL)); [done|].
      do 2 f_equal; destruct (decide (pl_tier p = t)); lia. }
    unfold h_bind. cbn [h_ret]. destruct (IH (kept ++ [p]) n wc wb d Hc) as (n' & st & E & Hst); [intros q Hq; apply Hps; by right|].
    exists n', st. rewrite <-app_assoc in E. split; [exact E|]. intros t. rewrite Hst, !zsum_cons. destruct (decide (t = TierALL)); [done|]. do 2 f_equal; lia.
Qed.

(** What a fence keeps on the way. *)
Record fencing d : Prop := {
  fe_nodup : NoDup (dkeys (directory d));
  fe_nonempty : ∀ key, key ∈ dkeys (directory d) → held (directory d) key ≠ [];
  fe_tiers : ∀ key p, p ∈ held (directory d) key → pl_tier p ≠ TierALL;
  fe_stats : tracks (directory d) (placement_stats d);
  fe_bindings : bindings_ok (dkeys (directory d)) (token_bindings d)
}.

Lemma drop_l1_of_run C id n key d :
  fencing d →
  ∃ n' d', drop_l1_of id n key d = (Ret n', d') ∧ fencing d' ∧ l1_keys_by_instance d' = l1_keys_by_instance d ∧ blend_trace C d d' ∧
    ∀ k, held (directory d') k = if decide (key = k) then filter (stays id) (held (directory d) k) else held (directory d) k.
Proof.
  intros [H1 H2 H3 H4 H5]. unfold drop_l1_of, h_bind at 1, h_get. destruct (dget key (directory d)) as [r|] eqn:Er.
  2: { exists n, d. split_and!; [done|done|done|apply rtc_refl|]. intros k. destruct (decide (key = k)) as [<-|]; [|done]. unfold held. by rewrite Er. }
  assert (held (directory d) key = rec_placements r) as Eh by (unfold held; by rewrite Er).
  assert (∀ p, p ∈ rec_placements r → pl_tier p ≠ TierALL) as Htr by (intros p Hp; apply (H3 key); by rewrite Eh).
  destruct (drop_placements_run id (rec_placements r) [] n _ _ d H4 Htr) as (n' & st & E & Hst). unfold h_bind at 1. rewrite E. cbn [fst snd app]. clear E.
  set (kept := filter (stays id) (rec_placements r)) in *. set (d1 := set_placement_stats st d).
  assert (blend_trace C d d1) as Htr1 by (by apply trace_frame).
  assert (∀ ks, (∀ f, weigh f ks = weigh f (directory d) - zsum f (rec_placements r) + zsum f kept) → tracks ks st) as Htk.
  { intros ks Hf t. rewrite Hst, !Hf. destruct (decide _); [done|]. do 2 f_equal; lia. }
  assert (∀ p, p ∈ kept → pl_tier p ≠ TierALL) as Hkt by (intros p [_ Hp]%list_elem_of_filter; by apply Htr).
  destruct kept as [|p0 kept'] eqn:Ek.
  - destruct (drop_record_run C key d1 H5) as (d2 & E2 & Ed2 & Es2 & El2 & Hb2 & Htr2). exists n', d2. unfold h_bind. rewrite E2.
    split_and!; [done| |done|by etrans|].
    + split; [rewrite Ed2; by apply NoDup_ddel| | | |done]; rewrite Ed2.
      * intros k [Hk Hkk]%elem_dkeys_ddel. rewrite held_ddel, decide_False by done. by apply H2.
      * intros k p. rewrite held_ddel. destruct (decide (key = k)); [by intros ?%elem_of_nil|apply H3].
      * rewrite Es2. apply Htk. intros f. change (directory d1) with (directory d). rewrite weigh_ddel, Eh by done. rewrite zsum_nil. lia.
    + intros k. rewrite Ed2, held_ddel. destruct (decide (key = k)) as [<-|]; [|done]. by rewrite Eh.
  - exists n', (set_record key (with_placements (p0 :: kept') r) d1). rewrite <-Ek in *. split_and!; [done| |done|etrans; [exact Htr1|by apply trace_frame]|].
    + unfold set_record. split; cbn [set_directory directory placement_stats token_bindings d1 set_placement_stats].
      * by apply NoDup_dset.
      * intros k Hk. rewrite held_dset. destruct (decide (key = k)); [cbn; congruence|]. apply H2. apply elem_dkeys_dset in Hk as [?| ->]; done.
      * intros k p. rewrite held_dset. destruct (decide (key = k)); [cbn; apply Hkt|apply H3].
      * apply Htk. intros f. by rewrite weigh_dset, Eh.
      * by rewrite (dkeys_dset_in _ r).
    + intros k. unfold set_record. cbn [set_directory directory d1 set_placement_stats]. rewrite held_dset. destruct (decide (key = k)) as [<-|]; [|done]. by rewrite Eh.
Qed.

Lemma drop_keys_run C id l n d :
  fencing d →
  ∃ n' d', h_fold (drop_l1_of id) n l d = (Ret n', d') ∧ fencing d' ∧ l1_keys_by_instance d' = l1_keys_by_instance d ∧ blend_trace C d d' ∧
    ∀ k, held (directory d') k = if decide (k ∈ l) then filter (stays id) (held (directory d) k) else held (directory d) k.
Proof.
  revert n d. induction l as [|key l IH]; intros n d Hd.
  - exists n, d. split_and!; [done|done|done|apply rtc_refl|]. intros k. by rewrite decide_False by apply not_elem_of_nil.
  - destruct (drop_l1_of_run C id n key d Hd) as (n1 & d1 & E1 & Hd1 & El1 & Htr1 & Hh1). destruct (IH n1 d1 Hd1) as (n2 & d2 & E2 & Hd2 & El2 & Htr2 & Hh2).
    exists n2, d2. cbn [h_fold]. unfold h_bind. rewrite E1. split_and!; [exact E2|done|congruence|by etrans|]. intros k. rewrite Hh2, Hh1.
    destruct (decide (key = k)) as [<-|Hne].
    + rewrite (decide_True (P := key ∈ key :: l)) by left. destruct (decide _); [|done]. rewrite list_filter_filter_l; [done|]. auto.
    + destruct (decide (k ∈ l)) as [Hk|Hk]; [rewrite (decide_True (P := k ∈ key :: l)) by (by right); done|]. rewrite decide_False; [done|]. intros [->|?]%elem_of_cons; done.
Qed.

Lemma filter_everything {X} (P : X → Prop) `{∀ x, Decision (P x)} (l : list X) : (∀ x, x ∈ l → P x) → filter P l = l.
Proof. induction l as [|x l IH]; intros HP; [done|]. rewrite filter_cons, decide_True by (apply HP; left). f_equal. apply IH. intros y Hy. apply HP. by right. Qed.

Lemma fence_directory_ok C id d m : dir_ok d m → ∃ d', fence_directory id d = (Ret tt, d') ∧ dir_ok d' (spec_fence id m) ∧ blend_trace C d d'.
Proof.
  intros [[H1 H2 H3 H4 H5 H6 H7] Hw]. assert (fencing d) as Hf by (split; try done; intros k p Hp%H4; by apply Hw in Hp as (_ & ? & _)).
  assert (∃ n d1, _drop_l1_placements id d = (Ret n, d1) ∧ fencing d1 ∧ blend_trace C d d1 ∧ (∀ k, held (directory d1) k = filter (stays id) (held (directory d) k)) ∧
    NoDup (dkeys (l1_keys_by_instance d1)) ∧ ∀ o, o ≠ id → dget o (l1_keys_by_instance d1) = dget o (l1_keys_by_instance d)) as (n & d1 & E1 & Hf1 & Htr1 & Hh1 & Hn1 & Hl1).
  { assert (∀ k, k ∉ default [] (dget id (l1_keys_by_instance d)) → held (directory d) k = filter (stays id) (held (directory d) k)) as Hother.
    { intros k Hk. symmetry. apply filter_everything. intros p Hp. unfold stays, reported_l1. apply not_true_iff_false. intros [Ht Hi]%andb_true_iff.
      apply bool_decide_eq_true in Ht, Hi. subst id. by apply Hk, (proj2 H6). }
    unfold _drop_l1_placements, h_bind at 1, h_get. destruct (dget id (l1_keys_by_instance d)) as [l|] eqn:El.
    - destruct (drop_keys_run C id l 0 d Hf) as (n & d1 & E1 & Hf1 & El1 & Htr1 & Hh1). exists n, (set_l1_keys (dset id [] (l1_keys_by_instance d1)) d1).
      unfold h_bind. rewrite E1. split_and!; [done|by destruct Hf1|etrans; [exact Htr1|by apply trace_frame]| |cbn [set_l1_keys l1_keys_by_instance]; rewrite El1; apply NoDup_dset, H6|].
      + intros k. cbn [set_l1_keys directory]. rewrite Hh1. destruct (decide (k ∈ l)); [done|by apply Hother].
      + intros o Ho. cbn [set_l1_keys l1_keys_by_instance]. rewrite dget_dset, decide_False by done. by rewrite El1.
    - exists 0, d. split_and!; [done|done|apply rtc_refl| |apply H6|done]. intros k. apply Hother. apply not_elem_of_nil. }
  exists (set_l1_keys (ddel id (l1_keys_by_instance d1)) d1). unfold fence_directory, h_bind. rewrite E1.
  split_and!; [done| |etrans; [exact Htr1|by apply trace_frame]]. destruct Hf1 as [F1 F2 F3 F4 F5]. split; [|by apply well_placed_fence].
  split; cbn [set_l1_keys directory placement_stats l1_keys_by_instance token_bindings]; try done.
  - intros k. rewrite Hh1. eapply sublist_NoDup; [apply H3|]. apply fmap_sublist, sublist_filter.
  - intros k p. rewrite Hh1, list_elem_of_filter, H4. unfold spec_fence, stays, reported_l1. destruct (m (own_pid p k)) as [p'|]; [|split; [by intros [_ ?]|done]].
    split; [intros [Hs [= ->]]|].
    + rewrite bool_decide_false; [done|]. intros [Ht Hi]. rewrite Ht, Hi, !bool_decide_true in Hs by done. done.
    + case_bool_decide as Hb; [done|]. intros [= ->]. split; [|done]. apply andb_false_iff. destruct (decide (pl_tier p = TierL1)); [right|left]; apply bool_decide_eq_false; tauto.
  - split; [by apply NoDup_ddel|]. intros k p. rewrite Hh1. intros [Hs Hp]%list_elem_of_filter Ht. assert (pl_instance_id p ≠ id) as Hne.
    { intros Hi. unfold stays, reported_l1 in Hs. rewrite Ht, Hi, !bool_decide_true in Hs by done. done. }
    rewrite dget_ddel, decide_False by done. rewrite Hl1 by done. by apply (proj2 H6).
Qed.

(** ** Deliveries *)

Lemma apply_access_ok C key b d m : dir_ok d m → ∃ d', apply_access key b d = (Ret tt, d') ∧ dir_ok d' m ∧ blend_trace C d d'.
Proof.
  intros [[H1 H2 H3 H4 H5 H6 H7] Hw]. unfold apply_access, h_bind, h_get. destruct (dget key (directory d)) as [r|] eqn:Er; [|exists d; by split_and!].
  exists (touch_record key (ts b) 1 d). split_and!; [done| |by apply trace_frame]. split; [|done].
  assert (∀ k, held (directory (touch_record key (ts b) 1 d)) k = held (directory d) k) as Eh.
  { intros k. unfold touch_record, set_record. cbn [set_directory directory]. rewrite held_dset. destruct (decide (key = k)) as [<-|]; [|done].
    unfold held, record_of. by rewrite Er. }
  assert (dkeys (directory (touch_record key (ts b) 1 d)) = dkeys (directory d)) as Ek by (by apply (dkeys_dset_in _ r)).
  split; rewrite ?Ek; try done.
  - intros k Hk. rewrite Eh. by apply H2.
  - intros k. rewrite Eh. apply H3.
  - intros k p. rewrite Eh. apply H4.
  - intros t. unfold touch_record, set_record. cbn [set_directory directory placement_stats]. rewrite !weigh_dset. unfold held, record_of. rewrite Er. cbn.
    rewrite !Z.sub_add. apply H5.
  - split; [apply H6|]. intros k p. rewrite Eh. apply (proj2 H6).
Qed.

(** Entries whose contents are in [C]. *)
Definition entries_in (C : list Z → Z → Prop) (es : list CacheEventEntry) : Prop := ∀ e, e ∈ es → 0 <= ev_size_bytes e ∧ C (ev_token_ids e) (ev_token_offset e).

Lemma apply_entries_ok C b es d m :
  batch_ok b → dir_ok d m → entries_in C es →
  ∃ x d', h_iter (_apply_entry b) es d = (x, d') ∧ dir_ok d' (foldl (spec_entry b) m (decoded es)) ∧ blend_trace C d d' ∧
    (length (decoded es) = length es → x = Ret tt).
Proof.
  intros Hb. destruct (batch_ok_fields b Hb) as [Hid Ht]. revert d m. induction es as [|e es IH]; intros d m Hd Hes; [exists (Ret tt), d; by split_and!|].
  cbn [h_iter decoded]. unfold h_bind at 1, _apply_entry at 1, h_bind at 1, h_lift. destruct (to_object_key (ev_key e)) as [key|x]; [|exists (Raise x), d; by split_and!].
  destruct (Hes e) as [Hs HC]; [left|]. cbn [foldl length].
  assert (∃ d1, (match event_type b with STORE => apply_store key b e | DELETE => apply_delete key b | ACCESS => apply_access key b | CONFIG => h_ret tt end) d = (Ret tt, d1) ∧
    dir_ok d1 (spec_entry b m (key, e)) ∧ blend_trace C d d1) as (d1 & E1 & Hd1 & Htr1).
  { unfold spec_entry. destruct (event_type b); [by apply apply_store_ok|by apply apply_delete_ok|by apply apply_access_ok|exists d; by split_and!]. }
  rewrite E1. destruct (IH d1 _ Hd1) as (x & d2 & E2 & Hd2 & Htr2 & Hret); [intros e' He'; apply Hes; by right|]. exists x, d2. split_and!; [exact E2|exact Hd2|by etrans|].
  intros [= Hl]. by apply Hret.
Qed.

Lemma consume_directory_ok C b d m :
  batch_ok b → dir_ok d m → entries_in C (entries b) →
  dir_ok (consume_directory b d).2 (foldl (spec_entry b) m (decoded (entries b))) ∧ blend_trace C d (consume_directory b d).2 ∧
  (length (decoded (entries b)) = length (entries b) → (consume_directory b d).1 = Ret tt).
Proof.
  intros Hb [Hc Hw] Hes. unfold consume_directory, h_bind, h_modify.
  set (d1 := set_l1_keys (dset (instance_id b) (default [] (dget (instance_id b) (l1_keys_by_instance d))) (l1_keys_by_instance d)) d).
  assert (dir_ok d1 m) as Hd1.
  { split; [|done]. destruct Hc as [H1 H2 H3 H4 H5 H6 H7]. split; try done. split; [by apply NoDup_dset, H6|]. intros k p Hp Ht. cbn [d1 set_l1_keys l1_keys_by_instance]. rewrite dget_dset.
    destruct (decide (instance_id b = pl_instance_id p)) as [->|]; by apply (proj2 H6). }
  destruct (apply_entries_ok C b (entries b) d1 m Hb Hd1 Hes) as (x & d2 & E2 & Hd2 & Htr & Hret). rewrite E2. split_and!; [done| |done].
  etrans; [|exact Htr]. by apply trace_frame.
Qed.

(** Deliveries whose contents are in [C]. *)
Definition delivery_in (C : list Z → Z → Prop) (x : delivery) : Prop :=
  match x with Delivered b => ∀ e, e ∈ entries b → C (ev_token_ids e) (ev_token_offset e) | Fenced _ => True end.

Lemma directory_run_ok C ds d m :
  Forall delivery_ok ds → Forall (delivery_in C) ds → dir_ok d m →
  dir_ok (foldl (view_step directory_consumer) d ds) (foldl spec_deliver m ds) ∧ blend_trace C d (foldl (view_step directory_consumer) d ds).
Proof.
  intros Hds. revert d m. induction Hds as [|x ds Hx _ IH]; intros d m HC Hd; [split; [done|apply rtc_refl]|]. apply Forall_cons in HC as [Hxc HC]. cbn [foldl].
  assert (dir_ok (view_step directory_consumer d x) (spec_deliver m x) ∧ blend_trace C d (view_step directory_consumer d x)) as [Hd1 Htr1].
  { destruct x as [b|id]; cbn [view_step spec_deliver directory_consumer consume_batch fence_views].
    - destruct Hx as [Hb Hs]. destruct (consume_directory_ok C b d m Hb Hd) as (? & ? & _); [|done]. intros e He. split; [by apply Hs|by apply Hxc].
    - destruct (fence_directory_ok C id d m Hd) as (d' & -> & ? & ?). done. }
  destruct (IH _ _ HC Hd1) as [Hd2 Htr2]. split; [done|by etrans].
Qed.

Lemma new_directory_ok d : new_directory = Ret d → dir_ok d (λ _, None).
Proof.
  intros [= <-]. split; [|done]. split; cbn [directory placement_stats l1_keys_by_instance token_bindings].
  - constructor.
  - by intros k ?%elem_of_nil.
  - intros k. constructor.
  - intros k p. split; [by intros ?%elem_of_nil|done].
  - intros t. destruct t; reflexivity.
  - split; [constructor|]. by intros k p ?%elem_of_nil.
  - split; [constructor|done|done|intros h; constructor|]. intros h k. split; [by intros ?%elem_of_nil|by intros [?%elem_of_nil _]].
Qed.
