(* ===== verification/DirectoryBlend.v ===== *)
(** * The directory and its blend index

    The claims of the blend index follow the token bindings of the directory:
    what a fragment query finds is stored, under the tokens the query has
    there. *)

From stdpp Require Import gmap list strings.
From Stdlib Require Import ZArith Lia.
From Stdlib.Strings Require Import Byte.
From S2P Require Import Prelude Keys PyFloat Handler TokenHasher BlendIndex EventGate Placements KeyDirectory KeyDirectoryInv.

Open Scope Z_scope.
Open Scope py_scope.
Open Scope handler_scope.

Implicit Types (d : KeyDirectory) (key : ObjectKey) (t : list Z) (ch h : list byte) (ns : BlendNamespace) (tb : dict (list byte) TokenBinding).

(** ** Claims *)

Definition occ_claims (occs : dict (list byte) Occupant) ch ns : Prop := ∃ o, dget ch occs = Some o ∧ ns ∈ namespaces o.
Definition claims (c : contents) t ch ns : Prop := occ_claims (default [] (dget t c)) ch ns.

Lemma occ_claims_claim h off ns occs ch ns' : occ_claims (claim h off ns occs) ch ns' ↔ occ_claims occs ch ns' ∨ (ch = h ∧ ns' = ns).
Proof.
  unfold occ_claims, claim. rewrite dget_dset. destruct (decide (h = ch)) as [<-|Hne].
  - split.
    + intros (o & [= <-] & Hin). cbn [namespaces] in Hin. apply elem_of_oset_set in Hin as [Hin| ->]; [left|by right].
      destruct (dget h occs) as [o|]; [by exists o|by apply elem_of_nil in Hin].
    + intros [(o & E & Hin)|[_ ->]]; (eexists; split; [reflexivity|]); cbn [namespaces]; apply elem_of_oset_set; [left; by rewrite E|by right].
  - split; [by left|]. by intros [?|[-> _]].
Qed.

Lemma occ_claims_release h ns occs ch ns' : occ_claims (release h ns occs) ch ns' ↔ occ_claims occs ch ns' ∧ ¬ (ch = h ∧ ns' = ns).
Proof.
  unfold occ_claims, release. destruct (dget h occs) as [o|] eqn:E.
  2: { split; [|by intros [? _]]. intros (o & Eo & Hin). split; [by exists o|]. intros [-> _]. congruence. }
  destruct (oset_del ns (namespaces o)) as [|n0 rest] eqn:Ed.
  - rewrite dget_ddel. destruct (decide (h = ch)) as [<-|Hne].
    + split; [by intros (? & ? & _)|]. intros [(o' & E' & Hin) Hne]. rewrite E in E'. injection E' as <-.
      exfalso. assert (ns' ∈ oset_del ns (namespaces o)) as Hd by (apply elem_of_oset_del; split; [done|]; intros ->; by apply Hne). rewrite Ed in Hd. by apply elem_of_nil in Hd.
    + split; [intros H; split; [done|]; by intros [-> _]|by intros [? _]].
  - rewrite <-Ed, dget_dset. destruct (decide (h = ch)) as [<-|Hne].
    + split.
      * intros (o' & [= <-] & Hin). cbn [namespaces] in Hin. apply elem_of_oset_del in Hin as [Hin Hn]. split; [by exists o|]. tauto.
      * intros [(o' & E' & Hin) Hn]. rewrite E in E'. injection E' as <-. eexists. split; [reflexivity|]. cbn [namespaces]. apply elem_of_oset_del. split; [done|]. tauto.
    + split; [intros H; split; [done|]; by intros [-> _]|by intros [? _]].
Qed.

Lemma occ_claims_ddel h occs ch ns : occ_claims (ddel h occs) ch ns ↔ occ_claims occs ch ns ∧ ch ≠ h.
Proof.
  unfold occ_claims. rewrite dget_ddel. destruct (decide (h = ch)) as [<-|Hne]; [split; [by intros (? & ? & _)|by intros [_ ?]]|]. split; [by split; [|congruence]|by intros [? _]].
Qed.

Lemma put_content_get t occs c t' : default [] (dget t' (put_content t occs c)) = if decide (t = t') then occs else default [] (dget t' c).
Proof.
  unfold put_content. destruct occs as [|q occs']; [rewrite dget_ddel|rewrite dget_dset]; by destruct (decide (t = t')).
Qed.

(** What an operation does to the claims. *)
Definition op_claims (cs : nat) (P : list Z → list byte → BlendNamespace → Prop) (op : blend_op) t ch ns : Prop :=
  match op with
  | Add t' h _ ns' => P t ch ns ∨ (length t' = cs ∧ t = t' ∧ ch = h ∧ ns = ns')
  | RemoveClaim t' h ns' => P t ch ns ∧ ¬ (length t' = cs ∧ t = t' ∧ ch = h ∧ ns = ns')
  | RemoveChunk t' h => P t ch ns ∧ ¬ (length t' = cs ∧ t = t' ∧ ch = h)
  end.

Lemma spec_op_claims cs c op t ch ns : claims (spec_op cs c op) t ch ns ↔ op_claims cs (claims c) op t ch ns.
Proof.
  unfold spec_op. destruct (Nat.eqb_spec (length (op_tokens op)) cs) as [Hl|Hl]; cbn [negb].
  - unfold claims. rewrite put_content_get. destruct op as [t' h off ns'|t' h ns'|t' h]; cbn [op_tokens op_claims] in *; destruct (decide (t' = t)) as [->|Hne].
    + rewrite occ_claims_claim. tauto.
    + split; [by left|]. intros [?|(_ & -> & _)]; done.
    + rewrite occ_claims_release. tauto.
    + split; [|by intros [? _]]. intros ?. split; [done|]. by intros (_ & -> & _).
    + rewrite occ_claims_ddel. tauto.
    + split; [|by intros [? _]]. intros ?. split; [done|]. by intros (_ & -> & _).
  - destruct op; cbn [op_claims op_tokens] in *; tauto.
Qed.

Lemma op_claims_ext cs P Q op t ch ns : (∀ t ch ns, P t ch ns ↔ Q t ch ns) → op_claims cs P op t ch ns ↔ op_claims cs Q op t ch ns.
Proof. intros H. destruct op; cbn [op_claims]; by rewrite H. Qed.

(** The additions of [claim_ops]. *)
Lemma add_ops_claims cs c t' h off keys t ch ns :
  claims (foldl (spec_op cs) c ((λ key, Add t' h off (from_object_key key)) <$> keys)) t ch ns ↔
  claims c t ch ns ∨ (length t' = cs ∧ t = t' ∧ ch = h ∧ ∃ key, key ∈ keys ∧ from_object_key key = ns).
Proof.
  revert c. induction keys as [|key keys IH]; intros c.
  - cbn. split; [by left|]. intros [?|(_ & _ & _ & key & ?%elem_of_nil & _)]; done.
  - rewrite fmap_cons. cbn [foldl]. rewrite IH, spec_op_claims. cbn [op_claims]. split.
    + intros [[?|(? & ? & ? & ->)]|(? & ? & ? & k & ? & ?)]; [by left|right; split_and!; [done..|exists key; by split; [left|]]|right; split_and!; [done..|exists k; by split; [right|]]].
    + intros [?|(? & ? & ? & k & [->|?]%elem_of_cons & <-)]; [by left; left|left; right; by split_and!|right; split_and!; [done..|by exists k]].
Qed.

(** ** The invariant *)

Section blend.
Context (C : list Z → Z → Prop).

(** Contents of one length have different fingerprints. *)
Definition no_collisions : Prop :=
  ∀ t t' o o', C t o → C t' o' → length t = length t' → _fingerprint (length t) t = _fingerprint (length t) t' → t = t'.

Definition positioned : Prop := ∀ t o, C t o → t ≠ [] → o ≠ UNKNOWN_TOKEN_OFFSET.

Definition content (cs : nat) t : Prop := length t = cs ∧ ∃ off, C t off.

(** A key of the namespace is stored under a chunk of these tokens. *)
Definition supported tb t ch ns : Prop := ∃ b key, dget ch tb = Some b ∧ tb_token_ids b = t ∧ key ∈ tb_keys b ∧ from_object_key key = ns.

Definition index_ok (x : BlendIndex) : Prop :=
  (0 < bi_chunk_size x)%nat ∧ (0 < bi_probe_stride x)%nat ∧ blend_inv (content (bi_chunk_size x)) (bi_chunk_size x) (bi_probe_stride x) x.

Record blend_ok (enabled : bool) tb (x : BlendIndex) : Prop := {
  bk_content : ∀ h b, dget h tb = Some b → tb_token_ids b = [] ∨ C (tb_token_ids b) (tb_token_offset b);
  bk_index : enabled = true → index_ok x;
  bk_sound : enabled = true → ∀ t ch ns, claims (contents_of (fingerprint_table x)) t ch ns → supported tb t ch ns;
  bk_complete : enabled = true → positioned → ∀ t ch ns, length t = bi_chunk_size x → supported tb t ch ns →
    claims (contents_of (fingerprint_table x)) t ch ns
}.

Context (Hcf : no_collisions).

Lemma content_collision_free cs : collision_free (content cs) cs.
Proof. intros t t' [<- [o Ho]] [Hl [o' Ho']] Hf. by eapply Hcf. Qed.

Lemma claims_length x t ch ns : index_ok x → claims (contents_of (fingerprint_table x)) t ch ns → length t = bi_chunk_size x.
Proof.
  intros (_ & _ & Hi) (o & Eo & _). destruct (dget t (contents_of (fingerprint_table x))) as [occs|] eqn:E; [|done].
  apply dget_Some_elem in E. unfold contents_of in E. apply list_elem_of_fmap in E as ([poly e] & [= -> ->] & Hin). by apply (bv_entries _ _ _ _ Hi) in Hin as (_ & ? & _).
Qed.

(** Operations on contents of [C] keep the index right. *)
Lemma ops_run ops x x' :
  index_ok x → (∀ op, op ∈ ops → ∃ off, C (op_tokens op) off) → run_ops ops x = Ret x' →
  index_ok x' ∧ bi_chunk_size x' = bi_chunk_size x ∧
  ∀ t ch ns, claims (contents_of (fingerprint_table x')) t ch ns ↔ claims (foldl (spec_op (bi_chunk_size x)) (contents_of (fingerprint_table x)) ops) t ch ns.
Proof.
  intros (Hc & Hst & Hi) Hu E. destruct (run_ops_ok _ _ _ (content_collision_free _) ops x Hi) as (x1 & E1 & Hi1 & Ec).
  { intros op Hop Hl. split; [done|]. by apply Hu. }
  rewrite E in E1. injection E1 as <-. pose proof (bv_size _ _ _ _ Hi1) as [Es1 Es2]. unfold index_ok. rewrite Es1, Es2. split; [done|]. split; [done|]. intros t ch ns. by rewrite Ec.
Qed.

Lemma supported_other tb h b t ch ns : ch ≠ h → supported (dset h b tb) t ch ns ↔ supported tb t ch ns.
Proof. intros Hne. unfold supported. by setoid_rewrite dget_dset_ne; [|done]. Qed.

Lemma supported_here tb h b t ns : supported (dset h b tb) t h ns ↔ tb_token_ids b = t ∧ ∃ key, key ∈ tb_keys b ∧ from_object_key key = ns.
Proof.
  unfold supported. rewrite dget_dset_eq. split; [intros (b' & key & [= <-] & ? & ? & ?); eauto|]. intros (? & key & ? & ?). by exists b, key.
Qed.

(** The operations keep the invariant if, on contents of the chunk size, the
    claims they leave are supported, and the supported ones are claimed. *)
Lemma rebound enabled tb tb' x x' ops :
  blend_ok enabled tb x → (∀ h b, dget h tb' = Some b → tb_token_ids b = [] ∨ C (tb_token_ids b) (tb_token_offset b)) →
  run_ops ops x = Ret x' → (enabled = true → ∀ op, op ∈ ops → ∃ off, C (op_tokens op) off) →
  (enabled = true → let cs := bi_chunk_size x in let c := contents_of (fingerprint_table x) in
   (∀ t ch ns, length t = cs → claims c t ch ns → supported tb t ch ns) →
   ∀ t ch ns, (0 < length t)%nat → length t = cs →
     (claims (foldl (spec_op cs) c ops) t ch ns → supported tb' t ch ns) ∧
     (positioned → (supported tb t ch ns → claims c t ch ns) → supported tb' t ch ns → claims (foldl (spec_op cs) c ops) t ch ns)) →
  blend_ok enabled tb' x'.
Proof.
  intros [H1 H2 H3 H4] H1' Er Hu Hs. destruct enabled; [|by split].
  destruct (ops_run ops x x' (H2 eq_refl) (Hu eq_refl) Er) as (Hi & Es & Hcl). destruct (H2 eq_refl) as [Hcs _].
  specialize (Hs eq_refl (λ t ch ns _, H3 eq_refl t ch ns)). split; [done|done| |].
  - intros _ t ch ns Hc. pose proof (claims_length _ _ _ _ Hi Hc) as Hl. rewrite Es in Hl. apply Hs; [lia|done|]. by apply Hcl.
  - intros _ Hp t ch ns Hl Hsup. rewrite Es in Hl. apply Hcl. apply Hs; [lia|done|done| |done]. by apply H4.
Qed.

(** *** Joining a binding *)

Lemma claim_ops_claims enabled cs c b h keys t ch ns :
  enabled = true → claims (foldl (spec_op cs) c (claim_ops enabled h b keys)) t ch ns ↔
  claims c t ch ns ∨ (tb_token_ids b ≠ [] ∧ tb_token_offset b ≠ UNKNOWN_TOKEN_OFFSET ∧ length (tb_token_ids b) = cs ∧ t = tb_token_ids b ∧ ch = h ∧
                      ∃ key, key ∈ keys ∧ from_object_key key = ns).
Proof.
  intros ->. unfold claim_ops. cbn [andb]. case_bool_decide as H0; cbn [negb andb foldl]; [tauto|]. destruct (Z.eqb_spec (tb_token_offset b) UNKNOWN_TOKEN_OFFSET) as [Hu|Hu]; cbn [negb foldl]; [tauto|].
  rewrite add_ops_claims. tauto.
Qed.

Lemma claim_ops_tokens enabled b h keys op : op ∈ claim_ops enabled h b keys → op_tokens op = tb_token_ids b ∧ tb_token_ids b ≠ [].
Proof.
  unfold claim_ops. destruct (_ && _) eqn:E; [|by intros ?%elem_of_nil]. intros (k & -> & _)%list_elem_of_fmap. split; [done|].
  apply andb_true_iff in E as [[_ E]%andb_true_iff _]. by apply negb_true_iff, bool_decide_eq_false in E.
Qed.

Lemma add_blend_ok enabled d x' key :
  blend_lookup_enabled d = enabled → blend_ok enabled (token_bindings d) (blend_index d) → run_ops (add_ops key d) (blend_index d) = Ret x' →
  blend_ok enabled (dset (chunk_hash key) (joined key d) (token_bindings d)) x'.
Proof.
  intros Een Hok Er. pose proof (bk_content _ _ _ Hok) as H1. set (b' := joined key d) in *.
  assert (tb_token_ids b' = [] ∨ C (tb_token_ids b') (tb_token_offset b')) as Hb'.
  { unfold b', joined. destruct (dget _ _) as [b|] eqn:Eb; [apply (H1 _ _ Eb)|by left]. }
  eapply rebound; [exact Hok| |exact Er| |].
  - intros h b. rewrite dget_dset. destruct (decide _); [by intros [= <-]|apply H1].
  - intros _ op [-> Hne]%claim_ops_tokens. destruct Hb'; [done|by eexists].
  - intros He cs c Hsound t ch ns Hl0 Hl. unfold add_ops. fold b'. rewrite Een, claim_ops_claims by done.
    destruct (decide (ch = chunk_hash key)) as [->|Hne].
    2: { rewrite supported_other by done. split; [intros [?|(_ & _ & _ & _ & ? & _)]; [by apply Hsound|done]|]. intros _ Hcomp Hs. left. by apply Hcomp. }
    assert (supported (dset (chunk_hash key) b' (token_bindings d)) t (chunk_hash key) ns ↔
      supported (token_bindings d) t (chunk_hash key) ns ∨ (tb_token_ids b' = t ∧ from_object_key key = ns)) as ->.
    { rewrite supported_here. unfold b', joined, supported. destruct (dget (chunk_hash key) (token_bindings d)) as [b|]; cbn [tb_token_ids tb_keys].
      - setoid_rewrite elem_of_oset_set. split; [intros (? & k & [?| ->] & ?); [left; by exists b, k|by right]|].
        intros [(b0 & k & [= <-] & ? & ? & ?)|[? ?]]; (split; [done|]); [exists k|exists key]; auto.
      - setoid_rewrite list_elem_of_singleton. split; [intros (? & k & -> & ?); by right|]. intros [(? & ? & ? & _)|[? ?]]; [done|]. split; [done|]. by exists key. }
    split.
    + intros [Hc|(_ & _ & _ & -> & _ & k & ->%list_elem_of_singleton & <-)]; [left; by apply Hsound|by right].
    + intros Hp Hcomp [Hs|[<- <-]]; [left; by apply Hcomp|]. right. assert (tb_token_ids b' ≠ []) as Hne by (intros E; rewrite E in Hl0; cbn in Hl0; lia).
      split_and!; try done; [destruct Hb' as [?|HC]; [done|by apply (Hp _ _ HC)]|]. exists key. split; [left|done].
Qed.

(** *** Leaving a binding *)

Lemma removed_get key d h :
  dget h (removed_bindings key d) =
  if decide (chunk_hash key = h)
  then match dget h (token_bindings d) with
       | Some t => if bool_decide (oset_del key (tb_keys t) = []) then None else Some (left_binding key t)
       | None => None
       end
  else dget h (token_bindings d).
Proof.
  unfold removed_bindings. destruct (dget (chunk_hash key) (token_bindings d)) as [t|] eqn:E.
  - cbv zeta. cbn [left_binding tb_keys]. destruct (bool_decide (oset_del key (tb_keys t) = [])) eqn:Eb; rewrite ?dget_ddel, dget_dset; destruct (decide (chunk_hash key = h)) as [<-|]; rewrite ?E, ?Eb; done.
  - destruct (decide (chunk_hash key = h)) as [<-|]; by rewrite ?E.
Qed.

Lemma remove_blend_ok enabled d x' key :
  blend_lookup_enabled d = enabled → blend_ok enabled (token_bindings d) (blend_index d) → run_ops (remove_ops key d) (blend_index d) = Ret x' →
  blend_ok enabled (removed_bindings key d) x'.
Proof.
  intros Een Hok Er. pose proof (bk_content _ _ _ Hok) as H1. eapply rebound; [exact Hok| |exact Er| |].
  - intros h b. rewrite removed_get. destruct (decide (chunk_hash key = h)); [|apply H1]. destruct (dget h (token_bindings d)) as [t|] eqn:E; [|done].
    case_bool_decide; [done|]. intros [= <-]. apply (H1 _ _ E).
  - intros He op. unfold remove_ops. destruct (dget (chunk_hash key) (token_bindings d)) as [t|] eqn:E; [|by intros ?%elem_of_nil].
    destruct (_ && _) eqn:Ec; [|by intros ?%elem_of_nil]. intros ->%list_elem_of_singleton. cbn [op_tokens]. apply andb_true_iff in Ec as [[_ Ec]%andb_true_iff _].
    apply negb_true_iff, bool_decide_eq_false in Ec. destruct (H1 _ _ E); [done|by eexists].
  - intros He cs c Hsound t ch ns Hl0 Hl. unfold supported in *. rewrite removed_get.
    destruct (decide (chunk_hash key = ch)) as [<-|Hne].
    2: { assert (claims (foldl (spec_op cs) c (remove_ops key d)) t ch ns ↔ claims c t ch ns) as ->; [|split; [by apply Hsound|auto]].
         unfold remove_ops. destruct (dget (chunk_hash key) (token_bindings d)) as [t0|]; [|done]. destruct (_ && _); [|done]. cbn [foldl]. rewrite spec_op_claims. cbn [op_claims]. split; [by intros [? _]|].
         intros ?. split; [done|]. intros (_ & _ & -> & _). done. }
    unfold remove_ops. destruct (dget (chunk_hash key) (token_bindings d)) as [b|] eqn:E.
    2: { cbn [foldl]. split; [|intros _ _ (b & _ & ? & _); done]. intros Hc. destruct (Hsound _ _ _ Hl Hc) as (b & _ & Eb & _). congruence. }
    rewrite Een, He. cbn [andb]. set (same := existsb _ _).
    assert (same = true ↔ ∃ k, k ∈ tb_keys b ∧ k ≠ key ∧ from_object_key k = from_object_key key) as Hsame.
    { unfold same. rewrite existsb_exists. setoid_rewrite <-list_elem_of_In. setoid_rewrite elem_of_oset_del. setoid_rewrite bool_decide_eq_true.
      split; [intros (k & [? ?] & ?)|intros (k & ? & ? & ?)]; by exists k. }
    assert (claims (foldl (spec_op cs) c (if negb (bool_decide (tb_token_ids b = [])) && negb same then [RemoveClaim (tb_token_ids b) (chunk_hash key) (from_object_key key)] else [])) t (chunk_hash key) ns ↔
      claims c t (chunk_hash key) ns ∧ ¬ (t = tb_token_ids b ∧ ns = from_object_key key ∧ same = false)) as ->.
    { case_bool_decide as Hb; [|destruct same]; cbn [negb andb foldl].
      - split; [|by intros [? _]]. intros ?. split; [done|]. intros (-> & _). rewrite Hb in Hl0. cbn in Hl0. lia.
      - split; [|by intros [? _]]. intros ?. split; [done|]. by intros (_ & _ & ?).
      - rewrite spec_op_claims. cbn [op_claims]. split; intros [? Hn]; (split; [done|]); [intros (-> & -> & _); by apply Hn|]. intros (_ & -> & _ & ->). by apply Hn. }
    assert ((∃ b' k, (if bool_decide (oset_del key (tb_keys b) = []) then None else Some (left_binding key b)) = Some b' ∧ tb_token_ids b' = t ∧ k ∈ tb_keys b' ∧ from_object_key k = ns) ↔
      tb_token_ids b = t ∧ ∃ k, k ∈ tb_keys b ∧ k ≠ key ∧ from_object_key k = ns) as ->.
    { split.
      - case_bool_decide; [by intros (? & ? & ? & _)|]. intros (b' & k & [= <-] & ? & Hk & ?). apply elem_of_oset_del in Hk as [? ?]. split; [done|]. by exists k.
      - intros (? & k & ? & ? & ?). assert (k ∈ oset_del key (tb_keys b)) as Hk by (by apply elem_of_oset_del). rewrite bool_decide_false; [|intros En; rewrite En in Hk; by apply elem_of_nil in Hk].
        by exists (left_binding key b), k. }
    split.
    + intros [Hc Hn]. destruct (Hsound _ _ _ Hl Hc) as (b' & k & Eb & Ht & Hk & Hns). rewrite E in Eb. injection Eb as <-. split; [done|]. destruct (decide (k = key)) as [->|]; [|by exists k].
      destruct same; [|exfalso; by apply Hn]. destruct (proj1 Hsame eq_refl) as (k & ? & ? & ?). exists k. split_and!; [done..|congruence].
    + intros _ Hcomp (Ht & k & Hk & Hkk & Hns). split; [apply Hcomp; by exists b, k|]. intros (_ & Hns' & Hsf). rewrite (proj2 Hsame) in Hsf; [done|]. exists k. split_and!; [done..|congruence].
Qed.

(** *** Filling a binding *)

Lemma create_blend_ok enabled d x' key e :
  C (ev_token_ids e) (ev_token_offset e) → key ∈ keys_at (token_bindings d) (chunk_hash key) →
  blend_lookup_enabled d = enabled → blend_ok enabled (token_bindings d) (blend_index d) → run_ops (create_ops key e d) (blend_index d) = Ret x' →
  blend_ok enabled (created key e d) x'.
Proof.
  intros HC Hkey Een Hok Er. pose proof (bk_content _ _ _ Hok) as H1. unfold keys_at in Hkey. unfold created. unfold create_ops in Er.
  destruct (as_uint32 (ev_token_ids e)) as [new|] eqn:Enew; [|by injection Er as <-].
  assert (new = ev_token_ids e) as -> by (unfold as_uint32 in Enew; by destruct (forallb _ _); [injection Enew as <-|]). clear Enew.
  destruct (dget (chunk_hash key) (token_bindings d)) as [b|] eqn:Eb; [|by apply elem_of_nil in Hkey]. cbn [from_option] in Hkey.
  set (b' := mkBinding (ev_token_ids e) (ev_token_offset e) (tb_keys b)) in *. cbv zeta in Er. rewrite Een in Er.
  set (replaced := enabled && negb (bool_decide (tb_token_ids b = [])) && negb (bool_decide (tb_token_ids b = ev_token_ids e))) in *.
  eapply rebound; [exact Hok| |exact Er| |].
  - intros h b0. rewrite dget_dset. destruct (decide _); [|apply H1]. intros [= <-]. by right.
  - intros _ op [Hop|[-> _]%claim_ops_tokens]%elem_of_app; [|by eexists]. destruct replaced eqn:Erep; [|by apply elem_of_nil in Hop].
    apply list_elem_of_singleton in Hop as ->. cbn [op_tokens]. unfold replaced in Erep. apply andb_true_iff in Erep as [[_ Hn]%andb_true_iff _].
    apply negb_true_iff, bool_decide_eq_false in Hn. destruct (H1 _ _ Eb); [done|by eexists].
  - intros He cs c Hsound t ch ns Hl0 Hl. rewrite foldl_app, claim_ops_claims by done.
    assert (claims (foldl (spec_op cs) c (if replaced then [RemoveChunk (tb_token_ids b) (chunk_hash key)] else [])) t ch ns ↔
      claims c t ch ns ∧ ¬ (replaced = true ∧ t = tb_token_ids b ∧ ch = chunk_hash key)) as ->.
    { destruct replaced; cbn [foldl]; [rewrite spec_op_claims; cbn [op_claims]|]; split; intros H; [split; [by destruct H|]|split; [by destruct H|]|split; [done|]|by destruct H].
      - destruct H as [_ H]. intros (_ & -> & ->). by apply H.
      - destruct H as [_ H]. intros (_ & -> & ->). by apply H.
      - by intros [? _]. }
    destruct (decide (ch = chunk_hash key)) as [->|Hne].
    2: { rewrite supported_other by done. split; [intros [[? _]|(_ & _ & _ & _ & ? & _)]; [by apply Hsound|done]|]. intros _ Hcomp Hs. left. split; [by apply Hcomp|]. by intros (_ & _ & ?). }
    rewrite supported_here. cbn [b' tb_token_ids tb_keys tb_token_offset]. split.
    + intros [[Hc Hn]|(_ & _ & _ & -> & _ & k & Hk & Hns)].
      * destruct (Hsound _ _ _ Hl Hc) as (b0 & k & E0 & Ht & Hk & Hns). rewrite Eb in E0. injection E0 as <-. split; [|by exists k].
        destruct (decide (tb_token_ids b = ev_token_ids e)) as [<-|Hd]; [done|]. exfalso. apply Hn. split_and!; [|done|done]. unfold replaced. rewrite He.
        rewrite !bool_decide_false; [done|done|]. intros En. rewrite <-Ht, En in Hl0. cbn in Hl0. lia.
      * split; [done|]. exists k. split; [|done]. destruct (replaced || _); [done|]. by apply list_elem_of_singleton in Hk as ->.
    + intros Hp Hcomp (<- & k & Hk & Hns). assert (ev_token_ids e ≠ []) as Hne by (intros En; rewrite En in Hl0; cbn in Hl0; lia).
      destruct (replaced || bool_decide (tb_token_ids b = [])) eqn:Ef; [right; split_and!; try done; [by apply (Hp _ _ HC)|by exists k]|].
      apply orb_false_iff in Ef as [Ef1 Ef2]. left. split; [|by rewrite Ef1; intros [? _]]. apply Hcomp. exists b, k. split_and!; try done.
      unfold replaced in Ef1. rewrite He, Ef2 in Ef1. cbn in Ef1. by apply negb_false_iff, bool_decide_eq_true in Ef1.
Qed.

Lemma blend_step_ok d d' :
  blend_step C d d' → blend_lookup_enabled d' = blend_lookup_enabled d →
  blend_ok (blend_lookup_enabled d) (token_bindings d) (blend_index d) → blend_ok (blend_lookup_enabled d') (token_bindings d') (blend_index d').
Proof.
  intros Hs -> Hok. destruct Hs as [-> ->|key e HC Hk -> Er|key -> Er|key -> Er]; [done|by eapply create_blend_ok|by eapply add_blend_ok|by eapply remove_blend_ok].
Qed.

Lemma blend_trace_ok d d' :
  blend_trace C d d' → blend_ok (blend_lookup_enabled d) (token_bindings d) (blend_index d) → blend_ok (blend_lookup_enabled d') (token_bindings d') (blend_index d').
Proof. induction 1 as [d|d d1 d2 [Hs He] _ IH]; intros Hok; [done|]. by apply IH, (blend_step_ok d). Qed.

(** *** Rebuilding the index *)

Definition binding_ops (q : list byte * TokenBinding) : list blend_op :=
  if bool_decide (tb_token_ids q.2 = []) || (tb_token_offset q.2 =? UNKNOWN_TOKEN_OFFSET) then []
  else (λ ns, Add (tb_token_ids q.2) q.1 (tb_token_offset q.2) ns) <$> namespaces_of (tb_keys q.2).

Lemma add_claims_ops b h nss x : add_claims b h nss x = run_ops ((λ ns, Add (tb_token_ids b) h (tb_token_offset b) ns) <$> nss) x.
Proof. revert x. induction nss as [|ns nss IH]; intros x; [done|]. cbn [add_claims fmap list_fmap run_ops run_op]. destruct (add _ _ _ _ x); [apply IH|done]. Qed.

Lemma rebuild_ops tb x : rebuild_index tb x = run_ops (tb ≫= binding_ops) x.
Proof.
  revert x. induction tb as [|[h b] tb IH]; intros x; [done|]. cbn [rebuild_index mbind list_bind]. rewrite run_ops_app. unfold binding_ops at 1. cbn [fst snd].
  destruct (_ || _); [apply IH|]. rewrite add_claims_ops. destruct (run_ops _ x); [apply IH|done].
Qed.

Lemma elem_of_namespaces ns keys : ns ∈ namespaces_of keys ↔ ∃ key, key ∈ keys ∧ from_object_key key = ns.
Proof.
  unfold namespaces_of. induction keys as [|key keys IH] using rev_ind; [split; [by intros ?%elem_of_nil|by intros (? & ?%elem_of_nil & _)]|].
  rewrite foldl_app. cbn [foldl]. rewrite elem_of_oset_set, IH. setoid_rewrite elem_of_app. setoid_rewrite list_elem_of_singleton. split.
  - intros [(k & ? & ?)| ->]; [exists k|exists key]; auto.
  - intros (k & [?| ->] & ?); [left; by exists k|by right].
Qed.

Lemma adds_claims cs c ops t ch ns :
  (∀ op, op ∈ ops → ∃ t' h off ns', op = Add t' h off ns') →
  claims (foldl (spec_op cs) c ops) t ch ns ↔ claims c t ch ns ∨ (length t = cs ∧ ∃ off, Add t ch off ns ∈ ops).
Proof.
  revert c. induction ops as [|op ops IH]; intros c Ha; [cbn; split; [by left|]; intros [?|(_ & ? & ?%elem_of_nil)]; done|].
  cbn [foldl]. rewrite IH by (intros op' Hop; apply Ha; by right). rewrite spec_op_claims. destruct (Ha op) as (t' & h & off & ns' & ->); [left|]. cbn [op_claims].
  setoid_rewrite elem_of_cons. split.
  - intros [[?|(? & -> & -> & ->)]|(? & off' & ?)]; [by left|right; split; [done|exists off; by left]|right; split; [done|exists off'; by right]].
  - intros [?|(? & off' & [[= -> -> _ ->]|?])]; [by left; left|left; right; by split_and!|right; split; [done|by exists off']].
Qed.

Lemma new_index_ok cs stride x : new_blend_index cs stride = Ret x → index_ok x ∧ fingerprint_table x = [].
Proof.
  unfold new_blend_index. destruct (Z.ltb_spec cs 1); [done|]. destruct (Z.ltb_spec stride 1); [done|]. intros [= <-]. split; [|done].
  split; [cbn; lia|]. split; [cbn; lia|]. split; cbn [bi_chunk_size bi_probe_stride fingerprint_table].
  - done.
  - constructor.
  - by intros p ?%elem_of_nil.
  - exists 10%nat. split; [done|]. split; [done|]. by intros ? ?%elem_of_nil.
  - split; [done|]. split; [constructor|done].
Qed.

Lemma fresh_index_ok tb x :
  index_ok x → fingerprint_table x = [] → NoDup (dkeys tb) → (∀ h b, dget h tb = Some b → tb_token_ids b = [] ∨ C (tb_token_ids b) (tb_token_offset b)) →
  ∃ x', rebuild_index tb x = Ret x' ∧ blend_ok true tb x'.
Proof.
  intros Hx Ex Hn H1. rewrite rebuild_ops. destruct (run_ops_total (tb ≫= binding_ops) x) as [x' Er]. exists x'. split; [exact Er|].
  assert (∀ op, op ∈ tb ≫= binding_ops ↔ ∃ h b ns, dget h tb = Some b ∧ op = Add (tb_token_ids b) h (tb_token_offset b) ns ∧ tb_token_ids b ≠ [] ∧
    tb_token_offset b ≠ UNKNOWN_TOKEN_OFFSET ∧ ∃ key, key ∈ tb_keys b ∧ from_object_key key = ns) as Hops.
  { intros op. rewrite list_elem_of_bind. split.
    - intros ([h b] & Hop & Hin). unfold binding_ops in Hop. cbn [fst snd] in Hop. destruct (_ || _) eqn:Ec; [by apply elem_of_nil in Hop|].
      apply orb_false_iff in Ec as [Ec1 Ec2]. apply bool_decide_eq_false in Ec1. apply Z.eqb_neq in Ec2. apply list_elem_of_fmap in Hop as (ns & -> & Hns%elem_of_namespaces).
      exists h, b, ns. split_and!; try done. by apply elem_dget.
    - intros (h & b & ns & Eb & -> & Hne & Hu & Hk). exists (h, b). split; [|by apply dget_Some_elem]. unfold binding_ops. cbn [fst snd].
      rewrite bool_decide_false by done. apply Z.eqb_neq in Hu as ->. cbn [orb]. apply list_elem_of_fmap. exists ns. split; [done|by apply elem_of_namespaces]. }
  assert (∀ op, op ∈ tb ≫= binding_ops → ∃ t' h off ns', op = Add t' h off ns') as Hadd by (intros op (h & b & ns & _ & -> & _)%Hops; eauto).
  apply (rebound true [] tb x x' (tb ≫= binding_ops)).
  - split; [by intros h b ?|done| |by intros _ _ t ch ns _ (b & k & ? & _)]. intros _ t ch ns (o & Eo & _). by rewrite Ex in Eo.
  - done.
  - exact Er.
  - intros _ op (h & b & ns & Eb & -> & Hne & _)%Hops. cbn [op_tokens]. destruct (H1 _ _ Eb); [done|by eexists].
  - intros _ cs c Hsound t ch ns Hl0 Hl. rewrite adds_claims by done. unfold c, claims at 1 3. rewrite Ex. split.
    + intros [(o & ? & _)|(_ & off & (h & b & ns' & Eb & [= -> -> -> ->] & _ & _ & k & Hk & Hns)%Hops)]; [done|]. by exists b, k.
    + intros Hp _ (b & k & Eb & <- & Hk & Hns). right. split; [done|]. exists (tb_token_offset b). apply Hops. exists ch, b, ns.
      assert (tb_token_ids b ≠ []) as Hne by (intros E; rewrite E in Hl0; cbn in Hl0; lia). split_and!; [done|done|done| |by exists k].
      destruct (H1 _ _ Eb) as [?|HC]; [done|by apply (Hp _ _ HC)].
Qed.

Lemma bind_chunk_size_ok n d :
  NoDup (dkeys (token_bindings d)) → blend_ok (blend_lookup_enabled d) (token_bindings d) (blend_index d) →
  let d' := (bind_chunk_size n d).2 in blend_ok (blend_lookup_enabled d') (token_bindings d') (blend_index d').
Proof.
  intros Hn Hok. unfold bind_chunk_size. destruct (negb (blend_lookup_enabled d) || _) eqn:Ec; [done|].
  apply orb_false_iff in Ec as [Ec _]. apply negb_false_iff in Ec. destruct (new_blend_index n (blend_probe_stride d)) as [x|] eqn:Ex; [|done]. cbn [py_bind].
  destruct (new_index_ok _ _ _ Ex) as [Hx Et]. destruct (fresh_index_ok (token_bindings d) x Hx Et Hn (bk_content _ _ _ Hok)) as (x' & -> & Hok').
  cbn [snd token_bindings blend_index blend_lookup_enabled]. by rewrite Ec.
Qed.
End blend.

(** Without looking at the index: contents come from [C]. *)
Definition contents_in (C : list Z → Z → Prop) tb : Prop := ∀ h b, dget h tb = Some b → tb_token_ids b = [] ∨ C (tb_token_ids b) (tb_token_offset b).

Lemma blend_step_contents C d d' : blend_step C d d' → contents_in C (token_bindings d) → contents_in C (token_bindings d').
Proof.
  intros Hs Hc h b. destruct Hs as [-> _|key e HC _ -> _|key -> _|key -> _]; [apply Hc| | |].
  - unfold created, as_uint32. destruct (forallb _ _); [|apply Hc]. destruct (dget (chunk_hash key) (token_bindings d)); [|apply Hc]. rewrite dget_dset.
    destruct (decide _); [|apply Hc]. intros [= <-]. by right.
  - rewrite dget_dset. destruct (decide _); [|apply Hc]. intros [= <-]. unfold joined. destruct (dget _ _) as [b|] eqn:Eb; [apply (Hc _ _ Eb)|by left].
  - rewrite removed_get. destruct (decide _); [|apply Hc]. destruct (dget h (token_bindings d)) as [b0|] eqn:Eb; [|done]. case_bool_decide; [done|]. intros [= <-]. apply (Hc _ _ Eb).
Qed.

Lemma blend_trace_contents C d d' : blend_trace C d d' → contents_in C (token_bindings d) → contents_in C (token_bindings d').
Proof. induction 1 as [d|d d1 d2 [Hs _] _ IH]; intros Hc; [done|]. by apply IH, (blend_step_contents C d). Qed.

(** Binding a chunk size changes nothing but the index. *)
Lemma bind_frame n d :
  let d' := (bind_chunk_size n d).2 in
  directory d' = directory d ∧ placement_stats d' = placement_stats d ∧ l1_keys_by_instance d' = l1_keys_by_instance d ∧ token_bindings d' = token_bindings d ∧
  blend_lookup_enabled d' = blend_lookup_enabled d.
Proof. unfold bind_chunk_size. destruct (_ || _); [done|]. by destruct (py_bind _ _). Qed.
