(* ===== verification/DirectoryProps.v ===== *)
(** * What the key directory promises

    Histories of the directory: its lookups and counters are those of the
    specification, and a fragment query finds what is stored. *)

From stdpp Require Import gmap list strings sorting.
From Stdlib Require Import ZArith Lia.
From Stdlib.Strings Require Import Byte.
From S2P Require Import Prelude Keys PyFloat Handler TokenHasher BlendIndex EventGate Placements KeyDirectory KeyDirectoryInv DirectoryBlend.

Open Scope Z_scope.
Open Scope py_scope.
Open Scope handler_scope.

Implicit Types (d : KeyDirectory) (key : ObjectKey).

(** ** Sorting *)

Lemma insert_sorted_perm {X} (leb : X → X → bool) x l : insert_sorted leb x l ≡ₚ x :: l.
Proof. induction l as [|y l IH]; [done|]. cbn [insert_sorted]. destruct (leb x y); [done|]. rewrite IH. apply Permutation_swap. Qed.

Lemma sort_by_perm {X} (leb : X → X → bool) l : sort_by leb l ≡ₚ l.
Proof. induction l as [|x l IH]; [done|]. cbn. by rewrite insert_sorted_perm, IH. Qed.

Lemma sort_by_sorted {X} (leb : X → X → bool) l :
  (∀ x y, leb x y = false → leb y x = true) → Sorted (λ x y, leb x y = true) (sort_by leb l).
Proof.
  intros Ht. induction l as [|x l IH]; [constructor|]. cbn [sort_by foldr]. fold (sort_by leb l). revert IH. generalize (sort_by leb l) as s. intros s Hs.
  induction Hs as [|y s Hs IH Hy]; [repeat constructor|]. cbn [insert_sorted]. destruct (leb x y) eqn:E; [by repeat constructor|]. constructor; [done|].
  destruct s as [|z s]; cbn [insert_sorted]; [constructor; by apply Ht|]. destruct (leb x z); constructor; [by apply Ht|]. by inversion Hy.
Qed.

Lemma placement_leb_total p q : placement_leb p q = false → placement_leb q p = true.
Proof.
  unfold placement_leb. rewrite (String.compare_antisym (pl_instance_id p)), (String.compare_antisym (tier_value (pl_tier p))).
  destruct (String.compare (pl_instance_id q) (pl_instance_id p)); cbn [CompOpp]; try done.
  destruct (String.compare (tier_value (pl_tier q)) (tier_value (pl_tier p))); cbn [CompOpp]; try done.
  destruct (String.leb_total (pl_backend p) (pl_backend q)) as [->| ->]; done.
Qed.

(** ** Matching *)

Section matching.
Context (cs stride : nat) (c : contents) (query : list Z) (ns : BlendNamespace).
Hypothesis Hocc : ∀ t occs, dget t c = Some occs → NoDup (dkeys occs).

Definition window (cur : nat) : list Z := take cs (drop cur query).

Record matching (done : list nat) (acc : list (list byte) * list BlendMatch) : Prop := {
  mt_seen : acc.1 = bm_chunk_hash <$> acc.2;
  mt_nodup : NoDup (bm_chunk_hash <$> acc.2);
  mt_sound : ∀ mt, mt ∈ acc.2 → (∃ j, j ∈ done ∧ cur_st mt = (j * stride)%nat) ∧ claims c (window (cur_st mt)) (bm_chunk_hash mt) ns;
  mt_complete : ∀ j ch, j ∈ done → claims c (window (j * stride)) ch ns → ∃ mt, mt ∈ acc.2 ∧ (bm_chunk_hash mt = ch ∨ cur_st mt = (j * stride)%nat)
}.

Lemma match_step done acc j : matching done acc → matching (done ++ [j]) (spec_match_at cs stride c query ns acc j).
Proof.
  intros [H1 H2 H3 H4]. unfold spec_match_at. fold (window (j * stride)). set (occs := default [] (dget (window (j * stride)) c)).
  assert (NoDup (dkeys occs)) as Hn by (unfold occs; destruct (dget _ c) eqn:E; [by eapply Hocc|constructor]).
  assert (∀ ch o, (ch, o) ∈ occs → ns ∈ namespaces o → claims c (window (j * stride)) ch ns) as Hcl by (intros ch o Hin Hns; exists o; split; [by apply elem_dget|done]).
  destruct (filter _ occs) as [|[ch o] rest] eqn:Ef; cbn [head].
  - split; [done|done| |].
    + intros mt Hmt. destruct (H3 mt Hmt) as [(j' & ? & ?) ?]. split; [exists j'; split; [apply elem_of_app; by left|done]|done].
    + intros j' ch [Hj|Hj]%elem_of_app Hc; [by apply H4|]. apply list_elem_of_singleton in Hj as ->. destruct Hc as (o & Eo & Hns). fold occs in Eo.
      destruct (decide (ch ∈ acc.1)) as [Hin|Hin].
      * rewrite H1 in Hin. apply list_elem_of_fmap in Hin as (mt & -> & ?). exists mt. auto.
      * exfalso. assert ((ch, o) ∈ filter (λ p : list byte * Occupant, (p.1 ∉ acc.1) ∧ ns ∈ namespaces p.2) occs) as Hi by (apply list_elem_of_filter; split; [done|by apply dget_Some_elem]).
        rewrite Ef in Hi. by apply elem_of_nil in Hi.
  - assert ((ch, o) ∈ filter (λ p : list byte * Occupant, (p.1 ∉ acc.1) ∧ ns ∈ namespaces p.2) occs) as [[Hnew Hns] Hin]%list_elem_of_filter by (rewrite Ef; left).
    cbn [fst snd] in Hnew, Hns. split; cbn [fst snd].
    + rewrite fmap_app, <-H1. cbn. unfold oset_set. by rewrite (proj2 (oset_mem_false _ _) Hnew).
    + rewrite fmap_app. apply NoDup_app. split_and!; [done| |apply NoDup_singleton]. intros h Hh. cbn. rewrite list_elem_of_singleton. intros ->. apply Hnew. by rewrite H1.
    + intros mt [Hmt|Hmt]%elem_of_app.
      * destruct (H3 mt Hmt) as [(j' & ? & ?) ?]. split; [exists j'; split; [apply elem_of_app; by left|done]|done].
      * apply list_elem_of_singleton in Hmt as ->. cbn [bm_chunk_hash cur_st]. split; [exists j; split; [apply elem_of_app; right; left|done]|by eapply Hcl].
    + intros j' ch' [Hj|Hj]%elem_of_app Hc.
      * destruct (H4 _ _ Hj Hc) as (mt & ? & ?). exists mt. split; [apply elem_of_app; by left|done].
      * apply list_elem_of_singleton in Hj as ->. eexists. split; [apply elem_of_app; right; left|]. by right.
Qed.

Lemma match_fold l done acc : matching done acc → matching (done ++ l) (foldl (spec_match_at cs stride c query ns) acc l).
Proof.
  revert done acc. induction l as [|j l IH]; intros done acc Ha; [by rewrite app_nil_r|]. cbn [foldl]. specialize (IH (done ++ [j]) _ (match_step _ _ j Ha)). by rewrite <-app_assoc in IH.
Qed.
End matching.

Lemma elem_every_seq_iff stride k j : (0 < stride)%nat → j ∈ (every stride (seq 0 k)).*1 ↔ (j * stride < k)%nat.
Proof.
  intros Hs. split.
  - intros ([j' v] & -> & [-> Hv]%elem_every_seq)%list_elem_of_fmap. done.
  - intros Hj. apply list_elem_of_fmap. exists (j, (j * stride)%nat). split; [done|]. apply list_elem_of_omap. exists j. split.
    + apply elem_of_seq. rewrite length_seq. nia.
    + rewrite lookup_seq_lt by done. done.
Qed.

(** ** Histories *)

Inductive dir_call := Deliver (x : delivery) | Bind (chunk_size : Z).

Definition run_dir d (call : dir_call) : KeyDirectory :=
  match call with Deliver x => view_step directory_consumer d x | Bind chunk_size => (bind_chunk_size chunk_size d).2 end.

Definition spec_dir (m : placements) (call : dir_call) : placements := match call with Deliver x => spec_deliver m x | Bind _ => m end.

(** A directory at start-up. *)
Definition started d : Prop :=
  ∃ d0, new_directory = Ret d0 ∧ (d = d0 ∨ ∃ cs stride, enable_blend_lookup cs stride d0 = (Ret tt, d)).

Definition call_ok (call : dir_call) : Prop := match call with Deliver x => delivery_ok x | Bind _ => True end.

(** The contents delivered, with their offsets. *)
Definition delivered_content (calls : list dir_call) (t : list Z) (off : Z) : Prop :=
  ∃ b e, Deliver (Delivered b) ∈ calls ∧ e ∈ entries b ∧ ev_token_ids e = t ∧ ev_token_offset e = off.

Lemma started_dir_ok d : started d → dir_ok d (λ _, None).
Proof.
  intros (d0 & E0 & Hd). pose proof (new_directory_ok d0 E0) as H0. destruct Hd as [->|(cs & stride & E)]; [done|].
  unfold enable_blend_lookup in E. destruct (new_blend_index cs stride); [|done]. injection E as <-. exact H0.
Qed.

Lemma started_blend_ok C d : started d → blend_ok C (blend_lookup_enabled d) (token_bindings d) (blend_index d).
Proof.
  intros (d0 & E0 & Hd). injection E0 as <-. destruct Hd as [->|(cs & stride & E)]; [by split|].
  unfold enable_blend_lookup in E. destruct (new_blend_index cs stride) as [x|] eqn:Ex; [|done]. injection E as <-.
  destruct (new_index_ok C _ _ _ Ex) as [Hx Et]. split; [done|done| |].
  - intros _ t ch ns (o & Eo & _). cbn [blend_index] in Eo. by rewrite Et in Eo.
  - by intros _ _ t ch ns _ (b & k & ? & _).
Qed.

Lemma run_dir_ok C call d m :
  call_ok call → (∀ t o, delivered_content [call] t o → C t o) → dir_ok d m →
  dir_ok (run_dir d call) (spec_dir m call) ∧ blend_lookup_enabled (run_dir d call) = blend_lookup_enabled d ∧
  (contents_in C (token_bindings d) → contents_in C (token_bindings (run_dir d call))) ∧
  (no_collisions C → blend_ok C (blend_lookup_enabled d) (token_bindings d) (blend_index d) →
   blend_ok C (blend_lookup_enabled (run_dir d call)) (token_bindings (run_dir d call)) (blend_index (run_dir d call))).
Proof.
  intros Hcall HC Hd. destruct call as [x|n]; cbn [run_dir spec_dir].
  - destruct (directory_run_ok C [x] d m) as [Hd1 Htr]; [by repeat constructor| |done|].
    { repeat constructor. destruct x as [b|]; [|done]. intros e He. apply HC. exists b, e. split; [left|done]. }
    cbn [foldl] in Hd1, Htr. split_and!; [done| |by apply blend_trace_contents|intros Hcf; by apply blend_trace_ok]. clear -Htr. induction Htr as [|? ? ? [_ ?] _ IH]; [done|congruence].
  - destruct Hd as [Hcore Hw]. destruct (bind_frame n d) as (E1 & E2 & E3 & E4 & E5). split_and!; [|done|by rewrite E4|].
    + split; [|done]. by rewrite E1, E2, E3, E4.
    + intros Hcf Hb. apply bind_chunk_size_ok; [done|by apply (bo_nodup _ _ (co_bindings _ _ _ _ _ Hcore))|done].
Qed.

Lemma dir_history_ok C calls d m :
  Forall call_ok calls → (∀ t o, delivered_content calls t o → C t o) → dir_ok d m →
  let d' := foldl run_dir d calls in
  dir_ok d' (foldl spec_dir m calls) ∧ blend_lookup_enabled d' = blend_lookup_enabled d ∧
  (contents_in C (token_bindings d) → contents_in C (token_bindings d')) ∧
  (no_collisions C → blend_ok C (blend_lookup_enabled d) (token_bindings d) (blend_index d) → blend_ok C (blend_lookup_enabled d') (token_bindings d') (blend_index d')).
Proof.
  intros Hc. revert d m. induction Hc as [|call calls Hcall _ IH]; intros d m HC Hd; [done|]. cbn [foldl].
  destruct (run_dir_ok C call d m Hcall) as (Hd1 & He1 & Hc1 & Hb1); [|done|].
  { intros t o (b & e & Hin & He). apply list_elem_of_singleton in Hin as <-. apply HC. exists b, e. split; [left|done]. }
  destruct (IH (run_dir d call) (spec_dir m call)) as (Hd2 & He2 & Hc2 & Hb2); [|done|].
  { intros t o (b & e & Hin & He). apply HC. exists b, e. split; [by right|done]. }
  split_and!; [done|congruence|auto|auto].
Qed.

(** ** Lookups and counters *)

Lemma lookup_ok key d m : dir_ok d m → ∃ l, lookup_keys [key] d = [l] ∧ Sorted (λ p q, placement_leb p q = true) l ∧
  NoDup ((λ p, own_pid p key) <$> l) ∧ ∀ p, p ∈ l ↔ m (own_pid p key) = Some p.
Proof.
  intros [[H1 H2 H3 H4 H5 H6 H7] _]. exists (sort_by placement_leb (held (directory d) key)). split_and!.
  - unfold lookup_keys, held. cbn. by destruct (dget key (directory d)).
  - apply sort_by_sorted, placement_leb_total.
  - rewrite sort_by_perm. apply H3.
  - intros p. rewrite sort_by_perm. apply H4.
Qed.

Definition all_placements d : list Placement := directory d ≫= λ q, rec_placements q.2.

Lemma weigh_all f d : weigh f (directory d) = zsum f (all_placements d).
Proof.
  unfold weigh, all_placements. induction (directory d) as [|q ks IH]; [done|]. cbn [mbind list_bind]. by rewrite zsum_cons, zsum_app, IH.
Qed.

Lemma stored_iff key d m : dir_ok d m → key ∈ dkeys (directory d) ↔ ∃ p, m (own_pid p key) = Some p.
Proof.
  intros [[H1 H2 H3 H4 H5 H6 H7] _]. split.
  - intros Hk. pose proof (H2 key Hk) as Hne. destruct (held (directory d) key) as [|p ps] eqn:E; [done|]. exists p. apply H4. rewrite E. left.
  - intros (p & Hp%H4). destruct (decide (key ∈ dkeys (directory d))) as [|Hn]; [done|]. rewrite held_notin in Hp by done. by apply elem_of_nil in Hp.
Qed.

Lemma lookup_all_perm d : NoDup (dkeys (directory d)) → mjoin (lookup_keys (dkeys (directory d)) d) ≡ₚ all_placements d.
Proof.
  intros Hn. unfold all_placements, lookup_keys, dkeys in *. assert (∀ q, q ∈ directory d → dget q.1 (directory d) = Some q.2) as Hg by (intros [k r] Hin; by apply elem_dget).
  revert Hg. generalize (directory d) at 1 4 5 as ks. intros ks. induction ks as [|[k r] ks IH]; intros Hg; [done|]. cbn [map fmap list_fmap mjoin list_join mbind list_bind fst snd].
  pose proof (Hg (k, r) (list_elem_of_here _ _)) as Ek. cbn [fst snd] in Ek. rewrite Ek. f_equiv; [apply sort_by_perm|]. apply IH. intros q Hq. apply Hg. by right.
Qed.

Lemma directory_stats_ok d m :
  dir_ok d m → let ps := mjoin (lookup_keys (dkeys (directory d)) d) in
  ∃ st, directory_stats d = Ret st ∧ ds_num_keys st = length (dkeys (directory d)) ∧ ds_num_placements st = Z.of_nat (length ps) ∧
    ds_l1_count st = zsum (in_tier TierL1) ps ∧ ds_l1_size_bytes st = zsum (bytes_in TierL1) ps ∧
    ds_l2_count st = zsum (in_tier TierL2) ps ∧ ds_l2_size_bytes st = zsum (bytes_in TierL2) ps.
Proof.
  intros [[H1 H2 H3 H4 H5 H6 H7] Hw] ps. pose proof (lookup_all_perm d H1) as Hp. fold ps in Hp. unfold directory_stats. rewrite (H5 TierL1), (H5 TierL2). cbn.
  eexists. split; [reflexivity|]. cbn [ds_num_keys ds_num_placements ds_l1_count ds_l1_size_bytes ds_l2_count ds_l2_size_bytes]. rewrite !weigh_all, <-!(zsum_perm _ _ _ Hp).
  split_and!; try done; [unfold dkeys; by rewrite length_map|].
  assert (∀ p, p ∈ ps → pl_tier p ≠ TierALL) as Ht.
  { intros p Hin. rewrite Hp in Hin. apply list_elem_of_bind in Hin as ([k r] & Hin & Hk). cbn [snd] in Hin.
    assert (p ∈ held (directory d) k) as Hh by (unfold held; by rewrite (elem_dget _ _ _ H1 Hk)). apply H4, Hw in Hh as (_ & ? & _). done. }
  clear -Ht. induction ps as [|p ps IH]; [done|]. rewrite !zsum_cons. cbn [length]. rewrite Nat2Z.inj_succ, <-Z.add_1_l, <-IH by (intros q Hq; apply Ht; by right).
  assert (in_tier TierL1 p + in_tier TierL2 p = 1) by (unfold in_tier; specialize (Ht p (list_elem_of_here _ _)); by destruct (pl_tier p)). cbn [ts_count]. lia.
Qed.

Lemma groups_ok key k d m :
  dir_ok d m →
  k ∈ get_keys_across_object_groups [key] d ↔
  k = key ∨ ((∃ p, m (own_pid p k) = Some p) ∧ object_group_id k ≠ object_group_id key ∧ in_group (object_group_id key) k = key).
Proof.
  intros Hd. pose proof Hd as [[_ _ _ _ _ _ H7] _]. unfold get_keys_across_object_groups. cbn [mbind list_bind]. rewrite app_nil_r, sort_by_perm, elem_of_cons.
  assert (k ∈ _get_stored_keys_in_other_groups key d ↔ k ∈ keys_at (token_bindings d) (chunk_hash key) ∧ object_group_id k ≠ object_group_id key ∧ in_group (object_group_id key) k = key) as ->.
  { unfold _get_stored_keys_in_other_groups, keys_at. destruct (dget _ _) as [b|]; cbn [from_option]; [rewrite list_elem_of_filter; tauto|]. split; [by intros ?%elem_of_nil|by intros [?%elem_of_nil _]]. }
  rewrite (bo_keys _ _ H7), (stored_iff k d m Hd). split; [tauto|]. intros [?|(? & ? & Hg)]; [by left|]. right. split_and!; try done. by rewrite <-Hg.
Qed.

(** ** Properties *)

(** C15: the directory is what was reported. In every history of deliveries - a
    batch whose key does not decode is applied up to it - and of changes of
    the chunk size: a lookup of a key returns, in order and once each, the
    placements that the specification has for it; the running counters are the
    number of keys that have a placement, and per tier the number and the bytes
    of all placements; and the expansion of a key over object groups returns it
    and the stored keys that differ in the group only. *)
Theorem directory_refines d0 calls :
  started d0 → Forall call_ok calls →
  let d := foldl run_dir d0 calls in
  let m := foldl spec_dir (λ _, None) calls in
  (∀ key, ∃ l, lookup_keys [key] d = [l] ∧ Sorted (λ p q, placement_leb p q = true) l ∧ NoDup ((λ p, own_pid p key) <$> l) ∧
     ∀ p, p ∈ l ↔ m (own_pid p key) = Some p) ∧
  (∃ keys st, directory_stats d = Ret st ∧ NoDup keys ∧ (∀ key, key ∈ keys ↔ ∃ p, m (own_pid p key) = Some p) ∧
     ds_num_keys st = length keys ∧ let ps := mjoin (lookup_keys keys d) in ds_num_placements st = Z.of_nat (length ps) ∧
     ds_l1_count st = zsum (in_tier TierL1) ps ∧ ds_l1_size_bytes st = zsum (bytes_in TierL1) ps ∧
     ds_l2_count st = zsum (in_tier TierL2) ps ∧ ds_l2_size_bytes st = zsum (bytes_in TierL2) ps) ∧
  (∀ key k, k ∈ get_keys_across_object_groups [key] d ↔
     k = key ∨ ((∃ p, m (own_pid p k) = Some p) ∧ object_group_id k ≠ object_group_id key ∧ in_group (object_group_id key) k = key)).
Proof.
  intros Hs Hc d m. destruct (dir_history_ok (λ _ _, True) calls d0 (λ _, None) Hc) as [Hd _]; [done|by apply started_dir_ok|]. fold d m in Hd.
  split; [intros key; by apply lookup_ok|]. split; [|intros key k; by apply groups_ok].
  destruct (directory_stats_ok d m Hd) as (st & E & Hst). exists (dkeys (directory d)), st. split_and!; try apply Hst; [done|apply Hd|].
  intros key. by apply stored_iff.
Qed.

(** Answers of a fragment query: each chunk at most once, with the query's
    tokens at the reported place, and stored in the namespace... *)
Definition sound_matches d m (query : list Z) ns (matches : list BlendMatch) : Prop :=
  let cs := bi_chunk_size (blend_index d) in
  NoDup (bm_chunk_hash <$> matches) ∧
  ∀ mt, mt ∈ matches → (cur_st mt + cs ≤ length query)%nat ∧ get_token_ids [bm_chunk_hash mt] d = [take cs (drop (cur_st mt) query)] ∧
    ∃ key p, chunk_hash key = bm_chunk_hash mt ∧ from_object_key key = ns ∧ m (own_pid p key) = Some p.

(** ... and a chunk stored in the namespace whose tokens stand at a probed place
    is found, or another one is at that place. *)
Definition complete_matches d m (query : list Z) ns (matches : list BlendMatch) : Prop :=
  let cs := bi_chunk_size (blend_index d) in
  let stride := bi_probe_stride (blend_index d) in
  ∀ key p j, m (own_pid p key) = Some p → from_object_key key = ns → (j * stride + cs ≤ length query)%nat →
    get_token_ids [chunk_hash key] d = [take cs (drop (j * stride) query)] →
    ∃ mt, mt ∈ matches ∧ (bm_chunk_hash mt = chunk_hash key ∨ cur_st mt = (j * stride)%nat).

Lemma blend_match_ok C d m query ns :
  no_collisions C → dir_ok d m → blend_lookup_enabled d = true → blend_ok C true (token_bindings d) (blend_index d) →
  ∃ matches, blend_match query ns d = Ret matches ∧ sound_matches d m query ns matches ∧ (positioned C → complete_matches d m query ns matches).
Proof.
  intros Hcf Hd Hen [_ Hix Hsound Hcomp]. destruct (Hix eq_refl) as (Hcs & Hst & Hi). specialize (Hsound eq_refl). specialize (Hcomp eq_refl). unfold sound_matches, complete_matches.
  set (cs := bi_chunk_size (blend_index d)) in *. set (stride := bi_probe_stride (blend_index d)) in *.
  set (c := contents_of (fingerprint_table (blend_index d))) in *. pose proof Hd as [[_ _ _ _ _ _ Hbind] _].
  assert (∀ h, get_token_ids [h] d = [from_option tb_token_ids [] (dget h (token_bindings d))]) as Htok by (intros h; cbn; by destruct (dget h (token_bindings d))).
  assert (∀ t occs, dget t c = Some occs → NoDup (dkeys occs)) as Hocc.
  { intros t occs E%dget_Some_elem. apply list_elem_of_fmap in E as ([poly e] & [= -> ->] & Hin). by apply (bv_entries _ _ _ _ Hi) in Hin as (_ & _ & _ & [? _] & _). }
  assert (blend_match query ns d = Ret (spec_match cs stride query ns c)) as Ematch.
  { unfold blend_match. rewrite Hen. cbn [negb]. exact (match_spec _ _ _ (content_collision_free _ Hcf _) _ query ns Hi Hcs). }
  exists (spec_match cs stride query ns c). split; [exact Ematch|]. unfold spec_match. destruct (Nat.ltb_spec (length query) cs) as [Hlt|Hlen].
  { split; [split; [constructor|by intros mt ?%elem_of_nil]|]. intros _ key p j _ _ Hj _. lia. }
  pose proof (match_fold cs stride c query ns Hocc (every stride (seq 0 (length query - cs + 1))).*1 [] ([], [])) as Hm.
  destruct Hm as [_ M2 M3 M4]; [split; [done|constructor|by intros ? ?%elem_of_nil|by intros ? ? ?%elem_of_nil]|]. cbn [app] in M3, M4.
  split; [split; [exact M2|]|].
  - intros mt Hmt. destruct (M3 mt Hmt) as [(j & ([j' v] & -> & [-> Hv]%elem_every_seq)%list_elem_of_fmap & Ecur) Hcl]. apply Hsound in Hcl as (b & key & Eb & Et & Hk & Hns). cbn [fst] in Ecur.
    split; [lia|]. split; [rewrite Htok, Eb; cbn; by rewrite Et|]. assert (key ∈ keys_at (token_bindings d) (bm_chunk_hash mt)) as Hkk by (unfold keys_at; by rewrite Eb).
    apply (bo_keys _ _ Hbind) in Hkk as [Hsto Hh]. apply (stored_iff key d m Hd) in Hsto as [p Hp]. by exists key, p.
  - intros Hp key p j Hm Hns Hj Ht. rewrite Htok in Ht. injection Ht as Ht.
    assert (key ∈ keys_at (token_bindings d) (chunk_hash key)) as Hkk by (apply (bo_keys _ _ Hbind); split; [apply (stored_iff key d m Hd); by exists p|done]).
    unfold keys_at in Hkk. destruct (dget (chunk_hash key) (token_bindings d)) as [b|] eqn:Eb; [|by apply elem_of_nil in Hkk]. cbn [from_option] in Ht, Hkk.
    apply M4; [apply elem_every_seq_iff; [done|lia]|]. apply Hcomp; [done|unfold window; rewrite length_take, length_drop; fold cs; lia|]. by exists b, key.
Qed.

(** C16: fragment lookups find stored chunks only, and miss none. In every
    history in which contents of one length have different fingerprints, a query
    is answered, each chunk at most once, with chunks whose tokens, as the
    directory knows them, are the query's at the reported place, and of which
    some server holds a key in the requester's namespace. If content is always
    reported with its position, then every such chunk whose tokens stand at a
    probed place of the query is matched, or another one is at that place. *)
Theorem directory_blend_match d0 calls query ns :
  started d0 → blend_lookup_enabled d0 = true → Forall call_ok calls → no_collisions (delivered_content calls) →
  let d := foldl run_dir d0 calls in
  let m := foldl spec_dir (λ _, None) calls in
  ∃ matches, blend_match query ns d = Ret matches ∧ sound_matches d m query ns matches ∧
    (positioned (delivered_content calls) → complete_matches d m query ns matches).
Proof.
  intros Hs He Hc Hcf d m.
  destruct (dir_history_ok (delivered_content calls) calls d0 (λ _, None) Hc) as (Hd & Hen & _ & Hb); [done|by apply started_dir_ok|]. fold d m in Hd, Hen, Hb.
  specialize (Hb Hcf (started_blend_ok _ _ Hs)). rewrite Hen, He in Hb. apply (blend_match_ok (delivered_content calls)); [done|done|congruence|done].
Qed.

(** *** Witnesses *)

Definition demo_start : KeyDirectory :=
  match new_directory with Ret d => (enable_blend_lookup 2 1 d).2 | Raise _ => mkDirectory [] [] [] [] (mkBlend 0 0 [] [] 0 0 0 []) false None 0 end.

Lemma demo_started : started demo_start ∧ blend_lookup_enabled demo_start = true.
Proof.
  split; [|vm_compute; reflexivity]. unfold demo_start. destruct new_directory as [d|] eqn:E; [|vm_compute in E; discriminate E].
  exists d. split; [done|]. right. exists 2, 1. injection E as <-. vm_compute. reflexivity.
Qed.

Definition content_entry (h : string) (tokens : list Z) (off : Z) : CacheEventEntry := mkEventEntry (mkEncoded h "m" 16777216 0 "u1" ∅) 10 tokens off.

Definition demo_history : list dir_call :=
  [Deliver (Delivered (example_batch "s1" TierL1 STORE false 1 [content_entry "0a" [1; 2] 0; content_entry "0b" [3; 4] 2]));
   Deliver (Delivered (example_batch "s2" TierL2 STORE false 1 [content_entry "0a" [1; 2] 0; content_entry "zz" [1; 2] 0]));
   Deliver (Fenced "s1")].

Lemma demo_history_ok : Forall call_ok demo_history.
Proof. assert (Forall delivery_ok (omap (λ c, match c with Deliver x => Some x | Bind _ => None end) demo_history)) as H by (apply deliveries_okb; vm_compute; reflexivity).
  cbn in H. rewrite !Forall_cons in H. destruct H as (? & ? & ? & _). unfold demo_history. rewrite !Forall_cons. split; [assumption|]. split; [assumption|]. split; [assumption|]. by apply Forall_nil. Qed.

Lemma directory_refines_witness :
  let d := foldl run_dir demo_start demo_history in
  (∃ st, directory_stats d = Ret st ∧ ds_num_keys st = 1%nat ∧ ds_l1_count st = 0 ∧ ds_l2_size_bytes st = 10) ∧
  ∀ key, ∃ l, lookup_keys [key] d = [l] ∧ Sorted (λ p q, placement_leb p q = true) l ∧ NoDup ((λ p, own_pid p key) <$> l) ∧
     ∀ p, p ∈ l ↔ foldl spec_dir (λ _, None) demo_history (own_pid p key) = Some p.
Proof.
  intros d. split; [eexists; split; [vm_compute; reflexivity|]; vm_compute; done|].
  exact (proj1 (directory_refines demo_start demo_history (proj1 demo_started) demo_history_ok)).
Defined.

Lemma demo_contents t off : delivered_content demo_history t off → t = [1; 2] ∨ t = [3; 4].
Proof.
  intros (b & e & Hin & He & <- & _). unfold demo_history in Hin. rewrite !elem_of_cons in Hin.
  destruct Hin as [[= ->]|[[= ->]|[?|?%elem_of_nil]]]; [| |done|done]; cbn [example_batch entries] in He; rewrite !elem_of_cons in He;
    destruct He as [->|[->|?%elem_of_nil]]; try done; [by left|by right|by left|by left].
Qed.

Lemma directory_blend_match_witness :
  let d := foldl run_dir demo_start demo_history in
  ∃ matches, blend_match [9; 1; 2; 3; 4] (mkNamespace "m" "u1" 1) d = Ret matches ∧ matches = [mkMatch [x0a] 0 1] ∧
    sound_matches d (foldl spec_dir (λ _, None) demo_history) [9; 1; 2; 3; 4] (mkNamespace "m" "u1" 1) matches.
Proof.
  intros d. destruct (directory_blend_match demo_start demo_history [9; 1; 2; 3; 4] (mkNamespace "m" "u1" 1) (proj1 demo_started) (proj2 demo_started) demo_history_ok) as (matches & E & Hn & _).
  - intros t t' o o' [->| ->]%demo_contents [->| ->]%demo_contents _ Hf; [reflexivity|vm_compute in Hf; discriminate Hf|vm_compute in Hf; discriminate Hf|reflexivity].
  - exists matches. split; [exact E|]. split; [|exact Hn]. vm_compute in E. injection E as <-. reflexivity.
Defined.
