(* ===== verification/DirectoryRestore.v ===== *)
(** * Restarting the key directory

    A captured directory, restored at start-up, is the directory again. *)

From stdpp Require Import gmap list strings sorting.
From Stdlib Require Import ZArith Lia.
From Stdlib.Strings Require Import Byte.
From S2P Require Import Prelude Keys PyFloat Handler TokenHasher BlendIndex EventGate Placements KeyDirectory KeyDirectoryInv DirectoryBlend DirectoryProps.

Open Scope Z_scope.
Open Scope py_scope.
Open Scope handler_scope.

Implicit Types (d : KeyDirectory) (key : ObjectKey) (tb : dict (list byte) TokenBinding) (ks : dict ObjectKey KeyRecord).

(** ** Encodings *)

Lemma frombytes_le_words ts : frombytes (le_words ts) = native_word true <$> ts.
Proof.
  induction ts as [|t ts IH]; [done|]. change (le_words (t :: ts)) with (native_word true t ++ le_words ts). destruct (be_bytes_4 t) as (a & b & c & e & E).
  rewrite fmap_cons. assert (native_word true t = [e; c; b; a]) as -> by (unfold native_word; by rewrite E). cbn [app frombytes]. by rewrite IH.
Qed.

Lemma le_words_roundtrip ts : forallb fits_u32 ts = true → from_le_words (le_words ts) = Ret ts.
Proof.
  intros Hf. assert (length (le_words ts) = (4 * length ts)%nat) as El.
  { clear Hf. induction ts as [|t ts IH]; [done|]. change (le_words (t :: ts)) with (native_word true t ++ le_words ts). rewrite length_app, IH. unfold native_word.
    rewrite length_reverse, length_be_bytes. cbn. lia. }
  unfold from_le_words. rewrite El.
  replace (Z.of_nat (4 * length ts) mod 4 =? 0) with true
    by (symmetry; apply Z.eqb_eq; rewrite Nat2Z.inj_mul; apply Z.mod_divide; [lia|]; by exists (Z.of_nat (length ts)); lia).
  cbn [negb]. rewrite frombytes_le_words. f_equal. clear El. induction ts as [|t ts IH]; [done|]. cbn [forallb] in Hf. apply andb_true_iff in Hf as [Ht Hts].
  rewrite !fmap_cons, IH by done. f_equal. unfold native_value, native_word. by rewrite reverse_involutive, be_value_bytes, fits_u32_mod.
Qed.

Lemma decode_placements ps : py_map _decode_placement (_encode_placement <$> ps) = Ret ps.
Proof.
  induction ps as [|p ps IH]; [done|]. rewrite fmap_cons. cbn [py_map]. rewrite IH. destruct p as [id inc t bk size sh]. by destruct t.
Qed.

(** ** The keys *)

(** Content is not there yet. *)
Definition blank tb : Prop := ∀ h b, dget h tb = Some b → tb_token_ids b = [].

Lemma count_placements_run ps d ks ks' :
  tracks ks (placement_stats d) → (∀ p, p ∈ ps → pl_tier p ≠ TierALL) → (∀ f, weigh f ks' = weigh f ks + zsum f ps) →
  ∃ st, h_iter (λ p, _adjust_placement_stats p 1 (pl_size_bytes p)) ps d = (Ret tt, set_placement_stats st d) ∧ tracks ks' st.
Proof.
  intros Ht Hps Hw.
  assert (∀ wc wb, counters wc wb (placement_stats d) → ∃ st, h_iter (λ p, _adjust_placement_stats p 1 (pl_size_bytes p)) ps d = (Ret tt, set_placement_stats st d) ∧
    counters (λ t, wc t + zsum (in_tier t) ps) (λ t, wb t + zsum (bytes_in t) ps) st) as Hrun.
  { clear Ht Hw. revert d Hps. induction ps as [|p ps IH]; intros d Hps wc wb Hc.
    - exists (placement_stats d). split; [by destruct d|]. intros t. rewrite Hc, !zsum_nil, !Z.add_0_r. done.
    - cbn [h_iter]. unfold h_bind, _adjust_placement_stats at 1. rewrite Hc, decide_False by (apply Hps; left).
      destruct (IH (set_placement_stats (dset (pl_tier p) (mkTierStats (wc (pl_tier p) + 1) (wb (pl_tier p) + pl_size_bytes p)) (placement_stats d)) d)
        (λ q Hq, Hps q (list_elem_of_further _ _ _ Hq)) (λ t, wc t + in_tier t p) (λ t, wb t + bytes_in t p)) as (st & E & Hst).
      { intros t. cbn [set_placement_stats placement_stats]. rewrite dget_dset, Hc. unfold in_tier, bytes_in.
        destruct (decide (pl_tier p = t)) as [<-|]; [by rewrite decide_False by (apply Hps; left)|]. by rewrite !Z.add_0_r. }
      exists st. split; [exact E|]. intros t. rewrite Hst, !zsum_cons. destruct (decide _); [done|]. do 2 f_equal; lia. }
  destruct (Hrun _ _ Ht) as (st & E & Hst). exists st. split; [exact E|]. intros t. by rewrite Hst, !Hw.
Qed.

Lemma restore_key_run C d kt key r :
  key ∉ dkeys (directory d) → valid_key key → tags key = ∅ → (∀ p, p ∈ rec_placements r → pl_tier p ≠ TierALL) →
  tracks (directory d) (placement_stats d) → bindings_ok (dkeys (directory d)) (token_bindings d) → blank (token_bindings d) →
  ∃ d', restore_key kt (encode_key key, last_access r, access_count r, _encode_placement <$> rec_placements r) d = (Ret (kt ++ [key]), d') ∧
    directory d' = directory d ++ [(key, r)] ∧ tracks (directory d') (placement_stats d') ∧ bindings_ok (dkeys (directory d')) (token_bindings d') ∧
    blank (token_bindings d') ∧ l1_keys_by_instance d' = l1_keys_by_instance d ∧ blend_trace C d d'.
Proof.
  intros Hk Hv Htag Hps Ht Hb Hbl. unfold restore_key, h_bind at 1 2, h_lift. rewrite decode_encode_key, (proj2 (untagged_id _) Htag), decode_placements by done.
  destruct (existsb _ (rec_placements r)) eqn:Ex.
  { exfalso. apply existsb_exists in Ex as (p & Hp%list_elem_of_In & Ex). apply bool_decide_eq_true in Ex. by apply (Hps p). }
  unfold h_bind at 1, h_modify. replace (mkRecord (rec_placements r) (last_access r) (access_count r)) with r by (by destruct r).
  set (d1 := set_record key r d). assert (directory d1 = directory d ++ [(key, r)]) as E1 by (by apply dset_notin).
  destruct (count_placements_run (rec_placements r) d1 (directory d) (directory d1)) as (st & E2 & Ht2); [done|done| |].
  { intros f. unfold d1, set_record. cbn [set_directory directory]. rewrite weigh_dset, held_notin by done. rewrite zsum_nil. lia. }
  unfold h_bind at 1. rewrite E2. set (d2 := set_placement_stats st d1). destruct (add_effect key d2) as (x & Ex2 & E3). unfold h_bind. rewrite E3.
  eexists. split; [reflexivity|]. cbn [set_blend_index set_bindings directory placement_stats token_bindings l1_keys_by_instance].
  split_and!; [done|done| | |done|].
  - apply (joined_ok (dkeys (directory d))); [done|]. intros k. apply elem_dkeys_dset.
  - intros h b. rewrite dget_dset. destruct (decide _); [|apply Hbl]. intros [= <-]. unfold joined. cbn [d2 set_placement_stats token_bindings d1 set_record set_directory].
    destruct (dget (chunk_hash key) (token_bindings d)) as [b|] eqn:Eb; [exact (Hbl _ _ Eb)|done].
  - etrans; [by apply (trace_frame C d d2)|]. apply rtc_once. split; [|done]. by apply (bs_add C _ _ key).
Qed.

Definition restorable ks : Prop := ∀ key r, (key, r) ∈ ks → valid_key key ∧ tags key = ∅ ∧ ∀ p, p ∈ rec_placements r → pl_tier p ≠ TierALL.

Lemma restore_keys_run C l d kt :
  NoDup (dkeys (directory d ++ l)) → restorable l → tracks (directory d) (placement_stats d) → bindings_ok (dkeys (directory d)) (token_bindings d) → blank (token_bindings d) →
  ∃ d', h_fold restore_key kt ((λ q : ObjectKey * KeyRecord, (encode_key q.1, last_access q.2, access_count q.2, _encode_placement <$> rec_placements q.2)) <$> l) d = (Ret (kt ++ dkeys l), d') ∧
    directory d' = directory d ++ l ∧ tracks (directory d') (placement_stats d') ∧ bindings_ok (dkeys (directory d')) (token_bindings d') ∧
    blank (token_bindings d') ∧ l1_keys_by_instance d' = l1_keys_by_instance d ∧ blend_trace C d d'.
Proof.
  revert d kt. induction l as [|[key r] l IH]; intros d kt Hn Hr Ht Hb Hbl; [exists d; rewrite !app_nil_r; by split_and!|].
  destruct (Hr key r) as (Hv & Htag & Hps); [left|]. rewrite fmap_cons. cbn [h_fold fst snd].
  assert (key ∉ dkeys (directory d)) as Hk. { unfold dkeys in *. rewrite map_app in Hn. apply NoDup_app in Hn as (_ & Hx & _). intros Hin. apply (Hx key Hin). left. }
  destruct (restore_key_run C d kt key r Hk Hv Htag Hps Ht Hb Hbl) as (d1 & E1 & Ed1 & Ht1 & Hb1 & Hbl1 & El1 & Htr1). unfold h_bind. rewrite E1.
  destruct (IH d1 (kt ++ [key])) as (d2 & E2 & Ed2 & Ht2 & Hb2 & Hbl2 & El2 & Htr2); try done.
  { rewrite Ed1, <-app_assoc. exact Hn. } { intros k r' Hin. apply Hr. by right. }
  exists d2. rewrite Ed1, <-app_assoc in Ed2. split_and!; [|exact Ed2|done|done|done|congruence|by etrans]. rewrite E2. by rewrite <-app_assoc.
Qed.

(** ** The bindings *)

(** What the directory knows of a chunk's content. *)
Definition content_at tb (h : list byte) : list Z * Z := from_option (λ b, (tb_token_ids b, tb_token_offset b)) ([], UNKNOWN_TOKEN_OFFSET) (dget h tb).

(** Filling a blank binding is a store of its content. *)
Lemma restore_binding_run (C : list Z → Z → Prop) d h tokens off b :
  bindings_ok (dkeys (directory d)) (token_bindings d) → dget h (token_bindings d) = Some b → tb_token_ids b = [] → forallb fits_u32 tokens = true → C tokens off →
  ∃ x, let d' := set_blend_index x (set_binding h (mkBinding tokens off (tb_keys b)) d) in
    restore_binding (h, off, le_words tokens) d = (Ret tt, d') ∧ bindings_ok (dkeys (directory d')) (token_bindings d') ∧ blend_trace C d d'.
Proof.
  intros Hb Eb Ebl Hf HC. destruct (tb_keys b) as [|key keys] eqn:Ek; [by destruct (bo_nonempty _ _ Hb _ _ Eb)|].
  assert (key ∈ keys_at (token_bindings d) h) as Hkey by (unfold keys_at; rewrite Eb; cbn; rewrite Ek; left).
  pose proof Hkey as [_ Hh]%(bo_keys _ _ Hb). set (e := mkEventEntry (mkEncoded "" "" 0 0 "" ∅) 0 tokens off).
  set (b' := mkBinding tokens off (key :: keys)).
  assert (created key e d = dset h b' (token_bindings d)) as Ec by (unfold created, as_uint32; cbn [e ev_token_ids ev_token_offset]; rewrite Hf, Hh, Eb, Ek; done).
  assert (create_ops key e d = claim_ops (blend_lookup_enabled d) h b' (key :: keys)) as Eo.
  { unfold create_ops, as_uint32. cbn [e ev_token_ids ev_token_offset]. rewrite Hf, Hh, Eb. cbv zeta. rewrite Ebl, !(bool_decide_true ([] = [])) by done.
    cbn [negb]. rewrite !andb_false_r, orb_true_r, Ek. done. }
  assert (binding_effect (restore_binding (h, off, le_words tokens)) (dset h b' (token_bindings d)) (claim_ops (blend_lookup_enabled d) h b' (key :: keys)) d) as (x & Ex & Er).
  { unfold restore_binding, binding_effect, h_bind at 1, h_get. rewrite Eb. unfold h_bind at 1, h_lift. rewrite le_words_roundtrip by done. rewrite Ek. fold b'.
    rewrite <-(app_nil_l (claim_ops _ _ _ _)). eapply effect_seq; [apply effect_modify|]. intros x. apply (claims_effect _ _ _ (set_blend_index x (set_bindings _ d))). }
  exists x. cbv zeta. split_and!; [exact Er| |].
  - cbn [set_blend_index set_binding set_bindings token_bindings directory]. fold b'. rewrite <-Ec. by apply created_ok.
  - apply rtc_once. split; [|done]. apply (bs_create C _ _ key e); [done|by rewrite Hh|by rewrite Ec|by rewrite Eo].
Qed.

Lemma restore_bindings_run (C : list Z → Z → Prop) (l : dict (list byte) TokenBinding) d :
  bindings_ok (dkeys (directory d)) (token_bindings d) → NoDup (dkeys l) →
  (∀ h b, (h, b) ∈ l → forallb fits_u32 (tb_token_ids b) = true ∧ C (tb_token_ids b) (tb_token_offset b) ∧ ∃ b', dget h (token_bindings d) = Some b' ∧ tb_token_ids b' = []) →
  ∃ d', h_iter restore_binding ((λ q : list byte * TokenBinding, (q.1, tb_token_offset q.2, le_words (tb_token_ids q.2))) <$> l) d = (Ret tt, d') ∧
    directory d' = directory d ∧ placement_stats d' = placement_stats d ∧ l1_keys_by_instance d' = l1_keys_by_instance d ∧
    bindings_ok (dkeys (directory d')) (token_bindings d') ∧ blend_trace C d d' ∧
    ∀ h, content_at (token_bindings d') h = if decide (h ∈ dkeys l) then content_at l h else content_at (token_bindings d) h.
Proof.
  revert d. induction l as [|[h b] l IH]; intros d Hb Hn Hl; [exists d; split_and!; try done; intros h; by rewrite decide_False by apply not_elem_of_nil|].
  change (dkeys ((h, b) :: l)) with (h :: dkeys l) in *. apply NoDup_cons in Hn as [Hni Hn]. destruct (Hl h b) as (Hf & HC & b' & Eb & Ebl); [left|].
  destruct (restore_binding_run C d h (tb_token_ids b) (tb_token_offset b) b' Hb Eb Ebl Hf HC) as (x & E1 & Hb1 & Htr1). rewrite fmap_cons. cbn [h_iter fst snd]. unfold h_bind.
  cbv zeta in E1, Hb1, Htr1. rewrite E1. set (d1 := set_blend_index x _) in *.
  destruct (IH d1 Hb1 Hn) as (d2 & E2 & Ed & Es & El & Hb2 & Htr2 & Hc2).
  { intros h1 b1 Hin. destruct (Hl h1 b1) as (? & ? & b2 & ? & ?); [by right|]. split_and!; [done|done|]. exists b2. split; [|done].
    cbn [d1 set_blend_index set_binding set_bindings token_bindings]. rewrite dget_dset_ne; [done|]. intros <-. apply Hni. apply list_elem_of_fmap. by exists (h, b1). }
  exists d2. split_and!; [exact E2|done|done|done|done|by etrans|]. intros h1. rewrite Hc2. unfold content_at at 3. cbn [dget].
  destruct (decide (h = h1)) as [<-|Hne].
  - rewrite decide_False, (decide_True (P := h ∈ h :: dkeys l)) by (done || left). unfold content_at. cbn [d1 set_blend_index set_binding set_bindings token_bindings]. by rewrite dget_dset_eq.
  - fold (content_at l h1). destruct (decide (h1 ∈ dkeys l)) as [Hin|Hin]; [by rewrite (decide_True (P := h1 ∈ h :: dkeys l)) by (by right)|].
    rewrite (decide_False (P := h1 ∈ h :: dkeys l)) by (intros [->|?]%elem_of_cons; done). unfold content_at. cbn [d1 set_blend_index set_binding set_bindings token_bindings]. by rewrite dget_dset_ne.
Qed.

(** ** The index of L1 keys *)

Lemma position_spec key d i : position_of key d = Some i → 0 <= i < Z.of_nat (length (dkeys (directory d))) ∧ dkeys (directory d) !! Z.to_nat i = Some key.
Proof.
  unfold position_of. intros ([n k] & (Hi & -> & _)%list_find_Some & ->)%fmap_Some. cbn [fst]. pose proof (lookup_lt_Some _ _ _ Hi). rewrite Nat2Z.id. split; [lia|done].
Qed.
Lemma position_present key d : key ∈ dkeys (directory d) → is_Some (position_of key d).
Proof.
  intros Hk. unfold position_of. rewrite fmap_is_Some. destruct (list_find (eq key) (dkeys (directory d))) eqn:E; [by eexists|].
  apply list_find_None in E. rewrite Forall_forall in E. by destruct (E key Hk).
Qed.

Lemma positions_in keys d positions : positions = omap (λ key, position_of key d) keys →
  existsb (λ i, negb ((0 <=? i) && (i <? Z.of_nat (length (dkeys (directory d)))))) positions = false.
Proof.
  intros ->. apply not_true_iff_false. intros (i & Hi%list_elem_of_In & Hn)%existsb_exists. apply list_elem_of_omap in Hi as (key & _ & [Hr _]%position_spec).
  apply negb_true_iff, andb_false_iff in Hn as [Hn|Hn]; [apply Z.leb_gt in Hn|apply Z.ltb_ge in Hn]; lia.
Qed.

Lemma keys_of_positions (kt : list ObjectKey) positions key i :
  i ∈ positions → kt !! Z.to_nat i = Some key →
  key ∈ foldl (λ s position, match kt !! Z.to_nat position with Some key => oset_set key s | None => s end) [] positions.
Proof.
  intros Hi Hk. induction positions as [|j l IH] using rev_ind; [by apply elem_of_nil in Hi|]. rewrite foldl_app. cbn [foldl]. apply elem_of_app in Hi as [Hi|Hi].
  - specialize (IH Hi). destruct (kt !! Z.to_nat j); [|done]. apply elem_of_oset_set. by left.
  - apply list_elem_of_singleton in Hi as ->. rewrite Hk. apply elem_of_oset_set. by right.
Qed.

Lemma restore_l1_run d0 (l : dict string (list ObjectKey)) d :
  NoDup (dkeys l) →
  ∃ d', h_iter (restore_l1_keys (dkeys (directory d0))) ((λ q : string * list ObjectKey, (q.1, omap (λ key, position_of key d0) q.2)) <$> l) d = (Ret tt, d') ∧
    directory d' = directory d ∧ placement_stats d' = placement_stats d ∧ token_bindings d' = token_bindings d ∧ blend_index d' = blend_index d ∧
    blend_lookup_enabled d' = blend_lookup_enabled d ∧ (NoDup (dkeys (l1_keys_by_instance d)) → NoDup (dkeys (l1_keys_by_instance d'))) ∧
    ∀ id key, key ∈ dkeys (directory d0) → key ∈ default [] (dget id l) → key ∈ default [] (dget id (l1_keys_by_instance d')).
Proof.
  intros Hn. assert (∀ l d, ∃ d', h_iter (restore_l1_keys (dkeys (directory d0))) ((λ q : string * list ObjectKey, (q.1, omap (λ key, position_of key d0) q.2)) <$> l) d = (Ret tt, d') ∧
    directory d' = directory d ∧ placement_stats d' = placement_stats d ∧ token_bindings d' = token_bindings d ∧ blend_index d' = blend_index d ∧
    blend_lookup_enabled d' = blend_lookup_enabled d ∧ (NoDup (dkeys (l1_keys_by_instance d)) → NoDup (dkeys (l1_keys_by_instance d'))) ∧ (NoDup (dkeys l) → ∀ id, id ∉ dkeys l → dget id (l1_keys_by_instance d') = dget id (l1_keys_by_instance d)) ∧
    (NoDup (dkeys l) → ∀ id key, key ∈ dkeys (directory d0) → key ∈ default [] (dget id l) → key ∈ default [] (dget id (l1_keys_by_instance d')))) as Hrun.
  { clear Hn l d. induction l as [|[id0 keys] l IH]; intros d; [exists d; split_and!; try done; by intros _ id key _ ?%elem_of_nil|].
    rewrite fmap_cons. cbn [h_iter fst snd]. unfold h_bind at 1, restore_l1_keys at 1. cbn [fst snd]. rewrite (positions_in keys d0 _ eq_refl). unfold h_modify.
    set (s := foldl _ [] (omap _ keys)). set (d1 := set_l1_keys (dset id0 s (l1_keys_by_instance d)) d).
    destruct (IH d1) as (d2 & E2 & H1 & H2 & H3 & H4 & H5 & Hnd & H6 & H7). exists d2. split_and!; try done; change (dkeys ((id0, keys) :: l)) with (id0 :: dkeys l).
    - intros Hnl. apply Hnd. by apply NoDup_dset.
    - intros [Hni Hn]%NoDup_cons id [Hne Hid]%not_elem_of_cons. rewrite H6 by done. cbn [d1 set_l1_keys l1_keys_by_instance]. by rewrite dget_dset_ne.
    - intros [Hni Hn]%NoDup_cons id key Hk. cbn [dget]. destruct (decide (id0 = id)) as [<-|]; [|by apply H7]. rewrite H6 by done. cbn [d1 set_l1_keys l1_keys_by_instance]. rewrite dget_dset_eq.
      cbn [default]. intros Hin. destruct (position_present key d0 Hk) as [i Ei]. eapply keys_of_positions; [|apply (position_spec _ _ _ Ei)]. apply list_elem_of_omap. by exists key. }
  destruct (Hrun l d) as (d' & ? & ? & ? & ? & ? & ? & ? & _ & ?). exists d'. split_and!; auto.
Qed.

(** ** Restoring *)

Lemma restore_directory_run C d0 d m :
  started d0 → dir_ok d m → (∀ key, key ∈ dkeys (directory d) → valid_key key ∧ tags key = ∅) →
  (∀ h b, dget h (token_bindings d) = Some b → C (tb_token_ids b) (tb_token_offset b)) →
  ∃ d', restore_directory (capture_directory d) d0 = (Ret tt, d') ∧ dir_ok d' m ∧ directory d' = directory d ∧ blend_trace C d0 d' ∧
    ∀ h, content_at (token_bindings d') h = content_at (token_bindings d) h.
Proof.
  intros Hs [[H1 H2 H3 H4 H5 [H6n H6] H7] Hw] Hv HC. pose proof (started_dir_ok d0 Hs) as [[_ _ _ _ S5 _ S7] _].
  assert (directory d0 = [] ∧ l1_keys_by_instance d0 = [] ∧ token_bindings d0 = []) as (Ed0 & El0 & Et0).
  { destruct Hs as (d00 & E0 & [->|(cs & stride & E)]); injection E0 as <-; [done|]. unfold enable_blend_lookup in E. destruct (new_blend_index cs stride); [|done]. by injection E as <-. }
  unfold restore_directory, h_bind at 1, h_get. rewrite Ed0, El0. cbn [capture_directory cd_keys cd_bindings cd_l1_keys].
  destruct (restore_keys_run C (directory d) d0 []) as (d1 & E1 & Ed1 & Ht1 & Hb1 & Hbl1 & El1 & Htr1); [by rewrite Ed0| |done|done|by intros h b; rewrite Et0|].
  { intros key r Hin. destruct (Hv key) as [? ?]; [apply list_elem_of_fmap; by exists (key, r)|]. split_and!; [done|done|]. intros p Hp.
    assert (p ∈ held (directory d) key) as Hh%H4 by (unfold held; by rewrite (elem_dget _ _ _ H1 Hin)). by apply Hw in Hh as (_ & ? & _). }
  unfold h_bind at 1. rewrite E1. cbn [app]. rewrite Ed0 in Ed1. cbn [app] in Ed1.
  destruct (restore_bindings_run C (token_bindings d) d1 Hb1 (bo_nodup _ _ H7)) as (d2 & E2 & Ed2 & Es2 & El2 & Hb2 & Htr2 & Hc2).
  { intros h b Hin. pose proof (elem_dget _ _ _ (bo_nodup _ _ H7) Hin) as Eb. split; [by apply (bo_fits _ _ H7 h)|]. split; [by apply (HC h)|].
    assert (∃ key, key ∈ keys_at (token_bindings d) h) as (key & [Hk <-]%(bo_keys _ _ H7)).
    { unfold keys_at. rewrite Eb. cbn. destruct (tb_keys b) as [|k l] eqn:Ek; [by destruct (bo_nonempty _ _ H7 h b)|]. exists k. left. }
    rewrite <-Ed1 in Hk. destruct (bindings_present _ _ key Hb1 Hk) as [b' Eb']. exists b'. split; [done|by apply (Hbl1 _ _ Eb')]. }
  unfold h_bind at 1. rewrite E2. destruct (restore_l1_run d (l1_keys_by_instance d) d2 H6n) as (d3 & E3 & Ed3 & Es3 & Et3 & Ex3 & Een3 & Hn3 & Hl3).
  exists d3. assert (directory d3 = directory d) as Ed by congruence. split_and!; [exact E3| |done| |].
  - split; [|done]. split; rewrite ?Ed; try done.
    + rewrite Es3, Es2, <-Ed1. exact Ht1.
    + split; [apply Hn3; rewrite El2, El1, El0; constructor|]. intros k p Hp Ht. apply Hl3; [|by apply H6]. apply (stored_iff k d m); [by split|]. exists p. by apply H4.
    + rewrite Et3. by rewrite Ed2, Ed1 in Hb2.
  - etrans; [exact Htr1|]. etrans; [exact Htr2|]. by apply trace_frame.
  - intros h. rewrite Et3, Hc2. destruct (decide (h ∈ dkeys (token_bindings d))) as [|Hn]; [done|]. unfold content_at. rewrite (proj2 (dget_None _ _) Hn).
    destruct (dget h (token_bindings d1)) as [b|] eqn:Eb; [|done]. exfalso. apply Hn.
    destruct (tb_keys b) as [|k l] eqn:Ek; [by destruct (bo_nonempty _ _ Hb1 h b)|].
    assert (k ∈ keys_at (token_bindings d1) h) as [Hk <-]%(bo_keys _ _ Hb1) by (unfold keys_at; rewrite Eb; cbn; rewrite Ek; left).
    rewrite Ed1 in Hk. by apply dget_is_Some, (bindings_present (dkeys (directory d))).
Qed.

(** Contents together with the empty one. *)
Definition or_empty (C : list Z → Z → Prop) (t : list Z) (off : Z) : Prop := t = [] ∨ C t off.

Lemma no_collisions_or_empty C : no_collisions C → no_collisions (or_empty C).
Proof.
  intros Hcf t t' o o' [->|Ht] [->|Ht'] Hl Hf; [done| | |by eapply Hcf].
  - destruct t'; done.
  - destruct t; done.
Qed.

(** ** Two directories of one specification *)

Lemma weigh_keys f ks : NoDup (dkeys ks) → weigh f ks = zsum (λ key, zsum f (held ks key)) (dkeys ks).
Proof.
  intros Hn. etransitivity; [|symmetry; exact (zsum_fmap (λ key, zsum f (held ks key)) fst ks)]. apply zsum_ext. intros [key r] Hin. cbn [fst snd].
  unfold held. by rewrite (elem_dget _ _ _ Hn Hin).
Qed.

Section same.
Context (e e' : KeyDirectory) (m : placements) (He : dir_ok e m) (He' : dir_ok e' m).

Lemma same_held key : held (directory e) key ≡ₚ held (directory e') key.
Proof.
  destruct He as [[_ _ H3 H4 _ _ _] _], He' as [[_ _ H3' H4' _ _ _] _]. apply NoDup_Permutation; [by eapply NoDup_fmap_1, H3|by eapply NoDup_fmap_1, H3'|].
  intros p. by rewrite H4, H4'.
Qed.

Lemma same_keys : dkeys (directory e) ≡ₚ dkeys (directory e').
Proof.
  apply NoDup_Permutation; [apply He|apply He'|]. intros key. by rewrite (stored_iff key e m He), (stored_iff key e' m He').
Qed.

Lemma same_weigh f : weigh f (directory e) = weigh f (directory e').
Proof.
  rewrite !weigh_keys by (apply He || apply He'). rewrite (zsum_perm _ _ _ same_keys). apply zsum_ext. intros key _. apply zsum_perm, same_held.
Qed.

Lemma same_stats :
  ∃ st st', directory_stats e = Ret st ∧ directory_stats e' = Ret st' ∧ ds_num_keys st = ds_num_keys st' ∧ ds_l1_count st = ds_l1_count st' ∧
    ds_l1_size_bytes st = ds_l1_size_bytes st' ∧ ds_l2_count st = ds_l2_count st' ∧ ds_l2_size_bytes st = ds_l2_size_bytes st'.
Proof.
  unfold directory_stats. pose proof He as [[_ _ _ _ H5 _ _] _]. pose proof He' as [[_ _ _ _ H5' _ _] _]. rewrite (H5 TierL1), (H5 TierL2), (H5' TierL1), (H5' TierL2).
  do 2 eexists. split; [reflexivity|]. split; [reflexivity|]. cbn [ds_num_keys ds_l1_count ds_l1_size_bytes ds_l2_count ds_l2_size_bytes ts_count ts_size_bytes].
  rewrite !same_weigh. split_and!; try done. pose proof (Permutation_length same_keys) as Hl. unfold dkeys in Hl. by rewrite !length_map in Hl.
Qed.

Lemma same_lookup key : ∃ l l', lookup_keys [key] e = [l] ∧ lookup_keys [key] e' = [l'] ∧ l ≡ₚ l'.
Proof.
  assert (∀ d, lookup_keys [key] d = [sort_by placement_leb (held (directory d) key)]) as E by (intros d; unfold lookup_keys, held; cbn; by destruct (dget key (directory d))).
  rewrite !E. do 2 eexists. split; [done|]. split; [done|]. rewrite !sort_by_perm. apply same_held.
Qed.
End same.

(** C18: a coordinator that restarts has its directory back, if no key in it has
    tags. The state a history leaves in which every key is valid and untagged (a
    checkpoint drops tags), captured and restored into a directory at start-up, is
    accepted, and the restored directory has the same records, contents and access
    counts. Whatever both are given afterwards, their lookups of a key return the
    same placements, in an order of their own, and their counters agree; and if
    the restored one has fragment lookup on and contents do not collide, its
    answers stay sound (they need not be those of the other). *)
Theorem directory_capture_restore d0 d1 calls more :
  started d0 → started d1 → Forall call_ok calls → Forall call_ok more →
  let d := foldl run_dir d0 calls in
  (∀ key, key ∈ dkeys (directory d) → valid_key key ∧ tags key = ∅) →
  ∃ d', restore_directory (capture_directory d) d1 = (Ret tt, d') ∧
    (∀ keys, lookup_keys keys d' = lookup_keys keys d ∧ get_access_counts keys d' = get_access_counts keys d) ∧
    (∀ hashes, get_token_ids hashes d' = get_token_ids hashes d) ∧
    let e := foldl run_dir d more in
    let e' := foldl run_dir d' more in
    (∀ key, ∃ l l', lookup_keys [key] e = [l] ∧ lookup_keys [key] e' = [l'] ∧ l ≡ₚ l') ∧
    (∃ st st', directory_stats e = Ret st ∧ directory_stats e' = Ret st' ∧ ds_num_keys st = ds_num_keys st' ∧ ds_l1_count st = ds_l1_count st' ∧
       ds_l1_size_bytes st = ds_l1_size_bytes st' ∧ ds_l2_count st = ds_l2_count st' ∧ ds_l2_size_bytes st = ds_l2_size_bytes st') ∧
    (blend_lookup_enabled d1 = true → no_collisions (delivered_content (calls ++ more)) → ∀ query ns, ∃ matches,
       blend_match query ns e' = Ret matches ∧ sound_matches e' (foldl spec_dir (λ _, None) (calls ++ more)) query ns matches).
Proof.
  intros Hs0 Hs1 Hc Hm d Hv. set (C := or_empty (delivered_content (calls ++ more))).
  assert (∀ t o, delivered_content calls t o → C t o) as HC1 by (intros t o (b & e & ? & ?); right; exists b, e; split; [apply elem_of_app; by left|done]).
  assert (∀ t o, delivered_content more t o → C t o) as HC2 by (intros t o (b & e & ? & ?); right; exists b, e; split; [apply elem_of_app; by right|done]).
  destruct (dir_history_ok C calls d0 (λ _, None) Hc HC1 (started_dir_ok _ Hs0)) as (Hd & _ & Hcont & _). fold d in Hd, Hcont.
  destruct (restore_directory_run C d1 d _ Hs1 Hd Hv) as (d' & E & Hd' & Edir & Htr & Hca).
  { intros h b Eb. destruct (Hcont (bk_content _ _ _ _ (started_blend_ok C d0 Hs0)) h b Eb) as [?|?]; [by left|done]. }
  exists d'. split; [exact E|]. split; [intros keys; unfold lookup_keys, get_access_counts; by rewrite Edir|]. split.
  { intros hashes. unfold get_token_ids. apply list_fmap_ext. intros _ h _. specialize (Hca h). unfold content_at in Hca.
    destruct (dget h (token_bindings d')), (dget h (token_bindings d)); cbn in Hca; congruence. }
  destruct (dir_history_ok C more d _ Hm HC2 Hd) as (He & _ & _ & _). destruct (dir_history_ok C more d' _ Hm HC2 Hd') as (He' & Hen & _ & Hb').
  cbv zeta. split; [by eapply same_lookup|]. split; [by eapply same_stats|]. intros Hen1 Hcf query ns. rewrite foldl_app.
  assert (no_collisions C) as HcfC by (by apply no_collisions_or_empty).
  pose proof (blend_trace_ok C HcfC _ _ Htr (started_blend_ok C d1 Hs1)) as Hb1. specialize (Hb' HcfC Hb1).
  assert (blend_lookup_enabled d' = true) as Hen'. { rewrite <-Hen1. clear -Htr. induction Htr as [|? ? ? [_ ?] _ IH]; [done|congruence]. }
  rewrite Hen, Hen' in Hb'. destruct (blend_match_ok C _ _ query ns HcfC He') as (matches & ? & ? & _); [congruence|done|]. by exists matches.
Qed.

(** *** Witness *)

Lemma directory_capture_restore_witness :
  let d := foldl run_dir demo_start demo_history in
  ∃ d', restore_directory (capture_directory d) demo_start = (Ret tt, d') ∧ get_token_ids [[x0a]] d' = get_token_ids [[x0a]] d ∧
    blend_match [9; 1; 2; 3; 4] (mkNamespace "m" "u1" 1) d' = Ret [mkMatch [x0a] 0 1].
Proof.
  intros d. destruct (directory_capture_restore demo_start demo_start demo_history [] (proj1 demo_started) (proj1 demo_started) demo_history_ok) as (d' & E & _ & Ht & _).
  - constructor.
  - intros key Hk. assert (dkeys (directory (foldl run_dir demo_start demo_history)) = [mkKey (mkIdentity [x0a] 16777216 "m" 0 "u1" ∅)]%string) as Ek by (vm_compute; reflexivity).
    rewrite Ek in Hk. apply list_elem_of_singleton in Hk as ->. clear. vm_compute. repeat split; try discriminate; lia.
  - exists d'. split; [exact E|]. split; [apply Ht|].
    assert (blend_match [9; 1; 2; 3; 4] (mkNamespace "m" "u1" 1) (restore_directory (capture_directory d) demo_start).2 = Ret [mkMatch [x0a] 0 1]) as Hm by (vm_compute; reflexivity).
    pose proof (f_equal snd E) as E2. cbn [snd] in E2. rewrite <-E2. exact Hm.
Defined.

(** The fragment index is not a function of what is captured: a chunk whose
    content is reported a second time without its position stays matchable, but
    its binding has lost the position, and a restored directory does not find the
    chunk. *)
Lemma restore_loses_match :
  let d := foldl run_dir demo_start
    [Deliver (Delivered (example_batch "s1" TierL1 STORE false 1 [content_entry "0a" [1; 2] 0]));
     Deliver (Delivered (example_batch "s1" TierL1 STORE false 2 [content_entry "0a" [1; 2] UNKNOWN_TOKEN_OFFSET]))] in
  blend_match [9; 1; 2] (mkNamespace "m" "u1" 1) d = Ret [mkMatch [x0a] 0 1] ∧
  blend_match [9; 1; 2] (mkNamespace "m" "u1" 1) (restore_directory (capture_directory d) demo_start).2 = Ret [].
Proof. split; vm_compute; reflexivity. Qed.
