(* ===== verification/Coordinator.v ===== *)
(** * The views behind one gate

    lmcache/v1/mp_coordinator/app.py registers the views with the broadcaster
    behind one gate, so that the usage manager and the key directory see the same
    deliveries. Their accounts of the fleet's bytes, kept apart from each other,
    agree, as long as no L1 backend is shared. *)

From stdpp Require Import gmap list strings.
From Stdlib Require Import ZArith Lia.
From S2P Require Import Prelude Keys PyFloat Handler TokenHasher BlendIndex EventGate Placements UsageManager KeyDirectory KeyDirectoryInv DirectoryProps.

Open Scope Z_scope.
Open Scope py_scope.
Open Scope handler_scope.

Implicit Types (u : CacheUsageManager) (d : KeyDirectory) (m : placements).

Abbreviation fleet_views := (CacheUsageManager * KeyDirectory)%type.

Definition on_usage (h : handler CacheUsageManager unit) : handler fleet_views unit := λ v, let '(r, u) := h v.1 in (r, (u, v.2)).
Definition on_directory (h : handler KeyDirectory unit) : handler fleet_views unit := λ v, let '(r, d) := h v.2 in (r, (v.1, d)).

Definition usage_view : Consumer fleet_views := mkConsumer (λ b, on_usage (consume_usage b)) (λ id, on_usage (fence_usage id)).
Definition directory_view : Consumer fleet_views := mkConsumer (λ b, on_directory (consume_directory b)) (λ id, on_directory (fence_directory id)).

(** The gate that [create_app] builds, with these two views registered. *)
Definition new_coordinator u d : EventGate fleet_views := new_gate [(directory_view, empty_stats); (usage_view, empty_stats)] (u, d).

(** ** Each view on its own *)

Lemma counted_usage h ok failed st v :
  counted_call (on_usage h) ok failed st v = ((counted_call h ok failed st v.1).1, ((h v.1).2, v.2)).
Proof. unfold counted_call, on_usage. by destruct (h v.1) as [[] u]. Qed.
Lemma counted_directory h ok failed st v :
  counted_call (on_directory h) ok failed st v = ((counted_call h ok failed st v.2).1, (v.1, (h v.2).2)).
Proof. unfold counted_call, on_directory. by destruct (h v.2) as [[] d]. Qed.

Lemma both_views s1 s2 u d ds :
  (foldl deliver ([(directory_view, s1); (usage_view, s2)], (u, d)) ds).2 =
  (foldl (view_step usage_consumer) u ds, foldl (view_step directory_consumer) d ds).
Proof.
  revert s1 s2 u d. induction ds as [|x ds IH]; intros s1 s2 u d; [done|]. cbn [foldl].
  assert (∃ s1' s2', deliver ([(directory_view, s1); (usage_view, s2)], (u, d)) x =
    ([(directory_view, s1'); (usage_view, s2')], (view_step usage_consumer u x, view_step directory_consumer d x))) as (s1' & s2' & ->); [|apply IH].
  destruct x as [b|id]; cbn [deliver fst snd broadcast broadcast_fence view_step]; cbn [directory_view usage_view directory_consumer usage_consumer consume_batch fence_views];
    rewrite counted_directory; cbn [fst snd]; rewrite counted_usage; cbn [fst snd]; by eexists _, _.
Qed.

Lemma coordinator_run u d calls :
  views (foldl run_call (new_coordinator u d) calls) =
  (foldl (view_step usage_consumer) u (deliveries calls), foldl (view_step directory_consumer) d (deliveries calls)).
Proof.
  destruct (run_simulates [(directory_view, empty_stats); (usage_view, empty_stats)] (u, d) calls) as (_ & _ & E & _). cbv zeta in E.
  unfold new_coordinator. rewrite <-(both_views empty_stats empty_stats). unfold deliveries. by rewrite <-E.
Qed.

(** Only offered batches are delivered. *)
Lemma delivered_offered calls b : Delivered b ∈ deliveries calls → ∃ now, Ingest now b ∈ calls.
Proof.
  unfold deliveries. induction calls as [|call calls IH] using rev_ind; [by intros ?%elem_of_nil|]. rewrite foldl_app. cbn [foldl].
  destruct (run_simulates [(recorder, empty_stats)] [] calls) as (_ & _ & _ & st & E4). set (g := foldl run_call _ calls) in *.
  pose proof (run_call_effect g call) as H. destruct (call_effect (cursors g) (departed g) call) as [[ds cu] dep] eqn:Ee. cbv zeta in H. destruct H as (H1 & _ & _).
  rewrite E4 in H1. destruct (recorder_delivers st (views g) ds) as (st' & E). rewrite E in H1. injection H1 as _ ->.
  intros [Hb|Hb]%elem_of_app; [destruct (IH Hb) as [now ?]; exists now; apply elem_of_app; by left|].
  destruct call as [now b'|j|j]; cbn [call_effect] in Ee.
  - exists now. apply elem_of_app. right. destruct (barred _ b'); [injection Ee as <- _ _; by apply elem_of_nil in Hb|].
    destruct (admits _ b'); injection Ee as <- _ _; [|by apply elem_of_nil in Hb]. unfold batch_deliveries in Hb.
    apply elem_of_app in Hb as [Hb|Hb]; [destruct (restarts _ b'); [by apply list_elem_of_singleton in Hb|by apply elem_of_nil in Hb]|].
    apply list_elem_of_singleton in Hb as [= ->]. left.
  - destruct (dget j _); injection Ee as <- _ _; by apply list_elem_of_singleton in Hb.
  - injection Ee as <- _ _. by apply elem_of_nil in Hb.
Qed.

(** ** The two specifications *)

Definition l1_unshared (x : delivery) : Prop := match x with Delivered b => shared b = true → tier b ≠ TierL1 | Fenced _ => True end.

Definition no_shared_l1 m : Prop := ∀ i p, m i = Some p → pl_tier p = TierL1 → pl_shared p = false.

Lemma no_shared_l1_deliver m x : l1_unshared x → no_shared_l1 m → no_shared_l1 (spec_deliver m x).
Proof.
  intros Hx Hm. destruct x as [b|id]; cbn [spec_deliver].
  - apply (foldl_inv no_shared_l1); [done|]. intros m' q _ Hm'. unfold spec_entry. destruct (event_type b); try done; intros i p; unfold update; case_decide; try apply Hm'; [|done].
    intros [= <-] Ht. cbn [placement_of pl_tier pl_shared] in *. cbn [l1_unshared] in Hx. destruct (shared b); [by destruct Hx|done].
  - intros i p. unfold spec_fence. destruct (m i) as [q|] eqn:E; [|done]. case_bool_decide; [done|]. intros [= <-]. by apply (Hm i).
Qed.

Lemma spec_fold_ext b es m m' : (∀ i, m i = m' i) → ∀ i, foldl (spec_entry b) m es i = foldl (spec_entry b) m' es i.
Proof.
  revert m m'. induction es as [|q es IH]; intros m m' E; [done|]. cbn [foldl]. apply IH. intros i. unfold spec_entry, update. destruct (event_type b); by rewrite ?E.
Qed.

Lemma specs_agree x m m' : well_placed m' → no_shared_l1 m' → (∀ i, m i = m' i) → ∀ i, spec_usage m x i = spec_deliver m' x i.
Proof.
  intros Hw Hs E i. destruct x as [b|id]; cbn [spec_usage spec_deliver]; [by apply spec_fold_ext|]. unfold spec_fence_owned, spec_fence. rewrite E.
  destruct (m' i) as [p|] eqn:Ep; [|by destruct (_ && _)]. destruct (Hw i p Ep) as (Ei & _ & Hne & _). specialize (Hs i p Ep).
  assert (is_owned_l1 i && bool_decide (pid_owner i = id) = bool_decide (pl_tier p = TierL1 ∧ pl_instance_id p = id)) as ->; [|done].
  unfold is_owned_l1. rewrite Ei. unfold own_pid, pid_tier, pid_owner. cbn [fst snd].
  destruct (decide (pl_tier p = TierL1)) as [Et|Et]; [|rewrite (bool_decide_false (pl_tier p = TierL1)), (bool_decide_false (_ ∧ _)) by tauto; done].
  rewrite (Hs Et). rewrite (bool_decide_true (pl_tier p = TierL1)), (bool_decide_false (pl_instance_id p = _)) by done. cbn [negb andb].
  apply bool_decide_ext. tauto.
Qed.

Lemma specs_run ds m m' :
  Forall delivery_ok ds → Forall l1_unshared ds → well_placed m' → no_shared_l1 m' → (∀ i, m i = m' i) → ∀ i, foldl spec_usage m ds i = foldl spec_deliver m' ds i.
Proof.
  intros Hds. revert m m'. induction Hds as [|x ds Hx _ IH]; intros m m' Hu Hw Hs E; [done|]. apply Forall_cons in Hu as [Hux Hu]. cbn [foldl].
  apply IH; [done|by apply well_placed_deliver|by apply no_shared_l1_deliver|]. by apply specs_agree.
Qed.

(** ** The directory's placements and their sizes *)

Definition directory_sizes d : dict pid Z := directory d ≫= λ q, (λ p, (own_pid p q.1, pl_size_bytes p)) <$> rec_placements q.2.

Lemma fmap_bind {X Y W} (f : Y → W) (g : X → list Y) l : f <$> (l ≫= g) = l ≫= λ x, f <$> g x.
Proof. induction l as [|x l IH]; [done|]. cbn [mbind list_bind]. by rewrite fmap_app, IH. Qed.

Lemma directory_sizes_keys d m : dir_ok d m → NoDup (dkeys (directory_sizes d)).
Proof.
  intros [[H1 _ H3 _ _ _ _] _]. unfold directory_sizes, dkeys in *. rewrite fmap_bind.
  assert (∀ q, q ∈ directory d → held (directory d) q.1 = rec_placements q.2) as Hh by (intros [k r] Hq; unfold held; by rewrite (elem_dget k r)).
  apply NoDup_bind.
  - intros [k r] [k' r'] i Hq Hq'. cbn [fst snd]. rewrite <-!list_fmap_compose.
    intros (p & -> & _)%list_elem_of_fmap (p' & Ei & _)%list_elem_of_fmap. cbn in Ei. injection Ei as _ -> _ _.
    pose proof (elem_dget _ _ _ H1 Hq) as E1. rewrite (elem_dget _ _ _ H1 Hq') in E1. by injection E1 as ->.
  - intros q Hq. rewrite <-list_fmap_compose, <-(Hh q Hq). apply H3.
  - by eapply NoDup_fmap_1.
Qed.

Lemma directory_sizes_spec d m i : dir_ok d m → dget i (directory_sizes d) = pl_size_bytes <$> m i.
Proof.
  intros Hd. pose proof (directory_sizes_keys d m Hd) as Hn. destruct Hd as [[H1 _ _ H4 _ _ _] Hw].
  assert (∀ i n, (i, n) ∈ directory_sizes d ↔ pl_size_bytes <$> m i = Some n) as Hin.
  { clear i. intros i n. unfold directory_sizes. rewrite list_elem_of_bind. setoid_rewrite list_elem_of_fmap. split.
    - intros ([k r] & (p & [= -> ->] & Hp) & Hq). cbn [snd fst] in *. assert (p ∈ held (directory d) k) as Hh%H4 by (unfold held; by rewrite (elem_dget _ _ _ H1 Hq)). by rewrite Hh.
    - destruct (m i) as [p|] eqn:Ep; [|done]. intros [= <-]. destruct (Hw i p Ep) as (Ei & _). rewrite Ei in Ep. pose proof (proj2 (H4 _ _) Ep) as Hh. unfold held in Hh.
      destruct (dget (pid_key i) (directory d)) as [r|] eqn:Er; [|by apply elem_of_nil in Hh]. exists (pid_key i, r). split; [|by apply dget_Some_elem]. exists p. split; [cbn [fst]; congruence|done]. }
  destruct (pl_size_bytes <$> m i) as [n|] eqn:E; [by apply elem_dget, Hin|]. destruct (dget i _) as [n|] eqn:E'; [|done].
  apply dget_Some_elem, Hin in E'. congruence.
Qed.

Lemma bytes_sum {K} `{EqDecision K} (f : pid → K) k d :
  total_of f k (directory_sizes d) =
  zsum (λ q : ObjectKey * KeyRecord, zsum (λ p, if decide (f (own_pid p q.1) = k) then pl_size_bytes p else 0) (rec_placements q.2)) (directory d).
Proof. unfold total_of, directory_sizes. induction (directory d) as [|q ks IH]; [done|]. cbn [mbind list_bind]. by rewrite zsum_app, zsum_cons, IH, zsum_fmap. Qed.

Lemma tier_total d t : total_of pid_tier t (directory_sizes d) = weigh (bytes_in t) (directory d).
Proof. apply bytes_sum. Qed.

Lemma key_total d t key : NoDup (dkeys (directory d)) → total_of key_of_pid (t, key) (directory_sizes d) = zsum (bytes_in t) (held (directory d) key).
Proof.
  intros Hn. rewrite bytes_sum.
  assert (∀ q, zsum (λ p, if decide (key_of_pid (own_pid p q.1) = (t, key)) then pl_size_bytes p else 0) (rec_placements q.2) =
    if decide (q.1 = key) then zsum (bytes_in t) (rec_placements q.2) else 0) as Hq.
  { intros q. destruct (decide (q.1 = key)) as [<-|Hne].
    - apply zsum_ext. intros p _. unfold bytes_in, key_of_pid, pid_tier, pid_key, own_pid. cbn [fst snd].
      destruct (decide (pl_tier p = t)) as [->|?]; [by rewrite decide_True|]. rewrite decide_False; [done|congruence].
    - apply zsum_zero. intros p _. rewrite decide_False; [done|]. unfold key_of_pid, pid_key, own_pid. cbn. congruence. }
  erewrite zsum_ext by (intros q _; apply Hq). unfold held. clear Hq. unfold dkeys in Hn. induction (directory d) as [|[k r] ks IH]; [done|].
  cbn [map fmap list_fmap fst] in Hn. apply NoDup_cons in Hn as [Hk Hn]. rewrite zsum_cons. cbn [fst snd dget]. destruct (decide (k = key)) as [->|?].
  - assert (zsum (λ q : ObjectKey * KeyRecord, if decide (q.1 = key) then zsum (bytes_in t) (rec_placements q.2) else 0) ks = 0) as ->.
    { apply zsum_zero. intros [k' r'] Hin. cbn. case_decide; [|done]. subst. destruct Hk. apply list_elem_of_fmap. by exists (key, r'). }
    cbn [from_option]. apply Z.add_0_r.
  - rewrite (IH Hn). apply Z.add_0_l.
Qed.

(** ** Agreement *)

(** Batches that the constructors accept, with L1 not shared. *)
Definition offered_ok (call : gate_call) : Prop :=
  match call with Ingest _ b => delivery_ok (Delivered b) ∧ l1_unshared (Delivered b) | _ => True end.

Lemma deliveries_ok calls : Forall offered_ok calls → Forall delivery_ok (deliveries calls) ∧ Forall l1_unshared (deliveries calls).
Proof.
  intros H. rewrite <-Forall_and. apply Forall_forall. intros [b|id] Hb; [|done]. destruct (delivered_offered _ _ Hb) as [now Hin]. rewrite Forall_forall in H. exact (H _ Hin).
Qed.

Lemma directory_stats_bytes d m : dir_ok d m → ∃ st, directory_stats d = Ret st ∧
  ds_l1_size_bytes st = weigh (bytes_in TierL1) (directory d) ∧ ds_l2_size_bytes st = weigh (bytes_in TierL2) (directory d).
Proof.
  intros [[_ _ _ _ H5 _ _] _]. unfold directory_stats. rewrite (H5 TierL1), (H5 TierL2). cbn. eexists. split; [reflexivity|]. done.
Qed.

(** C17: the fleet's two books agree. In every history of the gate in which no L1
    backend is shared, the bytes that the usage manager reports per tier are
    those of the key directory, and the bytes it reports for a key in a tier are
    those of the placements the directory lists for it, although the usage
    manager keeps running totals and the directory records per key. *)
Theorem coordinator_views_agree d calls :
  started d → Forall offered_ok calls →
  let '(u', d') := views (foldl run_call (new_coordinator new_usage d) calls) in
  (∃ st, directory_stats d' = Ret st ∧ get_total_bytes TierL1 u' = ds_l1_size_bytes st ∧ get_total_bytes TierL2 u' = ds_l2_size_bytes st) ∧
  ∀ t key, ∃ l, lookup_keys [key] d' = [l] ∧ get_key_bytes t key u' = zsum (bytes_in t) l.
Proof.
  intros Hs [Hok Hun]%deliveries_ok. rewrite coordinator_run. set (ds := deliveries calls) in *.
  destruct (usage_run_ok ds new_usage (λ _, None) Hok) as [[Hc _] Hm]; [apply new_usage_ok|done|]. set (u' := foldl (view_step usage_consumer) new_usage ds) in *.
  destruct (directory_run_ok (λ _ _, True) ds d (λ _, None) Hok) as [Hd _]; [apply Forall_forall; by intros [b|]|by apply started_dir_ok|].
  set (d' := foldl (view_step directory_consumer) d ds) in *.
  assert (∀ i, dget i (placement_sizes u') = dget i (directory_sizes d')) as E.
  { intros i. rewrite Hm, (directory_sizes_spec _ _ i Hd). f_equal. by apply specs_run. }
  pose proof Hc as [[Hn _] Hk _ _]. pose proof (directory_sizes_keys _ _ Hd) as Hn'. split.
  - destruct (directory_stats_bytes d' _ Hd) as (st & Est & E1 & E2). exists st. split; [exact Est|].
    by rewrite E1, E2, !get_total_ok, <-!tier_total, !(total_perm _ _ _ _ Hn Hn' E).
  - intros t key. exists (sort_by placement_leb (held (directory d') key)). split; [unfold lookup_keys, held; cbn; by destruct (dget key _)|].
    rewrite (zsum_perm _ _ _ (sort_by_perm _ _)), <-key_total by apply (co_nodup _ _ _ _ _ (proj1 Hd)). unfold get_key_bytes.
    by rewrite (rolled_get _ _ _ _ Hk), (total_perm _ _ _ _ Hn Hn' E).
Qed.

(** *** Witness *)

Definition fleet_calls : list gate_call :=
  [Ingest demo_clock (example_batch "s1" TierL1 STORE false 1 [example_entry "0a" 10; example_entry "0b" 20]);
   Ingest demo_clock (example_batch "s2" TierL2 STORE true 1 [example_entry "0a" 30]);
   Ingest demo_clock (example_batch "s1" TierL1 STORE false 1 [example_entry "0a" 99]);
   Ingest demo_clock (example_batch "s1" TierL1 DELETE false 2 [example_entry "0b" 0]);
   Drop "s2"].

Lemma coordinator_views_agree_witness :
  let '(u', d') := views (foldl run_call (new_coordinator new_usage demo_start) fleet_calls) in
  ∃ st, directory_stats d' = Ret st ∧ get_total_bytes TierL1 u' = ds_l1_size_bytes st ∧ get_total_bytes TierL2 u' = ds_l2_size_bytes st ∧
    get_total_bytes TierL1 u' = 10 ∧ get_total_bytes TierL2 u' = 30.
Proof.
  assert (Forall offered_ok fleet_calls) as Hok.
  { assert (Forall delivery_ok (omap (λ c, match c with Ingest _ b => Some (Delivered b) | _ => None end) fleet_calls)) as H by (apply deliveries_okb; vm_compute; reflexivity).
    cbn [omap list_omap fleet_calls] in H. rewrite !Forall_cons in H. destruct H as (H1 & H2 & H3 & H4 & _). unfold fleet_calls.
    repeat (apply Forall_cons; split); try (split; [assumption|by intros ?]); try exact I. by apply Forall_nil. }
  pose proof (coordinator_views_agree demo_start fleet_calls (proj1 demo_started) Hok) as H.
  assert (get_total_bytes TierL1 (views (foldl run_call (new_coordinator new_usage demo_start) fleet_calls)).1 = 10 ∧
          get_total_bytes TierL2 (views (foldl run_call (new_coordinator new_usage demo_start) fleet_calls)).1 = 30) as [T1 T2] by (clear; vm_compute; done).
  destruct (views (foldl run_call (new_coordinator new_usage demo_start) fleet_calls)) as [u' d']. destruct H as [(st & E & E1 & E2) _]. exists st.
  cbn [fst] in T1, T2. done.
Defined.

(** A shared L1 backend parts the books: the usage manager keeps its bytes when
    the server that reported them leaves, the key directory drops them. *)
Lemma shared_l1_views_differ :
  let '(u', d') := views (foldl run_call (new_coordinator new_usage demo_start)
    [Ingest demo_clock (example_batch "s1" TierL1 STORE true 1 [example_entry "0a" 10]); Drop "s1"]) in
  get_total_bytes TierL1 u' = 10 ∧ ds_l1_size_bytes <$> (match directory_stats d' with Ret st => Some st | Raise _ => None end) = Some 0.
Proof. vm_compute. done. Qed.
