(* ===== verification/CacheEvents.v ===== *)
(** * Cache events

    lmcache/v1/mp_coordinator/cache_events.py: what a server tells the
    coordinator. A [CacheEventSubscriber] turns the events of the server's bus
    into numbered batches and hands them to a sink, the transport. A handler that
    raises keeps what it has changed: the bus logs the exception and goes on. *)

From stdpp Require Import gmap list strings.
From Stdlib Require Import ZArith Lia.
From Stdlib.Strings Require Import Byte.
From Stdlib Require Import Floats.SpecFloat.
From S2P Require Import Prelude Keys PyFloat Handler EventGate Placements.

Open Scope Z_scope.
Open Scope py_scope.
Open Scope handler_scope.

Definition _TOKEN_BINDING_CACHE_SIZE : Z := 65536.

Definition _entry_count (batches : list CacheEventBatch) : Z := zsum (λ b, Z.of_nat (length (entries b))) batches.

(** ** Sinks

    A sink on a state [S], which holds the sink's own and the network's. *)

Record CacheEventSink (S : Type) := mkSink {
  publish : list CacheEventBatch → handler S unit;
  sink_dropped_events : S → Z
}.
Arguments mkSink {S}.
Arguments publish {S}.
Arguments sink_dropped_events {S}.

(** What the subscriber relies on: publishing fails with
    [CacheEventPublishError] only, and the count of dropped events, whatever the
    network does, is not negative. *)
Class SinkLaws {S} (sink : CacheEventSink S) (ok : S → Prop) := {
  publish_fails : ∀ bs s x s', ok s → publish sink bs s = (Raise x, s') → x = CacheEventPublishError;
  publish_keeps : ∀ bs s, ok s → ok (publish sink bs s).2;
  dropped_nonneg : ∀ s, ok s → 0 <= sink_dropped_events sink s
}.

(** *** HTTP: one request for a list of batches

    [post] is the client and the coordinator behind it: whether the request
    succeeded, and the network afterwards. *)
Section http.
Context {W : Type} (post : list CacheEventBatch → W → bool * W).

Record HttpCacheEventSink := mkHttp { http_network : W; http_dropped_events : Z }.

Definition http_publish (batches : list CacheEventBatch) : handler HttpCacheEventSink unit := λ s,
  match post batches (http_network s) with
  | (true, w) => (Ret tt, mkHttp w (http_dropped_events s))
  | (false, w) => (Raise CacheEventPublishError, mkHttp w (http_dropped_events s + _entry_count batches))
  end.

Definition http_sink : CacheEventSink HttpCacheEventSink := mkSink http_publish http_dropped_events.
End http.
Arguments mkHttp {W}.
Arguments http_network {W}.
Arguments http_dropped_events {W}.

(** *** Kafka: one record for a batch

    [produce] queues a record or refuses it; [poll] hands over the delivery
    reports that have come in, each with the record's number of events and
    whether the producer has given it up. *)
Section kafka.
Context {W : Type} (produce : CacheEventBatch → W → bool * W) (poll : W → list (Z * bool) * W).

Record KafkaCacheEventSink := mkKafka { kafka_network : W; dropped_batches : Z; kafka_dropped_events : Z }.

Definition _on_delivery (s : KafkaCacheEventSink) (report : Z * bool) : KafkaCacheEventSink :=
  if report.2 then mkKafka (kafka_network s) (dropped_batches s + 1) (kafka_dropped_events s + report.1) else s.

(** [self._producer.poll(0)], with its callbacks. *)
Definition kafka_poll (s : KafkaCacheEventSink) : KafkaCacheEventSink :=
  let '(reports, w) := poll (kafka_network s) in foldl _on_delivery (mkKafka w (dropped_batches s) (kafka_dropped_events s)) reports.

Fixpoint kafka_publish (batches : list CacheEventBatch) : handler KafkaCacheEventSink unit := λ s,
  match batches with
  | [] => (Ret tt, s)
  | batch :: batches' =>
      match produce batch (kafka_network s) with
      | (true, w) => kafka_publish batches' (kafka_poll (mkKafka w (dropped_batches s) (kafka_dropped_events s)))
      | (false, w) => (Raise CacheEventPublishError,
          kafka_poll (mkKafka w (dropped_batches s + Z.of_nat (length batches)) (kafka_dropped_events s + _entry_count batches)))
      end
  end.

Definition kafka_sink : CacheEventSink KafkaCacheEventSink := mkSink kafka_publish kafka_dropped_events.
End kafka.
Arguments mkKafka {W}.
Arguments kafka_network {W}.
Arguments dropped_batches {W}.
Arguments kafka_dropped_events {W}.

(** *** Several sinks: each one is tried *)
Section multi.
Context {S : Type} (sinks : list (CacheEventSink S)).

(** The loop; [failures] counts the sinks that failed. *)
Fixpoint publish_each (ks : list (CacheEventSink S)) (batches : list CacheEventBatch) (failures : nat) : handler S nat := λ s,
  match ks with
  | [] => (Ret failures, s)
  | sink :: ks' =>
      match publish sink batches s with
      | (Ret _, s') => publish_each ks' batches failures s'
      | (Raise CacheEventPublishError, s') => publish_each ks' batches (failures + 1) s'
      | (Raise x, s') => (Raise x, s')
      end
  end.

Definition multi_publish (batches : list CacheEventBatch) : handler S unit :=
  let^ failures := publish_each sinks batches 0 in
  if (0 <? failures)%nat then h_raise CacheEventPublishError else h_ret tt.

Definition multi_sink : CacheEventSink S := mkSink multi_publish (λ s, zsum (λ sink, sink_dropped_events sink s) sinks).
End multi.

(** ** The subscriber *)

Inductive L1BackendType := DRAM | DEVDAX | GDS.
#[export] Instance L1BackendType_eq_dec : EqDecision L1BackendType.
Proof. solve_decision. Defined.
Definition backend_value (m : L1BackendType) : string := match m with DRAM => "dram" | DEVDAX => "devdax" | GDS => "gds" end.

Record L1ObjectMeta := mkMeta { meta_size_bytes : Z; meta_backend : L1BackendType }.

Record ModuleMemoryCapacity := mkModule { mod_tier : Tier; mod_backend : string; mod_capacity_bytes : Z; mod_shared : bool }.

Record ChunkTokens := mkChunkTokens { ct_token_ids : list Z; ct_token_offset : Z }.
Definition _NO_BINDING : ChunkTokens := mkChunkTokens [] UNKNOWN_TOKEN_OFFSET.

Record PendingBatch := mkPending {
  pd_event_type : CacheEventType;
  pd_tier : Tier;
  pd_backend : string;
  pd_shared : bool;
  pd_entries : list CacheEventEntry
}.

(** [sub_ticks] counts the readings of the clock. *)
Record CacheEventSubscriber (S : Type) := mkSub {
  sub_sink : S;
  sub_instance_id : string;
  sub_incarnation : Z;
  flush_interval : float;
  last_flush : float;
  sub_seq : Z;
  pending_batches : list PendingBatch;
  pending_capacity : option (list ModuleMemoryCapacity);
  sub_capacity_revision : Z;
  chunk_tokens : dict (list byte) ChunkTokens;
  sub_ticks : nat
}.
Arguments mkSub {S}.
Arguments sub_sink {S}.
Arguments sub_instance_id {S}.
Arguments sub_incarnation {S}.
Arguments flush_interval {S}.
Arguments last_flush {S}.
Arguments sub_seq {S}.
Arguments pending_batches {S}.
Arguments pending_capacity {S}.
Arguments sub_capacity_revision {S}.
Arguments chunk_tokens {S}.
Arguments sub_ticks {S}.

(** The events of the bus, with their metadata. *)
Inductive BusEvent :=
  | L1_WRITE_FINISHED (keys : list ObjectKey) (meta : list L1ObjectMeta)
  | L1_WRITE_FINISHED_AND_READ_RESERVED (keys : list ObjectKey) (meta : list L1ObjectMeta)
  | L1_KEYS_EVICTED (keys : list ObjectKey) (meta : list L1ObjectMeta)
  | L1_KEYS_ACCESSED (keys : list ObjectKey)
  | L2_KEYS_STORED (backend : string) (shared : bool) (keys : list ObjectKey) (sizes : list Z)
  | L2_KEYS_DELETED (backend : string) (shared : bool) (keys : list ObjectKey)
  | L2_KEYS_ACCESSED (backend : string) (shared : bool) (keys : list ObjectKey)
  | MP_TOKENS (chunk_hashes : list (list byte)) (token_chunks : list (list Z)) (token_offsets : list Z)
  | SM_CAPACITY_CHANGED (snapshot : list ModuleMemoryCapacity)
  | L1_EVICTION_LOOP_TICK.

Section subscriber.
(** The sink, and the clock at each reading. *)
Context {S : Type} (sink : CacheEventSink S) (time : nat → clock).

Implicit Types (s : CacheEventSubscriber S).

Definition new_subscriber (k : S) (id : string) (inc : Z) (interval : float) (now : clock) : py (CacheEventSubscriber S) :=
  if f_lt interval f_zero then Raise ValueError
  else Ret (mkSub k id inc interval (monotonic now) 0 [] None 0 [] 0).

Definition set_sink (k : S) s : CacheEventSubscriber S :=
  mkSub k (sub_instance_id s) (sub_incarnation s) (flush_interval s) (last_flush s) (sub_seq s) (pending_batches s) (pending_capacity s) (sub_capacity_revision s) (chunk_tokens s) (sub_ticks s).
Definition set_last_flush (t : float) s : CacheEventSubscriber S :=
  mkSub (sub_sink s) (sub_instance_id s) (sub_incarnation s) (flush_interval s) t (sub_seq s) (pending_batches s) (pending_capacity s) (sub_capacity_revision s) (chunk_tokens s) (sub_ticks s).
Definition set_seq (n : Z) s : CacheEventSubscriber S :=
  mkSub (sub_sink s) (sub_instance_id s) (sub_incarnation s) (flush_interval s) (last_flush s) n (pending_batches s) (pending_capacity s) (sub_capacity_revision s) (chunk_tokens s) (sub_ticks s).
Definition set_pending (l : list PendingBatch) s : CacheEventSubscriber S :=
  mkSub (sub_sink s) (sub_instance_id s) (sub_incarnation s) (flush_interval s) (last_flush s) (sub_seq s) l (pending_capacity s) (sub_capacity_revision s) (chunk_tokens s) (sub_ticks s).
Definition set_capacity (c : option (list ModuleMemoryCapacity)) s : CacheEventSubscriber S :=
  mkSub (sub_sink s) (sub_instance_id s) (sub_incarnation s) (flush_interval s) (last_flush s) (sub_seq s) (pending_batches s) c (sub_capacity_revision s) (chunk_tokens s) (sub_ticks s).
Definition set_revision (n : Z) s : CacheEventSubscriber S :=
  mkSub (sub_sink s) (sub_instance_id s) (sub_incarnation s) (flush_interval s) (last_flush s) (sub_seq s) (pending_batches s) (pending_capacity s) n (chunk_tokens s) (sub_ticks s).
Definition set_chunk_tokens (d : dict (list byte) ChunkTokens) s : CacheEventSubscriber S :=
  mkSub (sub_sink s) (sub_instance_id s) (sub_incarnation s) (flush_interval s) (last_flush s) (sub_seq s) (pending_batches s) (pending_capacity s) (sub_capacity_revision s) d (sub_ticks s).

Definition read_clock : handler (CacheEventSubscriber S) clock := λ s,
  (Ret (time (sub_ticks s)),
   mkSub (sub_sink s) (sub_instance_id s) (sub_incarnation s) (flush_interval s) (last_flush s) (sub_seq s) (pending_batches s) (pending_capacity s) (sub_capacity_revision s) (chunk_tokens s) (sub_ticks s + 1)).

(** *** Flushing *)

(** [[f(offset, x) for offset, x in enumerate(l)]] where [f] can raise. *)
Definition py_enumerate {A B} (f : Z → A → py B) (l : list A) : py (list B) := py_map (λ q : Z * A, f q.1 q.2) (zip (seqZ 0 (Z.of_nat (length l))) l).

Definition capacity_batch s (ts : float) (dropped : Z) (offset : Z) (m : ModuleMemoryCapacity) : py CacheEventBatch :=
  check_batch (mkBatch (sub_instance_id s) (sub_incarnation s) (sub_seq s + offset + 1) CONFIG (mod_tier m) (mod_backend m) [] (mod_shared m)
                 ts (mod_capacity_bytes m) (sub_capacity_revision s) dropped).

Definition _capacity_batches (capacity : option (list ModuleMemoryCapacity)) (ts : float) (dropped : Z) : handler (CacheEventSubscriber S) (list CacheEventBatch) :=
  match capacity with
  | None => h_ret []
  | Some modules =>
      let^ _ := h_modify (λ s, set_revision (sub_capacity_revision s + 1) s) in
      let^ s := h_get in
      h_lift (py_enumerate (capacity_batch s ts dropped) modules)
  end.

Definition placement_batch s (declared : list CacheEventBatch) (ts : float) (dropped : Z) (offset : Z) (p : PendingBatch) : py CacheEventBatch :=
  check_batch (mkBatch (sub_instance_id s) (sub_incarnation s) (sub_seq s + Z.of_nat (length declared) + offset + 1) (pd_event_type p) (pd_tier p)
                 (pd_backend p) (pd_entries p) (pd_shared p) ts 0 0 dropped).

(** Publishing: a declaration that was not delivered is held for the next
    flush; other batches are lost. *)
Definition publish_batches (capacity : option (list ModuleMemoryCapacity)) (batches : list CacheEventBatch) : handler (CacheEventSubscriber S) unit := λ s,
  match publish sink batches (sub_sink s) with
  | (Ret _, k) => (Ret tt, set_sink k s)
  | (Raise CacheEventPublishError, k) =>
      (Ret tt, if bool_decide (pending_capacity s = None) then set_capacity capacity (set_sink k s) else set_sink k s)
  | (Raise x, k) => (Raise x, set_sink k s)
  end.

(** The rest of [flush], with what was pending. *)
Definition flush_pending (pending : list PendingBatch) (capacity : option (list ModuleMemoryCapacity)) : handler (CacheEventSubscriber S) unit :=
  let^ _ := h_modify (λ s, set_capacity None (set_pending [] s)) in
  let^ now := read_clock in
  let^ s := h_get in
  let dropped := sink_dropped_events sink (sub_sink s) in
  let^ declared := _capacity_batches capacity (wall now) dropped in
  let^ s := h_get in
  let^ placed := h_lift (py_enumerate (placement_batch s declared (wall now) dropped) pending) in
  let batches := declared ++ placed in
  let^ _ := h_modify (λ s, set_seq (sub_seq s + Z.of_nat (length batches)) s) in
  publish_batches capacity batches.

Definition flush : handler (CacheEventSubscriber S) unit :=
  let^ s := h_get in
  match pending_batches s, pending_capacity s with
  | [], None => h_ret tt
  | pending, capacity => flush_pending pending capacity
  end.

Definition _flush_if_due : handler (CacheEventSubscriber S) unit :=
  let^ now := read_clock in
  let^ s := h_get in
  if SFleb (flush_interval s) (f_sub (monotonic now) (last_flush s))
  then let^ _ := h_modify (set_last_flush (monotonic now)) in flush
  else h_ret tt.

(** *** Recording *)

Definition same_identity (t : CacheEventType) (tr : Tier) (bk : string) (sh : bool) (p : PendingBatch) : bool :=
  bool_decide (pd_event_type p = t) && bool_decide (pd_tier p = tr) && bool_decide (pd_backend p = bk) && bool_decide (pd_shared p = sh).

Definition append_pending (t : CacheEventType) (tr : Tier) (bk : string) (es : list CacheEventEntry) (sh : bool) (l : list PendingBatch) : list PendingBatch :=
  match last l with
  | Some p => if same_identity t tr bk sh p then removelast l ++ [mkPending t tr bk sh (pd_entries p ++ es)] else l ++ [mkPending t tr bk sh es]
  | None => l ++ [mkPending t tr bk sh es]
  end.

Definition _record (t : CacheEventType) (tr : Tier) (bk : string) (es : list CacheEventEntry) (sh : bool) : handler (CacheEventSubscriber S) unit :=
  match es with
  | [] => h_ret tt
  | _ =>
      let^ _ := h_modify (λ s, set_pending (append_pending t tr bk es sh (pending_batches s)) s) in
      _flush_if_due
  end.

Definition _store_entry s (key : ObjectKey) (size : Z) : py CacheEventEntry :=
  let binding := default _NO_BINDING (dget (chunk_hash key) (chunk_tokens s)) in
  let! k := to_encoded_object_key key in
  new_event_entry k size (ct_token_ids binding) (ct_token_offset binding).

(** [CacheEventEntry(key=key.to_encoded_object_key())]. *)
Definition bare_entry (key : ObjectKey) : py CacheEventEntry :=
  let! k := to_encoded_object_key key in new_event_entry k 0 [] UNKNOWN_TOKEN_OFFSET.

(** [for a, b in zip(l, l', strict=True)], updating [acc]: the exception of
    lists of different lengths comes after the turns for the pairs. *)
Fixpoint zip_strict {A B X} (f : X → A → B → py X) (acc : X) (l : list A) (l' : list B) : py X :=
  match l, l' with
  | [], [] => Ret acc
  | a :: l, b :: l' => let! acc := f acc a b in zip_strict f acc l l'
  | _, _ => Raise ValueError
  end.

Definition _record_l1_placements (t : CacheEventType) (keys : list ObjectKey) (meta : list L1ObjectMeta) : handler (CacheEventSubscriber S) unit :=
  let^ s := h_get in
  let^ by_backend := h_lift (zip_strict (λ (d : dict L1BackendType (list CacheEventEntry)) key m,
    let! e := if bool_decide (t = STORE) then _store_entry s key (meta_size_bytes m) else bare_entry key in
    Ret (dset (meta_backend m) (default [] (dget (meta_backend m) d) ++ [e]) d)) [] keys meta) in
  h_iter (λ q : L1BackendType * list CacheEventEntry, _record t TierL1 (backend_value q.1) q.2 false) by_backend.

Definition _record_l2_keys (t : CacheEventType) (bk : string) (sh : bool) (keys : list ObjectKey) : handler (CacheEventSubscriber S) unit :=
  let^ es := h_lift (py_map bare_entry keys) in
  _record t TierL2 bk es sh.

Definition _on_l1_access (keys : list ObjectKey) : handler (CacheEventSubscriber S) unit :=
  let^ es := h_lift (py_map bare_entry keys) in
  _record ACCESS TierL1 "" es false.

Definition _on_l2_store (bk : string) (sh : bool) (keys : list ObjectKey) (sizes : list Z) : handler (CacheEventSubscriber S) unit :=
  let^ s := h_get in
  let^ es := h_lift (zip_strict (λ es key size, let! e := _store_entry s key size in Ret (es ++ [e])) [] keys sizes) in
  _record STORE TierL2 bk es sh.

(** [popitem(last=False)] while the cache holds more than half its bound. *)
Fixpoint evict_oldest (d : dict (list byte) ChunkTokens) : dict (list byte) ChunkTokens :=
  match d with
  | [] => []
  | _ :: d' => if _TOKEN_BINDING_CACHE_SIZE / 2 <? Z.of_nat (length d) then evict_oldest d' else d
  end.

(** The loop of [_on_tokens]: what it has bound stays bound if it raises. *)
Fixpoint bind_tokens (hashes : list (list byte)) (chunks : list (list Z)) (offsets : list Z) : handler (CacheEventSubscriber S) unit :=
  match hashes, chunks, offsets with
  | [], [], [] => h_ret tt
  | h :: hashes, c :: chunks, o :: offsets =>
      let^ _ := h_modify (λ s, set_chunk_tokens (ddel h (chunk_tokens s) ++ [(h, mkChunkTokens c o)]) s) in
      bind_tokens hashes chunks offsets
  | _, _, _ => h_raise ValueError
  end.

Definition _on_tokens (hashes : list (list byte)) (chunks : list (list Z)) (offsets : list Z) : handler (CacheEventSubscriber S) unit :=
  let^ _ := bind_tokens hashes chunks offsets in
  h_modify (λ s, if Z.of_nat (length (chunk_tokens s)) <=? _TOKEN_BINDING_CACHE_SIZE then s else set_chunk_tokens (evict_oldest (chunk_tokens s)) s).

Definition _on_capacity_changed (snapshot : list ModuleMemoryCapacity) : handler (CacheEventSubscriber S) unit :=
  let^ _ := h_modify (set_capacity (Some snapshot)) in _flush_if_due.

(** The callbacks of [get_subscriptions]. *)
Definition on_event (ev : BusEvent) : handler (CacheEventSubscriber S) unit :=
  match ev with
  | L1_WRITE_FINISHED keys meta | L1_WRITE_FINISHED_AND_READ_RESERVED keys meta => _record_l1_placements STORE keys meta
  | L1_KEYS_EVICTED keys meta => _record_l1_placements DELETE keys meta
  | L1_KEYS_ACCESSED keys => _on_l1_access keys
  | L2_KEYS_STORED bk sh keys sizes => _on_l2_store bk sh keys sizes
  | L2_KEYS_DELETED bk sh keys => _record_l2_keys DELETE bk sh keys
  | L2_KEYS_ACCESSED bk sh keys => _record_l2_keys ACCESS bk sh keys
  | MP_TOKENS hashes chunks offsets => _on_tokens hashes chunks offsets
  | SM_CAPACITY_CHANGED snapshot => _on_capacity_changed snapshot
  | L1_EVICTION_LOOP_TICK => _flush_if_due
  end.

(** What the bus does with an event: an exception is logged. *)
Definition bus_step s (ev : BusEvent) : CacheEventSubscriber S := (on_event ev s).2.
End subscriber.
