(* ===== verification/CacheEventsInv.v ===== *)
(** * The stream a server emits

    The sinks keep their contract, and whatever the sink does, the batches handed
    to it are numbered from one on and carry the changes of the server, in
    order. *)

From stdpp Require Import gmap list strings.
From Stdlib Require Import ZArith Lia.
From Stdlib.Strings Require Import Byte.
From Stdlib Require Import Floats.SpecFloat.
From S2P Require Import Prelude Keys PyFloat Handler EventGate Placements CacheEvents.

Open Scope Z_scope.
Open Scope py_scope.
Open Scope handler_scope.

(** ** The sinks *)

Lemma entry_count_nonneg bs : 0 <= _entry_count bs.
Proof. apply zsum_nonneg. intros b _. lia. Qed.

#[export] Instance http_laws {W} (post : list CacheEventBatch → W → bool * W) : SinkLaws (http_sink post) (λ s, 0 <= http_dropped_events s).
Proof.
  split; cbn [http_sink publish sink_dropped_events].
  - intros bs s x s' _. unfold http_publish. destruct (post bs _) as [[] w]; [done|]. by intros [= <- _].
  - intros bs s Hs. unfold http_publish. pose proof (entry_count_nonneg bs). destruct (post bs _) as [[] w]; cbn; lia.
  - done.
Qed.

Section kafka_laws.
Context {W : Type} (produce : CacheEventBatch → W → bool * W) (poll : W → list (Z * bool) * W).
Hypothesis reports_nonneg : ∀ w r, r ∈ (poll w).1 → 0 <= r.1.

Lemma kafka_poll_keeps s : 0 <= kafka_dropped_events s → 0 <= kafka_dropped_events (kafka_poll poll s).
Proof.
  intros Hs. unfold kafka_poll. pose proof (reports_nonneg (kafka_network s)) as Hr. destruct (poll (kafka_network s)) as [reports w]. cbn [fst] in Hr.
  apply (foldl_inv (λ k, 0 <= kafka_dropped_events k)); [done|]. intros k r Hin Hk. unfold _on_delivery. specialize (Hr r Hin). destruct r.2; cbn; lia.
Qed.

#[export] Instance kafka_laws : SinkLaws (kafka_sink produce poll) (λ s, 0 <= kafka_dropped_events s).
Proof.
  split; cbn [kafka_sink publish sink_dropped_events]; [| |done].
  - intros bs. induction bs as [|b bs IH]; intros s x s' Hs; [done|]. cbn [kafka_publish]. destruct (produce b _) as [[] w]; [|by intros [= <- _]].
    apply IH. by apply kafka_poll_keeps.
  - intros bs. induction bs as [|b bs IH]; intros s Hs; [done|]. cbn [kafka_publish]. pose proof (entry_count_nonneg (b :: bs)).
    destruct (produce b _) as [[] w]; cbn [snd]; [apply IH|]; apply kafka_poll_keeps; cbn [kafka_dropped_events]; lia.
Qed.
End kafka_laws.

Section multi_laws.
Context {S : Type} (ok : S → Prop) (sinks : list (CacheEventSink S)).
Hypothesis each : ∀ sink, sink ∈ sinks → SinkLaws sink ok.

Lemma publish_each_returns ks bs n s :
  (∀ sink, sink ∈ ks → SinkLaws sink ok) → ok s → ∃ m s', publish_each ks bs n s = (Ret m, s') ∧ ok s'.
Proof.
  revert n s. induction ks as [|sink ks IH]; intros n s Hks Hs; [by eexists _, _|]. cbn [publish_each].
  pose proof (Hks sink (list_elem_of_here _ _)) as L. pose proof (publish_keeps bs s Hs) as Hk. pose proof (publish_fails bs s) as Hf.
  destruct (publish sink bs s) as [[u|x] s1]; cbn [snd] in Hk; [apply IH; [|done]; intros k Hk'; apply Hks; by right|].
  rewrite (Hf x s1 Hs eq_refl). apply IH; [|done]. intros k Hk'. apply Hks. by right.
Qed.

#[export] Instance multi_laws : SinkLaws (multi_sink sinks) ok.
Proof.
  split; cbn [multi_sink publish sink_dropped_events].
  - intros bs s x s' Hs. unfold multi_publish, h_bind. destruct (publish_each_returns sinks bs 0 s each Hs) as (m & s1 & -> & _).
    destruct (0 <? m)%nat; [by intros [= <- _]|done].
  - intros bs s Hs. unfold multi_publish, h_bind. destruct (publish_each_returns sinks bs 0 s each Hs) as (m & s1 & -> & ?). by destruct (0 <? m)%nat.
  - intros s Hs. apply zsum_nonneg. intros sink Hin. pose proof (each sink Hin). by apply dropped_nonneg.
Qed.
End multi_laws.

(** A sink that also writes down what it is handed. *)
Definition logged {S} (sink : CacheEventSink S) : CacheEventSink (S * list CacheEventBatch) :=
  mkSink (λ bs k, let '(r, s) := publish sink bs k.1 in (r, (s, k.2 ++ bs))) (λ k, sink_dropped_events sink k.1).

(** ** What the server does

    A change to what the server holds, or to how it is used: the kind, the tier,
    the backend, whether the backend is shared, the key and its size. *)

Record change := mkChange {
  ch_type : CacheEventType;
  ch_tier : Tier;
  ch_backend : string;
  ch_shared : bool;
  ch_key : ObjectKey;
  ch_size : Z
}.

Definition entry_changes (t : CacheEventType) (tr : Tier) (bk : string) (sh : bool) (es : list CacheEventEntry) : list change :=
  (λ q : ObjectKey * CacheEventEntry, mkChange t tr bk sh q.1 (ev_size_bytes q.2)) <$> decoded es.
Definition batch_changes (b : CacheEventBatch) : list change := entry_changes (event_type b) (tier b) (backend b) (shared b) (entries b).
Definition pending_changes (p : PendingBatch) : list change := entry_changes (pd_event_type p) (pd_tier p) (pd_backend p) (pd_shared p) (pd_entries p).

Definition size_in (t : CacheEventType) (size : Z) : Z := if decide (t = STORE) then size else 0.

(** The media of an event, in the order they first occur. *)
Definition media (meta : list L1ObjectMeta) : list L1BackendType := foldl (λ l m, oset_set (meta_backend m) l) [] meta.

Definition medium_changes (t : CacheEventType) (keys : list ObjectKey) (meta : list L1ObjectMeta) (m : L1BackendType) : list change :=
  (λ q : ObjectKey * L1ObjectMeta, mkChange t TierL1 (backend_value m) false q.1 (size_in t (meta_size_bytes q.2))) <$>
    filter (λ q : ObjectKey * L1ObjectMeta, meta_backend q.2 = m) (zip keys meta).

(** The changes of an event, as they are emitted. *)
Definition event_changes (ev : BusEvent) : list change :=
  match ev with
  | L1_WRITE_FINISHED keys meta | L1_WRITE_FINISHED_AND_READ_RESERVED keys meta => media meta ≫= medium_changes STORE keys meta
  | L1_KEYS_EVICTED keys meta => media meta ≫= medium_changes DELETE keys meta
  | L1_KEYS_ACCESSED keys => (λ key, mkChange ACCESS TierL1 "" false key 0) <$> keys
  | L2_KEYS_STORED bk sh keys sizes => (λ q : ObjectKey * Z, mkChange STORE TierL2 bk sh q.1 q.2) <$> zip keys sizes
  | L2_KEYS_DELETED bk sh keys => (λ key, mkChange DELETE TierL2 bk sh key 0) <$> keys
  | L2_KEYS_ACCESSED bk sh keys => (λ key, mkChange ACCESS TierL2 bk sh key 0) <$> keys
  | MP_TOKENS _ _ _ | SM_CAPACITY_CHANGED _ | L1_EVICTION_LOOP_TICK => []
  end.

Definition module_ok (m : ModuleMemoryCapacity) : Prop := mod_tier m ≠ TierALL ∧ mod_backend m ≠ ""%string ∧ 0 <= mod_capacity_bytes m.

(** Events as the storage layer publishes them. *)
Definition event_ok (ev : BusEvent) : Prop :=
  match ev with
  | L1_WRITE_FINISHED keys meta | L1_WRITE_FINISHED_AND_READ_RESERVED keys meta | L1_KEYS_EVICTED keys meta =>
      length keys = length meta ∧ Forall valid_key keys ∧ Forall (λ m, 0 <= meta_size_bytes m) meta
  | L1_KEYS_ACCESSED keys => Forall valid_key keys
  | L2_KEYS_STORED bk _ keys sizes => bk ≠ ""%string ∧ length keys = length sizes ∧ Forall valid_key keys ∧ Forall (λ n, 0 <= n) sizes
  | L2_KEYS_DELETED bk _ keys | L2_KEYS_ACCESSED bk _ keys => bk ≠ ""%string ∧ Forall valid_key keys
  | MP_TOKENS hashes chunks offsets => length hashes = length chunks ∧ length hashes = length offsets ∧ Forall (λ o, -1 <= o) offsets
  | SM_CAPACITY_CHANGED ms => Forall module_ok ms
  | L1_EVICTION_LOOP_TICK => True
  end.

(** The last declaration of capacities. *)
Definition declare (decl : option (list ModuleMemoryCapacity)) (ev : BusEvent) : option (list ModuleMemoryCapacity) :=
  match ev with SM_CAPACITY_CHANGED ms => Some ms | _ => decl end.

(** *** Entries *)

Definition entry_ok (e : CacheEventEntry) : Prop := 0 <= ev_size_bytes e ∧ ∃ key, to_object_key (ev_key e) = Ret key.

Lemma decoded_app es es' : (∀ e, e ∈ es → entry_ok e) → decoded (es ++ es') = decoded es ++ decoded es'.
Proof.
  induction es as [|e es IH]; intros H; [done|]. cbn [app decoded]. destruct (H e (list_elem_of_here _ _)) as [_ [key ->]]. cbn [app]. f_equal.
  apply IH. intros e' He'. apply H. by right.
Qed.

Lemma entry_changes_app t tr bk sh es es' :
  (∀ e, e ∈ es → entry_ok e) → entry_changes t tr bk sh (es ++ es') = entry_changes t tr bk sh es ++ entry_changes t tr bk sh es'.
Proof. intros H. unfold entry_changes. by rewrite decoded_app, fmap_app. Qed.

Lemma bare_entry_ok key : valid_key key → ∃ e, bare_entry key = Ret e ∧ entry_ok e ∧ ∀ t tr bk sh, entry_changes t tr bk sh [e] = [mkChange t tr bk sh key 0].
Proof.
  intros (k & E & D)%encoded_key_roundtrip. unfold bare_entry. rewrite E. cbn. eexists. split; [reflexivity|]. split; [split; [done|by exists key]|].
  intros. unfold entry_changes. cbn. by rewrite D.
Qed.

Lemma bare_entries_ok keys :
  Forall valid_key keys → ∃ es, py_map bare_entry keys = Ret es ∧ (∀ e, e ∈ es → entry_ok e) ∧ length es = length keys ∧
    ∀ t tr bk sh, entry_changes t tr bk sh es = (λ key, mkChange t tr bk sh key 0) <$> keys.
Proof.
  induction 1 as [|key keys Hk _ (es & E & Hes & Hl & Hch)]; [by exists []; split_and!; [|intros e ?%elem_of_nil|..]|].
  destruct (bare_entry_ok key Hk) as (e & E1 & He & Hc). exists (e :: es). cbn [py_map]. rewrite E1. cbn [py_bind]. rewrite E. cbn [py_bind].
  split_and!; [done| |cbn; lia|].
  - intros e' [->|?]%elem_of_cons; auto.
  - intros. change (e :: es) with ([e] ++ es). rewrite entry_changes_app, Hc, Hch; [done|]. by intros e' ->%list_elem_of_singleton.
Qed.

(** ** The invariant *)

Lemma enumerate_ok {A B} (f : Z → A → py B) (g : Z → A → B) l :
  (∀ k x, l !! k = Some x → f (Z.of_nat k) x = Ret (g (Z.of_nat k) x)) → py_enumerate f l = Ret (imap (λ k x, g (Z.of_nat k) x) l).
Proof.
  intros H. unfold py_enumerate.
  assert (∀ m, (∀ k x, l !! k = Some x → f (m + Z.of_nat k) x = Ret (g (m + Z.of_nat k) x)) →
    py_map (λ q : Z * A, f q.1 q.2) (zip (seqZ m (Z.of_nat (length l))) l) = Ret (imap (λ k x, g (m + Z.of_nat k) x) l)) as Hm; [|by apply (Hm 0)].
  clear H. induction l as [|x l IH]; intros m Hm; [done|]. rewrite seqZ_cons by (cbn; lia). match goal with |- context [zip (?a :: ?r) (x :: l)] => change (zip (a :: r) (x :: l)) with ((a, x) :: zip r l) end. cbn [py_map imap fst snd].
  specialize (Hm 0%nat x eq_refl) as Hx. rewrite Z.add_0_r in *. rewrite Hx. cbn [py_bind].
  replace (Z.pred (Z.of_nat (length (x :: l)))) with (Z.of_nat (length l)) by (cbn; lia). rewrite (IH (Z.succ m)).
  - cbn [py_bind]. f_equal. f_equal. apply imap_ext. intros k y _. cbn. f_equal. lia.
  - intros k y Hk. specialize (Hm (S k) y Hk). by replace (Z.succ m + Z.of_nat k) with (m + Z.of_nat (S k)) by lia.
Qed.

Section emission.
Context {S : Type} (sink : CacheEventSink S) (ok : S → Prop) `{!SinkLaws sink ok} (time : nat → clock) (id : string) (inc : Z).
Hypothesis id_named : id ≠ ""%string.
Hypothesis inc_nonneg : 0 <= inc.
Hypothesis wall_nonneg : ∀ n, f_lt (wall (time n)) f_zero = false.

Implicit Types (s : CacheEventSubscriber (S * list CacheEventBatch)) (E : list CacheEventBatch).

Definition emitted s : list CacheEventBatch := (sub_sink s).2.

Definition numbered E : Prop := ∀ k b, E !! k = Some b →
  instance_id b = id ∧ incarnation b = inc ∧ seq_no b = Z.of_nat k + 1 ∧ batch_ok b ∧ ∀ e, e ∈ entries b → entry_ok e.

Definition configs E : list CacheEventBatch := filter (λ b, event_type b = CONFIG) E.
Definition module_of (b : CacheEventBatch) : ModuleMemoryCapacity := mkModule (tier b) (backend b) (capacity_bytes b) (shared b).

Definition pending_ok (p : PendingBatch) : Prop :=
  pd_event_type p ≠ CONFIG ∧ (pd_backend p ≠ ""%string ∨ pd_event_type p = ACCESS) ∧ pd_tier p ≠ TierALL ∧ ∀ e, e ∈ pd_entries p → entry_ok e.

(** The declarations of capacity emitted so far: the one of revision [r] is the
    newest, and stands unless a newer one is pending. *)
Definition declared_ok (decl : option (list ModuleMemoryCapacity)) (pending : option (list ModuleMemoryCapacity)) (r : Z) E : Prop :=
  ∃ older current, configs E = older ++ current ∧ (∀ b, b ∈ older → capacity_revision b < r) ∧ (∀ b, b ∈ current → capacity_revision b = r) ∧
    match pending with Some ms => decl = Some ms | None => match decl with Some ms => module_of <$> current = ms | None => configs E = [] end end.

Record emit_inv (chs : list change) (decl : option (list ModuleMemoryCapacity)) s : Prop := {
  em_id : sub_instance_id s = id ∧ sub_incarnation s = inc;
  em_seq : sub_seq s = Z.of_nat (length (emitted s));
  em_numbered : numbered (emitted s);
  em_changes : (emitted s ≫= batch_changes) ++ (pending_batches s ≫= pending_changes) = chs;
  em_pending : ∀ p, p ∈ pending_batches s → pending_ok p;
  em_capacity : ∀ ms, pending_capacity s = Some ms → Forall module_ok ms;
  em_declared : declared_ok decl (pending_capacity s) (sub_capacity_revision s) (emitted s);
  em_revision : 0 <= sub_capacity_revision s;
  em_tokens : ∀ h c, (h, c) ∈ chunk_tokens s → -1 <= ct_token_offset c;
  em_sink : ok (sub_sink s).1
}.

(** *** Flushing *)

Lemma check_batch_ok b :
  instance_id b = id → incarnation b = inc → (backend b ≠ ""%string ∨ event_type b = ACCESS) → (event_type b = CONFIG → entries b = []) → 0 <= capacity_bytes b →
  0 <= capacity_revision b → 1 <= seq_no b → tier b ≠ TierALL → f_lt (ts b) f_zero = false → 0 <= dropped_events b → check_batch b = Ret b.
Proof.
  intros E1 E2 Hbk Hcfg Hcap Hrev Hseq Ht Hts Hd. unfold check_batch. rewrite E1, E2, bool_decide_false by done.
  assert (bool_decide (backend b = "") && negb (bool_decide (event_type b = ACCESS)) = false) as ->.
  { destruct Hbk as [?| ->]; [by rewrite bool_decide_false|]. rewrite (bool_decide_true (ACCESS = ACCESS)) by done. by rewrite andb_false_r. }
  assert (bool_decide (event_type b = CONFIG) && negb (bool_decide (length (entries b) = 0%nat)) = false) as ->.
  { case_bool_decide as Hc; [|done]. by rewrite (Hcfg Hc). }
  rewrite !(proj2 (Z.ltb_ge _ _)) by lia. rewrite bool_decide_false by done. by rewrite Hts.
Qed.

Lemma configs_app E E' : configs (E ++ E') = configs E ++ configs E'.
Proof. apply filter_app. Qed.

Lemma bind_app_changes E E' : (E ++ E') ≫= batch_changes = (E ≫= batch_changes) ++ (E' ≫= batch_changes).
Proof. apply bind_app. Qed.

Lemma numbered_app E E' :
  numbered E → (∀ k b, E' !! k = Some b → instance_id b = id ∧ incarnation b = inc ∧ seq_no b = Z.of_nat (length E) + Z.of_nat k + 1 ∧ batch_ok b ∧ ∀ e, e ∈ entries b → entry_ok e) →
  numbered (E ++ E').
Proof.
  intros H H' k b [Hk|[Hk Hk']]%lookup_app_Some; [by apply H|]. specialize (H' _ _ Hk'). by replace (Z.of_nat (length E) + Z.of_nat (k - length E)) with (Z.of_nat k) in H' by lia.
Qed.
Lemma capacity_batches_ok s ms w dropped :
  sub_instance_id s = id → sub_incarnation s = inc → 0 <= sub_seq s → 0 <= sub_capacity_revision s → Forall module_ok ms → f_lt w f_zero = false → 0 <= dropped →
  ∃ bs, py_enumerate (capacity_batch s w dropped) ms = Ret bs ∧ module_of <$> bs = ms ∧
    ∀ k b, bs !! k = Some b → instance_id b = id ∧ incarnation b = inc ∧ seq_no b = sub_seq s + Z.of_nat k + 1 ∧ batch_ok b ∧
      event_type b = CONFIG ∧ entries b = [] ∧ capacity_revision b = sub_capacity_revision s.
Proof.
  intros E1 E2 Hseq Hrev Hms Hw Hd. set (g := λ k m, mkBatch id inc (sub_seq s + k + 1) CONFIG (mod_tier m) (mod_backend m) [] (mod_shared m) w (mod_capacity_bytes m) (sub_capacity_revision s) dropped).
  assert (∀ k x, ms !! k = Some x → check_batch (g (Z.of_nat k) x) = Ret (g (Z.of_nat k) x)) as Hg.
  { intros k m Hk. rewrite Forall_lookup in Hms. destruct (Hms k m Hk) as (? & ? & ?). apply check_batch_ok; cbn; (done || lia || by left). }
  rewrite (enumerate_ok _ g) by (intros k m Hk; unfold capacity_batch; rewrite E1, E2; by apply Hg).
  exists (imap (λ k x, g (Z.of_nat k) x) ms). split; [done|]. split.
  - apply list_eq. intros k. rewrite list_lookup_fmap, list_lookup_imap. destruct (ms !! k) as [[]|]; done.
  - intros k b. rewrite list_lookup_imap. destruct (ms !! k) as [m|] eqn:Hk; [|done]. intros [= <-]. split_and!; try done. by apply Hg.
Qed.

Lemma placement_batches_ok s declared pending w dropped :
  sub_instance_id s = id → sub_incarnation s = inc → 0 <= sub_seq s → (∀ p, p ∈ pending → pending_ok p) → f_lt w f_zero = false → 0 <= dropped →
  ∃ bs, py_enumerate (placement_batch s declared w dropped) pending = Ret bs ∧ bs ≫= batch_changes = pending ≫= pending_changes ∧
    ∀ k b, bs !! k = Some b → instance_id b = id ∧ incarnation b = inc ∧ seq_no b = sub_seq s + Z.of_nat (length declared) + Z.of_nat k + 1 ∧ batch_ok b ∧
      event_type b ≠ CONFIG ∧ ∀ e, e ∈ entries b → entry_ok e.
Proof.
  intros E1 E2 Hseq Hp Hw Hd.
  set (g := λ k p, mkBatch id inc (sub_seq s + Z.of_nat (length declared) + k + 1) (pd_event_type p) (pd_tier p) (pd_backend p) (pd_entries p) (pd_shared p) w 0 0 dropped).
  assert (∀ k p, pending !! k = Some p → check_batch (g (Z.of_nat k) p) = Ret (g (Z.of_nat k) p) ∧ pending_ok p) as Hg.
  { intros k p Hk. pose proof (Hp p (list_elem_of_lookup_2 _ _ _ Hk)) as Hok. split; [|done]. destruct Hok as (? & ? & ? & ?). apply check_batch_ok; cbn; (done || lia). }
  rewrite (enumerate_ok _ g) by (intros k p Hk; unfold placement_batch; rewrite E1, E2; by apply Hg).
  exists (imap (λ k x, g (Z.of_nat k) x) pending). split; [done|]. split.
  - assert (∀ n, imap (λ k p, g (Z.of_nat (n + k)) p) pending ≫= batch_changes = pending ≫= pending_changes) as H.
    { clear. induction pending as [|p pending IH]; intros n; [done|]. cbn [imap mbind list_bind]. f_equal. rewrite <-(IH (n + 1)%nat). f_equal. apply imap_ext.
      intros k x _. cbn. f_equal. lia. }
    exact (H 0%nat).
  - intros k b. rewrite list_lookup_imap. destruct (pending !! k) as [p|] eqn:Hk; [|done]. intros [= <-]. destruct (Hg k p Hk) as [? (? & ? & ? & ?)]. done.
Qed.

(** What publishing leaves: the batches are in the log, and a declaration that
    was not delivered is pending again. *)
Lemma publish_batches_run capacity bs s :
  ok (sub_sink s).1 → pending_capacity s = None →
  ∃ k c, publish_batches (logged sink) capacity bs s = (Ret tt, set_capacity c (set_sink (k, emitted s ++ bs) s)) ∧ ok k ∧ (c = None ∨ c = capacity).
Proof.
  intros Hok Hc. unfold publish_batches. cbn [logged publish]. pose proof (publish_keeps bs (sub_sink s).1 Hok) as Hk. pose proof (publish_fails bs (sub_sink s).1) as Hf.
  destruct (publish sink bs (sub_sink s).1) as [[u|x] k]; cbn [snd] in Hk.
  - exists k, None. split; [|auto]. f_equal. destruct s; cbn in *. by rewrite Hc.
  - rewrite (Hf x k Hok eq_refl), Hc. exists k, capacity. rewrite bool_decide_true by done. auto.
Qed.

Lemma configs_all bs : (∀ b, b ∈ bs → event_type b = CONFIG) → configs bs = bs.
Proof. apply filter_all. Qed.
Lemma configs_none bs : (∀ b, b ∈ bs → event_type b ≠ CONFIG) → configs bs = [].
Proof. apply filter_none. Qed.
Lemma changes_none bs : (∀ b, b ∈ bs → entries b = []) → bs ≫= batch_changes = [].
Proof.
  induction bs as [|b bs IH]; intros H; [done|]. rewrite bind_cons. rewrite IH by (intros x Hx; apply H; by right). unfold batch_changes. by rewrite (H b) by left.
Qed.

(** The batches of a declaration, after the revision was raised for it. *)
Lemma declare_ok capacity w dropped s :
  sub_instance_id s = id → sub_incarnation s = inc → 0 <= sub_seq s → 0 <= sub_capacity_revision s → (∀ ms, capacity = Some ms → Forall module_ok ms) →
  f_lt w f_zero = false → 0 <= dropped →
  ∃ bs r, _capacity_batches capacity w dropped s = (Ret bs, set_revision r s) ∧
    match capacity with Some ms => r = sub_capacity_revision s + 1 ∧ module_of <$> bs = ms | None => r = sub_capacity_revision s ∧ bs = [] end ∧
    ∀ k b, bs !! k = Some b → instance_id b = id ∧ incarnation b = inc ∧ seq_no b = sub_seq s + Z.of_nat k + 1 ∧ batch_ok b ∧
      event_type b = CONFIG ∧ entries b = [] ∧ capacity_revision b = r.
Proof.
  intros E1 E2 Hseq Hrev Hms Hw Hd. destruct capacity as [ms|]; cbn [_capacity_batches].
  - unfold h_bind, h_modify, h_get, h_lift. destruct (capacity_batches_ok (set_revision (sub_capacity_revision s + 1) s) ms w dropped) as (bs & -> & Hm & Hb);
      try done; [cbn; lia|by apply Hms|]. exists bs, (sub_capacity_revision s + 1). done.
  - exists [], (sub_capacity_revision s). split; [by destruct s|]. split; [done|]. by intros k b ?%lookup_nil_Some || by intros [].
Qed.

Lemma declared_flushed decl capacity r E declared placed r' :
  declared_ok decl capacity r E → (∀ b, b ∈ placed → event_type b ≠ CONFIG) →
  (∀ b, b ∈ declared → event_type b = CONFIG ∧ capacity_revision b = r') →
  match capacity with Some ms => r' = r + 1 ∧ module_of <$> declared = ms | None => r' = r ∧ declared = [] end →
  ∀ c, c = None ∨ c = capacity → declared_ok decl c r' (E ++ declared ++ placed).
Proof.
  intros (older & current & Hc & Ho & Hcur & Hp) Hpl Hde Hcap c Hcc. unfold declared_ok. rewrite !configs_app, (configs_none placed), app_nil_r by done.
  rewrite (configs_all declared) by (intros b Hb; by apply Hde). destruct capacity as [ms|].
  - destruct Hcap as [-> Hm]. subst decl. exists (older ++ current), declared. rewrite Hc. split_and!; [done| |intros b Hb; by apply Hde|].
    + intros b [Hb%Ho|Hb%Hcur]%elem_of_app; lia.
    + by destruct Hcc as [->| ->].
  - destruct Hcap as [-> ->]. rewrite app_nil_r. exists older, current. split_and!; try done. by destruct Hcc as [->| ->].
Qed.

Lemma flush_pending_ok chs decl s :
  emit_inv chs decl s →
  ∃ s', flush_pending (logged sink) time (pending_batches s) (pending_capacity s) s = (Ret tt, s') ∧ emit_inv chs decl s' ∧ pending_batches s' = [] ∧
    flush_interval s' = flush_interval s ∧ last_flush s' = last_flush s ∧ chunk_tokens s' = chunk_tokens s.
Proof.
  intros [[E1 E2] Hseq Hnum Hch Hpend Hcap Hdec Hrev Htok Hsink]. unfold flush_pending, h_bind at 1, h_modify, h_bind at 1, read_clock, h_bind at 1, h_get. cbv beta iota.
  set (s0 := mkSub _ _ _ _ _ _ _ _ _ _ _). set (w := wall (time _)). pose proof (wall_nonneg (sub_ticks (set_capacity None (set_pending [] s)))) as Hw. fold w in Hw.
  set (dropped := sink_dropped_events _ _). assert (0 <= dropped) as Hd by (apply (dropped_nonneg (sink := sink) (sub_sink s).1 Hsink)).
  destruct (declare_ok (pending_capacity s) w dropped s0) as (declared & r & Ed & Hr & Hdb); try done; [cbn; lia|]. unfold h_bind at 1. rewrite Ed. cbv beta iota.
  destruct (placement_batches_ok (set_revision r s0) declared (pending_batches s) w dropped) as (placed & Ep & Hpc & Hpb); try done; [cbn; lia|].
  unfold h_bind at 1, h_bind at 1, h_lift. rewrite Ep. cbv beta iota. unfold h_bind at 1. cbv beta iota.
  destruct (publish_batches_run (pending_capacity s) (declared ++ placed) (set_seq (sub_seq (set_revision r s0) + Z.of_nat (length (declared ++ placed))) (set_revision r s0))) as (k & c & -> & Hk & Hc); [done|done|].
  eexists. split; [reflexivity|]. split; [|done].
  assert (∀ b, b ∈ declared → event_type b = CONFIG ∧ entries b = [] ∧ capacity_revision b = r) as Hde.
  { intros b [i Hi]%list_elem_of_lookup. by apply Hdb in Hi as (_ & _ & _ & _ & ? & ? & ?). }
  assert (∀ b, b ∈ placed → event_type b ≠ CONFIG) as Hpl by (intros b [i Hi]%list_elem_of_lookup; by apply Hpb in Hi as (_ & _ & _ & _ & ? & _)).
  split; unfold emitted; cbn [set_capacity set_sink set_seq set_revision set_pending sub_sink sub_instance_id sub_incarnation sub_seq pending_batches pending_capacity sub_capacity_revision chunk_tokens fst snd].
  - done.
  - change (sub_sink s0) with (sub_sink s). change (sub_seq s0) with (sub_seq s). rewrite Hseq, (length_app (sub_sink s).2). unfold emitted. lia.
  - apply numbered_app; [done|]. change (sub_sink s0) with (sub_sink s). change (sub_seq s0) with (sub_seq s) in Hdb. change (sub_seq (set_revision r s0)) with (sub_seq s) in Hpb.
    rewrite Hseq in Hdb, Hpb. intros i b [Hi|[Hl Hi]]%lookup_app_Some.
    + apply Hdb in Hi as (? & ? & Hn & ? & _ & He & _). split_and!; try done. rewrite He. by intros e ?%elem_of_nil.
    + apply Hpb in Hi as (? & ? & Hn & ? & _ & He). split_and!; try done. rewrite Hn. unfold emitted. lia.
  - change (sub_sink s0) with (sub_sink s). rewrite !bind_app_changes, Hpc, (changes_none declared) by (intros b Hb; by apply Hde). cbn [app mbind list_bind]. by rewrite app_nil_r.
  - by intros p ?%elem_of_nil.
  - intros ms ->. destruct Hc as [?|Hc]; [done|]. by apply Hcap.
  - change (sub_sink s0) with (sub_sink s). eapply declared_flushed; [exact Hdec|done|intros b Hb; split; by apply Hde| |done]. exact Hr.
  - destruct (pending_capacity s); destruct Hr as [-> _]; cbn; lia.
  - done.
  - done.
Qed.

Lemma flush_ok chs decl s :
  emit_inv chs decl s → ∃ s', flush (logged sink) time s = (Ret tt, s') ∧ emit_inv chs decl s' ∧ pending_batches s' = [] ∧
    flush_interval s' = flush_interval s ∧ last_flush s' = last_flush s ∧ chunk_tokens s' = chunk_tokens s.
Proof.
  intros Hs. pose proof (flush_pending_ok chs decl s Hs) as Hf. unfold flush, h_bind, h_get. destruct (pending_batches s) as [|p l] eqn:Ep; [|done].
  destruct (pending_capacity s) as [ms|] eqn:Ec; [done|]. by exists s.
Qed.

Lemma inv_ticks chs decl s n : emit_inv chs decl s → emit_inv chs decl (mkSub (sub_sink s) (sub_instance_id s) (sub_incarnation s) (flush_interval s) (last_flush s)
  (sub_seq s) (pending_batches s) (pending_capacity s) (sub_capacity_revision s) (chunk_tokens s) n).
Proof. intros []. by split. Qed.
Lemma inv_last_flush chs decl s t : emit_inv chs decl s → emit_inv chs decl (set_last_flush t s).
Proof. intros []. by split. Qed.

(** A reading of the clock at which a flush is due. *)
Definition due s : bool := SFleb (flush_interval s) (f_sub (monotonic (time (sub_ticks s))) (last_flush s)).

Lemma flush_if_due_ok chs decl s :
  emit_inv chs decl s → ∃ s', _flush_if_due (logged sink) time s = (Ret tt, s') ∧ emit_inv chs decl s' ∧ chunk_tokens s' = chunk_tokens s ∧
    (due s = true → pending_batches s' = []).
Proof.
  intros Hs. unfold _flush_if_due, h_bind, h_get, read_clock, h_modify. cbv beta iota. fold (due s). cbn [flush_interval last_flush sub_ticks].
  pose proof (inv_ticks _ _ _ (sub_ticks s + 1) Hs) as H1. set (s1 := mkSub _ _ _ _ _ _ _ _ _ _ _) in *. unfold due.
  destruct (SFleb _ _) eqn:Ed; [|by exists s1]. destruct (flush_ok _ _ _ (inv_last_flush _ _ _ (monotonic (time (sub_ticks s))) H1)) as (s' & -> & H2 & H3 & _ & _ & H4).
  exists s'. split_and!; [done|done|rewrite H4; done|done].
Qed.

(** *** Recording *)

Lemma append_pending_changes t tr bk es sh l :
  (∀ p, p ∈ l → pending_ok p) → append_pending t tr bk es sh l ≫= pending_changes = (l ≫= pending_changes) ++ entry_changes t tr bk sh es.
Proof.
  intros Hl. unfold append_pending. assert ((l ++ [mkPending t tr bk sh es]) ≫= pending_changes = (l ≫= pending_changes) ++ entry_changes t tr bk sh es) as Hnew.
  { rewrite bind_app. f_equal. cbn [mbind list_bind]. apply app_nil_r. }
  destruct (last l) as [p|] eqn:El; [|done]. destruct (same_identity t tr bk sh p) eqn:Es; [|done].
  apply last_Some in El as [l' ->]. rewrite removelast_last, !bind_app, <-app_assoc. f_equal. cbn [mbind list_bind]. rewrite !app_nil_r.
  unfold same_identity in Es. rewrite !andb_true_iff, !bool_decide_eq_true in Es. destruct Es as [[[<- <-] <-] <-].
  unfold pending_changes. cbn. apply entry_changes_app. apply (Hl p). apply elem_of_app. right. left.
Qed.

Lemma append_pending_ok t tr bk es sh l :
  (∀ p, p ∈ l → pending_ok p) → pending_ok (mkPending t tr bk sh es) → ∀ p, p ∈ append_pending t tr bk es sh l → pending_ok p.
Proof.
  intros Hl (H1 & H2 & H3 & H4) p. cbn in *. unfold append_pending.
  assert (p ∈ l ++ [mkPending t tr bk sh es] → pending_ok p) as Hnew by (intros [?| ->%list_elem_of_singleton]%elem_of_app; [auto|done]).
  destruct (last l) as [q|] eqn:El; [|done]. destruct (same_identity t tr bk sh q); [|done].
  apply last_Some in El as [l' ->]. rewrite removelast_last. intros [?| ->%list_elem_of_singleton]%elem_of_app; [apply Hl, elem_of_app; by left|].
  split_and!; try done. cbn. intros e [He|He]%elem_of_app; [|auto]. destruct (Hl q) as (_ & _ & _ & Hq); [apply elem_of_app; right; left|auto].
Qed.

Lemma record_ok chs decl s t tr bk es sh :
  emit_inv chs decl s → pending_ok (mkPending t tr bk sh es) →
  ∃ s', _record (logged sink) time t tr bk es sh s = (Ret tt, s') ∧ emit_inv (chs ++ entry_changes t tr bk sh es) decl s' ∧ chunk_tokens s' = chunk_tokens s.
Proof.
  intros Hs Hes. destruct es as [|e es']; [exists s; rewrite app_nil_r; done|]. unfold _record. set (es := e :: es') in *. unfold h_bind, h_modify.
  destruct (flush_if_due_ok (chs ++ entry_changes t tr bk sh es) decl (set_pending (append_pending t tr bk es sh (pending_batches s)) s)) as (s' & E & H1 & H2 & _).
  - destruct Hs as [? ? ? Hch Hp]. split; try done; unfold emitted in *; cbn [set_pending sub_sink pending_batches].
    + rewrite append_pending_changes by done. rewrite app_assoc. by rewrite Hch.
    + by apply append_pending_ok.
  - exists s'. done.
Qed.

Lemma store_entry_ok chs decl s key size :
  emit_inv chs decl s → valid_key key → 0 <= size →
  ∃ e, _store_entry s key size = Ret e ∧ entry_ok e ∧ ∀ t tr bk sh, entry_changes t tr bk sh [e] = [mkChange t tr bk sh key size].
Proof.
  intros [] (k & E & D)%encoded_key_roundtrip Hsize. unfold _store_entry. rewrite E. cbn [py_bind]. set (c := default _NO_BINDING _).
  assert (-1 <= ct_token_offset c) as Hc.
  { unfold c. destruct (dget (chunk_hash key) (chunk_tokens s)) as [c'|] eqn:Ec; [by apply dget_Some_elem in Ec; eapply em_tokens0|done]. }
  unfold new_event_entry. rewrite (proj2 (Z.ltb_ge size 0)) by done.
  assert ((ct_token_offset c <? 0) && negb (ct_token_offset c =? UNKNOWN_TOKEN_OFFSET) = false) as ->.
  { unfold UNKNOWN_TOKEN_OFFSET. destruct (Z.ltb_spec (ct_token_offset c) 0); [|done]. by rewrite (proj2 (Z.eqb_eq _ _)) by lia. }
  eexists. split; [reflexivity|]. split; [split; [done|by exists key]|]. intros. unfold entry_changes. cbn. by rewrite D.
Qed.

Lemma l1_entry_ok chs decl s t key size :
  emit_inv chs decl s → valid_key key → 0 <= size →
  ∃ e, (if bool_decide (t = STORE) then _store_entry s key size else bare_entry key) = Ret e ∧ entry_ok e ∧
    ∀ tr bk sh, entry_changes t tr bk sh [e] = [mkChange t tr bk sh key (size_in t size)].
Proof.
  intros Hs Hk Hsize. unfold size_in. destruct (decide (t = STORE)) as [->|Ht].
  - rewrite bool_decide_true by done. destruct (store_entry_ok _ _ s key size Hs Hk Hsize) as (e & ? & ? & ?). by exists e.
  - rewrite bool_decide_false by done. destruct (bare_entry_ok key Hk) as (e & ? & ? & ?). by exists e.
Qed.

(** The entries of an event by medium. *)
Lemma group_ok chs decl s t keys meta (d : dict L1BackendType (list CacheEventEntry)) :
  emit_inv chs decl s → length keys = length meta → Forall valid_key keys → Forall (λ m, 0 <= meta_size_bytes m) meta →
  (∀ m es, (m, es) ∈ d → ∀ e, e ∈ es → entry_ok e) → NoDup (dkeys d) →
  ∃ d', zip_strict (λ (d : dict L1BackendType (list CacheEventEntry)) key m,
      let! e := if bool_decide (t = STORE) then _store_entry s key (meta_size_bytes m) else bare_entry key in
      Ret (dset (meta_backend m) (default [] (dget (meta_backend m) d) ++ [e]) d)) d keys meta = Ret d' ∧
    (∀ m es, (m, es) ∈ d' → ∀ e, e ∈ es → entry_ok e) ∧ NoDup (dkeys d') ∧ dkeys d' = foldl (λ l m, oset_set (meta_backend m) l) (dkeys d) meta ∧
    ∀ m, entry_changes t TierL1 (backend_value m) false (default [] (dget m d')) =
         entry_changes t TierL1 (backend_value m) false (default [] (dget m d)) ++ medium_changes t keys meta m.
Proof.
  intros Hs. revert meta d. induction keys as [|key keys IH]; intros [|mt meta] d Hl Hk Hm Hd Hn; try done.
  { exists d. split_and!; try done. intros m. by rewrite app_nil_r. }
  cbn [zip_strict]. apply Forall_cons in Hk as [Hk1 Hk], Hm as [Hm1 Hm]. destruct (l1_entry_ok _ _ s t key (meta_size_bytes mt) Hs Hk1 Hm1) as (e & -> & He & Hc). cbn [py_bind].
  set (old := default [] (dget (meta_backend mt) d)). assert (∀ x, x ∈ old → entry_ok x) as Hold.
  { unfold old. destruct (dget (meta_backend mt) d) eqn:E; [apply (Hd (meta_backend mt)); by apply dget_Some_elem|by intros x ?%elem_of_nil]. }
  destruct (IH meta (dset (meta_backend mt) (old ++ [e]) d)) as (d' & -> & H1 & H2 & H3 & H4); [cbn in Hl; lia|done|done| |by apply NoDup_dset|].
  { intros m es Hin. apply (elem_dget _ _ _ (NoDup_dset _ _ _ Hn)) in Hin. rewrite dget_dset in Hin. case_decide; [|by apply (Hd m), dget_Some_elem].
    injection Hin as <-. intros x [?| ->%list_elem_of_singleton]%elem_of_app; auto. }
  exists d'. split_and!; [done|done|done| |].
  - rewrite H3. cbn [foldl]. f_equal. rewrite dkeys_dset. unfold oset_set. destruct (decide (meta_backend mt ∈ dkeys d)) as [Hi|Hi].
    + by rewrite (proj2 (oset_mem_true _ _) Hi).
    + by rewrite (proj2 (oset_mem_false _ _) Hi).
  - intros m. rewrite H4, dget_dset. unfold medium_changes. change (zip (key :: keys) (mt :: meta)) with ((key, mt) :: zip keys meta). rewrite filter_cons. cbn [snd].
    destruct (decide (meta_backend mt = m)) as [<-|Hne]; [|done]. change (default [] (Some (old ++ [e]))) with (old ++ [e]). fold old. rewrite entry_changes_app, Hc by done.
    rewrite fmap_cons, <-app_assoc. done.
Qed.

Lemma bind_by_key {K V W} `{EqDecision K} (f : K → V → list W) (dflt : V) (d : dict K V) :
  NoDup (dkeys d) → (d ≫= λ q, f q.1 q.2) = dkeys d ≫= λ k, f k (default dflt (dget k d)).
Proof.
  intros Hn. unfold dkeys in *. rewrite list_fmap_bind.
  assert (∀ l : dict K V, (∀ q, q ∈ l → dget q.1 d = Some q.2) → (l ≫= λ q, f q.1 q.2) = l ≫= (λ k, f k (default dflt (dget k d))) ∘ fst) as Hl.
  { induction l as [|q l IH]; intros Hg; [done|]. rewrite !bind_cons, IH by (intros x Hx; apply Hg; by right). cbn. by rewrite (Hg q (list_elem_of_here _ _)). }
  apply Hl. intros [k v] Hq. by apply elem_dget.
Qed.

Lemma record_l1_ok chs decl s t keys meta :
  emit_inv chs decl s → t = STORE ∨ t = DELETE → length keys = length meta → Forall valid_key keys → Forall (λ m, 0 <= meta_size_bytes m) meta →
  ∃ s', _record_l1_placements (logged sink) time t keys meta s = (Ret tt, s') ∧ emit_inv (chs ++ (media meta ≫= medium_changes t keys meta)) decl s' ∧ chunk_tokens s' = chunk_tokens s.
Proof.
  intros Hs Ht Hl Hk Hm. unfold _record_l1_placements, h_bind at 1, h_get, h_bind at 1, h_lift.
  destruct (group_ok _ _ s t keys meta [] Hs Hl Hk Hm) as (d & -> & Hd & Hn & Hkeys & Hch); [by intros m es ?%elem_of_nil|constructor|].
  assert (media meta ≫= medium_changes t keys meta = d ≫= λ q, entry_changes t TierL1 (backend_value q.1) false q.2) as ->.
  { rewrite (bind_by_key (λ m es, entry_changes t TierL1 (backend_value m) false es) []) by done. unfold media. change (@nil L1BackendType) with (dkeys (@nil (L1BackendType * list CacheEventEntry))).
    rewrite <-Hkeys. clear -Hch. induction (dkeys d) as [|m l IH]; [done|]. rewrite !bind_cons, IH. f_equal. by rewrite Hch. }
  clear Hn Hkeys Hch Hl Hk Hm. revert chs s Hs. induction d as [|[m es] d IH]; intros chs s Hs; [exists s; by rewrite app_nil_r|]. cbn [h_iter fst snd].
  destruct (record_ok chs decl s t TierL1 (backend_value m) es false Hs) as (s1 & E1 & H1 & T1).
  { split_and!; cbn; [by destruct Ht as [->| ->]|left; by destruct m|done|]. apply (Hd m). left. }
  unfold h_bind at 1. rewrite E1. destruct (IH (λ m' es' Hin, Hd m' es' (list_elem_of_further _ _ _ Hin)) _ s1 H1) as (s2 & E2 & H2 & T2). exists s2. split; [exact E2|]. split; [|congruence].
  rewrite bind_cons, app_assoc. exact H2.
Qed.

Lemma l2_entries_ok chs decl s keys sizes acc :
  emit_inv chs decl s → length keys = length sizes → Forall valid_key keys → Forall (λ n, 0 <= n) sizes → (∀ e, e ∈ acc → entry_ok e) →
  ∃ es, zip_strict (λ es key size, let! e := _store_entry s key size in Ret (es ++ [e])) acc keys sizes = Ret es ∧ (∀ e, e ∈ es → entry_ok e) ∧
    ∀ tr bk sh, entry_changes STORE tr bk sh es = entry_changes STORE tr bk sh acc ++ ((λ q : ObjectKey * Z, mkChange STORE tr bk sh q.1 q.2) <$> zip keys sizes).
Proof.
  intros Hs. revert sizes acc. induction keys as [|key keys IH]; intros [|n sizes] acc Hl Hk Hn Hacc; try done.
  { exists acc. split_and!; try done. intros. by rewrite app_nil_r. }
  apply Forall_cons in Hk as [Hk1 Hk], Hn as [Hn1 Hn]. cbn [zip_strict]. destruct (store_entry_ok _ _ s key n Hs Hk1 Hn1) as (e & -> & He & Hc). cbn [py_bind].
  destruct (IH sizes (acc ++ [e])) as (es & -> & H1 & H2); [cbn in Hl; lia|done|done|intros x [?| ->%list_elem_of_singleton]%elem_of_app; auto|].
  exists es. split_and!; [done|done|]. intros. rewrite H2, entry_changes_app, Hc by done. by rewrite <-app_assoc.
Qed.

Lemma inv_tokens chs decl s d : emit_inv chs decl s → (∀ h c, (h, c) ∈ d → -1 <= ct_token_offset c) → emit_inv chs decl (set_chunk_tokens d s).
Proof. intros [] Hd. by split. Qed.

Lemma bind_tokens_ok chs decl s hashes chunks offsets :
  emit_inv chs decl s → length hashes = length chunks → length hashes = length offsets → Forall (λ o, -1 <= o) offsets →
  ∃ s', bind_tokens hashes chunks offsets s = (Ret tt, s') ∧ emit_inv chs decl s'.
Proof.
  revert s chunks offsets. induction hashes as [|h hashes IH]; intros s [|c chunks] [|o offsets] Hs H1 H2 Ho; try done; [by exists s|].
  apply Forall_cons in Ho as [Ho1 Ho]. cbn [bind_tokens]. unfold h_bind at 1, h_modify. apply IH; [|cbn in *; lia..|done].
  apply inv_tokens; [done|]. destruct Hs. intros h' c' [Hin|Hin]%elem_of_app; [|by apply list_elem_of_singleton in Hin as [= -> ->]].
  unfold ddel in Hin. apply list_elem_of_filter in Hin as [_ Hin]. by eapply em_tokens0.
Qed.

Lemma evict_oldest_suffix d : ∃ n, evict_oldest d = drop n d.
Proof.
  induction d as [|q d [n IH]]; [by exists 0%nat|]. cbn [evict_oldest]. destruct (_ <? _); [|by exists 0%nat]. exists (Datatypes.S n). by rewrite IH.
Qed.

Lemma on_tokens_ok chs decl s hashes chunks offsets :
  emit_inv chs decl s → length hashes = length chunks → length hashes = length offsets → Forall (λ o, -1 <= o) offsets →
  ∃ s', _on_tokens hashes chunks offsets s = (Ret tt, s') ∧ emit_inv chs decl s'.
Proof.
  intros Hs H1 H2 H3. unfold _on_tokens, h_bind. destruct (bind_tokens_ok _ _ _ _ _ _ Hs H1 H2 H3) as (s1 & -> & Hs1). eexists. split; [reflexivity|].
  destruct (_ <=? _); [done|]. apply inv_tokens; [done|]. destruct (evict_oldest_suffix (chunk_tokens s1)) as [n ->]. intros h c Hin.
  destruct Hs1. eapply (em_tokens0 h). rewrite <-(take_drop n (chunk_tokens s1)). apply elem_of_app. right. exact Hin.
Qed.

(** An event, however the sink fares: the callback returns, and what it was about
    is in the stream. *)
Lemma event_step_ok chs decl s ev :
  emit_inv chs decl s → event_ok ev → ∃ s', on_event (logged sink) time ev s = (Ret tt, s') ∧ emit_inv (chs ++ event_changes ev) (declare decl ev) s' ∧
    match ev with MP_TOKENS _ _ _ => True | _ => chunk_tokens s' = chunk_tokens s end.
Proof.
  intros Hs Hev. assert (∀ t tr bk sh keys, t = DELETE ∨ t = ACCESS → bk ≠ ""%string ∨ t = ACCESS → tr ≠ TierALL → Forall valid_key keys →
    ∃ s', (let^ es := h_lift (py_map bare_entry keys) in _record (logged sink) time t tr bk es sh) s = (Ret tt, s') ∧
      emit_inv (chs ++ ((λ key, mkChange t tr bk sh key 0) <$> keys)) decl s' ∧ chunk_tokens s' = chunk_tokens s) as Hbare.
  { intros t tr bk sh keys Ht Hbk Htr Hk. destruct (bare_entries_ok keys Hk) as (es & E & Hes & _ & Hc). unfold h_bind, h_lift. rewrite E.
    destruct (record_ok chs decl s t tr bk es sh Hs) as (s' & E' & H' & T'); [split_and!; cbn; [by destruct Ht as [->| ->]|done|done|done]|]. exists s'. by rewrite <-Hc. }
  destruct ev as [keys meta|keys meta|keys meta|keys|bk sh keys sizes|bk sh keys|bk sh keys|hs cs os|ms|]; cbn [event_ok on_event event_changes declare] in *.
  - destruct Hev as (H1 & H2 & H3). destruct (record_l1_ok _ _ s STORE keys meta Hs) as (s' & ? & ? & ?); auto. by exists s'.
  - destruct Hev as (H1 & H2 & H3). destruct (record_l1_ok _ _ s STORE keys meta Hs) as (s' & ? & ? & ?); auto. by exists s'.
  - destruct Hev as (H1 & H2 & H3). destruct (record_l1_ok _ _ s DELETE keys meta Hs) as (s' & ? & ? & ?); auto. by exists s'.
  - apply Hbare; auto.
  - destruct Hev as (H0 & H1 & H2 & H3). unfold _on_l2_store, h_bind, h_get, h_lift.
    destruct (l2_entries_ok _ _ s keys sizes [] Hs H1 H2 H3) as (es & -> & Hes & Hc); [by intros e ?%elem_of_nil|].
    destruct (record_ok chs decl s STORE TierL2 bk es sh Hs) as (s' & E & H & T); [split_and!; cbn; auto|]. exists s'. split; [exact E|]. by rewrite Hc in H.
  - destruct Hev. apply Hbare; auto.
  - destruct Hev. apply Hbare; auto.
  - destruct Hev as (H1 & H2 & H3). rewrite app_nil_r. destruct (on_tokens_ok _ _ s hs cs os Hs H1 H2 H3) as (s' & ? & ?). by exists s'.
  - rewrite app_nil_r. unfold _on_capacity_changed, h_bind, h_modify.
    destruct (flush_if_due_ok chs (Some ms) (set_capacity (Some ms) s)) as (s' & ? & ? & ? & _); [|by exists s'].
    destruct Hs as [? ? ? ? ? ? (older & current & ? & ? & ? & _)]. split; try done; [by intros ? [= <-]|]. by exists older, current.
  - rewrite app_nil_r. destruct (flush_if_due_ok _ _ _ Hs) as (s' & ? & ? & ? & _). by exists s'.
Qed.

Lemma history_ok evs chs decl s :
  emit_inv chs decl s → Forall event_ok evs →
  emit_inv (chs ++ (evs ≫= event_changes)) (foldl declare decl evs) (foldl (bus_step (logged sink) time) s evs).
Proof.
  intros Hs Hevs. revert chs decl s Hs. induction Hevs as [|ev evs Hev _ IH]; intros chs decl s Hs; [by rewrite app_nil_r|]. rewrite bind_cons, app_assoc. cbn [foldl].
  apply IH. unfold bus_step. destruct (event_step_ok _ _ _ ev Hs Hev) as (s' & -> & H & _). exact H.
Qed.

Lemma new_subscriber_ok k interval now s : ok k → new_subscriber (k, []) id inc interval now = Ret s → emit_inv [] None s.
Proof.
  intros Hk. unfold new_subscriber. destruct (f_lt interval f_zero); [done|]. intros [= <-]. split; try done.
  - by intros p ?%elem_of_nil.
  - exists [], []. split_and!; try done; by intros b ?%elem_of_nil.
  - by intros h c ?%elem_of_nil.
Qed.
End emission.
