(* ===== verification/CacheEventsProps.v ===== *)
(** * What the emitter promises

    Histories of a subscriber with an arbitrary sink and clock. *)

From stdpp Require Import gmap list strings.
From Stdlib Require Import ZArith Lia.
From Stdlib.Strings Require Import Byte.
From Stdlib Require Import Floats.SpecFloat.
From S2P Require Import Prelude Keys PyFloat Handler EventGate Placements CacheEvents CacheEventsInv.

Open Scope Z_scope.
Open Scope py_scope.
Open Scope handler_scope.

(** A subscriber at start-up, with nothing logged. *)
Definition fresh {S} (ok : S → Prop) (time : nat → clock) (id : string) (inc : Z) (s : CacheEventSubscriber (S * list CacheEventBatch)) : Prop :=
  id ≠ ""%string ∧ 0 <= inc ∧ (∀ n, f_lt (wall (time n)) f_zero = false) ∧ ∃ k interval now, ok k ∧ new_subscriber (k, []) id inc interval now = Ret s.

Lemma fresh_history {S} (sink : CacheEventSink S) (ok : S → Prop) `{!SinkLaws sink ok} time id inc s evs :
  fresh ok time id inc s → Forall event_ok evs →
  emit_inv ok id inc (evs ≫= event_changes) (foldl declare None evs) (foldl (bus_step (logged sink) time) s evs).
Proof. intros (Hid & Hinc & Hw & k & i & now & Hk & E) Hevs. apply (history_ok sink ok time id inc Hid Hinc Hw evs [] None s); [by eapply new_subscriber_ok|done]. Qed.

(** C14: nothing is lost, repeated or reordered before the transport. Whatever the
    sink does and whenever flushes fall due: every callback returns; the batches
    handed to the sink are numbered from one on, without holes, under the
    server's name and incarnation, and the coordinator's constructor accepts
    them; and what they say, followed by what is still pending, is what the
    events said, in their order (within an event, medium by medium). *)
Theorem emission_in_order {S} (sink : CacheEventSink S) (ok : S → Prop) `{!SinkLaws sink ok} time id inc s0 evs :
  fresh ok time id inc s0 → Forall event_ok evs →
  let s := foldl (bus_step (logged sink) time) s0 evs in
  sub_seq s = Z.of_nat (length (emitted s)) ∧
  (∀ k b, emitted s !! k = Some b → instance_id b = id ∧ incarnation b = inc ∧ seq_no b = Z.of_nat k + 1 ∧ batch_ok b) ∧
  (emitted s ≫= batch_changes) ++ (pending_batches s ≫= pending_changes) = evs ≫= event_changes ∧
  ∀ ev, event_ok ev → ∃ s', on_event (logged sink) time ev s = (Ret tt, s').
Proof.
  intros Hf Hevs s. pose proof (fresh_history sink ok time id inc s0 evs Hf Hevs) as Hs. fold s in Hs. pose proof Hs as [_ Hseq Hnum Hch]. split_and!; [done| |done|].
  - intros k b (? & ? & ? & ? & _)%Hnum. done.
  - intros ev Hev. destruct Hf as (Hid & Hinc & Hw & _). destruct (event_step_ok sink ok time id inc Hid Hinc Hw _ _ s ev Hs Hev) as (s' & ? & _). by exists s'.
Qed.

(** What is pending goes out. The first tick of the eviction loop at which a
    flush is due hands over everything that the events so far have said. *)
Theorem due_tick_flushes {S} (sink : CacheEventSink S) (ok : S → Prop) `{!SinkLaws sink ok} time id inc s0 evs :
  fresh ok time id inc s0 → Forall event_ok evs →
  let s := foldl (bus_step (logged sink) time) s0 evs in
  due time s = true →
  let s' := bus_step (logged sink) time s L1_EVICTION_LOOP_TICK in
  pending_batches s' = [] ∧ emitted s' ≫= batch_changes = evs ≫= event_changes.
Proof.
  intros Hf Hevs s Hdue s'. pose proof (fresh_history sink ok time id inc s0 evs Hf Hevs) as Hs. fold s in Hs. destruct Hf as (Hid & Hinc & Hw & _).
  destruct (flush_if_due_ok sink ok time id inc Hid Hinc Hw _ _ s Hs) as (s1 & E & [_ _ _ Hch _ _ _ _ _ _] & _ & Hp). specialize (Hp Hdue).
  unfold s', bus_step. cbn [on_event]. rewrite E. cbn [snd]. rewrite Hp in Hch. cbn [mbind list_bind] in Hch. rewrite app_nil_r in Hch. done.
Qed.

(** ** Token content *)

Definition announcements (ev : BusEvent) : list (list byte * ChunkTokens) :=
  match ev with MP_TOKENS hs cs os => (λ q : list byte * (list Z * Z), (q.1, mkChunkTokens q.2.1 q.2.2)) <$> zip hs (zip cs os) | _ => [] end.

(** The content last announced for a chunk. *)
Definition announced (al : list (list byte * ChunkTokens)) (h : list byte) : option ChunkTokens :=
  foldl (λ acc q, if decide (q.1 = h) then Some q.2 else acc) None al.

Lemma announced_app al q h : announced (al ++ [q]) h = if decide (q.1 = h) then Some q.2 else announced al h.
Proof. unfold announced. by rewrite foldl_app. Qed.

Record caches (al : list (list byte * ChunkTokens)) (d : dict (list byte) ChunkTokens) : Prop := {
  ca_nodup : NoDup (dkeys d);
  ca_length : (length d <= length al)%nat;
  ca_sound : ∀ h c, dget h d = Some c → announced al h = Some c;
  ca_complete : Z.of_nat (length al) <= _TOKEN_BINDING_CACHE_SIZE → ∀ h, dget h d = announced al h
}.

Lemma dget_moved {K V} `{EqDecision K} k h (v : V) (d : dict K V) : dget h (ddel k d ++ [(k, v)]) = if decide (k = h) then Some v else dget h d.
Proof.
  rewrite <-(dset_notin k v (ddel k d)) by (rewrite elem_dkeys_ddel; tauto). rewrite dget_dset, dget_ddel. by case_decide.
Qed.

Lemma caches_step al d q : caches al d → caches (al ++ [q]) (ddel q.1 d ++ [q]).
Proof.
  destruct q as [k c]. cbn [fst]. intros [H1 H2 H3 H4]. split.
  - rewrite <-(dset_notin k c (ddel k d)) by (rewrite elem_dkeys_ddel; tauto). by apply NoDup_dset, NoDup_ddel.
  - rewrite !length_app. unfold ddel. pose proof (length_filter (λ p : list byte * ChunkTokens, p.1 ≠ k) d). cbn. lia.
  - intros h c'. rewrite dget_moved, announced_app. cbn. case_decide; [done|auto].
  - intros Hl h. rewrite length_app in Hl. rewrite dget_moved, announced_app. cbn. case_decide; [done|]. apply H4. lia.
Qed.

Lemma bind_tokens_run {S} hs cs os (s : CacheEventSubscriber S) :
  length hs = length cs → length hs = length os →
  bind_tokens hs cs os s = (Ret tt, set_chunk_tokens (foldl (λ d q, ddel q.1 d ++ [q]) (chunk_tokens s) (announcements (MP_TOKENS hs cs os))) s).
Proof.
  revert cs os s. induction hs as [|h hs IH]; intros [|c cs] [|o os] s H1 H2; try done; [by destruct s|]. cbn [bind_tokens]. unfold h_bind at 1, h_modify.
  rewrite IH by (cbn in *; lia). destruct s. done.
Qed.

Lemma evict_oldest_length d : Z.of_nat (length (evict_oldest d)) <= _TOKEN_BINDING_CACHE_SIZE / 2.
Proof. induction d as [|q d IH]; [done|]. cbn [evict_oldest]. destruct (Z.ltb_spec (_TOKEN_BINDING_CACHE_SIZE / 2) (Z.of_nat (length (q :: d)))); [done|lia]. Qed.

Lemma caches_suffix al d n : _TOKEN_BINDING_CACHE_SIZE < Z.of_nat (length d) → caches al d → caches al (drop n d).
Proof.
  intros Hl [H1 H2 H3 H4]. assert (NoDup (dkeys (drop n d))) as Hn by (unfold dkeys in *; rewrite fmap_drop; eapply sublist_NoDup; [done|apply sublist_drop]). split.
  - done.
  - rewrite length_drop. lia.
  - intros h c E%dget_Some_elem. apply H3, elem_dget; [done|]. rewrite <-(take_drop n d). apply elem_of_app. by right.
  - lia.
Qed.

Lemma caches_history {S} (sink : CacheEventSink S) (ok : S → Prop) `{!SinkLaws sink ok} time id inc s0 evs :
  fresh ok time id inc s0 → Forall event_ok evs →
  let d := chunk_tokens (foldl (bus_step (logged sink) time) s0 evs) in
  caches (evs ≫= announcements) d ∧ Z.of_nat (length d) <= _TOKEN_BINDING_CACHE_SIZE.
Proof.
  intros Hf Hevs. cbv zeta. induction evs as [|ev evs IH] using rev_ind.
  { destruct Hf as (_ & _ & _ & k & i & now & _ & E). unfold new_subscriber in E. destruct (f_lt i f_zero); [done|]. injection E as <-. split; [split; done || constructor|done]. }
  apply Forall_app in Hevs as [Hevs Hev]. apply Forall_cons in Hev as [Hev _]. specialize (IH Hevs). pose proof (fresh_history sink ok time id inc s0 evs Hf Hevs) as Hs.
  rewrite foldl_app, bind_app. cbn [foldl mbind list_bind]. rewrite app_nil_r. set (s := foldl _ s0 evs) in *. destruct IH as [Hc Hl].
  destruct Hf as (Hid & Hinc & Hw & _). destruct (event_step_ok sink ok time id inc Hid Hinc Hw _ _ s ev Hs Hev) as (s' & E & _ & Ht). unfold bus_step. rewrite E. cbn [snd].
  destruct ev as [| | | | | | |hs cs os| |]; try (by rewrite app_nil_r, Ht). destruct Hev as (L1 & L2 & _). cbn [on_event] in E. unfold _on_tokens, h_bind in E.
  rewrite bind_tokens_run in E by done. cbv beta iota in E. injection E as <-. cbn [chunk_tokens set_chunk_tokens].
  assert (caches ((evs ≫= announcements) ++ announcements (MP_TOKENS hs cs os)) (foldl (λ d q, ddel q.1 d ++ [q]) (chunk_tokens s) (announcements (MP_TOKENS hs cs os)))) as Hc'.
  { revert Hc. generalize (evs ≫= announcements), (chunk_tokens s). clear. induction (announcements (MP_TOKENS hs cs os)) as [|q l IH]; intros al d Hc; [by rewrite app_nil_r|].
    cbn [foldl]. specialize (IH (al ++ [q]) _ (caches_step _ _ q Hc)). by rewrite <-app_assoc in IH. }
  set (d := foldl _ (chunk_tokens s) _) in *. destruct (Z.leb_spec (Z.of_nat (length d)) _TOKEN_BINDING_CACHE_SIZE) as [Hle|Hgt]; cbn [chunk_tokens set_chunk_tokens]; [done|].
  destruct (evict_oldest_suffix d) as [n En]. pose proof (evict_oldest_length d) as Hev'. rewrite En in *. split; [by apply caches_suffix|]. unfold _TOKEN_BINDING_CACHE_SIZE in *. change (65536 / 2) with 32768 in Hev'. lia.
Qed.

(** C39: the token cache is bounded and never wrong. It holds at most
    [_TOKEN_BINDING_CACHE_SIZE] chunks, each with the content last announced for
    it, so that an entry of a store carries that content or none; and as long as
    no more chunks than that have been announced, none is missing. *)
Theorem token_cache_bounded {S} (sink : CacheEventSink S) (ok : S → Prop) `{!SinkLaws sink ok} time id inc s0 evs :
  fresh ok time id inc s0 → Forall event_ok evs →
  let s := foldl (bus_step (logged sink) time) s0 evs in
  let al := evs ≫= announcements in
  Z.of_nat (length (chunk_tokens s)) <= _TOKEN_BINDING_CACHE_SIZE ∧
  (∀ key size e, _store_entry s key size = Ret e →
     (ev_token_ids e = [] ∧ ev_token_offset e = UNKNOWN_TOKEN_OFFSET) ∨ announced al (chunk_hash key) = Some (mkChunkTokens (ev_token_ids e) (ev_token_offset e))) ∧
  (Z.of_nat (length al) <= _TOKEN_BINDING_CACHE_SIZE → ∀ h, dget h (chunk_tokens s) = announced al h).
Proof.
  intros Hf Hevs s al. destruct (caches_history sink ok time id inc s0 evs Hf Hevs) as [[_ _ Hsound Hcomp] Hl]. fold s in Hsound, Hcomp, Hl. fold al in Hsound, Hcomp. split_and!; [done| |done].
  intros key size e. unfold _store_entry. destruct (to_encoded_object_key key) as [k|]; [|done]. cbn [py_bind]. unfold new_event_entry.
  destruct (size <? 0); [done|]. destruct (_ && _); [done|]. intros [= <-]. cbn [ev_token_ids ev_token_offset].
  destruct (dget (chunk_hash key) (chunk_tokens s)) as [c|] eqn:Ec; [right|by left]. rewrite (Hsound _ _ Ec). by destruct c.
Qed.

(** *** Witnesses

    A sink whose network answers each request from a script, and a clock that
    advances by a second with each reading. *)

Definition scripted (bs : list CacheEventBatch) (script : list bool) : bool * list bool :=
  match script with b :: script' => (b, script') | [] => (true, []) end.
Definition script_sink : CacheEventSink (HttpCacheEventSink (W := list bool)) := http_sink scripted.
Definition ticking (n : nat) : clock := mkClock (f_of_Z (Z.of_nat n)) f_zero.

Definition chunk_key (h : byte) : ObjectKey := mkKey (mkIdentity [h] 16777216 "m"%string 0 "u1"%string ∅).
Lemma chunk_key_valid h : valid_key (chunk_key h).
Proof. repeat split; [done|cbn; lia]. Qed.

(** The second request is lost. *)
Definition demo_subscriber : CacheEventSubscriber (HttpCacheEventSink (W := list bool) * list CacheEventBatch) :=
  mkSub (mkHttp [true; false] 0, []) "s1" 7 (f_of_Z 2) (f_of_Z 0) 0 [] None 0 [] 0.

Lemma demo_fresh : fresh (λ s, 0 <= http_dropped_events s) ticking "s1" 7 demo_subscriber.
Proof. split_and!; [done|done|done|]. exists (mkHttp [true; false] 0), (f_of_Z 2), (mkClock (f_of_Z 0) f_zero). split; [done|]. vm_compute. reflexivity. Qed.

Definition demo_events : list BusEvent :=
  [MP_TOKENS [[x0a]] [[1; 2]] [0];
   L1_WRITE_FINISHED [chunk_key x0a; chunk_key x0b; chunk_key x0c] [mkMeta 10 DRAM; mkMeta 20 DEVDAX; mkMeta 30 DRAM];
   L2_KEYS_STORED "fs" false [chunk_key x0a] [10];
   L1_KEYS_EVICTED [chunk_key x0a] [mkMeta 10 DRAM];
   SM_CAPACITY_CHANGED [mkModule TierL1 "dram" 100 false];
   L1_EVICTION_LOOP_TICK;
   L1_KEYS_ACCESSED [chunk_key x0b]].

Lemma demo_events_ok : Forall event_ok demo_events.
Proof. unfold demo_events. repeat (apply Forall_cons; split); try apply Forall_nil; try done; cbn [event_ok]; split_and?; try done; repeat (apply Forall_cons; split); try apply Forall_nil; try done; apply chunk_key_valid. Qed.

Definition demo_run : CacheEventSubscriber (HttpCacheEventSink (W := list bool) * list CacheEventBatch) := foldl (bus_step (logged script_sink) ticking) demo_subscriber demo_events.

Lemma emission_in_order_witness :
  seq_no <$> emitted demo_run = [1; 2; 3; 4; 5] ∧ length (pending_batches demo_run) = 1%nat ∧
  (emitted demo_run ≫= batch_changes) ++ (pending_batches demo_run ≫= pending_changes) = demo_events ≫= event_changes.
Proof.
  destruct (emission_in_order script_sink _ ticking "s1" 7 demo_subscriber demo_events demo_fresh demo_events_ok) as (_ & _ & H & _).
  split; [vm_compute; reflexivity|]. split; [vm_compute; reflexivity|]. exact H.
Defined.

Lemma due_tick_flushes_witness :
  due ticking demo_run = true ∧
  pending_batches (bus_step (logged script_sink) ticking demo_run L1_EVICTION_LOOP_TICK) = [].
Proof.
  assert (due ticking demo_run = true) as Hd by (vm_compute; reflexivity). split; [exact Hd|].
  exact (proj1 (due_tick_flushes script_sink _ ticking "s1" 7 demo_subscriber demo_events demo_fresh demo_events_ok Hd)).
Defined.

Lemma token_cache_bounded_witness : dget [x0a] (chunk_tokens demo_run) = Some (mkChunkTokens [1; 2] 0).
Proof.
  destruct (token_cache_bounded script_sink _ ticking "s1" 7 demo_subscriber demo_events demo_fresh demo_events_ok) as (_ & _ & H).
  etransitivity; [apply H; vm_compute; discriminate|]. vm_compute. reflexivity.
Defined.
