(* ===== verification/FleetFeed.v ===== *)
(** * From the server to the coordinator

    What the key directory knows of a server whose stream has reached it without
    a gap, over a network that may lose, repeat and reorder batches: exactly what
    the server held when it emitted the last of them. *)

From stdpp Require Import gmap list strings sorting.
From Stdlib Require Import ZArith Lia.
From Stdlib.Strings Require Import Byte.
From Stdlib Require Import Floats.SpecFloat.
From S2P Require Import Prelude Keys PyFloat Handler TokenHasher BlendIndex EventGate Placements UsageManager KeyDirectory KeyDirectoryInv DirectoryBlend DirectoryProps Coordinator CacheEvents CacheEventsInv CacheEventsProps.

Open Scope Z_scope.
Open Scope py_scope.
Open Scope handler_scope.

(** ** What a server holds *)

(** The size of what the server holds by tier, key and backend, in backends of
    its own. *)
Definition holdings : Type := Tier * ObjectKey * string → option Z.

Definition hold (i : Tier * ObjectKey * string) (n : option Z) (h : holdings) : holdings := λ j, if decide (i = j) then n else h j.

Definition apply_change (h : holdings) (c : change) : holdings :=
  if ch_shared c then h
  else match ch_type c with
       | STORE => hold (ch_tier c, ch_key c, ch_backend c) (Some (ch_size c)) h
       | DELETE => hold (ch_tier c, ch_key c, ch_backend c) None h
       | ACCESS | CONFIG => h
       end.

(** An event's changes, one for each key in the order of the event. *)
Definition event_effects (ev : BusEvent) : list change :=
  match ev with
  | L1_WRITE_FINISHED keys meta | L1_WRITE_FINISHED_AND_READ_RESERVED keys meta =>
      (λ q : ObjectKey * L1ObjectMeta, mkChange STORE TierL1 (backend_value (meta_backend q.2)) false q.1 (meta_size_bytes q.2)) <$> zip keys meta
  | L1_KEYS_EVICTED keys meta =>
      (λ q : ObjectKey * L1ObjectMeta, mkChange DELETE TierL1 (backend_value (meta_backend q.2)) false q.1 0) <$> zip keys meta
  | _ => event_changes ev
  end.

Definition server_holds (evs : list BusEvent) : holdings := foldl apply_change (λ _, None) (evs ≫= event_effects).

(** *** Grouping by medium does not matter *)

Definition touches (i : Tier * ObjectKey * string) (c : change) : Prop := (ch_tier c, ch_key c, ch_backend c) = i.
#[export] Instance touches_dec i c : Decision (touches i c).
Proof. unfold touches. apply _. Defined.

Lemma apply_untouched i h c : ¬ touches i c → apply_change h c i = h i.
Proof. unfold touches, apply_change, hold. intros Hn. destruct (ch_shared c); [done|]. destruct (ch_type c); try done; by rewrite decide_False. Qed.

Lemma apply_ext i h h' c : h i = h' i → apply_change h c i = apply_change h' c i.
Proof. unfold apply_change, hold. intros E. destruct (ch_shared c); [done|]. destruct (ch_type c); try done; by case_decide. Qed.

Lemma fold_ext i cs h h' : h i = h' i → foldl apply_change h cs i = foldl apply_change h' cs i.
Proof. revert h h'. induction cs as [|c cs IH]; intros h h' E; [done|]. cbn [foldl]. by apply IH, apply_ext. Qed.

Lemma fold_touching i cs h : foldl apply_change h cs i = foldl apply_change h (filter (touches i) cs) i.
Proof.
  revert h. induction cs as [|c cs IH]; intros h; [done|]. cbn [foldl]. rewrite filter_cons. destruct (decide (touches i c)) as [Ht|Ht]; [apply IH|].
  rewrite <-IH. apply fold_ext. by apply apply_untouched.
Qed.

Lemma filter_bind {X Y} (P : Y → Prop) `{∀ y, Decision (P y)} (f : X → list Y) l : filter P (l ≫= f) = l ≫= λ x, filter P (f x).
Proof. induction l as [|x l IH]; [done|]. by rewrite !bind_cons, filter_app, IH. Qed.

Lemma bind_single {X Y} `{EqDecision X} (g : X → list Y) x0 l : NoDup l → (∀ x, x ≠ x0 → g x = []) → l ≫= g = if decide (x0 ∈ l) then g x0 else [].
Proof.
  intros Hn Hg. induction Hn as [|x l Hx _ IH]; [by rewrite decide_False by (by intros ?%elem_of_nil)|]. rewrite bind_cons, IH. destruct (decide (x = x0)) as [->|Hne].
  - rewrite (decide_False (P := x0 ∈ l)), decide_True by (done || left). apply app_nil_r.
  - rewrite (Hg x Hne). cbn [app]. destruct (decide (x0 ∈ l)); [by rewrite decide_True by (by right)|]. rewrite decide_False; [done|]. by intros [?|?]%elem_of_cons.
Qed.

Lemma media_elem meta m : m ∈ media meta ↔ ∃ x, x ∈ meta ∧ meta_backend x = m.
Proof.
  unfold media. assert (∀ l, m ∈ foldl (λ l x, oset_set (meta_backend x) l) l meta ↔ m ∈ l ∨ ∃ x, x ∈ meta ∧ meta_backend x = m) as H.
  { induction meta as [|x meta IH]; intros l; [split; [by left|intros [?|(y & ?%elem_of_nil & _)]; done]|]. cbn [foldl]. rewrite IH, elem_of_oset_set. split.
    - intros [[?| ->]|(y & ? & ?)]; [by left|right; exists x; split; [left|done]|right; exists y; split; [by right|done]].
    - intros [?|(y & [->|?]%elem_of_cons & <-)]; [by left; left|by left; right|right; by exists y]. }
  rewrite H. split; [intros [?%elem_of_nil|?]; done|by right].
Qed.

Lemma media_NoDup meta : NoDup (media meta).
Proof. unfold media. apply (foldl_inv (λ l, NoDup l)); [constructor|]. intros l x _ Hl. by apply NoDup_oset_set. Qed.

Lemma backend_value_inj m m' : backend_value m = backend_value m' → m = m'.
Proof. by destruct m, m'. Qed.

Lemma grouping_touches t keys meta i :
  filter (touches i) (media meta ≫= medium_changes t keys meta) =
  filter (touches i) ((λ q : ObjectKey * L1ObjectMeta, mkChange t TierL1 (backend_value (meta_backend q.2)) false q.1 (size_in t (meta_size_bytes q.2))) <$> zip keys meta).
Proof.
  destruct i as [[tr k] bk]. set (F := λ q : ObjectKey * L1ObjectMeta, mkChange t TierL1 (backend_value (meta_backend q.2)) false q.1 (size_in t (meta_size_bytes q.2))).
  rewrite filter_bind.
  assert (∀ m zs, filter (touches (tr, k, bk)) ((λ q : ObjectKey * L1ObjectMeta, mkChange t TierL1 (backend_value m) false q.1 (size_in t (meta_size_bytes q.2))) <$> filter (λ q : ObjectKey * L1ObjectMeta, meta_backend q.2 = m) zs) =
    if decide (backend_value m = bk) then filter (touches (tr, k, bk)) (F <$> zs) else []) as Hm.
  { intros m zs. induction zs as [|q zs IH]; [by destruct (decide _)|]. rewrite filter_cons, fmap_cons, (filter_cons _ (F q)). destruct (decide (meta_backend q.2 = m)) as [Em|Em].
    - rewrite fmap_cons, filter_cons, IH. assert (mkChange t TierL1 (backend_value m) false q.1 (size_in t (meta_size_bytes q.2)) = F q) as -> by (unfold F; by rewrite Em).
      destruct (decide (backend_value m = bk)) as [Eb|Eb]; [done|]. rewrite decide_False; [done|]. unfold touches, F. cbn. congruence.
    - rewrite IH. destruct (decide (backend_value m = bk)) as [Eb|Eb]; [|done]. rewrite decide_False; [done|]. unfold touches, F. cbn. intros [= _ _ H]. apply Em, backend_value_inj. congruence. }
  assert (∀ q, q ∈ zip keys meta → meta_backend q.2 ∈ media meta) as Hin.
  { intros [x y] Hq. apply media_elem. exists y. split; [by eapply elem_of_zip_r|done]. }
  assert (media meta ≫= (λ m, filter (touches (tr, k, bk)) (medium_changes t keys meta m)) =
    media meta ≫= (λ m, if decide (backend_value m = bk) then filter (touches (tr, k, bk)) (F <$> zip keys meta) else [])) as ->.
  { generalize (media meta) as l. intros l. induction l as [|m l IH]; [done|]. rewrite !bind_cons, IH. f_equal. apply Hm. }
  destruct (decide (Exists (λ q, backend_value (meta_backend q.2) = bk) (zip keys meta))) as [(q & Hq & Eb)%Exists_exists|Hno].
  - rewrite (bind_single _ (meta_backend q.2)) by (apply media_NoDup || (intros m Hne; rewrite decide_False; [done|]; intros <-; by apply Hne, backend_value_inj)).
    by rewrite decide_True, decide_True by (done || by apply Hin).
  - assert (filter (touches (tr, k, bk)) (F <$> zip keys meta) = []) as ->.
    { apply filter_none. intros c (q & -> & Hq)%list_elem_of_fmap Ht. apply Hno. rewrite Exists_exists. exists q. split; [done|]. unfold touches, F in Ht. cbn in Ht. congruence. }
    clear Hin. induction (media meta) as [|m l IH]; [done|]. rewrite bind_cons, IH. by destruct (decide (backend_value m = bk)).
Qed.

Lemma event_effects_agree ev h i : foldl apply_change h (event_changes ev) i = foldl apply_change h (event_effects ev) i.
Proof.
  destruct ev as [keys meta|keys meta|keys meta| | | | | | |]; try done; cbn [event_changes event_effects]; rewrite fold_touching, grouping_touches, <-fold_touching; done.
Qed.

Lemma server_holds_changes evs i : foldl apply_change (λ _, None) (evs ≫= event_changes) i = server_holds evs i.
Proof.
  unfold server_holds. assert (∀ h h' : holdings, h i = h' i → foldl apply_change h (evs ≫= event_changes) i = foldl apply_change h' (evs ≫= event_effects) i) as H; [|by apply H].
  induction evs as [|ev evs IH]; intros h h' E; [done|]. rewrite !bind_cons, !foldl_app. apply IH. rewrite event_effects_agree. by apply fold_ext.
Qed.

(** ** One server's stream through the gate *)

Section stream.
Context (id : string) (inc : Z) (E : list CacheEventBatch) (calls : list gate_call).
Hypothesis Hnum : numbered id inc E.
Hypothesis Hok : ∀ now b, Ingest now b ∈ calls → batch_ok b.
Hypothesis Hown : ∀ now b, Ingest now b ∈ calls → instance_id b = id → b ∈ E.
Hypothesis Hstay : Drop id ∉ calls.

Lemma since_fence_elem log b : b ∈ since_fence id log → Delivered b ∈ log ∧ instance_id b = id.
Proof.
  unfold since_fence. induction log as [|d log IH] using rev_ind; [by intros ?%elem_of_nil|]. rewrite foldl_app. cbn [foldl]. destruct d as [b'|j]; cbn [since_step].
  - destruct (decide (instance_id b' = id)) as [Ei|_].
    + intros [Hb|Hb]%elem_of_app; [destruct (IH Hb); split; [apply elem_of_app; by left|done]|]. apply list_elem_of_singleton in Hb as ->. split; [apply elem_of_app; right; left|done].
    + intros Hb. destruct (IH Hb). split; [apply elem_of_app; by left|done].
  - destruct (decide (j = id)); [by intros ?%elem_of_nil|]. intros Hb. destruct (IH Hb). split; [apply elem_of_app; by left|done].
Qed.

Lemma seen_in_stream b : b ∈ since_fence id (deliveries calls) → b ∈ E.
Proof. intros [Hb Hi]%since_fence_elem. destruct (delivered_offered _ _ Hb) as [now Hin]. by eapply Hown. Qed.

(** Without a gap, the views have seen the stream up to the cursor. *)
Lemma seen_prefix c :
  dget id (cursors (foldl run_call (new_gate [(recorder, empty_stats)] []) calls)) = Some c → gap_detected c = false →
  since_fence id (deliveries calls) = take (Z.to_nat (last_seq c)) E.
Proof.
  intros Ec Hg. pose proof (streams_ok calls Hok id) as Hs. rewrite Ec in Hs. fold (deliveries calls) in Hs. set (seg := since_fence id (deliveries calls)) in *.
  destruct Hs as [_ _ _ Hcomp _]. specialize (Hcomp Hg). pose proof (f_equal length Hcomp) as Hlen. rewrite length_fmap, length_seqZ in Hlen.
  assert (∀ k b, seg !! k = Some b → E !! k = Some b) as Hk.
  { intros k b Hkb. assert (b ∈ E) as [k' Hk']%list_elem_of_lookup by (apply seen_in_stream; by eapply list_elem_of_lookup_2).
    destruct (Hnum _ _ Hk') as (_ & _ & Hseq & _). assert (seq_no b = 1 + Z.of_nat k) as Hsk.
    { assert ((seq_no <$> seg) !! k = Some (seq_no b)) as H by (by rewrite list_lookup_fmap, Hkb). rewrite Hcomp in H. by apply lookup_seqZ in H as [-> _]. }
    by replace k with k' by lia. }
  rewrite <-Hlen. apply list_eq. intros k. destruct (decide (k < length seg)%nat) as [Hlt|Hge].
  - rewrite lookup_take_lt by done. destruct (lookup_lt_is_Some_2 _ _ Hlt) as [b Hb]. rewrite Hb. symmetry. by apply Hk.
  - rewrite lookup_take_ge by lia. by apply lookup_ge_None_2; lia.
Qed.
End stream.

(** The server is not fenced while it stays. *)
Lemma never_fenced id inc E calls :
  numbered id inc E → (∀ now b, Ingest now b ∈ calls → batch_ok b) → (∀ now b, Ingest now b ∈ calls → instance_id b = id → b ∈ E) → Drop id ∉ calls →
  Fenced id ∉ deliveries calls.
Proof.
  intros Hnum. unfold deliveries. induction calls as [|call calls IH] using rev_ind; intros Hok Hown Hstay; [by intros ?%elem_of_nil|]. rewrite foldl_app. cbn [foldl].
  assert (∀ now b, Ingest now b ∈ calls → batch_ok b) as Hok' by (intros now b Hb; apply (Hok now), elem_of_app; by left).
  assert (∀ now b, Ingest now b ∈ calls → instance_id b = id → b ∈ E) as Hown' by (intros now b Hb; apply (Hown now), elem_of_app; by left).
  assert (Drop id ∉ calls) as Hstay' by (intros Hd; apply Hstay, elem_of_app; by left). specialize (IH Hok' Hown' Hstay').
  pose proof (streams_ok calls Hok' id) as Hs. destruct (run_simulates [(recorder, empty_stats)] [] calls) as (_ & _ & _ & st & E4).
  pose proof (seen_in_stream id E calls Hown') as Hseen. unfold deliveries in Hseen. set (g := foldl run_call _ calls) in *.
  pose proof (run_call_effect g call) as H. destruct (call_effect (cursors g) (departed g) call) as [[ds cu] dep] eqn:Ee. cbv zeta in H. destruct H as (H1 & _ & _).
  rewrite E4 in H1. destruct (recorder_delivers st (views g) ds) as (st' & Er). rewrite Er in H1. injection H1 as _ ->.
  intros [Hf|Hf]%elem_of_app; [done|]. destruct call as [now b|j|j]; cbn [call_effect] in Ee.
  - destruct (barred _ b); [injection Ee as <- _ _; by apply elem_of_nil in Hf|]. destruct (admits _ b); injection Ee as <- _ _; [|by apply elem_of_nil in Hf].
    unfold batch_deliveries in Hf. apply elem_of_app in Hf as [Hf|Hf]; [|by apply list_elem_of_singleton in Hf].
    destruct (restarts (cursors g) b) eqn:Er'; [|by apply elem_of_nil in Hf]. apply list_elem_of_singleton in Hf as [= Ei]. unfold restarts in Er'. rewrite <-Ei in Er'.
    destruct (dget id (cursors g)) as [c|]; [|done]. apply Z.ltb_lt in Er'. destruct Hs as [Hinc _ Hlast _ _].
    rewrite fmap_last in Hlast. destruct (last (since_fence id (views g))) as [b'|] eqn:El; [|done]. apply last_Some in El as [l El].
    assert (b' ∈ since_fence id (views g)) as Hb' by (rewrite El; apply elem_of_app; right; left). rewrite <-(Hinc b' Hb') in Er'.
    assert (∀ x, x ∈ E → incarnation x = inc) as Hi by (intros x [k Hk]%list_elem_of_lookup; by apply Hnum in Hk as (_ & ? & _)).
    rewrite (Hi b' (Hseen b' Hb')), (Hi b) in Er'; [lia|]. apply (Hown now); [apply elem_of_app; right; left|done].
  - assert (j ≠ id) as Hj by (intros ->; apply Hstay, elem_of_app; right; left). destruct (dget j _); injection Ee as <- _ _; apply list_elem_of_singleton in Hf as [= ?]; done.
  - injection Ee as <- _ _. by apply elem_of_nil in Hf.
Qed.

(** ** The specification, as far as one server is concerned *)

Definition spec_batch (m : placements) (b : CacheEventBatch) : placements := foldl (spec_entry b) m (decoded (entries b)).

Lemma spec_entry_ext b q i (m m' : placements) : m i = m' i → spec_entry b m q i = spec_entry b m' q i.
Proof. unfold spec_entry, update. intros Em. destruct (event_type b); try done; by case_decide. Qed.

Lemma spec_batch_ext b i (m m' : placements) : m i = m' i → spec_batch m b i = spec_batch m' b i.
Proof. unfold spec_batch. revert m m'. induction (decoded (entries b)) as [|q l IH]; intros m m' Em; [done|]. cbn [foldl]. by apply IH, spec_entry_ext. Qed.

Lemma spec_batch_other b i m : batch_owner b ≠ pid_owner i → spec_batch m b i = m i.
Proof.
  intros Ho. unfold spec_batch. apply (foldl_inv (λ m', m' i = m i)); [done|]. intros m' q _ <-. unfold spec_entry, update.
  destruct (event_type b); try done; rewrite decide_False; try done; by intros <-.
Qed.

Lemma own_deliveries id ds i :
  pid_owner i = id → id ≠ ""%string → Forall delivery_ok ds → Fenced id ∉ ds →
  foldl spec_deliver (λ _, None) ds i = foldl spec_batch (λ _, None) (since_fence id ds) i.
Proof.
  intros Ho Hid. induction ds as [|x ds IH] using rev_ind; intros Hds Hf; [done|]. apply Forall_app in Hds as [Hds Hx]. rewrite foldl_app. cbn [foldl].
  rewrite since_fence_app. assert (Fenced id ∉ ds) as Hf' by (intros ?; apply Hf, elem_of_app; by left). specialize (IH Hds Hf').
  assert (well_placed (foldl spec_deliver (λ _, None) ds)) as Hw.
  { apply (foldl_inv well_placed); [by intros ? ?|]. intros m d Hd Hm. rewrite Forall_forall in Hds. by apply well_placed_deliver; [apply Hds|]. }
  destruct x as [b|j]; cbn [spec_deliver since_step].
  - fold (spec_batch (foldl spec_deliver (λ _, None) ds) b). destruct (decide (instance_id b = id)) as [Ei|Ei].
    + rewrite foldl_app. cbn [foldl]. by apply spec_batch_ext.
    + rewrite spec_batch_other; [done|]. unfold batch_owner. rewrite Ho. by destruct (shared b).
  - rewrite decide_False by (intros ->; apply Hf, elem_of_app; right; left). rewrite <-IH. unfold spec_fence.
    destruct (foldl spec_deliver _ ds i) as [p|] eqn:Ep; [|done]. destruct (Hw i p Ep) as (Ei & _). rewrite bool_decide_false; [done|]. intros [_ Hj].
    rewrite Ei in Ho. unfold own_pid, pid_owner in Ho. cbn in Ho. destruct (pl_shared p); [done|]. apply Hf. rewrite <-Ho, Hj. apply elem_of_app. right. left.
Qed.

(** The placements of its batches are its holdings. *)
Lemma batch_holdings id b (m : placements) (h : holdings) t key bk :
  instance_id b = id → id ≠ ""%string → pl_size_bytes <$> m (t, key, id, bk) = h (t, key, bk) →
  pl_size_bytes <$> spec_batch m b (t, key, id, bk) = foldl apply_change h (batch_changes b) (t, key, bk).
Proof.
  intros Ei Hid. unfold spec_batch, batch_changes, entry_changes. revert m h. induction (decoded (entries b)) as [|q l IH]; intros m h Hm; [done|]. cbn [foldl fmap list_fmap]. apply IH.
  unfold spec_entry, apply_change, update, hold, batch_pid, batch_owner. cbn [ch_shared ch_type ch_tier ch_key ch_backend ch_size].
  destruct (event_type b), (shared b) eqn:Esh; try done.
  - rewrite decide_False; [done|]. intros [= _ _ ? _]. done.
  - destruct (decide ((tier b, q.1, backend b) = (t, key, bk))) as [[= -> -> ->]|Hne]; [by rewrite decide_True by (by rewrite Ei)|]. rewrite decide_False; [done|]. congruence.
  - rewrite decide_False; [done|]. intros [= _ _ ? _]. done.
  - destruct (decide ((tier b, q.1, backend b) = (t, key, bk))) as [[= -> -> ->]|Hne]; [by rewrite decide_True by (by rewrite Ei)|]. rewrite decide_False; [done|]. congruence.
Qed.

Lemma stream_holdings id bs t key bk :
  (∀ b, b ∈ bs → instance_id b = id) → id ≠ ""%string →
  pl_size_bytes <$> foldl spec_batch (λ _, None) bs (t, key, id, bk) = foldl apply_change (λ _, None) (bs ≫= batch_changes) (t, key, bk).
Proof.
  intros Hbs Hid. induction bs as [|b bs IH] using rev_ind; [done|]. rewrite bind_app, !foldl_app. cbn [foldl mbind list_bind]. rewrite app_nil_r.
  apply batch_holdings; [apply Hbs, elem_of_app; right; left|done|]. apply IH. intros x Hx. apply Hbs, elem_of_app. by left.
Qed.

(** What the directory [d] lists for server [id]. *)
Definition listed (d : KeyDirectory) (id : string) (t : Tier) (key : ObjectKey) (bk : string) (n : Z) : Prop :=
  ∃ l p, lookup_keys [key] d = [l] ∧ p ∈ l ∧ pl_instance_id p = id ∧ pl_shared p = false ∧ pl_tier p = t ∧ pl_backend p = bk ∧ pl_size_bytes p = n.

Lemma listed_spec d m id t key bk n :
  dir_ok d m → id ≠ ""%string → listed d id t key bk n ↔ pl_size_bytes <$> m (t, key, id, bk) = Some n.
Proof.
  intros Hd Hid. destruct (lookup_ok key d m Hd) as (l & El & _ & _ & Hl). split.
  - intros (l' & p & El' & Hp & <- & Hs & <- & <- & <-). rewrite El in El'. injection El' as <-. apply Hl in Hp. unfold own_pid in Hp. rewrite Hs in Hp. by rewrite Hp.
  - destruct (m (t, key, id, bk)) as [p|] eqn:Ep; [|done]. intros [= <-]. destruct Hd as [_ Hw]. destruct (Hw _ _ Ep) as (Ei & _). unfold own_pid, pid_key in Ei. cbn [fst snd] in Ei.
    exists l, p. split; [done|]. destruct (pl_shared p) eqn:Es; [by injection Ei as _ ?|]. injection Ei as -> -> ->. split_and!; try done.
    apply Hl. unfold own_pid. by rewrite Es.
Qed.

(** ** End to end *)

(** What reaches the coordinator: batches the constructor accepts, those under
    the server's name among the ones it emitted; the server stays registered. *)
Definition network_ok (id : string) (E : list CacheEventBatch) (calls : list gate_call) : Prop :=
  ∀ call, call ∈ calls →
    (match call with
     | Ingest _ b => delivery_ok (Delivered b) ∧ (instance_id b = id → (b ∈ E))
     | Drop j => j ≠ id
     | Readmit _ => True
     end).

Section end_to_end.
Context {S : Type} (sink : CacheEventSink S) (ok : S → Prop) `{!SinkLaws sink ok} (time : nat → clock) (id : string) (inc : Z).

(** The stream of a server as the views have seen it. *)
Lemma stream_reaches s0 evs calls c :
  fresh ok time id inc s0 → Forall event_ok evs →
  let s := foldl (bus_step (logged sink) time) s0 evs in
  network_ok id (emitted s) calls → dget id (cursors (foldl run_call (new_gate [(recorder, empty_stats)] []) calls)) = Some c → gap_detected c = false →
  Forall delivery_ok (deliveries calls) ∧ (Fenced id ∉ deliveries calls) ∧ since_fence id (deliveries calls) = take (Z.to_nat (last_seq c)) (emitted s).
Proof.
  intros Hf Hevs s Hnet Hc Hg. pose proof (fresh_history sink ok time id inc s0 evs Hf Hevs) as [_ _ Hnum _ _ _ _ _ _ _]. fold s in Hnum.
  assert (∀ now b, Ingest now b ∈ calls → batch_ok b) as Hok by (intros now b Hb; by destruct (Hnet _ Hb) as [[? _] _]).
  assert (∀ now b, Ingest now b ∈ calls → instance_id b = id → b ∈ emitted s) as Hown by (intros now b Hb; by destruct (Hnet _ Hb) as [_ ?]).
  assert (Drop id ∉ calls) as Hstay by (intros Hd; by apply (Hnet _ Hd)).
  split_and!; [|by eapply never_fenced|by eapply seen_prefix].
  apply Forall_forall. intros [b|j] Hb; [|done]. destruct (delivered_offered _ _ Hb) as [now Hin]. by destruct (Hnet _ Hin) as [? _].
Qed.
End end_to_end.

(** C7: the key directory follows a server. A server emits its stream through any
    sink; the network loses, repeats and reorders its batches, and those of other
    servers come in between. If the gate reports no gap for the server, then what
    the directory lists for it is what its first batches, up to the cursor's,
    say, which is a prefix of what it has done; and once the cursor is at the end
    of the stream and nothing is pending, it is exactly what the server holds. *)
Theorem directory_tracks_server {S} (sink : CacheEventSink S) (ok : S → Prop) `{!SinkLaws sink ok} time id inc s0 evs d calls c :
  fresh ok time id inc s0 → Forall event_ok evs → started d →
  let s := foldl (bus_step (logged sink) time) s0 evs in
  network_ok id (emitted s) calls →
  let g := foldl run_call (new_coordinator new_usage d) calls in
  dget id (cursors g) = Some c → gap_detected c = false →
  let seen := take (Z.to_nat (last_seq c)) (emitted s) ≫= batch_changes in
  (∀ t key bk n, listed (views g).2 id t key bk n ↔ foldl apply_change (λ _, None) seen (t, key, bk) = Some n) ∧
  (∃ rest, seen ++ rest = evs ≫= event_changes) ∧
  (last_seq c = sub_seq s → pending_batches s = [] → ∀ t key bk n, listed (views g).2 id t key bk n ↔ server_holds evs (t, key, bk) = Some n).
Proof.
  intros Hf Hevs Hd s Hnet g Hc Hg seen. destruct (run_simulates [(directory_view, empty_stats); (usage_view, empty_stats)] (new_usage, d) calls) as (Ecu & _).
  fold (new_coordinator new_usage d) g in Ecu. rewrite Ecu in Hc. destruct (stream_reaches sink ok time id inc s0 evs calls c Hf Hevs Hnet Hc Hg) as (Hds & Hnf & Hseg). fold s in Hseg.
  pose proof (fresh_history sink ok time id inc s0 evs Hf Hevs) as [_ Hseq Hnum Hch _ _ _ _ _ _]. fold s in Hseq, Hnum, Hch. destruct Hf as (Hid & _).
  assert (∀ t key bk n, listed (views g).2 id t key bk n ↔ foldl apply_change (λ _, None) seen (t, key, bk) = Some n) as Hlist.
  { intros t key bk n. unfold g. rewrite coordinator_run. cbn [snd]. destruct (directory_run_ok (λ _ _, True) (deliveries calls) d (λ _, None) Hds) as [Hd' _];
      [apply Forall_forall; by intros [b|]|by apply started_dir_ok|]. rewrite (listed_spec _ _ id t key bk n Hd' Hid), (own_deliveries id) by done. rewrite Hseg.
    rewrite stream_holdings; [done| |done]. intros b Hb. assert (b ∈ emitted s) as [k Hk]%list_elem_of_lookup; [|by apply Hnum in Hk as (? & _)].
    rewrite <-(take_drop (Z.to_nat (last_seq c)) (emitted s)). apply elem_of_app. by left. }
  split; [exact Hlist|]. split.
  - exists ((drop (Z.to_nat (last_seq c)) (emitted s) ≫= batch_changes) ++ (pending_batches s ≫= pending_changes)). unfold seen. by rewrite app_assoc, <-bind_app, take_drop.
  - intros El Ep t key bk n. rewrite Hlist, <-server_holds_changes, <-Hch, Ep. cbn [mbind list_bind]. rewrite app_nil_r. unfold seen. rewrite take_ge; [done|]. rewrite El, Hseq. lia.
Qed.

(** *** Witness *)

Definition feed_subscriber : CacheEventSubscriber (HttpCacheEventSink (W := list bool) * list CacheEventBatch) :=
  mkSub (mkHttp [] 0, []) "s1" 7 (f_of_Z 2) (f_of_Z 0) 0 [] None 0 [] 0.
Definition feed_events : list BusEvent := demo_events ++ [L1_EVICTION_LOOP_TICK].
Definition feed_run : CacheEventSubscriber (HttpCacheEventSink (W := list bool) * list CacheEventBatch) :=
  foldl (bus_step (logged script_sink) ticking) feed_subscriber feed_events.

(** Every batch twice, and one of another server. *)
Definition feed_calls : list gate_call :=
  Ingest demo_clock <$> (example_batch "s2" TierL1 STORE false 1 [example_entry "0a" 99] :: (emitted feed_run ≫= λ b, [b; b])).

Lemma feed_fresh : fresh (λ s, 0 <= http_dropped_events s) ticking "s1" 7 feed_subscriber.
Proof. split_and!; [done|done|done|]. exists (mkHttp [] 0), (f_of_Z 2), (mkClock (f_of_Z 0) f_zero). split; [done|]. vm_compute. reflexivity. Qed.

Lemma feed_events_ok : Forall event_ok feed_events.
Proof. apply Forall_app. split; [exact demo_events_ok|]. by apply Forall_cons. Qed.

Lemma feed_network : network_ok "s1" (emitted feed_run) feed_calls.
Proof.
  intros call (b & -> & Hb)%list_elem_of_fmap.
  assert (Forall delivery_ok (Delivered <$> (example_batch "s2" TierL1 STORE false 1 [example_entry "0a" 99] :: (emitted feed_run ≫= λ b, [b; b])))) as Hok
    by (apply deliveries_okb; vm_compute; reflexivity).
  rewrite Forall_forall in Hok. split; [apply Hok, list_elem_of_fmap; by exists b|]. intros Hi. apply elem_of_cons in Hb as [->|Hb]; [done|].
  apply list_elem_of_bind in Hb as (x & Hb & Hx). rewrite !elem_of_cons, elem_of_nil in Hb. by destruct Hb as [->|[->|[]]].
Qed.

Lemma directory_tracks_server_witness :
  let g := foldl run_call (new_coordinator new_usage demo_start) feed_calls in
  listed (views g).2 "s1" TierL1 (chunk_key x0b) "devdax" 20 ∧ ¬ listed (views g).2 "s1" TierL1 (chunk_key x0a) "dram" 10.
Proof.
  intros g. assert (∃ c, dget "s1"%string (cursors g) = Some c ∧ gap_detected c = false ∧ last_seq c = sub_seq feed_run) as (c & Ec & Hg & Hl).
  { assert (sub_seq feed_run = 6) as -> by (vm_compute; reflexivity).
    assert ((λ c, (gap_detected c, last_seq c)) <$> dget "s1"%string (cursors g) = Some (false, 6)) as H by (vm_compute; reflexivity).
    destruct (dget "s1"%string (cursors g)) as [c|]; [|discriminate H]. exists c. injection H as H1 H2. done. }
  destruct (directory_tracks_server script_sink _ ticking "s1" 7 feed_subscriber feed_events demo_start feed_calls c feed_fresh feed_events_ok (proj1 demo_started) feed_network Ec Hg)
    as (_ & _ & H). assert (pending_batches feed_run = []) as Hp by (clear; vm_compute; reflexivity). specialize (H Hl Hp).
  assert (server_holds feed_events (TierL1, chunk_key x0b, "devdax"%string) = Some 20) as H1 by (vm_compute; reflexivity).
  assert (server_holds feed_events (TierL1, chunk_key x0a, "dram"%string) = None) as H2 by (vm_compute; reflexivity).
  split; [exact (proj2 (H _ _ _ _) H1)|]. intros Hx. pose proof (proj1 (H _ _ _ _) Hx) as H3. rewrite H2 in H3. discriminate H3.
Defined.
