(* ===== verification/ServerConfig.v ===== *)
(** * Declared capacities

    lmcache/v1/mp_coordinator/views/server_config.py: what each server says its
    memory can hold. A declaration is a set of batches with one revision; a newer
    one replaces it. *)

From stdpp Require Import gmap list strings.
From Stdlib Require Import ZArith Lia.
From Stdlib.Strings Require Import Byte.
From Stdlib Require Import Floats.SpecFloat.
From S2P Require Import Prelude Keys PyFloat Handler BlendIndex EventGate Placements Coordinator CacheEvents CacheEventsInv CacheEventsProps FleetFeed.

Open Scope Z_scope.
Open Scope py_scope.
Open Scope handler_scope.

Abbreviation modules := (dict (Tier * string) ModuleMemoryCapacity).

Record ServerConfigRegistry := mkRegistry { by_instance : dict string modules; stamps : dict string (Z * Z) }.

Definition new_registry : ServerConfigRegistry := mkRegistry [] [].

Implicit Types (r : ServerConfigRegistry) (b : CacheEventBatch).

(** The order of tuples. *)
Definition stamp_lt (x y : Z * Z) : bool := (x.1 <? y.1) || (x.1 =? y.1) && (x.2 <? y.2).

Definition consume_config b : handler ServerConfigRegistry unit := λ r,
  if negb (bool_decide (event_type b = CONFIG)) then (Ret tt, r)
  else
    let module := mkModule (tier b) (backend b) (capacity_bytes b) (shared b) in
    let stamp := (incarnation b, capacity_revision b) in
    let stored := default (-1, -1) (dget (instance_id b) (stamps r)) in
    if stamp_lt stamp stored then (Ret tt, r)
    else
      let r := if stamp_lt stored stamp then mkRegistry (dset (instance_id b) [] (by_instance r)) (dset (instance_id b) stamp (stamps r)) else r in
      match dget (instance_id b) (by_instance r) with
      | Some ms => (Ret tt, mkRegistry (dset (instance_id b) (dset (mod_tier module, mod_backend module) module ms) (by_instance r)) (stamps r))
      | None => (Raise KeyError, r)
      end.

Definition fence_config (id : string) : handler ServerConfigRegistry unit := h_ret tt.

Definition config_consumer : Consumer ServerConfigRegistry := mkConsumer consume_config fence_config.

Definition get_config (id : string) r : list ModuleMemoryCapacity := dvalues (default [] (dget id (by_instance r))).
Definition get_all_configs r : dict string (list ModuleMemoryCapacity) := (λ q : string * modules, (q.1, dvalues q.2)) <$> by_instance r.
Definition forget (id : string) r : ServerConfigRegistry := mkRegistry (ddel id (by_instance r)) (ddel id (stamps r)).

(** *** Durable state *)

Abbreviation captured_module := (string * string * Z * bool)%type.

Definition capture_config r : list (string * Z * Z * list captured_module) :=
  (λ q : string * (Z * Z), (q.1, q.2.1, q.2.2,
     (λ m, (tier_value (mod_tier m), mod_backend m, mod_capacity_bytes m, mod_shared m)) <$> dvalues (default [] (dget q.1 (by_instance r))))) <$> stamps r.

Fixpoint restore_modules (l : list captured_module) (ms : modules) : py modules :=
  match l with
  | [] => Ret ms
  | (t, bk, cap, sh) :: l' => let! t := Tier_of t in restore_modules l' (dset (t, bk) (mkModule t bk cap sh) ms)
  end.

Definition restore_declaration (q : string * Z * Z * list captured_module) : handler ServerConfigRegistry unit :=
  let '(id, inc, rev, l) := q in
  let^ _ := h_modify (λ r, mkRegistry (by_instance r) (dset id (inc, rev) (stamps r))) in
  let^ ms := h_lift (restore_modules l []) in
  h_modify (λ r, mkRegistry (dset id ms (by_instance r)) (stamps r)).

Definition restore_config (state : list (string * Z * Z * list captured_module)) : handler ServerConfigRegistry unit := λ r,
  match by_instance r, stamps r with [], [] => h_iter restore_declaration state r | _, _ => (Raise ValueError, r) end.

(** ** One server's declaration *)

(** What the registry has of one server. *)
Abbreviation declared := (option modules * option (Z * Z))%type.
Definition declared_by (id : string) r : declared := (dget id (by_instance r), dget id (stamps r)).

Definition own_config (x : declared) b : declared :=
  if negb (bool_decide (event_type b = CONFIG)) then x
  else
    let stamp := (incarnation b, capacity_revision b) in
    let stored := default (-1, -1) x.2 in
    if stamp_lt stamp stored then x
    else
      let x := if stamp_lt stored stamp then (Some [], Some stamp) else x in
      match x.1 with Some ms => (Some (dset (tier b, backend b) (module_of b) ms), x.2) | None => x end.

Lemma consume_declared id b r :
  declared_by id (consume_config b r).2 = if decide (instance_id b = id) then own_config (declared_by id r) b else declared_by id r.
Proof.
  unfold consume_config, own_config, declared_by. destruct (negb _); [by case_decide|]. cbn [fst snd mod_tier mod_backend].
  destruct (decide (instance_id b = id)) as [<-|Hne].
  - destruct (stamp_lt _ _); [done|]. destruct (stamp_lt _ _); cbn [by_instance stamps fst snd].
    + rewrite !dget_dset_eq. cbn [snd by_instance stamps]. by rewrite !dget_dset_eq.
    + destruct (dget (instance_id b) (by_instance r)) as [ms|] eqn:Em; cbn [snd by_instance stamps]; rewrite ?dget_dset_eq; by rewrite ?Em.
  - destruct (stamp_lt _ _); [done|]. destruct (stamp_lt _ _); cbn [by_instance stamps].
    + rewrite dget_dset_eq. cbn [snd by_instance stamps]. by rewrite !dget_dset_ne.
    + destruct (dget (instance_id b) (by_instance r)) as [ms|]; cbn [snd by_instance stamps]; [by rewrite dget_dset_ne|done].
Qed.

Lemma declared_run id ds r :
  Fenced id ∉ ds →
  declared_by id (foldl (view_step config_consumer) r ds) = foldl own_config (declared_by id r) (since_fence id ds).
Proof.
  intros Hf. induction ds as [|x ds IH] using rev_ind; [done|]. rewrite foldl_app, since_fence_app. cbn [foldl].
  assert (Fenced id ∉ ds) as Hf' by (intros ?; apply Hf, elem_of_app; by left). specialize (IH Hf'). destruct x as [b|j]; cbn [view_step config_consumer consume_batch fence_views since_step].
  - rewrite consume_declared, IH. destruct (decide (instance_id b = id)); [by rewrite foldl_app|done].
  - rewrite decide_False by (intros ->; apply Hf, elem_of_app; right; left). exact IH.
Qed.

(** *** A stream of declarations *)

Lemma own_configs bs x : foldl own_config x bs = foldl own_config x (configs bs).
Proof.
  revert x. induction bs as [|b bs IH]; intros x; [done|]. unfold configs in *. rewrite filter_cons. cbn [foldl]. destruct (decide (event_type b = CONFIG)) as [Hc|Hc]; [apply IH|].
  rewrite IH. f_equal. unfold own_config. by rewrite bool_decide_false.
Qed.

Definition stamped (inc rev : Z) (x : declared) : Prop :=
  match x with (None, None) => True | (Some _, Some st) => stamp_lt st (inc, rev) = true | _ => False end.

Lemma stamp_lt_spec x y : stamp_lt x y = true ↔ x.1 < y.1 ∨ x.1 = y.1 ∧ x.2 < y.2.
Proof. unfold stamp_lt. rewrite orb_true_iff, andb_true_iff, !Z.ltb_lt, Z.eqb_eq. done. Qed.

Lemma stamp_lt_false x y : stamp_lt x y = false ↔ y.1 < x.1 ∨ y.1 = x.1 ∧ y.2 <= x.2.
Proof. rewrite <-not_true_iff_false, stamp_lt_spec. lia. Qed.

Lemma older_stamped inc rev bs x :
  0 <= inc → 0 <= rev → stamped inc rev x → (∀ b, b ∈ bs → incarnation b = inc ∧ capacity_revision b < rev ∧ 0 <= capacity_revision b) → stamped inc rev (foldl own_config x bs).
Proof.
  intros Hi Hr Hx Hbs. apply (foldl_inv (stamped inc rev)); [done|]. clear Hx. intros y b Hb Hy. destruct (Hbs b Hb) as (Ei & Hlt & Hn). unfold own_config. destruct (negb _); [done|].
  destruct (stamp_lt (incarnation b, capacity_revision b) _) eqn:E1; [done|]. destruct (stamp_lt _ (incarnation b, capacity_revision b)) eqn:E2; cbn [fst snd].
  - apply stamp_lt_spec. cbn. lia.
  - destruct y as [[ms|] [st|]]; cbn in *; done.
Qed.

Definition declare_modules (bs : list CacheEventBatch) (ms : modules) : modules := foldl (λ ms b, dset (tier b, backend b) (module_of b) ms) ms bs.

Lemma same_revision inc rev bs ms :
  (∀ b, b ∈ bs → incarnation b = inc ∧ capacity_revision b = rev ∧ event_type b = CONFIG) →
  foldl own_config (Some ms, Some (inc, rev)) bs = (Some (declare_modules bs ms), Some (inc, rev)).
Proof.
  revert ms. induction bs as [|b bs IH]; intros ms Hbs; [done|]. cbn [foldl declare_modules]. destruct (Hbs b (list_elem_of_here _ _)) as (Ei & Er & Et).
  assert (own_config (Some ms, Some (inc, rev)) b = (Some (dset (tier b, backend b) (module_of b) ms), Some (inc, rev))) as ->.
  { unfold own_config. rewrite bool_decide_true by done. cbn [negb snd]. rewrite Ei, Er. assert (stamp_lt (inc, rev) (inc, rev) = false) as Hs by (apply stamp_lt_false; cbn; lia).
    change (default (-1, -1) (Some (inc, rev))) with (inc, rev). by rewrite !Hs. }
  apply IH. intros x Hx. apply Hbs. by right.
Qed.

Lemma new_declaration inc rev b bs x :
  0 <= inc → 0 <= rev → stamped inc rev x → (∀ y, y ∈ b :: bs → incarnation y = inc ∧ capacity_revision y = rev ∧ event_type y = CONFIG) →
  foldl own_config x (b :: bs) = (Some (declare_modules (b :: bs) []), Some (inc, rev)).
Proof.
  intros Hi Hr Hx Hbs. destruct (Hbs b (list_elem_of_here _ _)) as (Ei & Er & Et). cbn [foldl declare_modules].
  assert (own_config x b = (Some (dset (tier b, backend b) (module_of b) []), Some (inc, rev))) as ->.
  { unfold own_config. rewrite bool_decide_true by done. cbn [negb]. rewrite Ei, Er. assert (stamp_lt (default (-1, -1) x.2) (inc, rev) = true) as Hs.
    { destruct x as [[ms|] [st|]]; cbn in *; try done. apply stamp_lt_spec. cbn. lia. }
    assert (stamp_lt (inc, rev) (default (-1, -1) x.2) = false) as -> by (apply stamp_lt_false; apply stamp_lt_spec in Hs; cbn in *; lia). by rewrite Hs. }
  apply same_revision. intros y Hy. apply Hbs. by right.
Qed.

(** ** The registry follows a server *)

Lemma single_view {V} (c : Consumer V) v calls : views (foldl run_call (new_gate [(c, empty_stats)] v) calls) = foldl (view_step c) v (deliveries calls).
Proof.
  destruct (run_simulates [(c, empty_stats)] v calls) as (_ & _ & E & _). cbv zeta in E. unfold deliveries. rewrite <-(view_deliver c empty_stats), <-E. done.
Qed.

(** The modules of a declaration, the last one of a tier and backend. *)
Definition declaration (ms : list ModuleMemoryCapacity) : modules := foldl (λ d m, dset (mod_tier m, mod_backend m) m d) [] ms.

Lemma declare_modules_of bs : declare_modules bs [] = declaration (module_of <$> bs).
Proof. unfold declare_modules, declaration. generalize (@nil ((Tier * string) * ModuleMemoryCapacity)). induction bs as [|b bs IH]; intros d; [done|]. apply IH. Qed.

Lemma declaration_distinct ms : NoDup ((λ m, (mod_tier m, mod_backend m)) <$> ms) → dvalues (declaration ms) = ms.
Proof.
  intros Hn. unfold declaration. rewrite (rebuild_dict (λ m, ((mod_tier m, mod_backend m), m)) ms []); cbn [app]; unfold dvalues, dkeys; rewrite <-list_fmap_compose.
  - by rewrite list_fmap_id.
  - exact Hn.
Qed.

(** C40: the coordinator knows a server's capacities. Over the same network,
    while the server stays registered, if the gate reports no gap, the stream has
    arrived to its end and nothing is pending, the registry reports the modules
    that the server declared last, if that declaration has any (an empty one is
    not heard, [empty_declaration_unheard]): for each tier and backend the last
    module declared, and so exactly the declaration if it has no two for one. *)
Theorem config_tracks_server {S} (sink : CacheEventSink S) (ok : S → Prop) `{!SinkLaws sink ok} time id inc s0 evs calls c ms :
  fresh ok time id inc s0 → Forall event_ok evs →
  let s := foldl (bus_step (logged sink) time) s0 evs in
  network_ok id (emitted s) calls →
  let g := foldl run_call (new_gate [(config_consumer, empty_stats)] new_registry) calls in
  dget id (cursors g) = Some c → gap_detected c = false → last_seq c = sub_seq s →
  foldl declare None evs = Some ms → pending_capacity s = None → ms ≠ [] →
  get_config id (views g) = dvalues (declaration ms) ∧ (NoDup ((λ m, (mod_tier m, mod_backend m)) <$> ms) → get_config id (views g) = ms).
Proof.
  intros Hf Hevs s Hnet g Hc Hg El Hdecl Hp Hne.
  pose proof (fresh_history sink ok time id inc s0 evs Hf Hevs) as [_ Hseq Hnum _ _ _ (older & current & Ecfg & Ho & Hcur & Hm) Hrev _ _]. fold s in Hseq, Hnum, Ecfg, Ho, Hcur, Hm, Hrev.
  rewrite Hp, Hdecl in Hm. set (rev := sub_capacity_revision s) in *.
  assert (dvalues (declaration ms) = get_config id (views g)) as E; [|split; [done|intros Hn; rewrite <-E; by apply declaration_distinct]].
  destruct (run_simulates [(config_consumer, empty_stats)] new_registry calls) as (Ecu & _). fold g in Ecu. rewrite Ecu in Hc.
  destruct (stream_reaches sink ok time id inc s0 evs calls c Hf Hevs Hnet Hc Hg) as (_ & Hnf & Hseg). fold s in Hseg.
  assert (∀ b, b ∈ configs (emitted s) → incarnation b = inc ∧ event_type b = CONFIG ∧ 0 <= capacity_revision b) as Hall.
  { intros b [Ht Hb]%list_elem_of_filter. apply list_elem_of_lookup in Hb as [k (_ & ? & _ & Hok & _)%Hnum]. split_and!; [done|done|].
    unfold batch_ok, check_batch in Hok. repeat (case_match; [done|]). by apply Z.ltb_ge. }
  assert (∀ b, b ∈ older ++ current → incarnation b = inc ∧ event_type b = CONFIG ∧ 0 <= capacity_revision b) as Hall' by (by rewrite <-Ecfg).
  assert (declared_by id (views g) = (Some (declare_modules current []), Some (inc, rev))) as Ed.
  { unfold g. rewrite single_view, declared_run, Hseg, take_ge, own_configs, Ecfg, foldl_app by (done || (rewrite El, Hseq; lia)).
    destruct current as [|b bs]; [by subst ms|]. destruct Hf as (_ & Hi & _). apply new_declaration; [done|done| |].
    - apply older_stamped; [done|done|done|]. intros y Hy. destruct (Hall' y) as (? & _ & ?); [apply elem_of_app; by left|]. split_and!; [done|by apply Ho|done].
    - intros y Hy. destruct (Hall' y) as (? & ? & _); [apply elem_of_app; by right|]. split_and!; [done|by apply Hcur|done]. }
  unfold get_config. injection Ed as -> _. cbn [default]. by rewrite declare_modules_of, Hm.
Qed.

(** ** Capture and restore *)

(** Every server with a stamp has a declaration, and the other way round; modules
    are found under their own tier and backend. *)
Record registry_ok r : Prop := {
  ro_same : dkeys (by_instance r) = dkeys (stamps r);
  ro_nodup : NoDup (dkeys (stamps r));
  ro_modules : ∀ id ms, (id, ms) ∈ by_instance r → NoDup (dkeys ms) ∧ ∀ k m, (k, m) ∈ ms → k = (mod_tier m, mod_backend m);
  ro_stamps : ∀ id st, (id, st) ∈ stamps r → 0 <= st.1 ∧ 0 <= st.2
}.

Lemma consume_config_ok b r : batch_ok b → registry_ok r → registry_ok (consume_config b r).2.
Proof.
  intros Hb [H1 H2 H3 H4]. unfold consume_config. destruct (negb _); [done|]. destruct (stamp_lt (incarnation b, _) _) eqn:E0; [done|].
  set (id := instance_id b). set (m := mkModule _ _ _ _). assert (0 <= incarnation b ∧ 0 <= capacity_revision b) as Hst.
  { unfold batch_ok, check_batch in Hb. repeat (case_match; [done|]). rewrite !Z.ltb_ge in *. done. }
  assert (∀ r', registry_ok r' → registry_ok (match dget id (by_instance r') with
    | Some ms => (Ret tt, mkRegistry (dset id (dset (mod_tier m, mod_backend m) m ms) (by_instance r')) (stamps r'))
    | None => (Raise KeyError : py unit, r') end).2) as Hset.
  { clear H1 H2 H3 H4. intros r' [H1 H2 H3 H4]. destruct (dget id (by_instance r')) as [ms|] eqn:Em; [|done]. cbn [snd]. pose proof (dget_Some_elem _ _ _ Em) as Hin.
    assert (id ∈ dkeys (by_instance r')) as Hk by (apply dget_is_Some; by eexists). split; cbn [by_instance stamps]; [by rewrite dkeys_dset, decide_True|done| |done].
    intros j ms' [[= -> ->]|Hj]%elem_dset; [|by apply (H3 j)]. destruct (H3 _ _ Hin) as [Hn Hm]. split; [by apply NoDup_dset|].
    intros k x [[= -> ->]|Hx]%elem_dset; [done|by apply Hm]. }
  destruct (stamp_lt _ (incarnation b, capacity_revision b)); [|by apply Hset]. apply Hset. split; cbn [by_instance stamps].
  - rewrite !dkeys_dset, H1. done.
  - by apply NoDup_dset.
  - intros j ms [[= -> ->]|Hj]%elem_dset; [split; [constructor|by intros k x ?%elem_of_nil]|by apply (H3 j)].
  - intros j st [[= -> ->]|Hj]%elem_dset; [done|by apply (H4 j)].
Qed.

Lemma forget_ok id r : registry_ok r → registry_ok (forget id r).
Proof.
  intros [H1 H2 H3 H4]. split; cbn [forget by_instance stamps].
  - by rewrite !dkeys_ddel, H1.
  - by apply NoDup_ddel.
  - intros j ms [_ Hj]%list_elem_of_filter. by apply (H3 j).
  - intros j st [_ Hj]%list_elem_of_filter. by apply (H4 j).
Qed.

Lemma restore_modules_ok ms acc :
  (∀ k m, (k, m) ∈ ms → k = (mod_tier m, mod_backend m)) → NoDup (dkeys (acc ++ ms)) →
  restore_modules ((λ m, (tier_value (mod_tier m), mod_backend m, mod_capacity_bytes m, mod_shared m)) <$> dvalues ms) acc = Ret (acc ++ ms).
Proof.
  revert acc. induction ms as [|[k m] ms IH]; intros acc Hk Hn; [by rewrite app_nil_r|]. cbn [dvalues fmap list_fmap restore_modules snd].
  assert (Tier_of (tier_value (mod_tier m)) = Ret (mod_tier m)) as -> by (by destruct (mod_tier m)). cbn [py_bind]. pose proof (Hk k m (list_elem_of_here _ _)) as ->.
  rewrite dset_notin. { destruct m as [t bk cap sh]. cbn [mod_tier mod_backend mod_capacity_bytes mod_shared]. fold (dvalues ms). rewrite IH; [by rewrite <-app_assoc|intros; apply Hk; by right|by rewrite <-app_assoc]. }
  unfold dkeys in *. rewrite fmap_app in Hn. apply NoDup_app in Hn as (_ & Hd & _). intros Hin. apply (Hd _ Hin). left.
Qed.

(** Histories of the registry: batches and departures. *)
Inductive config_call := Consume b | Forget (id : string).
Definition run_config r (call : config_call) : ServerConfigRegistry :=
  match call with Consume b => (consume_config b r).2 | Forget id => forget id r end.

Lemma run_config_ok calls r : registry_ok r → (∀ b, Consume b ∈ calls → batch_ok b) → registry_ok (foldl run_config r calls).
Proof.
  intros Hr Hc. apply (foldl_inv registry_ok); [done|]. intros r' call Hin Hr'. destruct call as [b|id]; [apply consume_config_ok; auto|by apply forget_ok].
Qed.

(** Declarations survive a restart. In every history of batches and
    departures, the captured registry restores into an empty one without error,
    and the result is the registry itself, stamps and order included. *)
Theorem config_capture_restore calls :
  (∀ b, Consume b ∈ calls → batch_ok b) →
  let r := foldl run_config new_registry calls in restore_config (capture_config r) new_registry = (Ret tt, r).
Proof.
  intros Hc r. assert (registry_ok r) as [H1 H2 H3 _].
  { apply run_config_ok; [|done]. split; [done|constructor|by intros id ms ?%elem_of_nil|by intros id st ?%elem_of_nil]. }
  change (restore_config (capture_config r) new_registry) with (h_iter restore_declaration (capture_config r) (mkRegistry [] [])). unfold capture_config.
  assert (∀ sts (ins : dict string modules) (done_i : dict string modules) (done_s : dict string (Z * Z)),
    dkeys ins = dkeys sts → NoDup (dkeys (done_s ++ sts)) → dkeys done_i = dkeys done_s → (∀ id ms, (id, ms) ∈ ins → dget id (by_instance r) = Some ms) →
    h_iter restore_declaration ((λ q : string * (Z * Z), (q.1, q.2.1, q.2.2,
      (λ m, (tier_value (mod_tier m), mod_backend m, mod_capacity_bytes m, mod_shared m)) <$> dvalues (default [] (dget q.1 (by_instance r))))) <$> sts) (mkRegistry done_i done_s) =
    (Ret tt, mkRegistry (done_i ++ ins) (done_s ++ sts))) as Hloop.
  { induction sts as [|[id [inc rev]] sts IH]; intros [|[id' ms] ins] di dd Hk Hn Hd Hg; try done; [by rewrite !app_nil_r|].
    unfold dkeys in Hk. cbn in Hk. injection Hk as -> Hk. rewrite fmap_cons. cbn [h_iter fst snd]. unfold restore_declaration at 1, h_bind at 1, h_bind at 1, h_modify, h_bind at 1, h_lift.
    pose proof (Hg id ms (list_elem_of_here _ _)) as Eg. rewrite Eg. change (default [] (Some ms)) with ms.
    destruct (H3 id ms (dget_Some_elem _ _ _ Eg)) as [Hnm Hmk]. rewrite (restore_modules_ok ms []) by done. cbn [app by_instance stamps].
    assert (id ∉ dkeys dd) as Hni. { unfold dkeys in *. rewrite fmap_app in Hn. apply NoDup_app in Hn as (_ & Hx & _). intros Hin. apply (Hx _ Hin). left. }
    rewrite !dset_notin by (done || by rewrite Hd). rewrite (IH ins); [by rewrite <-!app_assoc|done|by rewrite <-app_assoc| |].
    - unfold dkeys in *. by rewrite !fmap_app, Hd.
    - intros j mj Hj. apply Hg. by right. }
  rewrite (Hloop (stamps r) (by_instance r) [] [] H1 H2 eq_refl); [by destruct r|]. intros id ms Hin. apply elem_dget; [by rewrite H1|done].
Qed.

(** *** Witnesses *)

Lemma config_tracks_server_witness :
  get_config "s1" (views (foldl run_call (new_gate [(config_consumer, empty_stats)] new_registry) feed_calls)) = [mkModule TierL1 "dram" 100 false].
Proof.
  set (g := foldl run_call (new_gate [(config_consumer, empty_stats)] new_registry) feed_calls).
  assert (∃ c, dget "s1"%string (cursors g) = Some c ∧ gap_detected c = false ∧ last_seq c = sub_seq feed_run) as (c & Ec & Hg & Hl).
  { assert (sub_seq feed_run = 6) as -> by (vm_compute; reflexivity).
    assert ((λ c, (gap_detected c, last_seq c)) <$> dget "s1"%string (cursors g) = Some (false, 6)) as H by (vm_compute; reflexivity).
    destruct (dget "s1"%string (cursors g)) as [c|]; [|discriminate H]. exists c. injection H as H1 H2. done. }
  assert (pending_capacity feed_run = None) as Hp by (vm_compute; reflexivity).
  apply (config_tracks_server script_sink _ ticking "s1" 7 feed_subscriber feed_events feed_calls c [mkModule TierL1 "dram" 100 false] feed_fresh feed_events_ok feed_network Ec Hg Hl eq_refl Hp).
  - discriminate.
  - apply NoDup_singleton.
Defined.

Lemma config_capture_restore_witness :
  let r := foldl run_config new_registry [Consume (mkBatch "s1" 7 1 CONFIG TierL1 "dram" [] false f_zero 100 1 0); Consume (mkBatch "s2" 7 1 CONFIG TierL2 "fs" [] true f_zero 5 1 0); Forget "s2"] in
  restore_config (capture_config r) new_registry = (Ret tt, r) ∧ get_config "s1" r = [mkModule TierL1 "dram" 100 false].
Proof.
  intros r. split; [|reflexivity]. apply config_capture_restore. intros b Hb. rewrite !elem_of_cons, elem_of_nil in Hb. destruct Hb as [[= ->]|[[= ->]|[?|[]]]]; [reflexivity|reflexivity|done].
Defined.

(** A server that declares that it has no memory modules is not heard: the
    declaration is emitted as no batch at all, and the old one stays. *)
Lemma empty_declaration_unheard :
  let s := foldl (bus_step (logged script_sink) ticking) feed_subscriber (feed_events ++ [SM_CAPACITY_CHANGED []; L1_EVICTION_LOOP_TICK; L1_EVICTION_LOOP_TICK]) in
  pending_capacity s = None ∧ emitted s = emitted feed_run.
Proof. vm_compute. done. Qed.
