(* ===== verification/FleetEviction.v ===== *)
(** * Eviction for the fleet

    lmcache/v1/mp_coordinator/controllers/eviction_controller.py: quotas on the
    bytes each cache salt holds in L2 across the fleet. The controller keeps the
    order of use of the keys, reads the bytes from the usage view, which has
    consumed a batch before it, and leaves pinned chunks alone. *)

From stdpp Require Import gmap list sorting strings.
From Stdlib Require Import ZArith Lia.
From Stdlib.Strings Require Import Byte.
From Stdlib Require Import Floats.SpecFloat.
From S2P Require Import Prelude Keys PyFloat Handler EvictionPolicy EvictionController EventGate Placements UsageManager.

Open Scope Z_scope.
Open Scope py_scope.
Open Scope handler_scope.

Definition MAX_DELETE_BATCH : Z := 10000.

Record FleetEvictionController := mkFleet {
  fe_quota : QuotaManager;
  fe_ratio : float;
  fe_watermark : float;
  fe_policy : IsolatedLRU;
  pin_counts : dict ObjectKey Z
}.

Definition new_fleet_eviction (ratio watermark : float) : FleetEvictionController :=
  mkFleet quota_init (f_max f_zero (f_min f_one ratio)) watermark (iso_init DISCARD) [].

Implicit Types (f : FleetEvictionController) (u : CacheUsageManager) (key : ObjectKey).

Definition set_policy (p : IsolatedLRU) f : FleetEvictionController := mkFleet (fe_quota f) (fe_ratio f) (fe_watermark f) p (pin_counts f).
Definition set_pins (pins : dict ObjectKey Z) f : FleetEvictionController := mkFleet (fe_quota f) (fe_ratio f) (fe_watermark f) (fe_policy f) pins.
Definition set_fleet_quota (q : QuotaManager) f : FleetEvictionController := mkFleet q (fe_ratio f) (fe_watermark f) (fe_policy f) (pin_counts f).

(** ** The order of use *)

Definition on_store key f : FleetEvictionController := set_policy (iso_on_keys_created [key] (fe_policy f)) f.
Definition on_lookup key f : FleetEvictionController := set_policy (iso_on_keys_touched [key] (fe_policy f)) f.
Definition on_remove key f : FleetEvictionController := set_policy (iso_on_keys_removed [key] (fe_policy f)) f.

(** One entry of a batch, with the usage view [u]. *)
Definition eviction_entry u (b : CacheEventBatch) key f : FleetEvictionController :=
  match event_type b with
  | STORE => on_store key f
  | ACCESS => on_lookup key f
  | DELETE => if get_key_bytes TierL2 key u =? 0 then on_remove key f else f
  | CONFIG => f
  end.

Definition consume_eviction u (b : CacheEventBatch) : handler FleetEvictionController unit :=
  if negb (bool_decide (tier b = TierL2)) then h_ret tt
  else h_iter (λ e, let^ key := h_lift (to_object_key (ev_key e)) in h_modify (eviction_entry u b key)) (entries b).

Definition fence_eviction (id : string) : handler FleetEvictionController unit := h_ret tt.

(** ** Pins *)

Definition _pinned_chunk_key key : ObjectKey :=
  if object_group_id key =? 0 then key
  else mkKey (mkIdentity (chunk_hash key) (kv_rank key) (model_name key) 0 (cache_salt key) (tags key)).

Definition pin_one (pins : dict ObjectKey Z) key : dict ObjectKey Z :=
  dset (_pinned_chunk_key key) (default 0 (dget (_pinned_chunk_key key) pins) + 1) pins.
Definition unpin_one (pins : dict ObjectKey Z) key : dict ObjectKey Z :=
  let count := default 0 (dget (_pinned_chunk_key key) pins) in
  if count <=? 1 then ddel (_pinned_chunk_key key) pins else dset (_pinned_chunk_key key) (count - 1) pins.

Definition pin (keys : list ObjectKey) f : FleetEvictionController := set_pins (foldl pin_one (pin_counts f) keys) f.
Definition unpin (keys : list ObjectKey) f : FleetEvictionController := set_pins (foldl unpin_one (pin_counts f) keys) f.
Definition drop_pins (keys : list ObjectKey) f : FleetEvictionController :=
  set_pins (foldl (λ pins key, ddel (_pinned_chunk_key key) pins) (pin_counts f) keys) f.

Definition is_pinned f key : bool := dmem (_pinned_chunk_key key) (pin_counts f).
Definition filter_unpinned (keys : list ObjectKey) f : list ObjectKey := filter (λ key, is_pinned f key = false) keys.

Definition list_pins (salt model : string) (offset limit : nat) f : nat * list (ObjectKey * Z) :=
  let matching := filter (λ q : ObjectKey * Z, (salt = EmptyString ∨ cache_salt q.1 = salt) ∧ (model = EmptyString ∨ model_name q.1 = model)) (pin_counts f) in
  (length matching, take limit (drop offset matching)).

(** The durable form keeps every field of a key; reading it back leaves the tags
    out. *)
Definition capture_pins f : py (list (EncodedObjectKey * Z)) :=
  py_map (λ q : ObjectKey * Z, let! k := to_encoded_object_key q.1 in Ret (k, q.2)) (pin_counts f).

Definition _decode_pin (q : EncodedObjectKey * Z) : py (ObjectKey * Z) :=
  let! k := new_encoded (chunk_hash_hex q.1) (enc_model_name q.1) (enc_kv_rank q.1) (enc_object_group_id q.1) (enc_cache_salt q.1) ∅ in
  let! key := to_object_key k in
  Ret (key, q.2).

Fixpoint restore_pin_entries (l : list (EncodedObjectKey * Z)) (pins : dict ObjectKey Z) : py (dict ObjectKey Z) :=
  match l with
  | [] => Ret pins
  | q :: l' =>
      let! p := _decode_pin q in
      restore_pin_entries l' (if 0 <? p.2 then dset (_pinned_chunk_key p.1) (default 0 (dget (_pinned_chunk_key p.1) pins) + p.2) pins else pins)
  end.

Definition restore_pins (state : list (EncodedObjectKey * Z)) f : py FleetEvictionController :=
  let! pins := restore_pin_entries state [] in Ret (set_pins pins f).

(** ** The plan *)

Fixpoint plan_salts u f (salts : list string) (plan : dict string (list ObjectKey)) : py (dict string (list ObjectKey)) :=
  match salts with
  | [] => Ret plan
  | salt :: salts' =>
      let current_bytes := get_salt_bytes TierL2 salt u in
      if current_bytes <=? 0 then plan_salts u f salts' plan
      else
        match effective_limit_bytes salt (fe_quota f) with
        | None => plan_salts u f salts' plan
        | Some limit =>
            let! threshold := f_scale (fe_watermark f) limit in
            if num_lt (NInt current_bytes) (NFloat threshold) then plan_salts u f salts' plan
            else
              let effective_ratio := if limit =? 0 then f_one else fe_ratio f in
              let! actions := iso_get_eviction_actions effective_ratio (Some (λ key, negb (is_pinned f key))) (Some salt) (fe_policy f) in
              match action_keys actions with
              | [] => plan_salts u f salts' plan
              | keys_to_evict => plan_salts u f salts' (dset salt keys_to_evict plan)
              end
        end
  end.

Definition compute_eviction_plan u f : py (dict string (list ObjectKey)) := plan_salts u f (get_tracked_salts (fe_policy f)) [].

(** The bodies of the requests: [for start in range(0, len(keys), MAX)]. *)
Fixpoint delete_batches (fuel : nat) (keys : list ObjectKey) : list (list ObjectKey) :=
  match fuel, keys with
  | _, [] => []
  | O, _ => []
  | S fuel, _ => take (Z.to_nat MAX_DELETE_BATCH) keys :: delete_batches fuel (drop (Z.to_nat MAX_DELETE_BATCH) keys)
  end.

(** [target] is the server that was picked, if there is one; the result is the
    plan with the requests sent to it. *)
Definition execute_evictions {I} (target : option I) u f : py (dict string (list ObjectKey) * option (I * list (list ObjectKey))) :=
  let! plan := compute_eviction_plan u f in
  match plan, target with
  | [], _ | _, None => Ret (plan, None)
  | _, Some i => let all_keys := plan ≫= snd in Ret (plan, Some (i, delete_batches (length all_keys) all_keys))
  end.

(** ** Behind the gate, after the usage view *)

Abbreviation quota_views := (CacheUsageManager * FleetEvictionController)%type.

Definition usage_first : Consumer quota_views :=
  mkConsumer (λ b v, let '(r, u) := consume_usage b v.1 in (r, (u, v.2))) (λ id v, let '(r, u) := fence_usage id v.1 in (r, (u, v.2))).
Definition eviction_consumer : Consumer quota_views :=
  mkConsumer (λ b v, let '(r, f) := consume_eviction v.1 b v.2 in (r, (v.1, f))) (λ id v, let '(r, f) := fence_eviction id v.2 in (r, (v.1, f))).

(** ** What is tracked *)

Definition tracked f key : Prop := key ∈ bucket (cache_salt key) (iso_order (fe_policy f)).

Lemma tracked_store k f key : tracked (on_store k f) key ↔ key = k ∨ tracked f key.
Proof.
  unfold tracked, on_store, iso_on_keys_created. cbn [set_policy fe_policy with_buckets iso_order rev app foldl]. rewrite bucket_created_spec.
  case_decide as Hs; [rewrite oset_del_move, elem_of_app, elem_of_oset_del, list_elem_of_singleton; destruct (decide (key = k)); tauto|].
  split; [by right|]. intros [->|?]; done.
Qed.

Lemma tracked_lookup k f key : tracked (on_lookup k f) key ↔ tracked f key.
Proof.
  unfold tracked, on_lookup, iso_on_keys_touched. cbn [set_policy fe_policy with_buckets iso_order rev app foldl]. rewrite bucket_touched_spec.
  case_decide as Hs; [|done]. unfold order_touched. destruct (oset_mem k _) eqn:Em; [|done]. apply oset_mem_true in Em. rewrite elem_of_oset_move. split; [intros [?| ->]; done|by left].
Qed.

Lemma tracked_remove k f key : tracked (on_remove k f) key ↔ tracked f key ∧ key ≠ k.
Proof.
  unfold tracked, on_remove, iso_on_keys_removed. cbn [set_policy fe_policy with_buckets iso_order foldl]. rewrite bucket_removed_spec.
  case_decide as Hs; [by rewrite order_removed_del, elem_of_oset_del|]. split; [|tauto]. intros Hk. split; [done|]. by intros ->.
Qed.

Lemma entries_tracked u b (qs : list (ObjectKey * CacheEventEntry)) f key :
  tracked (foldl (λ f q, eviction_entry u b q.1 f) f qs) key ↔
  match event_type b with
  | STORE => key ∈ qs.*1 ∨ tracked f key
  | DELETE => tracked f key ∧ ¬ (key ∈ qs.*1 ∧ get_key_bytes TierL2 key u = 0)
  | ACCESS | CONFIG => tracked f key
  end.
Proof.
  revert f. induction qs as [|[k e] qs IH]; intros f; cbn [foldl fmap list_fmap fst].
  - destruct (event_type b); try done; rewrite elem_of_nil; tauto.
  - rewrite IH. unfold eviction_entry. destruct (event_type b); cbn [fst]; try rewrite elem_of_cons.
    + pose proof (tracked_store k f key). tauto.
    + destruct (Z.eqb_spec (get_key_bytes TierL2 k u) 0) as [Hz|Hz]; [pose proof (tracked_remove k f key); destruct (decide (key = k)) as [->|]; tauto|].
      split; [intros [? Hn]; split; [done|]; intros [[->|?] ?]; tauto|tauto].
    + apply tracked_lookup.
    + done.
Qed.

Lemma entries_wf u b (qs : list (ObjectKey * CacheEventEntry)) f :
  iso_wf (iso_order (fe_policy f)) → iso_wf (iso_order (fe_policy (foldl (λ f q, eviction_entry u b q.1 f) f qs))).
Proof.
  intros Hf. apply (foldl_inv (λ f, iso_wf (iso_order (fe_policy f)))); [done|]. intros f' [k e] _ Hf'. unfold eviction_entry. cbn [fst].
  destruct (event_type b); [exact (iso_wf_step _ (Created [k]) Hf')| |exact (iso_wf_step _ (Touched [k]) Hf')|done].
  destruct (_ =? 0); [exact (iso_wf_step _ (Removed [k]) Hf')|done].
Qed.

Lemma consume_eviction_run u b f :
  (consume_eviction u b f).2 = if decide (tier b = TierL2) then foldl (λ f q, eviction_entry u b q.1 f) f (decoded (entries b)) else f.
Proof.
  unfold consume_eviction. destruct (decide (tier b = TierL2)); [rewrite bool_decide_true by done|by rewrite bool_decide_false]. cbn [negb].
  exact (iter_decoded (λ key _ f, eviction_entry u b key f) (entries b) f).
Qed.

(** *** Against the placements *)

(** Every L2 placement with bytes is of a tracked key; every tracked key has an
    L2 placement. *)
Definition tracks_placements (m : placements) f : Prop :=
  (∀ i p, m i = Some p → pid_tier i = TierL2 → 0 < pl_size_bytes p → tracked f (pid_key i)) ∧
  ∀ key, tracked f key → ∃ i p, m i = Some p ∧ pid_tier i = TierL2 ∧ pid_key i = key.

Lemma total_pos {K} `{EqDecision K} (h : pid → K) k (d : dict pid Z) :
  NoDup (dkeys d) → (∀ i n, dget i d = Some n → 0 <= n) → 0 < total_of h k d ↔ ∃ i n, dget i d = Some n ∧ h i = k ∧ 0 < n.
Proof.
  intros Hn Hd. assert (∀ p, p ∈ d → 0 <= p.2) as Hp by (intros [i n] Hin; apply (Hd i), elem_dget; done).
  transitivity (∃ p, p ∈ d ∧ h p.1 = k ∧ 0 < p.2).
  - clear Hn Hd. unfold total_of. induction d as [|p d IH]; [split; [done|by intros (p & ?%elem_of_nil & _)]|]. rewrite zsum_cons.
    assert (∀ q, q ∈ d → 0 <= q.2) as Hp' by (intros q Hq; apply Hp; by right). specialize (IH Hp'). pose proof (Hp p (list_elem_of_here _ _)) as H0.
    assert (0 <= zsum (λ p : pid * Z, if decide (h p.1 = k) then p.2 else 0) d) as H1 by (apply zsum_nonneg; intros q Hq; specialize (Hp' q Hq); case_decide; lia).
    split.
    + intros Hsum. destruct (decide (h p.1 = k)) as [Hk|Hk]; [destruct (decide (0 < p.2)); [exists p; split; [left|done]|]|];
        (destruct (proj1 IH) as (q & ? & ?); [lia|exists q; split; [by right|done]]).
    + intros (q & [->|Hq]%elem_of_cons & Hk & Hlt); [rewrite decide_True by done; lia|]. assert (0 < zsum (λ p : pid * Z, if decide (h p.1 = k) then p.2 else 0) d) by (apply IH; by exists q).
      case_decide; lia.
  - split; [intros ([i n] & Hin & ? & ?); exists i, n; split; [by apply elem_dget|done]|]. intros (i & n & Hin%dget_Some_elem & ? & ?). by exists (i, n).
Qed.

Lemma key_bytes_pos u m key :
  usage_ok u → sizes_of u m → 0 < get_key_bytes TierL2 key u ↔ ∃ i p, m i = Some p ∧ pid_tier i = TierL2 ∧ pid_key i = key ∧ 0 < pl_size_bytes p.
Proof.
  intros [[[Hn Hp] Hk _ _] _] Hm. unfold get_key_bytes. rewrite (rolled_get _ _ _ _ Hk), total_pos by done. split.
  - intros (i & n & E & Ek & Hlt). rewrite Hm in E. destruct (m i) as [p|] eqn:Ep; [|done]. injection E as <-. unfold key_of_pid in Ek. injection Ek as ? ?. by exists i, p.
  - intros (i & p & E & <- & <- & Hlt). exists i, (pl_size_bytes p). split; [by rewrite Hm, E|done].
Qed.

Lemma key_bytes_nonneg u key : usage_ok u → 0 <= get_key_bytes TierL2 key u.
Proof. intros [[[Hn Hp] Hk _ _] _]. unfold get_key_bytes. rewrite (rolled_get _ _ _ _ Hk). by apply total_nonneg. Qed.

(** *** Histories

    What happens to the two views: deliveries of the gate, pins and quotas set
    by operators. A refused quota changes nothing. *)
Inductive fleet_call :=
| FleetDeliver (x : delivery)
| FleetPin (keys : list ObjectKey) | FleetUnpin (keys : list ObjectKey) | FleetDropPins (keys : list ObjectKey)
| FleetSetQuota (salt : string) (limit : Z) | FleetDeleteQuota (salt : string) | FleetSetDefault (limit : option Z).

Definition requota (r : py QuotaManager) (v : quota_views) : quota_views :=
  match r with Ret q => (v.1, set_fleet_quota q v.2) | Raise _ => v end.

Definition fleet_step (v : quota_views) (c : fleet_call) : quota_views :=
  match c with
  | FleetDeliver x => (deliver ([(usage_first, empty_stats); (eviction_consumer, empty_stats)], v) x).2
  | FleetPin keys => (v.1, pin keys v.2)
  | FleetUnpin keys => (v.1, unpin keys v.2)
  | FleetDropPins keys => (v.1, drop_pins keys v.2)
  | FleetSetQuota salt limit => requota (set_quota salt limit (fe_quota v.2)) v
  | FleetDeleteQuota salt => requota (Ret (delete_quota salt (fe_quota v.2)).2) v
  | FleetSetDefault limit => requota (set_default_limit_bytes limit (fe_quota v.2)) v
  end.

Definition fleet_call_ok (c : fleet_call) : Prop := match c with FleetDeliver x => delivery_ok x | _ => True end.
Definition spec_call (m : placements) (c : fleet_call) : placements := match c with FleetDeliver x => spec_usage m x | _ => m end.

Lemma deliver_quota_views v x :
  fleet_step v (FleetDeliver x) =
  (view_step usage_consumer v.1 x, match x with Delivered b => (consume_eviction (view_step usage_consumer v.1 x) b v.2).2 | Fenced _ => v.2 end).
Proof.
  destruct v as [u f], x as [b|id]; cbn [fleet_step deliver fst snd broadcast broadcast_fence view_step usage_consumer consume_batch fence_views usage_first eviction_consumer]; unfold counted_call;
    cbn [fst snd].
  - destruct (consume_usage b u) as [[] u'] eqn:E; cbn [fst snd]; destruct (consume_eviction u' b f) as [[] f']; done.
  - by destruct (fence_usage id u) as [[] u'].
Qed.

(** A batch changes the L2 placements of its own keys only. *)
Lemma spec_fold_other b qs m i : (tier b ≠ pid_tier i ∨ pid_key i ∉ qs.*1) → foldl (spec_entry b) m qs i = m i.
Proof.
  intros Hi. revert m. induction qs as [|[k e] qs IH]; intros m; [done|]. cbn [foldl fmap list_fmap fst] in *. rewrite IH.
  - unfold spec_entry, update. cbn [fst]. destruct (event_type b); try done; (rewrite decide_False; [done|]);
      (intros <-; destruct Hi as [?|Hn]; [done|]; apply Hn; left).
  - destruct Hi as [?|Hn]; [by left|]. right. intros ?. apply Hn. by right.
Qed.

Lemma spec_fold_store b qs m key : event_type b = STORE → key ∈ qs.*1 → is_Some (foldl (spec_entry b) m qs (batch_pid b key)).
Proof.
  intros Hb. revert m. induction qs as [|[k e] qs IH]; intros m; [by intros ?%elem_of_nil|]. cbn [fmap list_fmap fst foldl]. intros [->|Hk]%elem_of_cons; [|by apply IH].
  apply (foldl_inv (λ m', is_Some (m' (batch_pid b k)))); unfold spec_entry; rewrite Hb; cbn [fst snd]; unfold update; [rewrite decide_True by done; by eexists|].
  intros m' q _ Hm'. case_decide; [by eexists|done].
Qed.

Lemma spec_fold_shrinks b qs m i p : event_type b ≠ STORE → foldl (spec_entry b) m qs i = Some p → m i = Some p.
Proof.
  intros Hb. revert m. induction qs as [|[k e] qs IH]; intros m E; [done|]. apply IH in E. unfold spec_entry in E. destruct (event_type b); try done.
  unfold update in E. by case_decide.
Qed.

Lemma spec_fold_same b qs m : event_type b = ACCESS ∨ event_type b = CONFIG → foldl (spec_entry b) m qs = m.
Proof. intros Hb. apply (foldl_inv (λ m', m' = m)); [done|]. intros m' q _ ->. unfold spec_entry. by destruct Hb as [-> | ->]. Qed.

Lemma tracks_consume u b m f :
  let m' := foldl (spec_entry b) m (decoded (entries b)) in
  usage_ok u → sizes_of u m' → tracks_placements m f → tracks_placements m' (consume_eviction u b f).2.
Proof.
  intros m' Hu Hm [Hall Hheld]. rewrite consume_eviction_run. set (qs := decoded (entries b)) in *.
  assert (∀ i, (tier b ≠ pid_tier i ∨ pid_key i ∉ qs.*1) → m' i = m i) as Ho by (intros i; apply spec_fold_other).
  destruct (decide (tier b = TierL2)) as [Et|Et].
  2: { split; [intros i p; intros Ei Ht; rewrite Ho in Ei by (left; congruence); by apply Hall|].
       intros key (i & p & Ei & Ht & Hk)%Hheld. exists i, p. split; [rewrite Ho; [done|left; congruence]|done]. }
  assert (∀ key, (key ∉ qs.*1) → tracked f key → ∃ i p, m' i = Some p ∧ pid_tier i = TierL2 ∧ pid_key i = key) as Hkeep.
  { intros key Hn (i & p & Ei & Ht & Hk)%Hheld. exists i, p. split; [|done]. rewrite Ho; [done|right; by rewrite Hk]. }
  split.
  - intros i p Ei Ht Hp. rewrite entries_tracked. destruct (decide (pid_key i ∈ qs.*1)) as [Hin|Hn].
    + destruct (event_type b) eqn:Ee; [by left|split|..].
      2: { intros [_ Hz]. assert (0 < get_key_bytes TierL2 (pid_key i) u) by (apply (key_bytes_pos u m'); [done..|by exists i, p]). lia. }
      all: by eapply Hall; [eapply (spec_fold_shrinks b qs); [congruence|exact Ei]|..].
    + rewrite Ho in Ei by (by right). specialize (Hall i p Ei Ht Hp). destruct (event_type b); [by right|split; [done|by intros [? _]]|done|done].
  - intros key. rewrite entries_tracked. destruct (decide (key ∈ qs.*1)) as [Hin|Hn]; [|destruct (event_type b); [intros [?|?]|intros [? _]|..]; (done || by apply Hkeep)].
    destruct (event_type b) eqn:Ee.
    + intros _. destruct (spec_fold_store b qs m key Ee Hin) as [p Ep]. exists (batch_pid b key), p. by split.
    + intros [_ Hz]. assert (0 < get_key_bytes TierL2 key u) as Hpos by (pose proof (key_bytes_nonneg u key Hu); destruct (decide (get_key_bytes TierL2 key u = 0)); [tauto|lia]).
      apply (key_bytes_pos u m') in Hpos as (i & p & ? & ? & ? & _); [by exists i, p|done..].
    + unfold m'. rewrite spec_fold_same by tauto. apply Hheld.
    + unfold m'. rewrite spec_fold_same by tauto. apply Hheld.
Qed.

Record fleet_ok (m : placements) (v : quota_views) : Prop := {
  fo_usage : usage_ok v.1;
  fo_sizes : sizes_of v.1 m;
  fo_wf : iso_wf (iso_order (fe_policy v.2));
  fo_tracks : tracks_placements m v.2
}.

Lemma consume_eviction_wf u b f : iso_wf (iso_order (fe_policy f)) → iso_wf (iso_order (fe_policy (consume_eviction u b f).2)).
Proof. intros Hf. rewrite consume_eviction_run. case_decide; [by apply entries_wf|done]. Qed.

Lemma tracks_fence id m f : tracks_placements m f → tracks_placements (spec_fence_owned id m) f.
Proof.
  intros [Hall Hheld]. unfold spec_fence_owned, is_owned_l1. split.
  - intros i p. destruct (_ && _ && _); [done|apply Hall].
  - intros key (i & p & Ei & Ht & Hk)%Hheld. exists i, p. rewrite Ht, (bool_decide_false (TierL2 = TierL1)) by done. done.
Qed.

(** *** The history of use

    The keys that the batches of a history say were used, in order: those of
    the L2 stores and accesses. *)
Definition batch_uses (b : CacheEventBatch) : list ObjectKey :=
  if decide (tier b = TierL2) then match event_type b with STORE | ACCESS => (decoded (entries b)).*1 | DELETE | CONFIG => [] end else [].
Definition call_uses (c : fleet_call) : list ObjectKey := match c with FleetDeliver (Delivered b) => batch_uses b | _ => [] end.
Definition uses (calls : list fleet_call) : list ObjectKey := calls ≫= call_uses.

(** [k] was used after the last use of [v]. *)
Definition used_before (us : list ObjectKey) (v k : ObjectKey) : Prop := ∃ l l', us = l ++ l' ∧ (v ∉ l') ∧ k ∈ l'.

(** The order lists the keys of every salt by their last use. *)
Definition in_order (us : list ObjectKey) f : Prop := ∀ salt, StronglySorted (used_before us) (bucket salt (iso_order (fe_policy f))).

Lemma used_before_later us v k x : used_before us v k → v ≠ x → used_before (us ++ [x]) v k.
Proof.
  intros (l & l' & -> & Hv & Hk) Hx. exists l, (l' ++ [x]). rewrite app_assoc. split; [done|]. rewrite !elem_of_app, list_elem_of_singleton. tauto.
Qed.

Lemma used_before_now us v k : v ≠ k → used_before (us ++ [k]) v k.
Proof. intros Hv. exists us, [k]. by rewrite !list_elem_of_singleton. Qed.

Lemma sorted_moved us k (b : list ObjectKey) : StronglySorted (used_before us) b → StronglySorted (used_before (us ++ [k])) (oset_del k b ++ [k]).
Proof.
  intros Hb. apply StronglySorted_app_2; [|apply (sorted_filter_impl (used_before us)); [|done]; intros; by apply used_before_later|repeat constructor].
  intros v y [_ Hv]%elem_of_oset_del ->%list_elem_of_singleton. by apply used_before_now.
Qed.

Lemma sorted_other us k (b : list ObjectKey) : (k ∉ b) → StronglySorted (used_before us) b → StronglySorted (used_before (us ++ [k])) b.
Proof.
  intros Hk Hb. rewrite <-(oset_del_notin k b Hk). apply (sorted_filter_impl (used_before us)); [|done]. intros. by apply used_before_later.
Qed.

Lemma other_bucket f k salt : iso_wf (iso_order (fe_policy f)) → cache_salt k ≠ salt → k ∉ bucket salt (iso_order (fe_policy f)).
Proof. intros Hw Hs Hk. by apply Hs, (iso_wf_bucket _ salt Hw). Qed.

Lemma in_order_store us k f : iso_wf (iso_order (fe_policy f)) → in_order us f → in_order (us ++ [k]) (on_store k f).
Proof.
  intros Hw Ho salt. unfold on_store, iso_on_keys_created. cbn [set_policy fe_policy with_buckets iso_order rev app foldl]. rewrite bucket_created_spec.
  case_decide as Hs; [rewrite oset_del_move; by apply sorted_moved|apply sorted_other; [by apply other_bucket|done]].
Qed.

Lemma in_order_lookup us k f : iso_wf (iso_order (fe_policy f)) → in_order us f → in_order (us ++ [k]) (on_lookup k f).
Proof.
  intros Hw Ho salt. unfold on_lookup, iso_on_keys_touched. cbn [set_policy fe_policy with_buckets iso_order rev app foldl]. rewrite bucket_touched_spec.
  case_decide as Hs; [|apply sorted_other; [by apply other_bucket|done]]. unfold order_touched. destruct (oset_mem k _) eqn:Em; [by apply sorted_moved|].
  apply sorted_other; [by apply oset_mem_false|done].
Qed.

Lemma in_order_remove us k f : in_order us f → in_order us (on_remove k f).
Proof.
  intros Ho salt. unfold on_remove, iso_on_keys_removed. cbn [set_policy fe_policy with_buckets iso_order foldl]. rewrite bucket_removed_spec.
  case_decide as Hs; [|done]. rewrite order_removed_del. by apply (sorted_filter_impl (used_before us)).
Qed.

Lemma entries_in_order u b us (qs : list (ObjectKey * CacheEventEntry)) f :
  iso_wf (iso_order (fe_policy f)) → in_order us f →
  in_order (us ++ match event_type b with STORE | ACCESS => qs.*1 | DELETE | CONFIG => [] end) (foldl (λ f q, eviction_entry u b q.1 f) f qs).
Proof.
  revert us f. induction qs as [|[k e] qs IH]; intros us f Hw Ho; [by destruct (event_type b); rewrite app_nil_r|]. cbn [foldl fst fmap list_fmap].
  pose proof (entries_wf u b [(k, e)] f Hw) as Hw'. cbn [foldl fst] in Hw'. revert IH Hw'. unfold eviction_entry at 2 4. destruct (event_type b); intros IH Hw'.
  - specialize (IH (us ++ [k]) _ Hw' (in_order_store us k f Hw Ho)). by rewrite <-app_assoc in IH.
  - apply IH; [done|]. destruct (_ =? 0); [by apply in_order_remove|done].
  - specialize (IH (us ++ [k]) _ Hw' (in_order_lookup us k f Hw Ho)). by rewrite <-app_assoc in IH.
  - by apply IH.
Qed.

Lemma consume_in_order u b us f : iso_wf (iso_order (fe_policy f)) → in_order us f → in_order (us ++ batch_uses b) (consume_eviction u b f).2.
Proof. intros Hw Ho. rewrite consume_eviction_run. unfold batch_uses. case_decide; [by apply entries_in_order|by rewrite app_nil_r]. Qed.

Lemma step_in_order us v c : iso_wf (iso_order (fe_policy v.2)) → in_order us v.2 → in_order (us ++ call_uses c) (fleet_step v c).2.
Proof.
  intros Hw Ho. destruct c as [x|keys|keys|keys|salt limit|salt|limit]; cbn [call_uses]; rewrite ?app_nil_r; try done.
  - rewrite deliver_quota_views. destruct x as [b|id]; cbn [snd]; [by apply consume_in_order|by rewrite app_nil_r].
  - cbn [fleet_step]. unfold requota. by destruct (set_quota _ _ _).
  - cbn [fleet_step]. unfold requota. by destruct (set_default_limit_bytes _ _).
Qed.

(** The order of use depends on the pins and the quotas in nothing. *)
Lemma fleet_step_ok m v c : fleet_call_ok c → fleet_ok m v → fleet_ok (spec_call m c) (fleet_step v c).
Proof.
  intros Hc [Hu Hm Hw Ht]. destruct c as [x|keys|keys|keys|salt limit|salt|limit]; try by split.
  - rewrite deliver_quota_views. destruct (usage_run_ok [x] v.1 m) as [Hu' Hm']; [by constructor|done..|]. cbn [foldl] in Hu', Hm'.
    destruct x as [b|id]; (split; [exact Hu'|exact Hm'|..]); cbn [snd spec_call spec_usage] in *; [by apply consume_eviction_wf|by apply tracks_consume|done|by apply tracks_fence].
  - cbn [fleet_step]. unfold requota. destruct (set_quota _ _ _); by split.
  - cbn [fleet_step]. unfold requota. destruct (set_default_limit_bytes _ _); by split.
Qed.

Lemma fleet_start_ok ratio watermark : fleet_ok (λ _, None) (new_usage, new_fleet_eviction ratio watermark).
Proof.
  split; [apply new_usage_ok|done| |].
  - split; [constructor|]. by intros ?? ?%elem_of_nil.
  - split; [done|]. intros key. unfold tracked. by intros ?%elem_of_nil.
Qed.

Lemma fleet_run_ok calls m v : Forall fleet_call_ok calls → fleet_ok m v → fleet_ok (foldl spec_call m calls) (foldl fleet_step v calls).
Proof. intros Hc. revert m v. induction Hc as [|c calls Hc _ IH]; intros m v Hv; [done|]. cbn [foldl]. by apply IH, fleet_step_ok. Qed.

Lemma run_in_order calls us m v :
  Forall fleet_call_ok calls → fleet_ok m v → in_order us v.2 → in_order (us ++ uses calls) (foldl fleet_step v calls).2.
Proof.
  intros Hc. revert us m v. induction Hc as [|c calls Hc _ IH]; intros us m v Hv Ho; [by rewrite app_nil_r|]. cbn [foldl]. unfold uses. rewrite bind_cons, app_assoc.
  eapply IH; [by apply fleet_step_ok|]. apply step_in_order; [apply Hv|done].
Qed.

(** The ratio is fixed at construction, in the unit interval. *)
Lemma fleet_ratio calls v : fe_ratio (foldl fleet_step v calls).2 = fe_ratio v.2 ∧ fe_watermark (foldl fleet_step v calls).2 = fe_watermark v.2.
Proof.
  apply (foldl_inv (λ v' : quota_views, fe_ratio v'.2 = fe_ratio v.2 ∧ fe_watermark v'.2 = fe_watermark v.2)); [done|]. intros v' c _ Hv.
  destruct c as [x|keys|keys|keys|salt limit|salt|limit]; try done.
  - rewrite deliver_quota_views. destruct x as [b|id]; cbn [snd]; [|done]. rewrite consume_eviction_run. case_decide; [|done].
    apply (foldl_inv (λ f', fe_ratio f' = fe_ratio v.2 ∧ fe_watermark f' = fe_watermark v.2)); [done|]. intros f' q _ Hf'. unfold eviction_entry.
    destruct (event_type b); try done. by destruct (_ =? 0).
  - cbn [fleet_step]. unfold requota. by destruct (set_quota _ _ _).
  - cbn [fleet_step]. unfold requota. by destruct (set_default_limit_bytes _ _).
Qed.

(** ** The plan *)

Definition fleet_over u f (salt : string) : option Z :=
  limit ← effective_limit_bytes salt (fe_quota f);
  match f_scale (fe_watermark f) limit with
  | Ret threshold => if (0 <? get_salt_bytes TierL2 salt u) && negb (num_lt (NInt (get_salt_bytes TierL2 salt u)) (NFloat threshold)) then Some limit else None
  | Raise _ => None
  end.

Definition free_keys f (salt : string) : list ObjectKey := filter_unpinned (bucket salt (iso_order (fe_policy f))) f.

(** What is taken from a salt: nothing below its threshold, every free key with a
    quota of zero, and otherwise as many keys as the ratio of the bucket asks
    for, the first of its free keys. *)
Definition fleet_victims u f (salt : string) (victims : list ObjectKey) : Prop :=
  match fleet_over u f salt with
  | None => victims = []
  | Some limit =>
      if limit =? 0 then victims = free_keys f salt
      else ∃ t : nat, victims = take t (free_keys f salt) ∧
        (bucket salt (iso_order (fe_policy f)) ≠ [] →
         eviction_target (length (bucket salt (iso_order (fe_policy f)))) (fe_ratio f) = Ret (Z.of_nat t) ∧ (t = 0%nat ↔ not_positive (fe_ratio f) = true))
  end.

Definition fleet_limits_fit f : Prop := ∀ salt limit, effective_limit_bytes salt (fe_quota f) = Some limit → 0 <= limit < 2 ^ 53.

Lemma filter_eligible_free f (l : list ObjectKey) : filter (eligible (Some (λ key, negb (is_pinned f key)))) l = filter_unpinned l f.
Proof. apply list_filter_iff. intros key. cbn [eligible]. by destruct (is_pinned f key). Qed.

Section plan.
Context (u : CacheUsageManager) (f : FleetEvictionController).
Hypothesis Hlimits : fleet_limits_fit f.
Hypothesis Hratio : is_float (fe_ratio f).
Hypothesis Hfit : buckets_fit (fe_policy f).

Lemma fleet_decision salt limit :
  fleet_over u f salt = Some limit →
  ∃ acts, iso_get_eviction_actions (if limit =? 0 then f_one else fe_ratio f) (Some (λ key, negb (is_pinned f key))) (Some salt) (fe_policy f) = Ret acts ∧
    fleet_victims u f salt (action_keys acts).
Proof.
  intros Ho. unfold fleet_victims. rewrite Ho. destruct (limit =? 0).
  - destruct (bucket_wiped (Some (λ key, negb (is_pinned f key))) salt (fe_policy f) (Hfit salt)) as (acts & E & Hk & _). exists acts. split; [done|].
    by rewrite Hk, filter_eligible_free.
  - destruct (bucket_trimmed (Some (λ key, negb (is_pinned f key))) salt (fe_policy f) _ Hratio (Hfit salt)) as (acts & t & E & Hk & Ht & _). exists acts. split; [done|].
    exists t. split; [by rewrite Hk, filter_eligible_free|done].
Qed.

(** One salt of the loop. *)
Lemma plan_one salt salts plan :
  ∃ victims, fleet_victims u f salt victims ∧
    plan_salts u f (salt :: salts) plan = plan_salts u f salts (match victims with [] => plan | _ => dset salt victims plan end).
Proof.
  cbn [plan_salts]. pose proof (fleet_decision salt) as Hd. unfold fleet_victims. unfold fleet_over at 1. unfold fleet_victims, fleet_over in Hd.
  destruct (effective_limit_bytes salt (fe_quota f)) as [limit|] eqn:El; cbn [mbind option_bind] in *.
  2: { exists []. split; [done|]. by destruct (_ <=? 0). }
  destruct (f_scale_fits (fe_watermark f) limit (Hlimits salt limit El)) as [t Et]. rewrite Et in *. cbn [py_bind].
  destruct (Z.leb_spec (get_salt_bytes TierL2 salt u) 0) as [Hz|Hz].
  { exists []. replace (0 <? get_salt_bytes TierL2 salt u) with false by lia. by split. }
  replace (0 <? get_salt_bytes TierL2 salt u) with true in * by lia. cbn [andb] in *.
  destruct (num_lt _ _) eqn:En; cbn [negb] in *; [by exists []|].
  destruct (Hd limit eq_refl) as (acts & -> & Hv). cbn [py_bind]. exists (action_keys acts). split; [done|]. by destruct (action_keys acts).
Qed.

Lemma plan_salts_ok salts plan :
  NoDup salts → (∀ salt, salt ∈ salts → dget salt plan = None) →
  ∃ plan', plan_salts u f salts plan = Ret plan' ∧
    (∀ salt, salt ∈ salts → fleet_victims u f salt (default [] (dget salt plan'))) ∧ (∀ salt, (salt ∉ salts) → dget salt plan' = dget salt plan).
Proof.
  intros Hn. revert plan. induction Hn as [|salt salts Hs Hn IH]; intros plan Hp; [exists plan; split_and!; [done|by intros ? ?%elem_of_nil|done]|].
  destruct (plan_one salt salts plan) as (vs & Hv & ->). destruct (IH (match vs with [] => plan | _ => dset salt vs plan end)) as (plan' & E & Hin & Hout).
  { intros s Hs'. assert (salt ≠ s) by congruence. destruct vs; [apply Hp; by right|]. rewrite dget_dset, decide_False by done. apply Hp. by right. }
  exists plan'. split; [done|]. split.
  - intros s [->|Hs']%elem_of_cons; [|by apply Hin]. rewrite Hout by done. destruct vs; [by rewrite Hp by left|]. by rewrite dget_dset, decide_True.
  - intros s Hs'. rewrite Hout by (intros ?; apply Hs'; by right). assert (salt ≠ s) by (intros ->; apply Hs'; left).
    destruct vs; [done|]. by rewrite dget_dset, decide_False.
Qed.

Lemma untracked_victims salt : bucket salt (iso_order (fe_policy f)) = [] → fleet_victims u f salt [].
Proof.
  intros E. unfold fleet_victims, free_keys. rewrite E. destruct (fleet_over u f salt); [|done]. destruct (_ =? 0); [done|]. by exists 0%nat.
Qed.

Lemma plan_ok : iso_wf (iso_order (fe_policy f)) → ∃ plan, compute_eviction_plan u f = Ret plan ∧ ∀ salt, fleet_victims u f salt (default [] (dget salt plan)).
Proof.
  intros [Hn _]. destruct (plan_salts_ok (get_tracked_salts (fe_policy f)) []) as (plan & E & Hin & Hout); [exact Hn|done|]. exists plan. split; [done|]. intros salt.
  destruct (decide (salt ∈ get_tracked_salts (fe_policy f))) as [Hs|Hs]; [by apply Hin|]. rewrite Hout by done. apply untracked_victims. unfold bucket.
  destruct (dget salt (iso_order (fe_policy f))) eqn:Eg; [|done]. destruct Hs. apply dget_is_Some. by eexists.
Qed.
End plan.

Lemma victims_free u f salt vs key : fleet_victims u f salt vs → key ∈ vs → key ∈ free_keys f salt.
Proof.
  unfold fleet_victims. destruct (fleet_over u f salt) as [limit|]; [|intros ->; by intros ?%elem_of_nil].
  destruct (limit =? 0); [by intros ->|]. intros (t & -> & _) Hk. by eapply subseteq_take.
Qed.

(** An over-budget salt with a free key is served, if the ratio is positive or
    the quota zero. *)
Lemma victims_some u f salt limit vs :
  fleet_over u f salt = Some limit → (limit = 0 ∨ not_positive (fe_ratio f) = false) → free_keys f salt ≠ [] → fleet_victims u f salt vs → vs ≠ [].
Proof.
  intros Ho Hr Hne. unfold fleet_victims. rewrite Ho. destruct (Z.eqb_spec limit 0) as [Hz|Hz]; [by intros ->|]. intros (t & -> & Ht).
  destruct Hr as [?|Hr]; [done|]. assert (bucket salt (iso_order (fe_policy f)) ≠ []) as Hb by (intros E; apply Hne; unfold free_keys; by rewrite E).
  destruct (Ht Hb) as [_ Ht']. clear Ht. rename Ht' into Ht. rewrite Hr in Ht. destruct t; [by specialize (proj1 Ht eq_refl)|]. by destruct (free_keys f salt).
Qed.

(** What is spared was used after what is taken. *)
Lemma victims_oldest us u f salt vs v k :
  in_order us f → fleet_victims u f salt vs → v ∈ vs → k ∈ free_keys f salt → (k ∉ vs) → used_before us v k.
Proof.
  intros Ho. unfold fleet_victims. destruct (fleet_over u f salt) as [limit|]; [|intros ->; by intros ?%elem_of_nil].
  destruct (limit =? 0); [by intros -> ???|]. intros (t & -> & _) Hv Hk Hn. rewrite <-(take_drop t (free_keys f salt)) in Hk. apply elem_of_app in Hk as [|Hk]; [done|].
  eapply (StronglySorted_app_1_elem_of (used_before us) (take t (free_keys f salt))); [|exact Hv|exact Hk]. rewrite take_drop.
  by apply (sorted_filter_impl (used_before us)); [|apply Ho].
Qed.

(** ** The requests *)

Lemma delete_batches_ok n (keys : list ObjectKey) :
  (length keys <= n)%nat →
  concat (delete_batches n keys) = keys ∧ Forall (λ l, 1 <= Z.of_nat (length l) <= MAX_DELETE_BATCH) (delete_batches n keys).
Proof.
  revert keys. induction n as [|n IH]; intros keys Hn; destruct keys as [|k keys]; cbn [length] in Hn; try (by split; [|constructor]); [lia|].
  cbn [delete_batches]. set (c := Z.to_nat MAX_DELETE_BATCH). assert (1 <= c)%nat as Hc by (unfold c, MAX_DELETE_BATCH; lia).
  destruct (IH (drop c (k :: keys))) as [H1 H2]; [rewrite length_drop; cbn [length]; lia|]. split; [cbn [concat]; by rewrite H1, take_drop|].
  constructor; [|done]. rewrite length_take. cbn [length]. unfold c, MAX_DELETE_BATCH in *. lia.
Qed.

(** An L2 placement of [key]. *)
Definition placed_l2 (m : placements) key (P : Z → Prop) : Prop := ∃ i p, m i = Some p ∧ pid_tier i = TierL2 ∧ pid_key i = key ∧ P (pl_size_bytes p).

Lemma free_elem f key : iso_wf (iso_order (fe_policy f)) → ∀ salt, key ∈ free_keys f salt ↔ is_pinned f key = false ∧ cache_salt key = salt ∧ tracked f key.
Proof.
  intros Hw salt. unfold free_keys, filter_unpinned, tracked. rewrite list_elem_of_filter. destruct (iso_wf_bucket _ salt Hw) as [_ Hk]. split.
  - intros [? Hin]. split; [done|]. rewrite (Hk key Hin). done.
  - by intros (? & -> & ?).
Qed.

Lemma salt_bytes_pos u m key : usage_ok u → sizes_of u m → placed_l2 m key (λ n, 0 < n) → 0 < get_salt_bytes TierL2 (cache_salt key) u.
Proof.
  intros [[[Hn Hp] _ Hs _] _] Hm (i & p & E & <- & <- & Hlt). unfold get_salt_bytes. rewrite (rolled_get _ _ _ _ Hs), total_pos by done.
  exists i, (pl_size_bytes p). split; [by rewrite Hm, E|done].
Qed.

Lemma f_clamp_float (r : float) : is_float r → is_float (f_clamp r).
Proof. unfold f_clamp, f_max, f_min. intros Hr. destruct (f_lt r f_one); destruct (f_lt f_zero _); done. Qed.

Lemma f_clamp_keeps_positive (r : float) : f_lt f_zero r = true → not_positive (f_clamp r) = false.
Proof. unfold f_clamp, f_max, f_min. destruct r as [[]|[]| |[] mm e]; try done. intros _. by destruct (f_lt (S754_finite false mm e) f_one). Qed.

(** C12: the fleet stays within its quotas, and never at the cost of a pinned
    chunk. After any history of deliveries, pins and quotas, whatever batches
    were lost, the plan is computed without an error: a salt whose L2 bytes are
    below the threshold loses nothing; a salt with a quota of zero all its keys
    that are not pinned; any other as many as the ratio asks for of its keys
    that are not pinned, the least recently used: a key that is spared was
    stored or accessed in L2, by the batches delivered, after the last time a
    victim was. A victim is never pinned, is of the salt it is listed under and
    is placed in L2. If a salt is over budget and any of its placements with
    bytes is not pinned, then something is evicted (by a positive ratio or a
    quota of zero). The requests carry exactly the keys of the plan, each at
    least one key and no more than a server accepts. Limits and the keys of a
    salt are below 2^53, where the arithmetic on floats is exact. *)
Theorem fleet_plan_enforced ratio watermark calls :
  is_float ratio → Forall fleet_call_ok calls →
  let v := foldl fleet_step (new_usage, new_fleet_eviction ratio watermark) calls in
  let m := foldl spec_call (λ _, None) calls in
  fleet_limits_fit v.2 → buckets_fit (fe_policy v.2) →
  ∃ plan, compute_eviction_plan v.1 v.2 = Ret plan ∧
    (∀ salt, fleet_victims v.1 v.2 salt (default [] (dget salt plan))) ∧
    (∀ salt key, key ∈ default [] (dget salt plan) → cache_salt key = salt ∧ is_pinned v.2 key = false ∧ placed_l2 m key (λ _, True)) ∧
    (∀ victim key, victim ∈ default [] (dget (cache_salt key) plan) → tracked v.2 key → is_pinned v.2 key = false → (key ∉ default [] (dget (cache_salt key) plan)) →
       used_before (uses calls) victim key) ∧
    (∀ key limit, fleet_over v.1 v.2 (cache_salt key) = Some limit → (limit = 0 ∨ f_lt f_zero ratio = true) → is_pinned v.2 key = false → placed_l2 m key (λ n, 0 < n) →
       default [] (dget (cache_salt key) plan) ≠ []) ∧
    ∀ (server : string), ∃ requests, execute_evictions (Some server) v.1 v.2 = Ret (plan, match plan with [] => None | _ => Some (server, requests) end) ∧
      concat requests = plan ≫= snd ∧ Forall (λ l, 1 <= Z.of_nat (length l) <= MAX_DELETE_BATCH) requests.
Proof.
  intros Hr Hc v m Hl Hb. pose proof (fleet_run_ok calls _ _ Hc (fleet_start_ok ratio watermark)) as [Hu Hm Hw [Hall Hheld]]. fold v m in Hu, Hm, Hw, Hall, Hheld.
  destruct (fleet_ratio calls (new_usage, new_fleet_eviction ratio watermark)) as [Er _]. fold v in Er. cbn [snd new_fleet_eviction fe_ratio] in Er.
  assert (is_float (fe_ratio v.2)) as Hf by (rewrite Er; by apply f_clamp_float).
  destruct (plan_ok v.1 v.2 Hl Hf Hb Hw) as (plan & E & Hv). exists plan. split; [done|]. split; [done|]. split_and!.
  - intros salt key Hk. apply (victims_free _ _ _ _ _ (Hv salt)), (free_elem _ _ Hw) in Hk as (Hp & Hs & (i & p & ? & ? & ?)%Hheld). split_and!; [done|done|by exists i, p].
  - intros victim key Hvk Hk Hp Hn. eapply victims_oldest; [|apply Hv|done|by apply (free_elem _ _ Hw)|done].
    apply (run_in_order calls [] _ _ Hc (fleet_start_ok ratio watermark)). intros salt. constructor.
  - intros key limit Ho Hlim Hp (i & p & Ei & Ht & Hk & Hlt). eapply (victims_some _ _ _ limit); [done| | |apply Hv].
    + destruct Hlim as [?|Hlim]; [by left|]. right. rewrite Er. by apply f_clamp_keeps_positive.
    + intros En. apply (not_elem_of_nil key). rewrite <-En. apply (free_elem _ _ Hw). split_and!; [done|done|]. rewrite <-Hk. by eapply Hall.
  - intros server. destruct (delete_batches_ok (length (plan ≫= snd)) (plan ≫= snd) (le_n _)) as [H1 H2]. exists (delete_batches (length (plan ≫= snd)) (plan ≫= snd)).
    split; [|done]. unfold execute_evictions. rewrite E. cbn [py_bind]. by destruct plan.
Qed.

Definition fleet_demo : list fleet_call :=
  [FleetDeliver (Delivered (example_batch "s1" TierL2 STORE true 1 [example_entry "0a" 50; example_entry "0b" 20; example_entry "0c" 30]));
   FleetPin [mkKey (mkIdentity [Byte.x0b] 16777216 "m" 3 "u1" ∅)];
   FleetDeliver (Delivered (example_batch "s2" TierL2 ACCESS true 1 [example_entry "0a" 0]));
   FleetSetQuota "u1" 90; FleetSetQuota "u1" (-1)].

Lemma fleet_plan_enforced_witness :
  let v := foldl fleet_step (new_usage, new_fleet_eviction f_one f_one) fleet_demo in
  compute_eviction_plan v.1 v.2 = Ret [("u1"%string, [mkKey (mkIdentity [Byte.x0c] 16777216 "m" 0 "u1" ∅); mkKey (mkIdentity [Byte.x0a] 16777216 "m" 0 "u1" ∅)])] ∧
  ∃ plan, compute_eviction_plan v.1 v.2 = Ret plan ∧ ∀ salt, fleet_victims v.1 v.2 salt (default [] (dget salt plan)).
Proof.
  intros v. split; [vm_compute; reflexivity|]. destruct (fleet_plan_enforced f_one f_one fleet_demo) as (plan & E & Hv & _).
  - reflexivity.
  - assert (Forall delivery_ok (omap (λ c, match c with FleetDeliver x => Some x | _ => None end) fleet_demo)) as Hd by (apply deliveries_okb; vm_compute; reflexivity).
    apply Forall_cons in Hd as [H1 Hd]. apply Forall_cons in Hd as [H2 _]. unfold fleet_demo. rewrite !Forall_cons, Forall_nil. split_and!; done.
  - assert (fe_quota (foldl fleet_step (new_usage, new_fleet_eviction f_one f_one) fleet_demo).2 = mkQuota [("u1"%string, 90)] None) as Eq by (vm_compute; reflexivity).
    intros salt limit. rewrite Eq. unfold effective_limit_bytes. cbn [q_limits q_default dget]. case_decide; [intros [= <-]; lia|done].
  - assert (iso_order (fe_policy (foldl fleet_step (new_usage, new_fleet_eviction f_one f_one) fleet_demo).2) =
      [("u1"%string, [mkKey (mkIdentity [Byte.x0b] 16777216 "m" 0 "u1" ∅); mkKey (mkIdentity [Byte.x0c] 16777216 "m" 0 "u1" ∅); mkKey (mkIdentity [Byte.x0a] 16777216 "m" 0 "u1" ∅)])]) as Eq by (vm_compute; reflexivity).
    intros salt. rewrite Eq. unfold bucket. cbn [dget]. case_decide; cbn; lia.
  - by exists plan.
Defined.

(** ** Pins, one key at a time *)

Inductive pin_op := PinUp | PinDown | PinOff.

Definition pin_apply (pins : dict ObjectKey Z) (a : pin_op * ObjectKey) : dict ObjectKey Z :=
  match a.1 with PinUp => pin_one pins a.2 | PinDown => unpin_one pins a.2 | PinOff => ddel (_pinned_chunk_key a.2) pins end.

Definition pin_atoms (c : fleet_call) : list (pin_op * ObjectKey) :=
  match c with FleetPin keys => pair PinUp <$> keys | FleetUnpin keys => pair PinDown <$> keys | FleetDropPins keys => pair PinOff <$> keys | _ => [] end.

(** How many pins hold a chunk: they are counted, never below zero. *)
Definition count_pin (chunk : ObjectKey) (n : Z) (a : pin_op * ObjectKey) : Z :=
  if decide (_pinned_chunk_key a.2 = chunk) then match a.1 with PinUp => n + 1 | PinDown => Z.max 0 (n - 1) | PinOff => 0 end else n.

Lemma fold_atoms (h : dict ObjectKey Z → ObjectKey → dict ObjectKey Z) op pins (keys : list ObjectKey) :
  (∀ pins key, pin_apply pins (op, key) = h pins key) → foldl h pins keys = foldl pin_apply pins (pair op <$> keys).
Proof. intros Hh. revert pins. induction keys as [|key keys IH]; intros pins; [done|]. cbn [foldl fmap list_fmap]. by rewrite Hh, IH. Qed.

Lemma step_pins v c : pin_counts (fleet_step v c).2 = foldl pin_apply (pin_counts v.2) (pin_atoms c).
Proof.
  destruct c as [x|keys|keys|keys|salt limit|salt|limit]; try by apply fold_atoms.
  - rewrite deliver_quota_views. destruct x as [b|id]; cbn [snd pin_atoms foldl]; [|done]. rewrite consume_eviction_run. case_decide; [|done].
    apply (foldl_inv (λ f', pin_counts f' = pin_counts v.2)); [done|]. intros f' q _ Hf'. unfold eviction_entry. destruct (event_type b); try done. by destruct (_ =? 0).
  - cbn [fleet_step]. unfold requota. by destruct (set_quota _ _ _).
  - done.
  - cbn [fleet_step]. unfold requota. by destruct (set_default_limit_bytes _ _).
Qed.

Lemma run_pins calls v : pin_counts (foldl fleet_step v calls).2 = foldl pin_apply (pin_counts v.2) (calls ≫= pin_atoms).
Proof. revert v. induction calls as [|c calls IH]; intros v; [done|]. cbn [foldl]. by rewrite IH, step_pins, bind_cons, foldl_app. Qed.

Record pins_ok (pins : dict ObjectKey Z) : Prop := {
  po_nodup : NoDup (dkeys pins);
  po_each : ∀ k n, dget k pins = Some n → 0 < n ∧ valid_key k ∧ object_group_id k = 0
}.

Lemma pinned_chunk_valid key : valid_key key → valid_key (_pinned_chunk_key key) ∧ object_group_id (_pinned_chunk_key key) = 0.
Proof. intros (H1 & H2 & H3 & H4 & H5). unfold _pinned_chunk_key. destruct (Z.eqb_spec (object_group_id key) 0); by split_and!. Qed.

Lemma pins_ok_dset pins k n : pins_ok pins → valid_key k → object_group_id k = 0 → 0 < n → pins_ok (dset k n pins).
Proof. intros [H1 H2] Hv Hg Hn. split; [by apply NoDup_dset|]. intros k' n'. rewrite dget_dset. case_decide; [intros [= <-]; by subst k'|apply H2]. Qed.

Lemma pins_ok_ddel pins k : pins_ok pins → pins_ok (ddel k pins).
Proof. intros [H1 H2]. split; [by apply NoDup_ddel|]. intros k' n'. rewrite dget_ddel. case_decide; [done|apply H2]. Qed.

Lemma pin_apply_ok pins a :
  pins_ok pins → valid_key a.2 →
  pins_ok (pin_apply pins a) ∧ ∀ chunk, default 0 (dget chunk (pin_apply pins a)) = count_pin chunk (default 0 (dget chunk pins)) a.
Proof.
  intros Hp Hv. destruct (pinned_chunk_valid _ Hv) as [Hv' Hg]. unfold pin_apply, count_pin, pin_one, unpin_one. set (k := _pinned_chunk_key a.2) in *. clearbody k.
  assert (0 <= default 0 (dget k pins)) as Hnn by (destruct (dget k pins) eqn:E; [apply (po_each _ Hp) in E; cbn; lia|done]).
  destruct a.1; [split; [apply pins_ok_dset; try done; lia|]; intros chunk; rewrite dget_dset; by case_decide as E; [subst|]| |
    split; [by apply pins_ok_ddel|]; intros chunk; rewrite dget_ddel; by case_decide].
  destruct (Z.leb_spec (default 0 (dget k pins)) 1); (split; [first [by apply pins_ok_ddel|apply pins_ok_dset; [done..|lia]]|]); intros chunk;
    rewrite ?dget_ddel, ?dget_dset; (case_decide as E; [subst chunk; cbn; lia|done]).
Qed.

Lemma pin_run_ok l pins :
  Forall (λ a, valid_key a.2) l → pins_ok pins →
  pins_ok (foldl pin_apply pins l) ∧ ∀ chunk, default 0 (dget chunk (foldl pin_apply pins l)) = foldl (count_pin chunk) (default 0 (dget chunk pins)) l.
Proof.
  intros Hl. revert pins. induction Hl as [|a l Ha _ IH]; intros pins Hp; [done|]. cbn [foldl]. destruct (pin_apply_ok pins a Hp Ha) as [H1 H2].
  destruct (IH _ H1) as [H3 H4]. split; [done|]. intros chunk. by rewrite H4, H2.
Qed.

(** *** Capture and restore *)

Definition restored_pin (pins : dict ObjectKey Z) (q : ObjectKey * Z) : dict ObjectKey Z :=
  dset (untagged q.1) (default 0 (dget (untagged q.1) pins) + q.2) pins.

Lemma untagged_valid k : valid_key k → valid_key (untagged k).
Proof. intros (H1 & H2 & H3 & H4 & H5). by split_and!. Qed.

Lemma pin_decoded k n e : valid_key k → to_encoded_object_key k = Ret e → _decode_pin (e, n) = Ret (untagged k, n).
Proof.
  intros Hv E. unfold to_encoded_object_key, new_encoded in E. destruct (validate_identity_tags (tags k)); [|done]. cbn [py_bind] in E. injection E as <-.
  destruct (encoded_key_roundtrip (untagged k) (untagged_valid k Hv)) as (e & E1 & E2). unfold to_encoded_object_key in E1. unfold _decode_pin.
  cbn [fst snd chunk_hash_hex enc_model_name enc_kv_rank enc_object_group_id enc_cache_salt].
  change (new_encoded (to_hex (chunk_hash k)) (model_name k) (kv_rank k) (object_group_id k) (cache_salt k) ∅ = Ret e) in E1.
  rewrite E1. cbn [py_bind]. by rewrite E2.
Qed.

Lemma restore_entries l acc :
  (∀ k n, (k, n) ∈ l → 0 < n ∧ valid_key k ∧ object_group_id k = 0) →
  ∃ state, py_map (λ q : ObjectKey * Z, let! k := to_encoded_object_key q.1 in Ret (k, q.2)) l = Ret state ∧
    restore_pin_entries state acc = Ret (foldl restored_pin acc l).
Proof.
  revert acc. induction l as [|[k n] l IH]; intros acc Hl; [by exists []|]. destruct (Hl k n) as (Hn & Hv & Hg); [left|].
  destruct (encoded_key_roundtrip k Hv) as (e & E & _). destruct (IH (restored_pin acc (k, n))) as (state & Es & Er); [intros k' n' ?; apply Hl; by right|].
  exists ((e, n) :: state). cbn [py_map fst snd]. rewrite E. cbn [py_bind]. rewrite Es. split; [done|]. cbn [restore_pin_entries].
  rewrite (pin_decoded k n e Hv E). cbn [py_bind fst snd foldl]. replace (0 <? n) with true by lia. rewrite <-Er. f_equal.
  unfold _pinned_chunk_key. by rewrite (proj2 (Z.eqb_eq (object_group_id (untagged k)) 0) Hg).
Qed.

Lemma restored_keys l acc k : k ∈ dkeys (foldl restored_pin acc l) → k ∈ dkeys acc ∨ tags k = ∅.
Proof.
  revert acc. induction l as [|[k' n] l IH]; intros acc; [by left|]. cbn [foldl]. intros [Hk|?]%IH; [|by right]. unfold restored_pin in Hk.
  apply elem_dkeys_dset in Hk as [?| ->]; [by left|by right].
Qed.

Lemma restored_same l acc : NoDup (dkeys (acc ++ l)) → (∀ k, k ∈ dkeys l → tags k = ∅) → foldl restored_pin acc l = acc ++ l.
Proof.
  revert acc. induction l as [|[k n] l IH]; intros acc Hn Ht; [by rewrite app_nil_r|]. cbn [foldl].
  assert (restored_pin acc (k, n) = acc ++ [(k, n)]) as ->.
  { unfold restored_pin. cbn [fst snd]. rewrite (proj2 (untagged_id k)) by (apply Ht; left).
    assert (k ∉ dkeys acc) as Hk. { intros Hk. unfold dkeys in Hn. rewrite fmap_app in Hn. apply NoDup_app in Hn as (_ & Hd & _). apply (Hd k Hk). left. }
    rewrite dset_notin by done. assert (dget k acc = None) as -> by (apply eq_None_not_Some; by rewrite dget_is_Some). done. }
  rewrite IH; [by rewrite <-app_assoc|by rewrite <-app_assoc|]. intros k' ?. apply Ht. by right.
Qed.

Lemma is_pinned_count f key : pins_ok (pin_counts f) → is_pinned f key = true ↔ 0 < default 0 (dget (_pinned_chunk_key key) (pin_counts f)).
Proof.
  intros Hp. unfold is_pinned. rewrite dmem_true, <-dget_is_Some. split.
  - intros [n E]. rewrite E. by apply (po_each _ Hp) in E as [? _].
  - destruct (dget (_pinned_chunk_key key) (pin_counts f)); [by eexists|done].
Qed.

(** Pins are counted per chunk, and survive a restart of the coordinator
    exactly on untagged chunks. After any history, whatever was delivered and
    whatever object group the keys named: a chunk is exempt from eviction while
    more pins than unpins were made on it since it was last dropped. The
    captured table restores without error; it is the same table, and protects
    what was protected, if and only if no pinned key has identity tags. *)
Theorem pins_restart_iff ratio watermark calls f' :
  let atoms := calls ≫= pin_atoms in
  Forall (λ a, valid_key a.2) atoms →
  let f := (foldl fleet_step (new_usage, new_fleet_eviction ratio watermark) calls).2 in
  (∀ key, is_pinned f key = true ↔ 0 < foldl (count_pin (_pinned_chunk_key key)) 0 atoms) ∧
  ∃ state f'', capture_pins f = Ret state ∧ restore_pins state f' = Ret f'' ∧
    (pin_counts f'' = pin_counts f ↔ ∀ key, key ∈ dkeys (pin_counts f) → tags key = ∅) ∧
    ((∀ key, is_pinned f key = true → is_pinned f'' key = true) ↔ ∀ key, key ∈ dkeys (pin_counts f) → tags key = ∅).
Proof.
  intros atoms Ha f. pose proof (run_pins calls (new_usage, new_fleet_eviction ratio watermark)) as Ep. fold f atoms in Ep.
  destruct (pin_run_ok atoms [] Ha) as [Hok Hcount]; [split; [constructor|done]|]. cbn [snd new_fleet_eviction pin_counts] in Ep. rewrite <-Ep in Hok, Hcount.
  split; [intros key; by rewrite is_pinned_count, Hcount|].
  destruct (restore_entries (pin_counts f) []) as (state & Ec & Er); [intros k n Hin; apply (po_each _ Hok), elem_dget; [apply Hok|done]|].
  exists state, (set_pins (foldl restored_pin [] (pin_counts f)) f'). split; [exact Ec|]. split; [unfold restore_pins; by rewrite Er|].
  assert (∀ k, k ∈ dkeys (foldl restored_pin [] (pin_counts f)) → tags k = ∅) as Htags by (intros k [?%elem_of_nil|?]%restored_keys; done).
  cbn [set_pins pin_counts].
  assert ((∀ key, key ∈ dkeys (pin_counts f) → tags key = ∅) → foldl restored_pin [] (pin_counts f) = pin_counts f) as Hsame by (intros ?; apply (restored_same _ []); [apply Hok|done]).
  split; (split; [|intros Ht]); [intros E; by rewrite <-E| by apply Hsame| |].
  - intros Hp key Hk. apply Htags. assert (_pinned_chunk_key key = key) as Ek.
    { unfold _pinned_chunk_key. apply dget_is_Some in Hk as [n E]. apply (po_each _ Hok) in E as (_ & _ & Hg). by rewrite (proj2 (Z.eqb_eq _ 0) Hg). }
    specialize (Hp key). unfold is_pinned in Hp. rewrite Ek, !dmem_true in Hp. by apply Hp.
  - intros key. unfold is_pinned. cbn [set_pins pin_counts]. by rewrite Hsame.
Qed.

(** A pin on a tagged chunk is lost. *)
Lemma pins_restart_iff_witness :
  ∃ state f'', capture_pins (pin [demo_key] (new_fleet_eviction f_one f_one)) = Ret state ∧ restore_pins state (new_fleet_eviction f_one f_one) = Ret f'' ∧
    pin_counts f'' ≠ pin_counts (pin [demo_key] (new_fleet_eviction f_one f_one)).
Proof.
  destruct (pins_restart_iff f_one f_one [FleetPin [demo_key]] (new_fleet_eviction f_one f_one)) as (_ & state & f'' & E1 & E2 & Hp & _).
  - apply Forall_cons. split; [|by apply Forall_nil]. vm_compute. repeat split; try discriminate; lia.
  - exists state, f''. split; [exact E1|]. split; [exact E2|]. intros E. apply (proj1 Hp) with (key := demo_key) in E; [vm_compute in E; discriminate|].
    cbn. left.
Defined.
