(* ===== verification/OperatorApi.v ===== *)
(** * What operators set

    The routes of the fleet's eviction controller
    (lmcache/v1/mp_coordinator/controllers/eviction_http_api.py), which set
    quotas and pins and delete cached tokens; the document that keeps quotas and
    pins (persistence/metadata.py) in an artifact of persistence/store.py; and the
    keys that a token sequence names
    (lmcache/v1/multiprocess/cache_control/key_resolver.py).

    A handler runs on the event loop and is interrupted only where it awaits:
    [request_delete] is in two parts, before and after the answer of the server
    it sends the deletion to. *)

From stdpp Require Import gmap list strings.
From Stdlib Require Import ZArith Lia.
From Stdlib.Strings Require Import Byte.
From Stdlib Require Import Floats.SpecFloat.
From S2P Require Import Prelude Keys PyFloat Handler TokenHasher EvictionPolicy EvictionController EventGate Placements UsageManager KeyDirectory DirectoryProps FleetEviction.

Open Scope Z_scope.
Open Scope py_scope.
Open Scope handler_scope.

(** ** The keys of a token sequence *)

Definition MAX_TOKEN_IDS : Z := 1000000.

(** [IPCCacheServerKey.__post_init__] on the salt. *)
Definition check_ipc_salt (cache_salt : string) : py unit :=
  if existsb (λ c, contains c cache_salt) [AT; SLASH; BACKSLASH; NUL] then Raise ValueError
  else if (128 <? length (chars cache_salt))%nat then Raise ValueError
  else Ret tt.

Section resolver.
Context (little : bool) (blake3 : list byte → list byte) (engine_hash : hash_value → list Z → hash_value).

Definition _resolve_ipc_key_and_hashes (h : TokenHasher) (model_name : string) (world_size : Z) (token_ids : list Z) (cache_salt : string)
    : py (IPCCacheServerKey * list (list byte)) :=
  if MAX_TOKEN_IDS <? Z.of_nat (length token_ids) then Raise ValueError
  else
    let! _ := pack_token_ids little token_ids in
    let! _ := check_ipc_salt cache_salt in
    let! chunk_hashes := compute_chunk_hashes little blake3 engine_hash h token_ids None 0 None in
    Ret (mkIPC model_name world_size None cache_salt None, chunk_hashes).

Definition resolve_object_keys (h : TokenHasher) (model_name : string) (world_size : Z) (token_ids : list Z) (cache_salt : string) : py (list ObjectKey * Z) :=
  let! r := _resolve_ipc_key_and_hashes h model_name world_size token_ids cache_salt in
  match r.2 with
  | [] => Ret ([], 0)
  | _ =>
      let! keys := ipc_key_to_object_keys r.1 r.2 [0] (mkShards [] []) in
      let! obj_keys := py_index keys 0 in
      Ret (obj_keys, Z.of_nat (length r.2))
  end.

Definition resolve_grouped_object_keys (h : TokenHasher) (model_name : string) (world_size : Z) (token_ids : list Z) (cache_salt : string)
    (group_layout_descs : dict Z MemoryLayoutDesc) (attn_desc : AttnWindowDesc) (shard_replication_desc : ShardReplicationDesc)
    : py (list GroupedObjectKeys * Z) :=
  let! r := _resolve_ipc_key_and_hashes h model_name world_size token_ids cache_salt in
  match r.2 with
  | [] => Ret ([], 0)
  | _ =>
      let! rows := ipc_key_to_grouped_object_keys r.1 r.2 (Z.of_nat <$> seq 0 (length (num_chunks_in_sw attn_desc))) group_layout_descs attn_desc shard_replication_desc in
      Ret (rows, Z.of_nat (length r.2))
  end.
End resolver.

(** ** The document *)

Inductive section := PinSection (entries : list (EncodedObjectKey * Z)) | QuotaSection (state : dict string Z * option Z).

Record document := mkDocument { version : Z; saved_at : float; components : dict string section }.

Definition _FORMAT_VERSION : Z := 1.

(** What the coordinator keeps of its operators: the controller with its pins and
    quotas, the stored artifact, and the counts of saves that went well and of
    those that failed. *)
Record OperatorState (Bytes : Type) := mkOperator {
  fleet : FleetEvictionController;
  artifact : option Bytes;
  writes_ok : Z;
  writes_error : Z
}.
Arguments mkOperator {Bytes}.
Arguments fleet {Bytes}.
Arguments artifact {Bytes}.
Arguments writes_ok {Bytes}.
Arguments writes_error {Bytes}.

(** What a route answers. *)
Inductive response (X : Type) := Reply (x : X) | HTTPException (status : Z).
Arguments Reply {X}.
Arguments HTTPException {X}.

Definition _GB : Z := 1024 ^ 3.
Definition _QUOTA_TIER : Tier := TierL2.
Definition _resolve_salt_from_api_path (cache_salt : string) : string := if (cache_salt =? "_default")%string then EmptyString else cache_salt.
Definition _gb (n_bytes : Z) : float := f_div (f_of_Z n_bytes) (f_of_Z _GB).
Definition int_bytes (limit_gb : float) : py Z := f_int (f_mul limit_gb (f_of_Z _GB)).

Record QuotaResponse := mkQuotaResponse { qr_cache_salt : string; qr_limit_gb : float; qr_status : string }.
Record PinResponse := mkPinResponse { pr_requested : Z; pr_affected : Z; pr_status : string }.
Record StatusResponse := mkStatus { sr_cache_salt : string; sr_quota_limit_gb : float; sr_quota_exists : bool; sr_usage_gb : float }.
Record DeleteResponse := mkDeleteResponse { dr_instance_id : string; dr_requested : Z; dr_affected : Z; dr_skipped : Z; dr_status : string }.
Record TokenRequest := mkTokens { tr_model_name : string; tr_world_size : Z; tr_token_ids : list Z; tr_cache_salt : string }.

Section api.
(** JSON: a document as it is written and read. *)
Context {Bytes : Type} (dumps : document → Bytes) (loads : Bytes → option document).
(** The fleet's hash function. *)
Context (little : bool) (blake3 : list byte → list byte) (engine_hash : hash_value → list Z → hash_value) (hasher : TokenHasher).

Implicit Types (s : OperatorState Bytes) (f : FleetEvictionController).

Definition set_fleet f s : OperatorState Bytes := mkOperator f (artifact s) (writes_ok s) (writes_error s).
Definition on_fleet {X} (h : handler FleetEvictionController X) : handler (OperatorState Bytes) X := λ s, let '(r, f) := h (fleet s) in (r, set_fleet f s).

(** [open_write] of a file: replaced as a whole, or not at all. [disk] is whether
    the file system takes it. *)
Definition open_write (disk : bool) (payload : Bytes) : handler (OperatorState Bytes) unit := λ s,
  if disk then (Ret tt, mkOperator (fleet s) (Some payload) (writes_ok s) (writes_error s)) else (Raise OSError, s).

Definition capture_document (now : float) f : py document :=
  let! entries := capture_pins f in
  Ret (mkDocument _FORMAT_VERSION now [("pins", PinSection entries); ("quotas", QuotaSection (quota_capture (fe_quota f)))]%string).

Definition save (now : float) (disk : bool) : handler (OperatorState Bytes) unit := λ s,
  match capture_document now (fleet s) with
  | Raise e => (Raise e, s)
  | Ret d =>
      match open_write disk (dumps d) s with
      | (Ret _, s) => (Ret tt, mkOperator (fleet s) (artifact s) (writes_ok s + 1) (writes_error s))
      | (Raise _, s) => (Raise MetadataWriteError, mkOperator (fleet s) (artifact s) (writes_ok s) (writes_error s + 1))
      end
  end.

Definition _decode (raw : Bytes) : py document :=
  match loads raw with
  | None => Raise MetadataFormatError
  | Some d => if version d =? _FORMAT_VERSION then Ret d else Raise MetadataFormatError
  end.

(** [component.restore(section)], where a section of another shape raises a
    [KeyError]. *)
Definition restore_pin_section (x : section) f : py FleetEvictionController :=
  match x with PinSection entries => restore_pins entries f | QuotaSection _ => Raise KeyError end.
Definition restore_quota_section (x : section) f : py FleetEvictionController :=
  match x with QuotaSection st => Ret (set_fleet_quota (quota_restore st (fe_quota f)) f) | PinSection _ => Raise KeyError end.

Definition restore_component (name : string) (restore : section → FleetEvictionController → py FleetEvictionController) (d : document) f : FleetEvictionController :=
  match dget name (components d) with
  | None => f
  | Some x => match restore x f with Ret f' => f' | Raise _ => f end
  end.

(** At startup; [readable] is whether the file can be opened. *)
Definition load (readable : bool) (a : option Bytes) f : FleetEvictionController :=
  match a with
  | Some raw =>
      if readable then
        match _decode raw with
        | Ret d => restore_component "quotas" restore_quota_section d (restore_component "pins" restore_pin_section d f)
        | Raise _ => f
        end
      else f
  | None => f
  end.

(** ** The routes

    [now] is the wall clock and [disk] whether the document can be written. *)

(** [undo] restores what the change replaced. *)
Definition _save_or_undo {X} (now : float) (disk : bool) (undo : FleetEvictionController → py FleetEvictionController) (x : X) : handler (OperatorState Bytes) (response X) := λ s,
  match save now disk s with
  | (Ret _, s) => (Ret (Reply x), s)
  | (Raise MetadataWriteError, s) => match undo (fleet s) with Ret f => (Ret (HTTPException 503), set_fleet f s) | Raise e => (Raise e, s) end
  | (Raise e, s) => (Raise e, s)
  end.

Definition undo_quota (before : dict string Z * option Z) f : py FleetEvictionController := Ret (set_fleet_quota (quota_restore before (fe_quota f)) f).

Definition set_quota_config (t : Tier) (default_limit_gb : option float) (now : float) (disk : bool) : handler (OperatorState Bytes) (response (option float)) := λ s,
  if negb (bool_decide (t = _QUOTA_TIER)) then (Ret (HTTPException 400), s)
  else
    match (match default_limit_gb with None => Ret None | Some gb => let! n := int_bytes gb in Ret (Some n) end) with
    | Raise e => (Raise e, s)
    | Ret limit =>
        let before := quota_capture (fe_quota (fleet s)) in
        match set_default_limit_bytes limit (fe_quota (fleet s)) with
        | Raise e => (Raise e, s)
        | Ret q => _save_or_undo now disk (undo_quota before) default_limit_gb (set_fleet (set_fleet_quota q (fleet s)) s)
        end
    end.

Definition get_quota_config (t : Tier) s : response (option float) :=
  if negb (bool_decide (t = _QUOTA_TIER)) then HTTPException 400 else Reply (_gb <$> get_default_limit_bytes (fe_quota (fleet s))).

Definition put_quota (cache_salt : string) (t : Tier) (limit_gb : float) (now : float) (disk : bool) : handler (OperatorState Bytes) (response QuotaResponse) := λ s,
  if negb (bool_decide (t = _QUOTA_TIER)) then (Ret (HTTPException 400), s)
  else
    let cache_salt := _resolve_salt_from_api_path cache_salt in
    match int_bytes limit_gb with
    | Raise e => (Raise e, s)
    | Ret limit_bytes =>
        let before := quota_capture (fe_quota (fleet s)) in
        match set_quota cache_salt limit_bytes (fe_quota (fleet s)) with
        | Raise ValueError => (Ret (HTTPException 400), s)
        | Raise e => (Raise e, s)
        | Ret q => _save_or_undo now disk (undo_quota before) (mkQuotaResponse cache_salt limit_gb "ok") (set_fleet (set_fleet_quota q (fleet s)) s)
        end
    end.

Definition remove_quota (cache_salt : string) (t : Tier) (now : float) (disk : bool) : handler (OperatorState Bytes) (response QuotaResponse) := λ s,
  if negb (bool_decide (t = _QUOTA_TIER)) then (Ret (HTTPException 400), s)
  else
    let cache_salt := _resolve_salt_from_api_path cache_salt in
    let before := quota_capture (fe_quota (fleet s)) in
    let '(removed, q) := delete_quota cache_salt (fe_quota (fleet s)) in
    _save_or_undo now disk (undo_quota before) (mkQuotaResponse cache_salt f_zero (if removed then "removed" else "not_found")) (set_fleet (set_fleet_quota q (fleet s)) s).

Definition _require_accounted_tier (t : Tier) : bool := bool_decide (t = TierL1) || bool_decide (t = TierL2).

Definition get_status (cache_salt : string) (t : Tier) (u : CacheUsageManager) s : response StatusResponse :=
  if negb (_require_accounted_tier t) then HTTPException 400
  else
    let cache_salt := _resolve_salt_from_api_path cache_salt in
    let exists_ := bool_decide (t = _QUOTA_TIER) && has_quota cache_salt (fe_quota (fleet s)) in
    let limit := if exists_ then get_limit_bytes cache_salt (fe_quota (fleet s)) else 0 in
    Reply (mkStatus cache_salt (_gb limit) exists_ (_gb (get_salt_bytes t cache_salt u))).

(** A change of the pins of the keys that the tokens of a request name. *)
Definition change_pins (change : list ObjectKey → FleetEvictionController → FleetEvictionController) (status : string) (body : TokenRequest) (now : float) (disk : bool)
    : handler (OperatorState Bytes) (response PinResponse) := λ s,
  match resolve_object_keys little blake3 engine_hash hasher (tr_model_name body) (tr_world_size body) (tr_token_ids body) (tr_cache_salt body) with
  | Raise ValueError => (Ret (HTTPException 400), s)
  | Raise e => (Raise e, s)
  | Ret (resolved, chunks) =>
      match capture_pins (fleet s) with
      | Raise e => (Raise e, s)
      | Ret before =>
          _save_or_undo now disk (restore_pins before) (mkPinResponse chunks (Z.of_nat (length resolved)) status) (set_fleet (change resolved (fleet s)) s)
      end
  end.

Definition request_pin := change_pins pin "pinned".
Definition request_unpin := change_pins unpin "unpinned".

(** The first part of a deletion: the keys it resolves to, those it sends, and the
    number of chunks. [registered] is whether the target server is. *)
Record deletion := mkDeletion { del_instance_id : string; del_chunks : Z; del_resolved : list ObjectKey; del_keys : list ObjectKey; del_payload : list EncodedObjectKey }.

Definition touches_l2 (t : Tier) : bool := bool_decide (t = TierL2) || bool_decide (t = TierALL).

Definition request_delete_send (instance_id : string) (registered : bool) (dir : KeyDirectory) (body : TokenRequest) (t : Tier) (force : bool) s : py (response deletion) :=
  if negb registered then Ret (HTTPException 404)
  else
    match resolve_object_keys little blake3 engine_hash hasher (tr_model_name body) (tr_world_size body) (tr_token_ids body) (tr_cache_salt body) with
    | Raise ValueError => Ret (HTTPException 400)
    | Raise e => Raise e
    | Ret (resolved, chunks) =>
        let resolved := get_keys_across_object_groups resolved dir in
        if chunks =? 0 then Ret (Reply (mkDeletion instance_id 0 [] [] []))
        else
          let delete_keys := if touches_l2 t && negb force then filter_unpinned resolved (fleet s) else resolved in
          let! payload := py_map to_encoded_object_key delete_keys in
          Ret (Reply (mkDeletion instance_id chunks resolved delete_keys payload))
    end.

(** The second part. [node] is what the server answered, how many keys it deleted
    and how many it skipped, or [None] if the request failed. *)
Definition request_delete_finish (d : deletion) (t : Tier) (force : bool) (node : option (Z * Z)) (now : float) (disk : bool)
    : handler (OperatorState Bytes) (response DeleteResponse) := λ s,
  if del_chunks d =? 0 then (Ret (Reply (mkDeleteResponse (del_instance_id d) 0 0 0 "noop")), s)
  else
    match (match del_keys d with [] => Some (0, 0) | _ => node end) with
    | None => (Ret (HTTPException 502), s)
    | Some (node_deleted, node_skipped) =>
        let pin_skipped := Z.of_nat (length (del_resolved d)) - Z.of_nat (length (del_keys d)) in
        let answer := mkDeleteResponse (del_instance_id d) (del_chunks d) node_deleted (node_skipped + pin_skipped) "deleted" in
        if touches_l2 t && force then
          match capture_pins (fleet s) with
          | Raise e => (Raise e, s)
          | Ret before => _save_or_undo now disk (restore_pins before) answer (set_fleet (drop_pins (del_resolved d) (fleet s)) s)
          end
        else (Ret (Reply answer), s)
    end.
End api.

(** ** Resolved keys *)

(** A key of the coordinator's own making: accepted by the constructor, and
    without identity tags. *)
Definition plain_key (k : ObjectKey) : Prop := valid_key k ∧ tags k = ∅.

Lemma resolved_plain little blake3 engine_hash h model ws ts salt keys n :
  resolve_object_keys little blake3 engine_hash h model ws ts salt = Ret (keys, n) → Forall plain_key keys.
Proof.
  unfold resolve_object_keys. destruct (_resolve_ipc_key_and_hashes _ _ _ _ _ _ _ _) as [[k hs]|] eqn:Er; [|done]. cbn [py_bind fst snd].
  destruct hs as [|h0 hs]; [intros [= <- _]; constructor|]. destruct (ipc_key_to_object_keys k (h0 :: hs) [0] (mkShards [] [])) as [rows|] eqn:Ek; [|done]. cbn [py_bind].
  destruct (py_index rows 0) as [row|] eqn:Ei; [|done]. cbn [py_bind]. intros [= <- _].
  assert (get_request_tags (ipc_request_configs k) = Ret ∅) as Et.
  { unfold _resolve_ipc_key_and_hashes in Er. destruct (_ <? _); [done|]. repeat (match type of Er with py_bind ?c _ = _ => destruct c; [cbn [py_bind] in Er|done] end).
    injection Er as <- _. cbn [ipc_request_configs]. unfold get_request_tags, validate_identity_tags. cbn [default request_tags_loop py_bind]. by rewrite decide_True. }
  unfold ipc_key_to_object_keys in Ek. rewrite Et in Ek. cbn [py_bind] in Ek. apply py_map_Ret in Ek. inversion Ek as [|g row' gs rows' Hrow Hnil]; subst. inversion Hnil; subst.
  change (py_index [row'] 0) with (Ret row') in Ei. injection Ei as <-. destruct (py_map _ (h0 :: hs)) as [per|] eqn:Ep in Hrow; [|done]. cbn [py_bind] in Hrow. injection Hrow as <-.
  apply py_map_Ret in Ep. apply Forall_forall. intros key Hkey. apply list_elem_of_join in Hkey as (l & Hkey & Hl). apply list_elem_of_lookup in Hl as [i Hl].
  destruct (Forall2_lookup_r _ _ _ _ _ Ep Hl) as (hsh & _ & Hh). cbv beta in Hh.
  repeat (match type of Hh with py_bind ?c _ = _ => destruct c; [cbn [py_bind] in Hh|done] end).
  apply py_map_Ret in Hh. apply list_elem_of_lookup in Hkey as [j Hj]. destruct (Forall2_lookup_r _ _ _ _ _ Hh Hj) as (r & _ & Hn). apply new_key_flat in Hn as [-> Hv]. by split.
Qed.

(** ** Pins of plain keys *)

Definition plain_pins (pins : dict ObjectKey Z) : Prop := pins_ok pins ∧ ∀ k, k ∈ dkeys pins → tags k = ∅.

Lemma pinned_chunk_tags key : tags (_pinned_chunk_key key) = tags key.
Proof. unfold _pinned_chunk_key. by destruct (_ =? 0). Qed.

Lemma plain_apply pins op key : plain_pins pins → (op ≠ PinOff → plain_key key) → plain_pins (pin_apply pins (op, key)).
Proof.
  intros [Hp Ht] Hk. destruct op.
  - destruct (Hk ltac:(done)) as [Hv Hkt]. split; [by apply pin_apply_ok|]. intros k. unfold pin_apply, pin_one. cbn [fst snd]. rewrite elem_dkeys_dset.
    intros [?| ->]; [by apply Ht|by rewrite pinned_chunk_tags].
  - destruct (Hk ltac:(done)) as [Hv Hkt]. split; [by apply pin_apply_ok|]. intros k. unfold pin_apply, unpin_one. cbn [fst snd]. destruct (_ <=? 1).
    + intros Hin. apply Ht. revert Hin. rewrite <-!dget_is_Some, dget_ddel. case_decide; [by intros []|done].
    + rewrite elem_dkeys_dset. intros [?| ->]; [by apply Ht|by rewrite pinned_chunk_tags].
  - split; [by apply pins_ok_ddel|]. intros k. unfold pin_apply. cbn [fst snd]. intros Hin. apply Ht. revert Hin. rewrite <-!dget_is_Some, dget_ddel. case_decide; [by intros []|done].
Qed.

Lemma plain_changes op pins keys : plain_pins pins → (op ≠ PinOff → Forall plain_key keys) → plain_pins (foldl pin_apply pins (pair op <$> keys)).
Proof.
  intros Hp Hk. revert pins Hp. induction keys as [|key keys IH]; intros pins Hp; [done|]. cbn [fmap list_fmap foldl].
  apply IH; [intros Ho; specialize (Hk Ho); by inversion Hk|]. apply plain_apply; [done|]. intros Ho. specialize (Hk Ho). by inversion Hk.
Qed.

Lemma plain_pin f keys : plain_pins (pin_counts f) → Forall plain_key keys → plain_pins (pin_counts (pin keys f)).
Proof. intros Hp Hk. unfold pin. cbn [set_pins pin_counts]. rewrite (fold_atoms _ PinUp) by done. by apply plain_changes. Qed.
Lemma plain_unpin f keys : plain_pins (pin_counts f) → Forall plain_key keys → plain_pins (pin_counts (unpin keys f)).
Proof. intros Hp Hk. unfold unpin. cbn [set_pins pin_counts]. rewrite (fold_atoms _ PinDown) by done. by apply plain_changes. Qed.
Lemma plain_drop f keys : plain_pins (pin_counts f) → plain_pins (pin_counts (drop_pins keys f)).
Proof. intros Hp. unfold drop_pins. cbn [set_pins pin_counts]. rewrite (fold_atoms _ PinOff) by done. by apply plain_changes. Qed.

(** Plain pins are captured and restored as they are. *)
Lemma plain_restore f f' : plain_pins (pin_counts f) → ∃ state, capture_pins f = Ret state ∧ restore_pins state f' = Ret (set_pins (pin_counts f) f').
Proof.
  intros [Hp Ht]. destruct (restore_entries (pin_counts f) []) as (state & Ec & Er); [intros k n Hin; apply (po_each _ Hp), elem_dget; [apply Hp|done]|].
  exists state. split; [exact Ec|]. unfold restore_pins. rewrite Er. cbn [py_bind]. by rewrite (restored_same _ []) by (apply Hp || done).
Qed.

(** ** Histories of requests *)

Section durable.
Context {Bytes : Type} (dumps : document → Bytes) (loads : Bytes → option document).
Context (little : bool) (blake3 : list byte → list byte) (engine_hash : hash_value → list Z → hash_value) (hasher : TokenHasher).

Inductive op_call :=
| OpDefault (t : Tier) (limit : option float) | OpPut (salt : string) (t : Tier) (limit : float) | OpRemove (salt : string) (t : Tier)
| OpPin (body : TokenRequest) | OpUnpin (body : TokenRequest)
| OpDelete (d : deletion) (t : Tier) (force : bool) (node : option (Z * Z)).

(** Whether a request was answered with what it asked for. *)
Definition answered {X} (h : handler (OperatorState Bytes) (response X)) : handler (OperatorState Bytes) bool := λ s,
  match h s with (Ret (Reply _), s) => (Ret true, s) | (Ret (HTTPException _), s) => (Ret false, s) | (Raise e, s) => (Raise e, s) end.

Definition op_run (now : float) (disk : bool) (c : op_call) : handler (OperatorState Bytes) bool :=
  match c with
  | OpDefault t limit => answered (set_quota_config dumps t limit now disk)
  | OpPut salt t limit => answered (put_quota dumps salt t limit now disk)
  | OpRemove salt t => answered (remove_quota dumps salt t now disk)
  | OpPin body => answered (request_pin dumps little blake3 engine_hash hasher body now disk)
  | OpUnpin body => answered (request_unpin dumps little blake3 engine_hash hasher body now disk)
  | OpDelete d t force node => answered (request_delete_finish dumps d t force node now disk)
  end.

Definition op_step (s : OperatorState Bytes) (c : float * bool * op_call) : OperatorState Bytes := (op_run c.1.1 c.1.2 c.2 s).2.

Implicit Types (s : OperatorState Bytes) (f : FleetEvictionController).

(** The document holds the pins and the quotas there are. *)
Record durable (f0 : FleetEvictionController) s : Prop := {
  du_plain : plain_pins (pin_counts (fleet s));
  du_stored : match artifact s with
              | Some raw => ∃ now d, capture_document now (fleet s) = Ret d ∧ raw = dumps d
              | None => pin_counts (fleet s) = pin_counts f0 ∧ fe_quota (fleet s) = fe_quota f0
              end
}.

Lemma capture_document_Ret now f : plain_pins (pin_counts f) → ∃ d, capture_document now f = Ret d.
Proof. intros Hp. destruct (plain_restore f f Hp) as (state & E & _). unfold capture_document. rewrite E. by eexists. Qed.

(** Every change goes through [_save_or_undo]: it is stored, or undone. *)
Lemma save_or_undo_ok {X} f0 now disk undo (x : X) s f' :
  durable f0 s → plain_pins (pin_counts f') → undo f' = Ret (fleet s) →
  let '(r, s') := answered (_save_or_undo dumps now disk undo x) (set_fleet f' s) in
  durable f0 s' ∧ (r = Ret true ∧ fleet s' = f' ∨ r = Ret false ∧ fleet s' = fleet s).
Proof.
  intros [Hp Hs] Hp' Hu. unfold answered, _save_or_undo, save, open_write. cbn [set_fleet fleet]. destruct (capture_document_Ret now f' Hp') as [d Ed]. rewrite Ed.
  destruct disk; cbn [fleet artifact set_fleet].
  - split; [|by left]. split; [done|]. cbn [artifact fleet]. by exists now, d.
  - rewrite Hu. split; [|by right]. split; [done|]. exact Hs.
Qed.

(** A request that is not granted changes nothing. *)
Definition kept s (out : py bool * OperatorState Bytes) : Prop := out.1 = Ret true ∨ fleet out.2 = fleet s.

Lemma unchanged_ok f0 s r : durable f0 s → durable f0 (r, s).2 ∧ kept s (r, s).
Proof. intros Hs. split; [done|by right]. Qed.

Lemma quota_change_ok {X} f0 now disk (x : X) q s :
  durable f0 s →
  let out := answered (_save_or_undo dumps now disk (undo_quota (quota_capture (fe_quota (fleet s)))) x) (set_fleet (set_fleet_quota q (fleet s)) s) in
  durable f0 out.2 ∧ kept s out.
Proof.
  intros Hs. pose proof (save_or_undo_ok f0 now disk (undo_quota (quota_capture (fe_quota (fleet s)))) x s (set_fleet_quota q (fleet s)) Hs (du_plain _ _ Hs)) as H.
  destruct (answered _ _) as [r s'] eqn:E. cbv zeta. cbn [fst snd]. destruct H as [H1 H2]; [unfold undo_quota, quota_restore, quota_capture; by destruct s as [[[] ? ? ? ?]]|].
  split; [done|]. destruct H2 as [[-> _]|[_ H2]]; [by left|by right].
Qed.

Lemma pin_change_ok {X} f0 now disk (x : X) (change : FleetEvictionController → FleetEvictionController) before s :
  durable f0 s → plain_pins (pin_counts (change (fleet s))) → (∃ pins, change (fleet s) = set_pins pins (fleet s)) → capture_pins (fleet s) = Ret before →
  let out := answered (_save_or_undo dumps now disk (restore_pins before) x) (set_fleet (change (fleet s)) s) in
  durable f0 out.2 ∧ kept s out.
Proof.
  intros Hs Hp [pins Ec] Eb. pose proof (save_or_undo_ok f0 now disk (restore_pins before) x s (change (fleet s)) Hs Hp) as H.
  destruct (answered _ _) as [r s'] eqn:E. cbv zeta. cbn [fst snd]. destruct H as [H1 H2].
  - destruct (plain_restore (fleet s) (change (fleet s)) (du_plain _ _ Hs)) as (state & E1 & E2). rewrite E1 in Eb. injection Eb as <-. rewrite E2, Ec. by destruct s as [[] ? ? ?].
  - split; [done|]. destruct H2 as [[-> _]|[_ H2]]; [by left|by right].
Qed.

Lemma change_pins_ok f0 change status body now disk s :
  durable f0 s → (∀ keys f, ∃ pins, change keys f = set_pins pins f) → (∀ keys f, plain_pins (pin_counts f) → Forall plain_key keys → plain_pins (pin_counts (change keys f))) →
  let out := answered (change_pins dumps little blake3 engine_hash hasher change status body now disk) s in
  durable f0 out.2 ∧ kept s out.
Proof.
  intros Hs Hc Hp. cbv zeta. unfold answered at 1 2, change_pins.
  destruct (resolve_object_keys _ _ _ _ _ _ _ _) as [[resolved chunks]|[]] eqn:Er; try by apply unchanged_ok. apply resolved_plain in Er.
  destruct (plain_restore (fleet s) (fleet s) (du_plain _ _ Hs)) as (before & Eb & _). rewrite Eb.
  exact (pin_change_ok f0 now disk _ (change resolved) before s Hs (Hp _ _ (du_plain _ _ Hs) Er) (Hc _ _) Eb).
Qed.

Lemma op_run_ok f0 now disk c s : durable f0 s → durable f0 (op_run now disk c s).2 ∧ kept s (op_run now disk c s).
Proof.
  intros Hs. destruct c as [t limit|salt t limit|salt t|body|body|d t force node]; cbn [op_run].
  - unfold answered at 1 2, set_quota_config. destruct (negb _); [by apply unchanged_ok|].
    destruct (match limit with None => Ret None | Some gb => _ end) as [l|]; [|by apply unchanged_ok]. destruct (set_default_limit_bytes l _) as [q|]; [|by apply unchanged_ok].
    exact (quota_change_ok f0 now disk limit q s Hs).
  - unfold answered at 1 2, put_quota. destruct (negb _); [by apply unchanged_ok|]. destruct (int_bytes limit) as [n|]; [|by apply unchanged_ok].
    destruct (set_quota _ n _) as [q|[]]; try by apply unchanged_ok. exact (quota_change_ok f0 now disk _ q s Hs).
  - unfold answered at 1 2, remove_quota. destruct (negb _); [by apply unchanged_ok|]. destruct (delete_quota _ _) as [removed q]. exact (quota_change_ok f0 now disk _ q s Hs).
  - apply change_pins_ok; [done|by intros; eexists|intros; by apply plain_pin].
  - apply change_pins_ok; [done|by intros; eexists|intros; by apply plain_unpin].
  - unfold answered at 1 2, request_delete_finish. destruct (del_chunks d =? 0); [by apply unchanged_ok|].
    destruct (match del_keys d with [] => _ | _ => node end) as [[nd ns]|]; [|by apply unchanged_ok]. destruct (touches_l2 t && force); [|by apply unchanged_ok].
    destruct (plain_restore (fleet s) (fleet s) (du_plain _ _ Hs)) as (before & Eb & _). rewrite Eb.
    exact (pin_change_ok f0 now disk _ (drop_pins (del_resolved d)) before s Hs (plain_drop _ _ (du_plain _ _ Hs)) ltac:(by eexists) Eb).
Qed.

(** *** Restarts *)

Hypothesis json_roundtrip : ∀ d, loads (dumps d) = Some d.

Lemma load_stored now d f f0 :
  plain_pins (pin_counts f) → capture_document now f = Ret d →
  load loads true (Some (dumps d)) f0 = set_fleet_quota (fe_quota f) (set_pins (pin_counts f) f0).
Proof.
  intros Hp Ed. unfold capture_document in Ed. destruct (plain_restore f f0 Hp) as (state & E1 & E2). rewrite E1 in Ed. injection Ed as <-.
  unfold load, _decode. rewrite json_roundtrip. cbn [version]. unfold _FORMAT_VERSION. cbn [Z.eqb Pos.eqb].
  unfold restore_component at 2. cbn [components dget]. rewrite decide_True by done. cbn [restore_pin_section]. rewrite E2.
  unfold restore_component. cbn [components dget]. rewrite decide_False, decide_True by done. unfold restore_quota_section, quota_restore, quota_capture. cbn [fst snd].
  by destruct f as [[] ? ? ? ?].
Qed.

Lemma durable_load f0 s :
  durable f0 s → pin_counts (load loads true (artifact s) f0) = pin_counts (fleet s) ∧ fe_quota (load loads true (artifact s) f0) = fe_quota (fleet s).
Proof.
  intros [Hp Hs]. destruct (artifact s) as [raw|].
  - destruct Hs as (now & d & Ed & ->). by rewrite (load_stored now d (fleet s)).
  - by destruct Hs as [-> ->].
Qed.

Lemma durable_run f0 calls s : durable f0 s → durable f0 (foldl op_step s calls).
Proof. intros Hs. apply (foldl_inv (durable f0)); [done|]. intros s' c _ Hs'. by apply op_run_ok. Qed.
End durable.

(** *** Deletions *)

Lemma dropped_pins keys f key : key ∈ keys → is_pinned (drop_pins keys f) key = false.
Proof.
  intros Hk. unfold is_pinned, drop_pins. cbn [set_pins pin_counts]. apply dmem_false.
  generalize (pin_counts f). induction keys as [|k keys IH]; intros pins; [by apply elem_of_nil in Hk|]. cbn [foldl].
  destruct (decide (key ∈ keys)) as [Hin|Hout]; [by apply IH|]. apply elem_of_cons in Hk as [->|?]; [|done].
  apply (foldl_inv (λ d : dict ObjectKey Z, _pinned_chunk_key k ∉ dkeys d)); [rewrite <-dget_is_Some, dget_ddel_eq; by intros []|].
  intros d k' _ Hd. rewrite <-dget_is_Some, dget_ddel. case_decide; [by intros []|by rewrite dget_is_Some].
Qed.

Lemma pinned_all keys f key : key ∈ keys → is_pinned (pin keys f) key = true.
Proof.
  intros Hk. unfold is_pinned, pin. cbn [set_pins pin_counts]. apply dmem_true. generalize (pin_counts f). induction keys as [|k keys IH]; intros pins; [by apply elem_of_nil in Hk|].
  cbn [foldl]. apply elem_of_cons in Hk as [->|?]; [|by apply IH].
  apply (foldl_inv (λ d : dict ObjectKey Z, _pinned_chunk_key k ∈ dkeys d)); [apply elem_dkeys_dset; by right|]. intros d k' _ Hd. apply elem_dkeys_dset. by left.
Qed.

Lemma length_unpinned f keys : Z.of_nat (length keys) - Z.of_nat (length (filter_unpinned keys f)) = Z.of_nat (length (filter (λ key, is_pinned f key = true) keys)).
Proof.
  unfold filter_unpinned. induction keys as [|key keys IH]; [done|]. rewrite !filter_cons. destruct (is_pinned f key); cbn [length];
    [rewrite (decide_False (P := true = false)), (decide_True (P := true = true)) by done|rewrite (decide_True (P := false = false)), (decide_False (P := false = true)) by done]; cbn [length]; lia.
Qed.

Lemma granted_saved {Bytes X} (dumps : document → Bytes) now disk undo (x r : X) s s' : _save_or_undo dumps now disk undo x s = (Ret (Reply r), s') → fleet s' = fleet s.
Proof.
  unfold _save_or_undo, save, open_write. destruct (capture_document now (fleet s)) as [d|[]]; try done; [|by destruct (undo (fleet s))].
  destruct disk; cbn [fleet]; [by intros [= _ <-]|by destruct (undo (fleet s))].
Qed.

(** C11: what an operator was told is set survives a restart, and what was refused
    has no effect. In any history of quota, pin, unpin and forced-delete requests,
    each of which may find the document writable or not: a coordinator that
    restarts from the stored document has exactly the pins and the quotas there
    are in memory; a request that is not granted leaves pins and quotas as they
    were; and a pin request of well-formed tokens is granted, with the pins of all
    their chunks, if the document can be written. *)
Theorem operator_intent_durable {Bytes} (dumps : document → Bytes) (loads : Bytes → option document) little blake3 engine_hash hasher ratio watermark calls now :
  (∀ d, loads (dumps d) = Some d) →
  let f0 := new_fleet_eviction ratio watermark in
  let s := foldl (op_step dumps little blake3 engine_hash hasher) (mkOperator f0 None 0 0) calls in
  let run := op_run dumps little blake3 engine_hash hasher now in
  (let f := load loads true (artifact s) f0 in pin_counts f = pin_counts (fleet s) ∧ fe_quota f = fe_quota (fleet s)) ∧
  (∀ disk c, (run disk c s).1 ≠ Ret true → fleet (run disk c s).2 = fleet s) ∧
  ∀ body keys chunks,
    resolve_object_keys little blake3 engine_hash hasher (tr_model_name body) (tr_world_size body) (tr_token_ids body) (tr_cache_salt body) = Ret (keys, chunks) →
    (run true (OpPin body) s).1 = Ret true ∧ fleet (run true (OpPin body) s).2 = pin keys (fleet s) ∧ ∀ key, key ∈ keys → is_pinned (pin keys (fleet s)) key = true.
Proof.
  intros Hjson f0 s run. assert (durable dumps f0 s) as Hs by (apply durable_run; split; [split; [split; [constructor|done]|by intros k ?%elem_of_nil]|done]).
  split; [exact (durable_load dumps loads Hjson f0 s Hs)|]. split.
  - intros disk c Hne. destruct (op_run_ok dumps little blake3 engine_hash hasher f0 now disk c s Hs) as [_ [?|?]]; done.
  - intros body keys chunks Er. destruct (plain_restore (fleet s) (fleet s) (du_plain _ _ _ Hs)) as (before & Eb & _). pose proof (resolved_plain _ _ _ _ _ _ _ _ _ _ Er) as Hk.
    destruct (capture_document_Ret now (pin keys (fleet s)) (plain_pin _ _ (du_plain _ _ _ Hs) Hk)) as [d Ed].
    assert (run true (OpPin body) s = (Ret true, mkOperator (pin keys (fleet s)) (Some (dumps d)) (writes_ok s + 1) (writes_error s))) as ->.
    { unfold run. cbn [op_run]. unfold answered, request_pin, change_pins. rewrite Er, Eb. unfold _save_or_undo, save. cbn [set_fleet fleet]. by rewrite Ed. }
    split; [done|]. split; [done|]. intros key. apply pinned_all.
Qed.

(** A deletion leaves pinned chunks alone. A request that touches L2 and is not
    forced is sent with exactly the resolved keys that are not pinned, in any of
    their object groups, and its answer counts the others as skipped; if the server
    cannot be reached, nothing changes. A forced one is sent with every key, and
    once it is answered, none of them is pinned. *)
Theorem delete_honors_pins {Bytes} (dumps : document → Bytes) little blake3 engine_hash hasher instance registered dir body t force (s : OperatorState Bytes) d now disk s' :
  request_delete_send little blake3 engine_hash hasher instance registered dir body t force s = Ret (Reply d) → touches_l2 t = true →
  Forall2 (λ key e, to_encoded_object_key key = Ret e) (del_keys d) (del_payload d) ∧
  request_delete_finish dumps d t force None now disk s' = (if bool_decide (del_keys d = []) then request_delete_finish dumps d t force (Some (0, 0)) now disk s' else (Ret (HTTPException 502), s')) ∧
  (force = false →
     (∀ key, key ∈ del_keys d ↔ key ∈ del_resolved d ∧ is_pinned (fleet s) key = false) ∧
     ∀ n k, del_keys d ≠ [] → request_delete_finish dumps d t force (Some (n, k)) now disk s' =
       (Ret (Reply (mkDeleteResponse (del_instance_id d) (del_chunks d) n (k + Z.of_nat (length (filter (λ key, is_pinned (fleet s) key = true) (del_resolved d)))) "deleted")), s')) ∧
  (force = true → del_keys d = del_resolved d ∧
     ∀ node r s'', request_delete_finish dumps d t force node now disk s' = (Ret (Reply r), s'') → ∀ key, key ∈ del_resolved d → is_pinned (fleet s'') key = false).
Proof.
  intros E Ht. unfold request_delete_send in E. destruct registered; [|done]. cbn [negb] in E. destruct (resolve_object_keys _ _ _ _ _ _ _ _) as [[resolved chunks]|[]]; try done.
  rewrite Ht in E. cbn [andb] in E. unfold request_delete_finish. rewrite Ht. cbn [andb].
  set (all := get_keys_across_object_groups resolved dir) in *.
  destruct (Z.eqb_spec chunks 0) as [->|Hc].
  { injection E as <-. cbn [del_instance_id del_chunks del_resolved del_keys del_payload]. split_and!; [constructor|done|intros ->; split; [|done]; intros key; split; [by intros ?%elem_of_nil|by intros [?%elem_of_nil _]]|].
    intros ->. split; [done|]. by intros node r s'' _ key ?%elem_of_nil. }
  destruct (py_map to_encoded_object_key _) as [payload|] eqn:Ep; [|done]. cbn [py_bind] in E. injection E as <-. apply py_map_Ret in Ep. cbn [del_instance_id del_chunks del_resolved del_keys del_payload].
  rewrite (proj2 (Z.eqb_neq chunks 0) Hc). split; [exact Ep|]. destruct force; cbn [negb andb] in *; split_and!; try done.
  - by destruct all.
  - intros _. split; [done|]. intros node r s'' E key Hk. destruct (match all with [] => Some (0, 0) | _ => node end) as [[nd ns]|]; [|done].
    destruct (capture_pins (fleet s')) as [before|]; [|done]. apply granted_saved in E. rewrite E. cbn [set_fleet fleet]. by apply dropped_pins.
  - by destruct (filter_unpinned all (fleet s)).
  - intros _. split.
    + intros key. unfold filter_unpinned. rewrite list_elem_of_filter. tauto.
    + intros n k Hne. rewrite length_unpinned. by destruct (filter_unpinned all (fleet s)).
Qed.

(** *** Witnesses *)

Definition demo_tokens : TokenRequest := mkTokens "m" 1 [1; 2; 7] "u1".
Definition demo_requests : list (float * bool * op_call) :=
  [(f_zero, true, OpPin demo_tokens); (f_zero, false, OpUnpin demo_tokens); (f_zero, true, OpPut "u1" TierL2 f_one); (f_zero, false, OpDefault TierL2 (Some f_one))].
Definition demo_operator : OperatorState document :=
  foldl (op_step id true plain_digest plain_engine demo_hasher) (mkOperator (new_fleet_eviction f_one f_one) None 0 0) demo_requests.

Lemma operator_intent_durable_witness :
  fe_quota (load Some true (artifact demo_operator) (new_fleet_eviction f_one f_one)) = mkQuota [("u1"%string, 1073741824)] None ∧
  length (pin_counts (load Some true (artifact demo_operator) (new_fleet_eviction f_one f_one))) = 1%nat.
Proof.
  destruct (operator_intent_durable id Some true plain_digest plain_engine demo_hasher f_one f_one demo_requests f_zero ltac:(done)) as [[E1 E2] _].
  fold demo_operator in E1, E2. rewrite E1, E2. split; vm_compute; reflexivity.
Defined.

Lemma delete_honors_pins_witness :
  ∃ d, request_delete_send true plain_digest plain_engine demo_hasher "s1" true demo_start demo_tokens TierALL false demo_operator = Ret (Reply d) ∧
    del_keys d = [] ∧ ∀ key, key ∈ del_keys d ↔ key ∈ del_resolved d ∧ is_pinned (fleet demo_operator) key = false.
Proof.
  destruct (request_delete_send true plain_digest plain_engine demo_hasher "s1" true demo_start demo_tokens TierALL false demo_operator) as [[d|]|] eqn:E; [|vm_compute in E; discriminate..].
  exists d. split; [done|]. split; [vm_compute in E; injection E as <-; reflexivity|].
  apply (delete_honors_pins id _ _ _ _ _ _ _ _ _ _ _ d f_zero true demo_operator E); done.
Defined.
