(* ===== verification/Membership.v ===== *)
(** * The servers of the fleet

    Which servers there are (lmcache/v1/mp_coordinator/views/instance_registry.py),
    the routes through which they come and go (http_apis/instances_api.py), the
    binding of the fleet's chunk size (http_apis/dependencies.py) and the sweep
    that removes servers whose heartbeat has expired (app.py). A server that leaves
    takes with it what the views know of its memory. *)

From stdpp Require Import gmap list strings.
From Stdlib Require Import ZArith Lia.
From Stdlib.Strings Require Import Byte.
From Stdlib Require Import Floats.SpecFloat.
From S2P Require Import Prelude Keys PyFloat Handler TokenHasher EventGate Placements UsageManager KeyDirectory KeyDirectoryInv DirectoryBlend DirectoryProps CacheEvents ServerConfig FleetEviction OperatorApi.

Open Scope Z_scope.
Open Scope py_scope.
Open Scope handler_scope.

(** ** The registry *)

Record MPInstance := mkInstance {
  mi_instance_id : string;
  ip : string;
  http_port : Z;
  registration_time : float;
  last_heartbeat_time : float;
  metadata : dict string string;
  p2p_advertised_url : string;
  mq_port : Z
}.

Record InstanceRegistry := mkInstances { instances : dict string MPInstance; membership_changes : dict string Z }.

Definition new_instances : InstanceRegistry :=
  mkInstances [] ((λ k, (k, 0)) <$> ["registered"; "re_registered"; "deregistered"; "timed_out"; "unknown_heartbeat"]%string).

Implicit Types (r : InstanceRegistry) (id : string).

Definition count_change (kind : string) (n : Z) (changes : dict string Z) : dict string Z := dset kind (default 0 (dget kind changes) + n) changes.

Definition register (i : MPInstance) r : bool * InstanceRegistry :=
  let existed := dmem (mi_instance_id i) (instances r) in
  (existed, mkInstances (dset (mi_instance_id i) i (instances r)) (count_change (if existed then "re_registered" else "registered") 1 (membership_changes r))).

Definition deregister id r : option MPInstance * InstanceRegistry :=
  match dget id (instances r) with
  | None => (None, r)
  | Some i => (Some i, mkInstances (ddel id (instances r)) (count_change "deregistered" 1 (membership_changes r)))
  end.

Definition contains_instance id r : bool := dmem id (instances r).
Definition all_instances r : list MPInstance := dvalues (instances r).

(** [random.choice], where [pick] is the choice. *)
Definition random_instance (pick : nat) r : option MPInstance :=
  match all_instances r with [] => None | l => l !! (pick mod length l)%nat end.

Record InstanceRegistryStats := mkRegistryStats {
  servers_registered : nat;
  seconds_since_heartbeat : dict string float;
  rs_membership_changes : dict string Z
}.
Definition registry_stats (now : float) r : InstanceRegistryStats :=
  mkRegistryStats (length (instances r)) ((λ q : string * MPInstance, (q.1, f_sub now (last_heartbeat_time q.2))) <$> instances r) (membership_changes r).

Definition at_time (t : float) (i : MPInstance) : MPInstance :=
  mkInstance (mi_instance_id i) (ip i) (http_port i) (registration_time i) t (metadata i) (p2p_advertised_url i) (mq_port i).

Definition update_heartbeat id (timestamp : float) r : bool * InstanceRegistry :=
  match dget id (instances r) with
  | None => (false, mkInstances (instances r) (count_change "unknown_heartbeat" 1 (membership_changes r)))
  | Some i => (true, mkInstances (dset id (at_time timestamp i) (instances r)) (membership_changes r))
  end.

Definition expired (now timeout : float) (i : MPInstance) : bool := f_lt timeout (f_sub now (last_heartbeat_time i)).

Definition stale_ids (now timeout : float) r : list string := (filter (λ q : string * MPInstance, expired now timeout q.2 = true) (instances r)).*1.

Definition remove_stale (now timeout : float) r : list string * InstanceRegistry :=
  let ids := stale_ids now timeout r in
  (ids, mkInstances (foldl (λ d id, ddel id d) (instances r) ids) (count_change "timed_out" (Z.of_nat (length ids)) (membership_changes r))).

(** ** The views that hear of the servers' caches *)

Abbreviation member_views := (KeyDirectory * ServerConfigRegistry * CacheUsageManager)%type.

Definition on_dir (h : handler KeyDirectory unit) : handler member_views unit := λ v, let '(x, d) := h v.1.1 in (x, (d, v.1.2, v.2)).
Definition on_config (h : handler ServerConfigRegistry unit) : handler member_views unit := λ v, let '(x, c) := h v.1.2 in (x, (v.1.1, c, v.2)).
Definition on_bytes (h : handler CacheUsageManager unit) : handler member_views unit := λ v, let '(x, u) := h v.2 in (x, (v.1.1, v.1.2, u)).

Definition member_consumers : list (Consumer member_views) :=
  [mkConsumer (λ b, on_dir (consume_directory b)) (λ id, on_dir (fence_directory id));
   mkConsumer (λ b, on_config (consume_config b)) (λ id, on_config (fence_config id));
   mkConsumer (λ b, on_bytes (consume_usage b)) (λ id, on_bytes (fence_usage id))].

(** ** The coordinator *)

Record CoordinatorContext := mkContext {
  registry : InstanceRegistry;
  event_gate : EventGate member_views;
  token_hasher : TokenHasher;
  _configured_chunk_size : Z;
  _chunk_size_finalized : bool;
  restored_instances : list string;
  restored_deadline : float
}.

Definition set_registry r (x : CoordinatorContext) : CoordinatorContext :=
  mkContext r (event_gate x) (token_hasher x) (_configured_chunk_size x) (_chunk_size_finalized x) (restored_instances x) (restored_deadline x).
Definition set_gate (g : EventGate member_views) (x : CoordinatorContext) : CoordinatorContext :=
  mkContext (registry x) g (token_hasher x) (_configured_chunk_size x) (_chunk_size_finalized x) (restored_instances x) (restored_deadline x).
Definition set_hasher (h : TokenHasher) (x : CoordinatorContext) : CoordinatorContext :=
  mkContext (registry x) (event_gate x) h (_configured_chunk_size x) true (restored_instances x) (restored_deadline x).
Definition clear_restored (x : CoordinatorContext) : CoordinatorContext :=
  mkContext (registry x) (event_gate x) (token_hasher x) (_configured_chunk_size x) (_chunk_size_finalized x) [] (restored_deadline x).

Definition set_views (v : member_views) (g : EventGate member_views) : EventGate member_views := mkGate (consumers g) v (cursors g) (departed g) (gate_stats g).

(** A new coordinator, with a directory and no servers. *)
Definition new_context (d : KeyDirectory) (h : TokenHasher) : CoordinatorContext :=
  mkContext new_instances (new_gate ((λ c, (c, empty_stats)) <$> member_consumers) (d, new_registry, new_usage)) h (chunk_size h) false [] f_zero.

Section routes.
(** The hash functions, and the engine's hash of nothing. *)
Context (little : bool) (blake3 : list byte → list byte) (engine_hash : hash_value → list Z → hash_value) (engine_none : option hash_value).

Implicit Types (x : CoordinatorContext).

Definition bind_fleet_chunk_size (n : Z) : handler CoordinatorContext Z := λ x,
  if _chunk_size_finalized x then
    if n =? chunk_size (token_hasher x) then (Ret n, x) else (Raise ValueError, x)
  else if n <? _configured_chunk_size x then (Raise ValueError, x)
  else
    match new_hasher little blake3 engine_hash n (hash_algorithm_name (token_hasher x)) engine_none with
    | Raise e => (Raise e, x)
    | Ret h =>
        let '(res, v) := on_dir (bind_chunk_size n) (views (event_gate x)) in
        let x := set_gate (set_views v (event_gate x)) x in
        match res with Raise e => (Raise e, x) | Ret _ => (Ret n, set_hasher h x) end
    end.

Record RegisterRequest := mkRegister {
  rq_instance_id : string;
  rq_ip : string;
  rq_http_port : Z;
  rq_metadata : dict string string;
  rq_p2p_advertised_url : string;
  rq_mq_port : Z;
  rq_chunk_size : option Z
}.

(** [uuid] is the name for a server that gives none. *)
Definition register_instance (body : RegisterRequest) (uuid : string) (now : clock) : handler CoordinatorContext (response (string * bool)) := λ x,
  let id := if (rq_instance_id body =? "")%string then uuid else rq_instance_id body in
  let bound := match rq_chunk_size body with None => (Ret 0, x) | Some n => bind_fleet_chunk_size n x end in
  match bound with
  | (Raise ValueError, x) => (Ret (HTTPException 409), x)
  | (Raise e, x) => (Raise e, x)
  | (Ret _, x) =>
      let '(re_registered, r) := register (mkInstance id (rq_ip body) (rq_http_port body) (wall now) (monotonic now) (rq_metadata body) (rq_p2p_advertised_url body) (rq_mq_port body)) (registry x) in
      let x := set_registry r x in
      (Ret (Reply (id, re_registered)), set_gate (readmit_instance id (event_gate x)) x)
  end.

Definition heartbeat id (now : clock) : handler CoordinatorContext (response string) := λ x,
  let '(known, r) := update_heartbeat id (monotonic now) (registry x) in
  (Ret (if known then Reply id else HTTPException 404), set_registry r x).

Definition forget_server id x : CoordinatorContext :=
  let g := drop_instance id (event_gate x) in
  set_gate (set_views ((views g).1.1, forget id (views g).1.2, (views g).2) g) x.

Definition deregister_instance id : handler CoordinatorContext unit := λ x, (Ret tt, forget_server id (set_registry (deregister id (registry x)).2 x)).

Definition _unreturned_instances r (restored : list string) : list string := filter (λ id, contains_instance id r = false) restored.

Definition _evict_stale_instances (now timeout : float) x : CoordinatorContext :=
  let '(departed, r) := remove_stale now timeout (registry x) in
  let x := set_registry r x in
  let late := negb (bool_decide (restored_instances x = [])) && SFleb (restored_deadline x) now in
  let gone := if late then departed ++ _unreturned_instances (registry x) (restored_instances x) else departed in
  let x := if late then clear_restored x else x in
  foldl (λ x id, forget_server id x) x gone.

Definition post_events (now : clock) (b : CacheEventBatch) x : CoordinatorContext := set_gate (ingest now b (event_gate x)).2 x.
End routes.

(** ** The views, each on its own *)



(** *** Nothing of a server's memory is known *)









(** ** Histories *)

Abbreviation forget_all := (foldl (λ x id, forget_server id x)).

Section history.
Context (little : bool) (blake3 : list byte → list byte) (engine_hash : hash_value → list Z → hash_value) (engine_none : option hash_value).

Implicit Types (x : CoordinatorContext).

Inductive member_call :=
| MRegister (body : RegisterRequest) (uuid : string) (now : clock) | MHeartbeat (id : string) (now : clock) | MDeregister (id : string)
| MSweep (now timeout : float) | MEvents (now : clock) (b : CacheEventBatch).

Definition member_step x (c : member_call) : CoordinatorContext :=
  match c with
  | MRegister body uuid now => (register_instance little blake3 engine_hash engine_none body uuid now x).2
  | MHeartbeat id now => (heartbeat id now x).2
  | MDeregister id => (deregister_instance id x).2
  | MSweep now timeout => _evict_stale_instances now timeout x
  | MEvents now b => post_events now b x
  end.

















(** *** Registration *)



(** *** Every state *)








(** *** After a departure *)














(** *** Reads of the views *)


End history.




(** *** Examples *)

Definition member_demo_step := member_step true plain_digest plain_engine None.
Definition demo_body : RegisterRequest := mkRegister "s1" "10.0.0.1" 8080 [] "" 0 None.
Definition late_batch (t : Tier) (et : CacheEventType) (n : Z) : CacheEventBatch :=
  mkBatch "s1" 7 n et t "fs" (match et with STORE => [example_entry "0a" 100] | _ => [] end) false f_zero 0 1000 1.
Definition member_demo : list member_call := [MRegister demo_body "mp-1" demo_clock; MEvents demo_clock (late_batch TierL1 STORE 1)].


(** A server that left before it was heard of is not remembered: a late batch of
    its memory is admitted, and nothing removes it any more. *)
Lemma unheard_departure :
  let x := foldl member_demo_step (new_context demo_start demo_hasher) [MRegister demo_body "mp-1" demo_clock; MDeregister "s1"; MEvents demo_clock (late_batch TierL1 STORE 1)] in
  all_instances (registry x) = [] ∧ length (mjoin (lookup_keys [mkKey (mkIdentity [Byte.x0a] 16777216 "m" 0 "u1" ∅)] (views (event_gate x)).1.1)) = 1%nat.
Proof. split; vm_compute; reflexivity. Qed.

(** The bar is the incarnation last admitted: a late L2 batch of an older process
    and a second departure lower it, and the memory of the one that left comes
    back. *)
Definition older_batch : CacheEventBatch := mkBatch "s1" 6 1 STORE TierL2 "fs" [example_entry "0b" 100] false f_zero 0 1000 1.
Lemma second_departure_lowers_bar :
  let x := foldl member_demo_step (new_context demo_start demo_hasher)
    (member_demo ++ [MDeregister "s1"; MEvents demo_clock older_batch; MDeregister "s1"; MEvents demo_clock (late_batch TierL1 STORE 2)]) in
  all_instances (registry x) = [] ∧ length (mjoin (lookup_keys [mkKey (mkIdentity [Byte.x0a] 16777216 "m" 0 "u1" ∅)] (views (event_gate x)).1.1)) = 1%nat.
Proof. split; vm_compute; reflexivity. Qed.

(** A late declaration of L2 capacity outlives the membership of its server. *)
Lemma late_declaration :
  let x := foldl member_demo_step (new_context demo_start demo_hasher) (member_demo ++ [MDeregister "s1"; MEvents demo_clock (late_batch TierL2 CONFIG 2)]) in
  all_instances (registry x) = [] ∧ length (get_config "s1" (views (event_gate x)).1.2) = 1%nat.
Proof. split; vm_compute; reflexivity. Qed.
