(* ===== verification/Quiesce.v ===== *)
(** * Checkpoints of a moving state

    lmcache/v1/mp_coordinator/persistence/quiesce.py: the lock between the threads
    that apply batches to several components and the one that captures them, and
    persistence/checkpoint.py: what a capture becomes on disk.

    The lock is modelled at the granularity of its critical sections: a method of
    [threading.Condition] that holds the condition is one step, and a thread that
    waits sleeps until it is notified. What a thread does while it applies a batch
    ([steps], one component after the other, under the gate's own lock) and what a
    capture reads ([readers]) are parameters. *)

From stdpp Require Import gmap list strings.
From Stdlib Require Import ZArith Lia.
From Stdlib.Strings Require Import Byte.
From S2P Require Import Prelude Handler.

Open Scope Z_scope.
Open Scope py_scope.

Section quiesce.
Context {B D S : Type} (steps : B → list (D → D)) (readers : list (D → S)).

(** ** The threads *)

(** A thread in [applying], with its batch: asleep in [wait], about to test the
    request again, counted in flight, under the gate's lock with what is left to
    do, and out of that lock. *)
Inductive ingest_pc := IIdle | ISleep (b : B) | IAwake (b : B) | IEntered (b : B) | IRunning (b : B) (todo : list (D → D)) | IExiting (b : B).

(** A thread in [quiesced]: asleep, about to test the count again, reading with
    what is left and what it has, or done with a capture. *)
Inductive capture_pc := CIdle | CSleep | CAwake | CReading (todo : list (D → S)) (got : list S) | CDone (got : list S).

Record QuiesceLock := mkQuiesce {
  _quiesce_requested : bool;
  _in_flight : Z;
  gate_lock : option nat;               (* the thread in the gate's lock *)
  threads : list ingest_pc;
  captures : list capture_pc;
  data : D;
  log : list B                          (* the batches applied, in order *)
}.

Implicit Types (q : QuiesceLock) (i j : nat) (b : B).

Definition set_thread i (pc : ingest_pc) q : QuiesceLock :=
  mkQuiesce (_quiesce_requested q) (_in_flight q) (gate_lock q) (<[i := pc]> (threads q)) (captures q) (data q) (log q).
Definition set_capture j (pc : capture_pc) q : QuiesceLock :=
  mkQuiesce (_quiesce_requested q) (_in_flight q) (gate_lock q) (threads q) (<[j := pc]> (captures q)) (data q) (log q).
Definition set_in_flight (n : Z) q : QuiesceLock := mkQuiesce (_quiesce_requested q) n (gate_lock q) (threads q) (captures q) (data q) (log q).
Definition set_requested (r : bool) q : QuiesceLock := mkQuiesce r (_in_flight q) (gate_lock q) (threads q) (captures q) (data q) (log q).
Definition set_gate_lock (l : option nat) q : QuiesceLock := mkQuiesce (_quiesce_requested q) (_in_flight q) l (threads q) (captures q) (data q) (log q).
Definition set_data (d : D) q : QuiesceLock := mkQuiesce (_quiesce_requested q) (_in_flight q) (gate_lock q) (threads q) (captures q) d (log q).
Definition add_log b q : QuiesceLock := mkQuiesce (_quiesce_requested q) (_in_flight q) (gate_lock q) (threads q) (captures q) (data q) (log q ++ [b]).

Definition wake_ingest (pc : ingest_pc) : ingest_pc := match pc with ISleep b => IAwake b | _ => pc end.
Definition wake_capture (pc : capture_pc) : capture_pc := match pc with CSleep => CAwake | _ => pc end.

Definition notify_waiters q : QuiesceLock :=
  mkQuiesce (_quiesce_requested q) (_in_flight q) (gate_lock q) (wake_ingest <$> threads q) (wake_capture <$> captures q) (data q) (log q).

Definition _release_locked q : QuiesceLock := notify_waiters (set_requested false q).

(** [while self._quiesce_requested: wait()], then [self._in_flight += 1]. *)
Definition enter i b q : QuiesceLock :=
  if _quiesce_requested q then set_thread i (ISleep b) q else set_thread i (IEntered b) (set_in_flight (_in_flight q + 1) q).

(** The [finally] of [applying]. *)
Definition leave i q : QuiesceLock :=
  let q := set_thread i IIdle (set_in_flight (_in_flight q - 1) q) in
  if _in_flight q =? 0 then notify_waiters q else q.

(** [wait_for(lambda: not self._in_flight)]. *)
Definition await_idle j q : QuiesceLock := if _in_flight q =? 0 then set_capture j (CReading readers []) q else set_capture j CSleep q.

Inductive lock_action :=
| Arrive i b | Recheck i | Acquire i | Work i | Unlock i | Leave i
| Request j | Wake j | Expire j | Read j | Fail j | Finish j.

Definition qstep (a : lock_action) q : option QuiesceLock :=
  match a with
  | Arrive i b => match threads q !! i with Some IIdle => Some (enter i b q) | _ => None end
  | Recheck i => match threads q !! i with Some (IAwake b) => Some (enter i b q) | _ => None end
  | Acquire i => match threads q !! i, gate_lock q with Some (IEntered b), None => Some (set_thread i (IRunning b (steps b)) (set_gate_lock (Some i) q)) | _, _ => None end
  | Work i => match threads q !! i with Some (IRunning b (f :: todo)) => Some (set_thread i (IRunning b todo) (set_data (f (data q)) q)) | _ => None end
  | Unlock i => match threads q !! i with Some (IRunning b []) => Some (set_thread i (IExiting b) (set_gate_lock None (add_log b q))) | _ => None end
  | Leave i => match threads q !! i with Some (IExiting _) => Some (leave i q) | _ => None end
  | Request j => match captures q !! j with Some CIdle | Some (CDone _) => Some (await_idle j (set_requested true q)) | _ => None end
  | Wake j => match captures q !! j with Some CAwake => Some (await_idle j q) | _ => None end
  | Expire j =>
      match captures q !! j with
      | Some CSleep | Some CAwake => Some (if _in_flight q =? 0 then set_capture j (CReading readers []) q else _release_locked (set_capture j CIdle q))
      | _ => None
      end
  | Read j => match captures q !! j with Some (CReading (r :: todo) got) => Some (set_capture j (CReading todo (got ++ [r (data q)])) q) | _ => None end
  | Fail j => match captures q !! j with Some (CReading _ _) => Some (_release_locked (set_capture j CIdle q)) | _ => None end
  | Finish j => match captures q !! j with Some (CReading [] got) => Some (_release_locked (set_capture j (CDone got) q)) | _ => None end
  end.

Definition new_quiesce (n m : nat) (d : D) : QuiesceLock := mkQuiesce false 0 None (replicate n IIdle) (replicate m CIdle) d [].

Inductive reach (n m : nat) (d : D) : QuiesceLock → Prop :=
| reach_start : reach n m d (new_quiesce n m d)
| reach_step a q q' : reach n m d q → qstep a q = Some q' → reach n m d q'.

(** ** The invariant *)

(** The components after a batch, and after a list of batches. *)
Definition applied b (d : D) : D := foldl (λ d f, f d) d (steps b).
Definition state_after (d : D) (l : list B) : D := foldl (λ d b, applied b d) d l.

Definition counted (pc : ingest_pc) : Z := match pc with IEntered _ | IRunning _ _ | IExiting _ => 1 | _ => 0 end.
Definition running (pc : ingest_pc) : bool := match pc with IRunning _ _ => true | _ => false end.
Definition asleep (pc : ingest_pc) : bool := match pc with ISleep _ => true | _ => false end.

(** What the threads that apply batches keep to themselves: the count is right,
    one of them is in the gate's lock, and the components are those after the
    batches of the log, but for the batch that is running. *)
Record qbase (d0 : D) q : Prop := {
  qb_count : _in_flight q = zsum counted (threads q);
  qb_lock : ∀ i, gate_lock q = Some i ↔ ∃ pc, threads q !! i = Some pc ∧ running pc = true;
  qb_idle : gate_lock q = None → data q = state_after d0 (log q);
  qb_running : ∀ i b todo, threads q !! i = Some (IRunning b todo) → foldl (λ d f, f d) (data q) todo = applied b (state_after d0 (log q))
}.

Definition capture_ok (d0 : D) q (c : capture_pc) : Prop :=
  match c with
  | CIdle => _quiesce_requested q = false
  | CSleep => _quiesce_requested q = true ∧ _in_flight q ≠ 0
  | CAwake => _quiesce_requested q = true
  | CReading todo got => _quiesce_requested q = true ∧ _in_flight q = 0 ∧ ∃ done, readers = done ++ todo ∧ got = (λ r, r (data q)) <$> done
  | CDone got => _quiesce_requested q = false ∧ ∃ l l', log q = l ++ l' ∧ got = (λ r, r (state_after d0 l)) <$> readers
  end.

(** With one thread that captures. *)
Record qinv (d0 : D) q : Prop := {
  qi_base : qbase d0 q;
  qi_sleep : ∀ i pc, threads q !! i = Some pc → asleep pc = true → _quiesce_requested q = true;
  qi_capture : ∃ c, captures q = [c] ∧ capture_ok d0 q c
}.

Lemma lookup_set {X} (l : list X) i x y k : l !! i = Some x → <[i := y]> l !! k = if decide (i = k) then Some y else l !! k.
Proof. intros E. destruct (decide (i = k)) as [<-|Hne]; [apply list_lookup_insert_eq; by eapply lookup_lt_Some|by apply list_lookup_insert_ne]. Qed.

Lemma counted_range pc : 0 <= counted pc <= 1.
Proof. destruct pc; cbn; lia. Qed.

Lemma in_flight_nonneg d0 q : qbase d0 q → 0 <= _in_flight q.
Proof. intros Hb. rewrite (qb_count _ _ Hb). apply zsum_nonneg. intros pc _. apply counted_range. Qed.

Lemma in_flight_counts d0 q i pc : qbase d0 q → threads q !! i = Some pc → counted pc = 1 → 1 <= _in_flight q.
Proof.
  intros Hb Hi Hc. rewrite (qb_count _ _ Hb). pose proof (zsum_insert counted (threads q) i pc IIdle Hi) as E.
  pose proof (zsum_nonneg counted (<[i := IIdle]> (threads q))) as Hn. specialize (Hn (λ x _, proj1 (counted_range x))). cbn in E. lia.
Qed.

(** With nothing in flight the components are at rest. *)
Lemma quiet_lock d0 q : qbase d0 q → _in_flight q = 0 → gate_lock q = None.
Proof.
  intros Hb H0. destruct (gate_lock q) as [i|] eqn:E; [|done]. apply (qb_lock _ _ Hb) in E as (pc & Hi & Hr). destruct pc; try done.
  pose proof (in_flight_counts d0 q i _ Hb Hi eq_refl). lia.
Qed.

(** A thread moves, without entering or leaving the gate's lock. *)
Lemma base_thread d0 q i pc pc' n :
  qbase d0 q → threads q !! i = Some pc → running pc = false → running pc' = false → n = _in_flight q - counted pc + counted pc' →
  qbase d0 (set_thread i pc' (set_in_flight n q)).
Proof.
  intros [H1 H2 H3 H4] Hi Hr Hr' ->. split; cbn [set_thread set_in_flight _in_flight threads gate_lock data log].
  - rewrite (zsum_insert _ _ _ pc) by done. lia.
  - intros k. rewrite H2. setoid_rewrite (lookup_set _ _ _ pc' k Hi). destruct (decide (i = k)) as [<-|Hne]; [|done].
    split; intros (x & E & Hx); exfalso; [rewrite Hi in E|]; injection E as <-; congruence.
  - exact H3.
  - intros k b todo. rewrite (lookup_set _ _ _ pc' k Hi). destruct (decide (i = k)); [intros [= ->]; done|apply H4].
Qed.

(** Requests, captures and notifications are not their business. *)
Lemma base_frame d0 q q' :
  _in_flight q' = _in_flight q → gate_lock q' = gate_lock q → data q' = data q → log q' = log q →
  (threads q' = threads q ∨ threads q' = wake_ingest <$> threads q) → qbase d0 q → qbase d0 q'.
Proof.
  intros E1 E2 E3 E4 Et [H1 H2 H3 H4].
  assert (zsum counted (threads q') = zsum counted (threads q) ∧ ∀ k pc, running pc = true → threads q' !! k = Some pc ↔ threads q !! k = Some pc) as [Hz Hl].
  { destruct Et as [->| ->]; [done|]. split; [rewrite zsum_fmap; apply zsum_ext; by intros [] _|]. intros k pc Hpc. rewrite list_lookup_fmap.
    destruct (threads q !! k) as [x|]; [|done]. cbn. split; [intros [= <-]; by destruct x|intros [= ->]; by destruct pc]. }
  split; [congruence| |by rewrite E2, E3, E4|].
  - intros i. rewrite E2, H2. split; intros (pc & E & Hr); exists pc; (split; [|done]); by apply Hl.
  - intros i b todo E. rewrite E3, E4. apply H4 with i. by apply Hl in E.
Qed.

(** *** The steps of the threads *)

Lemma capture_frame d0 q q' c :
  _quiesce_requested q' = _quiesce_requested q → (_in_flight q' = 0 ↔ _in_flight q = 0) → (_in_flight q = 0 → data q' = data q) → (∃ l, log q' = log q ++ l) →
  capture_ok d0 q c → capture_ok d0 q' c.
Proof.
  intros E1 E2 E3 [l El]. destruct c as [| | |todo got|got]; cbn [capture_ok]; rewrite E1; try done.
  - intros [? Hn]. split; [done|]. by rewrite E2.
  - intros (? & H0 & Hd). rewrite E2, E3 by done. done.
  - intros (? & l1 & l2 & Hl & Hg). split; [done|]. exists l1, (l2 ++ l). by rewrite El, Hl, app_assoc.
Qed.

Lemma enter_inv d0 q i b pc : qinv d0 q → threads q !! i = Some pc → counted pc = 0 → qinv d0 (enter i b q).
Proof.
  intros [Hb Hs (c & Ec & Hc)] Hi H0. assert (running pc = false) as Hr by (by destruct pc). unfold enter. destruct (_quiesce_requested q) eqn:Er.
  - assert (qbase d0 (set_thread i (ISleep b) (set_in_flight (_in_flight q) q))) as Hb' by (eapply base_thread; [done..|cbn; lia]). split; [by destruct q|done|].
    exists c. split; [done|]. by apply (capture_frame d0 q); [..|exists []; rewrite app_nil_r|].
  - split; [eapply base_thread; [done..|cbn; lia]| |].
    + intros k x. cbn [set_thread threads set_in_flight]. rewrite (lookup_set _ _ _ _ k Hi). destruct (decide (i = k)); [by intros [= <-]|]. intros Hk Ha. specialize (Hs k x Hk Ha). congruence.
    + exists c. split; [done|]. destruct c; cbn [capture_ok] in *; try done; destruct Hc; congruence.
Qed.

Lemma awake_inv d0 q c : qbase d0 q → captures q = [c] → _quiesce_requested q = true → capture_ok d0 q (wake_capture c) → qinv d0 (notify_waiters q).
Proof.
  intros Hb Ec Er Hc. split.
  - apply (base_frame d0 q); [done..|by right|done].
  - done.
  - exists (wake_capture c). split; [cbn [notify_waiters captures]; by rewrite Ec|]. by apply (capture_frame d0 q); [..|exists []; rewrite app_nil_r|].
Qed.

Lemma release_inv d0 q c : qbase d0 q → captures q = [c] → capture_ok d0 (set_requested false q) c → qinv d0 (_release_locked q).
Proof.
  intros Hb Ec Hc. assert (wake_capture c = c) as Ew by (destruct c; cbn in Hc; try done; by destruct Hc). split.
  - apply (base_frame d0 q); [done..|by right|done].
  - intros i pc. cbn [_release_locked notify_waiters set_requested threads]. rewrite list_lookup_fmap. destruct (threads q !! i) as [x|]; [|done]. intros [= <-]. by destruct x.
  - exists c. split; [cbn [_release_locked notify_waiters set_requested captures fmap list_fmap]; rewrite Ec; cbn; by rewrite Ew|].
    by apply (capture_frame d0 (set_requested false q)); [..|exists []; rewrite app_nil_r|].
Qed.

Lemma leave_inv d0 q i b : qinv d0 q → threads q !! i = Some (IExiting b) → qinv d0 (leave i q).
Proof.
  intros [Hb Hs (c & Ec & Hc)] Hi. pose proof (in_flight_counts d0 q i _ Hb Hi eq_refl) as Hn. unfold leave. set (q1 := set_thread i IIdle (set_in_flight (_in_flight q - 1) q)).
  assert (qbase d0 q1) as Hb1 by (eapply base_thread; [done..|cbn; lia]).
  assert (∀ k pc, threads q1 !! k = Some pc → asleep pc = true → _quiesce_requested q = true) as Hs1.
  { intros k pc. unfold q1. cbn [set_thread threads set_in_flight]. rewrite (lookup_set _ _ _ _ k Hi). destruct (decide (i = k)); [by intros [= <-]|apply Hs]. }
  change (_in_flight q1) with (_in_flight q - 1). destruct (Z.eqb_spec (_in_flight q - 1) 0) as [H0|H0].
  - destruct (_quiesce_requested q) eqn:Er.
    + apply (awake_inv d0 q1 c); [done|done|exact Er|]. destruct c as [| | |todo got|got]; cbn [wake_capture capture_ok] in *; try (unfold q1; cbn; intuition congruence); lia.
    + split; [apply (base_frame d0 q1); [done..|by right|done]| |].
      * intros k pc. cbn [notify_waiters threads]. rewrite list_lookup_fmap. destruct (threads q1 !! k) as [x|]; [|done]. intros [= <-]. by destruct x.
      * exists c. split; [|by destruct c as [| | |todo got|got]; cbn [capture_ok] in *; unfold q1; cbn; intuition congruence].
        cbn [notify_waiters captures]. unfold q1. cbn [set_thread set_in_flight captures]. rewrite Ec. destruct c; try done. cbn in Hc. intuition congruence.
  - split; [done|exact Hs1|]. exists c. split; [done|]. apply (capture_frame d0 q); [done|unfold q1; cbn; lia|done|exists []; by rewrite app_nil_r|done].
Qed.

Lemma acquire_inv d0 q i b : qinv d0 q → threads q !! i = Some (IEntered b) → gate_lock q = None → qinv d0 (set_thread i (IRunning b (steps b)) (set_gate_lock (Some i) q)).
Proof.
  intros [[H1 H2 H3 H4] Hs (c & Ec & Hc)] Hi El. pose proof (H3 El) as Hd.
  assert (∀ k pc, threads q !! k = Some pc → running pc = false) as Hnone.
  { intros k pc Hk. destruct (running pc) eqn:Er; [|done]. assert (gate_lock q = Some k) as E by (apply H2; by exists pc). congruence. }
  split; [split; cbn [set_thread set_gate_lock threads _in_flight gate_lock data log]| |].
  - rewrite (zsum_insert _ _ _ _ _ Hi). cbn. lia.
  - intros k. setoid_rewrite (lookup_set _ _ _ (IRunning b (steps b)) k Hi). destruct (decide (i = k)) as [<-|Hne]; [split; [by eexists|done]|].
    split; [congruence|]. intros (pc & Hk & Hr). rewrite (Hnone k pc Hk) in Hr. done.
  - done.
  - intros k b' todo. rewrite (lookup_set _ _ _ _ k Hi). destruct (decide (i = k)); [intros [= <- <-]; by rewrite Hd|]. intros Hk. by specialize (Hnone k _ Hk).
  - intros k pc. cbn [set_thread set_gate_lock threads]. rewrite (lookup_set _ _ _ _ k Hi). destruct (decide (i = k)); [by intros [= <-]|apply Hs].
  - exists c. split; [done|]. by apply (capture_frame d0 q); [..|exists []; rewrite app_nil_r|].
Qed.

Lemma work_inv d0 q i b f todo :
  qinv d0 q → threads q !! i = Some (IRunning b (f :: todo)) → qinv d0 (set_thread i (IRunning b todo) (set_data (f (data q)) q)).
Proof.
  intros [Hb Hs (c & Ec & Hc)] Hi. pose proof (in_flight_counts d0 q i _ Hb Hi eq_refl) as Hn. pose proof Hb as [H1 H2 H3 H4].
  assert (gate_lock q = Some i) as El by (apply H2; by eexists). split; [split; cbn [set_thread set_data threads _in_flight gate_lock data log]| |].
  - rewrite (zsum_insert _ _ _ _ _ Hi). cbn. lia.
  - intros k. rewrite H2. setoid_rewrite (lookup_set _ _ _ (IRunning b todo) k Hi). destruct (decide (i = k)) as [<-|Hne]; [split; intros _; by eexists|done].
  - congruence.
  - intros k b' todo'. rewrite (lookup_set _ _ _ _ k Hi). destruct (decide (i = k)) as [<-|Hne].
    + intros [= <- <-]. exact (H4 i b (f :: todo) Hi).
    + intros Hk. assert (gate_lock q = Some k) as E by (apply H2; by eexists). congruence.
  - intros k pc. cbn [set_thread set_data threads]. rewrite (lookup_set _ _ _ _ k Hi). destruct (decide (i = k)); [by intros [= <-]|apply Hs].
  - exists c. split; [done|]. apply (capture_frame d0 q); [done|done|intros E; lia|exists []; by rewrite app_nil_r|done].
Qed.

Lemma unlock_inv d0 q i b : qinv d0 q → threads q !! i = Some (IRunning b []) → qinv d0 (set_thread i (IExiting b) (set_gate_lock None (add_log b q))).
Proof.
  intros [Hb Hs (c & Ec & Hc)] Hi. pose proof Hb as [H1 H2 H3 H4]. pose proof (H4 i b [] Hi) as Hd. cbn in Hd.
  assert (gate_lock q = Some i) as El by (apply H2; by eexists). split; [split; cbn [set_thread set_gate_lock add_log threads _in_flight gate_lock data log]| |].
  - rewrite (zsum_insert _ _ _ _ _ Hi). cbn. lia.
  - intros k. split; [done|]. intros (pc & Hk & Hr). rewrite (lookup_set _ _ _ _ k Hi) in Hk. destruct (decide (i = k)) as [<-|Hne]; [injection Hk as <-; done|].
    assert (gate_lock q = Some k) as E by (apply H2; by exists pc). congruence.
  - intros _. unfold state_after. rewrite foldl_app. exact Hd.
  - intros k b' todo'. rewrite (lookup_set _ _ _ _ k Hi). destruct (decide (i = k)) as [<-|Hne]; [done|]. intros Hk. assert (gate_lock q = Some k) as E by (apply H2; by eexists). congruence.
  - intros k pc. cbn [set_thread set_gate_lock add_log threads]. rewrite (lookup_set _ _ _ _ k Hi). destruct (decide (i = k)); [by intros [= <-]|apply Hs].
  - exists c. split; [done|]. by apply (capture_frame d0 q); [..|exists [b]|].
Qed.

(** *** The steps of the capture *)

Lemma one_capture q j c c0 : captures q = [c0] → captures q !! j = Some c → j = 0%nat ∧ c = c0.
Proof. intros ->. destruct j as [|j]; cbn; [by intros [= ->]|done]. Qed.

Lemma base_capture d0 q j c : qbase d0 q → qbase d0 (set_capture j c q).
Proof. by apply base_frame; [..|left]. Qed.

Lemma reading_inv d0 q c : qbase d0 q → captures q = [c] → (∀ i pc, threads q !! i = Some pc → asleep pc = true → _quiesce_requested q = true) → _quiesce_requested q = true →
  qinv d0 (await_idle 0 q).
Proof.
  intros Hb Ec Hs Er. unfold await_idle. destruct (Z.eqb_spec (_in_flight q) 0); (split; [by apply base_capture|exact Hs|]);
    [exists (CReading readers [])|exists CSleep]; (split; [cbn [set_capture captures]; by rewrite Ec|]); cbn; [split_and!; [done|done|by exists []]|done].
Qed.

Lemma quiesce_step_inv d0 a q q' : qstep a q = Some q' → qinv d0 q → qinv d0 q'.
Proof.
  intros E Hq. pose proof Hq as [Hb Hs (c & Ec & Hc)]. destruct a as [i b|i|i|i|i|i|j|j|j|j|j|j]; cbn [qstep] in E.
  - destruct (threads q !! i) as [[]|] eqn:Ei; try done. injection E as <-. by eapply enter_inv.
  - destruct (threads q !! i) as [[]|] eqn:Ei; try done. injection E as <-. by eapply enter_inv.
  - destruct (threads q !! i) as [[]|] eqn:Ei; try done. destruct (gate_lock q) eqn:El; [done|]. injection E as <-. by apply acquire_inv.
  - destruct (threads q !! i) as [[| | | |b [|f todo]|]|] eqn:Ei; try done. injection E as <-. by apply work_inv.
  - destruct (threads q !! i) as [[| | | |b [|f todo]|]|] eqn:Ei; try done. injection E as <-. by apply unlock_inv.
  - destruct (threads q !! i) as [[]|] eqn:Ei; try done. injection E as <-. by eapply leave_inv.
  - destruct (captures q !! j) as [pc|] eqn:Ej; [|done]. destruct (one_capture q j pc c Ec Ej) as [-> ->].
    assert (qinv d0 (await_idle 0 (set_requested true q))) as H; [|by destruct c; try done; injection E as <-].
    apply (reading_inv d0 (set_requested true q) c); [by apply (base_frame d0 q); [..|left|]|done|done|done].
  - destruct (captures q !! j) as [pc|] eqn:Ej; [|done]. destruct (one_capture q j pc c Ec Ej) as [-> ->]. destruct c; try done. injection E as <-. by apply (reading_inv d0 q CAwake).
  - destruct (captures q !! j) as [pc|] eqn:Ej; [|done]. destruct (one_capture q j pc c Ec Ej) as [-> ->].
    assert (_quiesce_requested q = true → qinv d0 (if _in_flight q =? 0 then set_capture 0 (CReading readers []) q else _release_locked (set_capture 0 CIdle q))) as H.
    { intros Er. destruct (Z.eqb_spec (_in_flight q) 0) as [H0|H0].
      - split; [by apply base_capture|exact Hs|]. exists (CReading readers []). split; [cbn [set_capture captures]; by rewrite Ec|]. cbn. split_and!; [done|done|by exists []].
      - apply (release_inv d0 _ CIdle); [by apply base_capture|cbn [set_capture captures]; by rewrite Ec|done]. }
    destruct c; try done; injection E as <-; apply H; [by destruct Hc|done].
  - destruct (captures q !! j) as [pc|] eqn:Ej; [|done]. destruct (one_capture q j pc c Ec Ej) as [-> ->]. destruct c as [| | |[|r todo] got|]; try done. injection E as <-.
    destruct Hc as (Hr & H0 & ds & Hd & Hg). split; [by apply base_capture|exact Hs|]. exists (CReading todo (got ++ [r (data q)])). split; [cbn [set_capture captures]; by rewrite Ec|].
    cbn. split_and!; [done|done|]. exists (ds ++ [r]). split; [by rewrite <-app_assoc|]. by rewrite fmap_app, Hg.
  - destruct (captures q !! j) as [pc|] eqn:Ej; [|done]. destruct (one_capture q j pc c Ec Ej) as [-> ->]. destruct c as [| | |todo got|]; try done. injection E as <-.
    apply (release_inv d0 _ CIdle); [by apply base_capture|cbn [set_capture captures]; by rewrite Ec|done].
  - destruct (captures q !! j) as [pc|] eqn:Ej; [|done]. destruct (one_capture q j pc c Ec Ej) as [-> ->]. destruct c as [| | |[|r todo] got|]; try done. injection E as <-.
    destruct Hc as (Hr & H0 & ds & Hd & Hg). rewrite app_nil_r in Hd. subst ds.
    apply (release_inv d0 _ (CDone got)); [by apply base_capture|cbn [set_capture captures]; by rewrite Ec|]. cbn. split; [done|]. exists (log q), []. split; [by rewrite app_nil_r|].
    rewrite Hg. by rewrite (qb_idle _ _ Hb (quiet_lock _ _ Hb H0)).
Qed.

Lemma start_inv n d0 : qinv d0 (new_quiesce n 1 d0).
Proof.
  assert (∀ i pc, replicate n IIdle !! i = Some pc → pc = IIdle) as Hi by (intros i pc [-> _]%lookup_replicate; done). split; [split|..]; cbn [new_quiesce threads _in_flight gate_lock data log captures _quiesce_requested].
  - symmetry. apply zsum_zero. intros pc [i Hin]%list_elem_of_lookup. by rewrite (Hi i pc Hin).
  - intros i. split; [done|]. intros (pc & E%Hi & Hr). by subst pc.
  - done.
  - intros i b todo E%Hi. done.
  - intros i pc E%Hi Ha. by subst pc.
  - by exists CIdle.
Qed.

Lemma reach_inv n d0 q : reach n 1 d0 q → qinv d0 q.
Proof. intros Hr. induction Hr as [|a q q' _ IH E]; [apply start_inv|by eapply quiesce_step_inv]. Qed.

(** ** Progress *)

(** What threads do of themselves: no batch arrives, no capture begins, runs into
    its timeout or fails. *)
Definition progress (a : lock_action) : bool := match a with Arrive _ _ | Request _ | Expire _ | Fail _ => false | _ => true end.

Definition run (l : list lock_action) q : option QuiesceLock := foldl (λ o a, q ← o; qstep a q) (Some q) l.

(** The work a thread has left, in a system of [n] threads: whoever wakes the
    others pays for each of them. *)
Definition ingest_work (n : Z) (pc : ingest_pc) : Z :=
  match pc with
  | IIdle => 0
  | IExiting _ => n + 1
  | IRunning _ todo => n + 2 + Z.of_nat (length todo)
  | IEntered b => n + 3 + Z.of_nat (length (steps b))
  | ISleep b => n + 4 + Z.of_nat (length (steps b))
  | IAwake b => n + 5 + Z.of_nat (length (steps b))
  end.

Definition capture_work (n : Z) (pc : capture_pc) : Z :=
  match pc with
  | CIdle | CDone _ => 0
  | CReading todo _ => n + 1 + Z.of_nat (length todo)
  | CSleep => n + 2 + Z.of_nat (length readers)
  | CAwake => n + 3 + Z.of_nat (length readers)
  end.

Definition population q : Z := Z.of_nat (length (threads q)) + Z.of_nat (length (captures q)).
Definition work_left q : Z := zsum (ingest_work (population q)) (threads q) + zsum (capture_work (population q)) (captures q).

Lemma woken_sum {X} (f : X → Z) (wake : X → X) l : (∀ x, f (wake x) <= f x + 1) → zsum f (wake <$> l) <= zsum f l + Z.of_nat (length l).
Proof. intros Hf. induction l as [|x l IH]; [cbn; lia|]. cbn [fmap list_fmap length]. rewrite !zsum_cons. specialize (Hf x). lia. Qed.

Lemma notify_work q : population (notify_waiters q) = population q ∧ work_left (notify_waiters q) <= work_left q + population q.
Proof.
  assert (population (notify_waiters q) = population q) as E by (unfold population; cbn [notify_waiters threads captures]; by rewrite !length_fmap). split; [done|].
  unfold work_left. rewrite E. cbn [notify_waiters threads captures]. assert (population q = Z.of_nat (length (threads q)) + Z.of_nat (length (captures q))) as En by done.
  pose proof (woken_sum (ingest_work (population q)) wake_ingest (threads q) ltac:(intros []; cbn; lia)) as H1.
  pose proof (woken_sum (capture_work (population q)) wake_capture (captures q) ltac:(intros []; cbn; lia)) as H2. lia.
Qed.

Lemma thread_work q i pc pc' n l d lg :
  threads q !! i = Some pc →
  let q' := mkQuiesce (_quiesce_requested q) n l (<[i := pc']> (threads q)) (captures q) d lg in
  population q' = population q ∧ work_left q' = work_left q - ingest_work (population q) pc + ingest_work (population q) pc'.
Proof.
  intros Hi q'. assert (population q' = population q) as E by (unfold population, q'; cbn [threads captures]; by rewrite length_insert). split; [done|].
  unfold work_left. rewrite E. unfold q'. cbn [threads captures]. rewrite (zsum_insert _ _ _ _ _ Hi). lia.
Qed.

Lemma capture_work_step q j pc pc' r :
  captures q !! j = Some pc →
  let q' := mkQuiesce r (_in_flight q) (gate_lock q) (threads q) (<[j := pc']> (captures q)) (data q) (log q) in
  population q' = population q ∧ work_left q' = work_left q - capture_work (population q) pc + capture_work (population q) pc'.
Proof.
  intros Hj q'. assert (population q' = population q) as E by (unfold population, q'; cbn [threads captures]; by rewrite length_insert). split; [done|].
  unfold work_left. rewrite E. unfold q'. cbn [threads captures]. rewrite (zsum_insert _ _ _ _ _ Hj). lia.
Qed.

Lemma progress_works a q q' : qstep a q = Some q' → progress a = true → work_left q' < work_left q.
Proof.
  intros E Hp. destruct a as [i b|i|i|i|i|i|j|j|j|j|j|j]; try done; cbn [qstep] in E.
  - destruct (threads q !! i) as [[]|] eqn:Ei; try done. injection E as <-. unfold enter. destruct (_quiesce_requested q) eqn:Er.
    + destruct (thread_work q i _ (ISleep b) (_in_flight q) (gate_lock q) (data q) (log q) Ei) as [_ H]. unfold set_thread. rewrite H. cbn. lia.
    + destruct (thread_work q i _ (IEntered b) (_in_flight q + 1) (gate_lock q) (data q) (log q) Ei) as [_ H]. unfold set_thread, set_in_flight. cbn. cbn in H. rewrite H. cbn. lia.
  - destruct (threads q !! i) as [[]|] eqn:Ei; try done. destruct (gate_lock q) eqn:El; [done|]. injection E as <-.
    destruct (thread_work q i _ (IRunning b (steps b)) (_in_flight q) (Some i) (data q) (log q) Ei) as [_ H]. unfold set_thread, set_gate_lock. cbn. cbn in H. rewrite H. lia.
  - destruct (threads q !! i) as [[| | | |b [|f todo]|]|] eqn:Ei; try done. injection E as <-.
    destruct (thread_work q i _ (IRunning b todo) (_in_flight q) (gate_lock q) (f (data q)) (log q) Ei) as [_ H]. unfold set_thread, set_data. cbn [_quiesce_requested _in_flight gate_lock threads captures data log]. rewrite H. cbn [ingest_work length]. lia.
  - destruct (threads q !! i) as [[| | | |b [|f todo]|]|] eqn:Ei; try done. injection E as <-.
    destruct (thread_work q i _ (IExiting b) (_in_flight q) None (data q) (log q ++ [b]) Ei) as [_ H]. unfold set_thread, set_gate_lock, add_log. cbn [_quiesce_requested _in_flight gate_lock threads captures data log]. rewrite H. cbn. lia.
  - destruct (threads q !! i) as [[]|] eqn:Ei; try done. injection E as <-. unfold leave.
    destruct (thread_work q i _ IIdle (_in_flight q - 1) (gate_lock q) (data q) (log q) Ei) as [Hn H]. unfold set_thread, set_in_flight. cbn [_quiesce_requested _in_flight gate_lock threads captures data log].
    set (q1 := mkQuiesce _ _ _ _ _ _ _) in *. destruct (notify_work q1) as [_ H2]. rewrite Hn in H2. assert (0 <= population q) by (unfold population; lia). cbn in H. destruct (_ =? 0); lia.
  - destruct (captures q !! j) as [[]|] eqn:Ej; try done. injection E as <-. unfold await_idle. destruct (_in_flight q =? 0); unfold set_capture;
      [destruct (capture_work_step q j _ (CReading readers []) (_quiesce_requested q) Ej) as [_ H]|destruct (capture_work_step q j _ CSleep (_quiesce_requested q) Ej) as [_ H]]; rewrite H; cbn; lia.
  - destruct (captures q !! j) as [[| | |[|r todo] got|]|] eqn:Ej; try done. injection E as <-. unfold set_capture.
    destruct (capture_work_step q j _ (CReading todo (got ++ [r (data q)])) (_quiesce_requested q) Ej) as [_ H]. rewrite H. cbn [capture_work length]. lia.
  - destruct (captures q !! j) as [[| | |[|r todo] got|]|] eqn:Ej; try done. injection E as <-. unfold _release_locked, set_capture, set_requested.
    destruct (capture_work_step q j _ (CDone got) false Ej) as [Hn H]. cbn [_quiesce_requested _in_flight gate_lock threads captures data log].
    set (q1 := mkQuiesce _ _ _ _ _ _ _) in *. destruct (notify_work q1) as [_ H2]. rewrite Hn in H2. cbn in H. lia.
Qed.

Lemma work_nonneg q : 0 <= work_left q.
Proof.
  unfold work_left. assert (0 <= population q) by (unfold population; lia). apply Z.add_nonneg_nonneg; apply zsum_nonneg; intros pc _; destruct pc; cbn; lia.
Qed.

Lemma run_cons a l q : run (a :: l) q = (q1 ← qstep a q; run l q1).
Proof. unfold run. cbn [foldl mbind option_bind]. destruct (qstep a q); [done|]. cbn. by induction l. Qed.

Lemma run_ind (R : QuiesceLock → QuiesceLock → Prop) l q q' :
  (∀ q, R q q) → (∀ a q1 q2 q3, progress a = true → qstep a q1 = Some q2 → R q2 q3 → R q1 q3) → forallb progress l = true → run l q = Some q' → R q q'.
Proof.
  intros H0 H1. revert q. induction l as [|a l IH]; intros q Hp; [intros [= <-]; apply H0|]. apply andb_true_iff in Hp as [Ha Hl].
  rewrite run_cons. destruct (qstep a q) as [q1|] eqn:E; [|done]. intros Hr. eapply H1; [exact Ha|exact E|]. by apply IH.
Qed.

Lemma run_bounded l q q' : forallb progress l = true → run l q = Some q' → Z.of_nat (length l) <= work_left q - work_left q'.
Proof.
  revert q. induction l as [|a l IH]; intros q Hp; [intros [= <-]; cbn; lia|]. apply andb_true_iff in Hp as [Ha Hl]. rewrite run_cons.
  destruct (qstep a q) as [q1|] eqn:E; [|done]. intros Hr%IH; [|done]. pose proof (progress_works a q q1 E Ha). cbn [length]. lia.
Qed.

(** *** Nothing is stuck *)

(** What a thread can do next, when it can. *)
Definition next_action q i (pc : ingest_pc) : option lock_action :=
  match pc with
  | IIdle | ISleep _ => None
  | IAwake _ => Some (Recheck i)
  | IEntered _ => match gate_lock q with None => Some (Acquire i) | Some _ => None end
  | IRunning _ (_ :: _) => Some (Work i)
  | IRunning _ [] => Some (Unlock i)
  | IExiting _ => Some (Leave i)
  end.
Definition next_capture j (pc : capture_pc) : option lock_action :=
  match pc with
  | CAwake => Some (Wake j)
  | CReading (_ :: _) _ => Some (Read j)
  | CReading [] _ => Some (Finish j)
  | _ => None
  end.

Lemma next_enabled q i pc a : threads q !! i = Some pc → next_action q i pc = Some a → progress a = true ∧ is_Some (qstep a q).
Proof.
  intros Hi E. destruct pc as [| | | |b [|f todo]|]; cbn in E; try done; [injection E as <-|destruct (gate_lock q) eqn:El; [done|]; injection E as <-|injection E as <-..];
    (split; [done|]); cbn [qstep]; rewrite Hi, ?El; eauto.
Qed.

Lemma next_capture_enabled q j pc a : captures q !! j = Some pc → next_capture j pc = Some a → progress a = true ∧ is_Some (qstep a q).
Proof. intros Hj E. destruct pc as [| | |[|r todo] got|]; cbn in E; try done; injection E as <-; (split; [done|]); cbn [qstep]; rewrite Hj; eauto. Qed.

Definition stuck q : Prop := ∀ a, progress a = true → qstep a q = None.

Lemma stuck_next q i pc : stuck q → threads q !! i = Some pc → next_action q i pc = None.
Proof. intros Hs Hi. destruct (next_action q i pc) as [a|] eqn:E; [|done]. destruct (next_enabled q i pc a Hi E) as [Hp Hsome]. rewrite (Hs a Hp) in Hsome. by destruct Hsome. Qed.

Lemma stuck_lock d0 q : qbase d0 q → stuck q → gate_lock q = None.
Proof.
  intros Hb Hs. destruct (gate_lock q) as [i|] eqn:E; [|done]. apply (qb_lock _ _ Hb) in E as (pc & Hi & Hr). pose proof (stuck_next q i pc Hs Hi) as Hn.
  by destruct pc as [| | | |b [|f todo]|].
Qed.

(** A thread is at rest, or waits for the end of a capture. *)
Lemma stuck_waits d0 q i pc : qbase d0 q → stuck q → threads q !! i = Some pc → pc = IIdle ∨ asleep pc = true.
Proof.
  intros Hb Hs Hi. pose proof (stuck_next q i pc Hs Hi) as Hn. destruct pc as [| | | |b [|f todo]|]; cbn in Hn; rewrite ?(stuck_lock d0 q Hb Hs) in Hn; auto; done.
Qed.

Lemma stuck_quiet d0 q : qbase d0 q → stuck q → _in_flight q = 0.
Proof.
  intros Hb Hs. rewrite (qb_count _ _ Hb). apply zsum_zero. intros pc [i Hi]%list_elem_of_lookup. destruct (stuck_waits d0 q i pc Hb Hs Hi) as [->|Ha]; [done|by destruct pc].
Qed.

Lemma stuck_rests d0 q : qinv d0 q → stuck q → (∀ pc, pc ∈ threads q → pc = IIdle) ∧ (captures q = [CIdle] ∨ ∃ got, captures q = [CDone got]).
Proof.
  intros [Hb Hsl (c & Ec & Hc)] Hs. pose proof (stuck_quiet d0 q Hb Hs) as H0.
  assert (next_capture 0 c = None) as Hn.
  { destruct (next_capture 0 c) as [a|] eqn:E; [|done]. destruct (next_capture_enabled q 0 c a) as [Hp Hsome]; [by rewrite Ec|done|]. rewrite (Hs a Hp) in Hsome. by destruct Hsome. }
  assert (_quiesce_requested q = false ∧ (c = CIdle ∨ ∃ got, c = CDone got)) as [Hr Hd].
  { destruct c as [| | |[|r todo] got|got]; cbn in Hc, Hn; try done; [by auto|by destruct Hc|destruct Hc; eauto]. }
  split; [|rewrite Ec; destruct Hd as [->|[got ->]]; eauto]. intros pc [i Hi]%list_elem_of_lookup.
  destruct (stuck_waits d0 q i pc Hb Hs Hi) as [->|Ha]; [done|]. specialize (Hsl i pc Hi Ha). congruence.
Qed.

Lemma rest_stuck q : (∀ pc, pc ∈ threads q → pc = IIdle) → (∀ pc, pc ∈ captures q → capture_work 0 pc = 0) → stuck q.
Proof.
  intros Ht Hc a Ha. destruct a as [i b|i|i|i|i|i|j|j|j|j|j|j]; try done; cbn [qstep];
    try (destruct (threads q !! i) as [pc|] eqn:E; [|done]; by rewrite (Ht pc (list_elem_of_lookup_2 _ _ _ E)));
    (destruct (captures q !! j) as [pc|] eqn:E; [|done]; pose proof (Hc pc (list_elem_of_lookup_2 _ _ _ E)) as Hw; destruct pc; cbn in Hw; try done; lia).
Qed.

(** *** No batch is lost *)

Definition batch_of (pc : ingest_pc) : list B := match pc with ISleep b | IAwake b | IEntered b | IRunning b _ => [b] | _ => [] end.
Definition waiting q : list B := threads q ≫= batch_of.

Lemma waiting_set q i pc pc' : threads q !! i = Some pc → batch_of pc ++ (<[i := pc']> (threads q) ≫= batch_of) ≡ₚ batch_of pc' ++ waiting q.
Proof.
  unfold waiting. revert i. induction (threads q) as [|x l IH]; intros [|i] Hi; cbn in *; try done.
  - injection Hi as ->. by rewrite !(assoc_L (++)), (Permutation_app_comm (batch_of pc)).
  - rewrite !(assoc_L (++)), !(Permutation_app_comm _ (batch_of x)), <-!(assoc_L (++)). by rewrite (IH i Hi).
Qed.

Lemma waiting_notify q : waiting (notify_waiters q) = waiting q.
Proof. unfold waiting. cbn [notify_waiters threads]. induction (threads q) as [|x l IH]; [done|]. cbn. rewrite IH. by destruct x. Qed.

Lemma progress_keeps a q q' : progress a = true → qstep a q = Some q' → log q' ++ waiting q' ≡ₚ log q ++ waiting q.
Proof.
  intros Hp E. destruct a as [i b|i|i|i|i|i|j|j|j|j|j|j]; try done; cbn [qstep] in E.
  - destruct (threads q !! i) as [[]|] eqn:Ei; try done. injection E as <-. unfold enter. destruct (_quiesce_requested q); [pose proof (waiting_set q i _ (ISleep b) Ei) as H|pose proof (waiting_set q i _ (IEntered b) Ei) as H];
      cbn in H |- *; apply Permutation_cons_inv in H; by rewrite <-H.
  - destruct (threads q !! i) as [[]|] eqn:Ei; try done. destruct (gate_lock q); [done|]. injection E as <-. pose proof (waiting_set q i _ (IRunning b (steps b)) Ei) as H.
    cbn in H |- *. apply Permutation_cons_inv in H. by rewrite <-H.
  - destruct (threads q !! i) as [[| | | |b [|f todo]|]|] eqn:Ei; try done. injection E as <-. pose proof (waiting_set q i _ (IRunning b todo) Ei) as H. cbn in H |- *. apply Permutation_cons_inv in H. by rewrite <-H.
  - destruct (threads q !! i) as [[| | | |b [|f todo]|]|] eqn:Ei; try done. injection E as <-. pose proof (waiting_set q i _ (IExiting b) Ei) as H. cbn in H |- *.
    unfold waiting at 1. cbn. rewrite <-(assoc_L (++)). cbn. by rewrite H.
  - destruct (threads q !! i) as [[]|] eqn:Ei; try done. injection E as <-. pose proof (waiting_set q i _ IIdle Ei) as H. cbn in H. unfold leave.
    set (q1 := set_thread i IIdle _). assert (log q1 ++ waiting q1 ≡ₚ log q ++ waiting q) as H1 by (unfold waiting at 1, q1; cbn; by rewrite H).
    destruct (_ =? 0); [by rewrite waiting_notify|done].
  - destruct (captures q !! j) as [[]|] eqn:Ej; try done. injection E as <-. unfold await_idle. by destruct (_ =? 0).
  - destruct (captures q !! j) as [[| | |[|r todo] got|]|] eqn:Ej; try done. by injection E as <-.
  - destruct (captures q !! j) as [[| | |[|r todo] got|]|] eqn:Ej; try done. injection E as <-. unfold _release_locked. by rewrite waiting_notify.
Qed.

Lemma run_keeps l q q' : forallb progress l = true → run l q = Some q' → log q' ++ waiting q' ≡ₚ log q ++ waiting q.
Proof. apply (run_ind (λ q q', log q' ++ waiting q' ≡ₚ log q ++ waiting q)); [done|]. intros a q1 q2 q3 Ha E H. by rewrite H, (progress_keeps a q1 q2 Ha E). Qed.

Lemma run_reach n m d l q q' : reach n m d q → run l q = Some q' → reach n m d q'.
Proof.
  revert q. induction l as [|a l IH]; intros q Hr; [by intros [= <-]|]. rewrite run_cons. destruct (qstep a q) as [q1|] eqn:E; [|done]. apply IH. by eapply reach_step.
Qed.

Lemma rest_waiting q : (∀ pc, pc ∈ threads q → pc = IIdle) → waiting q = [].
Proof.
  unfold waiting. induction (threads q) as [|x l IH]; intros H; [done|]. cbn. rewrite (H x) by left. apply IH. intros pc Hpc. apply H. by right.
Qed.

(** ** The theorems *)

(** C9: A capture is one moment of the stream. Whatever the interleaving of the
    threads that apply batches, of their steps inside a batch and of the reads of
    the one thread that captures, of timeouts and of captures that fail, a capture
    that ends holds what its readers give of the components after exactly the
    batches applied by then, each of them whole; and what is left of a capture
    later on is still that of a prefix of the batches. *)
Theorem capture_consistent n d q :
  reach n 1 d q →
  (∀ q', qstep (Finish 0) q = Some q' → captures q' = [CDone ((λ r, r (state_after d (log q'))) <$> readers)]) ∧
  (∀ todo got, captures q = [CReading todo got] → _in_flight q = 0 ∧ data q = state_after d (log q)) ∧
  (∀ got, captures q = [CDone got] → ∃ l l', log q = l ++ l' ∧ got = (λ r, r (state_after d l)) <$> readers).
Proof.
  intros Hr. pose proof (reach_inv n d q Hr) as [Hb Hs (c & Ec & Hc)]. rewrite Ec. split_and!.
  - intros q'. cbn [qstep]. rewrite Ec. cbn [lookup list_lookup]. destruct c as [| | |[|r todo] got|]; try done. intros [= <-]. cbn. rewrite Ec. cbn.
    destruct Hc as (_ & H0 & ds & -> & ->). rewrite app_nil_r. by rewrite (qb_idle _ _ Hb (quiet_lock _ _ Hb H0)).
  - intros todo got [= ->]. destruct Hc as (_ & H0 & _). split; [done|]. exact (qb_idle _ _ Hb (quiet_lock _ _ Hb H0)).
  - intros got [= ->]. by destruct Hc.
Qed.

(** C10: Nothing is stuck, and no batch is lost. From a state that the threads can
    reach, with any number of them asleep, the threads take at most [work_left]
    steps of their own; where they cannot take another, every one of them has
    left [applying], the capture is over, and the log has grown by the batches
    that were waiting, each applied once: no wakeup is missed. *)
Theorem quiesce_live n d q l q' :
  reach n 1 d q → forallb progress l = true → run l q = Some q' →
  Z.of_nat (length l) <= work_left q ∧
  (stuck q' → (∀ pc, pc ∈ threads q' → pc = IIdle) ∧ (captures q' = [CIdle] ∨ ∃ got, captures q' = [CDone got]) ∧ log q' ≡ₚ log q ++ waiting q).
Proof.
  intros Hr Hp Hl. split; [pose proof (run_bounded l q q' Hp Hl); pose proof (work_nonneg q'); lia|]. intros Hs.
  destruct (stuck_rests d q') as [Hi Hc]; [by eapply reach_inv, run_reach|done|]. split_and!; [done..|].
  by rewrite <-(run_keeps l q q' Hp Hl), (rest_waiting q' Hi), app_nil_r.
Qed.
End quiesce.

(** ** Two components and their threads *)

Definition demo_steps (b : Z) : list (Z * Z → Z * Z) := [(λ d, (d.1 + b, d.2)); (λ d, (d.1, d.2 + b))].
Definition demo_readers : list (Z * Z → Z) := [fst; snd].

Lemma run_reaches {B D S} (steps : B → list (D → D)) (readers : list (D → S)) n m d l q' :
  run steps readers l (new_quiesce n m d) = Some q' → reach steps readers n m d q'.
Proof. apply (run_reach steps readers n m d l). apply reach_start. Qed.

(** A batch is under way when the capture asks, and another arrives. *)
Definition demo_before : list (lock_action) := [Arrive 0 5; Acquire 0; Work 0; Request 0; Arrive 1 7].
(** The first ends and wakes the capture, whose end wakes the second. *)
Definition demo_after : list (lock_action (B := Z)) :=
  [Work 0; Unlock 0; Leave 0; Wake 0; Read 0; Read 0; Finish 0; Recheck 1; Acquire 1; Work 1; Work 1; Unlock 1; Leave 1]%nat.

Definition demo_state (l : list lock_action) : QuiesceLock := default (new_quiesce 2 1 (0, 0)) (run demo_steps demo_readers l (new_quiesce 2 1 (0, 0))).

Lemma capture_consistent_witness :
  captures (demo_state (demo_before ++ take 7 demo_after)) = [CDone ((λ r, r (state_after demo_steps (0, 0) [5])) <$> demo_readers)] ∧
  captures (demo_state (demo_before ++ take 7 demo_after)) = [CDone [5; 5]].
Proof.
  split; [|vm_compute; reflexivity].
  destruct (capture_consistent demo_steps demo_readers 2 (0, 0) (demo_state (demo_before ++ take 6 demo_after))) as [H _].
  - apply run_reaches with (demo_before ++ take 6 demo_after). vm_compute. reflexivity.
  - assert (log (demo_state (demo_before ++ take 7 demo_after)) = [5]) as <- by (vm_compute; reflexivity). apply H. vm_compute. reflexivity.
Defined.

Lemma quiesce_live_witness :
  Z.of_nat (length demo_after) <= work_left demo_steps demo_readers (demo_state demo_before) ∧
  log (demo_state (demo_before ++ demo_after)) ≡ₚ [5; 7] ∧ data (demo_state (demo_before ++ demo_after)) = (12, 12).
Proof.
  destruct (quiesce_live demo_steps demo_readers 2 (0, 0) (demo_state demo_before) demo_after (demo_state (demo_before ++ demo_after))) as [Hb Hs].
  - apply run_reaches with demo_before. vm_compute. reflexivity.
  - reflexivity.
  - vm_compute. reflexivity.
  - split; [exact Hb|]. split; [|vm_compute; reflexivity].
    assert (log (demo_state demo_before) ++ waiting (demo_state demo_before) = [5; 7]) as <- by (vm_compute; reflexivity). apply Hs. apply rest_stuck; intros pc Hpc; vm_compute in Hpc; repeat (apply elem_of_cons in Hpc as [->|Hpc]; [done|]); by apply not_elem_of_nil in Hpc.
Defined.

(** With two captures at once the first to end lets a batch in, which the second
    reads half of: no list of batches leaves the components so. *)
Definition torn_run : list (lock_action (B := Z)) :=
  [Request 0; Request 1; Read 0; Read 0; Read 1; Finish 0; Arrive 0 5%Z; Acquire 0; Work 0; Work 0; Unlock 0; Leave 0; Read 1; Finish 1]%nat.

Definition torn_state : QuiesceLock := default (new_quiesce 1 2 (0, 0)) (run demo_steps demo_readers torn_run (new_quiesce 1 2 (0, 0))).

Lemma applied_even l : ∀ d : Z * Z, d.1 = d.2 → (state_after demo_steps d l).1 = (state_after demo_steps d l).2.
Proof. induction l as [|b l IH]; intros d Hd; [done|]. apply (IH (applied demo_steps b d)). cbn. lia. Qed.

Lemma two_captures_tear :
  ∃ q got, reach demo_steps demo_readers 1 2 (0, 0) q ∧ captures q !! 1%nat = Some (CDone got) ∧ ∀ l, got ≠ (λ r, r (state_after demo_steps (0, 0) l)) <$> demo_readers.
Proof.
  exists torn_state, [0; 5]. split_and!; [apply run_reaches with torn_run; vm_compute; reflexivity|vm_compute; reflexivity|]. intros l E. injection E as E1 E2.
  pose proof (applied_even l (0, 0) eq_refl). lia.
Qed.
