(* ===== verification/Checkpoint.v ===== *)
(** * The checkpoint on disk

    lmcache/v1/mp_coordinator/persistence/checkpoint.py: what a capture becomes as
    a file, and what a file gives back at startup; and the file of
    persistence/store.py, replaced under failing system calls and crashes.

    The disk keeps what a crash may bring back: the bytes of a file that was not
    synced may turn into any others, and a rename may be undone. A system call does
    its work, or fails part of the way and raises, as [m_weather] says for each
    of them in turn; [m_past] keeps the disk before each, which is where a crash
    can come. msgpack is a parameter, with its round trip as a hypothesis. *)

From stdpp Require Import gmap list strings.
From Stdlib Require Import ZArith Lia.
From Stdlib.Strings Require Import Byte.
From Stdlib Require Import Floats.SpecFloat.
From S2P Require Import Prelude Keys PyFloat Handler TokenHasher Quiesce.

Open Scope Z_scope.
Open Scope py_scope.
Open Scope handler_scope.

(** ** The file *)

Record file := mkFile { f_bytes : list byte; f_synced : bool }.
Record disk := mkDisk { d_path : option file; d_tmp : option file; d_old : list (option file) }.

Inductive weather := Fine | Spill | Fails (after : nat).

Record machine := mkMachine { m_disk : disk; m_buffer : list byte; m_weather : list weather; m_past : list disk }.

(** A system call on the disk and the stream's buffer. *)
Definition io (ok : bool → disk → list byte → disk * list byte) (bad : nat → disk → list byte → disk * list byte) : handler machine unit := λ m,
  let past := m_past m ++ [m_disk m] in
  match hd Fine (m_weather m) with
  | Fails k => let r := bad k (m_disk m) (m_buffer m) in (Raise OSError, mkMachine r.1 r.2 (tl (m_weather m)) past)
  | w => let r := ok (match w with Spill => true | _ => false end) (m_disk m) (m_buffer m) in (Ret tt, mkMachine r.1 r.2 (tl (m_weather m)) past)
  end.

(** [n] bytes of the buffer reach the file. *)
Definition spill (n : nat) (dk : disk) (buffer : list byte) : disk * list byte :=
  match d_tmp dk, take n buffer with
  | Some f, b :: bs => (mkDisk (d_path dk) (Some (mkFile (f_bytes f ++ b :: bs) false)) (d_old dk), drop n buffer)
  | _, _ => (dk, buffer)
  end.

Definition unchanged {X} (_ : X) (dk : disk) (buffer : list byte) : disk * list byte := (dk, buffer).

Definition mkdir : handler machine unit := io unchanged unchanged.
Definition open_tmp : handler machine unit := io (λ _ dk _, (mkDisk (d_path dk) (Some (mkFile [] false)) (d_old dk), [])) unchanged.
Definition stream_write (bs : list byte) : handler machine unit :=
  io (λ now dk buffer, if now then spill (length (buffer ++ bs)) dk (buffer ++ bs) else (dk, buffer ++ bs)) (λ k dk buffer, spill k dk (buffer ++ bs)).
Definition stream_flush : handler machine unit := io (λ _ dk buffer, spill (length buffer) dk buffer) spill.
Definition fsync : handler machine unit :=
  io (λ _ dk buffer, (mkDisk (d_path dk) ((λ f, mkFile (f_bytes f) true) <$> d_tmp dk) (d_old dk), buffer)) unchanged.
Definition stream_close : handler machine unit := io (λ _ dk buffer, ((spill (length buffer) dk buffer).1, [])) (λ k dk buffer, ((spill k dk buffer).1, [])).
Definition unlink : handler machine unit := io (λ _ dk buffer, (mkDisk (d_path dk) None (d_old dk), buffer)) unchanged.

(** [os.replace(tmp, self._path)]: the name takes the new file, and a crash may
    still find the old one. *)
Definition replace_file : handler machine unit :=
  io (λ _ dk buffer, (match d_tmp dk with Some f => mkDisk (Some f) None (d_path dk :: d_old dk) | None => dk end, buffer)) unchanged.

(** [with tmp.open("wb") as stream], and [except BaseException]. *)
Definition h_closing {X} (h : handler machine X) : handler machine X := λ m,
  let '(r, m) := h m in match stream_close m with (Ret _, m) => (r, m) | (Raise e, m) => (Raise e, m) end.
Definition h_except {X} (h : handler machine X) (k : exn → handler machine X) : handler machine X := λ m,
  match h m with (Ret x, m) => (Ret x, m) | (Raise e, m) => k e m end.

Definition open_write_local {X} (body : handler machine X) : handler machine X :=
  let^ _ := mkdir in
  let^ x := h_except
    (let^ _ := open_tmp in h_closing (let^ x := body in let^ _ := stream_flush in let^ _ := fsync in h_ret x))
    (λ e, let^ _ := unlink in h_raise e) in
  let^ _ := replace_file in
  h_ret x.

(** What is at the path of the store, opened for reading. *)
Definition open_read (w : weather) (artifact : option (list byte)) : py (list byte) :=
  match artifact with
  | None => Raise ArtifactNotFoundError
  | Some bs => match w with Fails _ => Raise OSError | _ => Ret bs end
  end.

(** What a crash may leave at the path. *)
Definition file_after_crash (o : option file) (a : option (list byte)) : Prop :=
  match o with None => a = None | Some f => ∃ bs, a = Some bs ∧ (f_synced f = true → bs = f_bytes f) end.
Definition names (dk : disk) : list (option file) := d_path dk :: d_old dk.
Definition after_crash (dk : disk) (a : option (list byte)) : Prop := ∃ o, o ∈ names dk ∧ file_after_crash o a.

(** A file is synced, with [P] of its bytes. *)
Definition file_ok (P : list byte → Prop) (o : option file) : Prop := match o with None => True | Some f => f_synced f = true ∧ P (f_bytes f) end.

(** ** The checkpoint *)

Definition _MAGIC : list byte := Eval vm_compute in (byte_of <$> [76; 77; 67; 75; 80; 84; 0; 0]).
Definition _CHECKPOINT_VERSION : Z := 1.
Definition _HEADER_size : nat := 12.
(** [struct.Struct("<8sI")]. *)
Definition _HEADER_pack (magic : list byte) (version : Z) : list byte := magic ++ native_word true version.
Definition _HEADER_unpack (header : list byte) : list byte * Z := (take 8 header, native_value true (drop 8 header)).

Inductive RestoreOutcome := cold | restored | ignored.
Inductive WriteResult := ok | quiesce_timeout | error.

Record CheckpointWrite := mkWrite {
  cw_result : WriteResult;
  cw_error : option exn;
  pause_ingest_seconds : option float;
  copy_seconds : option float;
  write_seconds : option float;
  size_bytes : option Z
}.

Section checkpoint.
Context {D sec : Type}.
Context (msgpack_encode : dict string sec → py (list byte)) (msgpack_decode : list byte → option (option (dict string sec))).

(** A component: its name, and what it reads and writes of the coordinator's
    state. *)
Record DurableComponent := mkComponent { dc_name : string; dc_capture : D → py sec; dc_restore : sec → handler D unit }.

Definition _write_checkpoint (sections : dict string sec) : handler machine Z :=
  let^ payload := h_lift (msgpack_encode sections) in
  let^ _ := stream_write (_HEADER_pack _MAGIC _CHECKPOINT_VERSION) in
  let^ _ := stream_write payload in
  h_ret (Z.of_nat _HEADER_size + Z.of_nat (length payload)).

Definition _read_checkpoint (stream : list byte) : py (dict string sec) :=
  let header := take _HEADER_size stream in
  if negb (bool_decide (length header = _HEADER_size)) then Raise CheckpointFormatError
  else
    let '(magic, version) := _HEADER_unpack header in
    if negb (bool_decide (magic = _MAGIC)) then Raise CheckpointFormatError
    else if negb (version =? _CHECKPOINT_VERSION) then Raise CheckpointFormatError
    else
      match msgpack_decode (drop _HEADER_size stream) with
      | None => Raise CheckpointFormatError
      | Some None => Raise CheckpointFormatError
      | Some (Some decoded) => Ret decoded
      end.

(** What the quiesced thread reads: each component's name with its capture. *)
Definition component_readers (components : list DurableComponent) : list (D → string * py sec) := (λ c d, (dc_name c, dc_capture c d)) <$> components.

(** The loop over the components, from what was read. *)
Fixpoint collect (sections : dict string sec) (got : list (string * py sec)) : py (dict string sec) :=
  match got with
  | [] => Ret sections
  | (name, captured) :: got' =>
      if bool_decide (name ∈ dkeys sections) then Raise ValueError
      else let! x := captured in collect (dset name x sections) got'
  end.

(** [time.monotonic()], each time it is read. *)
Record stopwatch := mkStopwatch { started_at : float; quiesced_at : float; copied_at : float; written_at : float }.

(** [quiesced] is what [quiesce.quiesced] did: a timeout, or the captures. *)
Definition save_checkpoint (clock : stopwatch) (quiesced : option (list (string * py sec))) : handler machine CheckpointWrite := λ m,
  let pause := (λ _, f_sub (quiesced_at clock) (started_at clock)) <$> quiesced in
  let failed (e : exn) (copy : option float) : py CheckpointWrite :=
    match e with
    | TimeoutError => Ret (mkWrite (match pause with None => quiesce_timeout | Some _ => error end) (Some e) pause copy None None)
    | OSError | ValueError => Ret (mkWrite error (Some e) pause copy None None)
    | _ => Raise e
    end in
  match quiesced with
  | None => (failed TimeoutError None, m)
  | Some got =>
      match collect [] got with
      | Raise e => (failed e None, m)
      | Ret sections =>
          let copy := Some (f_sub (copied_at clock) (quiesced_at clock)) in
          match open_write_local (_write_checkpoint sections) m with
          | (Raise e, m) => (failed e copy, m)
          | (Ret size, m) => (Ret (mkWrite ok None pause copy (Some (f_sub (written_at clock) (copied_at clock))) (Some size)), m)
          end
      end
  end.

Definition restore_section (sections : dict string sec) (c : DurableComponent) : handler D unit := λ d,
  match dget (dc_name c) sections with
  | None => (Ret tt, d)
  | Some section =>
      match dc_restore c section d with
      | (Raise ValueError, d) | (Raise TypeError, d) | (Raise KeyError, d) => (Ret tt, d)
      | r => r
      end
  end.

Definition load_checkpoint (components : list DurableComponent) (opened : py (list byte)) : handler D RestoreOutcome :=
  match (let! stream := opened in _read_checkpoint stream) with
  | Raise ArtifactNotFoundError => h_ret cold
  | Raise OSError | Raise TimeoutError | Raise CheckpointFormatError => h_ret ignored
  | Raise e => h_raise e
  | Ret sections => let^ _ := h_iter (restore_section sections) components in h_ret restored
  end.

(** ** Replacing the file *)

Section replacing.
Context (name_ok : option file → Prop) (p0 : option file) (o0 : list (option file)).

(** All that a crash may find at the path is [name_ok]: a file, or that there is
    none. *)
Definition names_ok (dk : disk) : Prop := ∀ o, o ∈ names dk → name_ok o.

(** The name still has its first file; [T] is about what is to replace it. *)
Definition before_replace (T : option file → list byte → Prop) (m : machine) : Prop :=
  names_ok (m_disk m) ∧ Forall names_ok (m_past m) ∧ d_path (m_disk m) = p0 ∧ d_old (m_disk m) = o0 ∧ T (d_tmp (m_disk m)) (m_buffer m).

Definition anything (_ : option file) (_ : list byte) : Prop := True.
(** The file and the buffer hold [bs] together. *)
Definition holds_bytes (bs : list byte) (o : option file) (buffer : list byte) : Prop := ∃ f, o = Some f ∧ f_bytes f ++ buffer = bs.
Definition flushed (synced : bool) (bs : list byte) (o : option file) (buffer : list byte) : Prop := buffer = [] ∧ ∃ f, o = Some f ∧ f_bytes f = bs ∧ (synced = true → f_synced f = true).

Lemma hwp_io (T T' : option file → list byte → Prop) act bad m :
  (∀ now dk buffer, T (d_tmp dk) buffer → d_path (act now dk buffer).1 = d_path dk ∧ d_old (act now dk buffer).1 = d_old dk ∧ T' (d_tmp (act now dk buffer).1) (act now dk buffer).2) →
  (∀ k dk buffer, d_path (bad k dk buffer).1 = d_path dk ∧ d_old (bad k dk buffer).1 = d_old dk) →
  before_replace T m → hwp (io act bad) (λ _, before_replace T') (before_replace anything) m.
Proof.
  intros Hact Hbad (Hn & Hp & H0 & H1 & Ht). assert (Forall names_ok (m_past m ++ [m_disk m])) as Hp' by (by apply Forall_app_2; [|constructor]).
  assert (∀ now, before_replace T' (mkMachine (act now (m_disk m) (m_buffer m)).1 (act now (m_disk m) (m_buffer m)).2 (tl (m_weather m)) (m_past m ++ [m_disk m]))) as Ha.
  { intros now. destruct (Hact now (m_disk m) (m_buffer m) Ht) as (E1 & E2 & E3). split_and!; cbn; [unfold names_ok, names; by rewrite E1, E2|done|congruence|congruence|done]. }
  unfold hwp, io. destruct (hd Fine (m_weather m)) as [| |k]; [apply Ha|apply Ha|]. destruct (Hbad k (m_disk m) (m_buffer m)) as [E1 E2].
  split_and!; cbn; [unfold names_ok, names; by rewrite E1, E2|done|congruence|congruence|done].
Qed.

Lemma spill_names n dk buffer : d_path (spill n dk buffer).1 = d_path dk ∧ d_old (spill n dk buffer).1 = d_old dk.
Proof. unfold spill. by destruct (d_tmp dk), (take n buffer). Qed.

Lemma spill_holds n dk buffer bs : holds_bytes bs (d_tmp dk) buffer → holds_bytes bs (d_tmp (spill n dk buffer).1) (spill n dk buffer).2.
Proof.
  intros (f & Ef & E). unfold spill. rewrite Ef. destruct (take n buffer) as [|b t] eqn:Et; [by exists f|]. eexists. split; [done|]. cbn.
  by rewrite <-app_assoc, <-Et, take_drop.
Qed.

Lemma spill_flushes dk buffer bs : holds_bytes bs (d_tmp dk) buffer → flushed false bs (d_tmp (spill (length buffer) dk buffer).1) (spill (length buffer) dk buffer).2.
Proof.
  intros (f & Ef & E). unfold spill. rewrite Ef, firstn_all, drop_all. destruct buffer as [|b t]; cbn.
  - split; [done|]. exists f. by rewrite app_nil_r in E.
  - split; [done|]. eexists. split; [done|]. by cbn.
Qed.

Lemma stream_write_spec bs bs' m : before_replace (holds_bytes bs) m → hwp (stream_write bs') (λ _, before_replace (holds_bytes (bs ++ bs'))) (before_replace anything) m.
Proof.
  apply hwp_io; [|intros; apply spill_names]. intros now dk buffer (f & Ef & E). assert (holds_bytes (bs ++ bs') (d_tmp dk) (buffer ++ bs')) as H by (exists f; by rewrite <-E, app_assoc).
  destruct now; [|done]. destruct (spill_names (length (buffer ++ bs')) dk (buffer ++ bs')). split_and!; [done..|by apply spill_holds].
Qed.

Lemma flush_spec bs m : before_replace (holds_bytes bs) m → hwp stream_flush (λ _, before_replace (flushed false bs)) (before_replace anything) m.
Proof.
  apply hwp_io; [|intros; apply spill_names]. intros now dk buffer H. destruct (spill_names (length buffer) dk buffer). split_and!; [done..|by apply spill_flushes].
Qed.

Lemma fsync_spec bs m : before_replace (flushed false bs) m → hwp fsync (λ _, before_replace (flushed true bs)) (before_replace anything) m.
Proof. apply hwp_io; [|done]. intros now dk buffer (-> & f & -> & E & _). cbn. split_and!; [done..|]. split; [done|]. eexists. split; [done|]. by cbn. Qed.

Lemma close_synced bs m : before_replace (flushed true bs) m → hwp stream_close (λ _, before_replace (flushed true bs)) (before_replace anything) m.
Proof. apply hwp_io; [|intros; apply spill_names]. intros now dk buffer (-> & f & Ef & E & Hs). cbn. unfold spill. rewrite Ef. cbn. rewrite Ef. split_and!; [done..|]. split; [done|]. eauto. Qed.

Lemma close_anyway m : before_replace anything m → hwp stream_close (λ _, before_replace anything) (before_replace anything) m.
Proof. apply hwp_io; [|intros; apply spill_names]. intros now dk buffer _. destruct (spill_names (length buffer) dk buffer). by split_and!. Qed.

Lemma before_weaken T m : before_replace T m → before_replace anything m.
Proof. intros (?&?&?&?&?). by split_and!. Qed.

Lemma closing_spec {X} (h : handler machine X) bs (Q : X → Prop) m :
  hwp h (λ x m', Q x ∧ before_replace (flushed true bs) m') (before_replace anything) m →
  hwp (h_closing h) (λ x m', Q x ∧ before_replace (flushed true bs) m') (before_replace anything) m.
Proof.
  unfold hwp, h_closing. destruct (h m) as [[x|e] m1]; [intros [Hx Hm]|intros Hm].
  - pose proof (close_synced bs m1 Hm) as H. unfold hwp in H. by destruct (stream_close m1) as [[[]|e] m2].
  - pose proof (close_anyway m1 Hm) as H. unfold hwp in H. by destruct (stream_close m1) as [[[]|e'] m2].
Qed.

Lemma unlink_spec m : before_replace anything m → hwp unlink (λ _, before_replace anything) (before_replace anything) m.
Proof. by apply hwp_io. Qed.

Lemma hwp_anyway {X} (h : handler machine X) (Q : X → machine → Prop) (E : machine → Prop) m : hwp h Q E m → (∀ x m', Q x m' → E m') → E (h m).2.
Proof. unfold hwp. destruct (h m) as [[x|e] m']; cbn; [intros H HE; by apply HE in H|auto]. Qed.

Lemma except_spec {X} (h : handler machine X) (Q : X → machine → Prop) m :
  hwp h Q (before_replace anything) m → hwp (h_except h (λ e, let^ _ := unlink in h_raise e)) Q (before_replace anything) m.
Proof.
  unfold hwp at 1, h_except, hwp at 1. destruct (h m) as [[x|e] m1]; [done|]. intros Hm.
  pose proof (hwp_anyway unlink _ _ m1 (unlink_spec m1 Hm) ltac:(done)) as H. unfold h_bind. by destruct (unlink m1) as [[[]|e'] m2].
Qed.

(** The file is replaced by what the body wrote, or is as it was; a crash on the
    way finds one of the two, or an older one. *)
Lemma open_write_spec {X} (body : handler machine X) bs (Q : X → Prop) m :
  (∀ x, Q x → name_ok (Some (mkFile bs true))) → names_ok (m_disk m) → Forall names_ok (m_past m) → d_path (m_disk m) = p0 → d_old (m_disk m) = o0 →
  (∀ m1, before_replace (holds_bytes []) m1 → hwp body (λ x m', Q x ∧ before_replace (holds_bytes bs) m') (before_replace anything) m1) →
  hwp (open_write_local body)
    (λ x m', Q x ∧ names_ok (m_disk m') ∧ Forall names_ok (m_past m') ∧ d_path (m_disk m') = Some (mkFile bs true))
    (before_replace anything) m.
Proof.
  intros HP Hn Hp H0 H1 Hbody. unfold open_write_local. apply hwp_bind. eapply hwp_mono; [apply (hwp_io anything anything); [done..|by split_and!]| |done]. intros [] m1 Hm1.
  apply hwp_bind. eapply hwp_mono with (P := λ x m', Q x ∧ before_replace (flushed true bs) m'); [apply except_spec| |done].
  - apply hwp_bind. eapply hwp_mono; [apply (hwp_io anything (holds_bytes [])); [|done|exact Hm1]| |done].
    + intros now dk buffer _. cbn. split_and!; [done..|]. eexists. by split.
    + intros [] m2 Hm2. apply (closing_spec _ bs Q). apply hwp_bind. eapply hwp_mono; [by apply Hbody| |done]. intros x m3 [Hx Hm3].
      apply hwp_bind. eapply hwp_mono; [by apply flush_spec| |done]. intros [] m4 Hm4. apply hwp_bind. eapply hwp_mono; [by apply fsync_spec| |done]. intros [] m5 Hm5. by split.
  - intros x m2 [Hx (Hn2 & Hp2 & E0 & E1 & Eb & f & Ef & Ebs & Es)]. assert (f = mkFile bs true) as -> by (destruct f; cbn in *; by rewrite Ebs, Es).
    assert (Forall names_ok (m_past m2 ++ [m_disk m2])) as Hp3 by (by apply Forall_app_2; [|constructor]). unfold hwp, h_bind, replace_file, io.
    destruct (hd Fine (m_weather m2)); cbn [fst snd]; rewrite ?Ef; [| |by split_and!].
    all: split_and!; [done| |done|done]; intros o [->|Ho]%elem_of_cons; [by eapply HP|]; apply Hn2; exact Ho.
Qed.
End replacing.

(** What a save that starts from the disk [dk0] may leave: good files, and no
    file only if [dk0] may have had none. *)
Definition kept (P : list byte → Prop) (dk0 : disk) (o : option file) : Prop := file_ok P o ∧ (o = None → None ∈ names dk0).

Lemma names_kept P dk : names_ok (file_ok P) dk → names_ok (kept P dk) dk.
Proof. intros Hn o Ho. split; [by apply Hn|]. by intros ->. Qed.

Lemma kept_after_crash P dk0 dk a : names_ok (kept P dk0) dk → after_crash dk a → (a = None ∧ None ∈ names dk0) ∨ ∃ bs, a = Some bs ∧ P bs.
Proof.
  intros Hn (o & Ho & Ha). destruct (Hn o Ho) as [Hok Hnone]. destruct o as [f|]; cbn in *; [|by left; auto]. destruct Ha as (bs & -> & E), Hok as [Hs HP]. right. exists bs. split; [done|].
  by rewrite E.
Qed.

(** ** What survives *)

Lemma header_unpack rest : _HEADER_unpack (take _HEADER_size (_HEADER_pack _MAGIC _CHECKPOINT_VERSION ++ rest)) = (_MAGIC, _CHECKPOINT_VERSION).
Proof. done. Qed.

Lemma write_checkpoint_spec name_ok p0 o0 sections m :
  before_replace name_ok p0 o0 (holds_bytes []) m →
  match msgpack_encode sections with
  | Raise _ => hwp (_write_checkpoint sections) (λ _ _, False) (before_replace name_ok p0 o0 anything) m
  | Ret payload => hwp (_write_checkpoint sections) (λ _, before_replace name_ok p0 o0 (holds_bytes (_HEADER_pack _MAGIC _CHECKPOINT_VERSION ++ payload))) (before_replace name_ok p0 o0 anything) m
  end.
Proof.
  intros Hm. unfold _write_checkpoint. destruct (msgpack_encode sections) as [payload|e]; [|by eapply before_weaken]. apply hwp_bind, (hwp_lift _ payload); [done|].
  apply hwp_bind. eapply hwp_mono; [by apply stream_write_spec| |done]. intros [] m1 Hm1. apply hwp_bind. eapply hwp_mono; [by apply stream_write_spec| |done]. by intros [] m2 Hm2.
Qed.

Section survival.
Context {B : Type} (steps : B → list (D → D)) (components : list DurableComponent).
Context (msgpack_roundtrip : ∀ sections payload, msgpack_encode sections = Ret payload → msgpack_decode payload = Some (Some sections)).

Lemma read_written sections payload : msgpack_encode sections = Ret payload → _read_checkpoint (_HEADER_pack _MAGIC _CHECKPOINT_VERSION ++ payload) = Ret sections.
Proof.
  intros E%msgpack_roundtrip. unfold _read_checkpoint. rewrite header_unpack. change (drop _HEADER_size _) with payload. rewrite E.
  change (length _) with 12%nat. by rewrite !bool_decide_true.
Qed.

(** What the components of one moment say of themselves: after the batches [l]. *)
Definition sections_of (d : D) (l : list B) : py (dict string sec) := collect [] ((λ r, r (state_after steps d l)) <$> component_readers components).

(** The bytes are a checkpoint of a moment of the stream. *)
Definition moment (d : D) (lg : list B) (bs : list byte) : Prop :=
  ∃ l l' sections payload, lg = l ++ l' ∧ sections_of d l = Ret sections ∧ msgpack_encode sections = Ret payload ∧ bs = _HEADER_pack _MAGIC _CHECKPOINT_VERSION ++ payload.

Lemma moment_mono d lg more bs : moment d lg bs → moment d (lg ++ more) bs.
Proof. intros (l & l' & s & p & -> & H). exists l, (l' ++ more), s, p. by rewrite app_assoc. Qed.

Lemma names_mono d lg more dk : names_ok (file_ok (moment d lg)) dk → names_ok (file_ok (moment d (lg ++ more))) dk.
Proof. intros Hn o Ho. specialize (Hn o Ho). destruct o as [f|]; [|done]. destruct Hn as [Hs Hm]. split; [done|by apply moment_mono]. Qed.

Definition restore_all (sections : dict string sec) : handler D RestoreOutcome := let^ _ := h_iter (restore_section sections) components in h_ret restored.

(** A save moves the name to a checkpoint of the capture, or not at all. *)
Lemma save_names d lg clock got m :
  (∃ l l', lg = l ++ l' ∧ got = (λ r, r (state_after steps d l)) <$> component_readers components) →
  names_ok (file_ok (moment d lg)) (m_disk m) → m_past m = [] →
  let '(r, m') := save_checkpoint clock (Some got) m in
  names_ok (kept (moment d lg) (m_disk m)) (m_disk m') ∧ Forall (names_ok (kept (moment d lg) (m_disk m))) (m_past m') ∧
  match r with
  | Ret (mkWrite ok _ _ _ _ _) => ∃ sections payload, collect [] got = Ret sections ∧ msgpack_encode sections = Ret payload ∧
      d_path (m_disk m') = Some (mkFile (_HEADER_pack _MAGIC _CHECKPOINT_VERSION ++ payload) true)
  | _ => d_path (m_disk m') = d_path (m_disk m)
  end.
Proof.
  intros (l & l' & El & Eg) Hn%names_kept Hp. unfold save_checkpoint. set (good := kept (moment d lg) (m_disk m)) in *. destruct (collect [] got) as [sections|e] eqn:Ec; [|rewrite Hp; by destruct e].
  assert (Forall (names_ok good) (m_past m)) as Hp' by (by rewrite Hp).
  destruct (msgpack_encode sections) as [payload|e] eqn:Ee.
  - set (bs := _HEADER_pack _MAGIC _CHECKPOINT_VERSION ++ payload). assert (good (Some (mkFile bs true))) as HP by (split; [split; [done|]; exists l, l', sections, payload; subst got; done|done]).
    pose proof (open_write_spec good (d_path (m_disk m)) (d_old (m_disk m)) (_write_checkpoint sections) bs (λ _, True) m (λ _ _, HP) Hn Hp' eq_refl eq_refl) as H.
    specialize (H ltac:(intros m1 Hm1; pose proof (write_checkpoint_spec _ _ _ sections m1 Hm1) as Hw; rewrite Ee in Hw; by eapply hwp_mono; [exact Hw|..])).
    unfold hwp in H. destruct (open_write_local (_write_checkpoint sections) m) as [[size|e] m']; [destruct H as (_ & H1 & H2 & H3)|destruct H as (H1 & H2 & H3 & _)]; [|by destruct e].
    split_and!; [done..|]. by exists sections, payload.
  - pose proof (open_write_spec good (d_path (m_disk m)) (d_old (m_disk m)) (_write_checkpoint sections) [] (λ _, False) m ltac:(done) Hn Hp' eq_refl eq_refl) as H.
    specialize (H ltac:(intros m1 Hm1; pose proof (write_checkpoint_spec _ _ _ sections m1 Hm1) as Hw; rewrite Ee in Hw; by eapply hwp_mono; [exact Hw|..])).
    unfold hwp in H. destruct (open_write_local (_write_checkpoint sections) m) as [[size|e'] m']; [by destruct H|]. destruct H as (H1 & H2 & H3 & _). by destruct e'.
Qed.

(** *** What a start restores

    [DurableComponent.restore] replaces the component's state with a captured
    one: into a component as a start makes it, a section that was captured from
    [d] goes in without an error and is what the component captures next; the
    other components are left alone. *)
Definition restorable (fresh : DurableComponent → D → Prop) (d : D) : Prop :=
  ∀ c section d1, c ∈ components → dc_capture c d = Ret section → fresh c d1 →
  ∃ d2, dc_restore c section d1 = (Ret tt, d2) ∧ dc_capture c d2 = Ret section ∧
    ∀ c', c' ∈ components → dc_name c' ≠ dc_name c → dc_capture c' d2 = dc_capture c' d1 ∧ (fresh c' d1 → fresh c' d2).

(** A start from [a] restores every component as it was after [l]: what it reads
    is the sections of that moment, and from components as a start makes them it
    comes to ones that capture the same. *)
Definition restores (d : D) (l : list B) (a : option (list byte)) : Prop :=
  ∃ sections, sections_of d l = Ret sections ∧ ∀ d1,
    load_checkpoint components (open_read Fine a) d1 = restore_all sections d1 ∧
    ∀ fresh, restorable fresh (state_after steps d l) → (∀ c, c ∈ components → fresh c d1) →
      ∃ d2, load_checkpoint components (open_read Fine a) d1 = (Ret restored, d2) ∧ ∀ c, c ∈ components → dc_capture c d2 = dc_capture c (state_after steps d l).

Lemma collect_sections acc got sections :
  collect acc got = Ret sections →
  NoDup got.*1 ∧ (∀ name, name ∈ got.*1 → name ∉ dkeys acc) ∧ (∀ name x, dget name acc = Some x → dget name sections = Some x) ∧
  ∀ name captured, (name, captured) ∈ got → ∃ x, captured = Ret x ∧ dget name sections = Some x.
Proof.
  revert acc. induction got as [|[name captured] got IH]; intros acc; cbn [collect].
  { intros [= <-]. split_and!; [constructor|by intros ? ?%elem_of_nil|done|by intros ?? ?%elem_of_nil]. }
  case_bool_decide as Hname; [done|]. destruct captured as [x|e]; [|done]. cbn [py_bind]. intros (Hn & Hd & Hk & Hg)%IH. cbn [fmap list_fmap fst].
  assert (dget name sections = Some x) as Ex by (apply Hk; by rewrite dget_dset, decide_True). split_and!.
  - constructor; [|done]. intros Hin. apply (Hd name Hin). apply elem_dkeys_dset. by right.
  - intros name' [->|Hin]%elem_of_cons; [done|]. intros Ha. apply (Hd name' Hin), elem_dkeys_dset. by left.
  - intros name' y Ey. apply Hk. rewrite dget_dset. case_decide as E; [subst name'|done]. destruct Hname. apply dget_is_Some. by eexists.
  - intros name' captured' [[= -> ->]|Hin]%elem_of_cons; [by exists x|by apply Hg].
Qed.

Lemma sections_named d l sections :
  sections_of d l = Ret sections →
  NoDup (dc_name <$> components) ∧ ∀ c, c ∈ components → ∃ x, dc_capture c (state_after steps d l) = Ret x ∧ dget (dc_name c) sections = Some x.
Proof.
  unfold sections_of, component_readers. rewrite <-list_fmap_compose. intros (Hn & _ & _ & Hg)%collect_sections. split.
  - rewrite <-list_fmap_compose in Hn. exact Hn.
  - intros c Hc. apply Hg. apply list_elem_of_fmap. by exists c.
Qed.

(** The sections of one moment, restored one component after the other. *)
Lemma restore_each fresh d sections cs d1 :
  restorable fresh d → (∀ c, c ∈ cs → c ∈ components) → NoDup (dc_name <$> cs) →
  (∀ c, c ∈ cs → ∃ x, dc_capture c d = Ret x ∧ dget (dc_name c) sections = Some x) → (∀ c, c ∈ cs → fresh c d1) →
  ∃ d2, h_iter (restore_section sections) cs d1 = (Ret tt, d2) ∧ (∀ c, c ∈ cs → dc_capture c d2 = dc_capture c d) ∧
    ∀ c, c ∈ components → (dc_name c ∉ dc_name <$> cs) → dc_capture c d2 = dc_capture c d1.
Proof.
  intros Hlaw. revert d1. induction cs as [|c cs IH]; intros d1 Hcs Hn Hs Hf; [exists d1; split_and!; [done|by intros ? ?%elem_of_nil|done]|].
  cbn [fmap list_fmap] in Hn. apply NoDup_cons in Hn as [Hc Hn]. destruct (Hs c ltac:(left)) as (x & Ex & Eg).
  destruct (Hlaw c x d1 ltac:(apply Hcs; left) Ex ltac:(apply Hf; left)) as (d2 & Er & Ec & Ho).
  assert (∀ c', c' ∈ cs → dc_name c' ≠ dc_name c) as Hne by (intros c' Hin E; apply Hc; rewrite <-E; apply list_elem_of_fmap; by exists c').
  destruct (IH d2) as (d3 & E3 & H3 & Ho3); [intros c' ?; apply Hcs; by right|done|intros c' ?; apply Hs; by right| |].
  { intros c' Hin. apply Ho; [apply Hcs; by right|by apply Hne|apply Hf; by right]. }
  exists d3. split_and!.
  - cbn [h_iter]. unfold h_bind, restore_section at 1. rewrite Eg, Er. exact E3.
  - intros c' [->|Hin]%elem_of_cons; [|by apply H3]. rewrite Ho3, Ec by (done || (apply Hcs; left)). done.
  - intros c' Hin Hnot. cbn [fmap list_fmap] in Hnot. apply not_elem_of_cons in Hnot as [Hnot1 Hnot2]. rewrite Ho3 by done. by apply Ho.
Qed.

Lemma load_sections d l sections payload :
  sections_of d l = Ret sections → msgpack_encode sections = Ret payload → restores d l (Some (_HEADER_pack _MAGIC _CHECKPOINT_VERSION ++ payload)).
Proof.
  intros Es Ee. exists sections. split; [done|]. intros d1.
  assert (load_checkpoint components (open_read Fine (Some (_HEADER_pack _MAGIC _CHECKPOINT_VERSION ++ payload))) d1 = restore_all sections d1) as E
    by (unfold load_checkpoint; cbn [open_read py_bind]; by rewrite (read_written _ _ Ee)).
  split; [done|]. intros fresh Hlaw Hf. rewrite E. destruct (sections_named d l sections Es) as [Hn Hs].
  destruct (restore_each fresh (state_after steps d l) sections components d1 Hlaw ltac:(done) Hn Hs Hf) as (d2 & E2 & H2 & _).
  exists d2. split; [|done]. unfold restore_all, h_bind. by rewrite E2.
Qed.

Lemma load_moment d lg bs : moment d lg bs → ∃ l l', lg = l ++ l' ∧ restores d l (Some bs).
Proof. intros (l & l' & sections & payload & El & Es & Ee & ->). exists l, l'. split; [done|]. by eapply load_sections. Qed.

(** C8: A checkpoint is a moment of the stream, whatever happens to it. While
    threads apply batches, one thread (the only one that captures) captures the
    components and saves what it read, where any system call of the save may
    fail part of the way. A crash before, between or after the calls leaves a
    file from which a start reads the sections of all the components after one
    and the same prefix of the batches applied; an unsynced or half-written file
    is never seen, and there is no file only if there was none, or might have
    been none after a crash, before the save. Restored into components as a
    start makes them, these sections are what every component captures again:
    it is as it was, as far as its section says ([restorable], the contract of
    [DurableComponent.restore], is asked of the components; msgpack is asked to
    decode what it encoded). A save that reports [ok] has replaced the file with
    this capture, any other outcome left it alone, and the next save starts from
    what is found. *)
Theorem checkpoint_survives n d q got m clock r m' :
  reach steps (component_readers components) n 1 d q → captures q = [CDone got] →
  names_ok (file_ok (moment d (log q))) (m_disk m) → m_past m = [] → save_checkpoint clock (Some got) m = (r, m') →
  (∀ dk a, dk ∈ m_past m' ++ [m_disk m'] → after_crash dk a →
     (a = None ∧ None ∈ names (m_disk m) ∧ ∀ d1, load_checkpoint components (open_read Fine a) d1 = (Ret cold, d1)) ∨
     ∃ l l', log q = l ++ l' ∧ restores d l a) ∧
  (∀ w, r = Ret w → cw_result w = ok →
     ∃ l l', log q = l ++ l' ∧ got = (λ r, r (state_after steps d l)) <$> component_readers components ∧ restores d l (f_bytes <$> d_path (m_disk m'))) ∧
  ((∀ w, r = Ret w → cw_result w ≠ ok) → d_path (m_disk m') = d_path (m_disk m)) ∧
  (None ∈ names (m_disk m') → None ∈ names (m_disk m)) ∧
  ∀ more, names_ok (file_ok (moment d (log q ++ more))) (m_disk m').
Proof.
  intros Hr Hc Hn Hp E. destruct (reach_inv steps _ n d q Hr) as [_ _ (c & Ec & Hok)]. rewrite Hc in Ec. injection Ec as <-. destruct Hok as [_ Hl].
  pose proof (save_names d (log q) clock got m Hl Hn Hp) as H. rewrite E in H. destruct H as (H1 & H2 & H3). split_and!.
  - intros dk a Hdk Ha. assert (names_ok (kept (moment d (log q)) (m_disk m)) dk) as Hdk'.
    { apply elem_of_app in Hdk as [Hdk|Hdk%list_elem_of_singleton]; [by eapply Forall_forall in H2|by subst dk]. }
    destruct (kept_after_crash _ _ dk a Hdk' Ha) as [[-> ?]|(bs & -> & Hm)]; [by left|right]. by apply load_moment.
  - intros w -> Hw. destruct w as [res ? ? ? ? ?]. cbn in Hw. subst res. destruct H3 as (sections & payload & Es & Ee & Epath). destruct Hl as (l & l' & El & Eg).
    exists l, l'. split; [done|]. split; [done|]. rewrite Epath. apply (load_sections d l sections payload); [|done]. unfold sections_of. by rewrite <-Eg.
  - intros Hno. destruct r as [[[] ? ? ? ? ?]|e]; [|done..]. by destruct (Hno _ eq_refl).
  - intros HN. by apply (H1 None HN).
  - intros more. apply names_mono. intros o Ho. by apply H1.
Qed.
End survival.
End checkpoint.

(** ** What is counted of the saves

    lmcache/v1/mp_coordinator/utils/histogram.py and [CheckpointMonitor]. *)

Record Histogram := mkHistogram { bounds : list float; bucket_counts : list Z; h_sum : float; h_count : Z }.

Fixpoint pairwise {X} (l : list X) : list (X * X) :=
  match l with
  | a :: (b :: _) as l' => (a, b) :: pairwise l'
  | _ => []
  end.

Definition with_bounds (bs : list float) : py Histogram :=
  if match bs with [] => true | _ => existsb (λ q, SFleb q.2 q.1) (pairwise bs) end then Raise ValueError
  else Ret (mkHistogram bs (replicate (S (length bs)) 0) f_zero 0).

(** [bisect.bisect_left]: [fuel] is the length of the range. *)
Fixpoint bisect_bounds (fuel : nat) (a : list float) (x : float) (lo hi : nat) : nat :=
  match fuel with
  | O => lo
  | S fuel =>
      if (lo <? hi)%nat then
        let mid := ((lo + hi) / 2)%nat in
        if f_lt (default f_zero (a !! mid)) x then bisect_bounds fuel a x (S mid) hi else bisect_bounds fuel a x lo mid
      else lo
  end.

Definition observe (value : float) (h : Histogram) : Histogram :=
  let i := bisect_bounds (length (bounds h)) (bounds h) value 0 (length (bounds h)) in
  mkHistogram (bounds h) (alter (λ n, n + 1) i (bucket_counts h)) (f_add (h_sum h) value) (h_count h + 1).

(** The label of a bucket is its bound; the last one's is [+Inf]. *)
Fixpoint cumulate (acc : Z) (l : list (float * Z)) : list (option float * Z) :=
  match l with
  | [] => []
  | (b, n) :: l => (Some b, acc + n) :: cumulate (acc + n) l
  end.
Definition cumulative_buckets (h : Histogram) : list (option float * Z) := cumulate 0 (zip (bounds h) (bucket_counts h)) ++ [(None, h_count h)].

Record CheckpointStats := mkStats {
  cs_writes : WriteResult → Z;
  last_write_timestamp : option float;
  cs_size_bytes : option Z;
  pause_ingest : Histogram;
  copy : Histogram;
  write : Histogram;
  restored_on_start : option RestoreOutcome
}.

#[export] Instance write_result_eq_dec : EqDecision WriteResult.
Proof. solve_decision. Defined.

Definition observe_some (seconds : option float) (h : Histogram) : Histogram := match seconds with Some x => observe x h | None => h end.

Definition record_write (now : float) (w : CheckpointWrite) (st : CheckpointStats) : CheckpointStats :=
  let good := bool_decide (cw_result w = ok) in
  mkStats (λ r, if bool_decide (r = cw_result w) then cs_writes st r + 1 else cs_writes st r)
    (if good then Some now else last_write_timestamp st) (if good then size_bytes w else cs_size_bytes st)
    (observe_some (pause_ingest_seconds w) (pause_ingest st)) (observe_some (copy_seconds w) (copy st)) (observe_some (write_seconds w) (write st))
    (restored_on_start st).

Definition record_restore (outcome : RestoreOutcome) (st : CheckpointStats) : CheckpointStats :=
  mkStats (cs_writes st) (last_write_timestamp st) (cs_size_bytes st) (pause_ingest st) (copy st) (write st) (Some outcome).

(** A bucket for each bound and one above them, and every observation in one. *)
Definition histogram_ok (h : Histogram) : Prop := length (bucket_counts h) = S (length (bounds h)) ∧ zsum id (bucket_counts h) = h_count h.

Lemma bisect_range a x fuel lo hi : (lo <= hi)%nat → (lo <= bisect_bounds fuel a x lo hi <= hi)%nat.
Proof.
  revert lo hi. induction fuel as [|fuel IH]; intros lo hi Hle; cbn [bisect_bounds]; [lia|]. destruct (Nat.ltb_spec lo hi) as [Hlt|]; [|lia].
  assert (lo <= (lo + hi) / 2 < hi)%nat as Hmid by (split; [apply Nat.div_le_lower_bound; lia|apply Nat.Div0.div_lt_upper_bound; lia]).
  destruct (f_lt _ x); [pose proof (IH (S ((lo + hi) / 2)) hi)|pose proof (IH lo ((lo + hi) / 2)%nat)]; lia.
Qed.

Lemma observe_ok value h : histogram_ok h → histogram_ok (observe value h).
Proof.
  intros [Hl Hs]. unfold observe. set (i := bisect_bounds _ _ _ _ _). assert (i <= length (bounds h))%nat as Hi by (apply bisect_range; lia).
  split; cbn [bucket_counts bounds h_count]; [by rewrite length_alter|]. destruct (lookup_lt_is_Some_2 (bucket_counts h) i ltac:(lia)) as [n En].
  assert (alter (λ n, n + 1) i (bucket_counts h) = <[i := n + 1]> (bucket_counts h)) as -> by (rewrite list_insert_alter; apply list_alter_ext; [|done]; intros x Ex; congruence).
  rewrite (zsum_insert _ _ _ _ _ En). unfold id in *. lia.
Qed.

Lemma observe_some_ok seconds h : histogram_ok h → histogram_ok (observe_some seconds h).
Proof. destruct seconds; [apply observe_ok|done]. Qed.

Lemma with_bounds_ok bs h : with_bounds bs = Ret h → histogram_ok h.
Proof.
  unfold with_bounds. destruct (match bs with [] => _ | _ => _ end); [done|]. intros [= <-]. split; [apply (length_replicate (S (length bs)))|].
  apply (zsum_zero id (replicate (S (length bs)) 0)). intros n [i [-> _]%lookup_replicate]%list_elem_of_lookup. done.
Qed.

(** The saves by result add up to the saves. *)
Lemma writes_counted ws st :
  let st' := foldl (λ st q, record_write q.1 q.2 st) st ws in
  cs_writes st' ok + cs_writes st' quiesce_timeout + cs_writes st' error = cs_writes st ok + cs_writes st quiesce_timeout + cs_writes st error + Z.of_nat (length ws).
Proof.
  revert st. induction ws as [|[now w] ws IH]; intros st; cbn [foldl length]; [lia|]. specialize (IH (record_write now w st)). cbn zeta in IH |- *. etrans; [exact IH|].
  unfold record_write. cbn [cs_writes]. destruct (cw_result w); repeat case_bool_decide; try congruence; lia.
Qed.

(** ** Two components and their checkpoint *)

Definition demo_encode (sections : dict string Z) : py (list byte) :=
  match sections with
  | [("left"%string, x); ("right"%string, y)] => if (0 <=? x) && (x <? 256) && (0 <=? y) && (y <? 256) then Ret [byte_of x; byte_of y] else Raise OverflowError
  | _ => Raise TypeError
  end.
Definition demo_decode (payload : list byte) : option (option (dict string Z)) :=
  match payload with [x; y] => Some (Some [("left", of_byte x); ("right", of_byte y)]%string) | _ => None end.

Lemma demo_roundtrip sections payload : demo_encode sections = Ret payload → demo_decode payload = Some (Some sections).
Proof.
  unfold demo_encode. destruct sections as [|[k x] [|[k' y] [|]]]; try done; repeat case_match; try done; intros [= <-]. subst. cbn [demo_decode].
  rewrite !of_byte_of, !Z.mod_small by lia. done.
Qed.

Definition demo_components : list DurableComponent :=
  [mkComponent "left" (λ d : Z * Z, Ret d.1) (λ x d, (Ret tt, (x, d.2))); mkComponent "right" (λ d, Ret d.2) (λ x d, (Ret tt, (d.1, x)))].

Definition demo_captured : QuiesceLock :=
  default (new_quiesce 2 1 (0, 0)) (run demo_steps (component_readers demo_components) (demo_before ++ take 7 demo_after) (new_quiesce 2 1 (0, 0))).
Definition demo_machine (w : list weather) : machine := mkMachine (mkDisk None None []) [] w [].
Definition demo_clock : stopwatch := mkStopwatch f_zero f_zero f_zero f_zero.
Definition demo_save (w : list weather) : py CheckpointWrite * machine :=
  save_checkpoint demo_encode demo_clock (Some [("left", Ret 5); ("right", Ret 5)]%string) (demo_machine w).

(** Restored into any state, a component captures its section again. *)
Lemma demo_restorable d : restorable demo_components (λ _ _, True) d.
Proof.
  intros c section d1 [->|[->|[]%elem_of_nil]%elem_of_cons]%elem_of_cons; intros [= <-] _; (eexists; split; [reflexivity|]; split; [done|]);
    (intros c' [->|[->|[]%elem_of_nil]%elem_of_cons]%elem_of_cons; done).
Qed.

Lemma checkpoint_survives_witness :
  (∀ d1, ∃ d2, load_checkpoint demo_decode demo_components (open_read Fine (f_bytes <$> d_path (m_disk (demo_save [Fine; Fine; Spill]).2))) d1 = (Ret restored, d2) ∧
     ∀ c, c ∈ demo_components → dc_capture c d2 = dc_capture c (5, 5)) ∧
  (load_checkpoint demo_decode demo_components (open_read Fine (f_bytes <$> d_path (m_disk (demo_save [Fine; Fine; Spill]).2))) (0, 0) = (Ret restored, (5, 5)) ∧
   d_path (m_disk (demo_save [Fine; Fine; Spill; Fine; Fails 2]).2) = None).
Proof.
  split; [|by split; vm_compute].
  destruct (checkpoint_survives demo_encode demo_decode demo_steps demo_components demo_roundtrip 2 (0, 0) demo_captured [("left"%string, Ret 5); ("right"%string, Ret 5)]
    (demo_machine [Fine; Fine; Spill]) demo_clock (demo_save [Fine; Fine; Spill]).1 (demo_save [Fine; Fine; Spill]).2) as (_ & H & _).
  - apply run_reaches with (demo_before ++ take 7 demo_after). vm_compute. reflexivity.
  - vm_compute. reflexivity.
  - intros o [->|[]%not_elem_of_nil]%elem_of_cons. exact I.
  - reflexivity.
  - apply surjective_pairing.
  - destruct (H _ eq_refl) as (l & l' & _ & Eg & sections & _ & Hload); [vm_compute; reflexivity|]. intros d1.
    destruct (Hload d1) as [_ Hd]. destruct (Hd (λ _ _, True)) as (d2 & E2 & H2); [apply demo_restorable|done|]. exists d2. split; [done|].
    intros c Hc. rewrite H2 by done. injection Eg as E1 E3. destruct (state_after demo_steps (0, 0) l) as [x y]. cbn in E1, E3. by rewrite <-E1, <-E3.
Defined.
